(* ===== verification/_CoqProject ===== *)
-Q . S2P
Prelude.v
JsRuntime.v
Utf8.v
CborCommon.v
Half.v
CborWriter.v
CborReader.v
CborMachine.v
CborExact.v
CborSkip.v
CborDocuments.v
Codec.v
NumberText.v
CodecFacts.v
PlutusData.v
PlutusFacts.v
Credential.v
Address.v
BaseEncodingRef.v
AddressFacts.v
AddressText.v
AddressTheorems.v
Identifiers.v
Records.v
IdentifierTheorems.v
NativeScript.v
NativeFacts.v
Common.v
Serializable.v
Keyed.v
CommonFacts.v
Voting.v
VotingFacts.v
Pools.v
Certificates.v
CertificateFacts.v
Values.v
Scripts.v
ScriptFacts.v
SerializedValue.v
AssetNames.v
ValueFacts.v
Outputs.v
OutputFacts.v
Witnesses.v
WitnessFacts.v
Metadata.v
AuxiliaryData.v
AuxiliaryFacts.v
ParamParts.v
ParamFacts.v
ProtocolParams.v
ProtocolParamFacts.v
Proposals.v
ProposalFacts.v
BodyParts.v
Bodies.v
BodyFacts.v
TransactionTheorems.v
Inspectors.v
InspectorTheorems.v
CborTheorems.v
SlotCalc.v
SlotTheorems.v
Fees.v
FeeTheorems.v
Selection.v
RoundRobin.v
Change.v
ChangeFacts.v
RandomImprove.v
LargeFirst.v
GreedySelection.v
SelectionTheorems.v
GreedyFacts.v
ChangeAddress.v
ChangeAddressTheorems.v
RedeemerIndices.v
RedeemerTheorems.v
