(* ===== verification/Prelude.v ===== *)
(** * Verification of the Cardano JS SDK

    The repository is a monorepo of TypeScript packages for building wallets and
    services for Cardano.  This development models the parts that decide what
    goes into a transaction and how it is written down: the CBOR layer and the
    serialization classes above it up to whole transactions, addresses,
    identifiers and slot arithmetic ([packages/core], [packages/util],
    [packages/crypto/src/hexTypes.ts]), the inspectors that tell what a
    transaction does to a wallet ([packages/core/src/util]), the selection of inputs with its change
    ([packages/input-selection]), fees, minimum coins and the indices of
    redeemers ([packages/tx-construction]), and the change addresses of a wallet
    that delegates to several pools ([packages/wallet]).

    ** How the parts interact

    A serialization class has [toCbor], which drives a [CborWriter], [fromCbor],
    which drives a [CborReader] over a hex blob, and [toCore] and [fromCore],
    which convert to the plain values of [packages/core/src/Cardano].  A class
    that embeds another copies its blob with [writeEncodedValue] and hands the
    bytes [readEncodedValue] cuts out to its [fromCbor].  Most objects keep the
    blob they were decoded from ([#originalBytes]) and return it until a setter
    is called.  The input selectors take UTxOs and outputs, and call back for
    fees, minimum quantities and change addresses; [packages/tx-construction]
    answers the first two from the size of the serialized transaction, and gives
    redeemers their indices once the inputs are chosen; [packages/wallet] answers
    the third.

    ** How code is rendered

    A method of a mutable object is a function from the object's state to an
    outcome and the state it leaves behind, also when it throws ([ST] below).
    An outcome is a value, an exception of the program or the end of the fuel
    ([outcome]); the third is a value of its own so that termination is a
    theorem.  Bigints are [Z]; a [number] is [Z] where the code keeps integers
    in it, with the conversions ([Number_of]) and 32-bit operations written out,
    and a [spec_float] where it keeps fractions (halves, prices, weights).  Bytes are lists of [Z],
    hex blobs strings of characters, other strings lists of UTF-16 code units.
    Objects are records; a class that wraps one of several is a record over an
    inductive type.  A class with dozens of optional fields is a record with an
    inductive type of field names, over which what it does field by field is
    defined once per kind of field ([ProtocolParams.v], [BodyParts.v]).  Objects that are shared are modelled by what the accessors
    of the wrapper reach ([NativeScript.v], [Certificates.v]); object identity
    matters in [Values.v] and the selectors, where UTxOs carry references.

    ** The files, in layers

    - [Prelude], [JsRuntime], [Utf8], [NumberText]: notation, outcomes
      and state, lists and integers; Number conversion, bit operations, [Buffer]
      and [Map]; UTF-8; doubles and their decimal text; base64.
    - CBOR, [packages/core/src/Serialization/CBOR].  [CborCommon] (the tables:
      [CborMajorType.ts], [CborTag.ts], ...), [Half] ([Half.ts]), [CborWriter]
      ([CborWriter.ts]), [CborReader] ([CborReader.ts]: the state is the offset,
      the stack of open containers, the tag context and the cached state).
      [CborMachine] is the abstract machine of the reader: what states promise
      ([wf]) and the moves ([step]); every method makes such moves or throws and
      leaves the state as it was.  [CborExact]: the exact effect of every method
      on the bytes of an item.  [CborSkip]: well-formed CBOR as an inductive
      predicate, and that [readEncodedValue] accepts exactly it.
      [CborDocuments]: balanced sequences of writer calls.  [CborTheorems]: the
      properties.
    - The codec of classes.  [Codec], [CodecFacts]: the conventions all classes
      share, loops over containers, nested values, maps; reading back what is
      written ([emits], [reads]) and behaviour on any input ([runs]).
      [Records]: arrays of fields, with rules for a decoder on the array of its
      fields ([completes]) and on any input ([sound], [accepts]).  [Keyed]: loops
      that insert into an object, and maps from small keys to optional fields.  [Serializable]: the interface a class offers to those that embed
      it, with the lemmas of its clients: parts, optional parts, lists, sets.
    - Classes.  [PlutusData] ([PlutusData/*.ts]) with [PlutusFacts]; [Credential]
      ([Common/Credential.ts] and the checked hex strings of [hexTypes.ts]);
      [NativeScript] ([Scripts/NativeScript/*.ts]) with [NativeFacts]; [Common]
      ([Common/*.ts]) with [CommonFacts]; [Pools] ([Certificates/PoolParams]) and
      [Certificates] ([Certificates/*.ts]: nineteen kinds and the wrapper) with
      [CertificateFacts]; [Voting] ([VotingProcedures/*.ts]) with [VotingFacts].
    - Outputs.  [Scripts] ([Scripts/PlutusScript], [Script.ts] and script hashes) with
      [ScriptFacts]; [SerializedValue] (asset identifiers, the two forms of token
      maps, [TransactionBody/Value.ts]) with [ValueFacts]; [AssetNames]
      ([Asset/cip67.ts] and [Asset/crc8.ts], with their properties); [Outputs] ([TransactionInput.ts],
      [Common/Datum.ts], [TransactionOutput.ts], [TransactionUnspentOutput.ts])
      with [OutputFacts].
    - Witnesses and metadata.  [Witnesses] ([TransactionWitnessSet/*.ts]) with
      [WitnessFacts]; [Metadata] ([AuxiliaryData/TransactionMetadata/*.ts]) and
      [AuxiliaryData] ([AuxiliaryData.ts]) with [AuxiliaryFacts].
    - Parameters and governance.  [ParamParts] and [ProtocolParams]
      ([Serialization/Update/*.ts]) with [ParamFacts] and [ProtocolParamFacts];
      [Proposals] ([ProposalProcedure/*.ts]: the seven actions and the
      procedure) with [ProposalFacts].
    - Transactions.  [BodyParts] (guards, balance intervals and the fields of
      bodies) and [Bodies] ([SubTransactionBody.ts], [SubTransaction.ts],
      [TransactionBody.ts], [Transaction.ts]) with [BodyFacts] (a lemma per kind
      of field, and induction over the fields) and [TransactionTheorems].
    - Inspection.  [Inspectors] ([txInspector.ts], [tokenTransferInspector.ts],
      [transactionSummaryInspector.ts], [tryGetAssetInfos.ts] and
      [Cardano/util/computeImplicitCoin.ts]) with [InspectorTheorems].
    - Addresses.  [Address] ([packages/core/src/Cardano/Address]: the five kinds)
      with [AddressFacts], [AddressText] (the text forms, and Byron addresses) and
      [AddressTheorems];
      [BaseEncodingRef] shows that the laws of the text encodings can hold;
      [Identifiers] ([RewardAccount.ts], [DRepID.ts], [PaymentCredential.ts],
      [PaymentAddress.ts], pool identifiers) with [IdentifierTheorems].
    - Time.  [SlotCalc] ([packages/core/src/util/slotCalc.ts]) with [SlotTheorems].
    - Input selection.  [Values] ([Cardano/types/Value.ts], [BigIntMath.ts],
      [coalesceTokenMaps.ts], ...), [Selection] ([util.ts], [types.ts]),
      [RoundRobin] ([roundRobin.ts]), [Change] ([change.ts]) with [ChangeFacts],
      [RandomImprove] and [LargeFirst] (two selectors), [SelectionTheorems];
      [GreedySelection] (the third, [GreedySelection/*.ts]) with [GreedyFacts].
    - Construction.  [Fees] ([fees.ts], [selectionConstraints.ts]) with
      [FeeTheorems]; [RedeemerIndices] ([selectionConstraints.ts],
      [GreedyTxEvaluator.ts]) with [RedeemerTheorems]; [ChangeAddress]
      ([DynamicChangeAddressResolver.ts], [sortAddresses.ts]) with
      [ChangeAddressTheorems].

    ** What the theorems show

    - The reader: every call either makes a move of the abstract machine or
      throws and changes nothing; the state stays well formed; on well-formed
      CBOR [readEncodedValue] returns exactly the next item, on anything else it
      throws; it always ends.  The writer: balanced sequences of calls write one
      well-formed item; heads are the shortest; each kind of value is read back.
    - The classes: a valid core value is written as the ledger's CDDL specifies
      (the [...Bytes] functions, independent of the code) and read back to an
      object that stands for the same value and is written as the same bytes; on
      any blob a decoder ends, and what it accepts has fields of the right types.
      Both are proved once per class against the interface of [Serializable].
    - Whole transactions: a transaction with a valid body, witness set and
      auxiliary data is written as specified and read back to itself; its
      identifier is the hash of the encoding of its body, and that of a decoded
      transaction the hash of the bytes of the body as they are in the blob; a
      decoded transaction is edited by its setters.
    - Addresses and identifiers: packing and unpacking, and the text forms, are
      inverse to each other; what is unpacked packs to the same bytes.
    - Selection: what is selected, the change and the fee balance the outputs for
      every asset; the constraints hold of the result; the loops end; under
      stated conditions a selection is found.  The greedy selector does the same
      for any weights of the change addresses.
    - Construction: the minimum coins of an output are the fixed point that the
      ledger asks for; the index of a redeemer is the rank of what it unlocks in
      the order of the ledger; the change of a wallet is distributed to the pools
      that are furthest below their weight.
    - Inspection: the transfers shown for a transaction are what every address
      gains or loses, asset by asset; the value a summary cannot account for is
      that of the inputs that are not found; the deposits of a wallet are those
      of its own credentials, although they are told apart by texts.  The label
      of an asset name is read back, and a label with an error is rejected.
    - Time: the slots of an epoch are an interval, the ones that are mapped to the
      epoch; dates increase with slots.
    - Values and outputs: a value is canonical whatever the order of the tokens
      it is made from; unspent outputs survive serialization; the decoder of
      outputs is total on every blob, strict or not.
    - The code's departures from what it says are theorems too, or concrete
      instances; the findings list them.

    ** Fuel

    The loops over a container ([readWhileNot], [readLoop]) and the nested
    decoders ([fromCbor] of Plutus data, native scripts and metadata) have one
    more than the bytes in front of them, and every round consumes a byte;
    [skipLoop] has [skipFuel], two per byte and one; [rounds] has [loopFuel], one
    more than the UTxOs and tokens that remain, of which each pass uses up one;
    the fee loop of [Change] has one more than the UTxOs that remain, that of the
    greedy selector one more than the coins of the change ([feeFuel]), since
    every round raises the fee; [splitFuel] is 9, since the coins are less than
    2^9 times the smallest share and are halved; [minAdaFuel] is 9, the sizes an
    encoded coin can have; [epochFuel] is the epoch, which every round brings
    closer.  Each bound
    is proved to be enough, so the third outcome never occurs; blobs are shorter
    than 2^53 bytes.  The decimal text of a double is searched for among those of
    1 to 17 digits, as ECMAScript defines it.

    ** Parameters

    Code outside the repository is a class with the laws it is documented to
    have, and an instance that has them: [Lodash], [EraLodash], [MemoizeCache]
    and [UniqWith] (lodash), [Random] (the random source),
    [ChangeAddressResolver], [PickAdditionalUtxo], [InputResolver] and
    [AssetProvider] (callbacks), [BigNumber]
    (bignumber.js), [FractionJs] (fraction.js), [Crc32] (@foxglove/crc),
    [BaseEncoding] (@scure/base) and [Bech32] (bech32) with [Bech32Ends], that
    an encoding returns, [IpAddress] (ip-address), [Blake2b] (the package
    blake2b), and [Era] (the flag of [util/conwayEra.ts]).

    ** Not modelled

    Hashes, signatures and key derivation (third-party cryptography); services,
    clients, providers, the rest of the wallet, web extension, hardware wallets
    and persistence (input and output, RxJS pipelines, third-party clients).
    Type declarations without behaviour are modelled with the code that uses
    them.  The size limit that [TxBuilder] and [selectionConstraints.ts] check is
    that of a serialized transaction, which is an argument in [Fees.v].  The
    transaction builder itself and the projection of blocks are left: they are
    compositions of observables and callbacks around the parts modelled here.
    So are the helpers of key management that pick the paths of the keys a
    transaction needs. *)
From stdpp Require Export base list strings pretty gmap sorting.
From Stdlib Require Export ZArith Lia Ascii.

#[export] Set Default Goal Selector "!".
#[global] Open Scope Z_scope.

(** ** Outcomes of fallible code

    A TypeScript function either returns a value or throws.  Loops that are
    not structurally recursive are written with fuel; running out of it is a
    third outcome, kept apart from every error of the program so that
    termination is a theorem and not an assumption. *)

Inductive outcome (E A : Type) : Type :=
  | Ok (a : A)
  | Throw (e : E)
  | OutOfFuel.
Arguments Ok {E A} a.
Arguments Throw {E A} e.
Arguments OutOfFuel {E A}.

#[export] Instance outcome_ret {E} : MRet (outcome E) := fun A a => Ok a.

#[export] Instance outcome_bind {E} : MBind (outcome E) := fun A B k m =>
  match m with
  | Ok a => k a
  | Throw e => Throw e
  | OutOfFuel => OutOfFuel
  end.

#[export] Instance outcome_fmap {E} : FMap (outcome E) := fun A B f m =>
  match m with
  | Ok a => Ok (f a)
  | Throw e => Throw e
  | OutOfFuel => OutOfFuel
  end.

#[export] Instance outcome_eq_dec {E A} `{EqDecision E, EqDecision A} :
  EqDecision (outcome E A).
Proof. solve_decision. Defined.

(** ** Stateful fallible code

    A method of a mutable object takes the object's state and returns an
    outcome together with the state it leaves behind, also when it throws:
    an exception does not undo the assignments made before it. *)

Definition ST (S E A : Type) : Type := S -> outcome E A * S.

#[export] Instance ST_ret {S E} : MRet (ST S E) := fun A a s => (Ok a, s).

#[export] Instance ST_bind {S E} : MBind (ST S E) := fun A B k m s =>
  match m s with
  | (Ok a, s') => k a s'
  | (Throw e, s') => (Throw e, s')
  | (OutOfFuel, s') => (OutOfFuel, s')
  end.

#[export] Instance ST_fmap {S E} : FMap (ST S E) := fun A B f m s =>
  match m s with
  | (Ok a, s') => (Ok (f a), s')
  | (Throw e, s') => (Throw e, s')
  | (OutOfFuel, s') => (OutOfFuel, s')
  end.

Definition st_get {S E} : ST S E S := fun s => (Ok s, s).
Definition st_gets {S E A} (f : S -> A) : ST S E A := fun s => (Ok (f s), s).
Definition st_put {S E} (s' : S) : ST S E unit := fun _ => (Ok tt, s').
Definition st_modify {S E} (f : S -> S) : ST S E unit := fun s => (Ok tt, f s).
Definition st_throw {S E A} (e : E) : ST S E A := fun s => (Throw e, s).
Definition st_fuel {S E A} : ST S E A := fun s => (OutOfFuel, s).
Definition st_lift {S E A} (m : outcome E A) : ST S E A := fun s => (m, s).

(** [st_guard b e] is [if (b) throw e;]. *)
Definition st_guard {S E} (b : bool) (e : E) : ST S E unit :=
  if b then st_throw e else mret tt.

(** ** Bit operations in the source's infix form *)

Declare Scope js_scope.
Delimit Scope js_scope with js.
Infix ".&" := Z.land (at level 40, left associativity) : js_scope.
Infix ".|" := Z.lor (at level 50, left associativity) : js_scope.
Infix ".^" := Z.lxor (at level 45, left associativity) : js_scope.
Infix ".<<" := Z.shiftl (at level 38, left associativity) : js_scope.
Infix ".>>" := Z.shiftr (at level 38, left associativity) : js_scope.

(** ** Bytes *)

Definition is_byte (b : Z) : Prop := 0 <= b < 256.
Abbreviation bytes := (Forall is_byte).

#[export] Instance is_byte_dec b : Decision (is_byte b).
Proof. unfold is_byte. apply _. Defined.

(** Length of a list as the integer JavaScript reads from [.length]. *)
Definition zlen {A} (l : list A) : Z := Z.of_nat (length l).

(** Sum of a list of integers, the specification of [BigIntMath.sum]. *)
Definition zsum (l : list Z) : Z := foldr Z.add 0 l.

(** ** Automation *)

Create HintDb js discriminated.
Create Rewrite HintDb zlen.

(** Reduce the state monad's combinators and nothing else. *)
Ltac st_step :=
  cbv beta iota delta [mbind mret fmap ST_bind ST_ret ST_fmap outcome_bind outcome_ret
       outcome_fmap st_get st_gets st_put st_modify st_throw st_fuel st_lift
       st_guard fst snd] in *.

(** Turn the boolean comparisons of the source into arithmetic facts. *)
Ltac zb :=
  repeat match goal with
  | H : (_ <? _) = true |- _ => apply Z.ltb_lt in H
  | H : (_ <? _) = false |- _ => apply Z.ltb_ge in H
  | H : (_ <=? _) = true |- _ => apply Z.leb_le in H
  | H : (_ <=? _) = false |- _ => apply Z.leb_gt in H
  | H : (_ =? _) = true |- _ => apply Z.eqb_eq in H
  | H : (_ =? _) = false |- _ => apply Z.eqb_neq in H
  | H : (_ >? _) = true |- _ => rewrite Z.gtb_ltb in H
  | H : (_ >? _) = false |- _ => rewrite Z.gtb_ltb in H
  | H : (_ >=? _) = true |- _ => rewrite Z.geb_leb in H
  | H : (_ >=? _) = false |- _ => rewrite Z.geb_leb in H
  | H : negb _ = true |- _ => apply negb_true_iff in H
  | H : negb _ = false |- _ => apply negb_false_iff in H
  | H : _ && _ = true |- _ => apply andb_true_iff in H; destruct H
  | H : _ || _ = false |- _ => apply orb_false_iff in H; destruct H
  end.

(** Case on every boolean test that blocks the goal. *)
Ltac case_bool :=
  match goal with
  | |- context [if ?b then _ else _] =>
      lazymatch type of b with bool => destruct b eqn:? end
  end.

(** ** Evaluating the state monad one statement at a time *)

Section st_eval.
Context {S E A B : Type}.
Implicit Types (k : A -> ST S E B) (s : S).

Lemma st_bind_ok (m : ST S E A) k s v s' : m s = (Ok v, s') -> (m ≫= k) s = k v s'.
Proof. intros H. unfold mbind, ST_bind. by rewrite H. Qed.

Lemma st_bind_throw (m : ST S E A) k s e s' : m s = (Throw e, s') -> (m ≫= k) s = (Throw e, s').
Proof. intros H. unfold mbind, ST_bind. by rewrite H. Qed.

Lemma st_lift_ok (o : outcome E A) k s v : o = Ok v -> (st_lift o ≫= k) s = k v s.
Proof. intros ->. reflexivity. Qed.
End st_eval.

Lemma st_get_ok {S E B} (k : S -> ST S E B) s : (st_get ≫= k) s = k s s.
Proof. reflexivity. Qed.

Lemma st_modify_ok {S E B} (f : S -> S) (k : ST S E B) s : (st_modify f ;; k) s = k (f s).
Proof. reflexivity. Qed.

Lemma st_guard_ok {S E B} b (e : E) (k : ST S E B) s :
  b = false -> (st_guard b e ;; k) s = k s.
Proof. intros ->. reflexivity. Qed.

(** ** Lemmas on lists and integers shared by the components *)

Lemma zlen_nonneg {A} (l : list A) : 0 <= zlen l.
Proof. unfold zlen. lia. Qed.

Lemma zlen_cons {A} (x : A) l : zlen (x :: l) = zlen l + 1.
Proof. unfold zlen. cbn [length]. lia. Qed.

Lemma zlen_app {A} (l k : list A) : zlen (l ++ k) = zlen l + zlen k.
Proof. unfold zlen. rewrite length_app. lia. Qed.

Lemma zlen_fmap {A B} (f : A -> B) l : zlen (f <$> l) = zlen l.
Proof. unfold zlen. by rewrite length_fmap. Qed.

Lemma zlen_0 {A} (l : list A) : zlen l = 0 -> l = [].
Proof. unfold zlen. destruct l; [done|cbn; lia]. Qed.

#[export] Hint Rewrite @zlen_cons @zlen_app @zlen_fmap : zlen.
#[export] Hint Resolve zlen_nonneg : js.

(** Push [zlen] through the list operations. *)
Ltac zlen_simpl :=
  autorewrite with zlen in *;
  repeat match goal with
  | |- context [zlen (@nil ?A)] => change (zlen (@nil A)) with 0
  | H : context [zlen (@nil ?A)] |- _ => change (zlen (@nil A)) with 0 in H
  end.

Lemma zsum_app l k : zsum (l ++ k) = zsum l + zsum k.
Proof. induction l as [|x l IH]; cbn; [done|]. unfold zsum in *. lia. Qed.

Lemma zsum_permutation l k : l ≡ₚ k -> zsum l = zsum k.
Proof. induction 1; cbn; unfold zsum in *; lia. Qed.

Lemma zsum_nonneg l : Forall (fun x => 0 <= x) l -> 0 <= zsum l.
Proof. induction 1; cbn; unfold zsum in *; lia. Qed.

#[export] Instance zsum_proper : Proper ((≡ₚ) ==> (=)) zsum.
Proof. intros l k. apply zsum_permutation. Qed.

Lemma bytes_app l k : bytes (l ++ k) <-> bytes l /\ bytes k.
Proof. apply Forall_app. Qed.

Lemma filter_all {A} (P : A -> Prop) `{!forall x, Decision (P x)} l : Forall P l -> filter P l = l.
Proof. induction 1 as [|x l Hx Hl IH]; [done|]. rewrite filter_cons, decide_True by done. by rewrite IH. Qed.

Lemma filter_none {A} (P : A -> Prop) `{!forall x, Decision (P x)} l : filter P l = [] -> Forall (fun x => ~ P x) l.
Proof.
  induction l as [|x l IH]; [constructor|]. rewrite filter_cons. case_decide; [done|]. intros. constructor; auto.
Qed.

Lemma Forall_filter {A} (P Q : A -> Prop) `{!forall x, Decision (Q x)} l : Forall P l -> Forall P (filter Q l).
Proof.
  rewrite !Forall_forall. intros Hl x [_ Hx]%list_elem_of_filter. auto.
Qed.
