(* ===== verification/JsRuntime.v ===== *)
(** * What the sources use of the JavaScript runtime

    Number conversion of a BigInt, 32-bit bit operations, typed-array slices,
    Node's [Buffer] accessors (big endian and hexadecimal), and the
    insertion-ordered [Map].  Integers are [Z]; a [number] that comes from a
    [bigint] is rounded to the nearest double ([Number_of]), so lengths of
    more than 53 bits behave as they do in the source. *)

From S2P Require Import Prelude.

(** ** Numbers *)

(** [Number(x)] for a non-negative [bigint] below 2^1024: round to nearest
    with 53 bits of precision, ties to even. *)
Definition Number_of (x : Z) : Z :=
  if x <? 2 ^ 53 then x
  else
    let e := Z.log2 x - 52 in
    let q := x / 2 ^ e in
    let r := x mod 2 ^ e in
    let half := 2 ^ (e - 1) in
    let up := (half <? r) || ((r =? half) && Z.odd q) in
    (if up then q + 1 else q) * 2 ^ e.

(** Addition and subtraction of two [number]s that hold integers; the second
    one is only used where the result is not negative. *)
Definition num_add (x y : Z) : Z := Number_of (x + y).
Definition num_sub (x y : Z) : Z := Number_of (x - y).

(** The conversion every bitwise operator applies to its operands. *)
Definition ToInt32 (x : Z) : Z :=
  let m := x mod 2 ^ 32 in
  if m <? 2 ^ 31 then m else m - 2 ^ 32.

(** ** Typed arrays *)

(** [l.slice(a, b)] and [l.slice(a)] for non-negative indices. *)
Definition slice {A} (l : list A) (a b : Z) : list A :=
  let n := zlen l in
  let a' := Z.to_nat (Z.min a n) in
  let b' := Z.to_nat (Z.min b n) in
  take (b' - a') (drop a' l).

Definition slice_from {A} (l : list A) (a : Z) : list A :=
  drop (Z.to_nat (Z.min a (zlen l))) l.

(** [l[i]] where the index is known to be in range; 0 stands for the
    [undefined] of an out-of-range read. *)
Definition byte_at (l : list Z) (i : Z) : Z := nth (Z.to_nat (Z.min i (zlen l))) l 0.

(** ** Big endian *)

(** [readUInt16BE], [readUInt32BE] and the source's own 64-bit loop. *)
Definition be_decode (l : list Z) : Z :=
  fold_left (fun acc b => Z.shiftl acc 8 + b) l 0.

(** [writeUInt8], [writeUInt16BE], [writeUInt32BE]: [n] bytes of [v]. *)
Fixpoint be_encode (n : nat) (v : Z) : list Z :=
  match n with
  | O => []
  | S k => be_encode k (v / 256) ++ [v mod 256]
  end.

(** ** Hexadecimal *)

Definition hex_char (d : Z) : ascii :=
  ascii_of_nat (Z.to_nat (if d <? 10 then 48 + d else 87 + d)).

Definition hex_val (c : ascii) : option Z :=
  let n := Z.of_nat (nat_of_ascii c) in
  if (48 <=? n) && (n <=? 57) then Some (n - 48)
  else if (97 <=? n) && (n <=? 102) then Some (n - 87)
  else if (65 <=? n) && (n <=? 70) then Some (n - 55)
  else None.

(** [Buffer.from(s, 'hex')]: stops at the first pair that is not two
    hexadecimal digits; a trailing single digit is ignored. *)
Fixpoint Buffer_from_hex (s : string) : list Z :=
  match s with
  | String c1 (String c2 rest) =>
      match hex_val c1, hex_val c2 with
      | Some h, Some l => (16 * h + l) :: Buffer_from_hex rest
      | _, _ => []
      end
  | _ => []
  end.

(** [buffer.toString('hex')]. *)
Fixpoint Buffer_to_hex (l : list Z) : string :=
  match l with
  | [] => EmptyString
  | b :: rest => String (hex_char (b / 16)) (String (hex_char (b mod 16)) (Buffer_to_hex rest))
  end.

(** [value.toString(16)] of a non-negative [bigint]: at least one digit, no
    leading zero.  The binary length of the value bounds the digits. *)
Fixpoint hex_digits (fuel : nat) (x : Z) (acc : string) : string :=
  match fuel with
  | O => acc
  | S k =>
      let acc' := String (hex_char (x mod 16)) acc in
      if x / 16 =? 0 then acc' else hex_digits k (x / 16) acc'
  end.

Definition bigint_toString16 (x : Z) : string :=
  hex_digits (S (Z.to_nat (Z.log2 x))) x EmptyString.

(** ** Insertion-ordered maps

    [Map]: [set] on a present key keeps the key's position, on an absent key
    appends; iteration is in insertion order. *)

Module JsMap.
Section map.
Context {K V : Type} `{EqDecision K}.

Definition t : Type := list (K * V).

Fixpoint get (m : list (K * V)) (k : K) : option V :=
  match m with
  | [] => None
  | (k', v) :: m' => if decide (k' = k) then Some v else get m' k
  end.

Definition has (m : list (K * V)) (k : K) : bool :=
  match get m k with Some _ => true | None => false end.

Fixpoint set (m : list (K * V)) (k : K) (v : V) : list (K * V) :=
  match m with
  | [] => [(k, v)]
  | (k', v') :: m' => if decide (k' = k) then (k', v) :: m' else (k', v') :: set m' k v
  end.

Fixpoint delete (m : list (K * V)) (k : K) : list (K * V) :=
  match m with
  | [] => []
  | (k', v') :: m' => if decide (k' = k) then m' else (k', v') :: delete m' k
  end.

Definition keys (m : list (K * V)) : list K := m.*1.
Definition values (m : list (K * V)) : list V := m.*2.
Definition size (m : list (K * V)) : Z := zlen m.

(** [new Map(entries)]: later entries win, positions of the first. *)
Definition of_entries (l : list (K * V)) : list (K * V) :=
  fold_left (fun m kv => set m kv.1 kv.2) l [].

(** A value of the type is a map when no key occurs twice. *)
Definition wf (m : list (K * V)) : Prop := NoDup (keys m).
End map.
End JsMap.

(** ** Sorting

    [a > b] of two strings, by code units, and [Array.prototype.sort] with a
    comparator that answers 1 when [greater a b] and -1 when not.  Between
    elements for which the comparator is an order the result is the sorted list.
    Two elements of which neither is greater come out in reverse, as the engine
    of Node has it; the language leaves their order open. *)

Fixpoint string_gt (a b : string) : bool :=
  match a, b with
  | EmptyString, _ => false
  | String _ _, EmptyString => true
  | String c a, String d b => if Ascii.eqb c d then string_gt a b else N.ltb (N_of_ascii d) (N_of_ascii c)
  end.

Section sort.
Context {A : Type} (greater : A -> A -> bool).

Fixpoint insert_by (x : A) (l : list A) : list A :=
  match l with
  | [] => [x]
  | y :: l => if greater x y then y :: insert_by x l else x :: y :: l
  end.

Definition sort_by (l : list A) : list A := fold_left (fun sorted x => insert_by x sorted) l [].
End sort.

(** ** Facts on numbers *)

Lemma Number_of_exact x : x <= 2 ^ 53 -> Number_of x = x.
Proof.
  intros H. unfold Number_of. destruct (Z.ltb_spec x (2 ^ 53)) as [|Hge]; [done|].
  assert (x = 2 ^ 53) as -> by lia. reflexivity.
Qed.

(** Rounding never moves a large value below 2^53: a length that is too big
    stays too big. *)
Lemma Number_of_large x : 2 ^ 53 <= x -> 2 ^ 53 <= Number_of x.
Proof.
  intros H. unfold Number_of. destruct (Z.ltb_spec x (2 ^ 53)) as [|_]; [lia|].
  cbv zeta.
  set (e := Z.log2 x - 52).
  assert (Hl : 53 <= Z.log2 x) by (change 53 with (Z.log2 (2 ^ 53)); by apply Z.log2_le_mono).
  assert (He : 1 <= e) by lia.
  assert (Hp : 0 < 2 ^ e) by (apply Z.pow_pos_nonneg; lia).
  assert (H2 : 2 ^ 1 <= 2 ^ e) by (apply Z.pow_le_mono_r; lia).
  assert (Hq : 2 ^ 52 <= x / 2 ^ e).
  { apply Z.div_le_lower_bound; [done|]. rewrite <- Z.pow_add_r by lia.
    replace (e + 52) with (Z.log2 x) by lia. apply Z.log2_spec. lia. }
  case_bool; nia.
Qed.

Lemma Number_of_small x : Number_of x < 2 ^ 53 -> Number_of x = x.
Proof.
  intros Hx. destruct (Z.lt_ge_cases x (2 ^ 53)) as [|Hge].
  - apply Number_of_exact. lia.
  - pose proof (Number_of_large x Hge). lia.
Qed.

Lemma Number_of_nonneg x : 0 <= x -> 0 <= Number_of x.
Proof.
  intros Hx. destruct (Z.lt_ge_cases x (2 ^ 53)) as [|Hge].
  - rewrite Number_of_exact; lia.
  - pose proof (Number_of_large x Hge). lia.
Qed.

(** Comparing a rounded sum with a length below 2^53 gives the answer of the
    exact sum. *)
Lemma num_add_le x y n : n < 2 ^ 53 -> num_add x y <= n <-> x + y <= n.
Proof.
  intros Hn. unfold num_add. split; intros H.
  - rewrite <- (Number_of_small (x + y)); lia.
  - rewrite Number_of_exact; lia.
Qed.

Lemma num_add_exact x y n : n < 2 ^ 53 -> num_add x y <= n -> num_add x y = x + y.
Proof. intros Hn H. unfold num_add in *. apply Number_of_small. lia. Qed.

(** ** Facts on slices *)

Lemma lor_shiftl m i n : 0 <= n -> 0 <= i < 2 ^ n -> Z.lor (Z.shiftl m n) i = m * 2 ^ n + i.
Proof.
  intros Hn Hi. rewrite Z.shiftl_mul_pow2 by done. apply Z.bits_inj'. intros k Hk. rewrite Z.lor_spec.
  destruct (Z.lt_ge_cases k n) as [Hlt|Hge].
  - rewrite Z.mul_pow2_bits_low by done. cbn [orb].
    rewrite <- (Z.mod_pow2_bits_low (m * 2 ^ n + i) n) by done.
    by rewrite Z.add_comm, Z.mod_add, Z.mod_small by lia.
  - assert (Hi' : Z.testbit i k = false).
    { rewrite <- (Z.mod_small i (2 ^ n)) by done. by apply Z.mod_pow2_bits_high. }
    rewrite Hi', orb_false_r, Z.mul_pow2_bits by lia.
    replace k with ((k - n) + n) at 2 by lia. rewrite <- Z.div_pow2_bits by lia.
    by rewrite Z.div_add_l, Z.div_small, Z.add_0_r by lia.
Qed.

(** A fact about bytes, by cases. *)
Lemma byte_cases (P : Z -> bool) : forallb P (seqZ 0 256) = true -> forall b, is_byte b -> P b = true.
Proof.
  intros H b Hb. rewrite forallb_forall in H. apply H, list_elem_of_In, elem_of_seqZ. unfold is_byte in Hb. lia.
Qed.

Lemma slice_from_app {A} (l k : list A) n : n = zlen l -> slice_from (l ++ k) n = k.
Proof.
  intros ->. unfold slice_from. rewrite zlen_app.
  rewrite Z.min_l by (pose proof (zlen_nonneg k); lia).
  unfold zlen. rewrite Nat2Z.id. apply drop_app_length.
Qed.

Lemma slice_app {A} (l k r : list A) a b :
  a = zlen l -> b = zlen l + zlen k -> slice (l ++ k ++ r) a b = k.
Proof.
  intros -> ->. unfold slice. rewrite !zlen_app.
  pose proof (zlen_nonneg l); pose proof (zlen_nonneg k); pose proof (zlen_nonneg r).
  rewrite !Z.min_l by lia. unfold zlen.
  rewrite Nat2Z.id, Z2Nat.inj_add, !Nat2Z.id by lia.
  rewrite drop_app_length. replace (length l + length k - length l)%nat with (length k) by lia.
  apply take_app_length.
Qed.

Lemma zlen_slice_from {A} (l : list A) a : 0 <= a -> zlen (slice_from l a) = Z.max 0 (zlen l - a).
Proof. intros Ha. unfold slice_from, zlen. rewrite length_drop. lia. Qed.

Lemma zlen_slice_le {A} (l : list A) a b : zlen (slice l a b) <= zlen l.
Proof. unfold slice, zlen. rewrite length_take, length_drop. lia. Qed.

Lemma zlen_slice {A} (l : list A) a b :
  0 <= a <= b -> b <= zlen l -> zlen (slice l a b) = b - a.
Proof.
  intros Ha Hb. unfold slice. rewrite !Z.min_l by lia.
  unfold zlen in *. rewrite length_take, length_drop. lia.
Qed.

Lemma slice_0 {A} (l : list A) b : slice l 0 b = take (Z.to_nat (Z.min b (zlen l))) l.
Proof.
  unfold slice. rewrite (Z.min_l 0) by apply zlen_nonneg.
  cbn [Z.to_nat]. by rewrite Nat.sub_0_r.
Qed.

Lemma byte_at_app_l (l k : list Z) i : 0 <= i < zlen l -> byte_at (l ++ k) i = byte_at l i.
Proof.
  intros H. unfold byte_at. rewrite zlen_app.
  pose proof (zlen_nonneg k). rewrite !Z.min_l by lia.
  apply app_nth1. unfold zlen in H. lia.
Qed.

Lemma byte_at_app_r (l k : list Z) i :
  0 <= i -> byte_at (l ++ k) (zlen l + i) = byte_at k i.
Proof.
  intros H. unfold byte_at. rewrite zlen_app.
  rewrite app_nth2 by (unfold zlen; lia). f_equal. unfold zlen. lia.
Qed.

Lemma byte_at_is_byte l i : bytes l -> is_byte (byte_at l i).
Proof.
  intros Hl. unfold byte_at. destruct (nth_in_or_default (Z.to_nat (Z.min i (zlen l))) l 0) as [Hin| ->].
  - rewrite List.Forall_forall in Hl. by apply Hl.
  - unfold is_byte. lia.
Qed.

Lemma bytes_slice_from l a : bytes l -> bytes (slice_from l a).
Proof. apply Forall_drop. Qed.

Lemma bytes_slice l a b : bytes l -> bytes (slice l a b).
Proof. intros H. by apply Forall_take, Forall_drop. Qed.

#[export] Hint Resolve byte_at_is_byte bytes_slice_from bytes_slice : js.

(** ** Facts on the big endian codec *)

Lemma be_encode_length n v : length (be_encode n v) = n.
Proof. revert v. induction n as [|n IH]; intros v; [done|]. cbn. rewrite length_app, IH. cbn. lia. Qed.

Lemma zlen_be_encode n v : zlen (be_encode n v) = Z.of_nat n.
Proof. unfold zlen. by rewrite be_encode_length. Qed.
#[export] Hint Rewrite zlen_be_encode : zlen.

Lemma be_encode_bytes n v : bytes (be_encode n v).
Proof.
  revert v. induction n as [|n IH]; intros v; [constructor|].
  cbn. apply Forall_app. split; [apply IH|].
  repeat constructor; apply Z.mod_pos_bound; lia.
Qed.
#[export] Hint Resolve be_encode_bytes : js.

Lemma be_decode_snoc l b : be_decode (l ++ [b]) = be_decode l * 256 + b.
Proof.
  unfold be_decode. rewrite fold_left_app. cbn [fold_left].
  by rewrite Z.shiftl_mul_pow2 by lia.
Qed.

Lemma be_decode_encode n v : 0 <= v < 256 ^ Z.of_nat n -> be_decode (be_encode n v) = v.
Proof.
  revert v. induction n as [|n IH]; intros v Hv; [cbn in *; lia|].
  cbn [be_encode]. rewrite be_decode_snoc, IH.
  - pose proof (Z.div_mod v 256). lia.
  - rewrite Nat2Z.inj_succ, Z.pow_succ_r in Hv by lia. split.
    + apply Z.div_pos; lia.
    + apply Z.div_lt_upper_bound; lia.
Qed.

Lemma be_decode_bound l : bytes l -> 0 <= be_decode l < 256 ^ zlen l.
Proof.
  induction l as [|b l IH] using rev_ind; intros Hl.
  { zlen_simpl. change (be_decode []) with 0. lia. }
  apply Forall_app in Hl as [Hl Hb]. apply Forall_cons in Hb as [Hb _].
  rewrite be_decode_snoc, zlen_app. specialize (IH Hl).
  rewrite Z.pow_add_r by apply zlen_nonneg.
  replace (256 ^ zlen [b]) with 256 by reflexivity.
  unfold is_byte in Hb. revert IH. generalize (256 ^ zlen l). intros p IH. lia.
Qed.

Lemma be_encode_decode l : bytes l -> be_encode (length l) (be_decode l) = l.
Proof.
  induction l as [|b l IH] using rev_ind; intros Hl; [done|].
  apply Forall_app in Hl as [Hl Hb]. apply Forall_cons in Hb as [Hb _]. unfold is_byte in Hb.
  rewrite length_app, be_decode_snoc. cbn [length].
  rewrite Nat.add_1_r. cbn [be_encode].
  replace ((be_decode l * 256 + b) / 256) with (be_decode l) by (Z.div_mod_to_equations; lia).
  replace ((be_decode l * 256 + b) mod 256) with b by (Z.div_mod_to_equations; lia).
  by rewrite IH.
Qed.

(** ** Facts on hexadecimal text *)

Lemma hex_val_char d : 0 <= d < 16 -> hex_val (hex_char d) = Some d.
Proof.
  intros H.
  assert (Hall : Forall (fun d => hex_val (hex_char d) = Some d) (seqZ 0 16)) by repeat constructor.
  rewrite Forall_forall in Hall. apply Hall, elem_of_seqZ. lia.
Qed.

Lemma Buffer_hex_roundtrip l : bytes l -> Buffer_from_hex (Buffer_to_hex l) = l.
Proof.
  induction 1 as [|b l Hb _ IH]; [done|]. cbn. unfold is_byte in Hb.
  rewrite !hex_val_char, IH.
  - f_equal. pose proof (Z.div_mod b 16). lia.
  - apply Z.mod_pos_bound; lia.
  - split; [apply Z.div_pos; lia|apply Z.div_lt_upper_bound; lia].
Qed.

Lemma hex_val_range c d : hex_val c = Some d -> 0 <= d < 16.
Proof. unfold hex_val. repeat case_bool; intros [= <-] || discriminate; zb; lia. Qed.

Lemma Buffer_from_hex_bytes_aux n s : (String.length s < n)%nat -> bytes (Buffer_from_hex s).
Proof.
  revert s. induction n as [|n IH]; intros s Hs; [lia|].
  destruct s as [|c1 [|c2 s]]; [constructor..|]. cbn in *.
  destruct (hex_val c1) eqn:H1, (hex_val c2) eqn:H2; try constructor.
  - apply hex_val_range in H1, H2. unfold is_byte. lia.
  - apply IH. lia.
Qed.

Lemma Buffer_from_hex_bytes s : bytes (Buffer_from_hex s).
Proof. apply (Buffer_from_hex_bytes_aux (S (String.length s))). lia. Qed.
#[export] Hint Resolve Buffer_from_hex_bytes : js.

(** ** Facts on sorting *)

Lemma string_gt_irrefl a : string_gt a a = false.
Proof. induction a as [|c a IH]; [done|]. cbn. by rewrite Ascii.eqb_refl. Qed.

Lemma N_of_ascii_inj c d : N_of_ascii c = N_of_ascii d -> c = d.
Proof. intros E. by rewrite <- (ascii_N_embedding c), E, ascii_N_embedding. Qed.

Lemma string_gt_total a b : a <> b -> string_gt a b = true \/ string_gt b a = true.
Proof.
  revert b. induction a as [|c a IH]; intros [|d b]; [done|by right|by left|]. intros Hne. cbn. rewrite (Ascii.eqb_sym d c).
  destruct (Ascii.eqb_spec c d) as [->|Hcd]; [apply IH; congruence|]. rewrite !N.ltb_lt.
  assert (N_of_ascii c <> N_of_ascii d) by (intros E; by apply Hcd, N_of_ascii_inj). lia.
Qed.

Lemma string_gt_trans a b c : string_gt a b = true -> string_gt b c = true -> string_gt a c = true.
Proof.
  revert b c. induction a as [|x a IH]; intros [|y b] [|z c]; try done. cbn.
  destruct (Ascii.eqb_spec x y) as [<-|Hxy].
  - destruct (Ascii.eqb_spec x z); [apply IH|done].
  - destruct (Ascii.eqb_spec y z) as [<-|Hyz]; [intros E _; by apply Ascii.eqb_neq in Hxy as ->|].
    rewrite !N.ltb_lt. intros H1 H2. destruct (Ascii.eqb_spec x z) as [->|]; [lia|]. apply N.ltb_lt. lia.
Qed.

Section sort.
Context {A : Type} (greater : A -> A -> bool).

Lemma insert_by_perm x l : insert_by greater x l ≡ₚ x :: l.
Proof. induction l as [|y l IH]; [done|]. cbn. destruct (greater x y); [|done]. rewrite IH. constructor. Qed.

Lemma sort_by_perm l : sort_by greater l ≡ₚ l.
Proof.
  unfold sort_by. enough (H : forall m, fold_left (fun sorted x => insert_by greater x sorted) l m ≡ₚ m ++ l) by apply H.
  induction l as [|x l IH]; intros m; cbn; [by rewrite app_nil_r|]. rewrite IH, insert_by_perm. cbn. apply Permutation_middle.
Qed.

(** An order between elements with different keys. *)
Context {K : Type} (key : A -> K).
Context (irreflexive : forall x, greater x x = false).
Context (transitive : forall x y z, greater x y = true -> greater y z = true -> greater x z = true).
Context (total : forall x y, key x <> key y -> greater x y = true \/ greater y x = true).

Definition ascending (x y : A) : Prop := greater y x = true.

Lemma insert_by_sorted x l : NoDup (key <$> x :: l) -> StronglySorted ascending l -> StronglySorted ascending (insert_by greater x l).
Proof.
  intros Hd Hl. induction Hl as [|y l Hl IH Hy]; [repeat constructor|]. cbn. cbn in Hd.
  apply NoDup_cons in Hd as [Hx Hd]. apply NoDup_cons in Hd as [Hn Hd]. rewrite not_elem_of_cons in Hx. destruct Hx as [Hxy Hx].
  destruct (greater x y) eqn:E.
  - constructor; [apply IH; cbn; by apply NoDup_cons|]. rewrite insert_by_perm. by constructor.
  - assert (Hyx : ascending x y) by (destruct (total x y Hxy); [congruence|done]). constructor; [by constructor|].
    constructor; [done|]. eapply Forall_impl; [exact Hy|]. intros z Hz. eapply transitive; [exact Hz|exact Hyx].
Qed.

Lemma sort_by_sorted l : NoDup (key <$> l) -> StronglySorted ascending (sort_by greater l).
Proof.
  unfold sort_by. enough (H : forall m, NoDup (key <$> m ++ l) -> StronglySorted ascending m ->
    StronglySorted ascending (fold_left (fun sorted x => insert_by greater x sorted) l m)) by (intros; apply H; [done|constructor]).
  induction l as [|x l IH]; intros m Hd Hm; [done|]. cbn. assert (Hp : insert_by greater x m ++ l ≡ₚ m ++ x :: l).
  { rewrite insert_by_perm. cbn. apply Permutation_middle. }
  apply IH; [by rewrite Hp|]. apply insert_by_sorted; [|done]. rewrite <- Permutation_middle in Hd. cbn in Hd |- *.
  apply NoDup_cons in Hd as [Hx Hd]. rewrite fmap_app in Hx, Hd. apply NoDup_app in Hd as [Hd _]. apply NoDup_cons.
  split; [|done]. intros ?. by apply Hx, elem_of_app; left.
Qed.

#[local] Instance ascending_antisymm : AntiSymm (=) ascending.
Proof. intros x y Hxy Hyx. pose proof (transitive _ _ _ Hxy Hyx) as H. by rewrite irreflexive in H. Qed.

Lemma sort_by_unique l l' : NoDup (key <$> l) -> l' ≡ₚ l -> StronglySorted ascending l' -> sort_by greater l = l'.
Proof.
  intros Hd Hp Hs. apply (StronglySorted_unique ascending); [by apply sort_by_sorted|done|]. by rewrite sort_by_perm, Hp.
Qed.

Lemma sort_by_permuted l l' : NoDup (key <$> l) -> l ≡ₚ l' -> sort_by greater l = sort_by greater l'.
Proof. intros Hd Hp. apply sort_by_unique; [done|by rewrite sort_by_perm, Hp|]. apply sort_by_sorted. by rewrite <- Hp. Qed.
End sort.

(** ** Facts on maps *)

Module JsMapFacts.
Import JsMap.
Section map.
Context {K V : Type} `{EqDecision K}.
Implicit Types (m : list (K * V)) (k : K) (v : V).

Lemma get_set_eq m k v : get (set m k v) k = Some v.
Proof.
  induction m as [|[k' v'] m IH]; cbn; [by rewrite decide_True|].
  case_decide; cbn; [by rewrite decide_True|by rewrite decide_False].
Qed.

Lemma get_set_ne m k k' v : k <> k' -> get (set m k v) k' = get m k'.
Proof.
  intros Hne. induction m as [|[k1 v1] m IH]; cbn; [by rewrite decide_False|].
  case_decide as E1; cbn; case_decide as E2; subst; done || congruence.
Qed.

Lemma get_set m k k' v : get (set m k v) k' = if decide (k = k') then Some v else get m k'.
Proof. case_decide; [subst; apply get_set_eq|by apply get_set_ne]. Qed.

Lemma get_None m k : get m k = None <-> k ∉ keys m.
Proof.
  induction m as [|[k' v] m IH]; cbn; [split; [intros _; apply not_elem_of_nil|done]|].
  rewrite not_elem_of_cons. case_decide as E; [|rewrite IH]; intuition congruence.
Qed.

Lemma get_Some_elem m k v : get m k = Some v -> (k, v) ∈ m.
Proof.
  induction m as [|[k' v'] m IH]; cbn; [done|]. rewrite elem_of_cons.
  case_decide; [intros [= ->]; subst; by left|intros; right; auto].
Qed.

Lemma elem_get m k v : wf m -> (k, v) ∈ m -> get m k = Some v.
Proof.
  unfold wf, keys. induction m as [|[k' v'] m IH]; cbn; [intros _ []%not_elem_of_nil|].
  intros [Hn Hd]%NoDup_cons [Heq|Hin]%elem_of_cons.
  - injection Heq as <- <-. by rewrite decide_True.
  - rewrite decide_False; [by apply IH|]. intros ->. apply Hn. by apply (list_elem_of_fmap_2 fst _ (k, v)).
Qed.

Lemma keys_set_In m k v : k ∈ keys m -> keys (set m k v) = keys m.
Proof.
  induction m as [|[k' v'] m IH]; cbn; [intros []%not_elem_of_nil|].
  intros [->|Hin]%elem_of_cons; [by rewrite decide_True|].
  case_decide; cbn; [done|]. f_equal. by apply IH.
Qed.

Lemma set_not_In m k v : k ∉ keys m -> set m k v = m ++ [(k, v)].
Proof.
  induction m as [|[k' v'] m IH]; cbn; [done|].
  intros [Hne Hn]%not_elem_of_cons. rewrite decide_False by congruence. by rewrite IH.
Qed.

Lemma wf_set m k v : wf m -> wf (set m k v).
Proof.
  unfold wf. intros Hm. destruct (decide (k ∈ keys m)) as [Hin|Hn].
  - by rewrite keys_set_In.
  - rewrite set_not_In by done. unfold keys. rewrite fmap_app. apply NoDup_app.
    split_and!; [done| |apply NoDup_singleton].
    intros x Hx ->%list_elem_of_singleton. done.
Qed.

Lemma wf_of_entries_aux (l m : list (K * V)) :
  wf m -> wf (fold_left (fun m kv => set m kv.1 kv.2) l m).
Proof. revert m. induction l as [|kv l IH]; intros m Hm; [done|]. apply IH, wf_set, Hm. Qed.

Lemma wf_of_entries (l : list (K * V)) : wf (of_entries l).
Proof. apply wf_of_entries_aux. apply NoDup_nil_2. Qed.

Lemma of_entries_nodup_aux (l m : list (K * V)) :
  NoDup (keys (m ++ l)) -> fold_left (fun m kv => set m kv.1 kv.2) l m = m ++ l.
Proof.
  revert m. induction l as [|[k v] l IH]; intros m Hm; cbn; [by rewrite app_nil_r|].
  rewrite set_not_In.
  - rewrite IH; rewrite <- app_assoc; done.
  - unfold keys in Hm. rewrite fmap_app in Hm. apply NoDup_app in Hm as (_ & Hd & _).
    intros Hin. apply (Hd k Hin). cbn. left.
Qed.

Lemma of_entries_nodup (l : list (K * V)) : wf l -> of_entries l = l.
Proof. intros Hl. by apply (of_entries_nodup_aux l []). Qed.

Lemma has_spec m k : has m k = true <-> k ∈ keys m.
Proof.
  unfold has. destruct (get m k) eqn:E.
  - split; [intros _|done]. apply get_Some_elem in E. by apply (list_elem_of_fmap_2 fst _ (k, v)).
  - apply get_None in E. split; [done|intros ?; done].
Qed.

Lemma get_filter (P : V -> bool) m k : wf m ->
  get (filter (fun kv => P kv.2 = true) m) k =
  match get m k with Some v => if P v then Some v else None | None => None end.
Proof.
  unfold wf, keys. induction m as [|[k' v'] m IH]; [done|].
  rewrite fmap_cons, filter_cons. intros [Hn Hd]%NoDup_cons. cbn [fst snd get].
  destruct (P v') eqn:E; [rewrite decide_True by done|rewrite decide_False by done];
    cbn [get]; case_decide; subst; rewrite ?E.
  - done.
  - by apply IH.
  - rewrite IH by done. by rewrite (proj2 (get_None m k) Hn).
  - by apply IH.
Qed.

Lemma wf_filter (P : K * V -> Prop) `{!∀ x, Decision (P x)} m : wf m -> wf (filter P m).
Proof.
  unfold wf, keys. induction m as [|[k v] m IH]; [done|]. rewrite fmap_cons, filter_cons.
  intros [Hn Hd]%NoDup_cons. case_decide; [|by apply IH].
  rewrite fmap_cons. apply NoDup_cons. split; [|by apply IH]. intros Hin. apply Hn.
  apply list_elem_of_fmap in Hin as ([k1 v1] & -> & [_ Hin]%list_elem_of_filter).
  by apply (list_elem_of_fmap_2 fst _ (k1, v1)).
Qed.
End map.
#[export] Hint Resolve wf_set wf_of_entries : js.
End JsMapFacts.
