(* ===== verification/Utf8.v ===== *)
(** * UTF-8 text

    JavaScript strings are sequences of UTF-16 code units.  The CBOR layer
    converts them with [Buffer.from(s, 'utf8')] and
    [Buffer.from(bytes).toString('utf8')]: a lone surrogate is written as
    U+FFFD, and an ill-formed byte sequence is read as U+FFFD, one per
    maximal subpart. *)

From S2P Require Import Prelude JsRuntime.

(** ** Code points and code units *)

Definition is_high (u : Z) : bool := (55296 <=? u) && (u <=? 56319).
Definition is_low (u : Z) : bool := (56320 <=? u) && (u <=? 57343).
Definition REPLACEMENT : Z := 65533.

Definition pair_cp (h l : Z) : Z := 65536 + (h - 55296) * 1024 + (l - 56320).

(** The code units of a code point. *)
Definition cp_units (cp : Z) : list Z :=
  if cp <? 65536 then [cp]
  else [55296 + (cp - 65536) / 1024; 56320 + (cp - 65536) mod 1024].

Definition cp_utf8 (cp : Z) : list Z :=
  if cp <? 128 then [cp]
  else if cp <? 2048 then [192 + cp / 64; 128 + cp mod 64]
  else if cp <? 65536 then [224 + cp / 4096; 128 + (cp / 64) mod 64; 128 + cp mod 64]
  else [240 + cp / 262144; 128 + (cp / 4096) mod 64; 128 + (cp / 64) mod 64; 128 + cp mod 64].

(** ** [Buffer.from(s, 'utf8')] *)

Fixpoint utf8_encode (s : list Z) : list Z :=
  match s with
  | [] => []
  | u :: rest =>
      if is_high u then
        match rest with
        | v :: rest' =>
            if is_low v then cp_utf8 (pair_cp u v) ++ utf8_encode rest'
            else cp_utf8 REPLACEMENT ++ utf8_encode rest
        | [] => cp_utf8 REPLACEMENT
        end
      else if is_low u then cp_utf8 REPLACEMENT ++ utf8_encode rest
      else cp_utf8 u ++ utf8_encode rest
  end.

(** ** [Buffer.toString('utf8')] *)

(** A sequence in progress: the bits so far, the bytes still needed, and the
    range allowed for the next byte. *)
Record pending : Set :=
  { p_cp : Z; p_needed : nat; p_lower : Z; p_upper : Z }.

(** What a byte does when no sequence is in progress: units to emit, or a
    sequence to start. *)
Definition utf8_start (b : Z) : list Z * option pending :=
  if b <? 128 then ([b], None)
  else if (194 <=? b) && (b <=? 223) then
    ([], Some {| p_cp := b - 192; p_needed := 1; p_lower := 128; p_upper := 191 |})
  else if (224 <=? b) && (b <=? 239) then
    ([], Some {| p_cp := b - 224; p_needed := 2;
                 p_lower := if b =? 224 then 160 else 128;
                 p_upper := if b =? 237 then 159 else 191 |})
  else if (240 <=? b) && (b <=? 244) then
    ([], Some {| p_cp := b - 240; p_needed := 3;
                 p_lower := if b =? 240 then 144 else 128;
                 p_upper := if b =? 244 then 143 else 191 |})
  else ([REPLACEMENT], None).

Fixpoint utf8_decode_from (st : option pending) (l : list Z) : list Z :=
  match l with
  | [] => match st with Some _ => [REPLACEMENT] | None => [] end
  | b :: rest =>
      match st with
      | None =>
          let '(out, st') := utf8_start b in out ++ utf8_decode_from st' rest
      | Some p =>
          if (p_lower p <=? b) && (b <=? p_upper p) then
            let cp := p_cp p * 64 + (b - 128) in
            match p_needed p with
            | S (S n) =>
                utf8_decode_from
                  (Some {| p_cp := cp; p_needed := S n; p_lower := 128; p_upper := 191 |}) rest
            | _ => cp_units cp ++ utf8_decode_from None rest
            end
          else
            let '(out, st') := utf8_start b in
            REPLACEMENT :: out ++ utf8_decode_from st' rest
      end
  end.

Definition utf8_decode (l : list Z) : list Z := utf8_decode_from None l.

(** ** Well-formed strings: every surrogate is part of a pair *)

Fixpoint well_formed (s : list Z) : bool :=
  match s with
  | [] => true
  | u :: rest =>
      (0 <=? u) && (u <? 65536) &&
      if is_high u then
        match rest with
        | v :: rest' => is_low v && well_formed rest'
        | [] => false
        end
      else negb (is_low u) && well_formed rest
  end.

(** ** Facts *)

Ltac utf8_div := Z.div_mod_to_equations; lia.

Lemma utf8_decode_cont cp n lo hi b rest :
  lo <= b <= hi ->
  utf8_decode_from (Some {| p_cp := cp; p_needed := S n; p_lower := lo; p_upper := hi |}) (b :: rest) =
  match n with
  | S k => utf8_decode_from (Some {| p_cp := cp * 64 + (b - 128); p_needed := S k;
                                     p_lower := 128; p_upper := 191 |}) rest
  | O => cp_units (cp * 64 + (b - 128)) ++ utf8_decode_from None rest
  end.
Proof.
  intros Hb. cbn [utf8_decode_from p_lower p_upper p_needed p_cp].
  rewrite (proj2 (Z.leb_le lo b)), (proj2 (Z.leb_le b hi)) by lia. by destruct n.
Qed.

Lemma utf8_start_2 b : 194 <= b <= 223 ->
  utf8_start b = ([], Some {| p_cp := b - 192; p_needed := 1; p_lower := 128; p_upper := 191 |}).
Proof.
  intros Hb. unfold utf8_start. rewrite (proj2 (Z.ltb_ge _ _)) by lia.
  by rewrite !(proj2 (Z.leb_le _ _)) by lia.
Qed.

Lemma utf8_start_3 b : 224 <= b <= 239 ->
  utf8_start b = ([], Some {| p_cp := b - 224; p_needed := 2;
                 p_lower := if b =? 224 then 160 else 128;
                 p_upper := if b =? 237 then 159 else 191 |}).
Proof.
  intros Hb. unfold utf8_start. rewrite (proj2 (Z.ltb_ge _ _)) by lia.
  rewrite (proj2 (Z.leb_gt b 223)), andb_false_r by lia.
  by rewrite !(proj2 (Z.leb_le _ _)) by lia.
Qed.

Lemma utf8_start_4 b : 240 <= b <= 244 ->
  utf8_start b = ([], Some {| p_cp := b - 240; p_needed := 3;
                 p_lower := if b =? 240 then 144 else 128;
                 p_upper := if b =? 244 then 143 else 191 |}).
Proof.
  intros Hb. unfold utf8_start. rewrite (proj2 (Z.ltb_ge _ _)) by lia.
  rewrite (proj2 (Z.leb_gt b 223)), (proj2 (Z.leb_gt b 239)), !andb_false_r by lia.
  by rewrite !(proj2 (Z.leb_le _ _)) by lia.
Qed.

(** Decoding undoes the encoding of one scalar value. *)
Lemma utf8_decode_cp cp rest :
  0 <= cp < 1114112 -> ~ (55296 <= cp <= 57343) ->
  utf8_decode_from None (cp_utf8 cp ++ rest) = cp_units cp ++ utf8_decode_from None rest.
Proof.
  intros Hcp Hs. unfold cp_utf8.
  destruct (Z.ltb_spec cp 128).
  { cbn [app utf8_decode_from]. unfold utf8_start, cp_units.
    rewrite (proj2 (Z.ltb_lt cp 128)), (proj2 (Z.ltb_lt cp 65536)) by lia. done. }
  destruct (Z.ltb_spec cp 2048).
  { cbn [app]. rewrite <- (app_nil_l (utf8_decode_from _ _)). cbn [app].
    change (utf8_decode_from None ((192 + cp / 64) :: (128 + cp mod 64) :: rest))
      with (let '(out, st') := utf8_start (192 + cp / 64) in
            out ++ utf8_decode_from st' ((128 + cp mod 64) :: rest)).
    rewrite utf8_start_2 by utf8_div. cbn [app]. rewrite utf8_decode_cont by utf8_div.
    do 2 f_equal. utf8_div. }
  destruct (Z.ltb_spec cp 65536).
  { cbn [app].
    change (utf8_decode_from None ((224 + cp / 4096) :: ?l))
      with (let '(out, st') := utf8_start (224 + cp / 4096) in out ++ utf8_decode_from st' l).
    rewrite utf8_start_3 by utf8_div. cbn [app].
    rewrite utf8_decode_cont by (repeat case_bool; zb; utf8_div).
    rewrite utf8_decode_cont by utf8_div. do 2 f_equal. utf8_div. }
  cbn [app].
  change (utf8_decode_from None ((240 + cp / 262144) :: ?l))
    with (let '(out, st') := utf8_start (240 + cp / 262144) in out ++ utf8_decode_from st' l).
  rewrite utf8_start_4 by utf8_div. cbn [app].
  rewrite utf8_decode_cont by (repeat case_bool; zb; utf8_div).
  rewrite !utf8_decode_cont by utf8_div. do 2 f_equal. utf8_div.
Qed.

Lemma cp_units_pair h l : is_high h = true -> is_low l = true -> cp_units (pair_cp h l) = [h; l].
Proof.
  unfold is_high, is_low, cp_units, pair_cp. intros Hh Hl. zb.
  rewrite (proj2 (Z.ltb_ge _ _)) by lia. f_equal; [utf8_div|f_equal; utf8_div].
Qed.

Lemma utf8_roundtrip_aux n s : (length s < n)%nat -> well_formed s = true ->
  utf8_decode (utf8_encode s) = s.
Proof.
  unfold utf8_decode. revert s. induction n as [|n IH]; intros s Hn Hs; [lia|].
  destruct s as [|u rest]; [done|]. cbn [well_formed utf8_encode] in *. zb.
  destruct (is_high u) eqn:Eh.
  - destruct rest as [|v rest]; [done|]. zb. cbn [utf8_encode] in *.
    destruct (is_low v) eqn:El; [|done].
    rewrite utf8_decode_cp, cp_units_pair, IH by
      (done || (cbn in Hn; lia) || (unfold pair_cp, is_high, is_low in *; zb; lia)). done.
  - zb. destruct (is_low u) eqn:El; [done|].
    unfold is_high, is_low in *. rewrite utf8_decode_cp, IH by
      (done || (cbn in Hn; lia) || lia).
    unfold cp_units. by rewrite (proj2 (Z.ltb_lt u 65536)).
Qed.

Lemma utf8_roundtrip s : well_formed s = true -> utf8_decode (utf8_encode s) = s.
Proof. apply (utf8_roundtrip_aux (S (length s))). lia. Qed.

Lemma cp_utf8_bytes cp : 0 <= cp < 1114112 -> bytes (cp_utf8 cp).
Proof.
  intros Hcp. unfold cp_utf8, is_byte.
  repeat case_bool; zb; repeat (apply Forall_cons_2; [utf8_div|]); constructor.
Qed.

Lemma utf8_encode_bytes_aux n s : (length s < n)%nat -> Forall (fun u => 0 <= u < 65536) s ->
  bytes (utf8_encode s).
Proof.
  revert s. induction n as [|n IH]; intros s Hn Hs; [lia|].
  destruct s as [|u rest]; [constructor|]. cbn [utf8_encode length] in *.
  apply Forall_cons in Hs as [Hu Hs]. assert (0 <= REPLACEMENT < 1114112) by (unfold REPLACEMENT; lia).
  destruct (is_high u) eqn:Eh; [destruct rest as [|v rest]; [by apply cp_utf8_bytes|destruct (is_low v) eqn:El]
                               |destruct (is_low u) eqn:El].
  - apply Forall_cons in Hs as [Hv Hs]. apply Forall_app.
    split; [apply cp_utf8_bytes|apply IH; [cbn in *; lia|done]].
    unfold pair_cp, is_high, is_low in *. zb. lia.
  - apply Forall_app. split; [by apply cp_utf8_bytes|apply IH; [lia|done]].
  - apply Forall_app. split; [by apply cp_utf8_bytes|apply IH; [lia|done]].
  - apply Forall_app. split; [apply cp_utf8_bytes; lia|apply IH; [lia|done]].
Qed.

Lemma utf8_encode_bytes s : Forall (fun u => 0 <= u < 65536) s -> bytes (utf8_encode s).
Proof. apply (utf8_encode_bytes_aux (S (length s))). lia. Qed.

Lemma well_formed_units_aux n s : (length s < n)%nat -> well_formed s = true ->
  Forall (fun u => 0 <= u < 65536) s.
Proof.
  revert s. induction n as [|n IH]; intros s Hn Hs; [lia|].
  destruct s as [|u rest]; [constructor|]. cbn [well_formed length] in *. zb.
  constructor; [lia|]. destruct (is_high u); [|zb; apply IH; [lia|done]].
  destruct rest as [|v rest]; [done|]. zb. unfold is_low in *. zb.
  constructor; [lia|]. apply IH; [cbn in *; lia|done].
Qed.

Lemma well_formed_units s : well_formed s = true -> Forall (fun u => 0 <= u < 65536) s.
Proof. apply (well_formed_units_aux (S (length s))). lia. Qed.
