(* ===== verification/CborCommon.v ===== *)
(** * CBOR: the vocabulary shared by the reader and the writer

    Models [CborMajorType.ts], [CborAdditionalInfo.ts], [CborSimpleValue.ts],
    [CborTag.ts], [CborReaderState.ts], [CborInitialByte.ts] and [errors.ts]
    of [packages/core/src/Serialization/CBOR]. *)

From S2P Require Import Prelude JsRuntime.

Local Open Scope js_scope.

(** ** Major types *)

Inductive CborMajorType : Set :=
  | UnsignedInteger
  | NegativeInteger
  | ByteString
  | Utf8String
  | Array
  | Map
  | Tag
  | Simple.

#[export] Instance CborMajorType_eq_dec : EqDecision CborMajorType.
Proof. solve_decision. Defined.

(** The numeric value of the enum member. *)
Definition majorType_num (t : CborMajorType) : Z :=
  match t with
  | UnsignedInteger => 0
  | NegativeInteger => 1
  | ByteString => 2
  | Utf8String => 3
  | Array => 4
  | Map => 5
  | Tag => 6
  | Simple => 7
  end.

(** The member with a given value: the cases of the reader's [switch]es. *)
Definition majorType_of_num (n : Z) : option CborMajorType :=
  match n with
  | 0 => Some UnsignedInteger
  | 1 => Some NegativeInteger
  | 2 => Some ByteString
  | 3 => Some Utf8String
  | 4 => Some Array
  | 5 => Some Map
  | 6 => Some Tag
  | 7 => Some Simple
  | _ => None
  end.

(** ** Additional information of an initial byte *)

Module CborAdditionalInfo.
Definition AdditionalFalse : Z := 20.
Definition AdditionalTrue : Z := 21.
Definition AdditionalNull : Z := 22.
Definition Additional8BitData : Z := 24.
Definition Additional16BitData : Z := 25.
Definition Additional32BitData : Z := 26.
Definition Additional64BitData : Z := 27.
Definition IndefiniteLength : Z := 31.
End CborAdditionalInfo.

(** ** Simple values *)

Module CborSimpleValue.
Definition False_ : Z := 20.
Definition True_ : Z := 21.
Definition Null : Z := 22.
Definition Undefined : Z := 23.
End CborSimpleValue.

(** ** Tags: the members of the enum that the sources read or write *)

Module CborTag.
Definition UnsignedBigNum : Z := 2.
Definition NegativeBigNum : Z := 3.
Definition EncodedCborDataItem : Z := 24.
Definition RationalNumber : Z := 30.
Definition Set_ : Z := 258.
End CborTag.

(** ** Reader states *)

Module CborReaderState.
Inductive t : Set :=
  | Undefined
  | UnsignedInteger
  | NegativeInteger
  | ByteString
  | StartIndefiniteLengthByteString
  | EndIndefiniteLengthByteString
  | TextString
  | StartIndefiniteLengthTextString
  | EndIndefiniteLengthTextString
  | StartArray
  | EndArray
  | StartMap
  | EndMap
  | Tag
  | SimpleValue
  | HalfPrecisionFloat
  | SinglePrecisionFloat
  | DoublePrecisionFloat
  | Null
  | Boolean
  | Finished.

#[global] Instance t_eq_dec : EqDecision t.
Proof. solve_decision. Defined.

Definition num (s : t) : Z :=
  match s with
  | Undefined => 0
  | UnsignedInteger => 1
  | NegativeInteger => 2
  | ByteString => 3
  | StartIndefiniteLengthByteString => 4
  | EndIndefiniteLengthByteString => 5
  | TextString => 6
  | StartIndefiniteLengthTextString => 7
  | EndIndefiniteLengthTextString => 8
  | StartArray => 9
  | EndArray => 10
  | StartMap => 11
  | EndMap => 12
  | Tag => 13
  | SimpleValue => 14
  | HalfPrecisionFloat => 15
  | SinglePrecisionFloat => 16
  | DoublePrecisionFloat => 17
  | Null => 18
  | Boolean => 19
  | Finished => 20
  end.
End CborReaderState.

(** ** Errors *)

Inductive CborError : Set :=
  | CborInvalidOperationException (reason : string)
  | CborContentException (reason : string)
  | LossOfPrecisionException (reason : string)
  | ERR_OUT_OF_RANGE (** thrown by Node's [Buffer] writers *).

#[export] Instance CborError_eq_dec : EqDecision CborError.
Proof. solve_decision. Defined.

(** ** Initial bytes *)

Module CborInitialByte.
Definition IndefiniteLengthBreakByte : Z := 255.
Definition AdditionalInformationMask : Z := 31.

(** The packed byte of a major type and an additional information. *)
Definition make (majorType : CborMajorType) (additionalInfo : Z) : Z :=
  (majorType_num majorType .<< 5) .| additionalInfo.

Definition from (initialByte : Z) : Z := initialByte.
Definition getInitialByte (b : Z) : Z := b.
Definition getMajorType (b : Z) : Z := b .>> 5.
Definition getAdditionalInfo (b : Z) : Z := b .& AdditionalInformationMask.
End CborInitialByte.

(** ** Facts *)

Lemma getMajorType_div b : CborInitialByte.getMajorType b = b / 32.
Proof. unfold CborInitialByte.getMajorType. by rewrite Z.shiftr_div_pow2. Qed.

Lemma getAdditionalInfo_mod b : CborInitialByte.getAdditionalInfo b = b mod 32.
Proof.
  unfold CborInitialByte.getAdditionalInfo, CborInitialByte.AdditionalInformationMask.
  change 31 with (Z.ones 5). by rewrite Z.land_ones.
Qed.

Lemma lor_shift5 m i : 0 <= i < 32 -> ((m .<< 5) .| i) = m * 32 + i.
Proof. apply (lor_shiftl m i 5). lia. Qed.

Lemma make_value t i : 0 <= i < 32 -> CborInitialByte.make t i = majorType_num t * 32 + i.
Proof. apply lor_shift5. Qed.

Lemma majorType_num_bound t : 0 <= majorType_num t < 8.
Proof. destruct t; cbn; lia. Qed.

Lemma majorType_of_num_num t : majorType_of_num (majorType_num t) = Some t.
Proof. by destruct t. Qed.

Lemma majorType_num_inj t u : majorType_num t = majorType_num u -> t = u.
Proof. destruct t, u; cbn; congruence. Qed.

Lemma getMajorType_make t i :
  0 <= i < 32 -> CborInitialByte.getMajorType (majorType_num t * 32 + i) = majorType_num t.
Proof. intros Hi. rewrite getMajorType_div. Z.div_mod_to_equations; lia. Qed.

Lemma getAdditionalInfo_make t i :
  0 <= i < 32 -> CborInitialByte.getAdditionalInfo (majorType_num t * 32 + i) = i.
Proof. intros Hi. rewrite getAdditionalInfo_mod. Z.div_mod_to_equations; lia. Qed.

(** Every byte has a major type: the reader's "Invalid CBOR major type"
    branch is dead. *)
Lemma majorType_of_byte b :
  is_byte b -> exists t, majorType_of_num (CborInitialByte.getMajorType b) = Some t /\
                         CborInitialByte.getMajorType b = majorType_num t.
Proof.
  unfold is_byte. intros Hb. rewrite getMajorType_div.
  assert (0 <= b / 32 < 8) as H by (Z.div_mod_to_equations; lia).
  assert (b / 32 = 0 \/ b / 32 = 1 \/ b / 32 = 2 \/ b / 32 = 3 \/ b / 32 = 4 \/
          b / 32 = 5 \/ b / 32 = 6 \/ b / 32 = 7) as Hc by lia.
  destruct Hc as [->|[->|[->|[->|[->|[->|[->| ->]]]]]]]; cbn; eauto.
Qed.

Lemma getAdditionalInfo_bound b : 0 <= CborInitialByte.getAdditionalInfo b < 32.
Proof. rewrite getAdditionalInfo_mod. apply Z.mod_pos_bound. lia. Qed.
