(* ===== verification/Half.v ===== *)
(** * Half-precision floats

    Models [Half.ts].  A [number] is an IEEE 754 double, here the Standard
    Library's executable [spec_float]; products are rounded to double as the
    runtime rounds them.  [Buffer]'s float accessors are the IEEE encodings. *)

From Stdlib Require Import SpecFloat.
From S2P Require Import Prelude JsRuntime CborCommon.

Local Open Scope js_scope.

(** ** Doubles *)

Abbreviation number := spec_float.

#[export] Instance number_eq_dec : EqDecision number.
Proof. solve_decision. Defined.

(** The double nearest to [m * 2 ^ e], with sign [s]. *)
Definition double_of (s : bool) (m e : Z) : number :=
  match m with
  | Zpos p => binary_round 53 1024 s p e
  | _ => S754_zero s
  end.

Definition num_mul (x y : number) : number := SFmul 53 1024 x y.
Definition num_neg (x : number) : number := SFopp x.

(** [x === y]. *)
Definition num_eqb (x y : number) : bool := SFeqb x y.

Definition is_nan (x : number) : bool :=
  match x with S754_nan => true | _ => false end.

(** IEEE interchange formats: [w] is the number of exponent bits and [p] the
    number of stored mantissa bits. *)
Definition ieee_decode (w p bits : Z) : number :=
  let s := Z.testbit bits (w + p) in
  let e := (bits .>> p) .& Z.ones w in
  let m := bits .& Z.ones p in
  let bias := 2 ^ (w - 1) - 1 in
  if e =? Z.ones w then (if m =? 0 then S754_infinity s else S754_nan)
  else if e =? 0 then double_of s m (1 - bias - p)
  else double_of s (m + 2 ^ p) (e - bias - p).

Definition ieee_encode (w p : Z) (x : number) : Z :=
  let sgn (s : bool) := if s then 2 ^ (w + p) else 0 in
  let bias := 2 ^ (w - 1) - 1 in
  match x with
  | S754_nan => (Z.ones w .<< p) + 2 ^ (p - 1)
  | S754_infinity s => sgn s + (Z.ones w .<< p)
  | S754_zero s => sgn s
  | S754_finite s m e =>
      match binary_round (p + 1) (bias + 1) s m e with
      | S754_finite s' m' e' =>
          if Zpos m' <? 2 ^ p then sgn s' + Zpos m'
          else sgn s' + ((e' + bias + p) .<< p) + (Zpos m' - 2 ^ p)
      | S754_infinity s' => sgn s' + (Z.ones w .<< p)
      | S754_zero s' => sgn s'
      | S754_nan => (Z.ones w .<< p) + 2 ^ (p - 1)
      end
  end.

Definition readFloatBE (l : list Z) : number := ieee_decode 8 23 (be_decode l).
Definition writeFloatBE (x : number) : list Z := be_encode 4 (ieee_encode 8 23 x).
Definition readDoubleBE (l : list Z) : number := ieee_decode 11 52 (be_decode l).

(** ** The source's functions *)

Definition LOSS_OF_PRECISION_MSG : string := "Invalid conversion. Loss of precision".

(** The loop of [ldexp]: [steps - i] iterations are left. *)
Fixpoint ldexp_loop (n : nat) (i exponent steps : Z) (result : number) : number :=
  match n with
  | O => result
  | S n' =>
      ldexp_loop n' (i + 1) exponent steps
        (num_mul result (double_of false 1 ((exponent + i) / steps)))
  end.

Definition ldexp (mantissa exponent : Z) : number :=
  let steps := Z.min 3 ((Z.abs exponent + 1022) / 1023) in
  ldexp_loop (Z.to_nat steps) 0 exponent steps (double_of false mantissa 0).

Definition decodeHalf (data : list Z) : number :=
  let half := (byte_at data 0 .<< 8) + byte_at data 1 in
  let exp := (half .>> 10) .& 31 in
  let mant := half .& 1023 in
  let val :=
    if exp =? 0 then ldexp mant (-24)
    else if negb (exp =? 31) then ldexp (mant + 1024) (exp - 25)
    else if mant =? 0 then S754_infinity false else S754_nan in
  if negb ((half .& 32768) =? 0) then num_neg val else val.

(** Bitwise operators see [u] as a signed 32-bit integer. *)
Definition encodeHalf (value : number) : outcome CborError (list Z) :=
  let u := ToInt32 (be_decode (writeFloatBE value)) in
  if negb ((u .& 8191) =? 0) then Throw (LossOfPrecisionException LOSS_OF_PRECISION_MSG)
  else
    let s16 := (u .>> 16) .& 32768 in
    let exp := (u .>> 23) .& 255 in
    let mant := u .& 8388607 in
    let result s16' := [(s16' .>> 8) .& 255; s16' .& 255] in
    if (113 <=? exp) && (exp <=? 142) then
      Ok (result (s16 + ((exp - 112) .<< 10) + (mant .>> 13)))
    else if (103 <=? exp) && (exp <? 113) then
      if negb ((mant .& ((1 .<< (126 - exp)) - 1)) =? 0) then
        Throw (LossOfPrecisionException LOSS_OF_PRECISION_MSG)
      else Ok (result (s16 + ((mant + 8388608) .>> (126 - exp))))
    else Throw (LossOfPrecisionException LOSS_OF_PRECISION_MSG).
