(* ===== verification/CborWriter.v ===== *)
(** * The CBOR writer

    Models [CborWriter.ts].  The writer's only state is its buffer; a method
    is a stateful computation on it, which throws [ERR_OUT_OF_RANGE] where
    Node's [Buffer] writers do.  The four bytes that [Buffer.allocUnsafe(8)]
    leaves unwritten in [writeFloat] are an argument of that method. *)

From Stdlib Require Import SpecFloat.
From S2P Require Import Prelude JsRuntime CborCommon Utf8 Half.

Local Open Scope js_scope.

Module CborWriter.

Record t : Set := { buffer : list Z }.

Abbreviation M := (ST t CborError).

(** Constants of the file. *)
Definition SHIFT32 : Z := 4294967296.
Definition ONE : Z := 24.
Definition TWO : Z := 25.
Definition FOUR : Z := 26.
Definition EIGHT : Z := 27.
Definition FALSE : Z := 244.
Definition TRUE : Z := 245.
Definition NULL : Z := 246.
Definition UNDEFINED : Z := 247.
Definition INDEFINITE_LENGTH_ARRAY : Z := 159.
Definition INDEFINITE_LENGTH_MAP : Z := 191.
Definition HALF : Z := (7 .<< 5) .| 25.
Definition FLOAT : Z := (7 .<< 5) .| 26.
Definition DOUBLE : Z := (7 .<< 5) .| 27.
Definition BUF_NAN : list Z := Buffer_from_hex "ffc00000".
Definition BUF_INF_NEG : list Z := Buffer_from_hex "fff0000000000000".
Definition BUF_INF_POS : list Z := Buffer_from_hex "7ff0000000000000".

Definition new : t := {| buffer := [] |}.

(** [this.#buffer = Buffer.concat([this.#buffer, value])]. *)
Definition writeEncodedValue (value : list Z) : M unit :=
  st_modify (fun w => {| buffer := buffer w ++ value |}).

(** Push an unsigned integer of [n] bytes; Node refuses one that does not fit. *)
Definition pushUInt (n : nat) (value : Z) : M unit :=
  if (0 <=? value) && (value <? 256 ^ Z.of_nat n)
  then writeEncodedValue (be_encode n value)
  else st_throw ERR_OUT_OF_RANGE.

Definition pushUInt8 : Z -> M unit := pushUInt 1.
Definition pushUInt16 : Z -> M unit := pushUInt 2.
Definition pushUInt32 : Z -> M unit := pushUInt 4.

Definition writeTypeValue (majorType : CborMajorType) (value : Z) : M unit :=
  let m := majorType_num majorType .<< 5 in
  if value <? 24 then pushUInt8 (m .| value)
  else if value <? 256 then
    pushUInt8 (m .| ONE) ;; pushUInt8 value
  else if value <? 65536 then
    pushUInt8 (m .| TWO) ;; pushUInt16 value
  else if value <? 4294967296 then
    pushUInt8 (m .| FOUR) ;; pushUInt32 value
  else
    pushUInt8 (m .| EIGHT) ;;
    pushUInt32 (Number_of (value / SHIFT32)) ;;
    pushUInt32 (Number_of (value mod SHIFT32)).

Definition writeTag (tag : Z) : M unit := writeTypeValue Tag tag.

Definition writeBigInteger (value : Z) : M unit :=
  let '(tag, value) :=
    if value <? 0 then (CborTag.NegativeBigNum, - value + -1)
    else (CborTag.UnsignedBigNum, value) in
  let str := bigint_toString16 value in
  let str := if (Z.of_nat (String.length str)) mod 2 =? 0 then str else String "0" str in
  let buf := Buffer_from_hex str in
  writeTag tag ;;
  writeTypeValue ByteString (zlen buf) ;;
  writeEncodedValue buf.

Definition writeBoolean (value : bool) : M unit :=
  pushUInt8 (if value then TRUE else FALSE).

Definition writeByteString (value : list Z) : M unit :=
  writeTypeValue ByteString (zlen value) ;;
  writeEncodedValue value.

Definition writeTextString (value : list Z) : M unit :=
  writeTypeValue Utf8String (zlen (utf8_encode value)) ;;
  writeEncodedValue (utf8_encode value).

Definition writeStartArray (length : option Z) : M unit :=
  match length with
  | Some n => writeTypeValue Array n
  | None => pushUInt8 INDEFINITE_LENGTH_ARRAY
  end.

Definition writeEndArray : M unit := pushUInt8 CborInitialByte.IndefiniteLengthBreakByte.

Definition writeStartMap (length : option Z) : M unit :=
  match length with
  | Some n => writeTypeValue Map n
  | None => pushUInt8 INDEFINITE_LENGTH_MAP
  end.

Definition writeEndMap : M unit := pushUInt8 CborInitialByte.IndefiniteLengthBreakByte.

Definition writeInt (value : Z) : M unit :=
  if value <? 0 then writeTypeValue NegativeInteger (- (value + 1))
  else writeTypeValue UnsignedInteger value.

(** [garbage] is what [Buffer.allocUnsafe(8)] holds beyond the four bytes
    that [writeFloatBE] sets. *)
Definition writeFloat (garbage : list Z) (value : number) : M unit :=
  if num_eqb value (S754_infinity true) then pushUInt8 DOUBLE ;; writeEncodedValue BUF_INF_NEG
  else if num_eqb value (S754_infinity false) then pushUInt8 DOUBLE ;; writeEncodedValue BUF_INF_POS
  else if is_nan value then pushUInt8 FLOAT ;; writeEncodedValue BUF_NAN
  else
    match encodeHalf value with
    | Ok val => pushUInt8 HALF ;; writeEncodedValue val
    | _ =>
        let b4 := writeFloatBE value in
        if num_eqb (readFloatBE b4) value then pushUInt8 FLOAT ;; writeEncodedValue b4
        else
          let b8 := writeFloatBE value ++ garbage in
          pushUInt8 DOUBLE ;; writeEncodedValue b8
    end.

Definition writeNull : M unit := pushUInt8 NULL.
Definition writeUndefined : M unit := pushUInt8 UNDEFINED.

Definition encode (w : t) : list Z := buffer w.
Definition encodeAsHex (w : t) : string := Buffer_to_hex (buffer w).
Definition reset : M unit := st_put new.

(** ** Specification: the bytes of a CBOR head *)

(** The shortest head of a major type and an argument below 2^64. *)
Definition head (t : CborMajorType) (v : Z) : list Z :=
  let b := majorType_num t * 32 in
  if v <? 24 then [b + v]
  else if v <? 256 then (b + 24) :: be_encode 1 v
  else if v <? 65536 then (b + 25) :: be_encode 2 v
  else if v <? 4294967296 then (b + 26) :: be_encode 4 v
  else (b + 27) :: be_encode 8 v.

End CborWriter.

(** ** Facts *)

Module CborWriterFacts.
Import CborWriter.

(** A computation that appends [l] and returns normally. *)
Definition appends (m : M unit) (l : list Z) : Prop :=
  forall w, m w = (Ok tt, {| buffer := buffer w ++ l |}).

Lemma appends_encoded l : appends (writeEncodedValue l) l.
Proof. done. Qed.

Lemma appends_bind m k l1 l2 : appends m l1 -> appends k l2 -> appends (m ;; k) (l1 ++ l2).
Proof.
  intros Hm Hk w. unfold mbind, ST_bind. rewrite Hm. cbn. rewrite Hk. cbn. by rewrite app_assoc.
Qed.

Lemma appends_push n v : 0 <= v < 256 ^ Z.of_nat n -> appends (pushUInt n v) (be_encode n v).
Proof.
  intros [H1 H2]. unfold pushUInt.
  rewrite (proj2 (Z.leb_le _ _)), (proj2 (Z.ltb_lt _ _)) by done. apply appends_encoded.
Qed.

Lemma be_encode_1 v : 0 <= v < 256 -> be_encode 1 v = [v].
Proof. intros Hv. cbn [be_encode app]. by rewrite Z.mod_small. Qed.

Lemma be_encode_app n k v :
  be_encode (n + k) v = be_encode n (v / 256 ^ Z.of_nat k) ++ be_encode k (v mod 256 ^ Z.of_nat k).
Proof.
  revert v. induction k as [|k IH]; intros v.
  - rewrite Nat.add_0_r. change (256 ^ Z.of_nat 0) with 1. by rewrite Z.div_1_r, app_nil_r.
  - rewrite Nat.add_succ_r. cbn [be_encode]. rewrite IH, app_assoc.
    assert (0 < 256 ^ Z.of_nat k) by (apply Z.pow_pos_nonneg; lia).
    rewrite Nat2Z.inj_succ, Z.pow_succ_r by lia.
    rewrite Z.rem_mul_r, Z.div_div by lia.
    f_equal; [f_equal|f_equal].
    + f_equal. rewrite Z.add_comm, Z.mul_comm, Z.div_add_l by lia.
      rewrite (Z.div_small (v mod 256)), Z.add_0_r by (apply Z.mod_pos_bound; lia). done.
    + rewrite Z.mul_comm, Z.mod_add by lia. by rewrite Z.mod_mod.
Qed.

Lemma appends_initial t i : 0 <= i < 32 ->
  appends (pushUInt8 ((majorType_num t .<< 5) .| i)) [majorType_num t * 32 + i].
Proof.
  intros Hi. rewrite lor_shift5 by done. pose proof (majorType_num_bound t).
  rewrite <- (be_encode_1 (majorType_num t * 32 + i)) by lia.
  apply appends_push. change (256 ^ Z.of_nat 1) with 256. lia.
Qed.

Ltac push_ok :=
  apply appends_push;
  match goal with |- _ <= _ < ?p => let q := eval vm_compute in p in change p with q end; lia.

(** The writer emits exactly the shortest head. *)
Lemma writeTypeValue_head t v : 0 <= v < 2 ^ 64 -> appends (writeTypeValue t v) (head t v).
Proof.
  intros Hv. unfold writeTypeValue, head. cbv zeta.
  destruct (Z.ltb_spec v 24); [apply appends_initial; lia|].
  destruct (Z.ltb_spec v 256).
  { apply (appends_bind _ _ [_]); [apply appends_initial; unfold ONE; lia|push_ok]. }
  destruct (Z.ltb_spec v 65536).
  { apply (appends_bind _ _ [_]); [apply appends_initial; unfold TWO; lia|push_ok]. }
  destruct (Z.ltb_spec v 4294967296).
  { apply (appends_bind _ _ [_]); [apply appends_initial; unfold FOUR; lia|push_ok]. }
  unfold SHIFT32.
  assert (0 <= v / 4294967296 < 4294967296) by (Z.div_mod_to_equations; lia).
  assert (0 <= v mod 4294967296 < 4294967296) by (apply Z.mod_pos_bound; lia).
  rewrite !Number_of_exact by lia.
  apply (appends_bind _ _ [_]); [apply appends_initial; unfold EIGHT; lia|].
  rewrite (be_encode_app 4 4 v : be_encode 8 v = _). change (256 ^ Z.of_nat 4) with 4294967296.
  apply appends_bind; push_ok.
Qed.

Lemma head_bytes t v : 0 <= v -> bytes (head t v).
Proof.
  intros Hv. pose proof (majorType_num_bound t). unfold head. cbv zeta.
  repeat case_bool; zb; (apply Forall_cons_2; [unfold is_byte; lia|]);
    first [apply be_encode_bytes | constructor].
Qed.

Lemma head_length t v : 1 <= zlen (head t v) <= 9.
Proof. unfold head. cbv zeta. repeat case_bool; zlen_simpl; lia. Qed.

Lemma head_cons t v : 0 <= v -> exists i rest, 0 <= i < 28 /\ head t v = (majorType_num t * 32 + i) :: rest.
Proof.
  intros Hv. unfold head. cbv zeta. repeat case_bool; zb; eexists _, _; split; try reflexivity; lia.
Qed.

(** *** [value.toString(16)] and its bytes *)

Fixpoint hexnum (acc : Z) (s : string) : option Z :=
  match s with
  | EmptyString => Some acc
  | String c s' => match hex_val c with Some d => hexnum (16 * acc + d) s' | None => None end
  end.

Lemma hex_digits_num fuel x acc a :
  0 <= x < 16 ^ Z.of_nat fuel -> hexnum 0 (hex_digits fuel x acc) = a <-> hexnum x acc = a.
Proof.
  revert x acc. induction fuel as [|k IH]; intros x acc Hx.
  { cbn in Hx. assert (x = 0) as -> by lia. done. }
  rewrite Nat2Z.inj_succ, Z.pow_succ_r in Hx by lia.
  assert (0 <= x mod 16 < 16) by (apply Z.mod_pos_bound; lia).
  assert (Heq : hexnum (x / 16) (String (hex_char (x mod 16)) acc) = hexnum x acc).
  { cbn [hexnum]. rewrite hex_val_char by done. f_equal. Z.div_mod_to_equations; lia. }
  cbn [hex_digits]. destruct (Z.eqb_spec (x / 16) 0) as [E|E].
  - rewrite <- Heq, E. done.
  - rewrite IH by (Z.div_mod_to_equations; lia). by rewrite Heq.
Qed.

Lemma bigint_toString16_num x : 0 <= x -> hexnum 0 (bigint_toString16 x) = Some x.
Proof.
  intros Hx. unfold bigint_toString16. apply hex_digits_num; [|done].
  split; [done|]. destruct (Z.eq_dec x 0) as [->|]; [cbn; lia|].
  rewrite Nat2Z.inj_succ, Z2Nat.id by apply Z.log2_nonneg.
  apply Z.lt_le_trans with (2 ^ Z.succ (Z.log2 x)); [apply Z.log2_spec; lia|].
  apply Z.pow_le_mono_l. lia.
Qed.

Lemma hexnum_bytes_aux n s acc v : (String.length s < n)%nat ->
  (String.length s mod 2 = 0)%nat -> hexnum acc s = Some v ->
  fold_left (fun acc b => acc * 256 + b) (Buffer_from_hex s) acc = v.
Proof.
  revert s acc. induction n as [|n IH]; intros s acc Hn He Hv; [lia|].
  destruct s as [|c1 [|c2 s]]; [by injection Hv|done|].
  assert (Hs : (String.length s mod 2 = 0)%nat).
  { change (String.length (String c1 (String c2 s))) with (2 + String.length s)%nat in He.
    rewrite <- Nat.Div0.add_mod_idemp_l in He. exact He. }
  cbn [hexnum String.length Buffer_from_hex] in Hn, Hv |- *.
  destruct (hex_val c1) as [d1|]; [|done]. destruct (hex_val c2) as [d2|]; [|done].
  cbn [fold_left]. apply IH; [lia| |].
  - done.
  - rewrite <- Hv. f_equal. lia.
Qed.

Lemma hexnum_bytes s v : (String.length s mod 2 = 0)%nat ->
  hexnum 0 s = Some v -> be_decode (Buffer_from_hex s) = v.
Proof.
  intros He Hv. rewrite <- (hexnum_bytes_aux (S (String.length s)) s 0 v); [|lia|done|done].
  unfold be_decode. generalize 0. induction (Buffer_from_hex s) as [|b l IH]; intros a; [done|].
  cbn [fold_left]. rewrite Z.shiftl_mul_pow2 by lia. apply IH.
Qed.

(** The payload [writeBigInteger] writes for a non-negative value. *)
Definition bignum_bytes (x : Z) : list Z :=
  let str := bigint_toString16 x in
  Buffer_from_hex (if (Z.of_nat (String.length str)) mod 2 =? 0 then str else String "0" str).

Lemma bignum_bytes_decode x : 0 <= x -> be_decode (bignum_bytes x) = x.
Proof.
  intros Hx. unfold bignum_bytes. pose proof (bigint_toString16_num x Hx) as Hn.
  destruct (Z.eqb_spec (Z.of_nat (String.length (bigint_toString16 x)) mod 2) 0) as [E|E].
  - apply hexnum_bytes; [|done]. apply Nat2Z.inj. rewrite Nat2Z.inj_mod. exact E.
  - apply hexnum_bytes; [|done]. apply Nat2Z.inj. rewrite Nat2Z.inj_mod.
    cbn [String.length]. rewrite Nat2Z.inj_succ. Z.div_mod_to_equations; lia.
Qed.

End CborWriterFacts.
