(* ===== verification/CborReader.v ===== *)
(** * The CBOR reader

    Models [CborReader.ts]: a forward-only reader over a byte array with a
    stack of the containers it is inside of.  Every method is a stateful
    computation; the private methods keep their names.  The array [#nestedItems]
    is a list with the innermost saved frame first. *)

From S2P Require Import Prelude JsRuntime Utf8 CborCommon Half.

Local Open Scope js_scope.

Module CborReader.

Record StackFrame : Set := {
  type : option CborMajorType;
  frameOffset : Z;
  definiteLength : option Z;
  itemsRead : Z;
  currentKeyOffset : option Z
}.

Record t : Set := {
  data : list Z;
  offset : Z;
  nestedItems : list StackFrame;
  isTagContext : bool;
  currentFrame : StackFrame;
  cachedState : CborReaderState.t
}.

Abbreviation M := (ST t CborError).

Definition UNEXPECTED_END_OF_BUFFER_MSG : string := "Unexpected end of buffer".

(** *** Assignments to the fields *)

Definition set_offset (r : t) (o : Z) : t :=
  {| data := data r; offset := o; nestedItems := nestedItems r; isTagContext := isTagContext r;
     currentFrame := currentFrame r; cachedState := cachedState r |}.

Definition set_cachedState (r : t) (s : CborReaderState.t) : t :=
  {| data := data r; offset := offset r; nestedItems := nestedItems r; isTagContext := isTagContext r;
     currentFrame := currentFrame r; cachedState := s |}.

Definition set_isTagContext (r : t) (b : bool) : t :=
  {| data := data r; offset := offset r; nestedItems := nestedItems r; isTagContext := b;
     currentFrame := currentFrame r; cachedState := cachedState r |}.

Definition set_currentFrame (r : t) (f : StackFrame) : t :=
  {| data := data r; offset := offset r; nestedItems := nestedItems r; isTagContext := isTagContext r;
     currentFrame := f; cachedState := cachedState r |}.

Definition set_nestedItems (r : t) (l : list StackFrame) : t :=
  {| data := data r; offset := offset r; nestedItems := l; isTagContext := isTagContext r;
     currentFrame := currentFrame r; cachedState := cachedState r |}.

Definition rootFrame : StackFrame :=
  {| type := None; frameOffset := 0; definiteLength := None; itemsRead := 0; currentKeyOffset := None |}.

(** The constructor, before and after decoding the hexadecimal argument. *)
Definition of_bytes (l : list Z) : t :=
  {| data := l; offset := 0; nestedItems := []; isTagContext := false;
     currentFrame := rootFrame; cachedState := CborReaderState.Undefined |}.

Definition new (hex : string) : t := of_bytes (Buffer_from_hex hex).

(** *** Buffer primitives *)

Definition getRemainingBytes (r : t) : list Z := slice_from (data r) (offset r).
Definition getBytesRemaining (r : t) : Z := zlen (data r) - offset r.

Definition advanceDataItemCounters : M unit :=
  st_modify (fun r =>
    let f := currentFrame r in
    set_isTagContext
      (set_currentFrame r {| type := type f; frameOffset := frameOffset f;
         definiteLength := definiteLength f; itemsRead := itemsRead f + 1;
         currentKeyOffset := currentKeyOffset f |}) false).

Definition advanceBuffer (length : Z) : M unit :=
  r ← st_get;
  if zlen (data r) <? num_add (offset r) length
  then st_throw (CborContentException "Buffer offset out of bounds")
  else st_put (set_cachedState (set_offset r (num_add (offset r) length)) CborReaderState.Undefined).

Definition ensureReadCapacity (bytesToRead : Z) : M unit :=
  r ← st_get;
  st_guard (zlen (data r) - offset r <? bytesToRead)
    (CborContentException UNEXPECTED_END_OF_BUFFER_MSG).

Definition ensureReadCapacityInArray (data : list Z) (bytesToRead : Z) : outcome CborError unit :=
  if zlen data <? bytesToRead then Throw (CborContentException UNEXPECTED_END_OF_BUFFER_MSG)
  else Ok tt.

(** *** Peeking *)

(** [definiteLength - itemsRead === 0] in a definite-length container. *)
Definition atDefiniteEnd (f : StackFrame) : bool :=
  match definiteLength f with Some n => n - itemsRead f =? 0 | None => false end.

Definition isRoot (f : StackFrame) : bool :=
  match type f, definiteLength f with None, None => true | _, _ => false end.

(** A chunk of the string type [t], or the break byte. *)
Definition validChunk (t : CborMajorType) (nextByte : Z) : bool :=
  (CborInitialByte.getInitialByte nextByte =? CborInitialByte.IndefiniteLengthBreakByte)
  || ((CborInitialByte.getMajorType nextByte =? majorType_num t)
      && negb (CborInitialByte.getAdditionalInfo nextByte =? CborAdditionalInfo.IndefiniteLength)).

Definition peekInitialByte (expectedType : option CborMajorType) : M Z :=
  r ← st_get;
  let f := currentFrame r in
  if atDefiniteEnd f then st_throw (CborInvalidOperationException "No more data items to read")
  else if offset r =? zlen (data r) then
    if isRoot f && (0 <? offset r)
    then st_throw (CborInvalidOperationException "End of root-level. No more data items to read")
    else st_throw (CborContentException UNEXPECTED_END_OF_BUFFER_MSG)
  else
    let nextByte := CborInitialByte.from (byte_at (data r) (offset r)) in
    (match type f with
     | Some ByteString | Some Utf8String =>
         if match type f with Some t => validChunk t nextByte | None => true end
         then mret tt
         else st_throw (CborContentException
           ("Indefinite length string contains invalid data item, "
            +:+ pretty (CborInitialByte.getMajorType nextByte)))
     | _ => mret tt
     end) ;;
    match expectedType with
    | Some e =>
        (* an expected type of 0 is falsy *)
        if negb (majorType_num e =? 0) && negb (majorType_num e =? CborInitialByte.getMajorType nextByte)
        then st_throw (CborInvalidOperationException
          ("Major type mismatch, expected type " +:+ pretty (majorType_num e)
           +:+ " but got " +:+ pretty (CborInitialByte.getMajorType nextByte)))
        else mret nextByte
    | None => mret nextByte
    end.

Definition peekNextInitialByte (buffer : list Z) (expectedType : CborMajorType)
    : outcome CborError Z :=
  ensureReadCapacityInArray buffer 1 ;;
  let header := CborInitialByte.from (byte_at buffer 0) in
  if negb (CborInitialByte.getInitialByte header =? CborInitialByte.IndefiniteLengthBreakByte)
     && negb (CborInitialByte.getMajorType header =? majorType_num expectedType)
  then Throw (CborContentException "Indefinite length string contains invalid data item")
  else Ok header.

Definition validateNextByteIsBreakByte : M unit :=
  result ← peekInitialByte None;
  st_guard (negb (CborInitialByte.getInitialByte result =? CborInitialByte.IndefiniteLengthBreakByte))
    (CborInvalidOperationException "Not at end of indefinite length data item").

(** *** The stack *)

Definition pushDataItem (majorType : CborMajorType) (length : option Z) : M unit :=
  st_modify (fun r =>
    let frame := currentFrame r in
    set_isTagContext
      (set_currentFrame (set_nestedItems r (frame :: nestedItems r))
        {| type := Some majorType; frameOffset := offset r; definiteLength := length;
           itemsRead := 0; currentKeyOffset := None |}) false).

Definition restoreStackFrame (frame : StackFrame) : M unit :=
  st_modify (fun r => set_cachedState (set_currentFrame r frame) CborReaderState.Undefined).

Definition popDataItem (expectedType : CborMajorType) : M unit :=
  r ← st_get;
  let f := currentFrame r in
  match type f, nestedItems r with
  | None, _ | _, [] => st_throw (CborInvalidOperationException "Is at root context")
  | Some ty, frame :: rest =>
      if negb (majorType_num expectedType =? majorType_num ty) then
        st_throw (CborInvalidOperationException
          ("Pop major type mismatch, expected " +:+ pretty (majorType_num expectedType)
           +:+ " but got " +:+ pretty (majorType_num ty)))
      else if match definiteLength f with Some n => 0 <? n - itemsRead f | None => false end then
        st_throw (CborInvalidOperationException "Not at end of definite length data item")
      else if isTagContext r then
        st_throw (CborContentException "Tag not followed by value")
      else st_put (set_nestedItems r rest) ;; restoreStackFrame frame
  end.

(** *** State of the reader *)

Definition mapSimpleValueDataToReaderState (value : Z) : CborReaderState.t :=
  if value =? CborAdditionalInfo.AdditionalNull then CborReaderState.Null
  else if (value =? CborAdditionalInfo.AdditionalFalse) || (value =? CborAdditionalInfo.AdditionalTrue)
  then CborReaderState.Boolean
  else if value =? CborAdditionalInfo.Additional16BitData then CborReaderState.HalfPrecisionFloat
  else if value =? CborAdditionalInfo.Additional32BitData then CborReaderState.SinglePrecisionFloat
  else if value =? CborAdditionalInfo.Additional64BitData then CborReaderState.DoublePrecisionFloat
  else CborReaderState.SimpleValue.

(** The state that a break byte announces inside the frame [f]. *)
Definition breakState (f : StackFrame) : outcome CborError CborReaderState.t :=
  match definiteLength f with
  | Some _ => Throw (CborContentException "Unexpected break byte")
  | None =>
      match type f with
      | None => Throw (CborContentException "Unexpected break byte")
      | Some ByteString => Ok CborReaderState.EndIndefiniteLengthByteString
      | Some Utf8String => Ok CborReaderState.EndIndefiniteLengthTextString
      | Some Array => Ok CborReaderState.EndArray
      | Some Map =>
          if itemsRead f mod 2 =? 0 then Ok CborReaderState.EndMap
          else Throw (CborContentException "Key missing value")
      | Some _ => Throw (CborInvalidOperationException "Invalid CBOR major type pushed to stack.")
      end
  end.

(** The final [switch] of [#peekStateCore]. *)
Definition itemState (initialByte : Z) : outcome CborError CborReaderState.t :=
  let info := CborInitialByte.getAdditionalInfo initialByte in
  let indefinite := info =? CborAdditionalInfo.IndefiniteLength in
  match majorType_of_num (CborInitialByte.getMajorType initialByte) with
  | Some UnsignedInteger => Ok CborReaderState.UnsignedInteger
  | Some NegativeInteger => Ok CborReaderState.NegativeInteger
  | Some ByteString =>
      Ok (if indefinite then CborReaderState.StartIndefiniteLengthByteString
          else CborReaderState.ByteString)
  | Some Utf8String =>
      Ok (if indefinite then CborReaderState.StartIndefiniteLengthTextString
          else CborReaderState.TextString)
  | Some Array => Ok CborReaderState.StartArray
  | Some Map => Ok CborReaderState.StartMap
  | Some Tag => Ok CborReaderState.Tag
  | Some Simple => Ok (mapSimpleValueDataToReaderState info)
  | None => Throw (CborContentException "Invalid CBOR major type.")
  end.

(** [definiteLength !== null] always holds, so only the frame's type decides
    whether the string check applies. *)
Definition peekStateCore (r : t) : outcome CborError CborReaderState.t :=
  let f := currentFrame r in
  if atDefiniteEnd f then
    match type f with
    | None => Ok CborReaderState.Finished
    | Some Array => Ok CborReaderState.EndArray
    | Some Map => Ok CborReaderState.EndMap
    | Some _ => Throw (CborInvalidOperationException "Invalid CBOR major type pushed to stack.")
    end
  else if offset r =? zlen (data r) then
    if isRoot f then Ok CborReaderState.Finished
    else Throw (CborInvalidOperationException UNEXPECTED_END_OF_BUFFER_MSG)
  else
    let initialByte := CborInitialByte.from (byte_at (data r) (offset r)) in
    if CborInitialByte.getInitialByte initialByte =? CborInitialByte.IndefiniteLengthBreakByte then
      if isTagContext r then Throw (CborContentException "Tag not followed by value")
      else breakState f
    else
      (match type f with
       | Some ByteString | Some Utf8String =>
           if match type f with
              | Some t => CborInitialByte.getMajorType initialByte =? majorType_num t
              | None => true
              end
           then Ok tt
           else Throw (CborContentException "Indefinite length string contains invalid data item")
       | _ => Ok tt
       end) ;;
      itemState initialByte.

Definition peekState : M CborReaderState.t :=
  r ← st_get;
  if bool_decide (cachedState r = CborReaderState.Undefined) then
    s ← st_lift (peekStateCore r);
    st_put (set_cachedState r s) ;;
    mret s
  else mret (cachedState r).

(** *** Integers *)

Definition decodeUnsignedInteger (header : Z) (data : list Z) : outcome CborError (Z * Z) :=
  let info := CborInitialByte.getAdditionalInfo header in
  if (CborInitialByte.getInitialByte header .& CborInitialByte.AdditionalInformationMask)
     <? CborAdditionalInfo.Additional8BitData
  then Ok (info, 1)
  else if info =? CborAdditionalInfo.Additional8BitData then
    ensureReadCapacityInArray data 2 ;; Ok (byte_at data 1, 2)
  else if info =? CborAdditionalInfo.Additional16BitData then
    ensureReadCapacityInArray data 3 ;; Ok (be_decode (slice data 1 3), 3)
  else if info =? CborAdditionalInfo.Additional32BitData then
    ensureReadCapacityInArray data 5 ;; Ok (be_decode (slice data 1 5), 5)
  else if info =? CborAdditionalInfo.Additional64BitData then
    ensureReadCapacityInArray data 9 ;; Ok (be_decode (slice data 1 9), 9)
  else Throw (CborContentException "Invalid integer encoding").

Definition peekDefiniteLength (header : Z) (data : list Z) : outcome CborError (Z * Z) :=
  '(length, bytesRead) ← decodeUnsignedInteger header data;
  mret (Number_of length, bytesRead).

Definition peekUnsignedInteger : M (Z * Z) :=
  header ← peekInitialByte None;
  r ← st_get;
  match majorType_of_num (CborInitialByte.getMajorType header) with
  | Some UnsignedInteger => st_lift (decodeUnsignedInteger header (getRemainingBytes r))
  | Some NegativeInteger => st_throw (CborContentException "Integer overflow")
  | _ => st_throw (CborInvalidOperationException
      ("Reader type mismatch, expected " +:+ pretty (majorType_num UnsignedInteger)
       +:+ " but got " +:+ pretty (CborInitialByte.getMajorType header)))
  end.

Definition peekSignedInteger : M (Z * Z) :=
  header ← peekInitialByte None;
  r ← st_get;
  match majorType_of_num (CborInitialByte.getMajorType header) with
  | Some UnsignedInteger => st_lift (decodeUnsignedInteger header (getRemainingBytes r))
  | Some NegativeInteger =>
      '(unsignedInt, bytesRead) ← st_lift (decodeUnsignedInteger header (getRemainingBytes r));
      mret (-1 - unsignedInt, bytesRead)
  | _ => st_throw (CborInvalidOperationException
      ("Reader type mismatch, expected " +:+ pretty (majorType_num UnsignedInteger)
       +:+ " or " +:+ pretty (majorType_num NegativeInteger)
       +:+ " but got " +:+ pretty (CborInitialByte.getMajorType header)))
  end.

Definition readInt : M Z :=
  '(signedInt, bytesRead) ← peekSignedInteger;
  advanceBuffer bytesRead ;;
  advanceDataItemCounters ;;
  mret signedInt.

Definition readUInt : M Z :=
  '(unsignedInt, bytesRead) ← peekUnsignedInteger;
  advanceBuffer bytesRead ;;
  advanceDataItemCounters ;;
  mret unsignedInt.

Definition readCborNegativeIntegerRepresentation : M Z :=
  header ← peekInitialByte (Some NegativeInteger);
  r ← st_get;
  '(unsignedInt, bytesRead) ← st_lift (decodeUnsignedInteger header (getRemainingBytes r));
  advanceBuffer bytesRead ;;
  advanceDataItemCounters ;;
  mret unsignedInt.

(** *** Arrays and maps *)

Definition readStartArray : M (option Z) :=
  header ← peekInitialByte (Some Array);
  if CborInitialByte.getAdditionalInfo header =? CborAdditionalInfo.IndefiniteLength then
    advanceBuffer 1 ;;
    pushDataItem Array None ;;
    mret None
  else
    r ← st_get;
    '(length, bytesRead) ← st_lift (peekDefiniteLength header (getRemainingBytes r));
    advanceBuffer bytesRead ;;
    pushDataItem Array (Some length) ;;
    mret (Some length).

Definition readEndArray : M unit :=
  r ← st_get;
  match definiteLength (currentFrame r) with
  | None =>
      validateNextByteIsBreakByte ;;
      popDataItem Array ;;
      advanceDataItemCounters ;;
      advanceBuffer 1
  | Some _ =>
      popDataItem Array ;;
      advanceDataItemCounters
  end.

(** [this.#currentFrame.currentKeyOffset = this.#offset]. *)
Definition markKeyOffset : M unit :=
  st_modify (fun r =>
    let f := currentFrame r in
    set_currentFrame r {| type := type f; frameOffset := frameOffset f;
      definiteLength := definiteLength f; itemsRead := itemsRead f;
      currentKeyOffset := Some (offset r) |}).

Definition readStartMap : M (option Z) :=
  header ← peekInitialByte (Some Map);
  length ←
    (if CborInitialByte.getAdditionalInfo header =? CborAdditionalInfo.IndefiniteLength then
      advanceBuffer 1 ;;
      pushDataItem Map None ;;
      mret None
    else
      r ← st_get;
      let buffer := getRemainingBytes r in
      '(length, bytesRead) ← st_lift (peekDefiniteLength header buffer);
      st_guard (zlen buffer - bytesRead <? 2 * length)
        (CborContentException "Definite length exceeds buffer size") ;;
      advanceBuffer bytesRead ;;
      pushDataItem Map (Some (2 * length)) ;;
      mret (Some length));
  markKeyOffset ;;
  mret length.

Definition readEndMap : M unit :=
  r ← st_get;
  match definiteLength (currentFrame r) with
  | None =>
      validateNextByteIsBreakByte ;;
      st_guard (negb (itemsRead (currentFrame r) mod 2 =? 0))
        (CborContentException "Key missing value") ;;
      popDataItem Map ;;
      advanceDataItemCounters ;;
      advanceBuffer 1
  | Some _ =>
      popDataItem Map ;;
      advanceDataItemCounters
  end.

(** *** Simple values *)

Definition readBoolean : M bool :=
  header ← peekInitialByte (Some Simple);
  let val := CborInitialByte.getAdditionalInfo header in
  st_guard (negb (val =? CborAdditionalInfo.AdditionalTrue)
            && negb (val =? CborAdditionalInfo.AdditionalFalse))
    (CborContentException "Not a boolean encoding") ;;
  let result := val =? CborAdditionalInfo.AdditionalTrue in
  advanceBuffer 1 ;;
  advanceDataItemCounters ;;
  mret result.

Definition readNull : M unit :=
  header ← peekInitialByte (Some Simple);
  let val := CborInitialByte.getAdditionalInfo header in
  st_guard (negb (val =? CborAdditionalInfo.AdditionalNull))
    (CborContentException "Not a null encoding") ;;
  advanceBuffer 1 ;;
  advanceDataItemCounters.

Definition readSimpleValue : M Z :=
  header ← peekInitialByte (Some Simple);
  if (CborInitialByte.getInitialByte header .& CborInitialByte.AdditionalInformationMask)
     <? CborAdditionalInfo.Additional8BitData
  then
    advanceBuffer 1 ;;
    advanceDataItemCounters ;;
    mret (CborInitialByte.getAdditionalInfo header)
  else if CborInitialByte.getAdditionalInfo header =? CborAdditionalInfo.Additional8BitData then
    ensureReadCapacity 2 ;;
    r ← st_get;
    let value := byte_at (data r) (offset r + 1) in
    advanceBuffer 2 ;;
    advanceDataItemCounters ;;
    mret value
  else st_throw (CborInvalidOperationException "Not a simple value encoding").

(** The three float cases of [readDouble]. *)
Definition readFloat (size : Z) (decode : list Z -> number) : M number :=
  ensureReadCapacity size ;;
  r ← st_get;
  let result := decode (slice (getRemainingBytes r) 1 size) in
  advanceBuffer size ;;
  advanceDataItemCounters ;;
  mret result.

Definition readDouble : M number :=
  header ← peekInitialByte (Some Simple);
  let info := CborInitialByte.getAdditionalInfo header in
  if info =? CborAdditionalInfo.Additional16BitData then readFloat 3 decodeHalf
  else if info =? CborAdditionalInfo.Additional32BitData then readFloat 5 readFloatBE
  else if info =? CborAdditionalInfo.Additional64BitData then readFloat 9 readDoubleBE
  else st_throw (CborInvalidOperationException "Not a float encoding").

(** *** Strings *)

Definition readStartIndefiniteLengthString (ty : CborMajorType) : M unit :=
  header ← peekInitialByte (Some ty);
  st_guard (negb (CborInitialByte.getAdditionalInfo header =? CborAdditionalInfo.IndefiniteLength))
    (CborInvalidOperationException "Not indefinite length string") ;;
  advanceBuffer 1 ;;
  pushDataItem ty None.

Definition readEndIndefiniteLengthString (ty : CborMajorType) : M unit :=
  validateNextByteIsBreakByte ;;
  popDataItem ty ;;
  advanceDataItemCounters ;;
  advanceBuffer 1.

Definition readStartIndefiniteLengthByteString : M unit := readStartIndefiniteLengthString ByteString.
Definition readStartIndefiniteLengthTextString : M unit := readStartIndefiniteLengthString Utf8String.
Definition readEndIndefiniteLengthByteString : M unit := readEndIndefiniteLengthString ByteString.
Definition readEndIndefiniteLengthTextString : M unit := readEndIndefiniteLengthString Utf8String.

(** The loop of [#readIndefiniteLengthByteStringConcatenated]: [i] is the
    index of the next chunk in [data].  Each chunk takes at least one byte of
    [data], so its length bounds the iterations. *)
Fixpoint concatChunks (fuel : nat) (type : CborMajorType) (data : list Z) (concat : list Z) (i : Z)
    : outcome CborError (list Z * Z) :=
  nextInitialByte ← peekNextInitialByte (slice_from data i) type;
  if CborInitialByte.getInitialByte nextInitialByte =? CborInitialByte.IndefiniteLengthBreakByte
  then Ok (concat, num_add i 1)
  else
    match fuel with
    | O => OutOfFuel
    | S fuel' =>
        '(chunkLength, bytesRead) ← peekDefiniteLength nextInitialByte (slice_from data i);
        let payloadSize := num_add bytesRead chunkLength in
        concatChunks fuel' type data
          (concat ++ slice data (num_add i (num_sub payloadSize chunkLength)) (num_add i payloadSize))
          (num_add i payloadSize)
    end.

Definition readIndefiniteLengthByteStringConcatenated (type : CborMajorType) : M (list Z * Z) :=
  r ← st_get;
  let data := getRemainingBytes r in
  st_lift (concatChunks (length data) type data [] 1).

(** The definite-length part shared by the four string readers. *)
Definition readDefiniteString (header : Z) : M (list Z) :=
  r ← st_get;
  let buffer := getRemainingBytes r in
  '(length, bytesRead) ← st_lift (peekDefiniteLength header buffer);
  ensureReadCapacity (num_add bytesRead length) ;;
  advanceBuffer (num_add bytesRead length) ;;
  advanceDataItemCounters ;;
  mret (slice buffer bytesRead (num_add bytesRead length)).

Definition readString (ty : CborMajorType) : M (list Z) :=
  header ← peekInitialByte (Some ty);
  if CborInitialByte.getAdditionalInfo header =? CborAdditionalInfo.IndefiniteLength then
    '(val, encodingLength) ← readIndefiniteLengthByteStringConcatenated ty;
    advanceBuffer encodingLength ;;
    advanceDataItemCounters ;;
    mret val
  else readDefiniteString header.

Definition readDefiniteLengthString (ty : CborMajorType) (what : string) : M (list Z) :=
  header ← peekInitialByte (Some ty);
  if CborInitialByte.getAdditionalInfo header =? CborAdditionalInfo.IndefiniteLength then
    st_throw (CborInvalidOperationException
      ("Expected definite length " +:+ what +:+ " and got indefinite length"))
  else readDefiniteString header.

Definition readByteString : M (list Z) := readString ByteString.
Definition readDefiniteLengthByteString : M (list Z) := readDefiniteLengthString ByteString "array".

Definition readTextString : M (list Z) :=
  val ← readString Utf8String; mret (utf8_decode val).
Definition readDefiniteLengthTextString : M (list Z) :=
  val ← readDefiniteLengthString Utf8String "string"; mret (utf8_decode val).

(** *** Tags *)

Definition peekTagCore : M (Z * Z) :=
  header ← peekInitialByte (Some Tag);
  r ← st_get;
  '(result, bytesRead) ← st_lift (decodeUnsignedInteger header (getRemainingBytes r));
  mret (Number_of result, bytesRead).

Definition readTag : M Z :=
  '(tag, bytesRead) ← peekTagCore;
  advanceBuffer bytesRead ;;
  st_modify (fun r => set_isTagContext r true) ;;
  mret tag.

Definition peekTag : M Z :=
  '(tag, _) ← peekTagCore; mret tag.

(** *** Skipping *)

(** [while ((state = this.#peekStateCore()) === CborReaderState.Tag) this.readTag();] *)
Fixpoint skipTags (fuel : nat) : M CborReaderState.t :=
  r ← st_get;
  state ← st_lift (peekStateCore r);
  if bool_decide (state = CborReaderState.Tag) then
    match fuel with
    | O => st_fuel
    | S fuel' => readTag ;; skipTags fuel'
    end
  else mret state.

Definition skipInvalid (state : CborReaderState.t) : CborError :=
  CborInvalidOperationException ("Skip invalid state: " +:+ pretty (CborReaderState.num state)).

(** The [switch] of [#skipNextNode]. *)
Definition skipState (depth : Z) (state : CborReaderState.t) : M Z :=
  match state with
  | CborReaderState.UnsignedInteger => readUInt ;; mret depth
  | CborReaderState.NegativeInteger => readCborNegativeIntegerRepresentation ;; mret depth
  | CborReaderState.ByteString => readByteString ;; mret depth
  | CborReaderState.TextString => readTextString ;; mret depth
  | CborReaderState.StartIndefiniteLengthByteString =>
      readStartIndefiniteLengthByteString ;; mret (depth + 1)
  | CborReaderState.EndIndefiniteLengthByteString =>
      readEndIndefiniteLengthByteString ;; mret (depth - 1)
  | CborReaderState.StartIndefiniteLengthTextString =>
      readStartIndefiniteLengthTextString ;; mret (depth + 1)
  | CborReaderState.EndIndefiniteLengthTextString =>
      st_guard (depth =? 0) (skipInvalid state) ;;
      readEndIndefiniteLengthTextString ;; mret (depth - 1)
  | CborReaderState.StartArray => readStartArray ;; mret (depth + 1)
  | CborReaderState.EndArray =>
      st_guard (depth =? 0) (skipInvalid state) ;; readEndArray ;; mret (depth - 1)
  | CborReaderState.StartMap => readStartMap ;; mret (depth + 1)
  | CborReaderState.EndMap =>
      st_guard (depth =? 0) (skipInvalid state) ;; readEndMap ;; mret (depth - 1)
  | CborReaderState.HalfPrecisionFloat
  | CborReaderState.SinglePrecisionFloat
  | CborReaderState.DoublePrecisionFloat => readDouble ;; mret depth
  | CborReaderState.Null | CborReaderState.Boolean | CborReaderState.SimpleValue =>
      readSimpleValue ;; mret depth
  | CborReaderState.Undefined | CborReaderState.Tag | CborReaderState.Finished =>
      st_throw (skipInvalid state)
  end.

Definition skipNextNode (initialDepth : Z) : M Z :=
  r ← st_get;
  state ← skipTags (length (data r));
  skipState initialDepth state.

(** [do { depth = this.#skipNextNode(depth); } while (depth > 0);] *)
Fixpoint skipLoop (fuel : nat) (depth : Z) : M unit :=
  match fuel with
  | O => st_fuel
  | S fuel' =>
      depth' ← skipNextNode depth;
      if 0 <? depth' then skipLoop fuel' depth' else mret tt
  end.

(** A node either consumes a byte or leaves a container, and a container is
    entered by consuming a byte: twice the bytes left plus the open containers
    bound the iterations. *)
Definition skipFuel (r : t) : nat :=
  S (2 * Z.to_nat (getBytesRemaining r) + length (nestedItems r)).

Definition readEncodedValue : M (list Z) :=
  r ← st_get;
  let initialOffset := offset r in
  skipLoop (skipFuel r) 0 ;;
  r' ← st_get;
  mret (slice (data r') initialOffset (offset r')).

Definition skipValue : M unit := readEncodedValue ;; mret tt.

End CborReader.
