(* ===== verification/CborMachine.v ===== *)
(** * The CBOR reader as a state machine

    The abstract machine behind [CborReader]: what a reader state promises
    ([wf]), the moves it can make ([step]), and the theorem that every method
    either throws and leaves the reader as it was, or makes one legal move.
    Termination of the skipping loops is read off a measure of the moves. *)

From S2P Require Import Prelude JsRuntime Utf8 CborCommon Half CborReader.

Import CborReader.

(** ** Well-formed readers *)

(** A frame the reader can be in: strings are only entered when their length
    is indefinite, and a definite container never reads past its length. *)
Definition frame_ok (f : StackFrame) : Prop :=
  0 <= itemsRead f /\
  match type f with
  | None | Some ByteString | Some Utf8String => definiteLength f = None
  | Some Array | Some Map =>
      match definiteLength f with Some n => itemsRead f <= n | None => True end
  | Some _ => False
  end.

(** A saved frame has room for the container that was entered inside it. *)
Definition saved_ok (f : StackFrame) : Prop := frame_ok f /\ atDefiniteEnd f = false.

(** Only the outermost frame is the root. *)
Fixpoint stack_shape (f : StackFrame) (saved : list StackFrame) : Prop :=
  match saved with
  | [] => type f = None
  | f' :: saved' => type f <> None /\ stack_shape f' saved'
  end.

(** A cached state is the state a fresh peek would compute. *)
Definition cache_coherent (r : t) : Prop :=
  cachedState r = CborReaderState.Undefined \/ peekStateCore r = Ok (cachedState r).

Record wf (r : t) : Prop := {
  wf_bytes : bytes (data r);
  wf_size : zlen (data r) < 2 ^ 53;
  wf_offset : 0 <= offset r <= zlen (data r);
  wf_frame : frame_ok (currentFrame r);
  wf_saved : Forall saved_ok (nestedItems r);
  wf_shape : stack_shape (currentFrame r) (nestedItems r);
  wf_cache : cache_coherent r
}.

(** ** Moves *)

Definition bump (f : StackFrame) (k : Z) : StackFrame :=
  {| type := type f; frameOffset := frameOffset f; definiteLength := definiteLength f;
     itemsRead := itemsRead f + k; currentKeyOffset := currentKeyOffset f |}.

(** Read [k] complete items of [n] bytes altogether. *)
Definition consume (r : t) (n k : Z) : t :=
  {| data := data r; offset := offset r + n; nestedItems := nestedItems r; isTagContext := false;
     currentFrame := bump (currentFrame r) k; cachedState := CborReaderState.Undefined |}.

(** Read a tag of [n] bytes: the item it belongs to is still to come. *)
Definition tagged (r : t) (n : Z) : t :=
  {| data := data r; offset := offset r + n; nestedItems := nestedItems r; isTagContext := true;
     currentFrame := currentFrame r; cachedState := CborReaderState.Undefined |}.

(** Enter a container whose head takes [n] bytes. *)
Definition enter (r : t) (ty : CborMajorType) (len : option Z) (n : Z) (key : option Z) : t :=
  {| data := data r; offset := offset r + n; nestedItems := currentFrame r :: nestedItems r;
     isTagContext := false;
     currentFrame := {| type := Some ty; frameOffset := offset r + n; definiteLength := len;
                        itemsRead := 0; currentKeyOffset := key |};
     cachedState := CborReaderState.Undefined |}.

(** Leave a container, over its break byte ([n = 1]) or not ([n = 0]). *)
Definition leave (r : t) (frame : StackFrame) (rest : list StackFrame) (n : Z) : t :=
  {| data := data r; offset := offset r + n; nestedItems := rest; isTagContext := false;
     currentFrame := bump frame 1; cachedState := CborReaderState.Undefined |}.

Definition can_read (r : t) (n : Z) : Prop :=
  atDefiniteEnd (currentFrame r) = false /\ 1 <= n /\ offset r + n <= zlen (data r).

Definition container_ok (ty : CborMajorType) (len : option Z) : Prop :=
  match ty with
  | ByteString | Utf8String => len = None
  | Array | Map => match len with Some n => 0 <= n | None => True end
  | _ => False
  end.

(** The current container is complete; [n] is the size of its break byte. *)
Definition at_end (r : t) (n : Z) : Prop :=
  match definiteLength (currentFrame r) with
  | Some k => k = itemsRead (currentFrame r) /\ n = 0
  | None => n = 1 /\ offset r < zlen (data r) /\
            byte_at (data r) (offset r) = CborInitialByte.IndefiniteLengthBreakByte
  end.

Inductive step (r : t) : t -> Prop :=
  | step_peek s : peekStateCore r = Ok s -> step r (set_cachedState r s)
  | step_item n : can_read r n -> step r (consume r n 1)
  | step_tag n : can_read r n -> step r (tagged r n)
  | step_enter ty len n key : can_read r n -> container_ok ty len -> step r (enter r ty len n key)
  | step_leave frame rest n :
      nestedItems r = frame :: rest -> isTagContext r = false -> at_end r n ->
      step r (leave r frame rest n).

(** ** Moves keep the reader well formed *)

Lemma atDefiniteEnd_bump f k :
  frame_ok f -> atDefiniteEnd f = false -> 0 <= k <= 1 -> frame_ok (bump f k).
Proof.
  unfold frame_ok, atDefiniteEnd, bump. cbn. intros [H0 Hf] He Hk. split; [lia|].
  destruct (type f) as [[]|]; try done; destruct (definiteLength f); try done; zb; lia.
Qed.

Lemma stack_shape_ext f g l : type f = type g -> stack_shape f l -> stack_shape g l.
Proof. intros E. destruct l; cbn; by rewrite E. Qed.

Lemma peekStateCore_cache r s : peekStateCore (set_cachedState r s) = peekStateCore r.
Proof. reflexivity. Qed.

Lemma cache_reset r : cachedState r = CborReaderState.Undefined -> cache_coherent r.
Proof. by left. Qed.

#[export] Hint Resolve cache_reset : js.

Lemma step_wf r r' : step r r' -> wf r -> wf r'.
Proof.
  intros Hs [Hb Hsz Ho Hf Hsv Hsh Hc].
  destruct Hs as [s Hp|n (He & Hn & Hle)|n (He & Hn & Hle)|ty len n key (He & Hn & Hle) Hct
                 |frame rest n Hnest Htag Hend].
  - split; cbn; try done. right. cbn. by rewrite peekStateCore_cache.
  - split; cbn; auto with js; [lia| |].
    + apply atDefiniteEnd_bump; [done..|lia].
    + eapply stack_shape_ext; [|exact Hsh]. done.
  - split; cbn; auto with js. lia.
  - split; cbn; auto with js; [lia| |].
    + split; cbn; [done|]. destruct ty, len; done.
    + by constructor.
  - rewrite Hnest in Hsv, Hsh. apply Forall_cons in Hsv as [[Hfr Hfe] Hrest]. cbn in Hsh.
    assert (0 <= n /\ offset r + n <= zlen (data r)) as [Hn Hle].
    { unfold at_end in Hend. destruct (definiteLength (currentFrame r)); lia. }
    split; cbn; auto with js; [lia| |].
    + apply atDefiniteEnd_bump; [done..|lia].
    + eapply stack_shape_ext; [|apply Hsh]. done.
Qed.

Lemma step_data r r' : step r r' -> data r' = data r.
Proof. by destruct 1. Qed.

(** Twice the bytes left plus the open containers. *)
Definition measure (r : t) : Z := 2 * getBytesRemaining r + zlen (nestedItems r).

Lemma measure_nonneg r : wf r -> 0 <= measure r.
Proof.
  intros H. unfold measure, getBytesRemaining. pose proof (zlen_nonneg (nestedItems r)).
  destruct (wf_offset r H). lia.
Qed.

(** ** Behaviour of the primitives *)

Lemma advanceBuffer_ok r n : zlen (data r) < 2 ^ 53 -> offset r + n <= zlen (data r) ->
  advanceBuffer n r =
  (Ok tt, set_cachedState (set_offset r (offset r + n)) CborReaderState.Undefined).
Proof.
  intros Hw Hle. unfold advanceBuffer. st_step.
  assert (Hadd : num_add (offset r) n = offset r + n) by (apply Number_of_exact; lia).
  rewrite Hadd, (proj2 (Z.ltb_ge _ _)) by lia. done.
Qed.

Lemma advanceBuffer_cases r n : wf r -> 0 <= n ->
  (exists e, advanceBuffer n r = (Throw e, r) /\ zlen (data r) < offset r + n) \/
  (advanceBuffer n r =
    (Ok tt, set_cachedState (set_offset r (offset r + n)) CborReaderState.Undefined) /\
   offset r + n <= zlen (data r)).
Proof.
  intros Hw Hn. destruct (Z.le_gt_cases (offset r + n) (zlen (data r))) as [Hle|Hgt].
  - right. split; [apply advanceBuffer_ok; [apply wf_size|]|]; done.
  - left. unfold advanceBuffer. st_step.
    destruct (Z.ltb_spec (zlen (data r)) (num_add (offset r) n)) as [|Hge]; [eauto|].
    apply num_add_le in Hge; [lia|]. pose proof (wf_size r Hw). lia.
Qed.

(** [peekInitialByte] never changes the reader; on success it returns the
    next byte, which passed the checks. *)
Lemma peekInitialByte_cases e r : wf r ->
  (exists err, peekInitialByte e r = (Throw err, r)) \/
  (peekInitialByte e r = (Ok (byte_at (data r) (offset r)), r) /\
   can_read r 1 /\
   match e with
   | Some ty => majorType_num ty <> 0 ->
       CborInitialByte.getMajorType (byte_at (data r) (offset r)) = majorType_num ty
   | None => True
   end).
Proof.
  intros Hw. unfold peekInitialByte. st_step.
  destruct (atDefiniteEnd (currentFrame r)) eqn:He; [eauto|].
  destruct (Z.eqb_spec (offset r) (zlen (data r))) as [|Ho]; [case_bool; eauto|].
  assert (Hr : can_read r 1) by (destruct (wf_offset r Hw); repeat split; [done|lia..]).
  unfold CborInitialByte.from.
  set (b := byte_at (data r) (offset r)).
  set (pre := match type (currentFrame r) with
              | Some ByteString | Some Utf8String => _ | _ => _ end : M unit).
  assert (Hpre : pre r = (Ok tt, r) \/ exists err, pre r = (Throw err, r)).
  { subst pre. destruct (type (currentFrame r)) as [[]|]; try (by left);
      case_bool; eauto. }
  unfold mbind, ST_bind. destruct Hpre as [-> | [err ->]]; [|eauto].
  destruct e as [ty|]; [|by right].
  destruct (Z.eqb_spec (majorType_num ty) 0) as [E0|E0]; cbn [negb andb].
  { right. split_and!; [done..|]. intros []. done. }
  destruct (Z.eqb_spec (majorType_num ty) (CborInitialByte.getMajorType b)); cbn [negb]; [|eauto].
  right. by split_and!.
Qed.

Lemma ensureReadCapacityInArray_spec l n :
  ensureReadCapacityInArray l n =
  if zlen l <? n then Throw (CborContentException UNEXPECTED_END_OF_BUFFER_MSG) else Ok tt.
Proof. reflexivity. Qed.

Lemma decodeUnsignedInteger_cases h l : bytes l ->
  (exists e, decodeUnsignedInteger h l = Throw e) \/
  (exists v n, decodeUnsignedInteger h l = Ok (v, n) /\ 0 <= v < 2 ^ 64 /\ 1 <= n <= 9 /\
               (n <= zlen l \/ n = 1)).
Proof.
  intros Hl. unfold decodeUnsignedInteger. rewrite !ensureReadCapacityInArray_spec.
  pose proof (getAdditionalInfo_bound h).
  assert (Hs : forall k, 1 <= k <= zlen l -> k <= 9 -> 0 <= be_decode (slice l 1 k) < 2 ^ 64).
  { intros k Hk H9. pose proof (be_decode_bound (slice l 1 k) (bytes_slice l 1 k Hl)) as Hb.
    rewrite zlen_slice in Hb by lia.
    assert (256 ^ (k - 1) <= 256 ^ 8) by (apply Z.pow_le_mono_r; lia). lia. }
  pose proof (byte_at_is_byte l 1 Hl) as H1. unfold is_byte in H1.
  case_bool; [right; eexists _, _; split; [done|]; lia|].
  repeat (case_bool; cbn [mbind outcome_bind]; [case_bool; cbn [mbind outcome_bind]; zb;
    [by eauto|right; eexists _, _; split; [done|]; split; [first [apply Hs; lia|lia]|lia]]|]).
  eauto.
Qed.

Lemma peekDefiniteLength_cases h l : bytes l ->
  (exists e, peekDefiniteLength h l = Throw e) \/
  (exists v n, peekDefiniteLength h l = Ok (v, n) /\ 0 <= v /\ 1 <= n <= 9 /\
               (n <= zlen l \/ n = 1)).
Proof.
  intros Hl. unfold peekDefiniteLength.
  destruct (decodeUnsignedInteger_cases h l Hl) as [[e ->]|(v & n & -> & Hv & Hn)]; cbn; [eauto|].
  right. eexists _, _. split; [done|]. split; [apply Number_of_nonneg; lia|done].
Qed.

Lemma zlen_remaining r : wf r -> zlen (getRemainingBytes r) = zlen (data r) - offset r.
Proof.
  intros Hw. destruct (wf_offset r Hw). unfold getRemainingBytes.
  rewrite zlen_slice_from by lia. lia.
Qed.

Lemma bytes_remaining r : wf r -> bytes (getRemainingBytes r).
Proof. intros Hw. apply bytes_slice_from, (wf_bytes r Hw). Qed.

(** ** All-or-nothing methods *)

(** Started in [r], the method throws without having changed the reader, or
    returns a value and a reader related by [P]. *)
Definition atomic {A} (r : t) (m : M A) (P : A -> t -> Prop) : Prop :=
  (exists e, m r = (Throw e, r)) \/ (exists v r', m r = (Ok v, r') /\ P v r').

Section atomic.
Context {A B : Type} (r : t).
Implicit Types (P : B -> t -> Prop) (k : A -> M B).

Lemma atomic_peek (Q : A -> Prop) (m : M A) k P :
  atomic r m (fun v r' => r' = r /\ Q v) ->
  (forall v, Q v -> atomic r (k v) P) ->
  atomic r (m ≫= k) P.
Proof.
  intros [[e He]|(v & r' & Hv & -> & HQ)] Hk; unfold atomic, mbind, ST_bind.
  - left. exists e. by rewrite He.
  - rewrite Hv. by apply Hk.
Qed.

Lemma atomic_lift (Q : A -> Prop) (m : outcome CborError A) :
  (exists e, m = Throw e) \/ (exists v, m = Ok v /\ Q v) ->
  atomic r (st_lift m) (fun v r' => r' = r /\ Q v).
Proof. intros [[e ->]|(v & -> & HQ)]; [left|right]; eauto. Qed.

Lemma atomic_throw (e : CborError) P : atomic r (st_throw e) P.
Proof. left. eauto. Qed.

Lemma atomic_impl (m : M B) P (P' : B -> t -> Prop) :
  atomic r m P -> (forall v r', P v r' -> P' v r') -> atomic r m P'.
Proof. intros [?|(v & r' & ? & ?)] Himp; [left|right]; eauto 10. Qed.
End atomic.

Lemma atomic_get {B} (r : t) (k : t -> M B) P : atomic r (k r) P -> atomic r (st_get ≫= k) P.
Proof. done. Qed.

Lemma atomic_guard {B} (r : t) b e (k : M B) P :
  (b = false -> atomic r k P) -> atomic r (st_guard b e ;; k) P.
Proof. unfold st_guard. destruct b; intros H; [left; eauto|by apply H]. Qed.

Lemma atomic_fmap {A B} (r : t) (m : M A) (f : A -> B) (P : t -> Prop) :
  atomic r m (fun _ r' => P r') -> atomic r (v ← m; mret (f v)) (fun _ r' => P r').
Proof.
  intros [[e He]|(v & r' & Hv & HP)]; unfold atomic, mbind, ST_bind.
  - left. rewrite He. eauto.
  - right. rewrite Hv. eauto.
Qed.

Lemma atomic_initial r e : wf r ->
  atomic r (peekInitialByte e)
    (fun b r' => r' = r /\ (b = byte_at (data r) (offset r) /\ can_read r 1)).
Proof.
  intros Hw. destruct (peekInitialByte_cases e r Hw) as [[err ?]|(? & ? & ?)]; [left|right]; eauto 10.
Qed.

Lemma atomic_ensure r n : atomic r (ensureReadCapacity n) (fun _ r' => r' = r /\ offset r + n <= zlen (data r)).
Proof.
  unfold ensureReadCapacity, atomic. st_step. destruct (Z.ltb_spec (zlen (data r) - offset r) n).
  - left. eauto.
  - right. eexists _, _. split; [done|]. split; [done|lia].
Qed.

(** The common ending of the item readers. *)
Lemma atomic_consume {A} r n (v : A) : wf r -> 1 <= n -> atDefiniteEnd (currentFrame r) = false ->
  atomic r (advanceBuffer n ;; advanceDataItemCounters ;; mret v)
    (fun v' r' => v' = v /\ can_read r n /\ r' = consume r n 1).
Proof.
  intros Hw Hn He. unfold atomic, mbind, ST_bind.
  destruct (advanceBuffer_cases r n Hw) as [(e & -> & _)|[-> Hle]]; [lia|left; eauto|].
  right. eexists _, _. split; [reflexivity|]. by split_and!.
Qed.

Lemma atomic_consume_unit r n : wf r -> 1 <= n -> atDefiniteEnd (currentFrame r) = false ->
  atomic r (advanceBuffer n ;; advanceDataItemCounters)
    (fun _ r' => can_read r n /\ r' = consume r n 1).
Proof.
  intros Hw Hn He. unfold atomic, mbind, ST_bind.
  destruct (advanceBuffer_cases r n Hw) as [(e & -> & _)|[-> Hle]]; [lia|left; eauto|].
  right. eexists _, _. split; [reflexivity|]. by split_and!.
Qed.

Lemma atomic_enter {A} r n ty len (v : A) : wf r -> 1 <= n -> atDefiniteEnd (currentFrame r) = false ->
  atomic r (advanceBuffer n ;; pushDataItem ty len ;; mret v)
    (fun v' r' => v' = v /\ can_read r n /\ r' = enter r ty len n None).
Proof.
  intros Hw Hn He. unfold atomic, mbind, ST_bind.
  destruct (advanceBuffer_cases r n Hw) as [(e & -> & _)|[-> Hle]]; [lia|left; eauto|].
  right. eexists _, _. split; [reflexivity|]. by split_and!.
Qed.

(** *** One item *)

(** [m] reads one complete item, or nothing. *)
Definition reads_item {A} (m : M A) : Prop :=
  forall r, wf r -> atomic r m (fun _ r' => exists n, can_read r n /\ r' = consume r n 1).

Ltac atomic_start :=
  intros r Hw; eapply atomic_peek; [by apply atomic_initial|]; intros ? (-> & He & _).

Lemma atomic_decode r h : wf r ->
  atomic r (st_lift (decodeUnsignedInteger h (getRemainingBytes r)))
    (fun p r' => r' = r /\ 1 <= p.2).
Proof.
  intros Hw. apply atomic_lift.
  destruct (decodeUnsignedInteger_cases h _ (bytes_remaining r Hw)) as [?|(v & n & -> & ? & ? & ?)];
    [by left|right]. eexists. split; [done|]. cbn. lia.
Qed.

Lemma atomic_length r h : wf r ->
  atomic r (st_lift (peekDefiniteLength h (getRemainingBytes r)))
    (fun p r' => r' = r /\ (1 <= p.2 <= 9 /\ 0 <= p.1)).
Proof.
  intros Hw. apply atomic_lift.
  destruct (peekDefiniteLength_cases h _ (bytes_remaining r Hw)) as [?|(v & n & -> & ? & ? & ?)];
    [by left|right]. eexists. split; [done|]. cbn. lia.
Qed.

Ltac finish_item := eapply atomic_impl; [apply atomic_consume|]; [done|cbn in *; lia|done|];
  intros ? ? (_ & ? & ->); by eauto.

Lemma peekSignedInteger_atomic r : wf r ->
  atomic r peekSignedInteger
    (fun p r' => r' = r /\ (atDefiniteEnd (currentFrame r) = false /\ 1 <= p.2)).
Proof.
  intros Hw. eapply atomic_peek; [by apply atomic_initial|]. intros ? (-> & He & _).
  apply atomic_get. destruct (majorType_of_num _) as [[]|]; try apply atomic_throw.
  - eapply atomic_impl; [by apply atomic_decode|]. by intros ? ? (-> & ?).
  - eapply atomic_peek; [by apply atomic_decode|]. intros [v n] Hn. right. cbn in Hn.
    eexists _, _. by split; [reflexivity|].
Qed.

Lemma peekUnsignedInteger_atomic r : wf r ->
  atomic r peekUnsignedInteger
    (fun p r' => r' = r /\ (atDefiniteEnd (currentFrame r) = false /\ 1 <= p.2)).
Proof.
  intros Hw. eapply atomic_peek; [by apply atomic_initial|]. intros ? (-> & He & _).
  apply atomic_get. destruct (majorType_of_num _) as [[]|]; try apply atomic_throw.
  eapply atomic_impl; [by apply atomic_decode|]. by intros ? ? (-> & ?).
Qed.

Lemma readInt_item : reads_item readInt.
Proof.
  intros r Hw. eapply atomic_peek; [by apply peekSignedInteger_atomic|].
  intros [v n] (He & Hn). finish_item.
Qed.

Lemma readUInt_item : reads_item readUInt.
Proof.
  intros r Hw. eapply atomic_peek; [by apply peekUnsignedInteger_atomic|].
  intros [v n] (He & Hn). finish_item.
Qed.

Lemma readNegative_item : reads_item readCborNegativeIntegerRepresentation.
Proof.
  atomic_start. apply atomic_get. eapply atomic_peek; [by apply atomic_decode|].
  intros [v n] Hn. finish_item.
Qed.

Lemma readBoolean_item : reads_item readBoolean.
Proof. atomic_start. apply atomic_guard. intros _. finish_item. Qed.

Lemma readNull_item : reads_item readNull.
Proof.
  atomic_start. apply atomic_guard. intros _.
  eapply atomic_impl; [by apply atomic_consume_unit|]. intros ? ? (? & ->). eauto.
Qed.

Lemma readSimpleValue_item : reads_item readSimpleValue.
Proof.
  atomic_start. case_bool; [finish_item|]. case_bool; [|apply atomic_throw].
  eapply atomic_peek; [apply atomic_ensure|]. intros _ _. apply atomic_get. finish_item.
Qed.

Lemma readFloat_item r n f : wf r -> 1 <= n -> atDefiniteEnd (currentFrame r) = false ->
  atomic r (readFloat n f) (fun _ r' => exists n, can_read r n /\ r' = consume r n 1).
Proof.
  intros Hw Hn He. eapply atomic_peek; [apply atomic_ensure|]. intros _ _.
  apply atomic_get. finish_item.
Qed.

Lemma readDouble_item : reads_item readDouble.
Proof.
  atomic_start. cbv zeta.
  repeat (case_bool; [apply readFloat_item; done || lia|]). apply atomic_throw.
Qed.

Lemma readDefiniteString_item r h : wf r -> atDefiniteEnd (currentFrame r) = false ->
  atomic r (readDefiniteString h) (fun _ r' => exists n, can_read r n /\ r' = consume r n 1).
Proof.
  intros Hw He. apply atomic_get. eapply atomic_peek; [by apply atomic_length|].
  intros [v n] [Hn Hv]. cbn in Hn, Hv.
  assert (1 <= num_add n v).
  { unfold num_add. destruct (Z.le_gt_cases (n + v) (2 ^ 53)).
    - rewrite Number_of_exact; lia.
    - pose proof (Number_of_large (n + v)). lia. }
  eapply atomic_peek; [apply atomic_ensure|]. intros _ _. finish_item.
Qed.

(** *** Indefinite-length strings *)

Lemma peekNextInitialByte_cases l ty :
  (exists e, peekNextInitialByte l ty = Throw e) \/
  (peekNextInitialByte l ty = Ok (byte_at l 0) /\ 1 <= zlen l /\
   (byte_at l 0 = CborInitialByte.IndefiniteLengthBreakByte \/
    CborInitialByte.getMajorType (byte_at l 0) = majorType_num ty)).
Proof.
  unfold peekNextInitialByte. rewrite ensureReadCapacityInArray_spec.
  destruct (Z.ltb_spec (zlen l) 1); cbn [mbind outcome_bind]; [left; by eexists|].
  unfold CborInitialByte.from, CborInitialByte.getInitialByte.
  destruct (Z.eqb_spec (byte_at l 0) CborInitialByte.IndefiniteLengthBreakByte);
    destruct (Z.eqb_spec (CborInitialByte.getMajorType (byte_at l 0)) (majorType_num ty));
    first [left; by eexists | right; by auto].
Qed.

(** The chunk loop always ends; what it returns lies inside the data. *)
Lemma concatChunks_cases fuel ty l acc i :
  bytes l -> zlen l < 2 ^ 53 -> 0 <= i -> (i > zlen l \/ zlen l - i <= Z.of_nat fuel) ->
  (exists e, concatChunks fuel ty l acc i = Throw e) \/
  (exists v n, concatChunks fuel ty l acc i = Ok (v, n) /\ i < n <= zlen l).
Proof.
  intros Hl Hsz. revert acc i. induction fuel as [|fuel IH]; intros acc i Hi Hf; cbn [concatChunks].
  - destruct (peekNextInitialByte_cases (slice_from l i) ty) as [[e ->]|(-> & H1 & _)]; [left; by eexists|].
    rewrite zlen_slice_from in H1 by done. lia.
  - destruct (peekNextInitialByte_cases (slice_from l i) ty) as [[e ->]|(-> & H1 & _)]; [left; by eexists|].
    rewrite zlen_slice_from in H1 by done. cbn [mbind outcome_bind]. case_bool.
    { right. eexists _, _. split; [done|]. unfold num_add. rewrite Number_of_exact; lia. }
    destruct (peekDefiniteLength_cases (byte_at (slice_from l i) 0) (slice_from l i))
      as [[e ->]|(v & n & -> & Hv & Hn & _)]; [by auto with js|left; by eexists|].
    cbn [mbind outcome_bind].
    assert (Hp : 1 <= num_add n v).
    { unfold num_add. destruct (Z.le_gt_cases (n + v) (2 ^ 53)).
      - rewrite Number_of_exact; lia.
      - pose proof (Number_of_large (n + v)). lia. }
    assert (Hi' : i < num_add i (num_add n v)).
    { unfold num_add at 1. destruct (Z.le_gt_cases (i + num_add n v) (2 ^ 53)).
      - rewrite Number_of_exact; lia.
      - pose proof (Number_of_large (i + num_add n v)). lia. }
    edestruct IH as [?|(v' & n' & -> & ?)]; [| |left; eassumption|].
    + lia.
    + destruct (Z.le_gt_cases (num_add i (num_add n v)) (zlen l)); lia.
    + right. eexists _, _. split; [done|]. lia.
Qed.

Lemma readString_item ty : reads_item (readString ty).
Proof.
  atomic_start. case_bool; [|by apply readDefiniteString_item].
  eapply atomic_peek.
  { apply atomic_get, (atomic_lift _ (fun p => 1 <= p.2)).
    destruct (concatChunks_cases (length (getRemainingBytes r)) ty (getRemainingBytes r) [] 1)
      as [?|(v & n & -> & Hn)]; [by apply bytes_remaining| | | |by left|].
    - rewrite zlen_remaining by done. destruct (wf_offset r Hw). pose proof (wf_size r Hw). lia.
    - lia.
    - right. unfold zlen. lia.
    - right. eexists. split; [done|]. cbn. lia. }
  intros [v n] Hn. finish_item.
Qed.

Lemma readDefiniteLengthString_item ty what : reads_item (readDefiniteLengthString ty what).
Proof. atomic_start. case_bool; [apply atomic_throw|by apply readDefiniteString_item]. Qed.

Lemma readTextString_item : reads_item readTextString.
Proof. intros r Hw. apply atomic_fmap. by apply readString_item. Qed.

Lemma readDefiniteLengthTextString_item : reads_item readDefiniteLengthTextString.
Proof. intros r Hw. apply atomic_fmap. by apply readDefiniteLengthString_item. Qed.

(** *** Tags *)

Lemma peekTagCore_atomic r : wf r ->
  atomic r peekTagCore
    (fun p r' => r' = r /\ (atDefiniteEnd (currentFrame r) = false /\ 1 <= p.2)).
Proof.
  intros Hw. eapply atomic_peek; [by apply atomic_initial|]. intros ? (-> & He & _).
  apply atomic_get. eapply atomic_peek; [by apply atomic_decode|]. intros [v n] Hn. right.
  eexists _, _. by split; [reflexivity|].
Qed.

Lemma readTag_atomic r : wf r ->
  atomic r readTag (fun _ r' => exists n, can_read r n /\ r' = tagged r n).
Proof.
  intros Hw. eapply atomic_peek; [by apply peekTagCore_atomic|]. intros [v n] (He & Hn). cbn in Hn.
  unfold atomic, mbind, ST_bind.
  destruct (advanceBuffer_cases r n Hw) as [(e & -> & _)|[-> Hle]]; [lia|left; eauto|].
  right. eexists _, _. split; [reflexivity|]. exists n. by split_and!.
Qed.

(** *** Entering containers *)

(** [m] enters one container of type [ty], or does nothing. *)
Definition enters {A} (ty : CborMajorType) (m : M A) : Prop :=
  forall r, wf r -> atomic r m (fun _ r' => exists len n key,
    can_read r n /\ container_ok ty len /\ r' = enter r ty len n key).

Lemma readStartArray_enters : enters Array readStartArray.
Proof.
  atomic_start. case_bool.
  - eapply atomic_impl; [by apply atomic_enter|]. intros ? ? (_ & ? & ->).
    by exists None, 1, None.
  - apply atomic_get. eapply atomic_peek; [by apply atomic_length|]. intros [v n] [Hn Hv].
    eapply atomic_impl; [apply atomic_enter; [done|cbn in *; lia|done]|].
    intros ? ? (_ & ? & ->). by exists (Some v), n, None.
Qed.

Lemma atomic_mark r (m : M (option Z)) ty :
  atomic r m (fun _ r' => exists len n, can_read r n /\ container_ok ty len /\ r' = enter r ty len n None) ->
  atomic r (length ← m; markKeyOffset ;; mret length) (fun _ r' => exists len n key,
    can_read r n /\ container_ok ty len /\ r' = enter r ty len n key).
Proof.
  intros [[e He]|(v & r' & Hv & len & n & Hc & Hok & ->)]; unfold atomic, mbind, ST_bind.
  - left. rewrite He. eauto.
  - right. rewrite Hv. eexists _, _. split; [reflexivity|]. by eexists _, _, _.
Qed.

Lemma readStartMap_enters : enters Map readStartMap.
Proof.
  atomic_start. apply atomic_mark. case_bool.
  - eapply atomic_impl; [by apply atomic_enter|]. intros ? ? (_ & ? & ->). by exists None, 1.
  - apply atomic_get. cbv zeta. eapply atomic_peek; [by apply atomic_length|]. intros [v n] [Hn Hv].
    cbn in Hn, Hv. apply atomic_guard. intros _.
    eapply atomic_impl; [apply atomic_enter; [done|lia|done]|].
    intros ? ? (_ & ? & ->). exists (Some (2 * v)), n. split_and!; [done| |done]. cbn. lia.
Qed.

Lemma readStartIndefiniteLengthString_enters ty :
  ty = ByteString \/ ty = Utf8String -> enters ty (readStartIndefiniteLengthString ty).
Proof.
  intros Hty. atomic_start. apply atomic_guard. intros _.
  unfold atomic, mbind, ST_bind.
  destruct (advanceBuffer_cases r 1 Hw) as [(e & -> & _)|[-> Hle]]; [lia|left; eauto|].
  right. eexists _, _. split; [reflexivity|]. exists None, 1, None.
  split_and!; [by split_and!| |done]. by destruct Hty as [-> | ->].
Qed.

(** *** Leaving containers *)

(** [m] leaves the current container at its end, or does nothing. *)
Definition leaves {A} (m : M A) : Prop :=
  forall r, wf r -> atomic r m (fun _ r' => exists frame rest n,
    nestedItems r = frame :: rest /\ isTagContext r = false /\ at_end r n /\
    r' = leave r frame rest n).

Definition popped (r : t) (frame : StackFrame) (rest : list StackFrame) : t :=
  set_cachedState (set_currentFrame (set_nestedItems r rest) frame) CborReaderState.Undefined.

Lemma popDataItem_atomic r ty : wf r ->
  atomic r (popDataItem ty) (fun _ r' => exists frame rest,
    nestedItems r = frame :: rest /\ isTagContext r = false /\ type (currentFrame r) = Some ty /\
    (forall k, definiteLength (currentFrame r) = Some k -> k = itemsRead (currentFrame r)) /\
    r' = popped r frame rest).
Proof.
  intros Hw. apply atomic_get. cbv zeta. destruct (wf_frame r Hw) as [_ Hf].
  destruct (type (currentFrame r)) as [ty'|]; [|apply atomic_throw].
  destruct (nestedItems r) as [|frame rest]; [apply atomic_throw|].
  destruct (Z.eqb_spec (majorType_num ty) (majorType_num ty')) as [E|E]; [|apply atomic_throw].
  apply majorType_num_inj in E. subst ty'. cbn [negb].
  case_bool; [apply atomic_throw|]. destruct (isTagContext r) eqn:Et; [apply atomic_throw|].
  right. eexists _, _. split; [reflexivity|]. eexists _, _. split_and!; [done..| |done].
  intros k Hk. rewrite Hk in *. zb. destruct ty; try done; lia.
Qed.

Lemma validate_atomic r : wf r ->
  atomic r validateNextByteIsBreakByte (fun _ r' => r' = r /\ (offset r < zlen (data r) /\
    byte_at (data r) (offset r) = CborInitialByte.IndefiniteLengthBreakByte)).
Proof.
  intros Hw. eapply atomic_peek; [by apply atomic_initial|]. intros ? (-> & He & _ & Hle).
  unfold st_guard, CborInitialByte.getInitialByte.
  destruct (Z.eqb_spec (byte_at (data r) (offset r)) CborInitialByte.IndefiniteLengthBreakByte);
    cbn [negb]; [|apply atomic_throw].
  right. eexists _, _. split; [reflexivity|]. split_and!; [done|lia|done].
Qed.

(** The ending shared by the indefinite-length containers. *)
Lemma atomic_leave_break r ty : wf r ->
  definiteLength (currentFrame r) = None -> offset r < zlen (data r) ->
  byte_at (data r) (offset r) = CborInitialByte.IndefiniteLengthBreakByte ->
  atomic r (popDataItem ty ;; advanceDataItemCounters ;; advanceBuffer 1) (fun _ r' =>
    exists frame rest n, nestedItems r = frame :: rest /\ isTagContext r = false /\ at_end r n /\
    r' = leave r frame rest n).
Proof.
  intros Hw Hd Ho Hb. unfold atomic, mbind, ST_bind.
  destruct (popDataItem_atomic r ty Hw) as [[e ->]|(v & r' & -> & frame & rest & Hn & Ht & _ & _ & ->)];
    [left; eauto|].
  right. unfold advanceDataItemCounters at 1, st_modify.
  rewrite advanceBuffer_ok; [|apply (wf_size r Hw)|cbn; lia].
  eexists _, _. split; [reflexivity|]. exists frame, rest, 1.
  split_and!; [done..| |].
  - unfold at_end. by rewrite Hd.
  - unfold leave, popped, set_cachedState, set_offset, set_isTagContext, set_currentFrame, set_nestedItems.
    cbn. done.
Qed.

Lemma atomic_leave_definite r ty k : wf r ->
  definiteLength (currentFrame r) = Some k ->
  atomic r (popDataItem ty ;; advanceDataItemCounters) (fun _ r' =>
    exists frame rest n, nestedItems r = frame :: rest /\ isTagContext r = false /\ at_end r n /\
    r' = leave r frame rest n).
Proof.
  intros Hw Hd. unfold atomic, mbind, ST_bind.
  destruct (popDataItem_atomic r ty Hw) as [[e ->]|(v & r' & -> & frame & rest & Hn & Ht & _ & Hk & ->)];
    [left; eauto|].
  right. eexists _, _. split; [reflexivity|]. exists frame, rest, 0.
  split_and!; [done..| |].
  - unfold at_end. rewrite Hd. split; [by apply Hk|done].
  - unfold leave, popped, set_cachedState, set_isTagContext, set_currentFrame, set_nestedItems.
    cbn. by rewrite Z.add_0_r.
Qed.

Lemma readEndArray_leaves : leaves readEndArray.
Proof.
  intros r Hw. apply atomic_get. destruct (definiteLength (currentFrame r)) as [k|] eqn:Hd.
  - by eapply atomic_leave_definite.
  - eapply atomic_peek; [by apply validate_atomic|]. intros _ [Ho Hb]. by apply atomic_leave_break.
Qed.

Lemma readEndMap_leaves : leaves readEndMap.
Proof.
  intros r Hw. apply atomic_get. destruct (definiteLength (currentFrame r)) as [k|] eqn:Hd.
  - by eapply atomic_leave_definite.
  - eapply atomic_peek; [by apply validate_atomic|]. intros _ [Ho Hb].
    apply atomic_guard. intros _. by apply atomic_leave_break.
Qed.

(** Outside of a string frame the break byte cannot be in a definite container
    of the wrong kind: [popDataItem] refuses it, so the frame is indefinite. *)
Lemma readEndIndefiniteLengthString_leaves ty :
  ty = ByteString \/ ty = Utf8String -> leaves (readEndIndefiniteLengthString ty).
Proof.
  intros Hty r Hw. eapply atomic_peek; [by apply validate_atomic|]. intros _ [Ho Hb].
  destruct (definiteLength (currentFrame r)) as [k|] eqn:Hd; [|by apply atomic_leave_break].
  unfold atomic, mbind, ST_bind.
  destruct (popDataItem_atomic r ty Hw) as [[e ->]|(v & r' & _ & frame & rest & _ & _ & Hf & _ & _)];
    [left; eauto|].
  destruct (wf_frame r Hw) as [_ Hfr]. rewrite Hf in Hfr. exfalso.
  destruct Hty as [-> | ->]; congruence.
Qed.

(** *** The peek that caches *)

Lemma peekStateCore_fuel r : peekStateCore r <> OutOfFuel.
Proof.
  unfold peekStateCore, breakState, itemState. cbv zeta.
  repeat first [ progress cbn [mbind outcome_bind] | discriminate | case_bool
               | match goal with |- context [match ?x with _ => _ end] => destruct x end ].
Qed.

Lemma peekState_atomic r : wf r ->
  atomic r peekState (fun s r' => peekStateCore r = Ok s /\ r' = set_cachedState r s).
Proof.
  intros Hw. apply atomic_get. case_bool_decide as E.
  - unfold atomic, mbind, ST_bind, st_lift.
    destruct (peekStateCore r) as [s|e|] eqn:Ep; [right|left; by eexists|by destruct (peekStateCore_fuel r)].
    by eexists _, _.
  - right. eexists _, _. split; [reflexivity|]. destruct (wf_cache r Hw) as [?|?]; [done|].
    split; [done|]. by destruct r.
Qed.

(** ** The public interface *)

(** The methods of the class that read one element or peek, without their
    results. *)
Inductive call : Set :=
  | PeekState | PeekTag | ReadTag
  | ReadInt | ReadUInt | ReadNegative | ReadDouble | ReadSimpleValue | ReadBoolean | ReadNull
  | ReadByteString | ReadDefiniteLengthByteString | ReadTextString | ReadDefiniteLengthTextString
  | ReadStartArray | ReadEndArray | ReadStartMap | ReadEndMap
  | ReadStartIndefiniteLengthByteString | ReadEndIndefiniteLengthByteString
  | ReadStartIndefiniteLengthTextString | ReadEndIndefiniteLengthTextString.

Definition run (c : call) : M unit :=
  match c with
  | PeekState => peekState ;; mret tt
  | PeekTag => peekTag ;; mret tt
  | ReadTag => readTag ;; mret tt
  | ReadInt => readInt ;; mret tt
  | ReadUInt => readUInt ;; mret tt
  | ReadNegative => readCborNegativeIntegerRepresentation ;; mret tt
  | ReadDouble => readDouble ;; mret tt
  | ReadSimpleValue => readSimpleValue ;; mret tt
  | ReadBoolean => readBoolean ;; mret tt
  | ReadNull => readNull ;; mret tt
  | ReadByteString => readByteString ;; mret tt
  | ReadDefiniteLengthByteString => readDefiniteLengthByteString ;; mret tt
  | ReadTextString => readTextString ;; mret tt
  | ReadDefiniteLengthTextString => readDefiniteLengthTextString ;; mret tt
  | ReadStartArray => readStartArray ;; mret tt
  | ReadEndArray => readEndArray ;; mret tt
  | ReadStartMap => readStartMap ;; mret tt
  | ReadEndMap => readEndMap ;; mret tt
  | ReadStartIndefiniteLengthByteString => readStartIndefiniteLengthByteString ;; mret tt
  | ReadEndIndefiniteLengthByteString => readEndIndefiniteLengthByteString ;; mret tt
  | ReadStartIndefiniteLengthTextString => readStartIndefiniteLengthTextString ;; mret tt
  | ReadEndIndefiniteLengthTextString => readEndIndefiniteLengthTextString ;; mret tt
  end.

(** A client that catches every exception and goes on. *)
Fixpoint run_all (cs : list call) (r : t) : t :=
  match cs with
  | [] => r
  | c :: cs' => run_all cs' (snd (run c r))
  end.

Lemma reads_item_step {A} (m : M A) r : reads_item m -> wf r -> atomic r (m ;; mret tt) (fun _ r' => step r r').
Proof.
  intros Hm Hw. apply (atomic_fmap r m (fun _ => tt)). eapply atomic_impl; [by apply Hm|].
  intros _ ? (n & ? & ->). by constructor.
Qed.

Lemma enters_step {A} ty (m : M A) r : enters ty m -> wf r -> atomic r (m ;; mret tt) (fun _ r' => step r r').
Proof.
  intros Hm Hw. apply (atomic_fmap r m (fun _ => tt)). eapply atomic_impl; [by apply Hm|].
  intros _ ? (len & n & key & ? & ? & ->). by constructor.
Qed.

Lemma leaves_step {A} (m : M A) r : leaves m -> wf r -> atomic r (m ;; mret tt) (fun _ r' => step r r').
Proof.
  intros Hm Hw. apply (atomic_fmap r m (fun _ => tt)). eapply atomic_impl; [by apply Hm|].
  intros _ ? (frame & rest & n & ? & ? & ? & ->). by apply step_leave.
Qed.

#[export] Hint Resolve readInt_item readUInt_item readNegative_item readDouble_item
  readSimpleValue_item readBoolean_item readNull_item readString_item
  readDefiniteLengthString_item readTextString_item readDefiniteLengthTextString_item
  readStartArray_enters readStartMap_enters readEndArray_leaves readEndMap_leaves
  readStartIndefiniteLengthString_enters readEndIndefiniteLengthString_leaves : js.

Ltac unfold_strings :=
  unfold readByteString, readDefiniteLengthByteString, readStartIndefiniteLengthByteString,
    readEndIndefiniteLengthByteString, readStartIndefiniteLengthTextString,
    readEndIndefiniteLengthTextString.

(** Every call is atomic and makes a legal move, or none. *)
Lemma run_atomic c r : wf r -> atomic r (run c) (fun _ r' => r' = r \/ step r r').
Proof.
  intros Hw.
  assert (Hstep : forall m : M unit, atomic r m (fun _ r' => step r r') ->
                  atomic r m (fun _ r' => r' = r \/ step r r')).
  { intros m Hm. eapply atomic_impl; [done|]. by right. }
  destruct c; cbn [run]; unfold_strings;
    try (apply Hstep; first
      [ apply reads_item_step; [by auto with js | done]
      | eapply enters_step; [by eauto with js | done]
      | apply leaves_step; [by auto with js | done] ]).
  - apply Hstep, (atomic_fmap r peekState (fun _ => tt)). eapply atomic_impl; [by apply peekState_atomic|].
    intros s ? (? & ->). by constructor.
  - eapply (atomic_peek r (fun _ => True)); [|by right; eauto].
    eapply atomic_peek; [by apply peekTagCore_atomic|]. intros [v n] _. right. by eexists _, _.
  - apply Hstep, (atomic_fmap r readTag (fun _ => tt)). eapply atomic_impl; [by apply readTag_atomic|].
    intros s ? (n & ? & ->). by constructor.
Qed.

Lemma run_wf c r : wf r -> wf (snd (run c r)) /\ data (snd (run c r)) = data r.
Proof.
  intros Hw. destruct (run_atomic c r Hw) as [[e ->]|(v & r' & -> & [->|Hs])]; [done..|].
  split; [by eapply step_wf|by apply step_data].
Qed.

Lemma run_all_wf cs r : wf r -> wf (run_all cs r) /\ data (run_all cs r) = data r.
Proof.
  revert r. induction cs as [|c cs IH]; intros r Hw; [done|]. cbn.
  destruct (run_wf c r Hw) as [Hw' <-]. by apply IH.
Qed.

(** A new reader is well formed. *)
Lemma of_bytes_wf l : bytes l -> zlen l < 2 ^ 53 -> wf (of_bytes l).
Proof.
  intros Hb Hs. split; cbn; auto with js.
  - pose proof (zlen_nonneg l). lia.
  - done.
Qed.

(** ** Skipping always ends *)

Lemma step_measure r r' : step r r' -> measure r' < measure r \/ exists s, r' = set_cachedState r s.
Proof.
  intros Hs. unfold measure, getBytesRemaining.
  destruct Hs as [s _|n (_ & Hn & _)|n (_ & Hn & _)|ty len n key (_ & Hn & _) _|frame rest n Hnest _ Hend];
    [right; eauto|left..]; cbn; zlen_simpl; try lia.
  rewrite Hnest. zlen_simpl. unfold at_end in Hend. destruct (definiteLength (currentFrame r)); lia.
Qed.

Lemma reads_item_measure {A} (m : M A) r v r' :
  reads_item m -> wf r -> m r = (Ok v, r') -> step r r' /\ measure r' < measure r.
Proof.
  intros Hm Hw E. destruct (Hm r Hw) as [[e E']|(? & ? & E' & n & Hc & ->)]; rewrite E' in E; [done|].
  injection E as -> <-. split; [by constructor|].
  destruct Hc as (_ & Hn & _). unfold measure, getBytesRemaining. cbn. lia.
Qed.

(** The method ends without running out of fuel, every state on the way is
    legal, and a normal return satisfies [P]. *)
Definition runs {Err A} (r : t) (m : ST t Err A) (P : A -> t -> Prop) : Prop :=
  exists o r', m r = (o, r') /\ o <> OutOfFuel /\ rtc step r r' /\ forall v, o = Ok v -> P v r'.

Lemma runs_bind {Err A B} r (m : ST t Err A) (k : A -> ST t Err B) Q P :
  runs r m Q -> (forall v r', rtc step r r' -> Q v r' -> runs r' (k v) P) -> runs r (m ≫= k) P.
Proof.
  intros (o & r' & E & Ho & Hr & HQ) Hk. unfold runs, mbind, ST_bind. rewrite E.
  destruct o as [v|e|]; [|by eexists _, _; split_and!|done].
  destruct (Hk v r' Hr (HQ v eq_refl)) as (o' & r'' & E' & Ho' & Hr' & HP).
  eexists _, _. split_and!; [done..| |done]. by etrans.
Qed.

Lemma runs_ret {E A} r (v : A) (P : A -> t -> Prop) : P v r -> runs (Err := E) r (mret v) P.
Proof. intros HP. eexists _, _. split_and!; [done..|]. by intros ? [= <-]. Qed.

Lemma runs_throw {E A} r (e : E) (P : A -> t -> Prop) : runs r (st_throw e) P.
Proof. by eexists _, _; split_and!. Qed.

Lemma runs_guard {E A} r b (e : E) (k : ST t E A) P : runs r k P -> runs r (st_guard b e ;; k) P.
Proof. destruct b; [intros _; apply runs_throw|done]. Qed.

Lemma runs_atomic {A} r (m : M A) (P Q : A -> t -> Prop) :
  atomic r m Q -> (forall v r', Q v r' -> step r r' /\ P v r') -> runs r m P.
Proof.
  intros [[e E]|(v & r' & E & HQ)] HP; eexists _, _; (split_and!; [eassumption|done| |]).
  - done.
  - done.
  - apply rtc_once. by eapply HP.
  - intros ? [= <-]. by eapply HP.
Qed.

Lemma runs_get {E A} r (k : t -> ST t E A) P : runs r (k r) P -> runs r (st_get ≫= k) P.
Proof. done. Qed.

Lemma runs_lift {Err A B} r (m : outcome Err A) (k : A -> ST t Err B) P :
  m <> OutOfFuel -> (forall v, m = Ok v -> runs r (k v) P) -> runs r (st_lift m ≫= k) P.
Proof.
  intros Hm Hk. destruct m as [v|e|]; [by apply Hk|by eexists _, _; split_and!|done].
Qed.

Lemma rtc_step_wf r r' : rtc step r r' -> wf r -> wf r'.
Proof. induction 1; eauto using step_wf. Qed.

Lemma rtc_step_data r r' : rtc step r r' -> data r' = data r.
Proof. induction 1 as [|? ? ? Hs _ IH]; [done|]. rewrite IH. by apply step_data. Qed.

Lemma skipTags_runs fuel r : wf r -> getBytesRemaining r <= Z.of_nat fuel ->
  runs r (skipTags fuel) (fun s r' => s <> CborReaderState.Tag /\ peekStateCore r' = Ok s /\ measure r' <= measure r).
Proof.
  revert r. induction fuel as [|fuel IH]; intros r Hw Hf; cbn [skipTags];
    apply runs_get, runs_lift; [apply peekStateCore_fuel| |apply peekStateCore_fuel| ];
    intros s Es; case_bool_decide as E; try (by apply runs_ret; split_and!).
  - subst s. exfalso. revert Es. unfold peekStateCore. cbv zeta.
    destruct (wf_offset r Hw). unfold getBytesRemaining in Hf.
    assert (offset r = zlen (data r)) as -> by lia. rewrite Z.eqb_refl.
    case_bool; [destruct (type (currentFrame r)) as [[]|]; discriminate|case_bool; discriminate].
  - eapply (runs_bind _ _ _ (fun _ r' => exists n, can_read r n /\ r' = tagged r n)).
    { eapply runs_atomic; [by apply readTag_atomic|]. intros ? ? (n & ? & ->). split; [by constructor|eauto]. }
    intros _ r' Hr (n & Hc & ->). destruct Hc as (? & ? & ?).
    destruct (IH (tagged r n)) as (o & r2 & E2 & ? & ? & HP).
    + eapply rtc_step_wf; [done|done].
    + unfold getBytesRemaining in *. cbn. lia.
    + eexists _, _. split_and!; [done..|]. intros v Hv. destruct (HP v Hv) as (? & ? & Hm).
      split_and!; [done..|]. unfold measure, getBytesRemaining in *. cbn in Hm. lia.
Qed.

Lemma runs_move {A B} r (m : M A) (v : B) (Q : A -> t -> Prop) :
  atomic r m Q -> (forall v r', Q v r' -> step r r' /\ measure r' < measure r) ->
  runs r (m ;; mret v) (fun _ r' => measure r' < measure r).
Proof.
  intros Ha HQ. eapply runs_bind; [|by intros ? r' _ H; apply runs_ret, H].
  eapply runs_atomic; [exact Ha|]. intros ? ? H. by apply HQ in H.
Qed.

Lemma runs_item {A} r (m : M A) (d : Z) : reads_item m -> wf r ->
  runs r (m ;; mret d) (fun _ r' => measure r' < measure r).
Proof.
  intros Hm Hw. eapply runs_move; [by apply Hm|]. intros _ r' (n & (? & ? & ?) & ->).
  split; [by constructor|]. unfold measure, getBytesRemaining. cbn. lia.
Qed.

Lemma runs_enter {A} ty r (m : M A) (d : Z) : enters ty m -> wf r ->
  runs r (m ;; mret d) (fun _ r' => measure r' < measure r).
Proof.
  intros Hm Hw. eapply runs_move; [by apply Hm|]. intros _ r' (len & n & key & (? & ? & ?) & ? & ->).
  split; [by constructor|]. unfold measure, getBytesRemaining. cbn. zlen_simpl. lia.
Qed.

Lemma runs_leave {A} r (m : M A) (d : Z) : leaves m -> wf r ->
  runs r (m ;; mret d) (fun _ r' => measure r' < measure r).
Proof.
  intros Hm Hw. eapply runs_move; [by apply Hm|].
  intros _ r' (frame & rest & n & Hn & Ht & He & ->).
  assert (Hs : step r (leave r frame rest n)) by by apply step_leave.
  split; [done|]. destruct (step_measure _ _ Hs) as [|[s Hc]]; [done|].
  apply (f_equal (fun x => length (nestedItems x))) in Hc. cbn in Hc. rewrite Hn in Hc. cbn in Hc. lia.
Qed.

(** One node of the skipping loop makes progress. *)
Lemma skipNextNode_runs d r : wf r -> runs r (skipNextNode d) (fun _ r' => measure r' < measure r).
Proof.
  intros Hw. unfold skipNextNode. apply runs_get.
  eapply runs_bind.
  { apply skipTags_runs; [done|]. destruct (wf_offset r Hw). unfold getBytesRemaining, zlen. lia. }
  intros s r1 Hr1 (Hns & Hp & Hm1). assert (Hw1 : wf r1) by by eapply rtc_step_wf.
  assert (Hlift : forall m : M Z, runs r1 m (fun _ r' => measure r' < measure r1) ->
                  runs r1 m (fun _ r' => measure r' < measure r)).
  { intros m (o & r' & ? & ? & ? & HP). exists o, r'. split_and!; [done..|].
    intros v Hv. specialize (HP v Hv). lia. }
  destruct s; cbn [skipState]; try apply runs_throw; try apply runs_guard; try done; apply Hlift; unfold_strings;
    first [ apply runs_item; [by auto with js|done]
          | eapply runs_enter; [by eauto with js|done]
          | apply runs_leave; [by auto with js|done] ].
Qed.

Lemma skipLoop_runs fuel d r : wf r -> measure r < Z.of_nat fuel ->
  runs r (skipLoop fuel d) (fun _ r' => measure r' < measure r).
Proof.
  revert d r. induction fuel as [|fuel IH]; intros d r Hw Hf.
  { pose proof (measure_nonneg r Hw). lia. }
  cbn [skipLoop]. eapply runs_bind; [by apply skipNextNode_runs|].
  cbv beta. intros d' r' Hr' Hm. case_bool; [|by apply runs_ret].
  destruct (IH d' r') as (o & r2 & ? & ? & ? & HP); [by eapply rtc_step_wf|lia|].
  exists o, r2. split_and!; [done..|]. intros v Hv. specialize (HP v Hv). lia.
Qed.

Lemma skipFuel_enough r : wf r -> measure r < Z.of_nat (skipFuel r).
Proof.
  intros Hw. destruct (wf_offset r Hw). unfold measure, skipFuel, getBytesRemaining, zlen in *. lia.
Qed.

(** *** A skipped value takes at least one byte *)

Lemma step_offset r r' : step r r' -> wf r -> offset r <= offset r'.
Proof.
  intros Hs _. destruct Hs as [s _|n (_ & Hn & _)|n (_ & Hn & _)|ty len n key (_ & Hn & _) _|frame rest n _ _ Hend];
    cbn; try lia. unfold at_end in Hend. destruct (definiteLength (currentFrame r)); lia.
Qed.

Lemma rtc_step_offset r r' : rtc step r r' -> wf r -> offset r <= offset r'.
Proof.
  induction 1 as [|x y z Hs _ IH]; intros Hw; [lia|].
  pose proof (step_offset x y Hs Hw). pose proof (IH (step_wf _ _ Hs Hw)). lia.
Qed.

Lemma runs_impl {Err A} r (m : ST t Err A) (P Q : A -> t -> Prop) :
  runs r m P -> (forall v r', rtc step r r' -> P v r' -> Q v r') -> runs r m Q.
Proof.
  intros (o & r' & E1 & Ho & Hr & HP) HQ. exists o, r'. split_and!; [done..|]. intros v Hv. eauto.
Qed.

(** The states announced by the first byte of an item. *)
Definition starts_item (s : CborReaderState.t) : bool :=
  match s with
  | CborReaderState.EndArray | CborReaderState.EndMap | CborReaderState.EndIndefiniteLengthByteString
  | CborReaderState.EndIndefiniteLengthTextString | CborReaderState.Finished | CborReaderState.Undefined => false
  | _ => true
  end.

Lemma itemState_starts b s : itemState b = Ok s -> starts_item s = true.
Proof.
  unfold itemState, mapSimpleValueDataToReaderState.
  destruct (majorType_of_num _) as [[]|]; repeat case_bool; by intros [= <-].
Qed.

(** A byte string ends at a break byte only if its length is indefinite. *)
Lemma string_end_indefinite r : peekStateCore r = Ok CborReaderState.EndIndefiniteLengthByteString ->
  definiteLength (currentFrame r) = None.
Proof.
  destruct (definiteLength (currentFrame r)) as [n|] eqn:E; [|done].
  unfold peekStateCore, breakState. cbv zeta. rewrite E.
  case_bool; [destruct (type (currentFrame r)) as [[]|]; discriminate|].
  case_bool; [case_bool; discriminate|]. case_bool; [case_bool; discriminate|].
  unfold mbind, outcome_bind. intros H.
  assert (itemState (CborInitialByte.from (byte_at (data r) (offset r))) =
          Ok CborReaderState.EndIndefiniteLengthByteString) as H'%itemState_starts; [|done].
  destruct (type (currentFrame r)) as [[]|]; try exact H; by destruct (_ =? _) in H.
Qed.

Lemma skipNextNode_advances r : wf r -> runs r (skipNextNode 0) (fun _ r' => offset r < offset r').
Proof.
  intros Hw. unfold skipNextNode. apply runs_get.
  eapply runs_bind.
  { apply skipTags_runs; [done|]. destruct (wf_offset r Hw). unfold getBytesRemaining, zlen. lia. }
  intros s r1 Hr1 (Hns & Hp & _). assert (Hw1 : wf r1) by by eapply rtc_step_wf.
  pose proof (rtc_step_offset _ _ Hr1 Hw) as Ho.
  assert (Hitem : forall A (m : M A) d, reads_item m -> runs r1 (m ;; mret d) (fun (_ : Z) r' => offset r < offset r')).
  { intros A m d Hm. eapply runs_bind; [eapply runs_atomic; [by apply Hm|]; intros ? ? H; split; [|exact H]|].
    - destruct H as (n & ? & ->). by constructor.
    - intros _ r' _ (n & (_ & ? & _) & ->). apply runs_ret. cbn. lia. }
  assert (Henter : forall A ty (m : M A) d, enters ty m -> runs r1 (m ;; mret d) (fun (_ : Z) r' => offset r < offset r')).
  { intros A ty m d Hm. eapply runs_bind; [eapply runs_atomic; [by apply Hm|]; intros ? ? H; split; [|exact H]|].
    - destruct H as (? & ? & ? & ? & ? & ->). by constructor.
    - intros _ r' _ (? & n & ? & (_ & ? & _) & _ & ->). apply runs_ret. cbn. lia. }
  destruct s; cbn [skipState]; try apply runs_throw; try done; unfold_strings;
    first [ apply Hitem; by auto with js | eapply Henter; by eauto with js | idtac ].
  eapply runs_bind; [eapply runs_atomic; [apply (readEndIndefiniteLengthString_leaves ByteString (or_introl eq_refl) r1 Hw1)|]; intros ? ? H; split; [|exact H]|].
  - destruct H as (? & ? & ? & ? & ? & ? & ->). by apply step_leave.
  - intros _ r' _ (frame & rest & n & _ & _ & He & ->). apply runs_ret. cbn.
    unfold at_end in He. rewrite (string_end_indefinite _ Hp) in He. lia.
Qed.

Lemma skipLoop_advances fuel r : wf r -> measure r < Z.of_nat fuel ->
  runs r (skipLoop fuel 0) (fun _ r' => offset r < offset r').
Proof.
  intros Hw Hf. destruct fuel as [|fuel]; [pose proof (measure_nonneg r Hw); lia|].
  cbn [skipLoop].
  destruct (skipNextNode_runs 0 r Hw) as (o & r1 & E & Ho & Hr & HP).
  destruct (skipNextNode_advances r Hw) as (o' & r1' & E' & _ & _ & HQ). rewrite E in E'. injection E' as <- <-.
  eapply (runs_bind _ _ _ (fun _ r' => offset r < offset r' /\ measure r' < measure r)).
  { exists o, r1. split_and!; [done..|]. intros v Hv. split; eauto. }
  cbv beta. intros d' r' Hr' [Hof Hm]. case_bool; [|by apply runs_ret].
  assert (Hw' : wf r') by by eapply rtc_step_wf.
  eapply runs_impl; [apply skipLoop_runs; [done|lia]|].
  intros _ r2 Hr2 _. pose proof (rtc_step_offset _ _ Hr2 Hw'). lia.
Qed.

Lemma readEncodedValue_runs r : wf r ->
  runs r readEncodedValue (fun v r' => v = slice (data r) (offset r) (offset r') /\ offset r < offset r').
Proof.
  intros Hw. unfold readEncodedValue.
  apply runs_get. cbv zeta.
  eapply runs_bind; [apply skipLoop_advances; [done|by apply skipFuel_enough]|].
  cbv beta. intros _ r' Hr' ?. eexists _, _. split_and!; [reflexivity|done..|].
  intros v [= <-]. by rewrite (rtc_step_data _ _ Hr').
Qed.
