(* ===== verification/CborExact.v ===== *)
(** * What the reader returns on well-formed input

    For a reader placed on the bytes of an item, the exact value each method
    returns and the exact state it leaves behind; with the writer's exact
    output this gives the round trips of every scalar. *)

From S2P Require Import Prelude JsRuntime Utf8 CborCommon Half CborWriter CborReader CborMachine.

Import CborReader.

(** ** Heads of any width

    A reader accepts an argument in any of the five widths, a writer emits
    the shortest one. *)
Inductive is_head (t : CborMajorType) (v : Z) : list Z -> Prop :=
  | head_0 : 0 <= v < 24 -> is_head t v [majorType_num t * 32 + v]
  | head_1 : 0 <= v < 2 ^ 8 -> is_head t v ((majorType_num t * 32 + 24) :: be_encode 1 v)
  | head_2 : 0 <= v < 2 ^ 16 -> is_head t v ((majorType_num t * 32 + 25) :: be_encode 2 v)
  | head_4 : 0 <= v < 2 ^ 32 -> is_head t v ((majorType_num t * 32 + 26) :: be_encode 4 v)
  | head_8 : 0 <= v < 2 ^ 64 -> is_head t v ((majorType_num t * 32 + 27) :: be_encode 8 v).

Lemma writer_head t v : 0 <= v < 2 ^ 64 -> is_head t v (CborWriter.head t v).
Proof.
  intros Hv. unfold CborWriter.head. cbv zeta.
  repeat case_bool; zb; constructor; lia.
Qed.

Lemma is_head_length t v h : is_head t v h -> 1 <= zlen h <= 9.
Proof. destruct 1; zlen_simpl; lia. Qed.

Lemma is_head_arg t v h : is_head t v h -> 0 <= v < 2 ^ 64.
Proof. destruct 1; lia. Qed.

Lemma is_head_bytes t v h : is_head t v h -> bytes h.
Proof.
  pose proof (majorType_num_bound t).
  destruct 1; (apply Forall_cons_2; [unfold is_byte; lia|]); first [apply be_encode_bytes | constructor].
Qed.

(** The first byte of a head: the major type and an additional information
    that is not the indefinite-length marker. *)
Lemma is_head_first t v h : is_head t v h ->
  exists i rest, h = (majorType_num t * 32 + i) :: rest /\ 0 <= i < 28.
Proof. destruct 1; eexists _, _; (split; [reflexivity|lia]). Qed.

(** The argument of a head, by the value of its additional information. *)
Lemma decode_info h l i : CborInitialByte.getAdditionalInfo h = i ->
  decodeUnsignedInteger h l =
  if i <? 24 then Ok (i, 1)
  else if i =? 24 then ensureReadCapacityInArray l 2 ;; Ok (byte_at l 1, 2)
  else if i =? 25 then ensureReadCapacityInArray l 3 ;; Ok (be_decode (slice l 1 3), 3)
  else if i =? 26 then ensureReadCapacityInArray l 5 ;; Ok (be_decode (slice l 1 5), 5)
  else if i =? 27 then ensureReadCapacityInArray l 9 ;; Ok (be_decode (slice l 1 9), 9)
  else Throw (CborContentException "Invalid integer encoding").
Proof. intros <-. reflexivity. Qed.

Lemma capacity_ok l n : n <= zlen l -> ensureReadCapacityInArray l n = Ok tt.
Proof. intros H. by rewrite ensureReadCapacityInArray_spec, (proj2 (Z.ltb_ge _ _)). Qed.

Lemma be_slice b n w rest k : 0 <= w < 256 ^ Z.of_nat n -> k = 1 + Z.of_nat n ->
  be_decode (slice (b :: be_encode n w ++ rest) 1 k) = w.
Proof.
  intros Hw ->. change (b :: be_encode n w ++ rest) with ([b] ++ be_encode n w ++ rest).
  rewrite (slice_app [b] (be_encode n w) rest); [by apply be_decode_encode|reflexivity|].
  by rewrite zlen_be_encode.
Qed.

Lemma byte_at_first b l : byte_at (b :: l) 0 = b.
Proof. unfold byte_at. by rewrite Z.min_l by apply zlen_nonneg. Qed.

Ltac decode_width i :=
  rewrite (decode_info _ _ i) by (apply getAdditionalInfo_make; lia);
  cbn [Z.ltb Z.eqb Z.compare Pos.compare Pos.compare_cont Pos.eqb];
  rewrite capacity_ok by (zlen_simpl; lia); cbn [mbind outcome_bind].

Lemma decode_head t v h rest : is_head t v h ->
  decodeUnsignedInteger (byte_at (h ++ rest) 0) (h ++ rest) = Ok (v, zlen h).
Proof.
  intros Hh. pose proof (zlen_nonneg rest).
  destruct Hh as [Hv|Hv|Hv|Hv|Hv]; cbn [app]; rewrite byte_at_first.
  - rewrite (decode_info _ _ v) by (apply getAdditionalInfo_make; lia).
    by rewrite (proj2 (Z.ltb_lt _ _)) by lia.
  - decode_width 24. rewrite CborWriterFacts.be_encode_1 by lia.
    unfold byte_at. cbn [app]. zlen_simpl. by rewrite Z.min_l by lia.
  - decode_width 25. by rewrite (be_slice _ 2) by (done || (change (256 ^ Z.of_nat 2) with (2 ^ 16); lia)).
  - decode_width 26. by rewrite (be_slice _ 4) by (done || (change (256 ^ Z.of_nat 4) with (2 ^ 32); lia)).
  - decode_width 27. by rewrite (be_slice _ 8) by (done || (change (256 ^ Z.of_nat 8) with (2 ^ 64); lia)).
Qed.

(** ** A reader in front of known bytes *)

(** The current frame allows an item that starts with [b]: strings contain
    only chunks of their own type. *)
Definition admits (f : StackFrame) (b : Z) : Prop :=
  match type f with
  | Some ByteString => validChunk ByteString b = true
  | Some Utf8String => validChunk Utf8String b = true
  | _ => True
  end.

(** [r] is in front of [l], which is not empty, and may read its first item. *)
Record ready (r : t) (l : list Z) : Prop := {
  ready_wf : wf r;
  ready_rest : getRemainingBytes r = l;
  ready_room : atDefiniteEnd (currentFrame r) = false;
  ready_frame : admits (currentFrame r) (byte_at l 0)
}.

Lemma remaining_byte r i : wf r -> 0 <= i ->
  byte_at (data r) (offset r + i) = byte_at (getRemainingBytes r) i.
Proof.
  intros Hw Hi. destruct (wf_offset r Hw) as [Ho1 Ho2]. unfold getRemainingBytes, slice_from.
  rewrite Z.min_l by done.
  assert (Hl : zlen (take (Z.to_nat (offset r)) (data r)) = offset r).
  { unfold zlen in *. rewrite length_take. lia. }
  rewrite <- (byte_at_app_r (take (Z.to_nat (offset r)) (data r))
               (drop (Z.to_nat (offset r)) (data r)) i Hi).
  by rewrite take_drop, Hl.
Qed.

Lemma remaining_advance (r : t) l k o :
  wf r -> getRemainingBytes r = l ++ k -> o = offset r + zlen l ->
  slice_from (data r) o = k /\ offset r + zlen l <= zlen (data r).
Proof.
  intros Hw Hl ->. pose proof (zlen_remaining r Hw) as Hz. rewrite Hl in Hz. zlen_simpl.
  destruct (wf_offset r Hw). pose proof (zlen_nonneg k). pose proof (zlen_nonneg l).
  split; [|lia]. unfold getRemainingBytes, slice_from in *.
  rewrite Z.min_l in Hl by lia. rewrite Z.min_l by lia.
  rewrite Z2Nat.inj_add by lia. rewrite <- drop_drop, Hl.
  unfold zlen. rewrite Nat2Z.id. apply drop_app_length.
Qed.

Lemma remaining_consume r l k n : wf r -> getRemainingBytes r = l ++ k ->
  getRemainingBytes (consume r (zlen l) n) = k.
Proof. intros Hw Hl. by apply (remaining_advance r l k). Qed.

Lemma can_read_ahead r l k : wf r -> getRemainingBytes r = l ++ k ->
  offset r + zlen l <= zlen (data r).
Proof. intros Hw Hl. by eapply (remaining_advance r l k). Qed.

Lemma ready_peek r b l e : ready r (b :: l) ->
  match e with Some ty => CborInitialByte.getMajorType b = majorType_num ty | None => True end ->
  peekInitialByte e r = (Ok b, r).
Proof.
  intros [Hw Hr He Hf] Hty. unfold peekInitialByte. st_step. rewrite He.
  pose proof (zlen_remaining r Hw) as Hz. rewrite Hr in Hz. zlen_simpl.
  pose proof (zlen_nonneg l). rewrite (proj2 (Z.eqb_neq _ _)) by lia. cbv zeta.
  unfold CborInitialByte.from.
  assert (Hb : byte_at (data r) (offset r) = b).
  { rewrite <- (Z.add_0_r (offset r)), remaining_byte, Hr by done. apply byte_at_first. }
  rewrite Hb. rewrite byte_at_first in Hf. unfold admits in Hf.
  destruct (type (currentFrame r)) as [[]|]; rewrite ?Hf;
    (destruct e as [ty|]; [rewrite Hty, Z.eqb_refl, andb_false_r|]; done).
Qed.

(** *** Scalars *)

Lemma consume_exact {A} r l k (v : A) n : wf r -> getRemainingBytes r = l ++ k -> n = zlen l ->
  (advanceBuffer n ;; advanceDataItemCounters ;; mret v) r = (Ok v, consume r (zlen l) 1).
Proof.
  intros Hw Hl ->. unfold mbind, ST_bind. rewrite advanceBuffer_ok.
  - reflexivity.
  - apply (wf_size r Hw).
  - by eapply can_read_ahead.
Qed.

(** In front of a head: the byte every peek returns, and its argument. *)
Lemma ready_head r t v h rest : is_head t v h -> ready r (h ++ rest) ->
  exists b,
    (forall e, match e with Some ty => ty = t | None => True end -> peekInitialByte e r = (Ok b, r)) /\
    CborInitialByte.getMajorType b = majorType_num t /\
    0 <= CborInitialByte.getAdditionalInfo b < 28 /\
    decodeUnsignedInteger b (getRemainingBytes r) = Ok (v, zlen h).
Proof.
  intros Hh Hr. destruct (is_head_first t v h Hh) as (i & l & E & Hi).
  pose proof (decode_head t v h rest Hh) as Hd. rewrite (ready_rest _ _ Hr).
  exists (majorType_num t * 32 + i). rewrite E in Hr, Hd |- *. cbn [app] in *.
  rewrite byte_at_first in Hd. rewrite getMajorType_make, getAdditionalInfo_make by lia.
  split_and!; [|done|lia..|done].
  intros e He. eapply ready_peek; [done|]. destruct e; [|done]. subst. by rewrite getMajorType_make by lia.
Qed.

Ltac finish_exact Hr :=
  eapply consume_exact; [apply (ready_wf _ _ Hr)|apply (ready_rest _ _ Hr)|done].

Lemma readUInt_exact r v h rest : is_head UnsignedInteger v h -> ready r (h ++ rest) ->
  readUInt r = (Ok v, consume r (zlen h) 1).
Proof.
  intros Hh Hr. destruct (ready_head _ _ _ _ _ Hh Hr) as (b & Hpk & Hmt & _ & Hdec).
  assert (E : peekUnsignedInteger r = (Ok (v, zlen h), r)).
  { unfold peekUnsignedInteger. rewrite (st_bind_ok _ _ _ _ _ (Hpk None I)), st_get_ok.
    by rewrite Hmt, majorType_of_num_num, Hdec. }
  unfold readUInt. rewrite (st_bind_ok _ _ _ _ _ E). finish_exact Hr.
Qed.

Lemma readNegative_exact r v h rest : is_head NegativeInteger v h -> ready r (h ++ rest) ->
  readCborNegativeIntegerRepresentation r = (Ok v, consume r (zlen h) 1).
Proof.
  intros Hh Hr. destruct (ready_head _ _ _ _ _ Hh Hr) as (b & Hpk & Hmt & _ & Hdec).
  unfold readCborNegativeIntegerRepresentation.
  rewrite (st_bind_ok _ _ _ _ _ (Hpk (Some NegativeInteger) eq_refl)), st_get_ok.
  rewrite (st_lift_ok _ _ _ _ Hdec). finish_exact Hr.
Qed.

(** The integer a head of major type 0 or 1 stands for. *)
Definition int_value (t : CborMajorType) (v : Z) : Z :=
  match t with NegativeInteger => -1 - v | _ => v end.

Lemma readInt_exact r t v h rest : t = UnsignedInteger \/ t = NegativeInteger ->
  is_head t v h -> ready r (h ++ rest) -> readInt r = (Ok (int_value t v), consume r (zlen h) 1).
Proof.
  intros Ht Hh Hr. destruct (ready_head _ _ _ _ _ Hh Hr) as (b & Hpk & Hmt & _ & Hdec).
  assert (E : peekSignedInteger r = (Ok (int_value t v, zlen h), r)).
  { unfold peekSignedInteger. rewrite (st_bind_ok _ _ _ _ _ (Hpk None I)), st_get_ok.
    rewrite Hmt, majorType_of_num_num. destruct Ht as [-> | ->]; cbn [int_value].
    - by rewrite Hdec.
    - by rewrite (st_lift_ok _ _ _ _ Hdec). }
  unfold readInt. rewrite (st_bind_ok _ _ _ _ _ E). finish_exact Hr.
Qed.

(** *** Strings, tags and simple values *)

Lemma peekDefiniteLength_head b l v n :
  decodeUnsignedInteger b l = Ok (v, n) -> v < 2 ^ 53 -> peekDefiniteLength b l = Ok (v, n).
Proof.
  intros Hd Hv. unfold peekDefiniteLength. rewrite Hd. cbn [mbind outcome_bind].
  by rewrite Number_of_exact by lia.
Qed.

(** A definite-length string: its head, and as many bytes as it says. *)
Lemma readDefiniteString_exact r t h s rest b : is_head t (zlen s) h -> ready r (h ++ s ++ rest) ->
  decodeUnsignedInteger b (getRemainingBytes r) = Ok (zlen s, zlen h) ->
  readDefiniteString b r = (Ok s, consume r (zlen (h ++ s)) 1).
Proof.
  intros Hh Hr Hdec. pose proof (ready_wf _ _ Hr) as Hw. pose proof (ready_rest _ _ Hr) as Hrest.
  rewrite app_assoc in Hrest. pose proof (can_read_ahead r (h ++ s) rest Hw Hrest) as Hle.
  pose proof (wf_size r Hw). destruct (wf_offset r Hw). pose proof (is_head_length _ _ _ Hh).
  zlen_simpl. unfold readDefiniteString. rewrite st_get_ok. cbv zeta.
  rewrite (st_lift_ok _ _ _ (zlen s, zlen h)) by (apply peekDefiniteLength_head; [done|lia]).
  assert (Hn : num_add (zlen h) (zlen s) = zlen h + zlen s) by (apply Number_of_exact; lia).
  rewrite Hn.
  assert (Hcap : ensureReadCapacity (zlen h + zlen s) r = (Ok tt, r)).
  { unfold ensureReadCapacity. rewrite st_get_ok. unfold st_guard. by rewrite (proj2 (Z.ltb_ge _ _)) by lia. }
  rewrite (st_bind_ok _ _ _ _ _ Hcap), (consume_exact r (h ++ s) rest) by (done || by rewrite zlen_app).
  rewrite zlen_app, Hrest, <- app_assoc. by rewrite (slice_app h s rest).
Qed.

Lemma readString_exact r t h s rest : majorType_num t <> 0 -> is_head t (zlen s) h ->
  ready r (h ++ s ++ rest) -> readString t r = (Ok s, consume r (zlen (h ++ s)) 1).
Proof.
  intros Ht Hh Hr. destruct (ready_head _ _ _ _ _ Hh Hr) as (b & Hpk & Hmt & Hai & Hdec).
  unfold readString. rewrite (st_bind_ok _ _ _ _ _ (Hpk (Some t) eq_refl)).
  rewrite (proj2 (Z.eqb_neq _ _)) by (unfold CborAdditionalInfo.IndefiniteLength; lia).
  by eapply readDefiniteString_exact.
Qed.

Lemma readDefiniteLengthString_exact r t h s rest what : is_head t (zlen s) h ->
  ready r (h ++ s ++ rest) -> readDefiniteLengthString t what r = (Ok s, consume r (zlen (h ++ s)) 1).
Proof.
  intros Hh Hr. destruct (ready_head _ _ _ _ _ Hh Hr) as (b & Hpk & Hmt & Hai & Hdec).
  unfold readDefiniteLengthString. rewrite (st_bind_ok _ _ _ _ _ (Hpk (Some t) eq_refl)).
  rewrite (proj2 (Z.eqb_neq _ _)) by (unfold CborAdditionalInfo.IndefiniteLength; lia).
  by eapply readDefiniteString_exact.
Qed.

Lemma tagged_exact r h rest : ready r (h ++ rest) ->
  advanceBuffer (zlen h) r =
  (Ok tt, set_cachedState (set_offset r (offset r + zlen h)) CborReaderState.Undefined).
Proof.
  intros Hr. apply advanceBuffer_ok; [apply (wf_size _ (ready_wf _ _ Hr))|].
  eapply can_read_ahead; [apply (ready_wf _ _ Hr)|apply (ready_rest _ _ Hr)].
Qed.

Lemma readTag_exact r v h rest : is_head Tag v h -> ready r (h ++ rest) ->
  readTag r = (Ok (Number_of v), tagged r (zlen h)).
Proof.
  intros Hh Hr. destruct (ready_head _ _ _ _ _ Hh Hr) as (b & Hpk & Hmt & Hai & Hdec).
  assert (E : peekTagCore r = (Ok (Number_of v, zlen h), r)).
  { unfold peekTagCore. rewrite (st_bind_ok _ _ _ _ _ (Hpk (Some Tag) eq_refl)), st_get_ok.
    by rewrite (st_lift_ok _ _ _ _ Hdec). }
  unfold readTag. rewrite (st_bind_ok _ _ _ _ _ E), (st_bind_ok _ _ _ _ _ (tagged_exact r h rest Hr)). done.
Qed.

(** One byte of major type 7. *)
Lemma ready_byte r b l t : ready r (b :: l) -> CborInitialByte.getMajorType b = majorType_num t ->
  forall e, match e with Some ty => ty = t | None => True end -> peekInitialByte e r = (Ok b, r).
Proof. intros Hr Ht e He. eapply ready_peek; [done|]. destruct e; [|done]. by subst. Qed.

Lemma readBoolean_exact r (v : bool) rest : ready r ((if v then 245 else 244) :: rest) ->
  readBoolean r = (Ok v, consume r 1 1).
Proof.
  intros Hr. assert (Hm : CborInitialByte.getMajorType (if v then 245 else 244) = majorType_num Simple) by by destruct v.
  unfold readBoolean. rewrite (st_bind_ok _ _ _ _ _ (ready_byte _ _ _ _ Hr Hm (Some Simple) eq_refl)).
  rewrite st_guard_ok by by destruct v.
  rewrite (consume_exact r [if v then 245 else 244] rest);
    [by destruct v|apply (ready_wf _ _ Hr)|apply (ready_rest _ _ Hr)|done].
Qed.

Lemma readNull_exact r rest : ready r (246 :: rest) -> readNull r = (Ok tt, consume r 1 1).
Proof.
  intros Hr.
  unfold readNull. rewrite (st_bind_ok _ _ _ _ _ (ready_byte r 246 rest Simple Hr eq_refl (Some Simple) eq_refl)).
  rewrite st_guard_ok by done.
  pose proof (consume_exact r [246] rest tt 1 (ready_wf _ _ Hr) (ready_rest _ _ Hr) eq_refl) as E.
  revert E. unfold mbind, ST_bind. destruct (advanceBuffer 1 r) as [[]]; done.
Qed.

Lemma readSimpleValue_exact r i rest : 0 <= i < 24 -> ready r ((224 + i) :: rest) ->
  readSimpleValue r = (Ok i, consume r 1 1).
Proof.
  intros Hi Hr. change (224 + i) with (majorType_num Simple * 32 + i) in Hr.
  assert (Hai := getAdditionalInfo_make Simple i ltac:(lia)).
  assert (Hmt := getMajorType_make Simple i ltac:(lia)).
  unfold readSimpleValue. rewrite (st_bind_ok _ _ _ _ _ (ready_byte _ _ _ _ Hr Hmt (Some Simple) eq_refl)).
  unfold CborInitialByte.getInitialByte.
  change (Z.land ?b CborInitialByte.AdditionalInformationMask) with (CborInitialByte.getAdditionalInfo b).
  rewrite Hai, (proj2 (Z.ltb_lt _ _)) by (unfold CborAdditionalInfo.Additional8BitData; lia).
  by rewrite (consume_exact r [_] rest _ _ (ready_wf _ _ Hr) (ready_rest _ _ Hr) eq_refl).
Qed.

Lemma ensure_exact r l k n : wf r -> getRemainingBytes r = l ++ k -> n <= zlen l ->
  ensureReadCapacity n r = (Ok tt, r).
Proof.
  intros Hw Hl Hn. unfold ensureReadCapacity. rewrite st_get_ok. unfold st_guard.
  pose proof (can_read_ahead r l k Hw Hl). by rewrite (proj2 (Z.ltb_ge _ _)) by lia.
Qed.

Lemma readSimpleValue8_exact r b rest : ready r (248 :: b :: rest) ->
  readSimpleValue r = (Ok b, consume r 2 1).
Proof.
  intros Hr. pose proof (ready_wf _ _ Hr) as Hw. pose proof (ready_rest _ _ Hr) as Hrest.
  unfold readSimpleValue.
  rewrite (st_bind_ok _ _ _ _ _ (ready_byte r 248 _ Simple Hr eq_refl (Some Simple) eq_refl)).
  match goal with |- (if ?b then _ else _) _ = _ => change b with false end. cbv iota.
  match goal with |- (if ?b then _ else _) _ = _ => change b with true end. cbv iota.
  rewrite (st_bind_ok _ _ _ _ _ (ensure_exact r [248; b] rest 2 Hw Hrest ltac:(done))), st_get_ok. cbv zeta.
  rewrite remaining_byte, Hrest by done.
  rewrite (consume_exact r [248; b] rest _ 2 Hw Hrest eq_refl).
  f_equal. f_equal. unfold byte_at. zlen_simpl. pose proof (zlen_nonneg rest). by rewrite Z.min_l by lia.
Qed.

Lemma readFloat_exact r b p rest n f : ready r (b :: p ++ rest) -> n = 1 + zlen p ->
  readFloat n f r = (Ok (f p), consume r n 1).
Proof.
  intros Hr Hn. pose proof (ready_wf _ _ Hr) as Hw. pose proof (ready_rest _ _ Hr) as Hrest.
  assert (Hl : zlen (b :: p) = n) by (zlen_simpl; lia).
  unfold readFloat.
  rewrite (st_bind_ok _ _ _ _ _ (ensure_exact r (b :: p) rest n Hw Hrest ltac:(lia))), st_get_ok. cbv zeta.
  rewrite (consume_exact r (b :: p) rest _ n Hw Hrest (eq_sym Hl)), Hl.
  rewrite Hrest. change (b :: p ++ rest) with ([b] ++ p ++ rest).
  rewrite (slice_app [b] p rest 1 n); [done|reflexivity|]. rewrite Hn. reflexivity.
Qed.

(** The float that follows an initial byte of major type 7. *)
Definition float_value (b : Z) (p : list Z) : option number :=
  if b =? 249 then (if zlen p =? 2 then Some (decodeHalf p) else None)
  else if b =? 250 then (if zlen p =? 4 then Some (readFloatBE p) else None)
  else if b =? 251 then (if zlen p =? 8 then Some (readDoubleBE p) else None)
  else None.

Lemma readDouble_exact r b p rest v : float_value b p = Some v -> ready r (b :: p ++ rest) ->
  readDouble r = (Ok v, consume r (1 + zlen p) 1).
Proof.
  unfold float_value. intros Hv Hr. unfold readDouble.
  destruct (Z.eqb_spec b 249) as [->|]; [|destruct (Z.eqb_spec b 250) as [->|];
    [|destruct (Z.eqb_spec b 251) as [->|]; [|done]]];
  rewrite (st_bind_ok _ _ _ _ _ (ready_byte r _ _ Simple Hr eq_refl (Some Simple) eq_refl));
  (destruct (zlen p =? _) eqn:Hp in Hv; [|done]); zb; injection Hv as <-; rewrite Hp;
  (eapply readFloat_exact; [exact Hr|by rewrite Hp]).
Qed.

(** *** Containers *)

Lemma enter_exact {A} r h rest ty len (v : A) : ready r (h ++ rest) ->
  (advanceBuffer (zlen h) ;; pushDataItem ty len ;; mret v) r =
  (Ok v, enter r ty len (zlen h) None).
Proof. intros Hr. by rewrite (st_bind_ok _ _ _ _ _ (tagged_exact r h rest Hr)). Qed.

Lemma readStartArray_exact r n h rest : n < 2 ^ 53 -> is_head Array n h -> ready r (h ++ rest) ->
  readStartArray r = (Ok (Some n), enter r Array (Some n) (zlen h) None).
Proof.
  intros Hn Hh Hr. destruct (ready_head _ _ _ _ _ Hh Hr) as (b & Hpk & Hmt & Hai & Hdec).
  unfold readStartArray. rewrite (st_bind_ok _ _ _ _ _ (Hpk (Some Array) eq_refl)).
  rewrite (proj2 (Z.eqb_neq _ _)) by (unfold CborAdditionalInfo.IndefiniteLength; lia).
  rewrite st_get_ok, (st_lift_ok _ _ _ (n, zlen h)) by by apply peekDefiniteLength_head.
  by eapply enter_exact.
Qed.

Lemma readStartArray_indefinite r rest : ready r (159 :: rest) ->
  readStartArray r = (Ok None, enter r Array None 1 None).
Proof.
  intros Hr. unfold readStartArray.
  rewrite (st_bind_ok _ _ _ _ _ (ready_byte r 159 _ Array Hr eq_refl (Some Array) eq_refl)).
  by apply (enter_exact r [159] rest).
Qed.

Lemma mark_exact (m : M (option Z)) r v ty len n : m r = (Ok v, enter r ty len n None) ->
  (length ← m; markKeyOffset ;; mret length) r = (Ok v, enter r ty len n (Some (offset r + n))).
Proof. intros E. by rewrite (st_bind_ok _ _ _ _ _ E). Qed.

Lemma readStartMap_exact r n h rest : 2 * n <= zlen rest -> is_head Map n h -> ready r (h ++ rest) ->
  readStartMap r = (Ok (Some n), enter r Map (Some (2 * n)) (zlen h) (Some (offset r + zlen h))).
Proof.
  intros Hn Hh Hr. destruct (ready_head _ _ _ _ _ Hh Hr) as (b & Hpk & Hmt & Hai & Hdec).
  pose proof (ready_wf _ _ Hr) as Hw. pose proof (zlen_remaining r Hw) as Hz.
  rewrite (ready_rest _ _ Hr) in Hz. zlen_simpl. pose proof (wf_size r Hw). destruct (wf_offset r Hw).
  pose proof (is_head_length _ _ _ Hh). pose proof (is_head_arg _ _ _ Hh).
  unfold readStartMap. rewrite (st_bind_ok _ _ _ _ _ (Hpk (Some Map) eq_refl)). apply mark_exact.
  rewrite (proj2 (Z.eqb_neq _ _)) by (unfold CborAdditionalInfo.IndefiniteLength; lia).
  rewrite st_get_ok. cbv zeta.
  rewrite (st_lift_ok _ _ _ (n, zlen h)) by (apply peekDefiniteLength_head; [done|lia]).
  rewrite st_guard_ok; [by eapply enter_exact|].
  rewrite (ready_rest _ _ Hr). zlen_simpl. apply Z.ltb_ge. lia.
Qed.

Lemma readStartMap_indefinite r rest : ready r (191 :: rest) ->
  readStartMap r = (Ok None, enter r Map None 1 (Some (offset r + 1))).
Proof.
  intros Hr. unfold readStartMap.
  rewrite (st_bind_ok _ _ _ _ _ (ready_byte r 191 _ Map Hr eq_refl (Some Map) eq_refl)).
  apply mark_exact. by apply (enter_exact r [191] rest).
Qed.

Lemma readStartIndefiniteLengthString_exact r t rest : t = ByteString \/ t = Utf8String ->
  ready r ((majorType_num t * 32 + 31) :: rest) ->
  readStartIndefiniteLengthString t r = (Ok tt, enter r t None 1 None).
Proof.
  intros Ht Hr. assert (Hmt := getMajorType_make t 31 ltac:(lia)).
  unfold readStartIndefiniteLengthString.
  rewrite (st_bind_ok _ _ _ _ _ (ready_byte _ _ _ _ Hr Hmt (Some t) eq_refl)).
  rewrite st_guard_ok by by rewrite getAdditionalInfo_make by lia.
  by rewrite (st_bind_ok _ _ _ _ _ (tagged_exact r [majorType_num t * 32 + 31] rest Hr)).
Qed.

(** Leaving: the frame is complete. *)
Lemma popDataItem_exact r ty frame rest : type (currentFrame r) = Some ty ->
  nestedItems r = frame :: rest -> isTagContext r = false ->
  match definiteLength (currentFrame r) with Some k => k = itemsRead (currentFrame r) | None => True end ->
  popDataItem ty r = (Ok tt, popped r frame rest).
Proof.
  intros Hty Hn Ht Hd. unfold popDataItem. rewrite st_get_ok. cbv zeta. rewrite Hty, Hn, Z.eqb_refl, Ht.
  cbn [negb]. destruct (definiteLength (currentFrame r)) as [k|]; [|done].
  rewrite Hd, Z.sub_diag. done.
Qed.

Lemma leave_definite r ty frame rest k : type (currentFrame r) = Some ty ->
  nestedItems r = frame :: rest -> isTagContext r = false ->
  definiteLength (currentFrame r) = Some k -> k = itemsRead (currentFrame r) ->
  (popDataItem ty ;; advanceDataItemCounters) r = (Ok tt, leave r frame rest 0).
Proof.
  intros Hty Hn Ht Hd Hk.
  rewrite (st_bind_ok _ _ _ _ _ (popDataItem_exact r ty frame rest Hty Hn Ht ltac:(by rewrite Hd))).
  unfold leave. by rewrite Z.add_0_r.
Qed.

Lemma readEndArray_definite r frame rest k : type (currentFrame r) = Some Array ->
  nestedItems r = frame :: rest -> isTagContext r = false ->
  definiteLength (currentFrame r) = Some k -> k = itemsRead (currentFrame r) ->
  readEndArray r = (Ok tt, leave r frame rest 0).
Proof.
  intros Hty Hn Ht Hd Hk. unfold readEndArray. rewrite st_get_ok, Hd. by eapply leave_definite.
Qed.

Lemma readEndMap_definite r frame rest k : type (currentFrame r) = Some Map ->
  nestedItems r = frame :: rest -> isTagContext r = false ->
  definiteLength (currentFrame r) = Some k -> k = itemsRead (currentFrame r) ->
  readEndMap r = (Ok tt, leave r frame rest 0).
Proof.
  intros Hty Hn Ht Hd Hk. unfold readEndMap. rewrite st_get_ok, Hd. by eapply leave_definite.
Qed.

Lemma leave_break r ty frame rest l : wf r -> getRemainingBytes r = 255 :: l ->
  type (currentFrame r) = Some ty -> nestedItems r = frame :: rest -> isTagContext r = false ->
  definiteLength (currentFrame r) = None ->
  validateNextByteIsBreakByte r = (Ok tt, r) /\
  (popDataItem ty ;; advanceDataItemCounters ;; advanceBuffer 1) r = (Ok tt, leave r frame rest 1).
Proof.
  intros Hw Hr Hty Hn Ht Hd. split.
  - assert (Hrd : ready r (255 :: l)).
    { split; [done..| |]; unfold atDefiniteEnd, admits; [by rewrite Hd|].
      rewrite Hty, byte_at_first. by destruct ty. }
    unfold validateNextByteIsBreakByte.
    by rewrite (st_bind_ok _ _ _ _ _ (ready_peek r 255 l None Hrd I)).
  - rewrite (st_bind_ok _ _ _ _ _ (popDataItem_exact r ty frame rest Hty Hn Ht ltac:(by rewrite Hd))).
    unfold advanceDataItemCounters. rewrite st_modify_ok, advanceBuffer_ok; [done|apply (wf_size r Hw)|].
    cbn. by apply (can_read_ahead r [255] l Hw Hr).
Qed.

Lemma readEndArray_break r frame rest l : wf r -> getRemainingBytes r = 255 :: l ->
  type (currentFrame r) = Some Array -> nestedItems r = frame :: rest -> isTagContext r = false ->
  definiteLength (currentFrame r) = None -> readEndArray r = (Ok tt, leave r frame rest 1).
Proof.
  intros Hw Hr Hty Hn Ht Hd. unfold readEndArray. rewrite st_get_ok, Hd.
  destruct (leave_break r Array frame rest l) as [E1 E2]; [done..|]. by rewrite (st_bind_ok _ _ _ _ _ E1).
Qed.

Lemma readEndMap_break r frame rest l : wf r -> getRemainingBytes r = 255 :: l ->
  type (currentFrame r) = Some Map -> nestedItems r = frame :: rest -> isTagContext r = false ->
  definiteLength (currentFrame r) = None -> itemsRead (currentFrame r) mod 2 = 0 ->
  readEndMap r = (Ok tt, leave r frame rest 1).
Proof.
  intros Hw Hr Hty Hn Ht Hd Hm. unfold readEndMap. rewrite st_get_ok, Hd.
  destruct (leave_break r Map frame rest l) as [E1 E2]; [done..|]. rewrite (st_bind_ok _ _ _ _ _ E1).
  by rewrite st_guard_ok by by rewrite Hm.
Qed.

Lemma readEndIndefiniteLengthString_exact r ty frame rest l : wf r -> getRemainingBytes r = 255 :: l ->
  type (currentFrame r) = Some ty -> nestedItems r = frame :: rest -> isTagContext r = false ->
  definiteLength (currentFrame r) = None ->
  readEndIndefiniteLengthString ty r = (Ok tt, leave r frame rest 1).
Proof.
  intros Hw Hr Hty Hn Ht Hd. unfold readEndIndefiniteLengthString.
  destruct (leave_break r ty frame rest l) as [E1 E2]; [done..|]. by rewrite (st_bind_ok _ _ _ _ _ E1).
Qed.
