(* ===== verification/CborSkip.v ===== *)
(** * Skipping a data item reads exactly that item

    The grammar of well-formed CBOR (RFC 7049) as an inductive predicate on
    byte strings, independent of the reader, and the theorem that
    [readEncodedValue] consumes exactly one item of it, whatever follows. *)
From S2P Require Import Prelude JsRuntime Utf8 CborCommon Half CborWriter CborReader CborMachine CborExact.

Import CborReader.

(** ** The grammar *)

Definition is_string (t : CborMajorType) : Prop := t = ByteString \/ t = Utf8String.

Inductive item : list Z -> Prop :=
  | item_int t v h : t = UnsignedInteger \/ t = NegativeInteger -> is_head t v h -> item h
  | item_string t s h : is_string t -> is_head t (zlen s) h -> item (h ++ s)
  | item_chunks t l : is_string t -> chunks t l -> item ((majorType_num t * 32 + 31) :: l ++ [255])
  | item_array n h l : is_head Array n h -> items n l -> item (h ++ l)
  | item_array_break n l : items n l -> item (159 :: l ++ [255])
  | item_map n h l : is_head Map n h -> items (2 * n) l -> item (h ++ l)
  | item_map_break n l : items (2 * n) l -> item (191 :: l ++ [255])
  | item_tag v h l : is_head Tag v h -> item l -> item (h ++ l)
  | item_simple i : 0 <= i < 24 -> item [224 + i]
  | item_simple8 b : item [248; b]
  | item_float b p v : float_value b p = Some v -> item (b :: p)
with items : Z -> list Z -> Prop :=
  | items_nil : items 0 []
  | items_cons n l k : item l -> items n k -> items (n + 1) (l ++ k)
with chunks : CborMajorType -> list Z -> Prop :=
  | chunks_nil t : chunks t []
  | chunks_cons t s h l : is_head t (zlen s) h -> chunks t l -> chunks t (h ++ s ++ l).

Scheme item_mut := Induction for item Sort Prop
  with items_mut := Induction for items Sort Prop
  with chunks_mut := Induction for chunks Sort Prop.
Combined Scheme item_items_chunks from item_mut, items_mut, chunks_mut.

(** ** Shape of items *)

(** The first byte of an item is never the break byte. *)
Lemma item_first l : item l -> exists b k, l = b :: k /\ b <> 255 /\ b < 256.
Proof.
  assert (Hh : forall t v h k, is_head t v h -> exists b l', h ++ k = b :: l' /\ b <> 255 /\ b < 256).
  { intros t v h k Hh. destruct (is_head_first t v h Hh) as (i & l' & -> & Hi).
    pose proof (majorType_num_bound t). eexists _, _. split; [reflexivity|]. lia. }
  destruct 1 as [t v h _ H|t s h _ H|t l Ht _|n h l H _|n l _|n h l H _|n l _|v h l H _|i Hi|b|b p v Hv].
  - rewrite <- (app_nil_r h). by eapply Hh.
  - by eapply Hh.
  - destruct Ht as [-> | ->]; eexists _, _; (split; [reflexivity|]); cbn; lia.
  - by eapply Hh.
  - eexists _, _. split; [reflexivity|lia].
  - by eapply Hh.
  - eexists _, _. split; [reflexivity|lia].
  - by eapply Hh.
  - eexists _, _. split; [reflexivity|lia].
  - eexists _, _. split; [reflexivity|lia].
  - eexists _, _. split; [reflexivity|]. unfold float_value in Hv. repeat case_match; try discriminate; zb; lia.
Qed.

Lemma items_count n l : items n l -> 0 <= n <= zlen l.
Proof.
  induction 1 as [|n l k Hl Hk IH]; [done|]. destruct (item_first l Hl) as (b & l' & -> & _).
  zlen_simpl. pose proof (zlen_nonneg l'). lia.
Qed.

(** ** Frames that are not strings *)

Definition plain (f : StackFrame) : Prop :=
  match type f with Some ByteString | Some Utf8String => False | _ => True end.

Lemma plain_admits f b : plain f -> admits f b.
Proof. unfold plain, admits. by destruct (type f) as [[]|]. Qed.

(** ** States of the machine in front of an item *)

Lemma peekStateCore_item r b l : ready r (b :: l) -> b <> 255 -> peekStateCore r = itemState b.
Proof.
  intros [Hw Hr He Hf] Hb. unfold peekStateCore. cbv zeta. rewrite He.
  pose proof (zlen_remaining r Hw) as Hz. rewrite Hr in Hz. zlen_simpl. pose proof (zlen_nonneg l).
  rewrite (proj2 (Z.eqb_neq _ _)) by lia.
  assert (Hbyte : byte_at (data r) (offset r) = b).
  { rewrite <- (Z.add_0_r (offset r)), remaining_byte, Hr by done. apply byte_at_first. }
  unfold CborInitialByte.from, CborInitialByte.getInitialByte. rewrite Hbyte.
  rewrite (proj2 (Z.eqb_neq _ _)) by done. rewrite byte_at_first in Hf. unfold admits, validChunk in Hf.
  destruct (type (currentFrame r)) as [[]|]; try done;
    unfold CborInitialByte.getInitialByte in Hf;
    rewrite (proj2 (Z.eqb_neq _ _)) in Hf by done; cbn [orb] in Hf; zb;
    (rewrite (proj2 (Z.eqb_eq _ _)) by done); done.
Qed.

(** The state announced by a head. *)
Definition headState (t : CborMajorType) : CborReaderState.t :=
  match t with
  | UnsignedInteger => CborReaderState.UnsignedInteger
  | NegativeInteger => CborReaderState.NegativeInteger
  | ByteString => CborReaderState.ByteString
  | Utf8String => CborReaderState.TextString
  | Array => CborReaderState.StartArray
  | Map => CborReaderState.StartMap
  | Tag => CborReaderState.Tag
  | Simple => CborReaderState.SimpleValue
  end.

Lemma peekStateCore_head r t v h rest : t <> Simple -> is_head t v h -> ready r (h ++ rest) ->
  peekStateCore r = Ok (headState t).
Proof.
  intros Ht Hh Hr. destruct (is_head_first t v h Hh) as (i & l & -> & Hi).
  pose proof (majorType_num_bound t). cbn [app] in Hr.
  rewrite (peekStateCore_item r _ _ Hr) by lia. unfold itemState. cbv zeta.
  rewrite getMajorType_make, getAdditionalInfo_make, majorType_of_num_num by lia.
  rewrite (proj2 (Z.eqb_neq _ _)) by (unfold CborAdditionalInfo.IndefiniteLength; lia).
  by destruct t.
Qed.

Lemma skipTags_unfold fuel r : skipTags fuel r =
  match peekStateCore r with
  | Ok s =>
      if bool_decide (s = CborReaderState.Tag) then
        match fuel with O => (OutOfFuel, r) | S f => (readTag ;; skipTags f) r end
      else (Ok s, r)
  | Throw e => (Throw e, r)
  | OutOfFuel => (OutOfFuel, r)
  end.
Proof.
  destruct fuel; cbn [skipTags]; rewrite st_get_ok; unfold mbind at 1, ST_bind at 1, st_lift;
    destruct (peekStateCore r); try done; by case_bool_decide.
Qed.

Lemma skipTags_stop fuel r s : peekStateCore r = Ok s -> s <> CborReaderState.Tag ->
  skipTags fuel r = (Ok s, r).
Proof. intros Hp Hs. by rewrite skipTags_unfold, Hp, bool_decide_false. Qed.

Lemma skipTags_mono fuel r o r' : skipTags fuel r = (o, r') -> o <> OutOfFuel ->
  skipTags (S fuel) r = (o, r').
Proof.
  revert r. induction fuel as [|fuel IH]; intros r; rewrite !(skipTags_unfold _ r);
    (destruct (peekStateCore r) as [s|e|]; [|done..]); (case_bool_decide; [|done]).
  - by intros [= <- <-].
  - unfold mbind, ST_bind. destruct (readTag r) as [[v|e|] r1]; [|done..].
    intros E Ho. by apply IH.
Qed.

(** A tag in front of an item does not change what the node does. *)
Lemma skipNextNode_tag d r v h rest : is_head Tag v h -> ready r (h ++ rest) ->
  skipNextNode d r = skipNextNode d (tagged r (zlen h)).
Proof.
  intros Hh Hr. pose proof (ready_wf _ _ Hr) as Hw.
  pose proof (is_head_length _ _ _ Hh) as Hlen.
  pose proof (can_read_ahead r h rest Hw (ready_rest _ _ Hr)) as Hle.
  assert (Hw' : wf (tagged r (zlen h))).
  { eapply step_wf; [|exact Hw]. apply step_tag. split_and!; [apply (ready_room _ _ Hr)|lia|done]. }
  assert (Hskip : skipTags (length (data r)) r = skipTags (length (data r)) (tagged r (zlen h))).
  { destruct (length (data r)) as [|fuel] eqn:El.
    { destruct (wf_offset r Hw). unfold zlen in *. lia. }
    rewrite (skipTags_unfold _ r), (peekStateCore_head r Tag v h rest ltac:(done) Hh Hr).
    rewrite bool_decide_true by done.
    rewrite (st_bind_ok _ _ _ _ _ (readTag_exact r v h rest Hh Hr)).
    destruct (skipTags_runs fuel (tagged r (zlen h)) Hw') as (o & r' & E & Ho & _).
    { destruct (wf_offset r Hw). unfold getBytesRemaining, zlen in *. cbn. lia. }
    rewrite E. symmetry. by apply (skipTags_mono fuel). }
  unfold skipNextNode. rewrite !st_get_ok. change (data (tagged r (zlen h))) with (data r).
  unfold mbind, ST_bind. by rewrite Hskip.
Qed.

(** ** Runs of the skipping loop *)

(** From depth [e] in [r], nodes are skipped at depths above [d] until the
    depth is [d], in [r']. *)
Inductive path (d : Z) : Z -> t -> t -> Prop :=
  | path_last e r r' : skipNextNode e r = (Ok d, r') -> path d e r r'
  | path_next e r e' r1 r' :
      skipNextNode e r = (Ok e', r1) -> d < e' -> path d e' r1 r' -> path d e r r'.

Lemma path_trans d e e' r r1 r2 : path e e' r r1 -> d < e -> path d e r1 r2 -> path d e' r r2.
Proof. induction 1; intros Hd Hp; eapply path_next; eauto. lia. Qed.

Lemma path_skipLoop r e r' fuel : path 0 e r r' -> fst (skipLoop fuel e r) <> OutOfFuel ->
  skipLoop fuel e r = (Ok tt, r').
Proof.
  intros Hp. revert fuel. induction Hp as [e r r' E|e r e' r1 r' E Hd _ IH]; intros [|fuel] Hf; try done.
  - cbn [skipLoop] in *. by rewrite (st_bind_ok _ _ _ _ _ E).
  - cbn [skipLoop] in *. rewrite (st_bind_ok _ _ _ _ _ E) in Hf |- *.
    rewrite (proj2 (Z.ltb_lt _ _)) in Hf |- * by done. by apply IH.
Qed.

(** A node whose state is known. *)
Lemma skipNextNode_state d r s : peekStateCore r = Ok s -> s <> CborReaderState.Tag ->
  skipNextNode d r = skipState d s r.
Proof.
  intros Hp Hs. unfold skipNextNode. rewrite st_get_ok.
  by rewrite (st_bind_ok _ _ _ _ _ (skipTags_stop _ r s Hp Hs)).
Qed.

Lemma skipState_item {A} d s (m : M A) r v r' : skipState d s = (m ;; mret d) -> m r = (Ok v, r') ->
  skipState d s r = (Ok d, r').
Proof. intros -> E. by rewrite (st_bind_ok _ _ _ _ _ E). Qed.

(** ** Composing moves *)

(** Nothing pending: no tag and no cached state. *)
Definition fresh (r : t) : Prop :=
  cachedState r = CborReaderState.Undefined /\ isTagContext r = false.

Definition room (f : StackFrame) (n : Z) : Prop :=
  match definiteLength f with Some k => itemsRead f + n <= k | None => True end.

Lemma consume_zero r : fresh r -> consume r 0 0 = r.
Proof.
  intros [Hc Ht]. destruct r as [da o ns tg [ty fo dl ir ko] cs]. cbn in *. subst.
  unfold consume, bump. cbn. by rewrite !Z.add_0_r.
Qed.

Lemma consume_consume r n k n' k' : consume (consume r n k) n' k' = consume r (n + n') (k + k').
Proof. unfold consume, bump. cbn. by rewrite !Z.add_assoc. Qed.

Lemma room_ready f n : room f n -> 0 < n -> atDefiniteEnd f = false.
Proof. unfold room, atDefiniteEnd. destruct (definiteLength f); [|done]. intros. apply Z.eqb_neq. lia. Qed.

Lemma consume_wf r l k rest : ready r (l ++ rest) -> 1 <= zlen l -> k = 1 -> wf (consume r (zlen l) k).
Proof.
  intros Hr Hl ->. eapply step_wf; [|apply (ready_wf _ _ Hr)]. apply step_item.
  split_and!; [apply (ready_room _ _ Hr)|done|].
  eapply can_read_ahead; [apply (ready_wf _ _ Hr)|apply (ready_rest _ _ Hr)].
Qed.

Lemma enter_state r h rest ty len key : ready r (h ++ rest) -> 1 <= zlen h -> container_ok ty len ->
  wf (enter r ty len (zlen h) key) /\ fresh (enter r ty len (zlen h) key) /\
  getRemainingBytes (enter r ty len (zlen h) key) = rest.
Proof.
  intros Hr Hh Hc. pose proof (ready_wf _ _ Hr) as Hw. split_and!.
  - eapply step_wf; [|exact Hw]. apply step_enter; [|done].
    split_and!; [apply (ready_room _ _ Hr)|done|]. eapply can_read_ahead; [exact Hw|apply (ready_rest _ _ Hr)].
  - done.
  - by eapply (remaining_advance r h rest); [|apply (ready_rest _ _ Hr)|].
Qed.

(** The state at the end of a definite container, and at a break byte. *)
Lemma peekStateCore_definite r ty n : type (currentFrame r) = Some ty ->
  definiteLength (currentFrame r) = Some n -> n = itemsRead (currentFrame r) ->
  peekStateCore r = match ty with
    | Array => Ok CborReaderState.EndArray | Map => Ok CborReaderState.EndMap
    | _ => Throw (CborInvalidOperationException "Invalid CBOR major type pushed to stack.") end.
Proof.
  intros Hty Hd Hn. unfold peekStateCore, atDefiniteEnd. cbv zeta. rewrite Hd, Hn, Z.sub_diag, Hty. done.
Qed.

Lemma peekStateCore_break r l : wf r -> getRemainingBytes r = 255 :: l -> isTagContext r = false ->
  definiteLength (currentFrame r) = None -> peekStateCore r = breakState (currentFrame r).
Proof.
  intros Hw Hr Ht Hd. unfold peekStateCore, atDefiniteEnd. cbv zeta. rewrite Hd.
  pose proof (zlen_remaining r Hw) as Hz. rewrite Hr in Hz. zlen_simpl. pose proof (zlen_nonneg l).
  rewrite (proj2 (Z.eqb_neq _ _)) by lia.
  assert (Hbyte : byte_at (data r) (offset r) = 255).
  { rewrite <- (Z.add_0_r (offset r)), remaining_byte, Hr by done. apply byte_at_first. }
  unfold CborInitialByte.from, CborInitialByte.getInitialByte. by rewrite Hbyte, Ht.
Qed.

Lemma path_leave d r s (m : M unit) r' : 0 <= d -> s <> CborReaderState.Tag ->
  peekStateCore r = Ok s -> m r = (Ok tt, r') ->
  skipState (d + 1) s = (st_guard (d + 1 =? 0) (skipInvalid s) ;; m ;; mret (d + 1 - 1)) \/
  skipState (d + 1) s = (m ;; mret (d + 1 - 1)) ->
  path d (d + 1) r r'.
Proof.
  intros Hd Hs Hp Hm Hk. apply path_last. rewrite (skipNextNode_state _ _ _ Hp Hs).
  destruct Hk as [-> | ->]; [rewrite st_guard_ok by (apply Z.eqb_neq; lia)|];
    rewrite (st_bind_ok _ _ _ _ _ Hm); unfold mret, ST_ret; do 2 f_equal; lia.
Qed.

Lemma path_enter {A} d r s (m : M A) v r1 r' : s <> CborReaderState.Tag ->
  peekStateCore r = Ok s -> m r = (Ok v, r1) -> skipState d s = (m ;; mret (d + 1)) ->
  path d (d + 1) r1 r' -> path d d r r'.
Proof.
  intros Hs Hp Hm Hk Hpath. eapply path_next; [|apply Z.lt_succ_diag_r|exact Hpath].
  by rewrite (skipNextNode_state _ _ _ Hp Hs), Hk, (st_bind_ok _ _ _ _ _ Hm).
Qed.

Lemma path_item {A} d r s (m : M A) v r' : s <> CborReaderState.Tag ->
  peekStateCore r = Ok s -> m r = (Ok v, r') -> skipState d s = (m ;; mret d) -> path d d r r'.
Proof.
  intros Hs Hp Hm Hk. apply path_last. rewrite (skipNextNode_state _ _ _ Hp Hs).
  by eapply skipState_item.
Qed.

(** ** The three levels of the grammar *)

Definition item_path (l : list Z) : Prop := forall d r rest,
  0 <= d -> ready r (l ++ rest) -> plain (currentFrame r) -> path d d r (consume r (zlen l) 1).

Definition items_path (n : Z) (l : list Z) : Prop := forall d r rest,
  0 <= d -> wf r -> fresh r -> plain (currentFrame r) -> getRemainingBytes r = l ++ rest ->
  room (currentFrame r) n ->
  wf (consume r (zlen l) n) /\
  forall rf, path d (d + 1) (consume r (zlen l) n) rf -> path d (d + 1) r rf.

Definition chunks_path (t : CborMajorType) (l : list Z) : Prop := is_string t -> forall d r rest,
  0 <= d -> wf r -> fresh r -> type (currentFrame r) = Some t -> definiteLength (currentFrame r) = None ->
  getRemainingBytes r = l ++ rest ->
  exists k, 0 <= k /\ wf (consume r (zlen l) k) /\
    forall rf, path d (d + 1) (consume r (zlen l) k) rf -> path d (d + 1) r rf.

Lemma items_path_nil : items_path 0 [].
Proof. intros d r rest _ Hw Hf _ _ _. change (zlen []) with 0. by rewrite consume_zero. Qed.

Lemma items_path_cons n l k : item l -> 0 <= n -> item_path l -> items_path n k -> items_path (n + 1) (l ++ k).
Proof.
  intros Hi Hn Hl Hk d r rest Hd Hw Hf Hpl Hr Hroom. rewrite <- app_assoc in Hr.
  assert (Hrd : ready r (l ++ k ++ rest)).
  { split; [done..| |by apply plain_admits]. eapply room_ready; [done|lia]. }
  assert (Hlen : 1 <= zlen l).
  { destruct (item_first l Hi) as (b & l' & -> & _). zlen_simpl. pose proof (zlen_nonneg l'). lia. }
  destruct (Hk d (consume r (zlen l) 1) rest) as [Hw2 Hp2]; [done|by eapply consume_wf|done|done| | |].
  - by apply (remaining_consume r l).
  - unfold room in *. cbn. destruct (definiteLength (currentFrame r)); [lia|done].
  - rewrite consume_consume, <- zlen_app, (Z.add_comm 1 n) in Hw2, Hp2. split; [done|].
    intros rf Hp. eapply path_trans; [apply (Hl (d + 1) r (k ++ rest)); [lia|done|done]|lia|by apply Hp2].
Qed.

Lemma chunks_path_nil t : chunks_path t [].
Proof.
  intros _ d r rest _ Hw Hf _ _ _. exists 0. change (zlen []) with 0. by rewrite consume_zero.
Qed.

Lemma chunks_path_cons t s h l : is_head t (zlen s) h -> chunks_path t l -> chunks_path t (h ++ s ++ l).
Proof.
  intros Hh Hl Ht d r rest Hd Hw Hf Hty Hdl Hr. rewrite <- !app_assoc in Hr.
  assert (Hrd : ready r (h ++ s ++ l ++ rest)).
  { split; [done..| |].
    - unfold atDefiniteEnd. by rewrite Hdl.
    - destruct (is_head_first t _ h Hh) as (i & h' & -> & Hi). cbn [app]. rewrite byte_at_first.
      unfold admits. rewrite Hty. pose proof (majorType_num_bound t).
      assert (validChunk t (majorType_num t * 32 + i) = true) as Hv.
      { unfold validChunk. rewrite getMajorType_make, getAdditionalInfo_make, Z.eqb_refl by lia.
        rewrite (proj2 (Z.eqb_neq i _)) by (unfold CborAdditionalInfo.IndefiniteLength; lia).
        apply orb_true_r. }
      destruct Ht as [-> | ->]; exact Hv. }
  assert (Hr2 : getRemainingBytes r = (h ++ s) ++ l ++ rest) by by rewrite Hr, <- !app_assoc.
  pose proof (is_head_length _ _ _ Hh). pose proof (zlen_nonneg s).
  assert (Hw1 : wf (consume r (zlen (h ++ s)) 1)).
  { eapply (consume_wf r (h ++ s) 1 (l ++ rest)); [by rewrite <- !app_assoc|zlen_simpl; lia|done]. }
  destruct (Hl Ht d (consume r (zlen (h ++ s)) 1) rest) as (k & Hk & Hw2 & Hpath); [done..| |].
  { by apply remaining_consume. }
  assert (Hz : zlen (h ++ s) + zlen l = zlen (h ++ s ++ l)) by (zlen_simpl; lia).
  rewrite consume_consume, Hz in Hw2.
  exists (1 + k). split_and!; [lia|done|]. intros rf Hp.
  assert (Hstr := readString_exact r t h s (l ++ rest) ltac:(by destruct Ht as [-> | ->]) Hh Hrd).
  eapply (path_trans d (d + 1)); [|lia|].
  - assert (Hps := peekStateCore_head r t _ h _ ltac:(by destruct Ht as [-> | ->]) Hh Hrd).
    destruct Ht as [-> | ->].
    + eapply (path_item (d + 1) r CborReaderState.ByteString readByteString); [done|exact Hps|exact Hstr|done].
    + eapply (path_item (d + 1) r CborReaderState.TextString readTextString); [done|exact Hps| |done].
      unfold readTextString. by rewrite (st_bind_ok _ _ _ _ _ Hstr).
  - apply Hpath. by rewrite consume_consume, Hz.
Qed.

(** *** Containers *)

Section container.
Context (d : Z) (r : t) (h l rest : list Z) (ty : CborMajorType) (len key : option Z).
Context (Hd : 0 <= d) (Hr : ready r (h ++ l ++ rest)) (Hh : 1 <= zlen h) (Hc : container_ok ty len).

(** Inside the container, after [k] items of [l]. *)
Definition inside (k : Z) : t := consume (enter r ty len (zlen h) key) (zlen l) k.

Lemma inside_rest k : getRemainingBytes (inside k) = rest.
Proof.
  destruct (enter_state r h (l ++ rest) ty len key Hr Hh Hc) as (Hw & _ & Hrest).
  by apply remaining_consume.
Qed.

Lemma leave_inside k n : leave (inside k) (currentFrame r) (nestedItems r) n = consume r (zlen h + zlen l + n) 1.
Proof. unfold leave, inside, consume, enter. cbn. by rewrite !Z.add_assoc. Qed.

Lemma inside_items n : items_path n l -> plain {| type := Some ty; frameOffset := 0;
    definiteLength := len; itemsRead := 0; currentKeyOffset := None |} ->
  match len with Some k => n <= k | None => True end ->
  wf (inside n) /\
  forall rf, path d (d + 1) (inside n) rf -> path d (d + 1) (enter r ty len (zlen h) key) rf.
Proof.
  intros Hl Hpl Hn. destruct (enter_state r h (l ++ rest) ty len key Hr Hh Hc) as (Hw & Hf & Hrest).
  by apply (Hl d _ rest).
Qed.
End container.

(** The five container forms, given their contents. *)

Lemma array_path n h l : is_head Array n h -> 0 <= n <= zlen l -> items_path n l -> item_path (h ++ l).
Proof.
  intros Hh Hn Hl d r rest Hd Hr Hpl. rewrite <- app_assoc in Hr.
  pose proof (is_head_length _ _ _ Hh) as Hlen.
  pose proof (zlen_remaining r (ready_wf _ _ Hr)) as Hz. rewrite (ready_rest _ _ Hr) in Hz.
  zlen_simpl. pose proof (wf_size r (ready_wf _ _ Hr)). destruct (wf_offset r (ready_wf _ _ Hr)).
  pose proof (zlen_nonneg rest).
  edestruct (inside_items d r h l rest Array (Some n) None Hd Hr ltac:(lia) ltac:(cbn; lia) n Hl) as [Hw Hp];
    [done|cbn; lia|].
  eapply (path_enter d r CborReaderState.StartArray readStartArray); [done| | |done|].
  - by eapply (peekStateCore_head r Array).
  - eapply (readStartArray_exact r n); [lia|done|done].
  - apply Hp. replace (zlen h + zlen l) with (zlen h + zlen l + 0) by lia.
    rewrite <- (leave_inside r h l Array (Some n) None n).
    eapply (path_leave d _ CborReaderState.EndArray readEndArray); [done|done| | |by left].
    + by rewrite (peekStateCore_definite _ Array n).
    + by eapply (readEndArray_definite _ _ _ n).
Qed.

Lemma map_path n h l : is_head Map n h -> 0 <= 2 * n <= zlen l -> items_path (2 * n) l -> item_path (h ++ l).
Proof.
  intros Hh Hn Hl d r rest Hd Hr Hpl. rewrite <- app_assoc in Hr.
  pose proof (is_head_length _ _ _ Hh) as Hlen. pose proof (zlen_nonneg rest). zlen_simpl.
  edestruct (inside_items d r h l rest Map (Some (2 * n)) (Some (offset r + zlen h)) Hd Hr ltac:(lia) ltac:(cbn; lia)
    (2 * n) Hl) as [Hw Hp]; [done|cbn; lia|].
  eapply (path_enter d r CborReaderState.StartMap readStartMap); [done| | |done|].
  - by eapply (peekStateCore_head r Map).
  - eapply (readStartMap_exact r n); [|done|done]. zlen_simpl. lia.
  - apply Hp. replace (zlen h + zlen l) with (zlen h + zlen l + 0) by lia.
    rewrite <- (leave_inside r h l Map (Some (2 * n)) (Some (offset r + zlen h)) (2 * n)).
    eapply (path_leave d _ CborReaderState.EndMap readEndMap); [done|done| | |by left].
    + by rewrite (peekStateCore_definite _ Map (2 * n)).
    + by eapply (readEndMap_definite _ _ _ (2 * n)).
Qed.

Lemma array_break_path n l : items_path n l -> item_path (159 :: l ++ [255]).
Proof.
  intros Hl d r rest Hd Hr Hpl. cbn [app] in Hr. rewrite <- app_assoc in Hr.
  change (159 :: l ++ [255] ++ rest) with ([159] ++ l ++ 255 :: rest) in Hr.
  edestruct (inside_items d r [159] l (255 :: rest) Array None None Hd Hr ltac:(done) ltac:(done) n Hl)
    as [Hw Hp]; [done..|].
  eapply (path_enter d r CborReaderState.StartArray readStartArray); [done| | |done|].
  - by rewrite (peekStateCore_item r 159 _ Hr).
  - by eapply readStartArray_indefinite.
  - change 1 with (zlen [159]). apply Hp.
    replace (zlen (159 :: l ++ [255])) with (zlen [159] + zlen l + 1) by (zlen_simpl; lia).
    rewrite <- (leave_inside r [159] l Array None None n).
    pose proof (inside_rest r [159] l (255 :: rest) Array None None Hr ltac:(done) ltac:(done) n) as Hrest.
    eapply (path_leave d _ CborReaderState.EndArray readEndArray); [done|done| | |by left].
    + by rewrite (peekStateCore_break _ rest Hw Hrest).
    + by eapply readEndArray_break.
Qed.

Lemma map_break_path n l : items_path (2 * n) l -> item_path (191 :: l ++ [255]).
Proof.
  intros Hl d r rest Hd Hr Hpl. cbn [app] in Hr. rewrite <- app_assoc in Hr.
  change (191 :: l ++ [255] ++ rest) with ([191] ++ l ++ 255 :: rest) in Hr.
  edestruct (inside_items d r [191] l (255 :: rest) Map None (Some (offset r + 1)) Hd Hr ltac:(done) ltac:(done)
    (2 * n) Hl) as [Hw Hp]; [done..|].
  assert (Hm : (0 + 2 * n) mod 2 = 0) by (rewrite Z.add_0_l, Z.mul_comm; by apply Z.mod_mul).
  eapply (path_enter d r CborReaderState.StartMap readStartMap); [done| | |done|].
  - by rewrite (peekStateCore_item r 191 _ Hr).
  - by eapply readStartMap_indefinite.
  - change (enter r Map None 1) with (enter r Map None (zlen [191])). apply Hp.
    replace (zlen (191 :: l ++ [255])) with (zlen [191] + zlen l + 1) by (zlen_simpl; lia).
    rewrite <- (leave_inside r [191] l Map None (Some (offset r + 1)) (2 * n)).
    pose proof (inside_rest r [191] l (255 :: rest) Map None (Some (offset r + 1)) Hr
                  ltac:(done) ltac:(done) (2 * n)) as Hrest.
    eapply (path_leave d _ CborReaderState.EndMap readEndMap); [done|done| | |by left].
    + rewrite (peekStateCore_break _ rest Hw Hrest) by done. unfold breakState. cbn. by rewrite Hm.
    + by eapply readEndMap_break.
Qed.

Lemma chunks_item_path t l : is_string t -> chunks_path t l ->
  item_path ((majorType_num t * 32 + 31) :: l ++ [255]).
Proof.
  intros Ht Hl d r rest Hd Hr Hpl. cbn [app] in Hr. rewrite <- app_assoc in Hr.
  set (b := majorType_num t * 32 + 31) in *.
  change (b :: l ++ [255] ++ rest) with ([b] ++ l ++ 255 :: rest) in Hr.
  assert (Hc : container_ok t None) by by destruct Ht as [-> | ->].
  destruct (enter_state r [b] (l ++ 255 :: rest) t None None Hr ltac:(done) Hc) as (Hw0 & Hf0 & Hr0).
  destruct (Hl Ht d (enter r t None (zlen [b]) None) (255 :: rest)) as (k & _ & Hw & Hp); [done..|].
  pose proof (inside_rest r [b] l (255 :: rest) t None None Hr ltac:(done) Hc k) as Hrest.
  assert (Hpath : path d (d + 1) (enter r t None 1 None) (consume r (zlen (b :: l ++ [255])) 1)).
  { change 1 with (zlen [b]) at 2. apply Hp.
    replace (zlen (b :: l ++ [255])) with (zlen [b] + zlen l + 1) by (zlen_simpl; lia).
    rewrite <- (leave_inside r [b] l t None None k).
    assert (Hend := readEndIndefiniteLengthString_exact _ t (currentFrame r) (nestedItems r) rest Hw Hrest
                      eq_refl eq_refl eq_refl eq_refl).
    destruct Ht as [-> | ->].
    - eapply (path_leave d _ CborReaderState.EndIndefiniteLengthByteString readEndIndefiniteLengthByteString);
        [done|done| |exact Hend|by right]. by rewrite (peekStateCore_break _ rest Hw Hrest).
    - eapply (path_leave d _ CborReaderState.EndIndefiniteLengthTextString readEndIndefiniteLengthTextString);
        [done|done| |exact Hend|by left]. by rewrite (peekStateCore_break _ rest Hw Hrest). }
  assert (Hstart := readStartIndefiniteLengthString_exact r t _ Ht Hr).
  assert (Hst : peekStateCore r = itemState b).
  { eapply peekStateCore_item; [exact Hr|]. subst b. by destruct Ht as [-> | ->]. }
  destruct Ht as [-> | ->].
  - eapply (path_enter d r CborReaderState.StartIndefiniteLengthByteString
              readStartIndefiniteLengthByteString); [done|exact Hst|exact Hstart|done|exact Hpath].
  - eapply (path_enter d r CborReaderState.StartIndefiniteLengthTextString
              readStartIndefiniteLengthTextString); [done|exact Hst|exact Hstart|done|exact Hpath].
Qed.

(** Items without contents of their own. *)

Lemma int_path t v h : t = UnsignedInteger \/ t = NegativeInteger -> is_head t v h -> item_path h.
Proof.
  intros Ht Hh d r rest Hd Hr _.
  assert (Hp := peekStateCore_head r t v h rest ltac:(by destruct Ht as [-> | ->]) Hh Hr).
  destruct Ht as [-> | ->].
  - eapply (path_item d r CborReaderState.UnsignedInteger readUInt); [done|exact Hp| |done].
    by apply (readUInt_exact r v h rest).
  - eapply (path_item d r CborReaderState.NegativeInteger readCborNegativeIntegerRepresentation);
      [done|exact Hp| |done].
    by apply (readNegative_exact r v h rest).
Qed.

Lemma string_path t s h : is_string t -> is_head t (zlen s) h -> item_path (h ++ s).
Proof.
  intros Ht Hh d r rest Hd Hr _. rewrite <- app_assoc in Hr.
  assert (Hp := peekStateCore_head r t _ h _ ltac:(by destruct Ht as [-> | ->]) Hh Hr).
  assert (Hs := readString_exact r t h s rest ltac:(by destruct Ht as [-> | ->]) Hh Hr).
  destruct Ht as [-> | ->].
  - eapply (path_item d r CborReaderState.ByteString readByteString); [done|exact Hp|exact Hs|done].
  - eapply (path_item d r CborReaderState.TextString readTextString); [done|exact Hp| |done].
    unfold readTextString. by rewrite (st_bind_ok _ _ _ _ _ Hs).
Qed.

Lemma path_first d e r r1 r' : skipNextNode e r = skipNextNode e r1 -> path d e r1 r' -> path d e r r'.
Proof. intros E Hp. inversion Hp; subst; [apply path_last|eapply path_next; eauto]; congruence. Qed.

Lemma tag_path v h l : is_head Tag v h -> item_path l -> item_path (h ++ l).
Proof.
  intros Hh Hl d r rest Hd Hr Hpl. rewrite <- app_assoc in Hr.
  pose proof (is_head_length _ _ _ Hh). pose proof (ready_wf _ _ Hr) as Hw.
  pose proof (can_read_ahead r h _ Hw (ready_rest _ _ Hr)).
  eapply path_first; [by eapply skipNextNode_tag|].
  replace (consume r (zlen (h ++ l)) 1) with (consume (tagged r (zlen h)) (zlen l) 1)
    by (unfold consume, tagged; cbn; rewrite zlen_app; f_equal; lia).
  apply (Hl d _ rest); [done| |done]. split.
  - eapply step_wf; [|exact Hw]. apply step_tag. split_and!; [apply (ready_room _ _ Hr)|lia|done].
  - by eapply (remaining_advance r h _ ); [|apply (ready_rest _ _ Hr)|].
  - apply (ready_room _ _ Hr).
  - by apply plain_admits.
Qed.

Lemma simple_state i : 0 <= i < 24 ->
  exists s, itemState (224 + i) = Ok s /\ s <> CborReaderState.Tag /\
    forall d, skipState d s = (readSimpleValue ;; mret d).
Proof.
  intros Hi. unfold itemState. cbv zeta.
  change (224 + i) with (majorType_num Simple * 32 + i).
  rewrite getMajorType_make, getAdditionalInfo_make, majorType_of_num_num by lia.
  eexists. split; [reflexivity|]. unfold mapSimpleValueDataToReaderState,
    CborAdditionalInfo.AdditionalFalse, CborAdditionalInfo.AdditionalTrue, CborAdditionalInfo.AdditionalNull,
    CborAdditionalInfo.Additional16BitData, CborAdditionalInfo.Additional32BitData,
    CborAdditionalInfo.Additional64BitData.
  repeat case_match; zb; try done; lia.
Qed.

Lemma simple_path i : 0 <= i < 24 -> item_path [224 + i].
Proof.
  intros Hi d r rest Hd Hr _. destruct (simple_state i Hi) as (s & Hs & Ht & Hk).
  eapply (path_item d r s readSimpleValue); [done| | |done].
  - rewrite (peekStateCore_item r (224 + i) rest Hr) by lia. done.
  - exact (readSimpleValue_exact r i rest Hi Hr).
Qed.

Lemma simple8_path b : item_path [248; b].
Proof.
  intros d r rest Hd Hr _. eapply (path_item d r CborReaderState.SimpleValue readSimpleValue); [done| | |done].
  - by rewrite (peekStateCore_item r 248 (b :: rest) Hr).
  - exact (readSimpleValue8_exact r b rest Hr).
Qed.

Lemma float_path b p v : float_value b p = Some v -> item_path (b :: p).
Proof.
  intros Hv d r rest Hd Hr _. cbn [app] in Hr.
  assert (Hdec := readDouble_exact r b p rest v Hv Hr).
  assert (exists s, itemState b = Ok s /\ s <> CborReaderState.Tag /\ b <> 255 /\
            skipState d s = (readDouble ;; mret d)) as (s & Hs & Ht & Hb & Hk).
  { unfold float_value in Hv.
    destruct (Z.eqb_spec b 249) as [->|]; [|destruct (Z.eqb_spec b 250) as [->|];
      [|destruct (Z.eqb_spec b 251) as [->|]; [|done]]];
      (eexists; split; [vm_compute; reflexivity|by split_and!]). }
  rewrite zlen_cons, Z.add_comm. eapply (path_item d r s readDouble); [done| |exact Hdec|done].
  by rewrite (peekStateCore_item r b _ Hr).
Qed.

(** ** Every item is skipped exactly *)

Theorem skip_items :
  (forall l, item l -> item_path l) /\ (forall n l, items n l -> items_path n l) /\
  (forall t l, chunks t l -> chunks_path t l).
Proof.
  apply item_items_chunks; intros.
  - by eapply int_path.
  - by eapply string_path.
  - by apply chunks_item_path.
  - eapply array_path; [done|by eapply items_count|done].
  - by eapply array_break_path.
  - eapply map_path; [done|by eapply items_count|done].
  - by eapply map_break_path.
  - by eapply tag_path.
  - by apply simple_path.
  - by apply simple8_path.
  - by eapply float_path.
  - apply items_path_nil.
  - apply items_path_cons; [done|by eapply items_count|done|done].
  - apply chunks_path_nil.
  - by apply chunks_path_cons.
Qed.

Lemma item_consumed l r rest : item l -> ready r (l ++ rest) ->
  slice (data r) (offset r) (offset r + zlen l) = l.
Proof.
  intros Hl Hr. pose proof (ready_wf _ _ Hr) as Hw. destruct (wf_offset r Hw).
  pose proof (can_read_ahead r l rest Hw (ready_rest _ _ Hr)).
  pose proof (ready_rest _ _ Hr) as Hrest. unfold getRemainingBytes, slice_from in Hrest.
  unfold slice. cbv zeta. rewrite Hrest.
  replace (_ - _)%nat with (length l) by (unfold zlen in *; lia). apply take_app_length.
Qed.

Theorem readEncodedValue_item r l rest : item l -> ready r (l ++ rest) -> plain (currentFrame r) ->
  readEncodedValue r = (Ok l, consume r (zlen l) 1).
Proof.
  intros Hl Hr Hpl. pose proof (ready_wf _ _ Hr) as Hw.
  assert (Hp := proj1 skip_items l Hl 0 r rest ltac:(lia) Hr Hpl).
  destruct (skipLoop_runs (skipFuel r) 0 r Hw (skipFuel_enough r Hw)) as (o & r' & E & Ho & _).
  assert (Hs : skipLoop (skipFuel r) 0 r = (Ok tt, consume r (zlen l) 1)).
  { apply path_skipLoop; [done|]. by rewrite E. }
  unfold readEncodedValue. rewrite st_get_ok. cbv zeta. rewrite (st_bind_ok _ _ _ _ _ Hs), st_get_ok.
  unfold mret, ST_ret. cbn [data offset consume]. by rewrite (item_consumed l r rest Hl Hr).
Qed.

(** ** Deciding well-formedness
    A parser of the grammar of [CborSkip.v], without simple values and floats,
    that decides whether a list of bytes is one well-formed item.  It gives the
    conditions under which foreign blobs are embedded an executable form. *)

(** A head: its type, its argument and what follows. *)
Definition parseHead (l : list Z) : option (CborMajorType * Z * list Z) :=
  match l with
  | [] => None
  | b :: l =>
      t ← majorType_of_num (b / 32);
      let i := b mod 32 in
      if i <? 24 then Some (t, i, l)
      else
        n ← (if i =? 24 then Some 1%nat else if i =? 25 then Some 2%nat else if i =? 26 then Some 4%nat
             else if i =? 27 then Some 8%nat else None);
        if (n <=? length l)%nat then Some (t, be_decode (take n l), drop n l) else None
  end.

(** Strings of one type, to the break byte. *)
Fixpoint parseChunks (fuel : nat) (t : CborMajorType) (l : list Z) : option (list Z) :=
  match fuel, l with
  | O, _ | _, [] => None
  | S fuel, b :: l' =>
      if b =? 255 then Some l'
      else
        '(t', n, rest) ← parseHead l;
        if bool_decide (t' = t) && (n <=? zlen rest) then parseChunks fuel t (drop (Z.to_nat n) rest) else None
  end.

(** One item, given a parser of the items inside it; what follows. *)
Definition parseOne (parse : option Z -> list Z -> option (Z * list Z)) (l : list Z) : option (list Z) :=
  match l with
  | [] => None
  | b :: l' =>
      if b =? 159 then '(_, r) ← parse None l'; Some r
      else if b =? 191 then '(n, r) ← parse None l'; if n mod 2 =? 0 then Some r else None
      else if b =? 95 then parseChunks (S (length l')) ByteString l'
      else if b =? 127 then parseChunks (S (length l')) Utf8String l'
      else
        '(t, v, rest) ← parseHead l;
        match t with
        | UnsignedInteger | NegativeInteger => Some rest
        | ByteString | Utf8String => if v <=? zlen rest then Some (drop (Z.to_nat v) rest) else None
        | Array => '(_, r) ← parse (Some v) rest; Some r
        | Map => '(_, r) ← parse (Some (2 * v)) rest; Some r
        | Tag => '(_, r) ← parse (Some 1) rest; Some r
        | Simple => None
        end
  end.

(** So many items, or those up to the break byte; their number and what follows. *)
Fixpoint parseItems (fuel : nat) (todo : option Z) (l : list Z) : option (Z * list Z) :=
  match fuel with
  | O => None
  | S fuel =>
      match todo, l with
      | Some 0, _ => Some (0, l)
      | None, 255 :: r => Some (0, r)
      | _, _ => r ← parseOne (parseItems fuel) l; '(n, r) ← parseItems fuel (Z.pred <$> todo) r; Some (n + 1, r)
      end
  end.

Definition isItem (l : list Z) : bool :=
  match parseItems (S (S (length l))) (Some 1) l with Some (_, []) => true | _ => false end.

(** ** What is accepted is well formed *)

Lemma parseHead_spec l t v rest : bytes l -> parseHead l = Some (t, v, rest) -> exists h, l = h ++ rest /\ is_head t v h.
Proof.
  destruct l as [|b l]; [done|]. intros [Hb Hl]%Forall_cons. cbn.
  destruct (majorType_of_num (b / 32)) as [ty|] eqn:Et; [|done]. cbn.
  assert (Eb : b = majorType_num ty * 32 + b mod 32).
  { assert (b / 32 = majorType_num ty) as <-; [|pose proof (Z.div_mod b 32); lia]. revert Et. generalize (b / 32). intros n.
    unfold majorType_of_num. repeat case_match; intros [= <-]; done. }
  pose proof (Z.mod_pos_bound b 32 ltac:(lia)). destruct (Z.ltb_spec (b mod 32) 24).
  { intros [= <- <- <-]. exists [b]. split; [done|]. rewrite Eb at 2. constructor. lia. }
  assert (Hn : forall n, (n <= length l)%nat -> l = be_encode n (be_decode (take n l)) ++ drop n l /\ 0 <= be_decode (take n l) < 256 ^ Z.of_nat n).
  { intros n Hn. assert (Hlen : length (take n l) = n) by (rewrite length_take; lia).
    pose proof (be_encode_decode (take n l) ltac:(by apply Forall_take)) as E. rewrite Hlen in E. rewrite E, take_drop. split; [done|].
    pose proof (be_decode_bound (take n l) ltac:(by apply Forall_take)) as Hd. unfold zlen in Hd. by rewrite Hlen in Hd. }
  repeat case_bool; try done; zb; cbn [mbind option_bind]; match goal with |- context [(?n <=? length l)%nat] => destruct (Nat.leb_spec n (length l)) end; try done; intros [= <- <- <-];
    match goal with H : (?n <= _)%nat |- _ => destruct (Hn n H) as [E1 E2]; exists (b :: be_encode n (be_decode (take n l))) end;
    (split; [cbn; f_equal; exact E1|]).
  all: match goal with E : _ mod 32 = _ |- _ => rewrite E in Eb end; rewrite Eb; constructor; exact E2.
Qed.

Lemma parseChunks_spec fuel t l r : bytes l -> parseChunks fuel t l = Some r -> exists p, l = p ++ 255 :: r /\ chunks t p.
Proof.
  revert l. induction fuel as [|fuel IH]; [done|]. intros [|b l] Hb; [done|]. cbn [parseChunks]. destruct (Z.eqb_spec b 255) as [->|Hne].
  - intros [= ->]. exists []. by split; [|constructor].
  - destruct (parseHead (b :: l)) as [[[t' n] rest]|] eqn:E; [|done]. cbn.
    destruct (parseHead_spec _ _ _ _ Hb E) as (h & Eh & Hh). case_bool_decide as Et; [|done]. cbn. subst t'. case_bool; [|done]. zb.
    pose proof (is_head_arg _ _ _ Hh). rewrite Eh in Hb |- *. apply Forall_app in Hb as [_ Hb]. intros (p & Ep & Hp)%IH; [|by apply Forall_drop].
    exists (h ++ take (Z.to_nat n) rest ++ p). split.
    + rewrite <- !app_assoc. f_equal. rewrite <- Ep. by rewrite take_drop.
    + constructor; [|done]. assert (zlen (take (Z.to_nat n) rest) = n) as ->; [|done]. unfold zlen in *. rewrite length_take. lia.
Qed.

Definition parsed (todo : option Z) (l : list Z) (n : Z) (r : list Z) : Prop := exists p, items n p /\
  match todo with Some k => n = k /\ l = p ++ r | None => l = p ++ 255 :: r end.

Lemma parsed_cons todo l i r n rest : l = i ++ r -> item i -> parsed (Z.pred <$> todo) r n rest -> parsed todo l (n + 1) rest.
Proof.
  intros -> Hi (p & Hp & Ht). exists (i ++ p). split; [by constructor|]. destruct todo as [k|]; cbn in Ht.
  - destruct Ht as [-> ->]. rewrite <- app_assoc. split; [lia|done].
  - by rewrite Ht, <- app_assoc.
Qed.

Lemma items_one l : items 1 l -> item l.
Proof.
  intros Hl. inversion Hl as [|n l' k Hi Hk E1 E2]; subst. assert (n = 0) as -> by lia.
  inversion Hk as [|? ? ? ? Hk' E3]; subst; [by rewrite app_nil_r|]. pose proof (items_count _ _ Hk'). lia.
Qed.

Lemma parseOne_spec parse l r : (forall todo l n r, bytes l -> parse todo l = Some (n, r) -> parsed todo l n r) -> bytes l ->
  parseOne parse l = Some r -> exists i, l = i ++ r /\ item i.
Proof.
  intros IH Hb. destruct l as [|b l]; [done|]. unfold parseOne. pose proof Hb as [_ Hl]%Forall_cons.
  repeat (case_bool; zb; [subst b|]).
  - destruct (parse None l) as [[n r']|] eqn:E; [|done]. intros [= ->]. destruct (IH None l n r Hl E) as (p & Hp & ->).
    exists (159 :: p ++ [255]). split; [cbn; by rewrite <- app_assoc|]. by eapply item_array_break.
  - destruct (parse None l) as [[n r']|] eqn:E; [|done]. cbn [mbind option_bind]. case_bool; [|done]. zb. intros [= ->].
    destruct (IH None l n r Hl E) as (p & Hp & ->).
    exists (191 :: p ++ [255]). split; [cbn; by rewrite <- app_assoc|]. apply (item_map_break (n / 2)).
    assert (2 * (n / 2) = n) as ->; [|done]. pose proof (Z.div_mod n 2). lia.
  - intros (p & -> & Hp)%parseChunks_spec; [|done]. exists (95 :: p ++ [255]). split; [cbn; by rewrite <- app_assoc|].
    apply (item_chunks ByteString); [by left|done].
  - intros (p & -> & Hp)%parseChunks_spec; [|done]. exists (127 :: p ++ [255]). split; [cbn; by rewrite <- app_assoc|].
    apply (item_chunks Utf8String); [by right|done].
  - destruct (parseHead (b :: l)) as [[[t v] rest]|] eqn:E; [|done]. cbn [mbind option_bind].
    destruct (parseHead_spec _ _ _ _ Hb E) as (h & Eh & Hh). rewrite Eh in Hb |- *. apply Forall_app in Hb as [_ Hr]. pose proof (is_head_arg _ _ _ Hh).
    assert (Hstr : is_string t -> (if v <=? zlen rest then Some (drop (Z.to_nat v) rest) else None) = Some r -> exists i, h ++ rest = i ++ r /\ item i).
    { intros Ht. case_bool; [|done]. zb. intros [= <-]. exists (h ++ take (Z.to_nat v) rest). split; [by rewrite <- app_assoc, take_drop|].
      apply (item_string t); [done|]. assert (zlen (take (Z.to_nat v) rest) = v) as ->; [|done]. unfold zlen in *. rewrite length_take. lia. }
    assert (Hnest : forall k, (forall p, items k p -> item (h ++ p)) -> ('(_, r) ← parse (Some k) rest; Some r) = Some r ->
      exists i, h ++ rest = i ++ r /\ item i).
    { intros k Hk. destruct (parse (Some k) rest) as [[n r'']|] eqn:En; [|done]. intros [= ->].
      destruct (IH _ _ _ _ Hr En) as (p & Hp & -> & ->). exists (h ++ p). split; [by rewrite <- app_assoc|auto]. }
    destruct t.
    + intros [= ->]. exists h. split; [done|]. eapply item_int; [by left|done].
    + intros [= ->]. exists h. split; [done|]. eapply item_int; [by right|done].
    + apply Hstr. by left.
    + apply Hstr. by right.
    + apply Hnest. intros p. by apply item_array.
    + apply Hnest. intros p. by apply item_map.
    + apply Hnest. intros p Hp. apply (item_tag v); [done|]. by apply items_one.
    + done.
Qed.

Lemma parseItems_spec fuel todo l n r : bytes l -> parseItems fuel todo l = Some (n, r) -> parsed todo l n r.
Proof.
  revert todo l n r. induction fuel as [|fuel IH]; [done|]. intros todo l n r Hb. cbn [parseItems].
  assert (Hmore : (r0 ← parseOne (parseItems fuel) l; '(n0, r1) ← parseItems fuel (Z.pred <$> todo) r0; Some (n0 + 1, r1)) = Some (n, r) -> parsed todo l n r).
  { destruct (parseOne (parseItems fuel) l) as [r'|] eqn:E1; [|done]. cbn [mbind option_bind]. destruct (parseItems fuel _ r') as [[n' r1]|] eqn:E2; [|done].
    intros [= <- <-]. destruct (parseOne_spec _ _ _ IH Hb E1) as (i & Ei & Hi). eapply parsed_cons; [exact Ei|done|]. apply IH; [|done].
    rewrite Ei in Hb. by apply Forall_app in Hb as [_ Hb]. }
  destruct todo as [[|p|p]|]; [|exact Hmore..|].
  - intros [= <- <-]. exists []. by split; [constructor|].
  - destruct l as [|b l]; [exact Hmore|]. destruct (decide (b = 255)) as [->|Hne].
    + intros [= <- <-]. exists []. by split; [constructor|].
    + intros H. apply Hmore. revert H. destruct b as [|p|p]; try done. repeat (destruct p as [p|p|]; try done).
Qed.

Lemma isItem_item l : bytes l -> isItem l = true -> item l.
Proof.
  unfold isItem. intros Hb. destruct (parseItems _ _ l) as [[n [|b r]]|] eqn:E; [|done..]. intros _.
  destruct (parseItems_spec _ _ _ _ _ Hb E) as (p & Hp & -> & ->). rewrite app_nil_r. by apply items_one.
Qed.

Example isItem_nested : isItem [159; 130; 1; 32; 216; 121; 128; 255] = true /\ isItem [130; 1] = false /\ isItem [1; 2] = false.
Proof. by vm_compute. Qed.
