(* ===== verification/CborDocuments.v ===== *)
(** * Writer programs and the documents they produce

    A client of [CborWriter] builds a document by a sequence of calls that
    open and close containers.  [doc] singles out the balanced sequences; each
    of them appends exactly one well-formed item to the buffer. *)

From S2P Require Import Prelude JsRuntime Utf8 CborCommon Half CborWriter CborReader CborMachine CborExact CborSkip.

Import CborWriter CborWriterFacts.

(** Sequences of writer calls that write one item ([doc]), or [n] of them
    ([docs]). *)
Inductive doc : M unit -> Prop :=
  | doc_int z : - 2 ^ 64 <= z < 2 ^ 64 -> doc (writeInt z)
  | doc_big z : zlen (bignum_bytes (if z <? 0 then - z - 1 else z)) < 2 ^ 64 -> doc (writeBigInteger z)
  | doc_bytes s : bytes s -> zlen s < 2 ^ 64 -> doc (writeByteString s)
  | doc_text s : zlen (utf8_encode s) < 2 ^ 64 -> Forall (fun u => 0 <= u < 65536) s -> doc (writeTextString s)
  | doc_bool b : doc (writeBoolean b)
  | doc_null : doc writeNull
  | doc_undefined : doc writeUndefined
  | doc_encoded l : item l -> bytes l -> doc (writeEncodedValue l)
  | doc_tag n m : 0 <= n < 2 ^ 64 -> doc m -> doc (writeTag n ;; m)
  | doc_array n m : n < 2 ^ 64 -> docs n m -> doc (writeStartArray (Some n) ;; m)
  | doc_array_break n m : docs n m -> doc (writeStartArray None ;; m ;; writeEndArray)
  | doc_map n m : n < 2 ^ 64 -> docs (2 * n) m -> doc (writeStartMap (Some n) ;; m)
  | doc_map_break n m : docs (2 * n) m -> doc (writeStartMap None ;; m ;; writeEndMap)
with docs : Z -> M unit -> Prop :=
  | docs_nil : docs 0 (mret tt)
  | docs_cons n m k : doc m -> docs n k -> docs (n + 1) (m ;; k).

Scheme doc_mut := Minimality for doc Sort Prop
  with docs_mut := Minimality for docs Sort Prop.
Combined Scheme doc_docs from doc_mut, docs_mut.

(** The computation appends [l], which satisfies [P]. *)
Definition produces (P : list Z -> Prop) (m : M unit) : Prop :=
  exists l, appends m l /\ bytes l /\ P l.

Lemma head_item t v : 0 <= v < 2 ^ 64 -> produces (is_head t v) (writeTypeValue t v).
Proof.
  intros Hv. exists (head t v). split_and!; [by apply writeTypeValue_head| |by apply writer_head].
  apply head_bytes. lia.
Qed.

Lemma produces_bind (P Q R : list Z -> Prop) m k : produces P m -> produces Q k ->
  (forall l l', P l -> Q l' -> R (l ++ l')) -> produces R (m ;; k).
Proof.
  intros (l & Hl & Hb & HP) (l' & Hl' & Hb' & HQ) HR. exists (l ++ l').
  split_and!; [by apply appends_bind|by apply Forall_app|by apply HR].
Qed.

Lemma produces_impl (P Q : list Z -> Prop) m : produces P m -> (forall l, P l -> Q l) -> produces Q m.
Proof. intros (l & ? & ? & ?) HQ. exists l. auto. Qed.

Lemma produces_byte b : is_byte b -> produces (eq [b]) (pushUInt8 b).
Proof.
  intros Hb. exists [b]. split_and!; [|by constructor|done]. rewrite <- (be_encode_1 b Hb).
  by apply appends_push.
Qed.

Lemma produces_encoded l : bytes l -> produces (eq l) (writeEncodedValue l).
Proof. intros Hl. by exists l. Qed.

Lemma string_item t s : is_string t -> bytes s -> zlen s < 2 ^ 64 ->
  produces item (writeTypeValue t (zlen s) ;; writeEncodedValue s).
Proof.
  intros Ht Hs Hl. eapply produces_bind; [apply head_item|by apply produces_encoded|].
  - pose proof (zlen_nonneg s). lia.
  - intros h _ Hh <-. by eapply item_string.
Qed.

(** [writeBigInteger] is a tagged byte string. *)
Lemma writeBigInteger_eq z : writeBigInteger z =
  (writeTag (if z <? 0 then CborTag.NegativeBigNum else CborTag.UnsignedBigNum) ;;
   writeByteString (bignum_bytes (if z <? 0 then - z - 1 else z))).
Proof. unfold writeBigInteger, writeByteString, bignum_bytes. by destruct (z <? 0). Qed.

Lemma bignum_bytes_bytes x : bytes (bignum_bytes x).
Proof. apply Buffer_from_hex_bytes. Qed.

Theorem doc_produces :
  (forall m, doc m -> produces item m) /\ (forall n m, docs n m -> produces (items n) m).
Proof.
  apply doc_docs.
  - intros z Hz. unfold writeInt. destruct (Z.ltb_spec z 0).
    + eapply produces_impl; [apply head_item; lia|]. intros l Hl. eapply item_int; [by right|exact Hl].
    + eapply produces_impl; [apply head_item; lia|]. intros l Hl. eapply item_int; [by left|exact Hl].
  - intros z Hz. rewrite writeBigInteger_eq.
    eapply produces_bind; [apply head_item; by case_bool| |].
    + apply (string_item ByteString); [by left|apply bignum_bytes_bytes|done].
    + intros l l' ? ?. by eapply item_tag.
  - intros s Hs Hl. apply (string_item ByteString); [by left|done..].
  - intros s Hs Hl. apply (string_item Utf8String); [by right|by apply utf8_encode_bytes|done].
  - intros b. unfold writeBoolean. eapply produces_impl; [apply produces_byte; by destruct b|].
    intros _ <-. destruct b; [by apply (item_simple 21)|by apply (item_simple 20)].
  - eapply produces_impl; [by apply produces_byte|]. intros _ <-. by apply (item_simple 22).
  - eapply produces_impl; [by apply produces_byte|]. intros _ <-. by apply (item_simple 23).
  - intros l Hl Hb. eapply produces_impl; [by apply produces_encoded|]. by intros _ <-.
  - intros n m Hn _ Hm. eapply produces_bind; [by apply head_item|exact Hm|]. intros. by eapply item_tag.
  - intros n m Hn _ Hm. assert (0 <= n) by (destruct Hm as (? & _ & _ & Hi); apply items_count in Hi; lia).
    eapply produces_bind; [by apply head_item|exact Hm|]. intros. by eapply item_array.
  - intros n m _ Hm. eapply produces_bind; [by apply produces_byte|eapply (produces_bind _ _ (fun k => exists l, items n l /\ k = l ++ [255])); [exact Hm|by apply produces_byte|]|].
    + intros l _ Hl <-. by exists l.
    + intros _ _ <- (l & Hl & ->). by eapply item_array_break.
  - intros n m Hn _ Hm. assert (0 <= n) by (destruct Hm as (? & _ & _ & Hi); apply items_count in Hi; lia).
    eapply produces_bind; [by apply head_item|exact Hm|]. intros. by eapply item_map.
  - intros n m _ Hm. eapply produces_bind; [by apply produces_byte|eapply (produces_bind _ _ (fun k => exists l, items (2 * n) l /\ k = l ++ [255])); [exact Hm|by apply produces_byte|]|].
    + intros l _ Hl <-. by exists l.
    + intros _ _ <- (l & Hl & ->). by eapply item_map_break.
  - exists []. split_and!; [|constructor|constructor]. intros w. destruct w. cbn. by rewrite app_nil_r.
  - intros n m k _ Hm _ Hk. eapply produces_bind; [exact Hm|exact Hk|]. intros. by apply items_cons.
Qed.
