(* ===== verification/Codec.v ===== *)
(** * Encoders and decoders on top of the CBOR layer

    Every class of [packages/core/src/Serialization] has a [toCbor] that drives
    a [CborWriter] and a [fromCbor] that drives a [CborReader] over a hex blob.
    This file gives the two monads these methods are written in, the loop over
    the elements of a container that they share, and what they rely on: reading
    back what was written, and the termination of the loop on any input. *)

From S2P Require Import Prelude JsRuntime Utf8 CborCommon Half CborWriter CborReader CborMachine CborExact CborSkip CborDocuments.

Import CborWriterFacts.

(** ** Errors, encoders and decoders *)

(** What the serialization classes throw: the exceptions of the CBOR layer, and
    their own.  [UnknownField] and the four after it are [SerializationError]s
    with these failures. *)
Inductive SerializationError : Set :=
  | CborException (e : CborError)
  | InvalidArgumentError (argument message : string)
  | InvalidStateError (message : string)
  | InvalidStringError (message : string)
  | NotImplementedError (message : string)
  | UnknownField (message : string)
  | InvalidScriptType (message : string)
  | InvalidType (message : string)
  | MaxLengthLimit (message : string)
  | InvalidAddress (message : string)
  | JsError (message : string).

#[export] Instance SerializationError_eq_dec : EqDecision SerializationError.
Proof. solve_decision. Defined.

(** A [HexBlob] is a string of hexadecimal digits. *)
Abbreviation HexBlob := string (only parsing).

Definition HexBlob_fromBytes (l : list Z) : HexBlob := Buffer_to_hex l.
Definition bytesToHex (l : list Z) : HexBlob := Buffer_to_hex l.
Definition hexToBytes (hex : HexBlob) : list Z := Buffer_from_hex hex.

Abbreviation Res := (outcome SerializationError).
Abbreviation Dec := (ST CborReader.t SerializationError).
Abbreviation Enc := (ST CborWriter.t SerializationError).

(** A call of the CBOR layer from a serialization class. *)
Definition call {S A} (m : ST S CborError A) : ST S SerializationError A := fun s =>
  match m s with
  | (Ok a, s') => (Ok a, s')
  | (Throw e, s') => (Throw (CborException e), s')
  | (OutOfFuel, s') => (OutOfFuel, s')
  end.

(** [const reader = new CborReader(cbor); ...] *)
Definition decode {A} (m : Dec A) (cbor : HexBlob) : Res A := fst (m (CborReader.new cbor)).

(** [const writer = new CborWriter(); ...; return writer.encodeAsHex();] *)
Definition encode (m : Enc unit) : Res HexBlob :=
  match m CborWriter.new with
  | (Ok _, w) => Ok (CborWriter.encodeAsHex w)
  | (Throw e, _) => Throw e
  | (OutOfFuel, _) => OutOfFuel
  end.

(** The same with [writer.encode()]. *)
Definition encodeBytes (m : Enc unit) : Res (list Z) :=
  match m CborWriter.new with
  | (Ok _, w) => Ok (CborWriter.encode w)
  | (Throw e, _) => Throw e
  | (OutOfFuel, _) => OutOfFuel
  end.

(** [for (const x of l) f(x);] *)
Definition forEach {S E A} (f : A -> ST S E unit) : list A -> ST S E unit :=
  fix go l := match l with [] => mret tt | x :: l => f x ;; go l end.

(** [while (reader.peekState() !== stop) result.push(body);]  Every iteration
    of the callers' bodies consumes a byte of the data. *)
Fixpoint whileNot {A} (fuel : nat) (stop : CborReaderState.t) (body : Dec A) : Dec (list A) :=
  state ← call CborReader.peekState;
  if bool_decide (state = stop) then mret []
  else
    match fuel with
    | O => st_fuel
    | S fuel' => x ← body; l ← whileNot fuel' stop body; mret (x :: l)
    end.

Definition readWhileNot {A} (stop : CborReaderState.t) (body : Dec A) : Dec (list A) := fun r =>
  whileNot (S (length (CborReader.data r))) stop body r.

(** The loop over the entries of a map, with its ends. *)
Definition readMapOf {A} (body : Dec A) : Dec (list A) :=
  call CborReader.readStartMap ;; m ← readWhileNot CborReaderState.EndMap body; call CborReader.readEndMap ;; mret m.

(** [f(HexBlob.fromBytes(reader.readEncodedValue()))] *)
Definition readNested {A} (f : HexBlob -> Res A) : Dec A :=
  v ← call CborReader.readEncodedValue; st_lift (f (HexBlob_fromBytes v)).

(** [if (this.#originalBytes) return this.#originalBytes;] *)
Definition remembered (o : option HexBlob) : option HexBlob :=
  match o with Some h => if String.eqb h "" then None else Some h | None => None end.

(** ** Reading back what was written *)

(** What a sequence of writer calls leaves in the buffer of a new writer. *)
Definition written (m : CborWriter.M unit) : list Z := CborWriter.encode (snd (m CborWriter.new)).

Lemma written_appends m l : appends m l -> written m = l.
Proof. intros Hm. unfold written. by rewrite Hm. Qed.

(** A fresh reader in front of the bytes of an item. *)
Lemma of_bytes_ready l : bytes l -> zlen l < 2 ^ 53 -> CborReader.getRemainingBytes (CborReader.of_bytes l) = l ->
  ready (CborReader.of_bytes l) l.
Proof. intros Hb Hl Hr. split; [by apply of_bytes_wf|done..]. Qed.

Lemma of_bytes_remaining l : CborReader.getRemainingBytes (CborReader.of_bytes l) = l.
Proof.
  unfold CborReader.getRemainingBytes, slice_from. cbn.
  by rewrite Z.min_l by apply zlen_nonneg.
Qed.

Lemma fresh_ready l : bytes l -> zlen l < 2 ^ 53 -> ready (CborReader.of_bytes l) l.
Proof. intros. apply of_bytes_ready; [done..|apply of_bytes_remaining]. Qed.

(** Reading back what was written, followed by anything. *)
Section round_trip.
Context {A : Type} (m : CborWriter.M unit) (read : CborReader.M A) (l : list Z) (v : A).
Context (Hm : appends m l) (Hb : bytes l).
Context (Hread : forall r rest, plain (CborReader.currentFrame r) -> ready r (l ++ rest) -> read r = (Ok v, consume r (zlen l) 1)).

Lemma round_trip rest : bytes rest -> zlen (written m ++ rest) < 2 ^ 53 ->
  let r := CborReader.of_bytes (written m ++ rest) in
  fst (m CborWriter.new) = Ok tt /\ read r = (Ok v, consume r (zlen (written m)) 1).
Proof.
  rewrite (written_appends m l Hm). intros Hr Hz r. split; [by rewrite Hm|].
  apply (Hread r rest I), fresh_ready; [|done]. by apply Forall_app.
Qed.
End round_trip.

Ltac prove_bytes := repeat first [apply Forall_nil_2 | apply Forall_cons_2]; unfold is_byte; lia.

Lemma string_appends t s : zlen s < 2 ^ 64 ->
  appends (CborWriter.writeTypeValue t (zlen s) ;; CborWriter.writeEncodedValue s) (CborWriter.head t (zlen s) ++ s).
Proof.
  intros Hs. pose proof (zlen_nonneg s). apply appends_bind; [apply writeTypeValue_head; lia|apply appends_encoded].
Qed.

Lemma string_bytes t s : bytes s -> bytes (CborWriter.head t (zlen s) ++ s).
Proof. intros Hs. apply Forall_app. split; [apply head_bytes, zlen_nonneg|done]. Qed.

Lemma string_read t s r rest : majorType_num t <> 0 -> zlen s < 2 ^ 64 ->
  ready r ((CborWriter.head t (zlen s) ++ s) ++ rest) ->
  CborReader.readString t r = (Ok s, consume r (zlen (CborWriter.head t (zlen s) ++ s)) 1).
Proof.
  intros Ht Hs Hr. rewrite <- app_assoc in Hr. pose proof (zlen_nonneg s).
  apply (readString_exact r t _ s rest); [done|apply writer_head; lia|done].
Qed.

(** After a tag the reader is in front of the item the tag belongs to. *)
Lemma tagged_ready tag h r rest : is_head Tag tag h -> ready r (h ++ rest) -> plain (CborReader.currentFrame r) ->
  ready (tagged r (zlen h)) rest.
Proof.
  intros Hh Hr Hp. pose proof (is_head_length _ _ _ Hh). pose proof (ready_wf _ _ Hr) as Hw.
  pose proof (can_read_ahead r h _ Hw (ready_rest _ _ Hr)). split.
  - eapply step_wf; [|exact Hw]. apply step_tag. split_and!; [apply (ready_room _ _ Hr)|lia|done].
  - by eapply (remaining_advance r h _ ); [|apply (ready_rest _ _ Hr)|].
  - apply (ready_room _ _ Hr).
  - by apply plain_admits.
Qed.

(** Reading a tag and then the item it belongs to. *)
Lemma tagged_read {A} (read : CborReader.M A) v l h r rest tag : is_head Tag tag h -> tag < 2 ^ 53 ->
  (forall r', ready r' (l ++ rest) -> read r' = (Ok v, consume r' (zlen l) 1)) ->
  plain (CborReader.currentFrame r) -> ready r ((h ++ l) ++ rest) ->
  (t ← CborReader.readTag; x ← read; mret (t, x)) r = (Ok (tag, v), consume r (zlen (h ++ l)) 1).
Proof.
  intros Hh Ht Hread Hp Hr. rewrite <- app_assoc in Hr. pose proof (is_head_arg _ _ _ Hh).
  rewrite (st_bind_ok _ _ _ _ _ (readTag_exact r tag h _ Hh Hr)), Number_of_exact by lia.
  rewrite (st_bind_ok _ _ _ _ _ (Hread _ (tagged_ready tag h r _ Hh Hr Hp))).
  unfold mret, ST_ret, consume, tagged. cbn. by rewrite zlen_app, Z.add_assoc.
Qed.
