(* ===== verification/NumberText.v ===== *)
(** * Numbers and their decimal text
    What the runtime does with a [number] beyond arithmetic: the double nearest
    to an integer, [Number(text)] and [number.toString()], as ECMAScript
    specifies them ([StringToNumber] and [Number::toString] with radix 10); and base64, as
    [packages/util] converts it to and from hex. *)
From Stdlib Require Import SpecFloat.
From S2P Require Import Prelude JsRuntime CborCommon Half Codec.

(** ** Base64
    [Buffer.from(bytes).toString('base64')] and [Buffer.from(text, 'base64')] of
    the runtime, on text that is base64: four characters of the alphabet for
    three bytes, the last group padded with [=].  What the runtime does with
    other characters is not modelled: decoding stops at them. *)

Definition base64_alphabet : string := "ABCDEFGHIJKLMNOPQRSTUVWXYZabcdefghijklmnopqrstuvwxyz0123456789+/".

Definition base64_char (n : Z) : ascii := default "A"%char (String.get (Z.to_nat n) base64_alphabet).

Fixpoint findChar (s : string) (c : ascii) (i : Z) : option Z :=
  match s with
  | EmptyString => None
  | String d s => if Ascii.eqb d c then Some i else findChar s c (i + 1)
  end.

Definition base64_value (c : ascii) : option Z := findChar base64_alphabet c 0.

Fixpoint Buffer_to_base64 (l : list Z) : string :=
  match l with
  | a :: b :: c :: l =>
      String (base64_char (a / 4)) (String (base64_char (a mod 4 * 16 + b / 16))
        (String (base64_char (b mod 16 * 4 + c / 64)) (String (base64_char (c mod 64)) (Buffer_to_base64 l))))
  | [a; b] =>
      String (base64_char (a / 4)) (String (base64_char (a mod 4 * 16 + b / 16)) (String (base64_char (b mod 16 * 4)) "="))
  | [a] => String (base64_char (a / 4)) (String (base64_char (a mod 4 * 16)) "==")
  | [] => ""
  end.

(** The bits of the characters so far that are no byte yet, and their number. *)
Fixpoint base64_decode (s : string) (bits n : Z) : list Z :=
  match s with
  | EmptyString => []
  | String c s =>
      match base64_value c with
      | None => []
      | Some v =>
          let bits := bits * 64 + v in
          let n := n + 6 in
          if 8 <=? n then (bits / 2 ^ (n - 8)) :: base64_decode s (bits mod 2 ^ (n - 8)) (n - 8) else base64_decode s bits n
      end
  end.

Definition Buffer_from_base64 (s : string) : list Z := base64_decode s 0 0.

(** [Base64Blob.fromBytes] and [HexBlob.fromBase64] of [util/src/primitives.ts] *)
Definition Base64Blob_fromBytes (l : list Z) : string := Buffer_to_base64 l.
Definition HexBlob_fromBase64 (rawData : string) : HexBlob := Buffer_to_hex (Buffer_from_base64 rawData).

(** ** The round trip *)

Lemma base64_value_char n : 0 <= n < 64 -> base64_value (base64_char n) = Some n.
Proof.
  intros Hn. assert (H : Forall (fun i => base64_value (base64_char (Z.of_nat i)) = Some (Z.of_nat i)) (seq 0 64)) by (repeat constructor).
  rewrite List.Forall_forall in H. specialize (H (Z.to_nat n)). rewrite Z2Nat.id in H by lia. apply H, in_seq. lia.
Qed.

Lemma base64_step n s bits k : 0 <= n < 64 -> base64_decode (String (base64_char n) s) bits k =
  if 8 <=? k + 6 then ((bits * 64 + n) / 2 ^ (k - 2)) :: base64_decode s ((bits * 64 + n) mod 2 ^ (k - 2)) (k - 2)
  else base64_decode s (bits * 64 + n) (k + 6).
Proof. intros Hn. cbn [base64_decode]. rewrite (base64_value_char n Hn). cbv zeta. by replace (k + 6 - 8) with (k - 2) by lia. Qed.

Ltac base64_steps :=
  rewrite base64_step by (Z.div_mod_to_equations; lia);
  match goal with |- context [8 <=? ?k] => let b := eval vm_compute in (8 <=? k) in change (8 <=? k) with b end; cbv iota;
  change (0 + 6) with 6; change (2 - 2) with 0; change (4 - 2) with 2; change (6 - 2) with 4;
  change (2 ^ 0) with 1; change (2 ^ 2) with 4; change (2 ^ 4) with 16.

Lemma base64_group a b c s : is_byte a -> is_byte b -> is_byte c ->
  base64_decode (String (base64_char (a / 4)) (String (base64_char (a mod 4 * 16 + b / 16))
    (String (base64_char (b mod 16 * 4 + c / 64)) (String (base64_char (c mod 64)) s)))) 0 0 = a :: b :: c :: base64_decode s 0 0.
Proof.
  unfold is_byte. intros Ha Hb Hc. do 4 base64_steps.
  assert (((0 * 64 + a / 4) * 64 + (a mod 4 * 16 + b / 16)) / 16 = a) as -> by (Z.div_mod_to_equations; lia).
  assert (((0 * 64 + a / 4) * 64 + (a mod 4 * 16 + b / 16)) mod 16 = b / 16) as -> by (Z.div_mod_to_equations; lia).
  assert ((b / 16 * 64 + (b mod 16 * 4 + c / 64)) / 4 = b) as -> by (Z.div_mod_to_equations; lia).
  assert ((b / 16 * 64 + (b mod 16 * 4 + c / 64)) mod 4 = c / 64) as -> by (Z.div_mod_to_equations; lia).
  assert ((c / 64 * 64 + c mod 64) / 1 = c) as -> by (Z.div_mod_to_equations; lia).
  by rewrite Z.mod_1_r.
Qed.

Lemma base64_round_trip l : bytes l -> Buffer_from_base64 (Buffer_to_base64 l) = l.
Proof.
  unfold Buffer_from_base64. remember (length l) as n eqn:En. revert l En. induction (Nat.lt_wf_0 n) as [n _ IH]. intros l En Hb. subst n.
  destruct l as [|a [|b [|c l]]]; [done| | |].
  - apply Forall_cons in Hb as [Hb _]. unfold is_byte in Hb. cbn [Buffer_to_base64]. do 2 base64_steps. cbn [base64_decode base64_value findChar].
    change (base64_value "=") with (@None Z). f_equal. Z.div_mod_to_equations; lia.
  - apply Forall_cons in Hb as [Ha [Hb _]%Forall_cons]. unfold is_byte in *. cbn [Buffer_to_base64]. do 3 base64_steps. cbn [base64_decode].
    change (base64_value "=") with (@None Z).
    assert (((0 * 64 + a / 4) * 64 + (a mod 4 * 16 + b / 16)) mod 16 = b / 16) as -> by (Z.div_mod_to_equations; lia).
    f_equal; [|f_equal]; Z.div_mod_to_equations; lia.
  - apply Forall_cons in Hb as [Ha [Hb [Hc Hl]%Forall_cons]%Forall_cons]. cbn [Buffer_to_base64]. rewrite base64_group by done.
    do 3 f_equal. apply (IH (length l)); [cbn; lia|done|done].
Qed.

Example base64_hi : Buffer_to_base64 [104; 105] = "aGk=" /\ Buffer_from_base64 "aGkh" = [104; 105; 33].
Proof. by vm_compute. Qed.

Import Stdlib.Strings.Ascii.

(** The double nearest to an integer. *)
Definition double_of_Z (z : Z) : number := if z <? 0 then double_of true (- z) 0 else double_of false z 0.

(** [x / y] *)
Definition num_div (x y : number) : number := SFdiv 53 1024 x y.

(** The double nearest to [m * 10 ^ e], for [0 <= m]. *)
Definition decimal_value (negative : bool) (m e : Z) : number :=
  match m with
  | Zpos p =>
      if 0 <=? e then double_of negative (m * 10 ^ e) 0
      else match 10 ^ (- e) with Zpos d => num_div (S754_finite negative p 0) (S754_finite false d 0) | _ => S754_nan end
  | _ => S754_zero negative
  end.

(** ** Text to number *)

Definition code (c : ascii) : Z := Z.of_N (N_of_ascii c).
Definition isSpace (c : ascii) : bool := (code c =? 32) || ((9 <=? code c) && (code c <=? 13)).
Definition isChar (x : string) (c : ascii) : bool := bool_decide (c ∈ String.list_ascii_of_string x).

Definition digitOf (base : Z) (c : ascii) : option Z :=
  let d :=
    if (48 <=? code c) && (code c <=? 57) then code c - 48
    else if (97 <=? code c) && (code c <=? 122) then code c - 87
    else if (65 <=? code c) && (code c <=? 90) then code c - 55
    else base in
  if d <? base then Some d else None.

(** The digits in front: their value, their number and what follows. *)
Fixpoint takeDigits (base : Z) (l : list ascii) (value count : Z) : Z * Z * list ascii :=
  match l with
  | c :: l' => match digitOf base c with Some d => takeDigits base l' (value * base + d) (count + 1) | None => (value, count, l) end
  | [] => (value, count, [])
  end.

Fixpoint dropSpaces (l : list ascii) : list ascii :=
  match l with c :: l' => if isSpace c then dropSpaces l' else l | [] => [] end.

Definition trim (l : list ascii) : list ascii := rev (dropSpaces (rev (dropSpaces l))).

Definition takeSign (l : list ascii) : bool * list ascii :=
  match l with c :: l' => if isChar "-" c then (true, l') else if isChar "+" c then (false, l') else (false, l) | [] => (false, []) end.

(** [StrUnsignedDecimalLiteral], after its sign. *)
Definition decimalLiteral (negative : bool) (l : list ascii) : number :=
  if bool_decide (l = String.list_ascii_of_string "Infinity") then S754_infinity negative
  else
    let '(m, n, l) := takeDigits 10 l 0 0 in
    let '(m, k, l) := match l with c :: l' => if isChar "." c then takeDigits 10 l' m 0 else (m, 0, l) | [] => (m, 0, []) end in
    if (n =? 0) && (k =? 0) then S754_nan
    else
      match l with
      | [] => decimal_value negative m (- k)
      | c :: l =>
          let '(minus, l) := takeSign l in
          let '(x, j, l) := takeDigits 10 l 0 0 in
          if isChar "eE" c && negb (j =? 0) && bool_decide (l = []) then decimal_value negative m ((if minus then - x else x) - k)
          else S754_nan
      end.

Definition integerLiteral (base : Z) (l : list ascii) : number :=
  let '(m, n, rest) := takeDigits base l 0 0 in
  if (n =? 0) || negb (bool_decide (rest = [])) then S754_nan else double_of_Z m.

(** [Number(text)] *)
Definition Number_parse (text : string) : number :=
  let l := trim (String.list_ascii_of_string text) in
  match l with
  | [] => S754_zero false
  | c :: d :: digits =>
      if isChar "0" c && isChar "xX" d then integerLiteral 16 digits
      else if isChar "0" c && isChar "oO" d then integerLiteral 8 digits
      else if isChar "0" c && isChar "bB" d then integerLiteral 2 digits
      else let '(negative, l) := takeSign l in decimalLiteral negative l
  | _ => let '(negative, l) := takeSign l in decimalLiteral negative l
  end.

(** ** Number to text *)

(** [num / den < 10 ^ n] *)
Definition belowPower (num den n : Z) : bool := if 0 <=? n then num <? den * 10 ^ n else num * 10 ^ (- n) <? den.

Fixpoint decimalExponent (fuel : nat) (num den n : Z) : Z :=
  match fuel with
  | O => n
  | S fuel => if belowPower num den n then n else decimalExponent fuel num den (n + 1)
  end.

(** A candidate that has reached the next power of ten. *)
Definition carry (s k n : Z) : Z * Z * Z := if s =? 10 ^ k then (1, 1, n + 1) else (s, k, n).

(** The least [k] for which [k] digits denote the number, with the closest such
    digits; 17 are always enough. *)
Fixpoint shortest (fuel : nat) (x : number) (num den n k : Z) : Z * Z * Z :=
  let a := if 0 <=? k - n then num * 10 ^ (k - n) else num in
  let b := if 0 <=? k - n then den else den * 10 ^ (n - k) in
  let lo := a / b in
  let denotes s := SFeqb (decimal_value false s (n - k)) x in
  let twice := 2 * (a mod b) in
  let closer := (b <? twice) || ((b =? twice) && Z.odd lo) in
  match fuel with
  | O => (lo, k, n)
  | S fuel =>
      if denotes lo && (negb (denotes (lo + 1)) || negb closer) then (lo, k, n)
      else if denotes (lo + 1) then carry (lo + 1) k n
      else shortest fuel x num den n (k + 1)
  end.

Fixpoint zeros (n : nat) : string := match n with O => "" | S n => "0" +:+ zeros n end.

(** The digits [s], of which there are [k], as a number below [10 ^ n]. *)
Definition layout (s k n : Z) : string :=
  let digits := pretty s in
  let first i := String.substring 0 (Z.to_nat i) digits in
  let after i := String.substring (Z.to_nat i) (Z.to_nat (k - i)) digits in
  if (k <=? n) && (n <=? 21) then digits +:+ zeros (Z.to_nat (n - k))
  else if (0 <? n) && (n <=? 21) then first n +:+ "." +:+ after n
  else if (-6 <? n) && (n <=? 0) then "0." +:+ zeros (Z.to_nat (- n)) +:+ digits
  else
    let exponent := (if 0 <=? n - 1 then "+" else "-") +:+ pretty (Z.abs (n - 1)) in
    if k =? 1 then digits +:+ "e" +:+ exponent else first 1 +:+ "." +:+ after 1 +:+ "e" +:+ exponent.

Definition positive_text (m e : Z) : string :=
  let num := if 0 <=? e then m * 2 ^ e else m in
  let den := if 0 <=? e then 1 else 2 ^ (- e) in
  let guess := (Z.log2 num - Z.log2 den - 1) * 30103 / 100000 - 1 in
  let n := decimalExponent 8 num den guess in
  let '(s, k, n) := shortest 17 (double_of false m e) num den n 1 in layout s k n.

(** [number.toString()] *)
Definition Number_toString (x : number) : string :=
  match x with
  | S754_nan => "NaN"
  | S754_zero _ => "0"
  | S754_infinity s => (if s then "-" else "") +:+ "Infinity"
  | S754_finite s m e => (if s then "-" else "") +:+ positive_text (Zpos m) e
  end.

(** ** Examples *)

Example text_tenth : Number_toString (num_div (double_of_Z 1) (double_of_Z 10)) = "0.1".
Proof. vm_compute. reflexivity. Qed.
Example text_third : Number_toString (num_div (double_of_Z 1) (double_of_Z 3)) = "0.3333333333333333".
Proof. vm_compute. reflexivity. Qed.
Example text_small : Number_toString (num_div (double_of_Z 721) (double_of_Z 10000000)) = "0.0000721".
Proof. vm_compute. reflexivity. Qed.
Example text_exponent : Number_toString (num_div (double_of_Z 1) (double_of_Z 3000000000)) = "3.333333333333333e-10".
Proof. vm_compute. reflexivity. Qed.
Example text_large : Number_toString (double_of_Z (10 ^ 22)) = "1e+22".
Proof. vm_compute. reflexivity. Qed.
Example text_carried : Number_toString (double_of_Z 9007199254740993) = "9007199254740992".
Proof. vm_compute. reflexivity. Qed.
Example text_sum : Number_toString (SFadd 53 1024 (Number_parse "0.1") (Number_parse "0.2")) = "0.30000000000000004".
Proof. vm_compute. reflexivity. Qed.
Example text_least : Number_toString (S754_finite false 1 (-1074)) = "5e-324".
Proof. vm_compute. reflexivity. Qed.
Example parse_forms : Number_parse " 0.25e1 " = num_div (double_of_Z 5) (double_of_Z 2) /\ Number_parse "0x10" = double_of_Z 16 /\
  Number_parse "" = S754_zero false /\ Number_parse "1_0" = S754_nan /\ Number_parse "-Infinity" = S754_infinity true /\
  Number_parse ".5" = Number_parse "5e-1" /\ Number_parse "." = S754_nan /\ Number_parse "5." = double_of_Z 5.
Proof. vm_compute. tauto. Qed.
