(* ===== verification/CodecFacts.v ===== *)
(** * What encoders and decoders can rely on

    Exactness: a decoder placed in front of the bytes of an item returns the
    value they stand for and moves over exactly them; arrays and maps of such
    items are read element by element.  Termination: a loop over the elements
    of a container ends on any input. *)

From S2P Require Import Prelude JsRuntime Utf8 CborCommon Half CborWriter CborReader CborMachine CborExact CborSkip CborDocuments Codec.

Import CborReader CborWriterFacts.

(** ** Calls *)

Lemma call_ok {S A} (m : ST S CborError A) s v s' : m s = (Ok v, s') -> call m s = (Ok v, s').
Proof. intros H. unfold call. by rewrite H. Qed.

Lemma runs_call {A} r (m : M A) P : runs r m P -> runs r (call m) P.
Proof.
  intros (o & r' & E & Ho & Hr & HP). unfold runs, call. rewrite E.
  destruct o as [v|e|]; [|by eexists _, _; split_and!|done].
  exists (Ok v), r'. split_and!; [done..|]. intros ? [= <-]. by apply HP.
Qed.

(** ** Decoders in front of an item *)

(** [m] reads the [k] items of [l], and returns [v]. *)
Definition readsN {A} (k : Z) (m : Dec A) (l : list Z) (v : A) : Prop := forall r rest,
  ready r (l ++ rest) -> plain (currentFrame r) -> room (currentFrame r) k -> m r = (Ok v, consume r (zlen l) k).

Abbreviation reads := (readsN 1).

Lemma ready_room_1 r l : ready r l -> room (currentFrame r) 1.
Proof.
  intros Hr. pose proof (ready_room _ _ Hr) as He. pose proof (wf_frame r (ready_wf _ _ Hr)) as [_ Hf].
  unfold room, atDefiniteEnd in *. destruct (definiteLength (currentFrame r)) as [n|]; [|done].
  destruct (type (currentFrame r)) as [[]|]; zb; try done; lia.
Qed.

Lemma reads_call {A} (m : M A) l v :
  (forall r rest, ready r (l ++ rest) -> plain (currentFrame r) -> m r = (Ok v, consume r (zlen l) 1)) ->
  reads (call m) l v.
Proof. intros H r rest Hr Hp _. by eapply call_ok, H. Qed.

Lemma decode_reads {A} (m : Dec A) l v : reads m l v -> bytes l -> zlen l < 2 ^ 53 ->
  decode m (Buffer_to_hex l) = Ok v.
Proof.
  intros Hm Hb Hl. unfold decode, new. rewrite Buffer_hex_roundtrip by done.
  rewrite (Hm (of_bytes l) []); [done| |done|done]. rewrite app_nil_r. by apply fresh_ready.
Qed.

Lemma readNested_reads {A} (f : string -> Res A) l v : item l -> f (Buffer_to_hex l) = Ok v -> reads (readNested f) l v.
Proof.
  intros Hi Hf r rest Hr Hp _. unfold readNested.
  rewrite (st_bind_ok _ _ _ _ _ (call_ok _ _ _ _ (readEncodedValue_item r l rest Hi Hr Hp))).
  unfold st_lift, HexBlob_fromBytes. by rewrite Hf.
Qed.

Lemma reads_fmap {A B} k (m : Dec A) (f : A -> B) l v : readsN k m l v -> readsN k (x ← m; mret (f x)) l (f v).
Proof. intros Hm r rest Hr Hp Hk. by rewrite (st_bind_ok _ _ _ _ _ (Hm r rest Hr Hp Hk)). Qed.

(** ** Peeking *)

Lemma set_cached_same r s : cachedState r = s -> set_cachedState r s = r.
Proof. intros <-. by destruct r. Qed.

Lemma peekState_ok r s : wf r -> peekStateCore r = Ok s -> peekState r = (Ok s, set_cachedState r s).
Proof.
  intros Hw Hs. unfold peekState. rewrite st_get_ok. destruct (wf_cache r Hw) as [Hc|Hc].
  - rewrite Hc, bool_decide_eq_true_2 by done. unfold st_lift, mbind, ST_bind. by rewrite Hs.
  - rewrite Hs in Hc. injection Hc as Hc. case_bool_decide as E.
    + unfold st_lift, mbind, ST_bind. by rewrite Hs.
    + rewrite set_cached_same by done. unfold mret, ST_ret. by rewrite <- Hc.
Qed.

Lemma ready_cached r s l : ready r l -> peekStateCore r = Ok s -> ready (set_cachedState r s) l.
Proof.
  intros [Hw Hr Hroom Hf] Hs. split; [|done..]. eapply step_wf; [|exact Hw]. by constructor.
Qed.

Lemma itemState_byte b : is_byte b -> exists s, itemState b = Ok s /\ starts_item s = true.
Proof.
  intros Hb. destruct (itemState b) as [s|e|] eqn:E; [eauto using itemState_starts|exfalso..]; revert E;
    unfold itemState, CborInitialByte.getMajorType, is_byte in *; rewrite Z.shiftr_div_pow2 by lia;
    assert (Hq : 0 <= b / 2 ^ 5 < 8) by (split; [apply Z.div_pos; lia|apply Z.div_lt_upper_bound; lia]);
    destruct (b / 2 ^ 5) as [|p|p]; try lia; try done;
    do 3 (destruct p as [p|p|]; try lia; try done).
Qed.

Lemma ready_item_state r l rest : item l -> ready r (l ++ rest) ->
  exists s, peekStateCore r = Ok s /\ starts_item s = true.
Proof.
  intros Hi Hr. destruct (item_first l Hi) as (b & k & -> & Hb & _).
  rewrite (peekStateCore_item r b _ Hr Hb). apply itemState_byte.
  pose proof (bytes_remaining r (ready_wf _ _ Hr)) as Hrem. rewrite (ready_rest _ _ Hr) in Hrem. by inversion Hrem.
Qed.

(** ** The elements of a container *)

(** [k] items of the container in front of the reader [r], and the container
    has room for them. *)
Record before (r : t) (k : Z) (l : list Z) : Prop := {
  before_wf : wf r;
  before_fresh : fresh r;
  before_plain : plain (currentFrame r);
  before_rest : getRemainingBytes r = l;
  before_room : room (currentFrame r) k
}.

Lemma before_ready r k l : before r k l -> 0 < k -> ready r l.
Proof.
  intros [Hw Hf Hp Hr Hk] H. split; [done..| |by apply plain_admits]. by eapply room_ready.
Qed.

Lemma wf_consume r l k rest : wf r -> getRemainingBytes r = l ++ rest -> 0 <= k -> room (currentFrame r) k ->
  wf (consume r (zlen l) k).
Proof.
  intros Hw Hl Hk Hroom. pose proof (can_read_ahead r l rest Hw Hl). pose proof (zlen_nonneg l).
  destruct Hw as [? ? ? [Hi Hf] ? ? ?]. split; cbn; try done; try lia.
  - split; [cbn; lia|]. cbn. unfold room in Hroom. destruct (type (currentFrame r)) as [[]|]; try done;
      destruct (definiteLength (currentFrame r)); done || lia.
  - by eapply stack_shape_ext; [|done].
  - by apply cache_reset.
Qed.

Lemma before_consume r k n l rest : before r (k + n) (l ++ rest) -> 0 <= k -> 0 <= n -> before (consume r (zlen l) k) n rest.
Proof.
  intros [Hw Hf Hp Hr Hroom] Hk Hn. split.
  - eapply wf_consume; [done..|]. unfold room in *. destruct (definiteLength _); [lia|done].
  - done.
  - done.
  - by eapply remaining_consume.
  - unfold room in *. cbn. destruct (definiteLength _); [lia|done].
Qed.

Definition begins (l : list Z) : Prop := exists i rest, item i /\ l = i ++ rest.

Lemma item_begins l : item l -> begins l.
Proof. intros Hi. exists l, []. by rewrite app_nil_r. Qed.

(** The encodings [encs] of the elements [vs], each of [k] items. *)
Definition elements {A} (k : Z) (body : Dec A) : list (list Z) -> list A -> Prop :=
  Forall2 (fun enc v => begins enc /\ readsN k body enc v).

Lemma elements_length {A} k (body : Dec A) encs vs : elements k body encs vs -> zlen encs <= zlen (concat encs).
Proof.
  induction 1 as [|enc v encs vs [(i & rest & Hi & ->) _] _ IH]; [done|]. cbn [concat].
  destruct (item_first i Hi) as (b & l & -> & _). zlen_simpl. pose proof (zlen_nonneg l). pose proof (zlen_nonneg rest). lia.
Qed.

Lemma whileNot_elements {A} k (body : Dec A) stop encs vs : 1 <= k -> starts_item stop = false ->
  elements k body encs vs -> forall fuel r rest,
  before r (k * zlen encs) (concat encs ++ rest) -> (length encs <= fuel)%nat ->
  peekStateCore (consume r (zlen (concat encs)) (k * zlen encs)) = Ok stop ->
  whileNot fuel stop body r = (Ok vs, set_cachedState (consume r (zlen (concat encs)) (k * zlen encs)) stop).
Proof.
  intros Hk Hstop. induction 1 as [|enc v encs vs [(i & l & Hi & ->) Hbody] Hel IH]; intros fuel r rest Hb Hf Hs.
  - assert (Hc : consume r (zlen (concat (@nil (list Z)))) (k * zlen (@nil (list Z))) = r).
    { replace (k * zlen []) with 0 by (unfold zlen; cbn; lia). apply consume_zero, (before_fresh _ _ _ Hb). }
    rewrite Hc in *. pose proof (peekState_ok r stop (before_wf _ _ _ Hb) Hs) as E.
    destruct fuel; cbn [whileNot]; rewrite (st_bind_ok _ _ _ _ _ (call_ok _ _ _ _ E));
      by rewrite bool_decide_eq_true_2.
  - set (enc := i ++ l) in *. change (concat (enc :: encs)) with (enc ++ concat encs) in *.
    replace (k * zlen (enc :: encs)) with (k + k * zlen encs) in * by (zlen_simpl; lia).
    pose proof (zlen_nonneg encs). rewrite <- app_assoc in Hb.
    pose proof (before_ready _ _ _ Hb ltac:(nia)) as Hr.
    assert (Hr' : ready r (i ++ l ++ concat encs ++ rest)) by (subst enc; by rewrite <- app_assoc in Hr).
    destruct (ready_item_state r i _ Hi Hr') as (s & Es & Hst).
    destruct fuel as [|fuel]; cbn in Hf; [lia|]. cbn [whileNot].
    rewrite (st_bind_ok _ _ _ _ _ (call_ok _ _ _ _ (peekState_ok r s (before_wf _ _ _ Hb) Es))).
    rewrite bool_decide_eq_false_2 by (intros ->; congruence).
    assert (Hroom : room (currentFrame r) k).
    { pose proof (before_room _ _ _ Hb) as Hm. unfold room in *. destruct (definiteLength _); [nia|done]. }
    rewrite (st_bind_ok _ _ _ _ _ (Hbody (set_cachedState r s) _ (ready_cached _ _ _ Hr Es) (before_plain _ _ _ Hb) Hroom)).
    change (consume (set_cachedState r s) (zlen enc) k) with (consume r (zlen enc) k).
    assert (Hcc : consume (consume r (zlen enc) k) (zlen (concat encs)) (k * zlen encs) =
                  consume r (zlen (enc ++ concat encs)) (k + k * zlen encs)).
    { by rewrite consume_consume, zlen_app. }
    rewrite (st_bind_ok _ _ _ _ _ (IH fuel (consume r (zlen enc) k) rest
      ltac:(apply before_consume; [exact Hb|nia|nia]) ltac:(lia) ltac:(by rewrite Hcc))).
    by rewrite Hcc.
Qed.

Lemma leave_cached x s f l n : leave x f l n = leave (set_cachedState x s) f l n.
Proof. done. Qed.

(** How a container of type [ty] is recognised to be over, and left. *)
Definition stopState (ty : CborMajorType) : CborReaderState.t :=
  match ty with Map => CborReaderState.EndMap | _ => CborReaderState.EndArray end.
Definition readEnd (ty : CborMajorType) : M unit :=
  match ty with Map => readEndMap | _ => readEndArray end.

(** A loop that takes the [n] items [l] when it is over after them. *)
Definition loops {B} (stop : CborReaderState.t) (loop : Dec B) (l : list Z) (n : Z) (v : B) : Prop := forall r tail,
  before r n (l ++ tail) -> peekStateCore (consume r (zlen l) n) = Ok stop ->
  loop r = (Ok v, set_cachedState (consume r (zlen l) n) stop).

(** The bytes that are left bound the number of elements. *)
Lemma elements_fuel {A} k (body : Dec A) encs vs r n tail : elements k body encs vs -> before r n (concat encs ++ tail) ->
  (length encs <= S (length (data r)))%nat.
Proof.
  intros Hel Hb. pose proof (elements_length _ _ _ _ Hel). pose proof (zlen_remaining _ (before_wf _ _ _ Hb)) as Hz.
  rewrite (before_rest _ _ _ Hb) in Hz. zlen_simpl. pose proof (zlen_nonneg tail).
  destruct (wf_offset _ (before_wf _ _ _ Hb)). unfold zlen in *. lia.
Qed.

Lemma whileNot_loops {A} k (body : Dec A) stop encs vs : 1 <= k -> starts_item stop = false -> elements k body encs vs ->
  loops stop (readWhileNot stop body) (concat encs) (k * zlen encs) vs.
Proof.
  intros Hk Hs Hel r tail Hb Hstop. unfold readWhileNot. eapply whileNot_elements; try done. by eapply elements_fuel.
Qed.

Section container.
Context {B : Type} (loop : Dec B) (l : list Z) (n : Z) (v : B).
Context (ty : CborMajorType) (Hty : ty = Array \/ ty = Map) (Hn : 0 <= n).
Context (Hloop : loops (stopState ty) loop l n v).
Context (r : t) (h rest : list Z) (key : option Z).

(** The loop over the elements, then the end of the container. *)
Definition reads_elements (len : option Z) (total : Z) : Prop :=
  exists e, loop (enter r ty len (zlen h) key) = (Ok v, e) /\ call (readEnd ty) e = (Ok tt, consume r total 1).

Lemma elements_inside len tail : ready r (h ++ l ++ tail) -> 1 <= zlen h ->
  container_ok ty len -> match len with Some m => n <= m | None => True end ->
  before (enter r ty len (zlen h) key) n (l ++ tail).
Proof.
  intros Hr Hh Hc Hlen. destruct (enter_state r h _ ty len key Hr Hh Hc) as (Hw & Hf & Hrem).
  split; [done..| |done|].
  - by destruct Hty as [-> | ->].
  - unfold room. cbn. by destruct len.
Qed.

Lemma loop_definite : ready r (h ++ l ++ rest) -> 1 <= zlen h -> reads_elements (Some n) (zlen (h ++ l)).
Proof.
  intros Hr Hh.
  assert (Hs : peekStateCore (inside r h l ty (Some n) key n) = Ok (stopState ty)).
  { rewrite (peekStateCore_definite _ ty n) by done. by destruct Hty as [-> | ->]. }
  eexists. split.
  - eapply Hloop; [|exact Hs]. apply elements_inside; [exact Hr|done| |lia]. destruct Hty as [-> | ->]; cbn; nia.
  - apply call_ok. rewrite zlen_app. replace (zlen h + zlen l) with (zlen h + zlen l + 0) by lia.
    rewrite <- (leave_inside r h l ty (Some n) key n 0), (leave_cached _ (stopState ty)).
    destruct Hty as [-> | ->]; cbn [readEnd].
    + by apply (readEndArray_definite _ _ _ n).
    + by apply (readEndMap_definite _ _ _ n).
Qed.

Lemma loop_break : ready r (h ++ l ++ 255 :: rest) -> 1 <= zlen h -> (ty = Map -> n mod 2 = 0) ->
  reads_elements None (zlen h + zlen l + 1).
Proof.
  intros Hr Hh Hmod.
  assert (Hc : container_ok ty None) by by destruct Hty as [-> | ->].
  pose proof (elements_inside None (255 :: rest) Hr Hh Hc I) as Hb.
  assert (Hb' : before (inside r h l ty None key n) 0 (255 :: rest)).
  { apply before_consume; [by rewrite Z.add_0_r|lia|lia]. }
  assert (Hs : peekStateCore (inside r h l ty None key n) = Ok (stopState ty)).
  { rewrite (peekStateCore_break _ rest (before_wf _ _ _ Hb') (before_rest _ _ _ Hb')) by done.
    destruct Hty as [-> | ->]; [done|]. unfold breakState, inside, consume, enter. cbn [currentFrame bump definiteLength type itemsRead].
    by rewrite Z.add_0_l, (Hmod eq_refl). }
  eexists. split.
  - by eapply Hloop.
  - apply call_ok. rewrite <- (leave_inside r h l ty None key n 1), (leave_cached _ (stopState ty)).
    set (x := set_cachedState _ _). assert (Hw : wf x).
    { eapply step_wf; [by apply step_peek|apply (before_wf _ _ _ Hb')]. }
    destruct Hty as [-> | ->]; cbn [readEnd].
    + by apply (readEndArray_break x _ _ rest Hw (before_rest _ _ _ Hb')).
    + apply (readEndMap_break x _ _ rest Hw (before_rest _ _ _ Hb')); try done. by apply Hmod.
Qed.
End container.

Section elements.
Context {A : Type} (k : Z) (body : Dec A) (encs : list (list Z)) (vs : list A).
Context (ty : CborMajorType) (Hty : ty = Array \/ ty = Map) (Hk : 1 <= k).
Context (Hel : elements k body encs vs).
Context (r : t) (h rest : list Z) (key : option Z).

#[local] Abbreviation reads_them := (reads_elements (readWhileNot (stopState ty) body) vs ty r h key).

Lemma elements_definite : ready r (h ++ concat encs ++ rest) -> 1 <= zlen h ->
  reads_them (Some (k * zlen encs)) (zlen (h ++ concat encs)).
Proof.
  pose proof (zlen_nonneg encs). apply loop_definite; [done|nia|]. apply whileNot_loops; [done|by destruct Hty as [-> | ->]|done].
Qed.

Lemma elements_break : ready r (h ++ concat encs ++ 255 :: rest) -> 1 <= zlen h -> (ty = Map -> k mod 2 = 0) ->
  reads_them None (zlen h + zlen (concat encs) + 1).
Proof.
  intros Hr Hh Hev. pose proof (zlen_nonneg encs).
  apply (loop_break _ _ (k * zlen encs) _ _ Hty ltac:(nia)) with (rest := rest); [|done|done|].
  - apply whileNot_loops; [done|by destruct Hty as [-> | ->]|done].
  - intros Hm. by rewrite Z.mul_mod, (Hev Hm), Z.mul_0_l, Z.mod_0_l by lia.
Qed.
End elements.

(** ** Loops end *)

Section loop.
Context {A : Type} (stop : CborReaderState.t) (body : Dec A) (r0 : t).
Context (Hbody : forall r, rtc step r0 r -> wf r -> runs r body (fun _ r' => offset r < offset r')).

Lemma whileNot_runs fuel r : wf r -> rtc step r0 r -> zlen (data r) - offset r < Z.of_nat fuel ->
  runs r (whileNot fuel stop body) (fun _ _ => True).
Proof.
  revert r. induction fuel as [|fuel IH]; intros r Hw Hr Hf; [destruct (wf_offset r Hw); lia|]. cbn [whileNot].
  eapply (runs_bind _ _ _ (fun s r' => peekStateCore r = Ok s /\ r' = set_cachedState r s)).
  { apply runs_call. eapply runs_atomic; [by apply peekState_atomic|]. intros s ? [Hs ->]. split; [by constructor|done]. }
  intros s r1 Hr1 (Hs & ->). case_bool_decide as E; [by apply runs_ret|].
  assert (Hw1 : wf (set_cachedState r s)) by by eapply rtc_step_wf.
  assert (Hr01 : rtc step r0 (set_cachedState r s)) by by etrans.
  eapply runs_bind; [by apply Hbody|]. cbv beta. intros v r2 Hr2 Ho.
  assert (Hw2 : wf r2) by by eapply rtc_step_wf. pose proof (rtc_step_data _ _ Hr2) as Hd. cbn in Hd, Ho.
  eapply runs_bind; [apply IH; [done|by etrans|rewrite Hd; lia]|]. intros. by apply runs_ret.
Qed.

Lemma readWhileNot_runs : wf r0 -> runs r0 (readWhileNot stop body) (fun _ _ => True).
Proof.
  intros Hw. apply whileNot_runs; [done..|]. destruct (wf_offset _ Hw). unfold zlen in *. lia.
Qed.
End loop.

(** A nested decoder is given at most the bytes that are left. *)
Lemma readNested_runs {A} (f : string -> Res A) r : wf r ->
  (forall h, bytes (Buffer_from_hex h) -> zlen (Buffer_from_hex h) <= zlen (data r) - offset r -> f h <> OutOfFuel) ->
  runs r (readNested f) (fun _ r' => offset r < offset r').
Proof.
  intros Hw Hf. unfold readNested. eapply runs_bind; [by apply runs_call, readEncodedValue_runs|].
  intros v r' Hr' [-> Ho]. pose proof (rtc_step_wf _ _ Hr' Hw) as Hw'. pose proof (rtc_step_data _ _ Hr') as Hd.
  assert (Hb : bytes (slice (data r) (offset r) (offset r'))) by (apply bytes_slice, (wf_bytes r Hw)).
  specialize (Hf (HexBlob_fromBytes (slice (data r) (offset r) (offset r')))).
  unfold HexBlob_fromBytes in *. rewrite Buffer_hex_roundtrip in Hf by done.
  destruct (wf_offset r Hw). destruct (wf_offset r' Hw') as [_ Hle]. rewrite Hd in Hle.
  specialize (Hf Hb ltac:(rewrite zlen_slice; lia)).
  exists (f (Buffer_to_hex (slice (data r) (offset r) (offset r')))), r'. by split_and!.
Qed.

(** A decoder started on a blob of acceptable size. *)
Lemma decode_runs {A} (m : Dec A) P cbor : zlen (Buffer_from_hex cbor) < 2 ^ 53 ->
  (wf (new cbor) -> runs (new cbor) m P) -> decode m cbor <> OutOfFuel.
Proof.
  intros Hz Hm. destruct Hm as (o & r' & E & Ho & _); [by apply of_bytes_wf; [apply Buffer_from_hex_bytes|]|].
  unfold decode. by rewrite E.
Qed.

(** What a decoder that succeeds has returned. *)
Lemma decode_post {A} (m : Dec A) P cbor v : zlen (Buffer_from_hex cbor) < 2 ^ 53 ->
  (wf (new cbor) -> runs (new cbor) m P) -> decode m cbor = Ok v -> exists r, P v r.
Proof.
  intros Hz Hm Hv. destruct Hm as (o & r' & E & _ & _ & HP); [by apply of_bytes_wf; [apply Buffer_from_hex_bytes|]|].
  unfold decode in Hv. rewrite E in Hv. cbn in Hv. eauto.
Qed.

(** ** Encoders *)

Definition emits (m : Enc unit) (l : list Z) : Prop :=
  forall w, m w = (Ok tt, {| CborWriter.buffer := CborWriter.buffer w ++ l |}).

Lemma emits_call m l : appends m l -> emits (call m) l.
Proof. intros Hm w. by apply call_ok, Hm. Qed.

Lemma emits_bind m k l1 l2 : emits m l1 -> emits k l2 -> emits (m ;; k) (l1 ++ l2).
Proof. intros Hm Hk w. unfold mbind, ST_bind. rewrite Hm, Hk. cbn. by rewrite app_assoc. Qed.

Lemma emits_ret : emits (mret tt) [].
Proof. intros [b]. unfold mret, ST_ret. cbn. by rewrite app_nil_r. Qed.

Lemma emits_lift {A} (o : Res A) (k : A -> Enc unit) v l : o = Ok v -> emits (k v) l -> emits (x ← st_lift o; k x) l.
Proof. intros -> Hk. exact Hk. Qed.

Lemma emits_forEach {A} (f : A -> Enc unit) xs encs : Forall2 (fun x l => emits (f x) l) xs encs ->
  emits (forEach f xs) (concat encs).
Proof. induction 1 as [|x l xs encs Hx _ IH]; cbn; [apply emits_ret|by apply emits_bind]. Qed.

Lemma encode_emits m l : emits m l -> encode m = Ok (Buffer_to_hex l).
Proof. intros Hm. unfold encode. by rewrite Hm. Qed.

Lemma encodeBytes_emits m l : emits m l -> encodeBytes m = Ok l.
Proof. intros Hm. unfold encodeBytes. by rewrite Hm. Qed.

(** ** Strings in chunks *)

(** The encoded chunks [l] of the string [s]. *)
Inductive chunked (ty : CborMajorType) : list Z -> list Z -> Prop :=
  | chunked_nil : chunked ty [] []
  | chunked_cons s h l s' : is_head ty (zlen s) h -> chunked ty l s' -> chunked ty (h ++ s ++ l) (s ++ s').

Lemma chunked_chunks ty l s : chunked ty l s -> chunks ty l.
Proof. induction 1; by constructor. Qed.

Lemma peekNext_head ty v h rest : is_string ty -> is_head ty v h ->
  peekNextInitialByte (h ++ rest) ty = Ok (byte_at (h ++ rest) 0) /\ byte_at (h ++ rest) 0 <> 255.
Proof.
  intros Hty Hh. destruct (is_head_first _ _ _ Hh) as (i & l & -> & Hi). cbn [app]. rewrite byte_at_first.
  assert (Hm : majorType_num ty = 2 \/ majorType_num ty = 3) by (destruct Hty as [-> | ->]; auto).
  split; [|lia]. unfold peekNextInitialByte. rewrite capacity_ok by (zlen_simpl; pose proof (zlen_nonneg l); pose proof (zlen_nonneg rest); lia).
  cbn [mbind outcome_bind]. cbv zeta. rewrite byte_at_first. unfold CborInitialByte.from, CborInitialByte.getInitialByte.
  rewrite getMajorType_make by lia. by rewrite Z.eqb_refl, andb_false_r.
Qed.

Lemma concatChunks_exact ty l s : is_string ty -> chunked ty l s -> forall fuel pre rest acc,
  zlen (pre ++ l ++ 255 :: rest) < 2 ^ 53 -> (length l <= fuel)%nat ->
  concatChunks fuel ty (pre ++ l ++ 255 :: rest) acc (zlen pre) = Ok (acc ++ s, zlen pre + zlen l + 1).
Proof.
  intros Hty. induction 1 as [|s h l s' Hh _ IH]; intros fuel pre rest acc Hz Hf.
  - assert (E : peekNextInitialByte (255 :: rest) ty = Ok 255).
    { unfold peekNextInitialByte. rewrite capacity_ok by (zlen_simpl; pose proof (zlen_nonneg rest); lia).
      cbn [mbind outcome_bind]. cbv zeta. by rewrite byte_at_first. }
    zlen_simpl. pose proof (zlen_nonneg rest). pose proof (zlen_nonneg pre).
    destruct fuel; cbn [concatChunks app]; rewrite slice_from_app, E by done; cbn [mbind outcome_bind];
      rewrite app_nil_r; unfold num_add; rewrite Number_of_exact by lia; do 2 f_equal; lia.
  - pose proof (is_head_length _ _ _ Hh). pose proof (is_head_arg _ _ _ Hh).
    pose proof (zlen_nonneg pre). pose proof (zlen_nonneg l). pose proof (zlen_nonneg rest). pose proof (zlen_nonneg s).
    destruct fuel as [|fuel]; [unfold zlen in *; rewrite length_app in Hf; lia|].
    rewrite <- !app_assoc in *. zlen_simpl. set (tail := s ++ l ++ 255 :: rest) in *.
    destruct (peekNext_head ty _ h tail Hty Hh) as [E Hne].
    cbn [concatChunks]. rewrite slice_from_app by done. rewrite E. cbn [mbind outcome_bind].
    unfold CborInitialByte.getInitialByte. rewrite (proj2 (Z.eqb_neq _ _)) by done.
    rewrite (peekDefiniteLength_head _ _ (zlen s) (zlen h)) by first [by eapply decode_head | zlen_simpl; lia].
    cbn [mbind outcome_bind]. unfold num_add, num_sub. cbv zeta.
    rewrite (Number_of_exact (zlen h + zlen s)) by lia.
    rewrite (Number_of_exact (zlen h + zlen s - zlen s)) by lia.
    rewrite !Number_of_exact by lia.
    assert (Es : slice (pre ++ h ++ tail) (zlen pre + (zlen h + zlen s - zlen s)) (zlen pre + (zlen h + zlen s)) = s).
    { subst tail. rewrite app_assoc. rewrite (slice_app (pre ++ h) s); [done|rewrite zlen_app; lia..]. }
    rewrite Es. specialize (IH fuel (pre ++ h ++ s) rest (acc ++ s)). zlen_simpl.
    rewrite <- !app_assoc in IH. unfold tail. rewrite IH.
    + do 2 f_equal. lia.
    + lia.
    + unfold zlen in *. rewrite !length_app in Hf. lia.
Qed.

Lemma readString_chunked ty l s r rest : is_string ty -> chunked ty l s ->
  ready r ((majorType_num ty * 32 + 31) :: l ++ 255 :: rest) ->
  readString ty r = (Ok s, consume r (zlen l + 2) 1).
Proof.
  intros Hty Hl Hr. pose proof (majorType_num_bound ty) as Hb.
  assert (Hm : CborInitialByte.getMajorType (majorType_num ty * 32 + 31) = majorType_num ty) by (apply getMajorType_make; lia).
  unfold readString.
  rewrite (st_bind_ok _ _ _ _ _ (ready_byte _ _ _ _ Hr Hm (Some ty) eq_refl)).
  rewrite getAdditionalInfo_make by lia. cbn [Z.eqb CborAdditionalInfo.IndefiniteLength Pos.eqb].
  unfold readIndefiniteLengthByteStringConcatenated. rewrite (st_bind_ok _ _ _ (s, zlen l + 2) r).
  - replace (zlen l + 2) with (zlen ((majorType_num ty * 32 + 31) :: l ++ [255])) by (zlen_simpl; lia).
    eapply (consume_exact r ((majorType_num ty * 32 + 31) :: l ++ [255]) rest);
      [apply (ready_wf _ _ Hr)|rewrite (ready_rest _ _ Hr); cbn; by rewrite <- app_assoc|done].
  - rewrite st_get_ok. unfold st_lift. cbv zeta. rewrite (ready_rest _ _ Hr).
    pose proof (concatChunks_exact ty l s Hty Hl (length ((majorType_num ty * 32 + 31) :: l ++ 255 :: rest))
      [majorType_num ty * 32 + 31] rest []) as E.
    cbn [app] in E. change (zlen [majorType_num ty * 32 + 31]) with 1 in E. rewrite E.
    + do 3 f_equal. lia.
    + pose proof (zlen_remaining r (ready_wf _ _ Hr)) as Hz. rewrite (ready_rest _ _ Hr) in Hz.
      pose proof (wf_size r (ready_wf _ _ Hr)). destruct (wf_offset r (ready_wf _ _ Hr)). zlen_simpl. lia.
    + cbn [length]. rewrite !length_app. lia.
Qed.

(** ** Combinators of the decoders *)

Lemma reads_peek {A} s (k : CborReaderState.t -> Dec A) l v :
  (forall r rest, ready r (l ++ rest) -> peekStateCore r = Ok s) -> reads (k s) l v ->
  reads (x ← call peekState; k x) l v.
Proof.
  intros Hs Hk r rest Hr Hp H1. pose proof (Hs _ _ Hr) as Es.
  rewrite (st_bind_ok _ _ _ _ _ (call_ok _ _ _ _ (peekState_ok r s (ready_wf _ _ Hr) Es))).
  by rewrite (Hk (set_cachedState r s) rest (ready_cached _ _ _ Hr Es) Hp H1).
Qed.

Lemma peekTag_exact r v h rest : is_head Tag v h -> v < 2 ^ 53 -> ready r (h ++ rest) -> peekTag r = (Ok v, r).
Proof.
  intros Hh Hv Hr. destruct (ready_head _ _ _ _ _ Hh Hr) as (b & Hpk & Hmt & Hai & Hdec).
  pose proof (is_head_arg _ _ _ Hh).
  unfold peekTag, peekTagCore, mbind, ST_bind. rewrite (Hpk (Some Tag) eq_refl).
  unfold st_get, st_lift. rewrite Hdec. unfold mret, ST_ret. by rewrite Number_of_exact by lia.
Qed.

Lemma reads_peekTag {A} v h (k : Z -> Dec A) l x : is_head Tag v h -> v < 2 ^ 53 ->
  reads (k v) (h ++ l) x -> reads (t ← call peekTag; k t) (h ++ l) x.
Proof.
  intros Hh Hv Hk r rest Hr Hp H1. pose proof Hr as Hr'. rewrite <- app_assoc in Hr'.
  rewrite (st_bind_ok _ _ _ _ _ (call_ok _ _ _ _ (peekTag_exact r v h _ Hh Hv Hr'))). by apply (Hk r rest).
Qed.

Lemma reads_tag {A} v h (k : Z -> Dec A) l x : is_head Tag v h -> v < 2 ^ 53 ->
  reads (k v) l x -> reads (t ← call readTag; k t) (h ++ l) x.
Proof.
  intros Hh Hv Hk r rest Hr Hp H1. rewrite <- app_assoc in Hr. pose proof (is_head_arg _ _ _ Hh).
  pose proof (readTag_exact r v h _ Hh Hr) as E. rewrite Number_of_exact in E by lia.
  rewrite (st_bind_ok _ _ _ _ _ (call_ok _ _ _ _ E)).
  rewrite (Hk (tagged r (zlen h)) rest (tagged_ready _ _ _ _ Hh Hr Hp) Hp H1).
  unfold consume, tagged. cbn. by rewrite zlen_app, Z.add_assoc.
Qed.

Lemma tag_state v h l r rest : is_head Tag v h -> ready r ((h ++ l) ++ rest) -> peekStateCore r = Ok CborReaderState.Tag.
Proof. intros Hh Hr. rewrite <- app_assoc in Hr. by rewrite (peekStateCore_head r Tag _ _ _ ltac:(done) Hh Hr). Qed.

(** One step inside a container. *)
Lemma before_reads {A} (m : Dec A) r k l v rest : before r (1 + k) (l ++ rest) -> 0 <= k -> reads m l v ->
  m r = (Ok v, consume r (zlen l) 1) /\ before (consume r (zlen l) 1) k rest.
Proof.
  intros Hb Hk Hm. split; [|apply before_consume; [done|lia..]].
  pose proof (before_ready _ _ _ Hb ltac:(lia)) as Hr.
  by apply (Hm r rest Hr (before_plain _ _ _ Hb)), (ready_room_1 r (l ++ rest)).
Qed.

(** A pair in an array of two elements. *)
Lemma reads_pair {A B} (m1 : Dec A) (m2 : Dec B) h l1 l2 x y : is_head Array 2 h -> reads m1 l1 x -> reads m2 l2 y ->
  reads (call readStartArray ;; a ← m1; b ← m2; call readEndArray ;; mret (a, b)) (h ++ l1 ++ l2) (x, y).
Proof.
  intros Hh H1 H2 r rest Hr Hp _. pose proof (is_head_length _ _ _ Hh). rewrite <- !app_assoc in Hr.
  rewrite (st_bind_ok _ _ _ _ _ (call_ok _ _ _ _ (readStartArray_exact r 2 h _ ltac:(lia) Hh Hr))).
  set (e := enter r Array (Some 2) (zlen h) None).
  destruct (enter_state r h _ Array (Some 2) None Hr ltac:(lia) ltac:(cbn; lia)) as (Hw & Hf & Hrem).
  assert (Hb : before e (1 + (1 + 0)) (l1 ++ l2 ++ rest)) by (split; [done..|cbn; lia]).
  destruct (before_reads m1 e _ l1 x _ Hb ltac:(lia) H1) as [E1 Hb1].
  destruct (before_reads m2 _ _ l2 y _ Hb1 ltac:(lia) H2) as [E2 Hb2].
  rewrite (st_bind_ok _ _ _ _ _ E1), (st_bind_ok _ _ _ _ _ E2), consume_consume.
  assert (E3 : readEndArray (consume e (zlen l1 + zlen l2) (1 + 1)) = (Ok tt, consume r (zlen (h ++ l1 ++ l2)) 1)).
  { rewrite (readEndArray_definite _ (currentFrame r) (nestedItems r) 2) by done.
    unfold leave, e, consume, enter. cbn. rewrite !zlen_app. do 2 f_equal. lia. }
  by rewrite (st_bind_ok _ _ _ _ _ (call_ok _ _ _ _ E3)).
Qed.

Lemma reads_uint a : 0 <= a < 2 ^ 64 -> reads (call readInt) (CborWriter.head UnsignedInteger a) a.
Proof.
  intros Ha. apply reads_call. intros r rest Hr _.
  by eapply (readInt_exact r UnsignedInteger); [by left|apply writer_head|].
Qed.

Lemma concat_items encs : Forall item encs -> items (zlen encs) (concat encs).
Proof. induction 1; [constructor|]. rewrite zlen_cons. by apply items_cons. Qed.

Lemma concat_bytes (encs : list (list Z)) : Forall bytes encs -> bytes (concat encs).
Proof. induction 1; [constructor|]. by apply Forall_app. Qed.

Lemma appends_break : appends CborWriter.writeEndArray [255].
Proof. by apply (appends_push 1 255). Qed.

(** Two decoders in sequence. *)
Lemma readsN_bind {A B} j k (m : Dec A) (f : A -> Dec B) l1 l2 x y : 1 <= j -> 1 <= k ->
  readsN j m l1 x -> readsN k (f x) l2 y -> readsN (j + k) (m ≫= f) (l1 ++ l2) y.
Proof.
  intros Hj Hk Hm Hf r rest Hr Hp Hroom. rewrite <- app_assoc in Hr.
  assert (Hroom1 : room (currentFrame r) j) by (unfold room in *; destruct (definiteLength _); [lia|done]).
  assert (Hroom2 : room (currentFrame (consume r (zlen l1) j)) k).
  { unfold room in *. cbn. destruct (definiteLength (currentFrame r)); [lia|done]. }
  rewrite (st_bind_ok _ _ _ _ _ (Hm r _ Hr Hp Hroom1)).
  assert (Hr2 : ready (consume r (zlen l1) j) (l2 ++ rest)).
  { split; [|by eapply remaining_consume; [apply (ready_wf _ _ Hr)|apply (ready_rest _ _ Hr)]|eapply room_ready; [exact Hroom2|lia]|].
    - eapply wf_consume; [apply (ready_wf _ _ Hr)|apply (ready_rest _ _ Hr)|lia|done].
    - by apply plain_admits. }
  rewrite (Hf _ _ Hr2 Hp Hroom2), consume_consume. by rewrite zlen_app.
Qed.

(** Integers of 64 bits, of either sign. *)
Definition intBytes (z : Z) : list Z :=
  if z <? 0 then CborWriter.head NegativeInteger (- (z + 1)) else CborWriter.head UnsignedInteger z.

Section integer.
Context (z : Z) (Hz : - 2 ^ 64 <= z < 2 ^ 64).

Lemma intBytes_head : exists t v, (t = UnsignedInteger \/ t = NegativeInteger) /\ 0 <= v < 2 ^ 64 /\
  int_value t v = z /\ intBytes z = CborWriter.head t v /\ CborWriter.writeInt z = CborWriter.writeTypeValue t v.
Proof.
  unfold intBytes, CborWriter.writeInt. destruct (Z.ltb_spec z 0).
  - exists NegativeInteger, (- (z + 1)). split_and!; [by right|lia|lia|cbn; lia|done|done].
  - exists UnsignedInteger, z. split_and!; [by left|lia|lia|cbn; lia|done|done].
Qed.

Lemma intBytes_item : item (intBytes z).
Proof. destruct intBytes_head as (t & v & Ht & Hv & _ & -> & _). eapply item_int; [done|by apply writer_head]. Qed.

Lemma intBytes_bytes : bytes (intBytes z).
Proof. destruct intBytes_head as (t & v & _ & Hv & _ & -> & _). apply head_bytes. lia. Qed.

Lemma intBytes_emits : emits (call (CborWriter.writeInt z)) (intBytes z).
Proof. destruct intBytes_head as (t & v & _ & Hv & _ & -> & ->). apply emits_call. by apply writeTypeValue_head. Qed.

Lemma intBytes_reads : reads (call readInt) (intBytes z) z.
Proof.
  destruct intBytes_head as (t & v & Ht & Hv & Ez & -> & _). rewrite <- Ez. apply reads_call. intros r rest Hr _.
  eapply readInt_exact; [done|by apply writer_head|done].
Qed.
End integer.

(** An array of definite length, element by element. *)
Lemma reads_array_definite {A} (body : Dec A) encs vs : zlen encs < 2 ^ 53 -> elements 1 body encs vs ->
  reads (call readStartArray ;; list ← readWhileNot CborReaderState.EndArray body; call readEndArray ;; mret list)
    (CborWriter.head Array (zlen encs) ++ concat encs) vs.
Proof.
  intros Hz Hel r rest Hr Hp _. rewrite <- app_assoc in Hr. pose proof (zlen_nonneg encs).
  pose proof (writer_head Array (zlen encs) ltac:(lia)) as Hh. pose proof (is_head_length _ _ _ Hh).
  rewrite (st_bind_ok _ _ _ _ _ (call_ok _ _ _ _ (readStartArray_exact r _ _ _ Hz Hh Hr))).
  destruct (elements_definite 1 body encs vs Array (or_introl eq_refl) ltac:(lia) Hel r _ rest None Hr ltac:(lia)) as (x & E1 & E2).
  rewrite Z.mul_1_l in E1. etrans; [apply (st_bind_ok _ _ _ _ _ E1)|]. by rewrite (st_bind_ok _ _ _ _ _ E2).
Qed.

(** ** Steps of a decoder that end *)

Lemma enter_runs {A} (m : M A) ty r : enters ty m -> wf r -> runs r (call m) (fun _ r' => offset r < offset r').
Proof.
  intros Hm Hw. apply runs_call. eapply runs_atomic; [by apply Hm|].
  intros v r' (len & n & key & (? & Hn & ?) & ? & ->). split; [by constructor|cbn; lia].
Qed.

Lemma leave_runs {A} (m : M A) r : leaves m -> wf r -> runs r (call m) (fun _ _ => True).
Proof.
  intros Hm Hw. apply runs_call. eapply runs_atomic; [by apply Hm|].
  intros v r' (? & ? & ? & ? & ? & ? & ->). split; [by apply step_leave|done].
Qed.

Lemma item_runs {A} (m : M A) r : reads_item m -> wf r -> runs r (call m) (fun _ r' => offset r < offset r').
Proof.
  intros Hm Hw. apply runs_call. eapply runs_atomic; [by apply Hm|].
  intros v r' (n & (? & Hn & ?) & ->). split; [by constructor|cbn; lia].
Qed.

Lemma nested_runs {A} (f : string -> Res A) r0 r : wf r0 -> 0 < offset r0 -> rtc step r0 r ->
  (forall h, bytes (Buffer_from_hex h) -> zlen (Buffer_from_hex h) < zlen (data r0) -> f h <> OutOfFuel) ->
  runs r (readNested f) (fun _ r' => offset r < offset r').
Proof.
  intros Hw Ho Hr Hf. pose proof (rtc_step_offset _ _ Hr Hw). pose proof (rtc_step_data _ _ Hr) as Hd.
  apply readNested_runs; [by eapply rtc_step_wf|]. intros h Hb Hz. apply Hf; [done|]. rewrite Hd in Hz. lia.
Qed.

(** The reader after the head of a container or a tag. *)
Lemma after_first {A B} (m : Dec A) (k : A -> Dec B) cbor :
  (forall r, wf r -> runs r m (fun _ r' => offset r < offset r')) ->
  (forall v r, wf r -> 0 < offset r -> data r = Buffer_from_hex cbor -> runs r (k v) (fun _ _ => True)) ->
  zlen (Buffer_from_hex cbor) < 2 ^ 53 -> decode (m ≫= k) cbor <> OutOfFuel.
Proof.
  intros Hm Hk Hz. eapply (decode_runs _ (fun _ _ => True)); [done|]. intros Hw. eapply runs_bind; [by apply Hm|].
  intros v r Hr Ho. cbn in Ho. apply Hk; [by eapply rtc_step_wf|lia|]. by rewrite (rtc_step_data _ _ Hr).
Qed.

Lemma readTag_runs r : wf r -> runs r (call readTag) (fun _ r' => offset r < offset r').
Proof.
  intros Hw. apply runs_call. eapply runs_atomic; [by apply readTag_atomic|].
  intros v r' (n & (? & Hn & ?) & ->). split; [by constructor|cbn; lia].
Qed.

Lemma peekState_runs r : wf r -> runs r (call peekState) (fun s r' => r' = set_cachedState r s).
Proof.
  intros Hw. apply runs_call. eapply runs_atomic; [by apply peekState_atomic|]. intros s ? [Hs ->]. split; [by constructor|done].
Qed.

Lemma peekTag_runs r : wf r -> runs r (call peekTag) (fun _ r' => r' = r).
Proof.
  intros Hw. apply runs_call. unfold peekTag. destruct (peekTagCore_atomic r Hw) as [[e E]|([v n] & ? & E & -> & _)].
  - exists (Throw e), r. unfold mbind, ST_bind. rewrite E. by split_and!.
  - exists (Ok v), r. unfold mbind, ST_bind. rewrite E. by split_and!.
Qed.

(** ** Records: arrays of a fixed number of fields *)

Section record.
Context {A : Type} (n : Z) (k : option Z -> Dec A) (m : Dec A) (l : list Z) (v : A).
Context (Hn : 1 <= n < 2 ^ 53).

Lemma record_inside r rest : ready r (CborWriter.head Array n ++ l ++ rest) ->
  readStartArray r = (Ok (Some n), enter r Array (Some n) (zlen (CborWriter.head Array n)) None) /\
  before (enter r Array (Some n) (zlen (CborWriter.head Array n)) None) n (l ++ rest).
Proof.
  intros Hr. pose proof (writer_head Array n ltac:(lia)) as Hh. pose proof (is_head_length _ _ _ Hh).
  destruct (enter_state r _ _ Array (Some n) None Hr ltac:(lia) ltac:(cbn; lia)) as (Hw & Hf & Hrem).
  split; [eapply readStartArray_exact; [lia|done..]|]. split; [done..|cbn; lia].
Qed.

(** The fields are all read, then the end of the array. *)
Lemma reads_record : readsN n m l v -> (forall r, k (Some n) r = (x ← m; call readEndArray ;; mret x) r) ->
  reads (len ← call readStartArray; k len) (CborWriter.head Array n ++ l) v.
Proof.
  intros Hm Hk r rest Hr Hp _. rewrite <- app_assoc in Hr. destruct (record_inside r rest Hr) as [E1 Hb].
  rewrite (st_bind_ok _ _ _ _ _ (call_ok _ _ _ _ E1)), Hk. set (e := enter _ _ _ _ _) in *.
  rewrite (st_bind_ok _ _ _ _ _ (Hm e rest (before_ready _ _ _ Hb ltac:(lia)) (before_plain _ _ _ Hb) (before_room _ _ _ Hb))).
  assert (E3 : readEndArray (consume e (zlen l) n) = (Ok tt, consume r (zlen (CborWriter.head Array n ++ l)) 1)).
  { rewrite (readEndArray_definite _ (currentFrame r) (nestedItems r) n) by (done || cbn; lia).
    unfold leave, e, consume, enter. cbn. rewrite zlen_app. do 2 f_equal. lia. }
  by rewrite (st_bind_ok _ _ _ _ _ (call_ok _ _ _ _ E3)).
Qed.

(** A decoder that stops after [j] of the fields. *)
Lemma decode_record j rest : readsN j m l v -> 1 <= j <= n -> (forall r, k (Some n) r = m r) ->
  bytes (l ++ rest) -> zlen (CborWriter.head Array n ++ l ++ rest) < 2 ^ 53 ->
  decode (len ← call readStartArray; k len) (Buffer_to_hex (CborWriter.head Array n ++ l ++ rest)) = Ok v.
Proof.
  intros Hm Hj Hk Hb Hz. assert (Hb' : bytes (CborWriter.head Array n ++ l ++ rest)) by (apply Forall_app; split; [apply head_bytes; lia|done]).
  unfold decode, new. rewrite Buffer_hex_roundtrip by done.
  destruct (record_inside _ rest (fresh_ready _ Hb' Hz)) as [E1 Hbf].
  rewrite (st_bind_ok _ _ _ _ _ (call_ok _ _ _ _ E1)), Hk. erewrite Hm; [done|..].
  - eapply before_ready; [exact Hbf|lia].
  - apply (before_plain _ _ _ Hbf).
  - pose proof (before_room _ _ _ Hbf) as Hroom. unfold room in *. destruct (definiteLength _); [lia|done].
Qed.
End record.

(** The head of a record decoder, on any input. *)
Lemma record_ends {A} (k : option Z -> Dec A) cbor :
  (forall n r, wf r -> 0 < offset r -> data r = Buffer_from_hex cbor -> runs r (k n) (fun _ _ => True)) ->
  zlen (Buffer_from_hex cbor) < 2 ^ 53 -> decode (len ← call readStartArray; k len) cbor <> OutOfFuel.
Proof. intros Hk Hz. apply after_first; [|done..]. intros r Hw. by eapply enter_runs; [apply readStartArray_enters|]. Qed.

Lemma record_item n l : 0 <= n < 2 ^ 64 -> items n l -> item (CborWriter.head Array n ++ l).
Proof. intros Hn Hl. by eapply item_array; [apply writer_head|]. Qed.

Lemma record_emits n m l : 0 <= n < 2 ^ 64 -> emits m l ->
  emits (call (CborWriter.writeStartArray (Some n)) ;; m) (CborWriter.head Array n ++ l).
Proof. intros Hn Hm. by apply emits_bind; [apply emits_call, writeTypeValue_head|]. Qed.

(** A map of definite length, entry by entry. *)
Lemma reads_map_definite {A} (body : Dec A) encs vs : 2 * zlen encs <= zlen (concat encs) -> zlen encs < 2 ^ 64 ->
  elements 2 body encs vs ->
  reads (call readStartMap ;; list ← readWhileNot CborReaderState.EndMap body; call readEndMap ;; mret list)
    (CborWriter.head Map (zlen encs) ++ concat encs) vs.
Proof.
  intros Hc Hz Hel r rest Hr Hp _. rewrite <- app_assoc in Hr. pose proof (zlen_nonneg encs).
  pose proof (writer_head Map (zlen encs) ltac:(lia)) as Hh. pose proof (is_head_length _ _ _ Hh).
  assert (Hfit : 2 * zlen encs <= zlen (concat encs ++ rest)) by (rewrite zlen_app; pose proof (zlen_nonneg rest); lia).
  rewrite (st_bind_ok _ _ _ _ _ (call_ok _ _ _ _ (readStartMap_exact r _ _ _ Hfit Hh Hr))).
  destruct (elements_definite 2 body encs vs Map (or_intror eq_refl) ltac:(lia) Hel r _ rest
    (Some (offset r + zlen (CborWriter.head Map (zlen encs)))) Hr ltac:(lia)) as (x & E1 & E2).
  etrans; [apply (st_bind_ok _ _ _ _ _ E1)|]. by rewrite (st_bind_ok _ _ _ _ _ E2).
Qed.

(** Byte strings of definite length. *)
Definition stringBytes (l : list Z) : list Z := CborWriter.head ByteString (zlen l) ++ l.

Section byteString.
Context (l : list Z) (Hb : bytes l) (Hz : zlen l < 2 ^ 64).

Lemma stringBytes_item : item (stringBytes l).
Proof. pose proof (zlen_nonneg l). eapply item_string; [by left|apply writer_head; lia]. Qed.

Lemma stringBytes_bytes : bytes (stringBytes l).
Proof. by apply string_bytes. Qed.

Lemma stringBytes_emits : emits (call (CborWriter.writeByteString l)) (stringBytes l).
Proof. by apply emits_call, string_appends. Qed.

Lemma stringBytes_reads : reads (call readByteString) (stringBytes l) l.
Proof. apply reads_call. intros r rest Hr _. by apply (string_read ByteString _ r rest). Qed.
End byteString.

(** ** What a byte string read from any input can be *)

Lemma concatChunks_size fuel ty l acc i v n : bytes l -> zlen l < 2 ^ 53 -> 0 <= i ->
  concatChunks fuel ty l acc i = Ok (v, n) ->
  i < n <= zlen l /\ zlen v <= zlen acc + (n - i) /\ (bytes acc -> bytes v).
Proof.
  intros Hl Hsz. revert acc i. induction fuel as [|fuel IH]; intros acc i Hi; cbn [concatChunks];
    destruct (peekNextInitialByte_cases (slice_from l i) ty) as [[e ->]|(-> & H1 & _)]; try done;
    rewrite zlen_slice_from in H1 by done; cbn [mbind outcome_bind]; case_bool; try done;
    [intros [= <- <-]; unfold num_add; rewrite Number_of_exact by lia; split_and!; (done || lia)..|].
  destruct (peekDefiniteLength_cases (byte_at (slice_from l i) 0) (slice_from l i))
    as [[e ->]|(c & k & -> & Hc & Hk & _)]; [by auto with js|done|].
  cbn [mbind outcome_bind]. intros E. apply IH in E; [|unfold num_add; pose proof (Number_of_nonneg (k + c) ltac:(lia)); apply Number_of_nonneg; lia].
  destruct E as (Hn & Hv & Hbv).
  unfold num_add, num_sub in *. assert (E2 := Number_of_small (i + Number_of (k + c)) ltac:(lia)). rewrite E2 in *.
  assert (E1 := Number_of_small (k + c) ltac:(lia)). rewrite E1 in *.
  rewrite (Number_of_exact (k + c - c)) in * by lia. rewrite (Number_of_exact (i + (k + c - c))) in * by lia.
  rewrite zlen_app, zlen_slice in Hv by lia. split_and!; [lia..|].
  intros Ha. apply Hbv, Forall_app. split; [done|by apply bytes_slice].
Qed.

Lemma readString_size ty r v r' : wf r -> readString ty r = (Ok v, r') -> bytes v /\ zlen v <= zlen (data r).
Proof.
  intros Hw. pose proof (bytes_remaining r Hw) as Hb. pose proof (zlen_remaining r Hw) as Hz. pose proof (wf_size r Hw). destruct (wf_offset r Hw).
  unfold readString, readIndefiniteLengthByteStringConcatenated, readDefiniteString, mbind, ST_bind, st_get, st_lift.
  destruct (peekInitialByte_cases (Some ty) r Hw) as [[e ->]|(-> & _)]; [done|]. case_bool.
  - cbv zeta. destruct (concatChunks _ ty (getRemainingBytes r) [] 1) as [[v0 n]|e|] eqn:E; [|done..].
    apply concatChunks_size in E as (Hn & Hv & Hbv); [|done|lia|lia]. change (zlen []) with 0 in Hv.
    destruct (advanceBuffer n r) as [[]  ?]; [|done..]. destruct (advanceDataItemCounters _) as [[] ?]; [|done..].
    intros [= <- <-]. split; [by apply Hbv, Forall_nil_2|lia].
  - destruct (peekDefiniteLength _ _) as [[c k]|e|]; [|done..]. destruct (ensureReadCapacity _ r) as [[] ?]; [|done..].
    destruct (advanceBuffer _ _) as [[]  ?]; [|done..]. destruct (advanceDataItemCounters _) as [[] ?]; [|done..].
    intros [= <- <-]. split; [by apply bytes_slice|]. pose proof (zlen_slice_le (getRemainingBytes r) k (num_add k c)). lia.
Qed.

Lemma runs_byteString r : wf r ->
  runs r (call readByteString) (fun l r' => offset r < offset r' /\ bytes l /\ zlen l < 2 ^ 53).
Proof.
  intros Hw. destruct (item_runs readByteString r (readString_item ByteString) Hw) as (o & r' & E & Ho & Hr & HP).
  exists o, r'. split_and!; [done..|]. intros l ->. split; [by apply (HP l)|]. unfold call in E.
  destruct (readByteString r) as [[v|e|] r0] eqn:E0; try done. injection E as -> ->.
  destruct (readString_size ByteString r l r' Hw E0). pose proof (wf_size r Hw). split; [done|lia].
Qed.

(** ** Programs that differ in the nesting of their binds only *)

Ltac same_program :=
  intros; unfold mbind, ST_bind, mret, ST_ret, st_lift; cbn beta iota;
  repeat first [ reflexivity
               | match goal with |- context [match ?m with (_, _) => _ end] => destruct m as [[?|?|] ?] end
               | match goal with |- context [match ?m with Ok _ => _ | Throw _ => _ | OutOfFuel => _ end] => destruct m end ].

(** [readsN] does not depend on that nesting. *)
Lemma readsN_ext {A} k (m m' : Dec A) l v : (forall r, m r = m' r) -> readsN k m' l v -> readsN k m l v.
Proof. intros E Hm r rest Hr Hp Hk. rewrite E. by apply (Hm r rest). Qed.

(** A decoder that checks what it has read. *)
Lemma readsN_guard {A} k b e (m : Dec A) l v : b = false -> readsN k m l v -> readsN k (st_guard b e ;; m) l v.
Proof. intros -> Hm. exact Hm. Qed.

Lemma readsN_lift {A B} k (o : Res A) (m : A -> Dec B) x l v : o = Ok x -> readsN k (m x) l v -> readsN k (y ← st_lift o; m y) l v.
Proof. intros -> Hm. exact Hm. Qed.

(** The last item, from which the value is made. *)
Lemma reads_last {A B} (m : Dec A) (f : A -> Dec B) l x y : reads m l x -> (forall r, f x r = (Ok y, r)) -> reads (m ≫= f) l y.
Proof. intros Hm Hf r rest Hr Hp H1. by rewrite (st_bind_ok _ _ _ _ _ (Hm r rest Hr Hp H1)), Hf. Qed.

(** ** Maps *)

Definition entryBytes (e : list Z * list Z) : list Z := e.1 ++ e.2.

Definition mapBytes (indefinite : bool) (encs : list (list Z * list Z)) : list Z :=
  if indefinite then 191 :: concat (map entryBytes encs) ++ [255]
  else CborWriter.head Map (zlen encs) ++ concat (map entryBytes encs).

Lemma entries_items encs : Forall (fun e => item e.1 /\ item e.2) encs ->
  items (2 * zlen encs) (concat (map entryBytes encs)).
Proof.
  induction 1 as [|[k v] encs [Hk Hv] _ IH]; [constructor|]. cbn [map concat entryBytes fst snd] in *.
  rewrite zlen_cons. replace (2 * (zlen encs + 1)) with (2 * zlen encs + 1 + 1) by lia. unfold entryBytes. cbn.
  rewrite <- app_assoc. apply items_cons; [done|]. by apply items_cons.
Qed.

Lemma mapBytes_item b encs : zlen encs < 2 ^ 64 -> Forall (fun e => item e.1 /\ item e.2) encs -> item (mapBytes b encs).
Proof.
  intros Hz H. pose proof (zlen_nonneg encs). destruct b; cbn [mapBytes].
  - by eapply item_map_break, entries_items.
  - eapply item_map; [by apply writer_head|by apply entries_items].
Qed.

Lemma mapBytes_bytes b encs : Forall (fun e => bytes e.1 /\ bytes e.2) encs -> bytes (mapBytes b encs).
Proof.
  intros H. assert (bytes (concat (map entryBytes encs))).
  { apply concat_bytes. apply Forall_map. eapply Forall_impl; [exact H|]. intros e [? ?]. by apply Forall_app. }
  destruct b; cbn [mapBytes]; [apply Forall_cons; split; [done|]|]; apply Forall_app; split; try done.
  - by repeat constructor.
  - apply head_bytes, zlen_nonneg.
Qed.

Lemma reads_map {A} (body : Dec A) b encs vs : zlen encs < 2 ^ 64 ->
  elements 2 body (map entryBytes encs) vs -> Forall (fun e => item e.1 /\ item e.2) encs ->
  reads (size ← call readStartMap; m ← readWhileNot CborReaderState.EndMap body; call readEndMap ;;
         mret (bool_decide (size = None), m)) (mapBytes b encs) (b, vs).
Proof.
  intros Hz Hel Hi r rest Hr Hp _. pose proof (zlen_nonneg encs). set (l := concat (map entryBytes encs)) in *.
  assert (Hzl : zlen (map entryBytes encs) = zlen encs) by (unfold zlen; by rewrite length_map).
  destruct b; unfold mapBytes in *; fold l in Hr |- *.
  - assert (Hr' : ready r ([191] ++ l ++ 255 :: rest)) by (cbn [app] in *; by rewrite <- app_assoc in Hr).
    rewrite (st_bind_ok _ _ _ _ _ (call_ok _ _ _ _ (readStartMap_indefinite r _ Hr'))).
    destruct (elements_break 2 body (map entryBytes encs) vs Map (or_intror eq_refl) ltac:(lia) Hel r [191] rest
      (Some (offset r + 1)) Hr' ltac:(done) ltac:(done)) as (x & E1 & E2).
    etrans; [apply (st_bind_ok _ _ _ _ _ E1)|]. rewrite (st_bind_ok _ _ _ _ _ E2). fold l.
    change (zlen [191]) with 1. replace (zlen (191 :: l ++ [255])) with (1 + zlen l + 1) by (zlen_simpl; lia). done.
  - rewrite <- app_assoc in Hr. pose proof (writer_head Map (zlen encs) ltac:(lia)) as Hh. pose proof (is_head_length _ _ _ Hh).
    pose proof (items_count _ _ (entries_items encs Hi)) as Hc. fold l in Hc.
    assert (Hfit : 2 * zlen encs <= zlen (l ++ rest)) by (rewrite zlen_app; pose proof (zlen_nonneg rest); lia).
    rewrite (st_bind_ok _ _ _ _ _ (call_ok _ _ _ _ (readStartMap_exact r _ _ _ Hfit Hh Hr))).
    destruct (elements_definite 2 body (map entryBytes encs) vs Map (or_intror eq_refl) ltac:(lia) Hel r _ rest
      (Some (offset r + zlen (CborWriter.head Map (zlen encs)))) Hr ltac:(lia)) as (x & E1 & E2).
    rewrite Hzl in E1. etrans; [apply (st_bind_ok _ _ _ _ _ E1)|]. by rewrite (st_bind_ok _ _ _ _ _ E2).
Qed.

(** The loop over a map of definite length, with its end. *)
Lemma readMapOf_reads {A} (body : Dec A) encs vs : zlen encs < 2 ^ 64 ->
  elements 2 body (map entryBytes encs) vs -> Forall (fun e => item e.1 /\ item e.2) encs ->
  reads (readMapOf body) (mapBytes false encs) vs.
Proof.
  intros Hz Hel Hi. pose proof (reads_fmap 1 _ snd _ _ (reads_map body false encs vs Hz Hel Hi)) as H.
  eapply readsN_ext; [|exact H]. intros r. unfold readMapOf. same_program.
Qed.
