(* ===== verification/PlutusData.v ===== *)
(** * Plutus data

    Models [packages/core/src/Serialization/PlutusData]: the classes
    [PlutusData], [PlutusList], [PlutusMap] and [ConstrPlutusData], their
    conversion to and from CBOR and to and from the core types of
    [packages/core/src/Cardano/types/PlutusData.ts].

    An instance keeps one of five payloads; the private field [#kind] always
    says which one is set, so the class is an inductive type.  Every
    constructor also carries [#originalBytes], the blob the instance was
    decoded from, which [toCbor] returns unchanged.  The keys of a [PlutusMap]
    are objects compared by identity: those made by [fromCbor] and [fromCore]
    are new, so [insert] appends. *)

From S2P Require Import Prelude JsRuntime CborCommon CborWriter CborReader Codec.

(** ** Data *)

Inductive PlutusData : Set :=
  | ConstrPlutusData (alternative : Z) (data : list PlutusData) (originalBytes : option HexBlob)
  | PlutusMap (useIndefiniteEncoding : bool) (entries : list (PlutusData * PlutusData)) (originalBytes : option HexBlob)
  | PlutusList (items : list PlutusData) (originalBytes : option HexBlob)
  | Integer (value : Z) (originalBytes : option HexBlob)
  | Bytes (value : list Z) (originalBytes : option HexBlob).

Definition originalBytesOf (d : PlutusData) : option HexBlob :=
  match d with
  | ConstrPlutusData _ _ o | PlutusMap _ _ o | PlutusList _ o | Integer _ o | Bytes _ o => o
  end.

Definition setOriginalBytes (d : PlutusData) (cbor : HexBlob) : PlutusData :=
  match d with
  | ConstrPlutusData a l _ => ConstrPlutusData a l (Some cbor)
  | PlutusMap b m _ => PlutusMap b m (Some cbor)
  | PlutusList l _ => PlutusList l (Some cbor)
  | Integer z _ => Integer z (Some cbor)
  | Bytes s _ => Bytes s (Some cbor)
  end.

Definition newConstrPlutusData (alternative : Z) (l : list PlutusData) : PlutusData := ConstrPlutusData alternative l None.
Definition newMap (useIndefiniteEncoding : bool) (m : list (PlutusData * PlutusData)) : PlutusData :=
  PlutusMap useIndefiniteEncoding m None.
Definition newList (l : list PlutusData) : PlutusData := PlutusList l None.
Definition newInteger (z : Z) : PlutusData := Integer z None.
Definition newBytes (s : list Z) : PlutusData := Bytes s None.

(** ** Scalars *)

Definition MAX_WORD64 : Z := 18446744073709551615.
Definition INDEFINITE_BYTE_STRING : list Z := [95].
Definition MAX_BYTE_STRING_CHUNK_SIZE : Z := 64.

(** [for (let i = 0; i < bytes.length; i += 64) writer.writeByteString(bytes.slice(i, i + 64));]
    The index grows at every iteration, so the length bounds them. *)
Fixpoint writeChunks (fuel : nat) (bytes : list Z) (i : Z) : Enc unit :=
  if i <? zlen bytes then
    match fuel with
    | O => st_fuel
    | S fuel' =>
        call (CborWriter.writeByteString (slice bytes i (i + MAX_BYTE_STRING_CHUNK_SIZE))) ;;
        writeChunks fuel' bytes (i + MAX_BYTE_STRING_CHUNK_SIZE)
    end
  else mret tt.

(** The 64-byte limit: longer strings are written in chunks. *)
Definition writeBoundedBytes (bytes : list Z) : Enc unit :=
  if zlen bytes <=? MAX_BYTE_STRING_CHUNK_SIZE then call (CborWriter.writeByteString bytes)
  else
    call (CborWriter.writeEncodedValue INDEFINITE_BYTE_STRING) ;;
    writeChunks (length bytes) bytes 0 ;;
    call CborWriter.writeEndArray.

Definition bigintToBuffer (value : Z) : list Z :=
  let value := if value <? 0 then - value + -1 else value in
  let str := bigint_toString16 value in
  let str := if Z.of_nat (String.length str) mod 2 =? 0 then str else String.append "0" str in
  Buffer_from_hex str.

Definition bufferToBigint (buffer : list Z) : Z := fold_left (fun ret i => Z.shiftl ret 8 + i) buffer 0.

Definition writeInteger (value : Z) : Enc unit :=
  if ((0 <=? value) && (value <=? MAX_WORD64)) || ((value <? 0) && (-1 - MAX_WORD64 <=? value))
  then call (CborWriter.writeInt value)
  else
    call (CborWriter.writeTag (if value <? 0 then CborTag.NegativeBigNum else CborTag.UnsignedBigNum)) ;;
    writeBoundedBytes (bigintToBuffer value).

(** ** Constructor alternatives *)

Definition GENERAL_FORM_TAG : Z := 102.
Definition ALTERNATIVE_TAG_OFFSET : Z := 7.

Definition compactCborTagToAlternative (tag : Z) : Z :=
  if (121 <=? tag) && (tag <=? 127) then tag - 121
  else if (1280 <=? tag) && (tag <=? 1400) then tag - 1280 + ALTERNATIVE_TAG_OFFSET
  else GENERAL_FORM_TAG.

Definition alternativeToCompactCborTag (alternative : Z) : Z :=
  if alternative <=? 6 then 121 + alternative
  else if (7 <=? alternative) && (alternative <=? 127) then 1280 - ALTERNATIVE_TAG_OFFSET + alternative
  else GENERAL_FORM_TAG.

(** ** Encoding *)

Section toCbor.
Variable elemToCbor : PlutusData -> Res HexBlob.

(** [writer.writeEncodedValue(hexToBytes(elem.toCbor()))] *)
Definition writeElem (elem : PlutusData) : Enc unit :=
  cbor ← st_lift (elemToCbor elem); call (CborWriter.writeEncodedValue (hexToBytes cbor)).

Definition PlutusList_toCbor (l : list PlutusData) : Res HexBlob :=
  let shouldUseIndefinite := 0 <? zlen l in
  encode (
    call (CborWriter.writeStartArray (if shouldUseIndefinite then None else Some (zlen l))) ;;
    forEach writeElem l ;;
    if shouldUseIndefinite then call CborWriter.writeEndArray else mret tt).

Definition PlutusMap_toCbor (useIndefiniteEncoding : bool) (m : list (PlutusData * PlutusData)) : Res HexBlob :=
  encode (
    call (CborWriter.writeStartMap (if useIndefiniteEncoding then None else Some (zlen m))) ;;
    forEach (fun entry => match entry with (key, value) => writeElem key ;; writeElem value end) m ;;
    if useIndefiniteEncoding then call CborWriter.writeEndMap else mret tt).

Definition ConstrPlutusData_toCbor (alternative : Z) (data : list PlutusData) : Res HexBlob :=
  let compactTag := alternativeToCompactCborTag alternative in
  encode (
    call (CborWriter.writeTag compactTag) ;;
    if negb (compactTag =? GENERAL_FORM_TAG) then
      cbor ← st_lift (PlutusList_toCbor data); call (CborWriter.writeEncodedValue (hexToBytes cbor))
    else
      call (CborWriter.writeStartArray (Some 2)) ;;
      call (CborWriter.writeInt alternative) ;;
      cbor ← st_lift (PlutusList_toCbor data); call (CborWriter.writeEncodedValue (hexToBytes cbor))).
End toCbor.

(** [if (this.#originalBytes) return this.#originalBytes;]: an empty blob is
    falsy. *)
Definition truthy (o : option HexBlob) : bool :=
  match o with Some h => negb (String.eqb h "") | None => false end.

Fixpoint toCbor (d : PlutusData) : Res HexBlob :=
  if truthy (originalBytesOf d) then Ok (default "" (originalBytesOf d))
  else
    match d with
    | ConstrPlutusData alternative data _ => ConstrPlutusData_toCbor toCbor alternative data
    | PlutusMap useIndefiniteEncoding m _ => PlutusMap_toCbor toCbor useIndefiniteEncoding m
    | PlutusList l _ => PlutusList_toCbor toCbor l
    | Bytes bytes _ => encode (writeBoundedBytes bytes)
    | Integer integer _ => encode (writeInteger integer)
    end.

(** ** Decoding *)

Section fromCbor.
Variable elemFromCbor : HexBlob -> Res PlutusData.

Definition PlutusList_fromCbor (cbor : HexBlob) : Res (list PlutusData) :=
  decode (
    call CborReader.readStartArray ;;
    list ← readWhileNot CborReaderState.EndArray (readNested elemFromCbor);
    call CborReader.readEndArray ;;
    mret list) cbor.

Definition PlutusMap_fromCbor (cbor : HexBlob) : Res (bool * list (PlutusData * PlutusData)) :=
  decode (
    size ← call CborReader.readStartMap;
    map ← readWhileNot CborReaderState.EndMap
      (key ← readNested elemFromCbor; value ← readNested elemFromCbor; mret (key, value));
    call CborReader.readEndMap ;;
    mret (bool_decide (size = None), map)) cbor.

Definition ConstrPlutusData_fromCbor (cbor : HexBlob) : Res (Z * list PlutusData) :=
  decode (
    tag ← call CborReader.readTag;
    if tag =? GENERAL_FORM_TAG then
      call CborReader.readStartArray ;;
      alternative ← call CborReader.readInt;
      plutusList ← readNested PlutusList_fromCbor;
      call CborReader.readEndArray ;;
      mret (alternative, plutusList)
    else
      let alternative := compactCborTagToAlternative tag in
      plutusList ← readNested PlutusList_fromCbor;
      mret (alternative, plutusList)) cbor.

(** The [switch] of [PlutusData.fromCbor] on the state of the reader. *)
Definition readPlutusData : Dec PlutusData :=
  peekTokenType ← call CborReader.peekState;
  match peekTokenType with
  | CborReaderState.Tag =>
      tag ← call CborReader.peekTag;
      if tag =? CborTag.UnsignedBigNum then
        call CborReader.readTag ;;
        bytes ← call CborReader.readByteString;
        mret (newInteger (bufferToBigint bytes))
      else if tag =? CborTag.NegativeBigNum then
        call CborReader.readTag ;;
        bytes ← call CborReader.readByteString;
        mret (newInteger (bufferToBigint bytes * -1))
      else
        '(alternative, data) ← readNested ConstrPlutusData_fromCbor;
        mret (newConstrPlutusData alternative data)
  | CborReaderState.NegativeInteger | CborReaderState.UnsignedInteger =>
      integer ← call CborReader.readInt; mret (newInteger integer)
  | CborReaderState.StartIndefiniteLengthByteString | CborReaderState.ByteString =>
      bytes ← call CborReader.readByteString; mret (newBytes bytes)
  | CborReaderState.StartArray =>
      list ← readNested PlutusList_fromCbor; mret (newList list)
  | CborReaderState.StartMap =>
      '(useIndefiniteEncoding, map) ← readNested PlutusMap_fromCbor; mret (newMap useIndefiniteEncoding map)
  | _ => st_throw (JsError "Invalid Plutus Data")
  end.
End fromCbor.

(** Nested data is a proper part of the blob it is read from, so the depth of
    the recursion is at most the number of bytes. *)
Fixpoint fromCborFuel (fuel : nat) (cbor : HexBlob) : Res PlutusData :=
  match fuel with
  | O => OutOfFuel
  | S fuel' =>
      data ← decode (readPlutusData (fromCborFuel fuel')) cbor;
      Ok (setOriginalBytes data cbor)
  end.

Definition fromCbor (cbor : HexBlob) : Res PlutusData := fromCborFuel (S (length (hexToBytes cbor))) cbor.

(** ** Comparison and lookup *)

Section equals.
Variable elemEquals : PlutusData -> PlutusData -> bool.

Definition PlutusList_equals : list PlutusData -> list PlutusData -> bool :=
  fix go l l' :=
    match l, l' with
    | [], [] => true
    | x :: l, y :: l' => elemEquals x y && go l l'
    | _, _ => false
    end.

Definition entries_equal : list (PlutusData * PlutusData) -> list (PlutusData * PlutusData) -> bool :=
  fix go m m' :=
    match m, m' with
    | [], [] => true
    | (k, v) :: m, (k', v') :: m' => elemEquals k k' && elemEquals v v' && go m m'
    | _, _ => false
    end.
End equals.

Fixpoint equals (d other : PlutusData) : bool :=
  match d, other with
  | Bytes s _, Bytes s' _ => bool_decide (s = s')
  | Integer z _, Integer z' _ => z =? z'
  | ConstrPlutusData a l _, ConstrPlutusData a' l' _ => (a =? a') && PlutusList_equals equals l l'
  | PlutusList l _, PlutusList l' _ => PlutusList_equals equals l l'
  | PlutusMap b m _, PlutusMap b' m' _ => Bool.eqb b b' && entries_equal equals m m'
  | _, _ => false
  end.

(** [PlutusMap.get]: the value of the first entry whose key is equal. *)
Fixpoint PlutusMap_get {A} (m : list (PlutusData * A)) (key : PlutusData) : option A :=
  match m with
  | [] => None
  | (k, v) :: m => if equals k key then Some v else PlutusMap_get m key
  end.

(** ** Core types *)

Inductive PlutusEncoding : Set := FixedLength | IndefiniteLength.

Inductive CorePlutusData : Set :=
  | CoreBigInt (value : Z)
  | CoreBytes (value : list Z)
  | CoreList (cbor : option HexBlob) (encoding : option PlutusEncoding) (items : list CorePlutusData)
  | CoreMap (cbor : option HexBlob) (encoding : option PlutusEncoding) (data : list (CorePlutusData * CorePlutusData))
  | CoreConstr (cbor : option HexBlob) (constructor : Z) (fieldsCbor : option HexBlob) (items : list CorePlutusData).

(** [coreMap.set(key, value)]: bigints are compared by value, the other keys
    are objects made for this map. *)
Fixpoint coreSet (m : list (CorePlutusData * CorePlutusData)) (key value : CorePlutusData) :
    list (CorePlutusData * CorePlutusData) :=
  match m, key with
  | (CoreBigInt z, v) :: m, CoreBigInt z' =>
      if z =? z' then (CoreBigInt z, value) :: m else (CoreBigInt z, v) :: coreSet m key value
  | kv :: m, _ => kv :: coreSet m key value
  | [], _ => [(key, value)]
  end.

(** The loop of [toCore] over the keys of a map.  An entry comes with the core
    form of its key and of its value; each key's value is looked up again. *)
Fixpoint toCoreEntries (all : list (PlutusData * Res CorePlutusData)) (entries : list (PlutusData * Res CorePlutusData))
    (coreMap : list (CorePlutusData * CorePlutusData)) : Res (list (CorePlutusData * CorePlutusData)) :=
  match entries with
  | [] => Ok coreMap
  | (key, keyCore) :: entries =>
      k ← keyCore;
      v ← default (Throw (JsError "Cannot read properties of undefined")) (PlutusMap_get all key);
      toCoreEntries all entries (coreSet coreMap k v)
  end.

Fixpoint toCore (d : PlutusData) : Res CorePlutusData :=
  match d with
  | Bytes bytes _ => Ok (CoreBytes bytes)
  | Integer integer _ => Ok (CoreBigInt integer)
  | ConstrPlutusData alternative data _ =>
      cbor ← toCbor d;
      items ← mapM toCore data;
      fieldsCbor ← PlutusList_toCbor toCbor data;
      Ok (CoreConstr (Some cbor) alternative (Some fieldsCbor) items)
  | PlutusList l _ =>
      items ← mapM toCore l;
      cbor ← PlutusList_toCbor toCbor l;
      Ok (CoreList (Some cbor) None items)
  | PlutusMap _ m _ =>
      let keys := map (fun kv => match kv with (k, _) => (k, toCore k) end) m in
      let values := map (fun kv => match kv with (k, v) => (k, toCore v) end) m in
      coreMap ← toCoreEntries values keys [];
      cbor ← toCbor d;
      Ok (CoreMap (Some cbor) None coreMap)
  end.

Fixpoint fromCore (data : CorePlutusData) : Res PlutusData :=
  match data with
  | CoreBytes bytes => Ok (newBytes bytes)
  | CoreBigInt integer => Ok (newInteger integer)
  | CoreList cbor _ items =>
      if truthy cbor then fromCbor (default "" cbor)
      else newList <$> mapM fromCore items
  | CoreMap cbor _ m =>
      if truthy cbor then fromCbor (default "" cbor)
      else newMap false <$> mapM (fun kv => match kv with (k, v) => k' ← fromCore k; v' ← fromCore v; Ok (k', v') end) m
  | CoreConstr cbor alternative _ items =>
      if truthy cbor then fromCbor (default "" cbor)
      else newConstrPlutusData alternative <$> mapM fromCore items
  end.
