(* ===== verification/PlutusFacts.v ===== *)
(** * Plutus data: encoding and decoding agree

    Lemmas on [PlutusData.v]: the exact bytes of every kind of data, what the
    decoder returns on them, and the termination of the decoder on any blob. *)
From S2P Require Import Prelude JsRuntime Utf8 CborCommon Half CborWriter CborReader CborMachine CborExact CborSkip CborDocuments Codec CodecFacts PlutusData.

Import CborReader CborWriterFacts.

(** ** Structure *)

Section induction.
Variable P : PlutusData -> Prop.
Hypothesis Hconstr : forall a l o, Forall P l -> P (ConstrPlutusData a l o).
Hypothesis Hmap : forall b m o, Forall (fun kv => P kv.1 /\ P kv.2) m -> P (PlutusMap b m o).
Hypothesis Hlist : forall l o, Forall P l -> P (PlutusList l o).
Hypothesis Hint : forall z o, P (Integer z o).
Hypothesis Hbytes : forall s o, P (Bytes s o).

Fixpoint PlutusData_rec' (d : PlutusData) : P d :=
  match d with
  | ConstrPlutusData a l o => Hconstr a l o
      ((fix go l := match l return Forall P l with
        | [] => Forall_nil_2 P | x :: l => Forall_cons_2 P x l (PlutusData_rec' x) (go l) end) l)
  | PlutusMap b m o => Hmap b m o
      ((fix go m := match m return Forall (fun kv => P kv.1 /\ P kv.2) m with
        | [] => Forall_nil_2 _
        | (k, v) :: m => Forall_cons_2 _ (k, v) m (conj (PlutusData_rec' k) (PlutusData_rec' v)) (go m) end) m)
  | PlutusList l o => Hlist l o
      ((fix go l := match l return Forall P l with
        | [] => Forall_nil_2 P | x :: l => Forall_cons_2 P x l (PlutusData_rec' x) (go l) end) l)
  | Integer z o => Hint z o
  | Bytes s o => Hbytes s o
  end.
End induction.

(** The data without the remembered blobs. *)
Fixpoint strip (d : PlutusData) : PlutusData :=
  match d with
  | ConstrPlutusData a l _ => ConstrPlutusData a (map strip l) None
  | PlutusMap b m _ => PlutusMap b (map (fun kv => match kv with (k, v) => (strip k, strip v) end) m) None
  | PlutusList l _ => PlutusList (map strip l) None
  | Integer z _ => Integer z None
  | Bytes s _ => Bytes s None
  end.

(** Data built with the [new] methods, of the sizes a machine can hold, whose
    integers are at least -2^64. *)
Fixpoint encodable (d : PlutusData) : bool :=
  match d with
  | ConstrPlutusData a l None => (0 <=? a) && (a <? 2 ^ 64) && forallb encodable l
  | PlutusMap _ m None =>
      (zlen m <? 2 ^ 53) && forallb (fun kv => match kv with (k, v) => encodable k && encodable v end) m
  | PlutusList l None => forallb encodable l
  | Integer z None => - 2 ^ 64 <=? z
  | Bytes s None => forallb (fun b => (0 <=? b) && (b <? 256)) s
  | _ => false
  end.

(** ** [equals] decides equality up to the remembered blobs *)

Lemma list_equals_spec l l' : Forall (fun d => forall d', equals d d' = true <-> strip d = strip d') l ->
  PlutusList_equals equals l l' = true <-> map strip l = map strip l'.
Proof.
  intros Hl. revert l'. induction Hl as [|x l Hx _ IH]; intros [|y l']; cbn; try done.
  rewrite andb_true_iff, Hx, IH. split; [by intros [-> ->]|by intros [= -> ->]].
Qed.

Lemma entries_equal_spec m m' :
  Forall (fun kv => (forall d', equals kv.1 d' = true <-> strip kv.1 = strip d') /\
                    (forall d', equals kv.2 d' = true <-> strip kv.2 = strip d')) m ->
  entries_equal equals m m' = true <->
  map (fun kv => match kv with (k, v) => (strip k, strip v) end) m =
  map (fun kv => match kv with (k, v) => (strip k, strip v) end) m'.
Proof.
  intros Hm. revert m'. induction Hm as [|[k v] m [Hk Hv] _ IH]; intros [|[k' v'] m']; cbn; try done.
  cbn in Hk, Hv. rewrite !andb_true_iff, Hk, Hv, IH. split; [by intros [[-> ->] ->]|by intros [= -> -> ->]].
Qed.

Lemma equals_strip d d' : equals d d' = true <-> strip d = strip d'.
Proof.
  revert d'. induction d as [a l o Hl|b m o Hm|l o Hl|z o|s o] using PlutusData_rec'; intros [a' l' o'|b' m' o'|l' o'|z' o'|s' o'];
    cbn; try done.
  - rewrite andb_true_iff, Z.eqb_eq, list_equals_spec by done. split; [by intros [-> ->]|by intros [= -> ->]].
  - rewrite andb_true_iff, Bool.eqb_true_iff, entries_equal_spec by done. split; [by intros [-> ->]|by intros [= -> ->]].
  - rewrite list_equals_spec by done. split; [by intros ->|by intros [= ->]].
  - rewrite Z.eqb_eq. split; [by intros ->|by intros [= ->]].
  - rewrite bool_decide_eq_true. split; [by intros ->|by intros [= ->]].
Qed.

(** ** Scalars *)

Lemma bigintToBuffer_eq z : bigintToBuffer z = bignum_bytes (if z <? 0 then - z - 1 else z).
Proof. done. Qed.

Lemma bufferToBigint_eq s : bufferToBigint s = be_decode s.
Proof. done. Qed.

Lemma slice_chunk (s : list Z) i : 0 <= i -> slice s i (i + 64) ++ slice_from s (i + 64) = slice_from s i.
Proof.
  intros Hi. unfold slice, slice_from. set (n := Z.min i (zlen s)).
  destruct (Z.le_gt_cases (zlen s) (i + 64)) as [Hle|Hgt].
  - rewrite !(Z.min_r (i + 64)) by done. rewrite (drop_ge s (Z.to_nat (zlen s))) by (unfold zlen; lia).
    rewrite app_nil_r. apply take_ge. rewrite length_drop. unfold n, zlen in *. lia.
  - rewrite !(Z.min_l (i + 64)) by lia. subst n. rewrite !(Z.min_l i) by lia.
    replace (Z.to_nat (i + 64)) with (Z.to_nat i + 64)%nat by lia.
    rewrite <- drop_drop. replace (Z.to_nat i + 64 - Z.to_nat i)%nat with 64%nat by lia. apply take_drop.
Qed.

Lemma zlen_chunk (s : list Z) i : 0 <= i -> zlen (slice s i (i + 64)) <= 64.
Proof. intros Hi. unfold slice, zlen. rewrite length_take, length_drop. lia. Qed.

Lemma writeChunks_emits fuel s i : bytes s -> 0 <= i -> zlen s - i <= Z.of_nat fuel ->
  exists l, emits (writeChunks fuel s i) l /\ chunked ByteString l (slice_from s i) /\ bytes l.
Proof.
  intros Hs. revert i. induction fuel as [|fuel IH]; intros i Hi Hf; cbn [writeChunks];
    (destruct (Z.ltb_spec i (zlen s)) as [Hlt|Hge]; [try lia|]);
    try (exists []; split_and!; [apply emits_ret| |constructor];
         unfold slice_from; rewrite Z.min_r, drop_ge by (unfold zlen in *; lia); constructor).
  unfold MAX_BYTE_STRING_CHUNK_SIZE. destruct (IH (i + 64)) as (l & Hl & Hc & Hb); [lia..|].
  pose proof (zlen_chunk s i Hi). set (c := slice s i (i + 64)) in *.
  assert (Hcb : bytes c) by by apply bytes_slice.
  exists ((CborWriter.head ByteString (zlen c) ++ c) ++ l). split_and!.
  - apply emits_bind; [|done]. apply emits_call, string_appends. lia.
  - rewrite <- app_assoc, <- (slice_chunk s i Hi). apply chunked_cons; [|done].
    apply writer_head. pose proof (zlen_nonneg c). lia.
  - rewrite Forall_app. split; [by apply string_bytes|done].
Qed.

(** What a decoder needs of the encoding of a byte string, in chunks or not. *)
Record bounded (s l : list Z) : Prop := {
  bounded_item : item l;
  bounded_bytes : bytes l;
  bounded_read r rest : ready r (l ++ rest) -> readByteString r = (Ok s, consume r (zlen l) 1);
  bounded_state r rest : ready r (l ++ rest) ->
    peekStateCore r = Ok CborReaderState.ByteString \/ peekStateCore r = Ok CborReaderState.StartIndefiniteLengthByteString
}.

Lemma writeBoundedBytes_emits s : bytes s -> exists l, emits (writeBoundedBytes s) l /\ bounded s l.
Proof.
  intros Hs. unfold writeBoundedBytes, MAX_BYTE_STRING_CHUNK_SIZE. pose proof (zlen_nonneg s).
  destruct (Z.leb_spec (zlen s) 64) as [Hle|Hgt].
  - exists (CborWriter.head ByteString (zlen s) ++ s). split; [apply emits_call, string_appends; lia|].
    assert (Hh : is_head ByteString (zlen s) (CborWriter.head ByteString (zlen s))) by (apply writer_head; lia).
    split.
    + eapply item_string; [by left|done].
    + by apply string_bytes.
    + intros r rest Hr. apply (string_read ByteString s r rest); [done|lia|done].
    + intros r rest Hr. left. rewrite <- app_assoc in Hr. by rewrite (peekStateCore_head r ByteString _ _ _ ltac:(done) Hh Hr).
  - destruct (writeChunks_emits (length s) s 0 Hs) as (l & Hl & Hc & Hb); [lia|unfold zlen; lia|].
    assert (Hs0 : slice_from s 0 = s) by (unfold slice_from; by rewrite Z.min_l).
    rewrite Hs0 in Hc. exists ([95] ++ l ++ [255]). split.
    + apply emits_bind; [by apply emits_call|]. apply emits_bind; [done|]. apply emits_call.
      by apply (appends_push 1 255).
    + split.
      * apply (item_chunks ByteString l); [by left|by eapply chunked_chunks].
      * apply Forall_cons. split; [done|]. apply Forall_app. split; [done|by constructor].
      * intros r rest Hr. replace (zlen ([95] ++ l ++ [255])) with (zlen l + 2) by (zlen_simpl; lia).
        apply (readString_chunked ByteString l s r rest); [by left|done|]. by rewrite <- !app_assoc in Hr.
      * intros r rest Hr. right. cbn in Hr. by rewrite (peekStateCore_item r 95 _ Hr).
Qed.

(** ** Each kind of data *)

(** [f] decodes the item [l] to [d], up to the remembered blobs. *)
Definition decodes (f : string -> Res PlutusData) (l : list Z) (d : PlutusData) : Prop :=
  exists d', f (Buffer_to_hex l) = Ok d' /\ strip d' = strip d.

Lemma fromCbor_reads fuel l d : reads (readPlutusData (fromCborFuel fuel)) l d -> bytes l -> zlen l < 2 ^ 53 ->
  fromCborFuel (S fuel) (Buffer_to_hex l) = Ok (setOriginalBytes d (Buffer_to_hex l)).
Proof. intros Hd Hb Hz. cbn [fromCborFuel]. by rewrite (decode_reads _ _ _ Hd Hb Hz). Qed.

Lemma strip_setOriginalBytes d h : strip (setOriginalBytes d h) = strip d.
Proof. by destruct d. Qed.

Lemma reads_bytes f s l : bounded s l -> reads (readPlutusData f) l (newBytes s).
Proof.
  intros Hl r rest Hr Hp H1.
  assert (Hread : forall k, k = CborReaderState.ByteString \/ k = CborReaderState.StartIndefiniteLengthByteString ->
    peekStateCore r = Ok k -> readPlutusData f r = (Ok (newBytes s), consume r (zlen l) 1)).
  { intros k Hk Es. unfold readPlutusData.
    rewrite (st_bind_ok _ _ _ _ _ (call_ok _ _ _ _ (peekState_ok r k (ready_wf _ _ Hr) Es))).
    pose proof (bounded_read _ _ Hl _ rest (ready_cached _ _ _ Hr Es)) as E.
    destruct Hk as [-> | ->]; by rewrite (st_bind_ok _ _ _ _ _ (call_ok _ _ _ _ E)). }
  destruct (bounded_state _ _ Hl r rest Hr) as [Es|Es];
    [exact (Hread _ (or_introl eq_refl) Es)|exact (Hread _ (or_intror eq_refl) Es)].
Qed.

Lemma writeInteger_small z : - 2 ^ 64 <= z < 2 ^ 64 ->
  exists l, emits (writeInteger z) l /\ item l /\ bytes l /\ forall f, reads (readPlutusData f) l (newInteger z).
Proof.
  intros Hz. unfold writeInteger, MAX_WORD64.
  assert (E : ((0 <=? z) && (z <=? 18446744073709551615)) || ((z <? 0) && (-1 - 18446744073709551615 <=? z)) = true).
  { apply orb_true_iff. rewrite !andb_true_iff, !Z.leb_le, Z.ltb_lt. lia. }
  rewrite E. clear E. exists (intBytes z).
  split_and!; [by apply intBytes_emits|by apply intBytes_item|by apply intBytes_bytes|]. intros f.
  assert (Hi : reads (integer ← call readInt; mret (newInteger integer)) (intBytes z) (newInteger z))
    by by apply (reads_fmap 1 (call readInt)), intBytes_reads.
  destruct (intBytes_head z Hz) as (t & v & Ht & Hv & _ & E & _). rewrite E in *.
  apply (reads_peek (headState t)); [|by destruct Ht as [-> | ->]].
  intros r rest Hr. eapply peekStateCore_head; [by destruct Ht as [-> | ->]|by apply writer_head|done].
Qed.

(** Integers outside of 64 bits: a tag and the magnitude. *)
Lemma writeInteger_big z : z < - 2 ^ 64 \/ 2 ^ 64 <= z ->
  exists l, emits (writeInteger z) l /\ item l /\ bytes l /\
    forall f, reads (readPlutusData f) l (newInteger (if z <? 0 then z + 1 else z)).
Proof.
  intros Hz. unfold writeInteger, MAX_WORD64.
  assert (E : ((0 <=? z) && (z <=? 18446744073709551615)) || ((z <? 0) && (-1 - 18446744073709551615 <=? z)) = false).
  { apply orb_false_iff. rewrite !andb_false_iff, !Z.leb_gt, Z.ltb_ge. lia. }
  rewrite E. clear E. rewrite bigintToBuffer_eq. set (x := if z <? 0 then - z - 1 else z).
  destruct (writeBoundedBytes_emits (bignum_bytes x) (bignum_bytes_bytes x)) as (l & Hl & Hb).
  set (tag := if z <? 0 then CborTag.NegativeBigNum else CborTag.UnsignedBigNum).
  assert (Ht : 0 <= tag < 24) by (subst tag; by case_bool).
  pose proof (writer_head Tag tag ltac:(lia)) as Hh.
  exists (CborWriter.head Tag tag ++ l). split_and!.
  - apply emits_bind; [apply emits_call, writeTypeValue_head; lia|done].
  - eapply item_tag; [done|apply (bounded_item _ _ Hb)].
  - apply Forall_app. split; [apply head_bytes; lia|apply (bounded_bytes _ _ Hb)].
  - intros f. apply (reads_peek CborReaderState.Tag); [intros r rest Hr; by eapply tag_state|].
    apply (reads_peekTag tag); [done|lia|].
    assert (Hbytes : reads (call readByteString) l (bignum_bytes x)).
    { apply reads_call. intros r rest Hr _. by apply (bounded_read _ _ Hb r rest). }
    subst tag x. destruct (Z.ltb_spec z 0); cbn [Z.eqb Pos.eqb CborTag.NegativeBigNum CborTag.UnsignedBigNum];
      (eapply reads_tag; [done|lia|]).
    + replace (z + 1) with (bufferToBigint (bignum_bytes (- z - 1)) * -1)
        by (rewrite bufferToBigint_eq, bignum_bytes_decode; lia).
      by apply (reads_fmap 1 (call readByteString) (fun s => newInteger (bufferToBigint s * -1))).
    + assert (newInteger z = newInteger (bufferToBigint (bignum_bytes z))) as ->
        by (by rewrite bufferToBigint_eq, bignum_bytes_decode by lia).
      by apply (reads_fmap 1 (call readByteString) (fun s => newInteger (bufferToBigint s))).
Qed.

(** *** Lists *)

(** [d] is encoded as the item [l]. *)
Record encoded (d : PlutusData) (l : list Z) : Prop := {
  encoded_ok : toCbor d = Ok (Buffer_to_hex l);
  encoded_item : item l;
  encoded_bytes : bytes l
}.

Lemma writeElem_emits d l : encoded d l -> emits (writeElem toCbor d) l.
Proof.
  intros [E Hi Hb]. unfold writeElem. eapply emits_lift; [exact E|].
  unfold hexToBytes. rewrite Buffer_hex_roundtrip by done. by apply emits_call.
Qed.

Definition listBytes (encs : list (list Z)) : list Z :=
  match encs with [] => [128] | _ => 159 :: concat encs ++ [255] end.

Lemma encoded_parts ds encs : Forall2 encoded ds encs -> Forall item encs /\ Forall bytes encs.
Proof. induction 1 as [|d l ds encs [] _ []]; split; by constructor. Qed.

Lemma listBytes_item encs : Forall item encs -> item (listBytes encs).
Proof.
  intros H. destruct encs as [|e encs].
  - apply (item_array 0 [128] []); [by apply (head_0 Array 0)|constructor].
  - by apply (item_array_break (zlen (e :: encs))), concat_items.
Qed.

Lemma listBytes_bytes encs : Forall bytes encs -> bytes (listBytes encs).
Proof.
  intros H. destruct encs as [|e encs]; [by repeat constructor|]. apply Forall_cons. split; [done|].
  apply Forall_app. split; [by apply concat_bytes|by repeat constructor].
Qed.

Lemma PlutusList_toCbor_exact ds encs : Forall2 encoded ds encs ->
  PlutusList_toCbor toCbor ds = Ok (Buffer_to_hex (listBytes encs)).
Proof.
  intros H. unfold PlutusList_toCbor. cbv zeta. apply encode_emits.
  assert (He : emits (forEach (writeElem toCbor) ds) (concat encs)).
  { apply emits_forEach. eapply Forall2_impl; [exact H|]. intros. by apply writeElem_emits. }
  destruct H as [|d l ds encs Hd H].
  - apply (emits_bind _ _ [128] []); [|apply (emits_bind _ _ [] []); [done|apply emits_ret]].
    apply emits_call. by apply (writeTypeValue_head Array 0).
  - rewrite (proj2 (Z.ltb_lt _ _)) by (zlen_simpl; pose proof (zlen_nonneg ds); lia).
    apply (emits_bind _ _ [159]); [by apply emits_call, (appends_push 1 159)|].
    apply emits_bind; [done|]. apply emits_call, appends_break.
Qed.

Lemma reads_array {A} (body : Dec A) encs vs : elements 1 body encs vs ->
  reads (call readStartArray ;; list ← readWhileNot CborReaderState.EndArray body; call readEndArray ;; mret list)
    (listBytes encs) vs.
Proof.
  intros Hel. destruct encs as [|e encs]; [by apply (reads_array_definite body [] vs)|].
  intros r rest Hr Hp _. cbn [listBytes] in *.
  - set (l := concat (e :: encs)) in *. assert (Hr' : ready r ([159] ++ l ++ 255 :: rest)).
    { cbn [app] in *. by rewrite <- app_assoc in Hr. }
    rewrite (st_bind_ok _ _ _ _ _ (call_ok _ _ _ _ (readStartArray_indefinite r _ Hr'))).
    destruct (elements_break 1 body (e :: encs) vs Array (or_introl eq_refl) ltac:(lia) Hel r [159] rest None Hr' ltac:(done) ltac:(done)) as (x & E1 & E2).
    etrans; [apply (st_bind_ok _ _ _ _ _ E1)|]. rewrite (st_bind_ok _ _ _ _ _ E2).
    change (zlen [159]) with 1. fold l. replace (zlen (159 :: l ++ [255])) with (1 + zlen l + 1) by (zlen_simpl; lia). done.
Qed.

Lemma PlutusList_fromCbor_exact f encs ds : Forall2 (fun l d => f (Buffer_to_hex l) = Ok d) encs ds ->
  Forall item encs -> Forall bytes encs -> zlen (listBytes encs) < 2 ^ 53 ->
  PlutusList_fromCbor f (Buffer_to_hex (listBytes encs)) = Ok ds.
Proof.
  intros Hf Hi Hb Hz. apply decode_reads; [|by apply listBytes_bytes|done]. apply reads_array.
  clear Hz Hb. induction Hf as [|l d encs ds Hl _ IH]; [constructor|]. inversion Hi; subst.
  constructor; [|by apply IH]. split; [by apply item_begins|by apply readNested_reads].
Qed.

(** *** Maps *)

Definition entry_encoded (kv : PlutusData * PlutusData) (e : list Z * list Z) : Prop :=
  encoded kv.1 e.1 /\ encoded kv.2 e.2.

Lemma PlutusMap_toCbor_exact b m encs : zlen m < 2 ^ 64 -> Forall2 entry_encoded m encs ->
  PlutusMap_toCbor toCbor b m = Ok (Buffer_to_hex (mapBytes b encs)).
Proof.
  intros Hz H. unfold PlutusMap_toCbor. apply encode_emits. pose proof (zlen_nonneg m).
  assert (Hl : zlen m = zlen encs) by (unfold zlen; by rewrite (Forall2_length _ _ _ H)).
  assert (He : emits (forEach (fun entry => match entry with (key, value) =>
      writeElem toCbor key ;; writeElem toCbor value end) m) (concat (map entryBytes encs))).
  { apply emits_forEach. clear -H. induction H as [|[k v] e m encs [Hk Hv] _ IH]; [constructor|].
    constructor; [|exact IH]. by apply emits_bind; apply writeElem_emits. }
  destruct b; cbn [mapBytes].
  - apply (emits_bind _ _ [191]); [by apply emits_call, (appends_push 1 191)|].
    apply emits_bind; [done|]. apply emits_call. by apply (appends_push 1 255).
  - rewrite <- Hl. apply emits_bind; [apply emits_call, writeTypeValue_head; lia|].
    rewrite <- (app_nil_r (concat _)). apply emits_bind; [done|apply emits_ret].
Qed.

Lemma readEntry_reads (f : string -> Res PlutusData) k v a b : item k -> item v ->
  f (Buffer_to_hex k) = Ok a -> f (Buffer_to_hex v) = Ok b ->
  readsN 2 (key ← readNested f; value ← readNested f; mret (key, value)) (k ++ v) (a, b).
Proof.
  intros Hk Hv Ha Hb. apply (readsN_bind 1 1 _ _ k v a); [lia|lia|by apply readNested_reads|].
  by apply (reads_fmap 1 _ (fun value => (a, value))), readNested_reads.
Qed.

Lemma PlutusMap_fromCbor_exact f b encs m :
  Forall2 (fun e kv => f (Buffer_to_hex e.1) = Ok kv.1 /\ f (Buffer_to_hex e.2) = Ok kv.2) encs m ->
  Forall (fun e => item e.1 /\ item e.2) encs -> Forall (fun e => bytes e.1 /\ bytes e.2) encs ->
  zlen encs < 2 ^ 64 -> zlen (mapBytes b encs) < 2 ^ 53 ->
  PlutusMap_fromCbor f (Buffer_to_hex (mapBytes b encs)) = Ok (b, m).
Proof.
  intros Hf Hi Hb Hn Hz. apply decode_reads; [|by apply mapBytes_bytes|done]. apply reads_map; [done| |done].
  clear Hz Hb Hn. induction Hf as [|[k v] [a c] encs m [Ha Hc] _ IH]; [constructor|]. inversion Hi as [|? ? [Hk Hv] Hi']; subst.
  constructor; [|by apply IH]. split; [|by apply readEntry_reads]. by exists k, v.
Qed.

(** *** Constructors *)

Lemma compact_tag_inverse a : 0 <= a -> alternativeToCompactCborTag a <> GENERAL_FORM_TAG ->
  compactCborTagToAlternative (alternativeToCompactCborTag a) = a /\ 0 <= alternativeToCompactCborTag a < 1401.
Proof.
  intros Ha. unfold alternativeToCompactCborTag, compactCborTagToAlternative, GENERAL_FORM_TAG, ALTERNATIVE_TAG_OFFSET.
  intros Ht. repeat case_bool; zb; rewrite ?andb_false_iff, ?Z.leb_gt in *; lia.
Qed.

Definition constrBytes (a : Z) (l : list Z) : list Z :=
  let tag := alternativeToCompactCborTag a in
  if tag =? GENERAL_FORM_TAG then
    CborWriter.head Tag tag ++ CborWriter.head Array 2 ++ CborWriter.head UnsignedInteger a ++ l
  else CborWriter.head Tag tag ++ l.

Lemma compact_tag_bound a : 0 <= a -> 0 <= alternativeToCompactCborTag a < 2 ^ 53.
Proof.
  intros Ha. destruct (Z.eq_dec (alternativeToCompactCborTag a) GENERAL_FORM_TAG) as [-> |Hne]; [done|].
  destruct (compact_tag_inverse a Ha Hne). lia.
Qed.

Lemma constrBytes_item a l : 0 <= a < 2 ^ 64 -> item l -> item (constrBytes a l).
Proof.
  intros Ha Hl. pose proof (compact_tag_bound a ltac:(lia)). unfold constrBytes. cbv zeta.
  case_bool; (eapply item_tag; [apply writer_head; lia|]); [|done].
  eapply (item_array 2); [by apply writer_head|]. apply (items_cons 1).
  - eapply item_int; [by left|by apply writer_head].
  - rewrite <- (app_nil_r l). apply (items_cons 0); [done|constructor].
Qed.

Lemma constrBytes_bytes a l : 0 <= a -> bytes l -> bytes (constrBytes a l).
Proof.
  intros Ha Hl. pose proof (compact_tag_bound a ltac:(lia)). unfold constrBytes. cbv zeta.
  case_bool; repeat (apply Forall_app; split); try done; apply head_bytes; lia.
Qed.

Lemma ConstrPlutusData_toCbor_exact a ds encs : 0 <= a < 2 ^ 64 -> Forall2 encoded ds encs ->
  ConstrPlutusData_toCbor toCbor a ds = Ok (Buffer_to_hex (constrBytes a (listBytes encs))).
Proof.
  intros Ha H. pose proof (compact_tag_bound a ltac:(lia)). destruct (encoded_parts _ _ H) as [_ Hb].
  unfold ConstrPlutusData_toCbor, constrBytes. cbv zeta. apply encode_emits.
  assert (Hl : emits (cbor ← st_lift (PlutusList_toCbor toCbor ds); call (CborWriter.writeEncodedValue (hexToBytes cbor))) (listBytes encs)).
  { eapply emits_lift; [by apply PlutusList_toCbor_exact|].
    unfold hexToBytes. rewrite Buffer_hex_roundtrip by by apply listBytes_bytes. by apply emits_call. }
  destruct (_ =? GENERAL_FORM_TAG); cbn [negb]; (apply emits_bind; [apply emits_call, writeTypeValue_head; lia|]); [|done].
  apply emits_bind; [by apply emits_call, writeTypeValue_head|]. apply emits_bind; [|done].
  apply emits_call. unfold CborWriter.writeInt. rewrite (proj2 (Z.ltb_ge _ _)) by lia. by apply writeTypeValue_head.
Qed.

Lemma ConstrPlutusData_fromCbor_exact f a l ds : 0 <= a < 2 ^ 64 -> item l -> bytes l ->
  PlutusList_fromCbor f (Buffer_to_hex l) = Ok ds -> zlen (constrBytes a l) < 2 ^ 53 ->
  ConstrPlutusData_fromCbor f (Buffer_to_hex (constrBytes a l)) = Ok (a, ds).
Proof.
  intros Ha Hi Hb Hl Hz. pose proof (compact_tag_bound a ltac:(lia)).
  apply decode_reads; [|apply constrBytes_bytes; [lia|done]|done]. clear Hz.
  pose proof (readNested_reads _ l ds Hi Hl) as Hread. unfold constrBytes. cbv zeta.
  destruct (alternativeToCompactCborTag a =? GENERAL_FORM_TAG) eqn:E;
    (eapply reads_tag; [apply writer_head; lia|lia|]); rewrite E.
  - apply (reads_pair (call readInt) (readNested (PlutusList_fromCbor f))); [by apply writer_head|by apply reads_uint|done].
  - zb. destruct (compact_tag_inverse a ltac:(lia) E) as [Ec _]. cbv zeta. rewrite Ec.
    by apply (reads_fmap 1 _ (fun ds => (a, ds))).
Qed.

(** *** All kinds *)

Definition decodes_to (d : PlutusData) (l : list Z) : Prop := forall fuel,
  zlen l < 2 ^ 53 -> (length l < fuel)%nat -> decodes (fromCborFuel fuel) l d.

(** The data [ds] with their encodings, shorter than [n] and decodable. *)
Lemma decode_all ds encs fuel n : Forall2 decodes_to ds encs -> zlen (concat encs) < n -> n <= 2 ^ 53 ->
  n <= Z.of_nat fuel -> exists ds', Forall2 (fun l d => fromCborFuel fuel (Buffer_to_hex l) = Ok d) encs ds' /\
    map strip ds' = map strip ds.
Proof.
  intros H Hn Hb Hf. induction H as [|d l ds encs Hd _ IH]; [exists []; by split|]. cbn [concat] in Hn. zlen_simpl.
  pose proof (zlen_nonneg l). pose proof (zlen_nonneg (concat encs)). destruct IH as (ds' & Hds & E); [lia|].
  destruct (Hd fuel) as (d' & Hd' & Es); [lia|unfold zlen in *; lia|].
  exists (d' :: ds'). split; [by constructor|]. cbn. by rewrite Es, E.
Qed.

Lemma collect_list ds : Forall (fun d => encodable d = true -> exists l, encoded d l /\ decodes_to d l) ds ->
  forallb encodable ds = true -> exists encs, Forall2 encoded ds encs /\ Forall2 decodes_to ds encs.
Proof.
  induction 1 as [|d ds Hd _ IH]; cbn; [exists []; by split|]. intros [H1 H2]%andb_true_iff.
  destruct (Hd H1) as (l & ? & ?). destruct (IH H2) as (encs & ? & ?). exists (l :: encs). by split; constructor.
Qed.

Lemma collect_entries m :
  Forall (fun kv => (encodable kv.1 = true -> exists l, encoded kv.1 l /\ decodes_to kv.1 l) /\
                    (encodable kv.2 = true -> exists l, encoded kv.2 l /\ decodes_to kv.2 l)) m ->
  forallb (fun kv => match kv with (k, v) => encodable k && encodable v end) m = true ->
  exists encs, Forall2 entry_encoded m encs /\
    Forall2 (fun kv e => decodes_to kv.1 e.1 /\ decodes_to kv.2 e.2) m encs.
Proof.
  induction 1 as [|[k v] m [Hk Hv] _ IH]; cbn; [exists []; by split|]. intros [[H1 H2]%andb_true_iff H3]%andb_true_iff.
  destruct (Hk H1) as (l & ? & ?). destruct (Hv H2) as (l' & ? & ?). destruct (IH H3) as (encs & ? & ?).
  exists ((l, l') :: encs). by split; constructor.
Qed.

Lemma decode_entries m encs fuel n : Forall2 (fun kv e => decodes_to kv.1 e.1 /\ decodes_to kv.2 e.2) m encs ->
  zlen (concat (map entryBytes encs)) < n -> n <= 2 ^ 53 -> n <= Z.of_nat fuel ->
  exists m', Forall2 (fun e kv => fromCborFuel fuel (Buffer_to_hex e.1) = Ok kv.1 /\ fromCborFuel fuel (Buffer_to_hex e.2) = Ok kv.2) encs m' /\
    map (fun kv => match kv with (k, v) => (strip k, strip v) end) m' =
    map (fun kv => match kv with (k, v) => (strip k, strip v) end) m.
Proof.
  intros H Hn Hb Hf. induction H as [|[k v] [lk lv] m encs [Hk Hv] _ IH]; [exists []; by split|].
  cbn [map concat fst snd] in *. unfold entryBytes in Hn at 1. cbn in Hn. zlen_simpl.
  pose proof (zlen_nonneg lk). pose proof (zlen_nonneg lv). pose proof (zlen_nonneg (concat (map entryBytes encs))).
  destruct IH as (m' & Hm & E); [lia|].
  destruct (Hk fuel) as (k' & Hk' & Ek); [lia|unfold zlen in *; lia|].
  destruct (Hv fuel) as (v' & Hv' & Ev); [lia|unfold zlen in *; lia|].
  exists ((k', v') :: m'). split; [by constructor|]. cbn. by rewrite Ek, Ev, E.
Qed.

Lemma listBytes_longer encs : zlen (concat encs) < zlen (listBytes encs).
Proof. destruct encs; cbn [listBytes]; zlen_simpl; [done|lia]. Qed.

Lemma constrBytes_longer a l : zlen l <= zlen (constrBytes a l).
Proof.
  unfold constrBytes. cbv zeta. case_bool; zlen_simpl; repeat match goal with |- context [zlen (CborWriter.head ?t ?v)] =>
    lazymatch goal with H : 0 <= zlen (CborWriter.head t v) |- _ => fail | _ => pose proof (zlen_nonneg (CborWriter.head t v)) end end; lia.
Qed.

Lemma mapBytes_longer b encs : zlen encs < 2 ^ 64 -> zlen (concat (map entryBytes encs)) < zlen (mapBytes b encs).
Proof.
  intros Hz. pose proof (zlen_nonneg encs). destruct b; cbn [mapBytes]; zlen_simpl; [lia|].
  pose proof (is_head_length _ _ _ (writer_head Map (zlen encs) ltac:(lia))). lia.
Qed.

Lemma reads_list_node f encs ds : item (listBytes encs) ->
  PlutusList_fromCbor f (Buffer_to_hex (listBytes encs)) = Ok ds -> reads (readPlutusData f) (listBytes encs) (newList ds).
Proof.
  intros Hi Hf. apply (reads_peek CborReaderState.StartArray).
  - intros r rest Hr. destruct encs as [|e encs]; cbn [listBytes] in Hr.
    + apply (peekStateCore_head r Array 0 [128] rest); [done|by apply (head_0 Array 0)|done].
    + rewrite (peekStateCore_item r 159 _ Hr) by lia. reflexivity.
  - by apply (reads_fmap 1 _ newList), readNested_reads.
Qed.

Lemma reads_map_node f b encs m : zlen encs < 2 ^ 64 -> item (mapBytes b encs) ->
  PlutusMap_fromCbor f (Buffer_to_hex (mapBytes b encs)) = Ok (b, m) -> reads (readPlutusData f) (mapBytes b encs) (newMap b m).
Proof.
  intros Hz Hi Hf. pose proof (zlen_nonneg encs). apply (reads_peek CborReaderState.StartMap).
  - intros r rest Hr. destruct b; cbn [mapBytes] in Hr.
    + rewrite (peekStateCore_item r 191 _ Hr) by lia. reflexivity.
    + rewrite <- app_assoc in Hr.
      by apply (peekStateCore_head r Map (zlen encs) _ _ ltac:(done) (writer_head Map (zlen encs) ltac:(lia)) Hr).
  - intros r rest Hr Hp H1. by rewrite (st_bind_ok _ _ _ _ _ (readNested_reads _ _ _ Hi Hf r rest Hr Hp H1)).
Qed.

Lemma reads_constr_node f a l ds : 0 <= a < 2 ^ 64 -> item (constrBytes a l) ->
  ConstrPlutusData_fromCbor f (Buffer_to_hex (constrBytes a l)) = Ok (a, ds) ->
  reads (readPlutusData f) (constrBytes a l) (newConstrPlutusData a ds).
Proof.
  intros Ha Hi Hf. pose proof (compact_tag_bound a ltac:(lia)) as Ht.
  assert (Hx : exists x, constrBytes a l = CborWriter.head Tag (alternativeToCompactCborTag a) ++ x).
  { unfold constrBytes. cbv zeta. case_bool; eauto. }
  assert (Hge : 100 <= alternativeToCompactCborTag a).
  { unfold alternativeToCompactCborTag, GENERAL_FORM_TAG, ALTERNATIVE_TAG_OFFSET. repeat case_bool; zb; lia. }
  assert (Hnode : reads ('(alternative, data) ← readNested (ConstrPlutusData_fromCbor f);
      mret (newConstrPlutusData alternative data)) (constrBytes a l) (newConstrPlutusData a ds)).
  { intros r rest Hr Hp H1. by rewrite (st_bind_ok _ _ _ _ _ (readNested_reads _ _ _ Hi Hf r rest Hr Hp H1)). }
  destruct Hx as [x Hx]. rewrite Hx in *. pose proof (writer_head Tag (alternativeToCompactCborTag a) ltac:(lia)) as Hh.
  apply (reads_peek CborReaderState.Tag); [intros r rest Hr; by eapply tag_state|].
  apply (reads_peekTag (alternativeToCompactCborTag a)); [done|lia|].
  unfold CborTag.UnsignedBigNum, CborTag.NegativeBigNum.
  by rewrite !(proj2 (Z.eqb_neq _ _)) by lia.
Qed.

Lemma node_round_trip d l : encoded d l -> (forall fuel, zlen l < 2 ^ 53 -> zlen l <= Z.of_nat fuel ->
    exists d', reads (readPlutusData (fromCborFuel fuel)) l d' /\ strip d' = strip d) ->
  encoded d l /\ decodes_to d l.
Proof.
  intros He Hd. split; [done|]. intros [|fuel] Hz Hf; [lia|]. destruct (Hd fuel Hz) as (d'' & Hr & Es); [unfold zlen; lia|].
  exists (setOriginalBytes d'' (Buffer_to_hex l)). split; [|by rewrite strip_setOriginalBytes].
  apply fromCbor_reads; [done|apply (encoded_bytes _ _ He)|done].
Qed.

Lemma bytes_forallb s : forallb (fun b => (0 <=? b) && (b <? 256)) s = true -> bytes s.
Proof.
  intros H. apply Forall_forall. intros b Hb. rewrite forallb_forall in H.
  apply list_elem_of_In, H in Hb. unfold is_byte. zb. lia.
Qed.

(** [d] has an encoding from which the decoder recovers it. *)
Definition round_trips (d : PlutusData) : Prop := exists l, encoded d l /\ decodes_to d l.

Lemma constr_round_trip a ds encs : 0 <= a < 2 ^ 64 -> Forall2 encoded ds encs -> Forall2 decodes_to ds encs ->
  round_trips (newConstrPlutusData a ds).
Proof.
  intros Ha He Hd. destruct (encoded_parts _ _ He) as [Hi Hb].
  pose proof (listBytes_item encs Hi) as HLi. pose proof (listBytes_bytes encs Hb) as HLb.
  pose proof (constrBytes_item a _ ltac:(lia) HLi) as Hci.
  exists (constrBytes a (listBytes encs)). apply node_round_trip.
  - split; [by apply ConstrPlutusData_toCbor_exact|done|apply constrBytes_bytes; [lia|done]].
  - intros fuel Hz Hf. pose proof (listBytes_longer encs). pose proof (constrBytes_longer a (listBytes encs)).
    destruct (decode_all ds encs fuel (zlen (constrBytes a (listBytes encs))) Hd) as (ds' & Hds & Es); [lia..|].
    exists (newConstrPlutusData a ds'). split; [|cbn; by rewrite Es].
    apply reads_constr_node; [lia|done|]. apply ConstrPlutusData_fromCbor_exact; [lia|done|done| |done].
    apply PlutusList_fromCbor_exact; [done..|lia].
Qed.

Lemma list_round_trip ds encs : Forall2 encoded ds encs -> Forall2 decodes_to ds encs -> round_trips (newList ds).
Proof.
  intros He Hd. destruct (encoded_parts _ _ He) as [Hi Hb].
  pose proof (listBytes_item encs Hi) as HLi. pose proof (listBytes_bytes encs Hb) as HLb.
  exists (listBytes encs). apply node_round_trip; [split; [by apply PlutusList_toCbor_exact|done|done]|].
  intros fuel Hz Hf. pose proof (listBytes_longer encs).
  destruct (decode_all ds encs fuel (zlen (listBytes encs)) Hd) as (ds' & Hds & Es); [lia..|].
  exists (newList ds'). split; [|cbn; by rewrite Es]. apply reads_list_node; [done|]. by apply PlutusList_fromCbor_exact.
Qed.

Lemma map_round_trip b m encs : zlen m < 2 ^ 53 -> Forall2 entry_encoded m encs ->
  Forall2 (fun kv e => decodes_to kv.1 e.1 /\ decodes_to kv.2 e.2) m encs -> round_trips (newMap b m).
Proof.
  intros Hz He Hd. assert (Hl : zlen m = zlen encs) by (unfold zlen; by rewrite (Forall2_length _ _ _ He)).
  assert (Hn : zlen encs < 2 ^ 64) by lia.
  assert (Hi : Forall (fun e => item e.1 /\ item e.2) encs) by (clear -He; induction He as [|? ? ? ? [[] []]]; by constructor).
  assert (Hb : Forall (fun e => bytes e.1 /\ bytes e.2) encs) by (clear -He; induction He as [|? ? ? ? [[] []]]; by constructor).
  pose proof (mapBytes_item b encs Hn Hi) as Hmi. exists (mapBytes b encs). apply node_round_trip.
  - split; [apply PlutusMap_toCbor_exact; [lia|done]|done|by apply mapBytes_bytes].
  - intros fuel Hsz Hf. pose proof (mapBytes_longer b encs Hn).
    destruct (decode_entries m encs fuel (zlen (mapBytes b encs)) Hd) as (m' & Hm & Es); [lia..|].
    exists (newMap b m'). split; [|cbn; by rewrite Es].
    apply reads_map_node; [done..|]. by apply PlutusMap_fromCbor_exact.
Qed.

Lemma integer_round_trip z : - 2 ^ 64 <= z -> round_trips (newInteger z).
Proof.
  intros Hz. assert (Hw : exists l, emits (writeInteger z) l /\ item l /\ bytes l /\
    forall f, reads (readPlutusData f) l (newInteger z)).
  { destruct (Z.lt_ge_cases z (2 ^ 64)); [apply writeInteger_small; lia|].
    pose proof (writeInteger_big z ltac:(lia)) as H'. by rewrite (proj2 (Z.ltb_ge _ _)) in H' by lia. }
  destruct Hw as (l & Hl & Hi & Hb & Hr). exists l.
  apply node_round_trip; [split; [by apply encode_emits|done|done]|]. intros fuel _ _. by exists (newInteger z).
Qed.

Theorem encodable_round_trip d : encodable d = true -> round_trips d.
Proof.
  induction d as [a ds o IH|b m o IH|ds o IH|z o|s o] using PlutusData_rec'; cbn [encodable]; destruct o as [h|]; try done.
  - intros [[H1 H2]%andb_true_iff H3]%andb_true_iff. zb. destruct (collect_list ds IH H3) as (encs & He & Hd).
    eapply constr_round_trip; [lia|done..].
  - intros [Hz H3]%andb_true_iff. zb. destruct (collect_entries m IH H3) as (encs & He & Hd). by eapply map_round_trip.
  - intros H3. destruct (collect_list ds IH H3) as (encs & He & Hd). by eapply list_round_trip.
  - intros Hz. apply integer_round_trip. by zb.
  - intros Hs%bytes_forallb. destruct (writeBoundedBytes_emits s Hs) as (l & Hl & Hb).
    exists l. apply node_round_trip; [split; [by apply encode_emits|apply (bounded_item _ _ Hb)|apply (bounded_bytes _ _ Hb)]|].
    intros fuel _ _. exists (newBytes s). split; [by apply reads_bytes|done].
Qed.

(** ** The decoder ends on every blob *)

(** [f] ends on every blob of at most [n] bytes. *)
Definition ends_below (f : string -> Res PlutusData) (n : Z) : Prop := forall h,
  bytes (Buffer_from_hex h) -> zlen (Buffer_from_hex h) < n -> f h <> OutOfFuel.

Section ends.
Context (f : string -> Res PlutusData) (cbor : string).
Context (Hz : zlen (Buffer_from_hex cbor) < 2 ^ 53) (Hf : ends_below f (zlen (Buffer_from_hex cbor))).

Lemma PlutusList_ends : PlutusList_fromCbor f cbor <> OutOfFuel.
Proof.
  apply after_first; [intros r Hw; by eapply enter_runs; [apply readStartArray_enters|]| |done].
  intros _ r Hw Ho Hd. eapply runs_bind.
  - apply readWhileNot_runs; [|done]. intros r1 Hr1 Hw1. apply (nested_runs f r r1 Hw Ho Hr1). rewrite Hd. exact Hf.
  - intros l r1 Hr1 _. pose proof (rtc_step_wf _ _ Hr1 Hw). eapply runs_bind; [apply leave_runs; [apply readEndArray_leaves|done]|].
    intros. by apply runs_ret.
Qed.

Lemma PlutusMap_ends : PlutusMap_fromCbor f cbor <> OutOfFuel.
Proof.
  apply after_first; [intros r Hw; by eapply enter_runs; [apply readStartMap_enters|]| |done].
  intros size r Hw Ho Hd. eapply runs_bind.
  - apply readWhileNot_runs; [|done]. intros r1 Hr1 Hw1.
    eapply runs_bind; [apply (nested_runs f r r1 Hw Ho Hr1); rewrite Hd; exact Hf|]. cbv beta. intros k r2 Hr2 Ho2.
    eapply runs_bind; [apply (nested_runs f r r2 Hw Ho ltac:(by etrans)); rewrite Hd; exact Hf|]. cbv beta.
    intros v r3 _ Ho3. apply runs_ret. lia.
  - intros l r1 Hr1 _. pose proof (rtc_step_wf _ _ Hr1 Hw). eapply runs_bind; [apply leave_runs; [apply readEndMap_leaves|done]|].
    intros. by apply runs_ret.
Qed.
End ends.

Lemma ConstrPlutusData_ends f cbor : zlen (Buffer_from_hex cbor) < 2 ^ 53 ->
  ends_below f (zlen (Buffer_from_hex cbor)) -> ConstrPlutusData_fromCbor f cbor <> OutOfFuel.
Proof.
  intros Hz Hf. apply after_first; [apply readTag_runs| |done]. intros tag r Hw Ho Hd.
  assert (Hlist : forall r1, rtc step r r1 -> runs r1 (readNested (PlutusList_fromCbor f)) (fun _ r' => offset r1 < offset r')).
  { intros r1 Hr1. apply (nested_runs _ r r1 Hw Ho Hr1). rewrite Hd. intros h Hb Hh.
    apply PlutusList_ends; [lia|]. intros h' Hb' Hh'. apply Hf; [done|lia]. }
  case_bool.
  - eapply runs_bind; [eapply enter_runs; [apply readStartArray_enters|done]|]. intros n r1 Hr1 _.
    pose proof (rtc_step_wf _ _ Hr1 Hw) as Hw1. eapply runs_bind; [apply item_runs; [apply readInt_item|done]|]. intros a r2 Hr2 _.
    pose proof (rtc_step_wf _ _ Hr2 Hw1) as Hw2. eapply runs_bind; [apply Hlist; by etrans|]. intros l r3 Hr3 _.
    pose proof (rtc_step_wf _ _ Hr3 Hw2). eapply runs_bind; [apply leave_runs; [apply readEndArray_leaves|done]|].
    intros. by apply runs_ret.
  - eapply runs_bind; [by apply Hlist|]. intros. by apply runs_ret.
Qed.

Section node.
Context (f : string -> Res PlutusData) (r0 : t).
Context (Hw : wf r0) (Hf : ends_below f (zlen (data r0))).

(** A nested value may be the whole of the data: its own elements are shorter. *)
Lemma whole_runs {A} (g : string -> Res A) r : rtc step r0 r ->
  (forall h, zlen (Buffer_from_hex h) < 2 ^ 53 -> ends_below f (zlen (Buffer_from_hex h)) -> g h <> OutOfFuel) ->
  runs r (readNested g) (fun _ _ => True).
Proof.
  intros Hr Hg. pose proof (rtc_step_wf _ _ Hr Hw) as Hwr. pose proof (rtc_step_data _ _ Hr) as Hd.
  eapply runs_impl; [apply readNested_runs; [done|]|done]. intros h Hb Hh. destruct (wf_offset r Hwr).
  pose proof (wf_size r Hwr). apply Hg; [lia|]. intros h' Hb' Hh'. apply Hf; [done|]. rewrite Hd in Hh. lia.
Qed.

Lemma big_runs (g : list Z -> PlutusData) r : rtc step r0 r ->
  runs r (call readTag ;; bytes ← call readByteString; mret (g bytes)) (fun _ _ => True).
Proof.
  intros Hr. pose proof (rtc_step_wf _ _ Hr Hw) as Hwr. eapply runs_bind; [by apply readTag_runs|]. intros _ r1 Hr1 _.
  pose proof (rtc_step_wf _ _ Hr1 Hwr). eapply runs_bind; [by apply item_runs; [apply (readString_item ByteString)|]|].
  intros. by apply runs_ret.
Qed.

Lemma readPlutusData_runs : runs r0 (readPlutusData f) (fun _ _ => True).
Proof.
  unfold readPlutusData. eapply runs_bind; [by apply peekState_runs|]. intros s r Hr _.
  pose proof (rtc_step_wf _ _ Hr Hw) as Hwr.
  assert (Hscalar : forall A (m : M A) (g : A -> PlutusData), reads_item m -> runs r (x ← call m; mret (g x)) (fun _ _ => True)).
  { intros A m g Hm. eapply runs_bind; [by apply item_runs|]. intros. by apply runs_ret. }
  destruct s; try apply runs_throw; try apply Hscalar; try apply (readString_item ByteString); try apply readInt_item.
  - eapply runs_bind; [apply (whole_runs _ r Hr), PlutusList_ends|]. intros. by apply runs_ret.
  - eapply runs_bind; [apply (whole_runs _ r Hr), PlutusMap_ends|]. intros [b m] ? _ _. by apply runs_ret.
  - eapply runs_bind; [by apply peekTag_runs|]. intros tag ? _ ->. repeat case_bool; try by apply big_runs.
    eapply runs_bind; [apply (whole_runs _ r Hr), ConstrPlutusData_ends|]. intros [a l] ? _ _. by apply runs_ret.
Qed.
End node.

Theorem fromCborFuel_ends fuel cbor : zlen (Buffer_from_hex cbor) < 2 ^ 53 -> (length (Buffer_from_hex cbor) < fuel)%nat ->
  fromCborFuel fuel cbor <> OutOfFuel.
Proof.
  revert cbor. induction fuel as [|fuel IH]; intros cbor Hz Hf; [lia|]. cbn [fromCborFuel].
  assert (Hd : decode (readPlutusData (fromCborFuel fuel)) cbor <> OutOfFuel).
  { eapply (decode_runs _ (fun _ _ => True)); [done|]. intros Hw. apply readPlutusData_runs; [done|].
    intros h Hb Hh. cbn in Hh. apply IH; [lia|unfold zlen in *; lia]. }
  unfold mbind, outcome_bind. by destruct (decode _ cbor).
Qed.

(** ** The remembered blob *)

Lemma fromCborFuel_original fuel cbor d : fromCborFuel fuel cbor = Ok d -> originalBytesOf d = Some cbor.
Proof.
  destruct fuel as [|fuel]; [done|]. cbn [fromCborFuel]. destruct (decode _ cbor) as [x|e|]; cbn; try done.
  intros [= <-]. by destruct x.
Qed.

Lemma toCbor_original d cbor : originalBytesOf d = Some cbor -> cbor <> ""%string -> toCbor d = Ok cbor.
Proof.
  intros Ho Hne. apply String.eqb_neq in Hne. destruct d; cbn [toCbor originalBytesOf] in *; rewrite Ho; cbn; by rewrite Hne.
Qed.

(** Nothing is decoded from no bytes. *)
Lemma fromCbor_empty d : fromCbor "" <> Ok d.
Proof. by vm_compute. Qed.

(** ** What the serialization of Plutus data guarantees

    The properties of [PlutusData.v], with a concrete instance of every
    conditional one, and the places where the code departs from what it says. *)

(** C20. Round trip: data built with the constructors of the classes, nested to
    any depth, with integers from -2^64 upwards of any size and byte strings of
    any length, is encoded as one well-formed CBOR item, and decoding that item
    gives back equal data, which encodes to the same bytes again. *)
Theorem plutus_round_trip d : encodable d = true ->
  exists l, toCbor d = Ok (Buffer_to_hex l) /\ item l /\
    (zlen l < 2 ^ 53 -> exists d', fromCbor (Buffer_to_hex l) = Ok d' /\ equals d' d = true /\
      toCbor d' = Ok (Buffer_to_hex l)).
Proof.
  intros Hd. destruct (encodable_round_trip d Hd) as (l & [He Hi Hb] & Hdec). exists l. split_and!; [done..|].
  intros Hz. unfold fromCbor, hexToBytes. rewrite Buffer_hex_roundtrip by done.
  destruct (Hdec (S (length l)) Hz ltac:(lia)) as (d' & E & Es). exists d'. split_and!; [done|by apply equals_strip|].
  apply toCbor_original; [by eapply fromCborFuel_original|].
  intros E0. apply (f_equal Buffer_from_hex) in E0. rewrite Buffer_hex_roundtrip in E0 by done.
  destruct (item_first l Hi) as (b & k & -> & _). done.
Qed.

Lemma plutus_round_trip_witness :
  let d := newConstrPlutusData 200 [newMap false [(newInteger (2 ^ 70), newBytes (replicate 65 7))]; newList [newInteger (-1)]] in
  exists l, toCbor d = Ok (Buffer_to_hex l) /\ item l /\
    (zlen l < 2 ^ 53 -> exists d', fromCbor (Buffer_to_hex l) = Ok d' /\ equals d' d = true /\
      toCbor d' = Ok (Buffer_to_hex l)).
Proof. apply plutus_round_trip. reflexivity. Defined.

(** Decoding ends on every blob, well formed or not, and what it accepts is
    re-encoded to exactly the blob it was given, so that hashes are kept. *)
Theorem plutus_decode_total cbor : zlen (Buffer_from_hex cbor) < 2 ^ 53 ->
  fromCbor cbor <> OutOfFuel /\ forall d, fromCbor cbor = Ok d -> toCbor d = Ok cbor.
Proof.
  intros Hz. split; [apply fromCborFuel_ends; [done|]; unfold hexToBytes; lia|]. intros d Hd.
  apply toCbor_original; [by eapply fromCborFuel_original|]. intros ->. by apply fromCbor_empty in Hd.
Qed.

Lemma plutus_decode_total_witness :
  fromCbor "9f0102ff" = Ok (PlutusList [Integer 1 (Some "01"%string); Integer 2 (Some "02"%string)] (Some "9f0102ff"%string)) /\
  toCbor (PlutusList [Integer 1 (Some "01"%string); Integer 2 (Some "02"%string)] (Some "9f0102ff"%string)) = Ok "9f0102ff"%string /\
  fromCbor "9f01d87a82" <> OutOfFuel.
Proof.
  assert (E : fromCbor "9f0102ff" = Ok (PlutusList [Integer 1 (Some "01"%string); Integer 2 (Some "02"%string)] (Some "9f0102ff"%string)))
    by (vm_compute; reflexivity).
  split; [exact E|]. split; [apply (plutus_decode_total "9f0102ff"); [reflexivity|exact E]|].
  apply plutus_decode_total. reflexivity.
Defined.

(** [equals] holds exactly when two data are the same up to the blobs they were
    decoded from. *)
Theorem plutus_equals_exact d d' : equals d d' = true <-> strip d = strip d'.
Proof. apply equals_strip. Qed.

(** Through the core types: decoded constructors and maps come back as the same
    instance, so their bytes and hashes survive. *)
Theorem plutus_core_keeps_bytes cbor d c : fromCbor cbor = Ok d ->
  (exists a l o, d = ConstrPlutusData a l o) \/ (exists b m o, d = PlutusMap b m o) ->
  toCore d = Ok c -> fromCore c = Ok d.
Proof.
  intros Hd Hk Hc. assert (Ho : originalBytesOf d = Some cbor) by by eapply fromCborFuel_original.
  assert (Hne : cbor <> ""%string) by (intros ->; by apply fromCbor_empty in Hd).
  pose proof (toCbor_original d cbor Ho Hne) as Ht. apply String.eqb_neq in Hne.
  destruct Hk as [(a & l & o & ->)|(b & m & o & ->)]; cbn [toCore] in Hc; rewrite Ht in Hc; cbn in Hc.
  - destruct (mapM toCore l) as [items|e|]; try done. cbn in Hc. destruct (PlutusList_toCbor toCbor l); try done.
    injection Hc as <-. cbn. by rewrite Hne.
  - destruct (toCoreEntries _ _ _) as [m'|e|]; try done. injection Hc as <-. cbn. by rewrite Hne.
Qed.

Lemma plutus_core_keeps_bytes_witness :
  fromCore (CoreConstr (Some "d87982050a"%string) 0 (Some "9f050aff"%string) [CoreBigInt 5; CoreBigInt 10]) =
  Ok (ConstrPlutusData 0 [Integer 5 (Some "05"%string); Integer 10 (Some "0a"%string)] (Some "d87982050a"%string)).
Proof.
  apply (plutus_core_keeps_bytes "d87982050a"
    (ConstrPlutusData 0 [Integer 5 (Some "05"%string); Integer 10 (Some "0a"%string)] (Some "d87982050a"%string))).
  - vm_compute. reflexivity.
  - left. by eexists 0, _, _.
  - vm_compute. reflexivity.
Defined.

(** ** Where the code departs from what it says *)

(** Negative integers below -2^64 come back one larger: the encoder writes the
    magnitude -1 - n of RFC 7049, the decoder negates it. *)
Theorem plutus_negative_bignum_off_by_one z : z < - 2 ^ 64 ->
  exists l, toCbor (newInteger z) = Ok (Buffer_to_hex l) /\
    (zlen l < 2 ^ 53 -> fromCbor (Buffer_to_hex l) = Ok (Integer (z + 1) (Some (Buffer_to_hex l)))).
Proof.
  intros Hz. destruct (writeInteger_big z ltac:(lia)) as (l & Hl & Hi & Hb & Hr). rewrite (proj2 (Z.ltb_lt _ _)) in Hr by lia.
  exists l. split; [by apply encode_emits|]. intros Hsz.
  unfold fromCbor.
  exact (fromCbor_reads (length (hexToBytes (Buffer_to_hex l))) l (newInteger (z + 1)) (Hr _) Hb Hsz).
Qed.

Lemma plutus_negative_bignum_off_by_one_witness :
  exists l, toCbor (newInteger (- 2 ^ 64 - 1)) = Ok (Buffer_to_hex l) /\
    (zlen l < 2 ^ 53 -> fromCbor (Buffer_to_hex l) = Ok (Integer (- 2 ^ 64 - 1 + 1) (Some (Buffer_to_hex l)))).
Proof. apply plutus_negative_bignum_off_by_one. lia. Defined.

(** A tag that stands for no constructor is not refused: it decodes as
    alternative 102, as if it were tag 1375. *)
Theorem plutus_unknown_tag_is_alternative_102 :
  fromCbor "d88080" = Ok (ConstrPlutusData 102 [] (Some "d88080"%string)) /\
  toCbor (newConstrPlutusData 102 []) = Ok "d9055f80"%string.
Proof. split; vm_compute; reflexivity. Qed.

(** A list of definite length loses its bytes on the way through the core type,
    and so its hash: the blob kept there is a new encoding. *)
Theorem plutus_core_list_is_reencoded :
  exists d c d', fromCbor "820102" = Ok d /\ toCore d = Ok c /\ fromCore c = Ok d' /\
    toCbor d = Ok "820102"%string /\ toCbor d' = Ok "9f0102ff"%string.
Proof.
  exists (PlutusList [Integer 1 (Some "01"%string); Integer 2 (Some "02"%string)] (Some "820102"%string)),
    (CoreList (Some "9f0102ff"%string) None [CoreBigInt 1; CoreBigInt 2]),
    (PlutusList [Integer 1 (Some "01"%string); Integer 2 (Some "02"%string)] (Some "9f0102ff"%string)).
  split_and!; vm_compute; reflexivity.
Qed.

(** The [encoding] of a core list or map, documented to control how it is
    serialized, is ignored. *)
Theorem plutus_encoding_is_ignored e e' items m :
  fromCore (CoreList None e items) = fromCore (CoreList None e' items) /\
  fromCore (CoreMap None e m) = fromCore (CoreMap None e' m) /\
  (d ← fromCore (CoreList None (Some FixedLength) [CoreBigInt 1]); toCbor d) = Ok "9f01ff"%string.
Proof. split_and!; [done|done|vm_compute; reflexivity]. Qed.

(** ** Datums of outputs: facts

    Which core data a datum can be such that it survives encoding: integers,
    byte strings, and data that carries the blob it was decoded from, as every
    list, map and constructor that [PlutusData.toCore] makes does. *)

Import CborReader CborWriterFacts.

#[export] Instance PlutusEncoding_eq_dec : EqDecision PlutusEncoding.
Proof. solve_decision. Defined.

Fixpoint CorePlutusData_dec (x y : CorePlutusData) : {x = y} + {x <> y}.
Proof.
  decide equality; try apply (decide (_ = _)).
  - apply (@list_eq_dec _ CorePlutusData_dec).
  - apply (@list_eq_dec _ (@prod_eq_dec _ CorePlutusData_dec _ CorePlutusData_dec)).
  - apply (@list_eq_dec _ CorePlutusData_dec).
Defined.

#[export] Instance CorePlutusData_eq_dec : EqDecision CorePlutusData := CorePlutusData_dec.

(** The blob says which datum it is. *)
Definition carriesBlob (cbor : option HexBlob) (d : CorePlutusData) : bool :=
  match cbor with
  | Some h => match PlutusData.fromCbor h with Ok p => bool_decide (PlutusData.toCore p = Ok d) | _ => false end && String.eqb (Buffer_to_hex (Buffer_from_hex h)) h
  | None => false
  end.

Definition isDatum (d : CorePlutusData) : bool :=
  match d with
  | CoreBigInt z => - 2 ^ 64 <=? z
  | CoreBytes s => forallb (fun b => (0 <=? b) && (b <? 256)) s
  | CoreList cbor _ _ | CoreMap cbor _ _ | CoreConstr cbor _ _ _ => carriesBlob cbor d
  end.

Definition datumBytes (d : CorePlutusData) : list Z :=
  match PlutusData.fromCore d with
  | Ok p => match PlutusData.toCbor p with Ok h => Buffer_from_hex h | _ => [] end
  | _ => []
  end.

(** A datum that survives. *)
Record survives (d : CorePlutusData) (p : PlutusData) (l : list Z) : Prop := {
  survives_bytes : bytes l;
  survives_fromCore : PlutusData.fromCore d = Ok p;
  survives_toCore : PlutusData.toCore p = Ok d;
  survives_toCbor : PlutusData.toCbor p = Ok (Buffer_to_hex l);
  survives_fromCbor : zlen l < 2 ^ 53 -> exists p', PlutusData.fromCbor (Buffer_to_hex l) = Ok p' /\ PlutusData.toCore p' = Ok d
}.

Lemma survives_datumBytes d p l : survives d p l -> datumBytes d = l.
Proof. intros [Hb E1 _ E2 _]. unfold datumBytes. by rewrite E1, E2, Buffer_hex_roundtrip. Qed.

Lemma scalar_survives d p : PlutusData.fromCore d = Ok p -> PlutusData.toCore p = Ok d -> encodable p = true ->
  (forall p', strip p' = strip p -> PlutusData.toCore p' = PlutusData.toCore p) -> exists l, survives d p l.
Proof.
  intros E1 E2 (l & [He Hi Hb] & Hdec)%encodable_round_trip Hs. exists l. split; [done..|]. intros Hz.
  unfold PlutusData.fromCbor, hexToBytes. rewrite Buffer_hex_roundtrip by done.
  destruct (Hdec (S (length l)) Hz ltac:(lia)) as (d' & E & Es). exists d'. split; [done|]. by rewrite Hs.
Qed.

Lemma blob_survives cbor d : (truthy cbor = true -> PlutusData.fromCore d = PlutusData.fromCbor (default ""%string cbor)) -> carriesBlob cbor d = true ->
  exists p l, survives d p l.
Proof.
  intros Ef Hc. destruct cbor as [h|]; [|done]. apply andb_true_iff in Hc as [Hc Hh%String.eqb_eq].
  destruct (PlutusData.fromCbor h) as [p|e|] eqn:E; try done. apply bool_decide_eq_true in Hc.
  assert (Hne : h <> ""%string) by (intros ->; by apply fromCbor_empty in E).
  assert (Ht : truthy (Some h) = true) by (cbn; by apply String.eqb_neq in Hne as ->). specialize (Ef Ht). cbn [default from_option id] in Ef.
  exists p, (Buffer_from_hex h). split; rewrite ?Hh; [apply Buffer_from_hex_bytes|by rewrite Ef|done| |by exists p].
  apply toCbor_original; [by eapply fromCborFuel_original|done].
Qed.

Lemma datum_survives d : isDatum d = true -> exists p l, survives d p l.
Proof.
  destruct d as [z|s|cbor e items|cbor e m|cbor a f items]; cbn [isDatum]; intros Hd.
  - exists (newInteger z). apply scalar_survives; [done..|]. intros p' Hp. by destruct p'; cbn in Hp; simplify_eq.
  - exists (newBytes s). apply scalar_survives; [done..|]. intros p' Hp. by destruct p'; cbn in Hp; simplify_eq.
  - apply (blob_survives cbor); [|done]. intros Ht. cbn. by rewrite Ht.
  - apply (blob_survives cbor); [|done]. intros Ht. cbn. by rewrite Ht.
  - apply (blob_survives cbor); [|done]. intros Ht. cbn. by rewrite Ht.
Qed.

Lemma plutus_ends cbor : zlen (Buffer_from_hex cbor) < 2 ^ 53 -> PlutusData.fromCbor cbor <> OutOfFuel.
Proof. intros Hz. apply fromCborFuel_ends; [done|]. unfold hexToBytes. lia. Qed.
