(* ===== verification/Credential.v ===== *)
(** * Hashes and credentials

    Models [packages/core/src/Serialization/Common/Credential.ts], the core
    [Credential] type of [Cardano/Address/Address.ts], and the checked hex
    strings of [packages/util/src/primitives.ts] and
    [packages/crypto/src/hexTypes.ts], with what the classes that embed hashes
    and credentials rely on. *)

From S2P Require Import Prelude JsRuntime Utf8 CborCommon Half CborWriter CborReader CborMachine CborExact CborSkip CborDocuments Codec CodecFacts.

(** ** Checked hexadecimal strings *)

(** [/^[\da-f]+$/i] *)
Fixpoint isHexString (s : string) : bool :=
  match s with
  | EmptyString => true
  | String c s => match hex_val c with Some _ => isHexString s | None => false end
  end.

(** [typedHex] with [assertIsHexString] and [assertLength]. *)
Definition typedHex (value : string) (length : Z) : Res string :=
  let n := Z.of_nat (String.length value) in
  if negb (length =? 0) && negb (n =? length) then
    Throw (InvalidStringError ("expected length '" +:+ pretty length +:+ "', got " +:+ pretty n))
  else if (0 <? n) && negb (isHexString value) then Throw (InvalidStringError "expected hex string")
  else Ok value.

Definition Ed25519KeyHashHex (value : string) : Res string := typedHex value 56.
Definition Hash28ByteBase16 (value : string) : Res string := typedHex value 56.
Definition Hash32ByteBase16 (value : string) : Res string := typedHex value 64.

(** [`${length}`] of the result of [readStartArray]. *)
Definition lengthText (length : option Z) : string := match length with Some n => pretty n | None => "null" end.

(** ** Credentials *)

Record Credential : Set := { hash : string; type : Z }.

Module CredentialType.
Definition KeyHash : Z := 0.
Definition ScriptHash : Z := 1.
End CredentialType.

Definition CREDENTIAL_ARRAY_SIZE : Z := 2.

Definition Credential_toCbor (c : Credential) : Res HexBlob :=
  encode (
    call (CborWriter.writeStartArray (Some CREDENTIAL_ARRAY_SIZE)) ;;
    call (CborWriter.writeInt (type c)) ;;
    call (CborWriter.writeByteString (hexToBytes (hash c)))).

Definition readCredentialType : Dec Z :=
  n ← call CborReader.readInt;
  let type := Number_of n in
  st_guard (negb (type =? CredentialType.KeyHash) && negb (type =? CredentialType.ScriptHash))
    (InvalidStateError ("Unexpected credential type value: " +:+ pretty type)) ;;
  mret type.

(** The message of the length check refers to a variable [length] that is not
    declared: under Node evaluating it throws a [ReferenceError]. *)
Definition Credential_fromCbor (cbor : HexBlob) : Res Credential :=
  decode (
    length ← call CborReader.readStartArray;
    st_guard (negb (bool_decide (length = Some CREDENTIAL_ARRAY_SIZE)))
      (JsError "ReferenceError: length is not defined") ;;
    type ← readCredentialType;
    bytes ← call CborReader.readByteString;
    call CborReader.readEndArray ;;
    mret {| hash := HexBlob_fromBytes bytes; type := type |}) cbor.

Import CborReader CborWriterFacts.

(** ** Their specified encodings *)

Definition blobBytes (h : string) : list Z := stringBytes (Buffer_from_hex h).

Definition credentialBytes (c : Credential) : list Z :=
  CborWriter.head Array 2 ++ intBytes (Credential.type c) ++ blobBytes (hash c).

(** Hashes are written in lower-case hexadecimal. *)
Definition isBlob (h : string) : bool := String.eqb (Buffer_to_hex (Buffer_from_hex h)) h.

(** A hash of [n] characters. *)
Definition isHash (n : Z) (h : string) : bool := isBlob h && (Z.of_nat (String.length h) =? n).

Definition isSafe (z : Z) : bool := (- 2 ^ 53 <? z) && (z <? 2 ^ 53).

(** ** Hexadecimal *)

Lemma isHexString_blob l : bytes l -> isHexString (Buffer_to_hex l) = true.
Proof.
  induction 1 as [|b l Hb _ IH]; [done|]. unfold is_byte in Hb. cbn.
  rewrite !hex_val_char; [done|split; [apply Z.mod_pos_bound|apply Z.mod_pos_bound]; lia|].
  split; [apply Z.div_pos; lia|apply Z.div_lt_upper_bound; lia].
Qed.

Lemma length_to_hex l : Z.of_nat (String.length (Buffer_to_hex l)) = 2 * zlen l.
Proof. induction l as [|b l IH]; [done|]. rewrite zlen_cons. cbn [Buffer_to_hex String.length]. lia. Qed.

Lemma isBlob_eq h : isBlob h = true -> Buffer_to_hex (Buffer_from_hex h) = h.
Proof. apply String.eqb_eq. Qed.

Lemma isHash_spec n h : isHash n h = true ->
  isBlob h = true /\ Z.of_nat (String.length h) = n /\ 2 * zlen (Buffer_from_hex h) = n.
Proof.
  intros [Hb Hn%Z.eqb_eq]%andb_true_iff. split_and!; [done..|].
  pose proof (length_to_hex (Buffer_from_hex h)) as H. rewrite isBlob_eq in H by done. lia.
Qed.

Lemma typedHex_blob h n : isHash n h = true -> typedHex h n = Ok h.
Proof.
  intros (Hb & Hn & _)%isHash_spec. unfold typedHex. cbv zeta. rewrite Hn, Z.eqb_refl, andb_false_r.
  rewrite <- (isBlob_eq h Hb) at 1. by rewrite isHexString_blob, andb_false_r by apply Buffer_from_hex_bytes.
Qed.

Lemma typedHex_bytes l n : bytes l -> 2 * zlen l = n -> typedHex (Buffer_to_hex l) n = Ok (Buffer_to_hex l).
Proof.
  intros Hl Hn. apply typedHex_blob, andb_true_iff. split; [apply String.eqb_eq; by rewrite Buffer_hex_roundtrip|].
  rewrite length_to_hex. by apply Z.eqb_eq.
Qed.

Lemma typedHex_fuel h n : typedHex h n <> OutOfFuel.
Proof. unfold typedHex. repeat case_bool; done. Qed.

Section blob.
Context (h : string) (Hz : zlen (Buffer_from_hex h) < 2 ^ 53).

Lemma blobBytes_item : item (blobBytes h).
Proof. apply stringBytes_item. lia. Qed.

Lemma blobBytes_bytes : bytes (blobBytes h).
Proof. apply stringBytes_bytes, Buffer_from_hex_bytes. Qed.

Lemma blobBytes_emits : emits (call (CborWriter.writeByteString (Buffer_from_hex h))) (blobBytes h).
Proof. apply stringBytes_emits. lia. Qed.

Lemma blobBytes_reads : reads (call readByteString) (blobBytes h) (Buffer_from_hex h).
Proof. apply stringBytes_reads. lia. Qed.
End blob.

(** ** Credentials are read back *)

Section credential.
Context (c : Credential).
Context (Hc : (Credential.type c =? 0) || (Credential.type c =? 1) = true) (Hb : isBlob (hash c) = true).
Context (Hz : zlen (Buffer_from_hex (hash c)) < 2 ^ 53).

#[local] Lemma type_range : Credential.type c = 0 \/ Credential.type c = 1.
Proof. apply orb_true_iff in Hc as [H|H]; apply Z.eqb_eq in H; auto. Qed.

Lemma credentialBytes_item : item (credentialBytes c).
Proof.
  pose proof type_range. apply record_item; [lia|]. apply (items_cons 1); [apply intBytes_item; lia|].
  rewrite <- (app_nil_r (blobBytes _)). apply (items_cons 0); [by apply blobBytes_item|constructor].
Qed.

Lemma credentialBytes_bytes : bytes (credentialBytes c).
Proof.
  pose proof type_range. unfold credentialBytes. rewrite !Forall_app. split_and!; [by apply head_bytes|apply intBytes_bytes; lia|apply blobBytes_bytes].
Qed.

Lemma Credential_toCbor_exact : Credential_toCbor c = Ok (Buffer_to_hex (credentialBytes c)).
Proof.
  pose proof type_range. apply encode_emits, record_emits; [done|]. apply emits_bind; [apply intBytes_emits; lia|].
  by apply blobBytes_emits.
Qed.

Lemma readCredentialType_reads : reads readCredentialType (intBytes (Credential.type c)) (Credential.type c).
Proof.
  intros r rest Hr Hp H1. pose proof type_range. unfold readCredentialType.
  rewrite (st_bind_ok _ _ _ _ _ (intBytes_reads (Credential.type c) ltac:(lia) r rest Hr Hp H1)). cbv zeta.
  rewrite Number_of_exact by lia. rewrite st_guard_ok; [done|].
  unfold CredentialType.KeyHash, CredentialType.ScriptHash. apply orb_true_iff in Hc as [-> | ->]; by rewrite ?andb_false_r.
Qed.

Lemma Credential_fromCbor_exact : zlen (credentialBytes c) < 2 ^ 53 ->
  Credential_fromCbor (Buffer_to_hex (credentialBytes c)) = Ok c.
Proof.
  intros Hl. apply decode_reads; [|apply credentialBytes_bytes|done].
  eapply (reads_record 2 _ (t ← readCredentialType; b ← call readByteString; mret (Build_Credential (HexBlob_fromBytes b) t))).
  - lia.
  - apply (readsN_bind 1 1 _ _ _ _ (Credential.type c)); [lia..|apply readCredentialType_reads|].
    assert (E : c = (Build_Credential (HexBlob_fromBytes (Buffer_from_hex (hash c))) (Credential.type c))).
    { unfold HexBlob_fromBytes. rewrite isBlob_eq by done. by destruct c. }
    pose proof (reads_fmap 1 _ (fun b => Build_Credential (HexBlob_fromBytes b) (Credential.type c)) _ _ (blobBytes_reads (hash c) Hz)) as H.
    cbv beta in H. by rewrite <- E in H.
  - intros r. rewrite st_guard_ok by done. unfold mbind, ST_bind, mret, ST_ret.
    destruct (readCredentialType r) as [[t|e|] r1]; [|done..]. by destruct (call readByteString r1) as [[] r2].
Qed.
End credential.

(** ** Numbers and ends *)

Lemma reads_number z : - 2 ^ 53 < z < 2 ^ 53 -> reads (n ← call readInt; mret (Number_of n)) (intBytes z) z.
Proof.
  intros Hz. rewrite <- (Number_of_exact z) at 2 by lia. apply (reads_fmap 1 _ Number_of), intBytes_reads. lia.
Qed.

Lemma safe_range z : isSafe z = true -> - 2 ^ 53 < z < 2 ^ 53.
Proof. unfold isSafe. intros [? ?]%andb_true_iff. zb. lia. Qed.

Lemma item_items l : item l -> items 1 l.
Proof. intros Hi. rewrite <- (app_nil_r l). apply (items_cons 0); [done|constructor]. Qed.

Lemma scalar_runs {A B} (m : M A) (g : A -> Dec B) r : reads_item m -> wf r -> (forall v r', wf r' -> runs r' (g v) (fun _ _ => True)) ->
  runs r (x ← call m; g x) (fun _ _ => True).
Proof.
  intros Hm Hw Hg. eapply runs_bind; [by apply item_runs|]. intros v r' Hr _. apply Hg. by eapply rtc_step_wf.
Qed.

Lemma Credential_ends cbor : zlen (Buffer_from_hex cbor) < 2 ^ 53 -> Credential_fromCbor cbor <> OutOfFuel.
Proof.
  intros Hz. apply record_ends; [|done]. intros n r Hw _ _. apply runs_guard.
  eapply (runs_bind _ _ _ (fun _ _ => True)).
  { apply scalar_runs; [apply readInt_item|done|]. intros v r' _. cbv zeta. apply runs_guard. by apply runs_ret. }
  intros t r' Hr' _. apply scalar_runs; [apply (readString_item ByteString)|by eapply rtc_step_wf|].
  intros b r2 Hw2. eapply runs_bind; [apply leave_runs; [apply readEndArray_leaves|done]|]. intros. by apply runs_ret.
Qed.

