(* ===== verification/Address.v ===== *)
(** * Addresses

    Models [packages/core/src/Cardano/Address]: [Address.ts] and the five kinds
    of address it packs and unpacks, Shelley ([BaseAddress.ts],
    [PointerAddress.ts], [EnterpriseAddress.ts], [RewardAddress.ts]) and
    bootstrap ([ByronAddress.ts]).

    An [Address] is its properties, of which each kind uses some; reading a
    property that is absent is the [TypeError] it is in JavaScript.  The textual
    encodings are those of the package [@scure/base] and the checksum that of
    [@foxglove/crc]: both are interfaces with the behaviour they document. *)

From S2P Require Import Prelude JsRuntime CborCommon CborWriter CborReader Codec Credential.

(** ** Types *)

Module AddressType.
Definition BasePaymentKeyStakeKey : Z := 0.
Definition BasePaymentScriptStakeKey : Z := 1.
Definition BasePaymentKeyStakeScript : Z := 2.
Definition BasePaymentScriptStakeScript : Z := 3.
Definition PointerKey : Z := 4.
Definition PointerScript : Z := 5.
Definition EnterpriseKey : Z := 6.
Definition EnterpriseScript : Z := 7.
Definition Byron : Z := 8.
Definition RewardKey : Z := 14.
Definition RewardScript : Z := 15.
End AddressType.

Module NetworkId.
Definition Mainnet : Z := 1.
Definition Testnet : Z := 0.
End NetworkId.

Record Pointer : Set := { slot : Z; txIndex : Z; certIndex : Z }.

Record ByronAttributes : Set := { derivationPath : option HexBlob; magic : option Z }.

Record ByronAddressContent : Set := { root : string; attrs : ByronAttributes; byronType : Z }.

(** [AddressProps], which is all an [Address] holds. *)
Record Address : Set := {
  addressType : Z;
  networkId : option Z;
  pointer : option Pointer;
  paymentPart : option Credential;
  delegationPart : option Credential;
  byronAddressContent : option ByronAddressContent
}.

#[export] Instance Pointer_eq_dec : EqDecision Pointer.
Proof. solve_decision. Defined.
#[export] Instance Credential_eq_dec : EqDecision Credential.
Proof. solve_decision. Defined.
#[export] Instance ByronAttributes_eq_dec : EqDecision ByronAttributes.
Proof. solve_decision. Defined.
#[export] Instance ByronAddressContent_eq_dec : EqDecision ByronAddressContent.
Proof. solve_decision. Defined.
#[export] Instance Address_eq_dec : EqDecision Address.
Proof. solve_decision. Defined.

(** The cases of the [switch]es on the type. *)
Definition isBaseType (type : Z) : bool :=
  (type =? AddressType.BasePaymentKeyStakeKey) || (type =? AddressType.BasePaymentScriptStakeKey) ||
  (type =? AddressType.BasePaymentKeyStakeScript) || (type =? AddressType.BasePaymentScriptStakeScript).

Definition isPointerType (type : Z) : bool := (type =? AddressType.PointerKey) || (type =? AddressType.PointerScript).
Definition isEnterpriseType (type : Z) : bool := (type =? AddressType.EnterpriseKey) || (type =? AddressType.EnterpriseScript).
Definition isRewardType (type : Z) : bool := (type =? AddressType.RewardKey) || (type =? AddressType.RewardScript).

(** [props.paymentPart!.hash] *)
Definition required {A} (o : option A) : Res A :=
  match o with Some a => Ok a | None => Throw (JsError "TypeError: Cannot read properties of undefined") end.

(** [Buffer.from([(props.type << 4) | props.networkId!])] *)
Definition packHeader (p : Address) : list Z :=
  [Z.land (Z.lor (Z.shiftl (addressType p) 4) (default 0 (networkId p))) 255].

(** ** Base addresses *)

Module BaseAddress.
Definition fromCredentials (network : Z) (payment stake : Credential) : Address :=
  let type := AddressType.BasePaymentKeyStakeKey in
  let type := if Credential.type payment =? CredentialType.ScriptHash then Z.lor type 1 else type in
  let type := if Credential.type stake =? CredentialType.ScriptHash then Z.lor type 2 else type in
  {| addressType := type; networkId := Some network; pointer := None; paymentPart := Some payment;
     delegationPart := Some stake; byronAddressContent := None |}.

Definition packParts (p : Address) : Res (list Z) :=
  payment ← required (paymentPart p);
  delegation ← required (delegationPart p);
  Ok (packHeader p ++ Buffer_from_hex (hash payment) ++ Buffer_from_hex (hash delegation)).

Definition unpackParts (type : Z) (data : list Z) : Res Address :=
  if negb (zlen data =? 57) then Throw (InvalidArgumentError "data" "Base address data length should be 57 bytes long.")
  else
    let network := Z.land (byte_at data 0) 15 in
    paymentCredential ← Hash28ByteBase16 (Buffer_to_hex (slice data 1 29));
    stakeCredential ← Hash28ByteBase16 (Buffer_to_hex (slice data 29 57));
    let delegationCredType :=
      if (type =? AddressType.BasePaymentKeyStakeScript) || (type =? AddressType.BasePaymentScriptStakeScript)
      then CredentialType.ScriptHash else CredentialType.KeyHash in
    let paymentCredType :=
      if (type =? AddressType.BasePaymentScriptStakeKey) || (type =? AddressType.BasePaymentScriptStakeScript)
      then CredentialType.ScriptHash else CredentialType.KeyHash in
    Ok {| addressType := type; networkId := Some network; pointer := None;
          paymentPart := Some {| hash := paymentCredential; Credential.type := paymentCredType |};
          delegationPart := Some {| hash := stakeCredential; Credential.type := delegationCredType |};
          byronAddressContent := None |}.

(** [fromAddress] gives a view of the same properties. *)
Definition fromAddress (p : Address) : option Address :=
  if isBaseType (addressType p) then Some p else None.
End BaseAddress.

(** ** Pointer addresses *)

Module PointerAddress.
(** [val.toString(2).length] *)
Definition bitLength (val : Z) : Z := if val =? 0 then 1 else Z.log2 val + 1.

Fixpoint encodeLoop (fuel : nat) (val bitLength : Z) (encoded : list Z) : list Z :=
  match fuel with
  | O => encoded
  | S fuel' =>
      if 7 <? bitLength then
        let val := Z.shiftr val 7 in
        encodeLoop fuel' val (bitLength - 7) ((Z.land val 127 + 128) :: encoded)
      else encoded
  end.

Definition variableLengthEncode (val : Z) : Res (list Z) :=
  if val <? 0 then
    Throw (InvalidArgumentError "val" ("Negative numbers not supported. Number supplied: " +:+ pretty val))
  else Ok (encodeLoop (Z.to_nat (bitLength val)) val (bitLength val) [Z.land val 127]).

Fixpoint decodeLoop (array : list Z) (value bytesRead : Z) : Z * Z :=
  match array with
  | [] => (value, bytesRead)
  | b :: array =>
      let value := Z.lor (Z.shiftl value 7) (Z.land b 127) in
      if Z.land b 128 =? 0 then (value, bytesRead + 1) else decodeLoop array value (bytesRead + 1)
  end.

Definition variableLengthDecode (array : list Z) : Z * Z := decodeLoop array 0 0.

(** A script credential is meant to select [PointerScript]; [type &= 0b0001]
    clears the type instead. *)
Definition fromCredentials (network : Z) (payment : Credential) (ptr : Pointer) : Address :=
  let type := AddressType.PointerKey in
  let type := if Credential.type payment =? CredentialType.ScriptHash then Z.land type 1 else type in
  {| addressType := type; networkId := Some network; pointer := Some ptr; paymentPart := Some payment;
     delegationPart := None; byronAddressContent := None |}.

Definition packParts (p : Address) : Res (list Z) :=
  ptr ← required (pointer p);
  payment ← required (paymentPart p);
  slot ← variableLengthEncode (slot ptr);
  txIndex ← variableLengthEncode (txIndex ptr);
  certIndex ← variableLengthEncode (certIndex ptr);
  Ok (packHeader p ++ Buffer_from_hex (hash payment) ++ slot ++ txIndex ++ certIndex).

Definition unpackParts (type : Z) (data : list Z) : Res Address :=
  if zlen data <=? 29 then
    Throw (InvalidArgumentError "data" "Pointer address data length should greater than 29 bytes long.")
  else
    let network := Z.land (byte_at data 0) 15 in
    paymentCredential ← Hash28ByteBase16 (Buffer_to_hex (slice data 1 29));
    let index := 29 in
    let '(slot, slotBytes) := variableLengthDecode (slice_from data index) in
    let index := index + slotBytes in
    let '(txIndex, txIndexBytes) := variableLengthDecode (slice_from data index) in
    let index := index + txIndexBytes in
    let '(certIndex, _) := variableLengthDecode (slice_from data index) in
    Ok {| addressType := type; networkId := Some network;
          pointer := Some {| slot := slot; txIndex := Number_of txIndex; certIndex := Number_of certIndex |};
          paymentPart := Some {| hash := paymentCredential;
            Credential.type := if type =? AddressType.PointerScript then CredentialType.ScriptHash else CredentialType.KeyHash |};
          delegationPart := None; byronAddressContent := None |}.

Definition fromAddress (p : Address) : option Address :=
  if isPointerType (addressType p) then Some p else None.
End PointerAddress.

(** ** Enterprise and reward addresses *)

(** Both kinds are a header and one hash. *)
Definition packPayment (p : Address) : Res (list Z) :=
  payment ← required (paymentPart p);
  Ok (packHeader p ++ Buffer_from_hex (hash payment)).

Definition unpackPayment (scriptType type : Z) (data : list Z) : Res Address :=
  if negb (zlen data =? 29) then
    Throw (InvalidArgumentError "data" "Enterprise address data length should be 29 bytes long.")
  else
    let network := Z.land (byte_at data 0) 15 in
    paymentCredential ← Hash28ByteBase16 (Buffer_to_hex (slice data 1 29));
    Ok {| addressType := type; networkId := Some network; pointer := None;
          paymentPart := Some {| hash := paymentCredential;
            Credential.type := if type =? scriptType then CredentialType.ScriptHash else CredentialType.KeyHash |};
          delegationPart := None; byronAddressContent := None |}.

Definition paymentAddress (type network : Z) (payment : Credential) : Address :=
  {| addressType := type; networkId := Some network; pointer := None; paymentPart := Some payment;
     delegationPart := None; byronAddressContent := None |}.

Module EnterpriseAddress.
Definition fromCredentials (network : Z) (payment : Credential) : Address :=
  let type :=
    if Credential.type payment =? CredentialType.ScriptHash then AddressType.EnterpriseScript else AddressType.EnterpriseKey in
  paymentAddress type network payment.
Definition packParts (p : Address) : Res (list Z) := packPayment p.
Definition unpackParts (type : Z) (data : list Z) : Res Address := unpackPayment AddressType.EnterpriseScript type data.
Definition fromAddress (p : Address) : option Address :=
  if isEnterpriseType (addressType p) then Some p else None.
End EnterpriseAddress.

Module RewardAddress.
Definition fromCredentials (network : Z) (payment : Credential) : Address :=
  let type := AddressType.RewardKey in
  let type := if Credential.type payment =? CredentialType.ScriptHash then Z.lor type 1 else type in
  paymentAddress type network payment.
Definition packParts (p : Address) : Res (list Z) := packPayment p.
Definition unpackParts (type : Z) (data : list Z) : Res Address := unpackPayment AddressType.RewardScript type data.
Definition fromAddress (p : Address) : option Address :=
  if isRewardType (addressType p) then Some p else None.
End RewardAddress.

(** ** Byron addresses *)

(** The checksum of [@foxglove/crc]: a 32-bit unsigned number. *)
Class Crc32 := crc32 : list Z -> Z.
Class Crc32Laws `{Crc32} : Prop := crc32_range l : 0 <= crc32 l < 2 ^ 32.

Module ByronAddress.
Section byron.
Context `{Crc32}.

Definition fromCredentials (rootHash : string) (a : ByronAttributes) (type : Z) : Address :=
  {| addressType := AddressType.Byron; networkId := None; pointer := None; paymentPart := None; delegationPart := None;
     byronAddressContent := Some {| root := rootHash; attrs := a; byronType := type |} |}.

(** [if (attrs.derivationPath)] and [if (attrs.magic)] *)
Definition pathSet (a : ByronAttributes) : option HexBlob :=
  match derivationPath a with Some h => if String.eqb h "" then None else Some h | None => None end.
Definition magicSet (a : ByronAttributes) : option Z :=
  match magic a with Some m => if m =? 0 then None else Some m | None => None end.

Definition writeAttribute (key : Z) (value : Enc unit) : Enc unit :=
  encoded ← st_lift (encodeBytes value);
  call (CborWriter.writeInt key) ;;
  call (CborWriter.writeByteString encoded).

Definition packContent (c : ByronAddressContent) : Res HexBlob :=
  let a := attrs c in
  let mapSize := (if pathSet a is Some _ then 1 else 0) + (if magicSet a is Some _ then 1 else 0) in
  encode (
    call (CborWriter.writeStartArray (Some 3)) ;;
    call (CborWriter.writeByteString (Buffer_from_hex (root c))) ;;
    call (CborWriter.writeStartMap (Some mapSize)) ;;
    match pathSet a with
    | Some path => writeAttribute 1 (call (CborWriter.writeByteString (Buffer_from_hex path)))
    | None => mret tt
    end ;;
    match magicSet a with
    | Some m => writeAttribute 2 (call (CborWriter.writeInt m))
    | None => mret tt
    end ;;
    call (CborWriter.writeInt (byronType c))).

Definition packParts (p : Address) : Res (list Z) :=
  content ← required (byronAddressContent p);
  cbor ← packContent content;
  let addressDataEncoded := Buffer_from_hex cbor in
  encodeBytes (
    call (CborWriter.writeStartArray (Some 2)) ;;
    call (CborWriter.writeTag CborTag.EncodedCborDataItem) ;;
    call (CborWriter.writeByteString addressDataEncoded) ;;
    call (CborWriter.writeInt (crc32 addressDataEncoded))).

(** What one iteration of the loop over the attributes assigns. *)
Inductive Attribute : Set := DerivationPath (path : HexBlob) | Magic (m : Z) | Unknown.

Definition readAttribute : Dec Attribute :=
  key ← call CborReader.readInt;
  if key =? 1 then
    cborBytes ← call CborReader.readByteString;
    path ← st_lift (decode (call CborReader.readByteString) (HexBlob_fromBytes cborBytes));
    mret (DerivationPath (HexBlob_fromBytes path))
  else if key =? 2 then
    cborBytes ← call CborReader.readByteString;
    m ← st_lift (decode (call CborReader.readInt) (HexBlob_fromBytes cborBytes));
    mret (Magic (Number_of m))
  else mret Unknown.

Definition assignAttribute (a : ByronAttributes) (x : Attribute) : ByronAttributes :=
  match x with
  | DerivationPath path => {| derivationPath := Some path; magic := magic a |}
  | Magic m => {| derivationPath := derivationPath a; magic := Some m |}
  | Unknown => a
  end.

Definition readPayload : Dec (list Z) :=
  call CborReader.readStartArray ;;
  call CborReader.readTag ;;
  addressDataEncoded ← call CborReader.readByteString;
  n ← call CborReader.readInt;
  st_guard (negb (Number_of n =? crc32 addressDataEncoded))
    (InvalidArgumentError "data" "Invalid Byron raw data. Checksum doesnt match.") ;;
  mret addressDataEncoded.

Definition readContent : Dec ByronAddressContent :=
  call CborReader.readStartArray ;;
  bytes ← call CborReader.readByteString;
  rootHash ← st_lift (Hash28ByteBase16 (Buffer_to_hex bytes));
  call CborReader.readStartMap ;;
  assigned ← readWhileNot CborReaderState.EndMap readAttribute;
  call CborReader.readEndMap ;;
  type ← call CborReader.readInt;
  mret {| root := rootHash; attrs := fold_left assignAttribute assigned {| derivationPath := None; magic := None |};
          byronType := Number_of type |}.

Definition unpackParts (type : Z) (data : list Z) : Res Address :=
  addressDataEncoded ← decode readPayload (HexBlob_fromBytes data);
  content ← decode readContent (HexBlob_fromBytes addressDataEncoded);
  Ok {| addressType := type; networkId := None; pointer := None; paymentPart := None; delegationPart := None;
        byronAddressContent := Some content |}.

Definition fromAddress (p : Address) : option Address :=
  if addressType p =? AddressType.Byron then Some p else None.
End byron.
End ByronAddress.

(** ** Any address *)

Section address.
Context `{Crc32}.

(** The [switch] of [fromBytes] and of [toBytes]. *)
Definition fromBytes (hex : HexBlob) : Res Address :=
  let data := Buffer_from_hex hex in
  let type := Z.shiftr (byte_at data 0) 4 in
  if isBaseType type then BaseAddress.unpackParts type data
  else if isPointerType type then PointerAddress.unpackParts type data
  else if isEnterpriseType type then EnterpriseAddress.unpackParts type data
  else if isRewardType type then RewardAddress.unpackParts type data
  else if type =? AddressType.Byron then ByronAddress.unpackParts type data
  else Throw (InvalidArgumentError "data" "Invalid address raw data").

Definition toBytes (a : Address) : Res HexBlob :=
  let type := addressType a in
  cborData ←
    (if isBaseType type then BaseAddress.packParts a
     else if isPointerType type then PointerAddress.packParts a
     else if isEnterpriseType type then EnterpriseAddress.packParts a
     else if isRewardType type then RewardAddress.packParts a
     else if type =? AddressType.Byron then ByronAddress.packParts a
     else Throw (JsError "Error: Invalid address"));
  Ok (HexBlob_fromBytes cborData).

(** [undefined] when the address has no network. *)
Definition getNetworkId (a : Address) : option Z :=
  if addressType a =? AddressType.Byron then
    match byronAddressContent a with
    | Some c => Some (match magic (attrs c) with None => NetworkId.Mainnet | Some _ => NetworkId.Testnet end)
    | None => Some NetworkId.Mainnet
    end
  else networkId a.
End address.

(** ** Textual encodings *)

(** The functions of [@scure/base] the code calls. *)
Class BaseEncoding := {
  bech32_toWords : list Z -> list Z;
  bech32_fromWords : list Z -> Res (list Z);
  bech32_encode : string -> list Z -> Z -> Res string;
  bech32_decode : string -> Z -> Res (string * list Z);
  base58_encode : list Z -> string;
  base58_decode : string -> Res (list Z)
}.

(** Letters and underscores, as in the prefixes of this code base. *)
Definition isPrefixChar (c : ascii) : bool :=
  ((97 <=? N_of_ascii c) && (N_of_ascii c <=? 122) || (N_of_ascii c =? 95))%N.

Fixpoint isPrefix (p : string) : bool := match p with EmptyString => true | String c p => isPrefixChar c && isPrefix p end.

(** The alphabet of the data part of a bech32 string. *)
Definition CHARSET : string := "qpzry9x8gf2tvdw0s3jn54khce6mua7l".

Definition isDataChar (c : ascii) : bool := if String.index 0 (String c "") CHARSET is Some _ then true else false.

Fixpoint isData (s : string) : bool := match s with EmptyString => true | String c s => isDataChar c && isData s end.

(** Decoding undoes encoding; a bech32 string has the prefix, a separator, one
    character of the alphabet per word of five bits and six of checksum, and is
    refused when it is longer than the limit. *)
Class BaseEncodingLaws `{BaseEncoding} : Prop := {
  words_round_trip l : bytes l -> bech32_fromWords (bech32_toWords l) = Ok l;
  words_length l : bytes l -> zlen (bech32_toWords l) = (8 * zlen l + 4) / 5;
  words_range l : bytes l -> Forall (fun w => 0 <= w < 32) (bech32_toWords l);
  bech32_accepts p w limit : isPrefix p = true -> Forall (fun w => 0 <= w < 32) w ->
    Z.of_nat (String.length p) + 7 + zlen w <= limit -> exists s, bech32_encode p w limit = Ok s;
  bech32_round_trip p w limit s : bech32_encode p w limit = Ok s -> bech32_decode s limit = Ok (p, w);
  bech32_limit s limit limit' x : bech32_decode s limit = Ok x -> limit <= limit' -> bech32_decode s limit' = Ok x;
  bech32_form p w limit s : bech32_encode p w limit = Ok s -> exists d, s = (p +:+ String "1" d)%string /\ isData d = true;
  base58_round_trip l : bytes l -> base58_decode (base58_encode l) = Ok l
}.

Section text.
Context `{Crc32} `{BaseEncoding}.

Definition MAX_BECH32_LENGTH_LIMIT : Z := 1023.

Definition getBech32Prefix (type : Z) (network : option Z) : Res string :=
  prefix ←
    (if isBaseType type || isPointerType type || isEnterpriseType type then Ok "addr"%string
     else if isRewardType type then Ok "stake"%string
     else Throw (JsError "Error: Invalid address"));
  Ok (prefix +:+ (if bool_decide (network = Some 0) then "_test" else ""))%string.

Definition toBech32 (a : Address) : Res string :=
  hex ← toBytes a;
  let words := bech32_toWords (Buffer_from_hex hex) in
  if addressType a =? AddressType.Byron then Throw (JsError "Error: Only Shelley addresses will be encoded in bech32")
  else
    prefix ← getBech32Prefix (addressType a) (networkId a);
    bech32_encode prefix words MAX_BECH32_LENGTH_LIMIT.

Definition fromBech32 (bech32 : string) : Res Address :=
  '(_, words) ← bech32_decode bech32 MAX_BECH32_LENGTH_LIMIT;
  data ← bech32_fromWords words;
  fromBytes (HexBlob_fromBytes data).

Definition toBase58 (a : Address) : Res string :=
  if negb (addressType a =? AddressType.Byron) then Throw (JsError "Error: Only Byron addresses will be encoded in base58")
  else hex ← toBytes a; Ok (base58_encode (Buffer_from_hex hex)).

Definition fromBase58 (base58 : string) : Res Address :=
  data ← base58_decode base58; fromBytes (HexBlob_fromBytes data).

(** [try { ... } catch { return false; }] *)
Definition isValidBech32 (bech32 : string) : bool := match fromBech32 bech32 with Ok _ => true | _ => false end.

Definition isValidByron (base58 : string) : bool :=
  match fromBase58 base58 with Ok a => addressType a =? AddressType.Byron | _ => false end.

Definition isValid (address : string) : bool := isValidBech32 address || isValidByron address.

Definition fromString (address : string) : option Address :=
  let parsed :=
    if isValidBech32 address then fromBech32 address
    else if isValidByron address then fromBase58 address
    else h ← typedHex address 0; fromBytes h in
  match parsed with Ok a => Some a | _ => None end.

Definition addressNetworkId (address : string) : Res (option Z) :=
  a ← required (fromString address); Ok (getNetworkId a).
End text.
