(* ===== verification/BaseEncodingRef.v ===== *)
(** * A base encoding

    An implementation of the interface of [@scure/base] in [Address.v], to show
    that its laws can hold together: words of five bits are the digits in base 32
    of the data, and a bech32 string is the prefix, the separator, a constant in
    place of the checksum and a character per word. *)

From S2P Require Import Prelude JsRuntime Codec Address.

(** ** Words of five bits *)

Fixpoint digits32 (k : nat) (v : Z) : list Z :=
  match k with O => [] | S k => digits32 k (v / 32) ++ [v mod 32] end.

Definition value32 (w : list Z) : Z := fold_left (fun a d => a * 32 + d) w 0.

Lemma value32_snoc w d : value32 (w ++ [d]) = value32 w * 32 + d.
Proof. unfold value32. by rewrite fold_left_app. Qed.

Lemma digits32_value k v : 0 <= v < 32 ^ Z.of_nat k -> value32 (digits32 k v) = v.
Proof.
  revert v. induction k as [|k IH]; intros v Hv; [cbn in *; lia|]. cbn [digits32]. rewrite value32_snoc.
  rewrite Nat2Z.inj_succ, Z.pow_succ_r in Hv by lia.
  rewrite IH by (split; [apply Z.div_pos; lia|apply Z.div_lt_upper_bound; lia]). pose proof (Z.div_mod v 32 ltac:(lia)). lia.
Qed.

Lemma digits32_length k v : zlen (digits32 k v) = Z.of_nat k.
Proof. revert v. induction k as [|k IH]; intros v; [done|]. cbn [digits32]. rewrite zlen_app, IH. unfold zlen. cbn. lia. Qed.

Lemma digits32_range k v : Forall (fun w => 0 <= w < 32) (digits32 k v).
Proof.
  revert v. induction k as [|k IH]; intros v; [constructor|]. apply Forall_app. split; [done|].
  apply Forall_cons_2; [|constructor]. apply Z.mod_pos_bound. lia.
Qed.

Definition toWords (l : list Z) : list Z := digits32 (Z.to_nat ((8 * zlen l + 4) / 5)) (be_decode l).
Definition fromWords (w : list Z) : Res (list Z) := Ok (be_encode (Z.to_nat (5 * zlen w / 8)) (value32 w)).

Section words.
Context (l : list Z) (Hl : bytes l).

#[local] Lemma word_count : 0 <= (8 * zlen l + 4) / 5 /\ 5 * ((8 * zlen l + 4) / 5) / 8 = zlen l /\ 8 * zlen l <= 5 * ((8 * zlen l + 4) / 5).
Proof.
  pose proof (zlen_nonneg l). pose proof (Z.div_mod (8 * zlen l + 4) 5 ltac:(lia)). pose proof (Z.mod_pos_bound (8 * zlen l + 4) 5 ltac:(lia)).
  split_and!; [apply Z.div_pos; lia| |lia]. symmetry. apply (Z.div_unique _ 8 _ (5 * ((8 * zlen l + 4) / 5) - 8 * zlen l)); lia.
Qed.

Lemma toWords_length : zlen (toWords l) = (8 * zlen l + 4) / 5.
Proof. destruct word_count. unfold toWords. rewrite digits32_length. lia. Qed.

Lemma toWords_fromWords : fromWords (toWords l) = Ok l.
Proof.
  destruct word_count as (H0 & H1 & H2). unfold fromWords. rewrite toWords_length, H1. unfold toWords. rewrite digits32_value.
  - f_equal. unfold zlen. rewrite Nat2Z.id. by apply be_encode_decode.
  - rewrite Z2Nat.id by done. pose proof (be_decode_bound l Hl) as Hb. split; [lia|]. eapply Z.lt_le_trans; [apply Hb|].
    change 32 with (2 ^ 5). rewrite <- Z.pow_mul_r by lia. change 256 with (2 ^ 8).
    pose proof (zlen_nonneg l). rewrite <- ?Z.pow_mul_r by lia. apply Z.pow_le_mono_r; [lia|]. unfold zlen in *. lia.
Qed.
End words.

(** ** Bech32 strings *)

Definition letter (w : Z) : ascii := default "q"%char (String.get (Z.to_nat w) CHARSET).
Definition wordOf (c : ascii) : Z := if String.index 0 (String c "") CHARSET is Some n then Z.of_nat n else 0.

Lemma letter_word d : 0 <= d < 32 -> wordOf (letter d) = d /\ isDataChar (letter d) = true.
Proof.
  intros Hd. assert (H : Forall (fun n => wordOf (letter (Z.of_nat n)) = Z.of_nat n /\ isDataChar (letter (Z.of_nat n)) = true) (seq 0 32)).
  { vm_compute. repeat constructor. }
  rewrite List.Forall_forall in H. specialize (H (Z.to_nat d)). rewrite Z2Nat.id in H by lia. apply H, in_seq. lia.
Qed.

Fixpoint letters (w : list Z) : string := match w with [] => EmptyString | d :: w => String (letter d) (letters w) end.
Fixpoint wordsOf (s : string) : list Z := match s with EmptyString => [] | String c s => wordOf c :: wordsOf s end.

Lemma wordsOf_letters w : Forall (fun w => 0 <= w < 32) w -> wordsOf (letters w) = w.
Proof.
  induction 1 as [|d w Hd _ IH]; [done|]. cbn. rewrite IH. f_equal. by apply letter_word.
Qed.

Lemma letters_data w : Forall (fun w => 0 <= w < 32) w -> isData (letters w) = true.
Proof. induction 1 as [|d w Hd _ IH]; [done|]. cbn. rewrite IH, andb_true_r. by apply letter_word. Qed.

(** The text after the first separator, and the prefix before it. *)
Fixpoint splitSeparator (s : string) : option (string * string) :=
  match s with
  | EmptyString => None
  | String c s =>
      if Ascii.eqb c "1" then Some (EmptyString, s)
      else match splitSeparator s with Some (p, r) => Some (String c p, r) | None => None end
  end.

Lemma splitSeparator_app p s : isPrefix p = true -> splitSeparator (p +:+ String "1" s) = Some (p, s).
Proof.
  induction p as [|c p IH]; [done|]. intros [Hc Hp]%andb_true_iff.
  change (String c p +:+ String "1" s) with (String c (p +:+ String "1" s)). cbn [splitSeparator]. rewrite IH by done.
  destruct (Ascii.eqb_spec c "1") as [->|]; [done|]. done.
Qed.

Definition isWord (w : Z) : bool := (0 <=? w) && (w <? 32).

Definition checksum : string := "qqqqqq".

Definition encodeRef (p : string) (w : list Z) (limit : Z) : Res string :=
  if isPrefix p && forallb isWord w && (Z.of_nat (String.length p) + 7 + zlen w <=? limit)
  then Ok (p +:+ String "1" (checksum +:+ letters w)) else Throw (JsError "TypeError").

Definition decodeRef (s : string) (limit : Z) : Res (string * list Z) :=
  match splitSeparator s with
  | Some (p, String _ (String _ (String _ (String _ (String _ (String _ s)))))) => Ok (p, wordsOf s)
  | _ => Throw (JsError "TypeError")
  end.

#[export] Instance encoding_ref : BaseEncoding := {
  bech32_toWords := toWords;
  bech32_fromWords := fromWords;
  bech32_encode := encodeRef;
  bech32_decode := decodeRef;
  base58_encode := Buffer_to_hex;
  base58_decode s := Ok (Buffer_from_hex s)
}.

Lemma isWord_forall w : forallb isWord w = true <-> Forall (fun w => 0 <= w < 32) w.
Proof.
  rewrite forallb_forall, List.Forall_forall. unfold isWord. split; intros H x Hx; specialize (H x Hx).
  - apply andb_true_iff in H as [? ?]. zb. lia.
  - apply andb_true_iff. split; [apply Z.leb_le|apply Z.ltb_lt]; lia.
Qed.

Lemma encoding_ref_laws : BaseEncodingLaws.
Proof.
  split; cbn.
  - by apply toWords_fromWords.
  - intros. by apply toWords_length.
  - intros. apply digits32_range.
  - intros p w limit Hp Hw Hl. unfold encodeRef. rewrite Hp, (proj2 (isWord_forall w)), (proj2 (Z.leb_le _ _)) by done. by eexists.
  - intros p w limit s. unfold encodeRef. destruct (isPrefix p && forallb isWord w) eqn:E; [|done]. cbn [andb].
    apply andb_true_iff in E as [Hp Hw%isWord_forall]. case_bool; [|done]. intros [= <-]. unfold decodeRef.
    rewrite splitSeparator_app by done. change (Ok (p, wordsOf (letters w)) = Ok (p, w) :> Res _). by rewrite wordsOf_letters.
  - intros s limit limit' x. done.
  - intros p w limit s. unfold encodeRef. destruct (isPrefix p && forallb isWord w) eqn:E; [|done]. cbn [andb].
    apply andb_true_iff in E as [Hp Hw%isWord_forall]. case_bool; [|done]. intros [= <-]. eexists. split; [reflexivity|].
    change (isData (letters w) = true). by apply letters_data.
  - intros l Hl. by rewrite Buffer_hex_roundtrip.
Qed.

(** A checksum for the instances. *)
Definition sum32 : Crc32 := fun l => zsum l mod 2 ^ 32.

Lemma sum32_laws : @Crc32Laws sum32.
Proof. intros l. apply Z.mod_pos_bound. lia. Qed.

(** A hash of 28 bytes, for the instances. *)
Definition demo_hash : string := "966e394a544f242081e41d1965137b1bb412ac230d40ed5407821c37".
