(* ===== verification/AddressFacts.v ===== *)
(** * Facts about addresses

    Variable-length numbers, the header byte and the packed parts are read back;
    what is unpacked is packed to the same bytes again. *)

From S2P Require Import Prelude JsRuntime Utf8 CborCommon Half CborWriter CborReader CborMachine CborExact CborSkip CborDocuments Codec CodecFacts Credential Address.

Import CborReader CborWriterFacts.

(** ** Variable-length numbers *)

(** The [k] bytes with a continuation bit that carry [v]. *)
Fixpoint continued (k : nat) (v : Z) : list Z :=
  match k with O => [] | S k => continued k (Z.shiftr v 7) ++ [Z.land v 127 + 128] end.

Lemma continued_bytes k v : bytes (continued k v).
Proof.
  revert v. induction k as [|k IH]; intros v; cbn; [constructor|]. apply Forall_app. split; [done|].
  apply Forall_cons_2; [|constructor]. unfold is_byte. change 127 with (Z.ones 7). rewrite Z.land_ones by lia.
  pose proof (Z.mod_pos_bound v (2 ^ 7) ltac:(lia)). lia.
Qed.

Lemma zlen_continued k v : zlen (continued k v) = Z.of_nat k.
Proof. revert v. induction k as [|k IH]; intros v; cbn; [done|]. rewrite zlen_app, IH. unfold zlen. cbn. lia. Qed.

Lemma septet_bits m : 0 <= m < 128 ->
  Z.land (m + 128) 127 = m /\ Z.land (m + 128) 128 <> 0 /\ Z.land m 127 = m /\ Z.land m 128 = 0.
Proof.
  intros Hm. assert (H : forallb (fun m => (Z.land (m + 128) 127 =? m) && negb (Z.land (m + 128) 128 =? 0) &&
    (Z.land m 127 =? m) && (Z.land m 128 =? 0)) (seqZ 0 128) = true) by (vm_compute; reflexivity).
  rewrite forallb_forall in H. assert (Hin : In m (seqZ 0 128)) by (apply list_elem_of_In, elem_of_seqZ; lia).
  specialize (H m Hin).
  cbv beta in H. repeat setoid_rewrite andb_true_iff in H. destruct H as [[[H1 H2] H3] H4].
  apply negb_true_iff, Z.eqb_neq in H2. apply Z.eqb_eq in H1, H3, H4. by split_and!.
Qed.

Lemma land_127 v : Z.land v 127 = v mod 128 /\ 0 <= Z.land v 127 < 128.
Proof. change 127 with (Z.ones 7). rewrite Z.land_ones by lia. split; [done|]. apply Z.mod_pos_bound. lia. Qed.

Lemma decodeLoop_septet b l value n m : (b = m + 128 \/ b = m) -> 0 <= m < 128 ->
  PointerAddress.decodeLoop (b :: l) value n =
  if b <? 128 then (value * 128 + m, n + 1) else PointerAddress.decodeLoop l (value * 128 + m) (n + 1).
Proof.
  intros Hb Hm. destruct (septet_bits m Hm) as (H1 & H2 & H3 & H4). cbn [PointerAddress.decodeLoop].
  destruct Hb as [-> | ->]; rewrite ?H1, ?H3, ?H4, lor_shiftl by lia.
  - rewrite (proj2 (Z.eqb_neq _ _)) by done. by rewrite (proj2 (Z.ltb_ge _ _)) by lia.
  - by rewrite (proj2 (Z.ltb_lt _ _)) by lia.
Qed.

Lemma decode_continued k v rest value n : 0 <= v < 128 ^ Z.of_nat k ->
  PointerAddress.decodeLoop (continued k v ++ rest) value n =
  PointerAddress.decodeLoop rest (value * 128 ^ Z.of_nat k + v) (n + Z.of_nat k).
Proof.
  revert v rest. induction k as [|k IH]; intros v rest Hv.
  - cbn in *. f_equal; lia.
  - cbn [continued]. destruct (land_127 v) as [E Hm]. rewrite <- app_assoc. cbn [app].
    rewrite Nat2Z.inj_succ, Z.pow_succ_r in * by lia. rewrite Z.shiftr_div_pow2 by lia.
    rewrite IH by (split; [apply Z.div_pos; lia|apply Z.div_lt_upper_bound; lia]).
    rewrite (decodeLoop_septet _ _ _ _ (Z.land v 127)) by auto. rewrite (proj2 (Z.ltb_ge _ _)) by lia.
    f_equal; [|lia]. rewrite E. pose proof (Z.div_mod v 128 ltac:(lia)). change (2 ^ 7) with 128. nia.
Qed.

Definition septets (v : Z) : nat := Z.to_nat ((PointerAddress.bitLength v - 1) / 7).

Definition varBytes (v : Z) : list Z := continued (septets v) (Z.shiftr v 7) ++ [Z.land v 127].

Lemma encodeLoop_continued fuel v bits enc : (bits - 1) / 7 <= Z.of_nat fuel -> 1 <= bits ->
  PointerAddress.encodeLoop fuel v bits enc = continued (Z.to_nat ((bits - 1) / 7)) (Z.shiftr v 7) ++ enc.
Proof.
  revert v bits enc. induction fuel as [|fuel IH]; intros v bits enc Hf Hb.
  - pose proof (Z.div_pos (bits - 1) 7 ltac:(lia) ltac:(lia)). by replace ((bits - 1) / 7) with 0 by lia.
  - cbn [PointerAddress.encodeLoop]. destruct (Z.ltb_spec 7 bits).
    + assert (E : (bits - 1) / 7 = (bits - 7 - 1) / 7 + 1).
      { replace (bits - 1) with ((bits - 7 - 1) + 1 * 7) by lia. by rewrite Z.div_add by lia. }
      pose proof (Z.div_pos (bits - 7 - 1) 7 ltac:(lia) ltac:(lia)).
      cbv zeta. rewrite IH by lia. rewrite E. replace (Z.to_nat ((bits - 7 - 1) / 7 + 1)) with (S (Z.to_nat ((bits - 7 - 1) / 7))) by lia.
      cbn [continued]. by rewrite <- app_assoc.
    + rewrite Z.div_small by lia. done.
Qed.

Lemma bitLength_range v : 0 <= v -> 1 <= PointerAddress.bitLength v /\ v < 2 ^ PointerAddress.bitLength v.
Proof.
  intros Hv. unfold PointerAddress.bitLength. destruct (Z.eqb_spec v 0) as [->|Hne]; [done|].
  pose proof (Z.log2_nonneg v). pose proof (Z.log2_spec v ltac:(lia)). rewrite Z.add_1_r. lia.
Qed.

Section number.
Context (v : Z) (Hv : 0 <= v).

Lemma variableLengthEncode_exact : PointerAddress.variableLengthEncode v = Ok (varBytes v).
Proof.
  destruct (bitLength_range v Hv) as [Hb _]. unfold PointerAddress.variableLengthEncode.
  rewrite (proj2 (Z.ltb_ge _ _)) by lia. rewrite encodeLoop_continued; [done| |done].
  rewrite Z2Nat.id by lia. apply Z.div_le_upper_bound; lia.
Qed.

Lemma varBytes_bytes : bytes (varBytes v).
Proof.
  apply Forall_app. split; [apply continued_bytes|]. apply Forall_cons_2; [|constructor].
  destruct (land_127 v). unfold is_byte. lia.
Qed.

Lemma zlen_varBytes : zlen (varBytes v) = Z.of_nat (septets v) + 1.
Proof. unfold varBytes. by rewrite zlen_app, zlen_continued. Qed.

Lemma variableLengthDecode_exact rest : PointerAddress.variableLengthDecode (varBytes v ++ rest) = (v, zlen (varBytes v)).
Proof.
  destruct (bitLength_range v Hv) as [Hb Hlt]. rewrite zlen_varBytes. unfold PointerAddress.variableLengthDecode, varBytes.
  rewrite <- app_assoc. destruct (land_127 v) as [E Hm].
  assert (Hk : 0 <= Z.shiftr v 7 < 128 ^ Z.of_nat (septets v)).
  { rewrite Z.shiftr_div_pow2 by lia. split; [apply Z.div_pos; lia|]. apply Z.div_lt_upper_bound; [lia|].
    unfold septets. set (q := (PointerAddress.bitLength v - 1) / 7).
    pose proof (Z.div_mod (PointerAddress.bitLength v - 1) 7 ltac:(lia)) as Hq.
    pose proof (Z.mod_pos_bound (PointerAddress.bitLength v - 1) 7 ltac:(lia)).
    assert (0 <= q) by (apply Z.div_pos; lia). rewrite Z2Nat.id by lia. change 128 with (2 ^ 7).
    rewrite <- Z.pow_mul_r, <- Z.pow_add_r by lia. eapply Z.lt_le_trans; [exact Hlt|]. apply Z.pow_le_mono_r; lia. }
  rewrite decode_continued by done. cbn [app]. rewrite (decodeLoop_septet _ _ _ _ (Z.land v 127)) by auto.
  rewrite (proj2 (Z.ltb_lt _ _)) by lia. f_equal. rewrite E, Z.shiftr_div_pow2 by lia.
  pose proof (Z.div_mod v 128 ltac:(lia)). change (2 ^ 7) with 128. lia.
Qed.
End number.

(** ** Headers *)

Lemma header_bits t n : 0 <= t < 16 -> 0 <= n < 16 ->
  Z.land (Z.lor (Z.shiftl t 4) n) 255 = t * 16 + n /\ Z.shiftr (t * 16 + n) 4 = t /\ Z.land (t * 16 + n) 15 = n.
Proof.
  intros Ht Hn. rewrite lor_shiftl by lia. change (2 ^ 4) with 16. change 255 with (Z.ones 8). change 15 with (Z.ones 4).
  rewrite !Z.land_ones, Z.shiftr_div_pow2 by lia. change (2 ^ 4) with 16. split_and!.
  - apply Z.mod_small. lia.
  - rewrite Z.div_add_l, Z.div_small by lia. lia.
  - rewrite Z.add_comm, Z.mod_add, Z.mod_small by lia. done.
Qed.

Lemma header_split b : is_byte b -> b = Z.shiftr b 4 * 16 + Z.land b 15 /\ 0 <= Z.shiftr b 4 < 16 /\ 0 <= Z.land b 15 < 16.
Proof.
  intros Hb. unfold is_byte in Hb. change 15 with (Z.ones 4). rewrite Z.land_ones, Z.shiftr_div_pow2 by lia. change (2 ^ 4) with 16.
  pose proof (Z.div_mod b 16 ltac:(lia)). pose proof (Z.mod_pos_bound b 16 ltac:(lia)). lia.
Qed.

(** ** Well-formed addresses *)

Definition isNetwork (n : Z) : bool := (0 <=? n) && (n <? 16).

(** A credential of 28 bytes, of the kind the address type says. *)
Definition credentialOk (script : bool) (c : Credential) : bool :=
  isHash 56 (hash c) && (Credential.type c =? if script then CredentialType.ScriptHash else CredentialType.KeyHash).

Definition isIndex (z : Z) : bool := (0 <=? z) && (z <? 2 ^ 53).

Definition pointerOk (p : Pointer) : bool := (0 <=? slot p) && isIndex (txIndex p) && isIndex (certIndex p).

Definition attributesOk (a : ByronAttributes) : bool :=
  match derivationPath a with
  | Some h => negb (String.eqb h "") && isBlob h && (zlen (Buffer_from_hex h) <? 2 ^ 32)
  | None => true
  end &&
  match magic a with Some m => negb (m =? 0) && isSafe m | None => true end.

Definition contentOk (c : ByronAddressContent) : bool := isHash 56 (root c) && attributesOk (attrs c) && isSafe (byronType c).

(** The properties are those of the kind the type says, and no others. *)
Definition addressOk (a : Address) : bool :=
  let t := addressType a in
  match networkId a, pointer a, paymentPart a, delegationPart a, byronAddressContent a with
  | Some n, None, Some p, Some d, None => isBaseType t && isNetwork n && credentialOk (Z.odd t) p && credentialOk (2 <=? t) d
  | Some n, Some ptr, Some p, None, None => isPointerType t && isNetwork n && credentialOk (Z.odd t) p && pointerOk ptr
  | Some n, None, Some p, None, None => (isEnterpriseType t || isRewardType t) && isNetwork n && credentialOk (Z.odd t) p
  | None, None, None, None, Some c => (t =? AddressType.Byron) && contentOk c
  | _, _, _, _, _ => false
  end.

Ltac split_bool := repeat match goal with
  | H : _ && _ = true |- _ => apply andb_true_iff in H as [? ?]
  end.

(** Case analysis on a type. *)
Ltac type_cases H :=
  unfold isBaseType, isPointerType, isEnterpriseType, isRewardType in H;
  repeat (apply orb_true_iff in H; destruct H as [H|H]); apply Z.eqb_eq in H; subst.

Lemma network_range n : isNetwork n = true -> 0 <= n < 16.
Proof. unfold isNetwork. intros. split_bool. zb. lia. Qed.

Lemma credentialOk_spec s c : credentialOk s c = true -> let b := Buffer_from_hex (hash c) in
  bytes b /\ zlen b = 28 /\ Hash28ByteBase16 (Buffer_to_hex b) = Ok (hash c) /\
  c = {| hash := hash c; Credential.type := if s then CredentialType.ScriptHash else CredentialType.KeyHash |}.
Proof.
  intros [Hh Ht%Z.eqb_eq]%andb_true_iff b. destruct (isHash_spec _ _ Hh) as (Hb & _ & Hz). subst b.
  split_and!; [apply Buffer_from_hex_bytes|lia|rewrite isBlob_eq by done; by apply typedHex_blob|].
  rewrite <- Ht. by destruct c.
Qed.

Lemma slice_second {A} (x : A) (k r : list A) : zlen k = 28 -> slice (x :: k ++ r) 1 29 = k.
Proof. intros Hk. apply (slice_app [x] k r); [done|]. rewrite Hk. done. Qed.

(** The header, the payment credential and the rest. *)
Section shelley.
Context `{Crc32}.
Context (t n : Z) (p : Credential) (Ht : 0 <= t < 16) (Hn : 0 <= n < 16).
Context (script : bool) (Hp : credentialOk script p = true).

Definition shelleyBytes (rest : list Z) : list Z := (t * 16 + n) :: Buffer_from_hex (hash p) ++ rest.

Lemma packHeader_exact a : addressType a = t -> networkId a = Some n -> packHeader a = [t * 16 + n].
Proof. intros E1 E2. unfold packHeader. rewrite E1, E2. cbn [from_option id]. by destruct (header_bits t n Ht Hn) as [-> _]. Qed.

Lemma shelleyBytes_bytes rest : bytes rest -> bytes (shelleyBytes rest).
Proof.
  intros Hr. apply Forall_cons_2; [unfold is_byte; lia|]. apply Forall_app. split; [apply Buffer_from_hex_bytes|done].
Qed.

Lemma zlen_shelley rest : zlen (shelleyBytes rest) = 29 + zlen rest.
Proof. destruct (credentialOk_spec _ _ Hp) as (_ & Hz & _). unfold shelleyBytes. rewrite zlen_cons, zlen_app, Hz. lia. Qed.

Lemma shelley_type rest : Z.shiftr (byte_at (shelleyBytes rest) 0) 4 = t.
Proof. unfold shelleyBytes. rewrite byte_at_first. by destruct (header_bits t n Ht Hn) as (_ & -> & _). Qed.

Lemma shelley_network rest : Z.land (byte_at (shelleyBytes rest) 0) 15 = n.
Proof. unfold shelleyBytes. rewrite byte_at_first. by destruct (header_bits t n Ht Hn) as (_ & _ & ->). Qed.

Lemma shelley_payment rest : Hash28ByteBase16 (Buffer_to_hex (slice (shelleyBytes rest) 1 29)) = Ok (hash p).
Proof.
  destruct (credentialOk_spec _ _ Hp) as (_ & Hz & E & _). unfold shelleyBytes. by rewrite slice_second.
Qed.

(** The rest, from byte 29 on. *)
Lemma shelley_from pre rest : slice_from (shelleyBytes (pre ++ rest)) (29 + zlen pre) = rest.
Proof.
  destruct (credentialOk_spec _ _ Hp) as (_ & Hz & _). unfold shelleyBytes. rewrite app_assoc.
  apply (slice_from_app (_ :: _ ++ pre)). rewrite zlen_cons, zlen_app, Hz. lia.
Qed.
Lemma shelley_delegation k : zlen k = 28 -> slice (shelleyBytes k) 29 57 = k.
Proof.
  intros Hk. destruct (credentialOk_spec _ _ Hp) as (_ & Hz & _). unfold shelleyBytes.
  pose proof (slice_app ((t * 16 + n) :: Buffer_from_hex (hash p)) k [] 29 57) as E. rewrite app_nil_r in E.
  apply E; rewrite zlen_cons; lia.
Qed.
End shelley.

(** [a] has a binary form, from which it is read back. *)
Definition packs `{Crc32} (a : Address) : Prop :=
  exists l, bytes l /\ toBytes a = Ok (Buffer_to_hex l) /\ fromBytes (Buffer_to_hex l) = Ok a.

Section kinds.
Context `{Crc32}.

Lemma base_packs t n p d : isBaseType t = true -> 0 <= n < 16 -> credentialOk (Z.odd t) p = true ->
  credentialOk (2 <=? t) d = true ->
  packs {| addressType := t; networkId := Some n; pointer := None; paymentPart := Some p; delegationPart := Some d;
           byronAddressContent := None |}.
Proof.
  intros Ht Hn Hp Hd. assert (Ht' : 0 <= t < 16) by (clear -Ht; by type_cases Ht).
  destruct (credentialOk_spec _ _ Hp) as (_ & _ & _ & Ep). destruct (credentialOk_spec _ _ Hd) as (Hbd & Hzd & Ehd & Ed).
  exists (shelleyBytes t n p (Buffer_from_hex (hash d))). pose proof (shelleyBytes_bytes t n p Ht' Hn _ Hbd) as Hb.
  split_and!; [done| |].
  - unfold toBytes. cbn [addressType]. rewrite Ht. unfold BaseAddress.packParts. cbn [paymentPart delegationPart required mbind outcome_bind].
    by rewrite (packHeader_exact t n Ht' Hn).
  - unfold fromBytes. rewrite Buffer_hex_roundtrip by done. rewrite shelley_type, Ht by done. unfold BaseAddress.unpackParts.
    rewrite (zlen_shelley t n p _ Hp), Hzd. cbn [Z.add Z.eqb Pos.add Pos.eqb negb]. rewrite shelley_network by done.
    rewrite (shelley_payment t n p _ Hp). cbn [mbind outcome_bind].
    replace (slice _ 29 57) with (Buffer_from_hex (hash d)).
    2: { symmetry. by eapply shelley_delegation. }
    rewrite Ehd. cbn [mbind outcome_bind]. rewrite Ep, Ed. clear -Ht. by type_cases Ht.
Qed.

Lemma payment_packs t n p : isEnterpriseType t || isRewardType t = true -> 0 <= n < 16 -> credentialOk (Z.odd t) p = true ->
  packs {| addressType := t; networkId := Some n; pointer := None; paymentPart := Some p; delegationPart := None;
           byronAddressContent := None |}.
Proof.
  intros Ht Hn Hp. assert (Ht' : 0 <= t < 16) by (clear -Ht; by type_cases Ht).
  destruct (credentialOk_spec _ _ Hp) as (_ & _ & _ & Ep).
  exists (shelleyBytes t n p []). pose proof (shelleyBytes_bytes t n p Ht' Hn [] (Forall_nil_2 _)) as Hb.
  set (a := {| addressType := t |}).
  assert (Epack : packPayment a = Ok (shelleyBytes t n p [])).
  { unfold packPayment, a. cbn [paymentPart required mbind outcome_bind]. rewrite (packHeader_exact t n Ht' Hn) by done.
    unfold shelleyBytes. by rewrite app_nil_r. }
  assert (Eun : forall st, (t =? st) = Z.odd t -> unpackPayment st t (shelleyBytes t n p []) = Ok a).
  { intros st Hst. unfold unpackPayment. rewrite (zlen_shelley t n p _ Hp). cbn [Z.add zlen length Z.of_nat Z.eqb Pos.eqb negb].
    rewrite shelley_network, (shelley_payment t n p _ Hp), Hst by done. cbn [mbind outcome_bind]. unfold a. by rewrite Ep at 2. }
  split_and!; [done| |].
  - assert (E : (x ← packPayment a; Ok (HexBlob_fromBytes x)) = Ok (Buffer_to_hex (shelleyBytes t n p []))) by by rewrite Epack.
    clear -Ht E. subst a. type_cases Ht; exact E.
  - unfold fromBytes. rewrite Buffer_hex_roundtrip, shelley_type by done. clear -Ht Eun.
    type_cases Ht; (etrans; [apply Eun; done|done]).
Qed.

Lemma pointer_packs t n p ptr : isPointerType t = true -> 0 <= n < 16 -> credentialOk (Z.odd t) p = true -> pointerOk ptr = true ->
  packs {| addressType := t; networkId := Some n; pointer := Some ptr; paymentPart := Some p; delegationPart := None;
           byronAddressContent := None |}.
Proof.
  intros Ht Hn Hp Hptr. assert (Ht' : 0 <= t < 16) by (clear -Ht; by type_cases Ht).
  unfold pointerOk, isIndex in Hptr. split_bool. zb. destruct (credentialOk_spec _ _ Hp) as (_ & _ & _ & Ep).
  set (s := varBytes (slot ptr)). set (x := varBytes (txIndex ptr)). set (c := varBytes (certIndex ptr)).
  exists (shelleyBytes t n p (s ++ x ++ c)).
  assert (Hb : bytes (shelleyBytes t n p (s ++ x ++ c))).
  { apply shelleyBytes_bytes; [done..|]. apply Forall_app. split; [apply varBytes_bytes|]. apply Forall_app. split; apply varBytes_bytes. }
  split_and!; [done| |].
  - unfold toBytes. cbn [addressType]. replace (isBaseType t) with false by (clear -Ht; by type_cases Ht). rewrite Ht.
    unfold PointerAddress.packParts. cbn [paymentPart pointer required mbind outcome_bind].
    rewrite !variableLengthEncode_exact by done. cbn [mbind outcome_bind]. by rewrite (packHeader_exact t n Ht' Hn).
  - unfold fromBytes. rewrite Buffer_hex_roundtrip, shelley_type by done.
    replace (isBaseType t) with false by (clear -Ht; by type_cases Ht). rewrite Ht. unfold PointerAddress.unpackParts.
    rewrite (zlen_shelley t n p _ Hp), shelley_network by done.
    rewrite (proj2 (Z.leb_gt _ _)) by (unfold s; rewrite zlen_app, zlen_varBytes; pose proof (zlen_nonneg (x ++ c)); lia).
    rewrite (shelley_payment t n p _ Hp). cbn [mbind outcome_bind].
    pose proof (shelley_from t n p _ Hp [] (s ++ x ++ c)) as E0. cbn [app] in E0. change (29 + zlen []) with 29 in E0. rewrite E0.
    unfold s at 1. rewrite variableLengthDecode_exact by done. fold s.
    rewrite (shelley_from t n p _ Hp s (x ++ c)). unfold x at 1. rewrite variableLengthDecode_exact by done. fold x.
    pose proof (shelley_from t n p _ Hp (s ++ x) c) as E2. rewrite <- app_assoc, zlen_app, Z.add_assoc in E2. rewrite E2.
    unfold c. rewrite <- (app_nil_r (varBytes _)), variableLengthDecode_exact by done.
    rewrite !Number_of_exact by lia. rewrite Ep. destruct ptr. clear -Ht. by type_cases Ht.
Qed.
End kinds.

(** ** What is unpacked is packed again *)

Lemma slice_rest (l : list Z) a b : 0 <= a <= b -> b <= zlen l -> slice_from l a = slice l a b ++ slice_from l b.
Proof.
  intros Ha Hb. unfold slice, slice_from. rewrite !Z.min_l by lia. rewrite <- (take_drop (Z.to_nat b - Z.to_nat a) (drop (Z.to_nat a) l)) at 1.
  f_equal. rewrite drop_drop. f_equal. lia.
Qed.

Lemma slice_from_all (l : list Z) a : a = zlen l -> slice_from l a = [].
Proof. intros ->. unfold slice_from. rewrite Z.min_id. apply drop_ge. unfold zlen. lia. Qed.

Lemma first_rest (l : list Z) : 1 <= zlen l -> l = byte_at l 0 :: slice_from l 1.
Proof.
  intros Hl. destruct l as [|b l]; [done|]. rewrite byte_at_first. f_equal. unfold slice_from. by rewrite Z.min_l by lia.
Qed.

Section unpacked.
Context `{Crc32} (l : list Z) (Hb : bytes l).

#[local] Abbreviation t := (Z.shiftr (byte_at l 0) 4).

(** The header of an unpacked address is the first byte. *)
Lemma unpacked_header a : addressType a = t -> networkId a = Some (Z.land (byte_at l 0) 15) -> packHeader a = [byte_at l 0].
Proof.
  intros E1 E2. destruct (header_split (byte_at l 0)) as (E & Ht & Hn); [by apply byte_at_is_byte|].
  rewrite (packHeader_exact t (Z.land (byte_at l 0) 15)) by done. by rewrite <- E.
Qed.

Lemma base_repacks a : BaseAddress.unpackParts t l = Ok a -> addressType a = t /\ BaseAddress.packParts a = Ok l.
Proof.
  unfold BaseAddress.unpackParts. destruct (Z.eqb_spec (zlen l) 57) as [Hz|]; [|done]. cbn [negb].
  unfold Hash28ByteBase16. rewrite !(typedHex_bytes _ 56) by (rewrite ?zlen_slice by lia; (lia || by apply bytes_slice)).
  cbn [mbind outcome_bind]. intros [= <-]. split; [done|]. unfold BaseAddress.packParts. cbn [paymentPart delegationPart required mbind outcome_bind hash].
  rewrite unpacked_header, !Buffer_hex_roundtrip by (done || by apply bytes_slice). f_equal.
  rewrite (first_rest l) at 4 by lia. cbn [app]. f_equal. rewrite (slice_rest l 1 29), (slice_rest l 29 57), (slice_from_all l 57) by lia.
  by rewrite app_nil_r.
Qed.

Lemma payment_repacks st a : unpackPayment st t l = Ok a -> addressType a = t /\ packPayment a = Ok l.
Proof.
  unfold unpackPayment. destruct (Z.eqb_spec (zlen l) 29) as [Hz|]; [|done]. cbn [negb]. unfold Hash28ByteBase16.
  rewrite (typedHex_bytes _ 56) by (rewrite ?zlen_slice by lia; (lia || by apply bytes_slice)).
  cbn [mbind outcome_bind]. intros [= <-]. split; [done|]. unfold packPayment. cbn [paymentPart required mbind outcome_bind hash].
  rewrite unpacked_header, !Buffer_hex_roundtrip by (done || by apply bytes_slice). f_equal.
  rewrite (first_rest l) at 3 by lia. cbn [app]. f_equal. rewrite (slice_rest l 1 29), (slice_from_all l 29) by lia. by rewrite app_nil_r.
Qed.
End unpacked.

Lemma base_ends t l : BaseAddress.unpackParts t l <> OutOfFuel.
Proof.
  unfold BaseAddress.unpackParts, Hash28ByteBase16. case_bool; [done|].
  pose proof (typedHex_fuel (Buffer_to_hex (slice l 1 29)) 56). pose proof (typedHex_fuel (Buffer_to_hex (slice l 29 57)) 56).
  destruct (typedHex (Buffer_to_hex (slice l 1 29)) 56); cbn; try done. by destruct (typedHex _ 56).
Qed.

Lemma payment_ends st t l : unpackPayment st t l <> OutOfFuel.
Proof.
  unfold unpackPayment, Hash28ByteBase16. case_bool; [done|]. pose proof (typedHex_fuel (Buffer_to_hex (slice l 1 29)) 56).
  by destruct (typedHex _ 56).
Qed.

Lemma pointer_ends t l : PointerAddress.unpackParts t l <> OutOfFuel.
Proof.
  unfold PointerAddress.unpackParts. case_bool; [done|]. pose proof (typedHex_fuel (Buffer_to_hex (slice l 1 29)) 56).
  unfold Hash28ByteBase16. destruct (typedHex _ 56); cbn; try done. repeat (destruct (PointerAddress.variableLengthDecode _)). done.
Qed.

Lemma pointer_type t l a : PointerAddress.unpackParts t l = Ok a -> addressType a = t.
Proof.
  unfold PointerAddress.unpackParts. case_bool; [done|]. destruct (Hash28ByteBase16 _); cbn; try done.
  repeat (destruct (PointerAddress.variableLengthDecode _)). by intros [= <-].
Qed.

Lemma pointer_only t : isPointerType t = true -> isEnterpriseType t = false /\ isRewardType t = false.
Proof. intros Ht. by type_cases Ht. Qed.
