(* ===== verification/AddressText.v ===== *)
(** * Addresses as text

    That a well-formed Shelley address has a bech32 string and which one; shared
    by the properties of addresses and of the identifiers built on them; the
    decoding and encoding of Byron addresses. *)
From S2P Require Import Prelude JsRuntime Utf8 CborCommon Half CborWriter CborReader CborMachine CborExact CborSkip CborDocuments Codec CodecFacts Credential Address AddressFacts.

(** ** Facts about Byron addresses

    The payload of a bootstrap address is CBOR inside CBOR: the bytes it is
    specified to have, that it is read back, and that reading ends on any
    input. *)

Import CborReader CborWriterFacts ByronAddress.

(** ** The specified encoding *)

Definition attributeBytes (key : Z) (value : list Z) : list Z := intBytes key ++ stringBytes value.

Definition attributesBytes (a : ByronAttributes) : list (list Z) :=
  match derivationPath a with Some h => [attributeBytes 1 (blobBytes h)] | None => [] end ++
  match magic a with Some m => [attributeBytes 2 (intBytes m)] | None => [] end.

Definition mapOf (encs : list (list Z)) : list Z := CborWriter.head Map (zlen encs) ++ concat encs.

Definition contentBytes (c : ByronAddressContent) : list Z :=
  CborWriter.head Array 3 ++ blobBytes (root c) ++ mapOf (attributesBytes (attrs c)) ++ intBytes (byronType c).

Definition payloadBytes `{Crc32} (content : list Z) : list Z :=
  CborWriter.head Array 2 ++ (CborWriter.head Tag 24 ++ stringBytes content) ++ intBytes (crc32 content).

(** ** One attribute *)

Section attribute.
Context (key : Z) (value : list Z) (Hkey : 1 <= key <= 2) (Hb : bytes value) (Hz : zlen value < 2 ^ 53).

Lemma attributeBytes_bytes : bytes (attributeBytes key value).
Proof. apply Forall_app. split; [apply intBytes_bytes; lia|by apply stringBytes_bytes]. Qed.

Lemma attributeBytes_begins : begins (attributeBytes key value).
Proof. exists (intBytes key), (stringBytes value). split; [apply intBytes_item; lia|done]. Qed.

Lemma attributeBytes_length : 2 <= zlen (attributeBytes key value).
Proof.
  unfold attributeBytes. rewrite zlen_app. destruct (item_first _ (intBytes_item key ltac:(lia))) as (b & l & -> & _).
  destruct (item_first _ (stringBytes_item value ltac:(lia))) as (b' & l' & -> & _). zlen_simpl.
  pose proof (zlen_nonneg l). pose proof (zlen_nonneg l'). lia.
Qed.

Lemma attribute_emits m : emits m value -> emits (writeAttribute key m) (attributeBytes key value).
Proof.
  intros Hm. unfold writeAttribute. eapply emits_lift; [by apply encodeBytes_emits|].
  apply emits_bind; [apply intBytes_emits; lia|apply stringBytes_emits; lia].
Qed.

(** Reading the key, then the value as CBOR inside a byte string. *)
Lemma attribute_reads {A B} (inner : M A) (v : A) (f : A -> B) : reads (call inner) value v ->
  readsN 2 (key ← call readInt; cborBytes ← call readByteString;
            x ← st_lift (decode (call inner) (HexBlob_fromBytes cborBytes)); mret (f x)) (attributeBytes key value) (f v).
Proof.
  intros Hv. apply (readsN_bind 1 1 _ _ _ _ key); [lia..|apply intBytes_reads; lia|].
  eapply reads_last; [apply stringBytes_reads; lia|]. intros r. unfold HexBlob_fromBytes.
  by rewrite (st_lift_ok _ _ _ v) by by apply decode_reads.
Qed.
End attribute.

Lemma path_reads h : isBlob h = true -> zlen (Buffer_from_hex h) < 2 ^ 32 ->
  readsN 2 readAttribute (attributeBytes 1 (blobBytes h)) (DerivationPath h).
Proof.
  intros Hb Hz. assert (Hl : zlen (blobBytes h) < 2 ^ 53).
  { unfold blobBytes, stringBytes. rewrite zlen_app. pose proof (zlen_nonneg (Buffer_from_hex h)).
    pose proof (is_head_length _ _ _ (writer_head ByteString (zlen (Buffer_from_hex h)) ltac:(lia))). lia. }
  pose proof (attribute_reads 1 (blobBytes h) ltac:(lia) (blobBytes_bytes h) Hl readByteString _ (fun p => DerivationPath (HexBlob_fromBytes p))
    (blobBytes_reads h ltac:(lia))) as H. cbv beta in H. unfold HexBlob_fromBytes in H at 2. rewrite isBlob_eq in H by done.
  intros r rest Hr Hp Hk. rewrite <- (H r rest Hr Hp Hk). unfold readAttribute.
  pose proof (intBytes_reads 1 ltac:(lia)) as H1. unfold attributeBytes in Hr. rewrite <- app_assoc in Hr.
  assert (Hk1 : room (currentFrame r) 1) by (unfold room in *; destruct (definiteLength _); [lia|done]).
  by rewrite !(st_bind_ok _ _ _ _ _ (H1 r _ Hr Hp Hk1)).
Qed.

Lemma magic_reads m : isSafe m = true -> readsN 2 readAttribute (attributeBytes 2 (intBytes m)) (Magic m).
Proof.
  intros Hs%safe_range. assert (Hl : zlen (intBytes m) < 2 ^ 53).
  { destruct (intBytes_head m ltac:(lia)) as (t & v & _ & Hv & _ & -> & _). pose proof (is_head_length _ _ _ (writer_head t v Hv)). lia. }
  pose proof (attribute_reads 2 (intBytes m) ltac:(lia) (intBytes_bytes m ltac:(lia)) Hl readInt _ (fun x => Magic (Number_of x))
    (intBytes_reads m ltac:(lia))) as H. cbv beta in H. rewrite Number_of_exact in H by lia.
  intros r rest Hr Hp Hk. rewrite <- (H r rest Hr Hp Hk). unfold readAttribute.
  pose proof (intBytes_reads 2 ltac:(lia)) as H1. unfold attributeBytes in Hr. rewrite <- app_assoc in Hr.
  assert (Hk1 : room (currentFrame r) 1) by (unfold room in *; destruct (definiteLength _); [lia|done]).
  by rewrite !(st_bind_ok _ _ _ _ _ (H1 r _ Hr Hp Hk1)).
Qed.

(** ** All attributes *)

Section attributes.
Context (a : ByronAttributes) (Ha : attributesOk a = true).

Lemma attributes_cases : (forall h, derivationPath a = Some h -> h <> ""%string /\ isBlob h = true /\ zlen (Buffer_from_hex h) < 2 ^ 32) /\
  (forall m, magic a = Some m -> m <> 0 /\ isSafe m = true).
Proof.
  unfold attributesOk in Ha. apply andb_true_iff in Ha as [H1 H2]. split.
  - intros h E. rewrite E in H1. apply andb_true_iff in H1 as [[H1 Hb]%andb_true_iff Hz].
    apply negb_true_iff, String.eqb_neq in H1. zb. done.
  - intros m E. rewrite E in H2. apply andb_true_iff in H2 as [H2 Hs]. apply negb_true_iff, Z.eqb_neq in H2. done.
Qed.

Lemma pathSet_ok : pathSet a = derivationPath a.
Proof.
  destruct attributes_cases as [H _]. unfold pathSet. destruct (derivationPath a) as [h|]; [|done].
  destruct (H h eq_refl) as (Hne & _). by apply String.eqb_neq in Hne as ->.
Qed.

Lemma magicSet_ok : magicSet a = magic a.
Proof.
  destruct attributes_cases as [_ H]. unfold magicSet. destruct (magic a) as [m|]; [|done].
  destruct (H m eq_refl) as (Hne & _). by apply Z.eqb_neq in Hne as ->.
Qed.

Lemma path_size h : derivationPath a = Some h -> zlen (blobBytes h) < 2 ^ 33.
Proof.
  intros E. destruct attributes_cases as [H _]. destruct (H h E) as (_ & _ & Hz).
  unfold blobBytes, stringBytes. rewrite zlen_app. pose proof (zlen_nonneg (Buffer_from_hex h)).
  pose proof (is_head_length _ _ _ (writer_head ByteString (zlen (Buffer_from_hex h)) ltac:(lia))). lia.
Qed.

Lemma magic_size m : magic a = Some m -> - 2 ^ 53 < m < 2 ^ 53 /\ zlen (intBytes m) <= 9.
Proof.
  intros E. destruct attributes_cases as [_ H]. destruct (H m E) as (_ & Hs%safe_range). split; [done|].
  destruct (intBytes_head m ltac:(lia)) as (t & v & _ & Hv & _ & -> & _). pose proof (is_head_length _ _ _ (writer_head t v Hv)). lia.
Qed.

Lemma attributes_elements : exists xs, elements 2 readAttribute (attributesBytes a) xs /\
  fold_left assignAttribute xs {| derivationPath := None; magic := None |} = a.
Proof.
  destruct attributes_cases as [Hp Hm]. unfold attributesBytes. destruct a as [path m]. cbn [derivationPath magic] in *.
  exists (match path with Some h => [DerivationPath h] | None => [] end ++ match m with Some m => [Magic m] | None => [] end).
  split; [|by destruct path, m]. apply Forall2_app.
  - destruct path as [h|]; repeat constructor; [by apply attributeBytes_begins|]. destruct (Hp h eq_refl) as (_ & ? & ?). by apply path_reads.
  - destruct m as [m|]; repeat constructor; [by apply attributeBytes_begins|]. destruct (Hm m eq_refl) as (_ & ?). by apply magic_reads.
Qed.

Lemma attributes_bytes : Forall bytes (attributesBytes a).
Proof.
  unfold attributesBytes. apply Forall_app. split.
  - destruct (derivationPath a) as [h|]; [apply Forall_cons_2; [|apply Forall_nil_2]|apply Forall_nil_2]. apply attributeBytes_bytes; [lia|apply blobBytes_bytes].
  - destruct (magic a) as [m|] eqn:E; [apply Forall_cons_2; [|apply Forall_nil_2]|apply Forall_nil_2]. destruct (magic_size m E). apply attributeBytes_bytes; [lia|apply intBytes_bytes; lia].
Qed.

Lemma attributes_fit : 2 * zlen (attributesBytes a) <= zlen (concat (attributesBytes a)) <= 2 ^ 35.
Proof.
  assert (Hatt : forall key v, 1 <= key <= 2 -> bytes v -> zlen v < 2 ^ 33 -> 2 <= zlen (attributeBytes key v) <= 2 ^ 33 + 18).
  { intros key v Hk Hb Hv. split; [apply attributeBytes_length; [done|lia]|]. unfold attributeBytes, stringBytes. rewrite !zlen_app.
    pose proof (zlen_nonneg v). pose proof (is_head_length _ _ _ (writer_head ByteString (zlen v) ltac:(lia))).
    destruct (intBytes_head key ltac:(lia)) as (t & x & _ & Hx & _ & -> & _). pose proof (is_head_length _ _ _ (writer_head t x Hx)). lia. }
  unfold attributesBytes. rewrite concat_app, !zlen_app.
  destruct (derivationPath a) as [h|] eqn:Eh; destruct (magic a) as [m|] eqn:Em; cbn [concat]; rewrite ?app_nil_r;
    try (pose proof (Hatt 1 (blobBytes h) ltac:(lia) (blobBytes_bytes h) (path_size h Eh)));
    try (destruct (magic_size m Em) as [Hm Hm'];
         pose proof (Hatt 2 (intBytes m) ltac:(lia) (intBytes_bytes m ltac:(lia)) ltac:(lia)));
    zlen_simpl; lia.
Qed.

Lemma attributes_count : zlen (attributesBytes a) = (if pathSet a is Some _ then 1 else 0) + (if magicSet a is Some _ then 1 else 0).
Proof. rewrite pathSet_ok, magicSet_ok. unfold attributesBytes. by destruct (derivationPath a), (magic a). Qed.

Lemma attributes_emits :
  emits (match pathSet a with Some path => writeAttribute 1 (call (CborWriter.writeByteString (Buffer_from_hex path))) | None => mret tt end ;;
         match magicSet a with Some m => writeAttribute 2 (call (CborWriter.writeInt m)) | None => mret tt end)
    (concat (attributesBytes a)).
Proof.
  rewrite pathSet_ok, magicSet_ok. unfold attributesBytes. rewrite concat_app. destruct attributes_cases as [Hp _]. apply emits_bind.
  - destruct (derivationPath a) as [h|] eqn:E; [|apply emits_ret]. cbn [concat]. rewrite app_nil_r. pose proof (path_size h E).
    destruct (Hp h eq_refl) as (_ & _ & ?). apply attribute_emits; [lia|lia|]. apply blobBytes_emits. lia.
  - destruct (magic a) as [m|] eqn:E; [|apply emits_ret]. cbn [concat]. rewrite app_nil_r. destruct (magic_size m E).
    apply attribute_emits; [lia|lia|]. apply intBytes_emits. lia.
Qed.
End attributes.

(** ** The content and the payload *)

Section content.
Context (c : ByronAddressContent) (Hc : contentOk c = true).

Lemma content_parts : isHash 56 (root c) = true /\ attributesOk (attrs c) = true /\ - 2 ^ 53 < byronType c < 2 ^ 53.
Proof. unfold contentOk in Hc. apply andb_true_iff in Hc as [[Hr Ha]%andb_true_iff Ht%safe_range]. done. Qed.

Lemma contentBytes_bytes : bytes (contentBytes c).
Proof.
  destruct content_parts as (_ & Ha & Ht). unfold contentBytes, mapOf. rewrite !Forall_app.
  split_and!; [by apply head_bytes|apply blobBytes_bytes|apply head_bytes, zlen_nonneg| |apply intBytes_bytes; lia].
  by apply concat_bytes, attributes_bytes.
Qed.

Lemma zlen_content : zlen (contentBytes c) <= 2 ^ 36.
Proof.
  destruct content_parts as (Hr & Ha & Ht). destruct (isHash_spec _ _ Hr) as (_ & _ & Hz). pose proof (attributes_fit _ Ha).
  pose proof (zlen_nonneg (attributesBytes (attrs c))).
  unfold contentBytes, mapOf, blobBytes, stringBytes. rewrite !zlen_app.
  pose proof (is_head_length _ _ _ (writer_head Array 3 ltac:(lia))).
  pose proof (is_head_length _ _ _ (writer_head ByteString (zlen (Buffer_from_hex (root c))) ltac:(lia))).
  pose proof (is_head_length _ _ _ (writer_head Map (zlen (attributesBytes (attrs c))) ltac:(lia))).
  destruct (intBytes_head (byronType c) ltac:(lia)) as (t & v & _ & Hv & _ & -> & _). pose proof (is_head_length _ _ _ (writer_head t v Hv)). lia.
Qed.

Lemma packContent_exact : packContent c = Ok (Buffer_to_hex (contentBytes c)).
Proof.
  destruct content_parts as (Hr & Ha & Ht). destruct (isHash_spec _ _ Hr) as (_ & _ & Hz). pose proof (attributes_fit _ Ha).
  pose proof (zlen_nonneg (attributesBytes (attrs c))).
  unfold packContent. cbv zeta. apply encode_emits. unfold contentBytes, mapOf. apply record_emits; [done|].
  apply emits_bind; [apply blobBytes_emits; lia|]. rewrite <- app_assoc. apply emits_bind.
  { rewrite <- attributes_count by done. apply emits_call, writeTypeValue_head. lia. }
  intros w. pose proof (attributes_emits _ Ha) as He.
  assert (Hi : emits (call (CborWriter.writeInt (byronType c))) (intBytes (byronType c))) by (apply intBytes_emits; lia).
  rewrite <- (emits_bind _ _ _ _ He Hi w). same_program.
Qed.

Lemma readContent_exact : decode readContent (Buffer_to_hex (contentBytes c)) = Ok c.
Proof.
  destruct content_parts as (Hr & Ha & Ht). destruct (isHash_spec _ _ Hr) as (Hb & _ & Hz). pose proof (attributes_fit _ Ha) as Hfit.
  destruct (attributes_elements _ Ha) as (xs & Hxs & Exs). pose proof zlen_content. pose proof contentBytes_bytes as Hbytes.
  set (readMap := (call readStartMap ;; list ← readWhileNot CborReaderState.EndMap readAttribute; call readEndMap ;; mret list) : Dec _).
  set (m := (bytes ← call readByteString; rootHash ← st_lift (Hash28ByteBase16 (Buffer_to_hex bytes)); assigned ← readMap;
    type ← call readInt; mret {| root := rootHash; attrs := fold_left assignAttribute assigned {| derivationPath := None; magic := None |};
      byronType := Number_of type |}) : Dec ByronAddressContent).
  unfold contentBytes in *. rewrite <- (app_nil_r (blobBytes _ ++ _)).
  eapply (decode_record 3 _ m _ c ltac:(lia) 3 []); [|lia| |by apply Forall_app in Hbytes as [_ ?]; rewrite app_nil_r|rewrite app_nil_r; lia].
  - apply (readsN_bind 1 2 _ _ _ _ (Buffer_from_hex (root c))); [lia..|apply blobBytes_reads; lia|].
    apply (readsN_lift _ _ _ (root c)); [rewrite isBlob_eq by done; by apply typedHex_blob|].
    apply (readsN_bind 1 1 _ _ _ _ xs); [lia..|apply reads_map_definite; [lia|lia|done]|].
    eapply reads_last; [apply intBytes_reads; lia|]. intros r. rewrite Exs, Number_of_exact by lia. by destruct c.
  - intros r. unfold m, readMap. same_program.
Qed.
End content.

Section payload.
Context `{Crc32} {CL : Crc32Laws} (content : list Z) (Hb : bytes content) (Hz : zlen content <= 2 ^ 36).

Lemma payloadBytes_bytes : bytes (payloadBytes content).
Proof.
  pose proof (crc32_range content). unfold payloadBytes. rewrite !Forall_app.
  split_and!; [by apply head_bytes|by apply head_bytes|by apply stringBytes_bytes|apply intBytes_bytes; lia].
Qed.

Lemma payload_emits : encodeBytes (call (CborWriter.writeStartArray (Some 2)) ;;
  call (CborWriter.writeTag CborTag.EncodedCborDataItem) ;; call (CborWriter.writeByteString content) ;;
  call (CborWriter.writeInt (crc32 content))) = Ok (payloadBytes content).
Proof.
  pose proof (crc32_range content). apply encodeBytes_emits, record_emits; [done|]. rewrite <- app_assoc.
  apply emits_bind; [by apply emits_call, (writeTypeValue_head Tag 24)|]. apply emits_bind; [apply stringBytes_emits; lia|].
  apply intBytes_emits. lia.
Qed.

Lemma payload_reads : decode readPayload (Buffer_to_hex (payloadBytes content)) = Ok content.
Proof.
  pose proof (crc32_range content). pose proof payloadBytes_bytes as Hpb.
  assert (Hl : zlen (payloadBytes content) < 2 ^ 53).
  { unfold payloadBytes, stringBytes. rewrite !zlen_app. pose proof (zlen_nonneg content). set (k := crc32 content) in *.
    pose proof (is_head_length _ _ _ (writer_head Array 2 ltac:(lia))). pose proof (is_head_length _ _ _ (writer_head Tag 24 ltac:(lia))).
    pose proof (is_head_length _ _ _ (writer_head ByteString (zlen content) ltac:(lia))).
    destruct (intBytes_head k ltac:(lia)) as (t & v & _ & Hv & _ & -> & _). pose proof (is_head_length _ _ _ (writer_head t v Hv)). lia. }
  set (m := (x ← (call readTag ;; call readByteString); n ← call readInt;
    st_guard (negb (Number_of n =? crc32 x)) (InvalidArgumentError "data" "Invalid Byron raw data. Checksum doesnt match.") ;; mret x) : Dec (list Z)).
  unfold payloadBytes in *. rewrite <- (app_nil_r ((_ ++ _) ++ _)).
  eapply (decode_record 2 _ m _ content ltac:(lia) 2 []); [|lia| |by apply Forall_app in Hpb as [_ ?]; rewrite app_nil_r|rewrite app_nil_r; lia].
  - apply (readsN_bind 1 1 _ _ _ _ content); [lia..| |].
    + apply (reads_tag 24 (CborWriter.head Tag 24) (fun _ => call readByteString)); [by apply writer_head|lia|apply stringBytes_reads; lia].
    + eapply reads_last; [apply intBytes_reads; lia|]. intros r. rewrite Number_of_exact, Z.eqb_refl by lia. done.
  - intros r. unfold m. same_program.
Qed.

Lemma payload_type : Z.shiftr (byte_at (payloadBytes content) 0) 4 = AddressType.Byron.
Proof. done. Qed.
End payload.

Lemma fromBytes_byron `{Crc32} l : bytes l -> Z.shiftr (byte_at l 0) 4 = AddressType.Byron ->
  fromBytes (Buffer_to_hex l) = unpackParts AddressType.Byron l.
Proof. intros Hl Ht. unfold fromBytes. rewrite Buffer_hex_roundtrip by done. by rewrite Ht. Qed.

Lemma byron_packs `{Crc32} {CL : Crc32Laws} c : contentOk c = true ->
  packs {| addressType := AddressType.Byron; networkId := None; pointer := None; paymentPart := None; delegationPart := None;
           byronAddressContent := Some c |}.
Proof.
  intros Hc. pose proof (contentBytes_bytes c Hc) as Hb. pose proof (zlen_content c Hc) as Hz.
  pose proof (payloadBytes_bytes _ Hb) as Hp. exists (payloadBytes (contentBytes c)). split_and!; [done| |].
  - change (toBytes _) with (x ← (cbor ← packContent c; let l := Buffer_from_hex cbor in encodeBytes (
      call (CborWriter.writeStartArray (Some 2)) ;; call (CborWriter.writeTag CborTag.EncodedCborDataItem) ;;
      call (CborWriter.writeByteString l) ;; call (CborWriter.writeInt (crc32 l)))); Ok (HexBlob_fromBytes x)).
    rewrite packContent_exact by done. cbn [mbind outcome_bind]. rewrite Buffer_hex_roundtrip by done. by rewrite payload_emits.
  - rewrite fromBytes_byron by done. unfold unpackParts, HexBlob_fromBytes.
    rewrite payload_reads by done. cbn [mbind outcome_bind]. by rewrite readContent_exact.
Qed.

(** ** Reading ends on any input *)

Lemma readAttribute_runs r : wf r -> runs r readAttribute (fun _ r' => offset r < offset r').
Proof.
  intros Hw. unfold readAttribute. eapply runs_bind; [apply item_runs; [apply readInt_item|done]|]. cbv beta. intros key r1 Hr1 Ho1.
  assert (Hw1 : wf r1) by by eapply rtc_step_wf.
  assert (Hin : forall A B (inner : M A) (f : A -> B), reads_item inner ->
    runs r1 (cborBytes ← call readByteString; x ← st_lift (decode (call inner) (HexBlob_fromBytes cborBytes)); mret (f x))
      (fun _ r' => offset r < offset r')).
  { intros A B inner f Hi. eapply runs_bind; [apply (runs_byteString r1 Hw1)|].
    cbv beta. intros l r2 Hr2 (Ho2 & Hl). apply runs_lift; [|intros; apply runs_ret; lia]. unfold HexBlob_fromBytes.
    eapply (decode_runs _ (fun _ _ => True)); [|intros Hw0; eapply runs_impl; [by apply item_runs|done]].
    rewrite Buffer_hex_roundtrip by apply Hl. apply Hl. }
  repeat case_bool; [apply Hin, (readString_item ByteString)|apply Hin, readInt_item|by apply runs_ret].
Qed.

Lemma readPayload_runs `{Crc32} r : wf r -> runs r readPayload (fun l _ => bytes l /\ zlen l < 2 ^ 53).
Proof.
  intros Hw. unfold readPayload. eapply runs_bind; [eapply enter_runs; [apply readStartArray_enters|done]|]. intros _ r1 Hr1 _.
  pose proof (rtc_step_wf _ _ Hr1 Hw) as Hw1. eapply runs_bind; [by apply readTag_runs|]. intros _ r2 Hr2 _.
  pose proof (rtc_step_wf _ _ Hr2 Hw1) as Hw2. eapply runs_bind; [by apply runs_byteString|]. cbv beta. intros l r3 Hr3 (_ & Hl).
  pose proof (rtc_step_wf _ _ Hr3 Hw2) as Hw3. eapply runs_bind; [apply item_runs; [apply readInt_item|done]|]. intros n r4 _ _.
  apply runs_guard. by apply runs_ret.
Qed.

Lemma readContent_runs r : wf r -> runs r readContent (fun _ _ => True).
Proof.
  intros Hw. unfold readContent. eapply runs_bind; [eapply enter_runs; [apply readStartArray_enters|done]|]. intros _ r1 Hr1 _.
  pose proof (rtc_step_wf _ _ Hr1 Hw) as Hw1. eapply runs_bind; [by apply runs_byteString|]. intros l r2 Hr2 _.
  pose proof (rtc_step_wf _ _ Hr2 Hw1) as Hw2. apply runs_lift; [apply typedHex_fuel|]. intros rootHash _.
  eapply runs_bind; [eapply enter_runs; [apply readStartMap_enters|done]|]. intros _ r3 Hr3 _.
  pose proof (rtc_step_wf _ _ Hr3 Hw2) as Hw3. eapply runs_bind; [apply readWhileNot_runs; [|done]; intros; by apply readAttribute_runs|].
  intros xs r4 Hr4 _. pose proof (rtc_step_wf _ _ Hr4 Hw3) as Hw4.
  eapply runs_bind; [apply leave_runs; [apply readEndMap_leaves|done]|]. intros _ r5 Hr5 _.
  pose proof (rtc_step_wf _ _ Hr5 Hw4) as Hw5. eapply runs_bind; [apply item_runs; [apply readInt_item|done]|]. intros. by apply runs_ret.
Qed.

Lemma byron_ends `{Crc32} t l : bytes l -> zlen l < 2 ^ 53 -> unpackParts t l <> OutOfFuel.
Proof.
  intros Hb Hz. assert (Hz' : zlen (Buffer_from_hex (Buffer_to_hex l)) < 2 ^ 53) by by rewrite Buffer_hex_roundtrip.
  unfold unpackParts, HexBlob_fromBytes. pose proof (decode_runs readPayload _ _ Hz' (readPayload_runs _)) as Hp.
  pose proof (fun v => decode_post readPayload _ _ v Hz' (readPayload_runs _)) as Hpost.
  destruct (decode readPayload (Buffer_to_hex l)) as [c|e|]; cbn [mbind outcome_bind]; try done.
  destruct (Hpost c eq_refl) as (_ & Hcb & Hcz).
  assert (Hc : decode readContent (Buffer_to_hex c) <> OutOfFuel).
  { apply (decode_runs _ (fun _ _ => True)); [by rewrite Buffer_hex_roundtrip|]. apply readContent_runs. }
  by destruct (decode readContent _).
Qed.

Lemma byron_type `{Crc32} t l a : unpackParts t l = Ok a -> addressType a = t.
Proof.
  unfold unpackParts. destruct (decode readPayload _); cbn; try done. destruct (decode readContent _); cbn; try done. by intros [= <-].
Qed.

Lemma addressOk_packs `{Crc32} {CL : Crc32Laws} a : addressOk a = true -> packs a.
Proof.
  unfold addressOk. destruct a as [t [n|] [ptr|] [p|] [d|] [c|]]; cbn; try done; intros Ha; split_bool.
  - apply pointer_packs; [done|by apply network_range|done..].
  - apply base_packs; [done|by apply network_range|done..].
  - apply payment_packs; [done|by apply network_range|done].
  - apply Z.eqb_eq in H0 as ->. by apply byron_packs.
Qed.

Lemma bech32_prefix a : addressOk a = true -> (addressType a =? AddressType.Byron) = false ->
  exists p, getBech32Prefix (addressType a) (networkId a) = Ok p /\ isPrefix p = true /\ Z.of_nat (String.length p) <= 10.
Proof.
  intros Ha Hb. assert (Ht : isBaseType (addressType a) || isPointerType (addressType a) || isEnterpriseType (addressType a) ||
    isRewardType (addressType a) = true).
  { revert Ha. unfold addressOk. rewrite Hb. destruct a as [t [n|] [ptr|] [p|] [d|] [c|]]; cbn; try done; intros Ha; split_bool;
      repeat match goal with E : _ = true |- _ => rewrite E end; rewrite ?orb_true_r; try done.
    destruct (isEnterpriseType t); [by rewrite orb_true_r|]. cbn in *. by repeat match goal with E : _ = true |- _ => rewrite E end; rewrite ?orb_true_r. }
  unfold getBech32Prefix. destruct (_ || _ || isEnterpriseType _) eqn:E; cbn in Ht; [|rewrite Ht]; cbn [mbind outcome_bind];
    (eexists; split; [done|]); case_bool_decide; done.
Qed.

Lemma fromBytes_ends `{Crc32} hex : zlen (Buffer_from_hex hex) < 2 ^ 53 -> fromBytes hex <> OutOfFuel.
Proof.
  intros Hz. unfold fromBytes. cbv zeta. repeat case_bool; try done;
    first [apply base_ends|apply pointer_ends|apply payment_ends|apply byron_ends; [apply Buffer_from_hex_bytes|done]].
Qed.

Section text.
Context `{Crc32} {CL : Crc32Laws} `{BaseEncoding} {BL : BaseEncodingLaws}.

(** The bech32 string of a Shelley address. *)
Lemma shelley_text a l : addressOk a = true -> toBytes a = Ok (Buffer_to_hex l) -> bytes l -> fromBytes (Buffer_to_hex l) = Ok a ->
  zlen l <= 500 -> (addressType a =? AddressType.Byron) = false ->
  exists s p, toBech32 a = Ok s /\ fromBech32 s = Ok a /\ getBech32Prefix (addressType a) (networkId a) = Ok p /\
    bech32_decode s MAX_BECH32_LENGTH_LIMIT = Ok (p, bech32_toWords l).
Proof.
  intros Ha El Hb Ed Hz Et. destruct (bech32_prefix a Ha Et) as (p & Ep & Hp & Hlen).
  destruct (bech32_accepts p (bech32_toWords l) MAX_BECH32_LENGTH_LIMIT Hp (words_range l Hb)) as [s Es].
  { rewrite words_length by done. assert ((8 * zlen l + 4) / 5 <= 801) by (apply Z.div_le_upper_bound; lia).
    unfold MAX_BECH32_LENGTH_LIMIT. lia. }
  pose proof (bech32_round_trip _ _ _ _ Es) as Edec. exists s, p. split_and!; [| |done|done].
  - unfold toBech32. rewrite El. cbn [mbind outcome_bind]. rewrite Buffer_hex_roundtrip, Et, Ep by done. exact Es.
  - unfold fromBech32. rewrite Edec. cbn [mbind outcome_bind]. rewrite words_round_trip by done. exact Ed.
Qed.

(** Reward addresses: a header and a hash. *)
Lemma reward_text n c : isNetwork n = true -> credentialOk (Credential.type c =? CredentialType.ScriptHash) c = true ->
  let a := RewardAddress.fromCredentials n c in
  exists s w, toBech32 a = Ok s /\ fromBech32 s = Ok a /\
    bech32_decode s MAX_BECH32_LENGTH_LIMIT = Ok (if n =? 0 then "stake_test"%string else "stake"%string, w) /\ zlen w = 47.
Proof.
  intros Hn Hc a. assert (Et : isRewardType (addressType a) = true /\ Z.odd (addressType a) = (Credential.type c =? CredentialType.ScriptHash)).
  { unfold a, RewardAddress.fromCredentials. by case_bool. }
  assert (Ea : a = paymentAddress (addressType a) n c) by done. destruct Et as [Et Eo]. rewrite <- Eo in Hc.
  assert (Ha : addressOk a = true).
  { rewrite Ea. unfold addressOk. cbn [addressType networkId pointer paymentPart delegationPart byronAddressContent paymentAddress].
    by rewrite Et, Hn, Hc, orb_true_r. }
  destruct (addressOk_packs a Ha) as (l & Hb & El & Ed).
  assert (Hz : zlen l = 29).
  { destruct (credentialOk_spec _ _ Hc) as (_ & Hzh & _). assert (Ep : toBytes a = Ok (HexBlob_fromBytes (packHeader a ++ Buffer_from_hex (hash c)))).
    { rewrite Ea. clear -Et. set (t := addressType a) in *. clearbody t. by type_cases Et. }
    assert (Eh : Buffer_to_hex l = Buffer_to_hex (packHeader a ++ Buffer_from_hex (hash c))) by (unfold HexBlob_fromBytes in Ep; congruence).
    pose proof (length_to_hex l) as Hl. rewrite Eh, length_to_hex, zlen_app, Hzh in Hl. change (zlen (packHeader a)) with 1 in Hl. lia. }
  destruct (shelley_text a l Ha El Hb Ed ltac:(lia)) as (s & p & E1 & E2 & Ep & E3); [unfold a, RewardAddress.fromCredentials; by case_bool|].
  exists s, (bech32_toWords l). split_and!; [done..| |rewrite words_length, Hz by done; done]. rewrite E3. do 2 f_equal.
  rewrite Ea in Ep. cbn [addressType networkId paymentAddress] in Ep. clear -Et Ep. set (t := addressType a) in *. clearbody t.
  assert (Ep' : p = ("stake" +:+ (if bool_decide (Some n = Some 0) then "_test" else ""))%string).
  { type_cases Et; unfold getBech32Prefix in Ep; cbn in Ep; congruence. }
  rewrite Ep'. destruct (Z.eqb_spec n 0) as [->|]; [done|]. by rewrite bool_decide_eq_false_2 by congruence.
Qed.
End text.
