(* ===== verification/AddressTheorems.v ===== *)
(** * What addresses guarantee

    The properties of [Address.v], with a concrete instance of every conditional
    one, and the places where the code departs from what it means to do. *)

From S2P Require Import Prelude JsRuntime CborCommon CborReader Codec Credential Address BaseEncodingRef AddressFacts AddressText.

(** C13. Round trip: every well-formed address, of the eleven Shelley and Byron
    types, with slots of any size in pointers, is packed into bytes that unpack
    to the same address. *)
Theorem address_round_trip `{Crc32} {CL : Crc32Laws} a : addressOk a = true ->
  exists l, bytes l /\ toBytes a = Ok (Buffer_to_hex l) /\ fromBytes (Buffer_to_hex l) = Ok a.
Proof. apply addressOk_packs. Qed.

Lemma address_round_trip_witness :
  let a := PointerAddress.fromCredentials 1 (Build_Credential demo_hash 0) {| slot := 2498243; txIndex := 27; certIndex := 300 |} in
  exists l, bytes l /\ @toBytes sum32 a = Ok (Buffer_to_hex l) /\ @fromBytes sum32 (Buffer_to_hex l) = Ok a.
Proof. apply (@address_round_trip sum32 sum32_laws). vm_compute. reflexivity. Defined.

(** C30. Unpacking ends on every blob, and base, enterprise and reward
    addresses have one binary form: what is unpacked is packed to exactly the
    bytes it came from. *)
Theorem address_unpack_exact `{Crc32} hex : zlen (Buffer_from_hex hex) < 2 ^ 53 ->
  fromBytes hex <> OutOfFuel /\
  forall a, fromBytes hex = Ok a -> isBaseType (addressType a) || isEnterpriseType (addressType a) || isRewardType (addressType a) = true ->
    toBytes a = Ok (Buffer_to_hex (Buffer_from_hex hex)).
Proof.
  intros Hz. pose proof (Buffer_from_hex_bytes hex) as Hb. unfold fromBytes. cbv zeta.
  set (l := Buffer_from_hex hex) in *. set (t := Z.shiftr (byte_at l 0) 4).
  assert (Hlift : forall (o : Res (list Z)), o = Ok l -> (x ← o; Ok (HexBlob_fromBytes x)) = Ok (Buffer_to_hex l)) by by intros ? ->.
  destruct (isBaseType t) eqn:E1; [|destruct (isPointerType t) eqn:E2; [|destruct (isEnterpriseType t) eqn:E3;
    [|destruct (isRewardType t) eqn:E4; [|destruct (t =? AddressType.Byron) eqn:E5]]]].
  - split; [by apply base_ends|]. intros a [Et Ha]%base_repacks _; [|done]. unfold toBytes. rewrite Et. fold t. rewrite E1. by apply Hlift.
  - split; [apply pointer_ends|]. intros a Ha%pointer_type. destruct (pointer_only t E2) as [E3 E4]. by rewrite Ha, E1, E3, E4.
  - split; [by apply payment_ends|]. intros a [Et Ha]%payment_repacks _; [|done]. unfold toBytes. rewrite Et. fold t. rewrite E1, E2, E3. by apply Hlift.
  - split; [by apply payment_ends|]. intros a [Et Ha]%payment_repacks _; [|done]. unfold toBytes. rewrite Et. fold t. rewrite E1, E2, E3, E4. by apply Hlift.
  - split; [by apply byron_ends|]. intros a Ha%byron_type. by rewrite Ha, E1, E3, E4.
  - done.
Qed.

Lemma address_unpack_exact_witness :
  let a := RewardAddress.fromCredentials 1 (Build_Credential demo_hash 1) in
  let hex := ("F1" +:+ demo_hash)%string in
  @fromBytes sum32 hex = Ok a /\ @toBytes sum32 a = Ok (Buffer_to_hex (Buffer_from_hex hex)).
Proof.
  intros a hex. assert (E : @fromBytes sum32 hex = Ok a) by (vm_compute; reflexivity). split; [exact E|].
  apply (@address_unpack_exact sum32 hex); [vm_compute; reflexivity|exact E|vm_compute; reflexivity].
Defined.

(** C38. The textual forms: a Shelley address of at most 500 bytes has a bech32
    string that parses to the same address, also when the kind of string is not
    known; a Byron address has a base58 string that parses to the same address.
    Neither kind is written in the other's form. *)
Theorem address_text_round_trip `{Crc32} {CL : Crc32Laws} `{BaseEncoding} {BL : BaseEncodingLaws} a hex :
  addressOk a = true -> toBytes a = Ok hex -> zlen (Buffer_from_hex hex) <= 500 ->
  if addressType a =? AddressType.Byron then
    exists s, toBase58 a = Ok s /\ fromBase58 s = Ok a /\ isValid s = true /\ forall s', toBech32 a <> Ok s'
  else
    exists s, toBech32 a = Ok s /\ fromBech32 s = Ok a /\ isValid s = true /\ fromString s = Some a /\ forall s', toBase58 a <> Ok s'.
Proof.
  intros Ha Eh Hz. destruct (addressOk_packs a Ha) as (l & Hb & El & Ed). rewrite El in Eh. injection Eh as <-.
  rewrite Buffer_hex_roundtrip in Hz by done. destruct (addressType a =? AddressType.Byron) eqn:Et.
  - assert (E58 : fromBase58 (base58_encode l) = Ok a).
    { unfold fromBase58. rewrite base58_round_trip by done. exact Ed. }
    exists (base58_encode l). split_and!; [|done| |].
    + unfold toBase58. rewrite Et, El. cbn [negb mbind outcome_bind]. by rewrite Buffer_hex_roundtrip.
    + unfold isValid, isValidByron. by rewrite E58, Et, orb_true_r.
    + intros s'. unfold toBech32. rewrite El. cbn [mbind outcome_bind]. by rewrite Et.
  - destruct (shelley_text a l Ha El Hb Ed Hz Et) as (s & p & Es & E32 & _). exists s. split_and!; [done..| | |].
    + unfold isValid, isValidBech32. by rewrite E32.
    + unfold fromString, isValidBech32. by rewrite E32.
    + intros s'. unfold toBase58. by rewrite Et.
Qed.

Lemma address_text_round_trip_witness :
  let a := BaseAddress.fromCredentials 0 (Build_Credential demo_hash 1) (Build_Credential demo_hash 0) in
  exists s, @toBech32 sum32 encoding_ref a = Ok s /\ @fromBech32 sum32 encoding_ref s = Ok a /\
    @isValid sum32 encoding_ref s = true /\ @fromString sum32 encoding_ref s = Some a /\
    forall s', @toBase58 sum32 encoding_ref a <> Ok s'.
Proof.
  apply (@address_text_round_trip sum32 sum32_laws encoding_ref encoding_ref_laws
    (BaseAddress.fromCredentials 0 (Build_Credential demo_hash 1) (Build_Credential demo_hash 0)) ("10" +:+ demo_hash +:+ demo_hash)%string);
    [vm_compute; reflexivity|vm_compute; reflexivity|vm_compute; discriminate].
Defined.

(** Addresses made from credentials are well formed, so that key and script
    credentials survive packing: base and reward addresses, enterprise
    addresses, and pointer addresses of key credentials. *)
Theorem fromCredentials_well_formed n payment stake ptr : isNetwork n = true ->
  isHash 56 (hash payment) = true -> isHash 56 (hash stake) = true ->
  (Credential.type payment =? 0) || (Credential.type payment =? 1) = true ->
  (Credential.type stake =? 0) || (Credential.type stake =? 1) = true ->
  pointerOk ptr = true ->
  addressOk (BaseAddress.fromCredentials n payment stake) = true /\
  addressOk (EnterpriseAddress.fromCredentials n payment) = true /\
  addressOk (RewardAddress.fromCredentials n payment) = true /\
  (Credential.type payment = 0 -> addressOk (PointerAddress.fromCredentials n payment ptr) = true).
Proof.
  intros Hn Hp Hs Tp Ts Hptr. apply orb_true_iff in Tp, Ts. destruct payment as [hp tp], stake as [hs ts]. cbn in *.
  destruct Tp as [Tp|Tp], Ts as [Ts|Ts]; apply Z.eqb_eq in Tp, Ts; subst tp ts; unfold addressOk, credentialOk; cbn;
    rewrite ?Hn, ?Hp, ?Hs, ?Hptr; by split_and!.
Qed.

Lemma fromCredentials_well_formed_witness :
  addressOk (BaseAddress.fromCredentials 1 (Build_Credential demo_hash 1) (Build_Credential demo_hash 1)) = true.
Proof.
  apply (fromCredentials_well_formed 1 (Build_Credential demo_hash 1) (Build_Credential demo_hash 1) {| slot := 0; txIndex := 0; certIndex := 0 |});
    vm_compute; reflexivity.
Defined.

(** A pointer address of a script credential cannot be made: [type &= 0b0001]
    turns [PointerKey] into the type of base addresses, so packing it fails on
    the missing stake credential. *)
Theorem pointer_script_address_is_broken `{Crc32} n payment ptr : Credential.type payment = CredentialType.ScriptHash ->
  let a := PointerAddress.fromCredentials n payment ptr in
  addressType a = AddressType.BasePaymentKeyStakeKey /\
  toBytes a = Throw (JsError "TypeError: Cannot read properties of undefined").
Proof. intros Hp a. subst a. unfold PointerAddress.fromCredentials. rewrite Hp. done. Qed.

Lemma pointer_script_address_is_broken_witness :
  @toBytes sum32 (PointerAddress.fromCredentials 1 (Build_Credential demo_hash 1) {| slot := 1; txIndex := 2; certIndex := 3 |}) =
  Throw (JsError "TypeError: Cannot read properties of undefined").
Proof. apply (@pointer_script_address_is_broken sum32). reflexivity. Defined.

(** A Byron address whose network magic is 0 is packed as a mainnet address:
    before packing its network is a testnet, after unpacking it is mainnet. *)
Theorem byron_zero_magic_becomes_mainnet `{Crc32} {CL : Crc32Laws} root path type :
  let attributes m := {| derivationPath := path; magic := m |} in
  let a := ByronAddress.fromCredentials root (attributes (Some 0)) type in
  contentOk {| root := root; attrs := attributes None; byronType := type |} = true ->
  getNetworkId a = Some NetworkId.Testnet /\
  exists hex b, toBytes a = Ok hex /\ fromBytes hex = Ok b /\ getNetworkId b = Some NetworkId.Mainnet.
Proof.
  intros attributes a Hc. split; [done|]. destruct (byron_packs _ Hc) as (l & Hb & El & Ed).
  eexists _, _. split; [exact El|]. split; [exact Ed|done].
Qed.

Lemma byron_zero_magic_becomes_mainnet_witness :
  let a := ByronAddress.fromCredentials demo_hash {| derivationPath := None; magic := Some 0 |} 0 in
  getNetworkId a = Some NetworkId.Testnet /\
  exists hex b, @toBytes sum32 a = Ok hex /\ @fromBytes sum32 hex = Ok b /\ getNetworkId b = Some NetworkId.Mainnet.
Proof. apply (@byron_zero_magic_becomes_mainnet sum32 sum32_laws demo_hash None 0). vm_compute. reflexivity. Defined.
