(* ===== verification/Identifiers.v ===== *)
(** * Textual identifiers

    Models the bech32 identifiers built on addresses and hashes: [typedBech32]
    of [packages/util/src/primitives.ts], and of [packages/core/src/Cardano]
    the reward accounts ([Address/RewardAccount.ts]), the identifiers of
    delegated representatives in both their forms ([Address/DRepID.ts]), the
    payment credentials ([Address/PaymentCredential.ts]), the payment addresses
    ([Address/PaymentAddress.ts]) and the pool identifiers
    ([types/StakePool/primitives.ts]).

    The code uses two packages for bech32, [@scure/base] and [bech32]; both
    implement the same standard, which is what [Bech32Laws] states. *)

From S2P Require Import Prelude JsRuntime Codec Credential Address.

(** The functions of the package [bech32] the code calls; [encode] is called
    without a limit, which stands for 90 characters. *)
Class Bech32 := {
  npm_toWords : list Z -> list Z;
  npm_encode : string -> list Z -> Res string;
  npm_decode : string -> Z -> Res (string * list Z)
}.

Class Bech32Laws `{BaseEncoding} `{Bech32} : Prop := {
  npm_words l : npm_toWords l = bech32_toWords l;
  npm_encodes p w s : npm_encode p w = Ok s <-> bech32_encode p w 90 = Ok s;
  npm_decodes s limit x : npm_decode s limit = Ok x <-> bech32_decode s limit = Ok x
}.


(** ** [primitives.ts] *)

(** [`${prefix}`] of an array of prefixes. *)
Fixpoint join (l : list string) : string :=
  match l with [] => "" | [s] => s | s :: l => s +:+ "," +:+ join l end.

Section bech32.
Context `{Bech32}.

Definition assertIsBech32WithPrefix (target : string) (prefixes : list string) (expectedDecodedLength : option Z) : Res unit :=
  match npm_decode target MAX_BECH32_LENGTH_LIMIT with
  | Ok (p, words) =>
      if negb (bool_decide (p ∈ prefixes)) then
        Throw (InvalidStringError ("expected bech32 prefix '" +:+ join prefixes +:+ "', got '" +:+ p +:+ "''"))
      else
        match expectedDecodedLength with
        | Some n =>
            if negb (zlen words =? n) then
              Throw (InvalidStringError ("expected decoded length of '" +:+ pretty n +:+ "', got '" +:+ pretty (zlen words) +:+ "'"))
            else Ok tt
        | None => Ok tt
        end
  | Throw _ => Throw (InvalidStringError ("expected bech32-encoded string with '" +:+ join prefixes +:+ "' prefix"))
  | OutOfFuel => OutOfFuel
  end.

Definition typedBech32 (target : string) (prefixes : list string) (expectedDecodedLength : option Z) : Res string :=
  assertIsBech32WithPrefix target prefixes expectedDecodedLength ;; Ok target.

(** [HexBlob.toTypedBech32] *)
Definition toTypedBech32 (prefix : string) (hex : HexBlob) : Res string := npm_encode prefix (npm_toWords (Buffer_from_hex hex)).

End bech32.

(** [try { a } catch { b }] *)
Definition orElse {A} (a b : Res A) : Res A := match a with Throw _ => b | _ => a end.

(** ** Pool identifiers *)

Module PoolId.
Section impl.
Context `{Crc32} `{BaseEncoding} `{Bech32}.

Definition new (value : string) : Res string := typedBech32 value ["pool"] (Some 45).
Definition fromKeyHash (value : string) : Res string := toTypedBech32 "pool" value.
Definition toKeyHash (poolId : string) : Res string :=
  '(_, words) ← bech32_decode poolId MAX_BECH32_LENGTH_LIMIT;
  data ← bech32_fromWords words;
  Ed25519KeyHashHex (HexBlob_fromBytes data).
End impl.
End PoolId.

Definition VrfVkHex (target : string) : Res string := typedHex target 64.

(** ** Reward accounts *)

Module RewardAccount.
Section impl.
Context `{Crc32} `{BaseEncoding} `{Bech32}.

Definition new (value : string) : Res string := typedBech32 value ["stake"; "stake_test"] (Some 47).

(** [Address.fromBech32(rewardAccount).asReward()!] *)
Definition asReward (rewardAccount : string) : Res Address :=
  a ← fromBech32 rewardAccount; required (RewardAddress.fromAddress a).

Definition toHash (rewardAccount : string) : Res string :=
  a ← asReward rewardAccount; payment ← required (paymentPart a); Ok (hash payment).

Definition fromCredential (credential : Credential) (network : Z) : Res string :=
  s ← toBech32 (RewardAddress.fromCredentials network credential); new s.

Definition toNetworkId (rewardAccount : string) : Res (option Z) := a ← asReward rewardAccount; Ok (getNetworkId a).
End impl.
End RewardAccount.

Definition createRewardAccount `{Crc32} `{BaseEncoding} `{Bech32} (stakeKeyHash : string) (network : Z) : Res string :=
  h ← Hash28ByteBase16 stakeKeyHash;
  s ← toBech32 (RewardAddress.fromCredentials network {| hash := h; Credential.type := CredentialType.KeyHash |});
  RewardAccount.new s.

(** ** Delegated representatives *)

Definition CIP_105_DREP_ID_LENGTH : Z := 28.
Definition CIP_129_DREP_ID_LENGTH : Z := 29.

(** [s.includes(sub)] *)
Definition includes (s sub : string) : bool := if String.index 0 sub s is Some _ then true else false.

Module DRepID.
Section impl.
Context `{Crc32} `{BaseEncoding} `{Bech32}.

Definition new (value : string) : Res string :=
  orElse (typedBech32 value ["drep"] (Some 47)) (typedBech32 value ["drep"; "drep_script"] (Some 45)).

Definition isValid (value : string) : bool := match new value with Ok _ => true | _ => false end.

Definition cip105FromCredential (credential : Credential) : Res string :=
  let prefix := if Credential.type credential =? CredentialType.ScriptHash then "drep_script"%string else "drep"%string in
  bech32_encode prefix (bech32_toWords (Buffer_from_hex (hash credential))) MAX_BECH32_LENGTH_LIMIT.

Definition cip129FromCredential (credential : Credential) : Res string :=
  let header := if Credential.type credential =? CredentialType.ScriptHash then "23"%string else "22"%string in
  let cip129payload := (header +:+ hash credential)%string in
  bech32_encode "drep" (bech32_toWords (Buffer_from_hex cip129payload)) MAX_BECH32_LENGTH_LIMIT.

Definition toCredential (drepId : string) : Res Credential :=
  '(_, words) ← bech32_decode drepId MAX_BECH32_LENGTH_LIMIT;
  payload ← bech32_fromWords words;
  if negb (zlen payload =? CIP_105_DREP_ID_LENGTH) && negb (zlen payload =? CIP_129_DREP_ID_LENGTH) then
    Throw (JsError "Error: Invalid DRepID payload")
  else if zlen payload =? CIP_105_DREP_ID_LENGTH then
    h ← Hash28ByteBase16 (Buffer_to_hex payload);
    Ok {| hash := h;
          Credential.type := if includes drepId "drep_script" then CredentialType.ScriptHash else CredentialType.KeyHash |}
  else
    let header := byte_at payload 0 in
    let hash := slice_from payload 1 in
    if negb (Z.land header 32 =? 32) then Throw (JsError "Error: Invalid governance credential type")
    else
      h ← Hash28ByteBase16 (Buffer_to_hex hash);
      Ok {| hash := h;
            Credential.type := if Z.land header 3 =? 3 then CredentialType.ScriptHash else CredentialType.KeyHash |}.

Definition toCip105DRepID (drepId : string) : Res string := c ← toCredential drepId; cip105FromCredential c.
Definition toCip129DRepID (drepId : string) : Res string := c ← toCredential drepId; cip129FromCredential c.

Definition toAddress (drepId : string) : Res (option Address) :=
  c ← toCredential drepId;
  Ok (EnterpriseAddress.fromAddress
    {| addressType := if Credential.type c =? CredentialType.KeyHash then AddressType.EnterpriseKey else AddressType.EnterpriseScript;
       networkId := None; pointer := None; paymentPart := Some c; delegationPart := None; byronAddressContent := None |}).
End impl.
End DRepID.

(** ** Payment credentials and addresses *)

Module PaymentCredential.
Section impl.
Context `{Crc32} `{BaseEncoding} `{Bech32}.

Definition new (value : string) : Res string :=
  orElse (typedBech32 value ["addr_vkh"] (Some 45)) (typedBech32 value ["script"] (Some 45)).

Definition fromCredential (credential : Credential) : Res string :=
  let prefix := if Credential.type credential =? CredentialType.KeyHash then "addr_vkh"%string else "script"%string in
  bech32_encode prefix (bech32_toWords (Buffer_from_hex (hash credential))) 1023.
End impl.
End PaymentCredential.

Definition isRewardAccount `{Bech32} (address : string) : bool :=
  match assertIsBech32WithPrefix address ["stake"; "stake_test"] None with Ok _ => true | _ => false end.

Module PaymentAddress.
Section impl.
Context `{Crc32} `{BaseEncoding} `{Bech32}.

Definition new (value : string) : Res string :=
  if isValid value then
    if isRewardAccount value || DRepID.isValid value then Throw (InvalidStringError value)
    else Ok value
  else
    match typedHex value 0 with
    | Ok _ =>
        address ← fromBytes (HexBlob_fromBytes (Buffer_from_hex value));
        if addressType address =? AddressType.Byron then toBase58 address else toBech32 address
    | Throw _ => Throw (InvalidStringError value)
    | OutOfFuel => OutOfFuel
    end.
End impl.
End PaymentAddress.
