(* ===== verification/Records.v ===== *)
(** * Records: arrays of fields

    Most serialization classes write an array of fields and read it back field
    by field.  This file gives the two halves of the argument about them once:

    - [completes]: on the array of its fields, a decoder returns a given value;
    - [sound]: on any input, a decoder ends, and what it returns satisfies a
      predicate,

    with the rules that follow the structure of the decoders. *)

From S2P Require Import Prelude JsRuntime Utf8 CborCommon Half CborWriter CborReader CborMachine CborExact CborSkip CborDocuments Codec CodecFacts Credential.

Import CborReader CborWriterFacts.

(** ** Shared steps of the decoders *)

(** [if (length !== size) throw new InvalidArgumentError('cbor', `Expected an
    array of ${shown} elements, but got an array of ${length} elements`);] *)
Definition expectLength (size shown : Z) (length : option Z) : Dec unit :=
  st_guard (negb (bool_decide (length = Some size)))
    (InvalidArgumentError "cbor" ("Expected an array of " +:+ pretty shown +:+ " elements, but got an array of "
      +:+ lengthText length +:+ " elements")).

(** [if (reader.peekState() === CborReaderState.Null) reader.readNull(); else x = body;] *)
Definition readNullable {A} (body : Dec A) : Dec (option A) :=
  state ← call peekState;
  if bool_decide (state = CborReaderState.Null) then call readNull ;; mret None
  else x ← body; mret (Some x).

(** [Hash(HexBlob.fromBytes(reader.readByteString()))] for hashes of [n] characters. *)
Definition readHash (n : Z) : Dec string :=
  b ← call readByteString; st_lift (typedHex (HexBlob_fromBytes b) n).

(** [HexBlob.fromBytes(reader.readByteString())], unchecked. *)
Definition readHex : Dec string := b ← call readByteString; mret (HexBlob_fromBytes b).

(** [Number(reader.readInt())] *)
Definition readNumber : Dec Z := n ← call readInt; mret (Number_of n).

(** [while (reader.peekState() !== EndMap) { const key = reader.readInt(); switch
    (key) { ... } } reader.readEndMap();] of a map whose keys say what their
    values are: every iteration gives the change of the state it makes. *)
Definition readKeyed {S} (field : Z -> Dec (S -> S)) (init : S) : Dec S :=
  call readStartMap ;;
  changes ← readWhileNot CborReaderState.EndMap (key ← call readInt; field key);
  call readEndMap ;;
  mret (fold_left (fun s change => change s) changes init).

(** [if (x !== undefined) { writer.writeInt(key); ... }] *)
Definition writeOptional {A} (key : Z) (write : A -> Enc unit) (o : option A) : Enc unit :=
  match o with Some a => call (CborWriter.writeInt key) ;; write a | None => mret tt end.

(** [writer.writeEncodedValue(Buffer.from(x.toCbor(), 'hex'))] *)
Definition writeEncoded (cbor : Res HexBlob) : Enc unit :=
  hex ← st_lift cbor; call (CborWriter.writeEncodedValue (Buffer_from_hex hex)).

(** [x ? write(x) : writer.writeNull()] *)
Definition writeNullable {A} (write : A -> Enc unit) (o : option A) : Enc unit :=
  match o with Some a => write a | None => call CborWriter.writeNull end.

(** [if (this.#originalBytes) return this.#originalBytes; ...] *)
Definition cached (originalBytes : option HexBlob) (cbor : Res HexBlob) : Res HexBlob :=
  match remembered originalBytes with Some h => Ok h | None => cbor end.

(** ** The specified encoding *)

Definition recordBytes (fields : list (list Z)) : list Z := CborWriter.head Array (zlen fields) ++ concat fields.

Definition isInt64 (z : Z) : bool := (- 2 ^ 64 <=? z) && (z <? 2 ^ 64).

Lemma int64_range z : isInt64 z = true -> - 2 ^ 64 <= z < 2 ^ 64.
Proof. unfold isInt64. intros [? ?]%andb_true_iff. zb. lia. Qed.

Lemma safe_int64 z : isSafe z = true -> isInt64 z = true.
Proof. intros H%safe_range. unfold isInt64. apply andb_true_iff. split; [apply Z.leb_le|apply Z.ltb_lt]; lia. Qed.

(** A field: one well-formed item. *)
Definition field (l : list Z) : Prop := item l /\ bytes l.

Lemma field_int z : isInt64 z = true -> field (intBytes z).
Proof. intros Hz%int64_range. split; [by apply intBytes_item|by apply intBytes_bytes]. Qed.

Lemma field_hash n h : isHash n h = true -> n < 2 ^ 53 -> field (blobBytes h).
Proof. intros (_ & _ & Hz)%isHash_spec Hn. split; [apply blobBytes_item; lia|apply blobBytes_bytes]. Qed.

Lemma field_record fields : zlen fields < 2 ^ 53 -> Forall field fields -> field (recordBytes fields).
Proof.
  intros Hz Hf. pose proof (zlen_nonneg fields). split.
  - apply record_item; [lia|]. apply concat_items. eapply Forall_impl; [exact Hf|]. by intros ? [].
  - apply Forall_app. split; [by apply head_bytes|]. apply concat_bytes. eapply Forall_impl; [exact Hf|]. by intros ? [].
Qed.

Lemma part_size (l : list Z) fs : In l fs -> zlen l <= zlen (concat fs).
Proof.
  induction fs as [|x fs IH]; [done|]. cbn. rewrite zlen_app. pose proof (zlen_nonneg (concat fs)). pose proof (zlen_nonneg x).
  intros [->|Hl]; [lia|]. specialize (IH Hl). lia.
Qed.

Lemma record_size fs : zlen (concat fs) <= zlen (recordBytes fs).
Proof. unfold recordBytes. rewrite zlen_app. pose proof (zlen_nonneg (CborWriter.head Array (zlen fs))). lia. Qed.

(** ** Writing *)

Lemma emits_fields m k l fs : emits m l -> emits k (concat fs) -> emits (m ;; k) (concat (l :: fs)).
Proof. apply emits_bind. Qed.

Lemma emits_last m l : emits m l -> emits m (concat [l]).
Proof. cbn. by rewrite app_nil_r. Qed.

Lemma emits_int z : isInt64 z = true -> emits (call (CborWriter.writeInt z)) (intBytes z).
Proof. intros Hz%int64_range. by apply intBytes_emits. Qed.

Lemma emits_hash n h : isHash n h = true -> n < 2 ^ 53 -> emits (call (CborWriter.writeByteString (Buffer_from_hex h))) (blobBytes h).
Proof. intros (_ & _ & Hz)%isHash_spec Hn. apply blobBytes_emits. lia. Qed.

Lemma emits_encoded cbor l : bytes l -> cbor = Ok (Buffer_to_hex l) -> emits (writeEncoded cbor) l.
Proof.
  intros Hl E. eapply emits_lift; [exact E|]. rewrite Buffer_hex_roundtrip by done. apply emits_call, appends_encoded.
Qed.

Definition nullBytes : list Z := [246].

Lemma emits_null : emits (call CborWriter.writeNull) nullBytes.
Proof. apply emits_call. by apply (appends_push 1 246). Qed.

Lemma encode_record n m fs : zlen fs = n -> n < 2 ^ 53 -> emits m (concat fs) ->
  encode (call (CborWriter.writeStartArray (Some n)) ;; m) = Ok (Buffer_to_hex (recordBytes fs)).
Proof.
  intros <- Hn Hm. pose proof (zlen_nonneg fs). apply encode_emits, record_emits; [lia|done].
Qed.

(** ** Reading a record *)

(** In an array with exactly the fields [fs] left. *)
Record within (r : t) (fs : list (list Z)) : Prop := {
  within_before : exists rest, before r (zlen fs) (concat fs ++ rest);
  within_type : CborReader.type (currentFrame r) = Some Array;
  within_length : definiteLength (currentFrame r) = Some (itemsRead (currentFrame r) + zlen fs);
  within_stack : exists f s, nestedItems r = f :: s
}.

Definition completes {A} (fs : list (list Z)) (m : Dec A) (v : A) : Prop := forall r, within r fs -> fst (m r) = Ok v.

Lemma within_step r fs gs : within r (fs ++ gs) -> within (consume r (zlen (concat fs)) (zlen fs)) gs.
Proof.
  intros [(rest & Hb) Ht Hl Hs]. pose proof (zlen_nonneg fs). pose proof (zlen_nonneg gs). split; [|done| |done].
  - exists rest. apply before_consume; [|done..]. by rewrite <- zlen_app, app_assoc, <- concat_app.
  - cbn. rewrite Hl, zlen_app. f_equal. lia.
Qed.

Lemma completes_bindN {A B} j fs gs (m : Dec A) (k : A -> Dec B) x v : zlen fs = j -> 1 <= j ->
  readsN j m (concat fs) x -> completes gs (k x) v -> completes (fs ++ gs) (m ≫= k) v.
Proof.
  intros <- Hj Hm Hk r Hr. pose proof (within_step _ _ _ Hr) as Hr'. destruct (within_before _ _ Hr) as [rest Hb].
  rewrite concat_app, <- app_assoc, zlen_app in Hb. pose proof (zlen_nonneg gs).
  rewrite (st_bind_ok _ _ _ _ _ (Hm r _ (before_ready _ _ _ Hb ltac:(lia)) (before_plain _ _ _ Hb)
    ltac:(pose proof (before_room _ _ _ Hb) as H1; unfold room in *; destruct (definiteLength _); [lia|done]))).
  by apply Hk.
Qed.

Lemma completes_bind {A B} l fs (m : Dec A) (k : A -> Dec B) x v :
  reads m l x -> completes fs (k x) v -> completes (l :: fs) (m ≫= k) v.
Proof. intros Hm Hk. apply (completes_bindN 1 [l] fs _ _ x); [done|done|cbn; by rewrite app_nil_r|done]. Qed.

Lemma completes_last {A} l fs (m : Dec A) v : reads m l v -> completes (l :: fs) m v.
Proof.
  intros Hm r Hr. assert (E : (m ≫= mret) r = m r) by (unfold mbind, ST_bind, mret, ST_ret; by destruct (m r) as [[]]).
  rewrite <- E. apply (completes_bind l fs m mret v v Hm); [by intros ? _|done].
Qed.

Lemma completes_guard {A} b e fs (m : Dec A) v : b = false -> completes fs m v -> completes fs (st_guard b e ;; m) v.
Proof. intros -> Hm. exact Hm. Qed.

Lemma completes_lift {A B} (o : Res A) (k : A -> Dec B) fs x v : o = Ok x -> completes fs (k x) v -> completes fs (y ← st_lift o; k y) v.
Proof. intros -> Hk. exact Hk. Qed.

Lemma completes_ext {A} fs (m m' : Dec A) v : (forall r, m r = m' r) -> completes fs m' v -> completes fs m v.
Proof. intros E Hm r Hr. rewrite E. by apply Hm. Qed.

Lemma completes_ret {A} fs (v : A) : completes fs (mret v) v.
Proof. by intros r _. Qed.

Lemma completes_end {A} (m : Dec A) v : (forall r, fst (m r) = Ok v) -> completes [] (call readEndArray ;; m) v.
Proof.
  intros Hm.
  intros r [[rest Hb] Ht Hl (f & s & Hs)]. change (zlen []) with 0 in Hl. rewrite Z.add_0_r in Hl.
  destruct (before_fresh _ _ _ Hb) as [_ Htag].
  rewrite (st_bind_ok _ _ _ _ _ (call_ok _ _ _ _ (readEndArray_definite r f s _ Ht Hs Htag Hl eq_refl))). apply Hm.
Qed.

(** A decoder that starts with the head of the array. *)
Lemma decode_completes {A} fs (k : option Z -> Dec A) v : 1 <= zlen fs < 2 ^ 53 -> Forall field fs ->
  zlen (recordBytes fs) < 2 ^ 53 -> completes fs (k (Some (zlen fs))) v ->
  decode (length ← call readStartArray; k length) (Buffer_to_hex (recordBytes fs)) = Ok v.
Proof.
  intros Hn Hf Hz Hk. destruct (field_record fs ltac:(lia) Hf) as [_ Hb]. unfold decode, new.
  rewrite Buffer_hex_roundtrip by done. pose proof (fresh_ready _ Hb Hz) as Hr. rewrite <- (app_nil_r (recordBytes fs)) in Hr at 2.
  unfold recordBytes in Hr. rewrite <- app_assoc in Hr.
  destruct (record_inside (zlen fs) (concat fs) Hn _ [] Hr) as [E Hbf].
  etrans; [apply f_equal, (st_bind_ok _ _ _ _ _ (call_ok _ _ _ _ E))|]. apply Hk. split; [by exists []|done..|by eexists _, _].
Qed.

Lemma completes_length {A} n shown fs (m : Dec A) v : completes fs m v -> completes fs (expectLength n shown (Some n) ;; m) v.
Proof. apply completes_guard. by rewrite bool_decide_eq_true_2. Qed.

(** *** Fields *)

Lemma reads_int z : isInt64 z = true -> reads (call readInt) (intBytes z) z.
Proof. intros Hz%int64_range. by apply intBytes_reads. Qed.

Lemma readNumber_reads z : isSafe z = true -> reads readNumber (intBytes z) z.
Proof. intros Hz%safe_range. by apply reads_number. Qed.

Lemma readHex_reads n h : isHash n h = true -> n < 2 ^ 53 -> reads readHex (blobBytes h) h.
Proof.
  intros (Hb & _ & Hz)%isHash_spec Hn. rewrite <- (isBlob_eq h Hb) at 2.
  apply (reads_fmap 1 _ HexBlob_fromBytes), blobBytes_reads. lia.
Qed.

Lemma readHash_reads n h : isHash n h = true -> n < 2 ^ 53 -> reads (readHash n) (blobBytes h) h.
Proof.
  intros Hh Hn. destruct (isHash_spec _ _ Hh) as (Hb & _ & Hz). eapply reads_last; [apply blobBytes_reads; lia|].
  intros r. unfold HexBlob_fromBytes. rewrite isBlob_eq by done. unfold st_lift. by rewrite typedHex_blob.
Qed.

Lemma field_null : field nullBytes.
Proof. split; [by apply (item_simple 22)|prove_bytes]. Qed.

(** *** Fields that may be null *)

(** What the first head of an item is. *)
Definition starts (t : CborMajorType) (l : list Z) : Prop := exists v h k, is_head t v h /\ l = h ++ k.

Lemma starts_head t v l : 0 <= v < 2 ^ 64 -> starts t (CborWriter.head t v ++ l).
Proof. intros Hv. by eexists _, _, _; split; [apply writer_head|]. Qed.

Lemma starts_record fs : zlen fs < 2 ^ 53 -> starts Array (recordBytes fs).
Proof. intros Hz. pose proof (zlen_nonneg fs). apply starts_head. lia. Qed.

Lemma starts_blob n h : isHash n h = true -> n < 2 ^ 53 -> starts ByteString (blobBytes h).
Proof. intros (_ & _ & Hz)%isHash_spec Hn. pose proof (zlen_nonneg (Buffer_from_hex h)). apply starts_head. lia. Qed.

Lemma starts_int z : isInt64 z = true -> starts UnsignedInteger (intBytes z) \/ starts NegativeInteger (intBytes z).
Proof.
  intros Hz%int64_range. destruct (intBytes_head z Hz) as (t & v & Ht & Hv & _ & -> & _).
  rewrite <- (app_nil_r (CborWriter.head t v)). destruct Ht as [-> | ->]; [left|right]; by apply starts_head.
Qed.

Lemma starts_state t l r rest : t <> Simple -> starts t l -> ready r (l ++ rest) -> peekStateCore r = Ok (headState t).
Proof. intros Ht (v & h & k & Hh & ->) Hr. rewrite <- app_assoc in Hr. by eapply peekStateCore_head. Qed.

(** The next item is not [null]. *)
Definition not_null (l : list Z) : Prop := exists s, s <> CborReaderState.Null /\
  forall r rest, ready r (l ++ rest) -> peekStateCore r = Ok s.

Lemma starts_not_null t l : t <> Simple -> starts t l -> not_null l.
Proof. intros Ht Hl. exists (headState t). split; [by destruct t|]. intros r rest. by apply starts_state. Qed.

Lemma null_byte b : is_byte b -> itemState b = Ok CborReaderState.Null -> b = 246.
Proof.
  intros Hb Hs. assert (H : forallb (fun n => negb (bool_decide (itemState (Z.of_nat n) = Ok CborReaderState.Null)) || (Z.of_nat n =? 246)) (seq 0 256) = true)
    by (vm_compute; reflexivity).
  rewrite forallb_forall in H. specialize (H (Z.to_nat b)). rewrite Z2Nat.id in H by (unfold is_byte in Hb; lia). rewrite Hs in H.
  apply Z.eqb_eq. rewrite bool_decide_eq_true_2 in H by done. apply H, in_seq. unfold is_byte in Hb. lia.
Qed.

Lemma item_not_null l : field l -> hd 0 l <> 246 -> not_null l.
Proof.
  intros [Hi Hb] Hn. destruct (item_first l Hi) as (b & k & -> & Hb1 & Hb2). apply Forall_cons in Hb as [Hb _].
  destruct (itemState_byte b Hb) as (s & Es & _). exists s. split.
  - intros ->. by apply Hn, null_byte.
  - intros r rest Hr. by rewrite (peekStateCore_item r b (k ++ rest) Hr Hb1).
Qed.

(** Looks at the next item, which stays where it is. *)
Definition glances {A} (l : list Z) (m : Dec A) (v : A) : Prop := forall r rest, ready r (l ++ rest) -> fst (m r) = Ok v.

Lemma glances_ret {A} l (v : A) : glances l (mret v) v.
Proof. by intros r rest _. Qed.

Lemma glances_peek {A} t l (k : CborReaderState.t -> Dec A) v : t <> Simple -> starts t l ->
  glances l (k (headState t)) v -> glances l (x ← call peekState; k x) v.
Proof.
  intros Ht Hl Hk r rest Hr. pose proof (starts_state t l r _ Ht Hl Hr) as Es.
  rewrite (st_bind_ok _ _ _ _ _ (call_ok _ _ _ _ (peekState_ok r _ (ready_wf _ _ Hr) Es))). by eapply Hk, ready_cached.
Qed.

Lemma glances_record {A} fs (k : option Z -> Dec A) v : 1 <= zlen fs < 2 ^ 53 -> completes fs (k (Some (zlen fs))) v ->
  glances (recordBytes fs) (length ← call readStartArray; k length) v.
Proof.
  intros Hn Hk r rest Hr. unfold recordBytes in Hr. rewrite <- app_assoc in Hr. destruct (record_inside (zlen fs) (concat fs) Hn _ rest Hr) as [E Hbf].
  etrans; [apply f_equal, (st_bind_ok _ _ _ _ _ (call_ok _ _ _ _ E))|]. apply Hk. split; [by exists rest|done..|by eexists _, _].
Qed.

Lemma glances_ext {A} l (m m' : Dec A) v : (forall r, m r = m' r) -> glances l m' v -> glances l m v.
Proof. intros E Hm r rest Hr. rewrite E. by eapply Hm. Qed.

Lemma glances_lift {A B} l (m : Dec A) (f : A -> Res B) x v : f x = Ok v -> glances l m x -> glances l (y ← m; st_lift (f y)) v.
Proof.
  intros E Hm r rest Hr. specialize (Hm r rest Hr). unfold mbind, ST_bind. destruct (m r) as [[y|e|] r']; cbn in Hm; try done.
  injection Hm as ->. by rewrite E.
Qed.

Lemma decode_glances {A} l (m : Dec A) v : glances l m v -> bytes l -> zlen l < 2 ^ 53 -> decode m (Buffer_to_hex l) = Ok v.
Proof.
  intros Hm Hb Hz. unfold decode, new. rewrite Buffer_hex_roundtrip by done. apply (Hm _ []). rewrite app_nil_r. by apply fresh_ready.
Qed.

Lemma completes_glance {A} l fs (m : Dec A) v : glances l m v -> completes (l :: fs) m v.
Proof.
  intros Hm r [[rest Hb] _ _ _]. cbn [concat] in Hb. pose proof (zlen_nonneg fs).
  pose proof (before_ready _ _ _ Hb ltac:(rewrite zlen_cons; lia)) as Hr. rewrite <- app_assoc in Hr. by eapply Hm.
Qed.

Lemma readNullable_none {A} (m : Dec A) : reads (readNullable m) nullBytes None.
Proof.
  apply (reads_peek CborReaderState.Null).
  - intros r rest Hr. by rewrite (peekStateCore_item r 246 rest Hr).
  - rewrite bool_decide_eq_true_2 by done. apply (reads_last _ _ _ tt); [|done]. apply reads_call. intros r rest Hr _. exact (readNull_exact r rest Hr).
Qed.

Lemma readNullable_not_null {A} (m : Dec A) l v : not_null l -> reads m l v -> reads (readNullable m) l (Some v).
Proof.
  intros (s & Hs & Hl) Hm. apply (reads_peek s); [exact Hl|]. rewrite bool_decide_eq_false_2 by done. by eapply reads_last.
Qed.

Lemma readNullable_some {A} (m : Dec A) t l v : t <> Simple -> starts t l -> reads m l v -> reads (readNullable m) l (Some v).
Proof. intros Ht Hl. by apply readNullable_not_null, (starts_not_null t). Qed.

Definition nullableBytes {A} (f : A -> list Z) (o : option A) : list Z := match o with Some a => f a | None => nullBytes end.

Lemma nullable_field {A} (f : A -> list Z) o : (forall a, o = Some a -> field (f a)) -> field (nullableBytes f o).
Proof. destruct o as [a|]; intros Ha; [by apply Ha|apply field_null]. Qed.

Lemma nullable_emits {A} (f : A -> list Z) write o : (forall a, o = Some a -> emits (write a) (f a)) ->
  emits (writeNullable write o) (nullableBytes f o).
Proof. destruct o as [a|]; intros Ha; [by apply Ha|apply emits_null]. Qed.

Lemma nullable_reads {A B} (f : A -> list Z) t (m : Dec B) (g : A -> B) o : t <> Simple ->
  (forall a, o = Some a -> starts t (f a) /\ reads m (f a) (g a)) -> reads (readNullable m) (nullableBytes f o) (option_map g o).
Proof.
  intros Ht. destruct o as [a|]; intros Ha; [|apply readNullable_none]. destruct (Ha a eq_refl). by eapply readNullable_some.
Qed.

(** ** Any input *)

(** The decoder ends, and what it returns satisfies [P]. *)
Definition sound {A} (m : Dec A) (P : A -> Prop) : Prop := forall r, wf r -> runs r m (fun v _ => P v).

(** The same of a [fromCbor], on blobs of acceptable size. *)
Definition accepts {A} (f : HexBlob -> Res A) (P : A -> Prop) : Prop := forall cbor,
  zlen (Buffer_from_hex cbor) < 2 ^ 53 -> f cbor <> OutOfFuel /\ forall v, f cbor = Ok v -> P v.

Lemma sound_bind {A B} (m : Dec A) (k : A -> Dec B) P Q : sound m P -> (forall v, P v -> sound (k v) Q) -> sound (m ≫= k) Q.
Proof. intros Hm Hk r Hw. eapply runs_bind; [by apply Hm|]. intros v r' Hr HP. apply Hk; [done|by eapply rtc_step_wf]. Qed.

Lemma sound_ret {A} (v : A) (P : A -> Prop) : P v -> sound (mret v) P.
Proof. intros HP r _. by apply (runs_ret r v (fun v _ => P v)). Qed.

Lemma sound_throw {A} e (P : A -> Prop) : sound (st_throw e) P.
Proof. intros r _. apply runs_throw. Qed.

Lemma sound_guard {A} b e (m : Dec A) P : (b = false -> sound m P) -> sound (st_guard b e ;; m) P.
Proof. intros Hm r Hw. destruct b; [apply runs_throw|by apply Hm]. Qed.

Lemma sound_lift {A} (o : Res A) P : o <> OutOfFuel -> (forall v, o = Ok v -> P v) -> sound (st_lift o) P.
Proof. intros Ho HP r _. exists o, r. by split_and!. Qed.

Lemma sound_weaken {A} (m : Dec A) (P Q : A -> Prop) : sound m P -> (forall v, P v -> Q v) -> sound m Q.
Proof.
  intros Hm HPQ r Hw. destruct (Hm r Hw) as (o & r' & E & Ho & Hr & HP). exists o, r'. split_and!; auto.
Qed.

Lemma sound_any {A} (m : Dec A) P : sound m P -> sound m (fun _ => True).
Proof. intros Hm. by eapply sound_weaken. Qed.

Lemma sound_item {A} (m : M A) : reads_item m -> sound (call m) (fun _ => True).
Proof. intros Hm r Hw. eapply runs_impl; [by apply item_runs|done]. Qed.

(** An integer read is one of 64 bits and a sign. *)
Lemma peekSignedInteger_range r v n r' : wf r -> peekSignedInteger r = (Ok (v, n), r') -> isInt64 v = true.
Proof.
  intros Hw. unfold peekSignedInteger, mbind, ST_bind, st_get, st_lift.
  destruct (peekInitialByte_cases None r Hw) as [[e ->]|(-> & _)]; [done|]. set (h := byte_at _ _).
  unfold isInt64. rewrite andb_true_iff, Z.leb_le, Z.ltb_lt.
  destruct (decodeUnsignedInteger_cases h _ (bytes_remaining r Hw)) as [[e ->]|(u & k & -> & Hu & _)];
    destruct (majorType_of_num _) as [[]|]; unfold st_throw, mret, ST_ret; intros [=]; lia.
Qed.

Lemma sound_int : sound (call readInt) (fun z => isInt64 z = true).
Proof.
  intros r Hw. destruct (item_runs readInt r readInt_item Hw) as (o & r' & E & Ho & Hr & _). exists o, r'. split_and!; [done..|].
  intros z ->. unfold call, readInt, mbind, ST_bind in E. destruct (peekSignedInteger r) as [[[v n]|e|] r1] eqn:Ep; try done.
  apply peekSignedInteger_range in Ep; [|done]. unfold mret, ST_ret in E. repeat case_match; simplify_eq. done.
Qed.

Definition isUInt (z : Z) : bool := (0 <=? z) && (z <? 2 ^ 64).

Lemma uint_range z : isUInt z = true -> 0 <= z < 2 ^ 64.
Proof. unfold isUInt. intros [? ?]%andb_true_iff. zb. lia. Qed.

Lemma uint_int64 z : isUInt z = true -> isInt64 z = true.
Proof. intros H%uint_range. unfold isInt64. apply andb_true_iff. split; [apply Z.leb_le|apply Z.ltb_lt]; lia. Qed.

Lemma readUInt_reads z : isUInt z = true -> reads (call readUInt) (intBytes z) z.
Proof.
  intros Hz%uint_range. unfold intBytes. rewrite (proj2 (Z.ltb_ge _ _)) by lia. apply reads_call. intros r rest Hr _.
  by eapply readUInt_exact; [apply writer_head|].
Qed.

Lemma sound_uint : sound (call readUInt) (fun z => isUInt z = true).
Proof.
  intros r Hw. destruct (item_runs readUInt r readUInt_item Hw) as (o & r' & E & Ho & Hr & _). exists o, r'. split_and!; [done..|].
  intros z ->. unfold call, readUInt, peekUnsignedInteger, mbind, ST_bind, st_get, st_lift in E.
  destruct (peekInitialByte_cases None r Hw) as [[e Ei]|(Ei & _)]; rewrite Ei in E; [done|]. set (h := byte_at _ _) in *.
  destruct (decodeUnsignedInteger_cases h _ (bytes_remaining r Hw)) as [[e Ed]|(u & k & Ed & Hu & _)]; rewrite Ed in E;
    destruct (majorType_of_num _) as [[]|]; try done. unfold mret, ST_ret in E.
  repeat case_match; simplify_eq. unfold isUInt. apply andb_true_iff. split; [apply Z.leb_le|apply Z.ltb_lt]; lia.
Qed.

Lemma sound_number : sound readNumber (fun _ => True).
Proof. eapply sound_bind; [apply sound_int|]. intros. by apply sound_ret. Qed.

Lemma sound_bytes : sound (call readByteString) (fun l => bytes l /\ zlen l < 2 ^ 53).
Proof. intros r Hw. eapply runs_impl; [by apply runs_byteString|]. by intros ? ? _ (_ & ? & ?). Qed.

(** What [typedHex] accepts of the text of bytes. *)
Lemma typedHex_hash l n h : 0 < n -> bytes l -> typedHex (Buffer_to_hex l) n = Ok h -> isHash n h = true.
Proof.
  intros Hn Hl. unfold typedHex. cbv zeta. destruct (Z.eqb_spec n 0); [lia|]. cbn [negb andb].
  destruct (Z.eqb_spec (Z.of_nat (String.length (Buffer_to_hex l))) n) as [En|]; [|done]. cbn [negb]. case_bool; [done|]. intros [= <-].
  unfold isHash, isBlob. rewrite Buffer_hex_roundtrip, En, Z.eqb_refl, andb_true_r by done. by apply String.eqb_eq.
Qed.

Lemma sound_hash n : 0 < n -> sound (readHash n) (fun h => isHash n h = true).
Proof.
  intros Hn. eapply sound_bind; [apply sound_bytes|]. intros l [Hl _]. apply sound_lift; [apply typedHex_fuel|].
  intros h. by apply typedHex_hash.
Qed.

Lemma isBlob_to_hex l : bytes l -> isBlob (Buffer_to_hex l) = true.
Proof. intros Hl. apply String.eqb_eq. by rewrite Buffer_hex_roundtrip. Qed.

Lemma sound_hex : sound readHex (fun h => isBlob h = true).
Proof. eapply sound_bind; [apply sound_bytes|]. intros l [Hl _]. by apply sound_ret, isBlob_to_hex. Qed.

Lemma sound_text : sound (call readTextString) (fun _ => True).
Proof. apply sound_item, readTextString_item. Qed.

Lemma sound_null : sound (call readNull) (fun _ => True).
Proof. apply sound_item, readNull_item. Qed.

Lemma sound_startArray : sound (call readStartArray) (fun _ => True).
Proof. intros r Hw. eapply runs_impl; [eapply enter_runs; [apply readStartArray_enters|done]|done]. Qed.

Lemma sound_endArray : sound (call readEndArray) (fun _ => True).
Proof. intros r Hw. apply leave_runs; [apply readEndArray_leaves|done]. Qed.

Lemma sound_startMap : sound (call readStartMap) (fun _ => True).
Proof. intros r Hw. eapply runs_impl; [eapply enter_runs; [apply readStartMap_enters|done]|done]. Qed.

Lemma sound_endMap : sound (call readEndMap) (fun _ => True).
Proof. intros r Hw. apply leave_runs; [apply readEndMap_leaves|done]. Qed.

Lemma sound_tag : sound (call readTag) (fun _ => True).
Proof. intros r Hw. eapply runs_impl; [by apply readTag_runs|done]. Qed.

Lemma sound_peekTag : sound (call peekTag) (fun _ => True).
Proof. intros r Hw. eapply runs_impl; [by apply peekTag_runs|done]. Qed.

Lemma sound_peek : sound (call peekState) (fun _ => True).
Proof. intros r Hw. eapply runs_impl; [by apply peekState_runs|done]. Qed.

Lemma sound_skip : sound (call skipValue) (fun _ => True).
Proof.
  intros r Hw. unfold skipValue. apply runs_call. eapply runs_bind; [by apply readEncodedValue_runs|]. intros l r' _ _. by apply runs_ret.
Qed.

Lemma sound_nullable {A} (m : Dec A) (P : A -> Prop) : sound m P -> sound (readNullable m) (fun o => forall a, o = Some a -> P a).
Proof.
  intros Hm. eapply sound_bind; [apply sound_peek|]. intros s _. case_bool_decide.
  - eapply sound_bind; [apply sound_null|]. intros _ _. by apply sound_ret.
  - eapply sound_bind; [exact Hm|]. intros a Ha. apply sound_ret. by intros ? [= <-].
Qed.

(** A nested decoder that accepts any blob. *)
Lemma nested_accepts {A} (f : HexBlob -> Res A) P r : wf r -> accepts f P ->
  runs r (readNested f) (fun v r' => offset r < offset r' /\ P v).
Proof.
  intros Hw Hf. unfold readNested. eapply runs_bind; [by apply runs_call, readEncodedValue_runs|].
  intros l r' Hr' [-> Ho]. destruct (wf_offset r Hw). destruct (wf_offset r' (rtc_step_wf _ _ Hr' Hw)) as [_ Hle].
  pose proof (wf_size r Hw). rewrite (rtc_step_data _ _ Hr') in Hle. unfold HexBlob_fromBytes.
  destruct (Hf (Buffer_to_hex (slice (data r) (offset r) (offset r')))) as [Hfuel HP].
  { rewrite Buffer_hex_roundtrip by (apply bytes_slice, (wf_bytes r Hw)). rewrite zlen_slice; lia. }
  eexists _, r'. split_and!; [reflexivity|done|done|]. intros v Hv. split; [done|by apply HP].
Qed.

Lemma sound_nested {A} (f : HexBlob -> Res A) P : accepts f P -> sound (readNested f) P.
Proof. intros Hf r Hw. eapply runs_impl; [by apply nested_accepts|]. by intros ? ? _ []. Qed.

Lemma accepts_decode {A} (m : HexBlob -> Dec A) P : (forall cbor, sound (m cbor) P) -> accepts (fun cbor => decode (m cbor) cbor) P.
Proof.
  intros Hm cbor Hz. split.
  - eapply decode_runs; [done|]. intros Hw. by apply Hm.
  - intros v Hv. destruct (decode_post (m cbor) (fun v _ => P v) cbor v) as [_ ?]; [done| |done..]. intros Hw. by apply Hm.
Qed.

Lemma accepts_weaken {A} (f : HexBlob -> Res A) (P Q : A -> Prop) : accepts f P -> (forall v, P v -> Q v) -> accepts f Q.
Proof. intros Hf HPQ cbor Hz. destruct (Hf cbor Hz). auto. Qed.

(** *** Loops *)

(** A decoder that also consumes at least one byte. *)
Definition advances {A} (m : Dec A) (P : A -> Prop) : Prop := forall r, wf r -> runs r m (fun v r' => offset r < offset r' /\ P v).

Lemma advances_nested {A} (f : HexBlob -> Res A) P : accepts f P -> advances (readNested f) P.
Proof. intros Hf r Hw. by apply nested_accepts. Qed.

Lemma advances_item {A} (m : M A) : reads_item m -> advances (call m) (fun _ => True).
Proof. intros Hm r Hw. eapply runs_impl; [by apply item_runs|done]. Qed.

Lemma advances_bind {A B} (m : Dec A) (k : A -> Dec B) P Q : advances m P -> (forall v, P v -> sound (k v) Q) -> advances (m ≫= k) Q.
Proof.
  intros Hm Hk r Hw. eapply runs_bind; [by apply Hm|]. cbv beta. intros v r1 Hr1 [Ho HP]. pose proof (rtc_step_wf _ _ Hr1 Hw) as Hw1.
  eapply runs_impl; [by apply (Hk v HP)|]. cbv beta. intros x r2 Hr2 HQ. pose proof (rtc_step_offset _ _ Hr2 Hw1). split; [lia|done].
Qed.

Lemma whileNot_sound {A} stop (body : Dec A) P fuel r : advances body P -> wf r -> zlen (data r) - offset r < Z.of_nat fuel ->
  runs r (whileNot fuel stop body) (fun l _ => Forall P l).
Proof.
  intros Hbody. revert r. induction fuel as [|fuel IH]; intros r Hw Hf; [destruct (wf_offset r Hw); lia|]. cbn [whileNot].
  eapply runs_bind; [by apply peekState_runs|]. cbv beta. intros s r1 Hr1 ->. case_bool_decide; [apply runs_ret; constructor|].
  pose proof (rtc_step_wf _ _ Hr1 Hw) as Hw1. eapply runs_bind; [by apply Hbody|]. cbv beta. intros v r2 Hr2 [Ho HP]. cbn in Ho.
  pose proof (rtc_step_data _ _ Hr2) as Hd. cbn in Hd. pose proof (rtc_step_wf _ _ Hr2 Hw1).
  eapply runs_bind; [apply IH; [done|rewrite Hd; lia]|]. cbv beta. intros l r3 _ Hl. apply runs_ret. by constructor.
Qed.

Lemma sound_while {A} stop (body : Dec A) P : advances body P -> sound (readWhileNot stop body) (Forall P).
Proof. intros Hb r Hw. apply whileNot_sound; [done..|]. destruct (wf_offset r Hw). unfold zlen. lia. Qed.

Lemma sound_map {A} (body : Dec A) P : advances body P -> sound (readMapOf body) (Forall P).
Proof.
  intros Hb. eapply sound_bind; [apply sound_startMap|]. intros _ _. eapply sound_bind; [by apply sound_while|]. intros l Hl.
  eapply sound_bind; [apply sound_endMap|]. intros _ _. by apply sound_ret.
Qed.

Lemma sound_ext {A} (m m' : Dec A) P : (forall r, m r = m' r) -> sound m' P -> sound m P.
Proof. intros E Hm r Hw. unfold runs. rewrite E. by apply Hm. Qed.

Lemma bind_fuel {A B} (o : Res A) (k : A -> Res B) : o <> OutOfFuel -> (forall v, k v <> OutOfFuel) -> (x ← o; k x) <> OutOfFuel.
Proof. destruct o; cbn; auto. Qed.

(** ** Maps of entries *)

Lemma zlen_map {A B} (f : A -> B) l : zlen (map f l) = zlen l.
Proof. unfold zlen. by rewrite length_map. Qed.

(** Maps of well-formed entries that are read and written one after the other. *)
Section entries.
Context {A : Type} (enc : A -> list Z * list Z) (write : A -> Enc unit) (read : Dec A) (l : list A).
Context (Hf : Forall (fun x => field (enc x).1 /\ field (enc x).2) l) (Hz : zlen l < 2 ^ 64).

Lemma entries_field : field (mapBytes false (map enc l)).
Proof.
  split; [apply mapBytes_item; [by rewrite zlen_map|]|apply mapBytes_bytes]; apply Forall_map; (eapply Forall_impl; [exact Hf|]);
    intros x [[? ?] [? ?]]; done.
Qed.

Lemma entries_emits : Forall (fun x => emits (write x) (entryBytes (enc x))) l ->
  emits (call (CborWriter.writeStartMap (Some (zlen l))) ;; forEach write l) (mapBytes false (map enc l)).
Proof.
  intros Hw. unfold mapBytes. rewrite zlen_map. pose proof (zlen_nonneg l). apply emits_bind; [apply emits_call, writeTypeValue_head; lia|].
  apply emits_forEach. rewrite map_map. clear Hf Hz H. induction Hw; constructor; done.
Qed.

Lemma entries_reads : Forall (fun x => readsN 2 read (entryBytes (enc x)) x) l -> reads (readMapOf read) (mapBytes false (map enc l)) l.
Proof.
  intros Hr. apply readMapOf_reads; [by rewrite zlen_map| |].
  - rewrite map_map. clear Hz. induction Hr as [|x k Hx _ IH]; [constructor|]. inversion_clear Hf as [|? ? [[Hi _] _] Hf']. constructor; [|by apply IH].
    split; [|done]. exists (enc x).1, (enc x).2. by split.
  - apply Forall_map. eapply Forall_impl; [exact Hf|]. by intros x [[? ?] [? ?]].
Qed.
End entries.

(** ** Maps whose keys say what their values are *)

Definition keyEntry (e : Z * list Z) : list Z * list Z := (intBytes e.1, e.2).
Definition keyedBytes (es : list (Z * list Z)) : list Z := mapBytes false (map keyEntry es).

Definition optionalEntry {A} (key : Z) (f : A -> list Z) (o : option A) : list (Z * list Z) :=
  match o with Some a => [(key, f a)] | None => [] end.

(** The part of the map that some of the entries make. *)
Definition entriesBytes (es : list (Z * list Z)) : list Z := concat (map (fun e => intBytes e.1 ++ e.2) es).

Lemma entriesBytes_app es es' : entriesBytes (es ++ es') = entriesBytes es ++ entriesBytes es'.
Proof. unfold entriesBytes. by rewrite map_app, concat_app. Qed.

Lemma entriesBytes_cons k l es : entriesBytes ((k, l) :: es) = intBytes k ++ l ++ entriesBytes es.
Proof. unfold entriesBytes. cbn. by rewrite <- app_assoc. Qed.

Lemma keyedBytes_entries es : keyedBytes es = CborWriter.head Map (zlen es) ++ entriesBytes es.
Proof. unfold keyedBytes, mapBytes, entriesBytes. rewrite zlen_map, map_map. done. Qed.

Lemma keyed_field es : zlen es < 2 ^ 64 -> Forall (fun e => isInt64 e.1 = true /\ field e.2) es -> field (keyedBytes es).
Proof.
  intros Hz Hf. apply (entries_field keyEntry); [|done]. eapply Forall_impl; [exact Hf|]. intros e [Hk He]. split; [by apply field_int|done].
Qed.

Lemma keyed_starts es : zlen es < 2 ^ 64 -> starts Map (keyedBytes es).
Proof. intros Hz. rewrite keyedBytes_entries. pose proof (zlen_nonneg es). apply starts_head. lia. Qed.

Lemma keyed_emits n m es : zlen es = n -> n < 2 ^ 64 -> emits m (entriesBytes es) ->
  emits (call (CborWriter.writeStartMap (Some n)) ;; m) (keyedBytes es).
Proof.
  intros <- Hn Hm. rewrite keyedBytes_entries. pose proof (zlen_nonneg es). apply emits_bind; [apply emits_call, writeTypeValue_head; lia|done].
Qed.

Lemma emits_key k m l : isInt64 k = true -> emits m l -> emits (call (CborWriter.writeInt k) ;; m) (entriesBytes [(k, l)]).
Proof. intros Hk Hm. unfold entriesBytes. cbn. rewrite app_nil_r. apply emits_bind; [by apply intBytes_emits, int64_range|done]. Qed.

Lemma optional_emits {A} k write (f : A -> list Z) o : isInt64 k = true -> (forall a, o = Some a -> emits (write a) (f a)) ->
  emits (writeOptional k write o) (entriesBytes (optionalEntry k f o)).
Proof. intros Hk Hw. destruct o as [a|]; [by apply emits_key, Hw|apply emits_ret]. Qed.

Lemma entry_emits k m m' l es : isInt64 k = true -> emits m l -> emits m' (entriesBytes es) ->
  emits (call (CborWriter.writeInt k) ;; m ;; m') (entriesBytes ((k, l) :: es)).
Proof. intros Hk Hm Hm'. rewrite entriesBytes_cons. apply emits_bind; [by apply intBytes_emits, int64_range|]. by apply emits_bind. Qed.

Lemma entries_cons_emits m k e es : emits m (entriesBytes [e]) -> emits k (entriesBytes es) -> emits (m ;; k) (entriesBytes (e :: es)).
Proof. intros Hm Hk. change (e :: es) with ([e] ++ es). rewrite entriesBytes_app. by apply emits_bind. Qed.

Section keyed.
Context {S : Type} (read : Z -> Dec (S -> S)) (init : S).

(** What an entry changes. *)
Definition changes (e : Z * list Z) (f : S -> S) : Prop := isInt64 e.1 = true /\ field e.2 /\ reads (read e.1) e.2 f.

Lemma keyed_reads es fs : Forall2 changes es fs -> zlen es < 2 ^ 64 ->
  reads (readKeyed read init) (keyedBytes es) (fold_left (fun s f => f s) fs init).
Proof.
  intros Hf Hz. apply (readsN_ext 1 _ (fs ← readMapOf (key ← call readInt; read key); mret (fold_left (fun s f => f s) fs init))).
  - intros r. unfold readKeyed, readMapOf. same_program.
  - eapply reads_last; [|done]. apply readMapOf_reads; [by rewrite zlen_map| |].
    + rewrite map_map. clear Hz. induction Hf as [|[k l] f es fs (Hk & [Hi Hb] & Hr) _ IH]; constructor; [|done]. cbn [fst snd] in *. split.
      * exists (intBytes k), l. split; [by apply field_int|done].
      * eapply (readsN_bind 1 1); [done|done| |exact Hr]. by apply intBytes_reads, int64_range.
    + apply Forall_map. clear Hz. induction Hf as [|[k l] f es fs (Hk & [Hi Hb] & Hr) _ IH]; constructor; [|done].
      split; [by apply field_int|done].
Qed.

Lemma sound_keyed (P : S -> Prop) : (forall k, sound (read k) (fun f => forall s, P s -> P (f s))) -> P init -> sound (readKeyed read init) P.
Proof.
  intros Hr Hi. apply (sound_ext _ (fs ← readMapOf (key ← call readInt; read key); mret (fold_left (fun s f => f s) fs init))).
  { intros r. unfold readKeyed, readMapOf. same_program. }
  eapply sound_bind; [apply (sound_map _ (fun f => forall s, P s -> P (f s)))|].
  - eapply advances_bind; [apply advances_item, readInt_item|]. intros k _. apply Hr.
  - cbv beta. intros fs Hfs. apply sound_ret. clear Hr. revert init Hi. induction Hfs as [|f fs Hf _ IH]; intros s Hs; [done|]. cbn. auto.
Qed.
End keyed.

(** ** Text strings *)

Definition textBytes (s : list Z) : list Z := CborWriter.head Utf8String (zlen (utf8_encode s)) ++ utf8_encode s.

(** Well-formed UTF-16 text of at most [n] code units. *)
Definition isText (n : Z) (s : list Z) : bool := well_formed s && (zlen s <=? n).

Lemma utf8_encode_length_aux n s : (length s < n)%nat -> zlen (utf8_encode s) <= 4 * zlen s.
Proof.
  assert (H4 : forall cp, zlen (cp_utf8 cp) <= 4) by (intros cp; unfold cp_utf8; repeat case_bool; unfold zlen; cbn; lia).
  revert s. induction n as [|n IH]; intros s Hn; [lia|]. destruct s as [|u s]; [done|]. cbn [utf8_encode length] in *.
  pose proof (IH s ltac:(lia)) as Hs. pose proof (H4 REPLACEMENT). pose proof (H4 u). rewrite zlen_cons.
  destruct (is_high u); [destruct s as [|v s]; [|destruct (is_low v)]|destruct (is_low u)]; rewrite ?zlen_app; try lia.
  - unfold zlen in *. cbn in *. lia.
  - pose proof (H4 (pair_cp u v)). cbn [length] in Hn. pose proof (IH s ltac:(lia)). rewrite zlen_cons. lia.
Qed.

Lemma utf8_encode_length s : zlen (utf8_encode s) <= 4 * zlen s.
Proof. apply (utf8_encode_length_aux (S (length s))). lia. Qed.

Section text.
Context (n : Z) (s : list Z) (Hs : isText n s = true) (Hn : n <= 2 ^ 40).

#[local] Lemma text_spec : well_formed s = true /\ 0 <= zlen (utf8_encode s) < 2 ^ 64.
Proof.
  apply andb_true_iff in Hs as [? ?]. zb. pose proof (utf8_encode_length s). pose proof (zlen_nonneg (utf8_encode s)). split; [done|lia].
Qed.

Lemma field_text : field (textBytes s).
Proof.
  destruct text_spec as [Hw Hl]. split.
  - eapply item_string; [by right|by apply writer_head].
  - by apply string_bytes, utf8_encode_bytes, well_formed_units.
Qed.

Lemma starts_text : starts Utf8String (textBytes s).
Proof. by apply starts_head, text_spec. Qed.

Lemma emits_text : emits (call (CborWriter.writeTextString s)) (textBytes s).
Proof. apply emits_call, string_appends, text_spec. Qed.

Lemma reads_text : reads (call readTextString) (textBytes s) s.
Proof.
  destruct text_spec as [Hw Hl]. apply reads_call. intros r rest Hr _. unfold readTextString.
  rewrite (st_bind_ok _ _ _ _ _ (string_read Utf8String (utf8_encode s) r rest ltac:(done) ltac:(lia) Hr)).
  by rewrite utf8_roundtrip.
Qed.
End text.

(** ** Credentials, as the certificates embed them *)

Definition writeCredential (c : Credential) : Enc unit :=
  call (CborWriter.writeStartArray (Some 2)) ;;
  call (CborWriter.writeInt (Credential.type c)) ;;
  call (CborWriter.writeByteString (Buffer_from_hex (hash c))).

(** The message of the length check shows the length of the enclosing array. *)
Definition readCredential (length : option Z) : Dec Credential :=
  credLength ← call readStartArray;
  st_guard (negb (bool_decide (credLength = Some 2)))
    (InvalidArgumentError "cbor" ("Expected an array of 2 elements, but got an array of " +:+ lengthText length +:+ " elements")) ;;
  type ← readCredentialType;
  hash ← readHash 56;
  call readEndArray ;;
  mret {| hash := hash; Credential.type := type |}.

Definition isCredential (c : Credential) : bool :=
  ((Credential.type c =? 0) || (Credential.type c =? 1)) && isHash 56 (hash c).

Section credential.
Context (c : Credential) (Hc : isCredential c = true).

#[local] Lemma credential_spec : (Credential.type c =? 0) || (Credential.type c =? 1) = true /\ isHash 56 (hash c) = true /\ isInt64 (Credential.type c) = true.
Proof.
  apply andb_true_iff in Hc as [Ht Hh]. split_and!; [done..|]. apply orb_true_iff in Ht as [Ht|Ht]; apply Z.eqb_eq in Ht; by rewrite Ht.
Qed.

Lemma field_credential : field (credentialBytes c).
Proof.
  destruct credential_spec as (Ht & Hh & _). pose proof (isHash_spec _ _ Hh) as (_ & _ & ?). split; [apply credentialBytes_item; [done|lia]|by apply credentialBytes_bytes].
Qed.

Lemma emits_credential : emits (writeCredential c) (credentialBytes c).
Proof.
  destruct credential_spec as (Ht & Hh & Hi). apply record_emits; [done|]. apply emits_bind; [by apply emits_int|by apply (emits_hash 56)].
Qed.

Lemma readCredential_reads length : reads (readCredential length) (credentialBytes c) c.
Proof.
  destruct credential_spec as (Ht & Hh & Hi).
  eapply (reads_record 2 _ (t ← readCredentialType; h ← readHash 56; mret (Build_Credential h t))); [done| |].
  - apply (readsN_bind 1 1 _ _ _ _ (Credential.type c)); [done..|by apply readCredentialType_reads|].
    eapply reads_last; [by apply readHash_reads|]. intros r. by destruct c.
  - intros r. rewrite st_guard_ok by done. same_program.
Qed.
End credential.

Lemma sound_credentialType : sound readCredentialType (fun t => (t =? 0) || (t =? 1) = true).
Proof.
  eapply sound_bind; [apply sound_int|]. intros n _. cbv zeta. apply sound_guard. intros Hb. apply sound_ret.
  unfold CredentialType.KeyHash, CredentialType.ScriptHash in Hb. by destruct (Number_of n =? 0), (Number_of n =? 1).
Qed.

Lemma sound_credential length : sound (readCredential length) (fun c => isCredential c = true).
Proof.
  eapply sound_bind; [apply sound_startArray|]. intros n _. apply sound_guard. intros _.
  eapply sound_bind; [apply sound_credentialType|]. intros ty Ht. eapply sound_bind; [by apply sound_hash|]. intros h Hh.
  eapply sound_bind; [apply sound_endArray|]. intros _ _. apply sound_ret. unfold isCredential. cbn [Credential.type hash]. by rewrite Ht, Hh.
Qed.

(** ** Automation *)

Lemma sound_length {A} n shown length (m : Dec A) P : sound m P -> sound (expectLength n shown length ;; m) P.
Proof. intros Hm. by apply sound_guard. Qed.

Create HintDb codec.
#[export] Hint Resolve field_int field_hash field_null field_text field_credential emits_int emits_hash emits_null emits_text
  emits_credential reads_int readHash_reads readHex_reads readNumber_reads readUInt_reads uint_int64 sound_uint reads_text readCredential_reads safe_int64
  sound_int sound_hash sound_hex sound_number sound_text sound_credential sound_startArray sound_endArray sound_startMap
  sound_endMap sound_tag sound_peekTag sound_null : codec.
#[export] Hint Extern 1 (_ < _) => lia : codec.
#[export] Hint Extern 1 (_ <= _) => lia : codec.

(** The fields of a record, its writer and its reader, one after the other. *)
Ltac fields := repeat first [apply Forall_nil_2 | apply Forall_cons_2]; eauto with codec.

Ltac emit_fields := repeat first [ apply emits_last; solve [eauto with codec] | apply emits_fields; [solve [eauto with codec]|] ].

Ltac read_fields := cbv beta; repeat first
  [ apply completes_length
  | eapply completes_bind; [solve [eauto with codec]|cbv beta]
  | apply completes_ret
  | apply completes_end; intros; reflexivity ].

Ltac sound_fields := cbv beta; repeat first
  [ apply sound_length
  | apply sound_guard; intros _
  | eapply sound_bind; [solve [eauto with codec]|cbv beta; intros ? ?] ].
