(* ===== verification/IdentifierTheorems.v ===== *)
(** * What the textual identifiers guarantee

    The properties of [Identifiers.v], with a concrete instance of every
    conditional one. *)

From S2P Require Import Prelude JsRuntime CborCommon CborReader Codec Credential Address BaseEncodingRef AddressFacts AddressText Records Identifiers.

(** ** Strings *)

Lemma get_data n d : isData d = true -> String.get n d <> Some "_"%char.
Proof.
  revert n. induction d as [|c d IH]; intros n; [done|]. cbn [isData]. intros [Hc Hd]%andb_true_iff.
  destruct n as [|n]; [|by apply IH]. intros [= ->]. done.
Qed.

Lemma includes_get s sub k c : includes s sub = true -> String.get k sub = Some c -> (k < String.length sub)%nat -> exists n, String.get n s = Some c.
Proof.
  unfold includes. destruct (String.index 0 sub s) as [n|] eqn:E; [|done]. intros _ Hk Hlen. exists (k + n)%nat.
  apply String.index_correct1 in E. rewrite <- (String.substring_correct1 s n (String.length sub) k Hlen). by rewrite E.
Qed.

Lemma drep_not_script d : isData d = true -> includes ("drep" +:+ String "1" d) "drep_script" = false.
Proof.
  intros Hd. destruct (includes _ _) eqn:E; [|done]. exfalso.
  destruct (includes_get _ _ 4 "_"%char E eq_refl) as [n Hn]; [cbn; lia|].
  do 5 (destruct n as [|n]; [done|]). by apply (get_data n d Hd).
Qed.

(** ** Bech32 text of hashes *)

Section text.
Context `{BaseEncoding} {BL : BaseEncodingLaws}.

(** The text of [l] under the prefix [p]. *)
Lemma bech32_text p l limit : isPrefix p = true -> bytes l -> Z.of_nat (String.length p) + 7 + (8 * zlen l + 4) / 5 <= limit -> limit <= 1023 ->
  exists s d, bech32_encode p (bech32_toWords l) limit = Ok s /\ s = (p +:+ String "1" d)%string /\ isData d = true /\
    bech32_decode s 1023 = Ok (p, bech32_toWords l) /\ bech32_fromWords (bech32_toWords l) = Ok l /\ zlen (bech32_toWords l) = (8 * zlen l + 4) / 5.
Proof.
  intros Hp Hl Hlen Hlim. destruct (bech32_accepts p (bech32_toWords l) limit Hp (words_range l Hl)) as [s Es]; [by rewrite words_length|].
  destruct (bech32_form _ _ _ _ Es) as (d & Ed & Hd). exists s, d. split_and!; [done..| |by apply words_round_trip|by apply words_length].
  eapply bech32_limit; [by apply bech32_round_trip|done].
Qed.

Context `{Bech32} {NL : Bech32Laws}.

Lemma typedBech32_ok s p ps w n : bech32_decode s 1023 = Ok (p, w) -> p ∈ ps -> zlen w = n -> typedBech32 s ps (Some n) = Ok s.
Proof.
  intros Ed Hp Hn. unfold typedBech32, assertIsBech32WithPrefix. apply npm_decodes in Ed. unfold MAX_BECH32_LENGTH_LIMIT. rewrite Ed.
  rewrite bool_decide_eq_true_2 by done. cbn [negb]. by rewrite Hn, Z.eqb_refl.
Qed.
End text.

Lemma credential_bytes c : isCredential c = true -> let b := Buffer_from_hex (hash c) in
  bytes b /\ zlen b = 28 /\ Hash28ByteBase16 (Buffer_to_hex b) = Ok (hash c) /\ (Credential.type c = 0 \/ Credential.type c = 1).
Proof.
  intros [Ht Hh]%andb_true_iff. destruct (isHash_spec _ _ Hh) as (Hb & _ & Hz). cbv zeta. split_and!; [apply Buffer_from_hex_bytes|lia| |].
  - rewrite isBlob_eq by done. by apply typedHex_blob.
  - apply orb_true_iff in Ht as [Ht|Ht]; apply Z.eqb_eq in Ht; auto.
Qed.

(** The bytes of a header and a hash. *)
Lemma header_hash c : isCredential c = true -> 
  let b := Buffer_from_hex ((if Credential.type c =? CredentialType.ScriptHash then "23"%string else "22"%string) +:+ hash c) in
  b = (if Credential.type c =? CredentialType.ScriptHash then 35 else 34) :: Buffer_from_hex (hash c).
Proof. intros _. cbv zeta. by case_bool. Qed.

Section identifiers.
Context `{Crc32} {CL : Crc32Laws} `{BaseEncoding} {BL : BaseEncodingLaws} `{Bech32} {NL : Bech32Laws}.

Lemma cip105_text c : isCredential c = true -> exists s w, DRepID.cip105FromCredential c = Ok s /\ DRepID.toCredential s = Ok c /\
  bech32_decode s 1023 = Ok (if Credential.type c =? 1 then "drep_script"%string else "drep"%string, w) /\ zlen w = 45.
Proof.
  intros Hc. destruct (credential_bytes c Hc) as (Hb & Hz & Hh & Ht).
  set (p := if Credential.type c =? CredentialType.ScriptHash then "drep_script"%string else "drep"%string).
  assert (Hp : isPrefix p = true /\ Z.of_nat (String.length p) <= 11) by (subst p; case_bool; split; done).
  destruct (bech32_text p (Buffer_from_hex (hash c)) 1023) as (s & d & Es & Ed & Hd & Edec & Ew & Hw); [apply Hp|done| |done|].
  { rewrite Hz. change ((8 * 28 + 4) / 5) with 45. lia. }
  exists s, (bech32_toWords (Buffer_from_hex (hash c))). split_and!; [exact Es| |exact Edec|by rewrite Hw, Hz].
  unfold DRepID.toCredential. unfold MAX_BECH32_LENGTH_LIMIT. rewrite Edec. cbn [mbind outcome_bind]. rewrite Ew. cbn [mbind outcome_bind].
  rewrite Hz. cbn [Z.eqb negb andb CIP_105_DREP_ID_LENGTH Pos.eqb]. rewrite Hh. cbn [mbind outcome_bind]. do 2 f_equal.
  destruct c as [h ty]. cbn in *. f_equal. subst p s. destruct Ht as [-> | ->]; cbn [Z.eqb CredentialType.ScriptHash].
  - by rewrite drep_not_script.
  - done.
Qed.

Lemma cip129_text c : isCredential c = true -> exists s w, DRepID.cip129FromCredential c = Ok s /\ DRepID.toCredential s = Ok c /\
  bech32_decode s 1023 = Ok ("drep"%string, w) /\ zlen w = 47.
Proof.
  intros Hc. destruct (credential_bytes c Hc) as (Hb & Hz & Hh & Ht). pose proof (header_hash c Hc) as Eb. cbv zeta in Eb.
  set (b := Buffer_from_hex _) in Eb at 1. assert (Hbb : bytes b) by apply Buffer_from_hex_bytes.
  assert (Hzb : zlen b = 29) by (rewrite Eb, zlen_cons; lia).
  destruct (bech32_text "drep" b 1023) as (s & d & Es & Ed & Hd & Edec & Ew & Hw); [done|done| |done|].
  { rewrite Hzb. done. }
  exists s, (bech32_toWords b). split_and!; [exact Es| |exact Edec|by rewrite Hw, Hzb].
  unfold DRepID.toCredential. unfold MAX_BECH32_LENGTH_LIMIT. rewrite Edec. cbn [mbind outcome_bind]. rewrite Ew. cbn [mbind outcome_bind].
  rewrite Hzb. cbn [Z.eqb negb andb CIP_105_DREP_ID_LENGTH CIP_129_DREP_ID_LENGTH Pos.eqb]. cbv zeta.
  assert (E0 : byte_at b 0 = if Credential.type c =? CredentialType.ScriptHash then 35 else 34) by by rewrite Eb.
  assert (E1 : slice_from b 1 = Buffer_from_hex (hash c)) by (rewrite Eb; by apply (slice_from_app [_])).
  rewrite E0, E1, Hh. destruct c as [h ty]. cbn in *. by destruct Ht as [-> | ->].
Qed.
End identifiers.

(** An instance of the interface of [bech32]. *)
Definition npm_ref : Bech32 := {| npm_toWords := toWords; npm_encode p w := encodeRef p w 90; npm_decode := decodeRef |}.

Lemma npm_ref_laws : @Bech32Laws encoding_ref npm_ref.
Proof. by split. Qed.

Lemma credentialOk_of c : isCredential c = true -> credentialOk (Credential.type c =? CredentialType.ScriptHash) c = true.
Proof.
  intros [Ht Hh]%andb_true_iff. unfold credentialOk. rewrite Hh. cbn [andb].
  apply orb_true_iff in Ht as [Ht|Ht]; apply Z.eqb_eq in Ht; by rewrite Ht.
Qed.

(** Identifiers of delegated representatives: a credential has an identifier of
    each of the two forms (CIP-105 and CIP-129); both are accepted, both give
    the credential back, and each is converted to the other. *)
Theorem drep_id_round_trip `{BaseEncoding} {BL : BaseEncodingLaws} `{Bech32} {NL : Bech32Laws} c : isCredential c = true ->
  exists s105 s129, DRepID.cip105FromCredential c = Ok s105 /\ DRepID.cip129FromCredential c = Ok s129 /\
    DRepID.new s105 = Ok s105 /\ DRepID.new s129 = Ok s129 /\
    DRepID.toCredential s105 = Ok c /\ DRepID.toCredential s129 = Ok c /\
    DRepID.toCip129DRepID s105 = Ok s129 /\ DRepID.toCip105DRepID s129 = Ok s105.
Proof.
  intros Hc. destruct (cip105_text c Hc) as (s & w & Es & Ec & Ed & Hw). destruct (cip129_text c Hc) as (s' & w' & Es' & Ec' & Ed' & Hw').
  exists s, s'. split_and!; [done|done| | |done|done|unfold DRepID.toCip129DRepID; by rewrite Ec|unfold DRepID.toCip105DRepID; by rewrite Ec'].
  - unfold DRepID.new. assert (E : typedBech32 s ["drep"; "drep_script"]%string (Some 45) = Ok s).
    { eapply typedBech32_ok; [exact Ed| |done]. case_bool; set_solver. }
    rewrite E. unfold typedBech32, assertIsBech32WithPrefix. apply npm_decodes in Ed. unfold MAX_BECH32_LENGTH_LIMIT. rewrite Ed.
    case_bool_decide; [|done]. cbn [negb]. by rewrite Hw.
  - unfold DRepID.new. rewrite (typedBech32_ok s' "drep" _ w' 47); [done..|set_solver|done].
Qed.

Lemma drep_id_round_trip_witness :
  let c := Build_Credential demo_hash 1 in
  exists s105 s129, @DRepID.cip105FromCredential encoding_ref c = Ok s105 /\ @DRepID.cip129FromCredential encoding_ref c = Ok s129 /\
    @DRepID.new npm_ref s105 = Ok s105 /\ @DRepID.new npm_ref s129 = Ok s129 /\
    @DRepID.toCredential encoding_ref s105 = Ok c /\ @DRepID.toCredential encoding_ref s129 = Ok c /\
    @DRepID.toCip129DRepID encoding_ref s105 = Ok s129 /\ @DRepID.toCip105DRepID encoding_ref s129 = Ok s105.
Proof. apply (@drep_id_round_trip encoding_ref encoding_ref_laws npm_ref npm_ref_laws). vm_compute. reflexivity. Defined.

Lemma pool_text `{BaseEncoding} {BL : BaseEncodingLaws} `{Bech32} {NL : Bech32Laws} c : isCredential c = true ->
  exists s, PoolId.fromKeyHash (hash c) = Ok s /\ PoolId.new s = Ok s /\ PoolId.toKeyHash s = Ok (hash c).
Proof.
  intros Hc. destruct (credential_bytes c Hc) as (Hb & Hz & Hh & _).
  destruct (bech32_text "pool" (Buffer_from_hex (hash c)) 90) as (s & d & Es & _ & _ & Edec & Ew & Hw); [done|done|by rewrite Hz|done|].
  exists s. split_and!.
  - unfold PoolId.fromKeyHash, toTypedBech32. rewrite npm_words. by apply npm_encodes.
  - eapply typedBech32_ok; [exact Edec|set_solver|by rewrite Hw, Hz].
  - unfold PoolId.toKeyHash, MAX_BECH32_LENGTH_LIMIT. rewrite Edec. cbn [mbind outcome_bind]. rewrite Ew. exact Hh.
Qed.

(** C37. Reward accounts and pool identifiers: a stake credential has a reward
    account on every network, which is accepted and from which the hash and the
    network can be read back; the identifier of a pool gives its key hash back. *)
Theorem account_and_pool_round_trip `{Crc32} {CL : Crc32Laws} `{BaseEncoding} {BL : BaseEncodingLaws} `{Bech32} {NL : Bech32Laws} c n :
  isCredential c = true -> isNetwork n = true ->
  (exists s, RewardAccount.fromCredential c n = Ok s /\ RewardAccount.new s = Ok s /\ RewardAccount.toHash s = Ok (hash c) /\
    RewardAccount.toNetworkId s = Ok (Some n)) /\
  (exists s, PoolId.fromKeyHash (hash c) = Ok s /\ PoolId.new s = Ok s /\ PoolId.toKeyHash s = Ok (hash c)).
Proof.
  intros Hc Hn. split.
  - destruct (reward_text n c Hn (credentialOk_of c Hc)) as (s & w & Es & Ed & Ew & Hw).
    assert (Enew : RewardAccount.new s = Ok s).
    { eapply typedBech32_ok; [exact Ew| |done]. case_bool; set_solver. }
    assert (Er : RewardAccount.asReward s = Ok (RewardAddress.fromCredentials n c)).
    { unfold RewardAccount.asReward. rewrite Ed. cbn [mbind outcome_bind]. unfold RewardAddress.fromCredentials. by case_bool. }
    exists s. split_and!; [|done| |].
    + unfold RewardAccount.fromCredential. rewrite Es. exact Enew.
    + unfold RewardAccount.toHash. by rewrite Er.
    + unfold RewardAccount.toNetworkId. rewrite Er. unfold RewardAddress.fromCredentials. by case_bool.
  - by apply pool_text.
Qed.

Lemma account_and_pool_round_trip_witness :
  let c := Build_Credential demo_hash 0 in
  exists s, @RewardAccount.fromCredential sum32 encoding_ref npm_ref c 0 = Ok s /\ @RewardAccount.toNetworkId sum32 encoding_ref s = Ok (Some 0).
Proof.
  destruct (@account_and_pool_round_trip sum32 sum32_laws encoding_ref encoding_ref_laws npm_ref npm_ref_laws
    (Build_Credential demo_hash 0) 0) as [(s & E1 & _ & _ & E2) _]; [vm_compute; reflexivity|reflexivity|].
  exists s. split; [exact E1|exact E2].
Defined.
