(* ===== verification/NativeScript.v ===== *)
(** * Native scripts

    Models [packages/core/src/Serialization/Scripts/NativeScript]: the class
    [NativeScript] and the seven classes it wraps.

    A [NativeScript] holds one wrapped script, the kind says which, so it is an
    inductive type.  Both the wrapper and the wrapped script remember the blob
    they were decoded from: [inner] is the [#originalBytes] of the wrapped
    script, [outer] that of the wrapper.  The accessors ([asScriptAll], ...)
    return the wrapped object itself, so its setters change it inside the
    wrapper; they reset [inner] only. *)

From S2P Require Import Prelude JsRuntime CborCommon CborWriter CborReader Codec Credential.

(** ** Core types *)

Inductive CoreScript : Set :=
  | RequireSignature (keyHash : string)
  | RequireAllOf (scripts : list CoreScript)
  | RequireAnyOf (scripts : list CoreScript)
  | RequireNOf (required : Z) (scripts : list CoreScript)
  | RequireTimeAfter (slot : Z)
  | RequireTimeBefore (slot : Z)
  | RequireGuardOf (credential : Credential).

Module NativeScriptKind.
Definition RequireSignature : Z := 0.
Definition RequireAllOf : Z := 1.
Definition RequireAnyOf : Z := 2.
Definition RequireNOf : Z := 3.
Definition RequireTimeAfter : Z := 4.
Definition RequireTimeBefore : Z := 5.
Definition RequireGuard : Z := 6.
End NativeScriptKind.

(** ** Serializable types *)

Inductive NativeScript : Set :=
  | ScriptPubkey (keyHash : string) (inner outer : option HexBlob)
  | ScriptAll (nativeScripts : list NativeScript) (inner outer : option HexBlob)
  | ScriptAny (nativeScripts : list NativeScript) (inner outer : option HexBlob)
  | ScriptNOfK (nativeScripts : list NativeScript) (required : Z) (inner outer : option HexBlob)
  | TimelockStart (slot : Z) (inner outer : option HexBlob)
  | TimelockExpiry (slot : Z) (inner outer : option HexBlob)
  | RequireGuard (credential : Credential) (inner outer : option HexBlob).

Definition innerBytes (s : NativeScript) : option HexBlob :=
  match s with
  | ScriptPubkey _ i _ | ScriptAll _ i _ | ScriptAny _ i _ | ScriptNOfK _ _ i _ | TimelockStart _ i _
  | TimelockExpiry _ i _ | RequireGuard _ i _ => i
  end.

Definition outerBytes (s : NativeScript) : option HexBlob :=
  match s with
  | ScriptPubkey _ _ o | ScriptAll _ _ o | ScriptAny _ _ o | ScriptNOfK _ _ _ o | TimelockStart _ _ o
  | TimelockExpiry _ _ o | RequireGuard _ _ o => o
  end.

Definition setOuterBytes (s : NativeScript) (cbor : HexBlob) : NativeScript :=
  match s with
  | ScriptPubkey k i _ => ScriptPubkey k i (Some cbor)
  | ScriptAll l i _ => ScriptAll l i (Some cbor)
  | ScriptAny l i _ => ScriptAny l i (Some cbor)
  | ScriptNOfK l n i _ => ScriptNOfK l n i (Some cbor)
  | TimelockStart s i _ => TimelockStart s i (Some cbor)
  | TimelockExpiry s i _ => TimelockExpiry s i (Some cbor)
  | RequireGuard c i _ => RequireGuard c i (Some cbor)
  end.

(** ** Encoding *)

Section toCbor.
Variable scriptToCbor : NativeScript -> Res HexBlob.

(** [for (const nativeScript of this.#nativeScripts)
       writer.writeEncodedValue(Buffer.from(nativeScript.toCbor(), 'hex'));] *)
Definition writeScripts (l : list NativeScript) : Enc unit :=
  forEach (fun s => cbor ← st_lift (scriptToCbor s); call (CborWriter.writeEncodedValue (Buffer_from_hex cbor))) l.

Definition ScriptPubkey_toCbor (keyHash : string) : Res HexBlob :=
  encode (
    call (CborWriter.writeStartArray (Some 2)) ;;
    call (CborWriter.writeInt NativeScriptKind.RequireSignature) ;;
    call (CborWriter.writeByteString (Buffer_from_hex keyHash))).

(** [ScriptAll.toCbor] and [ScriptAny.toCbor]. *)
Definition scripts_toCbor (kind : Z) (l : list NativeScript) : Res HexBlob :=
  encode (
    call (CborWriter.writeStartArray (Some 2)) ;;
    call (CborWriter.writeInt kind) ;;
    call (CborWriter.writeStartArray (Some (zlen l))) ;;
    writeScripts l).

Definition ScriptNOfK_toCbor (required : Z) (l : list NativeScript) : Res HexBlob :=
  encode (
    call (CborWriter.writeStartArray (Some 3)) ;;
    call (CborWriter.writeInt NativeScriptKind.RequireNOf) ;;
    call (CborWriter.writeInt required) ;;
    call (CborWriter.writeStartArray (Some (zlen l))) ;;
    writeScripts l).

(** [TimelockStart.toCbor] and [TimelockExpiry.toCbor]. *)
Definition timelock_toCbor (kind slot : Z) : Res HexBlob :=
  encode (
    call (CborWriter.writeStartArray (Some 2)) ;;
    call (CborWriter.writeInt kind) ;;
    call (CborWriter.writeInt slot)).

Definition RequireGuard_toCbor (credential : Credential) : Res HexBlob :=
  encode (
    call (CborWriter.writeStartArray (Some 2)) ;;
    call (CborWriter.writeInt NativeScriptKind.RequireGuard) ;;
    cbor ← st_lift (Credential_toCbor credential);
    call (CborWriter.writeEncodedValue (Buffer_from_hex cbor))).
End toCbor.

Fixpoint toCbor (s : NativeScript) : Res HexBlob :=
  match remembered (outerBytes s) with
  | Some h => Ok h
  | None =>
      match remembered (innerBytes s) with
      | Some h => Ok h
      | None =>
          match s with
          | ScriptPubkey keyHash _ _ => ScriptPubkey_toCbor keyHash
          | ScriptAll l _ _ => scripts_toCbor toCbor NativeScriptKind.RequireAllOf l
          | ScriptAny l _ _ => scripts_toCbor toCbor NativeScriptKind.RequireAnyOf l
          | ScriptNOfK l required _ _ => ScriptNOfK_toCbor toCbor required l
          | TimelockStart slot _ _ => timelock_toCbor NativeScriptKind.RequireTimeAfter slot
          | TimelockExpiry slot _ _ => timelock_toCbor NativeScriptKind.RequireTimeBefore slot
          | RequireGuard credential _ _ => RequireGuard_toCbor credential
          end
      end
  end.

(** ** Decoding *)

(** The checks every wrapped script starts with: the size of the group and the
    kind. *)
Definition readGroup (size kind : Z) : Dec unit :=
  length ← call CborReader.readStartArray;
  st_guard (negb (bool_decide (length = Some size)))
    (InvalidArgumentError "cbor" ("Expected an array of two elements, but got an array of " +:+ lengthText length +:+ " elements")) ;;
  n ← call CborReader.readInt;
  st_guard (negb (Number_of n =? kind))
    (InvalidArgumentError "cbor" ("Expected kind " +:+ pretty kind +:+ ", but got kind " +:+ pretty (Number_of n))).

Definition ScriptPubkey_fromCbor (cbor : HexBlob) : Res NativeScript :=
  decode (
    readGroup 2 NativeScriptKind.RequireSignature ;;
    bytes ← call CborReader.readByteString;
    key ← st_lift (Ed25519KeyHashHex (HexBlob_fromBytes bytes));
    mret (ScriptPubkey key (Some cbor) None)) cbor.

Definition TimelockStart_fromCbor (cbor : HexBlob) : Res NativeScript :=
  decode (
    readGroup 2 NativeScriptKind.RequireTimeAfter ;;
    n ← call CborReader.readInt;
    mret (TimelockStart (Number_of n) (Some cbor) None)) cbor.

Definition TimelockExpiry_fromCbor (cbor : HexBlob) : Res NativeScript :=
  decode (
    readGroup 2 NativeScriptKind.RequireTimeBefore ;;
    n ← call CborReader.readInt;
    mret (TimelockExpiry (Number_of n) (Some cbor) None)) cbor.

Definition RequireGuard_fromCbor (cbor : HexBlob) : Res NativeScript :=
  decode (
    readGroup 2 NativeScriptKind.RequireGuard ;;
    credential ← readNested Credential_fromCbor;
    mret (RequireGuard credential (Some cbor) None)) cbor.

Section fromCbor.
Variable scriptFromCbor : HexBlob -> Res NativeScript.

Definition readScripts : Dec (list NativeScript) :=
  call CborReader.readStartArray ;;
  scripts ← readWhileNot CborReaderState.EndArray (readNested scriptFromCbor);
  call CborReader.readEndArray ;;
  mret scripts.

Definition ScriptAll_fromCbor (cbor : HexBlob) : Res NativeScript :=
  decode (
    readGroup 2 NativeScriptKind.RequireAllOf ;;
    scripts ← readScripts;
    mret (ScriptAll scripts (Some cbor) None)) cbor.

Definition ScriptAny_fromCbor (cbor : HexBlob) : Res NativeScript :=
  decode (
    readGroup 2 NativeScriptKind.RequireAnyOf ;;
    scripts ← readScripts;
    mret (ScriptAny scripts (Some cbor) None)) cbor.

Definition ScriptNOfK_fromCbor (cbor : HexBlob) : Res NativeScript :=
  decode (
    readGroup 3 NativeScriptKind.RequireNOf ;;
    required ← call CborReader.readInt;
    scripts ← readScripts;
    mret (ScriptNOfK scripts (Number_of required) (Some cbor) None)) cbor.

Definition readKind (cbor : HexBlob) : Res Z :=
  decode (call CborReader.readStartArray ;; n ← call CborReader.readInt; mret (Number_of n)) cbor.

(** The [switch] of [NativeScript.fromCbor]. *)
Definition fromCborKind (kind : Z) (cbor : HexBlob) : Res NativeScript :=
  if kind =? NativeScriptKind.RequireSignature then ScriptPubkey_fromCbor cbor
  else if kind =? NativeScriptKind.RequireAllOf then ScriptAll_fromCbor cbor
  else if kind =? NativeScriptKind.RequireAnyOf then ScriptAny_fromCbor cbor
  else if kind =? NativeScriptKind.RequireNOf then ScriptNOfK_fromCbor cbor
  else if kind =? NativeScriptKind.RequireTimeAfter then TimelockStart_fromCbor cbor
  else if kind =? NativeScriptKind.RequireTimeBefore then TimelockExpiry_fromCbor cbor
  else if kind =? NativeScriptKind.RequireGuard then RequireGuard_fromCbor cbor
  else Throw (InvalidStateError ("Unexpected kind value: " +:+ pretty kind)).
End fromCbor.

(** Sub-scripts are proper parts of the blob: their number of bytes bounds the
    depth of the recursion. *)
Fixpoint fromCborFuel (fuel : nat) (cbor : HexBlob) : Res NativeScript :=
  match fuel with
  | O => OutOfFuel
  | S fuel' =>
      kind ← readKind cbor;
      nativeScript ← fromCborKind (fromCborFuel fuel') kind cbor;
      Ok (setOuterBytes nativeScript cbor)
  end.

Definition fromCbor (cbor : HexBlob) : Res NativeScript := fromCborFuel (S (length (hexToBytes cbor))) cbor.

(** ** Core types *)

Fixpoint toCore (s : NativeScript) : CoreScript :=
  match s with
  | ScriptPubkey keyHash _ _ => RequireSignature keyHash
  | ScriptAll l _ _ => RequireAllOf (map toCore l)
  | ScriptAny l _ _ => RequireAnyOf (map toCore l)
  | ScriptNOfK l required _ _ => RequireNOf required (map toCore l)
  | TimelockStart slot _ _ => RequireTimeAfter slot
  | TimelockExpiry slot _ _ => RequireTimeBefore slot
  | RequireGuard credential _ _ => RequireGuardOf credential
  end.

Fixpoint fromCore (c : CoreScript) : NativeScript :=
  match c with
  | RequireSignature keyHash => ScriptPubkey keyHash None None
  | RequireAllOf l => ScriptAll (map fromCore l) None None
  | RequireAnyOf l => ScriptAny (map fromCore l) None None
  | RequireNOf required l => ScriptNOfK (map fromCore l) required None None
  | RequireTimeAfter slot => TimelockStart slot None None
  | RequireTimeBefore slot => TimelockExpiry slot None None
  | RequireGuardOf credential => RequireGuard credential None None
  end.

(** ** Setters of the wrapped scripts *)

(** [script.asScriptPubkey()!.setKeyHash(keyHash)], and so on. *)
Definition setKeyHash (s : NativeScript) (keyHash : string) : NativeScript :=
  match s with ScriptPubkey _ _ o => ScriptPubkey keyHash None o | _ => s end.

Definition setNativeScripts (s : NativeScript) (l : list NativeScript) : NativeScript :=
  match s with
  | ScriptAll _ _ o => ScriptAll l None o
  | ScriptAny _ _ o => ScriptAny l None o
  | ScriptNOfK _ n _ o => ScriptNOfK l n None o
  | _ => s
  end.

Definition setRequired (s : NativeScript) (required : Z) : NativeScript :=
  match s with ScriptNOfK l _ _ o => ScriptNOfK l required None o | _ => s end.

Definition setSlot (s : NativeScript) (slot : Z) : NativeScript :=
  match s with
  | TimelockStart _ _ o => TimelockStart slot None o
  | TimelockExpiry _ _ o => TimelockExpiry slot None o
  | _ => s
  end.

Definition setCredential (s : NativeScript) (credential : Credential) : NativeScript :=
  match s with RequireGuard _ _ o => RequireGuard credential None o | _ => s end.
