(* ===== verification/NativeFacts.v ===== *)
(** * Facts about native scripts

    The encoding a native script is specified to have ([scriptBytes]), that the
    encoder produces it and the decoder reads it back, and that the decoder ends
    on every blob. *)
From S2P Require Import Prelude JsRuntime Utf8 CborCommon Half CborWriter CborReader CborMachine CborExact CborSkip CborDocuments Codec CodecFacts Credential NativeScript.

Import CborReader CborWriterFacts.

(** ** Induction *)

Section induction.
Variable P : CoreScript -> Prop.
Hypothesis Hsig : forall k, P (RequireSignature k).
Hypothesis Hall : forall l, Forall P l -> P (RequireAllOf l).
Hypothesis Hany : forall l, Forall P l -> P (RequireAnyOf l).
Hypothesis Hnof : forall n l, Forall P l -> P (RequireNOf n l).
Hypothesis Hafter : forall s, P (RequireTimeAfter s).
Hypothesis Hbefore : forall s, P (RequireTimeBefore s).
Hypothesis Hguard : forall c, P (RequireGuardOf c).

Fixpoint CoreScript_rec' (c : CoreScript) : P c :=
  let all := fix go l := match l return Forall P l with
    | [] => Forall_nil_2 P | x :: l => Forall_cons_2 P x l (CoreScript_rec' x) (go l) end in
  match c with
  | RequireSignature k => Hsig k
  | RequireAllOf l => Hall l (all l)
  | RequireAnyOf l => Hany l (all l)
  | RequireNOf n l => Hnof n l (all l)
  | RequireTimeAfter s => Hafter s
  | RequireTimeBefore s => Hbefore s
  | RequireGuardOf c => Hguard c
  end.
End induction.

(** ** The specified encoding *)

Definition groupBytes (size kind : Z) (fields : list Z) : list Z :=
  CborWriter.head Array size ++ intBytes kind ++ fields.

(** [native_script] of the ledger's CDDL: an array that starts with the kind. *)
Fixpoint scriptBytes (c : CoreScript) : list Z :=
  let all l := CborWriter.head Array (zlen l) ++ concat (map scriptBytes l) in
  match c with
  | RequireSignature keyHash => groupBytes 2 0 (blobBytes keyHash)
  | RequireAllOf l => groupBytes 2 1 (all l)
  | RequireAnyOf l => groupBytes 2 2 (all l)
  | RequireNOf required l => groupBytes 3 3 (intBytes required ++ all l)
  | RequireTimeAfter slot => groupBytes 2 4 (intBytes slot)
  | RequireTimeBefore slot => groupBytes 2 5 (intBytes slot)
  | RequireGuardOf credential => groupBytes 2 6 (credentialBytes credential)
  end.

(** Scripts whose hashes and numbers are of the types they are declared with. *)
Fixpoint valid (c : CoreScript) : bool :=
  match c with
  | RequireSignature keyHash => isHash 56 keyHash
  | RequireAllOf l | RequireAnyOf l => (zlen l <? 2 ^ 53) && forallb valid l
  | RequireNOf required l => isSafe required && (zlen l <? 2 ^ 53) && forallb valid l
  | RequireTimeAfter slot | RequireTimeBefore slot => isSafe slot
  | RequireGuardOf c => ((Credential.type c =? 0) || (Credential.type c =? 1)) && isBlob (hash c)
      && (zlen (Buffer_from_hex (hash c)) <? 2 ^ 53)
  end.

(** ** Groups *)

Section group.
Context (size kind : Z) (fields : list Z) (Hsize : 2 <= size <= 3) (Hkind : 0 <= kind <= 6).

Lemma groupBytes_item : items (size - 1) fields -> item (groupBytes size kind fields).
Proof.
  intros Hf. apply record_item; [lia|]. replace size with (size - 1 + 1) by lia.
  apply items_cons; [apply intBytes_item; lia|done].
Qed.

Lemma groupBytes_bytes : bytes fields -> bytes (groupBytes size kind fields).
Proof.
  intros Hf. unfold groupBytes. rewrite !Forall_app. split_and!; [apply head_bytes; lia|apply intBytes_bytes; lia|done].
Qed.

Lemma group_emits m : emits m fields ->
  encode (call (CborWriter.writeStartArray (Some size)) ;; call (CborWriter.writeInt kind) ;; m) =
  Ok (Buffer_to_hex (groupBytes size kind fields)).
Proof.
  intros Hm. apply encode_emits, record_emits; [lia|]. apply emits_bind; [apply intBytes_emits; lia|done].
Qed.

Context (Hb : bytes fields) (Hz : zlen (groupBytes size kind fields) < 2 ^ 53).

#[local] Lemma kind_bytes : bytes (intBytes kind ++ fields).
Proof. apply Forall_app. split; [apply intBytes_bytes; lia|done]. Qed.

Lemma readKind_group : readKind (Buffer_to_hex (groupBytes size kind fields)) = Ok kind.
Proof.
  eapply (decode_record size _ (n ← call readInt; mret (Number_of n)) (intBytes kind) kind ltac:(lia) 1 fields);
    [|lia|done|apply kind_bytes|exact Hz].
  apply reads_number. lia.
Qed.

(** A wrapped script is decoded when its fields are. *)
Lemma group_reads {A} (m : Dec A) v : readsN (size - 1) m fields v ->
  decode (readGroup size kind ;; m) (Buffer_to_hex (groupBytes size kind fields)) = Ok v.
Proof.
  intros Hm. set (k := fun n : Z => (st_guard (negb (Number_of n =? kind))
    (InvalidArgumentError "cbor" ("Expected kind " +:+ pretty kind +:+ ", but got kind " +:+ pretty (Number_of n))) ;; m) : Dec A).
  assert (Hr : readsN size (call readInt ≫= k) (intBytes kind ++ fields) v).
  { replace size with (1 + (size - 1)) by lia. eapply readsN_bind; [lia..|apply intBytes_reads; lia|].
    intros r rest Hr Hp Hroom. unfold k. rewrite st_guard_ok by (rewrite Number_of_exact by lia; by rewrite Z.eqb_refl).
    by apply (Hm r rest). }
  pose proof (decode_record size (fun length => st_guard (negb (bool_decide (length = Some size)))
    (InvalidArgumentError "cbor" ("Expected an array of two elements, but got an array of " +:+ lengthText length +:+ " elements")) ;;
    (call readInt ≫= k)) (call readInt ≫= k) (intBytes kind ++ fields) v ltac:(lia) size []) as H.
  rewrite app_nil_r in H. rewrite <- H; [|done|lia| |apply kind_bytes|exact Hz].
  - unfold decode, readGroup, mbind, ST_bind. f_equal. destruct (call readStartArray _) as [[len|e|] r]; [|done..].
    destruct (st_guard _ _ r) as [[[]|e|] r1]; [|done..]. by destruct (call readInt r1) as [[n|e|] r2].
  - intros r. by rewrite st_guard_ok by by rewrite bool_decide_eq_true_2.
Qed.
End group.

(** ** Scripts *)

Lemma toCore_setOuterBytes s h : toCore (setOuterBytes s h) = toCore s.
Proof. by destruct s. Qed.

Definition decodes (c : CoreScript) : Prop := forall fuel,
  zlen (scriptBytes c) < 2 ^ 53 -> (length (scriptBytes c) < fuel)%nat ->
  exists s, fromCborFuel fuel (Buffer_to_hex (scriptBytes c)) = Ok s /\ toCore s = c.

(** The encoder gives the script its specified encoding, and the decoder reads
    it back. *)
Record specified (c : CoreScript) : Prop := {
  specified_item : item (scriptBytes c);
  specified_bytes : bytes (scriptBytes c);
  specified_encode : toCbor (fromCore c) = Ok (Buffer_to_hex (scriptBytes c));
  specified_decode : decodes c
}.

Lemma node_decodes size kind fields c : 2 <= size <= 3 -> 0 <= kind <= 6 -> bytes fields ->
  scriptBytes c = groupBytes size kind fields ->
  (forall fuel, zlen (groupBytes size kind fields) < 2 ^ 53 -> zlen fields < 2 ^ 53 -> zlen fields < Z.of_nat fuel ->
    exists s, fromCborKind (fromCborFuel fuel) kind (Buffer_to_hex (groupBytes size kind fields)) = Ok s /\ toCore s = c) ->
  decodes c.
Proof.
  intros Hs Hk Hb E Hd fuel Hz Hf. rewrite E in *. destruct fuel as [|fuel]; [lia|].
  assert (Hlen : zlen fields + 2 <= zlen (groupBytes size kind fields)).
  { unfold groupBytes. rewrite !zlen_app. pose proof (is_head_length _ _ _ (writer_head Array size ltac:(lia))).
    destruct (item_first _ (intBytes_item kind ltac:(lia))) as (b & l & -> & _). zlen_simpl. pose proof (zlen_nonneg l). lia. }
  destruct (Hd fuel Hz ltac:(lia)) as (s & Es & Ec); [unfold zlen in *; lia|].
  exists (setOuterBytes s (Buffer_to_hex (groupBytes size kind fields))). split; [|by rewrite toCore_setOuterBytes].
  cbn [fromCborFuel]. rewrite readKind_group by done. cbn [mbind outcome_bind]. by rewrite Es.
Qed.

(** *** Lists of scripts *)

#[local] Abbreviation allBytes l := (CborWriter.head Array (zlen l) ++ concat (map scriptBytes l)).

Section scripts.
Context (l : list CoreScript) (Hz : zlen l < 2 ^ 53) (Hl : Forall specified l).

#[local] Lemma zlen_scripts : 0 <= zlen l < 2 ^ 64 /\ zlen (map scriptBytes l) = zlen l /\ zlen (map fromCore l) = zlen l.
Proof. pose proof (zlen_nonneg l). unfold zlen in *. rewrite !length_map. lia. Qed.

Lemma scripts_item : item (allBytes l).
Proof.
  destruct zlen_scripts as (Hn & E & _). apply record_item; [done|]. rewrite <- E. apply concat_items.
  apply List.Forall_map. eapply Forall_impl; [exact Hl|]. by intros c [].
Qed.

Lemma scripts_bytes : bytes (allBytes l).
Proof.
  destruct zlen_scripts as (Hn & _ & _). apply Forall_app. split; [apply head_bytes; lia|]. apply concat_bytes.
  apply List.Forall_map. eapply Forall_impl; [exact Hl|]. by intros c [].
Qed.

Lemma scripts_emits : emits (call (CborWriter.writeStartArray (Some (zlen (map fromCore l)))) ;; writeScripts toCbor (map fromCore l)) (allBytes l).
Proof.
  destruct zlen_scripts as (Hn & _ & ->). apply record_emits; [done|]. apply emits_forEach.
  clear Hz Hn. revert Hl. induction 1 as [|c l' [Hi Hb He _] _ IH]; [constructor|]. constructor; [|exact IH].
  eapply emits_lift; [exact He|]. rewrite Buffer_hex_roundtrip by done. apply emits_call, appends_encoded.
Qed.

Lemma scripts_elements fuel : zlen (concat (map scriptBytes l)) < 2 ^ 53 -> zlen (concat (map scriptBytes l)) < Z.of_nat fuel ->
  exists ss, elements 1 (readNested (fromCborFuel fuel)) (map scriptBytes l) ss /\ map toCore ss = l.
Proof.
  clear Hz. revert Hl. induction 1 as [|c l' [Hi Hb He Hd] _ IH]; intros Hs Hf; [exists []; by split; [constructor|]|].
  cbn [map concat] in Hs, Hf. rewrite zlen_app in Hs, Hf. pose proof (zlen_nonneg (scriptBytes c)).
  pose proof (zlen_nonneg (concat (map scriptBytes l'))). destruct IH as (ss & Hss & E); [lia..|].
  destruct (Hd fuel) as (s & Es & Ec); [lia|unfold zlen in *; lia|]. exists (s :: ss). split; [|cbn; by rewrite Ec, E].
  constructor; [|done]. split; [by apply item_begins|by apply readNested_reads].
Qed.

Lemma scripts_reads fuel : zlen (allBytes l) < 2 ^ 53 -> zlen (allBytes l) <= Z.of_nat fuel ->
  exists ss, reads (readScripts (fromCborFuel fuel)) (allBytes l) ss /\ map toCore ss = l.
Proof.
  intros Hs Hf. destruct zlen_scripts as (Hn & E & _). rewrite zlen_app in Hs, Hf.
  pose proof (is_head_length _ _ _ (writer_head Array (zlen l) Hn)).
  destruct (scripts_elements fuel) as (ss & Hss & Ec); [lia..|]. exists ss. split; [|done].
  rewrite <- E. apply reads_array_definite; [lia|done].
Qed.
End scripts.

Lemma scripts_collect l : Forall (fun c => valid c = true -> specified c) l -> forallb valid l = true -> Forall specified l.
Proof. induction 1 as [|c l Hc _ IH]; cbn; [constructor|]. intros [? ?]%andb_true_iff. constructor; auto. Qed.

(** *** One lemma per kind *)

Lemma signature_specified k : isHash 56 k = true -> specified (RequireSignature k).
Proof.
  intros Hk. destruct (isHash_spec _ _ Hk) as (Hb & _ & Hz). split.
  - apply groupBytes_item; [lia..|]. apply item_items, blobBytes_item. lia.
  - apply groupBytes_bytes; [lia..|apply blobBytes_bytes].
  - apply (group_emits 2 0); [lia..|]. apply blobBytes_emits. lia.
  - eapply (node_decodes 2 0); [lia..|apply blobBytes_bytes|done|]. intros fuel Hg _ _.
    exists (ScriptPubkey k (Some (Buffer_to_hex (groupBytes 2 0 (blobBytes k)))) None). split; [|done].
    apply group_reads; [lia..|apply blobBytes_bytes|done|]. intros r rest Hr Hp H1.
    rewrite (st_bind_ok _ _ _ _ _ (blobBytes_reads k ltac:(lia) r rest Hr Hp H1)).
    unfold HexBlob_fromBytes. rewrite isBlob_eq by done. by rewrite (st_lift_ok _ _ _ _ (typedHex_blob _ _ Hk)).
Qed.

Lemma after_specified slot : isSafe slot = true -> specified (RequireTimeAfter slot).
Proof.
  intros Hs%safe_range. pose proof (intBytes_bytes slot ltac:(lia)) as Hb. split.
  - apply groupBytes_item; [lia..|]. apply item_items, intBytes_item. lia.
  - by apply groupBytes_bytes.
  - apply (group_emits 2 4); [lia..|]. apply intBytes_emits. lia.
  - eapply (node_decodes 2 4); [lia..|done|done|]. intros fuel Hg _ _. eexists. split.
    + apply group_reads; [lia..|done|done|].
      apply (reads_fmap 1 _ (fun n => TimelockStart (Number_of n) _ None)), intBytes_reads. lia.
    + cbn. by rewrite Number_of_exact by lia.
Qed.

Lemma before_specified slot : isSafe slot = true -> specified (RequireTimeBefore slot).
Proof.
  intros Hs%safe_range. pose proof (intBytes_bytes slot ltac:(lia)) as Hb. split.
  - apply groupBytes_item; [lia..|]. apply item_items, intBytes_item. lia.
  - by apply groupBytes_bytes.
  - apply (group_emits 2 5); [lia..|]. apply intBytes_emits. lia.
  - eapply (node_decodes 2 5); [lia..|done|done|]. intros fuel Hg _ _. eexists. split.
    + apply group_reads; [lia..|done|done|].
      apply (reads_fmap 1 _ (fun n => TimelockExpiry (Number_of n) _ None)), intBytes_reads. lia.
    + cbn. by rewrite Number_of_exact by lia.
Qed.

Lemma guard_specified c : (Credential.type c =? 0) || (Credential.type c =? 1) = true -> isBlob (hash c) = true ->
  zlen (Buffer_from_hex (hash c)) < 2 ^ 53 -> specified (RequireGuardOf c).
Proof.
  intros Ht Hh Hz. pose proof (credentialBytes_bytes c Ht) as Hb. pose proof (credentialBytes_item c Ht Hz) as Hi. split.
  - by apply groupBytes_item, item_items.
  - by apply groupBytes_bytes.
  - apply (group_emits 2 6); [lia..|]. eapply emits_lift; [by apply Credential_toCbor_exact|].
    rewrite Buffer_hex_roundtrip by done. apply emits_call, appends_encoded.
  - eapply (node_decodes 2 6); [lia..|done|done|]. intros fuel Hg Hf _. eexists. split.
    + apply group_reads; [lia..|done|done|].
      apply (reads_fmap 1 _ (fun c => RequireGuard c _ None)), readNested_reads; [done|]. by apply Credential_fromCbor_exact.
    + done.
Qed.

Section lists.
Context (l : list CoreScript) (Hz : zlen l < 2 ^ 53) (Hl : Forall specified l).

Lemma all_specified : specified (RequireAllOf l).
Proof.
  split.
  - apply groupBytes_item; [lia..|]. by apply item_items, scripts_item.
  - apply groupBytes_bytes; [lia..|]. by apply scripts_bytes.
  - apply (group_emits 2 1); [lia..|]. by apply scripts_emits.
  - eapply (node_decodes 2 1); [lia..|by apply scripts_bytes|done|]. intros fuel Hg Hs Hf.
    destruct (scripts_reads l Hz Hl fuel Hs ltac:(lia)) as (ss & Hss & E). eexists. split.
    + apply group_reads; [lia..|by apply scripts_bytes|done|]. by apply (reads_fmap 1 _ (fun ss => ScriptAll ss _ None)).
    + cbn. by rewrite E.
Qed.

Lemma any_specified : specified (RequireAnyOf l).
Proof.
  split.
  - apply groupBytes_item; [lia..|]. by apply item_items, scripts_item.
  - apply groupBytes_bytes; [lia..|]. by apply scripts_bytes.
  - apply (group_emits 2 2); [lia..|]. by apply scripts_emits.
  - eapply (node_decodes 2 2); [lia..|by apply scripts_bytes|done|]. intros fuel Hg Hs Hf.
    destruct (scripts_reads l Hz Hl fuel Hs ltac:(lia)) as (ss & Hss & E). eexists. split.
    + apply group_reads; [lia..|by apply scripts_bytes|done|]. by apply (reads_fmap 1 _ (fun ss => ScriptAny ss _ None)).
    + cbn. by rewrite E.
Qed.

Lemma nof_specified required : isSafe required = true -> specified (RequireNOf required l).
Proof.
  intros Hr%safe_range. assert (Hb : bytes (intBytes required ++ allBytes l)).
  { apply Forall_app. split; [apply intBytes_bytes; lia|by apply scripts_bytes]. }
  split.
  - apply groupBytes_item; [lia..|]. apply (items_cons 1); [apply intBytes_item; lia|]. by apply item_items, scripts_item.
  - by apply groupBytes_bytes.
  - apply (group_emits 3 3); [lia..|]. apply emits_bind; [apply intBytes_emits; lia|by apply scripts_emits].
  - eapply (node_decodes 3 3); [lia..|done|done|]. intros fuel Hg Hs Hf. rewrite zlen_app in Hs, Hf.
    pose proof (zlen_nonneg (intBytes required)).
    destruct (scripts_reads l Hz Hl fuel ltac:(lia) ltac:(lia)) as (ss & Hss & E). eexists. split.
    + apply group_reads; [lia..|done|done|]. apply (readsN_bind 1 1 _ _ _ _ required); [lia..|apply intBytes_reads; lia|].
      by apply (reads_fmap 1 _ (fun ss => ScriptNOfK ss (Number_of required) _ None)).
    + cbn. by rewrite E, Number_of_exact by lia.
Qed.
End lists.

Lemma valid_specified c : valid c = true -> specified c.
Proof.
  induction c as [k|l IH|l IH|n l IH|s|s|c] using CoreScript_rec'; cbn [valid].
  - apply signature_specified.
  - intros [Hz Hv]%andb_true_iff. zb. apply all_specified; [done|by apply scripts_collect].
  - intros [Hz Hv]%andb_true_iff. zb. apply any_specified; [done|by apply scripts_collect].
  - intros [[Hn Hz]%andb_true_iff Hv]%andb_true_iff. zb. apply nof_specified; [done|by apply scripts_collect|done].
  - apply after_specified.
  - apply before_specified.
  - intros [[Ht Hh]%andb_true_iff Hz]%andb_true_iff. zb. by apply guard_specified.
Qed.

(** ** The decoder ends on every blob *)

Lemma readGroup_runs {A} size kind (m : Dec A) cbor :
  (forall r, wf r -> 0 < offset r -> data r = Buffer_from_hex cbor -> runs r m (fun _ _ => True)) ->
  zlen (Buffer_from_hex cbor) < 2 ^ 53 -> decode (readGroup size kind ;; m) cbor <> OutOfFuel.
Proof.
  intros Hm Hz. eapply (decode_runs _ (fun _ _ => True)); [done|]. intros Hw0. unfold readGroup.
  eapply (runs_bind _ _ _ (fun _ r => 0 < offset r)).
  - eapply runs_bind; [eapply enter_runs; [apply readStartArray_enters|done]|]. intros n r Hr Ho. cbn in Ho.
    apply runs_guard. eapply runs_bind; [apply item_runs; [apply readInt_item|by eapply rtc_step_wf]|].
    intros k r' _ Ho'. unfold st_guard. destruct (negb _); [apply runs_throw|apply runs_ret]. cbn in *. lia.
  - intros _ r Hr Ho. apply Hm; [by eapply rtc_step_wf|done|]. by rewrite (rtc_step_data _ _ Hr).
Qed.

Section ends.
Context (f : string -> Res NativeScript) (cbor : string).
Context (Hz : zlen (Buffer_from_hex cbor) < 2 ^ 53).
Context (Hf : forall h, zlen (Buffer_from_hex h) < zlen (Buffer_from_hex cbor) -> f h <> OutOfFuel).

Lemma readScripts_runs r : wf r -> 0 < offset r -> data r = Buffer_from_hex cbor -> runs r (readScripts f) (fun _ _ => True).
Proof.
  intros Hw Ho Hd. eapply runs_bind; [eapply enter_runs; [apply readStartArray_enters|done]|]. cbv beta. intros n r1 Hr1 Ho1.
  pose proof (rtc_step_wf _ _ Hr1 Hw) as Hw1. pose proof (rtc_step_data _ _ Hr1) as Hd1. eapply runs_bind.
  - apply readWhileNot_runs; [|done]. intros r2 Hr2 Hw2. apply (nested_runs f r1 r2 Hw1 ltac:(lia) Hr2).
    intros h _ Hh. apply Hf. congruence.
  - intros l r2 Hr2 _. pose proof (rtc_step_wf _ _ Hr2 Hw1). eapply runs_bind; [apply leave_runs; [apply readEndArray_leaves|done]|].
    intros. by apply runs_ret.
Qed.

Lemma list_runs (g : list NativeScript -> NativeScript) r : wf r -> 0 < offset r -> data r = Buffer_from_hex cbor ->
  runs r (ss ← readScripts f; mret (g ss)) (fun _ _ => True).
Proof. intros Hw Ho Hd. eapply runs_bind; [by apply readScripts_runs|]. intros. by apply runs_ret. Qed.

Lemma fromCborKind_ends kind : fromCborKind f kind cbor <> OutOfFuel.
Proof.
  unfold fromCborKind. repeat case_bool; try done; apply readGroup_runs; try done; intros r Hw Ho Hd; try by apply list_runs.
  - apply scalar_runs; [apply (readString_item ByteString)|done|]. intros b r' _.
    apply runs_lift; [apply typedHex_fuel|]. intros. by apply runs_ret.
  - eapply runs_bind; [apply item_runs; [apply readInt_item|done]|]. cbv beta. intros n r' Hr' Ho'.
    apply list_runs; [by eapply rtc_step_wf|lia|]. by rewrite (rtc_step_data _ _ Hr').
  - apply scalar_runs; [apply readInt_item|done|]. intros. by apply runs_ret.
  - apply scalar_runs; [apply readInt_item|done|]. intros. by apply runs_ret.
  - eapply runs_bind; [apply readNested_runs; [done|]|].
    + intros h _ Hh. apply Credential_ends. rewrite Hd in Hh. lia.
    + intros. by apply runs_ret.
Qed.
End ends.

Lemma readKind_ends cbor : zlen (Buffer_from_hex cbor) < 2 ^ 53 -> readKind cbor <> OutOfFuel.
Proof.
  intros Hz. apply record_ends; [|done]. intros n r Hw _ _.
  apply scalar_runs; [apply readInt_item|done|]. intros. by apply runs_ret.
Qed.

Lemma scriptFromCbor_ends fuel cbor : zlen (Buffer_from_hex cbor) < 2 ^ 53 -> (length (Buffer_from_hex cbor) < fuel)%nat ->
  fromCborFuel fuel cbor <> OutOfFuel.
Proof.
  revert cbor. induction fuel as [|fuel IH]; intros cbor Hz Hf; [lia|]. cbn [fromCborFuel].
  pose proof (readKind_ends cbor Hz). destruct (readKind cbor) as [kind|e|]; cbn; try done.
  assert (Hk : fromCborKind (fromCborFuel fuel) kind cbor <> OutOfFuel).
  { apply fromCborKind_ends; [done|]. intros h Hh. apply IH; [lia|unfold zlen in *; lia]. }
  by destruct (fromCborKind _ kind cbor).
Qed.

(** ** The remembered blob *)

Lemma fromCborFuel_outer fuel cbor s : fromCborFuel fuel cbor = Ok s -> outerBytes s = Some cbor.
Proof.
  destruct fuel as [|fuel]; [done|]. cbn [fromCborFuel]. destruct (readKind cbor) as [k|e|]; cbn; try done.
  destruct (fromCborKind _ k cbor) as [x|e|]; cbn; try done. intros [= <-]. by destruct x.
Qed.

Lemma toCbor_outer s cbor : outerBytes s = Some cbor -> cbor <> ""%string -> toCbor s = Ok cbor.
Proof.
  intros Ho Hne. apply String.eqb_neq in Hne. destruct s; cbn [toCbor outerBytes] in *; rewrite Ho; cbn; by rewrite Hne.
Qed.

Lemma scriptFromCbor_empty s : fromCbor "" <> Ok s.
Proof. by vm_compute. Qed.

Lemma toCore_fromCore c : toCore (fromCore c) = c.
Proof.
  induction c as [k|l IH|l IH|n l IH|s|s|c] using CoreScript_rec'; cbn; try done; f_equal;
    rewrite map_map; induction IH as [|x l Hx _ IH]; cbn; congruence.
Qed.

(** ** What the serialization of native scripts guarantees

    The properties of [NativeScript.v], with a concrete instance of every
    conditional one, and the places where the code departs from what it means
    to do. *)

(** C21. Refinement of the ledger's [native_script] and round trip: a script of
    any depth is encoded as exactly the array [scriptBytes] specifies, which is
    one well-formed CBOR item; decoding it gives back the same script, which is
    encoded to the same bytes again. *)
Theorem native_script_round_trip c : valid c = true ->
  toCbor (fromCore c) = Ok (Buffer_to_hex (scriptBytes c)) /\ item (scriptBytes c) /\
  (zlen (scriptBytes c) < 2 ^ 53 -> exists s, fromCbor (Buffer_to_hex (scriptBytes c)) = Ok s /\
    toCore s = c /\ toCbor s = Ok (Buffer_to_hex (scriptBytes c))).
Proof.
  intros [Hi Hb He Hd]%valid_specified. split_and!; [done..|]. intros Hz.
  destruct (Hd (S (length (scriptBytes c))) Hz ltac:(lia)) as (s & Es & Ec). exists s. split_and!; [|done|].
  - unfold fromCbor, hexToBytes. by rewrite Buffer_hex_roundtrip.
  - apply toCbor_outer; [by eapply fromCborFuel_outer|]. intros E0. apply (f_equal Buffer_from_hex) in E0.
    rewrite Buffer_hex_roundtrip in E0 by done. destruct (item_first _ Hi) as (b & k & Ek & _). by rewrite Ek in E0.
Qed.

Lemma native_script_round_trip_witness :
  let c := RequireNOf 1 [RequireSignature "966e394a544f242081e41d1965137b1bb412ac230d40ed5407821c37";
    RequireAllOf [RequireTimeAfter 3000; RequireTimeBefore (2 ^ 40)]; RequireAnyOf [];
    RequireGuardOf (Build_Credential "966e394a544f242081e41d1965137b1bb412ac230d40ed5407821c37" 1)] in
  toCbor (fromCore c) = Ok (Buffer_to_hex (scriptBytes c)) /\ item (scriptBytes c) /\
  (zlen (scriptBytes c) < 2 ^ 53 -> exists s, fromCbor (Buffer_to_hex (scriptBytes c)) = Ok s /\
    toCore s = c /\ toCbor s = Ok (Buffer_to_hex (scriptBytes c))).
Proof. apply native_script_round_trip. reflexivity. Defined.

(** Decoding ends on every blob, well formed or not, and what it accepts is
    re-encoded to exactly the blob it was given, so that script hashes are
    kept. *)
Theorem native_decode_total cbor : zlen (Buffer_from_hex cbor) < 2 ^ 53 ->
  fromCbor cbor <> OutOfFuel /\ forall s, fromCbor cbor = Ok s -> toCbor s = Ok cbor.
Proof.
  intros Hz. split; [apply scriptFromCbor_ends; [done|]; unfold hexToBytes; lia|]. intros s Hs.
  apply toCbor_outer; [by eapply fromCborFuel_outer|]. intros ->. by apply scriptFromCbor_empty in Hs.
Qed.

Lemma native_decode_total_witness :
  let s := ScriptAll [] (Some "820180"%string) (Some "820180"%string) in
  fromCbor "820180" = Ok s /\ toCbor s = Ok "820180"%string /\ fromCbor "8201828202808204" <> OutOfFuel.
Proof.
  intros s. assert (E : fromCbor "820180" = Ok s) by (vm_compute; reflexivity).
  split; [exact E|]. split; [apply (native_decode_total "820180"); [reflexivity|exact E]|].
  apply native_decode_total. reflexivity.
Defined.

(** A script that was decoded ignores its setters when it is encoded: the
    setters of the wrapped scripts forget the wrapped script's blob, but not
    the wrapper's, which [NativeScript.toCbor] returns. *)
Theorem native_setters_are_not_encoded cbor s : fromCbor cbor = Ok s ->
  (forall keyHash, toCbor (setKeyHash s keyHash) = Ok cbor) /\
  (forall l, toCbor (setNativeScripts s l) = Ok cbor) /\
  (forall required, toCbor (setRequired s required) = Ok cbor) /\
  (forall slot, toCbor (setSlot s slot) = Ok cbor) /\
  (forall credential, toCbor (setCredential s credential) = Ok cbor).
Proof.
  intros Hs. assert (Ho : outerBytes s = Some cbor) by by eapply fromCborFuel_outer.
  assert (Hne : cbor <> ""%string) by (intros ->; by apply scriptFromCbor_empty in Hs).
  split_and!; intros x; (apply toCbor_outer; [|done]); by destruct s.
Qed.

Lemma native_setters_are_not_encoded_witness :
  exists s, fromCbor "82041903e8" = Ok s /\ toCore (setSlot s 7) = RequireTimeAfter 7 /\
    toCbor (setSlot s 7) = Ok "82041903e8"%string.
Proof.
  assert (E : fromCbor "82041903e8" = Ok (TimelockStart 1000 (Some "82041903e8"%string) (Some "82041903e8"%string))) by (vm_compute; reflexivity).
  eexists. split; [exact E|]. split; [reflexivity|]. apply (native_setters_are_not_encoded _ _ E).
Defined.

(** A credential that is not a pair is not reported as the invalid argument it
    is: the message names a variable [length] that does not exist, so the check
    itself fails with a [ReferenceError]. *)
Theorem credential_length_is_a_reference_error cbor n r :
  CborReader.readStartArray (CborReader.new cbor) = (Ok n, r) -> n <> Some 2 ->
  Credential_fromCbor cbor = Throw (JsError "ReferenceError: length is not defined").
Proof.
  intros E Hn. unfold Credential_fromCbor, decode.
  rewrite (st_bind_ok _ _ _ _ _ (call_ok _ _ _ _ E)), bool_decide_eq_false_2 by done. done.
Qed.

Lemma credential_length_is_a_reference_error_witness :
  Credential_fromCbor "8100" = Throw (JsError "ReferenceError: length is not defined").
Proof. eapply credential_length_is_a_reference_error; [vm_compute; reflexivity|discriminate]. Defined.
