(* ===== verification/Common.v ===== *)
(** * Small records shared by the serialization classes

    Models [packages/core/src/Serialization/Common]: [Anchor.ts],
    [UnitInterval.ts], [ExUnits.ts], [ProtocolVersion.ts],
    [GovernanceActionId.ts], [Hash.ts] and [CborSet.ts].

    An object is a record of its fields and of the blob it was decoded from,
    which the setters forget.  Text is a list of UTF-16 code units, hashes are
    strings of hexadecimal digits. *)

From S2P Require Import Prelude JsRuntime CborCommon CborWriter CborReader Codec Credential Records.

(** ** Anchors *)

Module Anchor.
Record core : Set := Core { coreUrl : list Z; coreDataHash : string }.

Record t : Set := { url : list Z; dataHash : string; originalBytes : option HexBlob }.

Definition EMBEDDED_GROUP_SIZE : Z := 2.
Definition MAX_URL_SIZE_STR_LENGTH : Z := 128.

Definition new (url : list Z) (dataHash : string) : Res t :=
  if MAX_URL_SIZE_STR_LENGTH <? zlen url then
    Throw (InvalidArgumentError "url" ("url must be less or equal to 64 characters long, actual size " +:+ pretty (zlen url)))
  else Ok {| url := url; dataHash := dataHash; originalBytes := None |}.

Definition toCbor (a : t) : Res HexBlob := cached (originalBytes a) (encode (
  call (CborWriter.writeStartArray (Some EMBEDDED_GROUP_SIZE)) ;;
  call (CborWriter.writeTextString (url a)) ;;
  call (CborWriter.writeByteString (Buffer_from_hex (dataHash a))))).

Definition fromCbor (cbor : HexBlob) : Res t := decode (
  length ← call CborReader.readStartArray;
  expectLength EMBEDDED_GROUP_SIZE EMBEDDED_GROUP_SIZE length ;;
  url ← call CborReader.readTextString;
  hash ← readHash 64;
  call CborReader.readEndArray ;;
  anchor ← st_lift (new url hash);
  mret {| url := Anchor.url anchor; dataHash := dataHash anchor; originalBytes := Some cbor |}) cbor.

Definition toCore (a : t) : core := {| coreUrl := url a; coreDataHash := dataHash a |}.
Definition fromCore (a : core) : Res t := new (coreUrl a) (coreDataHash a).

Definition setUrl (a : t) (url : list Z) : t := {| url := url; dataHash := dataHash a; originalBytes := None |}.
Definition setDataHash (a : t) (dataHash : string) : t := {| url := url a; dataHash := dataHash; originalBytes := None |}.
End Anchor.

(** ** Rationals *)

Module UnitInterval.
(** [Cardano.Fraction], whose parts are numbers. *)
Record core : Set := Core { coreNumerator : Z; coreDenominator : Z }.

Record t : Set := { numerator : Z; denominator : Z; originalBytes : option HexBlob }.

Definition UNIT_INTERVAL_ARRAY_SIZE : Z := 2.

Definition toCbor (u : t) : Res HexBlob := cached (originalBytes u) (encode (
  call (CborWriter.writeTag CborTag.RationalNumber) ;;
  call (CborWriter.writeStartArray (Some UNIT_INTERVAL_ARRAY_SIZE)) ;;
  call (CborWriter.writeInt (numerator u)) ;;
  call (CborWriter.writeInt (denominator u)))).

(** The message of the check of the tag peeks for another tag, which may throw. *)
Definition fromCbor (cbor : HexBlob) : Res t := decode (
  tag ← call CborReader.readTag;
  (if negb (tag =? CborTag.RationalNumber) then
     next ← call CborReader.peekTag;
     st_throw (InvalidArgumentError "cbor" ("Expected tag " +:+ pretty CborTag.RationalNumber +:+ ", but got " +:+ pretty next))
   else mret tt) ;;
  length ← call CborReader.readStartArray;
  expectLength UNIT_INTERVAL_ARRAY_SIZE UNIT_INTERVAL_ARRAY_SIZE length ;;
  numerator ← call CborReader.readInt;
  denominator ← call CborReader.readInt;
  call CborReader.readEndArray ;;
  mret {| numerator := numerator; denominator := denominator; originalBytes := Some cbor |}) cbor.

Definition toCore (u : t) : core := {| coreNumerator := Number_of (numerator u); coreDenominator := Number_of (denominator u) |}.
Definition fromCore (f : core) : t := {| numerator := coreNumerator f; denominator := coreDenominator f; originalBytes := None |}.

Definition setNumerator (u : t) (numerator : Z) : t := {| numerator := numerator; denominator := denominator u; originalBytes := None |}.
Definition setDenominator (u : t) (denominator : Z) : t := {| numerator := numerator u; denominator := denominator; originalBytes := None |}.
End UnitInterval.

(** ** Execution units *)

Module ExUnits.
Record core : Set := Core { memory : Z; coreSteps : Z }.

Record t : Set := { mem : Z; steps : Z; originalBytes : option HexBlob }.

Definition EX_UNITS_ARRAY_SIZE : Z := 2.

Definition new (mem steps : Z) : t := {| mem := mem; steps := steps; originalBytes := None |}.

Definition toCbor (e : t) : Res HexBlob := cached (originalBytes e) (encode (
  call (CborWriter.writeStartArray (Some EX_UNITS_ARRAY_SIZE)) ;;
  call (CborWriter.writeInt (mem e)) ;;
  call (CborWriter.writeInt (steps e)))).

Definition fromCbor (cbor : HexBlob) : Res t := decode (
  length ← call CborReader.readStartArray;
  expectLength EX_UNITS_ARRAY_SIZE EX_UNITS_ARRAY_SIZE length ;;
  mem ← call CborReader.readUInt;
  steps ← call CborReader.readUInt;
  call CborReader.readEndArray ;;
  mret {| mem := mem; steps := steps; originalBytes := Some cbor |}) cbor.

Definition toCore (e : t) : core := {| memory := Number_of (mem e); coreSteps := Number_of (steps e) |}.
Definition fromCore (e : core) : t := new (memory e) (coreSteps e).

Definition setMem (e : t) (mem : Z) : t := new mem (steps e).
Definition setSteps (e : t) (steps : Z) : t := new (mem e) steps.
Definition add (e other : t) : t := new (mem e + mem other) (steps e + steps other).
End ExUnits.

(** ** Protocol versions *)

Module ProtocolVersion.
Record core : Set := Core { coreMajor : Z; coreMinor : Z }.

Record t : Set := { major : Z; minor : Z; originalBytes : option HexBlob }.

Definition PROTOCOL_VERSION_ARRAY_SIZE : Z := 2.
Definition MAX_MINOR_PROTOCOL_VERSION : Z := 4294967295.

Definition toCbor (v : t) : Res HexBlob := cached (originalBytes v) (
  if (minor v <? 0) || (MAX_MINOR_PROTOCOL_VERSION <? minor v) then
    Throw (InvalidStateError ("Minor protocol version must be a uint of size 4 (0 to " +:+ pretty MAX_MINOR_PROTOCOL_VERSION
      +:+ "), but got " +:+ pretty (minor v)))
  else encode (
    call (CborWriter.writeStartArray (Some PROTOCOL_VERSION_ARRAY_SIZE)) ;;
    call (CborWriter.writeInt (major v)) ;;
    call (CborWriter.writeInt (minor v)))).

Definition fromCbor (cbor : HexBlob) : Res t := decode (
  length ← call CborReader.readStartArray;
  expectLength PROTOCOL_VERSION_ARRAY_SIZE PROTOCOL_VERSION_ARRAY_SIZE length ;;
  major ← readNumber;
  minor ← readNumber;
  call CborReader.readEndArray ;;
  mret {| major := major; minor := minor; originalBytes := Some cbor |}) cbor.

Definition toCore (v : t) : core := {| coreMajor := major v; coreMinor := minor v |}.
Definition fromCore (v : core) : t := {| major := coreMajor v; minor := coreMinor v; originalBytes := None |}.

Definition setMajor (v : t) (major : Z) : t := {| major := major; minor := minor v; originalBytes := None |}.
Definition setMinor (v : t) (minor : Z) : t := {| major := major v; minor := minor; originalBytes := None |}.
End ProtocolVersion.

(** ** Identifiers of governance actions *)

Module GovernanceActionId.
Record core : Set := Core { coreId : string; actionIndex : Z }.

Record t : Set := { id : string; index : Z; originalBytes : option HexBlob }.

Definition EMBEDDED_GROUP_SIZE : Z := 2.

Definition toCbor (g : t) : Res HexBlob := cached (originalBytes g) (encode (
  call (CborWriter.writeStartArray (Some EMBEDDED_GROUP_SIZE)) ;;
  call (CborWriter.writeByteString (Buffer_from_hex (id g))) ;;
  call (CborWriter.writeInt (index g)))).

Definition fromCbor (cbor : HexBlob) : Res t := decode (
  length ← call CborReader.readStartArray;
  expectLength EMBEDDED_GROUP_SIZE EMBEDDED_GROUP_SIZE length ;;
  txId ← readHex;
  index ← call CborReader.readInt;
  mret {| id := txId; index := index; originalBytes := Some cbor |}) cbor.

Definition toCore (g : t) : core := {| coreId := id g; actionIndex := Number_of (index g) |}.
Definition fromCore (g : core) : t := {| id := coreId g; index := actionIndex g; originalBytes := None |}.

Definition setTransactionId (g : t) (id : string) : t := {| id := id; index := index g; originalBytes := None |}.
Definition setIndex (g : t) (index : Z) : t := {| id := id g; index := index; originalBytes := None |}.
Definition equals (g other : t) : bool := (index g =? index other) && String.eqb (id g) (id other).
End GovernanceActionId.

(** ** Hashes *)

Module Hash.
Definition toCbor (value : string) : Res HexBlob := encode (call (CborWriter.writeByteString (Buffer_from_hex value))).
Definition fromCbor (cbor : HexBlob) : Res string := decode readHex cbor.
End Hash.

(** ** Sets *)

(** [util/conwayEra.ts]: the flag that selects the encoding of sets. *)
Class Era := inConwayEra : bool.

Module CborSet.
Record t (T : Type) : Type := { values : list T; originalBytes : option HexBlob }.
Arguments values {T} _.
Arguments originalBytes {T} _.
Arguments Build_t {T} _ _.

Section set.
Context `{Era} {C T : Type} (elementToCbor : T -> Res HexBlob) (elementFromCbor : HexBlob -> Res T).

Definition new (values : list T) : t T := Build_t values None.

(** [if (reader.peekState() === CborReaderState.Tag && reader.peekTag() === CborTag.Set) reader.readTag();] *)
Definition skipSetTag : Dec unit :=
  state ← call CborReader.peekState;
  if bool_decide (state = CborReaderState.Tag) then
    tag ← call CborReader.peekTag;
    if tag =? CborTag.Set_ then call CborReader.readTag ;; mret tt else mret tt
  else mret tt.

Definition fromCbor (cbor : HexBlob) : Res (t T) := decode (
  skipSetTag ;;
  call CborReader.readStartArray ;;
  values ← readWhileNot CborReaderState.EndArray (readNested elementFromCbor);
  mret (Build_t values (Some cbor))) cbor.

Definition toCbor (s : t T) : Res HexBlob := cached (originalBytes s) (encode (
  (if inConwayEra then call (CborWriter.writeTag CborTag.Set_) else mret tt) ;;
  call (CborWriter.writeStartArray (Some (zlen (values s)))) ;;
  forEach (fun x => writeEncoded (elementToCbor x)) (values s))).

Definition toCore (elementToCore : T -> Res C) (s : t T) : Res (list C) := mapM elementToCore (values s).
Definition fromCore (elementFromCore : C -> Res T) (l : list C) : Res (t T) := values ← mapM elementFromCore l; Ok (new values).

Definition setValues (s : t T) (values : list T) : t T := new values.
Definition size (s : t T) : Z := zlen (values s).
End set.
End CborSet.
