(* ===== verification/Serializable.v ===== *)
(** * The interface of a serialization class

    What a class promises to the classes that embed it: the operations every
    class has ([toCbor], [fromCbor], [toCore], [fromCore]), the encoding the
    ledger's CDDL specifies for its core values, and the laws that relate them.
    Clients are verified against the laws; every class discharges them. *)

From S2P Require Import Prelude JsRuntime Utf8 CborCommon Half CborWriter CborReader CborMachine CborExact CborSkip CborDocuments Codec CodecFacts Credential Records.

Import CborReader CborWriterFacts.

(** Objects [T] with core values [C]. *)
Class Serializable (C T : Type) := {
  toCbor_of : T -> Res HexBlob;
  fromCbor_of : HexBlob -> Res T;
  toCore_of : T -> Res C;
  fromCore_of : C -> Res T;
  bytesOf : C -> list Z;
  validCore : C -> bool;
  typed : T -> bool
}.

(** The object [o] stands for [c] and is encoded as [c] is specified to be. *)
Definition standsFor {C T} `{Serializable C T} (c : C) (o : T) : Prop :=
  toCore_of o = Ok c /\ toCbor_of o = Ok (Buffer_to_hex (bytesOf c)).

Class SerializableLaws (C T : Type) `{Serializable C T} : Prop := {
  bytesOf_field c : validCore c = true -> field (bytesOf c);
  bytesOf_not_null c : validCore c = true -> not_null (bytesOf c);
  fromCore_standsFor c : validCore c = true -> exists o, fromCore_of c = Ok o /\ standsFor c o;
  fromCbor_standsFor c : validCore c = true -> zlen (bytesOf c) < 2 ^ 53 ->
    exists o, fromCbor_of (Buffer_to_hex (bytesOf c)) = Ok o /\ standsFor c o;
  fromCbor_accepts : accepts fromCbor_of (fun o => typed o = true)
}.

(** A blob that is returned instead of a new encoding. *)
Lemma cached_some l cbor : bytes l -> item l -> cached (Some (Buffer_to_hex l)) cbor = Ok (Buffer_to_hex l).
Proof.
  intros Hb Hi. unfold cached, remembered. destruct (String.eqb_spec (Buffer_to_hex l) "") as [E|]; [|done].
  apply (f_equal Buffer_from_hex) in E. rewrite Buffer_hex_roundtrip in E by done.
  by destruct (item_first l Hi) as (b & k & -> & _).
Qed.

(** A decoder that remembers the blob of a record. *)
Lemma cached_record fs cbor : zlen fs < 2 ^ 53 -> Forall field fs ->
  cached (Some (Buffer_to_hex (recordBytes fs))) cbor = Ok (Buffer_to_hex (recordBytes fs)).
Proof. intros Hz Hf. destruct (field_record fs Hz Hf). by apply cached_some. Qed.

Section client.
Context {C T : Type} `{SerializableLaws C T}.

Lemma nested_emits c o : validCore c = true -> standsFor c o -> emits (writeEncoded (toCbor_of o)) (bytesOf c).
Proof. intros Hc [_ Ho]. by apply emits_encoded; [apply bytesOf_field|]. Qed.

Lemma nested_reads c : validCore c = true -> zlen (bytesOf c) < 2 ^ 53 ->
  exists o, reads (readNested fromCbor_of) (bytesOf c) o /\ standsFor c o.
Proof.
  intros Hc Hz. destruct (fromCbor_standsFor c Hc Hz) as (o & Eo & Ho). exists o. split; [|done].
  by apply readNested_reads; [apply bytesOf_field|].
Qed.

Lemma nested_sound : sound (readNested fromCbor_of) (fun o => typed o = true).
Proof. apply sound_nested, fromCbor_accepts. Qed.

(** *** An optional part *)

Definition validOption (o : option C) : bool := match o with Some c => validCore c | None => true end.

Lemma option_field o : validOption o = true -> field (nullableBytes bytesOf o).
Proof. intros Ho. apply nullable_field. intros c ->. by apply bytesOf_field. Qed.

Definition standsForOption (c : option C) (o : option T) : Prop :=
  match c, o with Some c, Some o => standsFor c o | None, None => True | _, _ => False end.

Lemma option_emits c o : validOption c = true -> standsForOption c o ->
  emits (writeNullable (fun o => writeEncoded (toCbor_of o)) o) (nullableBytes bytesOf c).
Proof. destruct c as [c|], o as [o|]; intros Hc Ho; [by apply nested_emits|done|done|apply emits_null]. Qed.

Lemma option_reads c : validOption c = true -> zlen (nullableBytes bytesOf c) < 2 ^ 53 ->
  exists o, reads (readNullable (readNested fromCbor_of)) (nullableBytes bytesOf c) o /\ standsForOption c o.
Proof.
  destruct c as [c|]; intros Hc Hz; [|exists None; split; [apply readNullable_none|done]].
  destruct (nested_reads c Hc Hz) as (o & Hr & Ho). exists (Some o). split; [|done].
  apply readNullable_not_null; [by apply bytesOf_not_null|done].
Qed.

Definition typedOption (o : option T) : bool := match o with Some o => typed o | None => true end.

Lemma option_sound : sound (readNullable (readNested fromCbor_of)) (fun o => typedOption o = true).
Proof.
  eapply sound_weaken; [apply sound_nullable, nested_sound|]. intros [o|] Ho; [by apply Ho|done].
Qed.

(** *** A list of parts *)

Definition listBytes (l : list C) : list Z := CborWriter.head Array (zlen l) ++ concat (map bytesOf l).
Definition validList (l : list C) : bool := (zlen l <? 2 ^ 53) && forallb validCore l.

Lemma validList_spec l : validList l = true -> 0 <= zlen l < 2 ^ 53 /\ Forall (fun c => validCore c = true) l.
Proof.
  intros [Hz Hl]%andb_true_iff. zb. pose proof (zlen_nonneg l). split; [lia|]. apply List.Forall_forall. by apply forallb_forall.
Qed.

Lemma zlen_map_bytes (l : list C) : zlen (map bytesOf l) = zlen l.
Proof. unfold zlen. by rewrite length_map. Qed.

Lemma list_field l : validList l = true -> field (listBytes l).
Proof.
  intros [Hz Hl]%validList_spec. unfold listBytes. rewrite <- zlen_map_bytes in Hz |- *. apply field_record; [lia|].
  apply List.Forall_map. eapply Forall_impl; [exact Hl|]. intros c. apply bytesOf_field.
Qed.

Lemma list_fromCore l : validList l = true -> exists os, mapM fromCore_of l = Ok os /\ Forall2 standsFor l os.
Proof.
  intros [_ Hl]%validList_spec. induction Hl as [|c l Hc _ (os & E & Hos)]; [by exists []|].
  destruct (fromCore_standsFor c Hc) as (o & Eo & Ho). exists (o :: os). split; [|by constructor]. cbn. rewrite Eo. cbn. by rewrite E.
Qed.

Lemma list_toCore l os : Forall2 standsFor l os -> mapM toCore_of os = Ok l.
Proof. induction 1 as [|c o l os [Ho _] _ IH]; [done|]. cbn. rewrite Ho. cbn. by rewrite IH. Qed.

Lemma list_emits l os : validList l = true -> Forall2 standsFor l os ->
  emits (call (CborWriter.writeStartArray (Some (zlen os))) ;; forEach (fun o => writeEncoded (toCbor_of o)) os) (listBytes l).
Proof.
  intros [Hz Hl]%validList_spec Ho. assert (Ez : zlen os = zlen l) by (unfold zlen; by rewrite (Forall2_length _ _ _ Ho)).
  rewrite Ez. apply record_emits; [lia|]. apply emits_forEach. clear Hz Ez. induction Ho as [|c o l os Hco _ IH]; [constructor|].
  inversion_clear Hl. constructor; [by apply nested_emits|by apply IH].
Qed.

Lemma list_elements l : Forall (fun c => validCore c = true) l -> zlen (concat (map bytesOf l)) < 2 ^ 53 ->
  exists os, elements 1 (readNested fromCbor_of) (map bytesOf l) os /\ Forall2 standsFor l os.
Proof.
  induction 1 as [|c l Hc _ IH]; intros Hz; [exists []; by split; [constructor|]|]. cbn [map concat] in Hz. rewrite zlen_app in Hz.
  pose proof (zlen_nonneg (bytesOf c)). pose proof (zlen_nonneg (concat (map bytesOf l))). destruct IH as (os & Hos & Hst); [lia|].
  destruct (nested_reads c Hc ltac:(lia)) as (o & Hr & Ho). exists (o :: os). split; [|by constructor]. constructor; [|done].
  split; [by apply item_begins, bytesOf_field|done].
Qed.

(** The loop over the array, with its end. *)
Definition readList : Dec (list T) :=
  call readStartArray ;;
  list ← readWhileNot CborReaderState.EndArray (readNested fromCbor_of);
  call readEndArray ;; mret list.

Lemma list_reads l : validList l = true -> zlen (listBytes l) < 2 ^ 53 -> exists os, reads readList (listBytes l) os /\ Forall2 standsFor l os.
Proof.
  intros [Hn Hl]%validList_spec Hz. unfold listBytes in *. rewrite zlen_app in Hz. pose proof (is_head_length _ _ _ (writer_head Array (zlen l) ltac:(lia))).
  destruct (list_elements l Hl ltac:(lia)) as (os & Hos & Hst). exists os. split; [|done].
  rewrite <- zlen_map_bytes. apply reads_array_definite; [rewrite zlen_map_bytes; lia|done].
Qed.

Lemma list_sound : sound readList (Forall (fun o => typed o = true)).
Proof.
  eapply sound_bind; [apply sound_startArray|]. intros _ _. eapply sound_bind; [apply sound_while, advances_nested, fromCbor_accepts|].
  intros l Hl. eapply sound_bind; [apply sound_endArray|]. intros _ _. by apply sound_ret.
Qed.
End client.
