(* ===== verification/Keyed.v ===== *)
(** * Maps of optional fields
    Classes that are maps from small keys to optional fields: what reading the
    fields that are present makes of an object, one field after the other; before that the loops that
    insert the elements of a container into an object. *)
From S2P Require Import Prelude JsRuntime Utf8 CborCommon Half CborWriter CborReader CborMachine CborExact CborSkip CborDocuments Codec CodecFacts Credential Records Serializable.

(** ** Loops that build an object
    Decoders that insert every element of a container into an object as they
    read it: [while (reader.peekState() !== stop) object.insert(...);].  Unlike
    the loops of [Codec.v] an element may be refused, in view of those before
    it, before the next one is read. *)

Import CborReader CborWriterFacts.

Fixpoint loopNot {T} (fuel : nat) (stop : CborReaderState.t) (body : T -> Dec T) (s : T) : Dec T :=
  state ← call peekState;
  if bool_decide (state = stop) then mret s
  else match fuel with O => st_fuel | S fuel' => s' ← body s; loopNot fuel' stop body s' end.

Definition readLoop {T} (stop : CborReaderState.t) (body : T -> Dec T) (s : T) : Dec T := fun r =>
  loopNot (S (length (data r))) stop body s r.

(** ** On what was written *)

(** The states the elements lead through. *)
Inductive steps {T} (k : Z) (body : T -> Dec T) : list (list Z) -> T -> T -> Prop :=
  | StepsNil s : steps k body [] s s
  | StepsCons enc encs s s1 s2 : begins enc -> readsN k (body s) enc s1 -> steps k body encs s1 s2 -> steps k body (enc :: encs) s s2.

Lemma steps_length {T} k (body : T -> Dec T) encs s s' : steps k body encs s s' -> zlen encs <= zlen (concat encs).
Proof.
  induction 1 as [|enc encs s s1 s2 (i & rest & Hi & ->) _ _ IH]; [done|]. cbn [concat].
  destruct (item_first i Hi) as (b & l & -> & _). zlen_simpl. pose proof (zlen_nonneg l). pose proof (zlen_nonneg rest). lia.
Qed.

Lemma loopNot_steps {T} k (body : T -> Dec T) stop encs s s' : 1 <= k -> starts_item stop = false -> steps k body encs s s' ->
  forall fuel r rest, before r (k * zlen encs) (concat encs ++ rest) -> (length encs <= fuel)%nat ->
  peekStateCore (consume r (zlen (concat encs)) (k * zlen encs)) = Ok stop ->
  loopNot fuel stop body s r = (Ok s', set_cachedState (consume r (zlen (concat encs)) (k * zlen encs)) stop).
Proof.
  intros Hk Hstop. induction 1 as [s|enc encs s s1 s2 (i & l & Hi & ->) Hbody Hel IH]; intros fuel r rest Hb Hf Hs.
  - assert (Hc : consume r (zlen (concat (@nil (list Z)))) (k * zlen (@nil (list Z))) = r).
    { replace (k * zlen []) with 0 by (unfold zlen; cbn; lia). apply consume_zero, (before_fresh _ _ _ Hb). }
    rewrite Hc in *. pose proof (peekState_ok r stop (before_wf _ _ _ Hb) Hs) as E.
    destruct fuel; cbn [loopNot]; rewrite (st_bind_ok _ _ _ _ _ (call_ok _ _ _ _ E));
      by rewrite bool_decide_eq_true_2.
  - set (enc := i ++ l) in *. change (concat (enc :: encs)) with (enc ++ concat encs) in *.
    replace (k * zlen (enc :: encs)) with (k + k * zlen encs) in * by (zlen_simpl; lia).
    pose proof (zlen_nonneg encs). rewrite <- app_assoc in Hb.
    pose proof (before_ready _ _ _ Hb ltac:(nia)) as Hr.
    assert (Hr' : ready r (i ++ l ++ concat encs ++ rest)) by (subst enc; by rewrite <- app_assoc in Hr).
    destruct (ready_item_state r i _ Hi Hr') as (st & Es & Hst).
    destruct fuel as [|fuel]; cbn in Hf; [lia|]. cbn [loopNot].
    rewrite (st_bind_ok _ _ _ _ _ (call_ok _ _ _ _ (peekState_ok r st (before_wf _ _ _ Hb) Es))).
    rewrite bool_decide_eq_false_2 by (intros ->; congruence).
    assert (Hroom : room (currentFrame r) k).
    { pose proof (before_room _ _ _ Hb) as Hm. unfold room in *. destruct (definiteLength _); [nia|done]. }
    rewrite (st_bind_ok _ _ _ _ _ (Hbody (set_cachedState r st) _ (ready_cached _ _ _ Hr Es) (before_plain _ _ _ Hb) Hroom)).
    change (consume (set_cachedState r st) (zlen enc) k) with (consume r (zlen enc) k).
    assert (Hcc : consume (consume r (zlen enc) k) (zlen (concat encs)) (k * zlen encs) =
                  consume r (zlen (enc ++ concat encs)) (k + k * zlen encs)).
    { by rewrite consume_consume, zlen_app. }
    rewrite (IH fuel (consume r (zlen enc) k) rest
      ltac:(apply before_consume; [exact Hb|nia|nia]) ltac:(lia) ltac:(by rewrite Hcc)).
    by rewrite Hcc.
Qed.

Lemma loopNot_loops {T} k (body : T -> Dec T) stop encs s s' : 1 <= k -> starts_item stop = false -> steps k body encs s s' ->
  loops stop (readLoop stop body s) (concat encs) (k * zlen encs) s'.
Proof.
  intros Hk Hstop Hel r tail Hb Hs. unfold readLoop. eapply loopNot_steps; try done.
  pose proof (steps_length _ _ _ _ _ Hel). pose proof (zlen_remaining _ (before_wf _ _ _ Hb)) as Hz.
  rewrite (before_rest _ _ _ Hb) in Hz. zlen_simpl. pose proof (zlen_nonneg tail).
  destruct (wf_offset _ (before_wf _ _ _ Hb)). unfold zlen in *. lia.
Qed.

(** The object a map of entries makes. *)
Definition readMapLoop {T} (body : T -> Dec T) (s : T) : Dec T :=
  call readStartMap ;; s' ← readLoop CborReaderState.EndMap body s; call readEndMap ;; mret s'.

Lemma map_loop_reads {T} (body : T -> Dec T) encs s s' : 2 * zlen encs <= zlen (concat encs) -> zlen encs < 2 ^ 64 ->
  steps 2 body encs s s' -> reads (readMapLoop body s) (CborWriter.head Map (zlen encs) ++ concat encs) s'.
Proof.
  intros Hc Hz Hel r rest Hr Hp _. rewrite <- app_assoc in Hr. pose proof (zlen_nonneg encs).
  pose proof (writer_head Map (zlen encs) ltac:(lia)) as Hh. pose proof (is_head_length _ _ _ Hh).
  assert (Hfit : 2 * zlen encs <= zlen (concat encs ++ rest)) by (rewrite zlen_app; pose proof (zlen_nonneg rest); lia).
  unfold readMapLoop. rewrite (st_bind_ok _ _ _ _ _ (call_ok _ _ _ _ (readStartMap_exact r _ _ _ Hfit Hh Hr))).
  destruct (loop_definite _ _ (2 * zlen encs) _ Map (or_intror eq_refl) ltac:(lia)
    (loopNot_loops 2 body CborReaderState.EndMap encs s s' ltac:(lia) eq_refl Hel) r _ rest
    (Some (offset r + zlen (CborWriter.head Map (zlen encs)))) Hr ltac:(lia)) as (x & E1 & E2).
  etrans; [apply (st_bind_ok _ _ _ _ _ E1)|]. by rewrite (st_bind_ok _ _ _ _ _ E2).
Qed.

(** Entries that are two items each. *)
Lemma entries_twice (encs : list (list Z * list Z)) : Forall (fun e => item e.1 /\ item e.2) encs ->
  2 * zlen (map entryBytes encs) <= zlen (concat (map entryBytes encs)).
Proof.
  induction 1 as [|[k v] encs [Hk Hv] _ IH]; [done|]. cbn [map concat fst snd entryBytes] in *.
  destruct (item_first k Hk) as (b & l & -> & _), (item_first v Hv) as (b' & l' & -> & _). unfold entryBytes in *. cbn [fst snd] in *.
  zlen_simpl. pose proof (zlen_nonneg l). pose proof (zlen_nonneg l'). lia.
Qed.

(** ** On any input *)

Lemma loopNot_sound {T} stop (body : T -> Dec T) (P : T -> Prop) fuel s r : (forall s, P s -> advances (body s) P) -> P s -> wf r ->
  zlen (data r) - offset r < Z.of_nat fuel -> runs r (loopNot fuel stop body s) (fun s' _ => P s').
Proof.
  intros Hbody. revert s r. induction fuel as [|fuel IH]; intros s r Hs Hw Hf; [destruct (wf_offset r Hw); lia|]. cbn [loopNot].
  eapply runs_bind; [by apply peekState_runs|]. cbv beta. intros st r1 Hr1 ->. case_bool_decide; [by apply (runs_ret _ _ (fun s' _ => P s'))|].
  pose proof (rtc_step_wf _ _ Hr1 Hw) as Hw1. eapply runs_bind; [by apply (Hbody s Hs)|]. cbv beta. intros v r2 Hr2 [Ho HP]. cbn in Ho.
  pose proof (rtc_step_data _ _ Hr2) as Hd. cbn in Hd. pose proof (rtc_step_wf _ _ Hr2 Hw1).
  apply IH; [done..|rewrite Hd; lia].
Qed.

Lemma sound_loop {T} stop (body : T -> Dec T) (P : T -> Prop) s : (forall s, P s -> advances (body s) P) -> P s -> sound (readLoop stop body s) P.
Proof. intros Hb Hs r Hw. apply loopNot_sound; [done..|]. destruct (wf_offset r Hw). unfold zlen. lia. Qed.

Lemma sound_map_loop {T} (body : T -> Dec T) (P : T -> Prop) s : (forall s, P s -> advances (body s) P) -> P s -> sound (readMapLoop body s) P.
Proof.
  intros Hb Hs. eapply sound_bind; [apply sound_startMap|]. intros _ _. eapply sound_bind; [by apply sound_loop|]. intros s' Hs'.
  eapply sound_bind; [apply sound_endMap|]. intros _ _. by apply sound_ret.
Qed.

Import CborReader CborWriterFacts.

Section keyed.
Context {S : Type} (read : Z -> Dec (S -> S)).

(** Reading the entries leads from one state of the object to another. *)
Definition leads (es : list (Z * list Z)) (s s' : S) : Prop :=
  exists fs, Forall2 (changes read) es fs /\ fold_left (fun s f => f s) fs s = s'.

Lemma leads_nil s : leads [] s s.
Proof. exists []. by split; [constructor|]. Qed.

Lemma leads_app es es' s s1 s2 : leads es s s1 -> leads es' s1 s2 -> leads (es ++ es') s s2.
Proof. intros (fs & Hf & <-) (gs & Hg & <-). exists (fs ++ gs). split; [by apply Forall2_app|by rewrite fold_left_app]. Qed.

Lemma leads_one e f s : changes read e f -> leads [e] s (f s).
Proof. intros He. exists [f]. split; [by constructor|done]. Qed.

Lemma keyed_leads es init s : leads es init s -> zlen es < 2 ^ 64 -> reads (readKeyed read init) (keyedBytes es) s.
Proof. intros (fs & Hf & <-) Hz. by apply keyed_reads. Qed.

(** A field that is an embedded object. *)
Section field.
Context {C T : Type} `{SerializableLaws C T} (key : Z) (set : S -> T -> S).
Context (Hk : isInt64 key = true) (Hr : forall r, read key r = (x ← readNested fromCbor_of; mret (fun s => set s x)) r).

Lemma leads_field o : validOption o = true -> (forall c, o = Some c -> zlen (bytesOf c) < 2 ^ 53) ->
  exists x, standsForOption o x /\ forall s, leads (optionalEntry key bytesOf o) s match x with Some v => set s v | None => s end.
Proof.
  intros Ho Hz. destruct o as [c|]; [|exists None; split; [done|intros s; apply leads_nil]].
  destruct (nested_reads c Ho (Hz c eq_refl)) as (v & Rv & Hv). exists (Some v). split; [exact Hv|]. intros s.
  apply (leads_one (key, bytesOf c) (fun s => set s v)). split; [done|]. split; [by apply bytesOf_field|].
  eapply readsN_ext; [exact Hr|]. by eapply reads_last.
Qed.
End field.

(** A field that is a list of embedded objects. *)
Definition listIs {C T} `{Serializable C T} (o : option (list C)) (x : option (list T)) : Prop :=
  match o, x with Some l, Some os => Forall2 standsFor l os | None, None => True | _, _ => False end.

Section list_field.
Context {C T : Type} `{SerializableLaws C T} (key : Z) (set : S -> list T -> S).
Context (Hk : isInt64 key = true) (Hr : forall r, read key r = (x ← readList; mret (fun s => set s x)) r).

Lemma leads_list o : (forall l, o = Some l -> validList l = true) -> (forall l, o = Some l -> zlen (listBytes l) < 2 ^ 53) ->
  exists x, listIs o x /\ forall s, leads (optionalEntry key listBytes o) s match x with Some v => set s v | None => s end.
Proof.
  intros Ho Hz. destruct o as [l|]; [|exists None; split; [done|intros s; apply leads_nil]].
  destruct (list_reads l (Ho l eq_refl) (Hz l eq_refl)) as (v & Rv & Hv). exists (Some v). split; [exact Hv|]. intros s.
  apply (leads_one (key, listBytes l) (fun s => set s v)). split; [done|]. split; [by apply list_field, Ho|].
  eapply readsN_ext; [exact Hr|]. by eapply reads_last.
Qed.
End list_field.
End keyed.

Lemma list_entries_field {C T} `{SerializableLaws C T} key (o : option (list C)) : isInt64 key = true -> (forall l, o = Some l -> validList l = true) ->
  Forall (fun e => isInt64 e.1 = true /\ field e.2) (optionalEntry key listBytes o).
Proof. intros Hk Ho. destruct o as [l|]; [|constructor]. apply Forall_singleton. split; [done|by apply list_field, Ho]. Qed.

Lemma optional_entries_field {C T} `{SerializableLaws C T} key o : isInt64 key = true -> validOption o = true ->
  Forall (fun e => isInt64 e.1 = true /\ field e.2) (optionalEntry key bytesOf o).
Proof. intros Hk Ho. destruct o as [c|]; [|constructor]. apply Forall_singleton. split; [done|by apply bytesOf_field]. Qed.

Lemma optional_length {A} key (f : A -> list Z) o : zlen (optionalEntry key f o) = match o with Some _ => 1 | None => 0 end.
Proof. by destruct o. Qed.

(** The parts of a map are smaller than the map. *)
Lemma keyed_entry_size es e : In e es -> zlen e.2 <= zlen (keyedBytes es).
Proof.
  intros He. rewrite keyedBytes_entries, zlen_app. pose proof (zlen_nonneg (CborWriter.head Map (zlen es))).
  assert (zlen e.2 <= zlen (entriesBytes es)); [|lia]. clear -He. induction es as [|[k l] es IH]; [done|]. rewrite entriesBytes_cons, !zlen_app.
  pose proof (zlen_nonneg (intBytes k)). pose proof (zlen_nonneg l). pose proof (zlen_nonneg (entriesBytes es)).
  destruct He as [<-|He]; cbn [snd]; [lia|]. specialize (IH He). lia.
Qed.

Lemma optional_size {A} es key (f : A -> list Z) o a n : o = Some a -> incl (optionalEntry key f o) es -> zlen (keyedBytes es) < n -> zlen (f a) < n.
Proof.
  intros -> Hi Hn. pose proof (keyed_entry_size es (key, f a) ltac:(apply Hi; by left)) as Hz. cbn [snd] in Hz. lia.
Qed.

(** ** Writing *)

Lemma field_emits {C T} `{SerializableLaws C T} key o x : isInt64 key = true -> validOption o = true -> standsForOption o x ->
  emits (writeOptional key (fun s => writeEncoded (toCbor_of s)) x) (entriesBytes (optionalEntry key bytesOf o)).
Proof.
  intros Hk Ho Hx. destruct o as [c|], x as [v|]; try done; [|apply emits_ret]. apply emits_key; [done|by apply nested_emits].
Qed.

Lemma fields_emits m k es es' : emits m (entriesBytes es) -> emits k (entriesBytes es') -> emits (m ;; k) (entriesBytes (es ++ es')).
Proof. intros Hm Hk. rewrite entriesBytes_app. by apply emits_bind. Qed.

Lemma list_field_emits {C T} `{SerializableLaws C T} key (o : option (list C)) (x : option (list T)) : isInt64 key = true ->
  (forall l, o = Some l -> validList l = true) -> listIs o x ->
  emits (writeOptional key (fun os => call (CborWriter.writeStartArray (Some (zlen os))) ;; forEach (fun v => writeEncoded (toCbor_of v)) os) x)
    (entriesBytes (optionalEntry key listBytes o)).
Proof.
  intros Hk Ho Hx. destruct o as [l|], x as [os|]; try done; [|apply emits_ret]. apply emits_key; [done|by apply list_emits, Hx; apply Ho].
Qed.
