(* ===== verification/CommonFacts.v ===== *)
(** * The shared records keep their promises

    The specified encodings of the records of [Common.v], and that each of them
    implements the interface of [Serializable.v]. *)

From S2P Require Import Prelude JsRuntime Utf8 CborCommon Half CborWriter CborReader CborMachine CborExact CborSkip CborDocuments Codec CodecFacts Credential Records Common Serializable.

Import CborReader CborWriterFacts.

(** ** Anchors *)

Definition anchorBytes (a : Anchor.core) : list Z := recordBytes [textBytes (Anchor.coreUrl a); blobBytes (Anchor.coreDataHash a)].
Definition isAnchor (a : Anchor.core) : bool := isText 128 (Anchor.coreUrl a) && isHash 64 (Anchor.coreDataHash a).

#[export] Instance anchor_serializable : Serializable Anchor.core Anchor.t := {
  toCbor_of := Anchor.toCbor;
  fromCbor_of := Anchor.fromCbor;
  toCore_of a := Ok (Anchor.toCore a);
  fromCore_of := Anchor.fromCore;
  bytesOf := anchorBytes;
  validCore := isAnchor;
  typed a := (zlen (Anchor.url a) <=? 128) && isHash 64 (Anchor.dataHash a)
}.

Lemma anchor_fields a : isAnchor a = true -> Forall field [textBytes (Anchor.coreUrl a); blobBytes (Anchor.coreDataHash a)].
Proof. intros [Hu Hh]%andb_true_iff. fields. Qed.

Lemma anchor_new url h : isText 128 url = true ->
  Anchor.new url h = Ok {| Anchor.url := url; Anchor.dataHash := h; Anchor.originalBytes := None |}.
Proof. intros [_ Hz]%andb_true_iff. unfold Anchor.new, Anchor.MAX_URL_SIZE_STR_LENGTH. zb. by rewrite (proj2 (Z.ltb_ge _ _)). Qed.

#[export] Instance anchor_laws : SerializableLaws Anchor.core Anchor.t.
Proof.
  split; cbn [bytesOf validCore fromCore_of fromCbor_of anchor_serializable].
  - intros a Ha. apply field_record; [done|by apply anchor_fields].
  - intros a _. apply (starts_not_null Array); [done|by apply starts_record].
  - intros [u h] [Hu Hh]%andb_true_iff. eexists. split; [by apply anchor_new|]. split; [done|].
    apply (encode_record 2 _ [_; _]); [done..|]. emit_fields.
  - intros a Ha Hz. pose proof (anchor_fields a Ha) as Hf. destruct a as [u h]. pose proof Ha as [Hu Hh]%andb_true_iff. eexists. split.
    + apply decode_completes; [done..|]. read_fields. apply completes_end. intros r. by rewrite (st_lift_ok _ _ _ _ (anchor_new _ _ Hu)).
    + split; [done|]. by apply cached_record.
  - apply accepts_decode. intros cbor. sound_fields. eapply sound_bind; [apply sound_lift; [unfold Anchor.new; by case_bool|]|].
    + intros a Ha. exact Ha.
    + intros a Ha. apply sound_ret. cbn. revert Ha. unfold Anchor.new. case_bool; [done|]. intros [= <-]. cbn. zb.
      apply andb_true_iff. split; [|done]. by apply Z.leb_le.
Qed.

(** ** Rationals *)

Definition tagBytes (tag : Z) (l : list Z) : list Z := CborWriter.head Tag tag ++ l.

Lemma field_tag tag l : 0 <= tag < 2 ^ 64 -> field l -> field (tagBytes tag l).
Proof.
  intros Ht [Hi Hb]. split; [by eapply item_tag; [apply writer_head|]|]. apply Forall_app. split; [apply head_bytes; lia|done].
Qed.

Lemma emits_tag tag m l : 0 <= tag < 2 ^ 64 -> emits m l -> emits (call (CborWriter.writeTag tag) ;; m) (tagBytes tag l).
Proof. intros Ht Hm. by apply emits_bind; [apply emits_call, writeTypeValue_head|]. Qed.

Definition intervalFields (u : UnitInterval.core) : list (list Z) :=
  [intBytes (UnitInterval.coreNumerator u); intBytes (UnitInterval.coreDenominator u)].
Definition intervalBytes (u : UnitInterval.core) : list Z := tagBytes 30 (recordBytes (intervalFields u)).
Definition isInterval (u : UnitInterval.core) : bool := isSafe (UnitInterval.coreNumerator u) && isSafe (UnitInterval.coreDenominator u).

#[export] Instance interval_serializable : Serializable UnitInterval.core UnitInterval.t := {
  toCbor_of := UnitInterval.toCbor;
  fromCbor_of := UnitInterval.fromCbor;
  toCore_of u := Ok (UnitInterval.toCore u);
  fromCore_of u := Ok (UnitInterval.fromCore u);
  bytesOf := intervalBytes;
  validCore := isInterval;
  typed u := isInt64 (UnitInterval.numerator u) && isInt64 (UnitInterval.denominator u)
}.

Lemma interval_fields u : isInterval u = true -> Forall field (intervalFields u).
Proof. intros [Hn Hd]%andb_true_iff. fields. Qed.

Lemma interval_field u : isInterval u = true -> field (intervalBytes u).
Proof. intros Hu. apply field_tag; [lia|]. apply field_record; [done|by apply interval_fields]. Qed.

Lemma interval_toCore n d o : isSafe n = true -> isSafe d = true ->
  UnitInterval.toCore {| UnitInterval.numerator := n; UnitInterval.denominator := d; UnitInterval.originalBytes := o |} = UnitInterval.Core n d.
Proof. intros Hn%safe_range Hd%safe_range. unfold UnitInterval.toCore. cbn. by rewrite !Number_of_exact by lia. Qed.

(** The array after the tag. *)
Lemma interval_reads u : isInterval u = true ->
  reads (length ← call readStartArray; expectLength 2 2 length ;; n ← call readInt; d ← call readInt; call readEndArray ;; mret (n, d))
    (recordBytes (intervalFields u)) (UnitInterval.coreNumerator u, UnitInterval.coreDenominator u).
Proof.
  intros [Hn%safe_int64 Hd%safe_int64]%andb_true_iff.
  unfold recordBytes, intervalFields. cbn [concat zlen length Z.of_nat Pos.of_succ_nat Pos.succ]. rewrite app_nil_r.
  eapply (reads_record 2 _ (n ← call readInt; d ← call readInt; mret (n, d))); [done| |].
  - apply (readsN_bind 1 1 _ _ _ _ (UnitInterval.coreNumerator u)); [done..|by apply reads_int|].
    eapply reads_last; [by apply reads_int|done].
  - intros r. unfold expectLength. rewrite st_guard_ok by done. same_program.
Qed.

#[export] Instance interval_laws : SerializableLaws UnitInterval.core UnitInterval.t.
Proof.
  split; cbn [bytesOf validCore fromCore_of fromCbor_of interval_serializable].
  - apply interval_field.
  - intros u _. apply (starts_not_null Tag); [done|]. by apply starts_head.
  - intros [n d] Hu. pose proof Hu as [Hn Hd]%andb_true_iff. eexists. split; [done|]. split.
    + cbn. f_equal. by apply interval_toCore.
    + apply encode_emits, emits_tag; [done|]. apply record_emits; [done|]. emit_fields.
  - intros u Hu Hz. destruct (interval_field u Hu) as [Hi Hb]. pose proof Hu as [Hn Hd]%andb_true_iff.
    exists {| UnitInterval.numerator := UnitInterval.coreNumerator u; UnitInterval.denominator := UnitInterval.coreDenominator u;
      UnitInterval.originalBytes := Some (Buffer_to_hex (intervalBytes u)) |}. split; [|split].
    + apply decode_reads; [|done..]. eapply (reads_tag 30); [by apply writer_head|done|]. cbv beta.
      pose proof (reads_fmap 1 _ (fun p => UnitInterval.Build_t p.1 p.2 (Some (Buffer_to_hex (intervalBytes u)))) _ _ (interval_reads u Hu)) as H.
      eapply readsN_ext; [|exact H]. intros r. cbn [Z.eqb CborTag.RationalNumber Pos.eqb negb]. unfold UnitInterval.UNIT_INTERVAL_ARRAY_SIZE, expectLength. same_program.
    + cbn. f_equal. rewrite interval_toCore by done. by destruct u.
    + by apply cached_some.
  - apply accepts_decode. intros cbor. eapply sound_bind; [apply sound_tag|]. intros tag _. eapply sound_bind.
    + instantiate (1 := fun _ => True). case_bool; [|by apply sound_ret]. eapply sound_bind; [apply sound_peekTag|]. intros. apply sound_throw.
    + intros _ _. sound_fields. apply sound_ret. cbn. by apply andb_true_iff.
Qed.

(** ** Execution units *)

Definition unitsFields (e : ExUnits.core) : list (list Z) := [intBytes (ExUnits.memory e); intBytes (ExUnits.coreSteps e)].
Definition isIndex53 (z : Z) : bool := (0 <=? z) && (z <? 2 ^ 53).
Definition isUnits (e : ExUnits.core) : bool := isIndex53 (ExUnits.memory e) && isIndex53 (ExUnits.coreSteps e).

Lemma index53_range z : isIndex53 z = true -> 0 <= z < 2 ^ 53.
Proof. unfold isIndex53. intros [? ?]%andb_true_iff. zb. lia. Qed.

Lemma index53_uint z : isIndex53 z = true -> isUInt z = true.
Proof. intros H%index53_range. unfold isUInt. apply andb_true_iff. split; [apply Z.leb_le|apply Z.ltb_lt]; lia. Qed.

Lemma index53_safe z : isIndex53 z = true -> isSafe z = true.
Proof. intros H%index53_range. unfold isSafe. apply andb_true_iff. split; apply Z.ltb_lt; lia. Qed.

#[export] Hint Resolve index53_uint index53_safe : codec.

#[export] Instance units_serializable : Serializable ExUnits.core ExUnits.t := {
  toCbor_of := ExUnits.toCbor;
  fromCbor_of := ExUnits.fromCbor;
  toCore_of e := Ok (ExUnits.toCore e);
  fromCore_of e := Ok (ExUnits.fromCore e);
  bytesOf e := recordBytes (unitsFields e);
  validCore := isUnits;
  typed e := isUInt (ExUnits.mem e) && isUInt (ExUnits.steps e)
}.

Lemma units_fields e : isUnits e = true -> Forall field (unitsFields e).
Proof. intros [Hm Hs]%andb_true_iff. fields. Qed.

Lemma units_toCore m s o : isIndex53 m = true -> isIndex53 s = true ->
  ExUnits.toCore {| ExUnits.mem := m; ExUnits.steps := s; ExUnits.originalBytes := o |} = ExUnits.Core m s.
Proof. intros Hm%index53_range Hs%index53_range. unfold ExUnits.toCore. cbn. by rewrite !Number_of_exact by lia. Qed.

#[export] Instance units_laws : SerializableLaws ExUnits.core ExUnits.t.
Proof.
  split; cbn [bytesOf validCore fromCore_of fromCbor_of units_serializable].
  - intros e He. apply field_record; [done|by apply units_fields].
  - intros e _. apply (starts_not_null Array); [done|by apply starts_record].
  - intros [m s] [Hm Hs]%andb_true_iff. eexists. split; [done|]. split; [cbn; f_equal; by apply units_toCore|].
    apply (encode_record 2 _ [_; _]); [done..|]. emit_fields.
  - intros e He Hz. pose proof (units_fields e He) as Hf. destruct e as [m s]. pose proof He as [Hm Hs]%andb_true_iff. eexists. split.
    + apply decode_completes; [done..|]. read_fields.
    + split; [cbn; f_equal; by apply units_toCore|by apply cached_record].
  - apply accepts_decode. intros cbor. sound_fields. apply sound_ret. cbn. by apply andb_true_iff.
Qed.

(** ** Protocol versions *)

Definition versionFields (v : ProtocolVersion.core) : list (list Z) := [intBytes (ProtocolVersion.coreMajor v); intBytes (ProtocolVersion.coreMinor v)].
Definition isVersion (v : ProtocolVersion.core) : bool :=
  isSafe (ProtocolVersion.coreMajor v) && ((0 <=? ProtocolVersion.coreMinor v) && (ProtocolVersion.coreMinor v <? 2 ^ 32)).

#[export] Instance version_serializable : Serializable ProtocolVersion.core ProtocolVersion.t := {
  toCbor_of := ProtocolVersion.toCbor;
  fromCbor_of := ProtocolVersion.fromCbor;
  toCore_of v := Ok (ProtocolVersion.toCore v);
  fromCore_of v := Ok (ProtocolVersion.fromCore v);
  bytesOf v := recordBytes (versionFields v);
  validCore := isVersion;
  typed _ := true
}.

Lemma version_spec v : isVersion v = true -> isSafe (ProtocolVersion.coreMajor v) = true /\ isSafe (ProtocolVersion.coreMinor v) = true /\
  0 <= ProtocolVersion.coreMinor v <= 4294967295.
Proof.
  intros [Hm [H0 H1]%andb_true_iff]%andb_true_iff. zb. split_and!; [done| |lia|lia]. unfold isSafe. apply andb_true_iff. split; apply Z.ltb_lt; lia.
Qed.

Lemma version_fields v : isVersion v = true -> Forall field (versionFields v).
Proof. intros (Hm & Hs & _)%version_spec. fields. Qed.

#[export] Instance version_laws : SerializableLaws ProtocolVersion.core ProtocolVersion.t.
Proof.
  split; cbn [bytesOf validCore fromCore_of fromCbor_of version_serializable].
  - intros v Hv. apply field_record; [done|by apply version_fields].
  - intros v _. apply (starts_not_null Array); [done|by apply starts_record].
  - intros [m s] (Hm & Hs & Hr)%version_spec. eexists. split; [done|]. split; [done|]. cbn in Hr.
    unfold toCbor_of, version_serializable, ProtocolVersion.toCbor, ProtocolVersion.MAX_MINOR_PROTOCOL_VERSION. cbn [cached remembered ProtocolVersion.originalBytes ProtocolVersion.fromCore ProtocolVersion.minor ProtocolVersion.coreMinor].
    rewrite (proj2 (Z.ltb_ge _ _)), (proj2 (Z.ltb_ge _ _)) by lia. apply (encode_record 2 _ [_; _]); [done..|]. emit_fields.
  - intros v Hv Hz. pose proof (version_fields v Hv) as Hf. destruct v as [m s]. destruct (version_spec _ Hv) as (Hm & Hs & _). eexists. split.
    + apply decode_completes; [done..|]. read_fields.
    + split; [done|by apply cached_record].
  - apply accepts_decode. intros cbor. sound_fields. by apply sound_ret.
Qed.

(** ** Identifiers of governance actions *)

Definition actionFields (g : GovernanceActionId.core) : list (list Z) := [blobBytes (GovernanceActionId.coreId g); intBytes (GovernanceActionId.actionIndex g)].
Definition isAction (g : GovernanceActionId.core) : bool := isHash 64 (GovernanceActionId.coreId g) && isSafe (GovernanceActionId.actionIndex g).

#[export] Instance action_serializable : Serializable GovernanceActionId.core GovernanceActionId.t := {
  toCbor_of := GovernanceActionId.toCbor;
  fromCbor_of := GovernanceActionId.fromCbor;
  toCore_of g := Ok (GovernanceActionId.toCore g);
  fromCore_of g := Ok (GovernanceActionId.fromCore g);
  bytesOf g := recordBytes (actionFields g);
  validCore := isAction;
  typed g := isBlob (GovernanceActionId.id g) && isInt64 (GovernanceActionId.index g)
}.

Lemma action_fields g : isAction g = true -> Forall field (actionFields g).
Proof. intros [Hh Hi]%andb_true_iff. fields. Qed.

Lemma action_toCore h i o : isSafe i = true ->
  GovernanceActionId.toCore {| GovernanceActionId.id := h; GovernanceActionId.index := i; GovernanceActionId.originalBytes := o |} = GovernanceActionId.Core h i.
Proof. intros Hi%safe_range. unfold GovernanceActionId.toCore. cbn. by rewrite Number_of_exact by lia. Qed.

#[export] Instance action_laws : SerializableLaws GovernanceActionId.core GovernanceActionId.t.
Proof.
  split; cbn [bytesOf validCore fromCore_of fromCbor_of action_serializable].
  - intros g Hg. apply field_record; [done|by apply action_fields].
  - intros g _. apply (starts_not_null Array); [done|by apply starts_record].
  - intros [h i] [Hh Hi]%andb_true_iff. eexists. split; [done|]. split; [cbn; f_equal; by apply action_toCore|].
    apply (encode_record 2 _ [_; _]); [done..|]. emit_fields.
  - intros g Hg Hz. pose proof (action_fields g Hg) as Hf. destruct g as [h i]. pose proof Hg as [Hh Hi]%andb_true_iff. eexists. split.
    + apply decode_completes; [done..|]. read_fields.
    + split; [cbn; f_equal; by apply action_toCore|by apply cached_record].
  - apply accepts_decode. intros cbor. sound_fields. apply sound_ret. cbn. by apply andb_true_iff.
Qed.

(** ** Sets *)

Section set.
Context `{Era} {C T : Type} `{SerializableLaws C T}.

Definition setBytes (l : list C) : list Z := if inConwayEra then tagBytes 258 (listBytes l) else listBytes l.

#[export] Instance set_serializable : Serializable (list C) (CborSet.t T) := {
  toCbor_of := CborSet.toCbor toCbor_of;
  fromCbor_of := CborSet.fromCbor fromCbor_of;
  toCore_of := CborSet.toCore toCore_of;
  fromCore_of := CborSet.fromCore fromCore_of;
  bytesOf := setBytes;
  validCore := validList;
  typed s := forallb typed (CborSet.values s)
}.

Lemma set_field l : validList l = true -> field (setBytes l).
Proof. intros Hl%list_field. unfold setBytes. destruct inConwayEra; [by apply field_tag|done]. Qed.

Lemma list_starts (l : list C) : validList l = true -> starts Array (listBytes l).
Proof. intros [Hz _]%validList_spec. apply starts_head. lia. Qed.

(** The loop with the optional tag, and the end of the array. *)
Definition readSet : Dec (list T) := CborSet.skipSetTag ;; readList.

Lemma readSet_steps r : readSet r =
  (state ← call peekState;
   if bool_decide (state = CborReaderState.Tag) then
     tag ← call peekTag; if tag =? 258 then _ ← call readTag; readList else readList
   else readList) r.
Proof.
  unfold readSet, CborSet.skipSetTag, mbind, ST_bind. destruct (call peekState r) as [[s|e|] r1]; [|done..].
  case_bool_decide; [|done]. destruct (call peekTag r1) as [[tag|e|] r2]; [|done..].
  unfold CborTag.Set_. case_bool; [|done]. by destruct (call readTag r2) as [[]].
Qed.

Lemma set_reads l : validList l = true -> zlen (setBytes l) < 2 ^ 53 -> exists os, reads readSet (setBytes l) os /\ Forall2 standsFor l os.
Proof.
  intros Hl Hz. assert (Hz' : zlen (listBytes l) < 2 ^ 53).
  { revert Hz. unfold setBytes. destruct inConwayEra; [|done]. unfold tagBytes. rewrite zlen_app.
    pose proof (zlen_nonneg (CborWriter.head Tag 258)). lia. }
  destruct (list_reads l Hl Hz') as (os & Hr & Ho). exists os. split; [|done]. eapply readsN_ext; [apply readSet_steps|].
  unfold setBytes. destruct inConwayEra.
  - apply (reads_peek CborReaderState.Tag); [intros r rest Hrd; exact (starts_state Tag _ r rest ltac:(done) (starts_head Tag 258 (listBytes l) ltac:(lia)) Hrd)|].
    rewrite bool_decide_eq_true_2 by done. unfold tagBytes. eapply (reads_peekTag 258); [by apply writer_head|done|]. cbn [Z.eqb Pos.eqb].
    eapply (reads_tag 258); [by apply writer_head|done|done].
  - apply (reads_peek CborReaderState.StartArray); [intros r rest Hrd; exact (starts_state Array _ r rest ltac:(done) (list_starts l Hl) Hrd)|].
    by rewrite bool_decide_eq_false_2.
Qed.

Lemma set_emits l os : validList l = true -> Forall2 standsFor l os -> encode (
  (if inConwayEra then call (CborWriter.writeTag CborTag.Set_) else mret tt) ;;
  call (CborWriter.writeStartArray (Some (zlen os))) ;; forEach (fun x => writeEncoded (toCbor_of x)) os) = Ok (Buffer_to_hex (setBytes l)).
Proof.
  intros Hl Ho. apply encode_emits. pose proof (list_emits l os Hl Ho). unfold setBytes. destruct inConwayEra.
  - by apply emits_tag.
  - change (listBytes l) with ([] ++ listBytes l). by apply emits_bind; [apply emits_ret|].
Qed.

#[export] Instance set_laws : SerializableLaws (list C) (CborSet.t T).
Proof.
  split; cbn [bytesOf validCore fromCore_of fromCbor_of set_serializable].
  - apply set_field.
  - intros l Hl. unfold setBytes. destruct inConwayEra; [apply (starts_not_null Tag)|apply (starts_not_null Array)]; try done; [by apply starts_head|by apply list_starts].
  - intros l Hl. destruct (list_fromCore l Hl) as (os & Eo & Ho). exists (CborSet.new os). split; [unfold CborSet.fromCore; by rewrite Eo|].
    split; [by apply list_toCore|by apply set_emits].
  - intros l Hl Hz. destruct (set_reads l Hl Hz) as (os & Hr & Ho). destruct (set_field l Hl) as [Hi Hb].
    exists (CborSet.Build_t os (Some (Buffer_to_hex (setBytes l)))). split; [|split; [by apply list_toCore|by apply cached_some]].
    pose proof (decode_reads _ _ _ Hr Hb Hz) as E. unfold CborSet.fromCbor, decode in *. set (r := new _) in *. clearbody r. revert E.
    unfold readSet, readList, mbind, ST_bind. destruct (CborSet.skipSetTag r) as [[[]|e|] r1]; [|done..].
    destruct (call readStartArray r1) as [[n|e|] r2]; [|done..]. destruct (readWhileNot _ _ r2) as [[vs|e|] r3]; [|done..].
    destruct (call readEndArray r3) as [[[]|e|] r4]; [|done..]. cbn. by intros [= ->].
  - apply accepts_decode. intros cbor. eapply sound_bind.
    + instantiate (1 := fun _ => True). eapply sound_bind; [apply sound_peek|]. intros s _. case_bool_decide; [|by apply sound_ret].
      eapply sound_bind; [apply sound_peekTag|]. intros t _. case_bool; [|by apply sound_ret]. eapply sound_bind; [apply sound_tag|]. intros. by apply sound_ret.
    + intros _ _. eapply sound_bind; [apply sound_startArray|]. intros _ _. eapply sound_bind; [apply sound_while, advances_nested, fromCbor_accepts|].
      intros vs Hvs. apply sound_ret. cbn. apply forallb_forall. by apply List.Forall_forall.
Qed.
End set.

(** ** Hashes, as elements of sets *)

(** Key hashes: the class does not check their length. *)
#[export] Instance hash_serializable : Serializable string string := {
  toCbor_of := Hash.toCbor;
  fromCbor_of := Hash.fromCbor;
  toCore_of h := Ok h;
  fromCore_of h := Ok h;
  bytesOf := blobBytes;
  validCore h := isHash 56 h;
  typed := isBlob
}.

#[export] Instance hash_laws : SerializableLaws string string.
Proof.
  split; cbn [bytesOf validCore fromCore_of fromCbor_of hash_serializable].
  - intros h Hh. by apply (field_hash 56).
  - intros h Hh. apply (starts_not_null ByteString); [done|by apply (starts_blob 56)].
  - intros h Hh. exists h. split; [done|]. split; [done|]. by apply encode_emits, (emits_hash 56).
  - intros h Hh Hz. exists h. split; [|split; [done|by apply encode_emits, (emits_hash 56)]].
    apply decode_reads; [by apply (readHex_reads 56)|apply blobBytes_bytes|done].
  - apply (accepts_decode (fun _ => readHex)). intros _. apply sound_hex.
Qed.
