(* ===== verification/Voting.v ===== *)
(** * Votes
    Models [Serialization/TransactionBody/VotingProcedures]: [VoterKind.ts],
    [Voter.ts], [VotingProcedure.ts] and [VotingProcedures.ts], with their core
    types of [Cardano/types/Governance.ts].  [VotingProcedures] is an array of
    the votes of each voter, in the order of insertion. *)
From S2P Require Import Prelude JsRuntime CborCommon CborWriter CborReader Codec Credential Records Keyed Common.

Module VoterKind.
Definition ConstitutionalCommitteeKeyHash : Z := 0.
Definition ConstitutionalCommitteeScriptHash : Z := 1.
Definition DrepKeyHash : Z := 2.
Definition DRepScriptHash : Z := 3.
Definition StakePoolKeyHash : Z := 4.
End VoterKind.

(** [Cardano.VoterType], [Cardano.Vote] *)
Inductive VoterType : Set := ccHotKeyHash | ccHotScriptHash | dRepKeyHash | dRepScriptHash | stakePoolKeyHash.

#[export] Instance VoterType_eq_dec : EqDecision VoterType.
Proof. solve_decision. Defined.

Module Vote.
Definition no : Z := 0.
Definition yes : Z := 1.
Definition abstain : Z := 2.
End Vote.

(** ** Voters *)

Module Voter.
Record core : Set := Core { typename : VoterType; coreCredential : Credential }.

Record t : Set := { kind : Z; credential : Credential; originalBytes : option HexBlob }.

Definition EMBEDDED_GROUP_SIZE : Z := 2.

Definition new (kind : Z) (credential : Credential) : t := {| kind := kind; credential := credential; originalBytes := None |}.

Definition toCbor (v : t) : Res HexBlob := cached (originalBytes v) (encode (
  call (CborWriter.writeStartArray (Some EMBEDDED_GROUP_SIZE)) ;;
  call (CborWriter.writeInt (kind v)) ;;
  call (CborWriter.writeByteString (Buffer_from_hex (hash (credential v)))))).

Definition isKeyKind (kind : Z) : bool :=
  (kind =? VoterKind.ConstitutionalCommitteeKeyHash) || (kind =? VoterKind.DrepKeyHash) || (kind =? VoterKind.StakePoolKeyHash).
Definition isScriptKind (kind : Z) : bool :=
  (kind =? VoterKind.ConstitutionalCommitteeScriptHash) || (kind =? VoterKind.DRepScriptHash).

Definition unexpectedKind {A} (kind : Z) : Res A := Throw (InvalidStateError ("Unexpected kind value: " +:+ pretty kind)).

(** The hash is cast, whatever its length. *)
Definition fromCbor (cbor : HexBlob) : Res t := decode (
  length ← call CborReader.readStartArray;
  expectLength EMBEDDED_GROUP_SIZE EMBEDDED_GROUP_SIZE length ;;
  kind ← readNumber;
  hash ← readHex;
  if isKeyKind kind then
    mret {| kind := kind; credential := {| hash := hash; Credential.type := CredentialType.KeyHash |}; originalBytes := Some cbor |}
  else if isScriptKind kind then
    mret {| kind := kind; credential := {| hash := hash; Credential.type := CredentialType.ScriptHash |}; originalBytes := Some cbor |}
  else st_lift (unexpectedKind kind)) cbor.

Definition toCore (v : t) : Res core :=
  let key := {| hash := hash (credential v); Credential.type := CredentialType.KeyHash |} in
  let script := {| hash := hash (credential v); Credential.type := CredentialType.ScriptHash |} in
  if kind v =? VoterKind.ConstitutionalCommitteeKeyHash then Ok (Core ccHotKeyHash key)
  else if kind v =? VoterKind.ConstitutionalCommitteeScriptHash then Ok (Core ccHotScriptHash script)
  else if kind v =? VoterKind.DrepKeyHash then Ok (Core dRepKeyHash key)
  else if kind v =? VoterKind.DRepScriptHash then Ok (Core dRepScriptHash script)
  else if kind v =? VoterKind.StakePoolKeyHash then Ok (Core stakePoolKeyHash key)
  else unexpectedKind (kind v).

Definition newConstitutionalCommitteeHotKey (credential : Credential) : t :=
  new (if Credential.type credential =? CredentialType.KeyHash then VoterKind.ConstitutionalCommitteeKeyHash
       else VoterKind.ConstitutionalCommitteeScriptHash) credential.
Definition newDrep (credential : Credential) : t :=
  new (if Credential.type credential =? CredentialType.KeyHash then VoterKind.DrepKeyHash else VoterKind.DRepScriptHash) credential.
Definition newStakingPool (keyHash : string) : t :=
  new VoterKind.StakePoolKeyHash {| hash := keyHash; Credential.type := CredentialType.KeyHash |}.

Definition fromCore (v : core) : t :=
  match typename v with
  | ccHotKeyHash | ccHotScriptHash => newConstitutionalCommitteeHotKey (coreCredential v)
  | dRepKeyHash | dRepScriptHash => newDrep (coreCredential v)
  | stakePoolKeyHash => newStakingPool (hash (coreCredential v))
  end.

Definition toConstitutionalCommitteeHotCred (v : t) : option Credential :=
  if (kind v =? VoterKind.ConstitutionalCommitteeKeyHash) || (kind v =? VoterKind.ConstitutionalCommitteeScriptHash)
  then Some (credential v) else None.
Definition toDrepCred (v : t) : option Credential :=
  if (kind v =? VoterKind.DrepKeyHash) || (kind v =? VoterKind.DRepScriptHash) then Some (credential v) else None.
Definition toStakingPoolKeyHash (v : t) : option string :=
  if kind v =? VoterKind.StakePoolKeyHash then Some (hash (credential v)) else None.

Definition equals (v other : t) : bool :=
  (kind v =? kind other) && (Credential.type (credential v) =? Credential.type (credential other)) &&
  String.eqb (hash (credential v)) (hash (credential other)).
End Voter.

(** ** Voting procedures *)

Module VotingProcedure.
Record core : Set := Core { coreVote : Z; coreAnchor : option Anchor.core }.

Record t : Set := { vote : Z; anchor : option Anchor.t; originalBytes : option HexBlob }.

Definition EMBEDDED_GROUP_SIZE : Z := 2.

Definition new (vote : Z) (anchor : option Anchor.t) : t := {| vote := vote; anchor := anchor; originalBytes := None |}.

Definition toCbor (p : t) : Res HexBlob := cached (originalBytes p) (encode (
  call (CborWriter.writeStartArray (Some EMBEDDED_GROUP_SIZE)) ;;
  call (CborWriter.writeInt (vote p)) ;;
  writeNullable (fun a => writeEncoded (Anchor.toCbor a)) (anchor p))).

Definition isVote (vote : Z) : bool := (vote =? Vote.no) || (vote =? Vote.yes) || (vote =? Vote.abstain).

Definition fromCbor (cbor : HexBlob) : Res t := decode (
  call CborReader.readStartArray ;;
  vote ← readNumber;
  st_guard (negb (isVote vote)) (InvalidStateError ("Unexpected vote value: " +:+ pretty vote)) ;;
  anchor ← readNullable (readNested Anchor.fromCbor);
  mret {| vote := vote; anchor := anchor; originalBytes := Some cbor |}) cbor.

Definition toCore (p : t) : core := {| coreVote := vote p; coreAnchor := Anchor.toCore <$> anchor p |}.

Definition fromCore (p : core) : Res t :=
  anchor ← match coreAnchor p with Some a => x ← Anchor.fromCore a; Ok (Some x) | None => Ok None end;
  Ok (new (coreVote p) anchor).

Definition setVote (p : t) (vote : Z) : t := new vote (anchor p).
Definition setAnchor (p : t) (anchor : option Anchor.t) : t := new (vote p) anchor.
End VotingProcedure.

(** ** The votes of all voters *)

Module VotingProcedures.
Abbreviation votes := (list (GovernanceActionId.t * VotingProcedure.t)).
Abbreviation core := (list (Voter.core * list (GovernanceActionId.core * VotingProcedure.core))).

Record t : Set := { procedures : list (Voter.t * votes); originalBytes : option HexBlob }.

Definition new : t := {| procedures := []; originalBytes := None |}.

(** [this.#procedures.find((value) => value.voter.equals(voter))] *)
Fixpoint findVoter (ps : list (Voter.t * votes)) (voter : Voter.t) : option votes :=
  match ps with
  | [] => None
  | (v, vs) :: ps => if Voter.equals v voter then Some vs else findVoter ps voter
  end.

Fixpoint findVote (vs : votes) (actionId : GovernanceActionId.t) : option VotingProcedure.t :=
  match vs with
  | [] => None
  | (a, p) :: vs => if GovernanceActionId.equals a actionId then Some p else findVote vs actionId
  end.

(** [foundVoter.votes.push(...)] *)
Fixpoint pushVote (ps : list (Voter.t * votes)) (voter : Voter.t) (vote : GovernanceActionId.t * VotingProcedure.t) :
    list (Voter.t * votes) :=
  match ps with
  | [] => []
  | (v, vs) :: ps => if Voter.equals v voter then (v, vs ++ [vote]) :: ps else (v, vs) :: pushVote ps voter vote
  end.

(** A new voter is appended, and the method returns at once. *)
Definition insert (p : t) (voter : Voter.t) (actionId : GovernanceActionId.t) (votingProcedure : VotingProcedure.t) : Res t :=
  match findVoter (procedures p) voter with
  | None => Ok {| procedures := procedures p ++ [(voter, [(actionId, votingProcedure)])]; originalBytes := originalBytes p |}
  | Some vs =>
      match findVote vs actionId with
      | Some _ => Throw (InvalidArgumentError "actionId" "Voter already has a voting procedure for the given actionId")
      | None => Ok {| procedures := pushVote (procedures p) voter (actionId, votingProcedure); originalBytes := None |}
      end
  end.

Definition get (p : t) (voter : Voter.t) (governanceActionId : GovernanceActionId.t) : option VotingProcedure.t :=
  match findVoter (procedures p) voter with Some vs => findVote vs governanceActionId | None => None end.

Definition getVoters (p : t) : list Voter.t := (procedures p).*1.

Definition getGovernanceActionIdsByVoter (p : t) (voter : Voter.t) : list GovernanceActionId.t :=
  match findVoter (procedures p) voter with Some vs => vs.*1 | None => [] end.

Definition writeVote (p : t) (voter : Voter.t) (actionId : GovernanceActionId.t) : Enc unit :=
  writeEncoded (GovernanceActionId.toCbor actionId) ;;
  match get p voter actionId with
  | None => st_throw (InvalidStateError "Each governanceActionIds must at least be associated to a vote")
  | Some vote => writeEncoded (VotingProcedure.toCbor vote)
  end.

Definition writeVoter (p : t) (voter : Voter.t) : Enc unit :=
  let governanceActionIds := getGovernanceActionIdsByVoter p voter in
  st_guard (zlen governanceActionIds =? 0) (InvalidStateError "Each voter must at least be associated to a GovernanceActionId") ;;
  writeEncoded (Voter.toCbor voter) ;;
  call (CborWriter.writeStartMap (Some (zlen governanceActionIds))) ;;
  forEach (writeVote p voter) governanceActionIds.

Definition toCbor (p : t) : Res HexBlob := cached (originalBytes p) (encode (
  let voters := getVoters p in
  st_guard (zlen voters =? 0)
    (InvalidStateError "Empty VotingProcedures. There must be at least one VotingProcedure in the map") ;;
  call (CborWriter.writeStartMap (Some (zlen voters))) ;;
  forEach (writeVoter p) voters)).

Definition readVote (voter : Voter.t) (p : t) : Dec t :=
  actionId ← readNested GovernanceActionId.fromCbor;
  vote ← readNested VotingProcedure.fromCbor;
  st_lift (insert p voter actionId vote).

Definition readVoter (p : t) : Dec t :=
  voter ← readNested Voter.fromCbor;
  readMapLoop (readVote voter) p.

Definition fromCbor (cbor : HexBlob) : Res t := decode (
  p ← readMapLoop readVoter new;
  mret {| procedures := procedures p; originalBytes := Some cbor |}) cbor.

Definition toCore (p : t) : Res core :=
  mapM (fun e => voter ← Voter.toCore e.1;
    Ok (voter, (fun v => (GovernanceActionId.toCore v.1, VotingProcedure.toCore v.2)) <$> e.2)) (procedures p).

Definition voteFromCore (v : GovernanceActionId.core * VotingProcedure.core) : Res (GovernanceActionId.t * VotingProcedure.t) :=
  vote ← VotingProcedure.fromCore v.2; Ok (GovernanceActionId.fromCore v.1, vote).

Definition fromCore (votingProcedures : core) : Res t :=
  procedures ← mapM (fun e => vs ← mapM voteFromCore e.2; Ok (Voter.fromCore e.1, vs)) votingProcedures;
  Ok {| procedures := procedures; originalBytes := None |}.
End VotingProcedures.
