(* ===== verification/VotingFacts.v ===== *)
(** * Votes keep their promises
    The encodings of voters, voting procedures and the votes of all voters, and
    that the classes of [Voting.v] write and read them. *)
From S2P Require Import Prelude JsRuntime Utf8 CborCommon Half CborWriter CborReader CborMachine CborExact CborSkip CborDocuments Codec CodecFacts Credential Address Records Keyed Common Serializable CommonFacts Voting.

Import CborReader CborWriterFacts.

(** ** Voters *)

#[export] Instance Voter_core_eq_dec : EqDecision Voter.core.
Proof. solve_decision. Defined.
#[export] Instance Action_core_eq_dec : EqDecision GovernanceActionId.core.
Proof. solve_decision. Defined.

Definition voterKind (c : VoterType) : Z :=
  match c with ccHotKeyHash => 0 | ccHotScriptHash => 1 | dRepKeyHash => 2 | dRepScriptHash => 3 | stakePoolKeyHash => 4 end.
Definition voterCredentialType (c : VoterType) : Z := match c with ccHotScriptHash | dRepScriptHash => 1 | _ => 0 end.

Definition voterFields (c : Voter.core) : list (list Z) :=
  [intBytes (voterKind (Voter.typename c)); blobBytes (hash (Voter.coreCredential c))].

Definition isVoter (c : Voter.core) : bool :=
  isHash 56 (hash (Voter.coreCredential c)) && (Credential.type (Voter.coreCredential c) =? voterCredentialType (Voter.typename c)).

Definition voterTyped (v : Voter.t) : bool :=
  isBlob (hash (Voter.credential v)) &&
  ((Voter.isKeyKind (Voter.kind v) && (Credential.type (Voter.credential v) =? 0)) ||
   (Voter.isScriptKind (Voter.kind v) && (Credential.type (Voter.credential v) =? 1))).

(** What an object for a voter holds. *)
Definition voterIs (c : Voter.core) (v : Voter.t) : Prop :=
  Voter.kind v = voterKind (Voter.typename c) /\ Voter.credential v = Voter.coreCredential c /\
  Voter.toCbor v = Ok (Buffer_to_hex (recordBytes (voterFields c))).

Section voter.
Context (c : Voter.core) (Hc : isVoter c = true).

#[local] Lemma voter_spec : isHash 56 (hash (Voter.coreCredential c)) = true /\
  isSafe (voterKind (Voter.typename c)) = true /\ isInt64 (voterKind (Voter.typename c)) = true.
Proof. apply andb_true_iff in Hc as [? _]. split_and!; [done|by destruct (Voter.typename c)..]. Qed.

Lemma voter_fields : Forall field (voterFields c).
Proof. destruct voter_spec as (? & ? & ?). unfold voterFields. fields. Qed.

Lemma voter_is_core v : voterIs c v -> Voter.toCore v = Ok c.
Proof.
  intros (Hk & Hcr & _). unfold Voter.toCore. rewrite Hk, Hcr. destruct c as [ty [h t]]. unfold isVoter in Hc. cbn in Hc |- *.
  apply andb_true_iff in Hc as [_ Ht]. zb. subst t. by destruct ty.
Qed.

Lemma voter_fromCore : voterIs c (Voter.fromCore c).
Proof.
  assert (E : Voter.fromCore c = Voter.new (voterKind (Voter.typename c)) (Voter.coreCredential c)).
  { destruct c as [ty [h t]]. unfold isVoter in Hc. cbn in Hc. apply andb_true_iff in Hc as [_ Ht]. zb. subst t. by destruct ty. }
  rewrite E. split_and!; [done..|]. destruct voter_spec as (? & ? & ?). apply (encode_record 2 _ [_; _]); [done..|]. emit_fields.
Qed.

Lemma voter_fromCbor : zlen (recordBytes (voterFields c)) < 2 ^ 53 ->
  exists v, Voter.fromCbor (Buffer_to_hex (recordBytes (voterFields c))) = Ok v /\ voterIs c v.
Proof.
  intros Hz. pose proof voter_fields as Hf. destruct voter_spec as (Hh & Hs & _).
  exists {| Voter.kind := voterKind (Voter.typename c); Voter.credential := Voter.coreCredential c;
            Voter.originalBytes := Some (Buffer_to_hex (recordBytes (voterFields c))) |}. split.
  - apply decode_completes; [done..|]. read_fields. destruct c as [ty [h t]]. unfold isVoter in Hc. cbn in Hc.
    apply andb_true_iff in Hc as [_ Ht]. zb. subst t. destruct ty; apply completes_ret.
  - split_and!; [done..|]. by apply cached_record.
Qed.
End voter.

#[export] Instance voter_serializable : Serializable Voter.core Voter.t := {
  toCbor_of := Voter.toCbor;
  fromCbor_of := Voter.fromCbor;
  toCore_of := Voter.toCore;
  fromCore_of v := Ok (Voter.fromCore v);
  bytesOf v := recordBytes (voterFields v);
  validCore := isVoter;
  typed := voterTyped
}.

Lemma voter_accepts : accepts Voter.fromCbor (fun v => voterTyped v = true).
Proof.
  apply accepts_decode. intros cbor. sound_fields. destruct (Voter.isKeyKind _) eqn:Ek; [|destruct (Voter.isScriptKind _) eqn:Es].
  - apply sound_ret. unfold voterTyped. cbn. rewrite Ek. by apply andb_true_iff.
  - apply sound_ret. unfold voterTyped. cbn. rewrite Ek, Es. by apply andb_true_iff.
  - by apply sound_lift.
Qed.

#[export] Instance voter_laws : SerializableLaws Voter.core Voter.t.
Proof.
  split; cbn [bytesOf validCore fromCore_of fromCbor_of voter_serializable].
  - intros c Hc. apply field_record; [done|by apply voter_fields].
  - intros c _. apply (starts_not_null Array); [done|by apply starts_record].
  - intros c Hc. eexists. split; [done|]. pose proof (voter_fromCore c Hc) as Hv. split; [by apply voter_is_core|apply Hv].
  - intros c Hc Hz. destruct (voter_fromCbor c Hc Hz) as (v & Ev & Hv). exists v. split; [done|]. split; [by apply voter_is_core|apply Hv].
  - apply voter_accepts.
Qed.

(** ** Voting procedures *)

Definition procedureFields (p : VotingProcedure.core) : list (list Z) :=
  [intBytes (VotingProcedure.coreVote p); nullableBytes anchorBytes (VotingProcedure.coreAnchor p)].

Definition isProcedure (p : VotingProcedure.core) : bool :=
  VotingProcedure.isVote (VotingProcedure.coreVote p) && validOption (VotingProcedure.coreAnchor p).

#[export] Instance procedure_serializable : Serializable VotingProcedure.core VotingProcedure.t := {
  toCbor_of := VotingProcedure.toCbor;
  fromCbor_of := VotingProcedure.fromCbor;
  toCore_of p := Ok (VotingProcedure.toCore p);
  fromCore_of := VotingProcedure.fromCore;
  bytesOf p := recordBytes (procedureFields p);
  validCore := isProcedure;
  typed p := VotingProcedure.isVote (VotingProcedure.vote p) && typedOption (VotingProcedure.anchor p)
}.

Lemma vote_safe v : VotingProcedure.isVote v = true -> isSafe v = true /\ isInt64 v = true.
Proof.
  unfold VotingProcedure.isVote, Vote.no, Vote.yes, Vote.abstain.
  intros [[E|E]%orb_true_iff|E]%orb_true_iff; apply Z.eqb_eq in E; by subst v.
Qed.

Lemma option_anchor_fields a : validOption a = true -> field (nullableBytes anchorBytes a).
Proof. exact (option_field (C := Anchor.core) (T := Anchor.t) a). Qed.

Lemma option_anchor_core (a : option Anchor.core) x : standsForOption a x -> Anchor.toCore <$> x = a.
Proof. destruct a as [a|], x as [x|]; try done. intros [Hx _]. cbn in *. by injection Hx as ->. Qed.

Lemma option_anchor_fromCore a : validOption a = true ->
  exists x, match a with Some a => x ← Anchor.fromCore a; Ok (Some x) | None => Ok None end = Ok x /\ standsForOption a x.
Proof.
  destruct a as [a|]; [|by exists None]. intros Ha. destruct (fromCore_standsFor (C := Anchor.core) (T := Anchor.t) a Ha) as (x & Ex & Hx).
  exists (Some x). split; [|done]. change (Anchor.fromCore a) with (fromCore_of a). by rewrite Ex.
Qed.

Lemma procedure_fields p : isProcedure p = true -> Forall field (procedureFields p).
Proof. intros [[_ Hv]%vote_safe Ha]%andb_true_iff. repeat constructor; [by apply field_int..|by apply option_anchor_fields|by apply option_anchor_fields]. Qed.

#[export] Instance procedure_laws : SerializableLaws VotingProcedure.core VotingProcedure.t.
Proof.
  split; cbn [bytesOf validCore fromCore_of fromCbor_of procedure_serializable].
  - intros p Hp. apply field_record; [done|by apply procedure_fields].
  - intros p _. apply (starts_not_null Array); [done|by apply starts_record].
  - intros [v a] [[_ Hv]%vote_safe Ha]%andb_true_iff. cbn in *. destruct (option_anchor_fromCore a Ha) as (x & Ex & Hx).
    exists (VotingProcedure.new v x). split; [unfold VotingProcedure.fromCore; cbn; by rewrite Ex|].
    split; [cbn; unfold VotingProcedure.toCore; cbn; by rewrite (option_anchor_core a x)|].
    apply (encode_record 2 _ [_; _]); [done..|]. apply emits_fields; [by apply emits_int|]. apply emits_last.
    exact (option_emits (C := Anchor.core) (T := Anchor.t) a x Ha Hx).
  - intros p Hp Hz. pose proof (procedure_fields p Hp) as Hf. destruct p as [v a]. pose proof Hp as [Hv Ha]%andb_true_iff. cbn in *.
    set (fs := procedureFields _) in *.
    assert (Hl : zlen (nullableBytes anchorBytes a) <= zlen (concat fs)) by (apply part_size; right; by left).
    pose proof (record_size fs).
    destruct (option_reads (C := Anchor.core) (T := Anchor.t) a Ha ltac:(change (zlen (nullableBytes anchorBytes a) < 2 ^ 53); lia)) as (x & Hr & Hx). eexists. split.
    + unfold VotingProcedure.fromCbor. apply decode_completes; [done..|]. eapply completes_bind; [by apply readNumber_reads, vote_safe|]. cbv beta.
      apply completes_guard; [apply negb_false_iff; exact Hv|]. eapply completes_bind; [exact Hr|]. apply completes_ret.
    + split; [cbn; unfold VotingProcedure.toCore; cbn; by rewrite (option_anchor_core a x)|by apply cached_record].
  - apply accepts_decode. intros cbor. eapply sound_bind; [apply sound_startArray|]. intros _ _. eapply sound_bind; [apply sound_number|].
    intros v _. apply sound_guard. intros Hv%negb_false_iff. eapply sound_bind; [exact (option_sound (C := Anchor.core) (T := Anchor.t))|].
    intros a Ha. apply sound_ret. cbn. by apply andb_true_iff.
Qed.

(** ** The votes of all voters *)

Abbreviation voteCore := (GovernanceActionId.core * VotingProcedure.core)%type.

Definition voteEntry (v : voteCore) : list Z * list Z := (recordBytes (actionFields v.1), recordBytes (procedureFields v.2)).
Definition voterEntry (e : Voter.core * list voteCore) : list Z * list Z :=
  (recordBytes (voterFields e.1), mapBytes false (map voteEntry e.2)).
Definition votingBytes (l : VotingProcedures.core) : list Z := mapBytes false (map voterEntry l).

Definition isVotes (vs : list voteCore) : bool :=
  (0 <? zlen vs) && (zlen vs <? 2 ^ 53) && bool_decide (NoDup (vs.*1)) && forallb (fun v => isAction v.1 && isProcedure v.2) vs.
Definition isVoting (l : VotingProcedures.core) : bool :=
  (0 <? zlen l) && (zlen l <? 2 ^ 53) && bool_decide (NoDup (l.*1)) && forallb (fun e => isVoter e.1 && isVotes e.2) l.

Definition actionIs (c : GovernanceActionId.core) (a : GovernanceActionId.t) : Prop :=
  GovernanceActionId.id a = GovernanceActionId.coreId c /\ GovernanceActionId.index a = GovernanceActionId.actionIndex c /\ standsFor c a.

Definition voteIs (c : voteCore) (v : GovernanceActionId.t * VotingProcedure.t) : Prop := actionIs c.1 v.1 /\ standsFor c.2 v.2.
Definition voterVotesAre (c : Voter.core * list voteCore) (e : Voter.t * VotingProcedures.votes) : Prop :=
  voterIs c.1 e.1 /\ Forall2 voteIs c.2 e.2.

Lemma action_is c a : isAction c = true -> standsFor c a -> actionIs c a.
Proof.
  intros [_ Hi]%andb_true_iff Ha. split_and!; [..|done]; destruct Ha as [Ha _]; cbn in Ha; injection Ha as <-; [done|].
  cbn in Hi |- *. apply safe_range in Hi. symmetry. apply Number_of_small. lia.
Qed.

Lemma action_equals c c' a a' : actionIs c a -> actionIs c' a' -> GovernanceActionId.equals a a' = bool_decide (c = c').
Proof.
  intros (Hi & Hx & _) (Hi' & Hx' & _). unfold GovernanceActionId.equals. rewrite Hi, Hx, Hi', Hx'. destruct c, c'. cbn.
  apply eq_true_iff_eq. rewrite andb_true_iff, Z.eqb_eq, String.eqb_eq, bool_decide_eq_true. split; [by intros [-> ->]|by intros [= -> ->]].
Qed.

Lemma voter_equals c c' v v' : isVoter c = true -> isVoter c' = true -> voterIs c v -> voterIs c' v' ->
  Voter.equals v v' = bool_decide (c = c').
Proof.
  intros [_ Hc]%andb_true_iff [_ Hc']%andb_true_iff (Hk & Hcr & _) (Hk' & Hcr' & _). zb. unfold Voter.equals. rewrite Hk, Hcr, Hk', Hcr'.
  destruct c as [ty [h t]], c' as [ty' [h' t']]. cbn in *. subst t t'.
  apply eq_true_iff_eq. rewrite !andb_true_iff, !Z.eqb_eq, String.eqb_eq, bool_decide_eq_true.
  split; [|by intros [= -> ->]]. intros [[Hty _] ->]. f_equal; destruct ty, ty'; done || discriminate.
Qed.

(** *** Finding *)

Lemma findVote_is cs vs c a : Forall2 voteIs cs vs -> actionIs c a ->
  (c ∉ cs.*1 -> VotingProcedures.findVote vs a = None) /\
  (NoDup (cs.*1) -> forall i p v, cs !! i = Some (c, p) -> vs !! i = Some v -> VotingProcedures.findVote vs a = Some v.2).
Proof.
  intros Hvs Ha. induction Hvs as [|[c1 p1] [a1 v1] cs vs [Ha1 Hv1] _ [IHn IH]]; [done|]. cbn [VotingProcedures.findVote fmap list_fmap fst snd] in *.
  rewrite (action_equals c1 c) by done. split.
  - intros [Hne Hn]%not_elem_of_cons. rewrite bool_decide_eq_false_2 by congruence. by apply IHn.
  - intros [Hn Hd]%NoDup_cons i p v Hi Hv. case_bool_decide as E.
    + subst c1. destruct i as [|i]; [by injection Hv as <-|]. cbn in Hi. exfalso. apply Hn.
      apply list_elem_of_lookup_2 in Hi. by apply (list_elem_of_fmap_2 fst _ (c, p)).
    + destruct i as [|i]; [injection Hi as Hc _; congruence|]. by eapply IH.
Qed.

Lemma findVoter_is cs ps c w : Forall (fun e => isVoter e.1 = true) cs -> Forall2 voterVotesAre cs ps -> isVoter c = true -> voterIs c w ->
  (c ∉ cs.*1 -> VotingProcedures.findVoter ps w = None) /\
  (NoDup (cs.*1) -> forall i p v, cs !! i = Some (c, p) -> ps !! i = Some v -> VotingProcedures.findVoter ps w = Some v.2).
Proof.
  intros Hok Hvs Hc Ha. induction Hvs as [|[c1 p1] [a1 v1] cs vs [Ha1 Hv1] _ IH]; [done|]. apply Forall_cons in Hok as [Hok1 Hok].
  destruct (IH Hok) as [IHn IH']. cbn [VotingProcedures.findVoter fmap list_fmap fst snd] in *.
  rewrite (voter_equals c1 c) by done. split.
  - intros [Hne Hn]%not_elem_of_cons. rewrite bool_decide_eq_false_2 by congruence. by apply IHn.
  - intros [Hn Hd]%NoDup_cons i p v Hi Hv. case_bool_decide as E.
    + subst c1. destruct i as [|i]; [by injection Hv as <-|]. cbn in Hi. exfalso. apply Hn.
      apply list_elem_of_lookup_2 in Hi. by apply (list_elem_of_fmap_2 fst _ (c, p)).
    + destruct i as [|i]; [injection Hi as Hcc _; congruence|]. by eapply IH'.
Qed.

(** *** Sizes and fields *)

Lemma isVotes_spec vs : isVotes vs = true -> 0 < zlen vs < 2 ^ 53 /\ NoDup (vs.*1) /\
  Forall (fun v => isAction v.1 = true /\ isProcedure v.2 = true) vs.
Proof.
  unfold isVotes. rewrite !andb_true_iff, bool_decide_eq_true. intros [[[H1 H2] H3] H4]. zb. split_and!; [done..|].
  apply List.Forall_forall. intros v Hv. rewrite forallb_forall in H4. by apply andb_true_iff, H4.
Qed.

Lemma isVoting_spec l : isVoting l = true -> 0 < zlen l < 2 ^ 53 /\ NoDup (l.*1) /\
  Forall (fun e => isVoter e.1 = true /\ isVotes e.2 = true) l.
Proof.
  unfold isVoting. rewrite !andb_true_iff, bool_decide_eq_true. intros [[[H1 H2] H3] H4]. zb. split_and!; [done..|].
  apply List.Forall_forall. intros v Hv. rewrite forallb_forall in H4. by apply andb_true_iff, H4.
Qed.

Lemma voteEntry_field v : isAction v.1 = true /\ isProcedure v.2 = true -> field (voteEntry v).1 /\ field (voteEntry v).2.
Proof. intros [Ha Hp]. split; cbn; [by apply field_record; [|apply action_fields]|by apply field_record; [|apply procedure_fields]]. Qed.

Lemma votes_field vs : isVotes vs = true -> field (mapBytes false (map voteEntry vs)).
Proof.
  intros (Hz & _ & Hv)%isVotes_spec. apply entries_field; [|lia]. eapply Forall_impl; [exact Hv|]. apply voteEntry_field.
Qed.

Lemma voterEntry_field e : isVoter e.1 = true /\ isVotes e.2 = true -> field (voterEntry e).1 /\ field (voterEntry e).2.
Proof. intros [Ha Hp]. split; cbn; [by apply field_record; [|apply voter_fields]|by apply votes_field]. Qed.

Lemma voting_field l : isVoting l = true -> field (votingBytes l).
Proof.
  intros (Hz & _ & Hv)%isVoting_spec. apply entries_field; [|lia]. eapply Forall_impl; [exact Hv|]. apply voterEntry_field.
Qed.

Lemma mapBytes_part (encs : list (list Z * list Z)) e : In e encs -> zlen e.1 + zlen e.2 <= zlen (mapBytes false encs).
Proof.
  intros He. unfold mapBytes. rewrite zlen_app. pose proof (zlen_nonneg (CborWriter.head Map (zlen encs))).
  assert (zlen (entryBytes e) <= zlen (concat (map entryBytes encs))) as Hl by by apply part_size, in_map.
  unfold entryBytes in Hl at 1. rewrite zlen_app in Hl. lia.
Qed.

(** *** Encoding *)

Lemma fmap_fst_lookup {A B} (l : list (A * B)) i x : l.*1 !! i = Some x -> exists y, l !! i = Some (x, y).
Proof. rewrite list_lookup_fmap. destruct (l !! i) as [[a b]|]; [|done]. intros [= ->]. eauto. Qed.

Section encoding.
Context (l : VotingProcedures.core) (ps : list (Voter.t * VotingProcedures.votes)) (o : option HexBlob).
Context (Hl : isVoting l = true) (Hps : Forall2 voterVotesAre l ps).

#[local] Abbreviation p := {| VotingProcedures.procedures := ps; VotingProcedures.originalBytes := o |}.

#[local] Lemma voting_voters : Forall (fun e => isVoter e.1 = true) l.
Proof. destruct (isVoting_spec l Hl) as (_ & _ & Hv). eapply Forall_impl; [exact Hv|]. by intros e [? _]. Qed.

Lemma findVoter_here i c cvs w vs : l !! i = Some (c, cvs) -> ps !! i = Some (w, vs) -> VotingProcedures.findVoter ps w = Some vs.
Proof.
  intros Hi Hw. destruct (isVoting_spec l Hl) as (_ & Hd & _). destruct (Forall2_lookup_lr _ _ _ _ _ _ Hps Hi Hw) as [Hv _].
  pose proof voting_voters as Hok. rewrite Forall_lookup in Hok. pose proof (Hok i _ Hi) as Hc. cbn in Hc.
  destruct (findVoter_is l ps c w voting_voters Hps Hc Hv) as [_ H]. by apply (H Hd i cvs (w, vs)).
Qed.

Lemma writeVote_emits i c cvs w vs j v a : l !! i = Some (c, cvs) -> ps !! i = Some (w, vs) -> cvs !! j = Some v -> vs.*1 !! j = Some a ->
  emits (VotingProcedures.writeVote p w a) (entryBytes (voteEntry v)).
Proof.
  intros Hi Hw Hv Ha. destruct (fmap_fst_lookup _ _ _ Ha) as [q Hq]. destruct (isVoting_spec l Hl) as (_ & _ & Hall).
  rewrite Forall_lookup in Hall. destruct (Hall i _ Hi) as [_ Hvs]. cbn in Hvs. destruct (isVotes_spec _ Hvs) as (_ & Hdv & Hok).
  rewrite Forall_lookup in Hok. destruct (Hok j _ Hv) as [Hva Hvp].
  destruct (Forall2_lookup_lr _ _ _ _ _ _ Hps Hi Hw) as [_ Hvotes]. cbn in Hvotes.
  destruct (Forall2_lookup_lr _ _ _ _ _ _ Hvotes Hv Hq) as [Hact Hproc]. cbn in Hact, Hproc.
  unfold VotingProcedures.writeVote, VotingProcedures.get. cbn [VotingProcedures.procedures].
  rewrite (findVoter_here i c cvs w vs Hi Hw). destruct v as [ca cp]. cbn in Hva, Hvp, Hact, Hproc.
  destruct (findVote_is cvs vs ca a Hvotes Hact) as [_ H]. rewrite (H Hdv j cp (a, q) Hv Hq).
  apply emits_bind.
  - destruct Hact as (_ & _ & Hact). exact (nested_emits (C := GovernanceActionId.core) (T := GovernanceActionId.t) ca a Hva Hact).
  - exact (nested_emits (C := VotingProcedure.core) (T := VotingProcedure.t) cp q Hvp Hproc).
Qed.

Lemma writeVoter_emits i c cvs w : l !! i = Some (c, cvs) -> ps.*1 !! i = Some w ->
  emits (VotingProcedures.writeVoter p w) (entryBytes (voterEntry (c, cvs))).
Proof.
  intros Hi Hw. destruct (fmap_fst_lookup _ _ _ Hw) as [vs Hvs]. destruct (isVoting_spec l Hl) as (_ & _ & Hall).
  rewrite Forall_lookup in Hall. destruct (Hall i _ Hi) as [Hc Hcv]. cbn in Hc, Hcv. destruct (isVotes_spec _ Hcv) as (Hz & _ & _).
  destruct (Forall2_lookup_lr _ _ _ _ _ _ Hps Hi Hvs) as [(_ & _ & Hwc) Hvotes]. cbn in Hwc, Hvotes.
  unfold VotingProcedures.writeVoter, VotingProcedures.getGovernanceActionIdsByVoter. cbn [VotingProcedures.procedures].
  rewrite (findVoter_here i c cvs w vs Hi Hvs). assert (Ez : zlen (vs.*1) = zlen cvs) by (unfold zlen; by rewrite length_fmap, (Forall2_length _ _ _ Hvotes)).
  rewrite Ez. rewrite (proj2 (Z.eqb_neq _ _)) by lia. cbn [st_guard].
  change (emits (writeEncoded (Voter.toCbor w) ;; call (CborWriter.writeStartMap (Some (zlen cvs))) ;; forEach (VotingProcedures.writeVote p w) (vs.*1))
    (entryBytes (voterEntry (c, cvs)))).
  apply emits_bind.
  - apply emits_encoded; [by apply field_record; [|apply voter_fields]|done].
  - unfold voterEntry, mapBytes. cbn [snd]. rewrite zlen_map. apply emits_bind; [apply emits_call, writeTypeValue_head; lia|].
    apply emits_forEach. rewrite map_map. apply Forall2_same_length_lookup_2; [rewrite length_fmap, length_map; by rewrite (Forall2_length _ _ _ Hvotes)|].
    intros j a enc Ha He. rewrite list_lookup_fmap in He. destruct (cvs !! j) as [v|] eqn:Ev; [|done]. injection He as <-.
    by apply (writeVote_emits i c cvs w vs j).
Qed.

Lemma voting_encodes : encode (
    let voters := VotingProcedures.getVoters p in
    st_guard (zlen voters =? 0) (InvalidStateError "Empty VotingProcedures. There must be at least one VotingProcedure in the map") ;;
    call (CborWriter.writeStartMap (Some (zlen voters))) ;;
    forEach (VotingProcedures.writeVoter p) voters) = Ok (Buffer_to_hex (votingBytes l)).
Proof.
  destruct (isVoting_spec l Hl) as (Hz & _ & Hall). unfold VotingProcedures.getVoters. cbn [VotingProcedures.procedures].
  assert (Ez : zlen (ps.*1) = zlen l) by (unfold zlen; by rewrite length_fmap, (Forall2_length _ _ _ Hps)).
  cbv zeta. rewrite Ez, (proj2 (Z.eqb_neq _ _)) by lia. apply encode_emits.
  change (emits (call (CborWriter.writeStartMap (Some (zlen l))) ;; forEach (VotingProcedures.writeVoter p) (ps.*1)) (votingBytes l)).
  unfold votingBytes, mapBytes. rewrite zlen_map. apply emits_bind; [apply emits_call, writeTypeValue_head; lia|].
  apply emits_forEach. rewrite map_map. apply Forall2_same_length_lookup_2; [by rewrite length_fmap, length_map, (Forall2_length _ _ _ Hps)|].
  intros j w enc Hw He. rewrite list_lookup_fmap in He. destruct (l !! j) as [[c cvs]|] eqn:Ev; [|done]. injection He as <-.
  by apply (writeVoter_emits j c cvs).
Qed.

Lemma voting_toCore : VotingProcedures.toCore p = Ok l.
Proof.
  unfold VotingProcedures.toCore. cbn [VotingProcedures.procedures]. pose proof voting_voters as Hok. clear Hl. induction Hps as [|[c cvs] [w vs] cs ws [Hw Hv] Hws IH]; [done|].
  apply Forall_cons in Hok as [Hc Hok]. cbn [mapM fst snd] in *. rewrite (voter_is_core c Hc w Hw). cbn [mbind outcome_bind]. rewrite (IH Hws Hok). cbn.
  do 3 f_equal. clear -Hv. induction Hv as [|[a q] [x y] cvs vs [(_ & _ & [Ha _]) [Hq _]] _ IH]; [done|]. cbn in *. injection Ha as ->. injection Hq as ->. by rewrite IH.
Qed.
End encoding.

(** *** Objects from core values *)

Lemma votes_fromCore vs : Forall (fun v => isAction v.1 = true /\ isProcedure v.2 = true) vs ->
  exists os, mapM VotingProcedures.voteFromCore vs = Ok os /\ Forall2 voteIs vs os.
Proof.
  induction 1 as [|[a q] vs [Ha Hq] _ (os & E & Hos)]; [by exists []|]. cbn in Ha, Hq.
  destruct (@fromCore_standsFor _ _ procedure_serializable _ q Hq) as (y & Ey & Hy).
  destruct (@fromCore_standsFor _ _ action_serializable _ a Ha) as (x & [= <-] & Hx).
  exists ((GovernanceActionId.fromCore a, y) :: os). split.
  - assert (E1 : VotingProcedures.voteFromCore (a, q) = Ok (GovernanceActionId.fromCore a, y)).
    { unfold VotingProcedures.voteFromCore. cbn [fst snd]. change (VotingProcedure.fromCore q = Ok y) in Ey. by rewrite Ey. }
    cbn [mapM]. rewrite E1. cbn [mbind outcome_bind]. by rewrite E.
  - constructor; [|done]. split; [by apply action_is|done].
Qed.

Lemma voting_fromCore l : isVoting l = true -> exists p, VotingProcedures.fromCore l = Ok p /\
  Forall2 voterVotesAre l (VotingProcedures.procedures p) /\ VotingProcedures.originalBytes p = None.
Proof.
  intros (_ & _ & Hl)%isVoting_spec. unfold VotingProcedures.fromCore.
  assert (exists ps, mapM (fun e : Voter.core * list voteCore => vs ← mapM VotingProcedures.voteFromCore e.2; Ok (Voter.fromCore e.1, vs)) l =
    (Ok ps : Res (list (Voter.t * VotingProcedures.votes))) /\ Forall2 voterVotesAre l ps) as (ps & -> & Hps).
  { induction Hl as [|[c vs] l [Hc Hvs] _ (ps & E & Hps)]; [by exists []|]. cbn in Hc, Hvs. apply isVotes_spec in Hvs as (_ & _ & Hvs).
    destruct (votes_fromCore vs Hvs) as (os & Eo & Hos). exists ((Voter.fromCore c, os) :: ps). split.
    - cbn [mapM fst snd]. rewrite Eo. cbn [mbind outcome_bind]. by rewrite E.
    - constructor; [|done]. split; [by apply voter_fromCore|done]. }
  by eexists.
Qed.

(** *** Decoding *)

(** The object after the first votes of a voter. *)
Definition extended (ps : list (Voter.t * VotingProcedures.votes)) (w : Voter.t) (vs : VotingProcedures.votes) : VotingProcedures.t :=
  {| VotingProcedures.procedures := match vs with [] => ps | _ => ps ++ [(w, vs)] end; VotingProcedures.originalBytes := None |}.

Lemma voter_equals_refl w : Voter.equals w w = true.
Proof. unfold Voter.equals. by rewrite !Z.eqb_refl, String.eqb_refl. Qed.

Lemma findVoter_last ps w vs : VotingProcedures.findVoter ps w = None ->
  VotingProcedures.findVoter (ps ++ [(w, vs)]) w = Some vs /\
  forall v, VotingProcedures.pushVote (ps ++ [(w, vs)]) w v = ps ++ [(w, vs ++ [v])].
Proof.
  induction ps as [|[x xs] ps IH]; cbn; [by rewrite voter_equals_refl|]. destruct (Voter.equals x w); [done|]. intros Hn.
  destruct (IH Hn) as [H1 H2]. split; [done|]. intros v. by rewrite H2.
Qed.

Lemma insert_extends ps w vs a q : VotingProcedures.findVoter ps w = None -> VotingProcedures.findVote vs a = None ->
  VotingProcedures.insert (extended ps w vs) w a q = Ok (extended ps w (vs ++ [(a, q)])).
Proof.
  intros Hn Hv. unfold VotingProcedures.insert, extended. destruct vs as [|v vs]; cbn [VotingProcedures.procedures app].
  - by rewrite Hn.
  - destruct (findVoter_last ps w (v :: vs) Hn) as [-> Hp]. rewrite Hv. by rewrite Hp.
Qed.

Lemma nonempty_begins l k : field l -> begins (l ++ k).
Proof. intros [Hi _]. by exists l, k. Qed.

Section votes.
Context (ps : list (Voter.t * VotingProcedures.votes)) (w : Voter.t) (Hn : VotingProcedures.findVoter ps w = None).

Lemma votes_steps cs0 vs0 cs : Forall2 voteIs cs0 vs0 -> NoDup ((cs0 ++ cs).*1) ->
  Forall (fun v => isAction v.1 = true /\ isProcedure v.2 = true) cs ->
  zlen (concat (map entryBytes (map voteEntry cs))) < 2 ^ 53 ->
  exists vs, Forall2 voteIs cs vs /\
    steps 2 (VotingProcedures.readVote w) (map entryBytes (map voteEntry cs)) (extended ps w vs0) (extended ps w (vs0 ++ vs)).
Proof.
  intros H0 Hd Hc. revert cs0 vs0 H0 Hd. induction Hc as [|[c q] cs [Hc Hq] Hcs IH]; intros cs0 vs0 H0 Hd Hz.
  - exists []. rewrite app_nil_r. split; constructor.
  - cbn [map concat fst snd] in *. rewrite zlen_app in Hz. unfold entryBytes in Hz at 1. rewrite zlen_app in Hz.
    pose proof (zlen_nonneg (concat (map entryBytes (map voteEntry cs)))). cbn [voteEntry fst snd] in Hz.
    pose proof (zlen_nonneg (recordBytes (actionFields c))). pose proof (zlen_nonneg (recordBytes (procedureFields q))).
    destruct (@nested_reads _ _ action_serializable _ c Hc ltac:(change (zlen (recordBytes (actionFields c)) < 2 ^ 53); lia)) as (a & Ra & Ha).
    destruct (@nested_reads _ _ procedure_serializable _ q Hq ltac:(change (zlen (recordBytes (procedureFields q)) < 2 ^ 53); lia)) as (y & Ry & Hy).
    apply (action_is c a Hc) in Ha. assert (Hvote : voteIs (c, q) (a, y)) by by split.
    assert (Hnv : VotingProcedures.findVote vs0 a = None).
    { destruct (findVote_is cs0 vs0 c a H0 Ha) as [Hf _]. apply Hf. rewrite fmap_app in Hd. apply NoDup_app in Hd as (_ & Hd & _).
      intros Hin. apply (Hd c Hin). cbn. left. }
    destruct (IH (cs0 ++ [(c, q)]) (vs0 ++ [(a, y)])) as (vs & Hvs & Hst); [by apply Forall2_app; [|constructor]|by rewrite <- app_assoc|lia|].
    exists ((a, y) :: vs). split; [by constructor|]. rewrite <- app_assoc in Hst. econstructor; [| |exact Hst].
    + unfold entryBytes, voteEntry. cbn [fst snd]. apply nonempty_begins, field_record; [done|by apply action_fields].
    + unfold VotingProcedures.readVote, entryBytes, voteEntry. cbn [fst snd]. apply (readsN_bind 1 1 _ _ _ _ a); [lia|lia|exact Ra|].
      eapply reads_last; [exact Ry|]. intros r. unfold st_lift. by rewrite insert_extends.
Qed.
End votes.

Lemma readVoter_reads l0 ps0 c cvs : Forall2 voterVotesAre l0 ps0 -> isVoting l0 = true \/ l0 = [] -> c ∉ l0.*1 ->
  isVoter c = true -> isVotes cvs = true -> zlen (entryBytes (voterEntry (c, cvs))) < 2 ^ 53 ->
  exists e, voterVotesAre (c, cvs) e /\
    readsN 2 (VotingProcedures.readVoter {| VotingProcedures.procedures := ps0; VotingProcedures.originalBytes := None |})
      (entryBytes (voterEntry (c, cvs))) {| VotingProcedures.procedures := ps0 ++ [e]; VotingProcedures.originalBytes := None |}.
Proof.
  intros H0 Hl0 Hc Hv Hvs Hz. unfold entryBytes, voterEntry in *. cbn [fst snd] in *. rewrite zlen_app in Hz.
  pose proof (zlen_nonneg (mapBytes false (map voteEntry cvs))). pose proof (zlen_nonneg (recordBytes (voterFields c))).
  destruct (voter_fromCbor c Hv ltac:(lia)) as (w & Ew & Hw). destruct (isVotes_spec _ Hvs) as (Hn & Hd & Hok).
  assert (Hnf : VotingProcedures.findVoter ps0 w = None).
  { assert (Forall (fun e => isVoter e.1 = true) l0) as Hok0.
    { destruct Hl0 as [Hl0| ->]; [|constructor]. apply isVoting_spec in Hl0 as (_ & _ & Hl0). eapply Forall_impl; [exact Hl0|]. by intros e [? _]. }
    destruct (findVoter_is l0 ps0 c w Hok0 H0 Hv Hw) as [Hf _]. by apply Hf. }
  unfold mapBytes in Hz. rewrite zlen_app in Hz. pose proof (zlen_nonneg (CborWriter.head Map (zlen (map voteEntry cvs)))).
  destruct (votes_steps ps0 w Hnf [] [] cvs ltac:(constructor) Hd Hok ltac:(lia)) as (vs & Hvotes & Hst).
  exists (w, vs). split; [by split|]. apply (readsN_bind 1 1 _ _ _ _ w); [lia|lia| |].
  - apply readNested_reads; [apply field_record; [done|by apply voter_fields]|exact Ew].
  - change {| VotingProcedures.procedures := ps0; VotingProcedures.originalBytes := None |} with (extended ps0 w []).
    replace {| VotingProcedures.procedures := ps0 ++ [(w, vs)]; VotingProcedures.originalBytes := None |} with (extended ps0 w ([] ++ vs)).
    + unfold mapBytes. rewrite <- (zlen_map entryBytes). apply map_loop_reads; [|rewrite !zlen_map; lia|exact Hst].
      apply entries_twice, Forall_map. eapply Forall_impl; [exact Hok|]. intros v Hv'. by destruct (voteEntry_field v Hv') as [[? _] [? _]].
    + destruct vs; [|done]. inversion Hvotes; subst. by unfold zlen in Hn.
Qed.

Lemma voting_steps l0 ps0 l : Forall2 voterVotesAre l0 ps0 -> Forall (fun e => isVoter e.1 = true /\ isVotes e.2 = true) l0 ->
  NoDup ((l0 ++ l).*1) -> zlen (l0 ++ l) < 2 ^ 53 -> Forall (fun e => isVoter e.1 = true /\ isVotes e.2 = true) l ->
  zlen (concat (map entryBytes (map voterEntry l))) < 2 ^ 53 ->
  exists ps, Forall2 voterVotesAre l ps /\
    steps 2 VotingProcedures.readVoter (map entryBytes (map voterEntry l))
      {| VotingProcedures.procedures := ps0; VotingProcedures.originalBytes := None |}
      {| VotingProcedures.procedures := ps0 ++ ps; VotingProcedures.originalBytes := None |}.
Proof.
  intros H0 Hok0 Hd Hn Hl. revert l0 ps0 H0 Hok0 Hd Hn. induction Hl as [|[c cvs] l [Hc Hvs] Hl IH]; intros l0 ps0 H0 Hok0 Hd Hn Hz.
  - exists []. rewrite app_nil_r. split; constructor.
  - cbn [map concat fst snd] in *. rewrite zlen_app in Hz. pose proof (zlen_nonneg (concat (map entryBytes (map voterEntry l)))).
    pose proof (zlen_nonneg (entryBytes (voterEntry (c, cvs)))).
    assert (Hd0 : NoDup (l0.*1) /\ c ∉ l0.*1).
    { rewrite fmap_app in Hd. apply NoDup_app in Hd as (Hd0 & Hd & _). split; [done|]. intros Hin. apply (Hd c Hin). cbn. left. }
    destruct (readVoter_reads l0 ps0 c cvs H0) as (e & He & Hr); [|apply Hd0|done|done|lia|].
    { destruct l0 as [|e0 l0]; [by right|left]. unfold isVoting. rewrite !andb_true_iff, bool_decide_eq_true. rewrite zlen_app in Hn.
      pose proof (zlen_nonneg ((c, cvs) :: l)). pose proof (zlen_nonneg l0). rewrite zlen_cons in Hn |- *. split_and!.
      - apply Z.ltb_lt. lia.
      - apply Z.ltb_lt. lia.
      - apply Hd0.
      - apply forallb_forall. intros x Hx. rewrite List.Forall_forall in Hok0. apply andb_true_iff. by apply Hok0. }
    destruct (IH (l0 ++ [(c, cvs)]) (ps0 ++ [e])) as (ps & Hps & Hst).
    + by apply Forall2_app; [|constructor].
    + apply Forall_app. split; [done|]. by apply Forall_singleton.
    + by rewrite <- app_assoc.
    + by rewrite <- app_assoc.
    + lia.
    + exists (e :: ps). split; [by constructor|]. rewrite <- app_assoc in Hst. econstructor; [|exact Hr|exact Hst].
      apply nonempty_begins. by apply (voterEntry_field (c, cvs)).
Qed.

(** What decoding accepts: votes that the class can encode again. *)
Definition votesTyped (p : VotingProcedures.t) : bool :=
  forallb (fun e => voterTyped e.1 && forallb (fun v => typed v.1 && typed v.2) e.2) (VotingProcedures.procedures p).

#[export] Instance voting_serializable : Serializable VotingProcedures.core VotingProcedures.t := {
  toCbor_of := VotingProcedures.toCbor;
  fromCbor_of := VotingProcedures.fromCbor;
  toCore_of := VotingProcedures.toCore;
  fromCore_of := VotingProcedures.fromCore;
  bytesOf := votingBytes;
  validCore := isVoting;
  typed := votesTyped
}.

Lemma voting_fromCbor l : isVoting l = true -> zlen (votingBytes l) < 2 ^ 53 ->
  exists p, VotingProcedures.fromCbor (Buffer_to_hex (votingBytes l)) = Ok p /\ Forall2 voterVotesAre l (VotingProcedures.procedures p) /\
    VotingProcedures.originalBytes p = Some (Buffer_to_hex (votingBytes l)).
Proof.
  intros Hl Hz. destruct (isVoting_spec l Hl) as (Hn & Hd & Hok). destruct (voting_field l Hl) as [Hi Hb].
  assert (Hz' : zlen (concat (map entryBytes (map voterEntry l))) < 2 ^ 53).
  { unfold votingBytes, mapBytes in Hz. rewrite zlen_app in Hz. pose proof (zlen_nonneg (CborWriter.head Map (zlen (map voterEntry l)))). lia. }
  destruct (voting_steps [] [] l ltac:(constructor) ltac:(constructor) Hd ltac:(cbn; lia) Hok Hz') as (ps & Hps & Hst).
  exists {| VotingProcedures.procedures := ps; VotingProcedures.originalBytes := Some (Buffer_to_hex (votingBytes l)) |}.
  split_and!; [|done|done]. unfold VotingProcedures.fromCbor. apply decode_reads; [|done|done].
  apply (reads_last _ _ _ {| VotingProcedures.procedures := ps; VotingProcedures.originalBytes := None |}); [|intros r; reflexivity].
  unfold votingBytes, mapBytes. rewrite <- (zlen_map entryBytes). apply (map_loop_reads VotingProcedures.readVoter).
  - apply entries_twice, Forall_map. eapply Forall_impl; [exact Hok|]. intros e He. by destruct (voterEntry_field e He) as [[? _] [? _]].
  - rewrite !zlen_map. lia.
  - exact Hst.
Qed.

Lemma insert_typed p w a q p' : votesTyped p = true -> voterTyped w = true -> typed a = true -> typed q = true ->
  VotingProcedures.insert p w a q = Ok p' -> votesTyped p' = true.
Proof.
  intros Hp Hw Ha Hq. unfold VotingProcedures.insert, votesTyped in *. destruct (VotingProcedures.findVoter _ w) as [vs|].
  - destruct (VotingProcedures.findVote vs a); [done|]. intros [= <-]. cbn [VotingProcedures.procedures]. revert Hp.
    induction (VotingProcedures.procedures p) as [|[x xs] ps IH]; [done|]. cbn [VotingProcedures.pushVote forallb fst snd].
    intros [Hx Hps]%andb_true_iff. destruct (Voter.equals x w); cbn [forallb fst snd].
    + apply andb_true_iff in Hx as [Hx Hxs]. rewrite Hx, Hps, forallb_app, Hxs. cbn [forallb fst snd]. by rewrite Ha, Hq.
    + rewrite Hx. by apply IH.
  - intros [= <-]. cbn [VotingProcedures.procedures]. rewrite forallb_app, Hp. cbn [forallb fst snd]. by rewrite Hw, Ha, Hq.
Qed.

Lemma voting_accepts : accepts VotingProcedures.fromCbor (fun p => votesTyped p = true).
Proof.
  apply accepts_decode. intros cbor. eapply sound_bind; [apply (sound_map_loop _ (fun p => votesTyped p = true)); [|done]|].
  - intros p Hp. unfold VotingProcedures.readVoter. eapply advances_bind; [apply advances_nested, voter_accepts|]. intros w Hw.
    apply sound_map_loop; [|done]. intros p1 Hp1. unfold VotingProcedures.readVote.
    eapply advances_bind; [apply (advances_nested _ _ (@fromCbor_accepts _ _ action_serializable action_laws))|]. intros a Ha.
    eapply sound_bind; [apply (sound_nested _ _ (@fromCbor_accepts _ _ procedure_serializable procedure_laws))|]. intros q Hq.
    apply sound_lift; [unfold VotingProcedures.insert; repeat case_match; done|]. intros p2. by apply insert_typed.
  - intros p Hp. by apply sound_ret.
Qed.

#[export] Instance voting_laws : SerializableLaws VotingProcedures.core VotingProcedures.t.
Proof.
  split; cbn [bytesOf validCore fromCore_of fromCbor_of voting_serializable].
  - apply voting_field.
  - intros l (Hz & _)%isVoting_spec. apply (starts_not_null Map); [done|]. unfold votingBytes, mapBytes. rewrite zlen_map. apply starts_head. lia.
  - intros l Hl. destruct (voting_fromCore l Hl) as ([ps o] & Ep & Hps & Ho). cbn in Hps, Ho. subst o. exists {| VotingProcedures.procedures := ps; VotingProcedures.originalBytes := None |}.
    split; [done|]. split; [by apply voting_toCore|by apply voting_encodes].
  - intros l Hl Hz. destruct (voting_fromCbor l Hl Hz) as ([ps o] & Ep & Hps & Ho). cbn in Hps, Ho. subst o. eexists. split; [exact Ep|].
    split; [by apply voting_toCore|]. destruct (voting_field l Hl). by apply cached_some.
  - apply voting_accepts.
Qed.

(** ** Votes: the properties

    The round trip of the votes, the procedures as a finite map from voters and
    governance actions, and the blob a new voter leaves behind. *)

(** ** Equality of the keys *)

Lemma voter_equals_spec v w : Voter.equals v w = true <-> Voter.kind v = Voter.kind w /\ Voter.credential v = Voter.credential w.
Proof.
  unfold Voter.equals. rewrite !andb_true_iff, !Z.eqb_eq, String.eqb_eq. destruct (Voter.credential v), (Voter.credential w). cbn.
  split; [intros [[? ?] ?]; by subst|by intros [? [= -> ->]]].
Qed.

Lemma actions_equals_spec a b : GovernanceActionId.equals a b = true <->
  GovernanceActionId.id a = GovernanceActionId.id b /\ GovernanceActionId.index a = GovernanceActionId.index b.
Proof. unfold GovernanceActionId.equals. rewrite andb_true_iff, Z.eqb_eq, String.eqb_eq. tauto. Qed.

Lemma voter_equals_congr v w x : Voter.equals v w = true -> Voter.equals x v = Voter.equals x w.
Proof. intros [Hk Hc]%voter_equals_spec. apply eq_true_iff_eq. rewrite !voter_equals_spec. by rewrite Hk, Hc. Qed.

Lemma action_equals_congr a b x : GovernanceActionId.equals a b = true -> GovernanceActionId.equals x a = GovernanceActionId.equals x b.
Proof. intros [Hi Hx]%actions_equals_spec. apply eq_true_iff_eq. rewrite !actions_equals_spec. by rewrite Hi, Hx. Qed.

Lemma findVoter_congr ps v w : Voter.equals v w = true -> VotingProcedures.findVoter ps v = VotingProcedures.findVoter ps w.
Proof. intros E. induction ps as [|[x vs] ps IH]; [done|]. cbn. by rewrite (voter_equals_congr _ _ x E), IH. Qed.

Lemma findVote_congr vs a b : GovernanceActionId.equals a b = true -> VotingProcedures.findVote vs a = VotingProcedures.findVote vs b.
Proof. intros E. induction vs as [|[x q] vs IH]; [done|]. cbn. by rewrite (action_equals_congr _ _ x E), IH. Qed.

(** ** Looking up what was appended *)

Lemma findVoter_app ps v vs w : VotingProcedures.findVoter (ps ++ [(v, vs)]) w =
  match VotingProcedures.findVoter ps w with Some us => Some us | None => if Voter.equals v w then Some vs else None end.
Proof. induction ps as [|[x us] ps IH]; [done|]. cbn. destruct (Voter.equals x w); [done|exact IH]. Qed.

Lemma findVote_app vs a q b : VotingProcedures.findVote (vs ++ [(a, q)]) b =
  match VotingProcedures.findVote vs b with Some p => Some p | None => if GovernanceActionId.equals a b then Some q else None end.
Proof. induction vs as [|[x p] vs IH]; [done|]. cbn. destruct (GovernanceActionId.equals x b); [done|exact IH]. Qed.

Lemma findVoter_push ps v vs u w : VotingProcedures.findVoter ps v = Some vs ->
  VotingProcedures.findVoter (VotingProcedures.pushVote ps v u) w =
  if Voter.equals v w then Some (vs ++ [u]) else VotingProcedures.findVoter ps w.
Proof.
  induction ps as [|[x us] ps IH]; [done|]. cbn. destruct (Voter.equals x v) eqn:E.
  - intros [= ->]. cbn. assert (Hw : Voter.equals x w = Voter.equals v w).
    { apply voter_equals_spec in E as [Ek Ec]. apply eq_true_iff_eq. rewrite !voter_equals_spec. by rewrite Ek, Ec. }
    by rewrite Hw; destruct (Voter.equals v w).
  - intros Hf. cbn. destruct (Voter.equals x w) eqn:Ew; [|by apply IH]. destruct (Voter.equals v w) eqn:Evw; [|done].
    by rewrite (voter_equals_congr _ _ x Evw), Ew in E.
Qed.

(** ** Instances for the witnesses *)

Definition zeros (n : nat) : string := Buffer_to_hex (repeat 0 n).
Definition demo_action (n : Z) : GovernanceActionId.core := GovernanceActionId.Core (zeros 32) n.
Definition demo_voter (t : VoterType) : Voter.core :=
  Voter.Core t {| hash := zeros 28; Credential.type := match t with ccHotScriptHash | dRepScriptHash => 1 | _ => 0 end |}.
Definition demo_votes : VotingProcedures.core :=
  [(demo_voter dRepKeyHash, [(demo_action 0, VotingProcedure.Core Vote.yes None); (demo_action 1, VotingProcedure.Core Vote.no None)]);
   (demo_voter stakePoolKeyHash, [(demo_action 0, VotingProcedure.Core Vote.abstain None)])].

Definition demo_blob : HexBlob := Buffer_to_hex (votingBytes demo_votes).
Definition demo_decoded : VotingProcedures.t :=
  match VotingProcedures.fromCbor demo_blob with Ok p => p | _ => VotingProcedures.new end.

(** ** Properties *)

(** The votes of a transaction survive serialization: votes of distinct voters
    on distinct actions are converted to an object that is written as a map of
    maps in their order, and these bytes are read back, one insertion per vote,
    to an object that stands for the same votes and is written as the same
    bytes. *)
Theorem voting_round_trip l : isVoting l = true -> zlen (votingBytes l) < 2 ^ 53 ->
  (exists p, VotingProcedures.fromCore l = Ok p /\ VotingProcedures.toCore p = Ok l /\
    VotingProcedures.toCbor p = Ok (Buffer_to_hex (votingBytes l))) /\
  (exists p, VotingProcedures.fromCbor (Buffer_to_hex (votingBytes l)) = Ok p /\ VotingProcedures.toCore p = Ok l /\
    VotingProcedures.toCbor p = Ok (Buffer_to_hex (votingBytes l))).
Proof.
  intros Hl Hz. split.
  - exact (@fromCore_standsFor _ _ voting_serializable voting_laws l Hl).
  - exact (@fromCbor_standsFor _ _ voting_serializable voting_laws l Hl Hz).
Qed.

Lemma voting_round_trip_witness : exists p, VotingProcedures.fromCbor (Buffer_to_hex (votingBytes demo_votes)) = Ok p /\
  VotingProcedures.toCore p = Ok demo_votes.
Proof.
  destruct (voting_round_trip demo_votes) as [_ (p & Hp & Hc & _)]; [vm_compute; reflexivity|vm_compute; reflexivity|]. exists p. split; [exact Hp|exact Hc].
Defined.

(** C28. The procedures are a finite map from a voter and an action to a vote:
    an insertion fails exactly when the voter has voted on the action, and
    otherwise changes what is found under these two keys only. *)
Theorem insert_refines_a_map p voter action q :
  match VotingProcedures.insert p voter action q with
  | Ok p' => VotingProcedures.get p voter action = None /\ forall w b,
      VotingProcedures.get p' w b = if Voter.equals voter w && GovernanceActionId.equals action b then Some q else VotingProcedures.get p w b
  | Throw e => VotingProcedures.get p voter action <> None /\
      e = InvalidArgumentError "actionId" "Voter already has a voting procedure for the given actionId"
  | OutOfFuel => False
  end.
Proof.
  unfold VotingProcedures.insert, VotingProcedures.get. destruct (VotingProcedures.findVoter _ voter) as [vs|] eqn:Ef.
  - destruct (VotingProcedures.findVote vs action) as [x|] eqn:Ev; [done|]. split; [done|]. intros w b. cbn [VotingProcedures.procedures].
    rewrite (findVoter_push _ _ _ _ w Ef). destruct (Voter.equals voter w) eqn:Ew; cbn [andb]; [|done].
    rewrite <- (findVoter_congr _ _ _ Ew), Ef, findVote_app. destruct (GovernanceActionId.equals action b) eqn:Eb.
    + by rewrite <- (findVote_congr _ _ _ Eb), Ev.
    + by destruct (VotingProcedures.findVote vs b).
  - split; [done|]. intros w b. cbn [VotingProcedures.procedures]. rewrite findVoter_app. destruct (Voter.equals voter w) eqn:Ew; cbn [andb].
    + rewrite <- (findVoter_congr _ _ _ Ew), Ef. cbn. by destruct (GovernanceActionId.equals action b).
    + by destruct (VotingProcedures.findVoter _ w).
Qed.

(** A voter added to decoded votes is not encoded: the insertion succeeds and
    finds the vote, but returns before the remembered blob is reset, so the
    object is still written as the blob it was read from. *)
Theorem new_voter_is_not_encoded cbor p voter action q : VotingProcedures.fromCbor cbor = Ok p ->
  VotingProcedures.findVoter (VotingProcedures.procedures p) voter = None ->
  exists p', VotingProcedures.insert p voter action q = Ok p' /\ VotingProcedures.get p' voter action = Some q /\
    VotingProcedures.toCbor p' = Ok cbor.
Proof.
  intros Hd Hf. unfold VotingProcedures.insert. rewrite Hf. eexists. split; [reflexivity|]. split.
  - unfold VotingProcedures.get. cbn [VotingProcedures.procedures]. rewrite findVoter_app, Hf.
    rewrite (proj2 (voter_equals_spec voter voter)) by done. cbn. by rewrite (proj2 (actions_equals_spec action action)).
  - destruct (String.eqb_spec cbor "") as [->|Hne].
    { assert (exists e, VotingProcedures.fromCbor "" = Throw e) as [e E] by (eexists; vm_compute; reflexivity). by rewrite E in Hd. }
    assert (Ho : VotingProcedures.originalBytes p = Some cbor).
    { unfold VotingProcedures.fromCbor, decode in Hd. revert Hd. unfold mbind, ST_bind. destruct (readMapLoop _ _ _) as [[x|e|] r]; [|done..].
      by intros [= <-]. }
    unfold VotingProcedures.toCbor, cached. cbn. rewrite Ho. unfold remembered. by destruct (String.eqb_spec cbor "").
Qed.

Lemma new_voter_is_not_encoded_witness : exists p', VotingProcedures.insert demo_decoded (Voter.fromCore (demo_voter ccHotKeyHash))
    (GovernanceActionId.fromCore (demo_action 7)) (VotingProcedure.new Vote.yes None) = Ok p' /\
  VotingProcedures.toCbor p' = Ok demo_blob.
Proof.
  destruct (new_voter_is_not_encoded demo_blob demo_decoded (Voter.fromCore (demo_voter ccHotKeyHash)) (GovernanceActionId.fromCore (demo_action 7))
    (VotingProcedure.new Vote.yes None)) as (p' & Hi & _ & Hc); [vm_compute; reflexivity|vm_compute; reflexivity|]. exists p'. split; [exact Hi|exact Hc].
Defined.
