(* ===== verification/Pools.v ===== *)
(** * Parameters of stake pools

    Models [packages/core/src/Serialization/Certificates/PoolParams]:
    [Relay/ipUtils.ts], [Relay/SingleHostAddr.ts], [Relay/SingleHostName.ts],
    [Relay/MultiHostName.ts], [Relay/Relay.ts], [PoolMetadata.ts] and
    [PoolParams.ts].

    Host names and URLs are lists of UTF-16 code units; the texts of IP addresses
    are strings of characters, parsed and printed by the package [ip-address]. *)

From S2P Require Import Prelude JsRuntime CborCommon CborWriter CborReader Codec Credential Address Identifiers Records Common.

(** ** IP addresses *)

(** The functions of [ip-address] the code calls: [Address4.isValid],
    [Address6.isValid], [new Address6(s).toUnsignedByteArray()] and
    [Address6.fromUnsignedByteArray(l).canonicalForm()]. *)
Class IpAddress := {
  Address4_isValid : string -> bool;
  Address6_isValid : string -> bool;
  Address6_toUnsignedByteArray : string -> list Z;
  Address6_canonicalForm : list Z -> Res string
}.

(** They return. *)
Class IpAddressLaws `{IpAddress} : Prop := canonicalForm_returns l : Address6_canonicalForm l <> OutOfFuel.

Definition digit (c : ascii) : option Z :=
  let n := Z.of_N (N_of_ascii c) in if (48 <=? n) && (n <=? 57) then Some (n - 48) else None.

(** [Number.parseInt] of a decimal: its leading digits; [Address4.isValid] admits
    no other form of number. *)
Fixpoint parseInt (value : Z) (s : string) : Z :=
  match s with
  | EmptyString => value
  | String c s => match digit c with Some d => parseInt (value * 10 + d) s | None => value end
  end.

(** [s.split('.')] *)
Fixpoint splitDots (s : string) : list string :=
  match s with
  | EmptyString => [""%string]
  | String c s =>
      if Ascii.eqb c "." then ""%string :: splitDots s
      else match splitDots s with x :: l => String c x :: l | [] => [String c ""] end
  end.

(** [l.join('.')] *)
Fixpoint joinDots (l : list string) : string :=
  match l with [] => "" | [s] => s | s :: l => s +:+ "." +:+ joinDots l end.

(** [new Uint8Array(l)] *)
Definition Uint8Array_of (l : list Z) : list Z := map (fun x => x mod 256) l.

(** [Array.from({ length: 16 }).fill(0).slice(0, n)] *)
Definition filler (n : Z) : list Z := replicate (Z.to_nat (if n <? 0 then 16 + n else Z.min n 16)) 0.

Section ip.
Context `{IpAddress}.

Definition ipV4StringToByteArray (address : string) : Res (list Z) :=
  if negb (Address4_isValid address) then Throw (InvalidArgumentError "address" ("Invalid IP V4 string: " +:+ address))
  else Ok (Uint8Array_of (map (parseInt 0) (splitDots address))).

Definition byteArrayToIpV4String (byteArray : list Z) : Res string :=
  if negb (zlen byteArray =? 4) then
    Throw (InvalidArgumentError "byteArray" ("Invalid IP V4 byte array, expected 4 bytes, but got " +:+ pretty (zlen byteArray)))
  else Ok (joinDots (map pretty byteArray)).

Definition ipV6StringToByteArray (address : string) : Res (list Z) :=
  if negb (Address6_isValid address) then Throw (InvalidArgumentError "address" ("Invalid IP V6 string: " +:+ address))
  else
    let addressV6 := Address6_toUnsignedByteArray address in
    Ok (Uint8Array_of (filler (16 - zlen addressV6) ++ addressV6)).

Definition byteArrayToIPv6String (byteArray : list Z) : Res string := Address6_canonicalForm byteArray.
End ip.

(** ** Relays *)

(** The core type. *)
Inductive CoreRelay : Set :=
  | RelayByAddress (ipv4 ipv6 : option string) (port : option Z)
  | RelayByName (hostname : list Z) (port : option Z)
  | RelayByNameMultihost (dnsName : list Z).

Module RelayKind.
Definition SingleHostAddress : Z := 0.
Definition SingleHostDnsName : Z := 1.
Definition MultiHostDnsName : Z := 2.
End RelayKind.

(** [this.#port ? ... : ...]: a port of 0 is no port. *)
Definition portSet (port : option Z) : option Z := match port with Some p => if p =? 0 then None else Some p | None => None end.

(** [this.#ipV4 ? ... : ...] *)
Definition textSet (s : option string) : option string := match s with Some s => if String.eqb s "" then None else Some s | None => None end.

Definition writePort (port : option Z) : Enc unit := writeNullable (fun p => call (CborWriter.writeInt p)) (portSet port).

(** [port ? Number(port) : undefined] of what was read. *)
Definition readPort : Dec (option Z) :=
  port ← readNullable (call CborReader.readInt); mret (Number_of <$> portSet port).

Definition checkId (name : string) (expected : Z) : Dec unit :=
  id ← readNumber;
  st_guard (negb (id =? expected)) (InvalidArgumentError "cbor" ("Expected " +:+ name +:+ " id " +:+ pretty expected +:+ ", but got " +:+ pretty id)).

Module SingleHostAddr.
Record t : Set := { port : option Z; ipV4 : option string; ipV6 : option string; originalBytes : option HexBlob }.

Definition EMBEDDED_GROUP_SIZE : Z := 4.
Definition SINGLE_HOST_ADDR_RELAY_ID : Z := 0.

Section impl.
Context `{IpAddress}.

Definition writeIp (toBytes : string -> Res (list Z)) (ip : option string) : Enc unit :=
  writeNullable (fun s => l ← st_lift (toBytes s); call (CborWriter.writeByteString l)) (textSet ip).

Definition readIp (fromBytes : list Z -> Res string) : Dec (option string) :=
  readNullable (l ← call CborReader.readByteString; st_lift (fromBytes l)).

Definition toCbor (a : t) : Res HexBlob := cached (originalBytes a) (encode (
  call (CborWriter.writeStartArray (Some EMBEDDED_GROUP_SIZE)) ;;
  call (CborWriter.writeInt SINGLE_HOST_ADDR_RELAY_ID) ;;
  writePort (port a) ;;
  writeIp ipV4StringToByteArray (ipV4 a) ;;
  writeIp ipV6StringToByteArray (ipV6 a))).

Definition fromCbor (cbor : HexBlob) : Res t := decode (
  length ← call CborReader.readStartArray;
  expectLength EMBEDDED_GROUP_SIZE EMBEDDED_GROUP_SIZE length ;;
  checkId "SingleHostAddr" SINGLE_HOST_ADDR_RELAY_ID ;;
  port ← readPort;
  ipV4 ← readIp byteArrayToIpV4String;
  ipV6 ← readIp byteArrayToIPv6String;
  mret {| port := port; ipV4 := ipV4; ipV6 := ipV6; originalBytes := Some cbor |}) cbor.
End impl.

Definition toCore (a : t) : CoreRelay := RelayByAddress (ipV4 a) (ipV6 a) (port a).
Definition fromCore (ipv4 ipv6 : option string) (port : option Z) : t :=
  {| port := port; ipV4 := ipv4; ipV6 := ipv6; originalBytes := None |}.

Definition setPort (a : t) (port : option Z) : t := {| port := port; ipV4 := ipV4 a; ipV6 := ipV6 a; originalBytes := None |}.
Definition setIpv4 (a : t) (ipV4 : option string) : t := {| port := port a; ipV4 := ipV4; ipV6 := ipV6 a; originalBytes := None |}.
Definition setIpv6 (a : t) (ipV6 : option string) : t := {| port := port a; ipV4 := ipV4 a; ipV6 := ipV6; originalBytes := None |}.
End SingleHostAddr.

Definition MAX_DNS_SIZE_STR_LENGTH : Z := 64.

(** The check of the constructors and setters of the two kinds with a name. *)
Definition checkDnsName (dnsName : list Z) : Res unit :=
  if MAX_DNS_SIZE_STR_LENGTH <? zlen dnsName then
    Throw (InvalidArgumentError "dnsName" ("dnsName must be less or equal to 64 characters long, actual size " +:+ pretty (zlen dnsName)))
  else Ok tt.

Module SingleHostName.
Record t : Set := { port : option Z; dnsName : list Z; originalBytes : option HexBlob }.

Definition EMBEDDED_GROUP_SIZE : Z := 3.
Definition SINGLE_HOST_NAME_RELAY_ID : Z := 1.

Definition new (dnsName : list Z) (port : option Z) : Res t :=
  checkDnsName dnsName ;; Ok {| port := port; dnsName := dnsName; originalBytes := None |}.

Definition toCbor (n : t) : Res HexBlob := cached (originalBytes n) (encode (
  call (CborWriter.writeStartArray (Some EMBEDDED_GROUP_SIZE)) ;;
  call (CborWriter.writeInt SINGLE_HOST_NAME_RELAY_ID) ;;
  writePort (port n) ;;
  call (CborWriter.writeTextString (dnsName n)))).

Definition fromCbor (cbor : HexBlob) : Res t := decode (
  length ← call CborReader.readStartArray;
  expectLength EMBEDDED_GROUP_SIZE EMBEDDED_GROUP_SIZE length ;;
  checkId "SingleHostName" SINGLE_HOST_NAME_RELAY_ID ;;
  port ← readPort;
  dnsName ← call CborReader.readTextString;
  relay ← st_lift (new dnsName port);
  mret {| port := SingleHostName.port relay; dnsName := SingleHostName.dnsName relay; originalBytes := Some cbor |}) cbor.

Definition toCore (n : t) : CoreRelay := RelayByName (dnsName n) (port n).
Definition fromCore (hostname : list Z) (port : option Z) : Res t := new hostname port.

Definition setPort (n : t) (port : option Z) : t := {| port := port; dnsName := dnsName n; originalBytes := None |}.
Definition setDnsName (n : t) (dnsName : list Z) : Res t :=
  checkDnsName dnsName ;; Ok {| port := port n; dnsName := dnsName; originalBytes := None |}.
End SingleHostName.

Module MultiHostName.
Record t : Set := { dnsName : list Z; originalBytes : option HexBlob }.

Definition EMBEDDED_GROUP_SIZE : Z := 2.
Definition MULTI_HOST_NAME_RELAY_ID : Z := 2.

Definition new (dnsName : list Z) : Res t := checkDnsName dnsName ;; Ok {| dnsName := dnsName; originalBytes := None |}.

Definition toCbor (n : t) : Res HexBlob := cached (originalBytes n) (encode (
  call (CborWriter.writeStartArray (Some EMBEDDED_GROUP_SIZE)) ;;
  call (CborWriter.writeInt MULTI_HOST_NAME_RELAY_ID) ;;
  call (CborWriter.writeTextString (dnsName n)))).

Definition fromCbor (cbor : HexBlob) : Res t := decode (
  length ← call CborReader.readStartArray;
  expectLength EMBEDDED_GROUP_SIZE EMBEDDED_GROUP_SIZE length ;;
  checkId "MultiHostName" MULTI_HOST_NAME_RELAY_ID ;;
  dnsName ← call CborReader.readTextString;
  relay ← st_lift (new dnsName);
  mret {| dnsName := MultiHostName.dnsName relay; originalBytes := Some cbor |}) cbor.

Definition toCore (n : t) : CoreRelay := RelayByNameMultihost (dnsName n).
Definition fromCore (dnsName : list Z) : Res t := new dnsName.

Definition setDnsName (n : t) (dnsName : list Z) : Res t := new dnsName.
End MultiHostName.

Module Relay.
(** The kind says which of the three parts is set. *)
Inductive body : Set :=
  | ASingleHostAddr (a : SingleHostAddr.t)
  | ASingleHostName (n : SingleHostName.t)
  | AMultiHostName (n : MultiHostName.t).

Record t : Set := { inner : body; originalBytes : option HexBlob }.

Definition new (b : body) : t := {| inner := b; originalBytes := None |}.

Section impl.
Context `{IpAddress}.

Definition toCbor (r : t) : Res HexBlob := cached (originalBytes r) (
  match inner r with
  | ASingleHostAddr a => SingleHostAddr.toCbor a
  | ASingleHostName n => SingleHostName.toCbor n
  | AMultiHostName n => MultiHostName.toCbor n
  end).

(** The [switch] of [fromCbor]. *)
Definition fromCborKind (kind : Z) (cbor : HexBlob) : Res body :=
  if kind =? RelayKind.SingleHostAddress then a ← SingleHostAddr.fromCbor cbor; Ok (ASingleHostAddr a)
  else if kind =? RelayKind.SingleHostDnsName then n ← SingleHostName.fromCbor cbor; Ok (ASingleHostName n)
  else if kind =? RelayKind.MultiHostDnsName then n ← MultiHostName.fromCbor cbor; Ok (AMultiHostName n)
  else Throw (InvalidStateError ("Unexpected kind value: " +:+ pretty kind)).

Definition readKind : Dec Z := call CborReader.readStartArray ;; readNumber.

Definition fromCbor (cbor : HexBlob) : Res t :=
  kind ← decode readKind cbor;
  b ← fromCborKind kind cbor;
  Ok {| inner := b; originalBytes := Some cbor |}.
End impl.

Definition toCore (r : t) : CoreRelay :=
  match inner r with
  | ASingleHostAddr a => SingleHostAddr.toCore a
  | ASingleHostName n => SingleHostName.toCore n
  | AMultiHostName n => MultiHostName.toCore n
  end.

Definition fromCore (c : CoreRelay) : Res t :=
  match c with
  | RelayByAddress ipv4 ipv6 port => Ok (new (ASingleHostAddr (SingleHostAddr.fromCore ipv4 ipv6 port)))
  | RelayByName hostname port => n ← SingleHostName.fromCore hostname port; Ok (new (ASingleHostName n))
  | RelayByNameMultihost dnsName => n ← MultiHostName.fromCore dnsName; Ok (new (AMultiHostName n))
  end.
End Relay.

(** ** Metadata *)

Module PoolMetadata.
Record core : Set := Core { coreUrl : list Z; coreHash : string }.

Record t : Set := { url : list Z; hash : string; originalBytes : option HexBlob }.

Definition MAX_URL_SIZE_STR_LENGTH : Z := 64.
Definition EMBEDDED_GROUP_SIZE : Z := 2.

Definition new (url : list Z) (poolMetadataHash : string) : Res t :=
  if MAX_URL_SIZE_STR_LENGTH <? zlen url then
    Throw (InvalidArgumentError "url" ("url must be less or equal to 64 characters long, actual size " +:+ pretty (zlen url)))
  else Ok {| url := url; hash := poolMetadataHash; originalBytes := None |}.

Definition toCbor (m : t) : Res HexBlob := cached (originalBytes m) (encode (
  call (CborWriter.writeStartArray (Some EMBEDDED_GROUP_SIZE)) ;;
  call (CborWriter.writeTextString (url m)) ;;
  call (CborWriter.writeByteString (Buffer_from_hex (hash m))))).

Definition fromCbor (cbor : HexBlob) : Res t := decode (
  length ← call CborReader.readStartArray;
  expectLength EMBEDDED_GROUP_SIZE EMBEDDED_GROUP_SIZE length ;;
  url ← call CborReader.readTextString;
  hash ← readHex;
  call CborReader.readEndArray ;;
  metadata ← st_lift (new url hash);
  mret {| url := PoolMetadata.url metadata; hash := PoolMetadata.hash metadata; originalBytes := Some cbor |}) cbor.

Definition toCore (m : t) : core := {| coreUrl := url m; coreHash := hash m |}.
Definition fromCore (m : core) : Res t := new (coreUrl m) (coreHash m).

Definition setUrl (m : t) (url : list Z) : t := {| url := url; hash := hash m; originalBytes := None |}.
Definition setPoolMetadataHash (m : t) (poolMetadataHash : string) : t := {| url := url m; hash := poolMetadataHash; originalBytes := None |}.
End PoolMetadata.

(** ** Parameters *)

(** [Cardano.PoolParameters] *)
Module PoolParameters.
Record t : Set := {
  id : string;
  rewardAccount : string;
  pledge : Z;
  cost : Z;
  margin : UnitInterval.core;
  metadataJson : option PoolMetadata.core;
  relays : list CoreRelay;
  owners : list string;
  vrf : string
}.
End PoolParameters.

Module PoolParams.
(** The reward account is [undefined] when the address read is of another kind. *)
Record t : Type := {
  operator : string;
  vrfKeyHash : string;
  pledge : Z;
  cost : Z;
  margin : UnitInterval.t;
  rewardAccount : option Address;
  poolOwners : CborSet.t string;
  relays : list Relay.t;
  poolMetadata : option PoolMetadata.t;
  originalBytes : option HexBlob
}.

Definition subgroupCount : Z := 9.

Section impl.
Context `{Era} `{Crc32} `{BaseEncoding} `{Bech32} `{IpAddress}.

(** The writer calls of [toFlattenedCbor]. *)
Definition writeFlattened (p : t) : Enc unit :=
  call (CborWriter.writeByteString (Buffer_from_hex (operator p))) ;;
  call (CborWriter.writeByteString (Buffer_from_hex (vrfKeyHash p))) ;;
  call (CborWriter.writeInt (pledge p)) ;;
  call (CborWriter.writeInt (cost p)) ;;
  writeEncoded (UnitInterval.toCbor (margin p)) ;;
  address ← st_lift (a ← required (rewardAccount p); toBytes a);
  call (CborWriter.writeByteString (Buffer_from_hex address)) ;;
  writeEncoded (CborSet.toCbor Hash.toCbor (poolOwners p)) ;;
  (call (CborWriter.writeStartArray (Some (zlen (relays p)))) ;;
   forEach (fun relay => writeEncoded (Relay.toCbor relay)) (relays p)) ;;
  writeNullable (fun m => writeEncoded (PoolMetadata.toCbor m)) (poolMetadata p).

Definition toCbor (p : t) : Res HexBlob := cached (originalBytes p) (encode (
  call (CborWriter.writeStartArray (Some subgroupCount)) ;; writeFlattened p)).

Definition readReward : Dec (option Address) :=
  hex ← readHex; a ← st_lift (fromBytes hex); mret (RewardAddress.fromAddress a).

Definition fromFlattenedCbor : Dec t :=
  operator ← readHash 56;
  vrfKeyHash ← readHash 64;
  pledge ← call CborReader.readInt;
  cost ← call CborReader.readInt;
  margin ← readNested UnitInterval.fromCbor;
  rewardAccount ← readReward;
  poolOwner ← readNested (CborSet.fromCbor Hash.fromCbor);
  relays ← (call CborReader.readStartArray ;;
            l ← readWhileNot CborReaderState.EndArray (readNested Relay.fromCbor);
            call CborReader.readEndArray ;; mret l);
  poolMetadata ← readNullable (readNested PoolMetadata.fromCbor);
  mret {| operator := operator; vrfKeyHash := vrfKeyHash; pledge := pledge; cost := cost; margin := margin;
          rewardAccount := rewardAccount; poolOwners := poolOwner; relays := relays; poolMetadata := poolMetadata;
          originalBytes := None |}.

Definition setOriginalBytes (p : t) (o : option HexBlob) : t :=
  {| operator := operator p; vrfKeyHash := vrfKeyHash p; pledge := pledge p; cost := cost p; margin := margin p;
     rewardAccount := rewardAccount p; poolOwners := poolOwners p; relays := relays p; poolMetadata := poolMetadata p;
     originalBytes := o |}.

Definition fromCbor (cbor : HexBlob) : Res t := decode (
  length ← call CborReader.readStartArray;
  expectLength subgroupCount subgroupCount length ;;
  params ← fromFlattenedCbor;
  mret (setOriginalBytes params (Some cbor))) cbor.

(** The network of an unpacked reward address is always set. *)
Definition toCore (p : t) : Res PoolParameters.t :=
  address ← required (rewardAccount p);
  id ← PoolId.fromKeyHash (operator p);
  network ← required (getNetworkId address);
  owners ← mapM (fun keyHash => createRewardAccount keyHash network) (CborSet.values (poolOwners p));
  account ← toBech32 address;
  Ok {| PoolParameters.id := id; PoolParameters.rewardAccount := account; PoolParameters.pledge := pledge p; PoolParameters.cost := cost p;
        PoolParameters.margin := UnitInterval.toCore (margin p); PoolParameters.metadataJson := PoolMetadata.toCore <$> poolMetadata p;
        PoolParameters.relays := map Relay.toCore (relays p); PoolParameters.owners := owners; PoolParameters.vrf := vrfKeyHash p |}.

(** [Crypto.Ed25519KeyHashHex(Address.fromBech32(owner).asReward()!.getPaymentCredential()!.hash)] *)
Definition ownerKeyHash (owner : string) : Res string :=
  a ← fromBech32 owner;
  r ← required (RewardAddress.fromAddress a);
  c ← required (paymentPart r);
  Ed25519KeyHashHex (Credential.hash c).

Definition fromCore (p : PoolParameters.t) : Res t :=
  operator ← PoolId.toKeyHash (PoolParameters.id p);
  a ← fromBech32 (PoolParameters.rewardAccount p);
  owners ← mapM ownerKeyHash (PoolParameters.owners p);
  relays ← mapM Relay.fromCore (PoolParameters.relays p);
  metadata ← match PoolParameters.metadataJson p with Some m => x ← PoolMetadata.fromCore m; Ok (Some x) | None => Ok None end;
  Ok {| operator := operator; vrfKeyHash := PoolParameters.vrf p; pledge := PoolParameters.pledge p; cost := PoolParameters.cost p;
        margin := UnitInterval.fromCore (PoolParameters.margin p); rewardAccount := RewardAddress.fromAddress a;
        poolOwners := CborSet.new owners; relays := relays; poolMetadata := metadata; originalBytes := None |}.
End impl.

(** Setters. *)
Definition setOperator (p : t) (operator : string) : t :=
  {| operator := operator; vrfKeyHash := vrfKeyHash p; pledge := pledge p; cost := cost p; margin := margin p;
     rewardAccount := rewardAccount p; poolOwners := poolOwners p; relays := relays p; poolMetadata := poolMetadata p; originalBytes := None |}.
Definition setVrfKeyHash (p : t) (vrfKeyHash : string) : t :=
  {| operator := operator p; vrfKeyHash := vrfKeyHash; pledge := pledge p; cost := cost p; margin := margin p;
     rewardAccount := rewardAccount p; poolOwners := poolOwners p; relays := relays p; poolMetadata := poolMetadata p; originalBytes := None |}.
Definition setPledge (p : t) (pledge : Z) : t :=
  {| operator := operator p; vrfKeyHash := vrfKeyHash p; pledge := pledge; cost := cost p; margin := margin p;
     rewardAccount := rewardAccount p; poolOwners := poolOwners p; relays := relays p; poolMetadata := poolMetadata p; originalBytes := None |}.
Definition setCost (p : t) (cost : Z) : t :=
  {| operator := operator p; vrfKeyHash := vrfKeyHash p; pledge := pledge p; cost := cost; margin := margin p;
     rewardAccount := rewardAccount p; poolOwners := poolOwners p; relays := relays p; poolMetadata := poolMetadata p; originalBytes := None |}.
Definition setMargin (p : t) (margin : UnitInterval.t) : t :=
  {| operator := operator p; vrfKeyHash := vrfKeyHash p; pledge := pledge p; cost := cost p; margin := margin;
     rewardAccount := rewardAccount p; poolOwners := poolOwners p; relays := relays p; poolMetadata := poolMetadata p; originalBytes := None |}.
Definition setRewardAccount (p : t) (rewardAccount : Address) : t :=
  {| operator := operator p; vrfKeyHash := vrfKeyHash p; pledge := pledge p; cost := cost p; margin := margin p;
     rewardAccount := Some rewardAccount; poolOwners := poolOwners p; relays := relays p; poolMetadata := poolMetadata p; originalBytes := None |}.
Definition setPoolOwners (p : t) (poolOwners : CborSet.t string) : t :=
  {| operator := operator p; vrfKeyHash := vrfKeyHash p; pledge := pledge p; cost := cost p; margin := margin p;
     rewardAccount := rewardAccount p; poolOwners := poolOwners; relays := relays p; poolMetadata := poolMetadata p; originalBytes := None |}.
Definition setRelays (p : t) (relays : list Relay.t) : t :=
  {| operator := operator p; vrfKeyHash := vrfKeyHash p; pledge := pledge p; cost := cost p; margin := margin p;
     rewardAccount := rewardAccount p; poolOwners := poolOwners p; relays := relays; poolMetadata := poolMetadata p; originalBytes := None |}.
Definition setPoolMetadata (p : t) (poolMetadata : PoolMetadata.t) : t :=
  {| operator := operator p; vrfKeyHash := vrfKeyHash p; pledge := pledge p; cost := cost p; margin := margin p;
     rewardAccount := rewardAccount p; poolOwners := poolOwners p; relays := relays p; poolMetadata := Some poolMetadata; originalBytes := None |}.
End PoolParams.
