(* ===== verification/Certificates.v ===== *)
(** * Certificates

    Models [packages/core/src/Serialization/Certificates]: the class
    [Certificate], the nineteen classes it wraps, [DRep] and the two kinds of
    [MoveInstantaneousReward].

    Every class is a module with the record of its fields and of the blob it was
    decoded from ([#originalBytes]), its operations and its setters.  A
    [Certificate] holds one wrapped certificate, its kind says which: an
    inductive type.  The accessors ([asStakeRegistration], ...) return the
    wrapped object itself, so its setters change it inside the wrapper; they
    reset its own blob only. *)

From S2P Require Import Prelude JsRuntime CborCommon CborWriter CborReader Codec Credential Address Identifiers Records Common Pools.

Module CertificateKind.
Definition StakeRegistration : Z := 0.
Definition StakeDeregistration : Z := 1.
Definition StakeDelegation : Z := 2.
Definition PoolRegistration : Z := 3.
Definition PoolRetirement : Z := 4.
Definition GenesisKeyDelegation : Z := 5.
Definition MoveInstantaneousRewards : Z := 6.
Definition Registration : Z := 7.
Definition Unregistration : Z := 8.
Definition VoteDelegation : Z := 9.
Definition StakeVoteDelegation : Z := 10.
Definition StakeRegistrationDelegation : Z := 11.
Definition VoteRegistrationDelegation : Z := 12.
Definition StakeVoteRegistrationDelegation : Z := 13.
Definition AuthCommitteeHot : Z := 14.
Definition ResignCommitteeCold : Z := 15.
Definition DrepRegistration : Z := 16.
Definition DrepUnregistration : Z := 17.
Definition UpdateDrep : Z := 18.
End CertificateKind.

(** ** Core types *)

(** [Cardano.DelegateRepresentative] *)
Inductive DelegateRepresentative : Set :=
  | DRepCredential (c : Credential)
  | AlwaysAbstain
  | AlwaysNoConfidence.

Inductive MirCertificatePot : Set := Reserves | Treasury.
Inductive MirCertificateKind : Set := ToOtherPot | ToStakeCreds.

#[export] Instance MirCertificatePot_eq_dec : EqDecision MirCertificatePot.
Proof. solve_decision. Defined.

(** [Cardano.Certificate]: a constructor for every [__typename]. *)
Inductive CoreCertificate : Set :=
  | StakeRegistrationCertificate (stakeCredential : Credential)
  | StakeDeregistrationCertificate (stakeCredential : Credential)
  | StakeDelegationCertificate (stakeCredential : Credential) (poolId : string)
  | PoolRegistrationCertificate (poolParameters : PoolParameters.t)
  | PoolRetirementCertificate (poolId : string) (epoch : Z)
  | GenesisKeyDelegationCertificate (genesisHash genesisDelegateHash vrfKeyHash : string)
  | MirCertificate (kind : MirCertificateKind) (stakeCredential : option Credential) (quantity : Z) (pot : MirCertificatePot)
  | RegistrationCertificate (stakeCredential : Credential) (deposit : Z)
  | UnRegistrationCertificate (stakeCredential : Credential) (deposit : Z)
  | VoteDelegationCertificate (stakeCredential : Credential) (dRep : DelegateRepresentative)
  | StakeVoteDelegationCertificate (stakeCredential : Credential) (poolId : string) (dRep : DelegateRepresentative)
  | StakeRegistrationDelegateCertificate (stakeCredential : Credential) (poolId : string) (deposit : Z)
  | VoteRegistrationDelegateCertificate (stakeCredential : Credential) (dRep : DelegateRepresentative) (deposit : Z)
  | StakeVoteRegistrationDelegateCertificate (stakeCredential : Credential) (poolId : string) (dRep : DelegateRepresentative) (deposit : Z)
  | AuthorizeCommitteeHotCertificate (coldCredential hotCredential : Credential)
  | ResignCommitteeColdCertificate (coldCredential : Credential) (anchor : option Anchor.core)
  | RegisterDelegateRepresentativeCertificate (dRepCredential : Credential) (deposit : Z) (anchor : option Anchor.core)
  | UnregisterDelegateRepresentativeCertificate (dRepCredential : Credential) (deposit : Z)
  | UpdateDelegateRepresentativeCertificate (dRepCredential : Credential) (anchor : option Anchor.core).

(** ** Shared steps *)

(** The check of the kind after the length. *)
Definition expectKind (expected : Z) : Dec unit :=
  kind ← readNumber;
  st_guard (negb (kind =? expected))
    (InvalidArgumentError "cbor" ("Expected certificate kind " +:+ pretty expected +:+ ", but got " +:+ pretty kind)).

(** [writer.writeStartArray(size); writer.writeInt(kind); ...] *)
Definition writeGroup (size kind : Z) (fields : Enc unit) : Enc unit :=
  call (CborWriter.writeStartArray (Some size)) ;;
  call (CborWriter.writeInt kind) ;;
  fields.

(** [this.#anchor ? writer.writeEncodedValue(...) : writer.writeNull()] *)
Definition writeAnchor (anchor : option Anchor.t) : Enc unit := writeNullable (fun a => writeEncoded (Anchor.toCbor a)) anchor.
Definition readAnchor : Dec (option Anchor.t) := readNullable (readNested Anchor.fromCbor).

(** [cert.anchor ? Anchor.fromCore(cert.anchor) : undefined] *)
Definition anchorFromCore (anchor : option Anchor.core) : Res (option Anchor.t) :=
  match anchor with Some a => x ← Anchor.fromCore a; Ok (Some x) | None => Ok None end.

(** ** Delegated representatives *)

Module DRepKind.
Definition KeyHash : Z := 0.
Definition ScriptHash : Z := 1.
Definition Abstain : Z := 2.
Definition NoConfidence : Z := 3.
End DRepKind.

Module DRep.
Record t : Set := { kind : Z; credential : option Credential; originalBytes : option HexBlob }.

Definition newKeyHash (keyHash : string) : t :=
  {| kind := DRepKind.KeyHash; credential := Some {| hash := keyHash; Credential.type := CredentialType.KeyHash |}; originalBytes := None |}.
Definition newScriptHash (scriptHash : string) : t :=
  {| kind := DRepKind.ScriptHash; credential := Some {| hash := scriptHash; Credential.type := CredentialType.ScriptHash |}; originalBytes := None |}.
Definition newAlwaysAbstain : t := {| kind := DRepKind.Abstain; credential := None; originalBytes := None |}.
Definition newAlwaysNoConfidence : t := {| kind := DRepKind.NoConfidence; credential := None; originalBytes := None |}.

Definition isCredentialKind (kind : Z) : bool := (kind =? DRepKind.KeyHash) || (kind =? DRepKind.ScriptHash).

Definition toCbor (d : t) : Res HexBlob := cached (originalBytes d) (
  if isCredentialKind (kind d) then
    c ← required (credential d);
    encode (
      call (CborWriter.writeStartArray (Some 2)) ;;
      call (CborWriter.writeInt (Credential.type c)) ;;
      call (CborWriter.writeByteString (Buffer_from_hex (hash c))))
  else
    encode (
      call (CborWriter.writeStartArray (Some 1)) ;;
      call (CborWriter.writeInt (kind d)))).

(** A decoded object does not remember its blob. *)
Definition fromCbor (cbor : HexBlob) : Res t := decode (
  call CborReader.readStartArray ;;
  kind ← readNumber;
  if isCredentialKind kind then
    hash ← readHash 56;
    mret (if kind =? DRepKind.KeyHash then newKeyHash hash else newScriptHash hash)
  else
    call CborReader.readEndArray ;;
    if kind =? DRepKind.Abstain then mret newAlwaysAbstain
    else if kind =? DRepKind.NoConfidence then mret newAlwaysNoConfidence
    else st_throw (InvalidStateError ("Unexpected kind value: " +:+ pretty kind))) cbor.

Definition toCore (d : t) : Res DelegateRepresentative :=
  if isCredentialKind (kind d) then c ← required (credential d); Ok (DRepCredential c)
  else if kind d =? DRepKind.Abstain then Ok AlwaysAbstain
  else Ok AlwaysNoConfidence.

Definition fromCore (d : DelegateRepresentative) : t :=
  match d with
  | AlwaysAbstain => newAlwaysAbstain
  | AlwaysNoConfidence => newAlwaysNoConfidence
  | DRepCredential c => if Credential.type c =? CredentialType.KeyHash then newKeyHash (hash c) else newScriptHash (hash c)
  end.

Definition toKeyHash (d : t) : option string := if negb (kind d =? DRepKind.KeyHash) then None else hash <$> credential d.
Definition toScriptHash (d : t) : option string := if negb (kind d =? DRepKind.ScriptHash) then None else hash <$> credential d.
End DRep.

(** ** The wrapped certificates *)

Module StakeRegistration.
Record t : Set := { credential : Credential; originalBytes : option HexBlob }.

Definition toCbor (c : t) : Res HexBlob := cached (originalBytes c) (encode (writeGroup 2 CertificateKind.StakeRegistration (
  writeCredential (credential c)))).

Definition fromCbor (cbor : HexBlob) : Res t := decode (
  length ← call CborReader.readStartArray;
  expectLength 2 2 length ;;
  expectKind CertificateKind.StakeRegistration ;;
  credential ← readCredential length;
  call CborReader.readEndArray ;;
  mret {| credential := credential; originalBytes := Some cbor |}) cbor.

Definition toCore (c : t) : Res CoreCertificate :=
  Ok (StakeRegistrationCertificate (credential c)).

Definition fromCore (stakeCredential : Credential) : Res t :=
  Ok {| credential := stakeCredential; originalBytes := None |}.

Definition setStakeCredential (c : t) (credential : Credential) : t :=
  {| credential := credential; originalBytes := None |}.
End StakeRegistration.

Module StakeDeregistration.
Record t : Set := { credential : Credential; originalBytes : option HexBlob }.

Definition toCbor (c : t) : Res HexBlob := cached (originalBytes c) (encode (writeGroup 2 CertificateKind.StakeDeregistration (
  writeCredential (credential c)))).

Definition fromCbor (cbor : HexBlob) : Res t := decode (
  length ← call CborReader.readStartArray;
  expectLength 2 2 length ;;
  expectKind CertificateKind.StakeDeregistration ;;
  credential ← readCredential length;
  call CborReader.readEndArray ;;
  mret {| credential := credential; originalBytes := Some cbor |}) cbor.

Definition toCore (c : t) : Res CoreCertificate :=
  Ok (StakeDeregistrationCertificate (credential c)).

Definition fromCore (stakeCredential : Credential) : Res t :=
  Ok {| credential := stakeCredential; originalBytes := None |}.

Definition setStakeCredential (c : t) (credential : Credential) : t :=
  {| credential := credential; originalBytes := None |}.
End StakeDeregistration.

Module StakeDelegation.
Record t : Set := { credential : Credential; poolKeyHash : string; originalBytes : option HexBlob }.

Definition toCbor (c : t) : Res HexBlob := cached (originalBytes c) (encode (writeGroup 3 CertificateKind.StakeDelegation (
  writeCredential (credential c) ;;
  call (CborWriter.writeByteString (Buffer_from_hex (poolKeyHash c)))))).

Definition fromCbor (cbor : HexBlob) : Res t := decode (
  length ← call CborReader.readStartArray;
  expectLength 3 3 length ;;
  expectKind CertificateKind.StakeDelegation ;;
  credential ← readCredential length;
  poolKeyHash ← readHash 56;
  call CborReader.readEndArray ;;
  mret {| credential := credential; poolKeyHash := poolKeyHash; originalBytes := Some cbor |}) cbor.

Definition toCore `{Bech32} (c : t) : Res CoreCertificate :=
  poolId ← PoolId.fromKeyHash (poolKeyHash c); Ok (StakeDelegationCertificate (credential c) poolId).

Definition fromCore `{BaseEncoding} (stakeCredential : Credential) (poolId : string) : Res t :=
  poolKeyHash ← PoolId.toKeyHash poolId; Ok {| credential := stakeCredential; poolKeyHash := poolKeyHash; originalBytes := None |}.

Definition setStakeCredential (c : t) (credential : Credential) : t :=
  {| credential := credential; poolKeyHash := poolKeyHash c; originalBytes := None |}.
Definition setPoolKeyHash (c : t) (poolKeyHash : string) : t :=
  {| credential := credential c; poolKeyHash := poolKeyHash; originalBytes := None |}.
End StakeDelegation.

Module PoolRetirement.
Record t : Set := { poolKeyHash : string; epoch : Z; originalBytes : option HexBlob }.

Definition toCbor (c : t) : Res HexBlob := cached (originalBytes c) (encode (writeGroup 3 CertificateKind.PoolRetirement (
  call (CborWriter.writeByteString (Buffer_from_hex (poolKeyHash c))) ;;
  call (CborWriter.writeInt (epoch c))))).

Definition fromCbor (cbor : HexBlob) : Res t := decode (
  length ← call CborReader.readStartArray;
  expectLength 3 3 length ;;
  expectKind CertificateKind.PoolRetirement ;;
  poolKeyHash ← readHash 56;
  epoch ← readNumber;
  call CborReader.readEndArray ;;
  mret {| poolKeyHash := poolKeyHash; epoch := epoch; originalBytes := Some cbor |}) cbor.

Definition toCore `{Bech32} (c : t) : Res CoreCertificate :=
  poolId ← PoolId.fromKeyHash (poolKeyHash c); Ok (PoolRetirementCertificate poolId (epoch c)).

Definition fromCore `{BaseEncoding} (poolId : string) (epoch : Z) : Res t :=
  poolKeyHash ← PoolId.toKeyHash poolId; Ok {| poolKeyHash := poolKeyHash; epoch := epoch; originalBytes := None |}.

Definition setPoolKeyHash (c : t) (poolKeyHash : string) : t :=
  {| poolKeyHash := poolKeyHash; epoch := epoch c; originalBytes := None |}.
Definition setEpoch (c : t) (epoch : Z) : t :=
  {| poolKeyHash := poolKeyHash c; epoch := epoch; originalBytes := None |}.
End PoolRetirement.

Module GenesisKeyDelegation.
Record t : Set := { genesisHash : string; genesisDelegateHash : string; vrfKeyHash : string; originalBytes : option HexBlob }.

Definition toCbor (c : t) : Res HexBlob := cached (originalBytes c) (encode (writeGroup 4 CertificateKind.GenesisKeyDelegation (
  call (CborWriter.writeByteString (Buffer_from_hex (genesisHash c))) ;;
  call (CborWriter.writeByteString (Buffer_from_hex (genesisDelegateHash c))) ;;
  call (CborWriter.writeByteString (Buffer_from_hex (vrfKeyHash c)))))).

Definition fromCbor (cbor : HexBlob) : Res t := decode (
  length ← call CborReader.readStartArray;
  expectLength 4 4 length ;;
  expectKind CertificateKind.GenesisKeyDelegation ;;
  genesisHash ← readHash 56;
  genesisDelegateHash ← readHash 56;
  vrfKeyHash ← readHash 64;
  call CborReader.readEndArray ;;
  mret {| genesisHash := genesisHash; genesisDelegateHash := genesisDelegateHash; vrfKeyHash := vrfKeyHash; originalBytes := Some cbor |}) cbor.

Definition toCore (c : t) : Res CoreCertificate :=
  Ok (GenesisKeyDelegationCertificate (genesisHash c) (genesisDelegateHash c) (vrfKeyHash c)).

Definition fromCore (genesisHash : string) (genesisDelegateHash : string) (vrfKeyHash : string) : Res t :=
  Ok {| genesisHash := genesisHash; genesisDelegateHash := genesisDelegateHash; vrfKeyHash := vrfKeyHash; originalBytes := None |}.

Definition setGenesisHash (c : t) (genesisHash : string) : t :=
  {| genesisHash := genesisHash; genesisDelegateHash := genesisDelegateHash c; vrfKeyHash := vrfKeyHash c; originalBytes := None |}.
Definition setGenesisDelegateHash (c : t) (genesisDelegateHash : string) : t :=
  {| genesisHash := genesisHash c; genesisDelegateHash := genesisDelegateHash; vrfKeyHash := vrfKeyHash c; originalBytes := None |}.
Definition setVrfKeyHash (c : t) (vrfKeyHash : string) : t :=
  {| genesisHash := genesisHash c; genesisDelegateHash := genesisDelegateHash c; vrfKeyHash := vrfKeyHash; originalBytes := None |}.
End GenesisKeyDelegation.

Module Registration.
Record t : Set := { credential : Credential; deposit : Z; originalBytes : option HexBlob }.

Definition toCbor (c : t) : Res HexBlob := cached (originalBytes c) (encode (writeGroup 3 CertificateKind.Registration (
  writeCredential (credential c) ;;
  call (CborWriter.writeInt (deposit c))))).

Definition fromCbor (cbor : HexBlob) : Res t := decode (
  length ← call CborReader.readStartArray;
  expectLength 3 3 length ;;
  expectKind CertificateKind.Registration ;;
  credential ← readCredential length;
  deposit ← call CborReader.readInt;
  call CborReader.readEndArray ;;
  mret {| credential := credential; deposit := deposit; originalBytes := Some cbor |}) cbor.

Definition toCore (c : t) : Res CoreCertificate :=
  Ok (RegistrationCertificate (credential c) (deposit c)).

Definition fromCore (stakeCredential : Credential) (deposit : Z) : Res t :=
  Ok {| credential := stakeCredential; deposit := deposit; originalBytes := None |}.

Definition setStakeCredential (c : t) (credential : Credential) : t :=
  {| credential := credential; deposit := deposit c; originalBytes := None |}.
Definition setDeposit (c : t) (deposit : Z) : t :=
  {| credential := credential c; deposit := deposit; originalBytes := None |}.
End Registration.

Module Unregistration.
Record t : Set := { credential : Credential; deposit : Z; originalBytes : option HexBlob }.

Definition toCbor (c : t) : Res HexBlob := cached (originalBytes c) (encode (writeGroup 3 CertificateKind.Unregistration (
  writeCredential (credential c) ;;
  call (CborWriter.writeInt (deposit c))))).

Definition fromCbor (cbor : HexBlob) : Res t := decode (
  length ← call CborReader.readStartArray;
  expectLength 3 3 length ;;
  expectKind CertificateKind.Unregistration ;;
  credential ← readCredential length;
  deposit ← call CborReader.readInt;
  call CborReader.readEndArray ;;
  mret {| credential := credential; deposit := deposit; originalBytes := Some cbor |}) cbor.

Definition toCore (c : t) : Res CoreCertificate :=
  Ok (UnRegistrationCertificate (credential c) (deposit c)).

Definition fromCore (stakeCredential : Credential) (deposit : Z) : Res t :=
  Ok {| credential := stakeCredential; deposit := deposit; originalBytes := None |}.

Definition setStakeCredential (c : t) (credential : Credential) : t :=
  {| credential := credential; deposit := deposit c; originalBytes := None |}.
Definition setDeposit (c : t) (deposit : Z) : t :=
  {| credential := credential c; deposit := deposit; originalBytes := None |}.
End Unregistration.

Module VoteDelegation.
Record t : Set := { credential : Credential; dRep : DRep.t; originalBytes : option HexBlob }.

Definition toCbor (c : t) : Res HexBlob := cached (originalBytes c) (encode (writeGroup 3 CertificateKind.VoteDelegation (
  writeCredential (credential c) ;;
  writeEncoded (DRep.toCbor (dRep c))))).

Definition fromCbor (cbor : HexBlob) : Res t := decode (
  length ← call CborReader.readStartArray;
  expectLength 3 3 length ;;
  expectKind CertificateKind.VoteDelegation ;;
  credential ← readCredential length;
  dRep ← readNested DRep.fromCbor;
  call CborReader.readEndArray ;;
  mret {| credential := credential; dRep := dRep; originalBytes := Some cbor |}) cbor.

Definition toCore (c : t) : Res CoreCertificate :=
  dRep ← DRep.toCore (dRep c); Ok (VoteDelegationCertificate (credential c) dRep).

Definition fromCore (stakeCredential : Credential) (dRep : DelegateRepresentative) : Res t :=
  Ok {| credential := stakeCredential; dRep := DRep.fromCore dRep; originalBytes := None |}.
End VoteDelegation.

Module StakeVoteDelegation.
Record t : Set := { credential : Credential; poolKeyHash : string; dRep : DRep.t; originalBytes : option HexBlob }.

Definition toCbor (c : t) : Res HexBlob := cached (originalBytes c) (encode (writeGroup 4 CertificateKind.StakeVoteDelegation (
  writeCredential (credential c) ;;
  call (CborWriter.writeByteString (Buffer_from_hex (poolKeyHash c))) ;;
  writeEncoded (DRep.toCbor (dRep c))))).

Definition fromCbor (cbor : HexBlob) : Res t := decode (
  length ← call CborReader.readStartArray;
  expectLength 4 4 length ;;
  expectKind CertificateKind.StakeVoteDelegation ;;
  credential ← readCredential length;
  poolKeyHash ← readHash 56;
  dRep ← readNested DRep.fromCbor;
  call CborReader.readEndArray ;;
  mret {| credential := credential; poolKeyHash := poolKeyHash; dRep := dRep; originalBytes := Some cbor |}) cbor.

Definition toCore `{Bech32} (c : t) : Res CoreCertificate :=
  dRep ← DRep.toCore (dRep c); poolId ← PoolId.fromKeyHash (poolKeyHash c); Ok (StakeVoteDelegationCertificate (credential c) poolId dRep).

Definition fromCore `{BaseEncoding} (stakeCredential : Credential) (poolId : string) (dRep : DelegateRepresentative) : Res t :=
  poolKeyHash ← PoolId.toKeyHash poolId; Ok {| credential := stakeCredential; poolKeyHash := poolKeyHash; dRep := DRep.fromCore dRep; originalBytes := None |}.
End StakeVoteDelegation.

Module StakeRegistrationDelegation.
Record t : Set := { credential : Credential; poolKeyHash : string; deposit : Z; originalBytes : option HexBlob }.

Definition toCbor (c : t) : Res HexBlob := cached (originalBytes c) (encode (writeGroup 4 CertificateKind.StakeRegistrationDelegation (
  writeCredential (credential c) ;;
  call (CborWriter.writeByteString (Buffer_from_hex (poolKeyHash c))) ;;
  call (CborWriter.writeInt (deposit c))))).

Definition fromCbor (cbor : HexBlob) : Res t := decode (
  length ← call CborReader.readStartArray;
  expectLength 4 4 length ;;
  expectKind CertificateKind.StakeRegistrationDelegation ;;
  credential ← readCredential length;
  poolKeyHash ← readHash 56;
  deposit ← call CborReader.readInt;
  call CborReader.readEndArray ;;
  mret {| credential := credential; poolKeyHash := poolKeyHash; deposit := deposit; originalBytes := Some cbor |}) cbor.

Definition toCore `{Bech32} (c : t) : Res CoreCertificate :=
  poolId ← PoolId.fromKeyHash (poolKeyHash c); Ok (StakeRegistrationDelegateCertificate (credential c) poolId (deposit c)).

Definition fromCore `{BaseEncoding} (stakeCredential : Credential) (poolId : string) (deposit : Z) : Res t :=
  poolKeyHash ← PoolId.toKeyHash poolId; Ok {| credential := stakeCredential; poolKeyHash := poolKeyHash; deposit := deposit; originalBytes := None |}.
End StakeRegistrationDelegation.

Module VoteRegistrationDelegation.
Record t : Set := { credential : Credential; dRep : DRep.t; deposit : Z; originalBytes : option HexBlob }.

Definition toCbor (c : t) : Res HexBlob := cached (originalBytes c) (encode (writeGroup 4 CertificateKind.VoteRegistrationDelegation (
  writeCredential (credential c) ;;
  writeEncoded (DRep.toCbor (dRep c)) ;;
  call (CborWriter.writeInt (deposit c))))).

Definition fromCbor (cbor : HexBlob) : Res t := decode (
  length ← call CborReader.readStartArray;
  expectLength 4 4 length ;;
  expectKind CertificateKind.VoteRegistrationDelegation ;;
  credential ← readCredential length;
  dRep ← readNested DRep.fromCbor;
  deposit ← call CborReader.readInt;
  call CborReader.readEndArray ;;
  mret {| credential := credential; dRep := dRep; deposit := deposit; originalBytes := Some cbor |}) cbor.

Definition toCore (c : t) : Res CoreCertificate :=
  dRep ← DRep.toCore (dRep c); Ok (VoteRegistrationDelegateCertificate (credential c) dRep (deposit c)).

Definition fromCore (stakeCredential : Credential) (dRep : DelegateRepresentative) (deposit : Z) : Res t :=
  Ok {| credential := stakeCredential; dRep := DRep.fromCore dRep; deposit := deposit; originalBytes := None |}.
End VoteRegistrationDelegation.

Module StakeVoteRegistrationDelegation.
Record t : Set := { credential : Credential; poolKeyHash : string; dRep : DRep.t; deposit : Z; originalBytes : option HexBlob }.

Definition toCbor (c : t) : Res HexBlob := cached (originalBytes c) (encode (writeGroup 5 CertificateKind.StakeVoteRegistrationDelegation (
  writeCredential (credential c) ;;
  call (CborWriter.writeByteString (Buffer_from_hex (poolKeyHash c))) ;;
  writeEncoded (DRep.toCbor (dRep c)) ;;
  call (CborWriter.writeInt (deposit c))))).

Definition fromCbor (cbor : HexBlob) : Res t := decode (
  length ← call CborReader.readStartArray;
  expectLength 5 5 length ;;
  expectKind CertificateKind.StakeVoteRegistrationDelegation ;;
  credential ← readCredential length;
  poolKeyHash ← readHash 56;
  dRep ← readNested DRep.fromCbor;
  deposit ← call CborReader.readInt;
  call CborReader.readEndArray ;;
  mret {| credential := credential; poolKeyHash := poolKeyHash; dRep := dRep; deposit := deposit; originalBytes := Some cbor |}) cbor.

Definition toCore `{Bech32} (c : t) : Res CoreCertificate :=
  dRep ← DRep.toCore (dRep c); poolId ← PoolId.fromKeyHash (poolKeyHash c); Ok (StakeVoteRegistrationDelegateCertificate (credential c) poolId dRep (deposit c)).

Definition fromCore `{BaseEncoding} (stakeCredential : Credential) (poolId : string) (dRep : DelegateRepresentative) (deposit : Z) : Res t :=
  poolKeyHash ← PoolId.toKeyHash poolId; Ok {| credential := stakeCredential; poolKeyHash := poolKeyHash; dRep := DRep.fromCore dRep; deposit := deposit; originalBytes := None |}.
End StakeVoteRegistrationDelegation.

Module AuthCommitteeHot.
Record t : Set := { committeeColdCred : Credential; committeeHotCred : Credential; originalBytes : option HexBlob }.

Definition toCbor (c : t) : Res HexBlob := cached (originalBytes c) (encode (writeGroup 3 CertificateKind.AuthCommitteeHot (
  writeCredential (committeeColdCred c) ;;
  writeCredential (committeeHotCred c)))).

Definition fromCbor (cbor : HexBlob) : Res t := decode (
  length ← call CborReader.readStartArray;
  expectLength 3 3 length ;;
  expectKind CertificateKind.AuthCommitteeHot ;;
  committeeColdCred ← readCredential length;
  committeeHotCred ← readCredential length;
  call CborReader.readEndArray ;;
  mret {| committeeColdCred := committeeColdCred; committeeHotCred := committeeHotCred; originalBytes := Some cbor |}) cbor.

Definition toCore (c : t) : Res CoreCertificate :=
  Ok (AuthorizeCommitteeHotCertificate (committeeColdCred c) (committeeHotCred c)).

Definition fromCore (coldCredential : Credential) (hotCredential : Credential) : Res t :=
  Ok {| committeeColdCred := coldCredential; committeeHotCred := hotCredential; originalBytes := None |}.
End AuthCommitteeHot.

Module ResignCommitteeCold.
Record t : Set := { committeeColdCred : Credential; anchor : option Anchor.t; originalBytes : option HexBlob }.

Definition toCbor (c : t) : Res HexBlob := cached (originalBytes c) (encode (writeGroup 3 CertificateKind.ResignCommitteeCold (
  writeCredential (committeeColdCred c) ;;
  writeAnchor (anchor c)))).

Definition fromCbor (cbor : HexBlob) : Res t := decode (
  length ← call CborReader.readStartArray;
  expectLength 3 3 length ;;
  expectKind CertificateKind.ResignCommitteeCold ;;
  committeeColdCred ← readCredential length;
  anchor ← readAnchor;
  call CborReader.readEndArray ;;
  mret {| committeeColdCred := committeeColdCred; anchor := anchor; originalBytes := Some cbor |}) cbor.

Definition toCore (c : t) : Res CoreCertificate :=
  Ok (ResignCommitteeColdCertificate (committeeColdCred c) (Anchor.toCore <$> anchor c)).

Definition fromCore (coldCredential : Credential) (anchor : option Anchor.core) : Res t :=
  anchor ← anchorFromCore anchor; Ok {| committeeColdCred := coldCredential; anchor := anchor; originalBytes := None |}.
End ResignCommitteeCold.

Module RegisterDelegateRepresentative.
Record t : Set := { drepCredential : Credential; deposit : Z; anchor : option Anchor.t; originalBytes : option HexBlob }.

Definition toCbor (c : t) : Res HexBlob := cached (originalBytes c) (encode (writeGroup 4 CertificateKind.DrepRegistration (
  writeCredential (drepCredential c) ;;
  call (CborWriter.writeInt (deposit c)) ;;
  writeAnchor (anchor c)))).

Definition fromCbor (cbor : HexBlob) : Res t := decode (
  length ← call CborReader.readStartArray;
  expectLength 4 4 length ;;
  expectKind CertificateKind.DrepRegistration ;;
  drepCredential ← readCredential length;
  deposit ← call CborReader.readInt;
  anchor ← readAnchor;
  call CborReader.readEndArray ;;
  mret {| drepCredential := drepCredential; deposit := deposit; anchor := anchor; originalBytes := Some cbor |}) cbor.

Definition toCore (c : t) : Res CoreCertificate :=
  Ok (RegisterDelegateRepresentativeCertificate (drepCredential c) (deposit c) (Anchor.toCore <$> anchor c)).

Definition fromCore (dRepCredential : Credential) (deposit : Z) (anchor : option Anchor.core) : Res t :=
  anchor ← anchorFromCore anchor; Ok {| drepCredential := dRepCredential; deposit := deposit; anchor := anchor; originalBytes := None |}.
End RegisterDelegateRepresentative.

Module UnregisterDelegateRepresentative.
Record t : Set := { drepCredential : Credential; deposit : Z; originalBytes : option HexBlob }.

Definition toCbor (c : t) : Res HexBlob := cached (originalBytes c) (encode (writeGroup 3 CertificateKind.DrepUnregistration (
  writeCredential (drepCredential c) ;;
  call (CborWriter.writeInt (deposit c))))).

Definition fromCbor (cbor : HexBlob) : Res t := decode (
  length ← call CborReader.readStartArray;
  expectLength 3 3 length ;;
  expectKind CertificateKind.DrepUnregistration ;;
  drepCredential ← readCredential length;
  deposit ← call CborReader.readInt;
  call CborReader.readEndArray ;;
  mret {| drepCredential := drepCredential; deposit := deposit; originalBytes := Some cbor |}) cbor.

Definition toCore (c : t) : Res CoreCertificate :=
  Ok (UnregisterDelegateRepresentativeCertificate (drepCredential c) (deposit c)).

Definition fromCore (dRepCredential : Credential) (deposit : Z) : Res t :=
  Ok {| drepCredential := dRepCredential; deposit := deposit; originalBytes := None |}.
End UnregisterDelegateRepresentative.

Module UpdateDelegateRepresentative.
Record t : Set := { drepCredential : Credential; anchor : option Anchor.t; originalBytes : option HexBlob }.

Definition toCbor (c : t) : Res HexBlob := cached (originalBytes c) (encode (writeGroup 3 CertificateKind.UpdateDrep (
  writeCredential (drepCredential c) ;;
  writeAnchor (anchor c)))).

Definition fromCbor (cbor : HexBlob) : Res t := decode (
  length ← call CborReader.readStartArray;
  expectLength 3 2 length ;;
  expectKind CertificateKind.UpdateDrep ;;
  drepCredential ← readCredential length;
  anchor ← readAnchor;
  call CborReader.readEndArray ;;
  mret {| drepCredential := drepCredential; anchor := anchor; originalBytes := Some cbor |}) cbor.

Definition toCore (c : t) : Res CoreCertificate :=
  Ok (UpdateDelegateRepresentativeCertificate (drepCredential c) (Anchor.toCore <$> anchor c)).

Definition fromCore (dRepCredential : Credential) (anchor : option Anchor.core) : Res t :=
  anchor ← anchorFromCore anchor; Ok {| drepCredential := dRepCredential; anchor := anchor; originalBytes := None |}.
End UpdateDelegateRepresentative.

Module PoolRegistration.
Record t : Type := { params : PoolParams.t; originalBytes : option HexBlob }.

Definition EMBEDDED_GROUP_SIZE : Z := PoolParams.subgroupCount + 1.

Section impl.
Context `{Era} `{Crc32} `{BaseEncoding} `{Bech32} `{IpAddress}.

Definition toCbor (c : t) : Res HexBlob := cached (originalBytes c) (encode (writeGroup EMBEDDED_GROUP_SIZE CertificateKind.PoolRegistration (
  PoolParams.writeFlattened (params c)))).

Definition fromCbor (cbor : HexBlob) : Res t := decode (
  length ← call CborReader.readStartArray;
  expectLength EMBEDDED_GROUP_SIZE EMBEDDED_GROUP_SIZE length ;;
  expectKind CertificateKind.PoolRegistration ;;
  params ← PoolParams.fromFlattenedCbor;
  call CborReader.readEndArray ;;
  mret {| params := params; originalBytes := Some cbor |}) cbor.

Definition toCore (c : t) : Res CoreCertificate :=
  p ← PoolParams.toCore (params c); Ok (PoolRegistrationCertificate p).

Definition fromCore (poolParameters : PoolParameters.t) : Res t :=
  p ← PoolParams.fromCore poolParameters; Ok {| params := p; originalBytes := None |}.
End impl.

Definition setPoolParameters (c : t) (parameters : PoolParams.t) : t := {| params := parameters; originalBytes := None |}.
End PoolRegistration.

(** ** Instantaneous rewards *)

(** [this.#pot === MirCertificatePot.Reserves ? 0 : 1] *)
Definition potNumber (pot : MirCertificatePot) : Z := if bool_decide (pot = Reserves) then 0 else 1.

(** [pot === 0 ? MirCertificatePot.Reserves : MirCertificatePot.Treasury] *)
Definition potOf (pot : Z) : MirCertificatePot := if pot =? 0 then Reserves else Treasury.

(** The check of the length in both kinds. *)
Definition expectPair (length : option Z) : Dec unit :=
  st_guard (negb (bool_decide (length = Some 2)))
    (InvalidArgumentError "cbor" ("Expected an array of two elements, but got an array of " +:+ lengthText length +:+ " elements")).

Module MoveInstantaneousRewardToOtherPot.
Record t : Set := { pot : MirCertificatePot; amount : Z; originalBytes : option HexBlob }.

Definition toCbor (c : t) : Res HexBlob := cached (originalBytes c) (encode (
  call (CborWriter.writeStartArray (Some 2)) ;;
  call (CborWriter.writeInt (potNumber (pot c))) ;;
  call (CborWriter.writeInt (amount c)))).

Definition fromCbor (cbor : HexBlob) : Res t := decode (
  length ← call CborReader.readStartArray;
  expectPair length ;;
  pot ← readNumber;
  amount ← call CborReader.readInt;
  st_guard ((pot <? 0) || (1 <? pot)) (InvalidArgumentError "cbor" ("Expected a pot value between 0 and 1, but got " +:+ pretty pot)) ;;
  mret {| pot := potOf pot; amount := amount; originalBytes := Some cbor |}) cbor.

Definition toCore (c : t) : Res CoreCertificate := Ok (MirCertificate ToOtherPot None (amount c) (pot c)).

(** The amount of a certificate of the declared type is set. *)
Definition fromCore (kind : MirCertificateKind) (stakeCredential : option Credential) (quantity : Z) (pot : MirCertificatePot) : Res t :=
  match kind with
  | ToOtherPot => Ok {| pot := pot; amount := quantity; originalBytes := None |}
  | ToStakeCreds => Throw (InvalidArgumentError "cert" "Expected a MIR certificate kind 'ToOtherPot', but got toStakeCreds")
  end.

Definition setPot (c : t) (pot : MirCertificatePot) : t := {| pot := pot; amount := amount c; originalBytes := None |}.
Definition setAmount (c : t) (amount : Z) : t := {| pot := pot c; amount := amount; originalBytes := None |}.
End MoveInstantaneousRewardToOtherPot.

Module MoveInstantaneousRewardToStakeCreds.
(** The keys of the map are objects, compared by identity: the entries are a list. *)
Record t : Set := { pot : MirCertificatePot; credentials : list (Credential * Z); originalBytes : option HexBlob }.

(** [a > b] of two entries: an entry [[key, amount]] is converted to the text
    ['[object Object],' + amount]. *)
Definition entryText (e : Credential * Z) : string := "[object Object]," +:+ pretty (snd e).
Definition entryGreater (a b : Credential * Z) : bool := string_gt (entryText a) (entryText b).

Definition writeEntry (e : Credential * Z) : Enc unit :=
  writeCredential (fst e) ;; call (CborWriter.writeInt (snd e)).

Definition toCbor (c : t) : Res HexBlob := cached (originalBytes c) (encode (
  call (CborWriter.writeStartArray (Some 2)) ;;
  call (CborWriter.writeInt (potNumber (pot c))) ;;
  let sortedCanonically := sort_by entryGreater (credentials c) in
  call (CborWriter.writeStartMap (Some (zlen sortedCanonically))) ;;
  forEach writeEntry sortedCanonically)).

(** The body of the loop over the map. *)
Definition readEntry : Dec (Credential * Z) :=
  call CborReader.readStartArray ;;
  type ← readNumber;
  st_guard ((type <? 0) || (1 <? type))
    (InvalidArgumentError "cbor" ("Expected a credential type value between 0 and 1, but got " +:+ pretty type)) ;;
  hash ← readHash 56;
  call CborReader.readEndArray ;;
  amount ← call CborReader.readInt;
  mret ({| hash := hash; Credential.type := type |}, amount).

Definition fromCbor (cbor : HexBlob) : Res t := decode (
  length ← call CborReader.readStartArray;
  expectPair length ;;
  pot ← readNumber;
  st_guard ((pot <? 0) || (1 <? pot))
    (InvalidArgumentError "cbor" ("Expected a pot value between 0 and 1, but got an array of " +:+ pretty pot +:+ " elements")) ;;
  call CborReader.readStartMap ;;
  amounts ← readWhileNot CborReaderState.EndMap readEntry;
  call CborReader.readEndMap ;;
  mret {| pot := potOf pot; credentials := amounts; originalBytes := Some cbor |}) cbor.

Definition toCore (c : t) : Res CoreCertificate :=
  match credentials c with
  | [] => Throw (InvalidStateError "The credential map is empty.")
  | (stakeCredential, quantity) :: _ => Ok (MirCertificate ToStakeCreds (Some stakeCredential) quantity (pot c))
  end.

Definition fromCore (kind : MirCertificateKind) (stakeCredential : option Credential) (quantity : Z) (pot : MirCertificatePot) : Res t :=
  match kind, stakeCredential with
  | ToOtherPot, _ => Throw (InvalidArgumentError "cert" "Expected a MIR certificate kind 'ToStakeCreds', but got toOtherPot")
  | ToStakeCreds, None => Throw (InvalidArgumentError "cert" "stakeCredential field of the given MIR certificate is undefined")
  | ToStakeCreds, Some c => Ok {| pot := pot; credentials := [(c, quantity)]; originalBytes := None |}
  end.

Definition setPot (c : t) (pot : MirCertificatePot) : t := {| pot := pot; credentials := credentials c; originalBytes := None |}.
Definition setStakeCreds (c : t) (credentials : list (Credential * Z)) : t := {| pot := pot c; credentials := credentials; originalBytes := None |}.
End MoveInstantaneousRewardToStakeCreds.

Module MoveInstantaneousReward.
Inductive body : Set :=
  | AToOtherPot (c : MoveInstantaneousRewardToOtherPot.t)
  | AToStakeCreds (c : MoveInstantaneousRewardToStakeCreds.t).

Record t : Set := { inner : body; originalBytes : option HexBlob }.

Definition new (b : body) : t := {| inner := b; originalBytes := None |}.

Definition kind (c : t) : MirCertificateKind := match inner c with AToOtherPot _ => ToOtherPot | AToStakeCreds _ => ToStakeCreds end.

Definition expectElements (elementsCount : option Z) : Dec unit :=
  st_guard (negb (bool_decide (elementsCount = Some 2)))
    (InvalidArgumentError "cbor" ("Expected elements size 2, but got " +:+ lengthText elementsCount)).

Definition toCbor (c : t) : Res HexBlob := cached (originalBytes c) (
  cbor ← match inner c with
         | AToOtherPot c => MoveInstantaneousRewardToOtherPot.toCbor c
         | AToStakeCreds c => MoveInstantaneousRewardToStakeCreds.toCbor c
         end;
  encode (writeGroup 2 CertificateKind.MoveInstantaneousRewards (call (CborWriter.writeEncodedValue (Buffer_from_hex cbor))))).

(** What [embeddedCborReader] is used for: which of the two kinds it is. *)
Definition peekKind : Dec MirCertificateKind :=
  elementsCount ← call CborReader.readStartArray;
  expectElements elementsCount ;;
  call CborReader.readInt ;;
  state ← call CborReader.peekState;
  if bool_decide (state = CborReaderState.UnsignedInteger) then mret ToOtherPot
  else
    state ← call CborReader.peekState;
    if bool_decide (state = CborReaderState.StartArray) then mret ToStakeCreds
    else
      state ← call CborReader.peekState;
      if bool_decide (state = CborReaderState.StartMap) then mret ToStakeCreds
      else st_throw (InvalidArgumentError "cbor" "Invalid CBOR string").

Definition fromEmbedded (embeddedCbor : HexBlob) : Res body :=
  kind ← decode peekKind embeddedCbor;
  match kind with
  | ToOtherPot => c ← MoveInstantaneousRewardToOtherPot.fromCbor embeddedCbor; Ok (AToOtherPot c)
  | ToStakeCreds => c ← MoveInstantaneousRewardToStakeCreds.fromCbor embeddedCbor; Ok (AToStakeCreds c)
  end.

Definition fromCbor (cbor : HexBlob) : Res t := decode (
  elementsCount ← call CborReader.readStartArray;
  expectElements elementsCount ;;
  expectKind CertificateKind.MoveInstantaneousRewards ;;
  b ← readNested fromEmbedded;
  mret {| inner := b; originalBytes := Some cbor |}) cbor.

Definition toCore (c : t) : Res CoreCertificate :=
  match inner c with
  | AToOtherPot c => MoveInstantaneousRewardToOtherPot.toCore c
  | AToStakeCreds c => MoveInstantaneousRewardToStakeCreds.toCore c
  end.

Definition fromCore (kind : MirCertificateKind) (stakeCredential : option Credential) (quantity : Z) (pot : MirCertificatePot) : Res t :=
  match kind with
  | ToOtherPot => c ← MoveInstantaneousRewardToOtherPot.fromCore kind stakeCredential quantity pot; Ok (new (AToOtherPot c))
  | ToStakeCreds => c ← MoveInstantaneousRewardToStakeCreds.fromCore kind stakeCredential quantity pot; Ok (new (AToStakeCreds c))
  end.
End MoveInstantaneousReward.

(** ** The wrapper *)

Module Certificate.
(** The kind says which of the nineteen parts is set. *)
Inductive body : Type :=
  | AStakeRegistration (c : StakeRegistration.t)
  | AStakeDeregistration (c : StakeDeregistration.t)
  | AStakeDelegation (c : StakeDelegation.t)
  | APoolRetirement (c : PoolRetirement.t)
  | APoolRegistration (c : PoolRegistration.t)
  | AMoveInstantaneousReward (c : MoveInstantaneousReward.t)
  | AGenesisKeyDelegation (c : GenesisKeyDelegation.t)
  | ARegistration (c : Registration.t)
  | AnUnregistration (c : Unregistration.t)
  | AVoteDelegation (c : VoteDelegation.t)
  | AStakeVoteDelegation (c : StakeVoteDelegation.t)
  | AStakeRegistrationDelegation (c : StakeRegistrationDelegation.t)
  | AVoteRegistrationDelegation (c : VoteRegistrationDelegation.t)
  | AStakeVoteRegistrationDelegation (c : StakeVoteRegistrationDelegation.t)
  | AnAuthCommitteeHot (c : AuthCommitteeHot.t)
  | AResignCommitteeCold (c : ResignCommitteeCold.t)
  | ARegisterDelegateRepresentative (c : RegisterDelegateRepresentative.t)
  | AnUnregisterDelegateRepresentative (c : UnregisterDelegateRepresentative.t)
  | AnUpdateDelegateRepresentative (c : UpdateDelegateRepresentative.t).

Record t : Type := { inner : body; originalBytes : option HexBlob }.

(** [newStakeRegistration] and the others. *)
Definition new (b : body) : t := {| inner := b; originalBytes := None |}.

Definition kind (c : t) : Z :=
  match inner c with
  | AStakeRegistration _ => CertificateKind.StakeRegistration
  | AStakeDeregistration _ => CertificateKind.StakeDeregistration
  | AStakeDelegation _ => CertificateKind.StakeDelegation
  | APoolRetirement _ => CertificateKind.PoolRetirement
  | APoolRegistration _ => CertificateKind.PoolRegistration
  | AMoveInstantaneousReward _ => CertificateKind.MoveInstantaneousRewards
  | AGenesisKeyDelegation _ => CertificateKind.GenesisKeyDelegation
  | ARegistration _ => CertificateKind.Registration
  | AnUnregistration _ => CertificateKind.Unregistration
  | AVoteDelegation _ => CertificateKind.VoteDelegation
  | AStakeVoteDelegation _ => CertificateKind.StakeVoteDelegation
  | AStakeRegistrationDelegation _ => CertificateKind.StakeRegistrationDelegation
  | AVoteRegistrationDelegation _ => CertificateKind.VoteRegistrationDelegation
  | AStakeVoteRegistrationDelegation _ => CertificateKind.StakeVoteRegistrationDelegation
  | AnAuthCommitteeHot _ => CertificateKind.AuthCommitteeHot
  | AResignCommitteeCold _ => CertificateKind.ResignCommitteeCold
  | ARegisterDelegateRepresentative _ => CertificateKind.DrepRegistration
  | AnUnregisterDelegateRepresentative _ => CertificateKind.DrepUnregistration
  | AnUpdateDelegateRepresentative _ => CertificateKind.UpdateDrep
  end.

Section impl.
Context `{Era} `{Crc32} `{BaseEncoding} `{Bech32} `{IpAddress}.

Definition toCbor (c : t) : Res HexBlob := cached (originalBytes c) (
  match inner c with
  | AStakeRegistration c => StakeRegistration.toCbor c
  | AStakeDeregistration c => StakeDeregistration.toCbor c
  | AStakeDelegation c => StakeDelegation.toCbor c
  | APoolRetirement c => PoolRetirement.toCbor c
  | APoolRegistration c => PoolRegistration.toCbor c
  | AMoveInstantaneousReward c => MoveInstantaneousReward.toCbor c
  | AGenesisKeyDelegation c => GenesisKeyDelegation.toCbor c
  | ARegistration c => Registration.toCbor c
  | AnUnregistration c => Unregistration.toCbor c
  | AVoteDelegation c => VoteDelegation.toCbor c
  | AStakeVoteDelegation c => StakeVoteDelegation.toCbor c
  | AStakeRegistrationDelegation c => StakeRegistrationDelegation.toCbor c
  | AVoteRegistrationDelegation c => VoteRegistrationDelegation.toCbor c
  | AStakeVoteRegistrationDelegation c => StakeVoteRegistrationDelegation.toCbor c
  | AnAuthCommitteeHot c => AuthCommitteeHot.toCbor c
  | AResignCommitteeCold c => ResignCommitteeCold.toCbor c
  | ARegisterDelegateRepresentative c => RegisterDelegateRepresentative.toCbor c
  | AnUnregisterDelegateRepresentative c => UnregisterDelegateRepresentative.toCbor c
  | AnUpdateDelegateRepresentative c => UpdateDelegateRepresentative.toCbor c
  end).

(** The [switch] of [fromCbor]. *)
Definition fromCborKind (kind : Z) (cbor : HexBlob) : Res body :=
  if kind =? CertificateKind.StakeRegistration then c ← StakeRegistration.fromCbor cbor; Ok (AStakeRegistration c)
  else if kind =? CertificateKind.StakeDeregistration then c ← StakeDeregistration.fromCbor cbor; Ok (AStakeDeregistration c)
  else if kind =? CertificateKind.StakeDelegation then c ← StakeDelegation.fromCbor cbor; Ok (AStakeDelegation c)
  else if kind =? CertificateKind.PoolRetirement then c ← PoolRetirement.fromCbor cbor; Ok (APoolRetirement c)
  else if kind =? CertificateKind.PoolRegistration then c ← PoolRegistration.fromCbor cbor; Ok (APoolRegistration c)
  else if kind =? CertificateKind.MoveInstantaneousRewards then c ← MoveInstantaneousReward.fromCbor cbor; Ok (AMoveInstantaneousReward c)
  else if kind =? CertificateKind.GenesisKeyDelegation then c ← GenesisKeyDelegation.fromCbor cbor; Ok (AGenesisKeyDelegation c)
  else if kind =? CertificateKind.Registration then c ← Registration.fromCbor cbor; Ok (ARegistration c)
  else if kind =? CertificateKind.Unregistration then c ← Unregistration.fromCbor cbor; Ok (AnUnregistration c)
  else if kind =? CertificateKind.VoteDelegation then c ← VoteDelegation.fromCbor cbor; Ok (AVoteDelegation c)
  else if kind =? CertificateKind.StakeVoteDelegation then c ← StakeVoteDelegation.fromCbor cbor; Ok (AStakeVoteDelegation c)
  else if kind =? CertificateKind.StakeRegistrationDelegation then c ← StakeRegistrationDelegation.fromCbor cbor; Ok (AStakeRegistrationDelegation c)
  else if kind =? CertificateKind.VoteRegistrationDelegation then c ← VoteRegistrationDelegation.fromCbor cbor; Ok (AVoteRegistrationDelegation c)
  else if kind =? CertificateKind.StakeVoteRegistrationDelegation then c ← StakeVoteRegistrationDelegation.fromCbor cbor; Ok (AStakeVoteRegistrationDelegation c)
  else if kind =? CertificateKind.AuthCommitteeHot then c ← AuthCommitteeHot.fromCbor cbor; Ok (AnAuthCommitteeHot c)
  else if kind =? CertificateKind.ResignCommitteeCold then c ← ResignCommitteeCold.fromCbor cbor; Ok (AResignCommitteeCold c)
  else if kind =? CertificateKind.DrepRegistration then c ← RegisterDelegateRepresentative.fromCbor cbor; Ok (ARegisterDelegateRepresentative c)
  else if kind =? CertificateKind.DrepUnregistration then c ← UnregisterDelegateRepresentative.fromCbor cbor; Ok (AnUnregisterDelegateRepresentative c)
  else if kind =? CertificateKind.UpdateDrep then c ← UpdateDelegateRepresentative.fromCbor cbor; Ok (AnUpdateDelegateRepresentative c)
  else Throw (InvalidStateError ("Unexpected kind value: " +:+ pretty kind)).

Definition readKind : Dec Z := call CborReader.readStartArray ;; readNumber.

Definition fromCbor (cbor : HexBlob) : Res t :=
  kind ← decode readKind cbor;
  b ← fromCborKind kind cbor;
  Ok {| inner := b; originalBytes := Some cbor |}.

Definition toCore (c : t) : Res CoreCertificate :=
  match inner c with
  | AStakeRegistration c => StakeRegistration.toCore c
  | AStakeDeregistration c => StakeDeregistration.toCore c
  | AStakeDelegation c => StakeDelegation.toCore c
  | APoolRetirement c => PoolRetirement.toCore c
  | APoolRegistration c => PoolRegistration.toCore c
  | AMoveInstantaneousReward c => MoveInstantaneousReward.toCore c
  | AGenesisKeyDelegation c => GenesisKeyDelegation.toCore c
  | ARegistration c => Registration.toCore c
  | AnUnregistration c => Unregistration.toCore c
  | AVoteDelegation c => VoteDelegation.toCore c
  | AStakeVoteDelegation c => StakeVoteDelegation.toCore c
  | AStakeRegistrationDelegation c => StakeRegistrationDelegation.toCore c
  | AVoteRegistrationDelegation c => VoteRegistrationDelegation.toCore c
  | AStakeVoteRegistrationDelegation c => StakeVoteRegistrationDelegation.toCore c
  | AnAuthCommitteeHot c => AuthCommitteeHot.toCore c
  | AResignCommitteeCold c => ResignCommitteeCold.toCore c
  | ARegisterDelegateRepresentative c => RegisterDelegateRepresentative.toCore c
  | AnUnregisterDelegateRepresentative c => UnregisterDelegateRepresentative.toCore c
  | AnUpdateDelegateRepresentative c => UpdateDelegateRepresentative.toCore c
  end.

Definition fromCore (certificate : CoreCertificate) : Res t :=
  match certificate with
  | StakeRegistrationCertificate c => x ← StakeRegistration.fromCore c; Ok (new (AStakeRegistration x))
  | StakeDeregistrationCertificate c => x ← StakeDeregistration.fromCore c; Ok (new (AStakeDeregistration x))
  | StakeDelegationCertificate c p => x ← StakeDelegation.fromCore c p; Ok (new (AStakeDelegation x))
  | PoolRetirementCertificate p e => x ← PoolRetirement.fromCore p e; Ok (new (APoolRetirement x))
  | PoolRegistrationCertificate p => x ← PoolRegistration.fromCore p; Ok (new (APoolRegistration x))
  | MirCertificate k c q p => x ← MoveInstantaneousReward.fromCore k c q p; Ok (new (AMoveInstantaneousReward x))
  | GenesisKeyDelegationCertificate g d v => x ← GenesisKeyDelegation.fromCore g d v; Ok (new (AGenesisKeyDelegation x))
  | RegistrationCertificate c d => x ← Registration.fromCore c d; Ok (new (ARegistration x))
  | UnRegistrationCertificate c d => x ← Unregistration.fromCore c d; Ok (new (AnUnregistration x))
  | VoteDelegationCertificate c d => x ← VoteDelegation.fromCore c d; Ok (new (AVoteDelegation x))
  | StakeVoteDelegationCertificate c p d => x ← StakeVoteDelegation.fromCore c p d; Ok (new (AStakeVoteDelegation x))
  | StakeRegistrationDelegateCertificate c p d => x ← StakeRegistrationDelegation.fromCore c p d; Ok (new (AStakeRegistrationDelegation x))
  | VoteRegistrationDelegateCertificate c r d => x ← VoteRegistrationDelegation.fromCore c r d; Ok (new (AVoteRegistrationDelegation x))
  | StakeVoteRegistrationDelegateCertificate c p r d => x ← StakeVoteRegistrationDelegation.fromCore c p r d; Ok (new (AStakeVoteRegistrationDelegation x))
  | AuthorizeCommitteeHotCertificate c h => x ← AuthCommitteeHot.fromCore c h; Ok (new (AnAuthCommitteeHot x))
  | ResignCommitteeColdCertificate c a => x ← ResignCommitteeCold.fromCore c a; Ok (new (AResignCommitteeCold x))
  | RegisterDelegateRepresentativeCertificate c d a => x ← RegisterDelegateRepresentative.fromCore c d a; Ok (new (ARegisterDelegateRepresentative x))
  | UnregisterDelegateRepresentativeCertificate c d => x ← UnregisterDelegateRepresentative.fromCore c d; Ok (new (AnUnregisterDelegateRepresentative x))
  | UpdateDelegateRepresentativeCertificate c a => x ← UpdateDelegateRepresentative.fromCore c a; Ok (new (AnUpdateDelegateRepresentative x))
  end.
End impl.

(** A setter applied to the wrapped certificate, which the accessors give: the
    wrapper keeps the blob it was decoded from. *)
Definition modify (f : body -> body) (c : t) : t := {| inner := f (inner c); originalBytes := originalBytes c |}.
End Certificate.
