(* ===== verification/CertificateFacts.v ===== *)
(** * Certificates keep their promises

    The specified encoding of every certificate of the ledger's CDDL, that the
    nineteen classes write and read it, and what each of them accepts of any
    input. *)
From S2P Require Import Prelude JsRuntime Utf8 CborCommon Half CborWriter CborReader CborMachine CborExact CborSkip CborDocuments Codec CodecFacts Credential Address BaseEncodingRef AddressFacts AddressText Identifiers Records IdentifierTheorems Common Serializable CommonFacts Pools Certificates.

(** ** The parameters of pools keep their promises

    The specified encodings of relays, metadata and pool parameters, and that
    they implement the interface of [Serializable.v]. *)

Import CborReader CborWriterFacts.

(** ** Metadata *)

Definition metadataFields (m : PoolMetadata.core) : list (list Z) := [textBytes (PoolMetadata.coreUrl m); blobBytes (PoolMetadata.coreHash m)].
Definition isMetadata (m : PoolMetadata.core) : bool := isText 64 (PoolMetadata.coreUrl m) && isHash 64 (PoolMetadata.coreHash m).

#[export] Instance metadata_serializable : Serializable PoolMetadata.core PoolMetadata.t := {
  toCbor_of := PoolMetadata.toCbor;
  fromCbor_of := PoolMetadata.fromCbor;
  toCore_of m := Ok (PoolMetadata.toCore m);
  fromCore_of := PoolMetadata.fromCore;
  bytesOf m := recordBytes (metadataFields m);
  validCore := isMetadata;
  typed m := (zlen (PoolMetadata.url m) <=? 64) && isBlob (PoolMetadata.hash m)
}.

Lemma metadata_fields m : isMetadata m = true -> Forall field (metadataFields m).
Proof. intros [Hu Hh]%andb_true_iff. fields. Qed.

Lemma metadata_new url h : isText 64 url = true ->
  PoolMetadata.new url h = Ok {| PoolMetadata.url := url; PoolMetadata.hash := h; PoolMetadata.originalBytes := None |}.
Proof. intros [_ Hz]%andb_true_iff. unfold PoolMetadata.new, PoolMetadata.MAX_URL_SIZE_STR_LENGTH. zb. by rewrite (proj2 (Z.ltb_ge _ _)). Qed.

#[export] Instance metadata_laws : SerializableLaws PoolMetadata.core PoolMetadata.t.
Proof.
  split; cbn [bytesOf validCore fromCore_of fromCbor_of metadata_serializable].
  - intros m Hm. apply field_record; [done|by apply metadata_fields].
  - intros m _. apply (starts_not_null Array); [done|by apply starts_record].
  - intros [u h] [Hu Hh]%andb_true_iff. eexists. split; [by apply metadata_new|]. split; [done|].
    apply (encode_record 2 _ [_; _]); [done..|]. emit_fields.
  - intros m Hm Hz. pose proof (metadata_fields m Hm) as Hf. destruct m as [u h]. pose proof Hm as [Hu Hh]%andb_true_iff. eexists. split.
    + apply decode_completes; [done..|]. read_fields. apply completes_end. intros r. by rewrite (st_lift_ok _ _ _ _ (metadata_new _ _ Hu)).
    + split; [done|by apply cached_record].
  - apply accepts_decode. intros cbor. sound_fields. eapply sound_bind; [apply sound_lift; [unfold PoolMetadata.new; by case_bool|]|].
    + intros a Ha. exact Ha.
    + intros a Ha. apply sound_ret. cbn. revert Ha. unfold PoolMetadata.new. case_bool; [done|]. intros [= <-]. cbn. zb.
      apply andb_true_iff. split; [|done]. by apply Z.leb_le.
Qed.

(** ** Relays *)

Definition isPort (port : option Z) : bool := match port with Some p => isSafe p && negb (p =? 0) | None => true end.
Definition portBytes (port : option Z) : list Z := nullableBytes intBytes port.

Section port.
Context (port : option Z) (Hp : isPort port = true).

Lemma field_port : field (portBytes port).
Proof. apply nullable_field. intros p ->. apply andb_true_iff in Hp as [Hs _]. eauto with codec. Qed.

#[local] Lemma portSet_id : portSet port = port.
Proof. destruct port as [p|]; [|done]. cbn in *. apply andb_true_iff in Hp as [_ Hz]. by destruct (p =? 0). Qed.

Lemma emits_port : emits (writePort port) (portBytes port).
Proof.
  unfold writePort. rewrite portSet_id. apply nullable_emits. intros p ->. apply andb_true_iff in Hp as [Hs _]. eauto with codec.
Qed.

Lemma readPort_reads : reads readPort (portBytes port) port.
Proof.
  assert (H : reads (readNullable (call readInt)) (portBytes port) port).
  { unfold portBytes. destruct port as [p|]; [|apply readNullable_none]. apply andb_true_iff in Hp as [Hs _].
    destruct (starts_int p (safe_int64 _ Hs)); (eapply readNullable_some; [|eassumption|]; [done|eauto with codec]). }
  eapply reads_last; [exact H|]. intros r. rewrite portSet_id. destruct port as [p|]; [|done]. cbn.
  apply andb_true_iff in Hp as [Hs%safe_range _]. by rewrite Number_of_exact by lia.
Qed.
End port.

Lemma sound_port : sound readPort (fun _ => True).
Proof. eapply sound_bind; [eapply sound_any, sound_nullable, sound_int|]. intros. by apply sound_ret. Qed.

Lemma checkId_reads name k : isSafe k = true -> reads (checkId name k) (intBytes k) tt.
Proof. intros Hk. eapply reads_last; [by apply readNumber_reads|]. intros r. by rewrite Z.eqb_refl. Qed.

Lemma sound_checkId name k : sound (checkId name k) (fun _ => True).
Proof.
  eapply sound_bind; [apply sound_number|]. intros n _. unfold st_guard. case_bool; [apply sound_throw|by apply sound_ret].
Qed.

#[export] Hint Resolve field_port emits_port readPort_reads sound_port checkId_reads sound_checkId : codec.

(** *** Addresses *)

Section ip.
Context `{IpAddress}.

(** A text that stands for the bytes it is parsed to. *)
Definition isIp (toBytes : string -> Res (list Z)) (fromBytes : list Z -> Res string) (ip : option string) : bool :=
  match ip with
  | Some s => negb (String.eqb s "") && match toBytes s with
      | Ok l => (zlen l <=? 16) && forallb (fun b => (0 <=? b) && (b <? 256)) l && bool_decide (fromBytes l = Ok s)
      | _ => false end
  | None => true
  end.

Definition ipBytes (toBytes : string -> Res (list Z)) (ip : option string) : list Z :=
  nullableBytes (fun s => match toBytes s with Ok l => stringBytes l | _ => [] end) ip.

Section one.
Context (toB : string -> Res (list Z)) (fromB : list Z -> Res string) (ip : option string) (Hip : isIp toB fromB ip = true).

#[local] Lemma ip_spec s : ip = Some s -> (String.eqb s "" = false) /\ exists l, toB s = Ok l /\ bytes l /\ zlen l <= 16 /\ fromB l = Ok s.
Proof.
  intros ->. cbn in Hip. apply andb_true_iff in Hip as [He Hl]. split; [by destruct (String.eqb s "")|].
  destruct (toB s) as [l|e|]; try done. apply andb_true_iff in Hl as [[Hz Hb]%andb_true_iff Hf%bool_decide_eq_true]. zb.
  exists l. split_and!; [done| |done|done]. apply List.Forall_forall. intros b Hin. rewrite forallb_forall in Hb. specialize (Hb b Hin).
  apply andb_true_iff in Hb as [? ?]. zb. unfold is_byte. lia.
Qed.

Lemma field_ip : field (ipBytes toB ip).
Proof.
  apply nullable_field. intros s Hs. destruct (ip_spec s Hs) as (_ & l & -> & Hb & Hz & _).
  split; [apply stringBytes_item; lia|by apply stringBytes_bytes].
Qed.

Lemma emits_ip : emits (SingleHostAddr.writeIp toB ip) (ipBytes toB ip).
Proof.
  unfold SingleHostAddr.writeIp. replace (textSet ip) with ip.
  - apply nullable_emits. intros s Hs. destruct (ip_spec s Hs) as (_ & l & El & Hb & Hz & _). eapply emits_lift; [exact El|].
    rewrite El. apply stringBytes_emits. lia.
  - pose proof ip_spec as Hspec. destruct ip as [s|]; [|done]. destruct (Hspec s eq_refl) as [Hs _]. cbn. by rewrite Hs.
Qed.

Lemma readIp_reads : reads (SingleHostAddr.readIp fromB) (ipBytes toB ip) ip.
Proof.
  pose proof ip_spec as Hspec. unfold SingleHostAddr.readIp, ipBytes. destruct ip as [s|]; [|apply readNullable_none].
  destruct (Hspec s eq_refl) as (_ & l & El & Hb & Hz & Ef). cbn [nullableBytes]. rewrite El. pose proof (zlen_nonneg l).
  eapply (readNullable_some _ ByteString); [done|apply starts_head; lia|]. eapply reads_last; [apply stringBytes_reads; lia|].
  intros r. unfold st_lift. by rewrite Ef.
Qed.
End one.

Lemma sound_ip f : (forall l, f l <> OutOfFuel) -> sound (SingleHostAddr.readIp f) (fun _ => True).
Proof.
  intros Hf. eapply sound_any, sound_nullable. eapply sound_bind; [apply sound_bytes|]. intros l _. by apply (sound_lift _ (fun _ => True)).
Qed.

(** *** The three kinds *)

Definition isRelay (c : CoreRelay) : bool :=
  match c with
  | RelayByAddress v4 v6 port => isPort port && isIp ipV4StringToByteArray byteArrayToIpV4String v4
      && isIp ipV6StringToByteArray byteArrayToIPv6String v6
  | RelayByName name port => isText 64 name && isPort port
  | RelayByNameMultihost name => isText 64 name
  end.

(** [relay] of the ledger's CDDL. *)
Definition relayFields (c : CoreRelay) : list (list Z) :=
  match c with
  | RelayByAddress v4 v6 port => [intBytes 0; portBytes port; ipBytes ipV4StringToByteArray v4; ipBytes ipV6StringToByteArray v6]
  | RelayByName name port => [intBytes 1; portBytes port; textBytes name]
  | RelayByNameMultihost name => [intBytes 2; textBytes name]
  end.

Definition relayTyped (r : Relay.t) : bool :=
  match Relay.inner r with
  | Relay.ASingleHostAddr _ => true
  | Relay.ASingleHostName n => zlen (SingleHostName.dnsName n) <=? 64
  | Relay.AMultiHostName n => zlen (MultiHostName.dnsName n) <=? 64
  end.

#[export] Instance relay_serializable : Serializable CoreRelay Relay.t := {
  toCbor_of := Relay.toCbor;
  fromCbor_of := Relay.fromCbor;
  toCore_of r := Ok (Relay.toCore r);
  fromCore_of := Relay.fromCore;
  bytesOf c := recordBytes (relayFields c);
  validCore := isRelay;
  typed := relayTyped
}.

Lemma relay_fields c : isRelay c = true -> Forall field (relayFields c).
Proof.
  destruct c as [v4 v6 port|name port|name]; cbn [isRelay relayFields]; intros Hc; split_bool; fields; by eapply field_ip.
Qed.

Lemma relay_count c : 1 <= zlen (relayFields c) < 2 ^ 53.
Proof. by destruct c. Qed.

Lemma checkDnsName_ok name : isText 64 name = true -> checkDnsName name = Ok tt.
Proof. intros [_ Hz]%andb_true_iff. unfold checkDnsName, MAX_DNS_SIZE_STR_LENGTH. zb. by rewrite (proj2 (Z.ltb_ge _ _)). Qed.

(** Every kind is written as specified. *)
Lemma relay_encodes c : isRelay c = true -> exists r, Relay.fromCore c = Ok r /\ Relay.toCore r = c /\
  Relay.toCbor r = Ok (Buffer_to_hex (recordBytes (relayFields c))).
Proof.
  destruct c as [v4 v6 port|name port|name]; cbn [isRelay relayFields]; intros Hc; split_bool.
  - eexists. split_and!; [done..|]. apply (encode_record 4 _ [_; _; _; _]); [done..|]. emit_fields.
    apply emits_fields; [by eapply emits_ip|]. apply emits_last. by eapply emits_ip.
  - eexists. split_and!; [cbn; unfold SingleHostName.fromCore, SingleHostName.new; by rewrite checkDnsName_ok|done|].
    apply (encode_record 3 _ [_; _; _]); [done..|]. emit_fields.
  - eexists. split_and!; [cbn; unfold MultiHostName.fromCore, MultiHostName.new; by rewrite checkDnsName_ok|done|].
    apply (encode_record 2 _ [_; _]); [done..|]. emit_fields.
Qed.

Definition relayKind (c : CoreRelay) : Z :=
  match c with RelayByAddress _ _ _ => 0 | RelayByName _ _ => 1 | RelayByNameMultihost _ => 2 end.

(** The part of the kind is read back. *)
Lemma relay_decodes c : isRelay c = true -> zlen (recordBytes (relayFields c)) < 2 ^ 53 ->
  exists b, Relay.fromCborKind (relayKind c) (Buffer_to_hex (recordBytes (relayFields c))) = Ok b /\
    forall o, Relay.toCore {| Relay.inner := b; Relay.originalBytes := o |} = c.
Proof.
  intros Hc Hz. pose proof (relay_fields c Hc) as Hf. set (hex := Buffer_to_hex _).
  destruct c as [v4 v6 port|name port|name]; cbn [isRelay relayFields relayKind] in *; split_bool.
  - exists (Relay.ASingleHostAddr (SingleHostAddr.Build_t port v4 v6 (Some hex))). split; [|done].
    assert (E : SingleHostAddr.fromCbor hex = Ok (SingleHostAddr.Build_t port v4 v6 (Some hex))).
    { apply decode_completes; [done..|]. read_fields. eapply completes_bind; [by eapply readIp_reads|].
      eapply completes_bind; [by eapply readIp_reads|]. apply completes_ret. }
    unfold Relay.fromCborKind. cbn [Z.eqb RelayKind.SingleHostAddress]. by rewrite E.
  - exists (Relay.ASingleHostName (SingleHostName.Build_t port name (Some hex))). split; [|done].
    assert (E : SingleHostName.fromCbor hex = Ok (SingleHostName.Build_t port name (Some hex))).
    { apply decode_completes; [done..|]. read_fields. eapply completes_lift; [unfold SingleHostName.new; by rewrite checkDnsName_ok|apply completes_ret]. }
    unfold Relay.fromCborKind. cbn [Z.eqb RelayKind.SingleHostAddress RelayKind.SingleHostDnsName Pos.eqb]. by rewrite E.
  - exists (Relay.AMultiHostName (MultiHostName.Build_t name (Some hex))). split; [|done].
    assert (E : MultiHostName.fromCbor hex = Ok (MultiHostName.Build_t name (Some hex))).
    { apply decode_completes; [done..|]. read_fields. eapply completes_lift; [unfold MultiHostName.new; by rewrite checkDnsName_ok|apply completes_ret]. }
    unfold Relay.fromCborKind. cbn [Z.eqb RelayKind.SingleHostAddress RelayKind.SingleHostDnsName RelayKind.MultiHostDnsName Pos.eqb]. by rewrite E.
Qed.

Lemma relay_first c : exists fs, relayFields c = intBytes (relayKind c) :: fs.
Proof. destruct c; eexists; reflexivity. Qed.

Lemma relay_readKind c : isRelay c = true -> zlen (recordBytes (relayFields c)) < 2 ^ 53 ->
  decode Relay.readKind (Buffer_to_hex (recordBytes (relayFields c))) = Ok (relayKind c).
Proof.
  intros Hc Hz. pose proof (relay_fields c Hc) as Hf. pose proof (relay_count c) as Hn. destruct (relay_first c) as [fs E].
  apply decode_completes; [done..|]. rewrite E. apply completes_last, readNumber_reads. by destruct c.
Qed.

(** On any input each kind ends, and keeps names to 64 characters. *)
Lemma checkDnsName_cases name : checkDnsName name <> OutOfFuel /\ (checkDnsName name = Ok tt -> zlen name <= 64).
Proof. unfold checkDnsName, MAX_DNS_SIZE_STR_LENGTH. case_bool; zb; split; done. Qed.

Context {IL : IpAddressLaws}.

Lemma addr_accepts : accepts SingleHostAddr.fromCbor (fun _ => True).
Proof.
  apply accepts_decode. intros cbor. sound_fields.
  eapply sound_bind; [apply sound_ip; intros l; unfold byteArrayToIpV4String; by case_bool|]. intros v4 _.
  eapply sound_bind; [apply sound_ip, canonicalForm_returns|]. intros v6 _. by apply sound_ret.
Qed.

Lemma name_accepts : accepts SingleHostName.fromCbor (fun n => zlen (SingleHostName.dnsName n) <= 64).
Proof.
  apply accepts_decode. intros cbor. sound_fields.
  match goal with |- context [SingleHostName.new ?n ?p] => pose proof (checkDnsName_cases n) as [Hf Ho]; unfold SingleHostName.new; destruct (checkDnsName n) as [[]|e|] end; try done.
  - by apply sound_ret, Ho.
  - eapply sound_bind; [by apply (sound_lift _ (fun _ => False))|done].
Qed.

Lemma multi_accepts : accepts MultiHostName.fromCbor (fun n => zlen (MultiHostName.dnsName n) <= 64).
Proof.
  apply accepts_decode. intros cbor. sound_fields.
  match goal with |- context [MultiHostName.new ?n] => pose proof (checkDnsName_cases n) as [Hf Ho]; unfold MultiHostName.new; destruct (checkDnsName n) as [[]|e|] end; try done.
  - by apply sound_ret, Ho.
  - eapply sound_bind; [by apply (sound_lift _ (fun _ => False))|done].
Qed.

Lemma relayKind_accepts kind : accepts (Relay.fromCborKind kind) (fun b => relayTyped (Relay.new b) = true).
Proof.
  intros cbor Hz. unfold Relay.fromCborKind. repeat case_bool; try done.
  - destruct (addr_accepts cbor Hz) as [Hf _]. destruct (SingleHostAddr.fromCbor cbor); (split; [done|]); by intros ? [= <-].
  - destruct (name_accepts cbor Hz) as [Hf Ho]. destruct (SingleHostName.fromCbor cbor) as [n|e|]; (split; [done|]); intros ? [= <-].
    by apply Z.leb_le, Ho.
  - destruct (multi_accepts cbor Hz) as [Hf Ho]. destruct (MultiHostName.fromCbor cbor) as [n|e|]; (split; [done|]); intros ? [= <-].
    by apply Z.leb_le, Ho.
Qed.

Lemma relay_accepts : accepts Relay.fromCbor (fun r => relayTyped r = true).
Proof.
  intros cbor Hz. unfold Relay.fromCbor.
  destruct (accepts_decode (fun _ => Relay.readKind) (fun _ => True)) with (cbor := cbor) as [Hk _]; [|done|].
  { intros _. unfold Relay.readKind. eapply sound_bind; [apply sound_startArray|]. intros. apply sound_number. }
  destruct (decode Relay.readKind cbor) as [kind|e|]; [|done..]. cbn [mbind outcome_bind].
  destruct (relayKind_accepts kind cbor Hz) as [Hf Ho]. destruct (Relay.fromCborKind kind cbor) as [b|e|]; (split; [done|]); intros ? [= <-].
  by apply (Ho b).
Qed.

#[export] Instance relay_laws : SerializableLaws CoreRelay Relay.t.
Proof.
  split; cbn [bytesOf validCore fromCore_of fromCbor_of relay_serializable].
  - intros c Hc. pose proof (relay_count c). apply field_record; [lia|by apply relay_fields].
  - intros c _. pose proof (relay_count c). apply (starts_not_null Array); [done|apply starts_record; lia].
  - intros c Hc. destruct (relay_encodes c Hc) as (r & E1 & E2 & E3). exists r. split; [done|]. split; [cbn; by rewrite E2|done].
  - intros c Hc Hz. pose proof (relay_count c). destruct (relay_decodes c Hc Hz) as (b & Eb & Hb). eexists. split.
    + unfold Relay.fromCbor. rewrite relay_readKind by done. cbn [mbind outcome_bind]. by rewrite Eb.
    + split; [cbn; by rewrite Hb|]. apply cached_record; [lia|by apply relay_fields].
  - apply relay_accepts.
Qed.
End ip.

(** ** Pool parameters *)

Section pool.
Context `{Era} `{Crc32} {CL : Crc32Laws} `{BaseEncoding} `{Bech32} `{IpAddress} {IL : IpAddressLaws}.

(** The hash a pool identifier stands for. *)
Definition poolHash (id : string) : string := match PoolId.toKeyHash id with Ok h => h | _ => "" end.

Definition isPoolId (id : string) : bool :=
  isHash 56 (poolHash id) && bool_decide (PoolId.toKeyHash id = Ok (poolHash id)) && bool_decide (PoolId.fromKeyHash (poolHash id) = Ok id).

(** The address of a reward account, with its network. *)
Definition rewardOf (account : string) : option (Address * Z) :=
  match fromBech32 account with
  | Ok a => match networkId a with Some n => Some (a, n) | None => None end
  | _ => None
  end.

Definition rewardBytes (account : string) : list Z :=
  match rewardOf account with
  | Some (a, _) => match toBytes a with Ok hex => Buffer_from_hex hex | _ => [] end
  | None => []
  end.

(** A reward account that is printed as it was parsed. *)
Definition isRewardText (account : string) : bool :=
  match rewardOf account with
  | Some (a, _) => addressOk a && isRewardType (addressType a) && bool_decide (toBech32 a = Ok account) && (zlen (rewardBytes account) <=? 1000)
  | None => false
  end.

Record rewardText (account : string) (a : Address) (n : Z) : Prop := {
  reward_of : rewardOf account = Some (a, n);
  reward_parsed : fromBech32 account = Ok a;
  reward_reward : RewardAddress.fromAddress a = Some a;
  reward_network : getNetworkId a = Some n;
  reward_text : toBech32 a = Ok account;
  reward_bytes : bytes (rewardBytes account) /\ zlen (rewardBytes account) <= 1000;
  reward_packed : toBytes a = Ok (Buffer_to_hex (rewardBytes account));
  reward_unpacked : fromBytes (Buffer_to_hex (rewardBytes account)) = Ok a
}.

Lemma isRewardText_spec account : isRewardText account = true -> exists a n, rewardText account a n.
Proof.
  unfold isRewardText. destruct (rewardOf _) as [[a n]|] eqn:E; [|done]. intros Ha. split_bool. pose proof E as E0.
  assert (Ep : fromBech32 account = Ok a /\ networkId a = Some n).
  { unfold rewardOf in E. destruct (fromBech32 _) as [a'|e|]; try done. destruct (networkId a') eqn:En; try done. by simplify_eq. }
  destruct Ep as [Ep En]. destruct (addressOk_packs a) as (l & Hb & El & Ed); [done|].
  assert (Er : rewardBytes account = l).
  { unfold rewardBytes. by rewrite E, El, Buffer_hex_roundtrip. }
  exists a, n. split; try done.
  - unfold RewardAddress.fromAddress. by match goal with H : isRewardType _ = true |- _ => rewrite H end.
  - unfold getNetworkId. rewrite En. match goal with H : isRewardType _ = true |- _ => clear -H; revert H; set (t := addressType a) end.
    clearbody t. intros Ht. by type_cases Ht.
  - by match goal with H : bool_decide _ = true |- _ => apply bool_decide_eq_true in H end.
  - zb. rewrite Er in *. split; [done|lia].
  - by rewrite Er.
  - by rewrite Er.
Qed.

Definition ownerHash (owner : string) : string := match PoolParams.ownerKeyHash owner with Ok h => h | _ => "" end.

Definition isOwner (network : Z) (owner : string) : bool :=
  isHash 56 (ownerHash owner) && bool_decide (PoolParams.ownerKeyHash owner = Ok (ownerHash owner))
  && bool_decide (createRewardAccount (ownerHash owner) network = Ok owner).

(** A reward account that is printed as it was parsed, and owners on its network. *)
Definition isAccount (account : string) (owners : list string) : bool :=
  match rewardOf account with
  | Some (a, n) => addressOk a && isRewardType (addressType a) && bool_decide (toBech32 a = Ok account) && forallb (isOwner n) owners
      && (zlen (rewardBytes account) <=? 1000)
  | None => false
  end.

Definition isPool (p : PoolParameters.t) : bool :=
  isPoolId (PoolParameters.id p) && isHash 64 (PoolParameters.vrf p) && isInt64 (PoolParameters.pledge p)
  && isInt64 (PoolParameters.cost p) && isInterval (PoolParameters.margin p)
  && isAccount (PoolParameters.rewardAccount p) (PoolParameters.owners p)
  && (zlen (PoolParameters.owners p) <? 2 ^ 53) && validList (PoolParameters.relays p) && validOption (PoolParameters.metadataJson p).

(** [pool_params] of the ledger's CDDL, a group of nine fields. *)
Definition poolFields (p : PoolParameters.t) : list (list Z) :=
  [blobBytes (poolHash (PoolParameters.id p)); blobBytes (PoolParameters.vrf p); intBytes (PoolParameters.pledge p);
   intBytes (PoolParameters.cost p); bytesOf (PoolParameters.margin p); stringBytes (rewardBytes (PoolParameters.rewardAccount p));
   setBytes (map ownerHash (PoolParameters.owners p)); listBytes (PoolParameters.relays p);
   nullableBytes bytesOf (PoolParameters.metadataJson p)].

(** What is known of the reward account and the owners. *)
Record account (p : PoolParameters.t) (a : Address) (n : Z) : Prop := {
  account_parsed : fromBech32 (PoolParameters.rewardAccount p) = Ok a;
  account_reward : RewardAddress.fromAddress a = Some a;
  account_network : getNetworkId a = Some n;
  account_text : toBech32 a = Ok (PoolParameters.rewardAccount p);
  account_bytes : bytes (rewardBytes (PoolParameters.rewardAccount p)) /\ zlen (rewardBytes (PoolParameters.rewardAccount p)) <= 1000;
  account_packed : toBytes a = Ok (Buffer_to_hex (rewardBytes (PoolParameters.rewardAccount p)));
  account_unpacked : fromBytes (Buffer_to_hex (rewardBytes (PoolParameters.rewardAccount p))) = Ok a;
  owners_valid : Forall (fun h => isHash 56 h = true) (map ownerHash (PoolParameters.owners p));
  owners_parsed : mapM PoolParams.ownerKeyHash (PoolParameters.owners p) = Ok (map ownerHash (PoolParameters.owners p));
  owners_printed : mapM (fun h => createRewardAccount h n) (map ownerHash (PoolParameters.owners p)) = Ok (PoolParameters.owners p)
}.

Lemma owners_spec n owners : forallb (isOwner n) owners = true ->
  Forall (fun h => isHash 56 h = true) (map ownerHash owners) /\ mapM PoolParams.ownerKeyHash owners = Ok (map ownerHash owners) /\
  mapM (fun h => createRewardAccount h n) (map ownerHash owners) = Ok owners.
Proof.
  induction owners as [|o owners IH]; [by intros _; split_and!|]. cbn [forallb]. intros [Ho Hl]%andb_true_iff.
  destruct (IH Hl) as (I1 & I2 & I3). unfold isOwner in Ho. apply andb_true_iff in Ho as [[Hh Hk%bool_decide_eq_true]%andb_true_iff Hc%bool_decide_eq_true].
  split_and!; [by constructor|cbn; rewrite Hk; cbn; by rewrite I2|cbn; rewrite Hc; cbn; by rewrite I3].
Qed.

Lemma isAccount_spec p : isAccount (PoolParameters.rewardAccount p) (PoolParameters.owners p) = true -> exists a n, account p a n.
Proof.
  unfold isAccount. destruct (rewardOf _) as [[a n]|] eqn:E; [|done]. intros Ha. split_bool.
  destruct (isRewardText_spec (PoolParameters.rewardAccount p)) as (a' & n' & []).
  { unfold isRewardText. rewrite E. by rewrite !andb_true_iff. }
  assert (a' = a /\ n' = n) as [-> ->] by (rewrite E in reward_of0; by simplify_eq).
  destruct (owners_spec n (PoolParameters.owners p)) as (O1 & O2 & O3); [done|]. by exists a, n.
Qed.

Lemma mapM_ok {A} (v : list A) : mapM (fun h : A => Ok (E := SerializationError) h) v = Ok v.
Proof. induction v as [|x v IH]; [done|]. cbn. rewrite IH. done. Qed.

Lemma set_values (l : list string) (s : CborSet.t string) : standsFor l s -> CborSet.values s = l.
Proof.
  intros [E _]. revert E. unfold toCore_of, set_serializable, CborSet.toCore. generalize (CborSet.values s) as v. revert l.
  intros l v. cbn. rewrite mapM_ok. by intros [= ->].
Qed.

Lemma relays_toCore l rs : Forall2 (standsFor (C := CoreRelay) (T := Relay.t)) l rs -> map Relay.toCore rs = l.
Proof. induction 1 as [|c r l rs [Hr _] _ IH]; [done|]. cbn in *. injection Hr as ->. by rewrite IH. Qed.

Lemma metadata_toCore c m : standsForOption (C := PoolMetadata.core) (T := PoolMetadata.t) c m -> PoolMetadata.toCore <$> m = c.
Proof. destruct c as [c|], m as [m|]; try done. intros [Hm _]. cbn in *. by injection Hm as ->. Qed.

Lemma hashes_valid l : zlen l < 2 ^ 53 -> Forall (fun h => isHash 56 h = true) l -> validList (C := string) (T := string) l = true.
Proof.
  intros Hz Hl. apply andb_true_iff. split; [by apply Z.ltb_lt|]. apply forallb_forall. by apply List.Forall_forall.
Qed.

Definition poolStands (p : PoolParameters.t) (o : PoolParams.t) : Prop :=
  PoolParams.toCore o = Ok p /\ emits (PoolParams.writeFlattened o) (concat (poolFields p)).

Section parts.
Context (p : PoolParameters.t) (Hp : isPool p = true).

Lemma pool_spec : isHash 56 (poolHash (PoolParameters.id p)) = true /\ PoolId.toKeyHash (PoolParameters.id p) = Ok (poolHash (PoolParameters.id p)) /\
  PoolId.fromKeyHash (poolHash (PoolParameters.id p)) = Ok (PoolParameters.id p) /\ isHash 64 (PoolParameters.vrf p) = true /\
  isInt64 (PoolParameters.pledge p) = true /\ isInt64 (PoolParameters.cost p) = true /\ validCore (PoolParameters.margin p) = true /\
  (exists a n, account p a n) /\ validCore (C := list string) (T := CborSet.t string) (map ownerHash (PoolParameters.owners p)) = true /\ validList (PoolParameters.relays p) = true /\
  validOption (PoolParameters.metadataJson p) = true.
Proof.
  unfold isPool, isPoolId in Hp. split_bool. destruct (isAccount_spec p) as (a & n & Ha); [done|].
  repeat match goal with E : bool_decide _ = true |- _ => apply bool_decide_eq_true in E end.
  split_and!; try done; [by exists a, n|]. change (validList (C := string) (T := string) (map ownerHash (PoolParameters.owners p)) = true). apply hashes_valid; [|apply (owners_valid _ _ _ Ha)]. unfold zlen. rewrite length_map. by apply Z.ltb_lt.
Qed.

Lemma pool_fields : Forall field (poolFields p).
Proof.
  destruct pool_spec as (Hid & _ & _ & Hv & Hpl & Hco & Hm & (a & n & Ha) & Ho & Hr & Hmd). destruct (account_bytes _ _ _ Ha) as [Hb Hz].
  unfold poolFields. fields.
  - by apply bytesOf_field.
  - split; [apply stringBytes_item; lia|by apply stringBytes_bytes].
  - by apply set_field.
  - by apply list_field.
  - by apply option_field.
Qed.

(** Parts that stand for the parts. *)
Lemma pool_parts a n m so rs mo o : account p a n -> standsFor (PoolParameters.margin p) m ->
  standsFor (map ownerHash (PoolParameters.owners p)) so -> Forall2 standsFor (PoolParameters.relays p) rs ->
  standsForOption (PoolParameters.metadataJson p) mo ->
  poolStands p {| PoolParams.operator := poolHash (PoolParameters.id p); PoolParams.vrfKeyHash := PoolParameters.vrf p;
    PoolParams.pledge := PoolParameters.pledge p; PoolParams.cost := PoolParameters.cost p; PoolParams.margin := m;
    PoolParams.rewardAccount := Some a; PoolParams.poolOwners := so; PoolParams.relays := rs; PoolParams.poolMetadata := mo;
    PoolParams.originalBytes := o |}.
Proof.
  intros Ha Hm Hso Hrs Hmo. destruct pool_spec as (Hid & _ & Eid & Hv & Hpl & Hco & Hvm & _ & Ho & Hr & Hmd).
  destruct (account_bytes _ _ _ Ha) as [Hb Hz]. split.
  - unfold PoolParams.toCore. cbn [PoolParams.rewardAccount required mbind outcome_bind PoolParams.operator]. rewrite Eid. cbn [mbind outcome_bind].
    rewrite (account_network _ _ _ Ha). cbn [required mbind outcome_bind PoolParams.poolOwners].
    rewrite (set_values _ _ Hso), (owners_printed _ _ _ Ha). cbn [mbind outcome_bind]. rewrite (account_text _ _ _ Ha). cbn.
    rewrite (relays_toCore _ _ Hrs), (metadata_toCore _ _ Hmo). destruct Hm as [Em _]. cbn in Em. injection Em as ->. by destruct p.
  - unfold PoolParams.writeFlattened, poolFields. emit_fields. apply emits_fields; [exact (nested_emits _ m Hvm Hm)|].
    assert (El : (x ← required (Some a); toBytes x) = Ok (Buffer_to_hex (rewardBytes (PoolParameters.rewardAccount p)))).
    { cbn. apply (account_packed _ _ _ Ha). }
    eapply emits_lift; [exact El|]. rewrite Buffer_hex_roundtrip by done.
    apply emits_fields; [apply stringBytes_emits; lia|]. apply emits_fields; [exact (nested_emits _ so Ho Hso)|].
    apply emits_fields; [exact (list_emits _ rs Hr Hrs)|]. apply emits_last. exact (option_emits _ mo Hmd Hmo).
Qed.

Lemma pool_fromCore : exists o, PoolParams.fromCore p = Ok o /\ poolStands p o.
Proof.
  destruct pool_spec as (Hid & Eid & _ & Hv & Hpl & Hco & Hvm & (a & n & Ha) & Ho & Hr & Hmd).
  destruct (list_fromCore _ Hr) as (rs & Ers & Hrs). destruct (fromCore_standsFor _ Hvm) as (m & Em & Hm). cbn in Em. injection Em as <-.
  assert (Hso : standsFor (map ownerHash (PoolParameters.owners p)) (CborSet.new (map ownerHash (PoolParameters.owners p)))).
  { destruct (fromCore_standsFor (C := list string) (T := CborSet.t string) (map ownerHash (PoolParameters.owners p)) Ho) as (so & Eso & Hso). revert Eso.
    change (fromCore_of (map ownerHash (PoolParameters.owners p))) with (values ← mapM (fun h : string => Ok (E := SerializationError) h)
      (map ownerHash (PoolParameters.owners p)); Ok (CborSet.new values)). rewrite mapM_ok. cbn [mbind outcome_bind].
    intros Es. assert (Enew : so = CborSet.new (map ownerHash (PoolParameters.owners p))) by congruence. by rewrite Enew in Hso. }
  assert (Hmo : exists mo, match PoolParameters.metadataJson p with Some m => x ← PoolMetadata.fromCore m; Ok (Some x) | None => Ok None end = Ok mo /\
    standsForOption (PoolParameters.metadataJson p) mo).
  { destruct (PoolParameters.metadataJson p) as [c|]; [|by exists None]. destruct (fromCore_standsFor c Hmd) as (x & Ex & Hx).
    exists (Some x). split; [|done]. cbn in Ex. by rewrite Ex. }
  destruct Hmo as (mo & Emo & Hmo). eexists. split; [|by eapply (pool_parts a n)].
  unfold PoolParams.fromCore. rewrite Eid. cbn [mbind outcome_bind]. rewrite (account_parsed _ _ _ Ha). cbn [mbind outcome_bind].
  rewrite (owners_parsed _ _ _ Ha). cbn [mbind outcome_bind]. unfold fromCore_of, relay_serializable in Ers. rewrite Ers. cbn [mbind outcome_bind].
  rewrite Emo. cbn [mbind outcome_bind]. rewrite (account_reward _ _ _ Ha). reflexivity.
Qed.

Lemma readReward_reads a n : account p a n -> reads PoolParams.readReward (stringBytes (rewardBytes (PoolParameters.rewardAccount p))) (Some a).
Proof.
  intros Ha. destruct (account_bytes _ _ _ Ha) as [Hb Hz]. eapply reads_last.
  - apply (reads_fmap 1 _ HexBlob_fromBytes), stringBytes_reads. lia.
  - intros r. unfold HexBlob_fromBytes. rewrite (st_lift_ok _ _ _ _ (account_unpacked _ _ _ Ha)). by rewrite (account_reward _ _ _ Ha).
Qed.

Lemma pool_reads : zlen (concat (poolFields p)) < 2 ^ 53 ->
  exists o, readsN 9 PoolParams.fromFlattenedCbor (concat (poolFields p)) o /\ poolStands p o.
Proof.
  intros Hz. destruct pool_spec as (Hid & _ & _ & Hv & Hpl & Hco & Hvm & (a & n & Ha) & Ho & Hr & Hmd).
  assert (Hsub : forall l, In l (poolFields p) -> zlen l < 2 ^ 53).
  { intros l Hl. eapply Z.le_lt_trans; [by apply part_size|exact Hz]. }
  destruct (nested_reads (PoolParameters.margin p) Hvm) as (m & Rm & Hm); [apply Hsub; cbn; tauto|].
  destruct (nested_reads (C := list string) (T := CborSet.t string) (map ownerHash (PoolParameters.owners p)) Ho) as (so & Rso & Hso); [apply Hsub; cbn; tauto|].
  destruct (list_reads (PoolParameters.relays p) Hr) as (rs & Rrs & Hrs); [apply Hsub; cbn; tauto|].
  destruct (option_reads (PoolParameters.metadataJson p) Hmd) as (mo & Rmo & Hmo); [apply Hsub; cbn; tauto|].
  eexists. split; [|by apply (pool_parts a n m so rs mo None)].
  unfold PoolParams.fromFlattenedCbor, poolFields. cbn [concat]. rewrite app_nil_r.
  apply (readsN_bind 1 8 _ _ _ _ _ _ ltac:(lia) ltac:(lia) (readHash_reads 56 _ Hid ltac:(lia))).
  apply (readsN_bind 1 7 _ _ _ _ _ _ ltac:(lia) ltac:(lia) (readHash_reads 64 _ Hv ltac:(lia))).
  apply (readsN_bind 1 6 _ _ _ _ _ _ ltac:(lia) ltac:(lia) (reads_int _ Hpl)).
  apply (readsN_bind 1 5 _ _ _ _ _ _ ltac:(lia) ltac:(lia) (reads_int _ Hco)).
  apply (readsN_bind 1 4 _ _ _ _ _ _ ltac:(lia) ltac:(lia) Rm).
  apply (readsN_bind 1 3 _ _ _ _ _ _ ltac:(lia) ltac:(lia) (readReward_reads _ _ Ha)).
  apply (readsN_bind 1 2 _ _ _ _ _ _ ltac:(lia) ltac:(lia) Rso).
  apply (readsN_bind 1 1 _ _ _ _ _ _ ltac:(lia) ltac:(lia) Rrs).
  by eapply reads_last; [exact Rmo|].
Qed.
End parts.

(** On any input: hashes of the operator and of the VRF key have the right
    length, those of the owners need not. *)
Definition poolTyped (o : PoolParams.t) : bool :=
  isHash 56 (PoolParams.operator o) && isHash 64 (PoolParams.vrfKeyHash o) && isInt64 (PoolParams.pledge o) && isInt64 (PoolParams.cost o)
  && typed (PoolParams.margin o) && forallb isBlob (CborSet.values (PoolParams.poolOwners o)) && forallb relayTyped (PoolParams.relays o)
  && typedOption (PoolParams.poolMetadata o).

Lemma sound_reward : sound PoolParams.readReward (fun _ => True).
Proof.
  intros r Hw. unfold PoolParams.readReward. eapply runs_bind; [|].
  - unfold readHex. eapply runs_bind; [by apply sound_bytes|]. cbv beta. intros l r' _ [Hl Hz].
    apply (runs_ret r' (HexBlob_fromBytes l) (fun h _ => zlen (Buffer_from_hex h) < 2 ^ 53)).
    unfold HexBlob_fromBytes. by rewrite Buffer_hex_roundtrip.
  - cbv beta. intros h r' _ Hz. apply runs_lift; [by apply fromBytes_ends|]. intros a _. by apply runs_ret.
Qed.

Lemma pool_sound : sound PoolParams.fromFlattenedCbor (fun o => poolTyped o = true).
Proof.
  unfold PoolParams.fromFlattenedCbor. sound_fields.
  eapply sound_bind; [exact (nested_sound (C := UnitInterval.core) (T := UnitInterval.t))|]. cbv beta. intros m Hm. eapply sound_bind; [exact sound_reward|]. cbv beta. intros a _.
  eapply sound_bind; [exact (nested_sound (C := list string) (T := CborSet.t string))|]. cbv beta. intros so Hso.
  eapply sound_bind; [exact (list_sound (C := CoreRelay) (T := Relay.t))|]. cbv beta. intros rs Hrs. eapply sound_bind; [exact (option_sound (C := PoolMetadata.core) (T := PoolMetadata.t))|]. cbv beta. intros mo Hmo.
  apply sound_ret. unfold poolTyped.
  cbn [PoolParams.operator PoolParams.vrfKeyHash PoolParams.pledge PoolParams.cost PoolParams.margin PoolParams.poolOwners PoolParams.relays PoolParams.poolMetadata].
  rewrite !andb_true_iff. split_and!; try done. apply forallb_forall. by apply List.Forall_forall.
Qed.
End pool.

Import CborReader CborWriterFacts.

(** ** Shared steps *)

Lemma expectKind_reads k : isSafe k = true -> reads (expectKind k) (intBytes k) tt.
Proof. intros Hk. eapply reads_last; [by apply readNumber_reads|]. intros r. by rewrite Z.eqb_refl. Qed.

Lemma sound_expectKind k : sound (expectKind k) (fun _ => True).
Proof. eapply sound_bind; [apply sound_number|]. intros n _. unfold st_guard. case_bool; [apply sound_throw|by apply sound_ret]. Qed.

#[export] Hint Resolve expectKind_reads sound_expectKind : codec.
#[export] Hint Extern 1 (isSafe _ = true) => reflexivity : codec.

Lemma encode_group n kind m fs : zlen (intBytes kind :: fs) = n -> n < 2 ^ 53 -> isInt64 kind = true -> emits m (concat fs) ->
  encode (writeGroup n kind m) = Ok (Buffer_to_hex (recordBytes (intBytes kind :: fs))).
Proof. intros Hn Hz Hk Hm. apply encode_record; [done..|]. apply emits_fields; [by apply emits_int|done]. Qed.

Lemma credentialBytes_record c : credentialBytes c = recordBytes [intBytes (Credential.type c); blobBytes (hash c)].
Proof. unfold credentialBytes, recordBytes. cbn [concat]. by rewrite app_nil_r. Qed.

(** *** Sizes *)

Lemma size_head t v : 0 <= v < 2 ^ 64 -> 1 <= zlen (CborWriter.head t v) <= 9.
Proof. intros Hv. by apply (is_head_length t v), writer_head. Qed.

Lemma size_int z : isInt64 z = true -> 1 <= zlen (intBytes z) <= 9.
Proof. intros Hz%int64_range. destruct (intBytes_head z Hz) as (t & v & _ & Hv & _ & -> & _). by apply size_head. Qed.

Lemma size_hash n h : isHash n h = true -> n < 2 ^ 53 -> zlen (blobBytes h) <= 9 + n.
Proof.
  intros (_ & _ & Hz)%isHash_spec Hn. unfold blobBytes, stringBytes. rewrite zlen_app. pose proof (zlen_nonneg (Buffer_from_hex h)).
  pose proof (size_head ByteString (zlen (Buffer_from_hex h)) ltac:(lia)). lia.
Qed.

Lemma size_credential c : isCredential c = true -> zlen (credentialBytes c) <= 100.
Proof.
  intros [Ht Hh]%andb_true_iff. unfold credentialBytes. rewrite !zlen_app. pose proof (size_hash 56 _ Hh ltac:(lia)).
  pose proof (size_head Array 2 ltac:(lia)). assert (isInt64 (Credential.type c) = true) as Hi%size_int; [|lia].
  apply orb_true_iff in Ht as [Ht|Ht]; apply Z.eqb_eq in Ht; by rewrite Ht.
Qed.

(** ** Delegated representatives *)

Definition drepBytes (d : DelegateRepresentative) : list Z :=
  match d with
  | DRepCredential c => credentialBytes c
  | AlwaysAbstain => recordBytes [intBytes 2]
  | AlwaysNoConfidence => recordBytes [intBytes 3]
  end.

Definition isDRep (d : DelegateRepresentative) : bool := match d with DRepCredential c => isCredential c | _ => true end.

(** What a decoded representative is. *)
Definition drepTyped (d : DRep.t) : bool :=
  match DRep.credential d with
  | Some c => isCredential c && (Credential.type c =? DRep.kind d)
  | None => (DRep.kind d =? 2) || (DRep.kind d =? 3)
  end.

Section drep.
Context (d : DelegateRepresentative) (Hd : isDRep d = true).

Lemma field_drep : field (drepBytes d).
Proof. destruct d as [c| |]; cbn [drepBytes]; [by apply field_credential|apply field_record; [done|fields]..]. Qed.

Lemma drep_toCore : DRep.toCore (DRep.fromCore d) = Ok d.
Proof.
  destruct d as [[h ty]| |]; try done. cbn in Hd. apply andb_true_iff in Hd as [Ht _]. cbn in *. unfold CredentialType.KeyHash.
  apply orb_true_iff in Ht as [Ht|Ht]; apply Z.eqb_eq in Ht; by subst ty.
Qed.

Lemma drep_toCbor : DRep.toCbor (DRep.fromCore d) = Ok (Buffer_to_hex (drepBytes d)).
Proof.
  destruct d as [c| |]; [|by apply (encode_record 1 _ [_]); [| |apply emits_last, emits_int]..].
  cbn [isDRep drepBytes] in *. transitivity (encode (writeCredential c)).
  - destruct c as [h ty]. apply andb_true_iff in Hd as [Ht _]. cbn in Ht.
    apply orb_true_iff in Ht as [Ht|Ht]; apply Z.eqb_eq in Ht; by subst ty.
  - by apply encode_emits, emits_credential.
Qed.

Lemma emits_drep : emits (writeEncoded (DRep.toCbor (DRep.fromCore d))) (drepBytes d).
Proof. apply emits_encoded; [apply field_drep|apply drep_toCbor]. Qed.

Lemma drep_fromCbor : DRep.fromCbor (Buffer_to_hex (drepBytes d)) = Ok (DRep.fromCore d).
Proof.
  destruct d as [c| |]; cbn [drepBytes]; [|by vm_compute..]. cbn [isDRep] in Hd. pose proof (size_credential c Hd) as Hz.
  rewrite credentialBytes_record in *. pose proof Hd as [Ht Hh]%andb_true_iff. destruct c as [h ty]. cbn [Credential.type hash] in *.
  unfold DRep.fromCbor. apply orb_true_iff in Ht as [Ht|Ht]; apply Z.eqb_eq in Ht; subst ty.
  all: apply decode_completes; [done|fields|lia|]; read_fields; cbn; read_fields.
Qed.

Lemma drep_reads : reads (readNested DRep.fromCbor) (drepBytes d) (DRep.fromCore d).
Proof. apply readNested_reads; [apply field_drep|apply drep_fromCbor]. Qed.
End drep.

Lemma drep_accepts : accepts DRep.fromCbor (fun d => drepTyped d = true).
Proof.
  apply (accepts_decode (fun _ => _)). intros _. sound_fields. unfold DRep.isCredentialKind, DRepKind.KeyHash, DRepKind.ScriptHash, DRepKind.Abstain, DRepKind.NoConfidence.
  match goal with |- context [?k =? 0] => destruct (Z.eqb_spec k 0) as [->|]; [|destruct (Z.eqb_spec k 1) as [->|]] end; cbn [orb Z.eqb].
  - sound_fields. apply sound_ret. unfold drepTyped, isCredential. cbn. by rewrite andb_true_r.
  - sound_fields. apply sound_ret. unfold drepTyped, isCredential. cbn. by rewrite andb_true_r.
  - sound_fields. repeat case_bool; [by apply sound_ret..|apply sound_throw].
Qed.

Lemma sound_drep : sound (readNested DRep.fromCbor) (fun d => drepTyped d = true).
Proof. apply sound_nested, drep_accepts. Qed.

#[export] Hint Resolve field_drep emits_drep drep_reads sound_drep : codec.

(** ** Anchors, that may be null *)

Lemma anchor_fromCore a : validOption a = true -> exists x, anchorFromCore a = Ok x /\ standsForOption a x.
Proof.
  destruct a as [a|]; [|by exists None]. intros Ha. destruct (fromCore_standsFor (C := Anchor.core) (T := Anchor.t) a Ha) as (x & Ex & Hx).
  exists (Some x). split; [|done]. unfold anchorFromCore. change (Anchor.fromCore a) with (fromCore_of a). by rewrite Ex.
Qed.

Lemma anchor_toCore (a : option Anchor.core) x : standsForOption a x -> Anchor.toCore <$> x = a.
Proof. destruct a as [a|], x as [x|]; try done. intros [Hx _]. cbn in *. by injection Hx as ->. Qed.

Lemma emits_anchor a x : validOption a = true -> standsForOption a x -> emits (writeAnchor x) (nullableBytes anchorBytes a).
Proof. exact (option_emits (C := Anchor.core) (T := Anchor.t) a x). Qed.

Lemma anchor_reads a : validOption a = true -> zlen (nullableBytes anchorBytes a) < 2 ^ 53 ->
  exists x, reads readAnchor (nullableBytes anchorBytes a) x /\ standsForOption a x.
Proof. exact (option_reads (C := Anchor.core) (T := Anchor.t) a). Qed.

Lemma sound_anchor : sound readAnchor (fun x => typedOption x = true).
Proof. exact (option_sound (C := Anchor.core) (T := Anchor.t)). Qed.

Lemma field_anchor a : validOption a = true -> field (nullableBytes anchorBytes a).
Proof. exact (option_field (C := Anchor.core) (T := Anchor.t) a). Qed.

#[export] Hint Resolve field_anchor emits_anchor sound_anchor : codec.

(** ** Instantaneous rewards *)

Definition rewardFields (c : Credential) (q : Z) : list Z := CborWriter.head Map 1 ++ credentialBytes c ++ intBytes q.

Definition mirFields (kind : MirCertificateKind) (c : option Credential) (q : Z) (pot : MirCertificatePot) : list (list Z) :=
  match kind, c with
  | ToOtherPot, _ => [intBytes (potNumber pot); intBytes q]
  | ToStakeCreds, Some c => [intBytes (potNumber pot); rewardFields c q]
  | ToStakeCreds, None => []
  end.

(** The amount of a transfer between the pots is what tells it from rewards: it
    must not be negative. *)
Definition isMir (kind : MirCertificateKind) (c : option Credential) (q : Z) : bool :=
  match kind, c with
  | ToOtherPot, None => isUInt q
  | ToStakeCreds, Some c => isCredential c && isInt64 q
  | _, _ => false
  end.

Section mir.

Lemma potNumber_safe pot : isSafe (potNumber pot) = true.
Proof. by destruct pot. Qed.

Lemma potOf_number pot : potOf (potNumber pot) = pot.
Proof. by destruct pot. Qed.

Lemma potNumber_bounds pot : (potNumber pot <? 0) || (1 <? potNumber pot) = false.
Proof. by destruct pot. Qed.

Lemma rewardFields_map c q : rewardFields c q = mapBytes false [(credentialBytes c, intBytes q)].
Proof. unfold rewardFields, mapBytes, entryBytes. cbn [map concat fst snd]. by rewrite app_nil_r. Qed.

Lemma field_rewards c q : isCredential c = true -> isInt64 q = true -> field (rewardFields c q).
Proof.
  intros Hc Hq. rewrite rewardFields_map. destruct (field_credential c Hc), (field_int q Hq).
  split; [apply mapBytes_item; [done|by apply Forall_singleton]|by apply mapBytes_bytes, Forall_singleton].
Qed.

Lemma rewardEntry_reads c q : isCredential c = true -> isInt64 q = true ->
  readsN 2 MoveInstantaneousRewardToStakeCreds.readEntry (credentialBytes c ++ intBytes q) (c, q).
Proof.
  intros Hc Hq. pose proof Hc as [Ht Hh]%andb_true_iff.
  assert (R : reads (call readStartArray ;; type ← readNumber;
    st_guard ((type <? 0) || (1 <? type)) (InvalidArgumentError "cbor" ("Expected a credential type value between 0 and 1, but got " +:+ pretty type)) ;;
    hash ← readHash 56; call readEndArray ;; mret {| hash := hash; Credential.type := type |}) (credentialBytes c) c).
  { eapply (reads_record 2 _ (type ← readNumber;
      st_guard ((type <? 0) || (1 <? type)) (InvalidArgumentError "cbor" ("Expected a credential type value between 0 and 1, but got " +:+ pretty type)) ;;
      hash ← readHash 56; mret {| hash := hash; Credential.type := type |})); [done| |].
    - apply (readsN_bind 1 1 _ _ _ _ (Credential.type c)); [done..|apply readNumber_reads; apply orb_true_iff in Ht as [E|E]; apply Z.eqb_eq in E; by rewrite E|].
      apply readsN_guard; [apply orb_true_iff in Ht as [E|E]; apply Z.eqb_eq in E; by rewrite E|].
      eapply reads_last; [by apply readHash_reads|]. intros r. by destruct c.
    - intros r. same_program. }
  eapply readsN_ext; [|apply (readsN_bind 1 1 _ (fun c => q ← call readInt; mret (c, q)) _ _ c _ ltac:(lia) ltac:(lia) R)].
  - intros r. unfold MoveInstantaneousRewardToStakeCreds.readEntry. same_program.
  - by eapply reads_last; [apply reads_int|].
Qed.

Definition mirStands (kind : MirCertificateKind) (c : option Credential) (q : Z) (pot : MirCertificatePot) (b : MoveInstantaneousReward.body) : Prop :=
  MoveInstantaneousReward.toCore (MoveInstantaneousReward.new b) = Ok (MirCertificate kind c q pot).

Section one.
Context (kind : MirCertificateKind) (c : option Credential) (q : Z) (pot : MirCertificatePot) (Hm : isMir kind c q = true).

Lemma mir_fields : Forall field (mirFields kind c q pot).
Proof.
  pose proof (potNumber_safe pot). destruct kind, c as [x|]; try done; cbn in Hm.
  - cbn [mirFields]. fields.
  - apply andb_true_iff in Hm as [Hc Hq]. cbn [mirFields]. fields. by apply field_rewards.
Qed.

Lemma mir_count : zlen (mirFields kind c q pot) = 2.
Proof. by destruct kind, c. Qed.

Lemma mir_encodes : exists m, MoveInstantaneousReward.fromCore kind c q pot = Ok m /\
  MoveInstantaneousReward.toCore m = Ok (MirCertificate kind c q pot) /\
  MoveInstantaneousReward.toCbor m = Ok (Buffer_to_hex (recordBytes [intBytes 6; recordBytes (mirFields kind c q pot)])).
Proof.
  assert (Hn : forall x l, x = Ok (Buffer_to_hex l) -> field l ->
    (cbor ← x; encode (writeGroup 2 CertificateKind.MoveInstantaneousRewards (call (CborWriter.writeEncodedValue (Buffer_from_hex cbor))))) =
    Ok (Buffer_to_hex (recordBytes [intBytes 6; l]))).
  { intros x l -> [Hi Hb]. cbn [mbind outcome_bind]. apply encode_group; [done..|]. apply emits_last. rewrite Buffer_hex_roundtrip by done.
    apply emits_call, appends_encoded. }
  assert (Hf : field (recordBytes (mirFields kind c q pot))) by (apply field_record; [by rewrite mir_count|apply mir_fields]).
  pose proof (potNumber_safe pot) as Hp. destruct kind, c as [x|]; try done; eexists; (split_and!; [done..|]); apply Hn; try exact Hf.
  - apply (encode_record 2 _ [_; _]); [done..|]. cbn in Hm. emit_fields.
  - cbn in Hm. apply andb_true_iff in Hm as [Hc Hq]. unfold MoveInstantaneousRewardToStakeCreds.toCbor.
    cbn [MoveInstantaneousReward.inner MoveInstantaneousReward.new MoveInstantaneousRewardToStakeCreds.credentials
      MoveInstantaneousRewardToStakeCreds.originalBytes MoveInstantaneousRewardToStakeCreds.pot cached remembered sort_by fold_left insert_by].
    apply (encode_record 2 _ [_; _]); [done..|]. apply emits_fields; [eauto with codec|]. apply emits_last.
    unfold rewardFields. apply emits_bind; [by apply emits_call, writeTypeValue_head|].
    replace (credentialBytes x ++ intBytes q) with (concat [credentialBytes x ++ intBytes q]) by (cbn; by rewrite app_nil_r).
    apply emits_forEach. repeat constructor. apply emits_bind; [by apply emits_credential|by apply emits_int].
Qed.

(** The head of the second field says which kind it is. *)
Lemma mir_peek : zlen (recordBytes (mirFields kind c q pot)) < 2 ^ 53 ->
  decode MoveInstantaneousReward.peekKind (Buffer_to_hex (recordBytes (mirFields kind c q pot))) = Ok kind.
Proof.
  intros Hz. pose proof mir_fields as Hf. pose proof (potNumber_safe pot) as Hp.
  destruct kind, c as [x|]; try done; cbn in Hm; apply decode_completes; try done; cbn [mirFields].
  - apply completes_guard; [done|]. eapply completes_bind; [eauto with codec|]. cbv beta. apply completes_glance.
    apply (glances_peek UnsignedInteger); [done| |apply glances_ret].
    pose proof (uint_range q Hm). unfold intBytes. rewrite (proj2 (Z.ltb_ge _ _)), <- (app_nil_r (CborWriter.head _ _)) by lia. by apply starts_head.
  - assert (Hs : starts Map (rewardFields x q)) by by apply starts_head.
    apply completes_guard; [done|]. eapply completes_bind; [eauto with codec|]. cbv beta.
    apply completes_glance. do 3 (apply (glances_peek Map); [done|done|cbn]). apply glances_ret.
Qed.

Lemma mir_embedded : zlen (recordBytes (mirFields kind c q pot)) < 2 ^ 53 ->
  exists b, MoveInstantaneousReward.fromEmbedded (Buffer_to_hex (recordBytes (mirFields kind c q pot))) = Ok b /\
    forall o, MoveInstantaneousReward.toCore {| MoveInstantaneousReward.inner := b; MoveInstantaneousReward.originalBytes := o |} = Ok (MirCertificate kind c q pot).
Proof.
  intros Hz. unfold MoveInstantaneousReward.fromEmbedded. rewrite mir_peek by done. cbn [mbind outcome_bind].
  pose proof mir_fields as Hf. pose proof (potNumber_safe pot) as Hp. set (hex := Buffer_to_hex _).
  destruct kind, c as [x|]; try done; cbn in Hm; cbn [mirFields] in *.
  - exists (MoveInstantaneousReward.AToOtherPot (MoveInstantaneousRewardToOtherPot.Build_t pot q (Some hex))). split; [|done].
    assert (E : MoveInstantaneousRewardToOtherPot.fromCbor hex = Ok (MoveInstantaneousRewardToOtherPot.Build_t pot q (Some hex))).
    { apply decode_completes; [done..|]. apply completes_guard; [done|]. read_fields. apply completes_guard; [apply potNumber_bounds|].
      rewrite potOf_number. apply completes_ret. }
    by rewrite E.
  - exists (MoveInstantaneousReward.AToStakeCreds (MoveInstantaneousRewardToStakeCreds.Build_t pot [(x, q)] (Some hex))). split; [|done].
    apply andb_true_iff in Hm as [Hc Hq]. destruct (field_credential x Hc) as [Hci _], (field_int q Hq) as [Hqi _].
    assert (R : reads (readMapOf MoveInstantaneousRewardToStakeCreds.readEntry) (rewardFields x q) [(x, q)]).
    { rewrite rewardFields_map. apply readMapOf_reads; [done| |by apply Forall_singleton]. constructor; [|constructor].
      split; [by exists (credentialBytes x), (intBytes q)|by apply rewardEntry_reads]. }
    assert (E : MoveInstantaneousRewardToStakeCreds.fromCbor hex = Ok (MoveInstantaneousRewardToStakeCreds.Build_t pot [(x, q)] (Some hex))).
    { apply decode_completes; [done..|]. apply completes_guard; [done|]. read_fields. apply completes_guard; [apply potNumber_bounds|].
      apply (completes_ext _ _ (l ← readMapOf MoveInstantaneousRewardToStakeCreds.readEntry;
        mret (MoveInstantaneousRewardToStakeCreds.Build_t pot l (Some hex)))).
      - rewrite potOf_number. intros r. unfold readMapOf. same_program.
      - eapply completes_bind; [exact R|apply completes_ret]. }
    by rewrite E.
Qed.
End one.
End mir.

(** ** All certificates *)

Section certificate.
Context `{Era} `{Crc32} {CL : Crc32Laws} `{BaseEncoding} `{Bech32} `{IpAddress} {IL : IpAddressLaws}.

Definition certificateKind (c : CoreCertificate) : Z :=
  match c with
  | StakeRegistrationCertificate _ => 0
  | StakeDeregistrationCertificate _ => 1
  | StakeDelegationCertificate _ _ => 2
  | PoolRegistrationCertificate _ => 3
  | PoolRetirementCertificate _ _ => 4
  | GenesisKeyDelegationCertificate _ _ _ => 5
  | MirCertificate _ _ _ _ => 6
  | RegistrationCertificate _ _ => 7
  | UnRegistrationCertificate _ _ => 8
  | VoteDelegationCertificate _ _ => 9
  | StakeVoteDelegationCertificate _ _ _ => 10
  | StakeRegistrationDelegateCertificate _ _ _ => 11
  | VoteRegistrationDelegateCertificate _ _ _ => 12
  | StakeVoteRegistrationDelegateCertificate _ _ _ _ => 13
  | AuthorizeCommitteeHotCertificate _ _ => 14
  | ResignCommitteeColdCertificate _ _ => 15
  | RegisterDelegateRepresentativeCertificate _ _ _ => 16
  | UnregisterDelegateRepresentativeCertificate _ _ => 17
  | UpdateDelegateRepresentativeCertificate _ _ => 18
  end.

(** The fields after the kind, as the ledger's CDDL has them. *)
Definition certificateFields (c : CoreCertificate) : list (list Z) :=
  match c with
  | StakeRegistrationCertificate c => [credentialBytes c]
  | StakeDeregistrationCertificate c => [credentialBytes c]
  | StakeDelegationCertificate c p => [credentialBytes c; blobBytes (poolHash p)]
  | PoolRegistrationCertificate p => poolFields p
  | PoolRetirementCertificate p e => [blobBytes (poolHash p); intBytes e]
  | GenesisKeyDelegationCertificate g d v => [blobBytes g; blobBytes d; blobBytes v]
  | MirCertificate k c q pot => [recordBytes (mirFields k c q pot)]
  | RegistrationCertificate c d => [credentialBytes c; intBytes d]
  | UnRegistrationCertificate c d => [credentialBytes c; intBytes d]
  | VoteDelegationCertificate c r => [credentialBytes c; drepBytes r]
  | StakeVoteDelegationCertificate c p r => [credentialBytes c; blobBytes (poolHash p); drepBytes r]
  | StakeRegistrationDelegateCertificate c p d => [credentialBytes c; blobBytes (poolHash p); intBytes d]
  | VoteRegistrationDelegateCertificate c r d => [credentialBytes c; drepBytes r; intBytes d]
  | StakeVoteRegistrationDelegateCertificate c p r d => [credentialBytes c; blobBytes (poolHash p); drepBytes r; intBytes d]
  | AuthorizeCommitteeHotCertificate c h => [credentialBytes c; credentialBytes h]
  | ResignCommitteeColdCertificate c a => [credentialBytes c; nullableBytes anchorBytes a]
  | RegisterDelegateRepresentativeCertificate c d a => [credentialBytes c; intBytes d; nullableBytes anchorBytes a]
  | UnregisterDelegateRepresentativeCertificate c d => [credentialBytes c; intBytes d]
  | UpdateDelegateRepresentativeCertificate c a => [credentialBytes c; nullableBytes anchorBytes a]
  end.

Definition certificateBytes (c : CoreCertificate) : list Z := recordBytes (intBytes (certificateKind c) :: certificateFields c).

Definition isCertificate (c : CoreCertificate) : bool :=
  match c with
  | StakeRegistrationCertificate c => isCredential c
  | StakeDeregistrationCertificate c => isCredential c
  | StakeDelegationCertificate c p => isCredential c && isPoolId p
  | PoolRegistrationCertificate p => isPool p
  | PoolRetirementCertificate p e => isPoolId p && isSafe e
  | GenesisKeyDelegationCertificate g d v => isHash 56 g && isHash 56 d && isHash 64 v
  | MirCertificate k c q _ => isMir k c q
  | RegistrationCertificate c d => isCredential c && isInt64 d
  | UnRegistrationCertificate c d => isCredential c && isInt64 d
  | VoteDelegationCertificate c r => isCredential c && isDRep r
  | StakeVoteDelegationCertificate c p r => isCredential c && isPoolId p && isDRep r
  | StakeRegistrationDelegateCertificate c p d => isCredential c && isPoolId p && isInt64 d
  | VoteRegistrationDelegateCertificate c r d => isCredential c && isDRep r && isInt64 d
  | StakeVoteRegistrationDelegateCertificate c p r d => isCredential c && isPoolId p && isDRep r && isInt64 d
  | AuthorizeCommitteeHotCertificate c h => isCredential c && isCredential h
  | ResignCommitteeColdCertificate c a => isCredential c && validOption a
  | RegisterDelegateRepresentativeCertificate c d a => isCredential c && isInt64 d && validOption a
  | UnregisterDelegateRepresentativeCertificate c d => isCredential c && isInt64 d
  | UpdateDelegateRepresentativeCertificate c a => isCredential c && validOption a
  end.

(** What is known of a decoded certificate. *)
Definition certificateTyped (b : Certificate.body) : bool :=
  match b with
  | Certificate.AStakeRegistration c => isCredential (StakeRegistration.credential c)
  | Certificate.AStakeDeregistration c => isCredential (StakeDeregistration.credential c)
  | Certificate.AStakeDelegation c => isCredential (StakeDelegation.credential c) && isHash 56 (StakeDelegation.poolKeyHash c)
  | Certificate.APoolRegistration c => poolTyped (PoolRegistration.params c)
  | Certificate.APoolRetirement c => isHash 56 (PoolRetirement.poolKeyHash c)
  | Certificate.AGenesisKeyDelegation c => isHash 56 (GenesisKeyDelegation.genesisHash c) && isHash 56 (GenesisKeyDelegation.genesisDelegateHash c) && isHash 64 (GenesisKeyDelegation.vrfKeyHash c)
  | Certificate.AMoveInstantaneousReward c =>
      match MoveInstantaneousReward.inner c with
      | MoveInstantaneousReward.AToOtherPot c => isInt64 (MoveInstantaneousRewardToOtherPot.amount c)
      | MoveInstantaneousReward.AToStakeCreds c => forallb (fun e => isCredential e.1 && isInt64 e.2) (MoveInstantaneousRewardToStakeCreds.credentials c)
      end
  | Certificate.ARegistration c => isCredential (Registration.credential c) && isInt64 (Registration.deposit c)
  | Certificate.AnUnregistration c => isCredential (Unregistration.credential c) && isInt64 (Unregistration.deposit c)
  | Certificate.AVoteDelegation c => isCredential (VoteDelegation.credential c) && drepTyped (VoteDelegation.dRep c)
  | Certificate.AStakeVoteDelegation c => isCredential (StakeVoteDelegation.credential c) && isHash 56 (StakeVoteDelegation.poolKeyHash c) && drepTyped (StakeVoteDelegation.dRep c)
  | Certificate.AStakeRegistrationDelegation c => isCredential (StakeRegistrationDelegation.credential c) && isHash 56 (StakeRegistrationDelegation.poolKeyHash c) && isInt64 (StakeRegistrationDelegation.deposit c)
  | Certificate.AVoteRegistrationDelegation c => isCredential (VoteRegistrationDelegation.credential c) && drepTyped (VoteRegistrationDelegation.dRep c) && isInt64 (VoteRegistrationDelegation.deposit c)
  | Certificate.AStakeVoteRegistrationDelegation c => isCredential (StakeVoteRegistrationDelegation.credential c) && isHash 56 (StakeVoteRegistrationDelegation.poolKeyHash c) && drepTyped (StakeVoteRegistrationDelegation.dRep c) && isInt64 (StakeVoteRegistrationDelegation.deposit c)
  | Certificate.AnAuthCommitteeHot c => isCredential (AuthCommitteeHot.committeeColdCred c) && isCredential (AuthCommitteeHot.committeeHotCred c)
  | Certificate.AResignCommitteeCold c => isCredential (ResignCommitteeCold.committeeColdCred c) && typedOption (ResignCommitteeCold.anchor c)
  | Certificate.ARegisterDelegateRepresentative c => isCredential (RegisterDelegateRepresentative.drepCredential c) && isInt64 (RegisterDelegateRepresentative.deposit c) && typedOption (RegisterDelegateRepresentative.anchor c)
  | Certificate.AnUnregisterDelegateRepresentative c => isCredential (UnregisterDelegateRepresentative.drepCredential c) && isInt64 (UnregisterDelegateRepresentative.deposit c)
  | Certificate.AnUpdateDelegateRepresentative c => isCredential (UpdateDelegateRepresentative.drepCredential c) && typedOption (UpdateDelegateRepresentative.anchor c)
  end.

Lemma poolId_spec p : isPoolId p = true ->
  isHash 56 (poolHash p) = true /\ PoolId.toKeyHash p = Ok (poolHash p) /\ PoolId.fromKeyHash (poolHash p) = Ok p.
Proof.
  unfold isPoolId. intros Hp. split_bool. repeat match goal with E : bool_decide _ = true |- _ => apply bool_decide_eq_true in E end. done.
Qed.

(** The parts of a certificate that have checks of their own. *)
Ltac certificate_parts :=
  split_bool; repeat match goal with
  | E : isPoolId ?p = true |- _ => apply poolId_spec in E as (? & ? & ?)
  end.

Lemma certificate_fields c : isCertificate c = true -> Forall field (intBytes (certificateKind c) :: certificateFields c).
Proof.
  intros Hc. constructor; [apply field_int; by destruct c|].
  destruct c; cbn [isCertificate certificateFields] in *; certificate_parts; try by fields.
  - by apply pool_fields.
  - apply Forall_singleton, field_record; [by rewrite mir_count|by apply mir_fields].
Qed.

Lemma certificate_count c : 1 <= zlen (intBytes (certificateKind c) :: certificateFields c) < 2 ^ 53.
Proof. by destruct c. Qed.

Ltac reduce :=
  cbv beta iota delta [Certificate.fromCore Certificate.toCore Certificate.inner Certificate.new mbind outcome_bind
    StakeRegistration.fromCore StakeRegistration.toCore StakeDeregistration.fromCore StakeDeregistration.toCore
    StakeDelegation.fromCore StakeDelegation.toCore PoolRetirement.fromCore PoolRetirement.toCore GenesisKeyDelegation.fromCore
    GenesisKeyDelegation.toCore Registration.fromCore Registration.toCore Unregistration.fromCore Unregistration.toCore
    VoteDelegation.fromCore VoteDelegation.toCore StakeVoteDelegation.fromCore StakeVoteDelegation.toCore
    StakeRegistrationDelegation.fromCore StakeRegistrationDelegation.toCore VoteRegistrationDelegation.fromCore
    VoteRegistrationDelegation.toCore StakeVoteRegistrationDelegation.fromCore StakeVoteRegistrationDelegation.toCore
    AuthCommitteeHot.fromCore AuthCommitteeHot.toCore ResignCommitteeCold.fromCore ResignCommitteeCold.toCore
    RegisterDelegateRepresentative.fromCore RegisterDelegateRepresentative.toCore UnregisterDelegateRepresentative.fromCore
    UnregisterDelegateRepresentative.toCore UpdateDelegateRepresentative.fromCore UpdateDelegateRepresentative.toCore];
  cbn -[fmap anchorFromCore DRep.toCore DRep.fromCore PoolId.toKeyHash PoolId.fromKeyHash].
Ltac built := reduce; repeat match goal with E : _ = Ok _ |- _ => rewrite E; reduce end; try congruence; reflexivity.
Ltac written := unfold certificateBytes; cbn [certificateKind certificateFields]; apply encode_group; [done..|emit_fields].

(** Every kind is built from its core value and written as specified. *)
Lemma certificate_encodes c : isCertificate c = true -> exists o, Certificate.fromCore c = Ok o /\ Certificate.toCore o = Ok c /\
  Certificate.toCbor o = Ok (Buffer_to_hex (certificateBytes c)).
Proof.
  destruct c; cbn [isCertificate]; intros Hc; certificate_parts;
    repeat match goal with E : validOption (T := Anchor.t) _ = true |- _ =>
      let x := fresh "x" in let Ex := fresh "Ex" in let Hx := fresh "Hx" in
      destruct (anchor_fromCore _ E) as (x & Ex & Hx); pose proof (anchor_toCore _ _ Hx); revert E end; intros;
    repeat match goal with E : isDRep _ = true |- _ => pose proof (drep_toCore _ E); revert E end; intros;
    try by (eexists; split_and!; [built|built|written]).
  - destruct (pool_fromCore _ Hc) as (o & Eo & Ho & He). eexists. split_and!; [cbn; unfold PoolRegistration.fromCore; by rewrite Eo|cbn; unfold PoolRegistration.toCore; cbn; by rewrite Ho|].
    apply encode_group; [done..|exact He].
  - destruct (mir_encodes _ _ _ pot Hc) as (m & E1 & E2 & E3). exists (Certificate.new (Certificate.AMoveInstantaneousReward m)). split_and!; [cbn; by rewrite E1|exact E2|exact E3].
Qed.

(** *** Decoding *)

Lemma wrap_ok {A B} (x : Res A) (f : A -> B) v : x = Ok v -> (y ← x; Ok (f y)) = Ok (f v).
Proof. by intros ->. Qed.

Ltac kinds := unfold Certificate.fromCborKind; cbn [certificateKind Z.eqb Pos.eqb
  CertificateKind.StakeRegistration CertificateKind.StakeDeregistration CertificateKind.StakeDelegation CertificateKind.PoolRegistration
  CertificateKind.PoolRetirement CertificateKind.GenesisKeyDelegation CertificateKind.MoveInstantaneousRewards CertificateKind.Registration
  CertificateKind.Unregistration CertificateKind.VoteDelegation CertificateKind.StakeVoteDelegation CertificateKind.StakeRegistrationDelegation
  CertificateKind.VoteRegistrationDelegation CertificateKind.StakeVoteRegistrationDelegation CertificateKind.AuthCommitteeHot
  CertificateKind.ResignCommitteeCold CertificateKind.DrepRegistration CertificateKind.DrepUnregistration CertificateKind.UpdateDrep].

(** The part of the kind is read back. *)
Lemma certificate_decodes c : isCertificate c = true -> zlen (certificateBytes c) < 2 ^ 53 ->
  exists b, Certificate.fromCborKind (certificateKind c) (Buffer_to_hex (certificateBytes c)) = Ok b /\
    forall o, Certificate.toCore {| Certificate.inner := b; Certificate.originalBytes := o |} = Ok c.
Proof.
  intros Hc Hz. pose proof (certificate_fields c Hc) as Hf.
  assert (Hsub : forall l, In l (certificateFields c) -> zlen l < 2 ^ 53).
  { intros l Hl. eapply Z.le_lt_trans; [|exact Hz]. etrans; [|apply record_size]. apply part_size. by right. }
  unfold certificateBytes in *. destruct c; cbn [isCertificate certificateFields certificateKind] in *; certificate_parts;
    repeat match goal with E : validOption (T := Anchor.t) _ = true |- _ =>
      let x := fresh "x" in let Rx := fresh "Rx" in let Hx := fresh "Hx" in
      destruct (anchor_reads _ E) as (x & Rx & Hx); [apply Hsub; cbn; tauto|]; pose proof (anchor_toCore _ _ Hx); revert E end; intros;
    repeat match goal with E : isDRep _ = true |- _ => pose proof (drep_toCore _ E); revert E end; intros;
    kinds; try by (eexists; split; [apply wrap_ok; apply decode_completes; [done|exact Hf|exact Hz|read_fields]|intros; built]).
  - destruct (pool_reads _ Hc) as (o & Ro & Ho & _); [eapply Z.le_lt_trans; [|exact Hz]; etrans; [|apply record_size]; cbn [concat]; rewrite zlen_app; pose proof (zlen_nonneg (intBytes 3)); lia|].
    eexists. split.
    + apply wrap_ok, decode_completes; [done|exact Hf|exact Hz|]. apply completes_length. eapply completes_bind; [eauto with codec|]. cbv beta.
      rewrite <- (app_nil_r (poolFields _)). eapply (completes_bindN 9); [done|done|exact Ro|]. apply completes_end. intros; reflexivity.
    + intros. cbn. unfold PoolRegistration.toCore. cbn. by rewrite Ho.
  - destruct (mir_embedded _ _ _ pot Hc) as (b & Eb & Hb); [apply Hsub; by left|].
    inversion_clear Hf as [|? ? _ Hf']. inversion_clear Hf' as [|? ? Hm _]. eexists. split.
    + apply wrap_ok, decode_completes; [done|by fields|exact Hz|]. apply completes_guard; [done|]. eapply completes_bind; [eauto with codec|]. cbv beta.
      eapply completes_bind; [apply readNested_reads; [apply Hm|exact Eb]|]. apply completes_ret.
    + intros. cbn. apply Hb.
Qed.

Lemma certificate_readKind c : isCertificate c = true -> zlen (certificateBytes c) < 2 ^ 53 ->
  decode Certificate.readKind (Buffer_to_hex (certificateBytes c)) = Ok (certificateKind c).
Proof.
  intros Hc Hz. apply decode_completes; [apply certificate_count|by apply certificate_fields|done|].
  apply completes_last, readNumber_reads. by destruct c.
Qed.

(** *** Any input *)

Lemma accepts_wrap {A B} (m : HexBlob -> Res A) (f : A -> B) (P : A -> Prop) (Q : B -> Prop) : accepts m P -> (forall v, P v -> Q (f v)) ->
  accepts (fun cbor => y ← m cbor; Ok (f y)) Q.
Proof.
  intros Hm Hf cbor Hz. destruct (Hm cbor Hz) as [Ho HP]. destruct (m cbor) as [v|e|]; (split; [done|]); [|done..].
  intros ? [= <-]. by apply Hf, HP.
Qed.

Lemma potKind_accepts : accepts MoveInstantaneousRewardToOtherPot.fromCbor (fun c => isInt64 (MoveInstantaneousRewardToOtherPot.amount c) = true).
Proof. apply accepts_decode. intros cbor. unfold expectPair. sound_fields. by apply sound_ret. Qed.

Lemma sound_entry : advances MoveInstantaneousRewardToStakeCreds.readEntry (fun e => isCredential e.1 && isInt64 e.2 = true).
Proof.
  intros r Hw. eapply (advances_bind _ _ (fun _ => True)); [|intros ? _|exact Hw].
  - intros r1 Hw1. eapply runs_impl; [eapply enter_runs; [apply readStartArray_enters|done]|done].
  - eapply sound_bind; [apply sound_number|]. intros ty _. apply sound_guard. intros Ht. sound_fields. apply sound_ret.
    unfold isCredential. cbn. rewrite !andb_true_iff. split_and!; try done. zb. apply orb_true_iff. rewrite !Z.eqb_eq. lia.
Qed.

Lemma credsKind_accepts : accepts MoveInstantaneousRewardToStakeCreds.fromCbor
  (fun c => forallb (fun e => isCredential e.1 && isInt64 e.2) (MoveInstantaneousRewardToStakeCreds.credentials c) = true).
Proof.
  apply accepts_decode. intros cbor. unfold expectPair. sound_fields. eapply sound_bind; [apply sound_while, sound_entry|]. cbv beta. intros l Hl.
  sound_fields. apply sound_ret. cbn. apply forallb_forall. by apply List.Forall_forall.
Qed.

Lemma sound_peekKind : sound MoveInstantaneousReward.peekKind (fun _ => True).
Proof.
  unfold MoveInstantaneousReward.peekKind, MoveInstantaneousReward.expectElements. sound_fields.
  repeat (eapply sound_bind; [apply sound_peek|]; cbv beta; intros ? _; case_bool_decide; [by apply sound_ret|]). apply sound_throw.
Qed.

Lemma embedded_accepts : accepts MoveInstantaneousReward.fromEmbedded (fun b =>
  certificateTyped (Certificate.AMoveInstantaneousReward (MoveInstantaneousReward.new b)) = true).
Proof.
  intros cbor Hz. unfold MoveInstantaneousReward.fromEmbedded.
  destruct (accepts_decode (fun _ => MoveInstantaneousReward.peekKind) (fun _ => True)) with (cbor := cbor) as [Hk _]; [intros; apply sound_peekKind|done|].
  destruct (decode MoveInstantaneousReward.peekKind cbor) as [[]|e|]; [|..|done]; cbn [mbind outcome_bind]; [..|done].
  - by apply (accepts_wrap _ MoveInstantaneousReward.AToOtherPot _ _ potKind_accepts).
  - by apply (accepts_wrap _ MoveInstantaneousReward.AToStakeCreds _ _ credsKind_accepts).
Qed.

(** Whatever the kind, what is accepted has typed fields. *)
Lemma certificateKind_accepts kind : accepts (Certificate.fromCborKind kind) (fun b => certificateTyped b = true).
Proof.
  intros cbor Hz. unfold Certificate.fromCborKind.
  repeat match goal with |- context [if ?b then _ else _] => destruct b end; [..|done].
  all: match goal with |- ?o <> OutOfFuel /\ (forall v, ?o = Ok v -> ?P) =>
    match o with (mbind (fun x => Ok (?g x)) (?f _)) => apply (accepts_wrap f g (fun c => certificateTyped (g c) = true)); [|done..] end end.
  6: { apply accepts_decode. intros. unfold MoveInstantaneousReward.expectElements. sound_fields.
       eapply sound_bind; [apply sound_nested, embedded_accepts|]. intros b Hb. apply sound_ret. exact Hb. }
  5: { apply accepts_decode. intros. sound_fields. eapply sound_bind; [exact pool_sound|]. intros. sound_fields. by apply sound_ret. }
  all: try by (apply accepts_decode; intros; sound_fields; apply sound_ret; cbn [certificateTyped]; rewrite ?andb_true_iff; repeat apply conj).
Qed.

Lemma certificate_accepts : accepts Certificate.fromCbor (fun c => certificateTyped (Certificate.inner c) = true).
Proof.
  intros cbor Hz. unfold Certificate.fromCbor.
  destruct (accepts_decode (fun _ => Certificate.readKind) (fun _ => True)) with (cbor := cbor) as [Hk _]; [|done|].
  { intros _. unfold Certificate.readKind. eapply sound_bind; [apply sound_startArray|]. intros. apply sound_number. }
  destruct (decode Certificate.readKind cbor) as [kind|e|]; [|done..]. cbn [mbind outcome_bind].
  destruct (certificateKind_accepts kind cbor Hz) as [Hf Ho]. destruct (Certificate.fromCborKind kind cbor) as [b|e|]; (split; [done|]); intros ? [= <-].
  by apply (Ho b).
Qed.

(** The class implements the interface. *)
#[export] Instance certificate_serializable : Serializable CoreCertificate Certificate.t := {
  toCbor_of := Certificate.toCbor;
  fromCbor_of := Certificate.fromCbor;
  toCore_of := Certificate.toCore;
  fromCore_of := Certificate.fromCore;
  bytesOf := certificateBytes;
  validCore := isCertificate;
  typed c := certificateTyped (Certificate.inner c)
}.

#[export] Instance certificate_laws : SerializableLaws CoreCertificate Certificate.t.
Proof.
  split; cbn [bytesOf validCore fromCore_of fromCbor_of certificate_serializable].
  - intros c Hc. pose proof (certificate_count c). apply field_record; [lia|by apply certificate_fields].
  - intros c _. pose proof (certificate_count c). apply (starts_not_null Array); [done|apply starts_record; lia].
  - intros c Hc. destruct (certificate_encodes c Hc) as (o & E1 & E2 & E3). by exists o.
  - intros c Hc Hz. pose proof (certificate_count c). destruct (certificate_decodes c Hc Hz) as (b & Eb & Hb). eexists. split.
    + unfold Certificate.fromCbor. rewrite certificate_readKind by done. cbn [mbind outcome_bind]. by rewrite Eb.
    + split; [apply Hb|]. apply cached_record; [lia|by apply certificate_fields].
  - apply certificate_accepts.
Qed.
End certificate.

(** ** Certificates: the properties

    The round trip of the nineteen kinds, what their decoder does on any blob,
    and what the wrapper and the rewards certificate lose. *)

(** ** Instances for the witnesses *)

(** Dotted decimals; no textual form of the longer addresses. *)
Definition ip_ref : IpAddress := {|
  Address4_isValid s := let l := map (parseInt 0) (splitDots s) in
    (zlen l =? 4) && forallb (fun b => b <? 256) l && String.eqb (joinDots (map pretty l)) s;
  Address6_isValid _ := false;
  Address6_toUnsignedByteArray _ := [];
  Address6_canonicalForm _ := Throw (JsError "unknown form")
|}.

Lemma ip_ref_laws : @IpAddressLaws ip_ref.
Proof. by intros l. Qed.

Definition conway : Era := true.

Definition demo_pool : string := match @PoolId.fromKeyHash npm_ref demo_hash with Ok s => s | _ => "" end.
Definition demo_credential : Credential := Build_Credential demo_hash 0.

(** ** Properties *)

Section properties.
Context `{Era} `{Crc32} {CL : Crc32Laws} `{BaseEncoding} `{Bech32} `{IpAddress} {IL : IpAddressLaws}.

(** A decoded certificate remembers its blob. *)
Lemma certificate_remembers cbor o : Certificate.fromCbor cbor = Ok o -> remembered (Certificate.originalBytes o) = Some cbor.
Proof.
  unfold Certificate.fromCbor. destruct (String.eqb_spec cbor "") as [->|Hne].
  - assert (exists e, decode Certificate.readKind "" = Throw e) as [e ->] by (eexists; vm_compute; reflexivity). done.
  - destruct (decode _ cbor) as [kind|e|]; [|done..]. cbn [mbind outcome_bind].
    destruct (Certificate.fromCborKind kind cbor) as [b|e|]; [|done..]. intros [= <-]. cbn. by destruct (String.eqb_spec cbor "").
Qed.

(** C11. Certificates of all nineteen kinds survive serialization: a valid
    certificate is converted to an object that is written as the ledger's CDDL
    specifies, and the bytes are read back to an object that stands for the
    same certificate and is written as the same bytes. *)
Theorem certificate_round_trip c : isCertificate c = true -> zlen (certificateBytes c) < 2 ^ 53 ->
  (exists o, Certificate.fromCore c = Ok o /\ Certificate.toCore o = Ok c /\ Certificate.toCbor o = Ok (Buffer_to_hex (certificateBytes c))) /\
  (exists o, Certificate.fromCbor (Buffer_to_hex (certificateBytes c)) = Ok o /\ Certificate.toCore o = Ok c /\
    Certificate.toCbor o = Ok (Buffer_to_hex (certificateBytes c))).
Proof.
  intros Hc Hz. split.
  - exact (fromCore_standsFor (C := CoreCertificate) (T := Certificate.t) c Hc).
  - exact (fromCbor_standsFor (C := CoreCertificate) (T := Certificate.t) c Hc Hz).
Qed.


(** A certificate that was decoded ignores changes of the certificate it wraps:
    the accessors hand out the wrapped object, whose setters forget its own
    blob, but the wrapper still returns the blob it was decoded from, while its
    core value shows the change. *)
Theorem certificate_setters_are_not_encoded cbor o f : Certificate.fromCbor cbor = Ok o ->
  Certificate.toCbor (Certificate.modify f o) = Certificate.toCbor o /\
  Certificate.toCore (Certificate.modify f o) = Certificate.toCore (Certificate.new (f (Certificate.inner o))).
Proof.
  intros E. split; [|by unfold Certificate.toCore, Certificate.modify].
  unfold Certificate.toCbor, Certificate.modify, cached. cbn [Certificate.originalBytes]. by rewrite (certificate_remembers _ _ E).
Qed.
End properties.

(** ** Witnesses *)

#[local] Existing Instance ip_ref.
#[local] Existing Instance sum32.
#[local] Existing Instance npm_ref.
#[local] Existing Instance conway.
#[local] Existing Instance ip_ref_laws.
#[local] Existing Instance sum32_laws.

Definition demo_vote : CoreCertificate := StakeVoteDelegationCertificate demo_credential demo_pool (DRepCredential demo_credential).
Definition demo_cbor : string := Buffer_to_hex (certificateBytes demo_vote).

Lemma certificate_round_trip_witness : exists o, Certificate.fromCbor demo_cbor = Ok o /\ Certificate.toCore o = Ok demo_vote.
Proof.
  destruct (certificate_round_trip demo_vote) as [_ (o & E & Ec & _)]; [vm_compute; reflexivity|vm_compute; reflexivity|].
  exists o. split; [exact E|exact Ec].
Defined.


(** The deposit of a decoded registration is raised. *)
Definition raise (b : Certificate.body) : Certificate.body :=
  match b with Certificate.ARegistration c => Certificate.ARegistration (Registration.setDeposit c 5) | b => b end.

Lemma certificate_setters_are_not_encoded_witness :
  exists o, Certificate.fromCbor (Buffer_to_hex (certificateBytes (RegistrationCertificate demo_credential 2))) = Ok o /\
    Certificate.toCore (Certificate.modify raise o) = Ok (RegistrationCertificate demo_credential 5) /\
    Certificate.toCbor (Certificate.modify raise o) = Ok (Buffer_to_hex (certificateBytes (RegistrationCertificate demo_credential 2))).
Proof.
  set (cbor := Buffer_to_hex _). destruct (Certificate.fromCbor cbor) as [o|e|] eqn:E; [|exfalso; vm_compute in E; discriminate E..].
  exists o. destruct (certificate_setters_are_not_encoded cbor o raise E) as [E1 E2]. split; [reflexivity|].
  vm_compute in E. injection E as <-. split; [rewrite E2; vm_compute; reflexivity|rewrite E1; vm_compute; reflexivity].
Defined.

(** Rewards of 7 and 9 for two credentials. *)
Definition two_rewards : string := Buffer_to_hex (recordBytes [intBytes 6; recordBytes [intBytes 0;
  CborWriter.head Map 2 ++ credentialBytes demo_credential ++ intBytes 7 ++ credentialBytes (Build_Credential demo_hash 1) ++ intBytes 9]]).

Definition one_reward : CoreCertificate := MirCertificate ToStakeCreds (Some demo_credential) 7 Reserves.

(** Rewards for two credentials: the core value keeps one of them only, so a
    certificate that is decoded, converted to the core type and back is written
    as another certificate. *)
Theorem mir_core_drops_rewards :
  (o ← Certificate.fromCbor two_rewards; Certificate.toCbor o) = Ok two_rewards /\
  (o ← Certificate.fromCbor two_rewards; Certificate.toCore o) = Ok one_reward /\
  (o ← Certificate.fromCore one_reward; Certificate.toCbor o) = Ok (Buffer_to_hex (certificateBytes one_reward)) /\
  Buffer_to_hex (certificateBytes one_reward) <> two_rewards.
Proof. split_and!; [vm_compute; reflexivity..|]. vm_compute. discriminate. Qed.

(** The rewards are sorted by the decimal text of their amounts, in which 10
    comes before 9; the order of the keys, which the canonical form asks for,
    plays no part. *)
Theorem mir_rewards_sorted_by_text :
  let entry t := (Build_Credential demo_hash t, if t =? 0 then 9 else 10) in
  (sort_by MoveInstantaneousRewardToStakeCreds.entryGreater [entry 0; entry 1]) = [entry 1; entry 0].
Proof. vm_compute. reflexivity. Qed.
