(* ===== verification/Values.v ===== *)
(** * Values: coins and token bundles

    Models the [Value], [TxOut] and [Utxo] types of
    [packages/core/src/Cardano/types], [BigIntMath] of [packages/util], and
    the arithmetic on token maps of [core/src/Asset/util], [core/src/util] and
    [input-selection/src/util.ts].  A [TokenMap] is a JavaScript [Map] in
    insertion order.  The functions of lodash that the sources call are the
    operations of a class with their documented laws. *)

From S2P Require Import Prelude JsRuntime.

(** ** Data *)

Abbreviation AssetId := string (only parsing).
Abbreviation TokenMap := (list (AssetId * Z)) (only parsing).

Record Value : Set := { coins : Z; assets : option TokenMap }.

Record HydratedTxIn : Set := { txId : string; index : Z; inAddress : string }.

(** The optional datum and script fields are carried along as they are;
    their contents are opaque here. *)
Record TxOut : Set := {
  address : string;
  value : Value;
  datumHash : option string;
  datum : option string;
  scriptReference : option string
}.

(** [Utxo] is a pair [[txIn, txOut]]; sets and [indexOf] compare the pair, or
    its first component, by reference: [ref] and [txInRef] stand for these. *)
Record Utxo : Set := { ref : Z; txInRef : Z; txIn : HydratedTxIn; txOut : TxOut }.

#[export] Instance Value_eq_dec : EqDecision Value.
Proof. solve_decision. Defined.

(** ** lodash

    [uniq] keeps the first occurrence of every element; [orderBy] with
    ['desc'] is a stable sort by a key; [minBy] finds an element with the
    least key, here as its position since callers update it in place. *)
Class Lodash := {
  uniq : list AssetId -> list AssetId;
  orderByDesc : forall {A : Set}, (A -> Z) -> list A -> list A;
  minByIndex : forall {A : Set}, (A -> Z) -> list A -> nat
}.

Class LodashLaws `{Lodash} : Prop := {
  uniq_NoDup l : NoDup (uniq l);
  uniq_elem l x : x ∈ uniq l <-> x ∈ l;
  orderByDesc_perm {A : Set} (key : A -> Z) l : orderByDesc key l ≡ₚ l;
  orderByDesc_sorted {A : Set} (key : A -> Z) l : StronglySorted (fun x y => key y <= key x) (orderByDesc key l);
  minByIndex_spec {A : Set} (key : A -> Z) l : l <> [] ->
    exists x, l !! minByIndex key l = Some x /\ forall y, y ∈ l -> key x <= key y
}.

(** ** BigIntMath *)

Module BigIntMath.
Definition abs (x : Z) : Z := if x <? 0 then - x else x.
Definition max (arr : list Z) : option Z :=
  match arr with
  | [] => None
  | x :: rest => Some (fold_left (fun max num => if max <? num then num else max) rest x)
  end.
Definition subtract (arr : list Z) : Z :=
  match arr with
  | [] => 0
  | x :: rest => fold_left (fun result num => result - num) rest x
  end.
Definition sum (arr : list Z) : Z := fold_left (fun result num => result + num) arr 0.
End BigIntMath.

(** ** Token maps *)

(** [map.get(id) || 0n]. *)
Definition getOr0 (m : TokenMap) (id : AssetId) : Z :=
  match JsMap.get m id with Some q => q | None => 0 end.

(** [assets?.get(id) || 0n]. *)
Definition quantity (m : option TokenMap) (id : AssetId) : Z :=
  match m with Some m => getOr0 m id | None => 0 end.

(** [if (value !== 0n) result.set(key, value)]. *)
Definition setNonZero (result : TokenMap) (key : AssetId) (value : Z) : TokenMap :=
  if value =? 0 then result else JsMap.set result key value.

Definition coalesceTokenMaps (totals : list (option TokenMap)) : option TokenMap :=
  let result :=
    fold_left (fun result assetTotals =>
      fold_left (fun result '(assetId, assetQuantity) =>
          JsMap.set result assetId (getOr0 result assetId + assetQuantity))
        assetTotals result)
      (omap id totals) [] in
  if JsMap.size result =? 0 then None else Some result.

Definition coalesceValueQuantities (quantities : list Value) : Value :=
  {| assets := coalesceTokenMaps (assets <$> quantities);
     coins := BigIntMath.sum (coins <$> quantities) |}.

Definition removeNegativesFromTokenMap (m : TokenMap) : TokenMap :=
  fold_left (fun result '(assetId, assetQuantity) =>
      if assetQuantity <? 0 then JsMap.delete result assetId else result)
    m (JsMap.of_entries m).

Section lodash.
Context `{Lodash}.

(** The loops over [lhs] and [rhs]: keys of the other map are set aside. *)
Definition collect (sign : Z -> Z) (other : TokenMap) (this : TokenMap)
    (acc : TokenMap * list AssetId) : TokenMap * list AssetId :=
  fold_left (fun '(result, intersection) '(key, value) =>
      if JsMap.has other key then (result, intersection ++ [key])
      else (setNonZero result key (sign value), intersection))
    this acc.

(** The loop over the intersection. *)
Definition combine (op : Z -> Z -> Z) (lhs rhs : TokenMap) (ids : list AssetId) (result : TokenMap) : TokenMap :=
  fold_left (fun result id => setNonZero result id (op (getOr0 lhs id) (getOr0 rhs id))) ids result.

(** [subtractMaps] of [core], which is also [subtractTokenMaps] of
    [input-selection]. *)
Definition subtractMaps (lhs rhs : option TokenMap) : option TokenMap :=
  match lhs, rhs with
  | None, None => None
  | Some lhs, None => Some (fold_left (fun m '(key, value) => setNonZero m key value) lhs [])
  | None, Some rhs =>
      Some (fold_left (fun m '(key, value) =>
              if value =? 0 then m else JsMap.set m key (- value)) rhs [])
  | Some lhs, Some rhs =>
      let '(result, intersection) := collect (fun v => v) rhs lhs ([], []) in
      let '(result, intersection) := collect Z.opp lhs rhs (result, intersection) in
      Some (combine Z.sub lhs rhs (uniq intersection) result)
  end.

Definition subtractTokenMaps (maps : list (option TokenMap)) : option TokenMap :=
  match maps with
  | [] => None
  | m :: rest => fold_left subtractMaps rest m
  end.

Definition subtractValueQuantities (quantities : list Value) : Value :=
  {| assets := subtractTokenMaps (assets <$> quantities);
     coins := BigIntMath.subtract (coins <$> quantities) |}.

Definition addTokenMaps (lhs rhs : option TokenMap) : option TokenMap :=
  match lhs, rhs with
  | None, _ => rhs
  | _, None => lhs
  | Some lhs, Some rhs =>
      let '(result, intersection) := collect (fun v => v) rhs lhs ([], []) in
      let '(result, intersection) := collect (fun v => v) lhs rhs (result, intersection) in
      Some (combine Z.add lhs rhs (uniq intersection) result)
  end.
End lodash.

Definition hasNegativeAssetValue (m : option TokenMap) : bool :=
  match m with
  | None => false
  | Some m => existsb (fun quantity => quantity <? 0) (JsMap.values m)
  end.

(** ** Comparators for [Array.prototype.sort], negative when [lhs] is first *)

Definition sortByCoins (lhs rhs : TxOut) : Z :=
  if coins (value rhs) <? coins (value lhs) then -1
  else if coins (value lhs) <? coins (value rhs) then 1 else 0.

Definition sortByAssetQuantity (assetId : AssetId) (lhs rhs : TxOut) : Z :=
  let lhsQty := quantity (assets (value lhs)) assetId in
  let rhsQty := quantity (assets (value rhs)) assetId in
  if rhsQty <? lhsQty then -1 else if lhsQty <? rhsQty then 1 else 0.

(** [localeCompare] on transaction ids, which are lower-case hexadecimal. *)
Definition localeCompare (a b : string) : Z :=
  match String.compare a b with Lt => -1 | Eq => 0 | Gt => 1 end.

Definition sortTxIn (lhs rhs : HydratedTxIn) : Z :=
  let txIdComparison := localeCompare (txId lhs) (txId rhs) in
  if negb (txIdComparison =? 0) then txIdComparison else index lhs - index rhs.

Definition sortUtxoByTxIn (lhs rhs : Utxo) : Z := sortTxIn (txIn lhs) (txIn rhs).

(** [Array.prototype.sort]: stable. *)
Fixpoint sortInsert {A} (compare : A -> A -> Z) (x : A) (l : list A) : list A :=
  match l with
  | [] => [x]
  | y :: l' => if 0 <? compare x y then y :: sortInsert compare x l' else x :: l
  end.

Definition Array_sort {A} (compare : A -> A -> Z) (l : list A) : list A :=
  foldr (sortInsert compare) [] l.

(** ** Facts *)

Module BigIntMathFacts.
Import BigIntMath.

Lemma sum_from l a : fold_left (fun result num => result + num) l a = a + zsum l.
Proof. revert a. induction l as [|x l IH]; intros a; cbn; [lia|]. rewrite IH. unfold zsum. lia. Qed.

Lemma sum_zsum l : sum l = zsum l.
Proof. unfold sum. rewrite sum_from. lia. Qed.

Lemma subtract_from l a : fold_left (fun result num => result - num) l a = a - zsum l.
Proof. revert a. induction l as [|x l IH]; intros a; cbn; [lia|]. rewrite IH. unfold zsum. lia. Qed.

Lemma max_from l a : let m := fold_left (fun max num => if max <? num then num else max) l a in
  a <= m /\ Forall (fun x => x <= m) l /\ (m = a \/ m ∈ l).
Proof.
  revert a. induction l as [|x l IH]; intros a; cbn; [split_and!; [lia|constructor|by left]|].
  destruct (Z.ltb_spec a x).
  - destruct (IH x) as (H1 & H2 & H3). split_and!; [lia|by constructor|].
    right. apply elem_of_cons. naive_solver.
  - destruct (IH a) as (H1 & H2 & H3). split_and!; [lia|constructor; [lia|done]|].
    destruct H3; [by left|right; apply elem_of_cons; by right].
Qed.
End BigIntMathFacts.

Module ValuesFacts.
Import JsMapFacts.

(** A token map whose keys are distinct. *)
Abbreviation map_ok := (JsMap.wf (K := string) (V := Z)).

Definition assets_ok (m : option TokenMap) : Prop := match m with Some m => map_ok m | None => True end.

Lemma getOr0_set m k v i : getOr0 (JsMap.set m k v) i = if decide (k = i) then v else getOr0 m i.
Proof. unfold getOr0. rewrite get_set. by case_decide. Qed.

Lemma getOr0_setNonZero m k v i : (k = i -> v = 0 -> getOr0 m i = 0) ->
  getOr0 (setNonZero m k v) i = if decide (k = i) then v else getOr0 m i.
Proof.
  intros H0. unfold setNonZero. destruct (Z.eqb_spec v 0) as [->|]; [|apply getOr0_set].
  case_decide; [by apply H0|done].
Qed.

Lemma getOr0_absent m i : i ∉ JsMap.keys m -> getOr0 m i = 0.
Proof. intros Hi. unfold getOr0. by rewrite (proj2 (get_None m i) Hi). Qed.

Lemma getOr0_elem m i q : map_ok m -> (i, q) ∈ m -> getOr0 m i = q.
Proof. intros Hm Hi. unfold getOr0. by rewrite (elem_get m i q Hm Hi). Qed.

Lemma map_ok_cons k v m : map_ok ((k, v) :: m) <-> (k ∉ JsMap.keys m) /\ map_ok m.
Proof. unfold JsMap.wf, JsMap.keys. rewrite fmap_cons. apply NoDup_cons. Qed.

Lemma getOr0_cons k v m i : getOr0 ((k, v) :: m) i = if decide (k = i) then v else getOr0 m i.
Proof. unfold getOr0. cbn. by case_decide. Qed.

Lemma getOr0_filter (P : Z -> bool) m i : map_ok m ->
  getOr0 (filter (fun kv => P kv.2 = true) m) i = if P (getOr0 m i) then getOr0 m i else 0.
Proof.
  intros Hm. unfold getOr0. rewrite get_filter by done. destruct (JsMap.get m i) as [v|].
  - by destruct (P v).
  - by destruct (P 0).
Qed.

Lemma setNonZero_ok m k v : map_ok m -> map_ok (setNonZero m k v).
Proof. intros. unfold setNonZero. case_bool; auto with js. Qed.

(** A map without zero entries. *)
Definition no_zero (m : TokenMap) : Prop := Forall (fun kv => kv.2 <> 0) m.

Lemma set_no_zero m k v : v <> 0 -> no_zero m -> no_zero (JsMap.set m k v).
Proof.
  intros Hv. induction 1 as [|[k' v'] m Hz Hm IH]; cbn; [by constructor|].
  case_decide; by constructor.
Qed.

Lemma setNonZero_no_zero m k v : no_zero m -> no_zero (setNonZero m k v).
Proof. intros. unfold setNonZero. case_bool; [done|]. zb. by apply set_no_zero. Qed.

Lemma collect_cons sign other k v this res ints :
  collect sign other ((k, v) :: this) (res, ints) =
  collect sign other this (if JsMap.has other k then (res, ints ++ [k]) else (setNonZero res k (sign v), ints)).
Proof. done. Qed.

Lemma combine_cons op l r k ids res : combine op l r (k :: ids) res =
  combine op l r ids (setNonZero res k (op (getOr0 l k) (getOr0 r k))).
Proof. done. Qed.

(** A property of maps kept by [setNonZero] is kept by the loops. *)
Section loops.
Context (P : TokenMap -> Prop) (HP : forall m k v, P m -> P (setNonZero m k v)).

Lemma collect_keeps sign other this res ints : P res -> P (collect sign other this (res, ints)).1.
Proof.
  revert res ints. induction this as [|[k v] this IH]; intros res ints Hres; [done|].
  rewrite collect_cons. case_bool; apply IH; auto.
Qed.

Lemma combine_keeps op l r ids res : P res -> P (combine op l r ids res).
Proof. revert res. induction ids as [|i ids IH]; intros res Hres; [done|]. apply IH. auto. Qed.
End loops.

Lemma collect_quantity sign other this res ints i : map_ok this ->
  (i ∈ JsMap.keys this -> getOr0 res i = 0) ->
  getOr0 (collect sign other this (res, ints)).1 i =
  if bool_decide (i ∈ JsMap.keys this) && negb (JsMap.has other i) then sign (getOr0 this i) else getOr0 res i.
Proof.
  revert res ints. induction this as [|[k v] this IH]; intros res ints Hok Hres.
  { done. }
  apply map_ok_cons in Hok as [Hk Hok]. rewrite collect_cons.
  change (JsMap.keys ((k, v) :: this)) with (k :: JsMap.keys this) in *.
  rewrite getOr0_cons. setoid_rewrite elem_of_cons in Hres.
  destruct (JsMap.has other k) eqn:Eh; (rewrite IH; [|done|]).
  - destruct (decide (k = i)) as [->|Hne].
    + rewrite bool_decide_false by done. cbn. rewrite Eh, andb_false_r. done.
    + by rewrite (bool_decide_ext (i ∈ k :: JsMap.keys this) (i ∈ JsMap.keys this))
        by (rewrite elem_of_cons; intuition congruence).
  - auto.
  - assert (H0 : k = i -> getOr0 res i = 0) by auto.
    rewrite getOr0_setNonZero by auto. destruct (decide (k = i)) as [->|Hne].
    + rewrite bool_decide_false by done. rewrite (bool_decide_true (i ∈ i :: _)) by left. by rewrite Eh.
    + by rewrite (bool_decide_ext (i ∈ k :: JsMap.keys this) (i ∈ JsMap.keys this))
        by (rewrite elem_of_cons; intuition congruence).
  - intros Hi. rewrite getOr0_setNonZero by auto. rewrite decide_False by (intros ->; done). auto.
Qed.

Lemma collect_ids sign other this res ints i :
  i ∈ (collect sign other this (res, ints)).2 <-> i ∈ ints \/ (i ∈ JsMap.keys this /\ JsMap.has other i = true).
Proof.
  revert res ints. induction this as [|[k v] this IH]; intros res ints.
  { cbn. split; [by left|]. intros [|[[]%not_elem_of_nil _]]; done. }
  rewrite collect_cons. change (JsMap.keys ((k, v) :: this)) with (k :: JsMap.keys this).
  rewrite elem_of_cons. destruct (JsMap.has other k) eqn:Eh; rewrite IH.
  - rewrite elem_of_app, list_elem_of_singleton. split; [intuition auto; subst; auto|intuition auto].
  - intuition congruence.
Qed.

Lemma combine_quantity op l r ids res i : NoDup ids -> (i ∈ ids -> getOr0 res i = 0) ->
  getOr0 (combine op l r ids res) i =
  if bool_decide (i ∈ ids) then op (getOr0 l i) (getOr0 r i) else getOr0 res i.
Proof.
  revert res. induction ids as [|k ids IH]; intros res Hnd Hres; [done|].
  apply NoDup_cons in Hnd as [Hk Hnd]. setoid_rewrite elem_of_cons in Hres.
  rewrite combine_cons. rewrite IH; [|done|].
  - rewrite getOr0_setNonZero by auto. destruct (decide (k = i)) as [->|Hne].
    + rewrite bool_decide_false by done. by rewrite (bool_decide_true (i ∈ i :: _)) by left.
    + by rewrite (bool_decide_ext (i ∈ k :: ids) (i ∈ ids)) by (rewrite elem_of_cons; intuition congruence).
  - intros Hi. rewrite getOr0_setNonZero by auto. rewrite decide_False by (intros ->; done). auto.
Qed.

(** The loops shared by subtraction and addition: [f] and [g] are applied to
    the entries of one map only, [op] to the others. *)
Section merge.
Context {LD : Lodash} {LL : LodashLaws} (f g : Z -> Z) (op : Z -> Z -> Z) (l r : TokenMap).
Context (Hl : map_ok l) (Hr : map_ok r).
Context (Hf : forall x, op x 0 = f x) (Hg : forall x, op 0 x = g x) (Hop0 : op 0 0 = 0).

Definition merged : TokenMap :=
  let '(result, intersection) := collect f r l ([], []) in
  let '(result, intersection) := collect g l r (result, intersection) in
  combine op l r (uniq intersection) result.

Lemma merged_eq : merged =
  let c1 := collect f r l ([], []) in
  let c2 := collect g l r (c1.1, c1.2) in combine op l r (uniq c2.2) c2.1.
Proof. unfold merged. destruct (collect f r l ([], [])). cbn [fst snd]. by destruct (collect g l r _). Qed.

Lemma merged_keeps (P : TokenMap -> Prop) : P [] -> (forall m k v, P m -> P (setNonZero m k v)) -> P merged.
Proof.
  intros Hnil HP. rewrite merged_eq. cbv zeta.
  apply combine_keeps; [done|]. apply collect_keeps; [done|]. by apply collect_keeps.
Qed.

Lemma has_keys (m : TokenMap) i : JsMap.has m i = bool_decide (i ∈ JsMap.keys m).
Proof.
  destruct (JsMap.has m i) eqn:E; symmetry.
  - by apply bool_decide_true, has_spec.
  - apply bool_decide_false. intros Hi%has_spec. congruence.
Qed.

Lemma merged_quantity i : getOr0 merged i = op (getOr0 l i) (getOr0 r i).
Proof.
  pose proof (collect_quantity f r l [] [] i Hl (fun _ => eq_refl)) as H1.
  pose proof (collect_ids f r l [] [] i) as I1. unfold merged.
  destruct (collect f r l ([], [])) as [res1 ints1]. cbn [fst snd] in H1, I1.
  assert (Hc1 : i ∈ JsMap.keys r -> getOr0 res1 i = 0).
  { intros Hi. rewrite H1, (has_keys r i), (bool_decide_true _ Hi), andb_false_r. done. }
  pose proof (collect_quantity g l r res1 ints1 i Hr Hc1) as H2.
  pose proof (collect_ids g l r res1 ints1 i) as Hids. rewrite I1 in Hids.
  destruct (collect g l r (res1, ints1)) as [res2 ints2]. cbn [fst snd] in H2, Hids. rewrite !has_keys in *.
  destruct (decide (i ∈ JsMap.keys l)) as [Hil|Hil], (decide (i ∈ JsMap.keys r)) as [Hir|Hir];
    rewrite ?(bool_decide_true _ Hil), ?(bool_decide_false _ Hil), ?(bool_decide_true _ Hir),
      ?(bool_decide_false _ Hir) in *; cbn [andb negb] in *.
  - rewrite combine_quantity; [|apply uniq_NoDup|].
    + rewrite bool_decide_true; [done|]. apply uniq_elem, Hids. auto.
    + intros _. by rewrite H2, H1.
  - rewrite combine_quantity; [|apply uniq_NoDup|].
    + rewrite bool_decide_false; [|rewrite uniq_elem, Hids; intros [[[]%not_elem_of_nil|[_ ?]]|[? _]]; done].
      by rewrite H2, H1, (getOr0_absent r i Hir), Hf.
    + rewrite uniq_elem, Hids. intros [[[]%not_elem_of_nil|[_ ?]]|[? _]]; done.
  - rewrite combine_quantity; [|apply uniq_NoDup|].
    + rewrite bool_decide_false; [|rewrite uniq_elem, Hids; intros [[[]%not_elem_of_nil|[? _]]|[_ ?]]; done].
      by rewrite H2, (getOr0_absent l i Hil), Hg.
    + rewrite uniq_elem, Hids. intros [[[]%not_elem_of_nil|[? _]]|[_ ?]]; done.
  - rewrite combine_quantity; [|apply uniq_NoDup|].
    + rewrite bool_decide_false; [|rewrite uniq_elem, Hids; intros [[[]%not_elem_of_nil|[? _]]|[? _]]; done].
      by rewrite H2, H1, (getOr0_absent l i Hil), (getOr0_absent r i Hir), Hop0.
    + rewrite uniq_elem, Hids. intros [[[]%not_elem_of_nil|[? _]]|[? _]]; done.
Qed.
End merge.

(** *** Subtraction and addition *)

Section arithmetic.
Context {LD : Lodash} {LL : LodashLaws}.

Lemma subtractMaps_both l r : subtractMaps (Some l) (Some r) = Some (merged (fun v => v) Z.opp Z.sub l r).
Proof.
  unfold subtractMaps, merged. destruct (collect (fun v => v) r l ([], [])) as [a b].
  by destruct (collect Z.opp l r (a, b)).
Qed.

Lemma addTokenMaps_both l r : addTokenMaps (Some l) (Some r) = Some (merged (fun v => v) (fun v => v) Z.add l r).
Proof.
  unfold addTokenMaps, merged. destruct (collect (fun v => v) r l ([], [])) as [a b].
  by destruct (collect (fun v => v) l r (a, b)).
Qed.

Lemma single_quantity (f : Z -> Z) (m : TokenMap) i : map_ok m -> f 0 = 0 ->
  getOr0 (fold_left (fun acc '(key, v) => setNonZero acc key (f v)) m []) i = f (getOr0 m i).
Proof.
  intros Hm Hf.
  transitivity (getOr0 (collect f [] m ([], [])).1 i).
  - f_equal. generalize (@nil (string * Z)) at 1 3. generalize (@nil string).
    clear Hm. induction m as [|[k v] m IH]; intros ids acc; [done|]. rewrite collect_cons. cbn. apply IH.
  - rewrite collect_quantity by done. change (JsMap.has [] i) with false. rewrite andb_true_r.
    case_bool_decide as Hi; [done|]. by rewrite (getOr0_absent m i Hi).
Qed.

Lemma single_keeps (P : TokenMap -> Prop) (f : Z -> Z) m : P [] ->
  (forall m k v, P m -> P (setNonZero m k v)) ->
  P (fold_left (fun acc '(key, v) => setNonZero acc key (f v)) m []).
Proof.
  intros Hnil HP. revert Hnil. generalize (@nil (string * Z)).
  induction m as [|[k v] m IH]; intros acc Hacc; [done|]. apply IH. auto.
Qed.

(** [if (value !== 0n) map.set(key, -value)]. *)
Lemma negate_eq m : fold_left (fun m '(key, value) => if value =? 0 then m else JsMap.set m key (- value)) m [] =
  fold_left (fun acc '(key, v) => setNonZero acc key (- v)) m [].
Proof.
  generalize (@nil (string * Z)). induction m as [|[k v] m IH]; intros acc; [done|]. cbn. rewrite IH. f_equal.
  unfold setNonZero. destruct (Z.eqb_spec v 0), (Z.eqb_spec (- v) 0); done || lia.
Qed.

Lemma subtractMaps_quantity l r i : assets_ok l -> assets_ok r ->
  quantity (subtractMaps l r) i = quantity l i - quantity r i.
Proof.
  intros Hl Hr. destruct l as [l|], r as [r|]; [rewrite subtractMaps_both|..]; cbn [subtractMaps quantity].
  - apply (merged_quantity (fun v => v) Z.opp Z.sub); [done..|lia|lia|done].
  - rewrite (single_quantity (fun v => v)) by done. lia.
  - rewrite negate_eq, (single_quantity Z.opp) by done. lia.
  - done.
Qed.

Lemma addTokenMaps_quantity l r i : assets_ok l -> assets_ok r ->
  quantity (addTokenMaps l r) i = quantity l i + quantity r i.
Proof.
  intros Hl Hr. destruct l as [l|], r as [r|]; [rewrite addTokenMaps_both|..]; cbn [addTokenMaps quantity]; [|lia..].
  apply (merged_quantity (fun v => v) (fun v => v) Z.add); [done..|lia|lia|done].
Qed.

(** The difference lists no asset of quantity zero, and every asset once. *)
Lemma subtractMaps_canonical l r m : subtractMaps l r = Some m -> map_ok m /\ no_zero m.
Proof.
  intros E.
  assert (HP : (fun m => map_ok m /\ no_zero m) m); [|done].
  assert (Hnil : (fun m => map_ok m /\ no_zero m) []) by (split; constructor).
  assert (Hkeep : forall m k v, (fun m => map_ok m /\ no_zero m) m -> (fun m => map_ok m /\ no_zero m) (setNonZero m k v)).
  { intros ? k v [? ?]. split; [by apply setNonZero_ok|by apply setNonZero_no_zero]. }
  destruct l as [l|], r as [r|]; [rewrite subtractMaps_both in E|..]; cbn [subtractMaps] in E;
    first [injection E as <- | done].
  - by apply (merged_keeps (fun v => v) Z.opp Z.sub l r (fun m => map_ok m /\ no_zero m)).
  - by apply (single_keeps (fun m => map_ok m /\ no_zero m) (fun v => v)).
  - rewrite negate_eq. by apply (single_keeps (fun m => map_ok m /\ no_zero m) Z.opp).
Qed.

Lemma addTokenMaps_ok l r : assets_ok l -> assets_ok r -> assets_ok (addTokenMaps l r).
Proof.
  intros Hl Hr. destruct l as [l|], r as [r|]; [|done..]. rewrite addTokenMaps_both.
  apply (merged_keeps (fun v => v) (fun v => v) Z.add l r map_ok); [constructor|]. intros. by apply setNonZero_ok.
Qed.

Lemma subtractTokenMaps_quantity m ms i : assets_ok m -> Forall assets_ok ms ->
  quantity (subtractTokenMaps (m :: ms)) i = quantity m i - zsum ((fun x => quantity x i) <$> ms).
Proof.
  cbn [subtractTokenMaps]. revert m. induction ms as [|x ms IH]; intros m Hm Hms; cbn; [lia|].
  apply Forall_cons in Hms as [Hx Hms]. rewrite IH; [|..|done].
  - rewrite subtractMaps_quantity by done. unfold zsum. lia.
  - destruct (subtractMaps m x) as [d|] eqn:E; [|done]. by apply subtractMaps_canonical in E as [].
Qed.
End arithmetic.

(** *** Coalescing *)

Definition addTo (result : TokenMap) (kv : AssetId * Z) : TokenMap :=
  let '(assetId, assetQuantity) := kv in JsMap.set result assetId (getOr0 result assetId + assetQuantity).

Lemma addTo_fold m result i : map_ok m -> getOr0 (fold_left addTo m result) i = getOr0 result i + getOr0 m i.
Proof.
  revert result. induction m as [|[k v] m IH]; intros result Hm; [cbn; unfold getOr0; cbn; lia|].
  apply map_ok_cons in Hm as [Hk Hm]. cbn [fold_left addTo]. rewrite IH, getOr0_set, getOr0_cons by done.
  case_decide; [subst; rewrite (getOr0_absent m i Hk)|]; lia.
Qed.

Lemma addTo_keys m result i :
  i ∈ JsMap.keys (fold_left addTo m result) <-> i ∈ JsMap.keys result \/ i ∈ JsMap.keys m.
Proof.
  revert result. induction m as [|[k v] m IH]; intros result; cbn [fold_left].
  { split; [by left|]. intros [|[]%not_elem_of_nil]; done. }
  change (JsMap.keys ((k, v) :: m)) with (k :: JsMap.keys m).
  rewrite IH, elem_of_cons. cbn [addTo]. destruct (decide (k ∈ JsMap.keys result)) as [Hk|Hk].
  - rewrite keys_set_In by done. split; [intuition auto|]. intros [|[->|]]; auto.
  - rewrite set_not_In by done. unfold JsMap.keys. rewrite fmap_app, elem_of_app. cbn [fmap list_fmap fst].
    rewrite list_elem_of_singleton. intuition auto.
Qed.

Definition coalesced (ms : list TokenMap) : TokenMap := fold_left (fun result m => fold_left addTo m result) ms [].

Lemma coalesceTokenMaps_eq totals : coalesceTokenMaps totals =
  if JsMap.size (coalesced (omap id totals)) =? 0 then None else Some (coalesced (omap id totals)).
Proof. done. Qed.

Lemma coalesced_quantity ms acc i : Forall map_ok ms ->
  getOr0 (fold_left (fun result m => fold_left addTo m result) ms acc) i =
  getOr0 acc i + zsum ((fun m => getOr0 m i) <$> ms).
Proof.
  intros Hms. revert acc. induction Hms as [|m ms Hm Hms IH]; intros acc; cbn; [lia|].
  rewrite IH, addTo_fold by done. unfold zsum. lia.
Qed.

Lemma omap_quantity totals i :
  zsum ((fun m => getOr0 m i) <$> omap id totals) = zsum ((fun m => quantity m i) <$> totals).
Proof. induction totals as [|[m|] totals IH]; cbn; unfold zsum in *; cbn in *; lia. Qed.

Lemma omap_ok totals : Forall assets_ok totals -> Forall map_ok (omap id totals).
Proof. induction 1 as [|[m|] totals Hm _ IH]; cbn; [constructor|by constructor|done]. Qed.

Lemma coalesceTokenMaps_quantity totals i : Forall assets_ok totals ->
  quantity (coalesceTokenMaps totals) i = zsum ((fun m => quantity m i) <$> totals).
Proof.
  intros Ht. rewrite coalesceTokenMaps_eq, <- omap_quantity.
  assert (E := coalesced_quantity (omap id totals) [] i (omap_ok _ Ht)).
  change (fold_left _ _ []) with (coalesced (omap id totals)) in E. rewrite Z.add_0_l in E. rewrite <- E.
  destruct (Z.eqb_spec (JsMap.size (coalesced (omap id totals))) 0) as [Hz|]; [|done].
  apply zlen_0 in Hz. by rewrite Hz.
Qed.

Lemma addTo_ok m result : map_ok result -> map_ok (fold_left addTo m result).
Proof. revert result. induction m as [|[k v] m IH]; intros result Hr; [done|]. apply IH. cbn. auto with js. Qed.

Lemma coalesceTokenMaps_ok totals : assets_ok (coalesceTokenMaps totals).
Proof.
  rewrite coalesceTokenMaps_eq. destruct (_ =? 0); [done|]. unfold coalesced, assets_ok.
  assert (Hnil : map_ok []) by constructor. revert Hnil. generalize (@nil (string * Z)).
  induction (omap id totals) as [|m ms IH]; intros acc Hacc; [done|]. cbn. apply IH. by apply addTo_ok.
Qed.

(** *** Sums over lists of values *)

Definition value_ok (v : Value) : Prop := assets_ok (assets v).
Definition qty (i : AssetId) (v : Value) : Z := quantity (assets v) i.
Definition totalQty (i : AssetId) (vs : list Value) : Z := zsum (qty i <$> vs).
Definition totalCoins (vs : list Value) : Z := zsum (coins <$> vs).

Lemma coalesceValueQuantities_coins vs : coins (coalesceValueQuantities vs) = totalCoins vs.
Proof. cbn. apply BigIntMathFacts.sum_zsum. Qed.

Lemma coalesceValueQuantities_qty vs i : Forall value_ok vs -> qty i (coalesceValueQuantities vs) = totalQty i vs.
Proof.
  intros Hvs. unfold qty, totalQty. cbn [coalesceValueQuantities assets].
  rewrite coalesceTokenMaps_quantity by (apply Forall_fmap; exact Hvs). by rewrite <- list_fmap_compose.
Qed.

Lemma coalesceValueQuantities_ok vs : value_ok (coalesceValueQuantities vs).
Proof. apply coalesceTokenMaps_ok. Qed.

Lemma totalQty_app i vs ws : totalQty i (vs ++ ws) = totalQty i vs + totalQty i ws.
Proof. unfold totalQty. by rewrite fmap_app, zsum_app. Qed.

Lemma totalCoins_app vs ws : totalCoins (vs ++ ws) = totalCoins vs + totalCoins ws.
Proof. unfold totalCoins. by rewrite fmap_app, zsum_app. Qed.

Lemma totalQty_cons i v vs : totalQty i (v :: vs) = qty i v + totalQty i vs.
Proof. done. Qed.

Lemma totalCoins_cons v vs : totalCoins (v :: vs) = coins v + totalCoins vs.
Proof. done. Qed.

#[export] Instance totalQty_proper i : Proper ((≡ₚ) ==> (=)) (totalQty i).
Proof. intros l k E. unfold totalQty. by rewrite E. Qed.

#[export] Instance totalCoins_proper : Proper ((≡ₚ) ==> (=)) totalCoins.
Proof. intros l k E. unfold totalCoins. by rewrite E. Qed.

(** *** [Array.prototype.sort] *)

Lemma sortInsert_perm {A} (compare : A -> A -> Z) x l : sortInsert compare x l ≡ₚ x :: l.
Proof.
  induction l as [|y l IH]; cbn; [done|]. case_bool; [|done]. rewrite IH. apply Permutation_swap.
Qed.

Lemma Array_sort_perm {A} (compare : A -> A -> Z) l : Array_sort compare l ≡ₚ l.
Proof. induction l as [|x l IH]; cbn; [done|]. by rewrite sortInsert_perm, IH. Qed.

Section sorted.
Context {A : Type} (compare : A -> A -> Z) (R : A -> A -> Prop) `{!Transitive R}.
Context (Hle : forall x y, compare x y <= 0 -> R x y) (Hgt : forall x y, 0 < compare x y -> R y x).

Lemma sortInsert_sorted x l : StronglySorted R l -> StronglySorted R (sortInsert compare x l).
Proof.
  induction 1 as [|y l Hl IH Hy]; cbn; [constructor; constructor|].
  destruct (Z.ltb_spec 0 (compare x y)) as [Hlt|Hge].
  - constructor; [done|]. rewrite sortInsert_perm. constructor; [by apply Hgt|done].
  - constructor; [by constructor|]. constructor; [by apply Hle|].
    eapply Forall_impl; [exact Hy|]. intros z Hz. etrans; [by apply Hle|done].
Qed.

Lemma Array_sort_sorted l : StronglySorted R (Array_sort compare l).
Proof. induction l as [|x l IH]; cbn; [constructor|]. by apply sortInsert_sorted. Qed.
End sorted.

(** *** The order on inputs *)

Lemma string_compare_trans a b c : String.compare a b = Lt -> String.compare b c = Lt -> String.compare a c = Lt.
Proof.
  revert b c. induction a as [|x a IH]; intros [|y b] [|z c]; cbn; try done.
  unfold Ascii.compare. destruct (N.compare_spec (N_of_ascii x) (N_of_ascii y)) as [E1|E1|E1]; [| |done];
    destruct (N.compare_spec (N_of_ascii y) (N_of_ascii z)) as [E2|E2|E2]; try done.
  - rewrite E1, E2, N.compare_refl. apply IH.
  - intros _ _. by rewrite E1, (proj2 (N.compare_lt_iff _ _) E2).
  - intros _ _. by rewrite <- E2, (proj2 (N.compare_lt_iff _ _) E1).
  - intros _ _. rewrite (proj2 (N.compare_lt_iff _ _)); [done|]. by etrans.
Qed.

Lemma string_compare_refl a : String.compare a a = Eq.
Proof. induction a as [|x a IH]; cbn; [done|]. unfold Ascii.compare. by rewrite N.compare_refl. Qed.

Lemma sortTxIn_le x y : sortTxIn x y <= 0 <->
  String.compare (txId x) (txId y) = Lt \/ (txId x = txId y /\ index x <= index y).
Proof.
  unfold sortTxIn, localeCompare. destruct (String.compare (txId x) (txId y)) eqn:E; cbn.
  - apply String.compare_eq_iff in E. split; [intros; right; split; [done|lia]|intros [|[_ ?]]; [done|lia]].
  - split; [by left|done].
  - split; [done|]. intros [|[E' _]]; [done|]. rewrite E', string_compare_refl in E. done.
Qed.

Lemma sortTxIn_gt x y : 0 < sortTxIn x y -> sortTxIn y x <= 0.
Proof.
  intros H. apply sortTxIn_le. unfold sortTxIn, localeCompare in H.
  destruct (String.compare (txId x) (txId y)) eqn:E; cbn in H; [|lia|].
  - apply String.compare_eq_iff in E. right. split; [done|lia].
  - left. rewrite String.compare_antisym, E. done.
Qed.

Lemma sortTxIn_trans x y z : sortTxIn x y <= 0 -> sortTxIn y z <= 0 -> sortTxIn x z <= 0.
Proof.
  rewrite !sortTxIn_le. intros [E1|[E1 H1]] [E2|[E2 H2]].
  - left. by eapply string_compare_trans.
  - left. by rewrite <- E2.
  - left. by rewrite E1.
  - right. split; [congruence|lia].
Qed.

(** Inputs in the order of the ledger: by transaction id, then index. *)
Definition txIn_le (a b : Utxo) : Prop := sortUtxoByTxIn a b <= 0.

Lemma sortUtxo_sorted l : StronglySorted txIn_le (Array_sort sortUtxoByTxIn l).
Proof.
  apply Array_sort_sorted; [|done|].
  - intros a b c. apply sortTxIn_trans.
  - intros a b. apply sortTxIn_gt.
Qed.
End ValuesFacts.

(** ** A reference implementation of the lodash functions

    Shows that the laws can be met, and lets examples be evaluated. *)
Module LodashRef.
Fixpoint uniq_ref (l : list AssetId) : list AssetId :=
  match l with [] => [] | x :: l' => x :: filter (fun y => y <> x) (uniq_ref l') end.

Fixpoint minBy_ref {A : Set} (key : A -> Z) (l : list A) : nat * option Z :=
  match l with
  | [] => (O, None)
  | x :: l' =>
      match minBy_ref key l' with
      | (i, Some k) => if k <? key x then (S i, Some k) else (O, Some (key x))
      | (_, None) => (O, Some (key x))
      end
  end.

Definition lodash_ref : Lodash := {|
  uniq := uniq_ref;
  orderByDesc := fun A key l => Array_sort (fun x y => key y - key x) l;
  minByIndex := fun A key l => (minBy_ref key l).1
|}.

Lemma uniq_ref_elem l x : x ∈ uniq_ref l <-> x ∈ l.
Proof.
  induction l as [|y l IH]; cbn [uniq_ref]; [done|]. rewrite !elem_of_cons, list_elem_of_filter, IH.
  destruct (decide (x = y)); intuition auto.
Qed.

Lemma uniq_ref_NoDup l : NoDup (uniq_ref l).
Proof.
  induction l as [|y l IH]; cbn [uniq_ref]; [constructor|]. apply NoDup_cons.
  split; [|by apply NoDup_filter]. rewrite list_elem_of_filter. by intros [? _].
Qed.

Lemma minBy_ref_spec {A : Set} (key : A -> Z) l : l <> [] ->
  exists x, l !! (minBy_ref key l).1 = Some x /\ (minBy_ref key l).2 = Some (key x) /\ forall y, y ∈ l -> key x <= key y.
Proof.
  induction l as [|x l IH]; [done|]. intros _. cbn [minBy_ref]. destruct l as [|x' l'].
  { exists x. cbn. split_and!; [done..|]. intros y ->%list_elem_of_singleton. done. }
  destruct IH as (z & H1 & H2 & H3); [done|]. destruct (minBy_ref key (x' :: l')) as [i o].
  cbn [fst snd] in H1, H2. subst o.
  destruct (Z.ltb_spec (key z) (key x)); [exists z|exists x]; (split_and!; [done..|]); cbn [snd];
    intros y [->|Hy]%elem_of_cons; try lia; specialize (H3 y Hy); lia.
Qed.

Lemma lodash_ref_laws : @LodashLaws lodash_ref.
Proof.
  split.
  - apply uniq_ref_NoDup.
  - apply uniq_ref_elem.
  - intros. apply ValuesFacts.Array_sort_perm.
  - intros A key l. apply ValuesFacts.Array_sort_sorted.
    + intros x y z H1 H2. lia.
    + intros. lia.
    + intros. lia.
  - intros A key l Hl. destruct (minBy_ref_spec key l Hl) as (x & H1 & _ & H3). by exists x.
Qed.
End LodashRef.
