(* ===== verification/Scripts.v ===== *)
(** * Scripts

    Models [packages/core/src/Serialization/Scripts]: the four classes of
    Plutus scripts and the class [Script], one of them or a native script, and
    the hashes of scripts.  The digest of [packages/crypto/src/blake2b-hash.ts]
    is computed by the npm package [blake2b], the operation of a class. *)

From S2P Require Import Prelude JsRuntime CborCommon CborWriter CborReader Codec Credential Records NativeScript.

(** ** Hashes *)

(** [hash(outputLengthBytes).update(bytes).digest('hex')] of the package. *)
Class Blake2b := { blake2b_digest : Z -> list Z -> HexBlob }.

Definition blake2b_hash `{Blake2b} (message : HexBlob) (outputLengthBytes : Z) : HexBlob :=
  blake2b_digest outputLengthBytes (Buffer_from_hex message).

Definition HASH_LENGTH_IN_BYTES : Z := 28.

Definition nativeScriptHash `{Blake2b} (s : NativeScript) : Res HexBlob :=
  cbor ← NativeScript.toCbor s; Ok (blake2b_hash ("00" +:+ cbor) HASH_LENGTH_IN_BYTES).

(** ** Plutus scripts *)

Inductive PlutusLanguageVersion : Set := V1 | V2 | V3 | V4.

#[export] Instance PlutusLanguageVersion_eq_dec : EqDecision PlutusLanguageVersion.
Proof. solve_decision. Defined.

(** [Cardano.PlutusScript] *)
Record CorePlutusScript : Set := { plutusBytes : HexBlob; version : PlutusLanguageVersion }.

(** The four classes differ in their version and in the tag of their hashes. *)
Module PlutusScript.
Record t : Set := { compiledByteCode : HexBlob; originalBytes : option HexBlob }.

Definition new (compiledByteCode : HexBlob) : t := {| compiledByteCode := compiledByteCode; originalBytes := None |}.

Definition toCbor (s : t) : Res HexBlob := cached (originalBytes s) (encode (
  call (CborWriter.writeByteString (Buffer_from_hex (compiledByteCode s))))).

Definition fromCbor (cbor : HexBlob) : Res t := decode (
  bytes ← call CborReader.readByteString;
  mret {| compiledByteCode := HexBlob_fromBytes bytes; originalBytes := Some cbor |}) cbor.

Definition rawBytes (s : t) : HexBlob := compiledByteCode s.
Definition setRawBytes (s : t) (bytes : HexBlob) : t := {| compiledByteCode := bytes; originalBytes := None |}.

Definition toCore (v : PlutusLanguageVersion) (s : t) : CorePlutusScript := {| plutusBytes := rawBytes s; version := v |}.

Definition fromCore (v : PlutusLanguageVersion) (plutusScript : CorePlutusScript) : Res t :=
  if bool_decide (version plutusScript = v) then Ok (new (plutusBytes plutusScript))
  else Throw (InvalidArgumentError "script" "Wrong plutus language version.").

Definition tag (v : PlutusLanguageVersion) : string := match v with V1 => "01" | V2 => "02" | V3 => "03" | V4 => "04" end.

Definition hash `{Blake2b} (v : PlutusLanguageVersion) (s : t) : HexBlob := blake2b_hash (tag v +:+ rawBytes s) HASH_LENGTH_IN_BYTES.
End PlutusScript.

Module PlutusV1Script.
Definition toCore : PlutusScript.t -> CorePlutusScript := PlutusScript.toCore V1.
Definition fromCore : CorePlutusScript -> Res PlutusScript.t := PlutusScript.fromCore V1.
Definition hash `{Blake2b} : PlutusScript.t -> HexBlob := PlutusScript.hash V1.
End PlutusV1Script.

Module PlutusV2Script.
Definition toCbor : PlutusScript.t -> Res HexBlob := PlutusScript.toCbor.
Definition fromCbor : HexBlob -> Res PlutusScript.t := PlutusScript.fromCbor.
Definition toCore : PlutusScript.t -> CorePlutusScript := PlutusScript.toCore V2.
Definition fromCore : CorePlutusScript -> Res PlutusScript.t := PlutusScript.fromCore V2.
Definition hash `{Blake2b} : PlutusScript.t -> HexBlob := PlutusScript.hash V2.
End PlutusV2Script.

Module PlutusV3Script.
Definition toCbor : PlutusScript.t -> Res HexBlob := PlutusScript.toCbor.
Definition fromCbor : HexBlob -> Res PlutusScript.t := PlutusScript.fromCbor.
Definition toCore : PlutusScript.t -> CorePlutusScript := PlutusScript.toCore V3.
Definition fromCore : CorePlutusScript -> Res PlutusScript.t := PlutusScript.fromCore V3.
Definition hash `{Blake2b} : PlutusScript.t -> HexBlob := PlutusScript.hash V3.
End PlutusV3Script.

Module PlutusV4Script.
Definition toCbor : PlutusScript.t -> Res HexBlob := PlutusScript.toCbor.
Definition fromCbor : HexBlob -> Res PlutusScript.t := PlutusScript.fromCbor.
Definition toCore : PlutusScript.t -> CorePlutusScript := PlutusScript.toCore V4.
Definition fromCore : CorePlutusScript -> Res PlutusScript.t := PlutusScript.fromCore V4.
Definition hash `{Blake2b} : PlutusScript.t -> HexBlob := PlutusScript.hash V4.
End PlutusV4Script.

(** ** Any script *)

Module ScriptLanguage.
Definition Native : Z := 0.
Definition PlutusV1 : Z := 1.
Definition PlutusV2 : Z := 2.
Definition PlutusV3 : Z := 3.
Definition PlutusV4 : Z := 4.
End ScriptLanguage.

(** [Cardano.Script]: [isNativeScript] tells the two kinds apart. *)
Inductive CoreAnyScript : Set :=
  | CoreNative (script : CoreScript)
  | CorePlutus (script : CorePlutusScript).

Module Script.
(** The language says which of the five scripts is set. *)
Inductive body : Set :=
  | ANative (s : NativeScript)
  | APlutusV1 (s : PlutusScript.t)
  | APlutusV2 (s : PlutusScript.t)
  | APlutusV3 (s : PlutusScript.t)
  | APlutusV4 (s : PlutusScript.t).

Record t : Set := { inner : body; originalBytes : option HexBlob }.

Definition SCRIPT_SUBGROUP : Z := 2.

Definition newNativeScript (s : NativeScript) : t := {| inner := ANative s; originalBytes := None |}.
Definition newPlutusV1Script (s : PlutusScript.t) : t := {| inner := APlutusV1 s; originalBytes := None |}.
Definition newPlutusV2Script (s : PlutusScript.t) : t := {| inner := APlutusV2 s; originalBytes := None |}.
Definition newPlutusV3Script (s : PlutusScript.t) : t := {| inner := APlutusV3 s; originalBytes := None |}.
Definition newPlutusV4Script (s : PlutusScript.t) : t := {| inner := APlutusV4 s; originalBytes := None |}.

Definition language (s : t) : Z :=
  match inner s with
  | ANative _ => ScriptLanguage.Native
  | APlutusV1 _ => ScriptLanguage.PlutusV1
  | APlutusV2 _ => ScriptLanguage.PlutusV2
  | APlutusV3 _ => ScriptLanguage.PlutusV3
  | APlutusV4 _ => ScriptLanguage.PlutusV4
  end.

Definition toCbor (s : t) : Res HexBlob := cached (originalBytes s) (
  cbor ← match inner s with
         | ANative n => NativeScript.toCbor n
         | APlutusV1 p => PlutusScript.toCbor p
         | APlutusV2 p => PlutusV2Script.toCbor p
         | APlutusV3 p => PlutusV3Script.toCbor p
         | APlutusV4 p => PlutusV4Script.toCbor p
         end;
  encode (
    call (CborWriter.writeStartArray (Some SCRIPT_SUBGROUP)) ;;
    call (CborWriter.writeInt (language s)) ;;
    call (CborWriter.writeEncodedValue (Buffer_from_hex cbor)))).

(** The [switch] of [fromCbor]. *)
Definition fromInner (language : Z) (innerScript : HexBlob) : Res t :=
  if language =? ScriptLanguage.Native then s ← NativeScript.fromCbor innerScript; Ok (newNativeScript s)
  else if language =? ScriptLanguage.PlutusV1 then s ← PlutusScript.fromCbor innerScript; Ok (newPlutusV1Script s)
  else if language =? ScriptLanguage.PlutusV2 then s ← PlutusV2Script.fromCbor innerScript; Ok (newPlutusV2Script s)
  else if language =? ScriptLanguage.PlutusV3 then s ← PlutusV3Script.fromCbor innerScript; Ok (newPlutusV3Script s)
  else if language =? ScriptLanguage.PlutusV4 then s ← PlutusV4Script.fromCbor innerScript; Ok (newPlutusV4Script s)
  else Throw (InvalidStateError ("Unexpected language value: " +:+ pretty language)).

Definition fromCbor (cbor : HexBlob) : Res t := decode (
  call CborReader.readStartArray ;;
  language ← readNumber;
  script ← readNested (fromInner language);
  mret {| inner := inner script; originalBytes := Some cbor |}) cbor.

Definition toCore (s : t) : CoreAnyScript :=
  match inner s with
  | ANative n => CoreNative (NativeScript.toCore n)
  | APlutusV1 p => CorePlutus (PlutusV1Script.toCore p)
  | APlutusV2 p => CorePlutus (PlutusV2Script.toCore p)
  | APlutusV3 p => CorePlutus (PlutusV3Script.toCore p)
  | APlutusV4 p => CorePlutus (PlutusV4Script.toCore p)
  end.

Definition fromCore (coreScript : CoreAnyScript) : Res t :=
  match coreScript with
  | CoreNative n => Ok (newNativeScript (NativeScript.fromCore n))
  | CorePlutus p =>
      match version p with
      | V1 => s ← PlutusV1Script.fromCore p; Ok (newPlutusV1Script s)
      | V2 => s ← PlutusV2Script.fromCore p; Ok (newPlutusV2Script s)
      | V3 => s ← PlutusV3Script.fromCore p; Ok (newPlutusV3Script s)
      | V4 => s ← PlutusV4Script.fromCore p; Ok (newPlutusV4Script s)
      end
  end.

Definition hash `{Blake2b} (s : t) : Res HexBlob :=
  match inner s with
  | ANative n => nativeScriptHash n
  | APlutusV1 p => Ok (PlutusV1Script.hash p)
  | APlutusV2 p => Ok (PlutusV2Script.hash p)
  | APlutusV3 p => Ok (PlutusV3Script.hash p)
  | APlutusV4 p => Ok (PlutusV4Script.hash p)
  end.

(** A setter applied to the wrapped script, which the accessors give. *)
Definition modify (f : body -> body) (s : t) : t := {| inner := f (inner s); originalBytes := originalBytes s |}.
End Script.
