(* ===== verification/ScriptFacts.v ===== *)
(** * Scripts keep their promises

    Native scripts and the class [Script] implement the interface of
    [Serializable.v]. *)

From S2P Require Import Prelude JsRuntime Utf8 CborCommon Half CborWriter CborReader CborMachine CborExact CborSkip CborDocuments Codec CodecFacts Credential NativeScript NativeFacts Records Serializable Scripts.

Import CborReader CborWriterFacts.

(** ** Native scripts *)

#[export] Instance native_serializable : Serializable CoreScript NativeScript := {
  toCbor_of := NativeScript.toCbor;
  fromCbor_of := NativeScript.fromCbor;
  toCore_of s := Ok (NativeScript.toCore s);
  fromCore_of c := Ok (NativeScript.fromCore c);
  bytesOf := scriptBytes;
  validCore := valid;
  typed s := true
}.

Lemma scriptBytes_starts c : exists size kind fields, scriptBytes c = groupBytes size kind fields /\ 0 <= size < 2 ^ 64.
Proof. destruct c; cbn [scriptBytes]; eexists _, _, _; (split; [reflexivity|lia]). Qed.

#[export] Instance native_laws : SerializableLaws CoreScript NativeScript.
Proof.
  split; cbn [bytesOf validCore fromCore_of fromCbor_of native_serializable].
  - intros c [Hi Hb _ _]%valid_specified. by split.
  - intros c _. destruct (scriptBytes_starts c) as (size & kind & fields & -> & Hs). apply (starts_not_null Array); [done|by apply starts_head].
  - intros c [_ _ He _]%valid_specified. eexists. split; [done|]. split; [cbn; by rewrite toCore_fromCore|done].
  - intros c [Hi Hb _ Hd]%valid_specified Hz. destruct (Hd (S (length (scriptBytes c))) Hz ltac:(lia)) as (s & Es & Ec).
    exists s. split; [unfold NativeScript.fromCbor, hexToBytes; by rewrite Buffer_hex_roundtrip|]. split; [cbn; by rewrite Ec|].
    apply toCbor_outer; [by eapply fromCborFuel_outer|]. intros E0. apply (f_equal Buffer_from_hex) in E0.
    cbn [bytesOf native_serializable] in E0. rewrite Buffer_hex_roundtrip in E0 by done. destruct (item_first _ Hi) as (b & k & Ek & _). by rewrite Ek in E0.
  - intros cbor Hz. split; [|done]. apply scriptFromCbor_ends; [done|unfold hexToBytes; lia].
Qed.

(** ** Any script *)

Definition plutusLanguage (v : PlutusLanguageVersion) : Z := match v with V1 => 1 | V2 => 2 | V3 => 3 | V4 => 4 end.

Definition isPlutusScript (p : CorePlutusScript) : bool := isBlob (plutusBytes p) && (Z.of_nat (String.length (plutusBytes p)) <? 2 ^ 53).

(** [script] of the ledger's CDDL. *)
Definition anyScriptFields (c : CoreAnyScript) : list (list Z) :=
  match c with
  | CoreNative n => [intBytes 0; scriptBytes n]
  | CorePlutus p => [intBytes (plutusLanguage (version p)); blobBytes (plutusBytes p)]
  end.

Definition anyScriptBytes (c : CoreAnyScript) : list Z := recordBytes (anyScriptFields c).

Definition isAnyScript (c : CoreAnyScript) : bool :=
  match c with CoreNative n => valid n | CorePlutus p => isPlutusScript p end.

#[export] Instance script_serializable : Serializable CoreAnyScript Script.t := {
  toCbor_of := Script.toCbor;
  fromCbor_of := Script.fromCbor;
  toCore_of s := Ok (Script.toCore s);
  fromCore_of := Script.fromCore;
  bytesOf := anyScriptBytes;
  validCore := isAnyScript;
  typed s := true
}.

Lemma plutus_hash p : isPlutusScript p = true ->
  isHash (Z.of_nat (String.length (plutusBytes p))) (plutusBytes p) = true /\ Z.of_nat (String.length (plutusBytes p)) < 2 ^ 53.
Proof. intros [Hb Hz]%andb_true_iff. zb. split; [|done]. unfold isHash. by rewrite Hb, Z.eqb_refl. Qed.

Lemma plutus_field p : isPlutusScript p = true -> field (blobBytes (plutusBytes p)).
Proof. intros [? ?]%plutus_hash. by eapply field_hash. Qed.

Lemma anyScript_fields c : isAnyScript c = true -> Forall field (anyScriptFields c).
Proof.
  destruct c as [n|p]; intros Hc; cbn [anyScriptFields].
  - fields. by apply (@bytesOf_field _ _ native_serializable native_laws n).
  - repeat constructor; try (by apply plutus_field); apply field_int; by destruct (version p).
Qed.

Lemma anyScript_count c : zlen (anyScriptFields c) = 2.
Proof. by destruct c. Qed.

(** The wrapped Plutus scripts. *)
Lemma plutus_toCbor p : isPlutusScript p = true -> PlutusScript.toCbor (PlutusScript.new (plutusBytes p)) = Ok (Buffer_to_hex (blobBytes (plutusBytes p))).
Proof. intros [Hh Hz]%plutus_hash. apply encode_emits. by eapply emits_hash. Qed.

Lemma plutus_fromCbor p : isPlutusScript p = true -> zlen (blobBytes (plutusBytes p)) < 2 ^ 53 ->
  let hex := Buffer_to_hex (blobBytes (plutusBytes p)) in
  PlutusScript.fromCbor hex = Ok {| PlutusScript.compiledByteCode := plutusBytes p; PlutusScript.originalBytes := Some hex |}.
Proof.
  intros Hp Hz. pose proof (plutus_field p Hp) as [_ Hb]. apply plutus_hash in Hp as [Hh Hn]. apply decode_reads; [|done..].
  apply (readsN_ext 1 _ (h ← readHex; mret {| PlutusScript.compiledByteCode := h;
    PlutusScript.originalBytes := Some (Buffer_to_hex (blobBytes (plutusBytes p))) |})); [intros r; unfold readHex; same_program|].
  eapply reads_last; [by eapply readHex_reads|]. intros r. reflexivity.
Qed.

Lemma script_toCbor c s : isAnyScript c = true -> Script.fromCore c = Ok s -> Script.toCbor s = Ok (Buffer_to_hex (anyScriptBytes c)).
Proof.
  intros Hc Es. pose proof (anyScript_fields c Hc) as Hf.
  assert (E : exists l, anyScriptFields c = [intBytes (Script.language s); l] /\ isInt64 (Script.language s) = true /\
    Script.toCbor s = (cbor ← Ok (Buffer_to_hex l);
    encode (call (CborWriter.writeStartArray (Some 2)) ;; call (CborWriter.writeInt (Script.language s)) ;;
      call (CborWriter.writeEncodedValue (Buffer_from_hex cbor))))).
  { destruct c as [n|p]; cbn [Script.fromCore isAnyScript] in *.
    - injection Es as <-. apply (@fromCore_standsFor _ _ native_serializable native_laws n) in Hc as (o & [= <-] & _ & Ho). cbn in Ho.
      eexists. split_and!; [done..|]. unfold Script.toCbor, cached, remembered. cbn. by rewrite Ho.
    - pose proof (plutus_toCbor p Hc) as Ho. destruct p as [b v]. cbn [version plutusBytes] in *.
      destruct v; injection Es as <-; eexists; (split_and!; [done..|]); unfold Script.toCbor, cached, remembered, Script.newPlutusV1Script,
        Script.newPlutusV2Script, Script.newPlutusV3Script, Script.newPlutusV4Script, PlutusV2Script.toCbor, PlutusV3Script.toCbor, PlutusV4Script.toCbor;
        cbn [Script.inner Script.originalBytes]; by rewrite Ho. }
  destruct E as (l & Ef & Hi & ->). unfold anyScriptBytes. rewrite Ef in *. apply Forall_cons in Hf as [_ [[_ Hb] _]%Forall_cons].
  apply encode_record; [done..|]. apply emits_fields; [by apply emits_int|]. apply emits_last. rewrite Buffer_hex_roundtrip by done.
  apply emits_call, appends_encoded.
Qed.

(** The wrapped script is read from its part of the record. *)
Lemma script_inner c : isAnyScript c = true -> zlen (anyScriptBytes c) < 2 ^ 53 -> exists k l s, anyScriptFields c = [intBytes k; l] /\ isSafe k = true /\
  item l /\ Script.fromInner k (Buffer_to_hex l) = Ok s /\ forall o, Script.toCore {| Script.inner := Script.inner s; Script.originalBytes := o |} = c.
Proof.
  intros Hc Hz. pose proof (record_size (anyScriptFields c)) as Hr. unfold anyScriptBytes in Hz.
  assert (Hl : forall l, In l (anyScriptFields c) -> zlen l < 2 ^ 53) by (intros l Hl; apply part_size in Hl; lia).
  destruct c as [n|p]; cbn [isAnyScript anyScriptFields] in *.
  - destruct (@fromCbor_standsFor _ _ native_serializable native_laws n Hc) as (s & Es & [= Ec] & _); [apply Hl; right; by left|].
    eexists 0, _, _. split; [reflexivity|]. split; [done|]. split; [by apply valid_specified|].
    change (NativeScript.fromCbor (Buffer_to_hex (scriptBytes n)) = Ok s) in Es. cbn in Ec. split.
    + unfold Script.fromInner. change (0 =? ScriptLanguage.Native) with true. cbv iota. by rewrite Es.
    + intros o. cbn. by rewrite Ec.
  - pose proof (plutus_fromCbor p Hc ltac:(apply Hl; right; by left)) as Es. cbv zeta in Es.
    assert (Hs : exists s, Script.fromInner (plutusLanguage (version p)) (Buffer_to_hex (blobBytes (plutusBytes p))) = Ok s /\
      forall o, Script.toCore {| Script.inner := Script.inner s; Script.originalBytes := o |} = CorePlutus p).
    { destruct p as [b v]. cbn [version plutusBytes] in *. unfold Script.fromInner, PlutusV2Script.fromCbor, PlutusV3Script.fromCbor, PlutusV4Script.fromCbor.
      destruct v; rewrite Es; eexists; (split; [reflexivity|intros o; reflexivity]). }
    destruct Hs as (s & Hs & Ec). exists (plutusLanguage (version p)), (blobBytes (plutusBytes p)), s. split; [reflexivity|].
    split_and!; [by destruct (version p)|by apply plutus_field|done..].
Qed.

#[export] Instance script_laws : SerializableLaws CoreAnyScript Script.t.
Proof.
  split; cbn [bytesOf validCore fromCore_of fromCbor_of script_serializable].
  - intros c Hc. apply field_record; [by rewrite anyScript_count|by apply anyScript_fields].
  - intros c _. apply (starts_not_null Array); [done|]. apply starts_record. by rewrite anyScript_count.
  - intros c Hc. assert (Hs : exists s, Script.fromCore c = Ok s /\ Script.toCore s = c).
    { destruct c as [n|[b v]]; [eexists; split; [done|]; cbn; by rewrite toCore_fromCore|]. destruct v; by eexists. }
    destruct Hs as (s & Es & Ec). exists s. split; [done|]. split; [cbn; by rewrite Ec|by apply script_toCbor].
  - intros c Hc Hz. destruct (script_inner c Hc Hz) as (k & l & s & Ef & Hk & Hi & Es & Ec).
    pose proof (anyScript_fields c Hc) as Hf. eexists. split; [|split; [cbn; by rewrite (Ec (Some (Buffer_to_hex (anyScriptBytes c))))|]].
    + unfold anyScriptBytes in *. rewrite Ef in *. apply decode_completes; [done..|]. eapply completes_bind; [by apply readNumber_reads|].
      eapply completes_bind; [by apply readNested_reads|]. apply completes_ret.
    + apply cached_record; [by rewrite anyScript_count|done].
  - apply accepts_decode. intros cbor. eapply sound_bind; [apply sound_startArray|]. intros _ _. eapply sound_bind; [apply sound_number|]. intros k _.
    eapply sound_bind; [|intros; by apply sound_ret]. apply (sound_nested _ (fun _ => True)). intros h Hh. split; [|done].
    assert (Hp : PlutusScript.fromCbor h <> OutOfFuel).
    { refine (proj1 (accepts_decode (fun cbor => bytes ← call readByteString; mret {| PlutusScript.compiledByteCode := HexBlob_fromBytes bytes;
        PlutusScript.originalBytes := Some cbor |}) (fun _ => True) _ h Hh)). intros cb. eapply sound_bind; [apply sound_bytes|]. intros; by apply sound_ret. }
    unfold Script.fromInner. repeat case_bool; try done; apply bind_fuel; try done. by apply (@fromCbor_accepts _ _ native_serializable native_laws).
Qed.
