(* ===== verification/SerializedValue.v ===== *)
(** * Values on the wire

    Models the class [Value] of
    [packages/core/src/Serialization/TransactionBody/Value.ts], and the writing
    and reading of a map of maps that it shares with the mint field of
    transaction bodies.  The core value is the one of [Values.v].  The
    identifiers of assets come first. *)
From S2P Require Import Prelude JsRuntime CborCommon CborWriter CborReader Codec Credential Records Values.

(** ** Native assets

    Models the identifiers of [packages/core/src/Cardano/types/Asset.ts]
    ([AssetName], [AssetId], [PolicyId] and the functions between them) and
    [packages/core/src/Serialization/TransactionBody/Utils.ts]: the canonical
    order of keys, and token maps as maps of maps, the form they have on the
    wire.  Hex strings are strings of characters. *)

(** ** Identifiers *)

(** [value.toLowerCase()] of a string of hexadecimal digits. *)
Definition ascii_lower (c : ascii) : ascii :=
  let n := N_of_ascii c in if ((65 <=? n) && (n <=? 90))%N then ascii_of_N (n + 32) else c.
Fixpoint toLowerCase (s : string) : string :=
  match s with EmptyString => EmptyString | String c s => String (ascii_lower c) (toLowerCase s) end.

Definition AssetName (value : string) : Res string :=
  let n := Z.of_nat (String.length value) in
  if 0 <? n then
    typedHex value 0 ;;
    if 64 <? n then Throw (InvalidStringError "too long") else Ok (toLowerCase value)
  else Ok (toLowerCase value).

(** [value.split('.').join('')] *)
Fixpoint withoutDots (s : string) : string :=
  match s with EmptyString => EmptyString | String c s => if Ascii.eqb c "." then withoutDots s else String c (withoutDots s) end.

Definition AssetId_of (value : string) : Res string :=
  let normalizedValue := withoutDots value in
  let n := Z.of_nat (String.length normalizedValue) in
  typedHex normalizedValue 0 ;;
  if 120 <? n then Throw (InvalidStringError "too long")
  else if n <? 56 then Throw (InvalidStringError "too short")
  else Ok normalizedValue.

Definition PolicyId (value : string) : Res string := Hash28ByteBase16 value.

(** [id.slice(0, 56)] and [id.slice(56)] *)
Definition policyPart (id : string) : string := String.substring 0 56 id.
Definition namePart (id : string) : string := String.substring 56 (String.length id - 56) id.

Definition getPolicyId (id : string) : Res string := PolicyId (policyPart id).
Definition getAssetName (id : string) : Res string := AssetName (namePart id).
Definition fromParts (policyId assetName : string) : Res string := AssetId_of (policyId +:+ assetName).

(** ** The canonical order *)

(** [sortCanonically]: shorter keys first, keys of one length by their digits. *)
Definition keyGreater (lhs rhs : string) : bool :=
  if (String.length lhs =? String.length rhs)%nat then string_gt lhs rhs
  else (String.length rhs <? String.length lhs)%nat.
Definition sortCanonically {V} (lhs rhs : string * V) : bool := keyGreater lhs.1 rhs.1.

(** [new Map([...m.entries()].sort(sortCanonically))] *)
Definition sortedMap {V} (m : list (string * V)) : list (string * V) := JsMap.of_entries (sort_by sortCanonically m).

(** ** Token maps and maps of maps *)

Abbreviation MultiAsset := (list (string * list (string * Z))) (only parsing).

(** [if (!m.has(policy)) m.set(policy, new Map()); m.get(policy).set(name, quantity);] *)
Definition addAsset (m : MultiAsset) (policyId assetName : string) (quantity : Z) : MultiAsset :=
  JsMap.set m policyId (JsMap.set (default [] (JsMap.get m policyId)) assetName quantity).

(** The loop of [tokenMapToMultiAsset]. *)
Fixpoint groupAssets (m : MultiAsset) (l : list (string * Z)) : Res MultiAsset :=
  match l with
  | [] => Ok m
  | (assetId, quantity) :: l =>
      policyId ← getPolicyId assetId;
      assetName ← getAssetName assetId;
      groupAssets (addAsset m policyId assetName quantity) l
  end.

Definition tokenMapToMultiAsset (tokenMap : list (string * Z)) : Res MultiAsset := groupAssets [] (sortedMap tokenMap).

(** The loops of [multiAssetsToTokenMap]. *)
Fixpoint joinAssets (policyId : string) (assets : list (string * Z)) (tokenMap : list (string * Z)) : Res (list (string * Z)) :=
  match assets with
  | [] => Ok tokenMap
  | (assetName, quantity) :: assets =>
      assetId ← fromParts policyId assetName;
      joinAssets policyId assets (JsMap.set tokenMap assetId quantity)
  end.

Fixpoint joinGroups (m : MultiAsset) (tokenMap : list (string * Z)) : Res (list (string * Z)) :=
  match m with
  | [] => Ok tokenMap
  | (policyId, assets) :: m => tokenMap ← joinAssets policyId assets tokenMap; joinGroups m tokenMap
  end.

Definition multiAssetsToTokenMap (m : MultiAsset) : Res (list (string * Z)) := joinGroups m [].

(** ** Maps of maps *)

Definition writeAsset (asset : string * Z) : Enc unit :=
  call (CborWriter.writeByteString (Buffer_from_hex asset.1)) ;; call (CborWriter.writeInt asset.2).

Definition writeAssetGroup (group : string * list (string * Z)) : Enc unit :=
  call (CborWriter.writeByteString (Buffer_from_hex group.1)) ;;
  let sortedAssets := sortedMap group.2 in
  call (CborWriter.writeStartMap (Some (JsMap.size sortedAssets))) ;;
  forEach writeAsset sortedAssets.

Definition writeMultiAsset (multiassets : list (string * list (string * Z))) : Enc unit :=
  let sortedMultiAssets := sortedMap multiassets in
  call (CborWriter.writeStartMap (Some (JsMap.size sortedMultiAssets))) ;;
  forEach writeAssetGroup sortedMultiAssets.

(** The bodies of the two loops: what is read is entered into the maps by
    [mergeGroup], in the order in which it is read. *)
Definition readAsset (readQuantity : Dec Z) : Dec (string * Z) :=
  assetName ← readHex; quantity ← readQuantity; mret (assetName, quantity).

Definition readAssetGroup (readQuantity : Dec Z) : Dec (string * list (string * Z)) :=
  scriptHash ← readHex;
  call CborReader.readStartMap ;;
  assets ← readWhileNot CborReaderState.EndMap (readAsset readQuantity);
  call CborReader.readEndMap ;;
  mret (scriptHash, assets).

Definition mergeGroup (multiassets : list (string * list (string * Z))) (group : string * list (string * Z)) :
    list (string * list (string * Z)) :=
  let assets := default [] (JsMap.get multiassets group.1) in
  JsMap.set multiassets group.1 (fold_left (fun m e => JsMap.set m e.1 e.2) group.2 assets).

Definition readMultiAsset (readQuantity : Dec Z) : Dec (list (string * list (string * Z))) :=
  call CborReader.readStartMap ;;
  groups ← readWhileNot CborReaderState.EndMap (readAssetGroup readQuantity);
  call CborReader.readEndMap ;;
  mret (fold_left mergeGroup groups []).

(** [multiAssetsToTokenMap(new Map([...tokenMapToMultiAsset(m).entries()].sort(sortCanonically)))] *)
Definition normalizeTokenMap (m : list (string * Z)) : Res (list (string * Z)) :=
  groups ← tokenMapToMultiAsset m; multiAssetsToTokenMap (sortedMap groups).

(** ** The class *)

Module Value.
Record t : Set := { coin : Z; multiasset : option (list (string * Z)); originalBytes : option HexBlob }.

Definition VALUE_ARRAY_SIZE : Z := 2.

(** An empty token map normalizes to [undefined]. *)
Definition normalize (multiasset : list (string * Z)) : Res (option (list (string * Z))) :=
  if 0 <? JsMap.size multiasset then m ← normalizeTokenMap multiasset; Ok (Some m) else Ok None.

Definition new (coin : Z) (multiasset : option (list (string * Z))) : Res t :=
  m ← match multiasset with Some m => normalize m | None => Ok None end;
  Ok {| coin := coin; multiasset := m; originalBytes := None |}.

Definition toCbor (v : t) : Res HexBlob := cached (originalBytes v) (encode (
  match multiasset v with
  | Some ((_ :: _) as m) =>
      call (CborWriter.writeStartArray (Some VALUE_ARRAY_SIZE)) ;;
      call (CborWriter.writeInt (coin v)) ;;
      multiassets ← st_lift (tokenMapToMultiAsset m);
      writeMultiAsset multiassets
  | _ => call (CborWriter.writeInt (coin v))
  end)).

Definition fromCbor (cbor : HexBlob) : Res t := decode (
  state ← call CborReader.peekState;
  if bool_decide (state = CborReaderState.UnsignedInteger) then
    coins ← call CborReader.readUInt;
    st_lift (new coins None)
  else
    length ← call CborReader.readStartArray;
    expectLength VALUE_ARRAY_SIZE VALUE_ARRAY_SIZE length ;;
    coins ← call CborReader.readUInt;
    multiassets ← readMultiAsset (call CborReader.readUInt);
    tokenMap ← st_lift (multiAssetsToTokenMap multiassets);
    let sortedAssets := sortedMap tokenMap in
    value ← st_lift (new coins (Some sortedAssets));
    mret {| coin := coin value; multiasset := multiasset value; originalBytes := Some cbor |}) cbor.

Definition toCore (v : t) : Values.Value := {| coins := coin v; assets := multiasset v |}.
Definition fromCore (coreValue : Values.Value) : Res t := new (coins coreValue) (assets coreValue).

Definition setCoin (v : t) (coin : Z) : t := {| coin := coin; multiasset := multiasset v; originalBytes := None |}.
Definition setMultiasset (v : t) (multiasset : list (string * Z)) : Res t :=
  m ← normalize multiasset; Ok {| coin := coin v; multiasset := m; originalBytes := None |}.
End Value.
