(* ===== verification/AssetNames.v ===== *)
(** * Labels of asset names
    Models [packages/core/src/Asset/cip67.ts] and [crc8.ts]: an asset name that
    starts with a label of 16 bits, its checksum and brackets (CIP-67).  Names
    are strings of hexadecimal digits in lower case, as [AssetName] returns
    them. *)
From S2P Require Import Prelude JsRuntime CborCommon CborReader CborWriter Codec Credential Records Values SerializedValue.

(** ** The checksum *)

Definition TABLE : list Z := [
   0; 7; 14; 9; 28; 27; 18; 21; 56; 63; 54; 49; 36; 35; 42; 45; 112; 119; 126; 121; 108; 107;
   98; 101; 72; 79; 70; 65; 84; 83; 90; 93; 224; 231; 238; 233; 252; 251; 242; 245; 216; 223; 214; 209;
   196; 195; 202; 205; 144; 151; 158; 153; 140; 139; 130; 133; 168; 175; 166; 161; 180; 179; 186; 189; 199; 192;
   201; 206; 219; 220; 213; 210; 255; 248; 241; 246; 227; 228; 237; 234; 183; 176; 185; 190; 171; 172; 165; 162;
   143; 136; 129; 134; 147; 148; 157; 154; 39; 32; 41; 46; 59; 60; 53; 50; 31; 24; 17; 22; 3; 4;
   13; 10; 87; 80; 89; 94; 75; 76; 69; 66; 111; 104; 97; 102; 115; 116; 125; 122; 137; 142; 135; 128;
   149; 146; 155; 156; 177; 182; 191; 184; 173; 170; 163; 164; 249; 254; 247; 240; 229; 226; 235; 236; 193; 198;
   207; 200; 221; 218; 211; 212; 105; 110; 103; 96; 117; 114; 123; 124; 81; 86; 95; 88; 77; 74; 67; 68;
   25; 30; 23; 16; 5; 2; 11; 12; 33; 38; 47; 40; 61; 58; 51; 52; 78; 73; 64; 71; 82; 85;
   92; 91; 118; 113; 120; 127; 106; 109; 100; 99; 62; 57; 48; 55; 34; 37; 44; 43; 6; 1; 8; 15;
   26; 29; 20; 19; 174; 169; 160; 167; 178; 181; 188; 187; 150; 145; 152; 159; 138; 141; 132; 131; 222; 217;
   208; 215; 194; 197; 204; 203; 230; 225; 232; 239; 250; 253; 244; 243].

Definition crc8 (current : list Z) (previous : Z) : Z :=
  fold_left (fun crc byte => Z.land (nth (Z.to_nat (Z.land (Z.lxor crc byte) 255)) TABLE 0) 255) current previous.

(** ** The label *)

Module AssetNameLabel.
Definition ASSET_LABEL_LENGTH : nat := 8.

(** [s.padStart(n, '0')] *)
Definition padStart (s : string) (n : nat) : string :=
  String.concat "" (repeat "0" (n - String.length s)) +:+ s.

(** [n.toString(16)] of a number that is not negative *)
Definition toString16 (n : Z) : string := bigint_toString16 n.

(** [Number.parseInt(s, 16)] of digits: of those in front, [NaN] without any. *)
Fixpoint parseDigits (s : string) (acc : Z) : Z :=
  match s with
  | String c s => match hex_val c with Some d => parseDigits s (16 * acc + d) | None => acc end
  | EmptyString => acc
  end.
Definition parseInt16 (s : string) : option Z :=
  match s with
  | String c _ => match hex_val c with Some _ => Some (parseDigits s 0) | None => None end
  | EmptyString => None
  end.

Definition assertLabelNumInterval (labelNum : Z) : Res unit :=
  if (labelNum <? 0) || (65535 <? labelNum) then
    Throw (InvalidArgumentError "Label num" ("Label " +:+ pretty labelNum +:+ " out of range 0 - 65535."))
  else Ok tt.

Definition checksum (labelNumHex : string) : string := padStart (toString16 (crc8 (Buffer_from_hex labelNumHex) 0)) 2.

Definition isInvalidChecksum (labelNumHex labelChecksum : string) : bool := negb (String.eqb labelChecksum (checksum labelNumHex)).
Definition isInvalidLength (label : string) : bool := negb (String.length label =? ASSET_LABEL_LENGTH)%nat.
Definition isInvalidBracket (lead finish : option ascii) : bool := negb (bool_decide (lead = Some "0"%char)) || negb (bool_decide (finish = Some "0"%char)).

(** [null], or a number that may be [NaN] *)
Definition assetNameLabelHexToNum (label : string) : option (option Z) :=
  let labelLeadBracket := String.get 0 label in
  let labelEndBracket := String.get 7 label in
  let labelNumHex := String.substring 1 4 label in
  let labelChecksum := String.substring 5 2 label in
  if isInvalidLength label || isInvalidBracket labelLeadBracket labelEndBracket || isInvalidChecksum labelNumHex labelChecksum then None
  else Some (parseInt16 labelNumHex).

(** [DecodedAssetName] as the pair of the label and the content, or [null] *)
Definition decode (assetName : string) : Res (option (option Z * string)) :=
  let assetNameLabel := String.substring 0 ASSET_LABEL_LENGTH assetName in
  let assetNameContent := String.substring ASSET_LABEL_LENGTH (String.length assetName - ASSET_LABEL_LENGTH) assetName in
  match assetNameLabelHexToNum assetNameLabel with
  | None => Ok None
  | Some assetNameLabelNum => content ← AssetName assetNameContent; Ok (Some (assetNameLabelNum, content))
  end.

Definition encode (assetName : string) (labelNum : Z) : Res string :=
  assertLabelNumInterval labelNum ;;
  let labelNumHex := padStart (toString16 labelNum) 4 in
  AssetName ("0" +:+ labelNumHex +:+ checksum labelNumHex +:+ "0" +:+ assetName).
End AssetNameLabel.

Module AssetNameLabelNum.
Definition ReferenceNFT : Z := 100.
Definition UserFT : Z := 333.
Definition UserNFT : Z := 222.
Definition UserRFT : Z := 444.
Definition VirtualHandle : Z := 0.
End AssetNameLabelNum.

Import AssetNameLabel.

(** ** The checksum is the remainder of a polynomial *)

(** One step of the division by x^8 + x^2 + x + 1, bit by bit. *)
Definition shiftBit (crc : Z) : Z := if Z.testbit crc 7 then Z.lxor (2 * crc) 263 else 2 * crc.
Definition divideByte (crc byte : Z) : Z := Nat.iter 8 shiftBit (Z.lxor crc byte).

(** The remainder of the message, shifted by eight, divided by the polynomial. *)
Definition remainder (message : list Z) (previous : Z) : Z := fold_left divideByte message previous.

Lemma byte_lxor a b : is_byte a -> is_byte b -> is_byte (Z.lxor a b).
Proof.
  unfold is_byte. intros Ha Hb. assert (Hx : 0 <= Z.lxor a b) by (apply Z.lxor_nonneg; lia). split; [done|].
  destruct (Z.eq_dec (Z.lxor a b) 0) as [->|Hn]; [lia|]. assert (Hl : forall x, 0 <= x < 256 -> Z.log2 x < 8).
  { intros x Hx'. destruct (Z.eq_dec x 0) as [->|]; [done|]. apply (proj1 (Z.log2_lt_pow2 x 8 ltac:(lia))). lia. }
  change 256 with (2 ^ 8). apply (proj2 (Z.log2_lt_pow2 (Z.lxor a b) 8 ltac:(lia))). pose proof (Z.log2_lxor a b ltac:(lia) ltac:(lia)). pose proof (Hl a Ha). pose proof (Hl b Hb). lia.
Qed.

Lemma table_byte x : is_byte x -> Z.land (nth (Z.to_nat (Z.land x 255)) TABLE 0) 255 = Nat.iter 8 shiftBit x /\ is_byte (Nat.iter 8 shiftBit x).
Proof.
  intros Hx.
  pose proof (byte_cases (fun x => (Z.land (nth (Z.to_nat (Z.land x 255)) TABLE 0) 255 =? Nat.iter 8 shiftBit x) && (0 <=? Nat.iter 8 shiftBit x) && (Nat.iter 8 shiftBit x <? 256))
    ltac:(by vm_compute) x Hx) as H.
  cbv beta in H. apply andb_true_iff in H as [[He%Z.eqb_eq Hl%Z.leb_le]%andb_true_iff Hu%Z.ltb_lt]. unfold is_byte. split; [done|lia].
Qed.

Lemma crc8_remainder message previous : bytes message -> is_byte previous ->
  crc8 message previous = remainder message previous /\ is_byte (crc8 message previous).
Proof.
  unfold crc8, remainder. intros Hm. revert previous. induction Hm as [|b l Hb _ IH]; intros p Hp; [done|]. cbn [fold_left].
  destruct (table_byte (Z.lxor p b) (byte_lxor _ _ Hp Hb)) as [-> Hn]. by apply IH.
Qed.

Lemma crc8_byte message previous : bytes message -> is_byte previous -> is_byte (crc8 message previous).
Proof. apply crc8_remainder. Qed.

(** The checksum that the table computes is the CRC of the polynomial x^8 + x^2
    + x + 1: for any message and any start, the result is the byte that the
    division bit by bit leaves. *)
Theorem crc8_is_remainder message previous : bytes message -> is_byte previous ->
  crc8 message previous = remainder message previous /\ is_byte (crc8 message previous).
Proof. apply crc8_remainder. Qed.

(** ** Digits *)

(** A hexadecimal digit in lower case. *)
Definition isDigit (c : ascii) : bool := match hex_val c with Some d => Ascii.eqb c (hex_char d) | None => false end.
Definition isName (s : string) : bool := forallb isDigit (String.list_ascii_of_string s).

(** Text of four digits, and of two. *)
Definition digits4 (n : Z) : string :=
  String (hex_char (n / 4096)) (String (hex_char (n / 256 mod 16)) (String (hex_char (n / 16 mod 16)) (String (hex_char (n mod 16)) ""))).
Definition digits2 (n : Z) : string := String (hex_char (n / 16)) (String (hex_char (n mod 16)) "").

Definition isLabel (n : Z) : Prop := 0 <= n <= 65535.

Lemma label_digits n : isLabel n -> padStart (toString16 n) 4 = digits4 n.
Proof.
  unfold isLabel. intros Hn. unfold toString16, bigint_toString16, digits4. destruct (Z.lt_ge_cases n 16) as [H1|H1].
  - cbn [hex_digits]. rewrite (Z.div_small n 16), (Z.div_small n 4096), (Z.div_small n 256) by lia. done.
  - assert (Hk : exists k, Z.to_nat (Z.log2 n) = S (S (S k))).
    { assert (4 <= Z.log2 n) by (change 4 with (Z.log2 16); by apply Z.log2_le_mono). exists (Z.to_nat (Z.log2 n - 3)). lia. }
    destruct Hk as [k ->]. cbn [hex_digits]. rewrite !Z.div_div by lia. change (16 * 16) with 256. change (256 * 16) with 4096. change (16 * 4096) with 65536. 
    change (16 * 256) with 4096. rewrite (proj2 (Z.eqb_neq (n / 16) 0)) by (Z.div_mod_to_equations; lia). rewrite (Z.div_small n (4096 * 16)) by lia. cbn [Z.eqb].
    destruct (Z.lt_ge_cases n 256) as [H2|H2]; [rewrite (Z.div_small n 256), (Z.div_small n 4096) by lia; by cbn [Z.eqb]|].
    rewrite (proj2 (Z.eqb_neq (n / 256) 0)) by (Z.div_mod_to_equations; lia).
    destruct (Z.lt_ge_cases n 4096) as [H3|H3]; [rewrite (Z.div_small n 4096) by lia; by cbn [Z.eqb]|].
    rewrite (proj2 (Z.eqb_neq (n / 4096) 0)) by (Z.div_mod_to_equations; lia). rewrite (Z.mod_small (n / 4096)) by (Z.div_mod_to_equations; lia). done.
Qed.

Lemma label_parse n : isLabel n -> parseInt16 (digits4 n) = Some n.
Proof.
  unfold isLabel. intros Hn. unfold parseInt16, digits4. cbn [parseDigits]. rewrite !hex_val_char by (Z.div_mod_to_equations; lia). f_equal. Z.div_mod_to_equations; lia.
Qed.

Lemma byte_digits n : is_byte n -> padStart (toString16 n) 2 = digits2 n.
Proof. intros Hn. apply String.eqb_eq. revert n Hn. apply (byte_cases (fun n => String.eqb (padStart (toString16 n) 2) (digits2 n))). by vm_compute. Qed.

(** ** Names *)

Lemma isDigit_spec c : isDigit c = true -> exists d, 0 <= d < 16 /\ c = hex_char d.
Proof.
  unfold isDigit. destruct (hex_val c) as [d|] eqn:E; [|done]. intros ->%Ascii.eqb_eq. exists d. split; [|done].
  revert E. unfold hex_val. repeat case_bool; [..|done]; intros [= <-]; pose proof (nat_ascii_bounded (hex_char d)); lia.
Qed.

Lemma isDigit_char d : 0 <= d < 16 -> isDigit (hex_char d) = true.
Proof. intros Hd. unfold isDigit. rewrite hex_val_char by done. apply Ascii.eqb_refl. Qed.

Lemma name_app s t : isName (s +:+ t) = isName s && isName t.
Proof. unfold isName. induction s as [|c s IH]; [done|]. change (String c s +:+ t) with (String c (s +:+ t)). cbn [String.list_ascii_of_string forallb]. by rewrite IH, andb_assoc. Qed.

Lemma name_hex s : isName s = true -> isHexString s = true /\ toLowerCase s = s.
Proof.
  unfold isName. induction s as [|c s IH]; [done|]. cbn. intros [(d & Hd & ->)%isDigit_spec Hs]%andb_true_iff. destruct (IH Hs) as [E1 E2].
  rewrite hex_val_char, E2 by done. split; [done|]. f_equal. revert Hd. clear. intros Hd.
  assert (H : Forall (fun d => ascii_lower (hex_char d) = hex_char d) (seqZ 0 16)) by (repeat constructor). rewrite Forall_forall in H. apply H, elem_of_seqZ. lia.
Qed.

Lemma name_accepted s : isName s = true -> (String.length s <= 64)%nat -> AssetName s = Ok s.
Proof.
  intros [Hh Hl]%name_hex Hs. unfold AssetName. case_bool; [|by rewrite Hl]. unfold typedHex. rewrite Hh. cbn. rewrite andb_false_r. cbn. case_bool; [lia|]. by rewrite Hl.
Qed.

Lemma name_too_long s : isName s = true -> (64 < String.length s)%nat -> AssetName s = Throw (InvalidStringError "too long").
Proof. intros [Hh Hl]%name_hex Hs. unfold AssetName. rewrite (proj2 (Z.ltb_lt _ _)) by lia. unfold typedHex. rewrite Hh. cbn. rewrite andb_false_r. cbn. case_bool; [done|lia]. Qed.

(** The text of a label: its digits and their checksum, in brackets. *)
Definition labelBytes (n : Z) : list Z := [n / 256; n mod 256].
Definition labelText (n : Z) : string := "0" +:+ digits4 n +:+ digits2 (crc8 (labelBytes n) 0) +:+ "0".

Lemma label_bytes n : isLabel n -> bytes (labelBytes n).
Proof. unfold isLabel. intros Hn. repeat constructor; unfold is_byte; Z.div_mod_to_equations; lia. Qed.

Lemma digits_bytes n : isLabel n -> Buffer_from_hex (digits4 n) = labelBytes n.
Proof.
  unfold isLabel. intros Hn. unfold digits4, labelBytes. cbn [Buffer_from_hex]. rewrite !hex_val_char by (Z.div_mod_to_equations; lia). f_equal; [|f_equal]; Z.div_mod_to_equations; lia.
Qed.

Lemma label_checksum n : isLabel n -> checksum (digits4 n) = digits2 (crc8 (labelBytes n) 0).
Proof.
  intros Hn. unfold checksum. rewrite (digits_bytes n Hn). apply byte_digits. apply crc8_byte; [by apply label_bytes|]. unfold is_byte. lia.
Qed.

Lemma label_name n : isLabel n -> isName (labelText n) = true.
Proof.
  intros Hn. assert (Hc : is_byte (crc8 (labelBytes n) 0)) by (apply crc8_byte; [by apply label_bytes|unfold is_byte; lia]). unfold isLabel, is_byte in *.
  unfold labelText. rewrite !name_app. unfold isName, digits4, digits2. cbn [String.list_ascii_of_string forallb].
  by rewrite !isDigit_char by (Z.div_mod_to_equations; lia).
Qed.

Lemma length_string_app s t : String.length (s +:+ t) = (String.length s + String.length t)%nat.
Proof. induction s as [|c s IH]; [done|]. change (String c s +:+ t) with (String c (s +:+ t)). cbn [String.length]. by rewrite IH. Qed.

Lemma substring_whole s : String.substring 0 (String.length s) s = s.
Proof. induction s as [|c s IH]; [done|]. cbn. by rewrite IH. Qed.

Lemma substring_front s t : String.substring 0 (String.length s) (s +:+ t) = s.
Proof. induction s as [|c s IH]; [by destruct t|]. change (String c s +:+ t) with (String c (s +:+ t)). cbn [String.length String.substring]. by rewrite IH. Qed.

Lemma substring_back s t : String.substring (String.length s) (String.length t) (s +:+ t) = t.
Proof. induction s as [|c s IH]; [apply substring_whole|]. change (String c s +:+ t) with (String c (s +:+ t)). cbn [String.length String.substring]. by rewrite IH. Qed.

Lemma decode_front l s : String.length l = ASSET_LABEL_LENGTH ->
  decode (l +:+ s) = match assetNameLabelHexToNum l with None => Ok None | Some n => content ← AssetName s; Ok (Some (n, content)) end.
Proof.
  intros Hl. unfold decode. rewrite <- !Hl, length_string_app, substring_front. 
  replace (String.length l + String.length s - String.length l)%nat with (String.length s) by lia. by rewrite substring_back.
Qed.

Lemma labelText_num n : isLabel n -> assetNameLabelHexToNum (labelText n) = Some (Some n).
Proof.
  intros Hn. unfold assetNameLabelHexToNum. assert (E3 : String.substring 1 4 (labelText n) = digits4 n) by done.
  assert (E4 : String.substring 5 2 (labelText n) = digits2 (crc8 (labelBytes n) 0)) by done.
  rewrite E3, E4. unfold isInvalidChecksum. rewrite (label_checksum n Hn), String.eqb_refl, (label_parse n Hn). done.
Qed.

Lemma decode_label n s : isLabel n -> decode (labelText n +:+ s) = (content ← AssetName s; Ok (Some (Some n, content))).
Proof. intros Hn. rewrite decode_front by done. by rewrite labelText_num. Qed.

Lemma digits4_of d1 d2 d3 d4 : 0 <= d1 < 16 -> 0 <= d2 < 16 -> 0 <= d3 < 16 -> 0 <= d4 < 16 ->
  exists n, isLabel n /\ digits4 n = String (hex_char d1) (String (hex_char d2) (String (hex_char d3) (String (hex_char d4) ""))).
Proof.
  intros. exists (4096 * d1 + 256 * d2 + 16 * d3 + d4). split; [unfold isLabel; lia|]. unfold digits4. repeat f_equal; Z.div_mod_to_equations; lia.
Qed.

(** A label that is accepted is the text of its number. *)
Lemma label_exact l n : isName l = true -> assetNameLabelHexToNum l = Some n -> exists m, isLabel m /\ n = Some m /\ l = labelText m.
Proof.
  unfold assetNameLabelHexToNum, isInvalidLength, isInvalidBracket, isInvalidChecksum. intros Hl.
  destruct (String.length l =? ASSET_LABEL_LENGTH)%nat eqn:E8; [|done]. apply Nat.eqb_eq in E8. cbn [negb orb].
  destruct l as [|c0 [|c1 [|c2 [|c3 [|c4 [|c5 [|c6 [|c7 [|]]]]]]]]]; try done. cbn [String.get String.substring].
  case_bool_decide as E0; [|done]. case_bool_decide as E7; [|done]. injection E0 as ->. injection E7 as ->. cbn [negb orb].
  unfold isName in Hl. cbn [String.list_ascii_of_string forallb] in Hl. repeat (apply andb_true_iff in Hl as [?Hd Hl]).
  repeat match goal with H : isDigit (Ascii _ _ _ _ _ _ _ _) = true |- _ => clear H end.
  apply isDigit_spec in Hd0 as (d1 & R1 & ->), Hd1 as (d2 & R2 & ->), Hd2 as (d3 & R3 & ->), Hd3 as (d4 & R4 & ->).
  destruct (digits4_of d1 d2 d3 d4 R1 R2 R3 R4) as (m & Hm & Em). rewrite <- Em, (label_checksum m Hm), (label_parse m Hm).
  destruct (String.eqb_spec (String c5 (String c6 "")) (digits2 (crc8 (labelBytes m) 0))) as [E|]; [|done]. intros [= <-]. exists m. split_and!; [done..|].
  unfold labelText. rewrite Em, <- E. done.
Qed.

Lemma name_split s : String.length (String.substring 0 ASSET_LABEL_LENGTH s) <> ASSET_LABEL_LENGTH \/ exists l t, s = l +:+ t /\ String.length l = ASSET_LABEL_LENGTH.
Proof.
  destruct s as [|c0 [|c1 [|c2 [|c3 [|c4 [|c5 [|c6 [|c7 t]]]]]]]]; try (left; by vm_compute). right.
  by exists (String c0 (String c1 (String c2 (String c3 (String c4 (String c5 (String c6 (String c7 "")))))))), t.
Qed.

(** Labels of asset names survive: for every label of 16 bits and every name of
    at most 56 digits in lower case, [encode] puts the label, its checksum and
    the brackets in front of the name, and [decode] finds both; a longer name
    is refused as too long, and a label outside of the range with an error of
    its own. Conversely, a name of digits in lower case that [decode] takes
    apart is the encoding of what it finds. *)
Theorem label_round_trip name n : isName name = true ->
  (isLabel n -> (String.length name <= 56)%nat -> encode name n = Ok (labelText n +:+ name) /\ decode (labelText n +:+ name) = Ok (Some (Some n, name))) /\
  (isLabel n -> (56 < String.length name)%nat -> encode name n = Throw (InvalidStringError "too long")) /\
  (~ isLabel n -> exists e, encode name n = Throw (InvalidArgumentError "Label num" e)) /\
  (forall label content, (String.length name <= 64)%nat -> decode name = Ok (Some (label, content)) ->
     exists m, label = Some m /\ isLabel m /\ encode content m = Ok name).
Proof.
  intros Hs. assert (He : forall n s, isLabel n -> encode s n = AssetName (labelText n +:+ s)).
  { intros m s Hm. unfold encode, assertLabelNumInterval. unfold isLabel in Hm. rewrite (proj2 (Z.ltb_ge _ _)), (proj2 (Z.ltb_ge _ _)) by lia. cbn [orb mbind outcome_bind].
    by rewrite label_digits, label_checksum. }
  split_and!.
  - intros Hn Hl. rewrite He, (decode_label n name Hn), (name_accepted name) by (done || lia). split; [|done]. apply name_accepted; [by rewrite name_app, label_name|].
    rewrite length_string_app. change (String.length (labelText n)) with 8%nat. lia.
  - intros Hn Hl. rewrite He by done. apply name_too_long; [by rewrite name_app, label_name|]. rewrite length_string_app. change (String.length (labelText n)) with 8%nat. lia.
  - unfold isLabel. intros Hn. unfold encode, assertLabelNumInterval. assert (E : (n <? 0) || (65535 <? n) = true) by (apply orb_true_iff; rewrite !Z.ltb_lt; lia). rewrite E. by eexists.
  - intros label content Hl Hd. destruct (name_split name) as [Hshort|(l & s & -> & E8)].
    + unfold decode in Hd. assert (E : assetNameLabelHexToNum (String.substring 0 ASSET_LABEL_LENGTH name) = None); [|by rewrite E in Hd].
      unfold assetNameLabelHexToNum, isInvalidLength. by rewrite (proj2 (Nat.eqb_neq _ _) Hshort).
    + rewrite decode_front in Hd by done. rewrite name_app in Hs. apply andb_true_iff in Hs as [Hnl Hns].
      destruct (assetNameLabelHexToNum l) as [n'|] eqn:El; [|done]. destruct (label_exact l n' Hnl El) as (m & Hm & -> & ->).
      rewrite length_string_app in Hl. rewrite (name_accepted s) in Hd by (done || lia). injection Hd as <- <-. exists m. split_and!; [done..|]. rewrite He by done.
      apply name_accepted; [by rewrite name_app, label_name|by rewrite length_string_app].
Qed.

(** ** What the checksum detects *)

Lemma shiftBit_lxor x y : shiftBit (Z.lxor x y) = Z.lxor (shiftBit x) (shiftBit y).
Proof.
  assert (E : 2 * Z.lxor x y = Z.lxor (2 * x) (2 * y)).
  { rewrite !(Z.mul_comm 2). change 2 with (2 ^ 1). rewrite <- !Z.shiftl_mul_pow2 by lia. apply Z.shiftl_lxor. }
  unfold shiftBit. rewrite Z.lxor_spec, E. apply Z.bits_inj. intros k.
  destruct (Z.testbit x 7), (Z.testbit y 7); cbn [xorb]; rewrite !Z.lxor_spec; by destruct (Z.testbit (2 * x) k), (Z.testbit (2 * y) k), (Z.testbit 263 k).
Qed.

Lemma divideByte_lxor c b d e : divideByte (Z.lxor c d) (Z.lxor b e) = Z.lxor (divideByte c b) (divideByte d e).
Proof.
  unfold divideByte. assert (E : Z.lxor (Z.lxor c d) (Z.lxor b e) = Z.lxor (Z.lxor c b) (Z.lxor d e)).
  { apply Z.bits_inj. intros k. rewrite !Z.lxor_spec. by destruct (Z.testbit c k), (Z.testbit b k), (Z.testbit d k), (Z.testbit e k). }
  rewrite E. generalize (Z.lxor c b), (Z.lxor d e). intros x y. generalize 8%nat. intros k. induction k as [|k IH]; [done|]. by rewrite !Nat.iter_succ, IH, shiftBit_lxor.
Qed.

Lemma labelBytes_lxor n m : isLabel n -> isLabel m -> labelBytes (Z.lxor n m) = zip_with Z.lxor (labelBytes n) (labelBytes m).
Proof.
  intros Hn Hm. unfold labelBytes. cbn [zip_with]. change 256 with (2 ^ 8). rewrite <- !Z.shiftr_div_pow2, <- !Z.land_ones, Z.shiftr_lxor by lia. do 2 f_equal.
  apply Z.bits_inj. intros k. rewrite !Z.land_spec, !Z.lxor_spec, !Z.land_spec. by destruct (Z.testbit n k), (Z.testbit m k), (Z.testbit (Z.ones 8) k).
Qed.

(** An error of at most eight bits in a row. *)
Definition isBurst (x : Z) : Prop := exists e i, 0 < e < 256 /\ 0 <= i /\ x = e * 2 ^ i.

Lemma burst_remainder x : isBurst x -> x <= 65535 -> remainder (labelBytes x) 0 <> 0.
Proof.
  intros (e & i & He & Hi & ->) Hx.
  assert (Hi' : i < 16) by (destruct (Z.lt_ge_cases i 16) as [|H]; [done|]; pose proof (Z.pow_le_mono_r 2 16 i ltac:(lia) H) as Hp; change (2 ^ 16) with 65536 in Hp; nia).
  assert (H : forallb (fun i => forallb (fun e => (e =? 0) || negb (remainder (labelBytes (e * 2 ^ i)) 0 =? 0) || (65535 <? e * 2 ^ i)) (seqZ 0 256)) (seqZ 0 16) = true) by by vm_compute.
  rewrite forallb_forall in H. specialize (H i ltac:(apply list_elem_of_In, elem_of_seqZ; lia)). cbv beta in H. pose proof (byte_cases _ H e ltac:(unfold is_byte; lia)) as Hb. cbv beta in Hb.
  apply orb_true_iff in Hb as [[Hb%Z.eqb_eq|Hb%negb_true_iff%Z.eqb_neq]%orb_true_iff|Hb%Z.ltb_lt]; [lia|done|lia].
Qed.

Lemma label_remainders n m : isLabel n -> isLabel m -> isBurst (Z.lxor n m) -> crc8 (labelBytes n) 0 <> crc8 (labelBytes m) 0.
Proof.
  intros Hn Hm Hb E. assert (Hr : forall k, isLabel k -> crc8 (labelBytes k) 0 = remainder (labelBytes k) 0).
  { intros k Hk. by apply crc8_remainder; [apply label_bytes|]. }
  rewrite (Hr n Hn), (Hr m Hm) in E. apply (burst_remainder (Z.lxor n m) Hb).
  - destruct Hb as (e & i & He & Hi & Ex). assert (Hx : 0 < Z.lxor n m) by (rewrite Ex; pose proof (Z.pow_pos_nonneg 2 i ltac:(lia) Hi); nia).
    enough (Z.lxor n m < 2 ^ 16) by (change (2 ^ 16) with 65536 in *; lia). apply (proj2 (Z.log2_lt_pow2 _ 16 Hx)).
    assert (Hl : forall x, isLabel x -> Z.log2 x < 16).
    { unfold isLabel. intros x Hx'. destruct (Z.eq_dec x 0) as [->|]; [done|]. apply (proj1 (Z.log2_lt_pow2 x 16 ltac:(lia))). change (2 ^ 16) with 65536. lia. }
    pose proof (Hl n Hn). pose proof (Hl m Hm). unfold isLabel in *. pose proof (Z.log2_lxor n m ltac:(lia) ltac:(lia)). lia.
  - rewrite labelBytes_lxor by done. revert E. unfold labelBytes, remainder. cbn [zip_with fold_left]. rewrite <- (Z.lxor_nilpotent 0) at 3. rewrite !divideByte_lxor.
    intros ->. apply Z.lxor_nilpotent.
Qed.

(** C29. The checksum of a label detects errors: when the four digits of a
    label are replaced by those of another label that differs from it within
    eight bits in a row (one wrong digit, two wrong digits next to each other),
    the label is not accepted any more. *)
Theorem label_errors_detected n m : isLabel n -> isLabel m -> isBurst (Z.lxor n m) ->
  assetNameLabelHexToNum (labelText n) = Some (Some n) /\
  assetNameLabelHexToNum ("0" +:+ digits4 m +:+ digits2 (crc8 (labelBytes n) 0) +:+ "0") = None.
Proof.
  intros Hn Hm Hb. split; [by apply labelText_num|]. unfold assetNameLabelHexToNum. cbv zeta.
  set (l := "0" +:+ _). assert (E3 : String.substring 1 4 l = digits4 m) by done. assert (E4 : String.substring 5 2 l = digits2 (crc8 (labelBytes n) 0)) by done.
  rewrite E3, E4. unfold isInvalidChecksum. rewrite (label_checksum m Hm).
  destruct (String.eqb_spec (digits2 (crc8 (labelBytes n) 0)) (digits2 (crc8 (labelBytes m) 0))) as [E|]; [|by rewrite !orb_true_r].
  exfalso. apply (label_remainders n m Hn Hm Hb). assert (Hc : forall k, isLabel k -> is_byte (crc8 (labelBytes k) 0)) by (intros k Hk; by apply crc8_byte; [apply label_bytes|]).
  assert (Hd : forall a b, is_byte a -> is_byte b -> digits2 a = digits2 b -> a = b); [|by apply Hd; [apply Hc..|]].
  unfold is_byte, digits2. intros a b Ha Hb' [= E1 E2]. apply (f_equal hex_val) in E1, E2. rewrite !hex_val_char in E1, E2 by (Z.div_mod_to_equations; lia).
  injection E1 as E1. injection E2 as E2. Z.div_mod_to_equations; lia.
Qed.

(** ** Witnesses *)

Lemma crc8_is_remainder_witness : crc8 [0; 100] 0 = remainder [0; 100] 0.
Proof.
  destruct (crc8_is_remainder [0; 100] 0) as [E _]; [repeat constructor; vm_compute; discriminate|vm_compute; split; [discriminate|reflexivity]|]. exact E.
Defined.

Lemma label_round_trip_witness : AssetNameLabel.encode "6d61747478" 222 = Ok "000de1406d61747478"%string /\ AssetNameLabel.decode "000de1406d61747478" = Ok (Some (Some 222, "6d61747478"%string)).
Proof.
  destruct (label_round_trip "6d61747478" AssetNameLabelNum.UserNFT) as (H & _); [vm_compute; reflexivity|].
  destruct H as [E D]; [vm_compute; split; discriminate|vm_compute; lia|]. split; [exact E|exact D].
Defined.

(** The digits 00de (222) with two of them swapped. *)
Lemma label_errors_detected_witness : assetNameLabelHexToNum "000ed140" = None.
Proof.
  destruct (label_errors_detected 222 237) as [_ E]; [vm_compute; split; discriminate|vm_compute; split; discriminate| |exact E].
  exists 51, 0. split; [lia|]. split; [lia|]. vm_compute. reflexivity.
Defined.
