(* ===== verification/ValueFacts.v ===== *)
(** * Values on the wire: facts

    The bytes of a map of maps and of a value, and that the class [Value]
    implements the interface of [Serializable.v] for values in canonical form. *)
From S2P Require Import Prelude JsRuntime Utf8 CborCommon Half CborWriter CborReader CborMachine CborExact CborSkip CborDocuments Codec CodecFacts Credential Records Serializable Values SerializedValue.

(** ** Native assets: facts

    Identifiers are split and joined; a token map and its map of maps stand for
    each other; the canonical order makes the map of maps unique. *)

Import JsMapFacts.

(** ** Hex strings *)

Lemma append_cons c a b : String c a +:+ b = String c (a +:+ b).
Proof. reflexivity. Qed.

Lemma string_length_app a b : String.length (a +:+ b) = (String.length a + String.length b)%nat.
Proof. induction a as [|c a IH]; [done|]. rewrite append_cons. cbn. by rewrite IH. Qed.

Lemma to_hex_app l k : Buffer_to_hex (l ++ k) = Buffer_to_hex l +:+ Buffer_to_hex k.
Proof. induction l as [|b l IH]; [done|]. cbn [app Buffer_to_hex]. by rewrite IH, !append_cons. Qed.

Lemma substring_all a : String.substring 0 (String.length a) a = a.
Proof. induction a as [|c a IH]; [done|]. cbn. by rewrite IH. Qed.

Lemma substring_app_l a b : String.substring 0 (String.length a) (a +:+ b) = a.
Proof. induction a as [|c a IH]; [by destruct b|]. rewrite append_cons. cbn. by rewrite IH. Qed.

Lemma substring_app_r a b : String.substring (String.length a) (String.length b) (a +:+ b) = b.
Proof. induction a as [|c a IH]; [by apply substring_all|]. rewrite append_cons. cbn. exact IH. Qed.

Lemma hex_char_plain d : 0 <= d < 16 -> ascii_lower (hex_char d) = hex_char d /\ Ascii.eqb (hex_char d) "." = false.
Proof.
  intros Hd. assert (H : d = 0 \/ d = 1 \/ d = 2 \/ d = 3 \/ d = 4 \/ d = 5 \/ d = 6 \/ d = 7 \/ d = 8 \/ d = 9 \/ d = 10 \/ d = 11 \/ d = 12
    \/ d = 13 \/ d = 14 \/ d = 15) by lia. repeat destruct H as [->|H]; [split; reflexivity..|]. by subst.
Qed.

Lemma to_hex_plain l : bytes l -> toLowerCase (Buffer_to_hex l) = Buffer_to_hex l /\ withoutDots (Buffer_to_hex l) = Buffer_to_hex l.
Proof.
  induction 1 as [|b l Hb _ [I1 I2]]; [done|]. unfold is_byte in Hb. cbn [Buffer_to_hex toLowerCase withoutDots].
  destruct (hex_char_plain (b / 16)) as [E1 E2]; [split; [apply Z.div_pos; lia|apply Z.div_lt_upper_bound; lia]|].
  destruct (hex_char_plain (b mod 16)) as [E3 E4]; [apply Z.mod_pos_bound; lia|].
  by rewrite E1, E2, E3, E4, I1, I2.
Qed.

(** ** Identifiers *)

(** A policy and a name of at most 32 bytes, in lower case. *)
Definition isAssetId (id : string) : bool :=
  let n := Z.of_nat (String.length id) in isBlob id && (56 <=? n) && (n <=? 120).

Definition isName (name : string) : bool := isBlob name && (Z.of_nat (String.length name) <=? 64).

Lemma blob_hex h : isBlob h = true -> exists l, bytes l /\ h = Buffer_to_hex l /\ Z.of_nat (String.length h) = 2 * zlen l.
Proof.
  intros Hb. exists (Buffer_from_hex h). pose proof (isBlob_eq h Hb) as E. split_and!; [apply Buffer_from_hex_bytes|done|].
  rewrite <- E at 1. apply length_to_hex.
Qed.

Lemma fromParts_ok p n : isHash 56 p = true -> isName n = true -> fromParts p n = Ok (p +:+ n).
Proof.
  intros (Hp & Hlp & _)%isHash_spec [Hn Hln]%andb_true_iff. zb. unfold fromParts, AssetId_of.
  destruct (blob_hex p Hp) as (lp & Bp & -> & Ep), (blob_hex n Hn) as (ln & Bn & -> & En).
  rewrite <- to_hex_app. assert (Hl : bytes (lp ++ ln)) by by apply Forall_app.
  destruct (to_hex_plain _ Hl) as [_ ->]. cbv zeta. unfold typedHex. cbn [Z.eqb negb andb]. rewrite (isHexString_blob _ Hl), andb_false_r.
  cbn [mbind outcome_bind]. rewrite !length_to_hex, zlen_app in *. pose proof (zlen_nonneg ln).
  by rewrite (proj2 (Z.ltb_ge _ _)), (proj2 (Z.ltb_ge _ _)) by lia.
Qed.

Section parts.
Context (id : string) (Hid : isAssetId id = true).

Lemma assetId_split : id = policyPart id +:+ namePart id /\ isHash 56 (policyPart id) = true /\ isName (namePart id) = true.
Proof.
  unfold isAssetId in Hid. apply andb_true_iff in Hid as [[Hb H56]%andb_true_iff H120]. zb.
  set (l := Buffer_from_hex id). assert (Hl : bytes l) by apply Buffer_from_hex_bytes.
  assert (E : id = Buffer_to_hex (take 28 l) +:+ Buffer_to_hex (drop 28 l)).
  { rewrite <- to_hex_app, take_drop. symmetry. by apply isBlob_eq. }
  assert (Hz : Z.of_nat (String.length id) = 2 * zlen l) by (rewrite <- (isBlob_eq id Hb) at 1; apply length_to_hex).
  assert (H28 : String.length (Buffer_to_hex (take 28 l)) = 56%nat).
  { apply Nat2Z.inj. rewrite length_to_hex. unfold zlen in *. rewrite length_take_le; lia. }
  assert (Hp : policyPart id = Buffer_to_hex (take 28 l)) by (unfold policyPart; rewrite E, <- H28; apply substring_app_l).
  assert (Hn : namePart id = Buffer_to_hex (drop 28 l)).
  { unfold namePart. rewrite E at 2. rewrite E at 1. rewrite string_length_app, H28. replace (56 + _ - 56)%nat with (String.length (Buffer_to_hex (drop 28 l))) by lia.
    rewrite <- H28. apply substring_app_r. }
  rewrite Hp, Hn. split_and!; [done| |].
  - apply andb_true_iff. split; [apply String.eqb_eq; by rewrite Buffer_hex_roundtrip by by apply Forall_take|]. rewrite H28. done.
  - apply andb_true_iff. split; [apply String.eqb_eq; by rewrite Buffer_hex_roundtrip by by apply Forall_drop|]. rewrite length_to_hex. unfold zlen in *.
    rewrite length_drop. apply Z.leb_le. lia.
Qed.

Lemma getPolicyId_ok : getPolicyId id = Ok (policyPart id).
Proof. destruct assetId_split as (_ & Hp & _). by apply typedHex_blob. Qed.

Lemma getAssetName_ok : getAssetName id = Ok (namePart id).
Proof.
  destruct assetId_split as (_ & _ & [Hb Hn]%andb_true_iff). zb. unfold getAssetName, AssetName.
  assert (E : toLowerCase (namePart id) = namePart id).
  { rewrite <- (isBlob_eq _ Hb). apply to_hex_plain, Buffer_from_hex_bytes. }
  rewrite E. cbv zeta. case_bool; [|done]. unfold typedHex. cbn [Z.eqb negb andb].
  rewrite <- (isBlob_eq _ Hb) at 2. rewrite isHexString_blob by apply Buffer_from_hex_bytes. rewrite andb_false_r. cbn [mbind outcome_bind].
  by rewrite (proj2 (Z.ltb_ge _ _)).
Qed.
End parts.

(** ** The canonical order *)

Lemma keyGreater_irrefl a : keyGreater a a = false.
Proof. unfold keyGreater. rewrite Nat.eqb_refl. apply string_gt_irrefl. Qed.

Lemma keyGreater_total a b : a <> b -> keyGreater a b = true \/ keyGreater b a = true.
Proof.
  intros Hne. unfold keyGreater. rewrite (Nat.eqb_sym (String.length b)). destruct (Nat.eqb_spec (String.length a) (String.length b)).
  - by apply string_gt_total.
  - rewrite !Nat.ltb_lt. lia.
Qed.

Lemma keyGreater_trans a b c : keyGreater a b = true -> keyGreater b c = true -> keyGreater a c = true.
Proof.
  unfold keyGreater. destruct (Nat.eqb_spec (String.length a) (String.length b)), (Nat.eqb_spec (String.length b) (String.length c)),
    (Nat.eqb_spec (String.length a) (String.length c)); rewrite ?Nat.ltb_lt; try lia; try apply string_gt_trans.
Qed.

Section canonical.
Context {V : Type}.
Implicit Types l m : list (string * V).

Definition canonical (x y : string * V) : Prop := ascending sortCanonically x y.

Lemma canonical_irrefl (x : string * V) : sortCanonically x x = false.
Proof. apply keyGreater_irrefl. Qed.

Lemma canonical_trans (x y z : string * V) : sortCanonically x y = true -> sortCanonically y z = true -> sortCanonically x z = true.
Proof. apply keyGreater_trans. Qed.

Lemma canonical_total (x y : string * V) : x.1 <> y.1 -> sortCanonically x y = true \/ sortCanonically y x = true.
Proof. apply keyGreater_total. Qed.

Lemma wf_perm l m : l ≡ₚ m -> JsMap.wf m -> JsMap.wf l.
Proof. intros Hp Hm. unfold JsMap.wf, JsMap.keys in *. by rewrite Hp. Qed.

Lemma sortedMap_sort m : JsMap.wf m -> sortedMap m = sort_by sortCanonically m.
Proof. intros Hm. apply of_entries_nodup. eapply wf_perm; [apply sort_by_perm|done]. Qed.

Lemma sortedMap_perm m : JsMap.wf m -> sortedMap m ≡ₚ m.
Proof. intros Hm. rewrite sortedMap_sort by done. apply sort_by_perm. Qed.

Lemma sortedMap_wf m : JsMap.wf (sortedMap m).
Proof. apply wf_of_entries. Qed.

Lemma sortedMap_sorted m : JsMap.wf m -> StronglySorted canonical (sortedMap m).
Proof. intros Hm. rewrite sortedMap_sort by done. apply (sort_by_sorted _ fst canonical_trans canonical_total m Hm). Qed.

Lemma sortedMap_unique m l : JsMap.wf m -> l ≡ₚ m -> StronglySorted canonical l -> sortedMap m = l.
Proof.
  intros Hm Hp Hl. rewrite sortedMap_sort by done. by apply (sort_by_unique _ fst canonical_irrefl canonical_trans canonical_total).
Qed.

Lemma sortedMap_permuted m l : JsMap.wf m -> l ≡ₚ m -> sortedMap l = sortedMap m.
Proof.
  intros Hm Hp. apply sortedMap_unique; [by eapply wf_perm|by rewrite sortedMap_perm, Hp|by apply sortedMap_sorted].
Qed.

Lemma sortedMap_id m : JsMap.wf m -> StronglySorted canonical m -> sortedMap m = m.
Proof. intros Hm Hs. by apply sortedMap_unique. Qed.
End canonical.

(** ** Grouping by policy *)

(** The names and quantities under a policy. *)
Definition namesOf (p : string) (l : list (string * Z)) : list (string * Z) :=
  (fun e => (namePart e.1, e.2)) <$> filter (fun e => policyPart e.1 = p) l.

(** The entries a map of maps stands for. *)
Definition flat (m : list (string * list (string * Z))) : list (string * Z) :=
  concat (map (fun g => (fun e => (g.1 +:+ e.1, e.2)) <$> g.2) m).

Definition validAssets (l : list (string * Z)) : Prop := Forall (fun e => isAssetId e.1 = true) l /\ JsMap.wf l.

(** [m] is [l] grouped by policy, every group in the order of [l]. *)
Record groups (l : list (string * Z)) (m : list (string * list (string * Z))) : Prop := {
  groups_wf : JsMap.wf m;
  groups_names p : default [] (JsMap.get m p) = namesOf p l;
  groups_nonempty : Forall (fun g => g.2 <> []) m
}.

Lemma namesOf_app p l k : namesOf p (l ++ k) = namesOf p l ++ namesOf p k.
Proof. unfold namesOf. by rewrite filter_app, fmap_app. Qed.

Lemma namesOf_perm p l k : l ≡ₚ k -> namesOf p l ≡ₚ namesOf p k.
Proof. intros Hp. unfold namesOf. by rewrite Hp. Qed.

(** Different identifiers under one policy have different names. *)
Lemma namesOf_wf p l : validAssets l -> JsMap.wf (namesOf p l).
Proof.
  intros [Hv Hd]. unfold JsMap.wf, JsMap.keys in *. unfold namesOf. induction l as [|[id q] l IH]; [constructor|].
  inversion_clear Hv as [|? ? Hid Hv']. cbn in Hd. apply NoDup_cons in Hd as [Hn Hd]. specialize (IH Hv' Hd).
  rewrite filter_cons. case_decide as E; [|done]. cbn. apply NoDup_cons. split; [|done]. intros Hin.
  apply list_elem_of_fmap in Hin as ([n q'] & En & Hin). apply list_elem_of_fmap in Hin as ([id' q''] & [= -> ->] & [E' Hin]%list_elem_of_filter).
  cbn [fst snd] in *. apply Hn. apply list_elem_of_fmap. exists (id', q''). split; [|done]. cbn [fst snd].
  rewrite List.Forall_forall in Hv'. specialize (Hv' (id', q'') (proj1 (list_elem_of_In _ _) Hin)). cbn [fst snd] in Hv'.
  destruct (assetId_split id Hid) as [Ei _]. destruct (assetId_split id' Hv') as [Ei' _]. change (namePart id = namePart id') in En. congruence.
Qed.

(** The policy and the name of joined parts. *)
Lemma parts_join p n : isHash 56 p = true -> policyPart (p +:+ n) = p /\ namePart (p +:+ n) = n.
Proof.
  intros (_ & Hl & _)%isHash_spec. assert (H56 : String.length p = 56%nat) by lia. unfold policyPart, namePart. rewrite string_length_app, H56.
  replace (56 + _ - 56)%nat with (String.length n) by lia. rewrite <- H56 at 1 2. split; [apply substring_app_l|apply substring_app_r].
Qed.

Lemma set_last (m : list (string * Z)) k v : JsMap.wf (m ++ [(k, v)]) -> JsMap.set m k v = m ++ [(k, v)].
Proof.
  intros Hw. apply set_not_In. unfold JsMap.wf, JsMap.keys in *. rewrite fmap_app in Hw. apply NoDup_app in Hw as (_ & Hw & _).
  intros Hk. apply (Hw _ Hk). by left.
Qed.

Lemma validAssets_app l k : validAssets (l ++ k) -> validAssets l.
Proof.
  intros [Hv Hd]. apply Forall_app in Hv as [Hv _]. split; [done|]. unfold JsMap.wf, JsMap.keys in *. rewrite fmap_app in Hd.
  by apply NoDup_app in Hd as [Hd _].
Qed.

Lemma validAssets_perm l m : l ≡ₚ m -> validAssets m -> validAssets l.
Proof. intros Hp [Hv Hd]. split; [by rewrite Hp|by eapply wf_perm]. Qed.

Lemma groups_step l m id q : validAssets (l ++ [(id, q)]) -> groups l m ->
  groups (l ++ [(id, q)]) (addAsset m (policyPart id) (namePart id) q).
Proof.
  intros Hv [Hw Hn He]. unfold addAsset. rewrite Hn. pose proof (namesOf_wf (policyPart id) _ Hv) as Hwf. rewrite namesOf_app in Hwf.
  assert (Ei : namesOf (policyPart id) [(id, q)] = [(namePart id, q)]) by (unfold namesOf; rewrite filter_cons_True by done; done).
  rewrite Ei in Hwf. rewrite set_last by done. split.
  - by apply wf_set.
  - intros p. rewrite get_set. case_decide as E.
    + subst p. cbn. by rewrite namesOf_app, Ei.
    + rewrite Hn, namesOf_app. unfold namesOf at 3. rewrite filter_cons_False by done. by rewrite app_nil_r.
  - apply Forall_forall. intros [p ns] Hin. apply elem_get in Hin; [|by apply wf_set]. rewrite get_set in Hin. case_decide.
    + injection Hin as <-. cbn. by destruct (namesOf _ _).
    + apply get_Some_elem in Hin. by apply (proj1 (Forall_forall _ _) He _ Hin).
Qed.

Lemma groupAssets_groups k l m : validAssets (l ++ k) -> groups l m -> exists m', groupAssets m k = Ok m' /\ groups (l ++ k) m'.
Proof.
  revert l m. induction k as [|[id q] k IH]; intros l m Hv Hg; [exists m; by rewrite app_nil_r|].
  rewrite (cons_middle (id, q) l k), app_assoc in Hv. pose proof (validAssets_app _ _ Hv) as Hv1.
  destruct (IH _ _ Hv (groups_step l m id q Hv1 Hg)) as (m' & Em & Hm). exists m'. rewrite <- app_assoc in Hm. split; [|done].
  cbn [groupAssets]. assert (Hid : isAssetId id = true) by (destruct Hv1 as [Hf _]; apply Forall_app in Hf as [_ Hf]; by inversion Hf).
  by rewrite getPolicyId_ok, getAssetName_ok by done.
Qed.

(** ** The canonical order of assets *)

(** By policy, and under one policy by the canonical order of the names. *)
Definition assetGreater (x y : string * Z) : bool :=
  if String.eqb (policyPart x.1) (policyPart y.1) then keyGreater (namePart x.1) (namePart y.1)
  else keyGreater (policyPart x.1) (policyPart y.1).

Definition assetBefore (x y : string * Z) : Prop := ascending assetGreater x y.

Lemma substring_split n s : String.substring 0 n s +:+ String.substring n (String.length s - n) s = s.
Proof.
  revert s. induction n as [|n IH]; intros [|c s]; try done.
  - cbn. by rewrite substring_all.
  - cbn. rewrite append_cons. f_equal. apply IH.
Qed.

Lemma assetGreater_irrefl x : assetGreater x x = false.
Proof. unfold assetGreater. rewrite String.eqb_refl. apply keyGreater_irrefl. Qed.

Lemma assetGreater_trans x y z : assetGreater x y = true -> assetGreater y z = true -> assetGreater x z = true.
Proof.
  unfold assetGreater. destruct (String.eqb_spec (policyPart x.1) (policyPart y.1)) as [E1|N1], (String.eqb_spec (policyPart y.1) (policyPart z.1)) as [E2|N2].
  - rewrite E1, E2, String.eqb_refl. apply keyGreater_trans.
  - rewrite E1. by destruct (String.eqb_spec (policyPart y.1) (policyPart z.1)).
  - rewrite <- E2. by destruct (String.eqb_spec (policyPart x.1) (policyPart y.1)).
  - intros H1 H2. pose proof (keyGreater_trans _ _ _ H1 H2) as H. destruct (String.eqb_spec (policyPart x.1) (policyPart z.1)) as [E|]; [|done].
    by rewrite E, keyGreater_irrefl in H.
Qed.

Lemma assetGreater_total x y : x.1 <> y.1 -> assetGreater x y = true \/ assetGreater y x = true.
Proof.
  intros Hne. unfold assetGreater. rewrite (String.eqb_sym (policyPart y.1)). destruct (String.eqb_spec (policyPart x.1) (policyPart y.1)) as [E|E];
    apply keyGreater_total; [|done]. intros E'. apply Hne. rewrite <- (substring_split 56 x.1), <- (substring_split 56 y.1).
  change (policyPart x.1 +:+ namePart x.1 = policyPart y.1 +:+ namePart y.1). by rewrite E, E'.
Qed.

(** The order in which assets are written. *)
Definition canonicalAssets (l : list (string * Z)) : list (string * Z) := sort_by assetGreater l.

Lemma canonicalAssets_perm l : canonicalAssets l ≡ₚ l.
Proof. apply sort_by_perm. Qed.

Lemma canonicalAssets_sorted l : JsMap.wf l -> StronglySorted assetBefore (canonicalAssets l).
Proof. apply (sort_by_sorted _ fst assetGreater_trans assetGreater_total). Qed.

Lemma canonicalAssets_unique l l' : JsMap.wf l -> l' ≡ₚ l -> StronglySorted assetBefore l' -> canonicalAssets l = l'.
Proof. apply (sort_by_unique _ fst assetGreater_irrefl assetGreater_trans assetGreater_total). Qed.

Lemma canonicalAssets_permuted l l' : JsMap.wf l -> l ≡ₚ l' -> canonicalAssets l = canonicalAssets l'.
Proof. apply (sort_by_permuted _ fst assetGreater_irrefl assetGreater_trans assetGreater_total). Qed.

Lemma canonicalAssets_idemp l : JsMap.wf l -> canonicalAssets (canonicalAssets l) = canonicalAssets l.
Proof. intros Hl. symmetry. apply canonicalAssets_permuted; [done|]. symmetry. apply canonicalAssets_perm. Qed.

(** ** The groups in canonical order *)

Lemma get_perm (m m' : list (string * list (string * Z))) k : JsMap.wf m -> m ≡ₚ m' -> JsMap.get m' k = JsMap.get m k.
Proof.
  intros Hw Hp. assert (Hw' : JsMap.wf m') by (eapply wf_perm; [symmetry; exact Hp|done]). destruct (JsMap.get m k) as [v|] eqn:E.
  - apply elem_get; [done|]. rewrite <- Hp. by apply get_Some_elem.
  - apply get_None. apply get_None in E. unfold JsMap.keys in *. by rewrite <- Hp.
Qed.

Lemma groups_perm l m m' : m ≡ₚ m' -> groups l m -> groups l m'.
Proof.
  intros Hp [Hw Hn He]. split; [by eapply wf_perm|intros p; by rewrite (get_perm m) by done|by rewrite <- Hp].
Qed.

Lemma namesOf_elem p l n q : (n, q) ∈ namesOf p l <-> exists id, (id, q) ∈ l /\ policyPart id = p /\ namePart id = n.
Proof.
  unfold namesOf. rewrite list_elem_of_fmap. split.
  - intros ([id q'] & [= -> ->] & [E Hin]%list_elem_of_filter). by exists id.
  - intros (id & Hin & Ep & En). exists (id, q). cbn [fst snd]. rewrite En. split; [done|]. by apply list_elem_of_filter.
Qed.

(** In the canonical order of the identifiers, the names are in canonical order. *)
Lemma keyGreater_names a b : policyPart a = policyPart b -> isAssetId a = true -> isAssetId b = true ->
  keyGreater a b = keyGreater (namePart a) (namePart b).
Proof.
  intros Ep Ha Hb. destruct (assetId_split a Ha) as (Ea & Hpa & _), (assetId_split b Hb) as (Eb & _ & _).
  rewrite Ea, Eb at 1. rewrite <- Ep. unfold keyGreater. rewrite !string_length_app.
  assert (Eg : forall p x y, string_gt (p +:+ x) (p +:+ y) = string_gt x y).
  { intros p x y. induction p as [|c p IH]; [done|]. rewrite !append_cons. cbn. by rewrite Ascii.eqb_refl. }
  rewrite Eg. destruct (Nat.eqb_spec (String.length (policyPart a) + String.length (namePart a)) (String.length (policyPart a) + String.length (namePart b))),
    (Nat.eqb_spec (String.length (namePart a)) (String.length (namePart b))); try lia; [done|].
  destruct (Nat.ltb_spec (String.length (policyPart a) + String.length (namePart b)) (String.length (policyPart a) + String.length (namePart a))),
    (Nat.ltb_spec (String.length (namePart b)) (String.length (namePart a))); try lia; done.
Qed.

Lemma sorted_app {A} (R : A -> A -> Prop) l k : StronglySorted R l -> StronglySorted R k -> (forall x y, x ∈ l -> y ∈ k -> R x y) ->
  StronglySorted R (l ++ k).
Proof.
  induction 1 as [|x l _ IH Hx]; intros Hk Hlk; [done|]. cbn. constructor.
  - apply IH; [done|]. intros y z Hy Hz. apply Hlk; [by right|done].
  - apply Forall_app. split; [done|]. apply Forall_forall. intros z Hz. apply Hlk; [by left|done].
Qed.

Lemma sorted_nodup {A} (R : A -> A -> Prop) l : (forall x, ~ R x x) -> StronglySorted R l -> NoDup l.
Proof.
  intros HR. induction 1 as [|x l _ IH Hx]; constructor; [|done]. intros Hin. by apply (HR x), (proj1 (Forall_forall _ _) Hx).
Qed.

(** Under a policy, names stand in the order of the identifiers. *)
Lemma namesOf_sorted p l : validAssets l -> StronglySorted canonical l -> StronglySorted canonical (namesOf p l).
Proof.
  intros [Hv _]. induction 1 as [|[id q] l _ IH Hx]; [constructor|]. inversion_clear Hv as [|? ? Hid Hv']. cbn [fst] in Hid. specialize (IH Hv').
  unfold namesOf. rewrite filter_cons. case_decide as E; [|exact IH]. cbn [fst] in E. rewrite fmap_cons. constructor; [exact IH|].
  apply Forall_forall. intros [n q'] (id' & Hin & Ep & En)%namesOf_elem.
  pose proof (proj1 (Forall_forall _ _) Hx _ Hin) as Hgt. pose proof (proj1 (Forall_forall _ _) Hv' _ Hin) as Hid'. cbn [fst] in Hid'.
  unfold canonical, ascending, sortCanonically in *. cbn [fst] in *. rewrite <- En, <- keyGreater_names; [done| |done..]. by rewrite Ep, E.
Qed.

(** What is in a group. *)
Lemma group_spec l m p ns : validAssets l -> groups l m -> (p, ns) ∈ m ->
  ns = namesOf p l /\ isHash 56 p = true /\ Forall (fun e => isName e.1 = true /\ (p +:+ e.1, e.2) ∈ l) ns.
Proof.
  intros [Hv _] [Hw Hn He] Hin. assert (E : ns = namesOf p l) by (rewrite <- Hn; by rewrite (elem_get m p ns Hw Hin)).
  assert (Hall : Forall (fun e => isHash 56 p = true /\ isName e.1 = true /\ (p +:+ e.1, e.2) ∈ l) ns).
  { apply Forall_forall. intros [n q] Hnq. rewrite E in Hnq. apply namesOf_elem in Hnq as (id & Hid & <- & <-).
    pose proof (proj1 (Forall_forall _ _) Hv _ Hid) as Hi. cbn [fst snd] in *. destruct (assetId_split id Hi) as (Ei & Hp & Hname).
    split_and!; [done..|]. by rewrite <- Ei. }
  split; [done|]. pose proof (proj1 (Forall_forall _ _) He _ Hin) as Hne. cbn [snd] in Hne.
  split; [by destruct Hall as [|e ns (? & _) _]|]. eapply Forall_impl; [exact Hall|]. by intros e (_ & ? & ?).
Qed.

Lemma flat_cons p ns m : flat ((p, ns) :: m) = ((fun e => (p +:+ e.1, e.2)) <$> ns) ++ flat m.
Proof. reflexivity. Qed.

Lemma flat_elem m id q : (id, q) ∈ flat m <-> exists p ns n, (p, ns) ∈ m /\ (n, q) ∈ ns /\ id = p +:+ n.
Proof.
  induction m as [|[p ns] m IH].
  - split; [by intros ?%not_elem_of_nil|]. by intros (? & ? & ? & ?%not_elem_of_nil & _).
  - rewrite flat_cons, elem_of_app, IH, list_elem_of_fmap. split.
    + intros [([n q'] & [= -> ->] & Hin)|(p' & ns' & n & H1 & H2 & H3)]; [exists p, ns, n; split_and!; [by left|done..]|].
      exists p', ns', n. split_and!; [by right|done..].
    + intros (p' & ns' & n & [[= -> ->]|H1]%elem_of_cons & H2 & ->); [left; by exists (n, q)|right; by exists p', ns', n].
Qed.

(** A group of well-formed names in canonical order. *)
Definition goodGroup (g : string * list (string * Z)) : Prop :=
  isHash 56 g.1 = true /\ Forall (fun e => isName e.1 = true) g.2 /\ StronglySorted canonical g.2.

Lemma joined_sorted p ns : isHash 56 p = true -> StronglySorted canonical ns ->
  StronglySorted assetBefore ((fun e => (p +:+ e.1, e.2)) <$> ns).
Proof.
  intros Hp. induction 1 as [|[n q] ns _ IH Hx]; [constructor|]. rewrite fmap_cons. constructor; [done|].
  apply Forall_forall. intros [id q'] ([n' q''] & [= -> ->] & Hin)%list_elem_of_fmap. pose proof (proj1 (Forall_forall _ _) Hx _ Hin) as Hgt.
  unfold assetBefore, canonical, ascending, sortCanonically, assetGreater in *. cbn [fst] in *.
  destruct (parts_join p n Hp) as [-> ->], (parts_join p n' Hp) as [-> ->]. by rewrite String.eqb_refl.
Qed.

Lemma flat_sorted m : JsMap.wf m -> Forall goodGroup m -> StronglySorted canonical m -> StronglySorted assetBefore (flat m).
Proof.
  intros Hw Hg Hs. induction Hs as [|[p ns] m _ IH Hx]; [constructor|]. inversion_clear Hg as [|? ? (Hp & Hn & Hns) Hg']. cbn [fst snd] in *.
  unfold JsMap.wf, JsMap.keys in *. cbn in Hw. apply NoDup_cons in Hw as [Hpm Hw]. rewrite flat_cons. apply sorted_app; [by apply joined_sorted|by apply IH|].
  intros [id q] [id' q'] ([n q0] & [= -> ->] & _)%list_elem_of_fmap (p' & ns' & n' & Hin & _ & ->)%flat_elem.
  pose proof (proj1 (Forall_forall _ _) Hx _ Hin) as Hgt. pose proof (proj1 (Forall_forall _ _) Hg' _ Hin) as (Hp' & _). cbn [fst] in *.
  unfold assetBefore, canonical, ascending, sortCanonically, assetGreater in *. cbn [fst] in *.
  destruct (parts_join p n Hp) as [-> ->], (parts_join p' n' Hp') as [-> ->]. destruct (String.eqb_spec p' p) as [->|]; [|done].
  exfalso. apply Hpm, list_elem_of_fmap. by exists (p, ns').
Qed.

Lemma flat_perm l m : validAssets l -> groups l m -> NoDup (flat m) -> flat m ≡ₚ l.
Proof.
  intros Hv Hg Hd. apply NoDup_Permutation; [done|by apply (NoDup_fmap_1 fst), Hv|]. intros [id q]. rewrite flat_elem. split.
  - intros (p & ns & n & Hin & Hn & ->). destruct (group_spec l m p ns Hv Hg Hin) as (_ & _ & Hall).
    by apply (proj1 (Forall_forall _ _) Hall) in Hn as [_ ?].
  - intros Hin. pose proof (proj1 (Forall_forall _ _) (proj1 Hv) _ Hin) as Hid. cbn [fst] in Hid. destruct (assetId_split id Hid) as (Ei & _ & _).
    assert (Hnq : (namePart id, q) ∈ namesOf (policyPart id) l) by (apply namesOf_elem; by exists id).
    rewrite <- (groups_names l m Hg) in Hnq. destruct (JsMap.get m (policyPart id)) as [ns|] eqn:E; [|by apply not_elem_of_nil in Hnq].
    exists (policyPart id), ns, (namePart id). split_and!; [by apply get_Some_elem|done..].
Qed.

(** Joining groups whose identifiers differ. *)
Lemma joinAssets_flat p ns : isHash 56 p = true -> Forall (fun e => isName e.1 = true) ns -> forall m,
  JsMap.wf (m ++ ((fun e => (p +:+ e.1, e.2)) <$> ns)) -> joinAssets p ns m = Ok (m ++ ((fun e => (p +:+ e.1, e.2)) <$> ns)).
Proof.
  intros Hp. induction 1 as [|[n q] ns Hn _ IH]; intros m Hw; [by rewrite app_nil_r|]. cbn [joinAssets]. rewrite fromParts_ok by done.
  cbn [mbind outcome_bind]. rewrite fmap_cons in Hw |- *. cbn [fst snd] in *. rewrite cons_middle, app_assoc in Hw. rewrite set_last.
  - rewrite IH by done. by rewrite <- app_assoc.
  - unfold JsMap.wf, JsMap.keys in *. rewrite fmap_app in Hw. by apply NoDup_app in Hw as [? _].
Qed.

Lemma joinGroups_flat m : Forall goodGroup m -> forall k, JsMap.wf (k ++ flat m) -> joinGroups m k = Ok (k ++ flat m).
Proof.
  induction 1 as [|[p ns] m (Hp & Hn & _) _ IH]; intros k Hw; [by rewrite app_nil_r|]. cbn [joinGroups fst snd] in *. rewrite flat_cons, app_assoc in *.
  rewrite joinAssets_flat; [|done..|].
  - cbn [mbind outcome_bind]. by apply IH.
  - unfold JsMap.wf, JsMap.keys in *. rewrite fmap_app in Hw. by apply NoDup_app in Hw as [? _].
Qed.

(** ** Token maps in canonical form *)

(** Consecutive assets of one policy, as a map of maps. *)
Fixpoint policyRuns (l : list (string * Z)) : list (string * list (string * Z)) :=
  match l with
  | [] => []
  | (id, q) :: l =>
      match policyRuns l with
      | (p, ns) :: m => if String.eqb p (policyPart id) then (p, (namePart id, q) :: ns) :: m
                        else (policyPart id, [(namePart id, q)]) :: (p, ns) :: m
      | [] => [(policyPart id, [(namePart id, q)])]
      end
  end.

Definition nonEmpty (g : string * list (string * Z)) : Prop := g.2 <> [].

Lemma policyRuns_flat m : JsMap.wf m -> Forall goodGroup m -> Forall nonEmpty m -> policyRuns (flat m) = m.
Proof.
  induction m as [|[p ns] m IH]; intros Hw Hg He; [done|]. inversion_clear Hg as [|? ? (Hp & _ & _) Hg']. inversion_clear He as [|? ? Hne He'].
  unfold JsMap.wf, JsMap.keys in *. cbn in Hw, Hp, Hne. apply NoDup_cons in Hw as [Hpm Hw]. specialize (IH Hw Hg' He').
  rewrite flat_cons. clear Hw Hg' He'. induction ns as [|[n q] ns IHn]; [done|]. rewrite fmap_cons. cbn [app policyRuns fst snd].
  destruct (parts_join p n Hp) as [-> ->]. destruct ns as [|e ns].
  - cbn [fmap list_fmap app]. rewrite IH. destruct m as [|[p' ns'] m]; [done|]. destruct (String.eqb_spec p' p) as [->|]; [|done].
    exfalso. apply Hpm. by left.
  - rewrite IHn by done. by rewrite String.eqb_refl.
Qed.

(** The map of maps of a token map: policies in canonical order, names too. *)
Definition multiAssetOf (l : list (string * Z)) : list (string * list (string * Z)) := policyRuns (canonicalAssets l).

Section tokenMap.
Context (l : list (string * Z)) (Hl : validAssets l).

#[local] Lemma sorted_groups : exists m, tokenMapToMultiAsset l = Ok m /\ JsMap.wf m /\ let g := sortedMap m in
  Forall goodGroup g /\ Forall nonEmpty g /\ StronglySorted canonical g /\ flat g = canonicalAssets l.
Proof.
  pose proof (sortedMap_perm l (proj2 Hl)) as Hpl. assert (Hs : validAssets (sortedMap l)) by by eapply validAssets_perm.
  destruct (groupAssets_groups (sortedMap l) [] []) as (m & Em & Hg); [done|by split; [constructor|intros; done|constructor]|]. cbn [app] in Hg.
  pose proof (groups_wf _ _ Hg) as Hwm. exists m. split; [done|]. split; [done|]. cbv zeta. pose proof (sortedMap_perm m Hwm) as Hpm.
  assert (Hg' : groups (sortedMap l) (sortedMap m)) by by eapply groups_perm.
  assert (Hgood : Forall goodGroup (sortedMap m)).
  { apply Forall_forall. intros [p ns] Hin. destruct (group_spec _ _ _ _ Hs Hg' Hin) as (-> & Hp & Hall). split_and!; [done| |].
    - eapply Forall_impl; [exact Hall|]. by intros e [? _].
    - apply namesOf_sorted; [done|]. apply sortedMap_sorted, Hl. }
  pose proof (flat_sorted _ (sortedMap_wf m) Hgood (sortedMap_sorted m Hwm)) as Hfs.
  assert (Hnd : NoDup (flat (sortedMap m))).
  { eapply sorted_nodup; [|exact Hfs]. intros x Hx. unfold assetBefore, ascending in Hx. by rewrite assetGreater_irrefl in Hx. }
  split_and!; [done|apply Hg'|by apply sortedMap_sorted|]. symmetry. apply canonicalAssets_unique; [apply Hl| |done].
  rewrite (flat_perm _ _ Hs Hg' Hnd). done.
Qed.

Lemma tokenMap_groups : exists m, tokenMapToMultiAsset l = Ok m /\ sortedMap m = multiAssetOf l.
Proof.
  destruct sorted_groups as (m & Em & _ & Hg & He & _ & Hf). exists m. split; [done|]. unfold multiAssetOf. rewrite <- Hf.
  symmetry. apply policyRuns_flat; [apply sortedMap_wf|done..].
Qed.

(** As many groups as policies. *)
Lemma tokenMap_size : exists m, tokenMapToMultiAsset l = Ok m /\ sortedMap m = multiAssetOf l /\ zlen m = zlen (multiAssetOf l).
Proof.
  destruct sorted_groups as (m & Em & Hw & _). destruct tokenMap_groups as (m' & Em' & Es). rewrite Em in Em'. injection Em' as <-.
  exists m. split_and!; [done..|]. rewrite <- Es. unfold zlen. by rewrite (Permutation_length (sortedMap_perm m Hw)).
Qed.

Lemma multiAssetOf_good : JsMap.wf (multiAssetOf l) /\ Forall goodGroup (multiAssetOf l) /\ Forall nonEmpty (multiAssetOf l) /\
  flat (multiAssetOf l) = canonicalAssets l.
Proof.
  destruct sorted_groups as (m & _ & _ & Hg & He & _ & Hf). unfold multiAssetOf. rewrite <- Hf.
  rewrite policyRuns_flat by (try done; apply sortedMap_wf). split_and!; [apply sortedMap_wf|done..].
Qed.

(** A token map is turned into its canonical form. *)
Lemma multiAssets_canonical : multiAssetsToTokenMap (multiAssetOf l) = Ok (canonicalAssets l).
Proof.
  destruct multiAssetOf_good as (_ & Hg & _ & Hf). unfold multiAssetsToTokenMap. rewrite joinGroups_flat; cbn [app]; rewrite ?Hf; [done..|].
  eapply wf_perm; [apply canonicalAssets_perm|apply Hl].
Qed.
End tokenMap.

(** The groups do not depend on the order of the token map. *)
Lemma multiAssetOf_permuted l l' : JsMap.wf l -> l ≡ₚ l' -> multiAssetOf l = multiAssetOf l'.
Proof. intros Hl Hp. unfold multiAssetOf. by rewrite (canonicalAssets_permuted l l'). Qed.

Lemma canonicalAssets_valid l : validAssets l -> validAssets (canonicalAssets l).
Proof. apply validAssets_perm, canonicalAssets_perm. Qed.

Import CborReader CborWriterFacts JsMapFacts.

(** ** Maps of maps *)

Definition assetEntry (e : string * Z) : list Z * list Z := (blobBytes e.1, intBytes e.2).
Definition assetsBytes (l : list (string * Z)) : list Z := mapBytes false (map assetEntry l).
Definition groupEntry (g : string * list (string * Z)) : list Z * list Z := (blobBytes g.1, assetsBytes g.2).
Definition multiAssetBytes (m : list (string * list (string * Z))) : list Z := mapBytes false (map groupEntry m).

Lemma name_hash n : isName n = true -> isHash (Z.of_nat (String.length n)) n = true /\ Z.of_nat (String.length n) < 2 ^ 53.
Proof. intros [Hb Hl]%andb_true_iff. zb. split; [|lia]. unfold isHash. by rewrite Hb, Z.eqb_refl. Qed.

(** ** The map of maps of a token map *)

Lemma canonical_wf {V} (l : list (string * V)) : StronglySorted canonical l -> JsMap.wf l.
Proof.
  unfold JsMap.wf, JsMap.keys. induction 1 as [|x l _ IH Hx]; cbn; constructor; [|done]. intros (y & E & Hy)%list_elem_of_fmap.
  pose proof (proj1 (Forall_forall _ _) Hx _ Hy) as Hgt. unfold canonical, ascending, sortCanonically in Hgt. by rewrite E, keyGreater_irrefl in Hgt.
Qed.

Lemma merge_entries {V} (l m : list (string * V)) : JsMap.wf (m ++ l) -> fold_left (fun m e => JsMap.set m e.1 e.2) l m = m ++ l.
Proof.
  revert m. induction l as [|[k v] l IH]; intros m Hw; cbn [fold_left]; [by rewrite app_nil_r|]. cbn [fst snd].
  rewrite set_not_In, IH; rewrite <- ?app_assoc; try done. intros Hk. unfold JsMap.wf, JsMap.keys in *. rewrite fmap_app in Hw.
  apply NoDup_app in Hw as (_ & Hw & _). apply (Hw _ Hk). by left.
Qed.

Lemma merge_groups l m : JsMap.wf (m ++ l) -> Forall (fun g => JsMap.wf g.2) l -> fold_left mergeGroup l m = m ++ l.
Proof.
  intros Hw Hl. revert m Hw. induction Hl as [|[p ns] l Hns _ IH]; intros m Hw; cbn [fold_left]; [by rewrite app_nil_r|].
  assert (Hp : p ∉ JsMap.keys m).
  { intros Hk. unfold JsMap.wf, JsMap.keys in *. rewrite fmap_app in Hw. apply NoDup_app in Hw as (_ & Hw & _). apply (Hw _ Hk). by left. }
  unfold mergeGroup at 2. cbn [fst snd]. rewrite (proj2 (get_None m p) Hp). cbn [default].
  rewrite merge_entries by done. rewrite set_not_In by done. rewrite IH; by rewrite <- app_assoc.
Qed.

Lemma flat_count m : Forall nonEmpty m -> zlen m <= zlen (flat m) /\ Forall (fun g => zlen g.2 <= zlen (flat m)) m.
Proof.
  induction 1 as [|[p ns] m Hne _ [I1 I2]]; [by split; [|constructor]|]. rewrite flat_cons, zlen_app, zlen_cons.
  assert (Hn : zlen ((fun e : string * Z => (p +:+ e.1, e.2)) <$> ns) = zlen ns) by (unfold zlen; by rewrite length_fmap). rewrite Hn.
  pose proof (zlen_nonneg (flat m)). assert (0 < zlen ns) by (destruct ns; [done|]; rewrite zlen_cons; pose proof (zlen_nonneg ns); lia).
  split; [lia|]. constructor; [cbn; lia|]. eapply Forall_impl; [exact I2|]. cbv beta. lia.
Qed.

Section multiAsset.
Context (quantity : Z -> bool) (readQuantity : Dec Z).
Context (quantity_int64 : forall q, quantity q = true -> isInt64 q = true).
Context (quantity_reads : forall q, quantity q = true -> reads readQuantity (intBytes q) q).

(** Valid identifiers, each once, with valid quantities. *)
Definition isTokenMap (l : list (string * Z)) : bool :=
  forallb (fun e => isAssetId e.1 && quantity e.2) l && bool_decide (NoDup l.*1) && (zlen l <? 2 ^ 53).

Context (l : list (string * Z)) (Hl : isTokenMap l = true).

Lemma tokenMap_valid : validAssets l /\ Forall (fun e => quantity e.2 = true) l /\ zlen l < 2 ^ 53.
Proof.
  unfold isTokenMap in Hl. apply andb_true_iff in Hl as [[Hf Hd]%andb_true_iff Hz]. zb. apply bool_decide_eq_true in Hd.
  rewrite forallb_forall in Hf. split_and!; [split; [|done]| |done]; apply List.Forall_forall; intros e He; by apply Hf, andb_true_iff in He as [? ?].
Qed.

(** What the groups consist of. *)
Lemma multiAsset_parts : zlen (multiAssetOf l) < 2 ^ 53 /\ Forall (fun g => isHash 56 g.1 = true /\ zlen g.2 < 2 ^ 53 /\
  StronglySorted canonical g.2 /\ Forall (fun e => isName e.1 = true /\ quantity e.2 = true) g.2) (multiAssetOf l).
Proof.
  destruct tokenMap_valid as (Hv & Hq & Hz). destruct (multiAssetOf_good l Hv) as (Hw & Hg & He & Hf).
  assert (Hp : flat (multiAssetOf l) ≡ₚ l) by (rewrite Hf; apply canonicalAssets_perm).
  assert (Hzl : zlen (flat (multiAssetOf l)) = zlen l) by (unfold zlen; by rewrite (Permutation_length Hp)).
  destruct (flat_count _ He) as [H1 H2]. split; [lia|]. apply Forall_forall. intros [p ns] Hin.
  destruct (proj1 (Forall_forall _ _) Hg _ Hin) as (Hp56 & Hn & Hs). pose proof (proj1 (Forall_forall _ _) H2 _ Hin) as Hle. cbv beta in Hle. cbn [fst snd] in *.
  split_and!; [done|lia|done|]. apply Forall_forall. intros [n q] Hnq. split; [by apply (proj1 (Forall_forall _ _) Hn _ Hnq)|].
  apply (proj1 (Forall_forall _ _) Hq (p +:+ n, q)). rewrite <- Hp. apply flat_elem. by exists p, ns, n.
Qed.

Lemma asset_fields e : isName e.1 = true -> isInt64 e.2 = true -> field (assetEntry e).1 /\ field (assetEntry e).2.
Proof. intros Hn Hq. destruct (name_hash _ Hn). split; [by eapply field_hash|by apply field_int]. Qed.

Lemma policy_fields g : isHash 56 g.1 = true -> zlen g.2 < 2 ^ 53 -> Forall (fun e => isName e.1 = true /\ quantity e.2 = true) g.2 ->
  field (groupEntry g).1 /\ field (groupEntry g).2.
Proof.
  intros Hp Hz Hf. split; [by apply (field_hash 56)|]. apply entries_field; [|lia]. eapply Forall_impl; [exact Hf|].
  intros e [Hn Hq]. apply asset_fields; auto.
Qed.

Lemma multiAsset_field : field (multiAssetBytes (multiAssetOf l)).
Proof.
  destruct multiAsset_parts as [Hz Hg]. apply entries_field; [|lia]. eapply Forall_impl; [exact Hg|]. intros g (Hp & Hn & _ & Hf). by apply policy_fields.
Qed.

Lemma asset_emits e : isName e.1 = true -> isInt64 e.2 = true -> emits (writeAsset e) (entryBytes (assetEntry e)).
Proof. intros Hn Hq. destruct (name_hash _ Hn). apply emits_bind; [by eapply emits_hash|by apply emits_int]. Qed.

Lemma policy_emits g : isHash 56 g.1 = true -> zlen g.2 < 2 ^ 53 -> StronglySorted canonical g.2 ->
  Forall (fun e => isName e.1 = true /\ quantity e.2 = true) g.2 -> emits (writeAssetGroup g) (entryBytes (groupEntry g)).
Proof.
  intros Hp Hz Hs Hf. unfold writeAssetGroup. apply emits_bind; [by apply (emits_hash 56)|]. cbv zeta. rewrite sortedMap_id by (try done; by apply canonical_wf).
  apply (entries_emits assetEntry); [lia|]. eapply Forall_impl; [exact Hf|]. intros e [Hn Hq]. apply asset_emits; auto.
Qed.

Lemma multiAsset_emits m : sortedMap m = multiAssetOf l -> emits (writeMultiAsset m) (multiAssetBytes (multiAssetOf l)).
Proof.
  intros E. destruct multiAsset_parts as [Hz Hg]. unfold writeMultiAsset. cbv zeta. rewrite E.
  apply (entries_emits groupEntry); [lia|]. eapply Forall_impl; [exact Hg|]. intros g (Hp & Hn & Hs & Hf). by apply policy_emits.
Qed.

Lemma asset_reads e : isName e.1 = true -> quantity e.2 = true -> readsN 2 (readAsset readQuantity) (entryBytes (assetEntry e)) e.
Proof.
  intros Hn Hq. destruct (name_hash _ Hn). apply (readsN_bind 1 1 _ _ _ _ e.1); [done..|by eapply readHex_reads|].
  eapply reads_last; [by apply quantity_reads|]. by destruct e.
Qed.

Lemma policy_reads g : isHash 56 g.1 = true -> zlen g.2 < 2 ^ 53 -> Forall (fun e => isName e.1 = true /\ quantity e.2 = true) g.2 ->
  readsN 2 (readAssetGroup readQuantity) (entryBytes (groupEntry g)) g.
Proof.
  intros Hp Hz Hf. eapply (readsN_ext 2 _ (p ← readHex; ns ← readMapOf (readAsset readQuantity); mret (p, ns))).
  - intros r. unfold readAssetGroup, readMapOf. same_program.
  - apply (readsN_bind 1 1 _ _ _ _ g.1); [done..|by apply (readHex_reads 56)|]. apply (reads_last _ _ _ g.2); [|by destruct g].
    apply (entries_reads assetEntry); [|lia|]; (eapply Forall_impl; [exact Hf|]); intros e [Hn Hq]; [apply asset_fields|apply asset_reads]; auto.
Qed.

Lemma multiAsset_reads : reads (readMultiAsset readQuantity) (multiAssetBytes (multiAssetOf l)) (multiAssetOf l).
Proof.
  destruct multiAsset_parts as [Hz Hg]. destruct tokenMap_valid as (Hv & _ & _). destruct (multiAssetOf_good l Hv) as (Hw & _).
  eapply (readsN_ext 1 _ (gs ← readMapOf (readAssetGroup readQuantity); mret (fold_left mergeGroup gs []))).
  - intros r. unfold readMultiAsset, readMapOf. same_program.
  - eapply reads_last.
    + apply (entries_reads groupEntry); [|lia|]; (eapply Forall_impl; [exact Hg|]); intros g (Hp & Hn & Hs & Hf); [by apply policy_fields|by apply policy_reads].
    + intros r. rewrite merge_groups; [done..|]. eapply Forall_impl; [exact Hg|]. intros g (_ & _ & Hs & _). by apply canonical_wf.
Qed.

Lemma normalize_canonical : normalizeTokenMap l = Ok (canonicalAssets l).
Proof.
  destruct tokenMap_valid as (Hv & _ & _). destruct (tokenMap_groups l Hv) as (m & Em & Es). unfold normalizeTokenMap. rewrite Em. cbn [mbind outcome_bind].
  rewrite Es. by apply multiAssets_canonical.
Qed.
End multiAsset.

(** A permutation of a token map is one. *)
Lemma isTokenMap_perm quantity l l' : l ≡ₚ l' -> isTokenMap quantity l = true -> isTokenMap quantity l' = true.
Proof.
  intros Hp Hl. unfold isTokenMap in *. apply andb_true_iff in Hl as [[Hf Hd]%andb_true_iff Hz]. zb. apply bool_decide_eq_true in Hd.
  apply andb_true_iff. split; [apply andb_true_iff; split|].
  - rewrite forallb_forall in Hf |- *. intros e He. apply Hf. by eapply Permutation_in; [symmetry|].
  - apply bool_decide_eq_true. by rewrite <- Hp.
  - apply Z.ltb_lt. unfold zlen in *. by rewrite <- (Permutation_length Hp).
Qed.

(** ** Reading on any input *)

Lemma advances_hex : advances readHex (fun h => isBlob h = true).
Proof.
  intros r Hw. eapply runs_bind; [by apply runs_byteString|]. cbv beta. intros l r' _ (Ho & Hl & _). apply runs_ret. split; [done|by apply isBlob_to_hex].
Qed.

Lemma sound_multiAsset readQuantity : sound readQuantity (fun _ => True) -> sound (readMultiAsset readQuantity) (fun _ => True).
Proof.
  intros Hq. eapply (sound_ext _ (gs ← readMapOf (readAssetGroup readQuantity); mret (fold_left mergeGroup gs []))).
  { intros r. unfold readMultiAsset, readMapOf. same_program. }
  eapply sound_bind; [|intros; by apply sound_ret]. apply (sound_map _ (fun _ => True)).
  eapply advances_bind; [apply advances_hex|]. intros p _.
  eapply (sound_ext _ (ns ← readMapOf (readAsset readQuantity); mret (p, ns))); [intros r; unfold readMapOf; same_program|].
  eapply sound_bind; [|intros; by apply sound_ret]. apply (sound_map _ (fun _ => True)).
  eapply advances_bind; [apply advances_hex|]. intros n _. eapply sound_bind; [exact Hq|]. intros; by apply sound_ret.
Qed.

Lemma groupAssets_fuel l m : groupAssets m l <> OutOfFuel.
Proof.
  revert m. induction l as [|[id q] l IH]; intros m; [done|]. cbn [groupAssets]. apply bind_fuel; [apply typedHex_fuel|]. intros p.
  apply bind_fuel; [|auto]. unfold getAssetName, AssetName. cbv zeta. case_bool; [|done]. apply bind_fuel; [apply typedHex_fuel|]. intros _. by case_bool.
Qed.

Lemma joinAssets_fuel p ns m : joinAssets p ns m <> OutOfFuel.
Proof.
  revert m. induction ns as [|[n q] ns IH]; intros m; [done|]. cbn [joinAssets]. apply bind_fuel; [|auto]. unfold fromParts, AssetId_of. cbv zeta.
  apply bind_fuel; [apply typedHex_fuel|]. intros _. by repeat case_bool.
Qed.

Lemma joinGroups_fuel g m : joinGroups g m <> OutOfFuel.
Proof. revert m. induction g as [|[p ns] g IH]; intros m; [done|]. cbn [joinGroups]. apply bind_fuel; [apply joinAssets_fuel|auto]. Qed.

Lemma normalizeTokenMap_fuel l : normalizeTokenMap l <> OutOfFuel.
Proof. apply bind_fuel; [apply groupAssets_fuel|]. intros g. apply joinGroups_fuel. Qed.

(** ** Values *)

Definition isAssets (l : list (string * Z)) : bool :=
  isTokenMap isUInt l && (0 <? zlen l) && bool_decide (canonicalAssets l = l).

Definition isValue (v : Values.Value) : bool :=
  isUInt (coins v) && match assets v with Some l => isAssets l | None => true end.

Definition valueFields (coins : Z) (l : list (string * Z)) : list (list Z) := [intBytes coins; multiAssetBytes (multiAssetOf l)].

Definition valueBytes (v : Values.Value) : list Z :=
  match assets v with Some l => recordBytes (valueFields (coins v) l) | None => intBytes (coins v) end.

#[export] Instance value_serializable : Serializable Values.Value Value.t := {
  toCbor_of := Value.toCbor;
  fromCbor_of := Value.fromCbor;
  toCore_of v := Ok (Value.toCore v);
  fromCore_of := Value.fromCore;
  bytesOf := valueBytes;
  validCore := isValue;
  typed v := isUInt (Value.coin v)
}.

Lemma isAssets_spec l : isAssets l = true -> isTokenMap isUInt l = true /\ 0 < zlen l /\ canonicalAssets l = l.
Proof. intros [[Hm Hz]%andb_true_iff Hc]%andb_true_iff. zb. by apply bool_decide_eq_true in Hc. Qed.

Lemma normalize_assets l : isTokenMap isUInt l = true -> 0 < zlen l -> Value.normalize l = Ok (Some (canonicalAssets l)).
Proof.
  intros Hm Hz. unfold Value.normalize, JsMap.size. rewrite (proj2 (Z.ltb_lt _ _) Hz). by rewrite (normalize_canonical isUInt).
Qed.

Lemma value_fields v l : isUInt (coins v) = true -> isTokenMap isUInt l = true -> Forall field (valueFields (coins v) l).
Proof. intros Hv Hm. fields. apply (multiAsset_field isUInt); [apply uint_int64|done]. Qed.

(** A canonical value is written as it is specified to be. *)
Lemma value_toCbor c l : isUInt c = true -> isAssets l = true ->
  Value.toCbor {| Value.coin := c; Value.multiasset := Some l; Value.originalBytes := None |} = Ok (Buffer_to_hex (recordBytes (valueFields c l))).
Proof.
  intros Hc (Hm & Hz & Hcan)%isAssets_spec. unfold Value.toCbor, cached, remembered. cbn [Value.originalBytes Value.multiasset Value.coin].
  destruct (tokenMap_groups l) as (m & Em & Es); [by eapply tokenMap_valid|]. destruct l as [|e l]; [done|].
  apply (encode_record 2 _ (valueFields c (e :: l))); [done..|]. apply emits_fields; [by apply emits_int, uint_int64|]. apply emits_last.
  eapply emits_lift; [exact Em|]. apply (multiAsset_emits isUInt); [apply uint_int64|done..].
Qed.

#[export] Instance value_laws : SerializableLaws Values.Value Value.t.
Proof.
  split; cbn [bytesOf validCore fromCore_of fromCbor_of value_serializable].
  - intros [c [l|]] [Hc Ha]%andb_true_iff; cbn [coins assets] in *.
    + apply field_record; [done|]. apply isAssets_spec in Ha as (Hm & _). by apply (value_fields (Build_Value c None)).
    + by apply field_int, uint_int64.
  - intros [c [l|]] [Hc Ha]%andb_true_iff; cbn [coins assets] in *.
    + apply (starts_not_null Array); [done|by apply starts_record].
    + destruct (starts_int c (uint_int64 c Hc)); (eapply starts_not_null; [|eassumption]); done.
  - intros [c [l|]] [Hc Ha]%andb_true_iff; cbn [coins assets] in *.
    + pose proof (isAssets_spec l Ha) as (Hm & Hz & Hcan). eexists. unfold Value.fromCore, Value.new. cbn [coins assets].
      rewrite normalize_assets, Hcan by done. split; [done|]. split; [done|by apply value_toCbor].
    + eexists. split; [done|]. split; [done|]. apply encode_emits, emits_int, uint_int64, Hc.
  - intros [c [l|]] Hv Hb; pose proof Hv as [Hc Ha]%andb_true_iff; cbn [coins assets valueBytes] in *.
    + pose proof (isAssets_spec l Ha) as (Hm & Hz & Hcan). pose proof (value_fields (Build_Value c None) l Hc Hm) as Hf. cbn [coins] in Hf.
      eexists. split.
      * apply decode_glances; [|by apply field_record|done]. apply (glances_peek Array); [done|by apply starts_record|].
        rewrite bool_decide_eq_false_2 by done. apply glances_record; [done|]. apply completes_length.
        eapply completes_bind; [by apply readUInt_reads|]. eapply completes_bind; [apply (multiAsset_reads isUInt); [apply uint_int64|apply readUInt_reads|done]|].
        apply completes_lift with (x := canonicalAssets l); [apply multiAssets_canonical; by eapply tokenMap_valid|]. cbv zeta.
        assert (Hw : JsMap.wf l) by by eapply tokenMap_valid.
        assert (Hp : sortedMap (canonicalAssets l) ≡ₚ l) by (rewrite Hcan; by apply sortedMap_perm).
        eapply completes_lift; [|apply completes_ret]. unfold Value.new. rewrite normalize_assets.
        -- by rewrite (canonicalAssets_permuted _ l), Hcan by (try done; by eapply wf_perm).
        -- by eapply isTokenMap_perm.
        -- unfold zlen in *. by rewrite (Permutation_length Hp).
      * split; [done|]. by apply (cached_record (valueFields c l)).
    + eexists. split.
      * apply decode_reads; [|by apply field_int, uint_int64|done]. apply (reads_peek CborReaderState.UnsignedInteger).
        -- intros r rest Hr. apply (starts_state UnsignedInteger (intBytes c) r rest); [done| |done]. unfold intBytes. apply uint_range in Hc as Hr'.
           rewrite (proj2 (Z.ltb_ge _ _)) by lia. rewrite <- (app_nil_r (CborWriter.head _ _)). by apply starts_head.
        -- rewrite bool_decide_eq_true_2 by done. eapply reads_last; [by apply readUInt_reads|]. done.
      * split; [done|]. apply encode_emits, emits_int, uint_int64, Hc.
  - apply accepts_decode. intros cbor. eapply sound_bind; [apply sound_peek|]. intros s _.
    assert (Hnew : forall c m, isUInt c = true -> Value.new c m <> OutOfFuel /\ forall v, Value.new c m = Ok v -> isUInt (Value.coin v) = true).
    { intros c m Hc. unfold Value.new. split.
      - apply bind_fuel; [|done]. destruct m as [m|]; [|done]. unfold Value.normalize. case_bool; [|done]. apply bind_fuel; [apply normalizeTokenMap_fuel|done].
      - intros v. destruct (match m with Some m => _ | None => _ end); [|done..]. by intros [= <-]. }
    case_bool_decide.
    + eapply sound_bind; [apply sound_uint|]. intros c Hc. apply sound_lift; [by apply Hnew|]. by apply Hnew.
    + eapply sound_bind; [apply sound_startArray|]. intros n _. apply sound_length. eapply sound_bind; [apply sound_uint|]. intros c Hc.
      eapply sound_bind; [apply sound_multiAsset; eapply sound_weaken; [apply sound_uint|done]|]. intros m _.
      eapply sound_bind; [apply (sound_lift _ (fun _ => True)); [apply joinGroups_fuel|done]|]. intros tm _. cbv zeta.
      eapply sound_bind; [apply (sound_lift _ (fun v => isUInt (Value.coin v) = true)); by apply Hnew|]. intros v Hv'. by apply sound_ret.
Qed.
