(* ===== verification/Outputs.v ===== *)
(** * Inputs and outputs of transactions

    Models [TransactionInput] and [TransactionOutput] of
    [packages/core/src/Serialization/TransactionBody], [Datum] of
    [Serialization/Common] and [TransactionUnspentOutput]. *)

From S2P Require Import Prelude JsRuntime CborCommon CborWriter CborReader Codec Credential Records Address PlutusData Values NativeScript Scripts SerializedValue.

(** ** Inputs *)

Module TransactionInput.
(** [Cardano.TxIn] *)
Record core : Set := Core { txId : string; coreIndex : Z }.

Record t : Set := { id : string; index : Z; originalBytes : option HexBlob }.

Definition TRANSACTION_INPUT_ARRAY_SIZE : Z := 2.

Definition new (id : string) (index : Z) : t := {| id := id; index := index; originalBytes := None |}.

Definition toCbor (i : t) : Res HexBlob := cached (originalBytes i) (encode (
  call (CborWriter.writeStartArray (Some TRANSACTION_INPUT_ARRAY_SIZE)) ;;
  call (CborWriter.writeByteString (Buffer_from_hex (id i))) ;;
  call (CborWriter.writeInt (index i)))).

Definition fromCbor (cbor : HexBlob) : Res t := decode (
  length ← call CborReader.readStartArray;
  expectLength TRANSACTION_INPUT_ARRAY_SIZE TRANSACTION_INPUT_ARRAY_SIZE length ;;
  txId ← readHex;
  index ← call CborReader.readInt;
  mret {| id := txId; index := index; originalBytes := Some cbor |}) cbor.

Definition toCore (i : t) : core := Core (id i) (Number_of (index i)).
Definition fromCore (i : core) : t := new (txId i) (coreIndex i).

Definition setTransactionId (i : t) (id : string) : t := new id (index i).
Definition setIndex (i : t) (index : Z) : t := new (id i) index.
End TransactionInput.

(** ** Datums *)

(** [if (x)] of a string that may be missing. *)
Definition truthyString (o : option string) : option string :=
  match o with Some s => if String.eqb s "" then None else Some s | None => None end.

Module Datum.
(** The kind says which of the two is set. *)
Inductive body : Set :=
  | DataHash (dataHash : string)
  | InlineData (inlineData : PlutusData).

Record t : Set := { inner : body; originalBytes : option HexBlob }.

(** [Cardano.DatumHash | Cardano.PlutusData], told apart by [isDatumHash]. *)
Inductive core : Set :=
  | CoreDatumHash (h : string)
  | CoreDatum (d : CorePlutusData).

Definition DATUM_ARRAY_SIZE : Z := 2.

Definition new (dataHash : option string) (inlineData : option PlutusData) : Res t :=
  match truthyString dataHash, inlineData with
  | Some _, Some _ => Throw (InvalidStateError "Datum can only be DataHash or PlutusData but not both")
  | None, None => Throw (InvalidStateError "Datum must be either DataHash or PlutusData")
  | Some h, None => Ok {| inner := DataHash h; originalBytes := None |}
  | None, Some d => Ok {| inner := InlineData d; originalBytes := None |}
  end.

Definition kind (d : t) : Z := match inner d with DataHash _ => 0 | InlineData _ => 1 end.

Definition newDataHash (dataHash : string) : Res t := new (Some dataHash) None.
Definition newInlineData (inlineData : PlutusData) : Res t := new None (Some inlineData).

Definition toCbor (d : t) : Res HexBlob := cached (originalBytes d) (encode (
  call (CborWriter.writeStartArray (Some DATUM_ARRAY_SIZE)) ;;
  call (CborWriter.writeInt (kind d)) ;;
  match inner d with
  | DataHash h => call (CborWriter.writeByteString (Buffer_from_hex h))
  | InlineData p => writeEncoded (PlutusData.toCbor p)
  end)).

Definition unexpectedKind (kind : Z) : SerializationError := InvalidArgumentError "cbor" ("Unexpected datum kind " +:+ pretty kind).

Definition fromCbor (cbor : HexBlob) : Res t := decode (
  length ← call CborReader.readStartArray;
  expectLength DATUM_ARRAY_SIZE DATUM_ARRAY_SIZE length ;;
  n ← call CborReader.readUInt;
  let kind := Number_of n in
  '(datumHash, inlineDatum) ←
    (if kind =? 0 then h ← readHex; mret (Some h, None)
     else if kind =? 1 then d ← readNested PlutusData.fromCbor; mret (None, Some d)
     else st_throw (unexpectedKind kind));
  call CborReader.readEndArray ;;
  datum ← st_lift (new datumHash inlineDatum);
  mret {| inner := inner datum; originalBytes := Some cbor |}) cbor.

Definition toCore (d : t) : Res core :=
  match inner d with
  | DataHash h => Ok (CoreDatumHash h)
  | InlineData p => c ← PlutusData.toCore p; Ok (CoreDatum c)
  end.

Definition fromCore (datum : core) : Res t :=
  match datum with
  | CoreDatumHash h => new (Some h) None
  | CoreDatum d => p ← PlutusData.fromCore d; new None (Some p)
  end.

(** A datum that is taken for missing: [if (datum)] of the bigint 0. *)
Definition isFalsy (d : CorePlutusData) : bool := match d with CoreBigInt z => z =? 0 | _ => false end.
End Datum.

(** ** Outputs *)

Module TransactionOutput.
(** [Cardano.TxOut] *)
Record core : Set := Core {
  coreAddress : string;
  value : Values.Value;
  datumHash : option string;
  coreDatum : option CorePlutusData;
  scriptReference : option CoreAnyScript
}.

Record t : Set := {
  address : Address;
  amount : Value.t;
  datum : option Datum.t;
  scriptRef : option Script.t;
  originalBytes : option HexBlob
}.

Definition REQUIRED_FIELDS_COUNT : Z := 2.

Definition new (address : Address) (amount : Value.t) : t :=
  {| address := address; amount := amount; datum := None; scriptRef := None; originalBytes := None |}.

(** The setters keep the blob the output was decoded from. *)
Definition setDatum (o : t) (data : Datum.t) : t :=
  {| address := address o; amount := amount o; datum := Some data; scriptRef := scriptRef o; originalBytes := originalBytes o |}.
Definition setScriptRef (o : t) (script : Script.t) : t :=
  {| address := address o; amount := amount o; datum := datum o; scriptRef := Some script; originalBytes := originalBytes o |}.

Definition isSome {A} (o : option A) : bool := match o with Some _ => true | None => false end.

Definition getMapSize (o : t) : Z :=
  REQUIRED_FIELDS_COUNT + (if isSome (datum o) then 1 else 0) + (if isSome (scriptRef o) then 1 else 0).

Definition isDataHash (o : option Datum.t) : bool := match o with Some d => Datum.kind d =? 0 | None => false end.

(** [writer.writeTag(EncodedCborDataItem); writer.writeByteString(Buffer.from(x.toCbor(), 'hex'));] *)
Definition writeWrapped (cbor : Res HexBlob) : Enc unit :=
  call (CborWriter.writeTag CborTag.EncodedCborDataItem) ;;
  hex ← st_lift cbor; call (CborWriter.writeByteString (Buffer_from_hex hex)).

(** The same of a decoder: what the byte string holds. *)
Definition readWrapped : Dec HexBlob :=
  tag ← call CborReader.readTag;
  st_guard (negb (tag =? CborTag.EncodedCborDataItem))
    (InvalidArgumentError "cbor" ("Expected tag " +:+ pretty CborTag.EncodedCborDataItem +:+ " but got " +:+ pretty tag)) ;;
  readHex.

Definition writeDatum (d : Datum.t) : Enc unit :=
  call (CborWriter.writeStartArray (Some 2)) ;;
  call (CborWriter.writeInt (Datum.kind d)) ;;
  match Datum.inner d with
  | Datum.DataHash h => call (CborWriter.writeByteString (Buffer_from_hex h))
  | Datum.InlineData p => writeWrapped (PlutusData.toCbor p)
  end.

(** [datumReader], on the value of the key 2. *)
Definition datumOf (cbor : HexBlob) : Res Datum.t := decode (
  call CborReader.readStartArray ;;
  datumKind ← readNumber;
  st_guard (negb (datumKind =? 0) && negb (datumKind =? 1)) (Datum.unexpectedKind datumKind) ;;
  if datumKind =? 1 then
    encodedDatum ← readWrapped;
    inlineDatum ← st_lift (PlutusData.fromCbor encodedDatum);
    st_lift (Datum.new None (Some inlineDatum))
  else
    encodedDatum ← readHex;
    st_lift (Datum.new (Some encodedDatum) None)) cbor.

(** [scriptReader], on the value of the key 3. *)
Definition scriptOf (cbor : HexBlob) : Res Script.t := decode (
  encodedScript ← readWrapped; st_lift (Script.fromCbor encodedScript)) cbor.

(** The variables of [fromCbor]. *)
Record fields : Set := {
  gotAddress : option Address;
  gotValue : option Value.t;
  gotDatum : option Datum.t;
  gotScriptRef : option Script.t
}.

Definition nothing : fields := {| gotAddress := None; gotValue := None; gotDatum := None; gotScriptRef := None |}.

Section impl.
Context `{Crc32} `{BaseEncoding}.

Definition writeAddress (o : t) : Enc unit :=
  hex ← st_lift (Address.toBytes (address o)); call (CborWriter.writeByteString (Buffer_from_hex hex)).

Definition toCbor (o : t) : Res HexBlob := cached (originalBytes o) (encode (
  let elementsSize := getMapSize o in
  if (elementsSize =? REQUIRED_FIELDS_COUNT) || ((elementsSize =? 3) && isDataHash (datum o)) then
    call (CborWriter.writeStartArray (Some elementsSize)) ;;
    writeAddress o ;;
    writeEncoded (Value.toCbor (amount o)) ;;
    match datum o with
    | Some d =>
        match Datum.inner d with
        | Datum.DataHash h => call (CborWriter.writeByteString (Buffer_from_hex h))
        | Datum.InlineData _ => st_throw (JsError "TypeError: The first argument must be of type string")
        end
    | None => mret tt
    end
  else
    call (CborWriter.writeStartMap (Some elementsSize)) ;;
    call (CborWriter.writeInt 0) ;;
    writeAddress o ;;
    call (CborWriter.writeInt 1) ;;
    writeEncoded (Value.toCbor (amount o)) ;;
    writeOptional 2 writeDatum (datum o) ;;
    writeOptional 3 (fun s => writeWrapped (Script.toCbor s)) (scriptRef o))).

Definition readAddress : Dec Address := hex ← readHex; st_lift (Address.fromBytes hex).

(** The [switch] on the keys. *)
Definition readField (strict : bool) (key : Z) : Dec (fields -> fields) :=
  if key =? 0 then
    a ← readAddress;
    mret (fun f => {| gotAddress := Some a; gotValue := gotValue f; gotDatum := gotDatum f; gotScriptRef := gotScriptRef f |})
  else if key =? 1 then
    v ← readNested Value.fromCbor;
    mret (fun f => {| gotAddress := gotAddress f; gotValue := Some v; gotDatum := gotDatum f; gotScriptRef := gotScriptRef f |})
  else if key =? 2 then
    d ← readNested datumOf;
    mret (fun f => {| gotAddress := gotAddress f; gotValue := gotValue f; gotDatum := Some d; gotScriptRef := gotScriptRef f |})
  else if key =? 3 then
    s ← readNested scriptOf;
    mret (fun f => {| gotAddress := gotAddress f; gotValue := gotValue f; gotDatum := gotDatum f; gotScriptRef := Some s |})
  else if strict then st_throw (UnknownField ("Unknown transaction output map key: " +:+ pretty key))
  else call CborReader.skipValue ;; mret (fun f => f).

(** The output of the form before Babbage. *)
Definition readLegacy : Dec fields :=
  length ← call CborReader.readStartArray;
  a ← readAddress;
  v ← readNested Value.fromCbor;
  d ← (if bool_decide (length = Some 3) then h ← readHex; d ← st_lift (Datum.newDataHash h); mret (Some d) else mret None);
  mret {| gotAddress := Some a; gotValue := Some v; gotDatum := d; gotScriptRef := None |}.

Definition finish (cbor : HexBlob) (f : fields) : Res t :=
  match gotAddress f with
  | None => Throw (InvalidArgumentError "cbor" "Transaction output does not contain an address.")
  | Some a =>
      match gotValue f with
      | None => Throw (InvalidArgumentError "cbor" "Transaction output does not contain a value.")
      | Some v => Ok {| address := a; amount := v; datum := gotDatum f; scriptRef := gotScriptRef f; originalBytes := Some cbor |}
      end
  end.

Definition fromCborWith (strict : bool) (cbor : HexBlob) : Res t := decode (
  state ← call CborReader.peekState;
  f ← (if bool_decide (state = CborReaderState.StartMap) then readKeyed (readField strict) nothing else readLegacy);
  st_lift (finish cbor f)) cbor.

(** Without options unknown keys are skipped. *)
Definition fromCbor : HexBlob -> Res t := fromCborWith false.

Definition addressText (a : Address) : Res string :=
  if isSome (ByronAddress.fromAddress a) then toBase58 a else toBech32 a.

Definition toCore (o : t) : Res core :=
  text ← addressText (address o);
  datum' ← match datum o with
           | Some d => match Datum.inner d with
                       | Datum.InlineData p => c ← PlutusData.toCore p; Ok (Some c)
                       | Datum.DataHash _ => Ok None
                       end
           | None => Ok None
           end;
  Ok {| coreAddress := text;
        value := Value.toCore (amount o);
        datumHash := match datum o with
                     | Some d => match Datum.inner d with Datum.DataHash h => Some h | Datum.InlineData _ => None end
                     | None => None
                     end;
        coreDatum := datum';
        scriptReference := option_map Script.toCore (scriptRef o) |}.

Definition fromCore (coreTransactionOutput : core) : Res t :=
  match Address.fromString (coreAddress coreTransactionOutput) with
  | None => Throw (InvalidArgumentError "coreTransactionOutput" "Invalid address null")
  | Some address =>
      amount ← Value.fromCore (value coreTransactionOutput);
      let out := new address amount in
      out ← match coreDatum coreTransactionOutput with
            | Some d => if Datum.isFalsy d then Ok out else d ← Datum.fromCore (Datum.CoreDatum d); Ok (setDatum out d)
            | None => Ok out
            end;
      out ← match truthyString (datumHash coreTransactionOutput) with
            | Some h => d ← Datum.fromCore (Datum.CoreDatumHash h); Ok (setDatum out d)
            | None => Ok out
            end;
      match scriptReference coreTransactionOutput with
      | Some s => s ← Script.fromCore s; Ok (setScriptRef out s)
      | None => Ok out
      end
  end.

Definition isBabbageOutput (o : t) : Res bool :=
  cbor ← toCbor o;
  decode (state ← call CborReader.peekState; mret (bool_decide (state = CborReaderState.StartMap))) cbor.
End impl.
End TransactionOutput.

(** ** Unspent outputs *)

Module TransactionUnspentOutput.
Record t : Set := { input : TransactionInput.t; output : TransactionOutput.t; originalBytes : option HexBlob }.

Definition TRANSACTION_UNSPENT_OUTPUT_ARRAY_SIZE : Z := 2.

Definition new (input : TransactionInput.t) (output : TransactionOutput.t) : t := {| input := input; output := output; originalBytes := None |}.

Section impl.
Context `{Crc32} `{BaseEncoding}.

Definition toCbor (u : t) : Res HexBlob := cached (originalBytes u) (encode (
  call (CborWriter.writeStartArray (Some TRANSACTION_UNSPENT_OUTPUT_ARRAY_SIZE)) ;;
  writeEncoded (TransactionInput.toCbor (input u)) ;;
  writeEncoded (TransactionOutput.toCbor (output u)))).

Definition fromCbor (cbor : HexBlob) : Res t := decode (
  length ← call CborReader.readStartArray;
  expectLength TRANSACTION_UNSPENT_OUTPUT_ARRAY_SIZE TRANSACTION_UNSPENT_OUTPUT_ARRAY_SIZE length ;;
  input ← readNested TransactionInput.fromCbor;
  output ← readNested TransactionOutput.fromCbor;
  mret {| input := input; output := output; originalBytes := Some cbor |}) cbor.

Definition toCore (u : t) : Res (TransactionInput.core * TransactionOutput.core) :=
  o ← TransactionOutput.toCore (output u); Ok (TransactionInput.toCore (input u), o).

Definition fromCore (core : TransactionInput.core * TransactionOutput.core) : Res t :=
  o ← TransactionOutput.fromCore core.2; Ok (new (TransactionInput.fromCore core.1) o).
End impl.

Definition setInput (u : t) (input : TransactionInput.t) : t := new input (output u).
Definition setOutput (u : t) (output : TransactionOutput.t) : t := new (input u) output.
End TransactionUnspentOutput.
