(* ===== verification/OutputFacts.v ===== *)
(** * Inputs and outputs keep their promises

    The specified encodings of inputs, outputs and unspent outputs, and that the
    classes implement the interface of [Serializable.v]. *)
From S2P Require Import Prelude JsRuntime Utf8 CborCommon Half CborWriter CborReader CborMachine CborExact CborSkip CborDocuments Codec CodecFacts PlutusData PlutusFacts Credential Address BaseEncodingRef AddressFacts AddressText Records NativeScript NativeFacts Common Serializable CommonFacts Values SerializedValue ValueFacts Scripts ScriptFacts Outputs.

Import CborReader CborWriterFacts.

(** ** Inputs *)

Definition inputFields (i : TransactionInput.core) : list (list Z) :=
  [blobBytes (TransactionInput.txId i); intBytes (TransactionInput.coreIndex i)].
Definition isInput (i : TransactionInput.core) : bool := isHash 64 (TransactionInput.txId i) && isSafe (TransactionInput.coreIndex i).

#[export] Instance input_serializable : Serializable TransactionInput.core TransactionInput.t := {
  toCbor_of := TransactionInput.toCbor;
  fromCbor_of := TransactionInput.fromCbor;
  toCore_of i := Ok (TransactionInput.toCore i);
  fromCore_of i := Ok (TransactionInput.fromCore i);
  bytesOf i := recordBytes (inputFields i);
  validCore := isInput;
  typed i := isBlob (TransactionInput.id i)
}.

Lemma input_fields i : isInput i = true -> Forall field (inputFields i).
Proof. intros [Hh Hi]%andb_true_iff. unfold inputFields. fields. Qed.

Lemma input_toCore h i o : isSafe i = true ->
  TransactionInput.toCore {| TransactionInput.id := h; TransactionInput.index := i; TransactionInput.originalBytes := o |} = TransactionInput.Core h i.
Proof. intros Hi%safe_range. unfold TransactionInput.toCore. cbn. by rewrite Number_of_exact by lia. Qed.

#[export] Instance input_laws : SerializableLaws TransactionInput.core TransactionInput.t.
Proof.
  split; cbn [bytesOf validCore fromCore_of fromCbor_of input_serializable].
  - intros i Hi. apply field_record; [done|by apply input_fields].
  - intros i _. apply (starts_not_null Array); [done|by apply starts_record].
  - intros [h i] [Hh Hi]%andb_true_iff. eexists. split; [done|]. split; [cbn; f_equal; by apply input_toCore|].
    apply (encode_record 2 _ (inputFields _)); [done..|]. unfold inputFields. emit_fields.
  - intros [h i] Hi Hz. pose proof (input_fields _ Hi) as Hf. pose proof Hi as [Hh Hx]%andb_true_iff. cbn in Hh, Hx. eexists. split.
    + apply decode_completes; [done..|]. unfold inputFields. read_fields.
    + split; [cbn; f_equal; by apply input_toCore|]. by apply cached_record.
  - apply accepts_decode. intros cbor. sound_fields. by apply sound_ret.
Qed.

(** ** Parts of an output *)

Definition wrappedBytes (l : list Z) : list Z := tagBytes 24 (stringBytes l).

Section wrapped.
Context (l : list Z) (Hb : bytes l) (Hz : zlen l < 2 ^ 53).

Lemma wrapped_field : field (wrappedBytes l).
Proof. apply field_tag; [done|]. split; [apply stringBytes_item; lia|by apply stringBytes_bytes]. Qed.

Lemma wrapped_emits cbor : cbor = Ok (Buffer_to_hex l) -> emits (TransactionOutput.writeWrapped cbor) (wrappedBytes l).
Proof.
  intros E. apply emits_tag; [done|]. eapply emits_lift; [exact E|]. rewrite Buffer_hex_roundtrip by done. apply stringBytes_emits. lia.
Qed.

Lemma hex_reads : reads readHex (stringBytes l) (Buffer_to_hex l).
Proof. eapply reads_last; [apply stringBytes_reads; lia|done]. Qed.

Lemma wrapped_reads : reads TransactionOutput.readWrapped (wrappedBytes l) (Buffer_to_hex l).
Proof. eapply reads_tag; [by apply writer_head|done|]. apply readsN_guard; [done|apply hex_reads]. Qed.
End wrapped.

(** The datum of an output: a hash, or data. *)
Definition datumFields (h : option string) (d : option CorePlutusData) : option (list (list Z)) :=
  match h, d with
  | Some h, _ => Some [intBytes 0; blobBytes h]
  | None, Some d => Some [intBytes 1; wrappedBytes (datumBytes d)]
  | None, None => None
  end.

Definition isOutputDatum (h : option string) (d : option CorePlutusData) : bool :=
  match h, d with
  | None, None => true
  | Some h, None => isHash 64 h
  | None, Some d => isDatum d && negb (Datum.isFalsy d) && (zlen (datumBytes d) <? 2 ^ 53)
  | Some _, Some _ => false
  end.

(** What stands for it. *)
Definition datumStands (h : option string) (d : option CorePlutusData) (o : option Datum.body) : Prop :=
  match h, d, o with
  | None, None, None => True
  | Some h, None, Some (Datum.DataHash h') => h' = h
  | None, Some d, Some (Datum.InlineData p) => PlutusData.toCore p = Ok d /\ PlutusData.toCbor p = Ok (Buffer_to_hex (datumBytes d))
  | _, _, _ => False
  end.

Lemma truthy_hash n h : isHash n h = true -> 0 < n -> truthyString (Some h) = Some h.
Proof.
  intros (_ & Hl & _)%isHash_spec Hn. cbn. destruct (String.eqb_spec h "") as [->|]; [cbn in Hl; lia|done].
Qed.

Lemma datum_field h d fs : isOutputDatum h d = true -> datumFields h d = Some fs -> Forall field fs /\ zlen fs = 2.
Proof.
  destruct h as [h|], d as [d|]; intros Hd [= <-]; try done.
  - split; [|done]. fields.
  - unfold isOutputDatum in Hd. apply andb_true_iff in Hd as [[Hd _]%andb_true_iff Hz]. zb. split; [|done].
    destruct (datum_survives d Hd) as (p & l & Hs). rewrite (survives_datumBytes _ _ _ Hs) in *. fields. by apply wrapped_field; [apply Hs|].
Qed.

Lemma datum_write h d x fs : isOutputDatum h d = true -> datumStands h d (Some (Datum.inner x)) -> datumFields h d = Some fs ->
  emits (TransactionOutput.writeDatum x) (recordBytes fs).
Proof.
  intros Hd Hs Hf. unfold TransactionOutput.writeDatum. destruct x as [[h'|p] o]; destruct h as [h|], d as [d|]; try done; cbn in Hs; injection Hf as <-.
  - subst h'. apply record_emits; [done|]. cbn [Datum.inner]. emit_fields.
  - destruct Hs as [Hc Ht]. unfold isOutputDatum in Hd. apply andb_true_iff in Hd as [[Hd _]%andb_true_iff Hz]. zb. apply record_emits; [done|].
    destruct (datum_survives d Hd) as (p' & l & Hv). pose proof (survives_datumBytes _ _ _ Hv) as El. rewrite El in *.
    apply emits_fields; [by apply emits_int|]. apply emits_last. apply wrapped_emits; [apply Hv|done..].
Qed.

Lemma datum_read h d fs : isOutputDatum h d = true -> datumFields h d = Some fs -> zlen (recordBytes fs) < 2 ^ 53 ->
  exists x, TransactionOutput.datumOf (Buffer_to_hex (recordBytes fs)) = Ok x /\ datumStands h d (Some (Datum.inner x)).
Proof.
  intros Hd Ef Hz. destruct (datum_field h d fs Hd Ef) as [Hf Hn]. destruct h as [h|], d as [d|]; try done; injection Ef as <-.
  - exists {| Datum.inner := Datum.DataHash h; Datum.originalBytes := None |}. split; [|done]. cbn in Hd.
    apply decode_completes; [done..|]. eapply completes_bind; [by apply readNumber_reads|]. apply completes_guard; [done|].
    apply (completes_ext _ _ (e ← readHex; st_lift (Datum.new (Some e) None))); [done|].
    eapply completes_bind; [by apply (readHex_reads 64)|]. intros r _. unfold Datum.new. by rewrite (truthy_hash 64).
  - unfold isOutputDatum in Hd. apply andb_true_iff in Hd as [[Hd _]%andb_true_iff Hl]. zb.
    destruct (datum_survives d Hd) as (p & l & Hv). rewrite (survives_datumBytes _ _ _ Hv) in *.
    destruct (survives_fromCbor _ _ _ Hv Hl) as (p' & Ep & Ec). exists {| Datum.inner := Datum.InlineData p'; Datum.originalBytes := None |}. split.
    + apply decode_completes; [done..|]. eapply completes_bind; [by apply readNumber_reads|]. apply completes_guard; [done|].
      apply (completes_ext _ _ (e ← TransactionOutput.readWrapped; i ← st_lift (PlutusData.fromCbor e); st_lift (Datum.new None (Some i)))); [done|].
      eapply completes_bind; [by apply wrapped_reads|]. apply completes_lift with (x := p'); [done|]. by intros r _.
    + cbn. split; [done|]. rewrite (survives_datumBytes _ _ _ Hv).
      assert (Ho : originalBytesOf p' = Some (Buffer_to_hex l)) by by eapply PlutusFacts.fromCborFuel_original.
      apply PlutusFacts.toCbor_original; [done|]. intros E0. rewrite E0 in Ep. by apply PlutusFacts.fromCbor_empty in Ep.
Qed.

(** ** Outputs *)

Section output.
Context `{Crc32} {CL : Crc32Laws} `{BaseEncoding}.

(** The text of a well-formed address, in the form the code writes it. *)
Definition isAddressText (s : string) : bool :=
  match Address.fromString s with
  | Some a => addressOk a && bool_decide (TransactionOutput.addressText a = Ok s)
  | None => false
  end.

Definition addressTextBytes (s : string) : list Z :=
  match Address.fromString s with
  | Some a => match Address.toBytes a with Ok hex => Buffer_from_hex hex | _ => [] end
  | None => []
  end.

Definition isOutput (c : TransactionOutput.core) : bool :=
  isAddressText (TransactionOutput.coreAddress c) && (zlen (addressTextBytes (TransactionOutput.coreAddress c)) <? 2 ^ 53) &&
  isValue (TransactionOutput.value c) && isOutputDatum (TransactionOutput.datumHash c) (TransactionOutput.coreDatum c) &&
  match TransactionOutput.scriptReference c with Some s => isAnyScript s && (zlen (anyScriptBytes s) <? 2 ^ 53) | None => true end.

Definition requiredEntries (c : TransactionOutput.core) : list (list Z) :=
  [stringBytes (addressTextBytes (TransactionOutput.coreAddress c)); valueBytes (TransactionOutput.value c)].

Definition outputEntries (c : TransactionOutput.core) : list (Z * list Z) :=
  [(0, stringBytes (addressTextBytes (TransactionOutput.coreAddress c))); (1, valueBytes (TransactionOutput.value c))] ++
  optionalEntry 2 recordBytes (datumFields (TransactionOutput.datumHash c) (TransactionOutput.coreDatum c)) ++
  optionalEntry 3 (fun s => wrappedBytes (anyScriptBytes s)) (TransactionOutput.scriptReference c).

(** The legacy form, an array, of an output with neither data nor script. *)
Definition outputBytes (c : TransactionOutput.core) : list Z :=
  match TransactionOutput.scriptReference c, TransactionOutput.coreDatum c with
  | None, None => recordBytes (requiredEntries c ++ match TransactionOutput.datumHash c with Some h => [blobBytes h] | None => [] end)
  | _, _ => keyedBytes (outputEntries c)
  end.

#[export] Instance output_serializable : Serializable TransactionOutput.core TransactionOutput.t := {
  toCbor_of := TransactionOutput.toCbor;
  fromCbor_of := TransactionOutput.fromCbor;
  toCore_of := TransactionOutput.toCore;
  fromCore_of := TransactionOutput.fromCore;
  bytesOf := outputBytes;
  validCore := isOutput;
  typed o := isUInt (Value.coin (TransactionOutput.amount o))
}.

(** What a valid output consists of. *)
Record outputParts (c : TransactionOutput.core) (a : Address) (la : list Z) : Prop := {
  parts_string : Address.fromString (TransactionOutput.coreAddress c) = Some a;
  parts_text : TransactionOutput.addressText a = Ok (TransactionOutput.coreAddress c);
  parts_toBytes : Address.toBytes a = Ok (Buffer_to_hex la);
  parts_fromBytes : Address.fromBytes (Buffer_to_hex la) = Ok a;
  parts_bytes : bytes la;
  parts_spec : addressTextBytes (TransactionOutput.coreAddress c) = la;
  parts_size : zlen la < 2 ^ 53;
  parts_value : isValue (TransactionOutput.value c) = true;
  parts_datum : isOutputDatum (TransactionOutput.datumHash c) (TransactionOutput.coreDatum c) = true;
  parts_script s : TransactionOutput.scriptReference c = Some s -> isAnyScript s = true /\ zlen (anyScriptBytes s) < 2 ^ 53
}.

Lemma output_parts c : isOutput c = true -> exists a la, outputParts c a la.
Proof.
  intros [[[[Ha Hz]%andb_true_iff Hv]%andb_true_iff Hd]%andb_true_iff Hs]%andb_true_iff. zb. unfold isAddressText, addressTextBytes in *.
  destruct (Address.fromString _) as [a|] eqn:Ea; [|done]. apply andb_true_iff in Ha as [Ha Ht%bool_decide_eq_true].
  destruct (addressOk_packs a Ha) as (la & Hb & E1 & E2). rewrite E1, Buffer_hex_roundtrip in Hz by done. exists a, la. split; try done.
  - unfold addressTextBytes. by rewrite Ea, E1, Buffer_hex_roundtrip.
  - intros s Es. rewrite Es in Hs. apply andb_true_iff in Hs as [? ?]. by zb.
Qed.

(** The object stands for the core value, part by part. *)
Record outputStands (c : TransactionOutput.core) (a : Address) (o : TransactionOutput.t) : Prop := {
  stands_address : TransactionOutput.address o = a;
  stands_amount : standsFor (TransactionOutput.value c) (TransactionOutput.amount o);
  stands_datum : datumStands (TransactionOutput.datumHash c) (TransactionOutput.coreDatum c) (Datum.inner <$> TransactionOutput.datum o);
  stands_script : standsForOption (TransactionOutput.scriptReference c) (TransactionOutput.scriptRef o)
}.

Lemma stands_toCore c a la o : outputParts c a la -> outputStands c a o -> TransactionOutput.toCore o = Ok c.
Proof.
  intros Hp [Ha [[= Hv] _] Hd Hs]. unfold TransactionOutput.toCore. rewrite Ha, (parts_text _ _ _ Hp). cbn [mbind outcome_bind].
  assert (Es : option_map Script.toCore (TransactionOutput.scriptRef o) = TransactionOutput.scriptReference c).
  { destruct (TransactionOutput.scriptReference c) as [s|], (TransactionOutput.scriptRef o) as [x|]; try done. destruct Hs as [[= Hs] _]. cbn. by rewrite Hs. }
  rewrite Es, Hv. destruct c as [ca cv ch cd cs]. cbn in *. destruct (TransactionOutput.datum o) as [[[h|p] ob]|]; cbn in Hd |- *.
  - destruct ch as [h'|], cd as [d|]; try done. cbn in Hd. by subst.
  - destruct ch as [h'|], cd as [d|]; try done. cbn in Hd. destruct Hd as [Hd _]. by rewrite Hd.
  - by destruct ch, cd.
Qed.

Lemma output_required c a la : outputParts c a la -> Forall field (requiredEntries c).
Proof.
  intros Hp. unfold requiredEntries. rewrite (parts_spec _ _ _ Hp). fields.
  - pose proof (parts_size _ _ _ Hp). split; [apply stringBytes_item; lia|apply stringBytes_bytes, Hp].
  - apply (@bytesOf_field _ _ value_serializable value_laws), Hp.
Qed.

Lemma output_entries c a la : outputParts c a la -> Forall (fun e => isInt64 e.1 = true /\ field e.2) (outputEntries c) /\ zlen (outputEntries c) < 5.
Proof.
  intros Hp. pose proof (output_required c a la Hp) as Hr. unfold requiredEntries in Hr. apply Forall_cons in Hr as [H1 [H2 _]%Forall_cons].
  unfold outputEntries. split.
  - repeat (apply Forall_cons; split; [by split|]). apply Forall_app. split.
    + destruct (datumFields _ _) as [fs|] eqn:Ef; [|constructor]. apply Forall_singleton. split; [done|].
      destruct (datum_field _ _ fs (parts_datum _ _ _ Hp) Ef) as [Hf Hn]. apply field_record; [by rewrite Hn|done].
    + destruct (TransactionOutput.scriptReference c) as [s|] eqn:Es; [|constructor]. destruct (parts_script _ _ _ Hp s Es) as [Hs Hz].
      apply Forall_singleton. split; [done|]. apply wrapped_field; [|done]. apply (@bytesOf_field _ _ script_serializable script_laws s Hs).
  - destruct (datumFields _ _), (TransactionOutput.scriptReference c); done.
Qed.

Lemma legacy_fields c a la : outputParts c a la -> let fs := requiredEntries c ++ match TransactionOutput.datumHash c with Some h => [blobBytes h] | None => [] end in
  Forall field fs /\ zlen fs < 2 ^ 53 /\ 1 <= zlen fs.
Proof.
  intros Hp fs. pose proof (parts_datum _ _ _ Hp) as Hd. subst fs. split.
  - apply Forall_app. split; [by eapply output_required|]. destruct (TransactionOutput.datumHash c) as [h|]; [|constructor].
    destruct (TransactionOutput.coreDatum c); [done|]. fields.
  - by destruct (TransactionOutput.datumHash c).
Qed.

Lemma output_field c a la : outputParts c a la -> field (outputBytes c).
Proof.
  intros Hp. destruct (legacy_fields c a la Hp) as (Hf & Hz & _). destruct (output_entries c a la Hp) as [He Hn]. unfold outputBytes.
  destruct (TransactionOutput.scriptReference c), (TransactionOutput.coreDatum c); try (apply keyed_field; [lia|done]). by apply field_record.
Qed.

Lemma output_starts c a la : outputParts c a la -> not_null (outputBytes c).
Proof.
  intros Hp. destruct (legacy_fields c a la Hp) as (_ & Hz & _). destruct (output_entries c a la Hp) as [_ Hn]. unfold outputBytes.
  destruct (TransactionOutput.scriptReference c), (TransactionOutput.coreDatum c); try (apply (starts_not_null Map); [done|]; apply keyed_starts; lia).
  apply (starts_not_null Array); [done|]. by apply starts_record.
Qed.

Lemma output_address_emits c a la o : outputParts c a la -> TransactionOutput.address o = a ->
  emits (TransactionOutput.writeAddress o) (stringBytes (addressTextBytes (TransactionOutput.coreAddress c))).
Proof.
  intros Hp Ha. rewrite (parts_spec _ _ _ Hp). pose proof (parts_size _ _ _ Hp). unfold TransactionOutput.writeAddress. rewrite Ha.
  eapply emits_lift; [apply Hp|]. rewrite Buffer_hex_roundtrip by apply Hp. apply stringBytes_emits. lia.
Qed.

Lemma output_datum_emits c o : isOutputDatum (TransactionOutput.datumHash c) (TransactionOutput.coreDatum c) = true ->
  datumStands (TransactionOutput.datumHash c) (TransactionOutput.coreDatum c) (Datum.inner <$> TransactionOutput.datum o) ->
  emits (writeOptional 2 TransactionOutput.writeDatum (TransactionOutput.datum o))
    (entriesBytes (optionalEntry 2 recordBytes (datumFields (TransactionOutput.datumHash c) (TransactionOutput.coreDatum c)))).
Proof.
  intros Hd Hs. destruct (TransactionOutput.datum o) as [x|]; cbn [fmap option_fmap option_map] in Hs.
  - destruct (datumFields _ _) as [fs|] eqn:Ef; [|by destruct (TransactionOutput.datumHash c), (TransactionOutput.coreDatum c)].
    apply emits_key; [done|]. by eapply datum_write.
  - destruct (TransactionOutput.datumHash c), (TransactionOutput.coreDatum c); try done. apply emits_ret.
Qed.

Lemma output_script_emits c a la o : outputParts c a la -> standsForOption (TransactionOutput.scriptReference c) (TransactionOutput.scriptRef o) ->
  emits (writeOptional 3 (fun s => TransactionOutput.writeWrapped (Script.toCbor s)) (TransactionOutput.scriptRef o))
    (entriesBytes (optionalEntry 3 (fun s => wrappedBytes (anyScriptBytes s)) (TransactionOutput.scriptReference c))).
Proof.
  intros Hp Hs. destruct (TransactionOutput.scriptReference c) as [s|] eqn:Es, (TransactionOutput.scriptRef o) as [x|]; try done; [|apply emits_ret].
  destruct (parts_script _ _ _ Hp s Es) as [Hv Hz]. destruct Hs as [_ Hs]. apply emits_key; [done|]. apply wrapped_emits; [|done..].
  apply (@bytesOf_field _ _ script_serializable script_laws s Hv).
Qed.

(** Which of the two forms is chosen. *)
Lemma output_form c a o : outputStands c a o -> isOutputDatum (TransactionOutput.datumHash c) (TransactionOutput.coreDatum c) = true ->
  TransactionOutput.getMapSize o = zlen (outputEntries c) /\
  (TransactionOutput.getMapSize o =? 2) || ((TransactionOutput.getMapSize o =? 3) && TransactionOutput.isDataHash (TransactionOutput.datum o)) =
  match TransactionOutput.scriptReference c, TransactionOutput.coreDatum c with None, None => true | _, _ => false end.
Proof.
  intros [_ _ Hd Hs] Hc. unfold TransactionOutput.getMapSize, TransactionOutput.isDataHash, outputEntries.
  destruct c as [ca cv [h|] [d|] [s|]], (TransactionOutput.scriptRef o) as [x|], (TransactionOutput.datum o) as [[[h'|p] ob]|]; cbn in Hd, Hs, Hc; try done; by split.
Qed.

Section write.
Context (c : TransactionOutput.core) (a : Address) (la : list Z) (o : TransactionOutput.t) (Hp : outputParts c a la) (Hs : outputStands c a o).

#[local] Lemma output_map_emits : emits (call (CborWriter.writeStartMap (Some (zlen (outputEntries c)))) ;; call (CborWriter.writeInt 0) ;;
      TransactionOutput.writeAddress o ;; call (CborWriter.writeInt 1) ;; writeEncoded (Value.toCbor (TransactionOutput.amount o)) ;;
      writeOptional 2 TransactionOutput.writeDatum (TransactionOutput.datum o) ;;
      writeOptional 3 (fun s => TransactionOutput.writeWrapped (Script.toCbor s)) (TransactionOutput.scriptRef o)) (keyedBytes (outputEntries c)).
Proof.
  pose proof (@nested_emits _ _ value_serializable value_laws _ _ (parts_value _ _ _ Hp) (stands_amount _ _ _ Hs)) as Ev.
  destruct (output_entries c a la Hp) as [_ Hn]. apply keyed_emits; [done|lia|]. apply entry_emits; [done|by eapply output_address_emits, stands_address|].
  apply entry_emits; [done|done|]. change ([] ++ ?x) with x. rewrite entriesBytes_app. apply emits_bind.
  - by eapply output_datum_emits, stands_datum; [apply (parts_datum _ _ _ Hp)|].
  - by eapply output_script_emits, stands_script.
Qed.

#[local] Lemma output_legacy_emits rest m : zlen rest <= 1 -> emits m (concat rest) ->
  emits (call (CborWriter.writeStartArray (Some (2 + zlen rest))) ;; TransactionOutput.writeAddress o ;;
      writeEncoded (Value.toCbor (TransactionOutput.amount o)) ;; m) (recordBytes (requiredEntries c ++ rest)).
Proof.
  pose proof (@nested_emits _ _ value_serializable value_laws _ _ (parts_value _ _ _ Hp) (stands_amount _ _ _ Hs)) as Ev.
  intros Hn Hm. assert (En : zlen (requiredEntries c ++ rest) = 2 + zlen rest) by (rewrite zlen_app; done). pose proof (zlen_nonneg rest).
  unfold recordBytes. rewrite En. apply record_emits; [lia|]. cbn [requiredEntries app]. apply emits_fields; [by eapply output_address_emits, stands_address|].
  by apply emits_fields.
Qed.

Lemma output_toCbor : TransactionOutput.originalBytes o = None -> TransactionOutput.toCbor o = Ok (Buffer_to_hex (outputBytes c)).
Proof.
  intros Ho. pose proof (parts_datum _ _ _ Hp) as Hd. destruct (output_form c a o Hs Hd) as [Hsize Hform]. pose proof (stands_datum _ _ _ Hs) as Hdat.
  unfold TransactionOutput.toCbor, cached, remembered, outputBytes. rewrite Ho. apply encode_emits. cbv zeta.
  change TransactionOutput.REQUIRED_FIELDS_COUNT with 2. rewrite Hform, Hsize.
  destruct (TransactionOutput.scriptReference c) eqn:Es, (TransactionOutput.coreDatum c) eqn:Ed; try exact output_map_emits.
  assert (En : zlen (outputEntries c) = 2 + zlen match TransactionOutput.datumHash c with Some h => [blobBytes h] | None => [] end).
  { unfold outputEntries. rewrite Es, Ed. by destruct (TransactionOutput.datumHash c). }
  rewrite En. apply output_legacy_emits; [by destruct (TransactionOutput.datumHash c)|].
  destruct (TransactionOutput.datum o) as [[[h'|p] ob]|], (TransactionOutput.datumHash c) as [h|]; cbn in Hdat; try done.
  - subst h'. apply emits_last. by apply (emits_hash 64).
  - apply emits_ret.
Qed.
End write.

Lemma output_fromCore c a la : outputParts c a la -> exists o, TransactionOutput.fromCore c = Ok o /\ outputStands c a o /\ TransactionOutput.originalBytes o = None.
Proof.
  intros Hp. destruct (@fromCore_standsFor _ _ value_serializable value_laws _ (parts_value _ _ _ Hp)) as (v & Ev & Hv).
  change (Value.fromCore (TransactionOutput.value c) = Ok v) in Ev. pose proof (parts_datum _ _ _ Hp) as Hd.
  assert (Hscr : exists s, (match TransactionOutput.scriptReference c with Some s => x ← Script.fromCore s; Ok (Some x) | None => Ok None end) = Ok s /\
    standsForOption (TransactionOutput.scriptReference c) s).
  { destruct (TransactionOutput.scriptReference c) as [s|] eqn:Es; [|by exists None]. destruct (parts_script _ _ _ Hp s Es) as [Hs _].
    destruct (@fromCore_standsFor _ _ script_serializable script_laws s Hs) as (x & Ex & Hx). exists (Some x). split; [|done].
    change (Script.fromCore s = Ok x) in Ex. by rewrite Ex. }
  destruct Hscr as (s & Es & Hs). unfold TransactionOutput.fromCore. rewrite (parts_string _ _ _ Hp), Ev. cbn [mbind outcome_bind]. cbv zeta.
  assert (Hdat : exists d, datumStands (TransactionOutput.datumHash c) (TransactionOutput.coreDatum c) (Datum.inner <$> d) /\
    (out ← match TransactionOutput.coreDatum c with
            | Some d => if Datum.isFalsy d then Ok (TransactionOutput.new a v) else d ← Datum.fromCore (Datum.CoreDatum d); Ok (TransactionOutput.setDatum (TransactionOutput.new a v) d)
            | None => Ok (TransactionOutput.new a v)
            end;
     match truthyString (TransactionOutput.datumHash c) with
            | Some h => d ← Datum.fromCore (Datum.CoreDatumHash h); Ok (TransactionOutput.setDatum out d)
            | None => Ok out
            end) = Ok {| TransactionOutput.address := a; TransactionOutput.amount := v; TransactionOutput.datum := d;
              TransactionOutput.scriptRef := None; TransactionOutput.originalBytes := None |}).
  { destruct (TransactionOutput.datumHash c) as [h|], (TransactionOutput.coreDatum c) as [d|]; try done.
    - exists (Some {| Datum.inner := Datum.DataHash h; Datum.originalBytes := None |}). split; [done|]. cbn in Hd. cbn [mbind outcome_bind].
      rewrite (truthy_hash 64) by done. unfold Datum.fromCore, Datum.new. by rewrite (truthy_hash 64).
    - apply andb_true_iff in Hd as [[Hd Hf]%andb_true_iff _]. apply negb_true_iff in Hf. rewrite Hf.
      destruct (datum_survives d Hd) as (p & l & Hv'). exists (Some {| Datum.inner := Datum.InlineData p; Datum.originalBytes := None |}).
      unfold Datum.fromCore. rewrite (survives_fromCore _ _ _ Hv'). split; [|done]. cbn. rewrite (survives_datumBytes _ _ _ Hv').
      split; [by apply Hv'|by apply Hv'].
    - by exists None. }
  destruct Hdat as (d & Hdat & Ed). destruct (match TransactionOutput.coreDatum c with Some d => _ | None => _ end) as [o1|e|]; try done.
  cbn [mbind outcome_bind] in Ed |- *. rewrite Ed. cbn [mbind outcome_bind].
  exists {| TransactionOutput.address := a; TransactionOutput.amount := v; TransactionOutput.datum := d; TransactionOutput.scriptRef := s;
    TransactionOutput.originalBytes := None |}. split; [|split; [by split|done]].
  destruct (TransactionOutput.scriptReference c) as [cs|]; [|by injection Es as <-].
  destruct (Script.fromCore cs) as [x|e|]; try done. cbn in Es |- *. by injection Es as <-.
Qed.

(** *** Reading *)

Lemma script_read s : isAnyScript s = true -> zlen (anyScriptBytes s) < 2 ^ 53 -> zlen (wrappedBytes (anyScriptBytes s)) < 2 ^ 53 ->
  exists x, TransactionOutput.scriptOf (Buffer_to_hex (wrappedBytes (anyScriptBytes s))) = Ok x /\ standsFor s x.
Proof.
  intros Hs Hz Hw. pose proof (@bytesOf_field _ _ script_serializable script_laws s Hs) as Hf.
  destruct (@fromCbor_standsFor _ _ script_serializable script_laws s Hs Hz) as (x & Ex & Hx). exists x. split; [|done].
  apply decode_reads; [|by apply wrapped_field; [apply Hf|]|done]. eapply reads_last; [by apply wrapped_reads|]. intros r.
  change (Script.fromCbor (Buffer_to_hex (anyScriptBytes s)) = Ok x) in Ex. by rewrite Ex.
Qed.

Lemma output_address_reads c a la : outputParts c a la ->
  reads TransactionOutput.readAddress (stringBytes (addressTextBytes (TransactionOutput.coreAddress c))) a.
Proof.
  intros Hp. rewrite (parts_spec _ _ _ Hp). eapply reads_last; [apply hex_reads, (parts_size _ _ _ Hp)|]. intros r. by rewrite (parts_fromBytes _ _ _ Hp).
Qed.

(** What reading the fields gives. *)
Definition gotten (c : TransactionOutput.core) (a : Address) (f : TransactionOutput.fields) : Prop := exists v,
  TransactionOutput.gotAddress f = Some a /\ TransactionOutput.gotValue f = Some v /\ standsFor (TransactionOutput.value c) v /\
  datumStands (TransactionOutput.datumHash c) (TransactionOutput.coreDatum c) (Datum.inner <$> TransactionOutput.gotDatum f) /\
  standsForOption (TransactionOutput.scriptReference c) (TransactionOutput.gotScriptRef f).

Lemma gotten_finish c a f cbor : gotten c a f -> exists o, TransactionOutput.finish cbor f = Ok o /\ outputStands c a o /\
  TransactionOutput.originalBytes o = Some cbor.
Proof.
  intros (v & Ea & Ev & Hv & Hd & Hs). unfold TransactionOutput.finish. rewrite Ea, Ev. eexists. split; [done|]. by split.
Qed.

Lemma output_value_reads c a la : outputParts c a la -> zlen (valueBytes (TransactionOutput.value c)) < 2 ^ 53 ->
  exists v, reads (readNested Value.fromCbor) (valueBytes (TransactionOutput.value c)) v /\ standsFor (TransactionOutput.value c) v.
Proof. intros Hp Hz. exact (@nested_reads _ _ value_serializable value_laws _ (parts_value _ _ _ Hp) Hz). Qed.

Lemma entry_size es e : In e es -> zlen e.2 <= zlen (keyedBytes es).
Proof.
  intros He. rewrite keyedBytes_entries, zlen_app. pose proof (zlen_nonneg (CborWriter.head Map (zlen es))).
  assert (zlen e.2 <= zlen (entriesBytes es)); [|lia]. clear -He. induction es as [|[k l] es IH]; [done|]. rewrite entriesBytes_cons, !zlen_app.
  pose proof (zlen_nonneg (intBytes k)). pose proof (zlen_nonneg l). pose proof (zlen_nonneg (entriesBytes es)).
  destruct He as [<-|He]; cbn [snd]; [lia|]. specialize (IH He). lia.
Qed.

Lemma output_map_reads strict c a la : outputParts c a la -> zlen (keyedBytes (outputEntries c)) < 2 ^ 53 -> exists f,
  reads (readKeyed (TransactionOutput.readField strict) TransactionOutput.nothing) (keyedBytes (outputEntries c)) f /\ gotten c a f.
Proof.
  intros Hp Hz. destruct (output_entries c a la Hp) as [He Hn].
  assert (Hsz : forall e, In e (outputEntries c) -> zlen e.2 < 2 ^ 53) by (intros e Hin%entry_size; lia).
  destruct (output_value_reads c a la Hp) as (v & Rv & Hv); [by apply (Hsz (1, _)); right; left|].
  pose proof (output_address_reads c a la Hp) as Ra. unfold outputEntries in He. apply Forall_cons in He as [[_ Fa] [[_ Fv] He]%Forall_cons].
  apply Forall_app in He as [Fd Fs].
  assert (Hd : exists fs d, Forall2 (changes (TransactionOutput.readField strict)) (optionalEntry 2 recordBytes (datumFields (TransactionOutput.datumHash c) (TransactionOutput.coreDatum c))) fs /\
    datumStands (TransactionOutput.datumHash c) (TransactionOutput.coreDatum c) (Datum.inner <$> d) /\
    forall f, TransactionOutput.gotDatum f = None -> fold_left (fun s f => f s) fs f = {| TransactionOutput.gotAddress := TransactionOutput.gotAddress f;
      TransactionOutput.gotValue := TransactionOutput.gotValue f; TransactionOutput.gotDatum := d; TransactionOutput.gotScriptRef := TransactionOutput.gotScriptRef f |}).
  { pose proof (parts_datum _ _ _ Hp) as Hd. destruct (datumFields _ _) as [fs|] eqn:Ef.
    - destruct (datum_read _ _ fs Hd Ef) as (x & Ex & Hx).
      { apply (Hsz (2, recordBytes fs)). unfold outputEntries. rewrite Ef. right. right. by left. }
      eexists [_], (Some x). split; [|split; [exact Hx|]].
      + apply Forall2_cons; split; [|constructor]. apply Forall_singleton in Fd as [Fk Ff]. split; [done|]. split; [done|].
        unfold TransactionOutput.readField. cbn [fst snd Z.eqb Pos.eqb]. eapply reads_last; [apply readNested_reads; [apply Ff|exact Ex]|]. intros r. reflexivity.
      + by intros [].
    - exists [], None. split; [constructor|]. split; [by destruct (TransactionOutput.datumHash c), (TransactionOutput.coreDatum c)|]. intros [] E. cbn in E |- *. by subst. }
  assert (Hs : exists fs s, Forall2 (changes (TransactionOutput.readField strict)) (optionalEntry 3 (fun s => wrappedBytes (anyScriptBytes s)) (TransactionOutput.scriptReference c)) fs /\
    standsForOption (TransactionOutput.scriptReference c) s /\
    forall f, TransactionOutput.gotScriptRef f = None -> fold_left (fun s f => f s) fs f = {| TransactionOutput.gotAddress := TransactionOutput.gotAddress f;
      TransactionOutput.gotValue := TransactionOutput.gotValue f; TransactionOutput.gotDatum := TransactionOutput.gotDatum f; TransactionOutput.gotScriptRef := s |}).
  { destruct (TransactionOutput.scriptReference c) as [s|] eqn:Es.
    - destruct (parts_script _ _ _ Hp s Es) as [Hs Hsc]. destruct (script_read s Hs Hsc) as (x & Ex & Hx).
      { apply (Hsz (3, wrappedBytes (anyScriptBytes s))). unfold outputEntries. rewrite Es. apply in_or_app. right. apply in_or_app. right. by left. }
      eexists [_], (Some x). split; [|split; [exact Hx|]].
      + apply Forall2_cons; split; [|constructor]. apply Forall_singleton in Fs as [Fk Ff]. split; [done|]. split; [done|].
        unfold TransactionOutput.readField. cbn [fst snd Z.eqb Pos.eqb]. eapply reads_last; [apply readNested_reads; [apply Ff|exact Ex]|]. intros r. reflexivity.
      + by intros [].
    - exists [], None. split; [constructor|]. split; [done|]. intros [] E. cbn in E |- *. by subst. }
  destruct Hd as (fd & d & Cd & Hd & Ed), Hs as (fs & s & Cs & Hs & Es). eexists. split.
  - apply keyed_reads; [|lia]. apply Forall2_cons; split; [|apply Forall2_cons; split; [|by apply Forall2_app]].
    + split; [done|]. split; [done|]. unfold TransactionOutput.readField. cbn [fst snd Z.eqb]. eapply reads_last; [exact Ra|]. intros r. reflexivity.
    + split; [done|]. split; [done|]. unfold TransactionOutput.readField. cbn [fst snd Z.eqb Pos.eqb]. eapply reads_last; [exact Rv|]. intros r. reflexivity.
  - cbn [fold_left]. rewrite fold_left_app, Ed, Es by done. by exists v.
Qed.

Lemma output_legacy_reads c a la : outputParts c a la -> TransactionOutput.scriptReference c = None -> TransactionOutput.coreDatum c = None ->
  zlen (outputBytes c) < 2 ^ 53 -> exists f, gotten c a f /\ glances (outputBytes c) TransactionOutput.readLegacy f.
Proof.
  intros Hp Es Ed Hz. destruct (legacy_fields c a la Hp) as (Hf & Hn1 & Hn2). unfold outputBytes in *. rewrite Es, Ed in *.
  set (fs := requiredEntries c ++ _) in *.
  destruct (output_value_reads c a la Hp) as (v & Rv & Hv).
  { pose proof (part_size (valueBytes (TransactionOutput.value c)) fs ltac:(right; by left)). pose proof (record_size fs). lia. }
  pose proof (output_address_reads c a la Hp) as Ra. pose proof (parts_datum _ _ _ Hp) as Hd. rewrite Ed in Hd.
  assert (Hdat : exists d, datumStands (TransactionOutput.datumHash c) None (Datum.inner <$> d) /\
    completes match TransactionOutput.datumHash c with Some h => [blobBytes h] | None => [] end
      (d ← (if bool_decide (Some (zlen fs) = Some 3) then h ← readHex; d ← st_lift (Datum.newDataHash h); mret (Some d) else mret None);
       mret {| TransactionOutput.gotAddress := Some a; TransactionOutput.gotValue := Some v; TransactionOutput.gotDatum := d; TransactionOutput.gotScriptRef := None |})
      {| TransactionOutput.gotAddress := Some a; TransactionOutput.gotValue := Some v; TransactionOutput.gotDatum := d; TransactionOutput.gotScriptRef := None |}).
  { destruct (TransactionOutput.datumHash c) as [h|].
    - exists (Some {| Datum.inner := Datum.DataHash h; Datum.originalBytes := None |}). split; [done|]. rewrite bool_decide_eq_true_2 by done.
      eapply completes_bind; [|apply completes_ret]. eapply reads_last; [by apply (readHex_reads 64)|]. intros r.
      unfold Datum.newDataHash, Datum.new. by rewrite (truthy_hash 64).
    - exists None. split; [done|]. rewrite bool_decide_eq_false_2 by done. apply completes_ret. }
  destruct Hdat as (d & Hdat & Hc). eexists. split; [|apply glances_record; [lia|]; eapply completes_bind; [exact Ra|]; eapply completes_bind; [exact Rv|exact Hc]].
  exists v. by rewrite Ed, Es.
Qed.

Lemma output_fromCbor strict c a la : outputParts c a la -> zlen (outputBytes c) < 2 ^ 53 -> exists o,
  TransactionOutput.fromCborWith strict (Buffer_to_hex (outputBytes c)) = Ok o /\ outputStands c a o /\
  TransactionOutput.originalBytes o = Some (Buffer_to_hex (outputBytes c)).
Proof.
  intros Hp Hz. destruct (output_field c a la Hp) as [Hi Hb]. unfold TransactionOutput.fromCborWith. set (hex := Buffer_to_hex _).
  enough (Hf : exists f, gotten c a f /\ forall o, TransactionOutput.finish hex f = Ok o -> decode (state ← call peekState;
    f ← (if bool_decide (state = CborReaderState.StartMap) then readKeyed (TransactionOutput.readField strict) TransactionOutput.nothing else TransactionOutput.readLegacy);
    st_lift (TransactionOutput.finish hex f)) hex = Ok o).
  { destruct Hf as (f & Hg & Hd). destruct (gotten_finish c a f hex Hg) as (o & Eo & Ho & Hob). exists o. split; [by apply Hd|done]. }
  destruct (TransactionOutput.scriptReference c) eqn:Es, (TransactionOutput.coreDatum c) eqn:Ed.
  4: { destruct (output_legacy_reads c a la Hp Es Ed Hz) as (f & Hg & Hr). exists f. split; [done|]. intros o Eo. apply decode_glances; [|done..].
    apply (glances_peek Array); [done|unfold outputBytes; rewrite Es, Ed; apply starts_record; by destruct (legacy_fields c a la Hp) as (_ & ? & _)|].
    rewrite bool_decide_eq_false_2 by done. by eapply glances_lift. }
  all: assert (E : outputBytes c = keyedBytes (outputEntries c)) by (unfold outputBytes; by rewrite Es, ?Ed); unfold hex; rewrite E in *;
    destruct (output_map_reads strict c a la Hp Hz) as (f & Hr & Hg); exists f; (split; [done|]); intros o Eo; apply decode_reads; [|done..];
    apply (reads_peek (headState Map));
    [intros r rest; apply starts_state; [done|apply keyed_starts; pose proof (proj2 (output_entries c a la Hp)); lia]|];
    (rewrite bool_decide_eq_true_2 by done); (eapply reads_last; [exact Hr|]); intros r; by rewrite Eo.
Qed.

(** A decoded output remembers its blob. *)
Lemma output_remembers strict cbor o : TransactionOutput.fromCborWith strict cbor = Ok o -> TransactionOutput.originalBytes o = Some cbor.
Proof.
  unfold TransactionOutput.fromCborWith, decode, mbind, ST_bind. destruct (call peekState _) as [[s|e|] r]; try done.
  case_bool_decide; [destruct (readKeyed (TransactionOutput.readField strict) TransactionOutput.nothing r) as [[f|e|] r']
    |destruct (TransactionOutput.readLegacy r) as [[f|e|] r']]; try done; unfold TransactionOutput.finish, st_lift; cbn [fst];
    (destruct (TransactionOutput.gotAddress f); [|done]); (destruct (TransactionOutput.gotValue f); [|done]); by intros [= <-].
Qed.

Lemma output_empty strict o : TransactionOutput.fromCborWith strict "" <> Ok o.
Proof.
  set (r := snd (call peekState (new ""))). assert (E1 : call peekState (new "") = (Ok CborReaderState.Finished, r)) by (vm_compute; reflexivity).
  assert (E2 : match call readStartArray r with (Throw _, _) => True | _ => False end) by (vm_compute; exact I).
  unfold TransactionOutput.fromCborWith, decode. rewrite (st_bind_ok _ _ _ _ _ E1).
  rewrite bool_decide_eq_false_2 by done. unfold TransactionOutput.readLegacy, mbind, ST_bind.
  by destruct (call readStartArray r) as [[|e|] r'].
Qed.

(** *** Any input *)

Lemma sound_hex_size : sound readHex (fun h => zlen (Buffer_from_hex h) < 2 ^ 53).
Proof.
  eapply sound_bind; [apply sound_bytes|]. intros l [Hb Hz]. apply sound_ret. unfold HexBlob_fromBytes. by rewrite Buffer_hex_roundtrip.
Qed.

Lemma sound_wrapped : sound TransactionOutput.readWrapped (fun h => zlen (Buffer_from_hex h) < 2 ^ 53).
Proof. eapply sound_bind; [apply sound_tag|]. intros t _. apply sound_guard. intros _. apply sound_hex_size. Qed.

Lemma Datum_new_ends h p : Datum.new h p <> OutOfFuel.
Proof. unfold Datum.new. by destruct (truthyString h), p. Qed.

Lemma accepts_datumOf : accepts TransactionOutput.datumOf (fun _ => True).
Proof.
  apply accepts_decode. intros cbor. sound_fields. case_bool.
  - eapply sound_bind; [apply sound_wrapped|]. intros h Hh.
    eapply sound_bind; [apply (sound_lift _ (fun _ => True)); [by apply plutus_ends|done]|]. intros p _. apply sound_lift; [apply Datum_new_ends|done].
  - eapply sound_bind; [apply sound_hex_size|]. intros h _. apply sound_lift; [apply Datum_new_ends|done].
Qed.

Lemma accepts_scriptOf : accepts TransactionOutput.scriptOf (fun _ => True).
Proof.
  apply accepts_decode. intros cbor. eapply sound_bind; [apply sound_wrapped|]. intros h Hh. apply sound_lift; [|done].
  by apply (@fromCbor_accepts _ _ script_serializable script_laws).
Qed.

Lemma sound_address : sound TransactionOutput.readAddress (fun _ => True).
Proof. eapply sound_bind; [apply sound_hex_size|]. intros h Hh. apply sound_lift; [by apply fromBytes_ends|done]. Qed.

Lemma sound_value : sound (readNested Value.fromCbor) (fun v => isUInt (Value.coin v) = true).
Proof. apply (@nested_sound _ _ value_serializable value_laws). Qed.

Definition goodFields (f : TransactionOutput.fields) : Prop := forall v, TransactionOutput.gotValue f = Some v -> isUInt (Value.coin v) = true.

Lemma sound_readField strict key : sound (TransactionOutput.readField strict key) (fun g => forall f, goodFields f -> goodFields (g f)).
Proof.
  unfold TransactionOutput.readField. repeat case_bool.
  - eapply sound_bind; [apply sound_address|]. intros a _. apply sound_ret. by intros f Hf.
  - eapply sound_bind; [apply sound_value|]. intros v Hv. apply sound_ret. intros f _ v'. cbn. by intros [= <-].
  - eapply sound_bind; [apply sound_nested, accepts_datumOf|]. intros d _. apply sound_ret. by intros f Hf.
  - eapply sound_bind; [apply sound_nested, accepts_scriptOf|]. intros x _. apply sound_ret. by intros f Hf.
  - apply sound_throw.
  - eapply sound_bind; [apply sound_skip|]. intros _ _. apply sound_ret. by intros f Hf.
Qed.

Lemma accepts_output strict : accepts (TransactionOutput.fromCborWith strict) (fun o => isUInt (Value.coin (TransactionOutput.amount o)) = true).
Proof.
  apply accepts_decode. intros cbor. eapply sound_bind; [apply sound_peek|]. intros s _.
  eapply (sound_bind _ _ goodFields).
  - case_bool_decide.
    + apply sound_keyed; [apply sound_readField|done].
    + eapply sound_bind; [apply sound_startArray|]. intros n _. eapply sound_bind; [apply sound_address|]. intros a _.
      eapply sound_bind; [apply sound_value|]. intros v Hv. eapply (sound_bind _ _ (fun _ => True)).
      * case_bool_decide; [|by apply sound_ret]. eapply sound_bind; [apply sound_hex_size|]. intros h _.
        eapply sound_bind; [apply (sound_lift _ (fun _ => True)); [apply Datum_new_ends|done]|]. intros. by apply sound_ret.
      * intros d _. apply sound_ret. intros v'. cbn. by intros [= <-].
  - intros f Hf. unfold TransactionOutput.finish. destruct (TransactionOutput.gotAddress f); [|by apply sound_lift].
    destruct (TransactionOutput.gotValue f) as [v|] eqn:Ev; [|by apply sound_lift]. apply sound_lift; [done|]. intros o [= <-]. by apply Hf.
Qed.

#[export] Instance output_laws : SerializableLaws TransactionOutput.core TransactionOutput.t.
Proof.
  split; cbn [bytesOf validCore fromCore_of fromCbor_of output_serializable].
  - intros c (a & la & Hp)%output_parts. by eapply output_field.
  - intros c (a & la & Hp)%output_parts. by eapply output_starts.
  - intros c (a & la & Hp)%output_parts. destruct (output_fromCore c a la Hp) as (o & Eo & Ho & Hn). exists o. split; [done|].
    split; [by eapply stands_toCore|by eapply output_toCbor].
  - intros c (a & la & Hp)%output_parts Hz. destruct (output_fromCbor false c a la Hp Hz) as (o & Eo & Ho & Hn). exists o. split; [done|].
    split; [by eapply stands_toCore|]. destruct (output_field c a la Hp). cbn. unfold TransactionOutput.toCbor. rewrite Hn. by apply cached_some.
  - apply accepts_output.
Qed.

(** ** Unspent outputs *)

Definition unspentFields (u : TransactionInput.core * TransactionOutput.core) : list (list Z) := [recordBytes (inputFields u.1); outputBytes u.2].

#[export] Instance unspent_serializable : Serializable (TransactionInput.core * TransactionOutput.core) TransactionUnspentOutput.t := {
  toCbor_of := TransactionUnspentOutput.toCbor;
  fromCbor_of := TransactionUnspentOutput.fromCbor;
  toCore_of := TransactionUnspentOutput.toCore;
  fromCore_of := TransactionUnspentOutput.fromCore;
  bytesOf u := recordBytes (unspentFields u);
  validCore u := isInput u.1 && isOutput u.2;
  typed u := isBlob (TransactionInput.id (TransactionUnspentOutput.input u)) &&
    isUInt (Value.coin (TransactionOutput.amount (TransactionUnspentOutput.output u)))
}.

Lemma unspent_fields u : isInput u.1 = true -> isOutput u.2 = true -> Forall field (unspentFields u).
Proof.
  intros Hi Ho. unfold unspentFields. fields.
  - by apply (@bytesOf_field _ _ input_serializable input_laws).
  - by apply (@bytesOf_field _ _ output_serializable output_laws).
Qed.

#[export] Instance unspent_laws : SerializableLaws (TransactionInput.core * TransactionOutput.core) TransactionUnspentOutput.t.
Proof.
  split; cbn [bytesOf validCore fromCore_of fromCbor_of unspent_serializable].
  - intros u [Hi Ho]%andb_true_iff. apply field_record; [done|by apply unspent_fields].
  - intros u _. apply (starts_not_null Array); [done|by apply starts_record].
  - intros [i c] [Hi Ho]%andb_true_iff. cbn [fst snd] in *. destruct (@fromCore_standsFor _ _ output_serializable output_laws c Ho) as (o & Eo & Hst).
    change (TransactionOutput.fromCore c = Ok o) in Eo. destruct (@fromCore_standsFor _ _ input_serializable input_laws i Hi) as (x & [= <-] & Hx).
    exists (TransactionUnspentOutput.new (TransactionInput.fromCore i) o). unfold TransactionUnspentOutput.fromCore. cbn [fst snd]. rewrite Eo. split; [done|]. split.
    + cbn. unfold TransactionUnspentOutput.toCore. cbn. destruct Hx as [[= ->] _], Hst as [E _]. cbn in E. by rewrite E.
    + apply (encode_record 2 _ (unspentFields (i, c))); [done..|]. apply emits_fields; [by apply (@nested_emits _ _ input_serializable input_laws)|].
      apply emits_last. by apply (@nested_emits _ _ output_serializable output_laws).
  - intros [i c] [Hi Ho]%andb_true_iff Hz. cbn [fst snd] in *. pose proof (unspent_fields (i, c) Hi Ho) as Hf.
    pose proof (record_size (unspentFields (i, c))) as Hr. assert (Hl : forall l, In l (unspentFields (i, c)) -> zlen l < 2 ^ 53) by (intros l Hl; apply part_size in Hl; lia).
    destruct (@nested_reads _ _ input_serializable input_laws i Hi) as (x & Rx & Hx); [apply Hl; by left|].
    destruct (@nested_reads _ _ output_serializable output_laws c Ho) as (o & Ro & Hst); [apply Hl; right; by left|].
    eexists. split.
    + apply decode_completes; [done..|]. apply completes_length. eapply completes_bind; [exact Rx|]. eapply completes_bind; [exact Ro|]. apply completes_ret.
    + split; [|by apply cached_record]. cbn. unfold TransactionUnspentOutput.toCore. cbn. destruct Hx as [[= Ex] _], Hst as [E _]. cbn in E. by rewrite E, Ex.
  - apply accepts_decode. intros cbor. sound_fields. eapply sound_bind; [apply (@nested_sound _ _ input_serializable input_laws)|]. intros i Hi.
    eapply sound_bind; [apply (@nested_sound _ _ output_serializable output_laws)|]. intros o Ho. apply sound_ret. by apply andb_true_iff.
Qed.
End output.

(** ** What the serialization of values, scripts and outputs guarantees

    The properties of [SerializedValue.v], [Scripts.v] and [Outputs.v], with a
    concrete instance of every conditional one, and the places where the code
    departs from what it means to do. *)

(** ** Values *)


(** ** Outputs *)

Section outputs.
Context `{Crc32} {CL : Crc32Laws} `{BaseEncoding}.


(** The decoder of outputs on any blob, strict or not: it ends with an output
    or an error, the coins it returns are 64 bit unsigned integers, and
    encoding the output gives the blob back. *)
Theorem output_decode_total strict cbor : zlen (Buffer_from_hex cbor) < 2 ^ 53 ->
  TransactionOutput.fromCborWith strict cbor <> OutOfFuel /\
  forall o, TransactionOutput.fromCborWith strict cbor = Ok o -> 0 <= Value.coin (TransactionOutput.amount o) < 2 ^ 64 /\ TransactionOutput.toCbor o = Ok cbor.
Proof.
  intros Hz. destruct (accepts_output strict cbor Hz) as [Hf Ho]. split; [done|]. intros o E. split; [by apply uint_range, Ho|].
  unfold TransactionOutput.toCbor. rewrite (output_remembers _ _ _ E). unfold cached, remembered.
  destruct (String.eqb_spec cbor "") as [->|]; [by apply output_empty in E|done].
Qed.

(** The setters of a decoded output have no effect on its bytes: they do not
    forget the blob it was decoded from. *)
Theorem output_setters_are_not_encoded strict cbor o d s : TransactionOutput.fromCborWith strict cbor = Ok o ->
  TransactionOutput.toCbor (TransactionOutput.setDatum o d) = Ok cbor /\ TransactionOutput.toCbor (TransactionOutput.setScriptRef o s) = Ok cbor.
Proof.
  intros E. pose proof (output_remembers _ _ _ E) as Ho. assert (Hne : String.eqb cbor "" = false).
  { apply String.eqb_neq. intros ->. by apply output_empty in E. }
  unfold TransactionOutput.toCbor, cached, remembered; cbn [TransactionOutput.originalBytes TransactionOutput.setDatum TransactionOutput.setScriptRef].
  by rewrite Ho, Hne.
Qed.

(** An inline datum that is the integer 0 is lost: the bigint [0n] is falsy, so
    the output is encoded without a datum, as if it had none. *)
Theorem zero_datum_is_dropped c : isOutput c = true -> TransactionOutput.coreDatum c = None -> TransactionOutput.datumHash c = None ->
  let c0 := {| TransactionOutput.coreAddress := TransactionOutput.coreAddress c; TransactionOutput.value := TransactionOutput.value c;
    TransactionOutput.datumHash := None; TransactionOutput.coreDatum := Some (CoreBigInt 0); TransactionOutput.scriptReference := TransactionOutput.scriptReference c |} in
  exists o, TransactionOutput.fromCore c0 = Ok o /\ TransactionOutput.toCore o = Ok c /\ TransactionOutput.toCbor o = Ok (Buffer_to_hex (outputBytes c)).
Proof.
  intros Hc Ed Eh c0. destruct (@fromCore_standsFor _ _ output_serializable output_laws c Hc) as (o & Eo & Hs & Ht). exists o. split; [|done].
  change (TransactionOutput.fromCore c = Ok o) in Eo. rewrite <- Eo. destruct c as [ca cv ch cd cs]. cbn in Ed, Eh. by subst.
Qed.
End outputs.

(** ** Instances *)

#[local] Existing Instance sum32.
#[local] Existing Instance sum32_laws.
#[local] Existing Instance encoding_ref.

Definition demo_name : string := "746f6b656e".
Definition demo_assets : list (string * Z) := [((demo_hash +:+ demo_name)%string, 7); (demo_hash, 2 ^ 63)].


Definition demo_address : string :=
  match TransactionOutput.addressText (BaseAddress.fromCredentials 0 (Build_Credential demo_hash 1) (Build_Credential demo_hash 0)) with Ok s => s | _ => "" end.

Definition demo_input : TransactionInput.core := TransactionInput.Core (demo_hash +:+ "00000000")%string 3.

Definition demo_output : TransactionOutput.core := {|
  TransactionOutput.coreAddress := demo_address;
  TransactionOutput.value := {| coins := 1000000; assets := Some (canonicalAssets demo_assets) |};
  TransactionOutput.datumHash := None;
  TransactionOutput.coreDatum := Some (CoreConstr (Some "d8799f050aff"%string) 0 (Some "9f050aff"%string) [CoreBigInt 5; CoreBigInt 10]);
  TransactionOutput.scriptReference := Some (CorePlutus {| plutusBytes := "4e4d01000033222220051200120011"; version := V2 |})
|}.

Definition demo_unspent : string := Buffer_to_hex (recordBytes (unspentFields (demo_input, demo_output))).


(** The same output in the form of the array, as a decoder meets it. *)
Definition demo_legacy : string := Buffer_to_hex (outputBytes {|
  TransactionOutput.coreAddress := demo_address; TransactionOutput.value := {| coins := 42; assets := None |};
  TransactionOutput.datumHash := None; TransactionOutput.coreDatum := None; TransactionOutput.scriptReference := None |}).

Lemma output_decode_total_witness : TransactionOutput.fromCborWith true demo_legacy <> OutOfFuel /\
  forall o, TransactionOutput.fromCborWith true demo_legacy = Ok o -> 0 <= Value.coin (TransactionOutput.amount o) < 2 ^ 64 /\ TransactionOutput.toCbor o = Ok demo_legacy.
Proof. apply output_decode_total. vm_compute. reflexivity. Defined.

Lemma output_setters_are_not_encoded_witness : exists o, TransactionOutput.fromCborWith false demo_legacy = Ok o /\
  TransactionOutput.toCbor (TransactionOutput.setDatum o {| Datum.inner := Datum.DataHash demo_hash; Datum.originalBytes := None |}) = Ok demo_legacy.
Proof.
  assert (E : exists o, TransactionOutput.fromCborWith false demo_legacy = Ok o) by (eexists; vm_compute; reflexivity).
  destruct E as [o E]. exists o. split; [exact E|].
  exact (proj1 (output_setters_are_not_encoded false demo_legacy o _ (Script.newPlutusV1Script (PlutusScript.new "00")) E)).
Defined.

Lemma zero_datum_is_dropped_witness : exists o, TransactionOutput.fromCore {|
    TransactionOutput.coreAddress := demo_address; TransactionOutput.value := {| coins := 42; assets := None |};
    TransactionOutput.datumHash := None; TransactionOutput.coreDatum := Some (CoreBigInt 0); TransactionOutput.scriptReference := None |} = Ok o /\
  TransactionOutput.toCbor o = Ok demo_legacy.
Proof.
  destruct (zero_datum_is_dropped {|
    TransactionOutput.coreAddress := demo_address; TransactionOutput.value := {| coins := 42; assets := None |};
    TransactionOutput.datumHash := None; TransactionOutput.coreDatum := None; TransactionOutput.scriptReference := None |})
    as (o & E & _ & Ec); [vm_compute; reflexivity|reflexivity|reflexivity|]. exists o. split; [exact E|exact Ec].
Defined.
