(* ===== verification/Witnesses.v ===== *)
(** * Witnesses
    Models [packages/core/src/Serialization/TransactionWitnessSet]:
    [VkeyWitness.ts], [BootstrapWitness.ts], [Redeemer/*.ts] and
    [TransactionWitnessSet.ts], with their core types of
    [Cardano/types/Transaction.ts]. *)
From S2P Require Import Prelude JsRuntime CborCommon CborWriter CborReader Codec NumberText Credential PlutusData Records NativeScript Common Scripts Outputs.

(** [uniqWith(array, comparator)] of lodash. *)
Class UniqWith := uniqWith : forall {A : Type}, (A -> A -> bool) -> list A -> list A.

(** ** Signatures *)

Module VkeyWitness.
Abbreviation core := (string * string)%type.

Record t : Set := { vkey : string; signature : string; originalBytes : option HexBlob }.

Definition VKEY_ARRAY_SIZE : Z := 2.

Definition new (vkey signature : string) : t := {| vkey := vkey; signature := signature; originalBytes := None |}.

Definition toCbor (w : t) : Res HexBlob := cached (originalBytes w) (encode (
  call (CborWriter.writeStartArray (Some VKEY_ARRAY_SIZE)) ;;
  call (CborWriter.writeByteString (hexToBytes (vkey w))) ;;
  call (CborWriter.writeByteString (hexToBytes (signature w))))).

Definition fromCbor (cbor : HexBlob) : Res t := decode (
  length ← call CborReader.readStartArray;
  expectLength VKEY_ARRAY_SIZE VKEY_ARRAY_SIZE length ;;
  vkey ← readHex;
  signature ← readHex;
  call CborReader.readEndArray ;;
  mret {| vkey := vkey; signature := signature; originalBytes := Some cbor |}) cbor.

Definition toCore (w : t) : core := (vkey w, signature w).
Definition fromCore (signatureEntry : core) : t := new signatureEntry.1 signatureEntry.2.

Definition setVkey (w : t) (vkey : string) : t := new vkey (signature w).
Definition setSignature (w : t) (signature : string) : t := new (vkey w) signature.
End VkeyWitness.

(** ** Witnesses of Byron addresses *)

Module BootstrapWitness.
(** [Cardano.BootstrapWitness]; the attributes are base64. *)
Record core : Set := Core {
  coreSignature : string;
  coreChainCode : option HexBlob;
  addressAttributes : option string;
  key : string
}.

Record t : Set := { vkey : string; signature : string; chainCode : HexBlob; attributes : HexBlob; originalBytes : option HexBlob }.

Definition BOOTSTRAP_WITNESS_ARRAY_SIZE : Z := 4.
Definition CHAIN_CODE_SIZE : Z := 32.
Definition EMPTY_ATTRIBUTES_CBOR : HexBlob := "a0".

(** [`${n / 2}`] *)
Definition halfText (n : Z) : string := pretty (n / 2) +:+ (if n mod 2 =? 0 then "" else ".5").

Definition assertChainCodeSize (chainCode : HexBlob) : Res unit :=
  let n := Z.of_nat (String.length chainCode) in
  if n =? 2 * CHAIN_CODE_SIZE then Ok tt
  else Throw (InvalidStateError ("chainCode is expected to be " +:+ pretty CHAIN_CODE_SIZE +:+ " bytes in size, but got " +:+ halfText n)).

Definition new (vkey signature : string) (chainCode attributes : HexBlob) : t :=
  {| vkey := vkey; signature := signature; chainCode := chainCode; attributes := attributes; originalBytes := None |}.

Definition toCbor (w : t) : Res HexBlob := cached (originalBytes w) (
  assertChainCodeSize (chainCode w) ;;
  encode (
    call (CborWriter.writeStartArray (Some BOOTSTRAP_WITNESS_ARRAY_SIZE)) ;;
    call (CborWriter.writeByteString (hexToBytes (vkey w))) ;;
    call (CborWriter.writeByteString (hexToBytes (signature w))) ;;
    call (CborWriter.writeByteString (hexToBytes (chainCode w))) ;;
    call (CborWriter.writeByteString (hexToBytes (attributes w))))).

Definition fromCbor (cbor : HexBlob) : Res t := decode (
  length ← call CborReader.readStartArray;
  expectLength BOOTSTRAP_WITNESS_ARRAY_SIZE BOOTSTRAP_WITNESS_ARRAY_SIZE length ;;
  vkey ← readHex;
  signature ← readHex;
  chainCode ← readHex;
  attributes ← readHex;
  call CborReader.readEndArray ;;
  mret {| vkey := vkey; signature := signature; chainCode := chainCode; attributes := attributes; originalBytes := Some cbor |}) cbor.

Definition toCore (w : t) : core := {|
  addressAttributes := Some (Base64Blob_fromBytes (hexToBytes (attributes w)));
  coreChainCode := Some (chainCode w);
  key := vkey w;
  coreSignature := signature w |}.

Definition fromCore (c : core) : Res t :=
  match truthyString (coreChainCode c) with
  | None => Throw (InvalidStateError "Chaincode must be present")
  | Some chainCode =>
      assertChainCodeSize chainCode ;;
      Ok (new (key c) (coreSignature c) chainCode
        match truthyString (addressAttributes c) with Some a => HexBlob_fromBase64 a | None => EMPTY_ATTRIBUTES_CBOR end)
  end.

Definition setVkey (w : t) (vkey : string) : t := new vkey (signature w) (chainCode w) (attributes w).
Definition setSignature (w : t) (signature : string) : t := new (vkey w) signature (chainCode w) (attributes w).
Definition setChainCode (w : t) (chainCode : HexBlob) : Res t :=
  assertChainCodeSize chainCode ;; Ok (new (vkey w) (signature w) chainCode (attributes w)).
Definition setAttributes (w : t) (attributes : HexBlob) : t := new (vkey w) (signature w) (chainCode w) attributes.
End BootstrapWitness.

(** ** Redeemers *)

Module RedeemerTag.
Definition Spend : Z := 0.
Definition Mint : Z := 1.
Definition Cert : Z := 2.
Definition Reward : Z := 3.
Definition Voting : Z := 4.
Definition Proposing : Z := 5.
Definition Guarding : Z := 6.
End RedeemerTag.

Inductive RedeemerPurpose : Set := spend | mint | certificate | withdrawal | propose | vote | guarding.

#[export] Instance RedeemerPurpose_eq_dec : EqDecision RedeemerPurpose.
Proof. solve_decision. Defined.

Module Redeemer.
(** [Cardano.Redeemer] *)
Record core : Set := Core { coreIndex : Z; purpose : RedeemerPurpose; coreData : CorePlutusData; executionUnits : ExUnits.core }.

Record t : Set := { tag : Z; index : Z; data : PlutusData; exUnits : ExUnits.t; originalBytes : option HexBlob }.

Definition REDEEMER_ARRAY_SIZE : Z := 4.
Definition HASH_LENGTH_IN_BYTES : Z := 32.

Definition new (tag index : Z) (data : PlutusData) (exUnits : ExUnits.t) : t :=
  {| tag := tag; index := index; data := data; exUnits := exUnits; originalBytes := None |}.

Definition toCbor (r : t) : Res HexBlob := cached (originalBytes r) (encode (
  call (CborWriter.writeStartArray (Some REDEEMER_ARRAY_SIZE)) ;;
  call (CborWriter.writeInt (tag r)) ;;
  call (CborWriter.writeInt (index r)) ;;
  writeEncoded (PlutusData.toCbor (data r)) ;;
  writeEncoded (ExUnits.toCbor (exUnits r)))).

(** [Number(reader.readUInt())] *)
Definition readTagNumber : Dec Z := n ← call CborReader.readUInt; mret (Number_of n).

Definition fromCbor (cbor : HexBlob) : Res t := decode (
  length ← call CborReader.readStartArray;
  expectLength REDEEMER_ARRAY_SIZE REDEEMER_ARRAY_SIZE length ;;
  tag ← readTagNumber;
  index ← call CborReader.readUInt;
  data ← readNested PlutusData.fromCbor;
  exUnits ← readNested ExUnits.fromCbor;
  call CborReader.readEndArray ;;
  mret {| tag := tag; index := index; data := data; exUnits := exUnits; originalBytes := Some cbor |}) cbor.

Definition purposeOf (tag : Z) : Res RedeemerPurpose :=
  if tag =? RedeemerTag.Spend then Ok spend
  else if tag =? RedeemerTag.Mint then Ok mint
  else if tag =? RedeemerTag.Cert then Ok certificate
  else if tag =? RedeemerTag.Reward then Ok withdrawal
  else if tag =? RedeemerTag.Voting then Ok vote
  else if tag =? RedeemerTag.Proposing then Ok propose
  else if tag =? RedeemerTag.Guarding then Ok guarding
  else Throw (InvalidStateError ("Invalid redeemer type " +:+ pretty tag)).

Definition toCore (r : t) : Res core :=
  purpose ← purposeOf (tag r);
  data ← PlutusData.toCore (data r);
  Ok {| coreData := data; executionUnits := ExUnits.toCore (exUnits r); coreIndex := Number_of (index r); purpose := purpose |}.

Definition tagOf (purpose : RedeemerPurpose) : Z :=
  match purpose with
  | spend => RedeemerTag.Spend
  | mint => RedeemerTag.Mint
  | certificate => RedeemerTag.Cert
  | withdrawal => RedeemerTag.Reward
  | vote => RedeemerTag.Voting
  | propose => RedeemerTag.Proposing
  | guarding => RedeemerTag.Guarding
  end.

Definition fromCore (redeemer : core) : Res t :=
  data ← PlutusData.fromCore (coreData redeemer);
  Ok (new (tagOf (purpose redeemer)) (coreIndex redeemer) data (ExUnits.fromCore (executionUnits redeemer))).

Definition setTag (r : t) (tag : Z) : t := new tag (index r) (data r) (exUnits r).
Definition setIndex (r : t) (index : Z) : t := new (tag r) index (data r) (exUnits r).
Definition setData (r : t) (data : PlutusData) : t := new (tag r) (index r) data (exUnits r).
Definition setExUnits (r : t) (exUnits : ExUnits.t) : t := new (tag r) (index r) (data r) exUnits.

Definition hash `{Blake2b} (r : t) : Res HexBlob := cbor ← toCbor r; Ok (blake2b_hash cbor HASH_LENGTH_IN_BYTES).
End Redeemer.

Module Redeemers.
Record t : Set := { values : list Redeemer.t; originalBytes : option HexBlob }.

Definition MAP_INDEX_EMBEDDED_GROUP_SIZE : Z := 2.
Definition MAP_VALUE_EMBEDDED_GROUP_SIZE : Z := 2.

Definition new (redeemers : list Redeemer.t) : t := {| values := redeemers; originalBytes := None |}.

(** [`${redeemer.tag()}:${redeemer.index()}`] *)
Definition mapKey (redeemer : Redeemer.t) : string := pretty (Redeemer.tag redeemer) +:+ ":" +:+ pretty (Redeemer.index redeemer).

Definition writeEntry (redeemer : Redeemer.t) : Enc unit :=
  call (CborWriter.writeStartArray (Some 2)) ;;
  call (CborWriter.writeInt (Redeemer.tag redeemer)) ;;
  call (CborWriter.writeInt (Redeemer.index redeemer)) ;;
  call (CborWriter.writeStartArray (Some 2)) ;;
  writeEncoded (PlutusData.toCbor (Redeemer.data redeemer)) ;;
  writeEncoded (ExUnits.toCbor (Redeemer.exUnits redeemer)).

Definition toCbor `{Era} (r : t) : Res HexBlob := cached (originalBytes r) (encode (
  if inConwayEra then
    let redeemersMap := JsMap.of_entries ((fun redeemer => (mapKey redeemer, redeemer)) <$> values r) in
    call (CborWriter.writeStartMap (Some (JsMap.size redeemersMap))) ;;
    forEach writeEntry (JsMap.values redeemersMap)
  else
    call (CborWriter.writeStartArray (Some (zlen (values r)))) ;;
    forEach (fun data => writeEncoded (Redeemer.toCbor data)) (values r))).

Definition expectGroup (what : string) (size : Z) (length : option Z) : Dec unit :=
  st_guard (negb (bool_decide (length = Some size)))
    (InvalidArgumentError "cbor" ("Redeemers map " +:+ what +:+ " should be an array of " +:+ pretty size
      +:+ " elements, but got an array of " +:+ lengthText length +:+ " elements")).

Definition readEntry : Dec Redeemer.t :=
  indexLength ← call CborReader.readStartArray;
  expectGroup "index" MAP_INDEX_EMBEDDED_GROUP_SIZE indexLength ;;
  tag ← Redeemer.readTagNumber;
  index ← call CborReader.readUInt;
  call CborReader.readEndArray ;;
  valueLength ← call CborReader.readStartArray;
  expectGroup "value" MAP_VALUE_EMBEDDED_GROUP_SIZE valueLength ;;
  data ← readNested PlutusData.fromCbor;
  exUnits ← readNested ExUnits.fromCbor;
  call CborReader.readEndArray ;;
  mret (Redeemer.new tag index data exUnits).

Definition fromCbor (cbor : HexBlob) : Res t := decode (
  state ← call CborReader.peekState;
  redeemers ← (if bool_decide (state = CborReaderState.StartMap) then
      call CborReader.readStartMap ;;
      redeemers ← readWhileNot CborReaderState.EndMap readEntry;
      call CborReader.readEndMap ;; mret redeemers
    else
      call CborReader.readStartArray ;;
      redeemers ← readWhileNot CborReaderState.EndArray (readNested Redeemer.fromCbor);
      call CborReader.readEndArray ;; mret redeemers);
  mret {| values := redeemers; originalBytes := Some cbor |}) cbor.

Definition toCore (r : t) : Res (list Redeemer.core) := mapM Redeemer.toCore (values r).
Definition fromCore (redeemers : list Redeemer.core) : Res t := values ← mapM Redeemer.fromCore redeemers; Ok (new values).

Definition setValues (r : t) (redeemers : list Redeemer.t) : t := new redeemers.
Definition size (r : t) : Z := zlen (values r).
End Redeemers.

(** ** The witnesses of a transaction *)

(** [Cardano.Witness]; the signatures are a [Map] from keys. *)
Record CoreWitness : Set := {
  coreRedeemers : option (list Redeemer.core);
  signatures : list (string * string);
  coreScripts : option (list CoreAnyScript);
  bootstrap : option (list BootstrapWitness.core);
  datums : option (list CorePlutusData)
}.

Module TransactionWitnessSet.
Record t : Set := {
  vkeys : option (CborSet.t VkeyWitness.t);
  nativeScripts : option (CborSet.t NativeScript);
  bootstraps : option (CborSet.t BootstrapWitness.t);
  plutusV1Scripts : option (CborSet.t PlutusScript.t);
  plutusData : option (CborSet.t PlutusData);
  redeemers : option Redeemers.t;
  plutusV2Scripts : option (CborSet.t PlutusScript.t);
  plutusV3Scripts : option (CborSet.t PlutusScript.t);
  originalBytes : option HexBlob
}.

Definition new : t := {| vkeys := None; nativeScripts := None; bootstraps := None; plutusV1Scripts := None; plutusData := None;
  redeemers := None; plutusV2Scripts := None; plutusV3Scripts := None; originalBytes := None |}.

Definition setVkeys (w : t) (vkeys : CborSet.t VkeyWitness.t) : t :=
  {| vkeys := Some vkeys; nativeScripts := nativeScripts w; bootstraps := bootstraps w; plutusV1Scripts := plutusV1Scripts w;
     plutusData := plutusData w; redeemers := redeemers w; plutusV2Scripts := plutusV2Scripts w; plutusV3Scripts := plutusV3Scripts w;
     originalBytes := None |}.

Definition setNativeScripts (w : t) (nativeScripts : CborSet.t NativeScript) : t :=
  {| vkeys := vkeys w; nativeScripts := Some nativeScripts; bootstraps := bootstraps w; plutusV1Scripts := plutusV1Scripts w;
     plutusData := plutusData w; redeemers := redeemers w; plutusV2Scripts := plutusV2Scripts w; plutusV3Scripts := plutusV3Scripts w;
     originalBytes := None |}.

Definition setBootstraps (w : t) (bootstraps : CborSet.t BootstrapWitness.t) : t :=
  {| vkeys := vkeys w; nativeScripts := nativeScripts w; bootstraps := Some bootstraps; plutusV1Scripts := plutusV1Scripts w;
     plutusData := plutusData w; redeemers := redeemers w; plutusV2Scripts := plutusV2Scripts w; plutusV3Scripts := plutusV3Scripts w;
     originalBytes := None |}.

Definition setPlutusV1Scripts (w : t) (plutusV1Scripts : CborSet.t PlutusScript.t) : t :=
  {| vkeys := vkeys w; nativeScripts := nativeScripts w; bootstraps := bootstraps w; plutusV1Scripts := Some plutusV1Scripts;
     plutusData := plutusData w; redeemers := redeemers w; plutusV2Scripts := plutusV2Scripts w; plutusV3Scripts := plutusV3Scripts w;
     originalBytes := None |}.

Definition setPlutusData (w : t) (plutusData : CborSet.t PlutusData) : t :=
  {| vkeys := vkeys w; nativeScripts := nativeScripts w; bootstraps := bootstraps w; plutusV1Scripts := plutusV1Scripts w;
     plutusData := Some plutusData; redeemers := redeemers w; plutusV2Scripts := plutusV2Scripts w; plutusV3Scripts := plutusV3Scripts w;
     originalBytes := None |}.

Definition setRedeemers (w : t) (redeemers : Redeemers.t) : t :=
  {| vkeys := vkeys w; nativeScripts := nativeScripts w; bootstraps := bootstraps w; plutusV1Scripts := plutusV1Scripts w;
     plutusData := plutusData w; redeemers := Some redeemers; plutusV2Scripts := plutusV2Scripts w; plutusV3Scripts := plutusV3Scripts w;
     originalBytes := None |}.

Definition setPlutusV2Scripts (w : t) (plutusV2Scripts : CborSet.t PlutusScript.t) : t :=
  {| vkeys := vkeys w; nativeScripts := nativeScripts w; bootstraps := bootstraps w; plutusV1Scripts := plutusV1Scripts w;
     plutusData := plutusData w; redeemers := redeemers w; plutusV2Scripts := Some plutusV2Scripts; plutusV3Scripts := plutusV3Scripts w;
     originalBytes := None |}.

Definition setPlutusV3Scripts (w : t) (plutusV3Scripts : CborSet.t PlutusScript.t) : t :=
  {| vkeys := vkeys w; nativeScripts := nativeScripts w; bootstraps := bootstraps w; plutusV1Scripts := plutusV1Scripts w;
     plutusData := plutusData w; redeemers := redeemers w; plutusV2Scripts := plutusV2Scripts w; plutusV3Scripts := Some plutusV3Scripts;
     originalBytes := None |}.

(** [x !== undefined && x.size() > 0] *)
Definition sized {T} (x : option (CborSet.t T)) : option (CborSet.t T) :=
  match x with Some s => if 0 <? CborSet.size s then Some s else None | None => None end.
Definition sizedRedeemers (x : option Redeemers.t) : option Redeemers.t :=
  match x with Some r => if 0 <? Redeemers.size r then Some r else None | None => None end.

Definition count {T} (x : option T) : Z := match x with Some _ => 1 | None => 0 end.

Definition getMapSize (w : t) : Z :=
  count (sized (vkeys w)) + count (sized (nativeScripts w)) + count (sized (bootstraps w)) + count (sized (plutusV1Scripts w)) +
  count (sized (plutusData w)) + count (sizedRedeemers (redeemers w)) + count (sized (plutusV2Scripts w)) + count (sized (plutusV3Scripts w)).

Section codec.
Context `{Era} `{UniqWith}.

(** The sets of signatures lose their duplicates, and with them the blobs they
    were read from, when they are written. *)
Definition uniqVkeys (s : CborSet.t VkeyWitness.t) : CborSet.t VkeyWitness.t :=
  CborSet.setValues s (uniqWith (fun lhs rhs => String.eqb (VkeyWitness.vkey lhs) (VkeyWitness.vkey rhs)) (CborSet.values s)).
Definition uniqBootstraps (s : CborSet.t BootstrapWitness.t) : CborSet.t BootstrapWitness.t :=
  CborSet.setValues s (uniqWith (fun lhs rhs => String.eqb (BootstrapWitness.vkey lhs) (BootstrapWitness.vkey rhs)) (CborSet.values s)).

Definition writeSet {T} (elementToCbor : T -> Res HexBlob) (s : CborSet.t T) : Enc unit := writeEncoded (CborSet.toCbor elementToCbor s).

Definition toCbor (w : t) : Res HexBlob := cached (originalBytes w) (encode (
  call (CborWriter.writeStartMap (Some (getMapSize w))) ;;
  writeOptional 0 (fun s => writeSet VkeyWitness.toCbor (uniqVkeys s)) (sized (vkeys w)) ;;
  writeOptional 1 (writeSet NativeScript.toCbor) (sized (nativeScripts w)) ;;
  writeOptional 2 (fun s => writeSet BootstrapWitness.toCbor (uniqBootstraps s)) (sized (bootstraps w)) ;;
  writeOptional 3 (writeSet PlutusScript.toCbor) (sized (plutusV1Scripts w)) ;;
  writeOptional 4 (writeSet PlutusData.toCbor) (sized (plutusData w)) ;;
  writeOptional 5 (fun r => writeEncoded (Redeemers.toCbor r)) (sizedRedeemers (redeemers w)) ;;
  writeOptional 6 (writeSet PlutusV2Script.toCbor) (sized (plutusV2Scripts w)) ;;
  writeOptional 7 (writeSet PlutusV3Script.toCbor) (sized (plutusV3Scripts w)))).

(** The object after a call of [toCbor] that returns. *)
Definition afterToCbor (w : t) : t :=
  match remembered (originalBytes w) with
  | Some _ => w
  | None =>
      {| vkeys := match sized (vkeys w) with Some s => Some (uniqVkeys s) | None => vkeys w end;
         nativeScripts := nativeScripts w;
         bootstraps := match sized (bootstraps w) with Some s => Some (uniqBootstraps s) | None => bootstraps w end;
         plutusV1Scripts := plutusV1Scripts w; plutusData := plutusData w; redeemers := redeemers w;
         plutusV2Scripts := plutusV2Scripts w; plutusV3Scripts := plutusV3Scripts w; originalBytes := originalBytes w |}
  end.

Definition readSetOf {T} (elementFromCbor : HexBlob -> Res T) : Dec (CborSet.t T) := readNested (CborSet.fromCbor elementFromCbor).

(** The [switch] on the keys; [strict] is [options?.strict]. *)
Definition readField (strict : bool) (key : Z) : Dec (t -> t) :=
  if key =? 0 then s ← readSetOf VkeyWitness.fromCbor; mret (fun w => setVkeys w s)
  else if key =? 1 then s ← readSetOf NativeScript.fromCbor; mret (fun w => setNativeScripts w s)
  else if key =? 2 then s ← readSetOf BootstrapWitness.fromCbor; mret (fun w => setBootstraps w s)
  else if key =? 3 then s ← readSetOf PlutusScript.fromCbor; mret (fun w => setPlutusV1Scripts w s)
  else if key =? 4 then s ← readSetOf PlutusData.fromCbor; mret (fun w => setPlutusData w s)
  else if key =? 5 then r ← readNested Redeemers.fromCbor; mret (fun w => setRedeemers w r)
  else if key =? 6 then s ← readSetOf PlutusV2Script.fromCbor; mret (fun w => setPlutusV2Scripts w s)
  else if key =? 7 then s ← readSetOf PlutusV3Script.fromCbor; mret (fun w => setPlutusV3Scripts w s)
  else if strict then st_throw (UnknownField ("Unknown transaction witness set map key: " +:+ pretty key))
  else call CborReader.skipValue ;; mret (fun w => w).

Definition remember (w : t) (cbor : HexBlob) : t :=
  {| vkeys := vkeys w; nativeScripts := nativeScripts w; bootstraps := bootstraps w; plutusV1Scripts := plutusV1Scripts w;
     plutusData := plutusData w; redeemers := redeemers w; plutusV2Scripts := plutusV2Scripts w; plutusV3Scripts := plutusV3Scripts w;
     originalBytes := Some cbor |}.

Definition fromCborWith (strict : bool) (cbor : HexBlob) : Res t := decode (
  w ← readKeyed (readField strict) new; mret (remember w cbor)) cbor.
Definition fromCbor (cbor : HexBlob) : Res t := fromCborWith false cbor.

(** *** Core values *)

(** [x ? x.toCore() : []] *)
Definition scriptsToCore (v : PlutusLanguageVersion) (s : option (CborSet.t PlutusScript.t)) : list CoreAnyScript :=
  match s with Some s => (fun p => CorePlutus (PlutusScript.toCore v p)) <$> CborSet.values s | None => [] end.

Definition getCoreScripts (w : t) : list CoreAnyScript :=
  scriptsToCore V1 (plutusV1Scripts w) ++ scriptsToCore V2 (plutusV2Scripts w) ++ scriptsToCore V3 (plutusV3Scripts w) ++
  match nativeScripts w with Some s => (fun n => CoreNative (NativeScript.toCore n)) <$> CborSet.values s | None => [] end.

Definition optionalCore {A B} (f : A -> Res B) (x : option A) : Res (option B) :=
  match x with Some a => b ← f a; Ok (Some b) | None => Ok None end.

Definition toCore (w : t) : Res CoreWitness :=
  let scripts := getCoreScripts w in
  datums ← optionalCore (CborSet.toCore PlutusData.toCore) (plutusData w);
  redeemers ← optionalCore Redeemers.toCore (sizedRedeemers (redeemers w));
  Ok {| bootstrap := (fun s => BootstrapWitness.toCore <$> CborSet.values s) <$> bootstraps w;
        datums := datums;
        coreRedeemers := redeemers;
        coreScripts := if 0 <? zlen scripts then Some scripts else None;
        signatures := match vkeys w with Some s => JsMap.of_entries (VkeyWitness.toCore <$> CborSet.values s) | None => [] end |}.

(** The [reduce] of [#getCddlScripts]; an array that is never made is empty. *)
Record CddlScripts : Set := { native : list CoreScript; plutusV1 : list CorePlutusScript; plutusV2 : list CorePlutusScript; plutusV3 : list CorePlutusScript }.

Fixpoint groupScripts (scripts : list CoreAnyScript) (g : CddlScripts) : Res CddlScripts :=
  match scripts with
  | [] => Ok g
  | CoreNative n :: scripts =>
      groupScripts scripts {| native := native g ++ [n]; plutusV1 := plutusV1 g; plutusV2 := plutusV2 g; plutusV3 := plutusV3 g |}
  | CorePlutus p :: scripts =>
      match version p with
      | V1 => groupScripts scripts {| native := native g; plutusV1 := plutusV1 g ++ [p]; plutusV2 := plutusV2 g; plutusV3 := plutusV3 g |}
      | V2 => groupScripts scripts {| native := native g; plutusV1 := plutusV1 g; plutusV2 := plutusV2 g ++ [p]; plutusV3 := plutusV3 g |}
      | V3 => groupScripts scripts {| native := native g; plutusV1 := plutusV1 g; plutusV2 := plutusV2 g; plutusV3 := plutusV3 g ++ [p] |}
      | V4 => Throw (InvalidScriptType "Script '[object Object]' is not supported.")
      end
  end.

Definition noScripts : CddlScripts := {| native := []; plutusV1 := []; plutusV2 := []; plutusV3 := [] |}.

(** [core && { key: CborSet.fromCore(core, fromCore) }] and [if (set) w.setX(set)] *)
Definition setGroup {C T} (fromCore : C -> Res T) (set : t -> CborSet.t T -> t) (l : list C) (w : t) : Res t :=
  match l with [] => Ok w | _ => s ← CborSet.fromCore fromCore l; Ok (set w s) end.

(** [if (x) w.setX(...)] *)
Definition setOptional {C T} (fromCore : C -> Res T) (set : t -> T -> t) (x : option C) (w : t) : Res t :=
  match x with Some c => s ← fromCore c; Ok (set w s) | None => Ok w end.

Definition setScripts (scripts : option (list CoreAnyScript)) (w : t) : Res t :=
  match scripts with
  | None => Ok w
  | Some scripts =>
      g ← groupScripts scripts noScripts;
      w ← setGroup (fun n => Ok (NativeScript.fromCore n)) setNativeScripts (native g) w;
      w ← setGroup PlutusV1Script.fromCore setPlutusV1Scripts (plutusV1 g) w;
      w ← setGroup PlutusV2Script.fromCore setPlutusV2Scripts (plutusV2 g) w;
      setGroup PlutusV3Script.fromCore setPlutusV3Scripts (plutusV3 g) w
  end.

Definition fromCore (coreWitness : CoreWitness) : Res t :=
  let w := setVkeys new (CborSet.new (VkeyWitness.fromCore <$> signatures coreWitness)) in
  w ← setScripts (coreScripts coreWitness) w;
  w ← setOptional Redeemers.fromCore setRedeemers (coreRedeemers coreWitness) w;
  w ← setOptional (CborSet.fromCore PlutusData.fromCore) setPlutusData (datums coreWitness) w;
  setOptional (CborSet.fromCore BootstrapWitness.fromCore) setBootstraps (bootstrap coreWitness) w.
End codec.
End TransactionWitnessSet.
