(* ===== verification/WitnessFacts.v ===== *)
(** * Witnesses keep their promises
    Signatures, bootstrap witnesses, datums, Plutus scripts and redeemers
    implement the interface of [Serializable.v]. *)
From S2P Require Import Prelude JsRuntime Utf8 CborCommon Half CborWriter CborReader CborMachine CborExact CborSkip CborDocuments Codec NumberText CodecFacts PlutusData PlutusFacts Credential Address Records NativeScript NativeFacts Common Serializable Keyed CommonFacts Scripts ScriptFacts Outputs OutputFacts Witnesses.

Import CborReader CborWriterFacts.

(** ** Signatures *)

Definition vkeyFields (w : VkeyWitness.core) : list (list Z) := [blobBytes w.1; blobBytes w.2].
Definition isVkey (w : VkeyWitness.core) : bool := isHash 64 w.1 && isHash 128 w.2.

#[export] Instance vkey_serializable : Serializable VkeyWitness.core VkeyWitness.t := {
  toCbor_of := VkeyWitness.toCbor;
  fromCbor_of := VkeyWitness.fromCbor;
  toCore_of w := Ok (VkeyWitness.toCore w);
  fromCore_of w := Ok (VkeyWitness.fromCore w);
  bytesOf w := recordBytes (vkeyFields w);
  validCore := isVkey;
  typed w := isBlob (VkeyWitness.vkey w) && isBlob (VkeyWitness.signature w)
}.

Lemma vkey_fields w : isVkey w = true -> Forall field (vkeyFields w).
Proof. intros [Hk Hs]%andb_true_iff. fields. Qed.

#[export] Instance vkey_laws : SerializableLaws VkeyWitness.core VkeyWitness.t.
Proof.
  split; cbn [bytesOf validCore fromCore_of fromCbor_of vkey_serializable].
  - intros w Hw. apply field_record; [done|by apply vkey_fields].
  - intros w _. apply (starts_not_null Array); [done|by apply starts_record].
  - intros [k s] [Hk Hs]%andb_true_iff. eexists. split; [done|]. split; [done|]. apply (encode_record 2 _ [_; _]); [done..|]. emit_fields.
  - intros w Hw Hz. pose proof (vkey_fields w Hw) as Hf. destruct w as [k s]. pose proof Hw as [Hk Hs]%andb_true_iff. cbn in Hk, Hs. eexists. split.
    + apply decode_completes; [done..|]. read_fields.
    + split; [done|by apply cached_record].
  - apply accepts_decode. intros cbor. sound_fields. apply sound_ret. cbn. by apply andb_true_iff.
Qed.

(** ** Bootstrap witnesses *)

(** Base64 text of bytes. *)
Definition isBase64 (s : string) : bool :=
  String.eqb (Buffer_to_base64 (Buffer_from_base64 s)) s && forallb (fun b => (0 <=? b) && (b <? 256)) (Buffer_from_base64 s) &&
  (zlen (Buffer_from_base64 s) <? 2 ^ 53) && negb (String.eqb s "").

Lemma isBase64_spec s : isBase64 s = true ->
  Buffer_to_base64 (Buffer_from_base64 s) = s /\ bytes (Buffer_from_base64 s) /\ zlen (Buffer_from_base64 s) < 2 ^ 53 /\ truthyString (Some s) = Some s.
Proof.
  unfold isBase64. rewrite !andb_true_iff, String.eqb_eq, negb_true_iff, Z.ltb_lt. intros [[[He Hb] Hz] Hs]. split_and!; [done| |done|].
  - apply List.Forall_forall. intros b Hin. rewrite forallb_forall in Hb. specialize (Hb b Hin). apply andb_true_iff in Hb as [? ?]. zb. unfold is_byte. lia.
  - unfold truthyString. by rewrite Hs.
Qed.

Definition bootstrapFields (w : BootstrapWitness.core) : list (list Z) :=
  [blobBytes (BootstrapWitness.key w); blobBytes (BootstrapWitness.coreSignature w); blobBytes (default ""%string (BootstrapWitness.coreChainCode w));
   stringBytes (Buffer_from_base64 (default ""%string (BootstrapWitness.addressAttributes w)))].

Definition isBootstrap (w : BootstrapWitness.core) : bool :=
  isHash 64 (BootstrapWitness.key w) && isHash 128 (BootstrapWitness.coreSignature w) &&
  match BootstrapWitness.coreChainCode w with Some c => isHash 64 c | None => false end &&
  match BootstrapWitness.addressAttributes w with Some a => isBase64 a | None => false end.

#[export] Instance bootstrap_serializable : Serializable BootstrapWitness.core BootstrapWitness.t := {
  toCbor_of := BootstrapWitness.toCbor;
  fromCbor_of := BootstrapWitness.fromCbor;
  toCore_of w := Ok (BootstrapWitness.toCore w);
  fromCore_of := BootstrapWitness.fromCore;
  bytesOf w := recordBytes (bootstrapFields w);
  validCore := isBootstrap;
  typed w := isBlob (BootstrapWitness.vkey w) && isBlob (BootstrapWitness.signature w) && isBlob (BootstrapWitness.chainCode w) && isBlob (BootstrapWitness.attributes w)
}.

Lemma bootstrap_parts w : isBootstrap w = true -> exists k s c a, w = BootstrapWitness.Core s (Some c) (Some a) k /\
  isHash 64 k = true /\ isHash 128 s = true /\ isHash 64 c = true /\ isBase64 a = true.
Proof.
  destruct w as [s [c|] [a|] k]; unfold isBootstrap; cbn; rewrite ?andb_true_iff; try (by intros [[_ ?] _]); try (by intros [_ ?]).
  intros [[[Hk Hs] Hc] Ha]. by exists k, s, c, a.
Qed.

Lemma bootstrap_fields w : isBootstrap w = true -> Forall field (bootstrapFields w).
Proof.
  intros (k & s & c & a & -> & Hk & Hs & Hc & (_ & Ha & Hz & _)%isBase64_spec)%bootstrap_parts. fields.
  change (field (stringBytes (Buffer_from_base64 a))). split; [apply stringBytes_item; lia|by apply stringBytes_bytes].
Qed.

Lemma chainCode_size c : isHash 64 c = true -> BootstrapWitness.assertChainCodeSize c = Ok tt.
Proof. intros (_ & Hn & _)%isHash_spec. unfold BootstrapWitness.assertChainCodeSize. by rewrite Hn. Qed.

#[export] Instance bootstrap_laws : SerializableLaws BootstrapWitness.core BootstrapWitness.t.
Proof.
  split; cbn [bytesOf validCore fromCore_of fromCbor_of bootstrap_serializable].
  - intros w Hw. apply field_record; [done|by apply bootstrap_fields].
  - intros w _. apply (starts_not_null Array); [done|by apply starts_record].
  - intros w (k & s & c & a & -> & Hk & Hs & Hc & (Ha & Hb & Hz & Ht)%isBase64_spec)%bootstrap_parts. eexists.
    unfold BootstrapWitness.fromCore. cbn [BootstrapWitness.coreChainCode BootstrapWitness.addressAttributes].
    rewrite (truthy_hash 64 c), Ht, (chainCode_size c Hc) by done. split; [reflexivity|].
    assert (Eh : hexToBytes (HexBlob_fromBase64 a) = Buffer_from_base64 a) by by apply Buffer_hex_roundtrip. split.
    + unfold toCore_of, bootstrap_serializable, BootstrapWitness.toCore, Base64Blob_fromBytes, BootstrapWitness.new.
      cbn [BootstrapWitness.attributes BootstrapWitness.chainCode BootstrapWitness.vkey BootstrapWitness.signature BootstrapWitness.coreSignature BootstrapWitness.key].
      by rewrite Eh, Ha.
    + unfold toCbor_of, bootstrap_serializable, BootstrapWitness.toCbor, cached, BootstrapWitness.new. cbn [remembered BootstrapWitness.originalBytes BootstrapWitness.chainCode].
      rewrite (chainCode_size c Hc). cbn [mbind outcome_bind BootstrapWitness.vkey BootstrapWitness.signature BootstrapWitness.chainCode BootstrapWitness.attributes].
      rewrite Eh. apply (encode_record 4 _ [_; _; _; _]); [done..|]. do 3 (apply emits_fields; [eauto with codec|]). apply emits_last, (stringBytes_emits (Buffer_from_base64 a)). lia.
  - intros w Hw Hz. pose proof (bootstrap_fields w Hw) as Hf. destruct (bootstrap_parts w Hw) as (k & s & c & a & -> & Hk & Hs & Hc & (Ha & Hb & Hza & Ht)%isBase64_spec).
    eexists. split.
    + apply decode_completes; [done..|]. cbn [bootstrapFields BootstrapWitness.key BootstrapWitness.coreSignature BootstrapWitness.coreChainCode BootstrapWitness.addressAttributes default from_option id].
      apply completes_length. do 3 (eapply completes_bind; [solve [eauto with codec]|cbv beta]). eapply completes_bind; [by apply hex_reads|].
      cbv beta. apply completes_end. intros r. reflexivity.
    + split; [|by apply cached_record]. unfold toCore_of, bootstrap_serializable, BootstrapWitness.toCore, Base64Blob_fromBytes, hexToBytes.
      cbn [BootstrapWitness.attributes BootstrapWitness.chainCode BootstrapWitness.vkey BootstrapWitness.signature]. rewrite Buffer_hex_roundtrip by done.
      change (Ok (BootstrapWitness.Core s (Some c) (Some (Buffer_to_base64 (Buffer_from_base64 a))) k) =
        (Ok (BootstrapWitness.Core s (Some c) (Some a) k) : Res _)). by rewrite Ha.
  - apply accepts_decode. intros cbor. sound_fields. apply sound_ret. cbn. by rewrite !andb_true_iff.
Qed.

(** ** Plutus scripts of one version *)

Definition plutus_serializable (v : PlutusLanguageVersion) : Serializable CorePlutusScript PlutusScript.t := {|
  toCbor_of := PlutusScript.toCbor;
  fromCbor_of := PlutusScript.fromCbor;
  toCore_of s := Ok (PlutusScript.toCore v s);
  fromCore_of := PlutusScript.fromCore v;
  bytesOf p := blobBytes (plutusBytes p);
  validCore p := isPlutusScript p && bool_decide (version p = v);
  typed s := isBlob (PlutusScript.compiledByteCode s)
|}.

Lemma plutus_laws v : @SerializableLaws _ _ (plutus_serializable v).
Proof.
  split; cbn [bytesOf validCore fromCore_of fromCbor_of plutus_serializable].
  - intros p [Hp _]%andb_true_iff. by apply plutus_field.
  - intros p [Hp _]%andb_true_iff. apply plutus_hash in Hp as [Hh Hz]. apply (starts_not_null ByteString); [done|by eapply starts_blob].
  - intros p [Hp Hv%bool_decide_eq_true]%andb_true_iff. exists (PlutusScript.new (plutusBytes p)). unfold PlutusScript.fromCore.
    rewrite bool_decide_eq_true_2 by done. split; [done|]. split; [destruct p; cbn in *; by subst|by apply plutus_toCbor].
  - intros p [Hp Hv%bool_decide_eq_true]%andb_true_iff Hz. eexists. split; [by apply plutus_fromCbor|].
    split; [destruct p; cbn in *; by subst|]. destruct (plutus_field p Hp). by apply cached_some.
  - apply accepts_decode. intros cbor. eapply sound_bind; [apply sound_bytes|]. intros l [Hl _]. apply sound_ret. cbn. by apply isBlob_to_hex.
Qed.

(** ** Datums *)

#[export] Instance data_serializable : Serializable CorePlutusData PlutusData := {
  toCbor_of := PlutusData.toCbor;
  fromCbor_of := PlutusData.fromCbor;
  toCore_of := PlutusData.toCore;
  fromCore_of := PlutusData.fromCore;
  bytesOf := datumBytes;
  validCore d := isDatum d && isItem (datumBytes d) && negb (hd 0 (datumBytes d) =? 246);
  typed d := true
}.

Lemma isData_spec d : validCore d = true -> exists p l, survives d p l /\ datumBytes d = l /\ field l /\ hd 0 l <> 246.
Proof.
  cbn. rewrite !andb_true_iff, negb_true_iff, Z.eqb_neq. intros [[Hd Hi] Hn]. destruct (datum_survives d Hd) as (p & l & Hs). exists p, l.
  rewrite (survives_datumBytes _ _ _ Hs) in *. split_and!; try done. pose proof (survives_bytes _ _ _ Hs). split; [by apply isItem_item|done].
Qed.

#[export] Instance data_laws : SerializableLaws CorePlutusData PlutusData.
Proof.
  split; cbn [bytesOf fromCore_of fromCbor_of data_serializable].
  - intros d (p & l & _ & -> & Hf & _)%isData_spec. done.
  - intros d (p & l & _ & -> & Hf & Hn)%isData_spec. by apply item_not_null.
  - intros d (p & l & Hs & E & _ & _)%isData_spec. exists p. split; [by apply Hs|]. split; [by apply Hs|].
    cbn [bytesOf toCbor_of data_serializable]. rewrite E. by apply Hs.
  - intros d (p & l & Hs & E & [Hi Hb] & _)%isData_spec Hz. rewrite E in Hz |- *. destruct (survives_fromCbor _ _ _ Hs Hz) as (p' & Ep & Ec).
    exists p'. split; [done|]. split; [done|]. cbn [bytesOf toCbor_of data_serializable]. rewrite E. apply toCbor_original; [by eapply fromCborFuel_original|].
    intros E0. apply (f_equal Buffer_from_hex) in E0. rewrite Buffer_hex_roundtrip in E0 by done. by destruct (item_first l Hi) as (b & k & -> & _).
  - intros cbor Hz. split; [|done]. by apply plutus_ends.
Qed.

(** ** Redeemers *)

Definition keyFields (r : Redeemer.core) : list (list Z) := [intBytes (Redeemer.tagOf (Redeemer.purpose r)); intBytes (Redeemer.coreIndex r)].
Definition valueFields (r : Redeemer.core) : list (list Z) := [datumBytes (Redeemer.coreData r); recordBytes (unitsFields (Redeemer.executionUnits r))].
Definition redeemerFields (r : Redeemer.core) : list (list Z) := keyFields r ++ valueFields r.

Definition isRedeemer (r : Redeemer.core) : bool :=
  isIndex53 (Redeemer.coreIndex r) && validCore (Redeemer.coreData r) && isUnits (Redeemer.executionUnits r).

Definition redeemerIs (c : Redeemer.core) (r : Redeemer.t) : Prop :=
  Redeemer.tag r = Redeemer.tagOf (Redeemer.purpose c) /\ Redeemer.index r = Redeemer.coreIndex c /\
  standsFor (Redeemer.coreData c) (Redeemer.data r) /\ standsFor (Redeemer.executionUnits c) (Redeemer.exUnits r).

#[export] Instance redeemer_serializable : Serializable Redeemer.core Redeemer.t := {
  toCbor_of := Redeemer.toCbor;
  fromCbor_of := Redeemer.fromCbor;
  toCore_of := Redeemer.toCore;
  fromCore_of := Redeemer.fromCore;
  bytesOf r := recordBytes (redeemerFields r);
  validCore := isRedeemer;
  typed r := isUInt (Redeemer.index r)
}.

Lemma tag_uint p : isUInt (Redeemer.tagOf p) = true.
Proof. by destruct p. Qed.
#[export] Hint Resolve tag_uint : codec.

Lemma redeemer_fields r : isRedeemer r = true -> Forall field (keyFields r) /\ Forall field (valueFields r).
Proof.
  intros [[Hi Hd]%andb_true_iff Hu]%andb_true_iff. split; fields.
  - by apply (@bytesOf_field _ _ data_serializable data_laws).
  - by apply (@bytesOf_field _ _ units_serializable units_laws).
Qed.

Lemma redeemerIs_toCore c r : isRedeemer c = true -> redeemerIs c r -> Redeemer.toCore r = Ok c.
Proof.
  intros [[Hi Hd]%andb_true_iff Hu]%andb_true_iff (Ht & Hx & [Ec _] & [Eu _]). cbn in Ec, Eu. unfold Redeemer.toCore. rewrite Ht.
  assert (Redeemer.purposeOf (Redeemer.tagOf (Redeemer.purpose c)) = Ok (Redeemer.purpose c)) as -> by by destruct (Redeemer.purpose c).
  cbn [mbind outcome_bind]. rewrite Ec, Hx. cbn. injection Eu as ->. apply index53_range in Hi. rewrite Number_of_exact by lia. by destruct c.
Qed.

Lemma value_emits c r : isRedeemer c = true -> redeemerIs c r ->
  emits (writeEncoded (PlutusData.toCbor (Redeemer.data r)) ;; writeEncoded (ExUnits.toCbor (Redeemer.exUnits r))) (concat (valueFields c)).
Proof.
  intros [[Hi Hd]%andb_true_iff Hu]%andb_true_iff (_ & _ & Hsd & Hsu). apply emits_fields; [|apply emits_last].
  - by apply (@nested_emits _ _ data_serializable data_laws).
  - by apply (@nested_emits _ _ units_serializable units_laws).
Qed.

Lemma redeemer_toCbor c r : isRedeemer c = true -> redeemerIs c r -> Redeemer.originalBytes r = None ->
  Redeemer.toCbor r = Ok (Buffer_to_hex (recordBytes (redeemerFields c))).
Proof.
  intros Hc Hr Ho. pose proof (value_emits c r Hc Hr) as Hv. pose proof Hc as [[Hi _]%andb_true_iff _]%andb_true_iff. destruct Hr as (Ht & Hx & _ & _).
  unfold Redeemer.toCbor, cached, remembered. rewrite Ho, Ht, Hx. apply (encode_record 4 _ (redeemerFields c)); [done..|].
  unfold redeemerFields, keyFields. cbn [app]. do 2 (apply emits_fields; [solve [eauto with codec]|]). exact Hv.
Qed.

Lemma redeemer_fromCore c : isRedeemer c = true -> exists r, Redeemer.fromCore c = Ok r /\ redeemerIs c r /\ Redeemer.originalBytes r = None.
Proof.
  intros [[Hi Hd]%andb_true_iff Hu]%andb_true_iff. destruct (@fromCore_standsFor _ _ data_serializable data_laws _ Hd) as (p & Ep & Hp).
  destruct (@fromCore_standsFor _ _ units_serializable units_laws _ Hu) as (u & Eu & Hus). change (PlutusData.fromCore (Redeemer.coreData c) = Ok p) in Ep.
  injection Eu as Eu. subst u. unfold Redeemer.fromCore. rewrite Ep. eexists. split; [done|]. by split.
Qed.

Lemma readTagNumber_reads p : reads Redeemer.readTagNumber (intBytes (Redeemer.tagOf p)) (Redeemer.tagOf p).
Proof. eapply reads_last; [apply readUInt_reads, tag_uint|]. intros r. by destruct p. Qed.
#[export] Hint Resolve readTagNumber_reads : codec.

(** The data and the units, read one after the other. *)
Lemma redeemer_parts c : isRedeemer c = true -> zlen (concat (valueFields c)) < 2 ^ 53 -> exists d u,
  reads (readNested PlutusData.fromCbor) (datumBytes (Redeemer.coreData c)) d /\
  reads (readNested ExUnits.fromCbor) (recordBytes (unitsFields (Redeemer.executionUnits c))) u /\
  forall o, redeemerIs c {| Redeemer.tag := Redeemer.tagOf (Redeemer.purpose c); Redeemer.index := Redeemer.coreIndex c; Redeemer.data := d;
    Redeemer.exUnits := u; Redeemer.originalBytes := o |}.
Proof.
  intros [[Hi Hd]%andb_true_iff Hu]%andb_true_iff Hz.
  pose proof (part_size (datumBytes (Redeemer.coreData c)) (valueFields c) ltac:(by left)).
  pose proof (part_size (recordBytes (unitsFields (Redeemer.executionUnits c))) (valueFields c) ltac:(right; by left)).
  destruct (@nested_reads _ _ data_serializable data_laws _ Hd) as (d & Rd & Sd); [change (zlen (datumBytes (Redeemer.coreData c)) < 2 ^ 53); lia|].
  destruct (@nested_reads _ _ units_serializable units_laws _ Hu) as (u & Ru & Su);
    [change (zlen (recordBytes (unitsFields (Redeemer.executionUnits c))) < 2 ^ 53); lia|].
  exists d, u. split_and!; [exact Rd|exact Ru|]. by intros o.
Qed.

#[export] Instance redeemer_laws : SerializableLaws Redeemer.core Redeemer.t.
Proof.
  split; cbn [bytesOf validCore fromCore_of fromCbor_of redeemer_serializable].
  - intros c Hc. destruct (redeemer_fields c Hc). apply field_record; [done|by apply Forall_app].
  - intros c _. apply (starts_not_null Array); [done|by apply starts_record].
  - intros c Hc. destruct (redeemer_fromCore c Hc) as (r & Er & Hr & Ho). exists r. split; [done|]. split; [by apply redeemerIs_toCore|by apply redeemer_toCbor].
  - intros c Hc Hz. destruct (redeemer_fields c Hc) as [Hk Hv]. assert (Hf : Forall field (redeemerFields c)) by by apply Forall_app.
    pose proof Hc as [[Hi _]%andb_true_iff _]%andb_true_iff. destruct (redeemer_parts c Hc) as (d & u & Rd & Ru & Hr).
    { pose proof (record_size (redeemerFields c)) as Hs. unfold redeemerFields in Hs at 1. rewrite concat_app, zlen_app in Hs. pose proof (zlen_nonneg (concat (keyFields c))). lia. }
    eexists. split.
    + apply decode_completes; [done..|]. unfold redeemerFields, keyFields, valueFields. cbn [app]. apply completes_length.
      do 2 (eapply completes_bind; [solve [eauto with codec]|cbv beta]). eapply completes_bind; [exact Rd|cbv beta]. eapply completes_bind; [exact Ru|cbv beta].
      apply completes_end. intros r. reflexivity.
    + split; [apply redeemerIs_toCore; [done|apply Hr]|by apply cached_record].
  - apply accepts_decode. intros cbor. sound_fields. eapply (sound_bind _ _ (fun _ => True)).
    { eapply sound_bind; [apply sound_uint|]. intros; by apply sound_ret. }
    intros tag _. eapply sound_bind; [apply sound_uint|]. intros i Hi.
    eapply sound_bind; [apply (@nested_sound _ _ data_serializable data_laws)|]. intros d _.
    eapply sound_bind; [apply (@nested_sound _ _ units_serializable units_laws)|]. intros u _. sound_fields. by apply sound_ret.
Qed.

(** ** The redeemers of a transaction *)

Section redeemers.
Context `{Era}.

Definition redeemerKey (r : Redeemer.core) : Z * Z := (Redeemer.tagOf (Redeemer.purpose r), Redeemer.coreIndex r).
Definition redeemerEntry (r : Redeemer.core) : list Z * list Z := (recordBytes (keyFields r), recordBytes (valueFields r)).

Definition redeemersBytes (l : list Redeemer.core) : list Z :=
  if inConwayEra then mapBytes false (map redeemerEntry l) else listBytes l.

(** In the map of the Conway era no two redeemers have one purpose and index. *)
Definition isRedeemers (l : list Redeemer.core) : bool :=
  validList l && (negb inConwayEra || bool_decide (NoDup (redeemerKey <$> l))).

#[export] Instance redeemers_serializable : Serializable (list Redeemer.core) Redeemers.t := {
  toCbor_of := Redeemers.toCbor;
  fromCbor_of := Redeemers.fromCbor;
  toCore_of := Redeemers.toCore;
  fromCore_of := Redeemers.fromCore;
  bytesOf := redeemersBytes;
  validCore := isRedeemers;
  typed r := forallb typed (Redeemers.values r)
}.

Lemma isRedeemers_spec l : isRedeemers l = true ->
  validList l = true /\ 0 <= zlen l < 2 ^ 53 /\ Forall (fun c => isRedeemer c = true) l /\ (inConwayEra = true -> NoDup (redeemerKey <$> l)).
Proof.
  intros [Hl Hn]%andb_true_iff. destruct (validList_spec l Hl). do 3 (split; [done|]). intros E. rewrite E in Hn. by apply bool_decide_eq_true in Hn.
Qed.

Lemma redeemer_entry r : isRedeemer r = true -> field (redeemerEntry r).1 /\ field (redeemerEntry r).2.
Proof. intros Hr. destruct (redeemer_fields r Hr). by split; apply field_record. Qed.

Lemma redeemers_entries l : Forall (fun c => isRedeemer c = true) l ->
  Forall (fun e => field (redeemerEntry e).1 /\ field (redeemerEntry e).2) l.
Proof. intros Hl. eapply Forall_impl; [exact Hl|]. apply redeemer_entry. Qed.

Lemma redeemers_field l : isRedeemers l = true -> field (redeemersBytes l).
Proof.
  intros (Hv & Hz & Hl & _)%isRedeemers_spec. unfold redeemersBytes. destruct inConwayEra; [|by apply list_field].
  apply entries_field; [by apply redeemers_entries|lia].
Qed.

Lemma redeemers_not_null l : isRedeemers l = true -> not_null (redeemersBytes l).
Proof.
  intros (Hv & Hz & Hl & _)%isRedeemers_spec. unfold redeemersBytes. destruct inConwayEra.
  - apply (starts_not_null Map); [done|]. unfold mapBytes. apply starts_head. rewrite zlen_map. lia.
  - apply (starts_not_null Array); [done|by apply list_starts].
Qed.

(** *** Keys *)

Lemma tag_text p x : (pretty (Redeemer.tagOf p) +:+ x)%string = String (ascii_of_N (48 + Z.to_N (Redeemer.tagOf p))) x.
Proof. by destruct p. Qed.

Lemma mapKey_inj c c' r r' : redeemerIs c r -> redeemerIs c' r' -> Redeemers.mapKey r = Redeemers.mapKey r' -> redeemerKey c = redeemerKey c'.
Proof.
  intros (Ht & Hx & _) (Ht' & Hx' & _). unfold Redeemers.mapKey. rewrite Ht, Ht', Hx, Hx', !tag_text. intros E. injection E as Ea Ei.
  apply pretty_Z_inj in Ei. unfold redeemerKey. rewrite Ei. f_equal. revert Ea. by destruct (Redeemer.purpose c), (Redeemer.purpose c').
Qed.

Lemma mapKeys_distinct l rs : Forall2 redeemerIs l rs -> NoDup (redeemerKey <$> l) -> NoDup (Redeemers.mapKey <$> rs).
Proof.
  induction 1 as [|c r l rs Hr Hrs IH]; [constructor|]. cbn. intros [Hn Hd]%NoDup_cons. apply NoDup_cons. split; [|by apply IH].
  intros (r' & E & Hin)%list_elem_of_fmap. apply Hn. clear IH Hd Hn. induction Hrs as [|c' r0 l rs Hr0 _ IH]; [by apply elem_of_nil in Hin|].
  apply elem_of_cons in Hin as [->|Hin]; [|right; by apply IH]. cbn. rewrite (mapKey_inj c c' r r0) by done. left.
Qed.

(** *** Writing *)

Lemma forall2_length_z {A B} (R : A -> B -> Prop) l k : Forall2 R l k -> zlen k = zlen l.
Proof. intros Hf. unfold zlen. by rewrite (Forall2_length _ _ _ Hf). Qed.

Lemma entry_write c r : isRedeemer c = true -> redeemerIs c r -> emits (Redeemers.writeEntry r) (entryBytes (redeemerEntry c)).
Proof.
  intros Hc Hr. pose proof (value_emits c r Hc Hr) as Hv. pose proof Hc as [[Hi _]%andb_true_iff _]%andb_true_iff. destruct Hr as (Ht & Hx & _ & _).
  unfold Redeemers.writeEntry, entryBytes, redeemerEntry. rewrite Ht, Hx. cbn [fst snd].
  intros w. rewrite <- (emits_bind (call (CborWriter.writeStartArray (Some 2)) ;; call (CborWriter.writeInt (Redeemer.tagOf (Redeemer.purpose c))) ;; call (CborWriter.writeInt (Redeemer.coreIndex c)))
    (call (CborWriter.writeStartArray (Some 2)) ;; writeEncoded (PlutusData.toCbor (Redeemer.data r)) ;; writeEncoded (ExUnits.toCbor (Redeemer.exUnits r))) _ _).
  - same_program.
  - apply record_emits; [done|]. emit_fields.
  - by apply record_emits.
Qed.

Lemma redeemers_emits l rs : isRedeemers l = true -> Forall2 redeemerIs l rs -> Forall (fun r => Redeemer.originalBytes r = None) rs ->
  Redeemers.toCbor (Redeemers.new rs) = Ok (Buffer_to_hex (redeemersBytes l)).
Proof.
  intros (Hv & Hz & Hl & Hd)%isRedeemers_spec Hr Ho. apply encode_emits. cbn [Redeemers.values Redeemers.new]. unfold redeemersBytes.
  destruct inConwayEra eqn:Ee.
  - rewrite JsMapFacts.of_entries_nodup.
    2: { unfold JsMap.wf, JsMap.keys. rewrite <- list_fmap_compose. exact (mapKeys_distinct l rs Hr (Hd eq_refl)). }
    unfold JsMap.size, JsMap.values. rewrite <- list_fmap_compose, zlen_fmap, (forall2_length_z _ _ _ Hr).
    replace ((snd ∘ (λ redeemer, (Redeemers.mapKey redeemer, redeemer))) <$> rs) with rs by (clear; induction rs; cbn; congruence).
    unfold mapBytes. rewrite zlen_map. apply emits_bind; [apply emits_call, writeTypeValue_head; lia|]. apply emits_forEach. rewrite map_map.
    clear -Hl Hr. induction Hr as [|c r l rs Hcr _ IH]; [constructor|]. inversion_clear Hl. constructor; [by apply entry_write|by apply IH].
  - apply (@list_emits _ _ redeemer_serializable redeemer_laws l rs); [done|]. clear -Hl Hr Ho. induction Hr as [|c r l rs Hcr _ IH]; [constructor|]. inversion_clear Hl. inversion_clear Ho.
    constructor; [|by apply IH]. split; [by apply redeemerIs_toCore|by apply redeemer_toCbor].
Qed.

Lemma redeemers_fromCore l : Forall (fun c => isRedeemer c = true) l -> exists rs, mapM Redeemer.fromCore l = Ok rs /\ Forall2 redeemerIs l rs /\
  Forall (fun r => Redeemer.originalBytes r = None) rs.
Proof.
  induction 1 as [|c l Hc _ (rs & E & Hr & Ho)]; [by exists []|]. destruct (redeemer_fromCore c Hc) as (r & Er & Hcr & Hn).
  exists (r :: rs). cbn. rewrite Er. cbn. rewrite E. split; [done|]. by split; constructor.
Qed.

Lemma redeemers_toCore l rs : Forall (fun c => isRedeemer c = true) l -> Forall2 redeemerIs l rs -> mapM Redeemer.toCore rs = Ok l.
Proof.
  intros Hl. induction 1 as [|c r l rs Hcr _ IH]; [done|]. inversion_clear Hl. cbn. rewrite (redeemerIs_toCore c r) by done. cbn. by rewrite IH.
Qed.

(** *** Reading *)

Lemma entry_reads c : isRedeemer c = true -> zlen (concat (valueFields c)) < 2 ^ 53 -> exists r,
  readsN 2 Redeemers.readEntry (entryBytes (redeemerEntry c)) r /\ redeemerIs c r.
Proof.
  intros Hc Hz. pose proof Hc as [[Hi _]%andb_true_iff _]%andb_true_iff. destruct (redeemer_parts c Hc Hz) as (d & u & Rd & Ru & Hr).
  eexists. split; [|apply (Hr None)]. unfold redeemerEntry, entryBytes. cbn [fst snd].
  apply (readsN_ext 2 _ (
    k ← (n ← call readStartArray; Redeemers.expectGroup "index" Redeemers.MAP_INDEX_EMBEDDED_GROUP_SIZE n ;; k ← (t ← Redeemer.readTagNumber; i ← call readUInt; mret (t, i)); call readEndArray ;; mret k);
    v ← (n ← call readStartArray; Redeemers.expectGroup "value" Redeemers.MAP_VALUE_EMBEDDED_GROUP_SIZE n ;; v ← (d ← readNested PlutusData.fromCbor; u ← readNested ExUnits.fromCbor; mret (d, u)); call readEndArray ;; mret v);
    mret (Redeemer.new k.1 k.2 v.1 v.2))).
  { intros r. unfold Redeemers.readEntry. same_program. }
  eapply (readsN_bind 1 1 _ _ _ _ (Redeemer.tagOf (Redeemer.purpose c), Redeemer.coreIndex c)); [done..| |].
  - unfold recordBytes. apply (reads_record 2 _ (t ← Redeemer.readTagNumber; i ← call readUInt; mret (t, i))); [done| |].
    + eapply (readsN_bind 1 1); [done|done|apply readTagNumber_reads|]. cbn [concat]. rewrite app_nil_r. cbv beta. eapply reads_last; [by apply readUInt_reads, index53_uint|]. intros r. reflexivity.
    + intros r. reflexivity.
  - eapply (reads_last _ _ _ (d, u)); [|intros r; reflexivity]. unfold recordBytes. apply (reads_record 2 _ (d ← readNested PlutusData.fromCbor; u ← readNested ExUnits.fromCbor; mret (d, u))); [done| |].
    + eapply (readsN_bind 1 1); [done|done|exact Rd|]. cbn [concat]. rewrite app_nil_r. cbv beta. eapply reads_last; [exact Ru|]. intros r. reflexivity.
    + intros r. reflexivity.
Qed.

Lemma entries_elements l : Forall (fun c => isRedeemer c = true) l -> zlen (concat (map entryBytes (map redeemerEntry l))) < 2 ^ 53 ->
  exists rs, elements 2 Redeemers.readEntry (map entryBytes (map redeemerEntry l)) rs /\ Forall2 redeemerIs l rs.
Proof.
  induction 1 as [|c l Hc Hl IH]; [intros _; exists []; by split; constructor|]. cbn [map concat]. rewrite zlen_app. intros Hz.
  pose proof (zlen_nonneg (concat (map entryBytes (map redeemerEntry l)))). unfold entryBytes at 1 in Hz. rewrite zlen_app in Hz.
  change (redeemerEntry c) with (recordBytes (keyFields c), recordBytes (valueFields c)) in Hz. cbn [fst snd] in Hz.
  pose proof (record_size (valueFields c)). pose proof (zlen_nonneg (recordBytes (keyFields c))).
  pose proof (zlen_nonneg (concat (valueFields c))). destruct IH as (rs & Hel & Hrs); [lia|]. destruct (entry_reads c Hc ltac:(lia)) as (r & Hr & Hcr). exists (r :: rs). split; [|by constructor].
  constructor; [|exact Hel]. split; [|exact Hr]. exists (redeemerEntry c).1, (redeemerEntry c).2. split; [by apply (redeemer_entry c)|done].
Qed.

Lemma list_elements_are l : Forall (fun c => isRedeemer c = true) l -> zlen (concat (map bytesOf l)) < 2 ^ 53 -> exists rs,
  elements 1 (readNested Redeemer.fromCbor) (map bytesOf l) rs /\ mapM Redeemer.toCore rs = Ok l.
Proof.
  intros Hl Hz. destruct (@list_elements _ _ redeemer_serializable redeemer_laws l Hl Hz) as (rs & Hel & Hs). exists rs. split; [exact Hel|].
  by apply (@list_toCore _ _ redeemer_serializable).
Qed.

Lemma advances_startArray : advances (call readStartArray) (fun _ => True).
Proof. intros r Hw. eapply runs_impl; [by eapply enter_runs; [apply readStartArray_enters|]|]. by intros. Qed.

Lemma sound_group what n len (m : Dec Redeemer.t) P : sound m P -> sound (Redeemers.expectGroup what n len ;; m) P.
Proof. intros Hm. apply sound_guard. by intros _. Qed.

Lemma entry_advances : advances Redeemers.readEntry (fun r => typed r = true).
Proof.
  unfold Redeemers.readEntry. eapply advances_bind; [apply advances_startArray|]. intros n _. apply sound_group. eapply (sound_bind _ _ (fun _ => True)).
  { eapply sound_bind; [apply sound_uint|]. intros; by apply sound_ret. }
  intros t _. eapply sound_bind; [apply sound_uint|]. intros i Hi. sound_fields.
  eapply sound_bind; [apply (@nested_sound _ _ data_serializable data_laws)|]. intros d _.
  eapply sound_bind; [apply (@nested_sound _ _ units_serializable units_laws)|]. intros u _. sound_fields. by apply sound_ret.
Qed.

#[export] Instance redeemers_laws : SerializableLaws (list Redeemer.core) Redeemers.t.
Proof.
  split; cbn [bytesOf validCore fromCore_of fromCbor_of redeemers_serializable].
  - apply redeemers_field.
  - apply redeemers_not_null.
  - intros l Hv. pose proof (isRedeemers_spec l Hv) as (_ & _ & Hl & _). destruct (redeemers_fromCore l Hl) as (rs & E & Hr & Ho).
    exists (Redeemers.new rs). unfold Redeemers.fromCore. rewrite E. split; [done|]. split; [by apply (redeemers_toCore l)|by apply redeemers_emits].
  - intros l Hv Hz. pose proof (isRedeemers_spec l Hv) as (Hvl & Hn & Hl & _). destruct (redeemers_field l Hv) as [Hi Hb].
    set (hex := Buffer_to_hex (redeemersBytes l)).
    enough (Hr : exists rs, mapM Redeemer.toCore rs = Ok l /\ Redeemers.fromCbor hex = Ok {| Redeemers.values := rs; Redeemers.originalBytes := Some hex |}).
    { destruct Hr as (rs & Ec & E). eexists. split; [exact E|]. split; [exact Ec|by apply cached_some]. }
    unfold Redeemers.fromCbor, redeemersBytes in *. revert Hi Hb Hz. subst hex. destruct inConwayEra eqn:Ee; intros Hi Hb Hz.
    + pose proof (entries_field redeemerEntry l (redeemers_entries l Hl) ltac:(lia)) as _.
      assert (Hz' : zlen (concat (map entryBytes (map redeemerEntry l))) < 2 ^ 53).
      { unfold mapBytes in Hz. rewrite zlen_app in Hz. pose proof (zlen_nonneg (CborWriter.head Map (zlen (map redeemerEntry l)))). lia. }
      destruct (entries_elements l Hl Hz') as (rs & Hel & Hr). exists rs. split; [by apply redeemers_toCore|].
      apply decode_reads; [|done..]. apply (reads_peek (headState Map)).
      { intros r rest. apply starts_state; [done|]. unfold mapBytes. apply starts_head. rewrite zlen_map. lia. }
      rewrite bool_decide_eq_true_2 by done. eapply reads_last; [|intros r; reflexivity]. apply readMapOf_reads; [rewrite zlen_map; lia|exact Hel|].
      apply Forall_map. eapply Forall_impl; [exact Hl|]. intros c Hc. by destruct (redeemer_entry c Hc) as [[? _] [? _]].
    + assert (Hz' : zlen (concat (map bytesOf l)) < 2 ^ 53).
      { unfold listBytes in Hz. rewrite zlen_app in Hz. pose proof (zlen_nonneg (CborWriter.head Array (zlen l))). lia. }
      destruct (list_elements_are l Hl Hz') as (rs & Hel & Ec). exists rs. split; [exact Ec|].
      apply decode_reads; [|done..]. apply (reads_peek (headState Array)).
      { intros r rest. apply starts_state; [done|by apply list_starts]. }
      rewrite bool_decide_eq_false_2 by done. eapply reads_last; [|intros r; reflexivity]. unfold listBytes. rewrite <- zlen_map_bytes.
      apply reads_array_definite; [rewrite zlen_map_bytes; lia|exact Hel].
  - apply accepts_decode. intros cbor. eapply sound_bind; [apply sound_peek|]. intros s _.
    eapply (sound_bind _ _ (Forall (fun r => typed r = true))).
    + case_bool_decide.
      * apply (sound_ext _ (readMapOf Redeemers.readEntry)); [intros r; unfold readMapOf; same_program|]. apply sound_map, entry_advances.
      * apply (@list_sound _ _ redeemer_serializable redeemer_laws).
    + intros rs Hrs. apply sound_ret. cbn. apply forallb_forall. by apply List.Forall_forall.
Qed.
End redeemers.

(** ** The witness set keeps its promises
    The encoding of the witnesses of a transaction, and the interface of
    [Serializable.v] for [TransactionWitnessSet]. *)

Import CborReader CborWriterFacts.

(** Of elements no two of which are equal none is dropped. *)
Class UniqWithLaws `{UniqWith} : Prop := {
  uniqWith_distinct {A : Type} (eq : A -> A -> bool) l :
    (forall i j x y, i <> j -> l !! i = Some x -> l !! j = Some y -> eq x y = false) -> uniqWith eq l = l
}.

Lemma uniqWith_keys `{UniqWithLaws} {A} (key : A -> string) l : NoDup (key <$> l) ->
  uniqWith (fun x y => String.eqb (key x) (key y)) l = l.
Proof.
  intros Hd. apply uniqWith_distinct. intros i j x y Hij Hi Hj. apply String.eqb_neq. intros E. apply Hij.
  eapply (NoDup_lookup _ i j (key x)); [exact Hd|by rewrite list_lookup_fmap, Hi|by rewrite list_lookup_fmap, Hj, E].
Qed.

(** ** The parts of the core value *)

Fixpoint CoreScript_dec (x y : CoreScript) : {x = y} + {x <> y}.
Proof. decide equality; try apply (decide (_ = _)); apply (@list_eq_dec _ CoreScript_dec). Defined.

#[export] Instance CoreScript_eq_dec : EqDecision CoreScript := CoreScript_dec.
#[export] Instance CorePlutusScript_eq_dec : EqDecision CorePlutusScript.
Proof. solve_decision. Defined.
#[export] Instance CoreAnyScript_eq_dec : EqDecision CoreAnyScript.
Proof. solve_decision. Defined.

Definition isVersion (v : PlutusLanguageVersion) (s : CoreAnyScript) : list CorePlutusScript :=
  match s with CorePlutus p => if bool_decide (version p = v) then [p] else [] | CoreNative _ => [] end.
Definition plutusOf (v : PlutusLanguageVersion) (l : list CoreAnyScript) : list CorePlutusScript := l ≫= isVersion v.
Definition nativeOf (l : list CoreAnyScript) : list CoreScript := l ≫= fun s => match s with CoreNative n => [n] | CorePlutus _ => [] end.

(** The scripts come in the order in which the class returns them. *)
Definition grouped (l : list CoreAnyScript) : list CoreAnyScript :=
  (CorePlutus <$> plutusOf V1 l) ++ (CorePlutus <$> plutusOf V2 l) ++ (CorePlutus <$> plutusOf V3 l) ++ (CoreNative <$> nativeOf l).
Definition inOrder (l : list CoreAnyScript) : bool := bool_decide (grouped l = l).

Definition nonEmpty {A} (l : list A) : option (list A) := match l with [] => None | _ => Some l end.
Definition notEmpty {A} (o : option (list A)) : bool := match o with Some [] => false | _ => true end.

Section witnessSet.
Context `{Era} `{UniqWithLaws}.

Definition scriptsOf (c : CoreWitness) : list CoreAnyScript := default [] (coreScripts c).

Definition witnessEntries (c : CoreWitness) : list (Z * list Z) :=
  optionalEntry 0 setBytes (nonEmpty (signatures c)) ++
  optionalEntry 1 setBytes (nonEmpty (nativeOf (scriptsOf c))) ++
  optionalEntry 2 setBytes (bootstrap c) ++
  optionalEntry 3 (@setBytes _ _ _ (plutus_serializable V1)) (nonEmpty (plutusOf V1 (scriptsOf c))) ++
  optionalEntry 4 setBytes (datums c) ++
  optionalEntry 5 redeemersBytes (coreRedeemers c) ++
  optionalEntry 6 (@setBytes _ _ _ (plutus_serializable V2)) (nonEmpty (plutusOf V2 (scriptsOf c))) ++
  optionalEntry 7 (@setBytes _ _ _ (plutus_serializable V3)) (nonEmpty (plutusOf V3 (scriptsOf c))).

Definition witnessBytes (c : CoreWitness) : list Z := keyedBytes (witnessEntries c).

Definition isWitness (c : CoreWitness) : bool :=
  validList (signatures c) && bool_decide (NoDup (fst <$> signatures c)) &&
  (validOption (C := list BootstrapWitness.core) (T := CborSet.t BootstrapWitness.t) (bootstrap c) && notEmpty (bootstrap c) &&
    bool_decide (NoDup (BootstrapWitness.key <$> default [] (bootstrap c)))) &&
  (validOption (C := list CorePlutusData) (T := CborSet.t PlutusData) (datums c) && notEmpty (datums c)) &&
  (validOption (C := list Redeemer.core) (T := Redeemers.t) (coreRedeemers c) && notEmpty (coreRedeemers c)) &&
  (notEmpty (coreScripts c) && inOrder (scriptsOf c) &&
    validList (nativeOf (scriptsOf c)) && forallb (fun v => forallb isPlutusScript (plutusOf v (scriptsOf c)) && (zlen (plutusOf v (scriptsOf c)) <? 2 ^ 53)) [V1; V2; V3]).

#[export] Instance witness_serializable : Serializable CoreWitness TransactionWitnessSet.t := {
  toCbor_of := TransactionWitnessSet.toCbor;
  fromCbor_of := TransactionWitnessSet.fromCbor;
  toCore_of := TransactionWitnessSet.toCore;
  fromCore_of := TransactionWitnessSet.fromCore;
  bytesOf := witnessBytes;
  validCore := isWitness;
  typed w := true
}.

#[local] Abbreviation plutusSet v := (@set_serializable _ _ _ (plutus_serializable v)).

(** What a valid witness consists of. *)
Record witnessParts (c : CoreWitness) : Prop := {
  parts_signatures : validList (signatures c) = true;
  parts_keys : NoDup (fst <$> signatures c);
  parts_bootstrap : validOption (T := CborSet.t BootstrapWitness.t) (bootstrap c) = true;
  parts_bootstrap_keys : NoDup (BootstrapWitness.key <$> default [] (bootstrap c));
  parts_datums : validOption (T := CborSet.t PlutusData) (datums c) = true;
  parts_redeemers : validOption (T := Redeemers.t) (coreRedeemers c) = true;
  parts_some : bootstrap c <> Some [] /\ datums c <> Some [] /\ coreRedeemers c <> Some [] /\ coreScripts c <> Some [];
  parts_order : grouped (scriptsOf c) = scriptsOf c;
  parts_native : validList (nativeOf (scriptsOf c)) = true;
  parts_plutus v : v <> V4 -> @validList _ _ (plutus_serializable v) (plutusOf v (scriptsOf c)) = true
}.

Lemma notEmpty_some {A} (o : option (list A)) : notEmpty o = true -> o <> Some [].
Proof. by intros Ho ->. Qed.

Lemma plutusOf_version v l : Forall (fun p => version p = v) (plutusOf v l).
Proof.
  induction l as [|[n|p] l IH]; [constructor|exact IH|]. unfold plutusOf. cbn. apply Forall_app. split; [|exact IH].
  case_bool_decide; repeat constructor. done.
Qed.

Lemma plutusOf_valid v l : forallb isPlutusScript (plutusOf v l) && (zlen (plutusOf v l) <? 2 ^ 53) = true ->
  @validList _ _ (plutus_serializable v) (plutusOf v l) = true.
Proof.
  intros [Hp Hz]%andb_true_iff. unfold validList. rewrite Hz. cbn [andb]. apply forallb_forall. intros p Hinp. cbn.
  rewrite forallb_forall in Hp. rewrite (Hp p Hinp). cbn. apply bool_decide_eq_true. pose proof (plutusOf_version v l) as Hf.
  rewrite List.Forall_forall in Hf. by apply Hf.
Qed.

Lemma witness_parts c : isWitness c = true -> witnessParts c.
Proof.
  unfold isWitness. rewrite !andb_true_iff, !bool_decide_eq_true. intros [[[[[Hs Hk] [[Hb Hbe] Hbk]] [Hd Hde]] [Hr Hre]] [[[Hse Ho] Hn] Hp]].
  apply bool_decide_eq_true in Ho. split; try done; [by split_and!; apply notEmpty_some|]. intros v Hv.
  assert (Hin : In v [V1; V2; V3]) by (destruct v; cbn; tauto). rewrite forallb_forall in Hp. by apply plutusOf_valid, Hp.
Qed.

Lemma nonEmpty_valid {C T} `{Serializable C T} (l : list C) : validList l = true -> validOption (T := CborSet.t T) (nonEmpty l) = true.
Proof. by destruct l. Qed.

Lemma witness_entries_field c : witnessParts c -> Forall (fun e => isInt64 e.1 = true /\ field e.2) (witnessEntries c).
Proof.
  intros [Hs _ Hb _ Hd Hr _ _ Hn Hp]. unfold witnessEntries. repeat (apply Forall_app; split).
  - apply (@optional_entries_field _ _ (@set_serializable _ _ _ vkey_serializable) set_laws); [done|by apply nonEmpty_valid].
  - apply (@optional_entries_field _ _ (@set_serializable _ _ _ native_serializable) set_laws); [done|by apply nonEmpty_valid].
  - by apply (@optional_entries_field _ _ (@set_serializable _ _ _ bootstrap_serializable) set_laws).
  - apply (@optional_entries_field _ _ (plutusSet V1) (@set_laws _ _ _ _ (plutus_laws V1))); [done|by apply nonEmpty_valid, Hp].
  - by apply (@optional_entries_field _ _ (@set_serializable _ _ _ data_serializable) set_laws).
  - by apply (@optional_entries_field _ _ redeemers_serializable redeemers_laws).
  - apply (@optional_entries_field _ _ (plutusSet V2) (@set_laws _ _ _ _ (plutus_laws V2))); [done|by apply nonEmpty_valid, Hp].
  - apply (@optional_entries_field _ _ (plutusSet V3) (@set_laws _ _ _ _ (plutus_laws V3))); [done|by apply nonEmpty_valid, Hp].
Qed.

Lemma witness_entries_length c : 0 <= zlen (witnessEntries c) <= 8.
Proof. unfold witnessEntries. rewrite !zlen_app, !optional_length. repeat case_match; lia. Qed.

Lemma witness_field c : witnessParts c -> field (witnessBytes c).
Proof. intros Hp. pose proof (witness_entries_length c). apply keyed_field; [lia|by apply witness_entries_field]. Qed.

(** *** Reading *)

Definition signaturesOf (s : option (CborSet.t VkeyWitness.t)) : list VkeyWitness.core :=
  match s with Some s => VkeyWitness.toCore <$> CborSet.values s | None => [] end.

Lemma mapM_Ok {A B} (f : A -> B) (l : list A) (k : list B) : mapM (fun x => Ok (f x) : Res B) l = Ok k -> f <$> l = k.
Proof.
  revert k. induction l as [|x l IH]; intros k; cbn; [by intros [= <-]|]. destruct (mapM _ l) as [k'|e|] eqn:E; cbn; try done.
  intros [= <-]. by rewrite (IH k').
Qed.

Lemma signatures_stand l x : standsForOption (H := @set_serializable _ _ _ vkey_serializable) (nonEmpty l) x -> signaturesOf x = l.
Proof.
  destruct l as [|e l], x as [s|]; try done. intros [Hs _]. by apply (mapM_Ok VkeyWitness.toCore) in Hs.
Qed.

(** The object stands for the witness, field by field. *)
Record witnessIs (c : CoreWitness) (w : TransactionWitnessSet.t) : Prop := {
  is_vkeys : signaturesOf (TransactionWitnessSet.vkeys w) = signatures c;
  is_native : standsForOption (H := @set_serializable _ _ _ native_serializable) (nonEmpty (nativeOf (scriptsOf c))) (TransactionWitnessSet.nativeScripts w);
  is_bootstrap : standsForOption (H := @set_serializable _ _ _ bootstrap_serializable) (bootstrap c) (TransactionWitnessSet.bootstraps w);
  is_v1 : standsForOption (H := plutusSet V1) (nonEmpty (plutusOf V1 (scriptsOf c))) (TransactionWitnessSet.plutusV1Scripts w);
  is_data : standsForOption (H := @set_serializable _ _ _ data_serializable) (datums c) (TransactionWitnessSet.plutusData w);
  is_redeemers : standsForOption (H := redeemers_serializable) (coreRedeemers c) (TransactionWitnessSet.redeemers w);
  is_v2 : standsForOption (H := plutusSet V2) (nonEmpty (plutusOf V2 (scriptsOf c))) (TransactionWitnessSet.plutusV2Scripts w);
  is_v3 : standsForOption (H := plutusSet V3) (nonEmpty (plutusOf V3 (scriptsOf c))) (TransactionWitnessSet.plutusV3Scripts w)
}.

Lemma leads_eq {S} (read : Z -> Dec (S -> S)) es s s1 s2 : leads read es s s1 -> s1 = s2 -> leads read es s s2.
Proof. by intros Hl <-. Qed.

Ltac entry_size key := let E := fresh in intros ? E; eapply (optional_size _ key _ _ _ _ E); [|eassumption];
  intros ? ?; unfold witnessEntries; rewrite !in_app_iff; tauto.

Lemma witness_reads strict c : witnessParts c -> zlen (witnessBytes c) < 2 ^ 53 -> exists w,
  reads (readKeyed (TransactionWitnessSet.readField strict) TransactionWitnessSet.new) (witnessBytes c) w /\ witnessIs c w.
Proof.
  intros [Hs _ Hb _ Hd Hr _ _ Hn Hp] Hz. set (read := TransactionWitnessSet.readField strict).
  destruct (@leads_field _ read _ _ (@set_serializable _ _ _ vkey_serializable) set_laws 0 TransactionWitnessSet.setVkeys eq_refl ltac:(done) (nonEmpty (signatures c)))
    as (x0 & S0 & L0); [by apply nonEmpty_valid|entry_size 0|].
  destruct (@leads_field _ read _ _ (@set_serializable _ _ _ native_serializable) set_laws 1 TransactionWitnessSet.setNativeScripts eq_refl ltac:(done) (nonEmpty (nativeOf (scriptsOf c))))
    as (x1 & S1 & L1); [by apply nonEmpty_valid|entry_size 1|].
  destruct (@leads_field _ read _ _ (@set_serializable _ _ _ bootstrap_serializable) set_laws 2 TransactionWitnessSet.setBootstraps eq_refl ltac:(done) (bootstrap c))
    as (x2 & S2 & L2); [done|entry_size 2|].
  destruct (@leads_field _ read _ _ (plutusSet V1) (@set_laws _ _ _ _ (plutus_laws V1)) 3 TransactionWitnessSet.setPlutusV1Scripts eq_refl ltac:(done)
    (nonEmpty (plutusOf V1 (scriptsOf c)))) as (x3 & S3 & L3); [by apply nonEmpty_valid, Hp|entry_size 3|].
  destruct (@leads_field _ read _ _ (@set_serializable _ _ _ data_serializable) set_laws 4 TransactionWitnessSet.setPlutusData eq_refl ltac:(done) (datums c))
    as (x4 & S4 & L4); [done|entry_size 4|].
  destruct (@leads_field _ read _ _ redeemers_serializable redeemers_laws 5 TransactionWitnessSet.setRedeemers eq_refl ltac:(done) (coreRedeemers c))
    as (x5 & S5 & L5); [done|entry_size 5|].
  destruct (@leads_field _ read _ _ (plutusSet V2) (@set_laws _ _ _ _ (plutus_laws V2)) 6 TransactionWitnessSet.setPlutusV2Scripts eq_refl ltac:(done)
    (nonEmpty (plutusOf V2 (scriptsOf c)))) as (x6 & S6 & L6); [by apply nonEmpty_valid, Hp|entry_size 6|].
  destruct (@leads_field _ read _ _ (plutusSet V3) (@set_laws _ _ _ _ (plutus_laws V3)) 7 TransactionWitnessSet.setPlutusV3Scripts eq_refl ltac:(done)
    (nonEmpty (plutusOf V3 (scriptsOf c)))) as (x7 & S7 & L7); [by apply nonEmpty_valid, Hp|entry_size 7|].
  exists (TransactionWitnessSet.Build_t x0 x1 x2 x3 x4 x5 x6 x7 None). split; [|split; [by apply signatures_stand|done..]].
  pose proof (witness_entries_length c). apply keyed_leads; [|lia]. unfold witnessEntries.
  apply (leads_app _ _ _ _ (TransactionWitnessSet.Build_t x0 None None None None None None None None)); [eapply leads_eq; [apply L0|by destruct x0]|].
  apply (leads_app _ _ _ _ (TransactionWitnessSet.Build_t x0 x1 None None None None None None None)); [eapply leads_eq; [apply L1|by destruct x1]|].
  apply (leads_app _ _ _ _ (TransactionWitnessSet.Build_t x0 x1 x2 None None None None None None)); [eapply leads_eq; [apply L2|by destruct x2]|].
  apply (leads_app _ _ _ _ (TransactionWitnessSet.Build_t x0 x1 x2 x3 None None None None None)); [eapply leads_eq; [apply L3|by destruct x3]|].
  apply (leads_app _ _ _ _ (TransactionWitnessSet.Build_t x0 x1 x2 x3 x4 None None None None)); [eapply leads_eq; [apply L4|by destruct x4]|].
  apply (leads_app _ _ _ _ (TransactionWitnessSet.Build_t x0 x1 x2 x3 x4 x5 None None None)); [eapply leads_eq; [apply L5|by destruct x5]|].
  apply (leads_app _ _ _ _ (TransactionWitnessSet.Build_t x0 x1 x2 x3 x4 x5 x6 None None)); [eapply leads_eq; [apply L6|by destruct x6]|].
  eapply leads_eq; [apply L7|by destruct x7].
Qed.

(** *** Core values *)

Lemma mapM_length {A B} (f : A -> Res B) l k : mapM f l = Ok k -> length k = length l.
Proof.
  revert k. induction l as [|x l IH]; intros k; cbn; [by intros [= <-]|]. destruct (f x) as [y|e|]; cbn; try done.
  destruct (mapM f l) as [k'|e|] eqn:E; cbn; try done. intros [= <-]. cbn. by rewrite (IH k').
Qed.

Lemma sized_stands {C T} `{Serializable C T} (o : option (list C)) (x : option (CborSet.t T)) :
  standsForOption (T := CborSet.t T) o x -> o <> Some [] -> TransactionWitnessSet.sized x = x.
Proof.
  destruct o as [[|c l]|], x as [s|]; try done. intros [Hs _] _. apply mapM_length in Hs. unfold TransactionWitnessSet.sized, CborSet.size, zlen.
  by rewrite <- Hs.
Qed.

Lemma redeemers_sized o x : standsForOption (H := redeemers_serializable) o x -> o <> Some [] -> TransactionWitnessSet.sizedRedeemers x = x.
Proof.
  destruct o as [[|c l]|], x as [s|]; try done. intros [Hs _] _. apply mapM_length in Hs. unfold TransactionWitnessSet.sizedRedeemers, Redeemers.size, zlen.
  by rewrite <- Hs.
Qed.

Lemma nonEmpty_some {A} (l : list A) : nonEmpty l <> Some [].
Proof. by destruct l. Qed.

Lemma scripts_stand v l x : standsForOption (H := plutusSet v) (nonEmpty l) x -> TransactionWitnessSet.scriptsToCore v x = CorePlutus <$> l.
Proof.
  destruct l as [|e l], x as [s|]; try done. intros [Hs _]. apply (mapM_Ok (PlutusScript.toCore v)) in Hs. cbn [TransactionWitnessSet.scriptsToCore].
  by rewrite <- Hs, <- list_fmap_compose.
Qed.

Lemma native_stand l x : standsForOption (H := @set_serializable _ _ _ native_serializable) (nonEmpty l) x ->
  match x with Some s => (fun n => CoreNative (NativeScript.toCore n)) <$> CborSet.values s | None => [] end = CoreNative <$> l.
Proof.
  destruct l as [|e l], x as [s|]; try done. intros [Hs _]. apply (mapM_Ok NativeScript.toCore) in Hs. by rewrite <- Hs, <- list_fmap_compose.
Qed.

Lemma bootstrap_stand o x : standsForOption (H := @set_serializable _ _ _ bootstrap_serializable) o x ->
  (fun s => BootstrapWitness.toCore <$> CborSet.values s) <$> x = o.
Proof. destruct o as [l|], x as [s|]; try done. intros [Hs _]. apply (mapM_Ok BootstrapWitness.toCore) in Hs. cbn. by rewrite Hs. Qed.

Lemma optional_stand {C T} `{Serializable C T} o x : standsForOption o x -> TransactionWitnessSet.optionalCore toCore_of x = Ok o.
Proof. destruct o as [c|], x as [v|]; try done. intros [Hs _]. cbn. by rewrite Hs. Qed.

Lemma witness_toCore c w : witnessParts c -> witnessIs c w -> TransactionWitnessSet.toCore w = Ok c.
Proof.
  intros [_ Hk _ _ _ _ (_ & _ & Hr & Hs) Ho _ _] [Hv Hn Hb G1 Hd Hre G2 G3]. unfold TransactionWitnessSet.toCore, TransactionWitnessSet.getCoreScripts.
  rewrite (scripts_stand V1 _ _ G1), (scripts_stand V2 _ _ G2), (scripts_stand V3 _ _ G3), (native_stand _ _ Hn), (bootstrap_stand _ _ Hb).
  change (CborSet.toCore PlutusData.toCore) with (@toCore_of _ _ (@set_serializable _ _ _ data_serializable)).
  change Redeemers.toCore with (@toCore_of _ _ redeemers_serializable). rewrite (optional_stand _ _ Hd).
  rewrite (redeemers_sized _ _ Hre Hr), (optional_stand _ _ Hre). cbn [mbind outcome_bind]. fold (grouped (scriptsOf c)). rewrite Ho.
  assert (Es : (if 0 <? zlen (scriptsOf c) then Some (scriptsOf c) else None) = coreScripts c).
  { unfold scriptsOf. by destruct (coreScripts c) as [[|s l]|]. }
  rewrite Es. assert (Ev : match TransactionWitnessSet.vkeys w with Some s => JsMap.of_entries (VkeyWitness.toCore <$> CborSet.values s) | None => [] end = signatures c).
  { unfold signaturesOf in Hv. destruct (TransactionWitnessSet.vkeys w); [|done]. rewrite Hv. by apply JsMapFacts.of_entries_nodup. }
  rewrite Ev. by destruct c.
Qed.

(** *** Writing *)

(** The sets of signatures as [fromCore] makes them: no blob is remembered. *)
Definition freshSet {C T} `{Serializable C T} (o : option (list C)) (x : option (CborSet.t T)) : Prop :=
  match o, x with Some l, Some s => exists os, s = CborSet.new os /\ Forall2 standsFor l os | None, None => True | _, _ => False end.

Record witnessFresh (c : CoreWitness) (w : TransactionWitnessSet.t) : Prop := {
  fresh_is : witnessIs c w;
  fresh_vkeys : TransactionWitnessSet.vkeys w = Some (CborSet.new (VkeyWitness.fromCore <$> signatures c));
  fresh_bootstrap : @freshSet _ _ bootstrap_serializable (bootstrap c) (TransactionWitnessSet.bootstraps w);
  fresh_bytes : TransactionWitnessSet.originalBytes w = None
}.

Lemma fresh_stands {C T} `{SerializableLaws C T} o x : validOption (T := CborSet.t T) o = true -> freshSet o x -> standsForOption (T := CborSet.t T) o x.
Proof.
  destruct o as [l|], x as [s|]; try done. intros Hl (os & -> & Hos). split; [by apply list_toCore|by apply set_emits].
Qed.

Lemma vkeys_stand l : Forall (fun k => isVkey k = true) l -> Forall2 standsFor l (VkeyWitness.fromCore <$> l).
Proof.
  induction 1 as [|k l Hk _ IH]; [constructor|]. cbn. constructor; [|done].
  by destruct (@fromCore_standsFor _ _ vkey_serializable vkey_laws k Hk) as (o & [= <-] & Ho).
Qed.

Lemma vkeys_emits c w : witnessParts c -> witnessFresh c w ->
  emits (writeOptional 0 (fun s => TransactionWitnessSet.writeSet VkeyWitness.toCbor (TransactionWitnessSet.uniqVkeys s)) (TransactionWitnessSet.sized (TransactionWitnessSet.vkeys w)))
    (entriesBytes (optionalEntry 0 setBytes (nonEmpty (signatures c)))).
Proof.
  intros [Hs Hk _ _ _ _ _ _ _ _] [_ -> _ _]. destruct (validList_spec _ Hs) as [_ Hf]. pose proof (vkeys_stand _ Hf) as Hst.
  destruct (signatures c) as [|k l] eqn:El; [apply emits_ret|]. rewrite <- El in *. assert (En : nonEmpty (signatures c) = Some (signatures c)) by by rewrite El.
  assert (Ez : TransactionWitnessSet.sized (Some (CborSet.new (VkeyWitness.fromCore <$> signatures c))) = Some (CborSet.new (VkeyWitness.fromCore <$> signatures c))) by by rewrite El.
  rewrite En, Ez. apply emits_key; [done|]. destruct (set_field _ Hs) as [_ Hb]. apply emits_encoded; [done|].
  unfold TransactionWitnessSet.uniqVkeys, CborSet.setValues. cbn [CborSet.values CborSet.new]. rewrite (uniqWith_keys VkeyWitness.vkey).
  - exact (@set_emits _ _ _ vkey_serializable vkey_laws _ _ Hs Hst).
  - by rewrite <- list_fmap_compose.
Qed.

Lemma bootstrap_keys l os : Forall (fun b => isBootstrap b = true) l -> Forall2 standsFor l os -> BootstrapWitness.vkey <$> os = BootstrapWitness.key <$> l.
Proof. intros _. induction 1 as [|b o l os [[= <-] _] _ IH]; [done|]. cbn in *. by rewrite IH. Qed.

Lemma bootstraps_emits c w : witnessParts c -> witnessFresh c w ->
  emits (writeOptional 2 (fun s => TransactionWitnessSet.writeSet BootstrapWitness.toCbor (TransactionWitnessSet.uniqBootstraps s)) (TransactionWitnessSet.sized (TransactionWitnessSet.bootstraps w)))
    (entriesBytes (optionalEntry 2 setBytes (bootstrap c))).
Proof.
  intros [_ _ Hb Hbk _ _ (Hne & _) _ _ _] [[_ _ Hst _ _ _ _ _] _ Hf _]. rewrite (sized_stands _ _ Hst Hne).
  destruct (bootstrap c) as [l|], (TransactionWitnessSet.bootstraps w) as [s|]; try done; [|apply emits_ret]. destruct Hf as (os & -> & Hos).
  destruct (validList_spec _ Hb) as [_ Hl]. apply emits_key; [done|]. destruct (set_field _ Hb) as [_ Hby]. apply emits_encoded; [done|].
  unfold TransactionWitnessSet.uniqBootstraps, CborSet.setValues. cbn [CborSet.values CborSet.new]. rewrite (uniqWith_keys BootstrapWitness.vkey).
  - exact (@set_emits _ _ _ bootstrap_serializable bootstrap_laws _ _ Hb Hos).
  - by rewrite (bootstrap_keys l os).
Qed.

Lemma count_stands {C T} `{Serializable C T} key (f : C -> list Z) (o : option C) (x : option T) : standsForOption o x ->
  TransactionWitnessSet.count x = zlen (optionalEntry key f o).
Proof. rewrite optional_length. by destruct o, x. Qed.

Lemma witness_size c w : witnessParts c -> witnessFresh c w -> TransactionWitnessSet.getMapSize w = zlen (witnessEntries c).
Proof.
  intros [_ _ _ _ _ _ (Nb & Nd & Nr & _) _ _ _] [[_ Sn Sb S1 Sd Sr S2 S3] Ev _ _]. unfold TransactionWitnessSet.getMapSize, witnessEntries. rewrite !zlen_app.
  rewrite (sized_stands _ _ Sn (nonEmpty_some _)), (sized_stands _ _ Sb Nb), (sized_stands _ _ S1 (nonEmpty_some _)), (sized_stands _ _ Sd Nd),
    (redeemers_sized _ _ Sr Nr), (sized_stands _ _ S2 (nonEmpty_some _)), (sized_stands _ _ S3 (nonEmpty_some _)).
  rewrite (count_stands 1 setBytes _ _ Sn), (count_stands 2 setBytes _ _ Sb), (count_stands 3 (@setBytes _ _ _ (plutus_serializable V1)) _ _ S1),
    (count_stands 4 setBytes _ _ Sd), (count_stands 5 redeemersBytes _ _ Sr), (count_stands 6 (@setBytes _ _ _ (plutus_serializable V2)) _ _ S2),
    (count_stands 7 (@setBytes _ _ _ (plutus_serializable V3)) _ _ S3).
  assert (E0 : TransactionWitnessSet.count (TransactionWitnessSet.sized (TransactionWitnessSet.vkeys w)) = zlen (optionalEntry 0 setBytes (nonEmpty (signatures c)))).
  { rewrite Ev, optional_length. by destruct (signatures c). }
  rewrite E0. lia.
Qed.

Lemma witness_toCbor c w : witnessParts c -> witnessFresh c w -> TransactionWitnessSet.toCbor w = Ok (Buffer_to_hex (witnessBytes c)).
Proof.
  intros Hp Hf. pose proof (witness_entries_length c). unfold TransactionWitnessSet.toCbor, cached, remembered. rewrite (fresh_bytes _ _ Hf). apply encode_emits.
  rewrite (witness_size c w Hp Hf). apply keyed_emits; [done|lia|]. unfold witnessEntries.
  pose proof (vkeys_emits c w Hp Hf) as E0. pose proof (bootstraps_emits c w Hp Hf) as E2.
  destruct Hf as [[_ Sn Sb S1 Sd Sr S2 S3] _ _ _], Hp as [_ _ _ _ Hd Hr (_ & Nd & Nr & _) _ Hn Hv].
  apply fields_emits; [exact E0|]. rewrite (sized_stands _ _ Sn (nonEmpty_some _)), (sized_stands _ _ S1 (nonEmpty_some _)), (sized_stands _ _ Sd Nd),
    (redeemers_sized _ _ Sr Nr), (sized_stands _ _ S2 (nonEmpty_some _)), (sized_stands _ _ S3 (nonEmpty_some _)).
  apply fields_emits; [apply (@field_emits _ _ (@set_serializable _ _ _ native_serializable) set_laws); [done|by apply nonEmpty_valid|done]|].
  apply fields_emits; [exact E2|].
  apply fields_emits; [apply (@field_emits _ _ (plutusSet V1) (@set_laws _ _ _ _ (plutus_laws V1))); [done|by apply nonEmpty_valid, Hv|done]|].
  apply fields_emits; [by apply (@field_emits _ _ (@set_serializable _ _ _ data_serializable) set_laws)|].
  apply fields_emits; [by apply (@field_emits _ _ redeemers_serializable redeemers_laws)|].
  apply fields_emits; [apply (@field_emits _ _ (plutusSet V2) (@set_laws _ _ _ _ (plutus_laws V2))); [done|by apply nonEmpty_valid, Hv|done]|].
  apply (@field_emits _ _ (plutusSet V3) (@set_laws _ _ _ _ (plutus_laws V3))); [done|by apply nonEmpty_valid, Hv|done].
Qed.

(** *** From core values *)

Lemma groupScripts_spec l g : Forall (fun s => match s with CorePlutus p => version p <> V4 | CoreNative _ => True end) l ->
  TransactionWitnessSet.groupScripts l g = Ok {|
    TransactionWitnessSet.native := TransactionWitnessSet.native g ++ nativeOf l;
    TransactionWitnessSet.plutusV1 := TransactionWitnessSet.plutusV1 g ++ plutusOf V1 l;
    TransactionWitnessSet.plutusV2 := TransactionWitnessSet.plutusV2 g ++ plutusOf V2 l;
    TransactionWitnessSet.plutusV3 := TransactionWitnessSet.plutusV3 g ++ plutusOf V3 l |}.
Proof.
  intros Hl. revert g. induction Hl as [|[n|p] l Hs _ IH]; intros g; cbn [TransactionWitnessSet.groupScripts].
  - cbn. rewrite !app_nil_r. by destruct g.
  - rewrite IH. unfold nativeOf, plutusOf. cbn. by rewrite <- app_assoc.
  - destruct p as [b v]. cbn in Hs. destruct v; try done; cbn [version]; rewrite IH; unfold nativeOf, plutusOf; cbn; by rewrite <- app_assoc.
Qed.

Lemma grouped_versions l : Forall (fun s => match s with CorePlutus p => version p <> V4 | CoreNative _ => True end) (grouped l).
Proof.
  unfold grouped. assert (Hv : forall v, v <> V4 -> Forall (fun s => match s with CorePlutus p => version p <> V4 | CoreNative _ => True end) (CorePlutus <$> plutusOf v l)).
  { intros v Hv. apply Forall_fmap. eapply Forall_impl; [apply plutusOf_version|]. intros p Hp. cbn. congruence. }
  repeat (apply Forall_app; split); try by apply Hv. apply Forall_fmap. induction (nativeOf l); constructor; done.
Qed.

Lemma setGroup_stands {C T} `{SerializableLaws C T} (set : TransactionWitnessSet.t -> CborSet.t T -> TransactionWitnessSet.t) l : validList l = true ->
  exists x, standsForOption (T := CborSet.t T) (nonEmpty l) x /\ forall w,
    TransactionWitnessSet.setGroup fromCore_of set l w = Ok match x with Some s => set w s | None => w end.
Proof.
  intros Hl. destruct l as [|c l]; [by exists None|]. destruct (@fromCore_standsFor _ _ set_serializable set_laws _ Hl) as (s & Es & Hs).
  exists (Some s). split; [exact Hs|]. intros w. cbn [TransactionWitnessSet.setGroup nonEmpty]. change (CborSet.fromCore fromCore_of (c :: l) = Ok s) in Es. by rewrite Es.
Qed.

Lemma setOptional_stands {C T} `{SerializableLaws C T} (set : TransactionWitnessSet.t -> T -> TransactionWitnessSet.t) o : validOption o = true ->
  exists x, standsForOption o x /\ forall w, TransactionWitnessSet.setOptional fromCore_of set o w = Ok match x with Some s => set w s | None => w end.
Proof.
  destruct o as [c|]; intros Ho; [|by exists None]. destruct (fromCore_standsFor c Ho) as (v & Ev & Hv). exists (Some v). split; [exact Hv|].
  intros w. cbn. by rewrite Ev.
Qed.

Lemma setFresh {C T} `{SerializableLaws C T} (set : TransactionWitnessSet.t -> CborSet.t T -> TransactionWitnessSet.t) o : validOption (T := CborSet.t T) o = true ->
  exists x, freshSet o x /\ forall w, TransactionWitnessSet.setOptional (CborSet.fromCore fromCore_of) set o w = Ok match x with Some s => set w s | None => w end.
Proof.
  destruct o as [l|]; intros Ho; [|by exists None]. destruct (list_fromCore l Ho) as (os & Eo & Hos). exists (Some (CborSet.new os)).
  split; [by exists os|]. intros w. cbn. unfold CborSet.fromCore. by rewrite Eo.
Qed.

Lemma setScripts_stands c : witnessParts c -> exists xn x1 x2 x3,
  standsForOption (H := @set_serializable _ _ _ native_serializable) (nonEmpty (nativeOf (scriptsOf c))) xn /\
  standsForOption (H := plutusSet V1) (nonEmpty (plutusOf V1 (scriptsOf c))) x1 /\
  standsForOption (H := plutusSet V2) (nonEmpty (plutusOf V2 (scriptsOf c))) x2 /\
  standsForOption (H := plutusSet V3) (nonEmpty (plutusOf V3 (scriptsOf c))) x3 /\
  forall v, TransactionWitnessSet.setScripts (coreScripts c) (TransactionWitnessSet.Build_t v None None None None None None None None) =
    Ok (TransactionWitnessSet.Build_t v xn None x1 None None x2 x3 None).
Proof.
  intros [_ _ _ _ _ _ _ Ho Hn Hp].
  destruct (@setGroup_stands _ _ native_serializable native_laws TransactionWitnessSet.setNativeScripts _ Hn) as (xn & Sn & En).
  destruct (@setGroup_stands _ _ (plutus_serializable V1) (plutus_laws V1) TransactionWitnessSet.setPlutusV1Scripts _ (Hp V1 ltac:(done))) as (x1 & S1 & E1).
  destruct (@setGroup_stands _ _ (plutus_serializable V2) (plutus_laws V2) TransactionWitnessSet.setPlutusV2Scripts _ (Hp V2 ltac:(done))) as (x2 & S2 & E2).
  destruct (@setGroup_stands _ _ (plutus_serializable V3) (plutus_laws V3) TransactionWitnessSet.setPlutusV3Scripts _ (Hp V3 ltac:(done))) as (x3 & S3 & E3).
  exists xn, x1, x2, x3. split_and!; [done..|]. intros v. unfold scriptsOf in *. destruct (coreScripts c) as [l|].
  - cbn [TransactionWitnessSet.setScripts default from_option id] in *. rewrite groupScripts_spec by (rewrite <- Ho; apply grouped_versions).
    cbn [mbind outcome_bind TransactionWitnessSet.native TransactionWitnessSet.plutusV1 TransactionWitnessSet.plutusV2 TransactionWitnessSet.plutusV3
      TransactionWitnessSet.noScripts app].
    etrans; [apply (f_equal (fun o => w ← o; _) (En _))|]. cbn [mbind outcome_bind].
    etrans; [apply (f_equal (fun o => w ← o; _) (E1 _))|]. cbn [mbind outcome_bind].
    etrans; [apply (f_equal (fun o => w ← o; _) (E2 _))|]. cbn [mbind outcome_bind].
    etrans; [apply E3|]. by destruct xn, x1, x2, x3.
  - by destruct xn, x1, x2, x3.
Qed.

Lemma witness_fromCore c : witnessParts c -> exists w, TransactionWitnessSet.fromCore c = Ok w /\ witnessFresh c w.
Proof.
  intros Hp. destruct (setScripts_stands c Hp) as (xn & x1 & x2 & x3 & Sn & S1 & S2 & S3 & Es). destruct Hp as [_ _ Hb _ Hd Hr _ _ _ _].
  destruct (@setOptional_stands _ _ redeemers_serializable redeemers_laws TransactionWitnessSet.setRedeemers _ Hr) as (xr & Sr & Er).
  destruct (@setOptional_stands _ _ (@set_serializable _ _ _ data_serializable) set_laws TransactionWitnessSet.setPlutusData _ Hd) as (xd & Sd & Ed).
  destruct (@setFresh _ _ bootstrap_serializable bootstrap_laws TransactionWitnessSet.setBootstraps _ Hb) as (xb & Fb & Eb).
  pose proof (@fresh_stands _ _ bootstrap_serializable bootstrap_laws _ _ Hb Fb) as Sb.
  exists (TransactionWitnessSet.Build_t (Some (CborSet.new (VkeyWitness.fromCore <$> signatures c))) xn xb x1 xd xr x2 x3 None). split.
  - unfold TransactionWitnessSet.fromCore. cbv zeta. etrans; [apply (f_equal (fun o => w ← o; _) (Es _))|]. cbn [mbind outcome_bind].
    etrans; [apply (f_equal (fun o => w ← o; _) (Er _))|]. cbn [mbind outcome_bind].
    etrans; [apply (f_equal (fun o => w ← o; _) (Ed _))|]. cbn [mbind outcome_bind].
    etrans; [apply Eb|]. by destruct xb, xd, xr.
  - split; [|done..]. split; try done. cbn. rewrite <- list_fmap_compose. clear. induction (signatures c) as [|[k s] l IH]; [done|]. cbn in *. by rewrite IH.
Qed.

Lemma witness_accepts strict : accepts (TransactionWitnessSet.fromCborWith strict) (fun _ => True).
Proof.
  apply accepts_decode. intros cbor. eapply (sound_bind _ _ (fun _ => True)); [|intros; by apply sound_ret]. apply sound_keyed; [|done].
  intros key. unfold TransactionWitnessSet.readField.
  assert (Hset : forall A (C : Type) (HS : Serializable C A) (HL : SerializableLaws C A) (k : CborSet.t A -> TransactionWitnessSet.t -> TransactionWitnessSet.t),
    sound (s ← readNested (CborSet.fromCbor fromCbor_of); mret (k s)) (fun f => forall _ : TransactionWitnessSet.t, True -> True)).
  { intros A C HS HL k. eapply sound_bind; [apply (@nested_sound _ _ set_serializable set_laws)|]. intros s _. by apply sound_ret. }
  repeat case_bool.
  - exact (Hset _ _ vkey_serializable vkey_laws (fun s w => TransactionWitnessSet.setVkeys w s)).
  - exact (Hset _ _ native_serializable native_laws (fun s w => TransactionWitnessSet.setNativeScripts w s)).
  - exact (Hset _ _ bootstrap_serializable bootstrap_laws (fun s w => TransactionWitnessSet.setBootstraps w s)).
  - exact (Hset _ _ (plutus_serializable V1) (plutus_laws V1) (fun s w => TransactionWitnessSet.setPlutusV1Scripts w s)).
  - exact (Hset _ _ data_serializable data_laws (fun s w => TransactionWitnessSet.setPlutusData w s)).
  - eapply sound_bind; [apply (@nested_sound _ _ redeemers_serializable redeemers_laws)|]. intros s _. by apply sound_ret.
  - exact (Hset _ _ (plutus_serializable V2) (plutus_laws V2) (fun s w => TransactionWitnessSet.setPlutusV2Scripts w s)).
  - exact (Hset _ _ (plutus_serializable V3) (plutus_laws V3) (fun s w => TransactionWitnessSet.setPlutusV3Scripts w s)).
  - apply sound_throw.
  - eapply sound_bind; [apply sound_skip|]. intros _ _. by apply sound_ret.
Qed.

Lemma witness_fromCbor strict c : witnessParts c -> zlen (witnessBytes c) < 2 ^ 53 -> exists w,
  TransactionWitnessSet.fromCborWith strict (Buffer_to_hex (witnessBytes c)) = Ok w /\ witnessIs c w /\
  TransactionWitnessSet.originalBytes w = Some (Buffer_to_hex (witnessBytes c)).
Proof.
  intros Hp Hz. destruct (witness_field c Hp) as [Hi Hb]. destruct (witness_reads strict c Hp Hz) as (w & Hr & Hw).
  exists (TransactionWitnessSet.remember w (Buffer_to_hex (witnessBytes c))). split; [|split; [by destruct Hw|done]].
  apply decode_reads; [|done..]. by eapply reads_last.
Qed.

#[export] Instance witness_laws : SerializableLaws CoreWitness TransactionWitnessSet.t.
Proof.
  split; cbn [bytesOf validCore fromCore_of fromCbor_of witness_serializable].
  - intros c Hp%witness_parts. by apply witness_field.
  - intros c Hp%witness_parts. pose proof (witness_entries_length c). apply (starts_not_null Map); [done|]. apply keyed_starts. lia.
  - intros c Hp%witness_parts. destruct (witness_fromCore c Hp) as (w & E & Hw). exists w. split; [done|].
    split; [apply witness_toCore; [done|by apply Hw]|by apply witness_toCbor].
  - intros c Hp%witness_parts Hz. destruct (witness_fromCbor false c Hp Hz) as (w & E & Hw & Ho). exists w. split; [done|].
    split; [by apply witness_toCore|]. destruct (witness_field c Hp). cbn. unfold TransactionWitnessSet.toCbor. rewrite Ho. by apply cached_some.
  - eapply accepts_weaken; [apply witness_accepts|]. done.
Qed.
End witnessSet.

(** ** Witness sets: the properties
    The round trip of the witnesses of a transaction in both eras, and their
    decoder on any blob. *)

(** A reference implementation of lodash's function: an element is kept unless
    it equals one that was kept before. *)
Fixpoint uniqWithRef {A} (eq : A -> A -> bool) (seen l : list A) : list A :=
  match l with
  | [] => []
  | x :: l => if existsb (eq x) seen then uniqWithRef eq seen l else x :: uniqWithRef eq (x :: seen) l
  end.

Definition uniqWith_ref : UniqWith := fun A eq l => uniqWithRef eq [] l.

(** The law compares elements in both directions. *)
Lemma uniqWithRef_distinct {A} (eq : A -> A -> bool) l seen :
  (forall i x y, l !! i = Some x -> y ∈ seen -> eq x y = false) ->
  (forall i j x y, i <> j -> l !! i = Some x -> l !! j = Some y -> eq x y = false) -> uniqWithRef eq seen l = l.
Proof.
  revert seen. induction l as [|x l IH]; intros seen Hs Hl; [done|]. cbn.
  assert (E : existsb (eq x) seen = false).
  { apply not_true_is_false. intros (y & Hy & E)%existsb_exists. rewrite (Hs 0%nat x y eq_refl) in E by by apply list_elem_of_In. done. }
  rewrite E. f_equal. apply IH.
  - intros i y z Hi [->|Hz]%elem_of_cons; [by apply (Hl (S i) 0%nat y x)|by apply (Hs (S i) y z)].
  - intros i j y z Hij. apply (Hl (S i) (S j)). congruence.
Qed.

Lemma uniqWith_ref_laws : @UniqWithLaws uniqWith_ref.
Proof. split. intros A eq l Hl. apply uniqWithRef_distinct; [by intros i x y _ Hy%elem_of_nil|done]. Qed.

Lemma witness_empty strict w : TransactionWitnessSet.fromCborWith strict "" = Ok w -> False.
Proof. assert (exists e, TransactionWitnessSet.fromCborWith strict "" = Throw e) as [e ->] by (eexists; destruct strict; vm_compute; reflexivity). done. Qed.

Lemma witness_remembers strict cbor w : TransactionWitnessSet.fromCborWith strict cbor = Ok w ->
  TransactionWitnessSet.originalBytes w = Some cbor.
Proof.
  unfold TransactionWitnessSet.fromCborWith, decode. unfold mbind, ST_bind. destruct (readKeyed _ _ _) as [[x|e|] r]; [|done..]. by intros [= <-].
Qed.

(** C7. Witness sets survive serialization, in the array encoding of redeemers
    of the Babbage era and in the map of the Conway era: a witness (signatures
    of distinct keys, scripts in the order of the fields, no empty lists,
    redeemers with distinct pointers in Conway) is converted to an object that
    is written as the ledger's CDDL specifies, and the bytes are read back, by
    the strict and the lenient decoder, to an object that stands for the same
    witness and is written as the same bytes. *)
Theorem witness_round_trip `{Era} `{UniqWithLaws} strict c : isWitness c = true -> zlen (witnessBytes c) < 2 ^ 53 ->
  (exists w, TransactionWitnessSet.fromCore c = Ok w /\ TransactionWitnessSet.toCore w = Ok c /\
    TransactionWitnessSet.toCbor w = Ok (Buffer_to_hex (witnessBytes c))) /\
  (exists w, TransactionWitnessSet.fromCborWith strict (Buffer_to_hex (witnessBytes c)) = Ok w /\ TransactionWitnessSet.toCore w = Ok c /\
    TransactionWitnessSet.toCbor w = Ok (Buffer_to_hex (witnessBytes c))).
Proof.
  intros Hp%witness_parts Hz. split.
  - destruct (witness_fromCore c Hp) as (w & E & Hw). exists w. split_and!; [done|apply witness_toCore; [done|by apply Hw]|by apply witness_toCbor].
  - destruct (witness_fromCbor strict c Hp Hz) as (w & E & Hw & Ho). exists w. split_and!; [done|by apply witness_toCore|].
    destruct (witness_field c Hp). unfold TransactionWitnessSet.toCbor. rewrite Ho. by apply cached_some.
Qed.

(** The decoder of witness sets on any blob, strict or not: it ends with a
    witness set or an error, and encoding the result gives the blob back,
    whatever the order and the number of its fields. *)
Theorem witness_decode_total `{Era} `{UniqWith} strict cbor : zlen (Buffer_from_hex cbor) < 2 ^ 53 ->
  TransactionWitnessSet.fromCborWith strict cbor <> OutOfFuel /\
  forall w, TransactionWitnessSet.fromCborWith strict cbor = Ok w -> TransactionWitnessSet.toCbor w = Ok cbor.
Proof.
  intros Hz. destruct (witness_accepts strict cbor Hz) as [Hf _]. split; [done|]. intros w E.
  unfold TransactionWitnessSet.toCbor. rewrite (witness_remembers _ _ _ E). unfold cached, remembered.
  destruct (String.eqb_spec cbor "") as [->|]; [by apply witness_empty in E|done].
Qed.

(** *** A witness with every kind of part *)

Definition zeroHex (n : nat) : string := Buffer_to_hex (repeat 0 n).

Definition demo_units : ExUnits.core := {| ExUnits.memory := 14; ExUnits.coreSteps := 2 |}.

Definition demo_witness : CoreWitness := {|
  coreRedeemers := Some [Redeemer.Core 0 spend (CoreBigInt 5) demo_units; Redeemer.Core 1 mint (CoreBigInt 6) demo_units];
  signatures := [(zeroHex 32, zeroHex 64)];
  coreScripts := None;
  bootstrap := None;
  datums := Some [CoreBigInt 7]
|}.

Lemma witness_round_trip_witness : exists w,
  TransactionWitnessSet.fromCborWith true (Buffer_to_hex (@witnessBytes true demo_witness)) = Ok w /\
  TransactionWitnessSet.toCore w = Ok demo_witness.
Proof.
  destruct (@witness_round_trip true uniqWith_ref uniqWith_ref_laws true demo_witness) as [_ (w & E & Ec & _)];
    [vm_compute; reflexivity|vm_compute; reflexivity|]. exists w. split; [exact E|exact Ec].
Defined.

Lemma witness_decode_total_witness : TransactionWitnessSet.fromCborWith false "a0" <> OutOfFuel.
Proof. apply (@witness_decode_total true uniqWith_ref false "a0"). vm_compute. reflexivity. Defined.
