(* ===== verification/Metadata.v ===== *)
(** * Transaction metadata
    Models [packages/core/src/Serialization/AuxiliaryData/TransactionMetadata]:
    the classes [TransactionMetadatum], [MetadatumList], [MetadatumMap] and
    [GeneralTransactionMetadata], and the core types of
    [packages/core/src/Cardano/types/AuxiliaryData.ts].

    As with Plutus data, [#kind] says which payload an instance has, so the class
    is an inductive type, with one more case: a tag that is no bignum is decoded
    to the default kind, a map, without a map.  The keys of a [MetadatumMap] are
    objects compared by identity; those made by [fromCbor] and [fromCore] are
    new, so [insert] appends. *)
From S2P Require Import Prelude JsRuntime Utf8 CborCommon CborWriter CborReader Codec PlutusData Records.

Inductive TransactionMetadatum : Set :=
  | MetadatumMap (useIndefiniteEncoding : bool) (map : list (TransactionMetadatum * TransactionMetadatum)) (originalBytes : option HexBlob)
  | MetadatumList (useIndefiniteEncoding : bool) (array : list TransactionMetadatum) (originalBytes : option HexBlob)
  | MetadatumInteger (integer : Z) (originalBytes : option HexBlob)
  | MetadatumBytes (bytes : list Z) (originalBytes : option HexBlob)
  | MetadatumText (text : list Z) (originalBytes : option HexBlob)
  | MetadatumUnset (originalBytes : option HexBlob).

(** [Cardano.Metadatum]: a bigint, a string, a [Uint8Array], an array, a [Map],
    and what [typeof] tells apart beyond them. *)
Inductive Metadatum : Set :=
  | BigIntMetadatum (value : Z)
  | StringMetadatum (value : list Z)
  | Uint8ArrayMetadatum (value : list Z)
  | ArrayMetadatum (items : list Metadatum)
  | MapMetadatum (entries : list (Metadatum * Metadatum))
  | OtherMetadatum.

Definition metadatumBytes (d : TransactionMetadatum) : option HexBlob :=
  match d with
  | MetadatumMap _ _ o | MetadatumList _ _ o | MetadatumInteger _ o | MetadatumBytes _ o | MetadatumText _ o | MetadatumUnset o => o
  end.

Definition setMetadatumBytes (d : TransactionMetadatum) (cbor : HexBlob) : TransactionMetadatum :=
  match d with
  | MetadatumMap b m _ => MetadatumMap b m (Some cbor)
  | MetadatumList b l _ => MetadatumList b l (Some cbor)
  | MetadatumInteger z _ => MetadatumInteger z (Some cbor)
  | MetadatumBytes l _ => MetadatumBytes l (Some cbor)
  | MetadatumText s _ => MetadatumText s (Some cbor)
  | MetadatumUnset _ => MetadatumUnset (Some cbor)
  end.

Definition newMetadatumMap (m : list (TransactionMetadatum * TransactionMetadatum)) : TransactionMetadatum := MetadatumMap false m None.
Definition newMetadatumList (l : list TransactionMetadatum) : TransactionMetadatum := MetadatumList false l None.
Definition newMetadatumInteger (z : Z) : TransactionMetadatum := MetadatumInteger z None.
Definition newMetadatumBytes (l : list Z) : TransactionMetadatum := MetadatumBytes l None.
Definition newMetadatumText (s : list Z) : TransactionMetadatum := MetadatumText s None.

(** ** The limit of 64 bytes *)

(** Text and bytes in a template string; text is shown in UTF-8. *)
Definition textString (s : list Z) : string := String.string_of_list_ascii ((fun b => Ascii.ascii_of_N (Z.to_N b)) <$> utf8_encode s).

Fixpoint bytesString (l : list Z) : string :=
  match l with
  | [] => ""
  | [b] => pretty b
  | b :: l => pretty b +:+ "," +:+ bytesString l
  end.

Definition check64 (shown : string) (len : Z) : Res unit :=
  if 64 <? len then
    Throw (MaxLengthLimit ("Metadatum value '" +:+ shown +:+ "' is too long. Length is " +:+ pretty len +:+ ". Max length is 64 bytes"))
  else Ok tt.

Definition check64Text (s : list Z) : Res unit := check64 (textString s) (zlen (utf8_encode s)).
Definition check64Bytes (l : list Z) : Res unit := check64 (bytesString l) (zlen l).

(** ** Encoding *)

Section toCbor.
Variable elemToCbor : TransactionMetadatum -> Res HexBlob.

Definition MetadatumList_toCbor (useIndefiniteEncoding : bool) (l : list TransactionMetadatum) : Res HexBlob := encode (
  call (CborWriter.writeStartArray (if useIndefiniteEncoding then None else Some (zlen l))) ;;
  forEach (fun elem => writeEncoded (elemToCbor elem)) l ;;
  if useIndefiniteEncoding then call CborWriter.writeEndArray else mret tt).

Definition MetadatumMap_toCbor (useIndefiniteEncoding : bool) (m : list (TransactionMetadatum * TransactionMetadatum)) : Res HexBlob := encode (
  call (CborWriter.writeStartMap (if useIndefiniteEncoding then None else Some (zlen m))) ;;
  forEach (fun entry => match entry with (key, value) => writeEncoded (elemToCbor key) ;; writeEncoded (elemToCbor value) end) m ;;
  if useIndefiniteEncoding then call CborWriter.writeEndMap else mret tt).
End toCbor.

Definition writeMetadatumInteger (z : Z) : Enc unit :=
  if ((0 <=? z) && (z <=? MAX_WORD64)) || ((z <? 0) && (-1 - MAX_WORD64 <=? z))
  then call (CborWriter.writeInt z)
  else call (CborWriter.writeBigInteger z).

Fixpoint metadatumToCbor (d : TransactionMetadatum) : Res HexBlob :=
  if truthy (metadatumBytes d) then Ok (default "" (metadatumBytes d))
  else
    match d with
    | MetadatumMap b m _ => MetadatumMap_toCbor metadatumToCbor b m
    | MetadatumList b l _ => MetadatumList_toCbor metadatumToCbor b l
    | MetadatumBytes l _ => check64Bytes l ;; encode (call (CborWriter.writeByteString l))
    | MetadatumText s _ => check64Text s ;; encode (call (CborWriter.writeTextString s))
    | MetadatumInteger z _ => encode (writeMetadatumInteger z)
    | MetadatumUnset _ => Throw (JsError "Cannot read properties of undefined (reading 'toCbor')")
    end.

(** ** Decoding *)

Section fromCbor.
Variable elemFromCbor : HexBlob -> Res TransactionMetadatum.

Definition MetadatumList_fromCbor (cbor : HexBlob) : Res (bool * list TransactionMetadatum) := decode (
  length ← call CborReader.readStartArray;
  list ← readWhileNot CborReaderState.EndArray (readNested elemFromCbor);
  call CborReader.readEndArray ;;
  mret (bool_decide (length = None), list)) cbor.

Definition MetadatumMap_fromCbor (cbor : HexBlob) : Res (bool * list (TransactionMetadatum * TransactionMetadatum)) := decode (
  size ← call CborReader.readStartMap;
  map ← readWhileNot CborReaderState.EndMap
    (key ← readNested elemFromCbor; value ← readNested elemFromCbor; mret (key, value));
  call CborReader.readEndMap ;;
  mret (bool_decide (size = None), map)) cbor.

(** The [switch] of [fromCbor] on the state of the reader. *)
Definition readMetadatum : Dec TransactionMetadatum :=
  peekTokenType ← call CborReader.peekState;
  match peekTokenType with
  | CborReaderState.Tag =>
      tag ← call CborReader.peekTag;
      if tag =? CborTag.UnsignedBigNum then
        call CborReader.readTag ;;
        bytes ← call CborReader.readByteString;
        mret (newMetadatumInteger (bufferToBigint bytes))
      else if tag =? CborTag.NegativeBigNum then
        call CborReader.readTag ;;
        bytes ← call CborReader.readByteString;
        mret (newMetadatumInteger (bufferToBigint bytes * -1))
      else mret (MetadatumUnset None)
  | CborReaderState.NegativeInteger | CborReaderState.UnsignedInteger =>
      integer ← call CborReader.readInt; mret (newMetadatumInteger integer)
  | CborReaderState.StartIndefiniteLengthByteString | CborReaderState.ByteString =>
      bytes ← call CborReader.readByteString; mret (newMetadatumBytes bytes)
  | CborReaderState.StartIndefiniteLengthTextString | CborReaderState.TextString =>
      text ← call CborReader.readTextString; mret (newMetadatumText text)
  | CborReaderState.StartArray =>
      '(b, list) ← readNested MetadatumList_fromCbor; mret (MetadatumList b list None)
  | CborReaderState.StartMap =>
      '(b, map) ← readNested MetadatumMap_fromCbor; mret (MetadatumMap b map None)
  | _ => st_throw (JsError "Invalid Plutus Data")
  end.
End fromCbor.

(** Elements are proper parts of the blob of a container, so the depth of the
    recursion is at most the number of bytes. *)
Fixpoint metadatumFromCborFuel (fuel : nat) (cbor : HexBlob) : Res TransactionMetadatum :=
  match fuel with
  | O => OutOfFuel
  | S fuel' =>
      data ← decode (readMetadatum (metadatumFromCborFuel fuel')) cbor;
      Ok (setMetadatumBytes data cbor)
  end.

Definition metadatumFromCbor (cbor : HexBlob) : Res TransactionMetadatum := metadatumFromCborFuel (S (length (hexToBytes cbor))) cbor.

(** ** Comparison and lookup *)

Section equals.
Variable elemEquals : TransactionMetadatum -> TransactionMetadatum -> bool.

Definition MetadatumList_equals : list TransactionMetadatum -> list TransactionMetadatum -> bool :=
  fix go l l' :=
    match l, l' with
    | [], [] => true
    | x :: l, y :: l' => elemEquals x y && go l l'
    | _, _ => false
    end.

Definition MetadatumMap_entriesEqual : list (TransactionMetadatum * TransactionMetadatum) -> list (TransactionMetadatum * TransactionMetadatum) -> bool :=
  fix go m m' :=
    match m, m' with
    | [], [] => true
    | (k, v) :: m, (k', v') :: m' => elemEquals k k' && elemEquals v v' && go m m'
    | _, _ => false
    end.
End equals.

(** The encodings of maps are compared, those of lists are not. *)
Fixpoint metadatumEquals (d other : TransactionMetadatum) : bool :=
  match d, other with
  | MetadatumBytes l _, MetadatumBytes l' _ => bool_decide (l = l')
  | MetadatumInteger z _, MetadatumInteger z' _ => z =? z'
  | MetadatumText s _, MetadatumText s' _ => bool_decide (s = s')
  | MetadatumList _ l _, MetadatumList _ l' _ => MetadatumList_equals metadatumEquals l l'
  | MetadatumMap b m _, MetadatumMap b' m' _ => Bool.eqb b b' && MetadatumMap_entriesEqual metadatumEquals m m'
  | _, _ => false
  end.

(** [MetadatumMap.get]: the value of the first entry whose key is equal. *)
Fixpoint MetadatumMap_get {A} (m : list (TransactionMetadatum * A)) (key : TransactionMetadatum) : option A :=
  match m with
  | [] => None
  | (k, v) :: m => if metadatumEquals k key then Some v else MetadatumMap_get m key
  end.

(** ** Core types *)

(** [coreMap.set(key, value)]: bigints and strings are compared by value, the
    other keys are objects made for this map. *)
Definition sameKey (k key : Metadatum) : bool :=
  match k, key with
  | BigIntMetadatum z, BigIntMetadatum z' => z =? z'
  | StringMetadatum s, StringMetadatum s' => bool_decide (s = s')
  | _, _ => false
  end.

Fixpoint coreMetadatumSet (m : list (Metadatum * Metadatum)) (key value : Metadatum) : list (Metadatum * Metadatum) :=
  match m with
  | [] => [(key, value)]
  | (k, v) :: m => if sameKey k key then (k, value) :: m else (k, v) :: coreMetadatumSet m key value
  end.

(** The loop over the keys of a map.  An entry comes with the core form of its
    key and of its value; the value of each key is looked up again. *)
Fixpoint metadatumEntries (all entries : list (TransactionMetadatum * Res Metadatum)) (coreMap : list (Metadatum * Metadatum)) :
    Res (list (Metadatum * Metadatum)) :=
  match entries with
  | [] => Ok coreMap
  | (key, keyCore) :: entries =>
      k ← keyCore;
      v ← default (Throw (JsError "Cannot read properties of undefined (reading 'toCore')")) (MetadatumMap_get all key);
      metadatumEntries all entries (coreMetadatumSet coreMap k v)
  end.

Fixpoint metadatumToCore (d : TransactionMetadatum) : Res Metadatum :=
  match d with
  | MetadatumBytes l _ => Ok (Uint8ArrayMetadatum l)
  | MetadatumText s _ => Ok (StringMetadatum s)
  | MetadatumInteger z _ => Ok (BigIntMetadatum z)
  | MetadatumList _ l _ => items ← mapM metadatumToCore l; Ok (ArrayMetadatum items)
  | MetadatumMap _ m _ =>
      let keys := map (fun kv => match kv with (k, _) => (k, metadatumToCore k) end) m in
      let values := map (fun kv => match kv with (k, v) => (k, metadatumToCore v) end) m in
      coreMap ← metadatumEntries values keys [];
      Ok (MapMetadatum coreMap)
  | MetadatumUnset _ => Throw (JsError "Cannot read properties of undefined (reading 'getKeys')")
  end.

Fixpoint metadatumFromCore (metadatum : Metadatum) : Res TransactionMetadatum :=
  match metadatum with
  | OtherMetadatum => Throw (InvalidType "")
  | BigIntMetadatum z => Ok (newMetadatumInteger z)
  | StringMetadatum s => check64Text s ;; Ok (newMetadatumText s)
  | ArrayMetadatum items => l ← mapM metadatumFromCore items; Ok (newMetadatumList l)
  | Uint8ArrayMetadatum l => check64Bytes l ;; Ok (newMetadatumBytes l)
  | MapMetadatum m =>
      entries ← mapM (fun kv => match kv with (k, v) => k' ← metadatumFromCore k; v' ← metadatumFromCore v; Ok (k', v') end) m;
      Ok (newMetadatumMap entries)
  end.

(** ** The metadata of a transaction *)

Module GeneralTransactionMetadata.
(** [Cardano.TxMetadata]: a [Map] from labels. *)
Abbreviation core := (list (Z * Metadatum)).

Record t : Set := { metadata : list (Z * TransactionMetadatum); originalBytes : option HexBlob }.

Definition new (metadata : list (Z * TransactionMetadatum)) : t := {| metadata := metadata; originalBytes := None |}.

Definition toCbor (g : t) : Res HexBlob := cached (originalBytes g) (encode (
  call (CborWriter.writeStartMap (Some (JsMap.size (metadata g)))) ;;
  forEach (fun entry : Z * TransactionMetadatum => call (CborWriter.writeInt entry.1) ;; writeEncoded (metadatumToCbor entry.2)) (metadata g))).

(** The blob is not remembered. *)
Definition fromCbor (cbor : HexBlob) : Res t := decode (
  call CborReader.readStartMap ;;
  entries ← readWhileNot CborReaderState.EndMap
    (label ← call CborReader.readInt; metadatum ← readNested metadatumFromCbor; mret (label, metadatum));
  call CborReader.readEndMap ;;
  mret (new (JsMap.of_entries entries))) cbor.

Definition toCore (g : t) : Res core :=
  entries ← mapM (fun entry : Z * TransactionMetadatum => v ← metadatumToCore entry.2; Ok (entry.1, v)) (metadata g);
  Ok (JsMap.of_entries entries).

Definition fromCore (metadata : core) : Res t :=
  entries ← mapM (fun entry : Z * Metadatum => v ← metadatumFromCore entry.2; Ok (entry.1, v)) metadata;
  Ok (new (JsMap.of_entries entries)).

Definition setMetadata (g : t) (metadata : list (Z * TransactionMetadatum)) : t := new metadata.

Fixpoint entriesEqual (m m' : list (Z * TransactionMetadatum)) : bool :=
  match m, m' with
  | [], [] => true
  | (k, v) :: m, (k', v') :: m' => (k =? k') && metadatumEquals v v' && entriesEqual m m'
  | _, _ => false
  end.

(** [undefined === undefined] *)
Definition equals (g other : t) : bool :=
  bool_decide (originalBytes g = originalBytes other) || entriesEqual (metadata g) (metadata other).
End GeneralTransactionMetadata.
