(* ===== verification/AuxiliaryData.v ===== *)
(** * Auxiliary data
    Models [packages/core/src/Serialization/AuxiliaryData/AuxiliaryData.ts] and
    [computeAuxiliaryDataHash] of [packages/core/src/Cardano/types/AuxiliaryData.ts]:
    the metadata and scripts of a transaction in the encodings of three eras. *)
From S2P Require Import Prelude JsRuntime CborCommon CborWriter CborReader Codec Credential Records NativeScript Scripts Metadata Serializable.

(** [Cardano.AuxiliaryData] *)
Record CoreAuxiliaryData : Set := { blob : option GeneralTransactionMetadata.core; auxiliaryScripts : option (list CoreAnyScript) }.

Module AuxiliaryData.
Record t : Set := {
  metadata : option GeneralTransactionMetadata.t;
  nativeScripts : option (list NativeScript);
  plutusV1Scripts : option (list PlutusScript.t);
  plutusV2Scripts : option (list PlutusScript.t);
  plutusV3Scripts : option (list PlutusScript.t);
  plutusV4Scripts : option (list PlutusScript.t);
  originalBytes : option HexBlob
}.

Definition SHELLEY_ERA_FIELDS_COUNT : Z := 2.
Definition ALONZO_AUX_TAG : Z := 259.

Definition new : t := {| metadata := None; nativeScripts := None; plutusV1Scripts := None; plutusV2Scripts := None; plutusV3Scripts := None;
  plutusV4Scripts := None; originalBytes := None |}.

Definition setMetadata (a : t) (metadata : GeneralTransactionMetadata.t) : t :=
  {| metadata := Some metadata; nativeScripts := nativeScripts a; plutusV1Scripts := plutusV1Scripts a; plutusV2Scripts := plutusV2Scripts a;
     plutusV3Scripts := plutusV3Scripts a; plutusV4Scripts := plutusV4Scripts a; originalBytes := None |}.
Definition setNativeScripts (a : t) (nativeScripts : list NativeScript) : t :=
  {| metadata := metadata a; nativeScripts := Some nativeScripts; plutusV1Scripts := plutusV1Scripts a; plutusV2Scripts := plutusV2Scripts a;
     plutusV3Scripts := plutusV3Scripts a; plutusV4Scripts := plutusV4Scripts a; originalBytes := None |}.
Definition setPlutusV1Scripts (a : t) (plutusV1Scripts : list PlutusScript.t) : t :=
  {| metadata := metadata a; nativeScripts := nativeScripts a; plutusV1Scripts := Some plutusV1Scripts; plutusV2Scripts := plutusV2Scripts a;
     plutusV3Scripts := plutusV3Scripts a; plutusV4Scripts := plutusV4Scripts a; originalBytes := None |}.
Definition setPlutusV2Scripts (a : t) (plutusV2Scripts : list PlutusScript.t) : t :=
  {| metadata := metadata a; nativeScripts := nativeScripts a; plutusV1Scripts := plutusV1Scripts a; plutusV2Scripts := Some plutusV2Scripts;
     plutusV3Scripts := plutusV3Scripts a; plutusV4Scripts := plutusV4Scripts a; originalBytes := None |}.
Definition setPlutusV3Scripts (a : t) (plutusV3Scripts : list PlutusScript.t) : t :=
  {| metadata := metadata a; nativeScripts := nativeScripts a; plutusV1Scripts := plutusV1Scripts a; plutusV2Scripts := plutusV2Scripts a;
     plutusV3Scripts := Some plutusV3Scripts; plutusV4Scripts := plutusV4Scripts a; originalBytes := None |}.
Definition setPlutusV4Scripts (a : t) (plutusV4Scripts : list PlutusScript.t) : t :=
  {| metadata := metadata a; nativeScripts := nativeScripts a; plutusV1Scripts := plutusV1Scripts a; plutusV2Scripts := plutusV2Scripts a;
     plutusV3Scripts := plutusV3Scripts a; plutusV4Scripts := Some plutusV4Scripts; originalBytes := None |}.

(** [x !== undefined && x.length > 0] *)
Definition sized {T} (x : option (list T)) : option (list T) :=
  match x with Some l => if 0 <? zlen l then Some l else None | None => None end.
Definition sizedMetadata (x : option GeneralTransactionMetadata.t) : option GeneralTransactionMetadata.t :=
  match x with Some g => if 0 <? JsMap.size (GeneralTransactionMetadata.metadata g) then Some g else None | None => None end.

Definition count {T} (x : option T) : Z := match x with Some _ => 1 | None => 0 end.

Definition getMapSize (a : t) : Z :=
  count (sizedMetadata (metadata a)) + count (sized (nativeScripts a)) + count (sized (plutusV1Scripts a)) +
  count (sized (plutusV2Scripts a)) + count (sized (plutusV3Scripts a)) + count (sized (plutusV4Scripts a)).

Definition writeList {T} (elementToCbor : T -> Res HexBlob) (l : list T) : Enc unit :=
  call (CborWriter.writeStartArray (Some (zlen l))) ;;
  forEach (fun script => writeEncoded (elementToCbor script)) l.

Definition writeTagged (a : t) : Enc unit :=
  call (CborWriter.writeTag ALONZO_AUX_TAG) ;;
  call (CborWriter.writeStartMap (Some (getMapSize a))) ;;
  writeOptional 0 (fun g => writeEncoded (GeneralTransactionMetadata.toCbor g)) (sizedMetadata (metadata a)) ;;
  writeOptional 1 (writeList NativeScript.toCbor) (sized (nativeScripts a)) ;;
  writeOptional 2 (writeList PlutusScript.toCbor) (sized (plutusV1Scripts a)) ;;
  writeOptional 3 (writeList PlutusV2Script.toCbor) (sized (plutusV2Scripts a)) ;;
  writeOptional 4 (writeList PlutusV3Script.toCbor) (sized (plutusV3Scripts a)) ;;
  writeOptional 5 (writeList PlutusV4Script.toCbor) (sized (plutusV4Scripts a)).

Definition toCbor (a : t) : Res HexBlob := cached (originalBytes a) (encode (
  let elementsSize := getMapSize a in
  match sizedMetadata (metadata a), sized (nativeScripts a) with
  | Some g, scripts =>
      if elementsSize =? 1 then writeEncoded (GeneralTransactionMetadata.toCbor g)
      else
        match scripts with
        | Some l =>
            if elementsSize =? SHELLEY_ERA_FIELDS_COUNT then
              call (CborWriter.writeStartArray (Some elementsSize)) ;;
              writeEncoded (GeneralTransactionMetadata.toCbor g) ;;
              writeList NativeScript.toCbor l
            else writeTagged a
        | None => writeTagged a
        end
  | None, _ => writeTagged a
  end)).

(** [reader.readStartArray(); while (...) list.push(fromCbor(...)); reader.readEndArray()] *)
Definition readScripts {T} (fromCbor : HexBlob -> Res T) : Dec (list T) :=
  call CborReader.readStartArray ;;
  list ← readWhileNot CborReaderState.EndArray (readNested fromCbor);
  call CborReader.readEndArray ;; mret list.

(** The [switch] on the keys has no default: the value of another key is left
    for the next round to read as a key. *)
Definition readField (key : Z) : Dec (t -> t) :=
  if key =? 0 then g ← readNested GeneralTransactionMetadata.fromCbor; mret (fun a => setMetadata a g)
  else if key =? 1 then l ← readScripts NativeScript.fromCbor; mret (fun a => setNativeScripts a l)
  else if key =? 2 then l ← readScripts PlutusScript.fromCbor; mret (fun a => setPlutusV1Scripts a l)
  else if key =? 3 then l ← readScripts PlutusV2Script.fromCbor; mret (fun a => setPlutusV2Scripts a l)
  else if key =? 4 then l ← readScripts PlutusV3Script.fromCbor; mret (fun a => setPlutusV3Scripts a l)
  else if key =? 5 then l ← readScripts PlutusV4Script.fromCbor; mret (fun a => setPlutusV4Scripts a l)
  else mret (fun a => a).

Definition readAuxiliaryData : Dec t :=
  peekState ← call CborReader.peekState;
  match peekState with
  | CborReaderState.StartMap => g ← readNested GeneralTransactionMetadata.fromCbor; mret (setMetadata new g)
  | CborReaderState.Tag =>
      tag ← call CborReader.readTag;
      st_guard (negb (tag =? ALONZO_AUX_TAG))
        (InvalidArgumentError "cbor" ("Expected tag '" +:+ pretty ALONZO_AUX_TAG +:+ "', but got " +:+ pretty tag +:+ ".")) ;;
      readKeyed readField new
  | _ =>
      call CborReader.readStartArray ;;
      g ← readNested GeneralTransactionMetadata.fromCbor;
      l ← readScripts NativeScript.fromCbor;
      mret (setNativeScripts (setMetadata new g) l)
  end.

Definition remember (a : t) (cbor : HexBlob) : t :=
  {| metadata := metadata a; nativeScripts := nativeScripts a; plutusV1Scripts := plutusV1Scripts a; plutusV2Scripts := plutusV2Scripts a;
     plutusV3Scripts := plutusV3Scripts a; plutusV4Scripts := plutusV4Scripts a; originalBytes := Some cbor |}.

Definition fromCbor (cbor : HexBlob) : Res t := decode (a ← readAuxiliaryData; mret (remember a cbor)) cbor.

(** ** Core values *)

Definition scriptsToCore {T} (toCore : T -> CoreAnyScript) (x : option (list T)) : list CoreAnyScript :=
  match x with Some l => toCore <$> l | None => [] end.

Definition getCoreScripts (a : t) : list CoreAnyScript :=
  scriptsToCore (fun p => CorePlutus (PlutusScript.toCore V1 p)) (plutusV1Scripts a) ++
  scriptsToCore (fun p => CorePlutus (PlutusScript.toCore V2 p)) (plutusV2Scripts a) ++
  scriptsToCore (fun p => CorePlutus (PlutusScript.toCore V3 p)) (plutusV3Scripts a) ++
  scriptsToCore (fun p => CorePlutus (PlutusScript.toCore V4 p)) (plutusV4Scripts a) ++
  scriptsToCore (fun n => CoreNative (NativeScript.toCore n)) (nativeScripts a).

Definition toCore (a : t) : Res CoreAuxiliaryData :=
  let scripts := getCoreScripts a in
  blob ← match metadata a with Some g => b ← GeneralTransactionMetadata.toCore g; Ok (Some b) | None => Ok None end;
  Ok {| blob := blob; auxiliaryScripts := if 0 <? zlen scripts then Some scripts else None |}.

(** [if (!result.x) result.x = []; result.x.push(script);] *)
Definition push {T} (x : option (list T)) (script : T) : option (list T) := Some (default [] x ++ [script]).

Definition pushScript (a : t) (script : CoreAnyScript) : Res t :=
  match script with
  | CoreNative n => Ok {| metadata := metadata a; nativeScripts := push (nativeScripts a) (NativeScript.fromCore n);
      plutusV1Scripts := plutusV1Scripts a; plutusV2Scripts := plutusV2Scripts a; plutusV3Scripts := plutusV3Scripts a;
      plutusV4Scripts := plutusV4Scripts a; originalBytes := originalBytes a |}
  | CorePlutus p =>
      match version p with
      | V1 => s ← PlutusV1Script.fromCore p; Ok {| metadata := metadata a; nativeScripts := nativeScripts a;
          plutusV1Scripts := push (plutusV1Scripts a) s; plutusV2Scripts := plutusV2Scripts a; plutusV3Scripts := plutusV3Scripts a;
          plutusV4Scripts := plutusV4Scripts a; originalBytes := originalBytes a |}
      | V2 => s ← PlutusV2Script.fromCore p; Ok {| metadata := metadata a; nativeScripts := nativeScripts a;
          plutusV1Scripts := plutusV1Scripts a; plutusV2Scripts := push (plutusV2Scripts a) s; plutusV3Scripts := plutusV3Scripts a;
          plutusV4Scripts := plutusV4Scripts a; originalBytes := originalBytes a |}
      | V3 => s ← PlutusV3Script.fromCore p; Ok {| metadata := metadata a; nativeScripts := nativeScripts a;
          plutusV1Scripts := plutusV1Scripts a; plutusV2Scripts := plutusV2Scripts a; plutusV3Scripts := push (plutusV3Scripts a) s;
          plutusV4Scripts := plutusV4Scripts a; originalBytes := originalBytes a |}
      | V4 => s ← PlutusV4Script.fromCore p; Ok {| metadata := metadata a; nativeScripts := nativeScripts a;
          plutusV1Scripts := plutusV1Scripts a; plutusV2Scripts := plutusV2Scripts a; plutusV3Scripts := plutusV3Scripts a;
          plutusV4Scripts := push (plutusV4Scripts a) s; originalBytes := originalBytes a |}
      end
  end.

(** [#getCddlScripts], and the setters that take over its result: the scripts
    are pushed to the lists of the new object. *)
Fixpoint getCddlScripts (scripts : list CoreAnyScript) (a : t) : Res t :=
  match scripts with
  | [] => Ok a
  | script :: scripts => a ← pushScript a script; getCddlScripts scripts a
  end.

Definition fromCore (auxData : CoreAuxiliaryData) : Res t :=
  a ← match blob auxData with Some b => g ← GeneralTransactionMetadata.fromCore b; Ok (setMetadata new g) | None => Ok new end;
  match auxiliaryScripts auxData with Some scripts => getCddlScripts scripts a | None => Ok a end.
End AuxiliaryData.

Definition computeAuxiliaryDataHash `{Blake2b} (data : option CoreAuxiliaryData) : Res (option HexBlob) :=
  match data with
  | Some data => a ← AuxiliaryData.fromCore data; cbor ← AuxiliaryData.toCbor a; Ok (Some (blake2b_hash cbor 32))
  | None => Ok None
  end.
