(* ===== verification/AuxiliaryFacts.v ===== *)
(** * Auxiliary data keep their promises
    The encodings of the metadata of a transaction and of its auxiliary data in
    the three forms, and the interface of [Serializable.v] for both classes. *)
From S2P Require Import Prelude JsRuntime Utf8 CborCommon Half CborWriter CborReader CborMachine CborExact CborSkip CborDocuments Codec CodecFacts PlutusData Credential Records NativeScript Serializable Keyed CommonFacts Scripts ScriptFacts WitnessFacts Metadata AuxiliaryData.

(** ** Facts about transaction metadata
    The encoding a metadatum is specified to have ([metadatumItem]), that the
    encoder produces it and the decoder reads it back, that the decoder ends on
    every blob, and the conversions to and from core values. *)

From S2P Require CommonFacts PlutusFacts.

Import CborReader CborWriterFacts.

(** ** Induction and equality *)

Section induction.
Variable P : Metadatum -> Prop.
Hypothesis Hint : forall z, P (BigIntMetadatum z).
Hypothesis Htext : forall s, P (StringMetadatum s).
Hypothesis Hbytes : forall l, P (Uint8ArrayMetadatum l).
Hypothesis Hlist : forall l, Forall P l -> P (ArrayMetadatum l).
Hypothesis Hmap : forall m, Forall (fun kv => P kv.1 /\ P kv.2) m -> P (MapMetadatum m).
Hypothesis Hother : P OtherMetadatum.

Fixpoint Metadatum_rec' (c : Metadatum) : P c :=
  match c with
  | BigIntMetadatum z => Hint z
  | StringMetadatum s => Htext s
  | Uint8ArrayMetadatum l => Hbytes l
  | ArrayMetadatum l => Hlist l
      ((fix go l := match l return Forall P l with
        | [] => Forall_nil_2 P | x :: l => Forall_cons_2 P x l (Metadatum_rec' x) (go l) end) l)
  | MapMetadatum m => Hmap m
      ((fix go m := match m return Forall (fun kv => P kv.1 /\ P kv.2) m with
        | [] => Forall_nil_2 _
        | (k, v) :: m => Forall_cons_2 _ (k, v) m (conj (Metadatum_rec' k) (Metadatum_rec' v)) (go m) end) m)
  | OtherMetadatum => Hother
  end.
End induction.

Section object_induction.
Variable P : TransactionMetadatum -> Prop.
Hypothesis Hmap : forall b m o, Forall (fun kv => P kv.1 /\ P kv.2) m -> P (MetadatumMap b m o).
Hypothesis Hlist : forall b l o, Forall P l -> P (MetadatumList b l o).
Hypothesis Hint : forall z o, P (MetadatumInteger z o).
Hypothesis Hbytes : forall l o, P (MetadatumBytes l o).
Hypothesis Htext : forall s o, P (MetadatumText s o).
Hypothesis Hunset : forall o, P (MetadatumUnset o).

Fixpoint TransactionMetadatum_rec' (d : TransactionMetadatum) : P d :=
  match d with
  | MetadatumMap b m o => Hmap b m o
      ((fix go m := match m return Forall (fun kv => P kv.1 /\ P kv.2) m with
        | [] => Forall_nil_2 _
        | (k, v) :: m => Forall_cons_2 _ (k, v) m (conj (TransactionMetadatum_rec' k) (TransactionMetadatum_rec' v)) (go m) end) m)
  | MetadatumList b l o => Hlist b l o
      ((fix go l := match l return Forall P l with
        | [] => Forall_nil_2 P | x :: l => Forall_cons_2 P x l (TransactionMetadatum_rec' x) (go l) end) l)
  | MetadatumInteger z o => Hint z o
  | MetadatumBytes l o => Hbytes l o
  | MetadatumText s o => Htext s o
  | MetadatumUnset o => Hunset o
  end.
End object_induction.

Fixpoint Metadatum_dec (x y : Metadatum) : {x = y} + {x <> y}.
Proof.
  decide equality; try apply (decide (_ = _)); try apply (@list_eq_dec _ Metadatum_dec).
  apply (@list_eq_dec _ (@prod_eq_dec _ Metadatum_dec _ Metadatum_dec)).
Defined.

#[export] Instance Metadatum_eq_dec : EqDecision Metadatum := Metadatum_dec.

(** ** The specified encoding *)

Fixpoint metadatumItem (c : Metadatum) : list Z :=
  match c with
  | BigIntMetadatum z => if isInt64 z then intBytes z else CommonFacts.tagBytes 2 (stringBytes (bignum_bytes z))
  | StringMetadatum s => textBytes s
  | Uint8ArrayMetadatum l => stringBytes l
  | ArrayMetadatum l => CborWriter.head Array (zlen l) ++ concat (map metadatumItem l)
  | MapMetadatum m => mapBytes false (map (fun kv => match kv with (k, v) => (metadatumItem k, metadatumItem v) end) m)
  | OtherMetadatum => []
  end.

(** Metadata of the sizes the ledger allows, whose integers are at least -2^64,
    and whose maps have distinct keys. *)
Fixpoint isMetadatum (c : Metadatum) : bool :=
  match c with
  | BigIntMetadatum z => (- 2 ^ 64 <=? z) && ((z <? 2 ^ 64) || (zlen (bignum_bytes z) <? 2 ^ 53))
  | StringMetadatum s => well_formed s && (zlen (utf8_encode s) <=? 64)
  | Uint8ArrayMetadatum l => forallb (fun b => (0 <=? b) && (b <? 256)) l && (zlen l <=? 64)
  | ArrayMetadatum l => (zlen l <? 2 ^ 53) && forallb isMetadatum l
  | MapMetadatum m => (zlen m <? 2 ^ 53) && bool_decide (NoDup m.*1) &&
      forallb (fun kv => match kv with (k, v) => isMetadatum k && isMetadatum v end) m
  | OtherMetadatum => false
  end.

(** The object for a core value, without blobs. *)
Fixpoint plain (c : Metadatum) : TransactionMetadatum :=
  match c with
  | BigIntMetadatum z => newMetadatumInteger z
  | StringMetadatum s => newMetadatumText s
  | Uint8ArrayMetadatum l => newMetadatumBytes l
  | ArrayMetadatum l => newMetadatumList (map plain l)
  | MapMetadatum m => newMetadatumMap (map (fun kv => match kv with (k, v) => (plain k, plain v) end) m)
  | OtherMetadatum => MetadatumUnset None
  end.

(** The object without the remembered blobs. *)
Fixpoint stripBytes (d : TransactionMetadatum) : TransactionMetadatum :=
  match d with
  | MetadatumMap b m _ => MetadatumMap b (map (fun kv => match kv with (k, v) => (stripBytes k, stripBytes v) end) m) None
  | MetadatumList b l _ => MetadatumList b (map stripBytes l) None
  | MetadatumInteger z _ => MetadatumInteger z None
  | MetadatumBytes l _ => MetadatumBytes l None
  | MetadatumText s _ => MetadatumText s None
  | MetadatumUnset _ => MetadatumUnset None
  end.

Lemma strip_setBytes d h : stripBytes (setMetadatumBytes d h) = stripBytes d.
Proof. by destruct d. Qed.

(** ** Parts of valid metadata *)

Lemma forallb_Forall {A} (f : A -> bool) l : forallb f l = true -> Forall (fun x => f x = true) l.
Proof. induction l as [|x l IH]; cbn; [constructor|]. intros [? ?]%andb_true_iff. constructor; auto. Qed.

Lemma valid_list l : isMetadatum (ArrayMetadatum l) = true -> 0 <= zlen l < 2 ^ 53 /\ Forall (fun c => isMetadatum c = true) l.
Proof. intros [Hz Hl]%andb_true_iff. zb. pose proof (zlen_nonneg l). split; [lia|by apply forallb_Forall]. Qed.

Lemma valid_map m : isMetadatum (MapMetadatum m) = true -> 0 <= zlen m < 2 ^ 53 /\ NoDup m.*1 /\
  Forall (fun kv => isMetadatum kv.1 = true /\ isMetadatum kv.2 = true) m.
Proof.
  intros [[Hz Hd]%andb_true_iff Hl]%andb_true_iff. zb. pose proof (zlen_nonneg m). split_and!; [lia..|by apply bool_decide_eq_true in Hd|].
  eapply Forall_impl; [exact (forallb_Forall _ _ Hl)|]. intros [k v]. by intros [? ?]%andb_true_iff.
Qed.

Lemma valid_bytes l : isMetadatum (Uint8ArrayMetadatum l) = true -> bytes l /\ 0 <= zlen l <= 64.
Proof. intros [Hl Hz]%andb_true_iff. zb. pose proof (zlen_nonneg l). split; [by apply PlutusFacts.bytes_forallb|lia]. Qed.

Lemma valid_text s : isMetadatum (StringMetadatum s) = true -> well_formed s = true /\ 0 <= zlen (utf8_encode s) <= 64.
Proof. intros [Hl Hz]%andb_true_iff. zb. pose proof (zlen_nonneg (utf8_encode s)). split; [done|lia]. Qed.

Lemma valid_integer z : isMetadatum (BigIntMetadatum z) = true -> isInt64 z = true \/ (2 ^ 64 <= z /\ zlen (bignum_bytes z) < 2 ^ 53 /\ isInt64 z = false).
Proof.
  intros [Hl Hu]%andb_true_iff. apply Z.leb_le in Hl. unfold isInt64. rewrite (proj2 (Z.leb_le _ _) Hl). cbn [andb].
  destruct (Z.ltb_spec z (2 ^ 64)); [by left|right]. cbn in Hu. zb. lia.
Qed.

(** ** Items *)

#[local] Abbreviation entryItems m := (map (fun kv => match kv with (k, v) => (metadatumItem k, metadatumItem v) end) m).

Lemma metadatum_field c : isMetadatum c = true -> field (metadatumItem c).
Proof.
  induction c as [z|s|l|l IH|m IH|] using Metadatum_rec'; intros Hc; [| | | | |done].
  - cbn [metadatumItem]. destruct (valid_integer z Hc) as [Hz|(_ & Hz & ->)]; [rewrite Hz; by apply field_int|].
    apply CommonFacts.field_tag; [lia|]. split; [apply stringBytes_item; lia|apply stringBytes_bytes, bignum_bytes_bytes].
  - destruct (valid_text s Hc) as [Hw Hz]. split; [eapply item_string; [by right|apply writer_head; lia]|].
    apply string_bytes, utf8_encode_bytes, well_formed_units. done.
  - destruct (valid_bytes l Hc) as [Hb Hz]. split; [apply stringBytes_item; lia|by apply stringBytes_bytes].
  - destruct (valid_list l Hc) as [Hz Hl]. cbn [metadatumItem]. rewrite <- (zlen_map metadatumItem). apply field_record; [rewrite zlen_map; lia|].
    apply List.Forall_map. clear Hc Hz. induction Hl as [|x l Hx _ IHl]; inversion_clear IH; constructor; auto.
  - destruct (valid_map m Hc) as (Hz & _ & Hm). assert (Hf : Forall (fun e => field e.1 /\ field e.2) (entryItems m)).
    { clear Hc Hz. induction Hm as [|[k v] m [Hk Hv] _ IHm]; inversion_clear IH as [|? ? [Ik Iv]]; constructor; cbn in *; auto. }
    split; [apply mapBytes_item; [rewrite zlen_map; lia|]|apply mapBytes_bytes]; (eapply Forall_impl; [exact Hf|]); by intros e [[] []].
Qed.

Lemma metadatum_not_null c : isMetadatum c = true -> not_null (metadatumItem c).
Proof.
  destruct c as [z|s|l|l|m|]; intros Hc; [| | | | |done].
  - cbn [metadatumItem]. destruct (valid_integer z Hc) as [Hz|(_ & Hz & ->)].
    + rewrite Hz. destruct (starts_int z Hz) as [Hs|Hs]; (eapply starts_not_null; [|exact Hs]; discriminate).
    + apply (starts_not_null Tag); [done|]. apply starts_head. lia.
  - destruct (valid_text s Hc) as [_ Hz]. apply (starts_not_null Utf8String); [done|]. apply starts_head. lia.
  - destruct (valid_bytes l Hc) as [_ Hz]. apply (starts_not_null ByteString); [done|]. apply starts_head. lia.
  - destruct (valid_list l Hc) as [Hz _]. apply (starts_not_null Array); [done|]. apply starts_head. lia.
  - destruct (valid_map m Hc) as [Hz _]. apply (starts_not_null Map); [done|]. apply starts_head. rewrite zlen_map. lia.
Qed.

(** ** Writing *)

Lemma metadatum_fromCore c : isMetadatum c = true -> metadatumFromCore c = Ok (plain c).
Proof.
  induction c as [z|s|l|l IH|m IH|] using Metadatum_rec'; intros Hc; [done| | | | |done].
  - destruct (valid_text s Hc) as [_ Hz]. cbn. unfold check64Text, check64. by rewrite (proj2 (Z.ltb_ge _ _)) by lia.
  - destruct (valid_bytes l Hc) as [_ Hz]. cbn. unfold check64Bytes, check64. by rewrite (proj2 (Z.ltb_ge _ _)) by lia.
  - destruct (valid_list l Hc) as [_ Hl]. assert (E : mapM metadatumFromCore l = Ok (map plain l)); [|cbn; by rewrite E].
    clear Hc. induction Hl as [|x l Hx _ IHl]; [done|]. inversion_clear IH as [|? ? Ix Il]. cbn. rewrite (Ix Hx). cbn. by rewrite IHl.
  - destruct (valid_map m Hc) as (_ & _ & Hm). cbn [metadatumFromCore plain].
    assert (E : mapM (fun kv => match kv with (k, v) => k' ← metadatumFromCore k; v' ← metadatumFromCore v; Ok (k', v') end) m =
      Ok (map (fun kv => match kv with (k, v) => (plain k, plain v) end) m)); [|by rewrite E].
    clear Hc. induction Hm as [|[k v] m [Hk Hv] _ IHm]; [done|]. inversion_clear IH as [|? ? [Ik Iv] Im]. cbn in *. rewrite (Ik Hk), (Iv Hv). cbn. by rewrite IHm.
Qed.

Lemma metadatum_toCbor c : isMetadatum c = true -> metadatumToCbor (plain c) = Ok (Buffer_to_hex (metadatumItem c)).
Proof.
  induction c as [z|s|l|l IH|m IH|] using Metadatum_rec'; intros Hc; [| | | | |done].
  - change (metadatumToCbor (plain (BigIntMetadatum z))) with (encode (writeMetadatumInteger z)). cbn [metadatumItem]. unfold writeMetadatumInteger, MAX_WORD64. destruct (valid_integer z Hc) as [Hz|(Hl & Hz & ->)].
    + rewrite Hz. pose proof (int64_range z Hz). assert (E : ((0 <=? z) && (z <=? 18446744073709551615)) || ((z <? 0) && (-1 - 18446744073709551615 <=? z)) = true).
      { apply orb_true_iff. rewrite !andb_true_iff, !Z.leb_le, Z.ltb_lt. lia. }
      rewrite E. by apply encode_emits, emits_int.
    + assert (E : ((0 <=? z) && (z <=? 18446744073709551615)) || ((z <? 0) && (-1 - 18446744073709551615 <=? z)) = false).
      { apply orb_false_iff. rewrite !andb_false_iff, !Z.leb_gt, Z.ltb_ge. lia. }
      rewrite E. apply encode_emits, emits_call. rewrite writeBigInteger_eq, (proj2 (Z.ltb_ge z 0)) by lia.
      apply appends_bind; [by apply writeTypeValue_head|apply string_appends; lia].
  - destruct (valid_text s Hc) as [_ Hz]. cbn. unfold check64Text, check64. rewrite (proj2 (Z.ltb_ge _ _)) by lia.
    apply encode_emits, emits_call, string_appends. lia.
  - destruct (valid_bytes l Hc) as [_ Hz]. cbn. unfold check64Bytes, check64. rewrite (proj2 (Z.ltb_ge _ _)) by lia.
    apply encode_emits. apply stringBytes_emits. lia.
  - destruct (valid_list l Hc) as [Hz Hl]. cbn [plain metadatumToCbor newMetadatumList]. apply encode_emits. rewrite zlen_map. apply record_emits; [lia|].
    rewrite <- (app_nil_r (concat _)). apply emits_bind; [|apply emits_ret]. apply emits_forEach. clear Hc Hz.
    induction Hl as [|x l Hx _ IHl]; inversion_clear IH as [|? ? Ix Il]; constructor; [|auto].
    apply emits_encoded; [by apply metadatum_field|auto].
  - destruct (valid_map m Hc) as (Hz & _ & Hm). cbn [plain metadatumToCbor newMetadatumMap]. apply encode_emits. cbn [metadatumItem mapBytes]. rewrite !zlen_map.
    apply emits_bind; [apply emits_call, writeTypeValue_head; lia|].
    rewrite <- (app_nil_r (concat _)). apply emits_bind; [|apply emits_ret]. apply emits_forEach. clear Hc Hz.
    induction Hm as [|[k v] m [Hk Hv] _ IHm]; inversion_clear IH as [|? ? [Ik Iv] Im]; constructor; [|auto]. cbn [fst snd] in *.
    by apply emits_bind; apply emits_encoded; try apply metadatum_field; auto.
Qed.

(** ** Reading *)

Lemma reads_array_length {A} (body : Dec A) encs vs : zlen encs < 2 ^ 53 -> elements 1 body encs vs ->
  reads (length ← call readStartArray; list ← readWhileNot CborReaderState.EndArray body; call readEndArray ;; mret (bool_decide (length = None), list))
    (CborWriter.head Array (zlen encs) ++ concat encs) (false, vs).
Proof.
  intros Hz Hel r rest Hr Hp _. rewrite <- app_assoc in Hr. pose proof (zlen_nonneg encs).
  pose proof (writer_head Array (zlen encs) ltac:(lia)) as Hh. pose proof (is_head_length _ _ _ Hh).
  rewrite (st_bind_ok _ _ _ _ _ (call_ok _ _ _ _ (readStartArray_exact r _ _ _ Hz Hh Hr))).
  destruct (elements_definite 1 body encs vs Array (or_introl eq_refl) ltac:(lia) Hel r _ rest None Hr ltac:(lia)) as (x & E1 & E2).
  rewrite Z.mul_1_l in E1. etrans; [apply (st_bind_ok _ _ _ _ _ E1)|]. by rewrite (st_bind_ok _ _ _ _ _ E2).
Qed.

Definition decodesMetadatum (c : Metadatum) : Prop := forall fuel, zlen (metadatumItem c) < 2 ^ 53 -> (length (metadatumItem c) < fuel)%nat ->
  exists d, metadatumFromCborFuel fuel (Buffer_to_hex (metadatumItem c)) = Ok d /\ stripBytes d = plain c.

Lemma metadatum_node c : isMetadatum c = true ->
  (forall fuel, zlen (metadatumItem c) < 2 ^ 53 -> zlen (metadatumItem c) <= Z.of_nat fuel ->
    exists d, reads (readMetadatum (metadatumFromCborFuel fuel)) (metadatumItem c) d /\ stripBytes d = plain c) -> decodesMetadatum c.
Proof.
  intros Hc Hd fuel Hz Hf. destruct (metadatum_field c Hc) as [_ Hb]. destruct fuel as [|fuel]; [lia|].
  destruct (Hd fuel Hz) as (d & Hr & Es); [unfold zlen; lia|]. exists (setMetadatumBytes d (Buffer_to_hex (metadatumItem c))).
  split; [|by rewrite strip_setBytes]. cbn [metadatumFromCborFuel]. by rewrite (decode_reads _ _ _ Hr Hb Hz).
Qed.

Lemma integer_reads f z : isMetadatum (BigIntMetadatum z) = true -> reads (readMetadatum f) (metadatumItem (BigIntMetadatum z)) (newMetadatumInteger z).
Proof.
  intros Hc. cbn [metadatumItem]. destruct (valid_integer z Hc) as [Hz|(Hl & Hz & ->)].
  - rewrite Hz. pose proof (int64_range z Hz) as Hr.
    assert (Hi : reads (integer ← call readInt; mret (newMetadatumInteger integer)) (intBytes z) (newMetadatumInteger z))
      by by apply (reads_fmap 1 (call readInt)), intBytes_reads.
    destruct (intBytes_head z Hr) as (t & v & Ht & Hv & _ & E & _). rewrite E in *.
    apply (reads_peek (headState t)); [|by destruct Ht as [-> | ->]].
    intros r rest Hrd. eapply peekStateCore_head; [by destruct Ht as [-> | ->]|by apply writer_head|done].
  - pose proof (writer_head Tag 2 ltac:(lia)) as Hh. unfold CommonFacts.tagBytes.
    apply (reads_peek CborReaderState.Tag); [intros r rest Hrd; by eapply tag_state|].
    apply (reads_peekTag 2); [done|lia|]. cbn [Z.eqb Pos.eqb CborTag.UnsignedBigNum]. eapply reads_tag; [done|lia|].
    assert (E : newMetadatumInteger z = newMetadatumInteger (bufferToBigint (bignum_bytes z))) by (by rewrite PlutusFacts.bufferToBigint_eq, bignum_bytes_decode by lia).
    rewrite E. apply (reads_fmap 1 (call readByteString) (fun s => newMetadatumInteger (bufferToBigint s))).
    apply stringBytes_reads. lia.
Qed.

Lemma text_reads f s : isMetadatum (StringMetadatum s) = true -> reads (readMetadatum f) (textBytes s) (newMetadatumText s).
Proof.
  intros Hc. destruct (valid_text s Hc) as [Hw Hz]. apply (reads_peek CborReaderState.TextString).
  - intros r rest Hr. unfold textBytes in Hr. rewrite <- app_assoc in Hr. by apply (peekStateCore_head r Utf8String _ _ _ ltac:(done) (writer_head Utf8String (zlen (utf8_encode s)) ltac:(lia)) Hr).
  - apply (reads_fmap 1 (call readTextString) newMetadatumText), reads_call. intros r rest Hr _. unfold readTextString.
    rewrite (st_bind_ok _ _ _ _ _ (string_read Utf8String (utf8_encode s) r rest ltac:(done) ltac:(lia) Hr)). by rewrite utf8_roundtrip.
Qed.

Lemma bytes_reads f l : isMetadatum (Uint8ArrayMetadatum l) = true -> reads (readMetadatum f) (stringBytes l) (newMetadatumBytes l).
Proof.
  intros Hc. destruct (valid_bytes l Hc) as [Hb Hz]. apply (reads_peek CborReaderState.ByteString).
  - intros r rest Hr. unfold stringBytes in Hr. rewrite <- app_assoc in Hr. by apply (peekStateCore_head r ByteString _ _ _ ltac:(done) (writer_head ByteString (zlen l) ltac:(lia)) Hr).
  - apply (reads_fmap 1 (call readByteString) newMetadatumBytes). apply stringBytes_reads. lia.
Qed.

Section elements.
Context (fuel : nat).

Lemma list_elements' l : Forall (fun c => isMetadatum c = true) l -> Forall decodesMetadatum l ->
  zlen (concat (map metadatumItem l)) < 2 ^ 53 -> zlen (concat (map metadatumItem l)) < Z.of_nat fuel ->
  exists ds, elements 1 (readNested (metadatumFromCborFuel fuel)) (map metadatumItem l) ds /\ map stripBytes ds = map plain l.
Proof.
  intros Hv Hd. induction Hd as [|c l Hc _ IH]; intros Hz Hf; [exists []; by split; [constructor|]|]. inversion_clear Hv as [|? ? Hvc Hvl].
  cbn [map concat] in Hz, Hf. rewrite zlen_app in Hz, Hf. pose proof (zlen_nonneg (metadatumItem c)). pose proof (zlen_nonneg (concat (map metadatumItem l))).
  destruct IH as (ds & Hds & E); [done|lia..|]. destruct (Hc fuel) as (d & Ed & Es); [lia|unfold zlen in *; lia|]. exists (d :: ds).
  split; [|cbn; by rewrite Es, E]. destruct (metadatum_field c Hvc). constructor; [|done]. split; [by apply item_begins|by apply readNested_reads].
Qed.

Lemma entry_elements m : Forall (fun kv => isMetadatum kv.1 = true /\ isMetadatum kv.2 = true) m ->
  Forall (fun kv => decodesMetadatum kv.1 /\ decodesMetadatum kv.2) m ->
  zlen (concat (map entryBytes (entryItems m))) < 2 ^ 53 -> zlen (concat (map entryBytes (entryItems m))) < Z.of_nat fuel ->
  exists es, elements 2 (key ← readNested (metadatumFromCborFuel fuel); value ← readNested (metadatumFromCborFuel fuel); mret (key, value))
      (map entryBytes (entryItems m)) es /\
    map (fun kv => match kv with (k, v) => (stripBytes k, stripBytes v) end) es = map (fun kv => match kv with (k, v) => (plain k, plain v) end) m.
Proof.
  intros Hv Hd. induction Hd as [|[k v] m [Hk Hw] _ IH]; intros Hz Hf; [exists []; by split; [constructor|]|]. inversion_clear Hv as [|? ? [Vk Vv] Hvm].
  cbn [map concat entryBytes fst snd] in Hz, Hf, Hk, Hw, Vk, Vv. unfold entryBytes in Hz at 1, Hf at 1. cbn [fst snd] in Hz, Hf. rewrite !zlen_app in Hz, Hf.
  pose proof (zlen_nonneg (metadatumItem k)). pose proof (zlen_nonneg (metadatumItem v)). pose proof (zlen_nonneg (concat (map entryBytes (entryItems m)))).
  destruct IH as (es & Hes & E); [done|lia..|]. destruct (Hk fuel) as (dk & Ek & Sk); [lia|unfold zlen in *; lia|]. destruct (Hw fuel) as (dv & Ev & Sv); [lia|unfold zlen in *; lia|].
  exists ((dk, dv) :: es). split; [|cbn; by rewrite Sk, Sv, E]. destruct (metadatum_field k Vk), (metadatum_field v Vv). constructor; [|done]. split.
  - by exists (metadatumItem k), (metadatumItem v).
  - apply (readsN_bind 1 1 _ _ (metadatumItem k) (metadatumItem v) dk); [lia|lia|by apply readNested_reads|].
    by apply (reads_fmap 1 _ (fun value => (dk, value))), readNested_reads.
Qed.
End elements.

Lemma metadatum_decodes c : isMetadatum c = true -> decodesMetadatum c.
Proof.
  induction c as [z|s|l|l IH|m IH|] using Metadatum_rec'; intros Hc; [| | | | |done]; (apply metadatum_node; [done|]; intros fuel Hz Hf).
  - exists (newMetadatumInteger z). split; [by apply integer_reads|done].
  - exists (newMetadatumText s). split; [by apply text_reads|done].
  - exists (newMetadatumBytes l). split; [by apply bytes_reads|done].
  - destruct (metadatum_field _ Hc) as [Hi Hb]. destruct (valid_list l Hc) as [Hn Hl]. cbn [metadatumItem] in Hz, Hf, Hi, Hb |- *.
    pose proof (is_head_length _ _ _ (writer_head Array (zlen l) ltac:(lia))) as Hh. rewrite zlen_app in Hz, Hf.
    assert (Hd : Forall decodesMetadatum l) by (clear -IH Hl; induction Hl; inversion_clear IH; constructor; auto).
    destruct (list_elements' fuel l Hl Hd ltac:(lia) ltac:(lia)) as (ds & Hds & E). exists (MetadatumList false ds None). split; [|cbn; by rewrite E].
    apply (reads_peek CborReaderState.StartArray).
    + intros r rest Hr. rewrite <- app_assoc in Hr. by apply (peekStateCore_head r Array _ _ _ ltac:(done) (writer_head Array (zlen l) ltac:(lia)) Hr).
    + apply (reads_last (readNested (MetadatumList_fromCbor (metadatumFromCborFuel fuel))) _ _ (false, ds)); [|done]. apply readNested_reads; [done|].
      apply decode_reads; [|done|rewrite zlen_app; lia]. rewrite <- (zlen_map metadatumItem). apply reads_array_length; [rewrite zlen_map; lia|done].
  - destruct (metadatum_field _ Hc) as [Hi Hb]. destruct (valid_map m Hc) as (Hn & _ & Hm). cbn [metadatumItem] in Hz, Hf, Hi, Hb |- *.
    assert (Hd : Forall (fun kv => decodesMetadatum kv.1 /\ decodesMetadatum kv.2) m) by (clear -IH Hm; induction Hm as [|? ? [] ? ?]; inversion_clear IH as [|? ? []]; constructor; auto).
    pose proof (PlutusFacts.mapBytes_longer false (entryItems m) ltac:(rewrite zlen_map; lia)).
    destruct (entry_elements fuel m Hm Hd ltac:(lia) ltac:(lia)) as (es & Hes & E). exists (MetadatumMap false es None). split; [|cbn; by rewrite E].
    apply (reads_peek CborReaderState.StartMap).
    + intros r rest Hr. cbn [mapBytes] in Hr. rewrite <- app_assoc, zlen_map in Hr. by apply (peekStateCore_head r Map _ _ _ ltac:(done) (writer_head Map (zlen m) ltac:(lia)) Hr).
    + apply (reads_last (readNested (MetadatumMap_fromCbor (metadatumFromCborFuel fuel))) _ _ (false, es)); [|done]. apply readNested_reads; [done|].
      apply decode_reads; [|done..]. apply (reads_map _ false); [rewrite zlen_map; lia|done|].
      apply List.Forall_map. eapply Forall_impl; [exact Hm|]. intros [k v] [Vk Vv]. by destruct (metadatum_field k Vk), (metadatum_field v Vv).
Qed.

(** ** Core values *)

Lemma metadata_equals_strip d d' : metadatumEquals (stripBytes d) (stripBytes d') = metadatumEquals d d'.
Proof.
  revert d'. induction d as [b m o IH|b l o IH|z o|l o|s o|o] using TransactionMetadatum_rec'; intros [b' m' o'|b' l' o'|z' o'|l' o'|s' o'|o']; try done; cbn.
  - f_equal. clear b b' o o'. revert m'. induction IH as [|[k v] m [Hk Hv] _ IHm]; intros [|[k' v'] m']; cbn; try done. cbn in *. by rewrite Hk, Hv, IHm.
  - clear b b' o o'. revert l'. induction IH as [|x l Hx _ IHl]; intros [|x' l']; cbn; try done. by rewrite Hx, IHl.
Qed.

Lemma get_strip {A} (all : list (TransactionMetadatum * A)) k :
  MetadatumMap_get (map (fun e => (stripBytes e.1, e.2)) all) (stripBytes k) = MetadatumMap_get all k.
Proof. induction all as [|[k' v] all IH]; [done|]. cbn. by rewrite metadata_equals_strip, IH. Qed.

Lemma entries_strip all es m :
  metadatumEntries (map (fun e => (stripBytes e.1, e.2)) all) (map (fun e => (stripBytes e.1, e.2)) es) m = metadatumEntries all es m.
Proof.
  revert m. induction es as [|[k c] es IH]; intros m; [done|]. cbn. destruct c as [c|e|]; [|done..]. cbn. rewrite get_strip.
  destruct (default _ _); [|done..]. cbn. apply IH.
Qed.

Lemma toCore_strip d : metadatumToCore (stripBytes d) = metadatumToCore d.
Proof.
  induction d as [b m o IH|b l o IH|z o|l o|s o|o] using TransactionMetadatum_rec'; try done; cbn [stripBytes metadatumToCore].
  - assert (E1 : map (fun kv : TransactionMetadatum * TransactionMetadatum => match kv with (k, _) => (k, metadatumToCore k) end)
      (map (fun kv => match kv with (k, v) => (stripBytes k, stripBytes v) end) m) =
      map (fun e => (stripBytes e.1, e.2)) (map (fun kv => match kv with (k, _) => (k, metadatumToCore k) end) m)).
    { rewrite !map_map. induction IH as [|[k v] m [Hk _] _ IHm]; [done|]. cbn in *. by rewrite Hk, IHm. }
    assert (E2 : map (fun kv : TransactionMetadatum * TransactionMetadatum => match kv with (k, v) => (k, metadatumToCore v) end)
      (map (fun kv => match kv with (k, v) => (stripBytes k, stripBytes v) end) m) =
      map (fun e => (stripBytes e.1, e.2)) (map (fun kv => match kv with (k, v) => (k, metadatumToCore v) end) m)).
    { clear E1. rewrite !map_map. induction IH as [|[k v] m [_ Hv] _ IHm]; [done|]. cbn in *. by rewrite Hv, IHm. }
    rewrite E1, E2. cbv zeta. by rewrite entries_strip.
  - assert (E : mapM metadatumToCore (map stripBytes l) = mapM metadatumToCore l); [|by rewrite E].
    induction IH as [|x l Hx _ IHl]; [done|]. cbn. by rewrite Hx, IHl.
Qed.

Lemma equals_plain c c' : isMetadatum c = true -> metadatumEquals (plain c) (plain c') = bool_decide (c = c').
Proof.
  revert c'. induction c as [z|s|l|l IH|m IH|] using Metadatum_rec'; intros c' Hc; [| | | | |done];
    destruct c' as [z'|s'|l'|l'|m'|]; try (symmetry; by apply bool_decide_eq_false).
  - apply eq_true_iff_eq. cbn. rewrite Z.eqb_eq, bool_decide_eq_true. split; [by intros ->|by intros [= ->]].
  - apply bool_decide_ext. split; [by intros ->|by intros [= ->]].
  - apply bool_decide_ext. split; [by intros ->|by intros [= ->]].
  - apply eq_true_iff_eq. rewrite bool_decide_eq_true. destruct (valid_list l Hc) as [_ Hl]. cbn. transitivity (l = l'); [|split; [by intros ->|by intros [= ->]]].
    clear Hc. revert l'. induction Hl as [|x l Hx _ IHl]; intros [|x' l']; cbn; try done. inversion_clear IH as [|? ? Ix Il].
    rewrite andb_true_iff, Ix, bool_decide_eq_true, IHl by done. split; [by intros [-> ->]|by intros [= -> ->]].
  - apply eq_true_iff_eq. rewrite bool_decide_eq_true. destruct (valid_map m Hc) as (_ & _ & Hm). cbn. transitivity (m = m'); [|split; [by intros ->|by intros [= ->]]].
    clear Hc. revert m'. induction Hm as [|[k v] m [Hk Hv] _ IHm]; intros [|[k' v'] m']; cbn; try done. inversion_clear IH as [|? ? [Ik Iv] Im]. cbn in *.
    rewrite !andb_true_iff, Ik, Iv, !bool_decide_eq_true, IHm by done. split; [by intros [[-> ->] ->]|by intros [= -> -> ->]].
Qed.

Lemma coreSet_new m k v : k ∉ m.*1 -> coreMetadatumSet m k v = m ++ [(k, v)].
Proof.
  induction m as [|[k' v'] m IH]; cbn; [done|]. intros [Hne Hn]%not_elem_of_cons. rewrite (IH Hn).
  assert (E : sameKey k' k = false); [|by rewrite E]. apply not_true_is_false. intros E. apply Hne.
  destruct k', k; try done; cbn in E; [apply Z.eqb_eq in E|apply bool_decide_eq_true in E]; by subst.
Qed.

Lemma get_plain {A} (m : list (Metadatum * A)) k v : Forall (fun kv => isMetadatum kv.1 = true) m -> NoDup m.*1 -> (k, v) ∈ m ->
  MetadatumMap_get (map (fun e => (plain e.1, e.2)) m) (plain k) = Some v.
Proof.
  intros Hm. induction Hm as [|[k' v'] m Hk _ IH]; cbn; [by intros _ ?%elem_of_nil|]. intros [Hn Hd]%NoDup_cons [[= -> ->]|Hin]%elem_of_cons.
  - cbn in Hk. by rewrite equals_plain, bool_decide_eq_true_2.
  - cbn in Hk. rewrite equals_plain, bool_decide_eq_false_2; [by apply IH| |done]. intros ->. apply Hn. apply list_elem_of_fmap. by exists (k, v).
Qed.

Lemma metadatum_entries m es done_ : Forall (fun kv => isMetadatum kv.1 = true) m -> NoDup m.*1 -> m = done_ ++ es ->
  metadatumEntries (map (fun e => (plain e.1, e.2)) (map (fun e : Metadatum * Metadatum => (e.1, Ok e.2)) m))
    (map (fun e : Metadatum * Metadatum => (plain e.1, Ok e.1)) es) done_ = Ok m.
Proof.
  intros Hv Hd. revert done_. induction es as [|[k v] es IH]; intros done_ E; [by rewrite app_nil_r in E; rewrite E|]. cbn [map metadatumEntries fst snd mbind outcome_bind].
  rewrite (get_plain (map (fun e : Metadatum * Metadatum => (e.1, Ok e.2)) m) k (Ok v)).
  - cbn [default from_option id mbind outcome_bind]. rewrite coreSet_new; [apply IH; by rewrite <- app_assoc|].
    rewrite E, fmap_app, NoDup_app in Hd. destruct Hd as (_ & Hdis & _). intros Hin. apply (Hdis k Hin). cbn. by left.
  - apply List.Forall_map. exact Hv.
  - change (map ?f m) with (f <$> m). rewrite <- list_fmap_compose. exact Hd.
  - rewrite E, map_app. apply elem_of_app. right. cbn. by left.
Qed.

Lemma metadatum_toCore c : isMetadatum c = true -> metadatumToCore (plain c) = Ok c.
Proof.
  induction c as [z|s|l|l IH|m IH|] using Metadatum_rec'; intros Hc; try done.
  - destruct (valid_list l Hc) as [_ Hl]. cbn. assert (E : mapM metadatumToCore (map plain l) = Ok l); [|by rewrite E].
    clear Hc. induction Hl as [|x l Hx _ IHl]; [done|]. inversion_clear IH as [|? ? Ix Il]. cbn. rewrite (Ix Hx). cbn. by rewrite IHl.
  - destruct (valid_map m Hc) as (_ & Hd & Hm). cbn [plain newMetadatumMap metadatumToCore]. rewrite !map_map.
    assert (E : metadatumEntries (map (fun e => (plain e.1, e.2)) (map (fun e : Metadatum * Metadatum => (e.1, Ok e.2)) m))
      (map (fun e : Metadatum * Metadatum => (plain e.1, Ok e.1)) m) [] = Ok m).
    { apply metadatum_entries; [|done..]. eapply Forall_impl; [exact Hm|]. by intros kv [? _]. }
    rewrite map_map in E. cbv zeta.
    assert (E1 : map (fun x : Metadatum * Metadatum => let (k, v) := let (k, v) := x in (plain k, plain v) in (k, metadatumToCore v)) m =
      map (fun x => (plain x.1, Ok x.2)) m).
    { clear E Hd Hc. induction Hm as [|[k v] m [_ Hv] _ IHm]; [done|]. inversion_clear IH as [|? ? [Ik Iv] Im]. cbn in *. by rewrite (Iv Hv), IHm. }
    assert (E2 : map (fun x : Metadatum * Metadatum => let (k, _) := let (k, v) := x in (plain k, plain v) in (k, metadatumToCore k)) m =
      map (fun x => (plain x.1, Ok x.1)) m).
    { clear E E1 Hd Hc. induction Hm as [|[k v] m [Hk _] _ IHm]; [done|]. inversion_clear IH as [|? ? [Ik Iv] Im]. cbn in *. by rewrite (Ik Hk), IHm. }
    rewrite E1, E2. cbn [fst snd] in E. by rewrite E.
Qed.

(** ** The decoder ends on every blob *)

Section ends.
Context (f : string -> Res TransactionMetadatum) (cbor : string).
Context (Hz : zlen (Buffer_from_hex cbor) < 2 ^ 53).
Context (Hf : forall h, bytes (Buffer_from_hex h) -> zlen (Buffer_from_hex h) < zlen (Buffer_from_hex cbor) -> f h <> OutOfFuel).

Lemma metadatumList_ends : MetadatumList_fromCbor f cbor <> OutOfFuel.
Proof.
  apply after_first; [intros r Hw; by eapply enter_runs; [apply readStartArray_enters|]| |done].
  intros n r Hw Ho Hd. eapply runs_bind.
  - apply readWhileNot_runs; [|done]. intros r1 Hr1 Hw1. apply (nested_runs f r r1 Hw Ho Hr1). rewrite Hd. exact Hf.
  - intros l r1 Hr1 _. pose proof (rtc_step_wf _ _ Hr1 Hw). eapply runs_bind; [apply leave_runs; [apply readEndArray_leaves|done]|].
    intros. by apply runs_ret.
Qed.

Lemma metadatumMap_ends : MetadatumMap_fromCbor f cbor <> OutOfFuel.
Proof.
  apply after_first; [intros r Hw; by eapply enter_runs; [apply readStartMap_enters|]| |done].
  intros n r Hw Ho Hd. eapply runs_bind.
  - apply readWhileNot_runs; [|done]. intros r1 Hr1 Hw1.
    eapply runs_bind; [apply (nested_runs f r r1 Hw Ho Hr1); rewrite Hd; exact Hf|]. cbv beta. intros k r2 Hr2 Ho2.
    eapply runs_bind; [apply (nested_runs f r r2 Hw Ho ltac:(by etrans)); rewrite Hd; exact Hf|]. cbv beta.
    intros v r3 _ Ho3. apply runs_ret. lia.
  - intros l r1 Hr1 _. pose proof (rtc_step_wf _ _ Hr1 Hw). eapply runs_bind; [apply leave_runs; [apply readEndMap_leaves|done]|].
    intros. by apply runs_ret.
Qed.
End ends.

Lemma readMetadatum_runs f r0 : wf r0 -> (forall h, bytes (Buffer_from_hex h) -> zlen (Buffer_from_hex h) < zlen (data r0) -> f h <> OutOfFuel) ->
  runs r0 (readMetadatum f) (fun _ _ => True).
Proof.
  intros Hw Hf. unfold readMetadatum. eapply runs_bind; [by apply peekState_runs|]. intros s r Hr _.
  pose proof (rtc_step_wf _ _ Hr Hw) as Hwr. pose proof (rtc_step_data _ _ Hr) as Hdat.
  assert (Hscalar : forall A (m : M A) (g : A -> TransactionMetadatum), reads_item m -> runs r (x ← call m; mret (g x)) (fun _ _ => True)).
  { intros A m g Hm. eapply runs_bind; [by apply item_runs|]. intros. by apply runs_ret. }
  assert (Hbig : forall g : list Z -> TransactionMetadatum, runs r (call readTag ;; bytes ← call readByteString; mret (g bytes)) (fun _ _ => True)).
  { intros g. eapply runs_bind; [by apply readTag_runs|]. intros _ r1 Hr1 _. pose proof (rtc_step_wf _ _ Hr1 Hwr).
    eapply runs_bind; [by apply item_runs; [apply (readString_item ByteString)|]|]. intros. by apply runs_ret. }
  assert (Hwhole : forall A (g : string -> Res A), (forall h, zlen (Buffer_from_hex h) < 2 ^ 53 ->
      (forall h', bytes (Buffer_from_hex h') -> zlen (Buffer_from_hex h') < zlen (Buffer_from_hex h) -> f h' <> OutOfFuel) -> g h <> OutOfFuel) ->
      runs r (readNested g) (fun _ _ => True)).
  { intros A g Hg. eapply runs_impl; [apply readNested_runs; [done|]|done]. intros h Hb Hh. destruct (wf_offset r Hwr). pose proof (wf_size r Hwr).
    apply Hg; [lia|]. intros h' Hb' Hh'. apply Hf; [done|]. rewrite Hdat in Hh. lia. }
  destruct s; try apply runs_throw; try apply Hscalar; try apply (readString_item ByteString); try apply readInt_item; try apply readTextString_item.
  - eapply runs_bind; [apply Hwhole, metadatumList_ends|]. intros [b l] ? _ _. by apply runs_ret.
  - eapply runs_bind; [apply Hwhole, metadatumMap_ends|]. intros [b m] ? _ _. by apply runs_ret.
  - eapply runs_bind; [by apply peekTag_runs|]. intros tag ? _ ->. repeat case_bool; [by apply Hbig..|by apply runs_ret].
Qed.

Lemma metadatumFromCbor_ends fuel cbor : zlen (Buffer_from_hex cbor) < 2 ^ 53 -> (length (Buffer_from_hex cbor) < fuel)%nat ->
  metadatumFromCborFuel fuel cbor <> OutOfFuel.
Proof.
  revert cbor. induction fuel as [|fuel IH]; intros cbor Hz Hf; [lia|]. cbn [metadatumFromCborFuel].
  assert (Hd : decode (readMetadatum (metadatumFromCborFuel fuel)) cbor <> OutOfFuel).
  { eapply (decode_runs _ (fun _ _ => True)); [done|]. intros Hw. apply readMetadatum_runs; [done|].
    intros h Hb Hh. cbn in Hh. apply IH; [lia|unfold zlen in *; lia]. }
  unfold mbind, outcome_bind. by destruct (decode _ cbor).
Qed.

(** ** The interface *)

#[export] Instance metadatum_serializable : Serializable Metadatum TransactionMetadatum := {
  toCbor_of := metadatumToCbor;
  fromCbor_of := metadatumFromCbor;
  toCore_of := metadatumToCore;
  fromCore_of := metadatumFromCore;
  bytesOf := metadatumItem;
  validCore := isMetadatum;
  typed d := true
}.

Lemma setBytes_toCbor d h : h <> ""%string -> metadatumToCbor (setMetadatumBytes d h) = Ok h.
Proof. intros Hne. apply String.eqb_neq in Hne. by destruct d; cbn; rewrite Hne. Qed.

Lemma hex_not_empty l : field l -> Buffer_to_hex l <> ""%string.
Proof.
  intros [Hi Hb] E. apply (f_equal Buffer_from_hex) in E. rewrite Buffer_hex_roundtrip in E by done. by destruct (item_first l Hi) as (b & k & -> & _).
Qed.

#[export] Instance metadatum_laws : SerializableLaws Metadatum TransactionMetadatum.
Proof.
  split; cbn [bytesOf validCore fromCore_of fromCbor_of metadatum_serializable].
  - apply metadatum_field.
  - apply metadatum_not_null.
  - intros c Hc. exists (plain c). split; [by apply metadatum_fromCore|]. split; [by apply metadatum_toCore|by apply metadatum_toCbor].
  - intros c Hc Hz. destruct (metadatum_field c Hc) as [Hi Hb].
    destruct (metadatum_decodes c Hc (S (length (metadatumItem c))) Hz ltac:(lia)) as (d & Ed & Es). exists d.
    unfold metadatumFromCbor, hexToBytes. rewrite Buffer_hex_roundtrip by done. split; [done|]. split.
    + cbn. rewrite <- toCore_strip, Es. by apply metadatum_toCore.
    + cbn [metadatumFromCborFuel] in Ed. revert Ed. cbn. destruct (decode _ _) as [d0|e|]; [|done..]. intros [= <-]. apply setBytes_toCbor. by apply hex_not_empty.
  - intros cbor Hz. split; [|done]. apply metadatumFromCbor_ends; [done|]. unfold hexToBytes. lia.
Qed.

Import CborReader CborWriterFacts.

(** ** The metadata of a transaction *)

Section general.

Definition labelled (kv : Z * Metadatum) : list Z * list Z := (intBytes kv.1, metadatumItem kv.2).
Definition generalBytes (l : list (Z * Metadatum)) : list Z := mapBytes false (map labelled l).

Definition isGeneral (l : list (Z * Metadatum)) : bool :=
  (zlen l <? 2 ^ 53) && bool_decide (NoDup l.*1) && forallb (fun kv => isInt64 kv.1 && isMetadatum kv.2) l.

Lemma general_spec l : isGeneral l = true -> 0 <= zlen l < 2 ^ 53 /\ NoDup l.*1 /\
  Forall (fun kv => isInt64 kv.1 = true /\ isMetadatum kv.2 = true) l.
Proof.
  intros [[Hz Hd]%andb_true_iff Hl]%andb_true_iff. zb. pose proof (zlen_nonneg l). split_and!; [lia..|by apply bool_decide_eq_true in Hd|].
  eapply Forall_impl; [exact (forallb_Forall _ _ Hl)|]. by intros kv [? ?]%andb_true_iff.
Qed.

(** The object holds the metadata, label by label. *)
Definition generalIs (l : list (Z * Metadatum)) (g : GeneralTransactionMetadata.t) : Prop :=
  Forall2 (fun kv e => e.1 = kv.1 /\ standsFor kv.2 e.2) l (GeneralTransactionMetadata.metadata g) /\ GeneralTransactionMetadata.originalBytes g = None.

Lemma general_field l : isGeneral l = true -> field (generalBytes l).
Proof.
  intros (Hz & _ & Hl)%general_spec. apply entries_field; [|lia]. eapply Forall_impl; [exact Hl|]. intros kv [Hk Hv].
  split; [by apply field_int|by apply metadatum_field].
Qed.

Lemma general_keys l m : Forall2 (fun (kv : Z * Metadatum) (e : Z * TransactionMetadatum) => e.1 = kv.1 /\ standsFor kv.2 e.2) l m -> m.*1 = l.*1.
Proof. induction 1 as [|kv e l m [Hk _] _ IH]; [done|]. cbn. by rewrite Hk, IH. Qed.

Lemma general_of_entries l m : isGeneral l = true -> Forall2 (fun (kv : Z * Metadatum) (e : Z * TransactionMetadatum) => e.1 = kv.1 /\ standsFor kv.2 e.2) l m ->
  generalIs l (GeneralTransactionMetadata.new (JsMap.of_entries m)).
Proof.
  intros (_ & Hd & _)%general_spec Hm. split; [|done]. cbn. rewrite JsMapFacts.of_entries_nodup; [done|].
  unfold JsMap.wf, JsMap.keys. by rewrite (general_keys _ _ Hm).
Qed.

Lemma general_toCore l g : isGeneral l = true -> generalIs l g -> GeneralTransactionMetadata.toCore g = Ok l.
Proof.
  intros (_ & Hd & _)%general_spec [Hm _]. unfold GeneralTransactionMetadata.toCore.
  assert (E : mapM (fun entry : Z * TransactionMetadatum => v ← metadatumToCore entry.2; Ok (entry.1, v)) (GeneralTransactionMetadata.metadata g) = Ok l).
  { clear Hd. induction Hm as [|[k c] [k' d] l m [Hk [Hs _]] _ IH]; [done|]. cbn in *. rewrite Hs. cbn. rewrite IH. cbn. by rewrite Hk. }
  rewrite E. cbn. by rewrite JsMapFacts.of_entries_nodup.
Qed.

Lemma general_toCbor l g : isGeneral l = true -> generalIs l g -> GeneralTransactionMetadata.toCbor g = Ok (Buffer_to_hex (generalBytes l)).
Proof.
  intros (Hz & _ & Hl)%general_spec [Hm Ho]. unfold GeneralTransactionMetadata.toCbor, cached, remembered. rewrite Ho. apply encode_emits.
  unfold generalBytes, mapBytes. rewrite zlen_map. assert (Ez : JsMap.size (GeneralTransactionMetadata.metadata g) = zlen l).
  { unfold JsMap.size, zlen. by rewrite (Forall2_length _ _ _ Hm). }
  rewrite Ez. apply emits_bind; [apply emits_call, writeTypeValue_head; lia|]. apply emits_forEach. rewrite map_map. clear Hz Ez Ho.
  induction Hm as [|[k c] [k' d] l m [Hk Hs] _ IH]; [constructor|]. inversion_clear Hl as [|? ? [Vk Vc] Hl']. cbn [fst snd] in *. constructor; [|by apply IH].
  subst k'. apply emits_bind; [by apply emits_int|]. by apply (@nested_emits _ _ metadatum_serializable metadatum_laws).
Qed.

Lemma general_fromCore l : isGeneral l = true -> exists g, GeneralTransactionMetadata.fromCore l = Ok g /\ generalIs l g.
Proof.
  intros Hg. destruct (general_spec l Hg) as (_ & _ & Hl). unfold GeneralTransactionMetadata.fromCore.
  assert (E : exists m, mapM (fun entry : Z * Metadatum => v ← metadatumFromCore entry.2; Ok (entry.1, v)) l = Ok m /\
    Forall2 (fun (kv : Z * Metadatum) (e : Z * TransactionMetadatum) => e.1 = kv.1 /\ standsFor kv.2 e.2) l m).
  { clear Hg. induction Hl as [|[k c] l [_ Hc] _ (m & E & Hm)]; [by exists []|]. cbn [fst snd] in *.
    destruct (@fromCore_standsFor _ _ metadatum_serializable metadatum_laws c Hc) as (d & Ed & Hd). exists ((k, d) :: m). split; [|by constructor].
    cbn in *. rewrite Ed. cbn. by rewrite E. }
  destruct E as (m & -> & Hm). cbn. eexists. split; [reflexivity|by apply general_of_entries].
Qed.

Lemma general_reads l : isGeneral l = true -> zlen (generalBytes l) < 2 ^ 53 -> exists g, GeneralTransactionMetadata.fromCbor (Buffer_to_hex (generalBytes l)) = Ok g /\ generalIs l g.
Proof.
  intros Hg Hsz. destruct (general_spec l Hg) as (Hz & _ & Hl). destruct (general_field l Hg) as [_ Hb].
  set (body := (label ← call readInt; metadatum ← readNested metadatumFromCbor; mret (label, metadatum)) : Dec (Z * TransactionMetadatum)).
  assert (Hel : exists m, elements 2 body (map entryBytes (map labelled l)) m /\
    Forall2 (fun (kv : Z * Metadatum) (e : Z * TransactionMetadatum) => e.1 = kv.1 /\ standsFor kv.2 e.2) l m).
  { assert (Hs : zlen (concat (map entryBytes (map labelled l))) < 2 ^ 53).
    { unfold generalBytes, mapBytes in Hsz. rewrite zlen_app in Hsz. pose proof (zlen_nonneg (CborWriter.head Map (zlen (map labelled l)))). lia. }
    clear Hg Hz Hb Hsz. induction Hl as [|[k c] l [Hk Hc] _ IH]; [exists []; by split; [constructor|]|]. cbn [map concat fst snd] in *. unfold entryBytes in Hs at 1. unfold labelled in Hs at 1 2.
    cbn [fst snd] in Hs. rewrite !zlen_app in Hs. pose proof (zlen_nonneg (intBytes k)). pose proof (zlen_nonneg (metadatumItem c)).
    pose proof (zlen_nonneg (concat (map entryBytes (map labelled l)))). destruct IH as (m & Hm & Hst); [lia|].
    destruct (@nested_reads _ _ metadatum_serializable metadatum_laws c Hc) as (d & Rd & Hd); [cbn; lia|]. exists ((k, d) :: m). split; [|by constructor].
    constructor; [|done]. destruct (metadatum_field c Hc), (field_int k Hk). split; [by exists (intBytes k), (metadatumItem c)|].
    apply (readsN_bind 1 1 _ _ (intBytes k) (metadatumItem c) k); [lia|lia|by apply reads_int|].
    by apply (reads_fmap 1 _ (fun metadatum => (k, metadatum))). }
  destruct Hel as (m & Hel & Hm). exists (GeneralTransactionMetadata.new (JsMap.of_entries m)). split; [|by apply general_of_entries].
  apply decode_reads; [|done..]. eapply (readsN_ext 1 _ (m ← readMapOf body; mret (GeneralTransactionMetadata.new (JsMap.of_entries m)))).
  { intros r. unfold readMapOf, body. same_program. }
  apply (reads_fmap 1 _ (fun m => GeneralTransactionMetadata.new (JsMap.of_entries m))). apply readMapOf_reads; [rewrite zlen_map; lia|done|].
  apply List.Forall_map. eapply Forall_impl; [exact Hl|]. intros kv [Hk Hv]. by destruct (metadatum_field _ Hv), (field_int _ Hk).
Qed.

#[export] Instance general_serializable : Serializable (list (Z * Metadatum)) GeneralTransactionMetadata.t := {
  toCbor_of := GeneralTransactionMetadata.toCbor;
  fromCbor_of := GeneralTransactionMetadata.fromCbor;
  toCore_of := GeneralTransactionMetadata.toCore;
  fromCore_of := GeneralTransactionMetadata.fromCore;
  bytesOf := generalBytes;
  validCore := isGeneral;
  typed g := true
}.

Lemma general_accepts : accepts GeneralTransactionMetadata.fromCbor (fun _ => True).
Proof.
  apply (accepts_decode (fun _ => _)). intros _. apply (sound_ext _ (m ← readMapOf (label ← call readInt; metadatum ← readNested metadatumFromCbor; mret (label, metadatum)); mret (GeneralTransactionMetadata.new (JsMap.of_entries m)))).
  { intros r. unfold readMapOf. same_program. }
  eapply sound_bind; [apply (sound_map _ (fun _ => True))|intros; by apply sound_ret].
  eapply advances_bind; [apply advances_item, readInt_item|]. intros k _.
  eapply sound_bind; [apply (@nested_sound _ _ metadatum_serializable metadatum_laws)|]. intros d _. by apply sound_ret.
Qed.

#[export] Instance general_laws : SerializableLaws (list (Z * Metadatum)) GeneralTransactionMetadata.t.
Proof.
  split; cbn [bytesOf validCore fromCore_of fromCbor_of general_serializable].
  - apply general_field.
  - intros l (Hz & _)%general_spec. apply (starts_not_null Map); [done|]. apply starts_head. rewrite zlen_map. lia.
  - intros l Hl. destruct (general_fromCore l Hl) as (g & E & Hg). exists g. split; [done|]. split; [by apply general_toCore|by apply general_toCbor].
  - intros l Hl Hz. destruct (general_reads l Hl Hz) as (g & E & Hg). exists g. split; [done|]. split; [by apply general_toCore|by apply general_toCbor].
  - eapply accepts_weaken; [apply general_accepts|]. done.
Qed.
End general.

(** ** Auxiliary data *)

(** The scripts come in the order in which the class returns them. *)
Definition auxGrouped (l : list CoreAnyScript) : list CoreAnyScript :=
  (CorePlutus <$> plutusOf V1 l) ++ (CorePlutus <$> plutusOf V2 l) ++ (CorePlutus <$> plutusOf V3 l) ++ (CorePlutus <$> plutusOf V4 l) ++
  (CoreNative <$> nativeOf l).

Definition auxScripts (c : CoreAuxiliaryData) : list CoreAnyScript := default [] (auxiliaryScripts c).

#[local] Abbreviation plutusList v := (@listBytes _ _ (plutus_serializable v)).

Definition auxEntries (c : CoreAuxiliaryData) : list (Z * list Z) :=
  optionalEntry 0 generalBytes (blob c) ++
  optionalEntry 1 listBytes (nonEmpty (nativeOf (auxScripts c))) ++
  optionalEntry 2 (plutusList V1) (nonEmpty (plutusOf V1 (auxScripts c))) ++
  optionalEntry 3 (plutusList V2) (nonEmpty (plutusOf V2 (auxScripts c))) ++
  optionalEntry 4 (plutusList V3) (nonEmpty (plutusOf V3 (auxScripts c))) ++
  optionalEntry 5 (plutusList V4) (nonEmpty (plutusOf V4 (auxScripts c))).

(** Metadata alone, with native scripts alone, or the tagged map of the rest. *)
Definition auxBytes (c : CoreAuxiliaryData) : list Z :=
  match blob c, auxScripts c with
  | Some g, [] => generalBytes g
  | Some g, scripts =>
      if bool_decide (CoreNative <$> nativeOf scripts = scripts) then recordBytes [generalBytes g; listBytes (nativeOf scripts)]
      else tagBytes 259 (keyedBytes (auxEntries c))
  | None, _ => tagBytes 259 (keyedBytes (auxEntries c))
  end.

Definition isAuxiliary (c : CoreAuxiliaryData) : bool :=
  (validOption (T := GeneralTransactionMetadata.t) (blob c) && notEmpty (blob c)) &&
  (notEmpty (auxiliaryScripts c) && bool_decide (auxGrouped (auxScripts c) = auxScripts c)) &&
  (validList (nativeOf (auxScripts c)) &&
    forallb (fun v => forallb isPlutusScript (plutusOf v (auxScripts c)) && (zlen (plutusOf v (auxScripts c)) <? 2 ^ 53)) [V1; V2; V3; V4]).

Record auxParts (c : CoreAuxiliaryData) : Prop := {
  aux_blob : validOption (T := GeneralTransactionMetadata.t) (blob c) = true;
  aux_some : blob c <> Some [] /\ auxiliaryScripts c <> Some [];
  aux_order : auxGrouped (auxScripts c) = auxScripts c;
  aux_native : validList (nativeOf (auxScripts c)) = true;
  aux_plutus v : @validList _ _ (plutus_serializable v) (plutusOf v (auxScripts c)) = true
}.

Lemma aux_parts c : isAuxiliary c = true -> auxParts c.
Proof.
  unfold isAuxiliary. rewrite !andb_true_iff, !bool_decide_eq_true. intros [[[Hb Hbe] [Hse Ho]] [Hn Hp]].
  split; try done; [by split; apply notEmpty_some|]. intros v. rewrite forallb_forall in Hp. apply plutusOf_valid, Hp. destruct v; cbn; tauto.
Qed.

Lemma nonEmpty_Some {A} (l k : list A) : nonEmpty l = Some k -> k = l.
Proof. by destruct l; cbn; intros [= <-]. Qed.

Lemma nonEmpty_validList {C T} `{Serializable C T} l : validList l = true -> forall k, nonEmpty l = Some k -> validList k = true.
Proof. by intros Hl k ->%nonEmpty_Some. Qed.

Lemma aux_entries_field c : auxParts c -> Forall (fun e => isInt64 e.1 = true /\ field e.2) (auxEntries c).
Proof.
  intros [Hb _ _ Hn Hp]. unfold auxEntries. repeat (apply Forall_app; split).
  - by apply (@optional_entries_field _ _ general_serializable general_laws).
  - apply (@list_entries_field _ _ native_serializable native_laws); [done|by apply nonEmpty_validList].
  - apply (@list_entries_field _ _ (plutus_serializable V1) (plutus_laws V1)); [done|by apply nonEmpty_validList, Hp].
  - apply (@list_entries_field _ _ (plutus_serializable V2) (plutus_laws V2)); [done|by apply nonEmpty_validList, Hp].
  - apply (@list_entries_field _ _ (plutus_serializable V3) (plutus_laws V3)); [done|by apply nonEmpty_validList, Hp].
  - apply (@list_entries_field _ _ (plutus_serializable V4) (plutus_laws V4)); [done|by apply nonEmpty_validList, Hp].
Qed.

Lemma aux_entries_length c : 0 <= zlen (auxEntries c) <= 6.
Proof. unfold auxEntries. rewrite !zlen_app, !optional_length. repeat case_match; lia. Qed.

(** The three encodings. *)
Inductive auxForm (c : CoreAuxiliaryData) : Prop :=
| form_metadata g : blob c = Some g -> auxScripts c = [] -> auxForm c
| form_array g : blob c = Some g -> nativeOf (auxScripts c) <> [] -> CoreNative <$> nativeOf (auxScripts c) = auxScripts c -> auxForm c
| form_map : (blob c = None \/ CoreNative <$> nativeOf (auxScripts c) <> auxScripts c) ->
    auxBytes c = tagBytes 259 (keyedBytes (auxEntries c)) -> auxForm c.

Lemma aux_form c : auxForm c.
Proof.
  destruct (blob c) as [g|] eqn:Eb; [|apply form_map; [by left|unfold auxBytes; by rewrite Eb]].
  destruct (auxScripts c) as [|s l] eqn:Es; [by eapply form_metadata|].
  destruct (decide (CoreNative <$> nativeOf (auxScripts c) = auxScripts c)) as [E|E].
  - eapply form_array; [done| |done]. intros En. rewrite En, Es in E. done.
  - apply form_map; [by right|]. unfold auxBytes. rewrite Eb, Es, <- Es. by rewrite bool_decide_eq_false_2.
Qed.

Lemma array_bytes c g : blob c = Some g -> nativeOf (auxScripts c) <> [] -> CoreNative <$> nativeOf (auxScripts c) = auxScripts c ->
  auxBytes c = recordBytes [generalBytes g; listBytes (nativeOf (auxScripts c))].
Proof. intros Eb Hn E. unfold auxBytes. rewrite Eb. destruct (auxScripts c) eqn:Es; [done|]. rewrite <- Es in *. by rewrite bool_decide_eq_true_2. Qed.

Lemma metadata_bytes c g : blob c = Some g -> auxScripts c = [] -> auxBytes c = generalBytes g.
Proof. intros Eb Es. unfold auxBytes. by rewrite Eb, Es. Qed.

Lemma plutus_of_native v l : plutusOf v (CoreNative <$> l) = [].
Proof. by induction l. Qed.

Lemma aux_array_fields c g : auxParts c -> blob c = Some g -> Forall field [generalBytes g; listBytes (nativeOf (auxScripts c))].
Proof.
  intros [Hb _ _ Hn _] E. rewrite E in Hb. repeat constructor; try by apply general_field. all: by apply list_field.
Qed.

Lemma aux_map_field c : auxParts c -> field (tagBytes 259 (keyedBytes (auxEntries c))).
Proof. intros Hc. pose proof (aux_entries_length c). apply field_tag; [lia|]. apply keyed_field; [lia|by apply aux_entries_field]. Qed.

Lemma aux_field c : auxParts c -> field (auxBytes c).
Proof.
  intros Hc. destruct (aux_form c) as [g Eb Es|g Eb Hn E|_ ->]; [| |by apply aux_map_field].
  - rewrite (metadata_bytes c g) by done. destruct Hc as [Hb _ _ _ _]. rewrite Eb in Hb. by apply general_field.
  - rewrite (array_bytes c g) by done. apply field_record; [done|by apply aux_array_fields].
Qed.

(** *** What the objects hold *)

Record auxIs (c : CoreAuxiliaryData) (a : AuxiliaryData.t) : Prop := {
  ais_metadata : standsForOption (H := general_serializable) (blob c) (AuxiliaryData.metadata a);
  ais_native : listIs (H := native_serializable) (nonEmpty (nativeOf (auxScripts c))) (AuxiliaryData.nativeScripts a);
  ais_v1 : listIs (H := plutus_serializable V1) (nonEmpty (plutusOf V1 (auxScripts c))) (AuxiliaryData.plutusV1Scripts a);
  ais_v2 : listIs (H := plutus_serializable V2) (nonEmpty (plutusOf V2 (auxScripts c))) (AuxiliaryData.plutusV2Scripts a);
  ais_v3 : listIs (H := plutus_serializable V3) (nonEmpty (plutusOf V3 (auxScripts c))) (AuxiliaryData.plutusV3Scripts a);
  ais_v4 : listIs (H := plutus_serializable V4) (nonEmpty (plutusOf V4 (auxScripts c))) (AuxiliaryData.plutusV4Scripts a)
}.

Lemma aux_sized {C T} `{Serializable C T} (l : list C) (x : option (list T)) : listIs (nonEmpty l) x -> AuxiliaryData.sized x = x.
Proof.
  destruct l as [|c l], x as [os|]; try done. intros Ho%Forall2_length. unfold AuxiliaryData.sized, zlen. by rewrite <- Ho.
Qed.

Lemma aux_count {C T} `{Serializable C T} key (f : list C -> list Z) (l : list C) (x : option (list T)) : listIs (nonEmpty l) x ->
  AuxiliaryData.count x = zlen (optionalEntry key f (nonEmpty l)).
Proof. rewrite optional_length. by destruct l, x. Qed.

Lemma aux_sizedMetadata o x : standsForOption (H := general_serializable) o x -> o <> Some [] -> AuxiliaryData.sizedMetadata x = x.
Proof.
  destruct o as [l|], x as [g|]; try done. intros [Hs _] Hne. unfold AuxiliaryData.sizedMetadata, JsMap.size.
  destruct (GeneralTransactionMetadata.metadata g) eqn:E; [|done]. cbn in Hs. unfold GeneralTransactionMetadata.toCore in Hs. rewrite E in Hs.
  cbn in Hs. by injection Hs as <-.
Qed.

(** The parts that are written are the parts there are. *)
Lemma aux_sizes c a : auxParts c -> auxIs c a ->
  AuxiliaryData.sizedMetadata (AuxiliaryData.metadata a) = AuxiliaryData.metadata a /\
  AuxiliaryData.sized (AuxiliaryData.nativeScripts a) = AuxiliaryData.nativeScripts a /\
  AuxiliaryData.sized (AuxiliaryData.plutusV1Scripts a) = AuxiliaryData.plutusV1Scripts a /\
  AuxiliaryData.sized (AuxiliaryData.plutusV2Scripts a) = AuxiliaryData.plutusV2Scripts a /\
  AuxiliaryData.sized (AuxiliaryData.plutusV3Scripts a) = AuxiliaryData.plutusV3Scripts a /\
  AuxiliaryData.sized (AuxiliaryData.plutusV4Scripts a) = AuxiliaryData.plutusV4Scripts a.
Proof.
  intros [_ [Hb _] _ _ _] [Sm Sn S1 S2 S3 S4]. split_and!; [by eapply aux_sizedMetadata|by eapply aux_sized..].
Qed.

Lemma aux_size c a : auxParts c -> auxIs c a -> AuxiliaryData.getMapSize a = zlen (auxEntries c).
Proof.
  intros Hp Ha. unfold AuxiliaryData.getMapSize. destruct (aux_sizes c a Hp Ha) as (-> & -> & -> & -> & -> & ->).
  destruct Ha as [Sm Sn S1 S2 S3 S4]. unfold auxEntries. rewrite !zlen_app.
  rewrite (aux_count 1 listBytes _ _ Sn), (aux_count 2 (plutusList V1) _ _ S1), (aux_count 3 (plutusList V2) _ _ S2),
    (aux_count 4 (plutusList V3) _ _ S3), (aux_count 5 (plutusList V4) _ _ S4).
  assert (E : AuxiliaryData.count (AuxiliaryData.metadata a) = zlen (optionalEntry 0 generalBytes (blob c))).
  { rewrite optional_length. by destruct (blob c), (AuxiliaryData.metadata a). }
  rewrite E. lia.
Qed.

(** *** Writing *)

Lemma writeTagged_emits c a : auxParts c -> auxIs c a -> emits (AuxiliaryData.writeTagged a) (tagBytes 259 (keyedBytes (auxEntries c))).
Proof.
  intros Hp Ha. pose proof (aux_entries_length c). unfold AuxiliaryData.writeTagged. apply emits_tag; [lia|]. rewrite (aux_size c a Hp Ha).
  destruct (aux_sizes c a Hp Ha) as (-> & -> & -> & -> & -> & ->). apply keyed_emits; [done|lia|].
  destruct Hp as [Hb _ _ Hn Hv], Ha as [Sm Sn S1 S2 S3 S4]. unfold auxEntries.
  apply fields_emits; [by apply (@field_emits _ _ general_serializable general_laws)|].
  apply fields_emits; [by apply (@list_field_emits _ _ native_serializable native_laws); [|apply nonEmpty_validList|]|].
  apply fields_emits; [by apply (@list_field_emits _ _ (plutus_serializable V1) (plutus_laws V1)); [|apply nonEmpty_validList, Hv|]|].
  apply fields_emits; [by apply (@list_field_emits _ _ (plutus_serializable V2) (plutus_laws V2)); [|apply nonEmpty_validList, Hv|]|].
  apply fields_emits; [by apply (@list_field_emits _ _ (plutus_serializable V3) (plutus_laws V3)); [|apply nonEmpty_validList, Hv|]|].
  by apply (@list_field_emits _ _ (plutus_serializable V4) (plutus_laws V4)); [|apply nonEmpty_validList, Hv|].
Qed.

(** Only metadata, or metadata and native scripts, in terms of the entries. *)
Lemma aux_entries_metadata c g : auxParts c -> blob c = Some g -> zlen (auxEntries c) = 1 -> auxScripts c = [].
Proof.
  intros [_ _ Ho _ _] Eb. unfold auxEntries. rewrite !zlen_app, !optional_length, Eb. intros Hz. rewrite <- Ho. unfold auxGrouped.
  destruct (nativeOf _), (plutusOf V1 _), (plutusOf V2 _), (plutusOf V3 _), (plutusOf V4 _); cbn [nonEmpty] in Hz; try lia. done.
Qed.

Lemma aux_entries_native c g : auxParts c -> blob c = Some g -> nativeOf (auxScripts c) <> [] -> zlen (auxEntries c) = 2 ->
  CoreNative <$> nativeOf (auxScripts c) = auxScripts c.
Proof.
  intros [_ _ Ho _ _] Eb Hn. unfold auxEntries. rewrite !zlen_app, !optional_length, Eb. intros Hz. rewrite <- Ho at 2. unfold auxGrouped.
  destruct (nativeOf _), (plutusOf V1 _), (plutusOf V2 _), (plutusOf V3 _), (plutusOf V4 _); cbn [nonEmpty] in Hz; try lia; done.
Qed.

Lemma aux_metadata_entries c g : blob c = Some g -> auxScripts c = [] -> zlen (auxEntries c) = 1.
Proof. intros Eb Es. unfold auxEntries. by rewrite !zlen_app, !optional_length, Eb, Es. Qed.

Lemma aux_native_entries c g : blob c = Some g -> nativeOf (auxScripts c) <> [] -> CoreNative <$> nativeOf (auxScripts c) = auxScripts c ->
  zlen (auxEntries c) = 2.
Proof.
  intros Eb Hn E. unfold auxEntries. rewrite !zlen_app, !optional_length, Eb. assert (Hv : forall v, plutusOf v (auxScripts c) = []).
  { intros v. rewrite <- E. apply plutus_of_native. }
  rewrite !Hv. by destruct (nativeOf _).
Qed.

Lemma aux_toCbor c a : auxParts c -> auxIs c a -> AuxiliaryData.originalBytes a = None -> AuxiliaryData.toCbor a = Ok (Buffer_to_hex (auxBytes c)).
Proof.
  intros Hp Ha Ho. unfold AuxiliaryData.toCbor, cached, remembered. rewrite Ho. apply encode_emits. cbv zeta. rewrite (aux_size c a Hp Ha).
  pose proof (writeTagged_emits c a Hp Ha) as Ht. destruct (aux_sizes c a Hp Ha) as (-> & -> & _). pose proof Hp as [Hb _ _ Hn _]. pose proof Ha as [Sm Sn _ _ _ _].
  unfold AuxiliaryData.SHELLEY_ERA_FIELDS_COUNT. destruct (aux_form c) as [g Eb Es|g Eb Hne E|Hc ->].
  - rewrite (metadata_bytes c g), (aux_metadata_entries c g) by done. rewrite Eb in *. destruct (AuxiliaryData.metadata a); [|done].
    by apply (@nested_emits _ _ general_serializable general_laws).
  - rewrite (array_bytes c g), (aux_native_entries c g) by done. rewrite Eb in *. destruct (AuxiliaryData.metadata a); [|done].
    destruct (nativeOf (auxScripts c)) as [|n l]; [done|]. destruct (AuxiliaryData.nativeScripts a) as [os|]; [|done]. cbn [Z.eqb Pos.eqb].
    apply record_emits; [done|]. apply emits_fields; [by apply (@nested_emits _ _ general_serializable general_laws)|].
    apply emits_last. by apply (@list_emits _ _ native_serializable native_laws).
  - destruct (AuxiliaryData.metadata a) as [x|]; [|done]. destruct (blob c) as [g|] eqn:Eb; [|done]. destruct Hc as [|Hc]; [done|]. destruct (Z.eqb_spec (zlen (auxEntries c)) 1) as [E1|_].
    + by rewrite (aux_entries_metadata c g Hp Eb E1) in Hc.
    + destruct (AuxiliaryData.nativeScripts a) as [os|]; [|done]. destruct (Z.eqb_spec (zlen (auxEntries c)) 2); [|done]. destruct Hc. eapply aux_entries_native; [done..| |done].
      intros En. by rewrite En in Sn.
Qed.

(** *** Core values *)

Lemma aux_scripts_core v l x : listIs (H := plutus_serializable v) (nonEmpty l) x ->
  AuxiliaryData.scriptsToCore (fun p => CorePlutus (PlutusScript.toCore v p)) x = CorePlutus <$> l.
Proof.
  destruct l as [|p l], x as [os|]; try done. intros Ho. apply (@list_toCore _ _ (plutus_serializable v)), (mapM_Ok (PlutusScript.toCore v)) in Ho.
  cbn [AuxiliaryData.scriptsToCore]. by rewrite <- Ho, <- list_fmap_compose.
Qed.

Lemma aux_native_core l x : listIs (H := native_serializable) (nonEmpty l) x ->
  AuxiliaryData.scriptsToCore (fun n => CoreNative (NativeScript.toCore n)) x = CoreNative <$> l.
Proof.
  destruct l as [|p l], x as [os|]; try done. intros Ho. apply (@list_toCore _ _ native_serializable), (mapM_Ok NativeScript.toCore) in Ho.
  cbn [AuxiliaryData.scriptsToCore]. by rewrite <- Ho, <- list_fmap_compose.
Qed.

Lemma aux_toCore c a : auxParts c -> auxIs c a -> AuxiliaryData.toCore a = Ok c.
Proof.
  intros [_ [_ Hs] Ho _ _] [Sm Sn S1 S2 S3 S4]. unfold AuxiliaryData.toCore, AuxiliaryData.getCoreScripts.
  rewrite (aux_scripts_core V1 _ _ S1), (aux_scripts_core V2 _ _ S2), (aux_scripts_core V3 _ _ S3), (aux_scripts_core V4 _ _ S4), (aux_native_core _ _ Sn).
  fold (auxGrouped (auxScripts c)). rewrite Ho. cbv zeta.
  assert (E : (if 0 <? zlen (auxScripts c) then Some (auxScripts c) else None) = auxiliaryScripts c).
  { unfold auxScripts. by destruct (auxiliaryScripts c) as [[|s l]|]. }
  rewrite E. destruct c as [b s]. cbn in *. destruct b as [g|], (AuxiliaryData.metadata a) as [x|]; try done. destruct Sm as [Sm _].
  change (GeneralTransactionMetadata.toCore x = Ok g) in Sm. by rewrite Sm.
Qed.

Definition pushAll {T} (x : option (list T)) (l : list T) : option (list T) := match l with [] => x | _ => Some (default [] x ++ l) end.

Lemma push_all {T} x (s : T) l : pushAll (AuxiliaryData.push x s) l = pushAll x (s :: l).
Proof. destruct l; [done|]. cbn. by rewrite <- app_assoc. Qed.

Definition plutusObjects (v : PlutusLanguageVersion) (l : list CoreAnyScript) : list PlutusScript.t := (fun p => PlutusScript.new (plutusBytes p)) <$> plutusOf v l.

Lemma getCddlScripts_spec l a : AuxiliaryData.getCddlScripts l a = Ok {|
  AuxiliaryData.metadata := AuxiliaryData.metadata a;
  AuxiliaryData.nativeScripts := pushAll (AuxiliaryData.nativeScripts a) (NativeScript.fromCore <$> nativeOf l);
  AuxiliaryData.plutusV1Scripts := pushAll (AuxiliaryData.plutusV1Scripts a) (plutusObjects V1 l);
  AuxiliaryData.plutusV2Scripts := pushAll (AuxiliaryData.plutusV2Scripts a) (plutusObjects V2 l);
  AuxiliaryData.plutusV3Scripts := pushAll (AuxiliaryData.plutusV3Scripts a) (plutusObjects V3 l);
  AuxiliaryData.plutusV4Scripts := pushAll (AuxiliaryData.plutusV4Scripts a) (plutusObjects V4 l);
  AuxiliaryData.originalBytes := AuxiliaryData.originalBytes a |}.
Proof.
  revert a. induction l as [|s l IH]; intros a; [by destruct a|]. destruct s as [n|[b v]].
  - cbn [AuxiliaryData.getCddlScripts AuxiliaryData.pushScript mbind outcome_bind]. rewrite IH. cbn. by rewrite push_all.
  - destruct v; cbn [AuxiliaryData.getCddlScripts AuxiliaryData.pushScript version]; unfold PlutusV1Script.fromCore, PlutusV2Script.fromCore,
      PlutusV3Script.fromCore, PlutusV4Script.fromCore, PlutusScript.fromCore; cbn [version]; rewrite bool_decide_eq_true_2 by done; cbn [mbind outcome_bind]; rewrite IH; cbn; by rewrite push_all.
Qed.

Lemma plutus_mapM v l : Forall (fun p => version p = v) l ->
  mapM (PlutusScript.fromCore v) l = Ok ((fun p => PlutusScript.new (plutusBytes p)) <$> l).
Proof.
  induction 1 as [|p l Hp _ IH]; [done|]. assert (E : PlutusScript.fromCore v p = Ok (PlutusScript.new (plutusBytes p))).
  { unfold PlutusScript.fromCore. by rewrite bool_decide_eq_true_2. }
  cbn. rewrite E. cbn. by rewrite IH.
Qed.

Lemma plutus_objects v l : @validList _ _ (plutus_serializable v) (plutusOf v l) = true ->
  listIs (H := plutus_serializable v) (nonEmpty (plutusOf v l)) (pushAll None (plutusObjects v l)).
Proof.
  intros Hl. unfold plutusObjects. destruct (@list_fromCore _ _ (plutus_serializable v) (plutus_laws v) _ Hl) as (os & E & Hos).
  change (mapM (PlutusScript.fromCore v) (plutusOf v l) = Ok os) in E. rewrite plutus_mapM in E by apply plutusOf_version. injection E as <-.
  unfold plutusObjects. destruct (plutusOf v l) as [|p k]; [done|exact Hos].
Qed.

Lemma native_objects l : validList (nativeOf l) = true ->
  listIs (H := native_serializable) (nonEmpty (nativeOf l)) (pushAll None (NativeScript.fromCore <$> nativeOf l)).
Proof.
  intros Hl. destruct (@list_fromCore _ _ native_serializable native_laws _ Hl) as (os & E & Hos).
  apply (mapM_Ok NativeScript.fromCore) in E. subst os. destruct (nativeOf l) as [|n k]; [done|exact Hos].
Qed.

Lemma aux_fromCore c : auxParts c -> exists a, AuxiliaryData.fromCore c = Ok a /\ auxIs c a /\ AuxiliaryData.originalBytes a = None.
Proof.
  intros [Hb _ _ Hn Hp]. unfold AuxiliaryData.fromCore.
  assert (E : exists x, standsForOption (H := general_serializable) (blob c) x /\
    (match blob c with Some b => g ← GeneralTransactionMetadata.fromCore b; Ok (AuxiliaryData.setMetadata AuxiliaryData.new g) | None => Ok AuxiliaryData.new end : Res _) =
    Ok (AuxiliaryData.Build_t x None None None None None None)).
  { destruct (blob c) as [b|]; [|by exists None]. destruct (@fromCore_standsFor _ _ general_serializable general_laws b Hb) as (g & Eg & Hg).
    exists (Some g). split; [done|]. change (GeneralTransactionMetadata.fromCore b = Ok g) in Eg. by rewrite Eg. }
  destruct E as (x & Sx & ->). cbn [mbind outcome_bind].
  pose proof (native_objects _ Hn). pose proof (fun v => plutus_objects v _ (Hp v)). unfold auxScripts in *. destruct (auxiliaryScripts c) as [l|] eqn:El.
  - rewrite getCddlScripts_spec. eexists. split; [reflexivity|]. split; [|done]. split; unfold auxScripts; rewrite ?El; try done. all: apply H0.
  - eexists. split; [reflexivity|]. split; [|done]. split; unfold auxScripts; rewrite ?El; done.
Qed.

(** *** Reading *)

(** A decoder that looks at the first state before it reads an array. *)
Lemma decode_peek_completes {A} fs (k : CborReaderState.t -> Dec A) (k' : option Z -> Dec A) v : 1 <= zlen fs < 2 ^ 53 -> Forall field fs ->
  zlen (recordBytes fs) < 2 ^ 53 -> (forall r, k CborReaderState.StartArray r = (length ← call readStartArray; k' length) r) ->
  completes fs (k' (Some (zlen fs))) v -> decode (s ← call peekState; k s) (Buffer_to_hex (recordBytes fs)) = Ok v.
Proof.
  intros Hn Hf Hz Hk Hk'. destruct (field_record fs ltac:(lia) Hf) as [_ Hb]. unfold decode, new.
  rewrite Buffer_hex_roundtrip by done. pose proof (fresh_ready _ Hb Hz) as Hr. rewrite <- (app_nil_r (recordBytes fs)) in Hr at 2.
  set (r := of_bytes (recordBytes fs)) in *. clearbody r.
  assert (Es : peekStateCore r = Ok CborReaderState.StartArray).
  { exact (starts_state Array _ r [] ltac:(done) (starts_record fs ltac:(lia)) Hr). }
  etrans; [apply f_equal, (st_bind_ok _ _ _ _ _ (call_ok _ _ _ _ (peekState_ok r _ (ready_wf _ _ Hr) Es)))|]. rewrite Hk.
  pose proof (ready_cached _ _ _ Hr Es) as Hc. unfold recordBytes in Hc. rewrite <- app_assoc in Hc.
  destruct (record_inside (zlen fs) (concat fs) Hn _ [] Hc) as [E Hbf].
  etrans; [apply f_equal, (st_bind_ok _ _ _ _ _ (call_ok _ _ _ _ E))|]. apply Hk'. split; [by exists []|done..|by eexists _, _].
Qed.

Lemma dec_bind_assoc {A B C} (m : Dec A) (f : A -> Dec B) (g : B -> Dec C) r : ((m ≫= f) ≫= g) r = (m ≫= fun x => f x ≫= g) r.
Proof. unfold mbind, ST_bind. by destruct (m r) as [[]]. Qed.

Lemma decode_equal {A} (m m' : Dec A) h : (forall r, m r = m' r) -> decode m h = decode m' h.
Proof. intros E. unfold decode. by rewrite E. Qed.

Lemma leads_equal {S} (read : Z -> Dec (S -> S)) es s s1 s2 : leads read es s s1 -> s1 = s2 -> leads read es s s2.
Proof. by intros Hl <-. Qed.

Ltac aux_entry_size key := let E := fresh in intros ? E; eapply (optional_size _ key _ _ _ _ E); [|eassumption];
  intros ? ?; unfold auxEntries; rewrite !in_app_iff; tauto.

Lemma aux_keyed c : auxParts c -> zlen (keyedBytes (auxEntries c)) < 2 ^ 53 -> exists a,
  reads (readKeyed AuxiliaryData.readField AuxiliaryData.new) (keyedBytes (auxEntries c)) a /\ auxIs c a.
Proof.
  intros [Hb _ _ Hn Hp] Hz. set (read := AuxiliaryData.readField).
  destruct (@leads_field _ read _ _ general_serializable general_laws 0 AuxiliaryData.setMetadata eq_refl ltac:(done) (blob c))
    as (x0 & S0 & L0); [done|aux_entry_size 0|].
  destruct (@leads_list _ read _ _ native_serializable native_laws 1 AuxiliaryData.setNativeScripts eq_refl ltac:(done) (nonEmpty (nativeOf (auxScripts c))))
    as (x1 & S1 & L1); [by apply nonEmpty_validList|aux_entry_size 1|].
  destruct (@leads_list _ read _ _ (plutus_serializable V1) (plutus_laws V1) 2 AuxiliaryData.setPlutusV1Scripts eq_refl ltac:(done) (nonEmpty (plutusOf V1 (auxScripts c))))
    as (x2 & S2 & L2); [by apply nonEmpty_validList, Hp|aux_entry_size 2|].
  destruct (@leads_list _ read _ _ (plutus_serializable V2) (plutus_laws V2) 3 AuxiliaryData.setPlutusV2Scripts eq_refl ltac:(done) (nonEmpty (plutusOf V2 (auxScripts c))))
    as (x3 & S3 & L3); [by apply nonEmpty_validList, Hp|aux_entry_size 3|].
  destruct (@leads_list _ read _ _ (plutus_serializable V3) (plutus_laws V3) 4 AuxiliaryData.setPlutusV3Scripts eq_refl ltac:(done) (nonEmpty (plutusOf V3 (auxScripts c))))
    as (x4 & S4 & L4); [by apply nonEmpty_validList, Hp|aux_entry_size 4|].
  destruct (@leads_list _ read _ _ (plutus_serializable V4) (plutus_laws V4) 5 AuxiliaryData.setPlutusV4Scripts eq_refl ltac:(done) (nonEmpty (plutusOf V4 (auxScripts c))))
    as (x5 & S5 & L5); [by apply nonEmpty_validList, Hp|aux_entry_size 5|].
  exists (AuxiliaryData.Build_t x0 x1 x2 x3 x4 x5 None). split; [|by split].
  pose proof (aux_entries_length c). apply keyed_leads; [|lia]. unfold auxEntries.
  apply (leads_app _ _ _ _ (AuxiliaryData.Build_t x0 None None None None None None)); [eapply leads_equal; [apply L0|by destruct x0]|].
  apply (leads_app _ _ _ _ (AuxiliaryData.Build_t x0 x1 None None None None None)); [eapply leads_equal; [apply L1|by destruct x1]|].
  apply (leads_app _ _ _ _ (AuxiliaryData.Build_t x0 x1 x2 None None None None)); [eapply leads_equal; [apply L2|by destruct x2]|].
  apply (leads_app _ _ _ _ (AuxiliaryData.Build_t x0 x1 x2 x3 None None None)); [eapply leads_equal; [apply L3|by destruct x3]|].
  apply (leads_app _ _ _ _ (AuxiliaryData.Build_t x0 x1 x2 x3 x4 None None)); [eapply leads_equal; [apply L4|by destruct x4]|].
  eapply leads_equal; [apply L5|by destruct x5].
Qed.

Lemma aux_fromCbor c : auxParts c -> zlen (auxBytes c) < 2 ^ 53 -> exists a,
  AuxiliaryData.fromCbor (Buffer_to_hex (auxBytes c)) = Ok (AuxiliaryData.remember a (Buffer_to_hex (auxBytes c))) /\ auxIs c a.
Proof.
  intros Hp Hz. destruct (aux_field c Hp) as [_ Hby]. pose proof Hp as [Hb _ _ Hn _]. destruct (aux_form c) as [g Eb Es|g Eb Hne E|Hc E].
  - rewrite (metadata_bytes c g) in * by done. rewrite Eb in Hb.
    destruct (@nested_reads _ _ general_serializable general_laws g Hb Hz) as (x & Rx & Sx). exists (AuxiliaryData.setMetadata AuxiliaryData.new x).
    split; [|by split; rewrite ?Eb, ?Es]. apply decode_reads; [|done..].
    eapply readsN_ext; [intros r; unfold AuxiliaryData.readAuxiliaryData; rewrite dec_bind_assoc; reflexivity|].
    apply (reads_peek CborReaderState.StartMap).
    + intros r rest Hr. refine (starts_state Map _ r rest ltac:(done) _ Hr). apply starts_head. apply general_spec in Hb as [Hb _].
      unfold labelled. rewrite zlen_map. lia.
    + eapply readsN_ext; [intros r; rewrite dec_bind_assoc; reflexivity|]. eapply reads_last; [exact Rx|reflexivity].
  - rewrite (array_bytes c g) in * by done. rewrite Eb in Hb. pose proof (aux_array_fields c g Hp Eb) as Hf.
    set (fs := [generalBytes g; listBytes (nativeOf (auxScripts c))]) in *. pose proof (record_size fs) as Hs.
    assert (Hl : forall l, In l fs -> zlen l < 2 ^ 53) by (intros l Hl; apply part_size in Hl; lia).
    destruct (@nested_reads _ _ general_serializable general_laws g Hb (Hl _ ltac:(by left))) as (x & Rx & Sx).
    destruct (@list_reads _ _ native_serializable native_laws _ Hn (Hl _ ltac:(right; by left))) as (os & Ro & So).
    exists (AuxiliaryData.setNativeScripts (AuxiliaryData.setMetadata AuxiliaryData.new x) os). split.
    + etrans; [apply decode_equal; intros r; unfold AuxiliaryData.readAuxiliaryData; apply dec_bind_assoc|]. eapply decode_peek_completes; [done..| |].
      * intros r. rewrite dec_bind_assoc. reflexivity.
      * eapply completes_ext; [intros r; apply dec_bind_assoc|]. eapply completes_bind; [exact Rx|].
        eapply completes_ext; [intros r; apply dec_bind_assoc|]. eapply completes_bind; [exact Ro|]. by intros r _.
    + assert (Hv : forall v, plutusOf v (auxScripts c) = []) by (intros v; rewrite <- E; apply plutus_of_native).
      split; rewrite ?Eb, ?Hv; try done. cbn [AuxiliaryData.nativeScripts AuxiliaryData.setNativeScripts]. by destruct (nativeOf (auxScripts c)).
  - rewrite E in *. assert (Hz' : zlen (keyedBytes (auxEntries c)) < 2 ^ 53).
    { unfold tagBytes in Hz. rewrite zlen_app in Hz. pose proof (zlen_nonneg (CborWriter.head Tag 259)). lia. }
    destruct (aux_keyed c Hp Hz') as (a & Ra & Ha). exists a. split; [|done]. apply decode_reads; [|done..].
    eapply readsN_ext; [intros r; unfold AuxiliaryData.readAuxiliaryData; rewrite dec_bind_assoc; reflexivity|].
    apply (reads_peek CborReaderState.Tag).
    + intros r rest Hr. exact (starts_state Tag _ r rest ltac:(done) (starts_head Tag 259 _ ltac:(lia)) Hr).
    + eapply readsN_ext; [intros r; rewrite dec_bind_assoc; reflexivity|]. unfold tagBytes. eapply (reads_tag 259); [by apply writer_head|done|].
      cbv beta. eapply reads_last; [exact Ra|reflexivity].
Qed.

Lemma aux_accepts : accepts AuxiliaryData.fromCbor (fun _ => True).
Proof.
  apply accepts_decode. intros cbor. eapply (sound_bind _ _ (fun _ => True)); [|intros; by apply sound_ret].
  assert (Hl : forall A C (HS : Serializable C A) (HL : SerializableLaws C A), sound (AuxiliaryData.readScripts fromCbor_of) (fun _ => True)).
  { intros A C HS HL. eapply sound_weaken; [apply list_sound|done]. }
  assert (Hlist : forall A C (HS : Serializable C A) (HL : SerializableLaws C A) (k : list A -> AuxiliaryData.t -> AuxiliaryData.t),
    sound (l ← AuxiliaryData.readScripts fromCbor_of; mret (k l)) (fun f => forall _ : AuxiliaryData.t, True -> True)).
  { intros A C HS HL k. eapply sound_bind; [by eapply Hl|]. intros l _. by apply sound_ret. }
  eapply sound_bind; [apply sound_peek|]. intros s _.
  assert (Harr : sound (call readStartArray ;; g ← readNested GeneralTransactionMetadata.fromCbor; l ← AuxiliaryData.readScripts NativeScript.fromCbor;
    mret (AuxiliaryData.setNativeScripts (AuxiliaryData.setMetadata AuxiliaryData.new g) l)) (fun _ => True)).
  { eapply sound_bind; [apply sound_startArray|]. intros _ _. eapply sound_bind; [apply (@nested_sound _ _ general_serializable general_laws)|]. intros g _.
    eapply sound_bind; [exact (Hl _ _ native_serializable native_laws)|]. intros l _. by apply sound_ret. }
  destruct s; try exact Harr.
  - eapply sound_bind; [apply (@nested_sound _ _ general_serializable general_laws)|]. intros g _. by apply sound_ret.
  - eapply sound_bind; [apply sound_tag|]. intros tag _. apply sound_guard. intros _. apply sound_keyed; [|done]. intros key.
    unfold AuxiliaryData.readField. repeat case_bool.
    + eapply sound_bind; [apply (@nested_sound _ _ general_serializable general_laws)|]. intros g _. by apply sound_ret.
    + exact (Hlist _ _ native_serializable native_laws (fun l a => AuxiliaryData.setNativeScripts a l)).
    + exact (Hlist _ _ (plutus_serializable V1) (plutus_laws V1) (fun l a => AuxiliaryData.setPlutusV1Scripts a l)).
    + exact (Hlist _ _ (plutus_serializable V2) (plutus_laws V2) (fun l a => AuxiliaryData.setPlutusV2Scripts a l)).
    + exact (Hlist _ _ (plutus_serializable V3) (plutus_laws V3) (fun l a => AuxiliaryData.setPlutusV3Scripts a l)).
    + exact (Hlist _ _ (plutus_serializable V4) (plutus_laws V4) (fun l a => AuxiliaryData.setPlutusV4Scripts a l)).
    + by apply sound_ret.
Qed.

#[export] Instance auxiliary_serializable : Serializable CoreAuxiliaryData AuxiliaryData.t := {
  toCbor_of := AuxiliaryData.toCbor;
  fromCbor_of := AuxiliaryData.fromCbor;
  toCore_of := AuxiliaryData.toCore;
  fromCore_of := AuxiliaryData.fromCore;
  bytesOf := auxBytes;
  validCore := isAuxiliary;
  typed a := true
}.

Lemma remember_is c a cbor : auxIs c a -> auxIs c (AuxiliaryData.remember a cbor).
Proof. by intros []. Qed.

Lemma aux_not_null c : auxParts c -> not_null (auxBytes c).
Proof.
  intros Hp. pose proof Hp as [Hb _ _ _ _]. destruct (aux_form c) as [g Eb Es|g Eb Hn E|_ ->].
  - rewrite (metadata_bytes c g) by done. rewrite Eb in Hb. by apply (@bytesOf_not_null _ _ general_serializable general_laws).
  - rewrite (array_bytes c g) by done. apply (starts_not_null Array); [done|]. by apply starts_record.
  - apply (starts_not_null Tag); [done|]. by apply starts_head.
Qed.

#[export] Instance auxiliary_laws : SerializableLaws CoreAuxiliaryData AuxiliaryData.t.
Proof.
  split; cbn [bytesOf validCore fromCore_of fromCbor_of auxiliary_serializable].
  - intros c Hp%aux_parts. by apply aux_field.
  - intros c Hp%aux_parts. by apply aux_not_null.
  - intros c Hp%aux_parts. destruct (aux_fromCore c Hp) as (a & E & Ha & Ho). exists a. split; [done|].
    split; [by apply aux_toCore|by apply aux_toCbor].
  - intros c Hp%aux_parts Hz. destruct (aux_fromCbor c Hp Hz) as (a & E & Ha). eexists. split; [exact E|].
    split; [by apply aux_toCore, remember_is|]. destruct (aux_field c Hp). by apply cached_some.
  - eapply accepts_weaken; [apply aux_accepts|]. done.
Qed.

(** ** Metadata and auxiliary data: the properties
    The round trip of the auxiliary data of a transaction in the encodings of
    three eras, its decoder on any blob, and three cases in which metadata and
    auxiliary data are not what the code means them to be. *)

Lemma auxiliary_empty a : AuxiliaryData.fromCbor "" = Ok a -> False.
Proof. assert (exists e, AuxiliaryData.fromCbor "" = Throw e) as [e ->] by (eexists; vm_compute; reflexivity). done. Qed.

Lemma auxiliary_remembers cbor a : AuxiliaryData.fromCbor cbor = Ok a -> AuxiliaryData.originalBytes a = Some cbor.
Proof.
  unfold AuxiliaryData.fromCbor, decode. unfold mbind, ST_bind. destruct (AuxiliaryData.readAuxiliaryData _) as [[x|e|] r]; [|done..]. by intros [= <-].
Qed.

(** C37. Auxiliary data survive serialization in the encoding the ledger
    specifies for their parts: bare metadata, an array of metadata and native
    scripts, or the tagged map of the Alonzo and later eras. The object made
    from a core value is written so, and the bytes are read back to an object
    for the same value that is written as the same bytes. *)
Theorem auxiliary_round_trip c : isAuxiliary c = true -> zlen (auxBytes c) < 2 ^ 53 ->
  (exists a, AuxiliaryData.fromCore c = Ok a /\ AuxiliaryData.toCore a = Ok c /\ AuxiliaryData.toCbor a = Ok (Buffer_to_hex (auxBytes c))) /\
  (exists a, AuxiliaryData.fromCbor (Buffer_to_hex (auxBytes c)) = Ok a /\ AuxiliaryData.toCore a = Ok c /\
    AuxiliaryData.toCbor a = Ok (Buffer_to_hex (auxBytes c))).
Proof.
  intros Hc Hz. split; [exact (fromCore_standsFor c Hc)|exact (fromCbor_standsFor c Hc Hz)].
Qed.

(** The decoder of auxiliary data on any blob: it ends with an object or an
    error, and encoding the result gives the blob back. *)
Theorem auxiliary_decode_total cbor : zlen (Buffer_from_hex cbor) < 2 ^ 53 ->
  AuxiliaryData.fromCbor cbor <> OutOfFuel /\ forall a, AuxiliaryData.fromCbor cbor = Ok a -> AuxiliaryData.toCbor a = Ok cbor.
Proof.
  intros Hz. destruct (aux_accepts cbor Hz) as [Hf _]. split; [done|]. intros a E. unfold AuxiliaryData.toCbor.
  rewrite (auxiliary_remembers _ _ E). unfold cached, remembered. destruct (String.eqb_spec cbor "") as [->|]; [by apply auxiliary_empty in E|done].
Qed.

(** *** Metadata *)

(** No operation of the class remembers a blob. *)
Lemma general_forgets : (forall m, GeneralTransactionMetadata.originalBytes (GeneralTransactionMetadata.new m) = None) /\
  (forall g m, GeneralTransactionMetadata.originalBytes (GeneralTransactionMetadata.setMetadata g m) = None) /\
  (forall cbor g, GeneralTransactionMetadata.fromCbor cbor = Ok g -> GeneralTransactionMetadata.originalBytes g = None) /\
  (forall c g, GeneralTransactionMetadata.fromCore c = Ok g -> GeneralTransactionMetadata.originalBytes g = None).
Proof.
  split_and!; [done..| |].
  - intros cbor g. unfold GeneralTransactionMetadata.fromCbor, decode. unfold mbind, ST_bind. destruct (call CborReader.readStartMap _) as [[n|e|] r]; [|done..].
    destruct (readWhileNot _ _ r) as [[l|e|] r1]; [|done..]. destruct (call CborReader.readEndMap r1) as [[u|e|] r2]; [|done..]. by intros [= <-].
  - intros c g. unfold GeneralTransactionMetadata.fromCore. destruct (mapM _ _) as [l|e|]; cbn; [|done..]. by intros [= <-].
Qed.

(** The metadata of any two transactions compare equal:
    [GeneralTransactionMetadata.equals] first compares the remembered blobs,
    which no constructor, decoder or setter of the class ever sets, so that two
    unset blobs are found equal whatever metadata the objects hold. *)
Theorem metadata_equals_is_always_true c c' g g' : GeneralTransactionMetadata.fromCore c = Ok g ->
  (GeneralTransactionMetadata.fromCore c' = Ok g' \/ exists cbor, GeneralTransactionMetadata.fromCbor cbor = Ok g') ->
  GeneralTransactionMetadata.equals g g' = true.
Proof.
  destruct general_forgets as (_ & _ & Hb & Hc). intros E%Hc E'. unfold GeneralTransactionMetadata.equals. rewrite E, bool_decide_eq_true_2; [done|].
  destruct E' as [E'%Hc|(cbor & E'%Hb)]; by rewrite E'.
Qed.

(** An integer below the range of a CBOR integer is read back as the next. *)
Lemma negative_bignum_is_shifted : (cbor ← metadatumToCbor (newMetadatumInteger (- 2 ^ 64 - 1)); d ← metadatumFromCbor cbor; metadatumToCore d) =
  Ok (BigIntMetadatum (- 2 ^ 64)).
Proof. vm_compute. reflexivity. Qed.

(** A tag other than those of big integers gives an object whose conversion to
    a core value is a type error. *)
Lemma other_tag_has_no_value : exists d m, metadatumFromCbor "c100" = Ok d /\ metadatumToCore d = Throw (JsError m).
Proof. eexists _, _. vm_compute. split; reflexivity. Qed.

(** The value of an unknown key is read as a key: the map from 9 to 0 and from
    a map to 9 is decoded to the metadata of that map. *)
Lemma unknown_key_shifts : exists a, AuxiliaryData.fromCbor "d90103a20900a1010209" = Ok a /\ AuxiliaryData.toCore a <> Ok {| blob := None; auxiliaryScripts := None |}.
Proof. eexists. vm_compute. split; [reflexivity|done]. Qed.

(** *** Witnesses *)

Definition demo_metadata : list (Z * Metadatum) :=
  [(674, MapMetadatum [(StringMetadatum [109; 115; 103], ArrayMetadatum [BigIntMetadatum 5; BigIntMetadatum (2 ^ 64)])]); (1, Uint8ArrayMetadatum [1; 2])].

Definition demo_auxiliary : CoreAuxiliaryData := {|
  blob := Some demo_metadata;
  auxiliaryScripts := Some [CorePlutus {| plutusBytes := "4d01"; version := V2 |}]
|}.

Lemma auxiliary_round_trip_witness : exists a,
  AuxiliaryData.fromCbor (Buffer_to_hex (auxBytes demo_auxiliary)) = Ok a /\ AuxiliaryData.toCore a = Ok demo_auxiliary.
Proof.
  destruct (auxiliary_round_trip demo_auxiliary) as [_ (a & E & Ec & _)]; [vm_compute; reflexivity|vm_compute; reflexivity|].
  exists a. split; [exact E|exact Ec].
Defined.

Lemma auxiliary_decode_total_witness : AuxiliaryData.fromCbor "a0" <> OutOfFuel.
Proof. apply (auxiliary_decode_total "a0"). vm_compute. reflexivity. Defined.

Lemma metadata_equals_is_always_true_witness : exists g g', GeneralTransactionMetadata.fromCore demo_metadata = Ok g /\
  GeneralTransactionMetadata.fromCore [] = Ok g' /\ GeneralTransactionMetadata.equals g g' = true.
Proof.
  eexists _, _. split; [vm_compute; reflexivity|]. split; [vm_compute; reflexivity|].
  eapply (metadata_equals_is_always_true demo_metadata []); [vm_compute; reflexivity|left; vm_compute; reflexivity].
Defined.
