(* ===== verification/ParamParts.v ===== *)
(** * The parts of protocol parameters
    Models [DrepVotingThresholds.ts], [PoolVotingThresholds.ts],
    [ExUnitPrices.ts], [Costmdls/CostModel.ts] and [Costmdls/Costmdls.ts] of
    [packages/core/src/Serialization/Update], and the conversions between
    fractions and floats of [Common/UnitInterval.ts]. *)
From Stdlib Require Import SpecFloat.
From S2P Require Import Prelude JsRuntime CborCommon Half NumberText CborWriter CborReader Codec Credential Records Common.

(** ** Fractions and floats *)

(** fraction.js: the numerator and the denominator of [new Fraction(number)]. *)
Class FractionJs : Type := { fraction : number -> Res (Z * Z) }.

Definition UnitInterval_new (numerator denominator : Z) : UnitInterval.t :=
  {| UnitInterval.numerator := numerator; UnitInterval.denominator := denominator; UnitInterval.originalBytes := None |}.

Definition UnitInterval_fromFloat `{FractionJs} (x : number) : Res UnitInterval.t := '(n, d) ← fraction x; Ok (UnitInterval_new n d).

(** [Number(numerator) / Number(denominator)] *)
Definition UnitInterval_toFloat (u : UnitInterval.t) : number := num_div (double_of_Z (UnitInterval.numerator u)) (double_of_Z (UnitInterval.denominator u)).

(** ** Prices *)

Module ExUnitPrices.
(** [Cardano.Prices] *)
Record core : Set := Core { memory : number; steps : number }.

Record t : Set := { memPrice : UnitInterval.t; stepsPrice : UnitInterval.t; originalBytes : option HexBlob }.

Definition EX_UNITS_PRICES_ARRAY_SIZE : Z := 2.

Definition new (memPrices stepsPrices : UnitInterval.t) : t := {| memPrice := memPrices; stepsPrice := stepsPrices; originalBytes := None |}.

Definition toCbor (p : t) : Res HexBlob := cached (originalBytes p) (encode (
  call (CborWriter.writeStartArray (Some EX_UNITS_PRICES_ARRAY_SIZE)) ;;
  writeEncoded (UnitInterval.toCbor (memPrice p)) ;;
  writeEncoded (UnitInterval.toCbor (stepsPrice p)))).

Definition fromCbor (cbor : HexBlob) : Res t := decode (
  length ← call CborReader.readStartArray;
  expectLength EX_UNITS_PRICES_ARRAY_SIZE EX_UNITS_PRICES_ARRAY_SIZE length ;;
  memPrices ← readNested UnitInterval.fromCbor;
  stepPrices ← readNested UnitInterval.fromCbor;
  call CborReader.readEndArray ;;
  mret {| memPrice := memPrices; stepsPrice := stepPrices; originalBytes := Some cbor |}) cbor.

Definition toCore (p : t) : core := {| memory := UnitInterval_toFloat (memPrice p); steps := UnitInterval_toFloat (stepsPrice p) |}.

Definition fromCore `{FractionJs} (prices : core) : Res t :=
  '(mn, md) ← fraction (memory prices);
  '(sn, sd) ← fraction (steps prices);
  Ok (new (UnitInterval_new mn md) (UnitInterval_new sn sd)).

Definition setMemPrice (p : t) (memPrice : UnitInterval.t) : t := {| memPrice := memPrice; stepsPrice := stepsPrice p; originalBytes := None |}.
Definition setStepsPrice (p : t) (stepsPrice : UnitInterval.t) : t := {| memPrice := memPrice p; stepsPrice := stepsPrice; originalBytes := None |}.
End ExUnitPrices.

(** ** Voting thresholds of pools *)

Module PoolVotingThresholds.
Record core : Set := Core {
  coreMotionNoConfidence : UnitInterval.core; coreCommitteeNormal : UnitInterval.core; coreCommitteeNoConfidence : UnitInterval.core;
  coreHardForkInitiation : UnitInterval.core; coreSecurityRelevantParam : UnitInterval.core }.

Record t : Set := {
  motionNoConfidence : UnitInterval.t; committeeNormal : UnitInterval.t; committeeNoConfidence : UnitInterval.t;
  hardForkInitiation : UnitInterval.t; securityRelevantParam : UnitInterval.t; originalBytes : option HexBlob }.

Definition POOL_VOTING_THRESHOLDS_SIZE : Z := 5.

Definition toCbor (p : t) : Res HexBlob := cached (originalBytes p) (encode (
  call (CborWriter.writeStartArray (Some POOL_VOTING_THRESHOLDS_SIZE)) ;;
  writeEncoded (UnitInterval.toCbor (motionNoConfidence p)) ;;
  writeEncoded (UnitInterval.toCbor (committeeNormal p)) ;;
  writeEncoded (UnitInterval.toCbor (committeeNoConfidence p)) ;;
  writeEncoded (UnitInterval.toCbor (hardForkInitiation p)) ;;
  writeEncoded (UnitInterval.toCbor (securityRelevantParam p)))).

Definition fromCbor (cbor : HexBlob) : Res t := decode (
  length ← call CborReader.readStartArray;
  expectLength POOL_VOTING_THRESHOLDS_SIZE POOL_VOTING_THRESHOLDS_SIZE length ;;
  motionNoConfidence ← readNested UnitInterval.fromCbor;
  committeeNormal ← readNested UnitInterval.fromCbor;
  committeeNoConfidence ← readNested UnitInterval.fromCbor;
  hardForkInitiation ← readNested UnitInterval.fromCbor;
  securityRelevantParam ← readNested UnitInterval.fromCbor;
  call CborReader.readEndArray ;;
  mret {| motionNoConfidence := motionNoConfidence; committeeNormal := committeeNormal; committeeNoConfidence := committeeNoConfidence;
          hardForkInitiation := hardForkInitiation; securityRelevantParam := securityRelevantParam; originalBytes := Some cbor |}) cbor.

Definition toCore (p : t) : core := {|
  coreMotionNoConfidence := UnitInterval.toCore (motionNoConfidence p);
  coreCommitteeNormal := UnitInterval.toCore (committeeNormal p);
  coreCommitteeNoConfidence := UnitInterval.toCore (committeeNoConfidence p);
  coreHardForkInitiation := UnitInterval.toCore (hardForkInitiation p);
  coreSecurityRelevantParam := UnitInterval.toCore (securityRelevantParam p) |}.

Definition fromCore (c : core) : t := {|
  motionNoConfidence := UnitInterval.fromCore (coreMotionNoConfidence c);
  committeeNormal := UnitInterval.fromCore (coreCommitteeNormal c);
  committeeNoConfidence := UnitInterval.fromCore (coreCommitteeNoConfidence c);
  hardForkInitiation := UnitInterval.fromCore (coreHardForkInitiation c);
  securityRelevantParam := UnitInterval.fromCore (coreSecurityRelevantParam c);
  originalBytes := None |}.

Definition setMotionNoConfidence (p : t) (threshold : UnitInterval.t) : t := {| motionNoConfidence := threshold; committeeNormal := committeeNormal p;
  committeeNoConfidence := committeeNoConfidence p; hardForkInitiation := hardForkInitiation p; securityRelevantParam := securityRelevantParam p; originalBytes := None |}.
Definition setCommitteeNormal (p : t) (threshold : UnitInterval.t) : t := {| motionNoConfidence := motionNoConfidence p; committeeNormal := threshold;
  committeeNoConfidence := committeeNoConfidence p; hardForkInitiation := hardForkInitiation p; securityRelevantParam := securityRelevantParam p; originalBytes := None |}.
Definition setCommitteeNoConfidence (p : t) (threshold : UnitInterval.t) : t := {| motionNoConfidence := motionNoConfidence p; committeeNormal := committeeNormal p;
  committeeNoConfidence := threshold; hardForkInitiation := hardForkInitiation p; securityRelevantParam := securityRelevantParam p; originalBytes := None |}.
Definition setHardForkInitiation (p : t) (threshold : UnitInterval.t) : t := {| motionNoConfidence := motionNoConfidence p; committeeNormal := committeeNormal p;
  committeeNoConfidence := committeeNoConfidence p; hardForkInitiation := threshold; securityRelevantParam := securityRelevantParam p; originalBytes := None |}.
End PoolVotingThresholds.

(** ** Voting thresholds of delegated representatives *)

Module DrepVotingThresholds.
(** [Cardano.DelegateRepresentativeThresholds] *)
Record core : Set := Core {
  coreMotionNoConfidence : UnitInterval.core;
  coreCommitteeNormal : UnitInterval.core;
  coreCommitteeNoConfidence : UnitInterval.core;
  coreUpdateConstitution : UnitInterval.core;
  coreHardForkInitiation : UnitInterval.core;
  corePpNetworkGroup : UnitInterval.core;
  corePpEconomicGroup : UnitInterval.core;
  corePpTechnicalGroup : UnitInterval.core;
  corePpGovernanceGroup : UnitInterval.core;
  coreTreasuryWithdrawal : UnitInterval.core }.

Record t : Set := {
  motionNoConfidence : UnitInterval.t;
  committeeNormal : UnitInterval.t;
  committeeNoConfidence : UnitInterval.t;
  updateConstitution : UnitInterval.t;
  hardForkInitiation : UnitInterval.t;
  ppNetworkGroup : UnitInterval.t;
  ppEconomicGroup : UnitInterval.t;
  ppTechnicalGroup : UnitInterval.t;
  ppGovernanceGroup : UnitInterval.t;
  treasuryWithdrawal : UnitInterval.t;
  originalBytes : option HexBlob }.

Definition EX_DREP_VOTING_THRESHOLDS_SIZE : Z := 10.

Definition toCbor (p : t) : Res HexBlob := cached (originalBytes p) (encode (
  call (CborWriter.writeStartArray (Some EX_DREP_VOTING_THRESHOLDS_SIZE)) ;;
  writeEncoded (UnitInterval.toCbor (motionNoConfidence p)) ;;
  writeEncoded (UnitInterval.toCbor (committeeNormal p)) ;;
  writeEncoded (UnitInterval.toCbor (committeeNoConfidence p)) ;;
  writeEncoded (UnitInterval.toCbor (updateConstitution p)) ;;
  writeEncoded (UnitInterval.toCbor (hardForkInitiation p)) ;;
  writeEncoded (UnitInterval.toCbor (ppNetworkGroup p)) ;;
  writeEncoded (UnitInterval.toCbor (ppEconomicGroup p)) ;;
  writeEncoded (UnitInterval.toCbor (ppTechnicalGroup p)) ;;
  writeEncoded (UnitInterval.toCbor (ppGovernanceGroup p)) ;;
  writeEncoded (UnitInterval.toCbor (treasuryWithdrawal p)))).

Definition fromCbor (cbor : HexBlob) : Res t := decode (
  length ← call CborReader.readStartArray;
  expectLength EX_DREP_VOTING_THRESHOLDS_SIZE EX_DREP_VOTING_THRESHOLDS_SIZE length ;;
  motionNoConfidence ← readNested UnitInterval.fromCbor;
  committeeNormal ← readNested UnitInterval.fromCbor;
  committeeNoConfidence ← readNested UnitInterval.fromCbor;
  updateConstitution ← readNested UnitInterval.fromCbor;
  hardForkInitiation ← readNested UnitInterval.fromCbor;
  ppNetworkGroup ← readNested UnitInterval.fromCbor;
  ppEconomicGroup ← readNested UnitInterval.fromCbor;
  ppTechnicalGroup ← readNested UnitInterval.fromCbor;
  ppGovernanceGroup ← readNested UnitInterval.fromCbor;
  treasuryWithdrawal ← readNested UnitInterval.fromCbor;
  call CborReader.readEndArray ;;
  mret {|
    motionNoConfidence := motionNoConfidence;
    committeeNormal := committeeNormal;
    committeeNoConfidence := committeeNoConfidence;
    updateConstitution := updateConstitution;
    hardForkInitiation := hardForkInitiation;
    ppNetworkGroup := ppNetworkGroup;
    ppEconomicGroup := ppEconomicGroup;
    ppTechnicalGroup := ppTechnicalGroup;
    ppGovernanceGroup := ppGovernanceGroup;
    treasuryWithdrawal := treasuryWithdrawal;
    originalBytes := Some cbor |}) cbor.

Definition toCore (p : t) : core := {|
  coreMotionNoConfidence := UnitInterval.toCore (motionNoConfidence p);
  coreCommitteeNormal := UnitInterval.toCore (committeeNormal p);
  coreCommitteeNoConfidence := UnitInterval.toCore (committeeNoConfidence p);
  coreUpdateConstitution := UnitInterval.toCore (updateConstitution p);
  coreHardForkInitiation := UnitInterval.toCore (hardForkInitiation p);
  corePpNetworkGroup := UnitInterval.toCore (ppNetworkGroup p);
  corePpEconomicGroup := UnitInterval.toCore (ppEconomicGroup p);
  corePpTechnicalGroup := UnitInterval.toCore (ppTechnicalGroup p);
  corePpGovernanceGroup := UnitInterval.toCore (ppGovernanceGroup p);
  coreTreasuryWithdrawal := UnitInterval.toCore (treasuryWithdrawal p) |}.

Definition fromCore (c : core) : t := {|
  motionNoConfidence := UnitInterval.fromCore (coreMotionNoConfidence c);
  committeeNormal := UnitInterval.fromCore (coreCommitteeNormal c);
  committeeNoConfidence := UnitInterval.fromCore (coreCommitteeNoConfidence c);
  updateConstitution := UnitInterval.fromCore (coreUpdateConstitution c);
  hardForkInitiation := UnitInterval.fromCore (coreHardForkInitiation c);
  ppNetworkGroup := UnitInterval.fromCore (corePpNetworkGroup c);
  ppEconomicGroup := UnitInterval.fromCore (corePpEconomicGroup c);
  ppTechnicalGroup := UnitInterval.fromCore (corePpTechnicalGroup c);
  ppGovernanceGroup := UnitInterval.fromCore (corePpGovernanceGroup c);
  treasuryWithdrawal := UnitInterval.fromCore (coreTreasuryWithdrawal c);
  originalBytes := None |}.

Definition setMotionNoConfidence (p : t) (threshold : UnitInterval.t) : t := {|
  motionNoConfidence := threshold; committeeNormal := committeeNormal p; committeeNoConfidence := committeeNoConfidence p;
  updateConstitution := updateConstitution p; hardForkInitiation := hardForkInitiation p; ppNetworkGroup := ppNetworkGroup p;
  ppEconomicGroup := ppEconomicGroup p; ppTechnicalGroup := ppTechnicalGroup p; ppGovernanceGroup := ppGovernanceGroup p; treasuryWithdrawal
  := treasuryWithdrawal p; originalBytes := None |}.
Definition setCommitteeNormal (p : t) (threshold : UnitInterval.t) : t := {|
  motionNoConfidence := motionNoConfidence p; committeeNormal := threshold; committeeNoConfidence := committeeNoConfidence p;
  updateConstitution := updateConstitution p; hardForkInitiation := hardForkInitiation p; ppNetworkGroup := ppNetworkGroup p;
  ppEconomicGroup := ppEconomicGroup p; ppTechnicalGroup := ppTechnicalGroup p; ppGovernanceGroup := ppGovernanceGroup p; treasuryWithdrawal
  := treasuryWithdrawal p; originalBytes := None |}.
Definition setCommitteeNoConfidence (p : t) (threshold : UnitInterval.t) : t := {|
  motionNoConfidence := motionNoConfidence p; committeeNormal := committeeNormal p; committeeNoConfidence := threshold; updateConstitution
  := updateConstitution p; hardForkInitiation := hardForkInitiation p; ppNetworkGroup := ppNetworkGroup p; ppEconomicGroup :=
  ppEconomicGroup p; ppTechnicalGroup := ppTechnicalGroup p; ppGovernanceGroup := ppGovernanceGroup p; treasuryWithdrawal :=
  treasuryWithdrawal p; originalBytes := None |}.
Definition setUpdateConstitution (p : t) (threshold : UnitInterval.t) : t := {|
  motionNoConfidence := motionNoConfidence p; committeeNormal := committeeNormal p; committeeNoConfidence := committeeNoConfidence p;
  updateConstitution := threshold; hardForkInitiation := hardForkInitiation p; ppNetworkGroup := ppNetworkGroup p; ppEconomicGroup :=
  ppEconomicGroup p; ppTechnicalGroup := ppTechnicalGroup p; ppGovernanceGroup := ppGovernanceGroup p; treasuryWithdrawal :=
  treasuryWithdrawal p; originalBytes := None |}.
Definition setHardForkInitiation (p : t) (threshold : UnitInterval.t) : t := {|
  motionNoConfidence := motionNoConfidence p; committeeNormal := committeeNormal p; committeeNoConfidence := committeeNoConfidence p;
  updateConstitution := updateConstitution p; hardForkInitiation := threshold; ppNetworkGroup := ppNetworkGroup p; ppEconomicGroup :=
  ppEconomicGroup p; ppTechnicalGroup := ppTechnicalGroup p; ppGovernanceGroup := ppGovernanceGroup p; treasuryWithdrawal :=
  treasuryWithdrawal p; originalBytes := None |}.
Definition setPpNetworkGroup (p : t) (threshold : UnitInterval.t) : t := {|
  motionNoConfidence := motionNoConfidence p; committeeNormal := committeeNormal p; committeeNoConfidence := committeeNoConfidence p;
  updateConstitution := updateConstitution p; hardForkInitiation := hardForkInitiation p; ppNetworkGroup := threshold; ppEconomicGroup :=
  ppEconomicGroup p; ppTechnicalGroup := ppTechnicalGroup p; ppGovernanceGroup := ppGovernanceGroup p; treasuryWithdrawal :=
  treasuryWithdrawal p; originalBytes := None |}.
Definition setPpEconomicGroup (p : t) (threshold : UnitInterval.t) : t := {|
  motionNoConfidence := motionNoConfidence p; committeeNormal := committeeNormal p; committeeNoConfidence := committeeNoConfidence p;
  updateConstitution := updateConstitution p; hardForkInitiation := hardForkInitiation p; ppNetworkGroup := ppNetworkGroup p;
  ppEconomicGroup := threshold; ppTechnicalGroup := ppTechnicalGroup p; ppGovernanceGroup := ppGovernanceGroup p; treasuryWithdrawal :=
  treasuryWithdrawal p; originalBytes := None |}.
Definition setPpTechnicalGroup (p : t) (threshold : UnitInterval.t) : t := {|
  motionNoConfidence := motionNoConfidence p; committeeNormal := committeeNormal p; committeeNoConfidence := committeeNoConfidence p;
  updateConstitution := updateConstitution p; hardForkInitiation := hardForkInitiation p; ppNetworkGroup := ppNetworkGroup p;
  ppEconomicGroup := ppEconomicGroup p; ppTechnicalGroup := threshold; ppGovernanceGroup := ppGovernanceGroup p; treasuryWithdrawal :=
  treasuryWithdrawal p; originalBytes := None |}.
Definition setPpGovernanceGroup (p : t) (threshold : UnitInterval.t) : t := {|
  motionNoConfidence := motionNoConfidence p; committeeNormal := committeeNormal p; committeeNoConfidence := committeeNoConfidence p;
  updateConstitution := updateConstitution p; hardForkInitiation := hardForkInitiation p; ppNetworkGroup := ppNetworkGroup p;
  ppEconomicGroup := ppEconomicGroup p; ppTechnicalGroup := ppTechnicalGroup p; ppGovernanceGroup := threshold; treasuryWithdrawal :=
  treasuryWithdrawal p; originalBytes := None |}.
Definition setTreasuryWithdrawal (p : t) (threshold : UnitInterval.t) : t := {|
  motionNoConfidence := motionNoConfidence p; committeeNormal := committeeNormal p; committeeNoConfidence := committeeNoConfidence p;
  updateConstitution := updateConstitution p; hardForkInitiation := hardForkInitiation p; ppNetworkGroup := ppNetworkGroup p;
  ppEconomicGroup := ppEconomicGroup p; ppTechnicalGroup := ppTechnicalGroup p; ppGovernanceGroup := ppGovernanceGroup p; treasuryWithdrawal
  := threshold; originalBytes := None |}.
End DrepVotingThresholds.

(** ** Cost models *)

Module CostModel.
(** The language is a number: decoded models may have any. *)
Record t : Set := { language : Z; costs : list Z }.

Definition new (language : Z) (costs : list Z) : t := {| language := language; costs := costs |}.
Definition newPlutusV1 (costs : list Z) : t := new 0 costs.
Definition newPlutusV2 (costs : list Z) : t := new 1 costs.
Definition newPlutusV3 (costs : list Z) : t := new 2 costs.
Definition newPlutusV4 (costs : list Z) : t := new 3 costs.

Definition isOperationValid (operation : Z) : bool := 0 <=? operation.
End CostModel.

Module Costmdls.
(** [Cardano.CostModels]: a [Map] from languages. *)
Abbreviation core := (list (Z * list Z)).

Record t : Set := { models : list (Z * CostModel.t); originalBytes : option HexBlob }.

Definition new (models : list (Z * CostModel.t)) : t := {| models := models; originalBytes := None |}.

(** [a > b] of two entries compares their texts, ["<language>,[object Object]"]. *)
Definition entryGreater (a b : Z * CostModel.t) : bool := string_gt (pretty a.1 +:+ ",[object Object]") (pretty b.1 +:+ ",[object Object]").

Definition writeCosts (costs : list Z) : Enc unit := forEach (fun cost => call (CborWriter.writeInt cost)) costs.

Definition toCbor (m : t) : Res HexBlob := cached (originalBytes m) (encode (
  let sortedCanonically := JsMap.of_entries (sort_by entryGreater (models m)) in
  call (CborWriter.writeStartMap (Some (JsMap.size sortedCanonically))) ;;
  forEach (fun entry : Z * CostModel.t =>
    call (CborWriter.writeInt entry.1) ;;
    call (CborWriter.writeStartArray (Some (zlen (CostModel.costs entry.2)))) ;;
    writeCosts (CostModel.costs entry.2)) sortedCanonically)).

Definition readModel : Dec (Z * CostModel.t) :=
  language ← readNumber;
  call CborReader.readStartArray ;;
  costs ← readWhileNot CborReaderState.EndArray readNumber;
  call CborReader.readEndArray ;;
  mret (language, CostModel.new language costs).

Definition fromCbor (cbor : HexBlob) : Res t := decode (
  call CborReader.readStartMap ;;
  models ← readWhileNot CborReaderState.EndMap readModel;
  call CborReader.readEndMap ;;
  mret {| models := JsMap.of_entries models; originalBytes := Some cbor |}) cbor.

Definition toCore (m : t) : core := JsMap.of_entries ((fun entry => (entry.1, CostModel.costs entry.2)) <$> models m).
Definition fromCore (costModels : core) : t := new (JsMap.of_entries ((fun entry => (entry.1, CostModel.new entry.1 entry.2)) <$> costModels)).

Definition size (m : t) : Z := JsMap.size (models m).
Definition insert (m : t) (value : CostModel.t) : t := {| models := JsMap.set (models m) (CostModel.language value) value; originalBytes := None |}.
Definition get (m : t) (key : Z) : option CostModel.t := JsMap.get (models m) key.
Definition keys (m : t) : list Z := JsMap.keys (models m).

(** *** Language views, hashed into script data *)

Definition viewKey (language : Z) : Z := if language =? 0 then 65 else language.
Definition viewGreater (a b : Z * CostModel.t) : bool := viewKey b.1 <? viewKey a.1.

Definition writeView (entry : Z * CostModel.t) : Enc unit :=
  if entry.1 =? 0 then
    innerCbor ← st_lift (encodeBytes (call (CborWriter.writeStartArray None) ;; writeCosts (CostModel.costs entry.2) ;; call CborWriter.writeEndArray));
    call (CborWriter.writeByteString [0]) ;;
    call (CborWriter.writeByteString innerCbor)
  else if (1 <=? entry.1) && (entry.1 <=? 3) then
    call (CborWriter.writeInt entry.1) ;;
    call (CborWriter.writeStartArray (Some (zlen (CostModel.costs entry.2)))) ;;
    writeCosts (CostModel.costs entry.2)
  else st_throw (InvalidStateError "Invalid plutus language version.").

Definition languageViewsEncoding (m : t) : Res HexBlob := encode (
  let sortedCanonically := JsMap.of_entries (sort_by viewGreater (models m)) in
  call (CborWriter.writeStartMap (Some (JsMap.size sortedCanonically))) ;;
  forEach writeView sortedCanonically).
End Costmdls.
