(* ===== verification/ParamFacts.v ===== *)
(** * The parts of protocol parameters keep their promises
    Prices, voting thresholds and cost models implement the interface of
    [Serializable.v]. *)
From Stdlib Require Import SpecFloat.
From S2P Require Import Prelude JsRuntime Utf8 CborCommon Half NumberText CborWriter CborReader CborMachine CborExact CborSkip CborDocuments Codec CodecFacts Credential Records Common Serializable CommonFacts ParamParts.

Import CborReader CborWriterFacts.

(** ** Intervals *)

(** What an object for a fraction with safe parts holds. *)
Lemma interval_exact u o : isInterval u = true -> standsFor u o ->
  UnitInterval.numerator o = UnitInterval.coreNumerator u /\ UnitInterval.denominator o = UnitInterval.coreDenominator u.
Proof.
  intros [Hn%safe_range Hd%safe_range]%andb_true_iff [[= <-] _]. cbn in *.
  rewrite <- (Number_of_small (UnitInterval.numerator o)) at 1 by lia. by rewrite <- (Number_of_small (UnitInterval.denominator o)) at 1 by lia.
Qed.

Lemma interval_float u o : isInterval u = true -> standsFor u o -> UnitInterval_toFloat o = UnitInterval_toFloat (UnitInterval.fromCore u).
Proof. intros Hu Ho. unfold UnitInterval_toFloat. by destruct (interval_exact u o Hu Ho) as [-> ->]. Qed.

Lemma interval_new u : isInterval u = true -> standsFor u (UnitInterval.fromCore u).
Proof. intros Hu. by destruct (@fromCore_standsFor _ _ interval_serializable interval_laws u Hu) as (o & [= <-] & Ho). Qed.

Lemma interval_core u : isInterval u = true -> UnitInterval.toCore (UnitInterval.fromCore u) = u.
Proof. intros Hu. by destruct (interval_new u Hu) as [[= ?] _]. Qed.

Lemma standsFor_core u o : standsFor u o -> UnitInterval.toCore o = u.
Proof. by intros [[= ?] _]. Qed.

(** A record of intervals. *)
Definition intervalsBytes (l : list UnitInterval.core) : list (list Z) := intervalBytes <$> l.

Lemma intervals_fields l : Forall (fun u => isInterval u = true) l -> Forall field (intervalsBytes l).
Proof. intros Hl. apply Forall_fmap. eapply Forall_impl; [exact Hl|]. intros u. apply interval_field. Qed.

Lemma intervals_emit m u o l : isInterval u = true -> standsFor u o -> emits m (concat (intervalsBytes l)) ->
  emits (writeEncoded (UnitInterval.toCbor o) ;; m) (concat (intervalsBytes (u :: l))).
Proof. intros Hu Ho Hm. apply emits_fields; [by apply (@nested_emits _ _ interval_serializable interval_laws)|done]. Qed.

Lemma intervals_emit_last u o : isInterval u = true -> standsFor u o -> emits (writeEncoded (UnitInterval.toCbor o)) (concat (intervalsBytes [u])).
Proof. intros Hu Ho. apply emits_last. by apply (@nested_emits _ _ interval_serializable interval_laws). Qed.

(** The objects that are read, which exist before the decoder runs. *)
Lemma intervals_read l n : Forall (fun u => isInterval u = true) l -> zlen (recordBytes (intervalsBytes l)) < n -> n <= 2 ^ 53 ->
  Forall (fun u => exists o, reads (readNested UnitInterval.fromCbor) (intervalBytes u) o /\ standsFor u o) l.
Proof.
  intros Hl Hz Hn. apply List.Forall_forall. intros u Hu. rewrite List.Forall_forall in Hl.
  apply (@nested_reads _ _ interval_serializable interval_laws); [by apply Hl|]. pose proof (record_size (intervalsBytes l)).
  pose proof (part_size (intervalBytes u) (intervalsBytes l) ltac:(by apply in_map)). cbn [bytesOf interval_serializable]. lia.
Qed.

Lemma interval_list l : forallb isInterval l = true -> Forall (fun u => isInterval u = true) l.
Proof. intros Hl. apply List.Forall_forall. by apply forallb_forall. Qed.

Ltac split_intervals H := apply interval_list in H; repeat match type of H with Forall _ (_ :: _) => apply Forall_cons in H as [? H] end.
Ltac emit_intervals := repeat first [apply intervals_emit_last; [done|by apply interval_new] | apply intervals_emit; [done|by apply interval_new|]].
Ltac read_intervals := repeat match goal with
  | H : Forall (fun u => exists _, _) (_ :: _) |- _ => let o := fresh "o" in apply Forall_cons in H as [(o & ? & ?) H] end.

(** ** Prices *)

Section prices.
Context `{FractionJs}.

(** The fraction for a price. *)
Definition fractionOf (x : number) : UnitInterval.core := match fraction x with Ok (n, d) => UnitInterval.Core n d | _ => UnitInterval.Core 0 0 end.

(** A number that is the quotient of its fraction, with safe parts. *)
Definition isFraction (x : number) : bool :=
  match fraction x with
  | Ok (n, d) => isInterval (UnitInterval.Core n d) && bool_decide (UnitInterval_toFloat (UnitInterval_new n d) = x)
  | _ => false
  end.

Lemma isFraction_spec x : isFraction x = true -> exists n d, fraction x = Ok (n, d) /\ fractionOf x = UnitInterval.Core n d /\
  isInterval (fractionOf x) = true /\ UnitInterval_toFloat (UnitInterval.fromCore (fractionOf x)) = x.
Proof.
  unfold isFraction, fractionOf. destruct (fraction x) as [[n d]|e|]; [|done..]. intros [Hi Hx%bool_decide_eq_true]%andb_true_iff. by exists n, d.
Qed.

Definition priceIntervals (p : ExUnitPrices.core) : list UnitInterval.core := [fractionOf (ExUnitPrices.memory p); fractionOf (ExUnitPrices.steps p)].

#[export] Instance prices_serializable : Serializable ExUnitPrices.core ExUnitPrices.t := {
  toCbor_of := ExUnitPrices.toCbor;
  fromCbor_of := ExUnitPrices.fromCbor;
  toCore_of p := Ok (ExUnitPrices.toCore p);
  fromCore_of := ExUnitPrices.fromCore;
  bytesOf p := recordBytes (intervalsBytes (priceIntervals p));
  validCore p := isFraction (ExUnitPrices.memory p) && isFraction (ExUnitPrices.steps p);
  typed _ := true
}.

#[export] Instance prices_laws : SerializableLaws ExUnitPrices.core ExUnitPrices.t.
Proof.
  assert (Hf : forall p : ExUnitPrices.core, validCore p = true -> Forall (fun u => isInterval u = true) (priceIntervals p)).
  { intros p [(? & ? & _ & _ & ? & _)%isFraction_spec (? & ? & _ & _ & ? & _)%isFraction_spec]%andb_true_iff. by repeat constructor. }
  split.
  - intros p Hp. apply field_record; [done|by apply intervals_fields, Hf].
  - intros p _. apply (starts_not_null Array); [done|by apply starts_record].
  - intros [m s] Hp. pose proof (Hf _ Hp) as Hi. apply andb_true_iff in Hp as [(mn & md & Em & Fm & _ & Tm)%isFraction_spec (sn & sd & Es & Fs & _ & Ts)%isFraction_spec].
    cbn [ExUnitPrices.memory ExUnitPrices.steps] in *. exists (ExUnitPrices.new (UnitInterval_new mn md) (UnitInterval_new sn sd)).
    unfold priceIntervals in Hi. cbn in Hi. rewrite Fm in Hi, Tm. rewrite Fs in Hi, Ts. inversion_clear Hi as [|? ? Im Hi']. inversion_clear Hi' as [|? ? Is _]. split; [|split].
    + unfold fromCore_of, prices_serializable, ExUnitPrices.fromCore. cbn [ExUnitPrices.memory ExUnitPrices.steps]. rewrite Em. cbn [mbind outcome_bind]. by rewrite Es.
    + rewrite <- Tm, <- Ts. reflexivity.
    + unfold bytesOf, prices_serializable, priceIntervals. cbn [ExUnitPrices.memory ExUnitPrices.steps]. rewrite Fm, Fs. apply (encode_record 2); [done..|]. apply intervals_emit; [done|by apply (interval_new (UnitInterval.Core mn md))|].
      apply intervals_emit_last; [done|by apply (interval_new (UnitInterval.Core sn sd))].
  - intros p Hp Hz. pose proof (Hf _ Hp) as Hi. pose proof (intervals_read _ _ Hi Hz ltac:(lia)) as Hr. destruct p as [m s].
    pose proof (intervals_fields _ Hi) as Hfd. inversion_clear Hi as [|? ? Im Hi']. inversion_clear Hi' as [|? ? Is _].
    apply andb_true_iff in Hp as [(mn & md & Em & Fm & _ & Tm)%isFraction_spec (sn & sd & Es & Fs & _ & Ts)%isFraction_spec].
    unfold priceIntervals in Hr. read_intervals. eexists. split.
    + apply decode_completes; [done..|]. apply completes_length. eapply completes_bind; [eassumption|]. eapply completes_bind; [eassumption|]. by apply completes_end.
    + split; [|by apply cached_record]. unfold toCore_of, prices_serializable, ExUnitPrices.toCore. cbn [ExUnitPrices.memPrice ExUnitPrices.stepsPrice ExUnitPrices.memory ExUnitPrices.steps] in *.
      do 2 f_equal; [etrans; [apply (interval_float _ _ Im); assumption|exact Tm]|etrans; [apply (interval_float _ _ Is); assumption|exact Ts]].
  - apply accepts_decode. intros cbor. eapply sound_bind; [apply sound_startArray|]. intros n _. apply sound_length. eapply sound_bind; [apply (@nested_sound _ _ interval_serializable interval_laws)|]. intros ? _.
    eapply sound_bind; [apply (@nested_sound _ _ interval_serializable interval_laws)|]. intros ? _. eapply sound_bind; [apply sound_endArray|]. intros _ _. by apply sound_ret.
Qed.
End prices.

(** ** Thresholds *)

Definition poolIntervals (p : PoolVotingThresholds.core) : list UnitInterval.core := [
  PoolVotingThresholds.coreMotionNoConfidence p;
  PoolVotingThresholds.coreCommitteeNormal p;
  PoolVotingThresholds.coreCommitteeNoConfidence p;
  PoolVotingThresholds.coreHardForkInitiation p;
  PoolVotingThresholds.coreSecurityRelevantParam p].

#[export] Instance poolThresholds_serializable : Serializable PoolVotingThresholds.core PoolVotingThresholds.t := {
  toCbor_of := PoolVotingThresholds.toCbor;
  fromCbor_of := PoolVotingThresholds.fromCbor;
  toCore_of p := Ok (PoolVotingThresholds.toCore p);
  fromCore_of p := Ok (PoolVotingThresholds.fromCore p);
  bytesOf p := recordBytes (intervalsBytes (poolIntervals p));
  validCore p := forallb isInterval (poolIntervals p);
  typed _ := true
}.

#[export] Instance poolThresholds_laws : SerializableLaws PoolVotingThresholds.core PoolVotingThresholds.t.
Proof.
  split; cbn [bytesOf validCore fromCore_of fromCbor_of poolThresholds_serializable].
  - intros p Hp%interval_list. apply field_record; [done|by apply intervals_fields].
  - intros p _. apply (starts_not_null Array); [done|by apply starts_record].
  - intros p Hp. eexists. split; [reflexivity|]. destruct p. unfold poolIntervals in Hp. split_intervals Hp. split.
    + unfold toCore_of, poolThresholds_serializable, PoolVotingThresholds.toCore, PoolVotingThresholds.fromCore. cbn -[UnitInterval.toCore UnitInterval.fromCore]. by rewrite !interval_core.
    + apply (encode_record 5); [done..|]. unfold poolIntervals. emit_intervals.
  - intros p Hp Hz. pose proof (interval_list _ Hp) as Hi. pose proof (intervals_read _ _ Hi Hz ltac:(lia)) as Hr. pose proof (intervals_fields _ Hi) as Hf.
    destruct p. unfold poolIntervals in Hr, Hf, Hz |- *. read_intervals. eexists. split.
    + apply decode_completes; [done..|]. apply completes_length. do 5 (eapply completes_bind; [eassumption|]). by apply completes_end.
    + split; [|by apply cached_record]. unfold toCore_of, poolThresholds_serializable, PoolVotingThresholds.toCore. cbn -[UnitInterval.toCore].
      repeat match goal with H : standsFor ?u ?o |- _ => rewrite (standsFor_core u o H); clear H end. done.
  - apply accepts_decode. intros cbor. eapply sound_bind; [apply sound_startArray|]. intros n _. apply sound_length.
    do 5 (eapply sound_bind; [apply (@nested_sound _ _ interval_serializable interval_laws)|intros ? _]).
    eapply sound_bind; [apply sound_endArray|]. intros _ _. by apply sound_ret.
Qed.

Definition drepIntervals (p : DrepVotingThresholds.core) : list UnitInterval.core := [
  DrepVotingThresholds.coreMotionNoConfidence p;
  DrepVotingThresholds.coreCommitteeNormal p;
  DrepVotingThresholds.coreCommitteeNoConfidence p;
  DrepVotingThresholds.coreUpdateConstitution p;
  DrepVotingThresholds.coreHardForkInitiation p;
  DrepVotingThresholds.corePpNetworkGroup p;
  DrepVotingThresholds.corePpEconomicGroup p;
  DrepVotingThresholds.corePpTechnicalGroup p;
  DrepVotingThresholds.corePpGovernanceGroup p;
  DrepVotingThresholds.coreTreasuryWithdrawal p].

#[export] Instance drepThresholds_serializable : Serializable DrepVotingThresholds.core DrepVotingThresholds.t := {
  toCbor_of := DrepVotingThresholds.toCbor;
  fromCbor_of := DrepVotingThresholds.fromCbor;
  toCore_of p := Ok (DrepVotingThresholds.toCore p);
  fromCore_of p := Ok (DrepVotingThresholds.fromCore p);
  bytesOf p := recordBytes (intervalsBytes (drepIntervals p));
  validCore p := forallb isInterval (drepIntervals p);
  typed _ := true
}.

#[export] Instance drepThresholds_laws : SerializableLaws DrepVotingThresholds.core DrepVotingThresholds.t.
Proof.
  split; cbn [bytesOf validCore fromCore_of fromCbor_of drepThresholds_serializable].
  - intros p Hp%interval_list. apply field_record; [done|by apply intervals_fields].
  - intros p _. apply (starts_not_null Array); [done|by apply starts_record].
  - intros p Hp. eexists. split; [reflexivity|]. destruct p. unfold drepIntervals in Hp. split_intervals Hp. split.
    + unfold toCore_of, drepThresholds_serializable, DrepVotingThresholds.toCore, DrepVotingThresholds.fromCore. cbn -[UnitInterval.toCore UnitInterval.fromCore]. by rewrite !interval_core.
    + apply (encode_record 10); [done..|]. unfold drepIntervals. emit_intervals.
  - intros p Hp Hz. pose proof (interval_list _ Hp) as Hi. pose proof (intervals_read _ _ Hi Hz ltac:(lia)) as Hr. pose proof (intervals_fields _ Hi) as Hf.
    destruct p. unfold drepIntervals in Hr, Hf, Hz |- *. read_intervals. eexists. split.
    + apply decode_completes; [done..|]. apply completes_length. do 10 (eapply completes_bind; [eassumption|]). by apply completes_end.
    + split; [|by apply cached_record]. unfold toCore_of, drepThresholds_serializable, DrepVotingThresholds.toCore. cbn -[UnitInterval.toCore].
      repeat match goal with H : standsFor ?u ?o |- _ => rewrite (standsFor_core u o H); clear H end. done.
  - apply accepts_decode. intros cbor. eapply sound_bind; [apply sound_startArray|]. intros n _. apply sound_length.
    do 10 (eapply sound_bind; [apply (@nested_sound _ _ interval_serializable interval_laws)|intros ? _]).
    eapply sound_bind; [apply sound_endArray|]. intros _ _. by apply sound_ret.
Qed.

(** ** Cost models *)

Definition modelEntry (kv : Z * list Z) : list Z * list Z := (intBytes kv.1, recordBytes (map intBytes kv.2)).
Definition modelsBytes (l : list (Z * list Z)) : list Z := mapBytes false (map modelEntry l).

(** The order of the texts of the languages. *)
Definition languageGreater (a b : Z * list Z) : bool := string_gt (pretty a.1 +:+ ",[object Object]") (pretty b.1 +:+ ",[object Object]").

Definition isModel (kv : Z * list Z) : bool := isSafe kv.1 && ((zlen kv.2 <? 2 ^ 53) && forallb isSafe kv.2).

(** Models in their order, for distinct languages. *)
Definition isModels (l : list (Z * list Z)) : bool :=
  (zlen l <? 2 ^ 53) && (bool_decide (NoDup l.*1) && bool_decide (sort_by languageGreater l = l)) && forallb isModel l.

#[export] Instance models_serializable : Serializable (list (Z * list Z)) Costmdls.t := {
  toCbor_of := Costmdls.toCbor;
  fromCbor_of := Costmdls.fromCbor;
  toCore_of m := Ok (Costmdls.toCore m);
  fromCore_of m := Ok (Costmdls.fromCore m);
  bytesOf := modelsBytes;
  validCore := isModels;
  typed _ := true
}.

Lemma isModels_spec l : isModels l = true -> 0 <= zlen l < 2 ^ 53 /\ NoDup l.*1 /\ sort_by languageGreater l = l /\ Forall (fun kv => isModel kv = true) l.
Proof.
  intros [[Hz [Hd%bool_decide_eq_true Hs%bool_decide_eq_true]%andb_true_iff]%andb_true_iff Hl]%andb_true_iff. zb. pose proof (zlen_nonneg l).
  split_and!; [lia..|done|done|]. apply List.Forall_forall. by apply forallb_forall.
Qed.

Lemma isModel_spec kv : isModel kv = true -> isSafe kv.1 = true /\ 0 <= zlen kv.2 < 2 ^ 53 /\ Forall (fun z => isSafe z = true) kv.2.
Proof.
  intros [Hk [Hz Hl]%andb_true_iff]%andb_true_iff. zb. pose proof (zlen_nonneg kv.2). split_and!; [done|lia|lia|].
  apply List.Forall_forall. by apply forallb_forall.
Qed.

Lemma model_entry kv : isModel kv = true -> field (modelEntry kv).1 /\ field (modelEntry kv).2.
Proof.
  intros (Hk & Hz & Hl)%isModel_spec. split; [by apply field_int, safe_int64|]. apply field_record; [rewrite zlen_map; lia|].
  apply List.Forall_map. eapply Forall_impl; [exact Hl|]. intros z Hz'. by apply field_int, safe_int64.
Qed.

(** The object for some models. *)
Definition modelObjects (l : list (Z * list Z)) : list (Z * CostModel.t) := (fun kv => (kv.1, CostModel.new kv.1 kv.2)) <$> l.

Lemma model_keys l : (modelObjects l).*1 = l.*1.
Proof. unfold modelObjects. by rewrite <- list_fmap_compose. Qed.

Lemma models_of_entries l : NoDup l.*1 -> JsMap.of_entries (modelObjects l) = modelObjects l.
Proof. intros Hd. apply JsMapFacts.of_entries_nodup. unfold JsMap.wf, JsMap.keys. by rewrite model_keys. Qed.

Lemma insert_by_fmap {A B} (f : A -> B) (g : B -> B -> bool) x l : insert_by g (f x) (f <$> l) = f <$> insert_by (fun a b => g (f a) (f b)) x l.
Proof. induction l as [|y l IH]; [done|]. cbn. destruct (g _ _); [|done]. cbn. by rewrite <- IH. Qed.

Lemma sort_by_fmap {A B} (f : A -> B) (g : B -> B -> bool) l : sort_by g (f <$> l) = f <$> sort_by (fun a b => g (f a) (f b)) l.
Proof.
  unfold sort_by. change (@nil B) with (f <$> []). generalize (@nil A). induction l as [|x l IH]; intros s; [done|]. cbn. by rewrite insert_by_fmap, IH.
Qed.

Lemma models_sorted l : sort_by languageGreater l = l -> sort_by Costmdls.entryGreater (modelObjects l) = modelObjects l.
Proof. intros Hs. unfold modelObjects. rewrite sort_by_fmap. by rewrite Hs at 1. Qed.

Lemma models_toCore l o : NoDup l.*1 -> Costmdls.toCore (Costmdls.Build_t (modelObjects l) o) = l.
Proof.
  intros Hd. unfold Costmdls.toCore, modelObjects. cbn [Costmdls.models]. rewrite <- list_fmap_compose.
  assert (E : ((fun entry : Z * CostModel.t => (entry.1, CostModel.costs entry.2)) ∘ (fun kv => (kv.1, CostModel.new kv.1 kv.2))) <$> l = l).
  { clear Hd. induction l as [|[k c] l IH]; [done|]. cbn in *. by rewrite IH. }
  rewrite E. by apply JsMapFacts.of_entries_nodup.
Qed.

Lemma costs_emit l : Forall (fun z => isSafe z = true) l -> emits (Costmdls.writeCosts l) (concat (map intBytes l)).
Proof. intros Hl. apply emits_forEach. induction Hl as [|z l Hz _ IH]; constructor; [|done]. by apply emits_int, safe_int64. Qed.

Lemma models_toCbor l : isModels l = true -> Costmdls.toCbor (Costmdls.new (modelObjects l)) = Ok (Buffer_to_hex (modelsBytes l)).
Proof.
  intros (Hz & Hd & Hs & Hl)%isModels_spec. apply encode_emits. cbn [Costmdls.models Costmdls.new]. rewrite models_sorted, models_of_entries by done. cbv zeta.
  unfold modelsBytes, mapBytes, JsMap.size, modelObjects. rewrite zlen_map. change (zlen ((fun kv : Z * list Z => (kv.1, CostModel.new kv.1 kv.2)) <$> l))
    with (zlen (map (fun kv : Z * list Z => (kv.1, CostModel.new kv.1 kv.2)) l)). rewrite zlen_map.
  apply emits_bind; [apply emits_call, writeTypeValue_head; lia|]. apply emits_forEach. rewrite map_map. clear Hz Hd Hs.
  induction Hl as [|kv l Hkv _ IH]; constructor; [|done]. cbn [fst snd CostModel.costs CostModel.new]. apply isModel_spec in Hkv as (Hk & Hz & Hl).
  apply emits_bind; [by apply emits_int, safe_int64|]. unfold modelEntry. cbn [snd]. unfold recordBytes. rewrite zlen_map. apply record_emits; [lia|by apply costs_emit].
Qed.

Lemma model_reads kv : isModel kv = true -> readsN 2 Costmdls.readModel (entryBytes (modelEntry kv)) (kv.1, CostModel.new kv.1 kv.2).
Proof.
  intros (Hk & Hz & Hl)%isModel_spec. unfold entryBytes, modelEntry. cbn [fst snd].
  apply (readsN_bind 1 1 _ _ _ _ kv.1); [lia|lia|by apply readNumber_reads|].
  eapply (readsN_ext 1 _ (costs ← (call readStartArray ;; costs ← readWhileNot CborReaderState.EndArray readNumber; call readEndArray ;; mret costs);
    mret (kv.1, CostModel.new kv.1 costs))); [intros r; same_program|].
  apply (reads_fmap 1 _ (fun costs => (kv.1, CostModel.new kv.1 costs))). unfold recordBytes. apply reads_array_definite; [rewrite zlen_map; lia|].
  clear Hz. induction Hl as [|z l Hz _ IH]; constructor; [|done]. split; [by apply item_begins, field_int, safe_int64|by apply readNumber_reads].
Qed.

Lemma models_elements l : Forall (fun kv => isModel kv = true) l -> elements 2 Costmdls.readModel (map entryBytes (map modelEntry l)) (modelObjects l).
Proof.
  induction 1 as [|kv l Hkv _ IH]; [constructor|]. constructor; [|done]. destruct (model_entry kv Hkv) as [Hk Hv].
  split; [exists (modelEntry kv).1, (modelEntry kv).2; split; [by apply Hk|done]|by apply model_reads].
Qed.

Lemma models_field l : isModels l = true -> field (modelsBytes l).
Proof.
  intros (Hz & _ & _ & Hl)%isModels_spec. apply entries_field; [|lia]. eapply Forall_impl; [exact Hl|]. intros kv. apply model_entry.
Qed.

Lemma models_fromCbor l : isModels l = true -> zlen (modelsBytes l) < 2 ^ 53 ->
  Costmdls.fromCbor (Buffer_to_hex (modelsBytes l)) = Ok (Costmdls.Build_t (modelObjects l) (Some (Buffer_to_hex (modelsBytes l)))).
Proof.
  intros Hm Hsz. destruct (models_field l Hm) as [Hi Hb]. apply isModels_spec in Hm as (Hz & Hd & Hs & Hl). apply decode_reads; [|done..].
  eapply (readsN_ext 1 _ (m ← readMapOf Costmdls.readModel; mret (Costmdls.Build_t (JsMap.of_entries m) (Some (Buffer_to_hex (modelsBytes l)))))).
  { intros r. unfold readMapOf. same_program. }
  rewrite <- (models_of_entries l Hd). apply (reads_fmap 1 _ (fun m => Costmdls.Build_t (JsMap.of_entries m) (Some (Buffer_to_hex (modelsBytes l))))).
  apply readMapOf_reads; [rewrite zlen_map; lia|by apply models_elements|].
  apply List.Forall_map. eapply Forall_impl; [exact Hl|]. intros kv [[] []]%model_entry. done.
Qed.

Lemma models_accepts : accepts Costmdls.fromCbor (fun _ => True).
Proof.
  apply accepts_decode. intros cbor. apply (sound_ext _ (m ← readMapOf Costmdls.readModel; mret (Costmdls.Build_t (JsMap.of_entries m) (Some cbor)))).
  { intros r. unfold readMapOf. same_program. }
  eapply sound_bind; [apply (sound_map _ (fun _ => True))|intros; by apply sound_ret].
  assert (Hn : advances readNumber (fun _ => True)).
  { eapply advances_bind; [apply advances_item, readInt_item|]. intros z _. by apply sound_ret. }
  eapply advances_bind; [exact Hn|]. intros k _. eapply sound_bind; [apply sound_startArray|]. intros _ _.
  eapply sound_bind; [apply sound_while, Hn|]. intros l _. eapply sound_bind; [apply sound_endArray|]. intros _ _. by apply sound_ret.
Qed.

#[export] Instance models_laws : SerializableLaws (list (Z * list Z)) Costmdls.t.
Proof.
  split; cbn [bytesOf validCore fromCore_of fromCbor_of models_serializable].
  - apply models_field.
  - intros l (Hz & _)%isModels_spec. apply (starts_not_null Map); [done|]. apply starts_head. rewrite zlen_map. lia.
  - intros l Hl. destruct (isModels_spec l Hl) as (_ & Hd & _). exists (Costmdls.new (modelObjects l)). split.
    + unfold Costmdls.fromCore. fold (modelObjects l). by rewrite models_of_entries.
    + split; [unfold toCore_of, models_serializable; f_equal; by apply models_toCore|by apply models_toCbor].
  - intros l Hl Hz. destruct (isModels_spec l Hl) as (_ & Hd & _). eexists. split; [by apply models_fromCbor|].
    split; [unfold toCore_of, models_serializable; f_equal; by apply models_toCore|]. destruct (models_field l Hl). by apply cached_some.
  - eapply accepts_weaken; [apply models_accepts|]. done.
Qed.
