(* ===== verification/ProtocolParams.v ===== *)
(** * Updates of protocol parameters
    Models [ProtocolParamUpdate.ts], [ProposedProtocolParameterUpdates.ts] and
    [Update.ts] of [packages/core/src/Serialization/Update].  The class has 37
    optional fields; [param] names them, so that what the code does field by
    field is one definition per kind of field. *)
From Stdlib Require Import SpecFloat.
From S2P Require Import Prelude JsRuntime CborCommon Half NumberText CborWriter CborReader Codec Credential Records Common ParamParts.

(** ** The parameters *)

(** The kinds of values: coins are bigints in the class and numbers in the core
    type, where [poolDeposit] may be [null]. *)
Inductive kind : Set := Coin | NullableCoin | Count | Word32 | PositiveWord32 | Interval | PositiveInterval | Entropy | Version | Models | Prices | Units | PoolThresholds | DrepThresholds.

Definition value (k : kind) : Set :=
  match k with
  | Coin | NullableCoin | Count | Word32 | PositiveWord32 => Z
  | Interval | PositiveInterval => UnitInterval.t
  | Entropy => HexBlob
  | Version => ProtocolVersion.t
  | Models => Costmdls.t
  | Prices => ExUnitPrices.t
  | Units => ExUnits.t
  | PoolThresholds => PoolVotingThresholds.t
  | DrepThresholds => DrepVotingThresholds.t
  end.

Definition coreValue (k : kind) : Set :=
  match k with
  | Coin | Count | Word32 | PositiveWord32 => Z
  | NullableCoin => option Z
  | Interval | PositiveInterval => string
  | Entropy => string
  | Version => ProtocolVersion.core
  | Models => Costmdls.core
  | Prices => ExUnitPrices.core
  | Units => ExUnits.core
  | PoolThresholds => PoolVotingThresholds.core
  | DrepThresholds => DrepVotingThresholds.core
  end.

Module Param.
Inductive t : Set :=
  | minFeeA | minFeeB | maxBlockBodySize | maxTxSize | maxBlockHeaderSize | keyDeposit | poolDeposit | maxEpoch | nOpt | poolPledgeInfluence
  | expansionRate | treasuryGrowthRate | d | extraEntropy | protocolVersion | minPoolCost | adaPerUtxoByte | costModels | executionCosts |
  maxTxExUnits | maxBlockExUnits | maxValueSize | collateralPercentage | maxCollateralInputs | poolVotingThresholds | drepVotingThresholds |
  minCommitteeSize | committeeTermLimit | governanceActionValidityPeriod | governanceActionDeposit | drepDeposit | drepInactivityPeriod |
  minFeeRefScriptCostPerByte | maxRefScriptSizePerBlock | maxRefScriptSizePerTx | refScriptCostStride | refScriptCostMultiplier.

#[global] Instance t_eq_dec : EqDecision t.
Proof. solve_decision. Defined.

(** In the order in which they are written. *)
Definition all : list t :=
  [minFeeA; minFeeB; maxBlockBodySize; maxTxSize; maxBlockHeaderSize; keyDeposit; poolDeposit; maxEpoch; nOpt; poolPledgeInfluence;
  expansionRate; treasuryGrowthRate; d; extraEntropy; protocolVersion; minPoolCost; adaPerUtxoByte; costModels; executionCosts;
  maxTxExUnits; maxBlockExUnits; maxValueSize; collateralPercentage; maxCollateralInputs; poolVotingThresholds; drepVotingThresholds;
  minCommitteeSize; committeeTermLimit; governanceActionValidityPeriod; governanceActionDeposit; drepDeposit; drepInactivityPeriod;
  minFeeRefScriptCostPerByte; maxRefScriptSizePerBlock; maxRefScriptSizePerTx; refScriptCostStride; refScriptCostMultiplier].

(** The keys of the CDDL: 15 is not used. *)
Definition key (p : t) : Z :=
  match p with
  | minFeeA => 0 | minFeeB => 1 | maxBlockBodySize => 2 | maxTxSize => 3 | maxBlockHeaderSize => 4 | keyDeposit => 5 | poolDeposit => 6 |
  maxEpoch => 7 | nOpt => 8 | poolPledgeInfluence => 9 | expansionRate => 10 | treasuryGrowthRate => 11 | d => 12 | extraEntropy => 13 |
  protocolVersion => 14 | minPoolCost => 16 | adaPerUtxoByte => 17 | costModels => 18 | executionCosts => 19 | maxTxExUnits => 20 |
  maxBlockExUnits => 21 | maxValueSize => 22 | collateralPercentage => 23 | maxCollateralInputs => 24 | poolVotingThresholds => 25 |
  drepVotingThresholds => 26 | minCommitteeSize => 27 | committeeTermLimit => 28 | governanceActionValidityPeriod => 29 |
  governanceActionDeposit => 30 | drepDeposit => 31 | drepInactivityPeriod => 32 | minFeeRefScriptCostPerByte => 33 |
  maxRefScriptSizePerBlock => 34 | maxRefScriptSizePerTx => 35 | refScriptCostStride => 36 | refScriptCostMultiplier => 37
  end.

Definition kindOf (p : t) : kind :=
  match p with
  | minFeeA | minFeeB | keyDeposit | minPoolCost | adaPerUtxoByte => Coin
  | maxBlockBodySize | maxTxSize | maxBlockHeaderSize | maxEpoch | nOpt | maxValueSize | collateralPercentage | maxCollateralInputs |
  minCommitteeSize | committeeTermLimit | governanceActionValidityPeriod | governanceActionDeposit | drepDeposit | drepInactivityPeriod =>
  Count
  | poolDeposit => NullableCoin
  | poolPledgeInfluence | expansionRate | treasuryGrowthRate | d | minFeeRefScriptCostPerByte => Interval
  | extraEntropy => Entropy
  | protocolVersion => Version
  | costModels => Models
  | executionCosts => Prices
  | maxTxExUnits | maxBlockExUnits => Units
  | poolVotingThresholds => PoolThresholds
  | drepVotingThresholds => DrepThresholds
  | maxRefScriptSizePerBlock | maxRefScriptSizePerTx => Word32
  | refScriptCostStride => PositiveWord32
  | refScriptCostMultiplier => PositiveInterval
  end.

(** The [switch] on a key that was read. *)
Definition ofKey (k : Z) : option t := find (fun p => key p =? k) all.
End Param.

Abbreviation valueOf p := (value (Param.kindOf p)).
Abbreviation coreOf p := (coreValue (Param.kindOf p)).

Section params.
Context `{FractionJs}.

(** ** One field *)

Definition MAX_WORD32 : Z := 4294967295.

Definition assertUint32 (argName : string) (value : Z) : Res unit :=
  if (value <? 0) || (MAX_WORD32 <? value) then
    Throw (InvalidArgumentError argName ("Expected an integer between 0 and " +:+ pretty MAX_WORD32 +:+ ", but got " +:+ pretty value))
  else Ok tt.

Definition assertPositiveWord32 (argName : string) (value : Z) : Res unit :=
  if (value <? 1) || (MAX_WORD32 <? value) then
    Throw (InvalidArgumentError argName ("Expected an integer between 1 and " +:+ pretty MAX_WORD32 +:+ ", but got " +:+ pretty value))
  else Ok tt.

Definition assertPositiveInterval (argName : string) (value : UnitInterval.t) : Res unit :=
  if (UnitInterval.numerator value <? 1) || (UnitInterval.denominator value <? 1) then
    Throw (InvalidArgumentError argName ("Expected a positive interval, but got " +:+
      pretty (UnitInterval.numerator value) +:+ "/" +:+ pretty (UnitInterval.denominator value)))
  else Ok tt.

(** The checks of [toCbor] and of the setters. *)
Definition assertField (name : string) (k : kind) : value k -> Res unit :=
  match k with
  | Word32 => assertUint32 name
  | PositiveWord32 => assertPositiveWord32 name
  | PositiveInterval => assertPositiveInterval name
  | _ => fun _ => Ok tt
  end.

Definition writeEntropy (extraEntropy : HexBlob) : Enc unit :=
  if Z.of_nat (String.length extraEntropy) =? 0 then
    call (CborWriter.writeStartArray (Some 1)) ;;
    call (CborWriter.writeInt 0)
  else
    call (CborWriter.writeStartArray (Some 2)) ;;
    call (CborWriter.writeInt 1) ;;
    call (CborWriter.writeByteString (Buffer_from_hex extraEntropy)).

Definition writeValue (k : kind) : value k -> Enc unit :=
  match k with
  | Coin | NullableCoin | Count | Word32 | PositiveWord32 => fun z => call (CborWriter.writeInt z)
  | Interval | PositiveInterval => fun u => writeEncoded (UnitInterval.toCbor u)
  | Entropy => writeEntropy
  | Version => fun v => writeEncoded (ProtocolVersion.toCbor v)
  | Models => fun m => writeEncoded (Costmdls.toCbor m)
  | Prices => fun p => writeEncoded (ExUnitPrices.toCbor p)
  | Units => fun u => writeEncoded (ExUnits.toCbor u)
  | PoolThresholds => fun p => writeEncoded (PoolVotingThresholds.toCbor p)
  | DrepThresholds => fun p => writeEncoded (DrepVotingThresholds.toCbor p)
  end.

(** The value of the first element of the array is not looked at. *)
Definition readEntropy : Dec HexBlob :=
  length ← call CborReader.readStartArray;
  if bool_decide (length = Some 1) then
    call CborReader.readEncodedValue ;;
    call CborReader.readEndArray ;;
    mret ""
  else
    call CborReader.readEncodedValue ;;
    bytes ← call CborReader.readByteString;
    call CborReader.readEndArray ;;
    mret (HexBlob_fromBytes bytes).

Definition readValue (k : kind) : Dec (value k) :=
  match k with
  | Coin | NullableCoin => call CborReader.readInt
  | Count | Word32 | PositiveWord32 => readNumber
  | Interval | PositiveInterval => readNested UnitInterval.fromCbor
  | Entropy => readEntropy
  | Version => readNested ProtocolVersion.fromCbor
  | Models => readNested Costmdls.fromCbor
  | Prices => readNested ExUnitPrices.fromCbor
  | Units => readNested ExUnits.fromCbor
  | PoolThresholds => readNested PoolVotingThresholds.fromCbor
  | DrepThresholds => readNested DrepVotingThresholds.fromCbor
  end.

(** [toFloat().toString()] *)
Definition floatText (u : UnitInterval.t) : string := Number_toString (UnitInterval_toFloat u).

Definition valueToCore (k : kind) : value k -> coreValue k :=
  match k with
  | Coin => Number_of
  | NullableCoin => fun z => Some (Number_of z)
  | Count | Word32 | PositiveWord32 => fun z => z
  | Interval | PositiveInterval => floatText
  | Entropy => fun e => e
  | Version => ProtocolVersion.toCore
  | Models => Costmdls.toCore
  | Prices => ExUnitPrices.toCore
  | Units => ExUnits.toCore
  | PoolThresholds => PoolVotingThresholds.toCore
  | DrepThresholds => DrepVotingThresholds.toCore
  end.

Definition intervalFromCore (text : string) : Res (option UnitInterval.t) :=
  if String.eqb text "" then Ok None else u ← UnitInterval_fromFloat (Number_parse text); Ok (Some u).

(** Texts that are empty make no field. *)
Definition valueFromCore (k : kind) : coreValue k -> Res (option (value k)) :=
  match k with
  | Coin | Count | Word32 | PositiveWord32 => fun z => Ok (Some z)
  | NullableCoin => fun z => Ok z
  | Interval | PositiveInterval => intervalFromCore
  | Entropy => fun text => if String.eqb text "" then Ok None else e ← typedHex text 0; Ok (Some e)
  | Version => fun v => Ok (Some (ProtocolVersion.fromCore v))
  | Models => fun m => Ok (Some (Costmdls.fromCore m))
  | Prices => fun p => v ← ExUnitPrices.fromCore p; Ok (Some v)
  | Units => fun u => Ok (Some (ExUnits.fromCore u))
  | PoolThresholds => fun p => Ok (Some (PoolVotingThresholds.fromCore p))
  | DrepThresholds => fun p => Ok (Some (DrepVotingThresholds.fromCore p))
  end.
End params.

(** ** The class *)

Module ProtocolParamUpdate.
(** [Cardano.ProtocolParametersUpdate], by the names of its fields in the class
    where these differ. *)
Record core : Set := Core {
  coreMinFeeA : option (Z); (** [minFeeCoefficient] *)
  coreMinFeeB : option (Z); (** [minFeeConstant] *)
  coreMaxBlockBodySize : option (Z);
  coreMaxTxSize : option (Z);
  coreMaxBlockHeaderSize : option (Z);
  coreKeyDeposit : option (Z); (** [stakeKeyDeposit] *)
  corePoolDeposit : option (option Z);
  coreMaxEpoch : option (Z); (** [poolRetirementEpochBound] *)
  coreNOpt : option (Z); (** [desiredNumberOfPools] *)
  corePoolPledgeInfluence : option (string); (** [poolInfluence] *)
  coreExpansionRate : option (string); (** [monetaryExpansion] *)
  coreTreasuryGrowthRate : option (string); (** [treasuryExpansion] *)
  coreD : option (string); (** [decentralizationParameter] *)
  coreExtraEntropy : option (string);
  coreProtocolVersion : option (ProtocolVersion.core);
  coreMinPoolCost : option (Z);
  coreAdaPerUtxoByte : option (Z); (** [coinsPerUtxoByte] *)
  coreCostModels : option (Costmdls.core);
  coreExecutionCosts : option (ExUnitPrices.core); (** [prices] *)
  coreMaxTxExUnits : option (ExUnits.core); (** [maxExecutionUnitsPerTransaction] *)
  coreMaxBlockExUnits : option (ExUnits.core); (** [maxExecutionUnitsPerBlock] *)
  coreMaxValueSize : option (Z);
  coreCollateralPercentage : option (Z);
  coreMaxCollateralInputs : option (Z);
  corePoolVotingThresholds : option (PoolVotingThresholds.core);
  coreDrepVotingThresholds : option (DrepVotingThresholds.core); (** [dRepVotingThresholds] *)
  coreMinCommitteeSize : option (Z);
  coreCommitteeTermLimit : option (Z);
  coreGovernanceActionValidityPeriod : option (Z);
  coreGovernanceActionDeposit : option (Z);
  coreDrepDeposit : option (Z); (** [dRepDeposit] *)
  coreDrepInactivityPeriod : option (Z); (** [dRepInactivityPeriod] *)
  coreMinFeeRefScriptCostPerByte : option (string);
  coreMaxRefScriptSizePerBlock : option (Z);
  coreMaxRefScriptSizePerTx : option (Z);
  coreRefScriptCostStride : option (Z);
  coreRefScriptCostMultiplier : option (string)
}.

Record t : Set := {
  minFeeA : option (Z);
  minFeeB : option (Z);
  maxBlockBodySize : option (Z);
  maxTxSize : option (Z);
  maxBlockHeaderSize : option (Z);
  keyDeposit : option (Z);
  poolDeposit : option (Z);
  maxEpoch : option (Z);
  nOpt : option (Z);
  poolPledgeInfluence : option (UnitInterval.t);
  expansionRate : option (UnitInterval.t);
  treasuryGrowthRate : option (UnitInterval.t);
  d : option (UnitInterval.t);
  extraEntropy : option (HexBlob);
  protocolVersion : option (ProtocolVersion.t);
  minPoolCost : option (Z);
  adaPerUtxoByte : option (Z);
  costModels : option (Costmdls.t);
  executionCosts : option (ExUnitPrices.t);
  maxTxExUnits : option (ExUnits.t);
  maxBlockExUnits : option (ExUnits.t);
  maxValueSize : option (Z);
  collateralPercentage : option (Z);
  maxCollateralInputs : option (Z);
  poolVotingThresholds : option (PoolVotingThresholds.t);
  drepVotingThresholds : option (DrepVotingThresholds.t);
  minCommitteeSize : option (Z);
  committeeTermLimit : option (Z);
  governanceActionValidityPeriod : option (Z);
  governanceActionDeposit : option (Z);
  drepDeposit : option (Z);
  drepInactivityPeriod : option (Z);
  minFeeRefScriptCostPerByte : option (UnitInterval.t);
  maxRefScriptSizePerBlock : option (Z);
  maxRefScriptSizePerTx : option (Z);
  refScriptCostStride : option (Z);
  refScriptCostMultiplier : option (UnitInterval.t);
  originalBytes : option HexBlob
}.

(** The field a parameter names, and the object with given fields. *)
Definition get (s : t) (p : Param.t) : option (valueOf p) :=
  match p with
  | Param.minFeeA => minFeeA s
  | Param.minFeeB => minFeeB s
  | Param.maxBlockBodySize => maxBlockBodySize s
  | Param.maxTxSize => maxTxSize s
  | Param.maxBlockHeaderSize => maxBlockHeaderSize s
  | Param.keyDeposit => keyDeposit s
  | Param.poolDeposit => poolDeposit s
  | Param.maxEpoch => maxEpoch s
  | Param.nOpt => nOpt s
  | Param.poolPledgeInfluence => poolPledgeInfluence s
  | Param.expansionRate => expansionRate s
  | Param.treasuryGrowthRate => treasuryGrowthRate s
  | Param.d => d s
  | Param.extraEntropy => extraEntropy s
  | Param.protocolVersion => protocolVersion s
  | Param.minPoolCost => minPoolCost s
  | Param.adaPerUtxoByte => adaPerUtxoByte s
  | Param.costModels => costModels s
  | Param.executionCosts => executionCosts s
  | Param.maxTxExUnits => maxTxExUnits s
  | Param.maxBlockExUnits => maxBlockExUnits s
  | Param.maxValueSize => maxValueSize s
  | Param.collateralPercentage => collateralPercentage s
  | Param.maxCollateralInputs => maxCollateralInputs s
  | Param.poolVotingThresholds => poolVotingThresholds s
  | Param.drepVotingThresholds => drepVotingThresholds s
  | Param.minCommitteeSize => minCommitteeSize s
  | Param.committeeTermLimit => committeeTermLimit s
  | Param.governanceActionValidityPeriod => governanceActionValidityPeriod s
  | Param.governanceActionDeposit => governanceActionDeposit s
  | Param.drepDeposit => drepDeposit s
  | Param.drepInactivityPeriod => drepInactivityPeriod s
  | Param.minFeeRefScriptCostPerByte => minFeeRefScriptCostPerByte s
  | Param.maxRefScriptSizePerBlock => maxRefScriptSizePerBlock s
  | Param.maxRefScriptSizePerTx => maxRefScriptSizePerTx s
  | Param.refScriptCostStride => refScriptCostStride s
  | Param.refScriptCostMultiplier => refScriptCostMultiplier s
  end.

Definition make (f : forall p, option (valueOf p)) (originalBytes : option HexBlob) : t := {|
  minFeeA := f Param.minFeeA;
  minFeeB := f Param.minFeeB;
  maxBlockBodySize := f Param.maxBlockBodySize;
  maxTxSize := f Param.maxTxSize;
  maxBlockHeaderSize := f Param.maxBlockHeaderSize;
  keyDeposit := f Param.keyDeposit;
  poolDeposit := f Param.poolDeposit;
  maxEpoch := f Param.maxEpoch;
  nOpt := f Param.nOpt;
  poolPledgeInfluence := f Param.poolPledgeInfluence;
  expansionRate := f Param.expansionRate;
  treasuryGrowthRate := f Param.treasuryGrowthRate;
  d := f Param.d;
  extraEntropy := f Param.extraEntropy;
  protocolVersion := f Param.protocolVersion;
  minPoolCost := f Param.minPoolCost;
  adaPerUtxoByte := f Param.adaPerUtxoByte;
  costModels := f Param.costModels;
  executionCosts := f Param.executionCosts;
  maxTxExUnits := f Param.maxTxExUnits;
  maxBlockExUnits := f Param.maxBlockExUnits;
  maxValueSize := f Param.maxValueSize;
  collateralPercentage := f Param.collateralPercentage;
  maxCollateralInputs := f Param.maxCollateralInputs;
  poolVotingThresholds := f Param.poolVotingThresholds;
  drepVotingThresholds := f Param.drepVotingThresholds;
  minCommitteeSize := f Param.minCommitteeSize;
  committeeTermLimit := f Param.committeeTermLimit;
  governanceActionValidityPeriod := f Param.governanceActionValidityPeriod;
  governanceActionDeposit := f Param.governanceActionDeposit;
  drepDeposit := f Param.drepDeposit;
  drepInactivityPeriod := f Param.drepInactivityPeriod;
  minFeeRefScriptCostPerByte := f Param.minFeeRefScriptCostPerByte;
  maxRefScriptSizePerBlock := f Param.maxRefScriptSizePerBlock;
  maxRefScriptSizePerTx := f Param.maxRefScriptSizePerTx;
  refScriptCostStride := f Param.refScriptCostStride;
  refScriptCostMultiplier := f Param.refScriptCostMultiplier;
  originalBytes := originalBytes |}.

Definition coreGet (s : core) (p : Param.t) : option (coreOf p) :=
  match p with
  | Param.minFeeA => coreMinFeeA s
  | Param.minFeeB => coreMinFeeB s
  | Param.maxBlockBodySize => coreMaxBlockBodySize s
  | Param.maxTxSize => coreMaxTxSize s
  | Param.maxBlockHeaderSize => coreMaxBlockHeaderSize s
  | Param.keyDeposit => coreKeyDeposit s
  | Param.poolDeposit => corePoolDeposit s
  | Param.maxEpoch => coreMaxEpoch s
  | Param.nOpt => coreNOpt s
  | Param.poolPledgeInfluence => corePoolPledgeInfluence s
  | Param.expansionRate => coreExpansionRate s
  | Param.treasuryGrowthRate => coreTreasuryGrowthRate s
  | Param.d => coreD s
  | Param.extraEntropy => coreExtraEntropy s
  | Param.protocolVersion => coreProtocolVersion s
  | Param.minPoolCost => coreMinPoolCost s
  | Param.adaPerUtxoByte => coreAdaPerUtxoByte s
  | Param.costModels => coreCostModels s
  | Param.executionCosts => coreExecutionCosts s
  | Param.maxTxExUnits => coreMaxTxExUnits s
  | Param.maxBlockExUnits => coreMaxBlockExUnits s
  | Param.maxValueSize => coreMaxValueSize s
  | Param.collateralPercentage => coreCollateralPercentage s
  | Param.maxCollateralInputs => coreMaxCollateralInputs s
  | Param.poolVotingThresholds => corePoolVotingThresholds s
  | Param.drepVotingThresholds => coreDrepVotingThresholds s
  | Param.minCommitteeSize => coreMinCommitteeSize s
  | Param.committeeTermLimit => coreCommitteeTermLimit s
  | Param.governanceActionValidityPeriod => coreGovernanceActionValidityPeriod s
  | Param.governanceActionDeposit => coreGovernanceActionDeposit s
  | Param.drepDeposit => coreDrepDeposit s
  | Param.drepInactivityPeriod => coreDrepInactivityPeriod s
  | Param.minFeeRefScriptCostPerByte => coreMinFeeRefScriptCostPerByte s
  | Param.maxRefScriptSizePerBlock => coreMaxRefScriptSizePerBlock s
  | Param.maxRefScriptSizePerTx => coreMaxRefScriptSizePerTx s
  | Param.refScriptCostStride => coreRefScriptCostStride s
  | Param.refScriptCostMultiplier => coreRefScriptCostMultiplier s
  end.

Definition coreMake (f : forall p, option (coreOf p)) : core := {|
  coreMinFeeA := f Param.minFeeA;
  coreMinFeeB := f Param.minFeeB;
  coreMaxBlockBodySize := f Param.maxBlockBodySize;
  coreMaxTxSize := f Param.maxTxSize;
  coreMaxBlockHeaderSize := f Param.maxBlockHeaderSize;
  coreKeyDeposit := f Param.keyDeposit;
  corePoolDeposit := f Param.poolDeposit;
  coreMaxEpoch := f Param.maxEpoch;
  coreNOpt := f Param.nOpt;
  corePoolPledgeInfluence := f Param.poolPledgeInfluence;
  coreExpansionRate := f Param.expansionRate;
  coreTreasuryGrowthRate := f Param.treasuryGrowthRate;
  coreD := f Param.d;
  coreExtraEntropy := f Param.extraEntropy;
  coreProtocolVersion := f Param.protocolVersion;
  coreMinPoolCost := f Param.minPoolCost;
  coreAdaPerUtxoByte := f Param.adaPerUtxoByte;
  coreCostModels := f Param.costModels;
  coreExecutionCosts := f Param.executionCosts;
  coreMaxTxExUnits := f Param.maxTxExUnits;
  coreMaxBlockExUnits := f Param.maxBlockExUnits;
  coreMaxValueSize := f Param.maxValueSize;
  coreCollateralPercentage := f Param.collateralPercentage;
  coreMaxCollateralInputs := f Param.maxCollateralInputs;
  corePoolVotingThresholds := f Param.poolVotingThresholds;
  coreDrepVotingThresholds := f Param.drepVotingThresholds;
  coreMinCommitteeSize := f Param.minCommitteeSize;
  coreCommitteeTermLimit := f Param.committeeTermLimit;
  coreGovernanceActionValidityPeriod := f Param.governanceActionValidityPeriod;
  coreGovernanceActionDeposit := f Param.governanceActionDeposit;
  coreDrepDeposit := f Param.drepDeposit;
  coreDrepInactivityPeriod := f Param.drepInactivityPeriod;
  coreMinFeeRefScriptCostPerByte := f Param.minFeeRefScriptCostPerByte;
  coreMaxRefScriptSizePerBlock := f Param.maxRefScriptSizePerBlock;
  coreMaxRefScriptSizePerTx := f Param.maxRefScriptSizePerTx;
  coreRefScriptCostStride := f Param.refScriptCostStride;
  coreRefScriptCostMultiplier := f Param.refScriptCostMultiplier |}.

(** [this.#p = v] *)
Definition put (s : t) (p : Param.t) (v : option (valueOf p)) : t :=
  make (fun q => match decide (p = q) with left e => eq_rect p (fun q => option (valueOf q)) v q e | right _ => get s q end) (originalBytes s).

Definition reset (s : t) : t := make (get s) None.
Definition remember (s : t) (cbor : HexBlob) : t := make (get s) (Some cbor).

Definition new : t := make (fun _ => None) None.

(** A setter that drops the remembered blob. *)
Definition set (p : Param.t) (s : t) (v : valueOf p) : t := reset (put s p (Some v)).

(** The one setter that keeps it. *)
Definition setMinFeeA (s : t) (v : Z) : t := put s Param.minFeeA (Some v).
Definition setMinFeeB : t -> Z -> t := set Param.minFeeB.
Definition setMaxBlockBodySize : t -> Z -> t := set Param.maxBlockBodySize.
Definition setMaxTxSize : t -> Z -> t := set Param.maxTxSize.
Definition setMaxBlockHeaderSize : t -> Z -> t := set Param.maxBlockHeaderSize.
Definition setKeyDeposit : t -> Z -> t := set Param.keyDeposit.
Definition setPoolDeposit : t -> Z -> t := set Param.poolDeposit.
Definition setMaxEpoch : t -> Z -> t := set Param.maxEpoch.
Definition setNOpt : t -> Z -> t := set Param.nOpt.
Definition setPoolPledgeInfluence : t -> UnitInterval.t -> t := set Param.poolPledgeInfluence.
Definition setExpansionRate : t -> UnitInterval.t -> t := set Param.expansionRate.
Definition setTreasuryGrowthRate : t -> UnitInterval.t -> t := set Param.treasuryGrowthRate.
Definition setD : t -> UnitInterval.t -> t := set Param.d.
Definition setExtraEntropy : t -> HexBlob -> t := set Param.extraEntropy.
Definition setProtocolVersion : t -> ProtocolVersion.t -> t := set Param.protocolVersion.
Definition setMinPoolCost : t -> Z -> t := set Param.minPoolCost.
Definition setAdaPerUtxoByte : t -> Z -> t := set Param.adaPerUtxoByte.
Definition setCostModels : t -> Costmdls.t -> t := set Param.costModels.
Definition setExecutionCosts : t -> ExUnitPrices.t -> t := set Param.executionCosts.
Definition setMaxTxExUnits : t -> ExUnits.t -> t := set Param.maxTxExUnits.
Definition setMaxBlockExUnits : t -> ExUnits.t -> t := set Param.maxBlockExUnits.
Definition setMaxValueSize : t -> Z -> t := set Param.maxValueSize.
Definition setCollateralPercentage : t -> Z -> t := set Param.collateralPercentage.
Definition setMaxCollateralInputs : t -> Z -> t := set Param.maxCollateralInputs.
Definition setPoolVotingThresholds : t -> PoolVotingThresholds.t -> t := set Param.poolVotingThresholds.
Definition setDrepVotingThresholds : t -> DrepVotingThresholds.t -> t := set Param.drepVotingThresholds.
Definition setMinCommitteeSize : t -> Z -> t := set Param.minCommitteeSize.
Definition setCommitteeTermLimit : t -> Z -> t := set Param.committeeTermLimit.
Definition setGovernanceActionValidityPeriod : t -> Z -> t := set Param.governanceActionValidityPeriod.
Definition setGovernanceActionDeposit : t -> Z -> t := set Param.governanceActionDeposit.
Definition setDrepDeposit : t -> Z -> t := set Param.drepDeposit.
Definition setDrepInactivityPeriod : t -> Z -> t := set Param.drepInactivityPeriod.
Definition setMaxRefScriptSizePerBlock (s : t) (v : Z) : Res t := assertUint32 "maxRefScriptSizePerBlock" v ;; Ok (set Param.maxRefScriptSizePerBlock s v).
Definition setMaxRefScriptSizePerTx (s : t) (v : Z) : Res t := assertUint32 "maxRefScriptSizePerTx" v ;; Ok (set Param.maxRefScriptSizePerTx s v).
Definition setRefScriptCostStride (s : t) (v : Z) : Res t := assertPositiveWord32 "refScriptCostStride" v ;; Ok (set Param.refScriptCostStride s v).
Definition setRefScriptCostMultiplier (s : t) (v : UnitInterval.t) : Res t := assertPositiveInterval "refScriptCostMultiplier" v ;; Ok (set Param.refScriptCostMultiplier s v).

Definition getMapSize (s : t) : Z := zlen (filter (fun p => is_Some (get s p)) Param.all).

(** The names in the messages of the checks. *)
Definition nameOf (p : Param.t) : string :=
  match p with
  | Param.maxRefScriptSizePerBlock => "maxRefScriptSizePerBlock"
  | Param.maxRefScriptSizePerTx => "maxRefScriptSizePerTx"
  | Param.refScriptCostStride => "refScriptCostStride"
  | Param.refScriptCostMultiplier => "refScriptCostMultiplier"
  | _ => ""
  end.

Definition writeField (s : t) (p : Param.t) : Enc unit :=
  match get s p with
  | Some v =>
      st_lift (assertField (nameOf p) (Param.kindOf p) v) ;;
      call (CborWriter.writeInt (Param.key p)) ;;
      writeValue (Param.kindOf p) v
  | None => mret tt
  end.

Definition toCbor (s : t) : Res HexBlob := cached (originalBytes s) (encode (
  call (CborWriter.writeStartMap (Some (getMapSize s))) ;;
  forEach (writeField s) Param.all)).

(** The [switch] on the keys has no default: the value of another key is left
    for the next round to read as a key. *)
Definition readField (key : Z) : Dec (t -> t) :=
  match Param.ofKey key with
  | Some p => v ← readValue (Param.kindOf p); mret (fun s => put s p (Some v))
  | None => mret (fun s => s)
  end.

Definition fromCbor (cbor : HexBlob) : Res t := decode (params ← readKeyed readField new; mret (remember params cbor)) cbor.

Definition toCore (s : t) : core := coreMake (fun p => valueToCore (Param.kindOf p) <$> get s p).

(** The fields are converted in turn; the first conversion that throws ends it. *)
Fixpoint fromCoreFields `{FractionJs} (c : core) (ps : list Param.t) (s : t) : Res t :=
  match ps with
  | [] => Ok s
  | p :: ps =>
      v ← match coreGet c p with Some x => valueFromCore (Param.kindOf p) x | None => Ok None end;
      fromCoreFields c ps (put s p v)
  end.

(** In the order of the assignments of the code. *)
Definition assignmentOrder : list Param.t := 
  [Param.minFeeA; Param.maxBlockBodySize; Param.minFeeB; Param.maxBlockHeaderSize; Param.keyDeposit; Param.poolDeposit; Param.maxEpoch;
  Param.nOpt; Param.poolPledgeInfluence; Param.expansionRate; Param.treasuryGrowthRate; Param.minPoolCost; Param.maxValueSize;
  Param.maxTxSize; Param.collateralPercentage; Param.maxCollateralInputs; Param.costModels; Param.executionCosts; Param.maxTxExUnits;
  Param.maxBlockExUnits; Param.adaPerUtxoByte; Param.poolVotingThresholds; Param.drepVotingThresholds; Param.minCommitteeSize;
  Param.committeeTermLimit; Param.governanceActionValidityPeriod; Param.governanceActionDeposit; Param.drepDeposit;
  Param.drepInactivityPeriod; Param.minFeeRefScriptCostPerByte; Param.maxRefScriptSizePerBlock; Param.maxRefScriptSizePerTx;
  Param.refScriptCostStride; Param.refScriptCostMultiplier; Param.d; Param.protocolVersion; Param.extraEntropy].

Definition fromCore `{FractionJs} (parametersUpdate : core) : Res t := fromCoreFields parametersUpdate assignmentOrder new.
End ProtocolParamUpdate.

(** ** Proposed updates *)

Module ProposedProtocolParameterUpdates.
(** [Cardano.ProposedProtocolParameterUpdates]: a [Map] from genesis keys. *)
Abbreviation core := (list (string * ProtocolParamUpdate.core)).

Record t : Set := { proposedUpdates : list (string * ProtocolParamUpdate.t); originalBytes : option HexBlob }.

Definition new (proposedUpdates : list (string * ProtocolParamUpdate.t)) : t := {| proposedUpdates := proposedUpdates; originalBytes := None |}.

(** [a > b] of two entries compares their texts, ["<hash>,[object Object]"]. *)
Definition entryGreater (a b : string * ProtocolParamUpdate.t) : bool := string_gt (a.1 +:+ ",[object Object]") (b.1 +:+ ",[object Object]").

Definition toCbor (u : t) : Res HexBlob := cached (originalBytes u) (encode (
  let sortedCanonically := JsMap.of_entries (sort_by entryGreater (proposedUpdates u)) in
  call (CborWriter.writeStartMap (Some (JsMap.size sortedCanonically))) ;;
  forEach (fun entry : string * ProtocolParamUpdate.t =>
    call (CborWriter.writeByteString (Buffer_from_hex entry.1)) ;;
    writeEncoded (ProtocolParamUpdate.toCbor entry.2)) sortedCanonically)).

Definition readUpdate : Dec (string * ProtocolParamUpdate.t) :=
  bytes ← call CborReader.readByteString;
  genesisHash ← st_lift (Hash28ByteBase16 (HexBlob_fromBytes bytes));
  params ← readNested ProtocolParamUpdate.fromCbor;
  mret (genesisHash, params).

Definition fromCbor (cbor : HexBlob) : Res t := decode (
  call CborReader.readStartMap ;;
  updates ← readWhileNot CborReaderState.EndMap readUpdate;
  call CborReader.readEndMap ;;
  mret {| proposedUpdates := JsMap.of_entries updates; originalBytes := Some cbor |}) cbor.

Definition toCore (u : t) : core := JsMap.of_entries ((fun entry => (entry.1, ProtocolParamUpdate.toCore entry.2)) <$> proposedUpdates u).

Definition fromCore `{FractionJs} (updates : core) : Res t :=
  entries ← mapM (fun entry : string * ProtocolParamUpdate.core => v ← ProtocolParamUpdate.fromCore entry.2; Ok (entry.1, v)) updates;
  Ok (new (JsMap.of_entries entries)).

Definition size (u : t) : Z := JsMap.size (proposedUpdates u).

(** The remembered blob is kept. *)
Definition insert (u : t) (key : string) (value : ProtocolParamUpdate.t) : t :=
  {| proposedUpdates := JsMap.set (proposedUpdates u) key value; originalBytes := originalBytes u |}.
Definition get (u : t) (key : string) : option ProtocolParamUpdate.t := JsMap.get (proposedUpdates u) key.
Definition keys (u : t) : list string := JsMap.keys (proposedUpdates u).
End ProposedProtocolParameterUpdates.

(** ** Updates *)

Module Update.
Record core : Set := Core { coreEpoch : Z; coreUpdates : ProposedProtocolParameterUpdates.core }.

Record t : Set := { epoch : Z; updates : ProposedProtocolParameterUpdates.t; originalBytes : option HexBlob }.

Definition UPDATE_ARRAY_SIZE : Z := 2.

Definition new (updates : ProposedProtocolParameterUpdates.t) (epoch : Z) : t := {| epoch := epoch; updates := updates; originalBytes := None |}.

Definition toCbor (u : t) : Res HexBlob := cached (originalBytes u) (encode (
  call (CborWriter.writeStartArray (Some UPDATE_ARRAY_SIZE)) ;;
  writeEncoded (ProposedProtocolParameterUpdates.toCbor (updates u)) ;;
  call (CborWriter.writeInt (epoch u)))).

Definition fromCbor (cbor : HexBlob) : Res t := decode (
  length ← call CborReader.readStartArray;
  expectLength UPDATE_ARRAY_SIZE UPDATE_ARRAY_SIZE length ;;
  updates ← readNested ProposedProtocolParameterUpdates.fromCbor;
  epoch ← readNumber;
  call CborReader.readEndArray ;;
  mret {| epoch := epoch; updates := updates; originalBytes := Some cbor |}) cbor.

Definition toCore (u : t) : core := {| coreEpoch := epoch u; coreUpdates := ProposedProtocolParameterUpdates.toCore (updates u) |}.

Definition fromCore `{FractionJs} (update : core) : Res t :=
  updates ← ProposedProtocolParameterUpdates.fromCore (coreUpdates update);
  Ok (new updates (coreEpoch update)).

Definition setEpoch (u : t) (epoch : Z) : t := {| epoch := epoch; updates := updates u; originalBytes := None |}.
Definition setProposedProtocolParameterUpdates (u : t) (updates : ProposedProtocolParameterUpdates.t) : t :=
  {| epoch := epoch u; updates := updates; originalBytes := None |}.
End Update.
