(* ===== verification/ProtocolParamFacts.v ===== *)
(** * Updates of protocol parameters keep their promises
    The encoding of each kind of parameter, of the 37 parameters together, of
    proposed updates and of updates: they implement the interface of
    [Serializable.v]. *)
From Stdlib Require Import SpecFloat.
From S2P Require Import Prelude JsRuntime Utf8 CborCommon Half NumberText CborWriter CborReader CborMachine CborExact CborSkip CborDocuments Codec CodecFacts Credential Records Common Serializable Keyed CommonFacts ParamParts ParamFacts ProtocolParams.

Import CborReader CborWriterFacts.

Section params.
Context `{FractionJs}.

(** ** One kind of parameter *)

Definition textInterval (text : string) : UnitInterval.core := fractionOf (Number_parse text).

Definition entropyFields (e : string) : list (list Z) := [intBytes 1; blobBytes e].

Definition valueBytes (k : kind) : coreValue k -> list Z :=
  match k with
  | Coin | Count | Word32 | PositiveWord32 => intBytes
  | NullableCoin => fun o => intBytes (default 0 o)
  | Interval | PositiveInterval => fun text => intervalBytes (textInterval text)
  | Entropy => fun e => recordBytes (entropyFields e)
  | Version => fun v => recordBytes (versionFields v)
  | Models => modelsBytes
  | Prices => fun p => recordBytes (intervalsBytes (priceIntervals p))
  | Units => fun u => recordBytes (unitsFields u)
  | PoolThresholds => fun p => recordBytes (intervalsBytes (poolIntervals p))
  | DrepThresholds => fun p => recordBytes (intervalsBytes (drepIntervals p))
  end.

(** A text that is what the quotient of its fraction is shown as. *)
Definition isIntervalText (text : string) : bool :=
  negb (String.eqb text "") &&
  match fraction (Number_parse text) with
  | Ok (n, d) => isInterval (UnitInterval.Core n d) && String.eqb (Number_toString (UnitInterval_toFloat (UnitInterval_new n d))) text
  | _ => false
  end.

Definition validValue (k : kind) : coreValue k -> bool :=
  match k with
  | Coin | Count => isSafe
  | NullableCoin => fun o => match o with Some z => isSafe z | None => false end
  | Word32 => fun z => (0 <=? z) && (z <=? MAX_WORD32)
  | PositiveWord32 => fun z => (1 <=? z) && (z <=? MAX_WORD32)
  | Interval => isIntervalText
  | PositiveInterval => fun text => isIntervalText text &&
      ((1 <=? UnitInterval.coreNumerator (textInterval text)) && (1 <=? UnitInterval.coreDenominator (textInterval text)))
  | Entropy => fun e => negb (String.eqb e "") && (isBlob e && (Z.of_nat (String.length e) <? 2 ^ 53))
  | Version => isVersion
  | Models => isModels
  | Prices => fun p => isFraction (ExUnitPrices.memory p) && isFraction (ExUnitPrices.steps p)
  | Units => isUnits
  | PoolThresholds => fun p => forallb isInterval (poolIntervals p)
  | DrepThresholds => fun p => forallb isInterval (drepIntervals p)
  end.

(** The field holds the value, passes its checks and is written as specified. *)
Record holds (k : kind) (c : coreValue k) (v : value k) : Prop := {
  holds_core : valueToCore k v = c;
  holds_write : emits (writeValue k v) (valueBytes k c);
  holds_assert name : assertField name k v = Ok tt
}.

Lemma isIntervalText_spec text : isIntervalText text = true -> String.eqb text "" = false /\ isInterval (textInterval text) = true /\
  UnitInterval_fromFloat (Number_parse text) = Ok (UnitInterval.fromCore (textInterval text)) /\
  Number_toString (UnitInterval_toFloat (UnitInterval.fromCore (textInterval text))) = text.
Proof.
  intros [Hn%negb_true_iff Hf]%andb_true_iff. unfold textInterval, fractionOf, UnitInterval_fromFloat. destruct (fraction (Number_parse text)) as [[n d]|e|]; [|done..].
  apply andb_true_iff in Hf as [Hi Ht%String.eqb_eq]. done.
Qed.

Lemma interval_holds text o : isIntervalText text = true -> standsFor (textInterval text) o -> holds Interval text o.
Proof.
  intros (_ & Hi & _ & Ht)%isIntervalText_spec Ho. split; [|by apply (@nested_emits _ _ interval_serializable interval_laws)|done].
  cbn. unfold floatText. by rewrite (interval_float _ _ Hi Ho).
Qed.

Lemma positive_holds text o : validValue PositiveInterval text = true -> standsFor (textInterval text) o -> holds PositiveInterval text o.
Proof.
  intros [Ht [Hn Hd]%andb_true_iff]%andb_true_iff Ho. pose proof Ht as (_ & Hi & _)%isIntervalText_spec. destruct (interval_exact _ _ Hi Ho) as [En Ed].
  destruct (interval_holds text o Ht Ho) as [Hc Hw _]. split; [exact Hc|exact Hw|]. intros name. cbn. unfold assertPositiveInterval. rewrite En, Ed. zb.
  by rewrite (proj2 (Z.ltb_ge _ _)), (proj2 (Z.ltb_ge _ _)) by done.
Qed.


Lemma entropy_spec e : validValue Entropy e = true -> String.eqb e "" = false /\ isHash (Z.of_nat (String.length e)) e = true /\
  0 < Z.of_nat (String.length e) < 2 ^ 53.
Proof.
  intros [Hn%negb_true_iff [Hb Hz]%andb_true_iff]%andb_true_iff. zb. split; [done|]. split; [unfold isHash; by rewrite Hb, Z.eqb_refl|].
  destruct e; [done|cbn in *; lia].
Qed.

(** An object that stands for a value is what the field holds. *)
Ltac nested_holds I L := intros Hc Ho; split; [by destruct Ho as [[= ?] _]|exact (@nested_emits _ _ I L _ _ Hc Ho)|done].

Lemma version_holds c o : isVersion c = true -> standsFor c o -> holds Version c o.
Proof. nested_holds version_serializable version_laws. Qed.
Lemma models_hold c o : isModels c = true -> standsFor c o -> holds Models c o.
Proof. nested_holds models_serializable models_laws. Qed.
Lemma prices_hold c o : validValue Prices c = true -> standsFor (C := ExUnitPrices.core) c o -> holds Prices c o.
Proof. nested_holds prices_serializable prices_laws. Qed.
Lemma units_hold c o : isUnits c = true -> standsFor c o -> holds Units c o.
Proof. nested_holds units_serializable units_laws. Qed.
Lemma pool_holds c o : validValue PoolThresholds c = true -> standsFor (C := PoolVotingThresholds.core) c o -> holds PoolThresholds c o.
Proof. nested_holds poolThresholds_serializable poolThresholds_laws. Qed.
Lemma drep_holds c o : validValue DrepThresholds c = true -> standsFor (C := DrepVotingThresholds.core) c o -> holds DrepThresholds c o.
Proof. nested_holds drepThresholds_serializable drepThresholds_laws. Qed.

Lemma number_holds k (E : value k = Z) z : isSafe z = true -> match k with
  | Coin => holds Coin z z | NullableCoin => holds NullableCoin (Some z) z | Count => holds Count z z | _ => True end.
Proof.
  intros Hz. pose proof (safe_range z Hz). destruct k; try done; (split; [cbn; by rewrite ?Number_of_exact by lia|by apply emits_int, safe_int64|done]).
Qed.

Lemma word32_safe z : 0 <= z <= MAX_WORD32 -> isSafe z = true.
Proof. unfold MAX_WORD32. intros Hz. unfold isSafe. apply andb_true_iff. split; apply Z.ltb_lt; lia. Qed.

Lemma word32_holds z : validValue Word32 z = true -> holds Word32 z z /\ isSafe z = true.
Proof.
  intros [Hl Hu]%andb_true_iff. zb. pose proof (word32_safe z ltac:(lia)) as Hs. split; [|done]. split; [done|by apply emits_int, safe_int64|].
  intros name. cbn. unfold assertUint32. by rewrite (proj2 (Z.ltb_ge _ _)), (proj2 (Z.ltb_ge _ _)) by lia.
Qed.

Lemma positiveWord32_holds z : validValue PositiveWord32 z = true -> holds PositiveWord32 z z /\ isSafe z = true.
Proof.
  intros [Hl Hu]%andb_true_iff. zb. pose proof (word32_safe z ltac:(lia)) as Hs. split; [|done]. split; [done|by apply emits_int, safe_int64|].
  intros name. cbn. unfold assertPositiveWord32. by rewrite (proj2 (Z.ltb_ge _ _)), (proj2 (Z.ltb_ge _ _)) by lia.
Qed.

Lemma entropy_fields e : validValue Entropy e = true -> Forall field (entropyFields e).
Proof. intros (_ & Hh & Hz)%entropy_spec. constructor; [by apply field_int|]. constructor; [|constructor]. eapply field_hash; [exact Hh|lia]. Qed.

Lemma entropy_holds e : validValue Entropy e = true -> holds Entropy e e.
Proof.
  intros Hv. destruct (entropy_spec e Hv) as (_ & Hh & Hz). split; [done| |done]. cbn. unfold writeEntropy. rewrite (proj2 (Z.eqb_neq _ _)) by lia.
  apply record_emits; [done|]. apply emits_fields; [by apply emits_int|]. apply emits_last. eapply emits_hash; [exact Hh|lia].
Qed.

Lemma entropy_reads e : validValue Entropy e = true -> zlen (valueBytes Entropy e) < 2 ^ 53 -> reads readEntropy (valueBytes Entropy e) e.
Proof.
  intros Hv Hz. destruct (entropy_spec e Hv) as (_ & Hh & He). cbn [valueBytes]. unfold recordBytes, entropyFields in *. cbn [concat] in *. rewrite app_nil_r.
  change (zlen [intBytes 1; blobBytes e]) with 2 in *. eapply (reads_record 2 _ (call readEncodedValue ;; readHex)); [done| |].
  - eapply (readsN_bind 1 1); [done|done| |eapply readHex_reads; [exact Hh|lia]].
    intros r rest Hr Hp _. apply call_ok. exact (readEncodedValue_item r _ rest (proj1 (field_int 1 eq_refl)) Hr Hp).
  - intros r. rewrite bool_decide_eq_false_2 by done. unfold readHex. same_program.
Qed.

Lemma typedHex_blob_0 h : isBlob h = true -> typedHex h 0 = Ok h.
Proof.
  intros Hb. assert (E : isHexString h = true). { rewrite <- (isBlob_eq h Hb). apply isHexString_blob, Buffer_from_hex_bytes. }
  unfold typedHex. cbv zeta. by rewrite E, andb_false_r.
Qed.

(** *** All kinds *)

Lemma kind_field k (c : coreValue k) : validValue k c = true -> field (valueBytes k c).
Proof.
  destruct k; cbn [coreValue] in c; intros Hc.
  1,3: by apply field_int, safe_int64.
  - destruct c as [z|]; [by apply field_int, safe_int64|done].
  - by apply field_int, safe_int64, word32_holds.
  - by apply field_int, safe_int64, positiveWord32_holds.
  - apply isIntervalText_spec in Hc as (_ & Hi & _). by apply interval_field.
  - apply andb_true_iff in Hc as [(_ & Hi & _)%isIntervalText_spec _]. by apply interval_field.
  - apply field_record; [done|by apply entropy_fields].
  - by apply (@bytesOf_field _ _ version_serializable version_laws).
  - by apply models_field.
  - by apply (@bytesOf_field _ _ prices_serializable prices_laws).
  - by apply (@bytesOf_field _ _ units_serializable units_laws).
  - by apply (@bytesOf_field _ _ poolThresholds_serializable poolThresholds_laws).
  - by apply (@bytesOf_field _ _ drepThresholds_serializable drepThresholds_laws).
Qed.

Lemma kind_fromCore k (c : coreValue k) : validValue k c = true -> exists v, valueFromCore k c = Ok (Some v) /\ holds k c v.
Proof.
  destruct k; cbn [coreValue] in c; intros Hc.
  1,3: exists c; split; [done|]; first [exact (number_holds Coin eq_refl c Hc)|exact (number_holds Count eq_refl c Hc)].
  - destruct c as [z|]; [|done]. exists z. split; [done|exact (number_holds NullableCoin eq_refl z Hc)].
  - exists c. split; [done|by apply word32_holds].
  - exists c. split; [done|by apply positiveWord32_holds].
  - pose proof Hc as (Hn & Hi & Hf & _)%isIntervalText_spec. exists (UnitInterval.fromCore (textInterval c)).
    split; [|by apply interval_holds, interval_new]. cbn. unfold intervalFromCore. by rewrite Hn, Hf.
  - pose proof Hc as [(Hn & Hi & Hf & _)%isIntervalText_spec _]%andb_true_iff. exists (UnitInterval.fromCore (textInterval c)).
    split; [|by apply positive_holds, interval_new]. cbn. unfold intervalFromCore. by rewrite Hn, Hf.
  - destruct (entropy_spec c Hc) as (Hn & Hh & _). exists c. split; [|by apply entropy_holds]. cbn [valueFromCore]. rewrite Hn.
    destruct (isHash_spec _ _ Hh) as (Hb & _). by rewrite typedHex_blob_0.
  - destruct (@fromCore_standsFor _ _ version_serializable version_laws c Hc) as (o & [= <-] & Ho). eexists. split; [reflexivity|by apply version_holds].
  - destruct (@fromCore_standsFor _ _ models_serializable models_laws c Hc) as (o & [= <-] & Ho). eexists. split; [reflexivity|by apply models_hold].
  - destruct (@fromCore_standsFor _ _ prices_serializable prices_laws c Hc) as (o & Eo & Ho). exists o. split; [|by apply prices_hold].
    change (ExUnitPrices.fromCore c = Ok o) in Eo. cbn [valueFromCore]. by rewrite Eo.
  - destruct (@fromCore_standsFor _ _ units_serializable units_laws c Hc) as (o & [= <-] & Ho). eexists. split; [reflexivity|by apply units_hold].
  - destruct (@fromCore_standsFor _ _ poolThresholds_serializable poolThresholds_laws c Hc) as (o & [= <-] & Ho). eexists. split; [reflexivity|by apply pool_holds].
  - destruct (@fromCore_standsFor _ _ drepThresholds_serializable drepThresholds_laws c Hc) as (o & [= <-] & Ho). eexists. split; [reflexivity|by apply drep_holds].
Qed.

Lemma kind_reads k (c : coreValue k) : validValue k c = true -> zlen (valueBytes k c) < 2 ^ 53 -> exists v, reads (readValue k) (valueBytes k c) v /\ holds k c v.
Proof.
  destruct k; cbn [coreValue] in c; intros Hc Hz.
  - exists c. split; [by apply reads_int, safe_int64|exact (number_holds Coin eq_refl c Hc)].
  - destruct c as [z|]; [|done]. exists z. split; [by apply reads_int, safe_int64|exact (number_holds NullableCoin eq_refl z Hc)].
  - exists c. split; [by apply readNumber_reads|exact (number_holds Count eq_refl c Hc)].
  - destruct (word32_holds c Hc). exists c. split; [by apply readNumber_reads|done].
  - destruct (positiveWord32_holds c Hc). exists c. split; [by apply readNumber_reads|done].
  - pose proof Hc as (_ & Hi & _)%isIntervalText_spec. destruct (@nested_reads _ _ interval_serializable interval_laws _ Hi Hz) as (o & Hr & Ho).
    exists o. split; [exact Hr|by apply interval_holds].
  - pose proof Hc as [(_ & Hi & _)%isIntervalText_spec _]%andb_true_iff. destruct (@nested_reads _ _ interval_serializable interval_laws _ Hi Hz) as (o & Hr & Ho).
    exists o. split; [exact Hr|by apply positive_holds].
  - exists c. split; [by apply entropy_reads|by apply entropy_holds].
  - destruct (@nested_reads _ _ version_serializable version_laws c Hc Hz) as (o & Hr & Ho). exists o. split; [exact Hr|by apply version_holds].
  - destruct (@nested_reads _ _ models_serializable models_laws c Hc Hz) as (o & Hr & Ho). exists o. split; [exact Hr|by apply models_hold].
  - destruct (@nested_reads _ _ prices_serializable prices_laws c Hc Hz) as (o & Hr & Ho). exists o. split; [exact Hr|by apply prices_hold].
  - destruct (@nested_reads _ _ units_serializable units_laws c Hc Hz) as (o & Hr & Ho). exists o. split; [exact Hr|by apply units_hold].
  - destruct (@nested_reads _ _ poolThresholds_serializable poolThresholds_laws c Hc Hz) as (o & Hr & Ho). exists o. split; [exact Hr|by apply pool_holds].
  - destruct (@nested_reads _ _ drepThresholds_serializable drepThresholds_laws c Hc Hz) as (o & Hr & Ho). exists o. split; [exact Hr|by apply drep_holds].
Qed.

Lemma entropy_sound : sound readEntropy (fun _ => True).
Proof.
  eapply sound_bind; [apply sound_startArray|]. intros n _. assert (He : sound (call readEncodedValue) (fun _ => True)).
  { intros r Hw. apply runs_call. eapply runs_impl; [by apply readEncodedValue_runs|done]. }
  case_bool_decide; (eapply sound_bind; [exact He|]; intros _ _).
  - eapply sound_bind; [apply sound_endArray|]. intros _ _. by apply sound_ret.
  - eapply sound_bind; [apply sound_bytes|]. intros l _. eapply sound_bind; [apply sound_endArray|]. intros _ _. by apply sound_ret.
Qed.

Lemma kind_sound k : sound (readValue k) (fun _ => True).
Proof.
  assert (Hn : forall A C (HS : Serializable C A) (HL : SerializableLaws C A), sound (readNested fromCbor_of) (fun _ => True)).
  { intros A C HS HL. eapply sound_weaken; [apply nested_sound|done]. }
  destruct k; try apply sound_number; try apply entropy_sound; try (eapply sound_weaken; [apply sound_int|done]).
  1,2: exact (Hn _ _ interval_serializable interval_laws).
  - exact (Hn _ _ version_serializable version_laws).
  - exact (Hn _ _ models_serializable models_laws).
  - exact (Hn _ _ prices_serializable prices_laws).
  - exact (Hn _ _ units_serializable units_laws).
  - exact (Hn _ _ poolThresholds_serializable poolThresholds_laws).
  - exact (Hn _ _ drepThresholds_serializable drepThresholds_laws).
Qed.

(** ** The fields of the class *)



Lemma get_make f o p : ProtocolParamUpdate.get (ProtocolParamUpdate.make f o) p = f p.
Proof. by destruct p. Qed.

Lemma make_get s : ProtocolParamUpdate.make (ProtocolParamUpdate.get s) (ProtocolParamUpdate.originalBytes s) = s.
Proof. by destruct s. Qed.

Lemma coreGet_make f p : ProtocolParamUpdate.coreGet (ProtocolParamUpdate.coreMake f) p = f p.
Proof. by destruct p. Qed.

Lemma coreMake_get c : ProtocolParamUpdate.coreMake (ProtocolParamUpdate.coreGet c) = c.
Proof. by destruct c. Qed.

(** The fields make the value. *)
Lemma coreMake_ext f g : (forall p, f p = g p) -> ProtocolParamUpdate.coreMake f = ProtocolParamUpdate.coreMake g.
Proof. intros E. unfold ProtocolParamUpdate.coreMake. f_equal; match goal with |- _ = g ?p => exact (E p) end. Qed.

Lemma get_put s p v : ProtocolParamUpdate.get (ProtocolParamUpdate.put s p v) p = v.
Proof. unfold ProtocolParamUpdate.put. rewrite get_make. destruct (decide (p = p)) as [e|]; [|done]. by rewrite (Eqdep_dec.UIP_dec Param.t_eq_dec e eq_refl). Qed.

Lemma get_put_other s p q v : p <> q -> ProtocolParamUpdate.get (ProtocolParamUpdate.put s p v) q = ProtocolParamUpdate.get s q.
Proof. intros Hn. unfold ProtocolParamUpdate.put. rewrite get_make. by destruct (decide (p = q)). Qed.

Lemma ofKey_key p : Param.ofKey (Param.key p) = Some p.
Proof. by destruct p. Qed.

Lemma key_int64 p : isInt64 (Param.key p) = true.
Proof. by destruct p. Qed.

Lemma all_params p : p ∈ Param.all.
Proof. apply (bool_decide_unpack _). by destruct p. Qed.

Lemma assigned_params p : p ∈ ProtocolParamUpdate.assignmentOrder.
Proof. apply (bool_decide_unpack _). by destruct p. Qed.

Lemma all_distinct : NoDup Param.all.
Proof. by apply (bool_decide_unpack _). Qed.

Lemma assigned_distinct : NoDup ProtocolParamUpdate.assignmentOrder.
Proof. by apply (bool_decide_unpack _). Qed.

(** ** The encoding *)

Definition paramEntry (c : ProtocolParamUpdate.core) (p : Param.t) : list (Z * list Z) := optionalEntry (Param.key p) (valueBytes (Param.kindOf p)) (ProtocolParamUpdate.coreGet c p).
Definition paramEntries (c : ProtocolParamUpdate.core) (ps : list Param.t) : list (Z * list Z) := concat (map (paramEntry c) ps).

(** The fields that are present, in the order of their keys. *)
Definition paramsBytes (c : ProtocolParamUpdate.core) : list Z := keyedBytes (paramEntries c Param.all).

Definition validParam (c : ProtocolParamUpdate.core) (p : Param.t) : bool := match ProtocolParamUpdate.coreGet c p with Some x => validValue (Param.kindOf p) x | None => true end.
Definition isParams (c : ProtocolParamUpdate.core) : bool := forallb (validParam c) Param.all.

Lemma isParams_spec c : isParams c = true -> forall p, validParam c p = true.
Proof. intros Hc p. unfold isParams in Hc. rewrite forallb_forall in Hc. apply Hc, list_elem_of_In, all_params. Qed.

(** A field of the object and of the value. *)
Definition fieldIs (c : ProtocolParamUpdate.core) (s : ProtocolParamUpdate.t) (p : Param.t) : Prop :=
  match ProtocolParamUpdate.coreGet c p, ProtocolParamUpdate.get s p with Some x, Some v => holds (Param.kindOf p) x v | None, None => True | _, _ => False end.

Lemma entries_length c ps : zlen (paramEntries c ps) <= zlen ps.
Proof.
  induction ps as [|p ps IH]; [done|]. unfold paramEntries in *. cbn [map concat]. rewrite zlen_app, zlen_cons. unfold paramEntry at 1. rewrite optional_length.
  case_match; lia.
Qed.

Lemma paramEntries_field c ps : (forall p, validParam c p = true) -> Forall (fun e => isInt64 e.1 = true /\ field e.2) (paramEntries c ps).
Proof.
  intros Hc. apply List.Forall_forall. intros e (l & (p & <- & _)%in_map_iff & He)%in_concat. specialize (Hc p). unfold paramEntry, validParam in *.
  destruct (ProtocolParamUpdate.coreGet c p); [|done]. destruct He as [<-|[]]. split; [apply key_int64|by apply kind_field].
Qed.

Lemma params_field c : isParams c = true -> field (paramsBytes c).
Proof.
  intros Hp. pose proof (isParams_spec c Hp) as Hc. pose proof (entries_length c Param.all) as Hz. change (zlen Param.all) with 37 in Hz. apply keyed_field; [lia|by apply paramEntries_field].
Qed.

(** *** Reading *)

Lemma params_lead c ps s : NoDup ps -> (forall p, validParam c p = true) -> (forall e, In e (paramEntries c ps) -> zlen e.2 < 2 ^ 53) ->
  (forall p, p ∈ ps -> ProtocolParamUpdate.get s p = None) ->
  exists s', leads ProtocolParamUpdate.readField (paramEntries c ps) s s' /\ (forall p, p ∈ ps -> fieldIs c s' p) /\ (forall p, p ∉ ps -> ProtocolParamUpdate.get s' p = ProtocolParamUpdate.get s p).
Proof.
  intros Hd Hc. revert s. induction Hd as [|p ps Hp _ IH]; intros s Hz Hn; [exists s; split; [apply leads_nil|]; by split; [intros p ?%elem_of_nil|]|].
  assert (E : exists s1, leads ProtocolParamUpdate.readField (paramEntry c p) s s1 /\ fieldIs c s1 p /\ forall q, p <> q -> ProtocolParamUpdate.get s1 q = ProtocolParamUpdate.get s q).
  { specialize (Hc p). unfold paramEntry, validParam, fieldIs in *. destruct (ProtocolParamUpdate.coreGet c p) as [x|] eqn:E.
    - destruct (kind_reads _ x Hc) as (v & Rv & Hv).
      { apply (Hz (Param.key p, valueBytes _ x)). unfold paramEntries. cbn [map concat]. apply in_app_iff. left. unfold paramEntry. rewrite E. by left. }
      exists (ProtocolParamUpdate.put s p (Some v)). rewrite get_put. split; [|split; [done|intros q Hq; by apply get_put_other]].
      apply (leads_one _ (Param.key p, valueBytes _ x) (fun s => ProtocolParamUpdate.put s p (Some v))). split; [apply key_int64|]. split; [by apply kind_field|].
      cbn [fst snd]. unfold ProtocolParamUpdate.readField. rewrite ofKey_key. by apply (reads_fmap 1 _ (fun v s => ProtocolParamUpdate.put s p (Some v))).
    - exists s. split; [apply leads_nil|]. rewrite (Hn p); [done|by left]. }
  destruct E as (s1 & L1 & H1 & O1). destruct (IH s1) as (s2 & L2 & H2 & O2).
  - intros e He. apply Hz. unfold paramEntries. cbn [map concat]. apply in_app_iff. by right.
  - intros q Hq. rewrite O1; [apply Hn; by right|]. by intros ->.
  - exists s2. split; [|split].
    + unfold paramEntries. cbn [map concat]. by eapply leads_app.
    + intros q [->|Hq]%elem_of_cons; [|by apply H2]. unfold fieldIs in *. by rewrite O2.
    + intros q [Hq Hqs]%not_elem_of_cons. rewrite O2, O1 by congruence. done.
Qed.

Lemma params_reads c : isParams c = true -> zlen (paramsBytes c) < 2 ^ 53 ->
  exists s, reads (readKeyed ProtocolParamUpdate.readField ProtocolParamUpdate.new) (paramsBytes c) s /\ forall p, fieldIs c s p.
Proof.
  intros Hp Hz. pose proof (isParams_spec c Hp) as Hc. pose proof (entries_length c Param.all) as Hl. change (zlen Param.all) with 37 in Hl.
  destruct (params_lead c Param.all ProtocolParamUpdate.new all_distinct Hc) as (s & Ls & Hs & _).
  - intros e He. pose proof (keyed_entry_size _ _ He). unfold paramsBytes in Hz. lia.
  - intros p _. by destruct p.
  - exists s. split; [apply keyed_leads; [done|lia]|]. intros p. apply Hs, all_params.
Qed.

(** *** Writing *)

Lemma params_size c s ps : (forall p, fieldIs c s p) -> zlen (filter (fun p => is_Some (ProtocolParamUpdate.get s p)) ps) = zlen (paramEntries c ps).
Proof.
  intros Hs. induction ps as [|p ps IH]; [done|]. unfold paramEntries in *. cbn [map concat]. rewrite zlen_app, <- IH. unfold paramEntry. rewrite optional_length.
  specialize (Hs p). unfold fieldIs in Hs. rewrite filter_cons. destruct (ProtocolParamUpdate.coreGet c p), (ProtocolParamUpdate.get s p); try done; case_decide as Hd;
    first [rewrite zlen_cons; lia|done|by destruct Hd|exfalso; apply Hd; by eexists].
Qed.

Lemma params_emit c s ps : (forall p, fieldIs c s p) -> emits (forEach (ProtocolParamUpdate.writeField s) ps) (entriesBytes (paramEntries c ps)).
Proof.
  intros Hs. induction ps as [|p ps IH]; [apply emits_ret|]. unfold paramEntries. cbn [map concat]. change (forEach (ProtocolParamUpdate.writeField s) (p :: ps)) with (ProtocolParamUpdate.writeField s p ;; forEach (ProtocolParamUpdate.writeField s) ps).
  apply fields_emits; [|exact IH]. specialize (Hs p). unfold fieldIs, ProtocolParamUpdate.writeField, paramEntry in *.
  destruct (ProtocolParamUpdate.coreGet c p) as [x|], (ProtocolParamUpdate.get s p) as [v|]; try done; [|apply emits_ret]. destruct Hs as [_ Hw Ha].
  intros w. cbn [optionalEntry]. unfold mbind at 1, ST_bind at 1, st_lift. rewrite Ha. by apply emits_key; [apply key_int64|].
Qed.

Lemma params_toCbor c s : (forall p, fieldIs c s p) -> ProtocolParamUpdate.originalBytes s = None -> ProtocolParamUpdate.toCbor s = Ok (Buffer_to_hex (paramsBytes c)).
Proof.
  intros Hs Ho. pose proof (entries_length c Param.all) as Hl. change (zlen Param.all) with 37 in Hl.
  unfold ProtocolParamUpdate.toCbor, cached, remembered. rewrite Ho. apply encode_emits. unfold ProtocolParamUpdate.getMapSize. rewrite (params_size c s Param.all Hs).
  apply keyed_emits; [done|lia|by apply params_emit].
Qed.

(** *** Core values *)

Lemma params_toCore c s : (forall p, fieldIs c s p) -> ProtocolParamUpdate.toCore s = c.
Proof.
  intros Hs. rewrite <- (coreMake_get c). apply coreMake_ext. intros p. specialize (Hs p). unfold fieldIs in Hs.
  destruct (ProtocolParamUpdate.coreGet c p), (ProtocolParamUpdate.get s p); try done. cbn. by rewrite (holds_core _ _ _ Hs).
Qed.

Lemma params_fields c ps s : NoDup ps -> (forall p, validParam c p = true) ->
  exists s', ProtocolParamUpdate.fromCoreFields c ps s = Ok s' /\ (forall p, p ∈ ps -> fieldIs c s' p) /\ (forall p, p ∉ ps -> ProtocolParamUpdate.get s' p = ProtocolParamUpdate.get s p) /\
    ProtocolParamUpdate.originalBytes s' = ProtocolParamUpdate.originalBytes s.
Proof.
  intros Hd Hc. revert s. induction Hd as [|p ps Hp _ IH]; intros s; [exists s; by split_and!; [|intros p ?%elem_of_nil| |]|].
  assert (E : exists v, match ProtocolParamUpdate.coreGet c p with Some x => valueFromCore (Param.kindOf p) x | None => Ok None end = Ok v /\
    match ProtocolParamUpdate.coreGet c p, v with Some x, Some v => holds (Param.kindOf p) x v | None, None => True | _, _ => False end).
  { specialize (Hc p). unfold validParam in Hc. destruct (ProtocolParamUpdate.coreGet c p) as [x|]; [|by exists None]. destruct (kind_fromCore _ x Hc) as (v & E & Hv). by exists (Some v). }
  destruct E as (v & E & Hv). cbn [ProtocolParamUpdate.fromCoreFields]. rewrite E. cbn [mbind outcome_bind]. destruct (IH (ProtocolParamUpdate.put s p v)) as (s' & -> & H2 & O2 & B2).
  exists s'. split_and!; [done| | |by rewrite B2].
  - intros q [->|Hq]%elem_of_cons; [|by apply H2]. unfold fieldIs. rewrite O2, get_put by done. exact Hv.
  - intros q [Hq Hqs]%not_elem_of_cons. rewrite O2 by done. by apply get_put_other.
Qed.

Lemma params_fromCore c : isParams c = true -> exists s, ProtocolParamUpdate.fromCore c = Ok s /\ (forall p, fieldIs c s p) /\ ProtocolParamUpdate.originalBytes s = None.
Proof.
  intros Hp. pose proof (isParams_spec c Hp) as Hc. destruct (params_fields c ProtocolParamUpdate.assignmentOrder ProtocolParamUpdate.new assigned_distinct Hc) as (s & E & Hs & _ & Ho).
  exists s. split_and!; [done| |done]. intros p. apply Hs, assigned_params.
Qed.

#[export] Instance params_serializable : Serializable ProtocolParamUpdate.core ProtocolParamUpdate.t := {
  toCbor_of := ProtocolParamUpdate.toCbor;
  fromCbor_of := ProtocolParamUpdate.fromCbor;
  toCore_of s := Ok (ProtocolParamUpdate.toCore s);
  fromCore_of := ProtocolParamUpdate.fromCore;
  bytesOf := paramsBytes;
  validCore := isParams;
  typed _ := true
}.

Lemma params_remembered c s cbor : (forall p, fieldIs c s p) -> forall p, fieldIs c (ProtocolParamUpdate.remember s cbor) p.
Proof. intros Hs p. unfold fieldIs, ProtocolParamUpdate.remember. rewrite get_make. apply Hs. Qed.

#[export] Instance params_laws : SerializableLaws ProtocolParamUpdate.core ProtocolParamUpdate.t.
Proof.
  split; cbn [bytesOf validCore fromCore_of fromCbor_of params_serializable].
  - apply params_field.
  - intros c _. pose proof (entries_length c Param.all) as Hl. change (zlen Param.all) with 37 in Hl. apply (starts_not_null Map); [done|]. apply keyed_starts. lia.
  - intros c Hc. destruct (params_fromCore c Hc) as (s & E & Hs & Ho). exists s. split; [done|]. split; [|by apply params_toCbor].
    unfold toCore_of, params_serializable. f_equal. by apply params_toCore.
  - intros c Hc Hz. destruct (params_field c Hc) as [Hi Hb]. destruct (params_reads c Hc Hz) as (s & Rs & Hs). exists (ProtocolParamUpdate.remember s (Buffer_to_hex (paramsBytes c))).
    split; [|split; [|by apply cached_some]].
    + apply decode_reads; [|done..]. by apply (reads_fmap 1 _ (fun s => ProtocolParamUpdate.remember s (Buffer_to_hex (paramsBytes c)))).
    + unfold toCore_of, params_serializable. f_equal. by apply params_toCore, params_remembered.
  - apply accepts_decode. intros cbor. eapply (sound_bind _ _ (fun _ => True)); [|intros; by apply sound_ret]. apply sound_keyed; [|done].
    intros k. unfold ProtocolParamUpdate.readField. destruct (Param.ofKey k) as [p|]; [|by apply sound_ret]. eapply sound_bind; [apply kind_sound|]. intros v _. by apply sound_ret.
Qed.

(** ** Proposed updates *)

Definition proposedEntry (kv : string * ProtocolParamUpdate.core) : list Z * list Z := (blobBytes kv.1, paramsBytes kv.2).
Definition proposedBytes (l : ProposedProtocolParameterUpdates.core) : list Z := mapBytes false (map proposedEntry l).

(** The order of the texts of the keys. *)
Definition hashGreater (a b : string) : bool := string_gt (a +:+ ",[object Object]") (b +:+ ",[object Object]").

(** Updates by distinct genesis keys, in order. *)
Definition isProposed (l : ProposedProtocolParameterUpdates.core) : bool :=
  (zlen l <? 2 ^ 53) && (bool_decide (NoDup l.*1) && bool_decide (sort_by hashGreater l.*1 = l.*1)) && forallb (fun kv => isHash 56 kv.1 && isParams kv.2) l.

Lemma isProposed_spec l : isProposed l = true -> 0 <= zlen l < 2 ^ 53 /\ NoDup l.*1 /\ sort_by hashGreater l.*1 = l.*1 /\
  Forall (fun kv => isHash 56 kv.1 = true /\ isParams kv.2 = true) l.
Proof.
  intros [[Hz [Hd%bool_decide_eq_true Hs%bool_decide_eq_true]%andb_true_iff]%andb_true_iff Hl]%andb_true_iff. zb. pose proof (zlen_nonneg l).
  split_and!; [lia..|done|done|]. apply List.Forall_forall. intros kv Hkv. rewrite forallb_forall in Hl. by apply andb_true_iff, Hl.
Qed.

Lemma keys_determine {K V} (l l' : list (K * V)) : NoDup l.*1 -> l ≡ₚ l' -> l'.*1 = l.*1 -> l' = l.
Proof.
  intros Hd Hp Hk. apply list_eq. intros i. destruct (l !! i) as [[k v]|] eqn:E.
  - assert (Ek : l'.*1 !! i = Some k) by (rewrite Hk, list_lookup_fmap, E; done). rewrite list_lookup_fmap in Ek.
    destruct (l' !! i) as [[k' v']|] eqn:E'; [|done]. injection Ek as ->. do 2 f_equal.
    assert (Hin : (k, v') ∈ l) by (rewrite Hp; by eapply list_elem_of_lookup_2).
    apply list_elem_of_lookup in Hin as [j Ej]. assert (i = j) as ->; [|congruence].
    eapply (NoDup_lookup _ i j k); [exact Hd|by rewrite list_lookup_fmap, E|by rewrite list_lookup_fmap, Ej].
  - apply lookup_ge_None. apply lookup_ge_None in E. apply (f_equal length) in Hk. rewrite !length_fmap in Hk. lia.
Qed.

Lemma sorted_keys {V} (l : list (string * V)) : NoDup l.*1 -> sort_by hashGreater l.*1 = l.*1 ->
  sort_by (fun a b => hashGreater a.1 b.1) l = l.
Proof. intros Hd Hs. apply keys_determine; [done|by rewrite sort_by_perm|]. by rewrite <- sort_by_fmap. Qed.

Definition proposedIs (l : ProposedProtocolParameterUpdates.core) (m : list (string * ProtocolParamUpdate.t)) : Prop :=
  Forall2 (fun kv e => e.1 = kv.1 /\ standsFor kv.2 e.2) l m.

Lemma proposed_keys l m : proposedIs l m -> m.*1 = l.*1.
Proof. induction 1 as [|kv e l m [Hk _] _ IH]; [done|]. cbn. by rewrite Hk, IH. Qed.

Lemma proposed_map l m : NoDup l.*1 -> proposedIs l m -> JsMap.of_entries m = m.
Proof. intros Hd Hm. apply JsMapFacts.of_entries_nodup. unfold JsMap.wf, JsMap.keys. by rewrite (proposed_keys l m Hm). Qed.

Lemma proposed_sorted l m : isProposed l = true -> proposedIs l m -> sort_by ProposedProtocolParameterUpdates.entryGreater m = m.
Proof.
  intros (_ & Hd & Hs & _)%isProposed_spec Hm. rewrite <- (proposed_keys l m Hm) in Hd, Hs. exact (sorted_keys m Hd Hs).
Qed.

#[export] Instance proposed_serializable : Serializable (list (string * ProtocolParamUpdate.core)) ProposedProtocolParameterUpdates.t := {
  toCbor_of := ProposedProtocolParameterUpdates.toCbor;
  fromCbor_of := ProposedProtocolParameterUpdates.fromCbor;
  toCore_of u := Ok (ProposedProtocolParameterUpdates.toCore u);
  fromCore_of := ProposedProtocolParameterUpdates.fromCore;
  bytesOf := proposedBytes;
  validCore := isProposed;
  typed _ := true
}.

Lemma proposed_entry kv : isHash 56 kv.1 = true -> isParams kv.2 = true -> field (proposedEntry kv).1 /\ field (proposedEntry kv).2.
Proof. intros Hh Hp. split; [by eapply field_hash|by apply params_field]. Qed.

Lemma proposed_field l : isProposed l = true -> field (proposedBytes l).
Proof.
  intros (Hz & _ & _ & Hl)%isProposed_spec. apply entries_field; [|lia]. eapply Forall_impl; [exact Hl|]. intros kv [Hh Hp]. by apply proposed_entry.
Qed.

Lemma proposed_toCore l m o : isProposed l = true -> proposedIs l m -> ProposedProtocolParameterUpdates.toCore (ProposedProtocolParameterUpdates.Build_t m o) = l.
Proof.
  intros (_ & Hd & _)%isProposed_spec Hm. unfold ProposedProtocolParameterUpdates.toCore. cbn [ProposedProtocolParameterUpdates.proposedUpdates].
  assert (E : (fun entry : string * ProtocolParamUpdate.t => (entry.1, ProtocolParamUpdate.toCore entry.2)) <$> m = l).
  { clear Hd. induction Hm as [|[k c] [k' s] l m [Hk [[= Hs] _]] _ IH]; [done|]. cbn in *. by rewrite Hk, Hs, IH. }
  rewrite E. by apply JsMapFacts.of_entries_nodup.
Qed.

Lemma proposed_toCbor l m : isProposed l = true -> proposedIs l m -> ProposedProtocolParameterUpdates.toCbor (ProposedProtocolParameterUpdates.new m) = Ok (Buffer_to_hex (proposedBytes l)).
Proof.
  intros Hp Hm. apply encode_emits. cbn [ProposedProtocolParameterUpdates.proposedUpdates ProposedProtocolParameterUpdates.new]. rewrite (proposed_sorted l m Hp Hm).
  apply isProposed_spec in Hp as (Hz & Hd & _ & Hl). rewrite (proposed_map l m Hd Hm). cbv zeta. unfold proposedBytes, mapBytes. rewrite zlen_map.
  assert (Ez : JsMap.size m = zlen l) by (unfold JsMap.size, zlen; by rewrite (Forall2_length _ _ _ Hm)). rewrite Ez.
  apply emits_bind; [apply emits_call, writeTypeValue_head; lia|]. apply emits_forEach. rewrite map_map. clear Hz Hd Ez.
  induction Hm as [|kv e l m [Hk Hs] _ IHm]; [constructor|]. inversion Hl as [|? ? [Vh Vp] Hl' E1]. constructor; [|by apply IHm]. rewrite Hk.
  apply emits_bind; [by eapply emits_hash|]. by apply (@nested_emits _ _ params_serializable params_laws).
Qed.

Lemma update_reads kv : isHash 56 kv.1 = true -> isParams kv.2 = true -> zlen (paramsBytes kv.2) < 2 ^ 53 -> exists s,
  readsN 2 ProposedProtocolParameterUpdates.readUpdate (entryBytes (proposedEntry kv)) (kv.1, s) /\ standsFor kv.2 s.
Proof.
  intros Hh Hp Hz. destruct (@nested_reads _ _ params_serializable params_laws _ Hp Hz) as (s & Rs & Hs). exists s. split; [|done].
  eapply (readsN_ext 2 _ (h ← readHash 56; params ← readNested ProtocolParamUpdate.fromCbor; mret (h, params))).
  { intros r. unfold ProposedProtocolParameterUpdates.readUpdate, readHash, Hash28ByteBase16. same_program. }
  apply (readsN_bind 1 1 _ _ (blobBytes kv.1) (paramsBytes kv.2) kv.1); [lia|lia|by apply readHash_reads|].
  by apply (reads_fmap 1 _ (fun params => (kv.1, params))).
Qed.

Lemma proposed_elements l : Forall (fun kv => isHash 56 kv.1 = true /\ isParams kv.2 = true) l -> zlen (concat (map entryBytes (map proposedEntry l))) < 2 ^ 53 ->
  exists m, elements 2 ProposedProtocolParameterUpdates.readUpdate (map entryBytes (map proposedEntry l)) m /\ proposedIs l m.
Proof.
  induction 1 as [|kv l [Hh Hp] _ IH]; intros Hz; [exists []; by split; constructor|]. cbn [map concat] in Hz. unfold entryBytes at 1 in Hz. rewrite !zlen_app in Hz.
  pose proof (zlen_nonneg (proposedEntry kv).1). pose proof (zlen_nonneg (proposedEntry kv).2). pose proof (zlen_nonneg (concat (map entryBytes (map proposedEntry l)))).
  destruct IH as (m & Hm & Hi); [lia|]. destruct (update_reads kv Hh Hp) as (s & Rs & Hs); [cbn [proposedEntry snd] in *; lia|].
  exists ((kv.1, s) :: m). split; [|by constructor]. constructor; [|done]. destruct (proposed_entry kv Hh Hp) as [Hk _].
  split; [exists (proposedEntry kv).1, (proposedEntry kv).2; split; [by apply Hk|done]|done].
Qed.

Lemma proposed_fromCbor l : isProposed l = true -> zlen (proposedBytes l) < 2 ^ 53 -> exists m,
  ProposedProtocolParameterUpdates.fromCbor (Buffer_to_hex (proposedBytes l)) =
    Ok (ProposedProtocolParameterUpdates.Build_t m (Some (Buffer_to_hex (proposedBytes l)))) /\ proposedIs l m.
Proof.
  intros Hm Hsz. destruct (proposed_field l Hm) as [Hi Hb]. apply isProposed_spec in Hm as (Hz & Hd & _ & Hl).
  destruct (proposed_elements l Hl) as (m & Hel & Hm).
  { unfold proposedBytes, mapBytes in Hsz. rewrite zlen_app in Hsz. pose proof (zlen_nonneg (CborWriter.head Map (zlen (map proposedEntry l)))). lia. }
  exists m. split; [|done]. apply decode_reads; [|done..].
  eapply (readsN_ext 1 _ (m ← readMapOf ProposedProtocolParameterUpdates.readUpdate;
    mret (ProposedProtocolParameterUpdates.Build_t (JsMap.of_entries m) (Some (Buffer_to_hex (proposedBytes l)))))).
  { intros r. unfold readMapOf. same_program. }
  rewrite <- (proposed_map l m Hd Hm). apply (reads_fmap 1 _ (fun m => ProposedProtocolParameterUpdates.Build_t (JsMap.of_entries m) (Some (Buffer_to_hex (proposedBytes l))))).
  apply readMapOf_reads; [rewrite zlen_map; lia|done|].
  apply List.Forall_map. eapply Forall_impl; [exact Hl|]. intros kv [Hh Hp]. by destruct (proposed_entry kv Hh Hp) as [[] []].
Qed.

Lemma mapM_related {A B} (f : A -> Res B) (R : A -> B -> Prop) l : Forall (fun x => exists y, f x = Ok y /\ R x y) l ->
  exists k, mapM f l = Ok k /\ Forall2 R l k.
Proof.
  induction 1 as [|x l (y & E & Hy) _ (k & Ek & Hk)]; [by exists []|]. exists (y :: k). split; [|by constructor]. cbn. rewrite E. cbn. by rewrite Ek.
Qed.

Lemma proposed_fromCore l : isProposed l = true -> exists m, ProposedProtocolParameterUpdates.fromCore l = Ok (ProposedProtocolParameterUpdates.new m) /\ proposedIs l m.
Proof.
  intros (_ & Hd & _ & Hl)%isProposed_spec. unfold ProposedProtocolParameterUpdates.fromCore.
  destruct (mapM_related (fun entry : string * ProtocolParamUpdate.core => v ← ProtocolParamUpdate.fromCore entry.2; Ok (entry.1, v))
    (fun kv e => e.1 = kv.1 /\ standsFor kv.2 e.2) l) as (m & -> & Hm).
  { eapply Forall_impl; [exact Hl|]. intros kv [_ Hp]. destruct (@fromCore_standsFor _ _ params_serializable params_laws _ Hp) as (s & Es & Hs).
    exists (kv.1, s). split; [|done]. change (ProtocolParamUpdate.fromCore kv.2 = Ok s) in Es. by rewrite Es. }
  exists m. split; [|done]. cbn [mbind outcome_bind]. by rewrite (proposed_map l m Hd Hm).
Qed.

Lemma proposed_accepts : accepts ProposedProtocolParameterUpdates.fromCbor (fun _ => True).
Proof.
  apply accepts_decode. intros cbor. apply (sound_ext _ (m ← readMapOf ProposedProtocolParameterUpdates.readUpdate;
    mret (ProposedProtocolParameterUpdates.Build_t (JsMap.of_entries m) (Some cbor)))).
  { intros r. unfold readMapOf. same_program. }
  eapply sound_bind; [apply (sound_map _ (fun _ => True))|intros; by apply sound_ret].
  eapply advances_bind; [apply advances_item, (readString_item ByteString)|]. intros b _.
  eapply (sound_bind _ _ (fun _ => True)); [apply sound_lift; [apply typedHex_fuel|done]|]. intros h _.
  eapply sound_bind; [apply (@nested_sound _ _ params_serializable params_laws)|]. intros u _. by apply sound_ret.
Qed.

#[export] Instance proposed_laws : SerializableLaws (list (string * ProtocolParamUpdate.core)) ProposedProtocolParameterUpdates.t.
Proof.
  split; cbn [bytesOf validCore fromCore_of fromCbor_of proposed_serializable].
  - apply proposed_field.
  - intros l (Hz & _)%isProposed_spec. apply (starts_not_null Map); [done|]. apply starts_head. rewrite zlen_map. lia.
  - intros l Hl. destruct (proposed_fromCore l Hl) as (m & E & Hm). eexists. split; [exact E|]. split; [|by apply proposed_toCbor].
    unfold toCore_of, proposed_serializable. f_equal. by apply proposed_toCore.
  - intros l Hl Hz. destruct (proposed_fromCbor l Hl Hz) as (m & E & Hm). eexists. split; [exact E|]. destruct (proposed_field l Hl). split; [|by apply cached_some].
    unfold toCore_of, proposed_serializable. f_equal. by apply proposed_toCore.
  - eapply accepts_weaken; [apply proposed_accepts|]. done.
Qed.

(** ** Updates *)

Definition updateFields (u : Update.core) : list (list Z) := [proposedBytes (Update.coreUpdates u); intBytes (Update.coreEpoch u)].

#[export] Instance update_serializable : Serializable Update.core Update.t := {
  toCbor_of := Update.toCbor;
  fromCbor_of := Update.fromCbor;
  toCore_of u := Ok (Update.toCore u);
  fromCore_of := Update.fromCore;
  bytesOf u := recordBytes (updateFields u);
  validCore u := isProposed (Update.coreUpdates u) && isSafe (Update.coreEpoch u);
  typed _ := true
}.

#[export] Instance update_laws : SerializableLaws Update.core Update.t.
Proof.
  assert (Hf : forall u : Update.core, validCore u = true -> Forall field (updateFields u)).
  { intros u [Hp He]%andb_true_iff. constructor; [by apply proposed_field|]. constructor; [by apply field_int, safe_int64|constructor]. }
  split; cbn [bytesOf validCore fromCore_of fromCbor_of update_serializable].
  - intros u Hu. apply field_record; [done|by apply Hf].
  - intros u _. apply (starts_not_null Array); [done|by apply starts_record].
  - intros [e l] [Hp He]%andb_true_iff. cbn [Update.coreEpoch Update.coreUpdates] in *.
    destruct (@fromCore_standsFor _ _ proposed_serializable proposed_laws l Hp) as (o & Eo & Ho).
    change (ProposedProtocolParameterUpdates.fromCore l = Ok o) in Eo. exists (Update.new o e). unfold Update.fromCore. cbn [Update.coreUpdates Update.coreEpoch].
    rewrite Eo. split; [done|]. split; [destruct Ho as [[= Ho] _]; unfold toCore_of, update_serializable, Update.toCore; cbn [Update.updates Update.epoch Update.new]; by rewrite Ho|].
    apply (encode_record 2 _ [_; _]); [done..|]. apply emits_fields; [by apply (@nested_emits _ _ proposed_serializable proposed_laws)|].
    apply emits_last. by apply emits_int, safe_int64.
  - intros u Hu Hz. pose proof (Hf u Hu) as Hfu. destruct u as [e l]. pose proof (record_size (updateFields (Update.Core e l))) as Hs. apply andb_true_iff in Hu as [Hp He].
    cbn [Update.coreEpoch Update.coreUpdates] in *. pose proof (part_size (proposedBytes l) (updateFields (Update.Core e l)) ltac:(by left)) as Hl.
    destruct (@nested_reads _ _ proposed_serializable proposed_laws l Hp ltac:(cbn [bytesOf proposed_serializable]; lia)) as (o & Ro & Ho). eexists. split.
    + apply decode_completes; [done..|]. apply completes_length. eapply completes_bind; [exact Ro|]. eapply completes_bind; [by apply readNumber_reads|]. by apply completes_end.
    + split; [|by apply cached_record]. destruct Ho as [[= Ho] _]. unfold toCore_of, update_serializable, Update.toCore. cbn [Update.updates Update.epoch]. by rewrite Ho.
  - apply accepts_decode. intros cbor. eapply sound_bind; [apply sound_startArray|]. intros n _. apply sound_length.
    eapply sound_bind; [apply (@nested_sound _ _ proposed_serializable proposed_laws)|]. intros ? _. eapply sound_bind; [apply sound_number|]. intros ? _.
    eapply sound_bind; [apply sound_endArray|]. intros _ _. by apply sound_ret.
Qed.
End params.

(** ** Protocol parameter updates: the properties
    The round trip of an update with parameters of every kind, its decoder on
    any blob, the setter and the insertion that are not encoded, the entropy
    that cannot be made neutral, and the order of the language views that are
    hashed into a transaction. *)

Import CborWriterFacts.

Section updates.
Context `{FractionJs}.

Lemma update_empty u : Update.fromCbor "" = Ok u -> False.
Proof. assert (exists e, Update.fromCbor "" = Throw e) as [e ->] by (eexists; vm_compute; reflexivity). done. Qed.

Lemma update_remembers cbor u : Update.fromCbor cbor = Ok u -> Update.originalBytes u = Some cbor.
Proof.
  unfold Update.fromCbor, decode, expectLength. unfold mbind, ST_bind. destruct (call CborReader.readStartArray _) as [[n|e|] r]; [|done..].
  destruct (st_guard _ _ r) as [[[]|e|] r1]; [|done..]. destruct (readNested _ r1) as [[v|e|] r2]; [|done..].
  destruct (readNumber r2) as [[x|e|] r3]; [|done..]. destruct (call CborReader.readEndArray r3) as [[y|e|] r4]; [|done..]. by intros [= <-].
Qed.


(** The decoder of updates on any blob: it ends with an update or an error, and
    encoding the result gives the blob back. *)
Theorem update_decode_total cbor : zlen (Buffer_from_hex cbor) < 2 ^ 53 ->
  Update.fromCbor cbor <> OutOfFuel /\ forall u, Update.fromCbor cbor = Ok u -> Update.toCbor u = Ok cbor.
Proof.
  intros Hz. destruct (@fromCbor_accepts _ _ update_serializable update_laws cbor Hz) as [Hf _]. split; [done|]. intros u E. unfold Update.toCbor.
  rewrite (update_remembers _ _ E). unfold cached, remembered. destruct (String.eqb_spec cbor "") as [->|]; [by apply update_empty in E|done].
Qed.

(** *** What is not encoded *)

Lemma put_originalBytes s p v : ProtocolParamUpdate.originalBytes (ProtocolParamUpdate.put s p v) = ProtocolParamUpdate.originalBytes s.
Proof. done. Qed.

(** [setMinFeeA] is the one setter of the parameters that keeps the remembered
    blob: the coefficient it sets is in the core value of a decoded object, but
    the object is still written as the blob it was read from, whose own
    coefficient is another. The other setters drop the blob. *)
Theorem min_fee_setter_is_not_encoded cbor s v : cbor <> ""%string -> ProtocolParamUpdate.originalBytes s = Some cbor ->
  ProtocolParamUpdate.toCbor (ProtocolParamUpdate.setMinFeeA s v) = Ok cbor /\
  ProtocolParamUpdate.coreMinFeeA (ProtocolParamUpdate.toCore (ProtocolParamUpdate.setMinFeeA s v)) = Some (Number_of v) /\
  forall p x, ProtocolParamUpdate.originalBytes (ProtocolParamUpdate.set p s x) = None.
Proof.
  intros Hne Ho. split_and!; [|done..]. unfold ProtocolParamUpdate.toCbor, ProtocolParamUpdate.setMinFeeA. rewrite put_originalBytes, Ho.
  unfold cached, remembered. by destruct (String.eqb_spec cbor "").
Qed.

(** Insertion into decoded updates is not encoded either. *)
Lemma proposed_insertion_is_not_encoded cbor u key s : cbor <> ""%string -> ProposedProtocolParameterUpdates.originalBytes u = Some cbor ->
  ProposedProtocolParameterUpdates.toCbor (ProposedProtocolParameterUpdates.insert u key s) = Ok cbor.
Proof.
  intros Hne Ho. unfold ProposedProtocolParameterUpdates.toCbor, ProposedProtocolParameterUpdates.insert. cbn. rewrite Ho.
  unfold cached, remembered. by destruct (String.eqb_spec cbor "").
Qed.

(** A neutral entropy is read as the empty text, which makes no field: the
    update that was read is an empty one after a conversion to its core value
    and back. *)
Definition neutralEntropyBlob : HexBlob := "a10d8100".

Lemma neutral_entropy_is_dropped : exists s, ProtocolParamUpdate.fromCbor neutralEntropyBlob = Ok s /\
  ProtocolParamUpdate.coreExtraEntropy (ProtocolParamUpdate.toCore s) = Some EmptyString /\
  (exists s', ProtocolParamUpdate.fromCore (ProtocolParamUpdate.toCore s) = Ok s' /\ ProtocolParamUpdate.extraEntropy s' = None /\
    ProtocolParamUpdate.toCbor s' = Ok "a0"%string).
Proof.
  eexists. split; [vm_compute; reflexivity|]. split; [reflexivity|].
  eexists. split; [vm_compute; reflexivity|]. split; [reflexivity|vm_compute; reflexivity].
Qed.

(** A key that is none of the parameters is not skipped: its value is read as
    the next key.  The map from 15 to 4 and from 1 to 15 is read as the parameter
    of key 4 alone, with the key 1 as its value. *)
Lemma unknown_parameter_shifts : exists s, ProtocolParamUpdate.fromCbor "a20f04010f" = Ok s /\
  ProtocolParamUpdate.maxBlockHeaderSize s = Some 1 /\ ProtocolParamUpdate.minFeeB s = None.
Proof. eexists. split; [vm_compute; reflexivity|]. split; reflexivity. Qed.
End updates.

(** *** Language views *)

(** The keys of the views, and the canonical order of CBOR keys: shorter keys
    first, keys of one length byte by byte. *)
Definition viewKeyBytes (language : Z) : list Z := if language =? 0 then stringBytes [0] else intBytes language.

Definition viewValueBytes (entry : Z * list Z) : list Z :=
  if entry.1 =? 0 then stringBytes ([159] ++ concat (map intBytes entry.2) ++ [255])
  else recordBytes (map intBytes entry.2).

Fixpoint bytesLess (a b : list Z) : bool :=
  match a, b with
  | x :: a, y :: b => (x <? y) || ((x =? y) && bytesLess a b)
  | _, _ => false
  end.
Definition canonicallyLess (a b : list Z) : bool := (zlen a <? zlen b) || ((zlen a =? zlen b) && bytesLess a b).

Definition isLanguage (k : Z) : bool := (0 <=? k) && (k <=? 3).

Lemma language_cases k : isLanguage k = true -> k = 0 \/ k = 1 \/ k = 2 \/ k = 3.
Proof. intros [? ?]%andb_true_iff. zb. lia. Qed.

Lemma view_keys_less a b : isLanguage a = true -> isLanguage b = true -> (Costmdls.viewKey a <? Costmdls.viewKey b) = true ->
  canonicallyLess (viewKeyBytes a) (viewKeyBytes b) = true.
Proof. by intros [->|[->|[->| ->]]]%language_cases [->|[->|[->| ->]]]%language_cases. Qed.

Lemma view_keys_inj a b : isLanguage a = true -> isLanguage b = true -> Costmdls.viewKey a = Costmdls.viewKey b -> a = b.
Proof. by intros [->|[->|[->| ->]]]%language_cases [->|[->|[->| ->]]]%language_cases. Qed.

Definition viewSort : list (Z * list Z) -> list (Z * list Z) := sort_by (fun a b => Costmdls.viewKey b.1 <? Costmdls.viewKey a.1).

Lemma views_sorted l : NoDup l.*1 -> Forall (fun kv => isLanguage kv.1 = true) l ->
  StronglySorted (fun a b => (Costmdls.viewKey a.1 <? Costmdls.viewKey b.1) = true) (viewSort l).
Proof.
  intros Hd Hl. apply (sort_by_sorted _ (fun kv => Costmdls.viewKey kv.1)).
  - intros x y z. rewrite !Z.ltb_lt. lia.
  - intros x y Hxy. rewrite !Z.ltb_lt. lia.
  - induction Hl as [|kv l Hkv Hl IH]; [constructor|]. cbn in Hd |- *. apply NoDup_cons in Hd as [Hn Hd]. apply NoDup_cons. split; [|by apply IH].
    intros (kv' & E & Hin)%list_elem_of_fmap. apply Hn. rewrite List.Forall_forall in Hl. apply list_elem_of_fmap. exists kv'. split; [|done].
    apply view_keys_inj; [done|by apply Hl, list_elem_of_In|done].
Qed.

Lemma view_emits kv : isModel kv = true -> isLanguage kv.1 = true ->
  zlen (concat (map intBytes kv.2)) < 2 ^ 53 ->
  emits (Costmdls.writeView (kv.1, CostModel.new kv.1 kv.2)) (viewKeyBytes kv.1 ++ viewValueBytes kv).
Proof.
  intros (Hk & Hz & Hl)%isModel_spec Hr Hsz. unfold Costmdls.writeView, viewKeyBytes, viewValueBytes. cbn [fst snd CostModel.costs CostModel.new].
  pose proof (costs_emit kv.2 Hl) as Hc. case_bool.
  - apply emits_lift with (v := [159] ++ concat (map intBytes kv.2) ++ [255]).
    + apply encodeBytes_emits, emits_bind; [by apply emits_call, (appends_push 1 159)|].
      apply emits_bind; [exact Hc|apply emits_call, appends_break].
    + pose proof (zlen_nonneg (concat (map intBytes kv.2))). apply emits_bind.
      * apply stringBytes_emits; done.
      * apply stringBytes_emits. rewrite !zlen_app. change (zlen [159]) with 1. change (zlen [255]) with 1. lia.
  - apply language_cases in Hr. rewrite (proj2 (andb_true_iff _ _)) by (split; apply Z.leb_le; lia).
    apply emits_bind; [by apply emits_int, safe_int64|]. unfold recordBytes. rewrite zlen_map. apply record_emits; [lia|done].
Qed.

(** C37. The language views of cost models, which are hashed into the script
    data of a transaction, have the canonical form the ledger compares with:
    all models are in them once, their keys strictly ascend in the canonical
    order of CBOR, which puts the byte string that stands for Plutus V1 last,
    and the costs of V1 are a byte string around an indefinite array. *)
Theorem language_views_are_canonical l : zlen l < 2 ^ 53 -> NoDup l.*1 ->
  Forall (fun kv => isModel kv = true /\ isLanguage kv.1 = true /\ zlen (concat (map intBytes kv.2)) < 2 ^ 52) l ->
  exists views, views ≡ₚ l /\
    StronglySorted (fun a b => canonicallyLess (viewKeyBytes a.1) (viewKeyBytes b.1) = true) views /\
    Costmdls.languageViewsEncoding (Costmdls.fromCore l) =
      Ok (Buffer_to_hex (mapBytes false (map (fun kv => (viewKeyBytes kv.1, viewValueBytes kv)) views))).
Proof.
  intros Hz Hd Hl. exists (viewSort l). assert (Hp : viewSort l ≡ₚ l) by apply sort_by_perm. split; [exact Hp|].
  assert (Hv : Forall (fun kv => isModel kv = true /\ isLanguage kv.1 = true /\ zlen (concat (map intBytes kv.2)) < 2 ^ 52) (viewSort l)) by by rewrite Hp.
  split.
  - assert (Hs : StronglySorted (fun a b => (Costmdls.viewKey a.1 <? Costmdls.viewKey b.1) = true) (viewSort l)).
    { apply views_sorted; [done|]. eapply Forall_impl; [exact Hl|]. by intros kv (_ & ? & _). }
    clear Hp. induction Hs as [|kv s _ IH Hkv]; [constructor|]. inversion Hv as [|? ? (_ & Hk & _) Hvs E1]. constructor; [by apply IH|].
    apply List.Forall_forall. intros kv' Hin. rewrite List.Forall_forall in Hkv, Hvs. destruct (Hvs kv' Hin) as (_ & Hk' & _). by apply view_keys_less, Hkv.
  - assert (Hd' : NoDup (viewSort l).*1) by by rewrite Hp. apply encode_emits. unfold Costmdls.fromCore. fold (modelObjects l).
    rewrite models_of_entries by done. cbn [Costmdls.models Costmdls.new]. unfold modelObjects at 1 2. rewrite sort_by_fmap.
    change (sort_by _ l) with (viewSort l). fold (modelObjects (viewSort l)). rewrite models_of_entries by done. cbv zeta.
    unfold mapBytes. rewrite zlen_map. assert (Ez : JsMap.size (modelObjects (viewSort l)) = zlen (viewSort l)).
    { unfold JsMap.size, modelObjects, zlen. by rewrite length_fmap. }
    rewrite Ez. assert (El : zlen (viewSort l) = zlen l) by (unfold zlen; by rewrite (Permutation_length Hp)). pose proof (zlen_nonneg l).
    apply emits_bind; [apply emits_call, writeTypeValue_head; lia|]. apply emits_forEach. rewrite map_map. clear -Hv.
    induction Hv as [|kv s (Hm & Hk & Hc) _ IH]; constructor; [|done]. apply view_emits; [done..|lia].
Qed.

(** *** Witnesses *)

Module UpdateWitness.
(** A concrete search for the fraction of a number that is not negative: the
    mediants between 0/1 and 1/0. *)
Fixpoint mediants (fuel : nat) (x : number) (a b c d : Z) : Res (Z * Z) :=
  match fuel with
  | O => OutOfFuel
  | S fuel =>
      let q := num_div (double_of_Z (a + c)) (double_of_Z (b + d)) in
      if SFeqb q x then Ok (a + c, b + d)
      else if SFltb x q then mediants fuel x a b (a + c) (b + d) else mediants fuel x (a + c) (b + d) c d
  end.

#[local] Instance mediantFraction : FractionJs := {| fraction x := if SFeqb x (S754_zero false) then Ok (0, 1) else mediants 400 x 0 1 1 0 |}.

Definition third : UnitInterval.core := UnitInterval.Core 1 3.

Definition params : ProtocolParamUpdate.core := ProtocolParamUpdate.coreMake (fun p => match p return option (coreOf p) with
  | Param.minFeeA => Some 44
  | Param.poolDeposit => Some (Some 500000000)
  | Param.nOpt => Some 500
  | Param.poolPledgeInfluence => Some "0.3"%string
  | Param.extraEntropy => Some "0a0b"%string
  | Param.protocolVersion => Some (ProtocolVersion.Core 9 1)
  | Param.costModels => Some [(0, [197209; 0; 1]); (2, [100788; -420])]
  | Param.executionCosts => Some (ExUnitPrices.Core (Number_parse "0.0577") (Number_parse "0.0125"))
  | Param.maxTxExUnits => Some (ExUnits.Core 14000000 10000000000)
  | Param.poolVotingThresholds => Some (PoolVotingThresholds.Core third third third third third)
  | Param.refScriptCostStride => Some 25600
  | Param.refScriptCostMultiplier => Some "1.2"%string
  | _ => None
  end).

Definition delegate : string := "00010203040506070809000102030405060708090001020304050607".
Definition update : Update.core := Update.Core 365 [(delegate, params)].


Lemma update_decode_total_witness : exists u, Update.fromCbor "82a019016d" = Ok u /\ Update.toCbor u = Ok "82a019016d"%string.
Proof.
  destruct (Update.fromCbor "82a019016d") as [u|e|] eqn:E; [|vm_compute in E; discriminate E..].
  destruct (update_decode_total "82a019016d") as [_ H]; [vm_compute; reflexivity|].
  exists u. split; [reflexivity|exact (H u E)].
Defined.

(** An update of one parameter, as a decoded object. *)
Definition decoded : ProtocolParamUpdate.t := match ProtocolParamUpdate.fromCbor "a100182c" with Ok s => s | _ => ProtocolParamUpdate.new end.

Lemma min_fee_setter_is_not_encoded_witness : ProtocolParamUpdate.fromCbor "a100182c" = Ok decoded /\
  ProtocolParamUpdate.toCbor (ProtocolParamUpdate.setMinFeeA decoded 99) = Ok "a100182c"%string.
Proof.
  destruct (min_fee_setter_is_not_encoded "a100182c" decoded 99) as (H & _ & _); [discriminate|vm_compute; reflexivity|].
  split; [vm_compute; reflexivity|exact H].
Defined.

Lemma language_views_are_canonical_witness : exists views,
  Costmdls.languageViewsEncoding (Costmdls.fromCore [(0, [1; 2]); (1, [3]); (2, [4])]) =
    Ok (Buffer_to_hex (mapBytes false (map (fun kv => (viewKeyBytes kv.1, viewValueBytes kv)) views))) /\
  views ≡ₚ [(0, [1; 2]); (1, [3]); (2, [4])].
Proof.
  destruct (language_views_are_canonical [(0, [1; 2]); (1, [3]); (2, [4])]) as (views & Hp & _ & E).
  - vm_compute. reflexivity.
  - exact (bool_decide_unpack (NoDup [0; 1; 2]) I).
  - repeat constructor.
  - exists views. split; [exact E|exact Hp].
Defined.
End UpdateWitness.
