(* ===== verification/Proposals.v ===== *)
(** * Proposals of governance actions
    Models [packages/core/src/Serialization/TransactionBody/ProposalProcedure]:
    the seven kinds of governance action, committees and constitutions, and the
    procedure that proposes an action with a deposit, a reward account and an
    anchor. *)
From S2P Require Import Prelude JsRuntime CborCommon Half CborWriter CborReader Codec Credential Address Records Common Outputs ParamParts ProtocolParams.

Module GovernanceActionKind.
Definition ParameterChange : Z := 0.
Definition HardForkInitiation : Z := 1.
Definition TreasuryWithdrawals : Z := 2.
Definition NoConfidence : Z := 3.
Definition UpdateCommittee : Z := 4.
Definition NewConstitution : Z := 5.
Definition Info : Z := 6.
End GovernanceActionKind.

(** ** Shared steps *)

(** [Number(reader.readUInt())] *)
Definition readUIntNumber : Dec Z := n ← call CborReader.readUInt; mret (Number_of n).

(** The check of the kind after the length; one of the messages has two spaces. *)
Definition expectAction (expected : Z) (space : string) : Dec unit :=
  kind ← readUIntNumber;
  st_guard (negb (kind =? expected))
    (InvalidArgumentError "cbor" ("Expected action kind, expected " +:+ pretty expected +:+ space +:+ "but got " +:+ pretty kind)).

(** [this.#govActionId ? writer.writeEncodedValue(...) : writer.writeNull()] *)
Definition writeActionId (govActionId : option GovernanceActionId.t) : Enc unit :=
  writeNullable (fun g => writeEncoded (GovernanceActionId.toCbor g)) govActionId.
Definition readActionId : Dec (option GovernanceActionId.t) := readNullable (readNested GovernanceActionId.fromCbor).

(** [hash ? writer.writeByteString(...) : writer.writeNull()]: the empty text is
    not a hash. *)
Definition writeOptionalHash (hash : option string) : Enc unit :=
  writeNullable (fun h => call (CborWriter.writeByteString (Buffer_from_hex h))) (truthyString hash).
Definition readOptionalHash : Dec (option string) := readNullable readHex.

(** The reward account of a text, as bytes. *)
Section account.
Context `{Crc32} `{BaseEncoding}.

Definition rewardAccountBytes (account : string) : Res (list Z) :=
  a ← fromBech32 account;
  match RewardAddress.fromAddress a with
  | Some r => hex ← toBytes r; Ok (Buffer_from_hex hex)
  | None => Throw (InvalidAddress ("Invalid withdrawal address: " +:+ account))
  end.

(** [Address.fromBytes(...).toBech32()]: any address with such a text. *)
Definition readRewardAccount : Dec string :=
  hex ← readHex; a ← st_lift (fromBytes hex); st_lift (toBech32 a).
End account.

Definition CREDENTIAL_ARRAY_SIZE : Z := 2.

(** Members of a committee with the epochs their terms end in. *)
Definition writeMembers (members : list (Credential * Z)) : Enc unit :=
  call (CborWriter.writeStartMap (Some (zlen members))) ;;
  forEach (fun entry => writeCredential entry.1 ;; call (CborWriter.writeInt entry.2)) members.

(** The hash of a credential is not checked; the message of the length check
    shows the length of the enclosing array. *)
Definition readMemberWith (readType : Dec Z) (length : option Z) : Dec (Credential * Z) :=
  n ← call CborReader.readStartArray;
  st_guard (negb (bool_decide (n = Some CREDENTIAL_ARRAY_SIZE)))
    (InvalidArgumentError "cbor" ("Expected an array of 2 elements, but got an array of " +:+ lengthText length +:+ " elements")) ;;
  type ← readType;
  hash ← readHex;
  call CborReader.readEndArray ;;
  epoch ← readUIntNumber;
  mret ({| hash := hash; Credential.type := type |}, epoch).

(** ** Committees *)

Module Committee.
(** [Cardano.Committee], its members as pairs. *)
Record core : Set := Core { members : list (Credential * Z); coreQuorumThreshold : UnitInterval.core }.

Record t : Set := { quorumThreshold : UnitInterval.t; committeeColdCredentials : list (Credential * Z); originalBytes : option HexBlob }.

Definition COMMITTEE_ARRAY_SIZE : Z := 2.

Definition new (quorumThreshold : UnitInterval.t) : t :=
  {| quorumThreshold := quorumThreshold; committeeColdCredentials := []; originalBytes := None |}.

Definition isMember (credential : Credential) (entry : Credential * Z) : bool :=
  (Credential.type entry.1 =? Credential.type credential) && String.eqb (hash entry.1) (hash credential).

(** The remembered blob is kept. *)
Definition addMember (c : t) (credential : Credential) (epoch : Z) : Res t :=
  match find (isMember credential) (committeeColdCredentials c) with
  | Some _ => Throw (InvalidArgumentError "committeeColdCredential" "The given credential is already present")
  | None => Ok {| quorumThreshold := quorumThreshold c; committeeColdCredentials := committeeColdCredentials c ++ [(credential, epoch)];
                  originalBytes := originalBytes c |}
  end.

Fixpoint addMembers (c : t) (members : list (Credential * Z)) : Res t :=
  match members with
  | [] => Ok c
  | member :: members => c ← addMember c member.1 member.2; addMembers c members
  end.

Definition noMembers {A} : Res A := Throw (InvalidStateError "There must be at least one Committee member").

Definition toCbor (c : t) : Res HexBlob := cached (originalBytes c) (
  if zlen (committeeColdCredentials c) =? 0 then noMembers
  else encode (
    call (CborWriter.writeStartArray (Some COMMITTEE_ARRAY_SIZE)) ;;
    writeMembers (committeeColdCredentials c) ;;
    writeEncoded (UnitInterval.toCbor (quorumThreshold c)))).

(** The type of the credential is checked. *)
Definition readMember : option Z -> Dec (Credential * Z) := readMemberWith readCredentialType.

Definition fromCbor (cbor : HexBlob) : Res t := decode (
  length ← call CborReader.readStartArray;
  expectLength COMMITTEE_ARRAY_SIZE COMMITTEE_ARRAY_SIZE length ;;
  members ← readMapOf (readMember length);
  quorumThreshold ← readNested UnitInterval.fromCbor;
  committee ← st_lift (addMembers (new quorumThreshold) members);
  mret {| quorumThreshold := Committee.quorumThreshold committee; committeeColdCredentials := committeeColdCredentials committee;
          originalBytes := Some cbor |}) cbor.

Definition toCore (c : t) : Res core :=
  if zlen (committeeColdCredentials c) =? 0 then noMembers
  else Ok {| members := committeeColdCredentials c; coreQuorumThreshold := UnitInterval.toCore (quorumThreshold c) |}.

Definition fromCore (c : core) : Res t := addMembers (new (UnitInterval.fromCore (coreQuorumThreshold c))) (members c).

Definition membersKeys (c : t) : list Credential := map fst (committeeColdCredentials c).
Definition getMemberEpoch (c : t) (credential : Credential) : option Z :=
  match find (isMember credential) (committeeColdCredentials c) with Some member => Some member.2 | None => None end.
End Committee.

(** ** Constitutions *)

Module Constitution.
Record core : Set := Core { coreAnchor : Anchor.core; coreScriptHash : option string }.

Record t : Set := { anchor : Anchor.t; scriptHash : option string; originalBytes : option HexBlob }.

Definition CONSTITUTION_ARRAY_SIZE : Z := 2.

Definition new (anchor : Anchor.t) (scriptHash : option string) : t := {| anchor := anchor; scriptHash := scriptHash; originalBytes := None |}.

Definition toCbor (c : t) : Res HexBlob := cached (originalBytes c) (encode (
  call (CborWriter.writeStartArray (Some CONSTITUTION_ARRAY_SIZE)) ;;
  writeEncoded (Anchor.toCbor (anchor c)) ;;
  writeOptionalHash (scriptHash c))).

Definition fromCbor (cbor : HexBlob) : Res t := decode (
  length ← call CborReader.readStartArray;
  expectLength CONSTITUTION_ARRAY_SIZE CONSTITUTION_ARRAY_SIZE length ;;
  anchor ← readNested Anchor.fromCbor;
  scriptHash ← readOptionalHash;
  call CborReader.readEndArray ;;
  mret {| anchor := anchor; scriptHash := scriptHash; originalBytes := Some cbor |}) cbor.

Definition toCore (c : t) : core := {| coreAnchor := Anchor.toCore (anchor c); coreScriptHash := truthyString (scriptHash c) |}.

Definition fromCore (c : core) : Res t := anchor ← Anchor.fromCore (coreAnchor c); Ok (new anchor (coreScriptHash c)).

Definition setAnchor (c : t) (anchor : Anchor.t) : t := new anchor (scriptHash c).
Definition setScriptHash (c : t) (scriptHash : option string) : t := new (anchor c) scriptHash.
End Constitution.

(** ** The actions *)

Module ParameterChangeAction.
Record core : Type := Core {
  governanceActionId : option GovernanceActionId.core; coreProtocolParamUpdate : ProtocolParamUpdate.core; corePolicyHash : option string }.

Record t : Type := {
  protocolParamUpdate : ProtocolParamUpdate.t; govActionId : option GovernanceActionId.t; policyHash : option string; originalBytes : option HexBlob }.

Definition EMBEDDED_GROUP_SIZE : Z := 4.

Definition new (protocolParamUpdate : ProtocolParamUpdate.t) (govActionId : option GovernanceActionId.t) (policyHash : option string) : t :=
  {| protocolParamUpdate := protocolParamUpdate; govActionId := govActionId; policyHash := policyHash; originalBytes := None |}.

Definition toCbor (a : t) : Res HexBlob := cached (originalBytes a) (encode (
  call (CborWriter.writeStartArray (Some EMBEDDED_GROUP_SIZE)) ;;
  call (CborWriter.writeInt GovernanceActionKind.ParameterChange) ;;
  writeActionId (govActionId a) ;;
  writeEncoded (ProtocolParamUpdate.toCbor (protocolParamUpdate a)) ;;
  writeOptionalHash (policyHash a))).

Definition fromCbor (cbor : HexBlob) : Res t := decode (
  length ← call CborReader.readStartArray;
  expectLength EMBEDDED_GROUP_SIZE EMBEDDED_GROUP_SIZE length ;;
  expectAction GovernanceActionKind.ParameterChange " " ;;
  govActionId ← readActionId;
  parameterUpdate ← readNested ProtocolParamUpdate.fromCbor;
  policyHash ← readOptionalHash;
  call CborReader.readEndArray ;;
  mret {| protocolParamUpdate := parameterUpdate; govActionId := govActionId; policyHash := policyHash; originalBytes := Some cbor |}) cbor.

Definition toCore (a : t) : core := {|
  governanceActionId := GovernanceActionId.toCore <$> govActionId a;
  coreProtocolParamUpdate := ProtocolParamUpdate.toCore (protocolParamUpdate a);
  corePolicyHash := truthyString (policyHash a) |}.

Definition fromCore `{FractionJs} (a : core) : Res t :=
  update ← ProtocolParamUpdate.fromCore (coreProtocolParamUpdate a);
  Ok (new update (GovernanceActionId.fromCore <$> governanceActionId a) (corePolicyHash a)).
End ParameterChangeAction.

Module HardForkInitiationAction.
Record core : Set := Core { governanceActionId : option GovernanceActionId.core; coreProtocolVersion : ProtocolVersion.core }.

Record t : Set := { protocolVersion : ProtocolVersion.t; govActionId : option GovernanceActionId.t; originalBytes : option HexBlob }.

Definition EMBEDDED_GROUP_SIZE : Z := 3.

Definition new (protocolVersion : ProtocolVersion.t) (govActionId : option GovernanceActionId.t) : t :=
  {| protocolVersion := protocolVersion; govActionId := govActionId; originalBytes := None |}.

Definition toCbor (a : t) : Res HexBlob := cached (originalBytes a) (encode (
  call (CborWriter.writeStartArray (Some EMBEDDED_GROUP_SIZE)) ;;
  call (CborWriter.writeInt GovernanceActionKind.HardForkInitiation) ;;
  writeActionId (govActionId a) ;;
  writeEncoded (ProtocolVersion.toCbor (protocolVersion a)))).

(** The end of the array is not read. *)
Definition fromCbor (cbor : HexBlob) : Res t := decode (
  length ← call CborReader.readStartArray;
  expectLength EMBEDDED_GROUP_SIZE EMBEDDED_GROUP_SIZE length ;;
  expectAction GovernanceActionKind.HardForkInitiation " " ;;
  govActionId ← readActionId;
  protocolVersion ← readNested ProtocolVersion.fromCbor;
  mret {| protocolVersion := protocolVersion; govActionId := govActionId; originalBytes := Some cbor |}) cbor.

Definition toCore (a : t) : core := {|
  governanceActionId := GovernanceActionId.toCore <$> govActionId a; coreProtocolVersion := ProtocolVersion.toCore (protocolVersion a) |}.

Definition fromCore (a : core) : t := new (ProtocolVersion.fromCore (coreProtocolVersion a)) (GovernanceActionId.fromCore <$> governanceActionId a).
End HardForkInitiationAction.

Module TreasuryWithdrawalsAction.
(** The core type has a [Set] of objects, which are all distinct. *)
Record core : Set := Core { coreWithdrawals : list (string * Z); corePolicyHash : option string }.

(** A [Map] from reward accounts to amounts. *)
Record t : Set := { withdrawals : list (string * Z); policyHash : option string; originalBytes : option HexBlob }.

Definition EMBEDDED_GROUP_SIZE : Z := 3.

Definition new (withdrawals : list (string * Z)) (policyHash : option string) : t :=
  {| withdrawals := withdrawals; policyHash := policyHash; originalBytes := None |}.

(** [a > b] of two entries compares their texts, ["<account>,<amount>"]. *)
Definition entryGreater (a b : string * Z) : bool := string_gt (a.1 +:+ "," +:+ pretty a.2) (b.1 +:+ "," +:+ pretty b.2).

Section impl.
Context `{Crc32} `{BaseEncoding}.

Definition writeWithdrawal (entry : string * Z) : Enc unit :=
  address ← st_lift (rewardAccountBytes entry.1);
  call (CborWriter.writeByteString address) ;;
  call (CborWriter.writeInt entry.2).

Definition toCbor (a : t) : Res HexBlob := cached (originalBytes a) (encode (
  let sortedCanonically := JsMap.of_entries (sort_by entryGreater (withdrawals a)) in
  call (CborWriter.writeStartArray (Some EMBEDDED_GROUP_SIZE)) ;;
  call (CborWriter.writeInt GovernanceActionKind.TreasuryWithdrawals) ;;
  (call (CborWriter.writeStartMap (Some (JsMap.size sortedCanonically))) ;;
   forEach writeWithdrawal sortedCanonically) ;;
  writeOptionalHash (policyHash a))).

Definition readWithdrawal : Dec (string * Z) :=
  account ← readRewardAccount;
  amount ← call CborReader.readInt;
  mret (account, amount).

Definition fromCbor (cbor : HexBlob) : Res t := decode (
  length ← call CborReader.readStartArray;
  expectLength EMBEDDED_GROUP_SIZE EMBEDDED_GROUP_SIZE length ;;
  expectAction GovernanceActionKind.TreasuryWithdrawals " " ;;
  amounts ← readMapOf readWithdrawal;
  policyHash ← readOptionalHash;
  call CborReader.readEndArray ;;
  mret {| withdrawals := JsMap.of_entries amounts; policyHash := policyHash; originalBytes := Some cbor |}) cbor.
End impl.

Definition toCore (a : t) : core := {| coreWithdrawals := withdrawals a; corePolicyHash := truthyString (policyHash a) |}.
Definition fromCore (a : core) : t := new (JsMap.of_entries (coreWithdrawals a)) (corePolicyHash a).
End TreasuryWithdrawalsAction.

Module NoConfidence.
Record core : Set := Core { governanceActionId : option GovernanceActionId.core }.

Record t : Set := { govActionId : option GovernanceActionId.t; originalBytes : option HexBlob }.

Definition EMBEDDED_GROUP_SIZE : Z := 2.

Definition new (govActionId : option GovernanceActionId.t) : t := {| govActionId := govActionId; originalBytes := None |}.

Definition toCbor (a : t) : Res HexBlob := cached (originalBytes a) (encode (
  call (CborWriter.writeStartArray (Some EMBEDDED_GROUP_SIZE)) ;;
  call (CborWriter.writeInt GovernanceActionKind.NoConfidence) ;;
  writeActionId (govActionId a))).

Definition fromCbor (cbor : HexBlob) : Res t := decode (
  length ← call CborReader.readStartArray;
  expectLength EMBEDDED_GROUP_SIZE EMBEDDED_GROUP_SIZE length ;;
  expectAction GovernanceActionKind.NoConfidence "  " ;;
  govActionId ← readActionId;
  mret {| govActionId := govActionId; originalBytes := Some cbor |}) cbor.

Definition toCore (a : t) : core := {| governanceActionId := GovernanceActionId.toCore <$> govActionId a |}.
Definition fromCore (a : core) : t := new (GovernanceActionId.fromCore <$> governanceActionId a).
End NoConfidence.

Module UpdateCommittee.
(** The core type has [Set]s of objects, which are all distinct. *)
Record core : Set := Core {
  governanceActionId : option GovernanceActionId.core;
  coreMembersToBeRemoved : list Credential;
  coreMembersToBeAdded : list (Credential * Z);
  newQuorumThreshold : UnitInterval.core }.

Record t : Type := {
  govActionId : option GovernanceActionId.t;
  membersToBeRemoved : CborSet.t Credential;
  membersToBeAdded : list (Credential * Z);
  newQuorum : UnitInterval.t;
  originalBytes : option HexBlob }.

Definition EMBEDDED_GROUP_SIZE : Z := 5.

Definition new (membersToBeRemoved : CborSet.t Credential) (membersToBeAdded : list (Credential * Z)) (newQuorum : UnitInterval.t)
    (govActionId : option GovernanceActionId.t) : t :=
  {| govActionId := govActionId; membersToBeRemoved := membersToBeRemoved; membersToBeAdded := membersToBeAdded; newQuorum := newQuorum;
     originalBytes := None |}.

(** The type of the credential is not checked. *)
Definition readMember : option Z -> Dec (Credential * Z) := readMemberWith readUIntNumber.

Section impl.
Context `{Era}.

Definition toCbor (a : t) : Res HexBlob := cached (originalBytes a) (encode (
  call (CborWriter.writeStartArray (Some EMBEDDED_GROUP_SIZE)) ;;
  call (CborWriter.writeInt GovernanceActionKind.UpdateCommittee) ;;
  writeActionId (govActionId a) ;;
  writeEncoded (CborSet.toCbor Credential_toCbor (membersToBeRemoved a)) ;;
  writeMembers (membersToBeAdded a) ;;
  writeEncoded (UnitInterval.toCbor (newQuorum a)))).

Definition fromCbor (cbor : HexBlob) : Res t := decode (
  length ← call CborReader.readStartArray;
  expectLength EMBEDDED_GROUP_SIZE EMBEDDED_GROUP_SIZE length ;;
  expectAction GovernanceActionKind.UpdateCommittee " " ;;
  govActionId ← readActionId;
  membersToRemove ← readNested (CborSet.fromCbor Credential_fromCbor);
  membersToAdd ← readMapOf (readMember length);
  quorumThreshold ← readNested UnitInterval.fromCbor;
  mret {| govActionId := govActionId; membersToBeRemoved := membersToRemove; membersToBeAdded := membersToAdd;
          newQuorum := quorumThreshold; originalBytes := Some cbor |}) cbor.

Definition toCore (a : t) : core := {|
  governanceActionId := GovernanceActionId.toCore <$> govActionId a;
  coreMembersToBeRemoved := CborSet.values (membersToBeRemoved a);
  coreMembersToBeAdded := membersToBeAdded a;
  newQuorumThreshold := UnitInterval.toCore (newQuorum a) |}.

Definition fromCore (a : core) : t :=
  new (CborSet.new (coreMembersToBeRemoved a)) (coreMembersToBeAdded a) (UnitInterval.fromCore (newQuorumThreshold a))
    (GovernanceActionId.fromCore <$> governanceActionId a).
End impl.
End UpdateCommittee.

Module NewConstitution.
Record core : Set := Core { governanceActionId : option GovernanceActionId.core; coreConstitution : Constitution.core }.

Record t : Set := { constitution : Constitution.t; govActionId : option GovernanceActionId.t; originalBytes : option HexBlob }.

Definition EMBEDDED_GROUP_SIZE : Z := 3.

Definition new (constitution : Constitution.t) (govActionId : option GovernanceActionId.t) : t :=
  {| constitution := constitution; govActionId := govActionId; originalBytes := None |}.

Definition toCbor (a : t) : Res HexBlob := cached (originalBytes a) (encode (
  call (CborWriter.writeStartArray (Some EMBEDDED_GROUP_SIZE)) ;;
  call (CborWriter.writeInt GovernanceActionKind.NewConstitution) ;;
  writeActionId (govActionId a) ;;
  writeEncoded (Constitution.toCbor (constitution a)))).

Definition fromCbor (cbor : HexBlob) : Res t := decode (
  length ← call CborReader.readStartArray;
  expectLength EMBEDDED_GROUP_SIZE EMBEDDED_GROUP_SIZE length ;;
  expectAction GovernanceActionKind.NewConstitution " " ;;
  govActionId ← readActionId;
  constitution ← readNested Constitution.fromCbor;
  mret {| constitution := constitution; govActionId := govActionId; originalBytes := Some cbor |}) cbor.

Definition toCore (a : t) : core := {|
  governanceActionId := GovernanceActionId.toCore <$> govActionId a; coreConstitution := Constitution.toCore (constitution a) |}.

Definition fromCore (a : core) : Res t :=
  constitution ← Constitution.fromCore (coreConstitution a);
  Ok (new constitution (GovernanceActionId.fromCore <$> governanceActionId a)).
End NewConstitution.

Module InfoAction.
Record t : Set := { originalBytes : option HexBlob }.

Definition EMBEDDED_GROUP_SIZE : Z := 1.

Definition new : t := {| originalBytes := None |}.

Definition toCbor (a : t) : Res HexBlob := cached (originalBytes a) (encode (
  call (CborWriter.writeStartArray (Some EMBEDDED_GROUP_SIZE)) ;;
  call (CborWriter.writeInt GovernanceActionKind.Info))).

Definition fromCbor (cbor : HexBlob) : Res t := decode (
  length ← call CborReader.readStartArray;
  expectLength EMBEDDED_GROUP_SIZE EMBEDDED_GROUP_SIZE length ;;
  expectAction GovernanceActionKind.Info " " ;;
  mret {| originalBytes := Some cbor |}) cbor.
End InfoAction.

(** ** Procedures *)

Module ProposalProcedure.
(** [Cardano.GovernanceAction] *)
Inductive coreAction : Type :=
  | parameter_change_action (a : ParameterChangeAction.core)
  | hard_fork_initiation_action (a : HardForkInitiationAction.core)
  | treasury_withdrawals_action (a : TreasuryWithdrawalsAction.core)
  | no_confidence (a : NoConfidence.core)
  | update_committee (a : UpdateCommittee.core)
  | new_constitution (a : NewConstitution.core)
  | info_action.

Record core : Type := Core { coreDeposit : Z; coreRewardAccount : string; coreAnchor : Anchor.core; governanceAction : coreAction }.

(** The kind says which of the seven optional fields is set. *)
Inductive action : Type :=
  | parameterChangeAction (a : ParameterChangeAction.t)
  | hardForkInitiationAction (a : HardForkInitiationAction.t)
  | treasuryWithdrawalsAction (a : TreasuryWithdrawalsAction.t)
  | noConfidence (a : NoConfidence.t)
  | updateCommittee (a : UpdateCommittee.t)
  | newConstitution (a : NewConstitution.t)
  | infoAction (a : InfoAction.t).

Record t : Type := { inner : action; deposit : Z; rewardAccount : string; anchor : Anchor.t; originalBytes : option HexBlob }.

Definition PROCEDURE_ARRAY_SIZE : Z := 4.

(** [newParameterChangeAction] and the others. *)
Definition new (deposit : Z) (rewardAccount : string) (anchor : Anchor.t) (a : action) : t :=
  {| inner := a; deposit := deposit; rewardAccount := rewardAccount; anchor := anchor; originalBytes := None |}.
Definition newParameterChangeAction (deposit : Z) (account : string) (anchor : Anchor.t) (a : ParameterChangeAction.t) : t :=
  new deposit account anchor (parameterChangeAction a).
Definition newHardForkInitiationAction (deposit : Z) (account : string) (anchor : Anchor.t) (a : HardForkInitiationAction.t) : t :=
  new deposit account anchor (hardForkInitiationAction a).
Definition newTreasuryWithdrawalsAction (deposit : Z) (account : string) (anchor : Anchor.t) (a : TreasuryWithdrawalsAction.t) : t :=
  new deposit account anchor (treasuryWithdrawalsAction a).
Definition newNoConfidence (deposit : Z) (account : string) (anchor : Anchor.t) (a : NoConfidence.t) : t :=
  new deposit account anchor (noConfidence a).
Definition newUpdateCommittee (deposit : Z) (account : string) (anchor : Anchor.t) (a : UpdateCommittee.t) : t :=
  new deposit account anchor (updateCommittee a).
Definition newNewConstitution (deposit : Z) (account : string) (anchor : Anchor.t) (a : NewConstitution.t) : t :=
  new deposit account anchor (newConstitution a).
Definition newInfoAction (deposit : Z) (account : string) (anchor : Anchor.t) (a : InfoAction.t) : t :=
  new deposit account anchor (infoAction a).

Definition kind (p : t) : Z :=
  match inner p with
  | parameterChangeAction _ => GovernanceActionKind.ParameterChange
  | hardForkInitiationAction _ => GovernanceActionKind.HardForkInitiation
  | treasuryWithdrawalsAction _ => GovernanceActionKind.TreasuryWithdrawals
  | noConfidence _ => GovernanceActionKind.NoConfidence
  | updateCommittee _ => GovernanceActionKind.UpdateCommittee
  | newConstitution _ => GovernanceActionKind.NewConstitution
  | infoAction _ => GovernanceActionKind.Info
  end.

Definition getParameterChangeAction (p : t) : option ParameterChangeAction.t := match inner p with parameterChangeAction a => Some a | _ => None end.
Definition getHardForkInitiationAction (p : t) : option HardForkInitiationAction.t := match inner p with hardForkInitiationAction a => Some a | _ => None end.
Definition getTreasuryWithdrawalsAction (p : t) : option TreasuryWithdrawalsAction.t := match inner p with treasuryWithdrawalsAction a => Some a | _ => None end.
Definition getNoConfidence (p : t) : option NoConfidence.t := match inner p with noConfidence a => Some a | _ => None end.
Definition getUpdateCommittee (p : t) : option UpdateCommittee.t := match inner p with updateCommittee a => Some a | _ => None end.
Definition getNewConstitution (p : t) : option NewConstitution.t := match inner p with newConstitution a => Some a | _ => None end.
Definition getInfoAction (p : t) : option InfoAction.t := match inner p with infoAction a => Some a | _ => None end.

Section impl.
Context `{Era} `{Crc32} `{BaseEncoding}.

Definition actionToCbor (a : action) : Res HexBlob :=
  match a with
  | parameterChangeAction a => ParameterChangeAction.toCbor a
  | hardForkInitiationAction a => HardForkInitiationAction.toCbor a
  | treasuryWithdrawalsAction a => TreasuryWithdrawalsAction.toCbor a
  | noConfidence a => NoConfidence.toCbor a
  | updateCommittee a => UpdateCommittee.toCbor a
  | newConstitution a => NewConstitution.toCbor a
  | infoAction a => InfoAction.toCbor a
  end.

Definition toCbor (p : t) : Res HexBlob := cached (originalBytes p) (
  actionCbor ← actionToCbor (inner p);
  encode (
    call (CborWriter.writeStartArray (Some PROCEDURE_ARRAY_SIZE)) ;;
    call (CborWriter.writeInt (deposit p)) ;;
    (address ← st_lift (rewardAccountBytes (rewardAccount p));
     call (CborWriter.writeByteString address)) ;;
    writeEncoded (Ok actionCbor) ;;
    writeEncoded (Anchor.toCbor (anchor p)))).

(** The fields of the array; the action stays a blob. *)
Definition readProcedure : Dec (Z * string * HexBlob * Anchor.t) :=
  call CborReader.readStartArray ;;
  deposit ← call CborReader.readInt;
  account ← readRewardAccount;
  action ← call CborReader.readEncodedValue;
  anchor ← readNested Anchor.fromCbor;
  call CborReader.readEndArray ;;
  mret (deposit, account, HexBlob_fromBytes action, anchor).

Definition readActionKind : Dec Z := call CborReader.readStartArray ;; readNumber.

(** The [switch] of [fromCbor]. *)
Definition actionFromCbor (kind : Z) (cbor : HexBlob) : Res action :=
  if kind =? GovernanceActionKind.ParameterChange then a ← ParameterChangeAction.fromCbor cbor; Ok (parameterChangeAction a)
  else if kind =? GovernanceActionKind.HardForkInitiation then a ← HardForkInitiationAction.fromCbor cbor; Ok (hardForkInitiationAction a)
  else if kind =? GovernanceActionKind.TreasuryWithdrawals then a ← TreasuryWithdrawalsAction.fromCbor cbor; Ok (treasuryWithdrawalsAction a)
  else if kind =? GovernanceActionKind.NoConfidence then a ← NoConfidence.fromCbor cbor; Ok (noConfidence a)
  else if kind =? GovernanceActionKind.UpdateCommittee then a ← UpdateCommittee.fromCbor cbor; Ok (updateCommittee a)
  else if kind =? GovernanceActionKind.NewConstitution then a ← NewConstitution.fromCbor cbor; Ok (newConstitution a)
  else if kind =? GovernanceActionKind.Info then a ← InfoAction.fromCbor cbor; Ok (infoAction a)
  else Throw (InvalidStateError ("Unexpected kind value: " +:+ pretty kind)).

Definition fromCbor (cbor : HexBlob) : Res t :=
  '(deposit, account, actionCbor, anchor) ← decode readProcedure cbor;
  kind ← decode readActionKind actionCbor;
  a ← actionFromCbor kind actionCbor;
  Ok {| inner := a; deposit := deposit; rewardAccount := account; anchor := anchor; originalBytes := Some cbor |}.

Definition actionToCore (a : action) : coreAction :=
  match a with
  | parameterChangeAction a => parameter_change_action (ParameterChangeAction.toCore a)
  | hardForkInitiationAction a => hard_fork_initiation_action (HardForkInitiationAction.toCore a)
  | treasuryWithdrawalsAction a => treasury_withdrawals_action (TreasuryWithdrawalsAction.toCore a)
  | noConfidence a => no_confidence (NoConfidence.toCore a)
  | updateCommittee a => update_committee (UpdateCommittee.toCore a)
  | newConstitution a => new_constitution (NewConstitution.toCore a)
  | infoAction _ => info_action
  end.

Definition toCore (p : t) : core :=
  {| coreDeposit := deposit p; coreRewardAccount := rewardAccount p; coreAnchor := Anchor.toCore (anchor p); governanceAction := actionToCore (inner p) |}.

Definition actionFromCore `{FractionJs} (a : coreAction) : Res action :=
  match a with
  | parameter_change_action a => x ← ParameterChangeAction.fromCore a; Ok (parameterChangeAction x)
  | hard_fork_initiation_action a => Ok (hardForkInitiationAction (HardForkInitiationAction.fromCore a))
  | treasury_withdrawals_action a => Ok (treasuryWithdrawalsAction (TreasuryWithdrawalsAction.fromCore a))
  | no_confidence a => Ok (noConfidence (NoConfidence.fromCore a))
  | update_committee a => Ok (updateCommittee (UpdateCommittee.fromCore a))
  | new_constitution a => x ← NewConstitution.fromCore a; Ok (newConstitution x)
  | info_action => Ok (infoAction InfoAction.new)
  end.

Definition fromCore `{FractionJs} (p : core) : Res t :=
  anchor ← Anchor.fromCore (coreAnchor p);
  a ← actionFromCore (governanceAction p);
  Ok (new (coreDeposit p) (coreRewardAccount p) anchor a).
End impl.
End ProposalProcedure.
