(* ===== verification/ProposalFacts.v ===== *)
(** * Proposals: facts and properties
    Every class of [Proposals.v] implements the interface of [Serializable.v];
    the round trip of procedures with actions of every kind, their decoder on
    any blob, and what is not encoded. *)
From S2P Require Import Prelude JsRuntime Utf8 CborCommon Half CborWriter CborReader CborMachine CborExact CborSkip CborDocuments Codec CodecFacts Credential Address BaseEncodingRef AddressFacts AddressText Records Common Serializable CommonFacts Pools CertificateFacts Outputs OutputFacts ParamParts ProtocolParams ProtocolParamFacts Proposals.

Import CborReader CborWriterFacts.

(** ** Writers end *)

(** The writer returns or throws. *)
Definition returns {S E A} (m : ST S E A) : Prop := forall s, fst (m s) <> OutOfFuel.

Lemma returns_bind {S E A B} (m : ST S E A) (k : A -> ST S E B) : returns m -> (forall a, returns (k a)) -> returns (m ≫= k).
Proof. intros Hm Hk s. specialize (Hm s). unfold mbind, ST_bind. destruct (m s) as [[a|e|] s']; [apply Hk|done..]. Qed.
Lemma returns_ret {S E A} (a : A) : returns (S := S) (E := E) (mret a).
Proof. by intros s. Qed.
Lemma returns_call {S A} (m : ST S CborError A) : returns m -> returns (call m).
Proof. intros Hm s. specialize (Hm s). unfold call. by destruct (m s) as [[a|e|] s']. Qed.
Lemma returns_lift {S E A} (o : outcome E A) : o <> OutOfFuel -> returns (S := S) (st_lift o).
Proof. by intros Ho s. Qed.

Lemma returns_push n v : returns (CborWriter.pushUInt n v).
Proof. intros s. unfold CborWriter.pushUInt. by case_bool. Qed.

Lemma returns_head t v : returns (CborWriter.writeTypeValue t v).
Proof.
  unfold CborWriter.writeTypeValue. cbv zeta. repeat case_bool;
    repeat first [apply returns_push | apply returns_bind; [apply returns_push|intros _]].
Qed.

Lemma returns_int z : returns (CborWriter.writeInt z).
Proof. unfold CborWriter.writeInt. case_bool; apply returns_head. Qed.

Lemma returns_string l : returns (CborWriter.writeByteString l).
Proof. apply returns_bind; [apply returns_head|]. intros _ s. done. Qed.

Lemma encode_ends m : returns m -> encode m <> OutOfFuel.
Proof. intros Hm. specialize (Hm CborWriter.new). unfold encode. by destruct (m _) as [[[]|e|] w]. Qed.
Lemma encodeBytes_ends m : returns m -> encodeBytes m <> OutOfFuel.
Proof. intros Hm. specialize (Hm CborWriter.new). unfold encodeBytes. by destruct (m _) as [[[]|e|] w]. Qed.

Ltac returns := repeat first
  [ apply returns_ret | apply returns_call, returns_head | apply returns_call, returns_int | apply returns_call, returns_string
  | match goal with |- returns (mbind _ _) => apply returns_bind; [|intros ?] end ].

Section ends.
Context `{Crc32}.

Lemma packContent_ends c : ByronAddress.packContent c <> OutOfFuel.
Proof.
  unfold ByronAddress.packContent. apply encode_ends. cbv zeta.
  assert (Ha : forall k m, returns m -> returns (ByronAddress.writeAttribute k m)).
  { intros k m Hm. apply returns_bind; [by apply returns_lift, encodeBytes_ends|intros x]. returns. }
  destruct (ByronAddress.pathSet _), (ByronAddress.magicSet _); repeat first [apply Ha; returns | progress returns].
Qed.

Lemma variableLengthEncode_ends z : PointerAddress.variableLengthEncode z <> OutOfFuel.
Proof. unfold PointerAddress.variableLengthEncode. by case_bool. Qed.

Lemma required_ends {A} (o : option A) : required o <> OutOfFuel.
Proof. by destruct o. Qed.

Lemma toBytes_ends a : toBytes a <> OutOfFuel.
Proof.
  unfold toBytes. cbv zeta. apply bind_fuel; [|done]. repeat case_bool; try done.
  - unfold BaseAddress.packParts. repeat (apply bind_fuel; [apply required_ends|intros ?]). done.
  - unfold PointerAddress.packParts. repeat (apply bind_fuel; [first [apply required_ends|apply variableLengthEncode_ends]|intros ?]). done.
  - unfold EnterpriseAddress.packParts, packPayment. apply bind_fuel; [apply required_ends|done].
  - unfold RewardAddress.packParts, packPayment. apply bind_fuel; [apply required_ends|done].
  - unfold ByronAddress.packParts. apply bind_fuel; [apply required_ends|intros c]. apply bind_fuel; [apply packContent_ends|intros h].
    apply encodeBytes_ends. returns.
Qed.
End ends.

(** The encoder of the bech32 package returns a text or throws. *)
Class Bech32Ends `{BaseEncoding} : Prop := bech32_encode_ends p w limit : bech32_encode p w limit <> OutOfFuel.

#[export] Instance encoding_ref_ends : Bech32Ends.
Proof. intros p w limit. cbn. unfold encodeRef. by case_bool. Qed.

Lemma toBech32_ends `{Crc32} `{BaseEncoding} {BE : Bech32Ends} a : toBech32 a <> OutOfFuel.
Proof.
  unfold toBech32. apply bind_fuel; [apply toBytes_ends|intros hex]. cbv zeta. case_bool; [done|].
  apply bind_fuel; [|intros p; apply bech32_encode_ends]. unfold getBech32Prefix. apply bind_fuel; [|done]. by repeat case_bool.
Qed.

(** ** The shared steps *)

Lemma index53_spec z : isIndex53 z = true -> isUInt z = true /\ isSafe z = true /\ isInt64 z = true.
Proof. intros Hz. split_and!; [by apply index53_uint|by apply index53_safe|by apply safe_int64, index53_safe]. Qed.

Lemma readUIntNumber_reads z : isIndex53 z = true -> reads readUIntNumber (intBytes z) z.
Proof.
  intros Hz. pose proof (index53_range z Hz). rewrite <- (Number_of_exact z) at 2 by lia.
  by apply (reads_fmap 1 _ Number_of), readUInt_reads, index53_uint.
Qed.

Lemma sound_uintNumber : sound readUIntNumber (fun _ => True).
Proof. eapply sound_bind; [apply sound_uint|]. intros z _. by apply sound_ret. Qed.

Lemma expectAction_reads k space : isIndex53 k = true -> reads (expectAction k space) (intBytes k) tt.
Proof.
  intros Hk. unfold expectAction. eapply reads_last; [by apply readUIntNumber_reads|]. intros r. by rewrite Z.eqb_refl.
Qed.

Lemma sound_expectAction k space : sound (expectAction k space) (fun _ => True).
Proof. eapply sound_bind; [apply sound_uintNumber|]. intros z _. unfold st_guard. case_bool; [apply sound_throw|by apply sound_ret]. Qed.

(** Hashes that may be missing. *)
Definition isOptionalHash (h : option string) : bool := match h with Some h => isHash 56 h | None => true end.
Definition optionalHashBytes : option string -> list Z := nullableBytes blobBytes.

Lemma optionalHash_field h : isOptionalHash h = true -> field (optionalHashBytes h).
Proof. intros Hh. apply nullable_field. intros x ->. by apply (field_hash 56). Qed.

Lemma optionalHash_truthy h : isOptionalHash h = true -> truthyString h = h.
Proof. destruct h as [h|]; [|done]. intros Hh. by apply (truthy_hash 56). Qed.

Lemma optionalHash_emits h : isOptionalHash h = true -> emits (writeOptionalHash h) (optionalHashBytes h).
Proof.
  intros Hh. unfold writeOptionalHash. rewrite optionalHash_truthy by done. apply nullable_emits. intros x ->. by apply (emits_hash 56).
Qed.

Lemma optionalHash_reads h : isOptionalHash h = true -> reads readOptionalHash (optionalHashBytes h) h.
Proof.
  destruct h as [h|]; intros Hh; [|apply readNullable_none]. apply (readNullable_some _ ByteString); [done|by apply (starts_blob 56)|by apply (readHex_reads 56)].
Qed.

Lemma sound_optionalHash : sound readOptionalHash (fun _ => True).
Proof. eapply sound_weaken; [apply sound_nullable, sound_hex|done]. Qed.

(** Identifiers of actions that may be missing. *)
Definition actionIdBytes : option GovernanceActionId.core -> list Z := nullableBytes (fun g => recordBytes (actionFields g)).
Definition isActionId (g : option GovernanceActionId.core) : bool := match g with Some g => isAction g | None => true end.
Definition actionIdStands (g : option GovernanceActionId.core) (o : option GovernanceActionId.t) : Prop := standsForOption g o.

Lemma actionId_field g : isActionId g = true -> field (actionIdBytes g).
Proof. exact (option_field (C := GovernanceActionId.core) (T := GovernanceActionId.t) g). Qed.

Lemma actionId_fromCore g : isActionId g = true -> actionIdStands g (GovernanceActionId.fromCore <$> g).
Proof. destruct g as [g|]; [|done]. intros Hg. destruct (@fromCore_standsFor _ _ action_serializable action_laws g Hg) as (o & [= <-] & Ho). exact Ho. Qed.

Lemma actionId_toCore g o : actionIdStands g o -> GovernanceActionId.toCore <$> o = g.
Proof. destruct g as [g|], o as [o|]; try done. intros [[= Ho] _]. cbn. by rewrite Ho. Qed.

Lemma actionId_emits g o : isActionId g = true -> actionIdStands g o -> emits (writeActionId o) (actionIdBytes g).
Proof. exact (option_emits (C := GovernanceActionId.core) (T := GovernanceActionId.t) g o). Qed.

Lemma actionId_reads g : isActionId g = true -> zlen (actionIdBytes g) < 2 ^ 53 -> exists o, reads readActionId (actionIdBytes g) o /\ actionIdStands g o.
Proof. exact (option_reads (C := GovernanceActionId.core) (T := GovernanceActionId.t) g). Qed.

Lemma sound_actionId : sound readActionId (fun _ => True).
Proof. eapply sound_weaken; [exact (option_sound (C := GovernanceActionId.core) (T := GovernanceActionId.t))|done]. Qed.

(** Reward accounts as text. *)
Section account.
Context `{Crc32} {CL : Crc32Laws} `{BaseEncoding}.

Definition accountBytes (account : string) : list Z := stringBytes (rewardBytes account).

Lemma account_field account : isRewardText account = true -> field (accountBytes account).
Proof. intros (a & n & Ha)%isRewardText_spec. destruct (reward_bytes _ _ _ Ha). split; [apply stringBytes_item; lia|by apply stringBytes_bytes]. Qed.

Lemma account_exact account : isRewardText account = true -> rewardAccountBytes account = Ok (rewardBytes account).
Proof.
  intros (a & n & Ha)%isRewardText_spec. unfold rewardAccountBytes. rewrite (reward_parsed _ _ _ Ha). cbn [mbind outcome_bind].
  rewrite (reward_reward _ _ _ Ha), (reward_packed _ _ _ Ha). cbn [mbind outcome_bind]. destruct (reward_bytes _ _ _ Ha). by rewrite Buffer_hex_roundtrip.
Qed.

Lemma account_string account : isRewardText account = true -> emits (call (CborWriter.writeByteString (rewardBytes account))) (accountBytes account).
Proof. intros (a & n & Ha)%isRewardText_spec. destruct (reward_bytes _ _ _ Ha). apply stringBytes_emits. lia. Qed.

Lemma account_emits account : isRewardText account = true ->
  emits (address ← st_lift (rewardAccountBytes account); call (CborWriter.writeByteString address)) (accountBytes account).
Proof. intros Ha. eapply emits_lift; [by apply account_exact|by apply account_string]. Qed.

Lemma account_reads account : isRewardText account = true -> reads readRewardAccount (accountBytes account) account.
Proof.
  intros (a & n & Ha)%isRewardText_spec. destruct (reward_bytes _ _ _ Ha) as [Hb Hz]. unfold readRewardAccount. eapply reads_last.
  - apply (reads_fmap 1 _ HexBlob_fromBytes), stringBytes_reads. lia.
  - intros r. unfold HexBlob_fromBytes. rewrite (st_lift_ok _ _ _ _ (reward_unpacked _ _ _ Ha)). unfold st_lift. by rewrite (reward_text _ _ _ Ha).
Qed.

Lemma advances_account {BE : Bech32Ends} : advances readRewardAccount (fun _ => True).
Proof.
  eapply (advances_bind _ _ (fun h => zlen (Buffer_from_hex h) < 2 ^ 53)).
  - intros r Hw. unfold readHex. eapply runs_bind; [by apply runs_byteString|]. cbv beta. intros l r' _ (Ho & Hl & Hz).
    apply (runs_ret r' (HexBlob_fromBytes l) (fun h r' => offset r < offset r' /\ zlen (Buffer_from_hex h) < 2 ^ 53)).
    unfold HexBlob_fromBytes. by rewrite Buffer_hex_roundtrip.
  - intros h Hz r Hw. apply runs_lift; [by apply fromBytes_ends|]. intros a _.
    by apply (sound_lift (toBech32 a) (fun _ => True) (toBech32_ends a) ltac:(done) r).
Qed.

Lemma sound_account {BE : Bech32Ends} : sound readRewardAccount (fun _ => True).
Proof. intros r Hw. eapply runs_impl; [by apply advances_account|done]. Qed.
End account.

(** ** Constitutions *)

Lemma part_fits fs n l : zlen (recordBytes fs) < n -> In l fs -> zlen l < n.
Proof. intros Hn Hl. pose proof (record_size fs). pose proof (part_size l fs Hl). lia. Qed.

Ltac record_starts := intros; apply (starts_not_null Array); [done|by apply starts_record].

Definition constitutionFields (c : Constitution.core) : list (list Z) := [anchorBytes (Constitution.coreAnchor c); optionalHashBytes (Constitution.coreScriptHash c)].
Definition isConstitution (c : Constitution.core) : bool := isAnchor (Constitution.coreAnchor c) && isOptionalHash (Constitution.coreScriptHash c).

#[export] Instance constitution_serializable : Serializable Constitution.core Constitution.t := {
  toCbor_of := Constitution.toCbor;
  fromCbor_of := Constitution.fromCbor;
  toCore_of c := Ok (Constitution.toCore c);
  fromCore_of := Constitution.fromCore;
  bytesOf c := recordBytes (constitutionFields c);
  validCore := isConstitution;
  typed _ := true
}.

Lemma constitution_fields c : isConstitution c = true -> Forall field (constitutionFields c).
Proof. intros [Ha Hh]%andb_true_iff. constructor; [exact (bytesOf_field (T := Anchor.t) _ Ha)|]. constructor; [by apply optionalHash_field|constructor]. Qed.

Lemma constitution_toCore a h ao o : isOptionalHash h = true -> standsFor a ao ->
  Constitution.toCore {| Constitution.anchor := ao; Constitution.scriptHash := h; Constitution.originalBytes := o |} = Constitution.Core a h.
Proof. intros Hh [[= Ha] _]. unfold Constitution.toCore. cbn. by rewrite Ha, optionalHash_truthy. Qed.

#[export] Instance constitution_laws : SerializableLaws Constitution.core Constitution.t.
Proof.
  split; cbn [bytesOf validCore fromCore_of fromCbor_of constitution_serializable].
  - intros c Hc. apply field_record; [done|by apply constitution_fields].
  - record_starts.
  - intros [a h] [Ha Hh]%andb_true_iff. cbn [Constitution.coreAnchor Constitution.coreScriptHash] in *. destruct (@fromCore_standsFor _ _ anchor_serializable anchor_laws a Ha) as (ao & Ea & Hao).
    change (Anchor.fromCore a = Ok ao) in Ea. exists (Constitution.new ao h). unfold Constitution.fromCore. cbn [Constitution.coreAnchor]. rewrite Ea. split; [done|]. split.
    + unfold toCore_of, constitution_serializable. f_equal. by apply constitution_toCore.
    + apply (encode_record 2 _ [_; _]); [done..|]. apply emits_fields; [by apply (@nested_emits _ _ anchor_serializable anchor_laws)|]. by apply emits_last, optionalHash_emits.
  - intros c Hc Hz. pose proof (constitution_fields c Hc) as Hf. pose proof (part_fits _ _ (anchorBytes (Constitution.coreAnchor c)) Hz ltac:(by left)) as Hs.
    destruct c as [a h]. apply andb_true_iff in Hc as [Ha Hh]. cbn [Constitution.coreAnchor Constitution.coreScriptHash] in *.
    destruct (@nested_reads _ _ anchor_serializable anchor_laws a Ha Hs) as (ao & Ra & Hao). eexists. split.
    + apply decode_completes; [done..|]. apply completes_length. eapply completes_bind; [exact Ra|]. eapply completes_bind; [by apply optionalHash_reads|]. by apply completes_end.
    + split; [unfold toCore_of, constitution_serializable; f_equal; by apply constitution_toCore|by apply cached_record].
  - apply accepts_decode. intros cbor. eapply sound_bind; [apply sound_startArray|]. intros n _. apply sound_length.
    eapply sound_bind; [apply (@nested_sound _ _ anchor_serializable anchor_laws)|]. intros ? _. eapply sound_bind; [apply sound_optionalHash|]. intros ? _.
    eapply sound_bind; [apply sound_endArray|]. intros _ _. by apply sound_ret.
Qed.

(** ** Actions that are an identifier and one part *)

(** The head of a decoder of an action, on any blob. *)
Lemma sound_actionHead {A} n k space length (m : Dec A) P : sound m P -> sound (expectLength n n length ;; expectAction k space ;; m) P.
Proof. intros Hm. apply sound_length. eapply sound_bind; [apply sound_expectAction|by intros]. Qed.

Ltac action_head := apply completes_length; eapply completes_bind; [by apply expectAction_reads|cbv beta].

Definition noConfidenceFields (a : NoConfidence.core) : list (list Z) := [intBytes 3; actionIdBytes (NoConfidence.governanceActionId a)].

#[export] Instance noConfidence_serializable : Serializable NoConfidence.core NoConfidence.t := {
  toCbor_of := NoConfidence.toCbor;
  fromCbor_of := NoConfidence.fromCbor;
  toCore_of a := Ok (NoConfidence.toCore a);
  fromCore_of a := Ok (NoConfidence.fromCore a);
  bytesOf a := recordBytes (noConfidenceFields a);
  validCore a := isActionId (NoConfidence.governanceActionId a);
  typed _ := true
}.

Lemma noConfidence_fields : forall a, validCore a = true -> Forall field (noConfidenceFields a).
Proof.
  intros a Ha. constructor; [by apply field_int|]. constructor; [by apply actionId_field|constructor].
Qed.

#[export] Instance noConfidence_laws : SerializableLaws NoConfidence.core NoConfidence.t.
Proof.
  pose proof noConfidence_fields as Hf.
  split; cbn [bytesOf validCore fromCore_of fromCbor_of noConfidence_serializable].
  - intros a Ha. apply field_record; [done|by apply Hf].
  - record_starts.
  - intros [g] Hg. eexists. split; [done|]. pose proof (actionId_fromCore g Hg) as Hs. split.
    + unfold toCore_of, noConfidence_serializable, NoConfidence.toCore. cbn. by rewrite (actionId_toCore g).
    + apply (encode_record 2 _ [_; _]); [done..|]. apply emits_fields; [by apply emits_int|]. by apply emits_last, actionId_emits.
  - intros a Ha Hz. pose proof (Hf a Ha) as Hfa. pose proof (part_fits _ _ (actionIdBytes (NoConfidence.governanceActionId a)) Hz ltac:(right; by left)) as Hs.
    destruct a as [g]. destruct (actionId_reads g Ha Hs) as (o & Ro & Ho). eexists. split.
    + apply decode_completes; [done..|]. action_head. eapply completes_bind; [exact Ro|]. apply completes_ret.
    + split; [unfold toCore_of, noConfidence_serializable, NoConfidence.toCore; cbn; by rewrite (actionId_toCore g)|by apply cached_record].
  - apply accepts_decode. intros cbor. eapply sound_bind; [apply sound_startArray|]. intros n _. apply sound_actionHead.
    eapply sound_bind; [apply sound_actionId|]. intros ? _. by apply sound_ret.
Qed.

(** Hard forks and constitutions have one more part, an embedded object. *)
Definition hardForkFields (a : HardForkInitiationAction.core) : list (list Z) :=
  [intBytes 1; actionIdBytes (HardForkInitiationAction.governanceActionId a); recordBytes (versionFields (HardForkInitiationAction.coreProtocolVersion a))].

#[export] Instance hardFork_serializable : Serializable HardForkInitiationAction.core HardForkInitiationAction.t := {
  toCbor_of := HardForkInitiationAction.toCbor;
  fromCbor_of := HardForkInitiationAction.fromCbor;
  toCore_of a := Ok (HardForkInitiationAction.toCore a);
  fromCore_of a := Ok (HardForkInitiationAction.fromCore a);
  bytesOf a := recordBytes (hardForkFields a);
  validCore a := isActionId (HardForkInitiationAction.governanceActionId a) && isVersion (HardForkInitiationAction.coreProtocolVersion a);
  typed _ := true
}.

Lemma hardFork_fields : forall a, validCore a = true -> Forall field (hardForkFields a).
Proof.
  intros a [Ha Hv]%andb_true_iff. repeat first [apply Forall_nil_2 | apply Forall_cons_2]; [by apply field_int|by apply actionId_field|]. exact (bytesOf_field (T := ProtocolVersion.t) _ Hv).
Qed.

#[export] Instance hardFork_laws : SerializableLaws HardForkInitiationAction.core HardForkInitiationAction.t.
Proof.
  pose proof hardFork_fields as Hf.
  split; cbn [bytesOf validCore fromCore_of fromCbor_of hardFork_serializable].
  - intros a Ha. apply field_record; [done|by apply Hf].
  - record_starts.
  - intros [g v] [Hg Hv]%andb_true_iff. cbn [HardForkInitiationAction.governanceActionId HardForkInitiationAction.coreProtocolVersion] in *.
    eexists. split; [done|]. pose proof (actionId_fromCore g Hg) as Hs. destruct (@fromCore_standsFor _ _ version_serializable version_laws v Hv) as (o & [= Eo] & Ho). split.
    + unfold toCore_of, hardFork_serializable, HardForkInitiationAction.toCore. cbn. rewrite (actionId_toCore g) by done. destruct Ho as [[= Ho] _]. by rewrite <- Eo in Ho; cbn in Ho; rewrite Ho.
    + apply (encode_record 3 _ [_; _; _]); [done..|]. apply emits_fields; [by apply emits_int|]. apply emits_fields; [by apply actionId_emits|].
      apply emits_last. subst o. by apply (@nested_emits _ _ version_serializable version_laws).
  - intros a Ha Hz. pose proof (Hf a Ha) as Hfa. pose proof (part_fits _ _ (actionIdBytes (HardForkInitiationAction.governanceActionId a)) Hz ltac:(right; by left)) as Hs.
    pose proof (part_fits _ _ (recordBytes (versionFields (HardForkInitiationAction.coreProtocolVersion a))) Hz ltac:(right; right; by left)) as Hs'.
    destruct a as [g v]. apply andb_true_iff in Ha as [Hg Hv]. destruct (actionId_reads g Hg Hs) as (o & Ro & Ho).
    destruct (@nested_reads _ _ version_serializable version_laws v Hv Hs') as (vo & Rv & [[= Hvo] _]). eexists. split.
    + apply decode_completes; [done..|]. action_head. eapply completes_bind; [exact Ro|]. eapply completes_bind; [exact Rv|]. apply completes_ret.
    + split; [unfold toCore_of, hardFork_serializable, HardForkInitiationAction.toCore; cbn -[ProtocolVersion.toCore]; by rewrite (actionId_toCore g), Hvo|by apply cached_record].
  - apply accepts_decode. intros cbor. eapply sound_bind; [apply sound_startArray|]. intros n _. apply sound_actionHead.
    eapply sound_bind; [apply sound_actionId|]. intros ? _. eapply sound_bind; [apply (@nested_sound _ _ version_serializable version_laws)|]. intros ? _. by apply sound_ret.
Qed.

Definition newConstitutionFields (a : NewConstitution.core) : list (list Z) :=
  [intBytes 5; actionIdBytes (NewConstitution.governanceActionId a); recordBytes (constitutionFields (NewConstitution.coreConstitution a))].

#[export] Instance newConstitution_serializable : Serializable NewConstitution.core NewConstitution.t := {
  toCbor_of := NewConstitution.toCbor;
  fromCbor_of := NewConstitution.fromCbor;
  toCore_of a := Ok (NewConstitution.toCore a);
  fromCore_of := NewConstitution.fromCore;
  bytesOf a := recordBytes (newConstitutionFields a);
  validCore a := isActionId (NewConstitution.governanceActionId a) && isConstitution (NewConstitution.coreConstitution a);
  typed _ := true
}.

Lemma newConstitution_fields : forall a, validCore a = true -> Forall field (newConstitutionFields a).
Proof.
  intros a [Ha Hv]%andb_true_iff. repeat first [apply Forall_nil_2 | apply Forall_cons_2]; [by apply field_int|by apply actionId_field|]. exact (bytesOf_field (T := Constitution.t) _ Hv).
Qed.

#[export] Instance newConstitution_laws : SerializableLaws NewConstitution.core NewConstitution.t.
Proof.
  pose proof newConstitution_fields as Hf.
  split; cbn [bytesOf validCore fromCore_of fromCbor_of newConstitution_serializable].
  - intros a Ha. apply field_record; [done|by apply Hf].
  - record_starts.
  - intros [g c] [Hg Hc]%andb_true_iff. cbn [NewConstitution.governanceActionId NewConstitution.coreConstitution] in *. pose proof (actionId_fromCore g Hg) as Hs.
    destruct (@fromCore_standsFor _ _ constitution_serializable constitution_laws c Hc) as (o & Eo & Ho). change (Constitution.fromCore c = Ok o) in Eo.
    exists (NewConstitution.new o (GovernanceActionId.fromCore <$> g)). unfold NewConstitution.fromCore. cbn [NewConstitution.coreConstitution NewConstitution.governanceActionId]. rewrite Eo. split; [done|]. split.
    + unfold toCore_of, newConstitution_serializable, NewConstitution.toCore. cbn -[Constitution.toCore]. rewrite (actionId_toCore g) by done. destruct Ho as [[= Ho] _]. by rewrite Ho.
    + apply (encode_record 3 _ [_; _; _]); [done..|]. apply emits_fields; [by apply emits_int|]. apply emits_fields; [by apply actionId_emits|].
      apply emits_last. by apply (@nested_emits _ _ constitution_serializable constitution_laws).
  - intros a Ha Hz. pose proof (Hf a Ha) as Hfa. pose proof (part_fits _ _ (actionIdBytes (NewConstitution.governanceActionId a)) Hz ltac:(right; by left)) as Hs.
    pose proof (part_fits _ _ (recordBytes (constitutionFields (NewConstitution.coreConstitution a))) Hz ltac:(right; right; by left)) as Hs'.
    destruct a as [g v]. apply andb_true_iff in Ha as [Hg Hv]. destruct (actionId_reads g Hg Hs) as (o & Ro & Ho).
    destruct (@nested_reads _ _ constitution_serializable constitution_laws v Hv Hs') as (vo & Rv & [[= Hvo] _]). eexists. split.
    + apply decode_completes; [done..|]. action_head. eapply completes_bind; [exact Ro|]. eapply completes_bind; [exact Rv|]. apply completes_ret.
    + split; [unfold toCore_of, newConstitution_serializable, NewConstitution.toCore; cbn -[Constitution.toCore]; by rewrite (actionId_toCore g), Hvo|by apply cached_record].
  - apply accepts_decode. intros cbor. eapply sound_bind; [apply sound_startArray|]. intros n _. apply sound_actionHead.
    eapply sound_bind; [apply sound_actionId|]. intros ? _. eapply sound_bind; [apply (@nested_sound _ _ constitution_serializable constitution_laws)|]. intros ? _. by apply sound_ret.
Qed.

Definition infoFields : list (list Z) := [intBytes 6].

#[export] Instance info_serializable : Serializable unit InfoAction.t := {
  toCbor_of := InfoAction.toCbor;
  fromCbor_of := InfoAction.fromCbor;
  toCore_of _ := Ok tt;
  fromCore_of _ := Ok InfoAction.new;
  bytesOf _ := recordBytes infoFields;
  validCore _ := true;
  typed _ := true
}.

#[export] Instance info_laws : SerializableLaws unit InfoAction.t.
Proof.
  assert (Hf : Forall field infoFields) by (constructor; [by apply field_int|constructor]).
  split; cbn [bytesOf validCore fromCore_of fromCbor_of info_serializable].
  - intros _ _. by apply field_record.
  - record_starts.
  - intros [] _. eexists. split; [done|]. split; [done|]. apply (encode_record 1 _ [_]); [done..|]. apply emits_last. by apply emits_int.
  - intros [] _ Hz. eexists. split.
    + apply decode_completes; [done..|]. action_head. apply completes_ret.
    + split; [done|by apply cached_record].
  - apply accepts_decode. intros cbor. eapply sound_bind; [apply sound_startArray|]. intros n _. apply sound_actionHead. by apply sound_ret.
Qed.

(** ** Parameter changes *)

Section parameters.
Context `{FractionJs}.

Definition changeFields (a : ParameterChangeAction.core) : list (list Z) :=
  [intBytes 0; actionIdBytes (ParameterChangeAction.governanceActionId a); paramsBytes (ParameterChangeAction.coreProtocolParamUpdate a);
   optionalHashBytes (ParameterChangeAction.corePolicyHash a)].
Definition isChange (a : ParameterChangeAction.core) : bool :=
  isActionId (ParameterChangeAction.governanceActionId a) && isParams (ParameterChangeAction.coreProtocolParamUpdate a)
  && isOptionalHash (ParameterChangeAction.corePolicyHash a).

#[export] Instance change_serializable : Serializable ParameterChangeAction.core ParameterChangeAction.t := {
  toCbor_of := ParameterChangeAction.toCbor;
  fromCbor_of := ParameterChangeAction.fromCbor;
  toCore_of a := Ok (ParameterChangeAction.toCore a);
  fromCore_of := ParameterChangeAction.fromCore;
  bytesOf a := recordBytes (changeFields a);
  validCore := isChange;
  typed _ := true
}.

Lemma isChange_spec a : isChange a = true -> isActionId (ParameterChangeAction.governanceActionId a) = true /\
  isParams (ParameterChangeAction.coreProtocolParamUpdate a) = true /\ isOptionalHash (ParameterChangeAction.corePolicyHash a) = true.
Proof. by intros [[? ?]%andb_true_iff ?]%andb_true_iff. Qed.

Lemma change_toCore g u h go uo b : isOptionalHash h = true -> actionIdStands g go -> ProtocolParamUpdate.toCore uo = u ->
  ParameterChangeAction.toCore {| ParameterChangeAction.protocolParamUpdate := uo; ParameterChangeAction.govActionId := go;
    ParameterChangeAction.policyHash := h; ParameterChangeAction.originalBytes := b |} = ParameterChangeAction.Core g u h.
Proof. intros Hh Hg <-. unfold ParameterChangeAction.toCore. cbn -[ProtocolParamUpdate.toCore truthyString]. by rewrite (actionId_toCore g), optionalHash_truthy. Qed.

Lemma change_fields : forall a, validCore a = true -> Forall field (changeFields a).
Proof.
  intros a (Hg & Hu & Hh)%isChange_spec. repeat first [apply Forall_nil_2 | apply Forall_cons_2];
      [by apply field_int|by apply actionId_field|by apply params_field|by apply optionalHash_field].
Qed.

#[export] Instance change_laws : SerializableLaws ParameterChangeAction.core ParameterChangeAction.t.
Proof.
  pose proof change_fields as Hf.
  split; cbn [bytesOf validCore fromCore_of fromCbor_of change_serializable].
  - intros a Ha. apply field_record; [done|by apply Hf].
  - record_starts.
  - intros [g u h] (Hg & Hu & Hh)%isChange_spec.
    cbn [ParameterChangeAction.governanceActionId ParameterChangeAction.coreProtocolParamUpdate ParameterChangeAction.corePolicyHash] in *.
    pose proof (actionId_fromCore g Hg) as Hs. destruct (@fromCore_standsFor _ _ params_serializable params_laws u Hu) as (o & Eo & Ho).
    change (ProtocolParamUpdate.fromCore u = Ok o) in Eo. exists (ParameterChangeAction.new o (GovernanceActionId.fromCore <$> g) h).
    unfold ParameterChangeAction.fromCore. cbn [ParameterChangeAction.coreProtocolParamUpdate ParameterChangeAction.governanceActionId ParameterChangeAction.corePolicyHash].
    rewrite Eo. split; [done|]. split.
    + unfold toCore_of, change_serializable. f_equal. apply change_toCore; [done..|]. by destruct Ho as [[= Ho] _].
    + apply (encode_record 4 _ [_; _; _; _]); [done..|]. apply emits_fields; [by apply emits_int|]. apply emits_fields; [by apply actionId_emits|].
      apply emits_fields; [by apply (@nested_emits _ _ params_serializable params_laws)|]. by apply emits_last, optionalHash_emits.
  - intros a Ha Hz. pose proof (Hf a Ha) as Hfa.
    pose proof (part_fits _ _ (actionIdBytes (ParameterChangeAction.governanceActionId a)) Hz ltac:(right; by left)) as Hs.
    pose proof (part_fits _ _ (paramsBytes (ParameterChangeAction.coreProtocolParamUpdate a)) Hz ltac:(right; right; by left)) as Hs'.
    destruct a as [g u h]. apply isChange_spec in Ha as (Hg & Hu & Hh). destruct (actionId_reads g Hg Hs) as (o & Ro & Ho).
    destruct (@nested_reads _ _ params_serializable params_laws u Hu Hs') as (uo & Ru & [[= Huo] _]). eexists. split.
    + apply decode_completes; [done..|]. action_head. eapply completes_bind; [exact Ro|]. eapply completes_bind; [exact Ru|].
      eapply completes_bind; [by apply optionalHash_reads|]. by apply completes_end.
    + split; [|by apply cached_record]. unfold toCore_of, change_serializable. f_equal. by apply change_toCore.
  - apply accepts_decode. intros cbor. eapply sound_bind; [apply sound_startArray|]. intros n _. apply sound_actionHead.
    eapply sound_bind; [apply sound_actionId|]. intros ? _. eapply sound_bind; [apply (@nested_sound _ _ params_serializable params_laws)|]. intros ? _.
    eapply sound_bind; [apply sound_optionalHash|]. intros ? _. eapply sound_bind; [apply sound_endArray|]. intros _ _. by apply sound_ret.
Qed.
End parameters.

(** ** Members of committees *)

Definition memberEntry (m : Credential * Z) : list Z * list Z := (credentialBytes m.1, intBytes m.2).
Definition membersBytes (l : list (Credential * Z)) : list Z := mapBytes false (map memberEntry l).
Definition isMemberEntry (m : Credential * Z) : bool := isCredential m.1 && isIndex53 m.2.
Definition areMembers (l : list (Credential * Z)) : bool := (zlen l <? 2 ^ 53) && forallb isMemberEntry l.

Lemma areMembers_spec l : areMembers l = true -> 0 <= zlen l < 2 ^ 53 /\ Forall (fun m => isCredential m.1 = true /\ isIndex53 m.2 = true) l.
Proof.
  intros [Hz Hl]%andb_true_iff. zb. pose proof (zlen_nonneg l). split; [lia|]. apply List.Forall_forall. intros m Hm.
  rewrite forallb_forall in Hl. by apply andb_true_iff, Hl.
Qed.

Lemma member_field m : isCredential m.1 = true -> isIndex53 m.2 = true -> field (memberEntry m).1 /\ field (memberEntry m).2.
Proof. intros Hc He. split; [by apply field_credential|by apply field_int, index53_spec]. Qed.

Lemma members_fields l : areMembers l = true -> Forall (fun m => field (memberEntry m).1 /\ field (memberEntry m).2) l.
Proof. intros [_ Hl]%areMembers_spec. eapply Forall_impl; [exact Hl|]. intros m [? ?]. by apply member_field. Qed.

Lemma members_field l : areMembers l = true -> field (membersBytes l).
Proof. intros Hl. apply entries_field; [by apply members_fields|]. apply areMembers_spec in Hl as [Hz _]. lia. Qed.

Lemma members_emit l : areMembers l = true -> emits (writeMembers l) (membersBytes l).
Proof.
  intros Hl. pose proof (members_fields l Hl) as Hf. apply areMembers_spec in Hl as [Hz Hl]. unfold writeMembers, membersBytes, mapBytes. rewrite zlen_map.
  apply emits_bind; [apply emits_call, writeTypeValue_head; lia|]. apply emits_forEach. rewrite map_map. clear Hf Hz.
  induction Hl as [|m l [Hc He] _ IH]; constructor; [|done]. apply emits_bind; [by apply emits_credential|by apply emits_int, index53_spec].
Qed.

Lemma member_reads readType length m : isCredential m.1 = true -> isIndex53 m.2 = true ->
  reads readType (intBytes (Credential.type m.1)) (Credential.type m.1) -> readsN 2 (readMemberWith readType length) (entryBytes (memberEntry m)) m.
Proof.
  intros Hc He Ht. pose proof Hc as [_ Hh]%andb_true_iff. destruct m as [c e]. cbn [fst snd] in *.
  eapply (readsN_ext 2 _ (c ← (n ← call readStartArray;
    st_guard (negb (bool_decide (n = Some 2))) (InvalidArgumentError "cbor" ("Expected an array of 2 elements, but got an array of " +:+ lengthText length +:+ " elements")) ;;
    type ← readType; hash ← readHex; call readEndArray ;; mret (Build_Credential hash type)); epoch ← readUIntNumber; mret (c, epoch))).
  { intros r. unfold readMemberWith, CREDENTIAL_ARRAY_SIZE. same_program. }
  apply (readsN_bind 1 1 _ _ _ _ c); [lia|lia| |by apply (reads_fmap 1 _ (fun epoch => (c, epoch))), readUIntNumber_reads].
  eapply (reads_record 2 _ (t ← readType; h ← readHex; mret (Build_Credential h t))); [done| |].
  - apply (readsN_bind 1 1 _ _ _ _ (Credential.type c)); [done..|]. eapply reads_last; [by apply (readHex_reads 56)|]. intros r. by destruct c.
  - intros r. rewrite st_guard_ok by done. same_program.
Qed.

Lemma members_read readType length l : areMembers l = true ->
  Forall (fun m : Credential * Z => reads readType (intBytes (Credential.type m.1)) (Credential.type m.1)) l ->
  reads (readMapOf (readMemberWith readType length)) (membersBytes l) l.
Proof.
  intros Hl Ht. apply entries_reads; [by apply members_fields|apply areMembers_spec in Hl as [Hz _]; lia|].
  apply areMembers_spec in Hl as [_ Hl]. rewrite List.Forall_forall in Hl, Ht |- *. intros m Hm. destruct (Hl m Hm). apply member_reads; [done..|by apply Ht].
Qed.

Lemma type_index53 c : isCredential c = true -> isIndex53 (Credential.type c) = true.
Proof. intros [Ht _]%andb_true_iff. apply orb_true_iff in Ht as [Ht|Ht]; apply Z.eqb_eq in Ht; by rewrite Ht. Qed.

Lemma types_read l : areMembers l = true -> Forall (fun m : Credential * Z => reads readCredentialType (intBytes (Credential.type m.1)) (Credential.type m.1)) l /\
  Forall (fun m : Credential * Z => reads readUIntNumber (intBytes (Credential.type m.1)) (Credential.type m.1)) l.
Proof.
  intros [_ Hl]%areMembers_spec. split; (eapply Forall_impl; [exact Hl|]); intros m [Hc _].
  - apply andb_true_iff in Hc as [Ht _]. by apply readCredentialType_reads.
  - by apply readUIntNumber_reads, type_index53.
Qed.

Lemma sound_members readType length : sound readType (fun _ => True) -> sound (readMapOf (readMemberWith readType length)) (fun _ => True).
Proof.
  intros Ht. eapply (sound_weaken _ (Forall (fun _ => True))); [|done]. apply sound_map. eapply (advances_bind _ _ (fun _ => True)).
  - intros r Hw. eapply runs_impl; [eapply enter_runs; [apply readStartArray_enters|done]|done].
  - intros n _. apply sound_guard. intros _. eapply sound_bind; [exact Ht|]. intros ty _. eapply sound_bind; [apply sound_hex|]. intros h _.
    eapply sound_bind; [apply sound_endArray|]. intros _ _. eapply sound_bind; [apply sound_uintNumber|]. intros e _. by apply sound_ret.
Qed.

(** ** Committees *)

(** A new member is added at the end. *)
Lemma isMember_spec c m : Committee.isMember c m = true <-> m.1 = c.
Proof.
  unfold Committee.isMember. rewrite andb_true_iff, Z.eqb_eq, String.eqb_eq. destruct c as [h t], m as [[h' t'] e]. cbn. split; [by intros [-> ->]|by intros [= -> ->]].
Qed.

Lemma addMember_new c credential epoch : credential ∉ (Committee.committeeColdCredentials c).*1 ->
  Committee.addMember c credential epoch = Ok {| Committee.quorumThreshold := Committee.quorumThreshold c;
    Committee.committeeColdCredentials := Committee.committeeColdCredentials c ++ [(credential, epoch)]; Committee.originalBytes := Committee.originalBytes c |}.
Proof.
  intros Hn. unfold Committee.addMember. destruct (find _ _) as [m|] eqn:E; [|done]. apply find_some in E as [Hin Hm%isMember_spec].
  exfalso. apply Hn. apply list_elem_of_fmap. exists m. by split; [|apply list_elem_of_In].
Qed.

Lemma addMembers_new l c : NoDup ((Committee.committeeColdCredentials c).*1 ++ l.*1) ->
  Committee.addMembers c l = Ok {| Committee.quorumThreshold := Committee.quorumThreshold c;
    Committee.committeeColdCredentials := Committee.committeeColdCredentials c ++ l; Committee.originalBytes := Committee.originalBytes c |}.
Proof.
  revert c. induction l as [|[x e] l IH]; intros c Hd; [cbn; rewrite app_nil_r; by destruct c|]. cbn [Committee.addMembers fst snd].
  rewrite addMember_new by (intros Hin; apply NoDup_app in Hd as (_ & Hd & _); by apply (Hd _ Hin), list_elem_of_here).
  cbn [mbind outcome_bind]. rewrite IH; cbn [Committee.committeeColdCredentials Committee.quorumThreshold Committee.originalBytes].
  - by rewrite <- app_assoc.
  - rewrite fmap_app. by rewrite <- app_assoc.
Qed.

(** A credential is a member at most once, whatever is added. *)
Lemma addMembers_distinct l c c' : NoDup (Committee.committeeColdCredentials c).*1 -> Committee.addMembers c l = Ok c' -> NoDup (Committee.committeeColdCredentials c').*1.
Proof.
  revert c. induction l as [|[x e] l IH]; intros c Hd; [by intros [= <-]|]. cbn [Committee.addMembers fst snd]. unfold Committee.addMember.
  destruct (find _ _) as [m|] eqn:E; [done|]. cbn [mbind outcome_bind]. apply IH. cbn [Committee.committeeColdCredentials]. rewrite fmap_app.
  apply NoDup_app. split; [done|]. split; [|apply NoDup_singleton]. intros y Hy ->%list_elem_of_singleton. apply list_elem_of_fmap in Hy as (m & Ex & Hm).
  pose proof (find_none _ _ E m (proj1 (list_elem_of_In _ _) Hm)) as Hf. apply not_true_iff_false in Hf. by apply Hf, isMember_spec.
Qed.

Definition committeeFields (c : Committee.core) : list (list Z) := [membersBytes (Committee.members c); intervalBytes (Committee.coreQuorumThreshold c)].
Definition isCommittee (c : Committee.core) : bool :=
  (areMembers (Committee.members c) && isInterval (Committee.coreQuorumThreshold c))
  && (bool_decide (NoDup (Committee.members c).*1) && (0 <? zlen (Committee.members c))).

Lemma isCommittee_spec c : isCommittee c = true -> areMembers (Committee.members c) = true /\ isInterval (Committee.coreQuorumThreshold c) = true /\
  NoDup (Committee.members c).*1 /\ 0 < zlen (Committee.members c).
Proof. intros [[? ?]%andb_true_iff [Hd%bool_decide_eq_true Hz]%andb_true_iff]%andb_true_iff. zb. done. Qed.

#[export] Instance committee_serializable : Serializable Committee.core Committee.t := {
  toCbor_of := Committee.toCbor;
  fromCbor_of := Committee.fromCbor;
  toCore_of := Committee.toCore;
  fromCore_of := Committee.fromCore;
  bytesOf c := recordBytes (committeeFields c);
  validCore := isCommittee;
  typed c := bool_decide (NoDup (Committee.committeeColdCredentials c).*1)
}.

#[export] Instance committee_laws : SerializableLaws Committee.core Committee.t.
Proof.
  assert (Hf : forall c : Committee.core, validCore c = true -> Forall field (committeeFields c)).
  { intros c (Hm & Hq & _)%isCommittee_spec. repeat first [apply Forall_nil_2 | apply Forall_cons_2]; [by apply members_field|by apply interval_field]. }
  split; cbn [bytesOf validCore fromCore_of fromCbor_of committee_serializable].
  - intros c Hc. apply field_record; [done|by apply Hf].
  - record_starts.
  - intros [l q] (Hm & Hq & Hd & Hz)%isCommittee_spec. cbn [Committee.members Committee.coreQuorumThreshold] in *.
    destruct (@fromCore_standsFor _ _ interval_serializable interval_laws q Hq) as (o & [= Eo] & Ho).
    exists (Committee.Build_t o l None). unfold Committee.fromCore. cbn [Committee.members Committee.coreQuorumThreshold]. rewrite Eo, addMembers_new by done.
    split; [done|]. split.
    + unfold toCore_of, committee_serializable, Committee.toCore. cbn [Committee.committeeColdCredentials Committee.quorumThreshold].
      rewrite (proj2 (Z.eqb_neq _ _)) by lia. destruct Ho as [[= Ho] _]. by rewrite Ho.
    + unfold toCbor_of, committee_serializable, Committee.toCbor. cbn [cached remembered Committee.originalBytes Committee.committeeColdCredentials].
      rewrite (proj2 (Z.eqb_neq _ _)) by lia. apply (encode_record 2 _ [_; _]); [done..|]. apply emits_fields; [by apply members_emit|].
      apply emits_last. by apply (@nested_emits _ _ interval_serializable interval_laws).
  - intros c Hc Hz. pose proof (Hf c Hc) as Hfc. pose proof (part_fits _ _ (intervalBytes (Committee.coreQuorumThreshold c)) Hz ltac:(right; by left)) as Hs.
    destruct c as [l q]. apply isCommittee_spec in Hc as (Hm & Hq & Hd & Hl). cbn [Committee.members Committee.coreQuorumThreshold] in *.
    destruct (@nested_reads _ _ interval_serializable interval_laws q Hq Hs) as (o & Ro & [[= Ho] _]). eexists. split.
    + apply decode_completes; [done..|]. apply completes_length. eapply completes_bind; [by apply members_read; [|apply types_read]|].
      eapply completes_bind; [exact Ro|]. eapply completes_lift; [by apply addMembers_new|]. apply completes_ret.
    + split; [|by apply cached_record]. unfold toCore_of, committee_serializable, Committee.toCore.
      cbn [Committee.members Committee.coreQuorumThreshold Committee.committeeColdCredentials Committee.quorumThreshold Committee.new app].
      rewrite (proj2 (Z.eqb_neq _ _)) by lia. by rewrite Ho.
  - apply accepts_decode. intros cbor. eapply sound_bind; [apply sound_startArray|]. intros n _. apply sound_length.
    eapply sound_bind; [apply sound_members; by eapply sound_any, sound_credentialType|]. intros l _.
    eapply sound_bind; [apply (@nested_sound _ _ interval_serializable interval_laws)|]. intros q _.
    eapply (sound_bind _ _ (fun c => NoDup (Committee.committeeColdCredentials c).*1)).
    + apply sound_lift; [|intros c; apply addMembers_distinct; constructor].
      assert (Ha : forall l c, Committee.addMembers c l <> OutOfFuel); [|apply Ha]. clear. induction l as [|[x e] l IH]; intros c; [done|].
      cbn [Committee.addMembers]. unfold Committee.addMember. destruct (find _ _); [done|apply IH].
    + intros c Hc. apply sound_ret. cbn. by apply bool_decide_eq_true.
Qed.

(** ** Updates of committees *)

#[export] Instance credential_serializable : Serializable Credential Credential := {
  toCbor_of := Credential_toCbor;
  fromCbor_of := Credential_fromCbor;
  toCore_of c := Ok c;
  fromCore_of c := Ok c;
  bytesOf := credentialBytes;
  validCore := isCredential;
  typed _ := true
}.

#[export] Instance credential_laws : SerializableLaws Credential Credential.
Proof.
  assert (Hc : forall c, isCredential c = true -> (Credential.type c =? 0) || (Credential.type c =? 1) = true /\ isBlob (hash c) = true /\ zlen (Buffer_from_hex (hash c)) < 2 ^ 53).
  { intros c [Ht Hh]%andb_true_iff. destruct (isHash_spec _ _ Hh) as (Hb & _ & Hz). split_and!; [done|done|lia]. }
  split; cbn [bytesOf validCore fromCore_of fromCbor_of credential_serializable].
  - apply field_credential.
  - intros c _. apply (starts_not_null Array); [done|]. by apply starts_head.
  - intros c Hv. destruct (Hc c Hv) as (Ht & Hb & Hz). exists c. split; [done|]. split; [done|]. by apply Credential_toCbor_exact.
  - intros c Hv Hz. destruct (Hc c Hv) as (Ht & Hb & Hz'). exists c. split; [by apply Credential_fromCbor_exact|]. split; [done|]. by apply Credential_toCbor_exact.
  - intros cbor Hz. split; [by apply Credential_ends|done].
Qed.

Section era.
Context `{Era}.

Definition updateCommitteeFields (a : UpdateCommittee.core) : list (list Z) :=
  [intBytes 4; actionIdBytes (UpdateCommittee.governanceActionId a); setBytes (T := Credential) (UpdateCommittee.coreMembersToBeRemoved a);
   membersBytes (UpdateCommittee.coreMembersToBeAdded a); intervalBytes (UpdateCommittee.newQuorumThreshold a)].
Definition isCommitteeUpdate (a : UpdateCommittee.core) : bool :=
  (isActionId (UpdateCommittee.governanceActionId a) && validList (T := Credential) (UpdateCommittee.coreMembersToBeRemoved a))
  && (areMembers (UpdateCommittee.coreMembersToBeAdded a) && isInterval (UpdateCommittee.newQuorumThreshold a)).

Lemma isCommitteeUpdate_spec a : isCommitteeUpdate a = true -> isActionId (UpdateCommittee.governanceActionId a) = true /\
  validList (T := Credential) (UpdateCommittee.coreMembersToBeRemoved a) = true /\ areMembers (UpdateCommittee.coreMembersToBeAdded a) = true /\
  isInterval (UpdateCommittee.newQuorumThreshold a) = true.
Proof. by intros [[? ?]%andb_true_iff [? ?]%andb_true_iff]%andb_true_iff. Qed.

#[export] Instance updateCommittee_serializable : Serializable UpdateCommittee.core UpdateCommittee.t := {
  toCbor_of := UpdateCommittee.toCbor;
  fromCbor_of := UpdateCommittee.fromCbor;
  toCore_of a := Ok (UpdateCommittee.toCore a);
  fromCore_of a := Ok (UpdateCommittee.fromCore a);
  bytesOf a := recordBytes (updateCommitteeFields a);
  validCore := isCommitteeUpdate;
  typed _ := true
}.

(** The set of credentials and its core value are the same list. *)
Lemma credentialSet_values (l : list Credential) (s : CborSet.t Credential) : standsFor l s -> CborSet.values s = l.
Proof.
  intros [Hl _]. unfold toCore_of, set_serializable, CborSet.toCore in Hl.
  assert (E : forall v : list Credential, mapM (toCore_of (C := Credential)) v = Ok v); [|congruence].
  clear. induction v as [|c v IH]; [done|]. cbn. change (mapM (fun c : Credential => (Ok c : Res Credential)) v = Ok v) in IH. cbn in IH. by rewrite IH.
Qed.

Lemma credentialSet_fromCore (l : list Credential) : validList (T := Credential) l = true -> standsFor l (CborSet.new l).
Proof.
  intros Hl. destruct (@fromCore_standsFor _ _ set_serializable set_laws l Hl) as (s & Es & Hs). unfold fromCore_of, set_serializable, CborSet.fromCore in Es.
  assert (E : mapM (fromCore_of (C := Credential) (T := Credential)) l = Ok l).
  { clear. induction l as [|c v IH]; [done|]. cbn. change (mapM (fun c : Credential => (Ok c : Res Credential)) v = Ok v) in IH. cbn in IH. by rewrite IH. }
  rewrite E in Es. cbn in Es. injection Es as <-. exact Hs.
Qed.

Lemma updateCommittee_fields : forall a, validCore a = true -> Forall field (updateCommitteeFields a).
Proof.
  intros a (Hg & Hr & Hm & Hq)%isCommitteeUpdate_spec. repeat first [apply Forall_nil_2 | apply Forall_cons_2];
      [by apply field_int|by apply actionId_field|by apply set_field|by apply members_field|by apply interval_field].
Qed.

#[export] Instance updateCommittee_laws : SerializableLaws UpdateCommittee.core UpdateCommittee.t.
Proof.
  pose proof updateCommittee_fields as Hf.
  split; cbn [bytesOf validCore fromCore_of fromCbor_of updateCommittee_serializable].
  - intros a Ha. apply field_record; [done|by apply Hf].
  - record_starts.
  - intros [g r l q] (Hg & Hr & Hm & Hq)%isCommitteeUpdate_spec.
    cbn [UpdateCommittee.governanceActionId UpdateCommittee.coreMembersToBeRemoved UpdateCommittee.coreMembersToBeAdded UpdateCommittee.newQuorumThreshold] in *.
    pose proof (actionId_fromCore g Hg) as Hs. pose proof (@nested_emits _ _ set_serializable set_laws r _ Hr (credentialSet_fromCore r Hr)) as Hw.
    destruct (@fromCore_standsFor _ _ interval_serializable interval_laws q Hq) as (o & [= Eo] & Ho). eexists. split; [done|]. split.
    + unfold toCore_of, updateCommittee_serializable, UpdateCommittee.toCore. cbn -[UnitInterval.toCore UnitInterval.fromCore]. rewrite (actionId_toCore g) by done.
      rewrite Eo. destruct Ho as [[= Ho] _]. by rewrite Ho.
    + apply (encode_record 5 _ [_; _; _; _; _]); [done..|]. apply emits_fields; [by apply emits_int|]. apply emits_fields; [by apply actionId_emits|].
      apply emits_fields; [exact Hw|]. apply emits_fields; [by apply members_emit|].
      apply emits_last. cbn [UpdateCommittee.newQuorum UpdateCommittee.fromCore UpdateCommittee.new UpdateCommittee.newQuorumThreshold]. rewrite Eo.
      by apply (@nested_emits _ _ interval_serializable interval_laws).
  - intros a Ha Hz. pose proof (Hf a Ha) as Hfa.
    assert (Hp : forall l, In l (updateCommitteeFields a) -> zlen l < 2 ^ 53) by by intros; eapply part_fits.
    destruct a as [g r l q]. apply isCommitteeUpdate_spec in Ha as (Hg & Hr & Hm & Hq).
    cbn [UpdateCommittee.governanceActionId UpdateCommittee.coreMembersToBeRemoved UpdateCommittee.coreMembersToBeAdded UpdateCommittee.newQuorumThreshold] in *.
    destruct (actionId_reads g Hg) as (go & Rg & Hgo); [apply Hp; cbn; tauto|].
    destruct (@nested_reads _ _ set_serializable set_laws r Hr) as (rs & Rr & Hrs); [apply Hp; cbn; tauto|].
    destruct (@nested_reads _ _ interval_serializable interval_laws q Hq) as (o & Ro & [[= Ho] _]); [apply Hp; cbn; tauto|]. eexists. split.
    + apply decode_completes; [done..|]. action_head. eapply completes_bind; [exact Rg|]. eapply completes_bind; [exact Rr|].
      eapply completes_bind; [by apply members_read; [|apply types_read]|]. eapply completes_bind; [exact Ro|]. apply completes_ret.
    + split; [|by apply cached_record]. unfold toCore_of, updateCommittee_serializable, UpdateCommittee.toCore. cbn -[UnitInterval.toCore].
      by rewrite (actionId_toCore g), Ho, (credentialSet_values r).
  - apply accepts_decode. intros cbor. eapply sound_bind; [apply sound_startArray|]. intros n _. apply sound_actionHead.
    eapply sound_bind; [apply sound_actionId|]. intros ? _. eapply sound_bind; [exact (nested_sound (C := list Credential) (T := CborSet.t Credential))|]. intros ? _.
    eapply sound_bind; [apply sound_members, sound_uintNumber|]. intros ? _.
    eapply sound_bind; [apply (@nested_sound _ _ interval_serializable interval_laws)|]. intros ? _. by apply sound_ret.
Qed.
End era.

(** ** Withdrawals from the treasury *)

Section treasury.
Context `{Crc32} {CL : Crc32Laws} `{BaseEncoding} {BE : Bech32Ends}.

Definition withdrawalEntry (w : string * Z) : list Z * list Z := (accountBytes w.1, intBytes w.2).
Definition withdrawalsBytes (l : list (string * Z)) : list Z := mapBytes false (map withdrawalEntry l).
Definition isWithdrawal (w : string * Z) : bool := isRewardText w.1 && isInt64 w.2.

(** Withdrawals of different accounts, in the order of their texts. *)
Definition areWithdrawals (l : list (string * Z)) : bool :=
  ((zlen l <? 2 ^ 53) && forallb isWithdrawal l)
  && (bool_decide (NoDup l.*1) && bool_decide (sort_by TreasuryWithdrawalsAction.entryGreater l = l)).

Lemma areWithdrawals_spec l : areWithdrawals l = true -> 0 <= zlen l < 2 ^ 53 /\ Forall (fun w => isRewardText w.1 = true /\ isInt64 w.2 = true) l /\
  JsMap.of_entries l = l /\ sort_by TreasuryWithdrawalsAction.entryGreater l = l.
Proof.
  intros [[Hz Hl]%andb_true_iff [Hd%bool_decide_eq_true Hs%bool_decide_eq_true]%andb_true_iff]%andb_true_iff. zb. pose proof (zlen_nonneg l).
  split_and!; [lia|lia| |by apply JsMapFacts.of_entries_nodup|done]. apply List.Forall_forall. intros w Hw. rewrite forallb_forall in Hl. by apply andb_true_iff, Hl.
Qed.

Lemma withdrawals_fields l : areWithdrawals l = true -> Forall (fun w => field (withdrawalEntry w).1 /\ field (withdrawalEntry w).2) l.
Proof. intros (_ & Hl & _)%areWithdrawals_spec. eapply Forall_impl; [exact Hl|]. intros w [? ?]. split; [by apply account_field|by apply field_int]. Qed.

Lemma withdrawals_field l : areWithdrawals l = true -> field (withdrawalsBytes l).
Proof. intros Hl. apply entries_field; [by apply withdrawals_fields|]. apply areWithdrawals_spec in Hl as [Hz _]. lia. Qed.

Lemma withdrawals_emit l : areWithdrawals l = true ->
  emits (call (CborWriter.writeStartMap (Some (zlen l))) ;; forEach TreasuryWithdrawalsAction.writeWithdrawal l) (withdrawalsBytes l).
Proof.
  intros Hl. apply entries_emits; [apply areWithdrawals_spec in Hl as [Hz _]; lia|].
  apply areWithdrawals_spec in Hl as (_ & Hl & _). eapply Forall_impl; [exact Hl|]. intros w [Ha Hq].
  eapply emits_lift; [by apply account_exact|]. apply emits_bind; [|by apply emits_int]. by apply account_string.
Qed.

Lemma withdrawals_read l : areWithdrawals l = true -> reads (readMapOf TreasuryWithdrawalsAction.readWithdrawal) (withdrawalsBytes l) l.
Proof.
  intros Hl. apply entries_reads; [by apply withdrawals_fields|apply areWithdrawals_spec in Hl as [Hz _]; lia|].
  apply areWithdrawals_spec in Hl as (_ & Hl & _). eapply Forall_impl; [exact Hl|]. intros [a q] [Ha Hq].
  apply (readsN_bind 1 1 _ _ _ _ a); [lia|lia|by apply account_reads|]. by apply (reads_fmap 1 _ (fun q => (a, q))), reads_int.
Qed.

Lemma sound_withdrawals : sound (readMapOf TreasuryWithdrawalsAction.readWithdrawal) (Forall (fun w => isInt64 w.2 = true)).
Proof.
  apply sound_map. eapply (advances_bind _ _ (fun _ => True)); [apply advances_account|]. intros a _.
  eapply sound_bind; [apply sound_int|]. intros q Hq. by apply sound_ret.
Qed.

Definition treasuryFields (a : TreasuryWithdrawalsAction.core) : list (list Z) :=
  [intBytes 2; withdrawalsBytes (TreasuryWithdrawalsAction.coreWithdrawals a); optionalHashBytes (TreasuryWithdrawalsAction.corePolicyHash a)].
Definition isTreasury (a : TreasuryWithdrawalsAction.core) : bool :=
  areWithdrawals (TreasuryWithdrawalsAction.coreWithdrawals a) && isOptionalHash (TreasuryWithdrawalsAction.corePolicyHash a).

#[export] Instance treasury_serializable : Serializable TreasuryWithdrawalsAction.core TreasuryWithdrawalsAction.t := {
  toCbor_of := TreasuryWithdrawalsAction.toCbor;
  fromCbor_of := TreasuryWithdrawalsAction.fromCbor;
  toCore_of a := Ok (TreasuryWithdrawalsAction.toCore a);
  fromCore_of a := Ok (TreasuryWithdrawalsAction.fromCore a);
  bytesOf a := recordBytes (treasuryFields a);
  validCore := isTreasury;
  typed _ := true
}.

Lemma treasury_fields : forall a, validCore a = true -> Forall field (treasuryFields a).
Proof.
  intros a [Hw Hh]%andb_true_iff. repeat first [apply Forall_nil_2 | apply Forall_cons_2]; [by apply field_int|by apply withdrawals_field|by apply optionalHash_field].
Qed.

#[export] Instance treasury_laws : SerializableLaws TreasuryWithdrawalsAction.core TreasuryWithdrawalsAction.t.
Proof.
  pose proof treasury_fields as Hf.
  split; cbn [bytesOf validCore fromCore_of fromCbor_of treasury_serializable].
  - intros a Ha. apply field_record; [done|by apply Hf].
  - record_starts.
  - intros [l h] [Hw Hh]%andb_true_iff. cbn [TreasuryWithdrawalsAction.coreWithdrawals TreasuryWithdrawalsAction.corePolicyHash] in *.
    pose proof (areWithdrawals_spec l Hw) as (_ & _ & Hd & Hs). exists (TreasuryWithdrawalsAction.new l h). unfold TreasuryWithdrawalsAction.fromCore.
    cbn [TreasuryWithdrawalsAction.coreWithdrawals TreasuryWithdrawalsAction.corePolicyHash]. rewrite Hd. split; [done|]. split.
    + unfold toCore_of, treasury_serializable, TreasuryWithdrawalsAction.toCore. cbn [TreasuryWithdrawalsAction.withdrawals TreasuryWithdrawalsAction.policyHash TreasuryWithdrawalsAction.new].
      by rewrite optionalHash_truthy.
    + unfold toCbor_of, treasury_serializable, TreasuryWithdrawalsAction.toCbor.
      cbn [cached remembered TreasuryWithdrawalsAction.withdrawals TreasuryWithdrawalsAction.policyHash TreasuryWithdrawalsAction.originalBytes TreasuryWithdrawalsAction.new].
      rewrite Hs, Hd. apply (encode_record 3 _ [_; _; _]); [done..|]. apply emits_fields; [by apply emits_int|].
      apply emits_fields; [by apply withdrawals_emit|]. by apply emits_last, optionalHash_emits.
  - intros a Ha Hz. pose proof (Hf a Ha) as Hfa. destruct a as [l h]. apply andb_true_iff in Ha as [Hw Hh].
    cbn [TreasuryWithdrawalsAction.coreWithdrawals TreasuryWithdrawalsAction.corePolicyHash] in *. eexists. split.
    + apply decode_completes; [done..|]. action_head. eapply completes_bind; [by apply withdrawals_read|].
      eapply completes_bind; [by apply optionalHash_reads|]. by apply completes_end.
    + split; [|by apply cached_record]. unfold toCore_of, treasury_serializable, TreasuryWithdrawalsAction.toCore.
      cbn [TreasuryWithdrawalsAction.withdrawals TreasuryWithdrawalsAction.policyHash TreasuryWithdrawalsAction.coreWithdrawals TreasuryWithdrawalsAction.corePolicyHash].
      destruct (areWithdrawals_spec l Hw) as (_ & _ & Hd & _).
      by rewrite Hd, optionalHash_truthy.
  - apply accepts_decode. intros cbor. eapply sound_bind; [apply sound_startArray|]. intros n _. apply sound_actionHead.
    eapply sound_bind; [apply sound_withdrawals|]. intros l _. eapply sound_bind; [apply sound_optionalHash|]. intros ? _.
    eapply sound_bind; [apply sound_endArray|]. intros _ _. by apply sound_ret.
Qed.
End treasury.

(** ** Procedures *)

Section procedure.
Context `{Era} `{Crc32} {CL : Crc32Laws} `{BaseEncoding} {BE : Bech32Ends} `{FractionJs}.

Import ProposalProcedure.

Definition actionKind (a : coreAction) : Z :=
  match a with
  | parameter_change_action _ => 0 | hard_fork_initiation_action _ => 1 | treasury_withdrawals_action _ => 2 | no_confidence _ => 3
  | update_committee _ => 4 | new_constitution _ => 5 | info_action => 6
  end.

(** The array of an action. *)
Definition coreActionFields (a : coreAction) : list (list Z) :=
  match a with
  | parameter_change_action a => changeFields a
  | hard_fork_initiation_action a => hardForkFields a
  | treasury_withdrawals_action a => treasuryFields a
  | no_confidence a => noConfidenceFields a
  | update_committee a => updateCommitteeFields a
  | new_constitution a => newConstitutionFields a
  | info_action => infoFields
  end.
Definition coreActionBytes (a : coreAction) : list Z := recordBytes (coreActionFields a).

Definition isCoreAction (a : coreAction) : bool :=
  match a with
  | parameter_change_action a => isChange a
  | hard_fork_initiation_action a => validCore a
  | treasury_withdrawals_action a => isTreasury a
  | no_confidence a => validCore a
  | update_committee a => isCommitteeUpdate a
  | new_constitution a => validCore a
  | info_action => true
  end.

Lemma coreAction_kind a : exists fs, coreActionFields a = intBytes (actionKind a) :: fs.
Proof. by destruct a; eexists. Qed.

Lemma coreAction_count a : zlen (coreActionFields a) < 2 ^ 53.
Proof. by destruct a. Qed.

Definition actionStands (a : coreAction) (o : action) : Prop := actionToCore o = a /\ actionToCbor o = Ok (Buffer_to_hex (coreActionBytes a)).

(** What the laws of a class say of its constructor. *)
Lemma action_made {C T} `{SerializableLaws C T} (a : C) (ca : coreAction) (con : T -> action) (f : C -> Res T) :
  validCore a = true -> coreActionBytes ca = bytesOf a -> (forall o, toCore_of o = Ok a -> actionToCore (con o) = ca) ->
  (forall o, actionToCbor (con o) = toCbor_of o) -> (forall c, f c = fromCore_of c) -> exists o, (x ← f a; Ok (con x)) = Ok o /\ actionStands ca o.
Proof.
  intros Ha Eb Hc Hw Hf. destruct (fromCore_standsFor a Ha) as (o & Eo & Ho & Hb). exists (con o). rewrite Hf, Eo. split; [done|].
  split; [by apply Hc|]. by rewrite Hw, Eb.
Qed.

Lemma action_parsed {C T} `{SerializableLaws C T} (a : C) (ca : coreAction) (con : T -> action) (f : HexBlob -> Res T) :
  validCore a = true -> coreActionBytes ca = bytesOf a -> (forall o, toCore_of o = Ok a -> actionToCore (con o) = ca) ->
  (forall o, actionToCbor (con o) = toCbor_of o) -> (forall c, f c = fromCbor_of c) -> zlen (bytesOf a) < 2 ^ 53 ->
  exists o, (x ← f (Buffer_to_hex (coreActionBytes ca)); Ok (con x)) = Ok o /\ actionStands ca o.
Proof.
  intros Ha Eb Hc Hw Hf Hz. destruct (fromCbor_standsFor a Ha Hz) as (o & Eo & Ho & Hb). exists (con o). rewrite Hf, Eb, Eo. split; [done|].
  split; [by apply Hc|]. by rewrite Hw, Eb.
Qed.

Ltac made laws a con f := refine (@action_made _ _ _ laws a _ con f _ _ _ _ _); [done|done|first [by intros o [= <-]|by intros o _]|done|done].
Ltac parsed laws a con f := refine (@action_parsed _ _ _ laws a _ con f _ _ _ _ _ _); [done|done|first [by intros o [= <-]|by intros o _]|done|done|done].

Lemma action_fromCore a : isCoreAction a = true -> exists o, actionFromCore a = Ok o /\ actionStands a o.
Proof.
  destruct a as [a|a|a|a|a|a|]; intros Ha.
  - made change_laws a parameterChangeAction ParameterChangeAction.fromCore.
  - made hardFork_laws a hardForkInitiationAction (fun c => Ok (HardForkInitiationAction.fromCore c) : Res HardForkInitiationAction.t).
  - made treasury_laws a treasuryWithdrawalsAction (fun c => Ok (TreasuryWithdrawalsAction.fromCore c) : Res TreasuryWithdrawalsAction.t).
  - made noConfidence_laws a noConfidence (fun c => Ok (NoConfidence.fromCore c) : Res NoConfidence.t).
  - made updateCommittee_laws a updateCommittee (fun c => Ok (UpdateCommittee.fromCore c) : Res UpdateCommittee.t).
  - made newConstitution_laws a newConstitution NewConstitution.fromCore.
  - made info_laws tt infoAction (fun _ : unit => Ok InfoAction.new : Res InfoAction.t).
Qed.

(** The decoder the kind selects. *)
Lemma action_decodes a : isCoreAction a = true -> zlen (coreActionBytes a) < 2 ^ 53 ->
  exists o, actionFromCbor (actionKind a) (Buffer_to_hex (coreActionBytes a)) = Ok o /\ actionStands a o.
Proof.
  intros Ha Hz. destruct a as [a|a|a|a|a|a|].
  - parsed change_laws a parameterChangeAction ParameterChangeAction.fromCbor.
  - parsed hardFork_laws a hardForkInitiationAction HardForkInitiationAction.fromCbor.
  - parsed treasury_laws a treasuryWithdrawalsAction TreasuryWithdrawalsAction.fromCbor.
  - parsed noConfidence_laws a noConfidence NoConfidence.fromCbor.
  - parsed updateCommittee_laws a updateCommittee UpdateCommittee.fromCbor.
  - parsed newConstitution_laws a newConstitution NewConstitution.fromCbor.
  - parsed info_laws tt infoAction InfoAction.fromCbor.
Qed.

Lemma coreAction_fields a : isCoreAction a = true -> Forall field (coreActionFields a) /\ isSafe (actionKind a) = true.
Proof.
  destruct a as [a|a|a|a|a|a|]; intros Ha; split; try done.
  - by apply change_fields.
  - by apply hardFork_fields.
  - by apply treasury_fields.
  - by apply noConfidence_fields.
  - by apply updateCommittee_fields.
  - by apply newConstitution_fields.
  - constructor; [by apply field_int|constructor].
Qed.

Lemma action_readKind a : isCoreAction a = true -> zlen (coreActionBytes a) < 2 ^ 53 ->
  decode readActionKind (Buffer_to_hex (coreActionBytes a)) = Ok (actionKind a).
Proof.
  intros Ha Hz. unfold coreActionBytes in *. destruct (coreAction_fields a Ha) as [Hf Hk], (coreAction_kind a) as [fs Ef]. pose proof (coreAction_count a) as Hn. rewrite Ef in *.
  pose proof (zlen_nonneg fs). apply decode_completes; [|exact Hf|exact Hz|by apply completes_last, readNumber_reads].
  rewrite zlen_cons in *. lia.
Qed.

(** Whatever the kind, the decoder ends. *)
Lemma action_accepts kind : accepts (actionFromCbor kind) (fun _ => True).
Proof.
  intros cbor Hz. unfold actionFromCbor. repeat match goal with |- context [if ?b then _ else _] => destruct b end; [..|done].
  all: match goal with |- ?o <> OutOfFuel /\ (forall v, ?o = Ok v -> ?P) =>
    match o with (mbind (fun x => Ok (?g x)) (?f _)) => apply (accepts_wrap f g (fun _ => True) (fun _ => True)); [|done..] end end.
  - exact (accepts_weaken ParameterChangeAction.fromCbor (fun o => typed o = true) (fun _ => True) (@fromCbor_accepts _ _ change_serializable change_laws) (fun _ _ => I)).
  - exact (accepts_weaken HardForkInitiationAction.fromCbor (fun o => typed o = true) (fun _ => True) (@fromCbor_accepts _ _ hardFork_serializable hardFork_laws) (fun _ _ => I)).
  - exact (accepts_weaken TreasuryWithdrawalsAction.fromCbor (fun o => typed o = true) (fun _ => True) (@fromCbor_accepts _ _ treasury_serializable treasury_laws) (fun _ _ => I)).
  - exact (accepts_weaken NoConfidence.fromCbor (fun o => typed o = true) (fun _ => True) (@fromCbor_accepts _ _ noConfidence_serializable noConfidence_laws) (fun _ _ => I)).
  - exact (accepts_weaken UpdateCommittee.fromCbor (fun o => typed o = true) (fun _ => True) (@fromCbor_accepts _ _ updateCommittee_serializable updateCommittee_laws) (fun _ _ => I)).
  - exact (accepts_weaken NewConstitution.fromCbor (fun o => typed o = true) (fun _ => True) (@fromCbor_accepts _ _ newConstitution_serializable newConstitution_laws) (fun _ _ => I)).
  - exact (accepts_weaken InfoAction.fromCbor (fun o => typed o = true) (fun _ => True) (@fromCbor_accepts _ _ info_serializable info_laws) (fun _ _ => I)).
Qed.

(** *** The class *)

Definition procedureFields (p : core) : list (list Z) :=
  [intBytes (coreDeposit p); accountBytes (coreRewardAccount p); coreActionBytes (governanceAction p); anchorBytes (coreAnchor p)].
Definition isProcedure (p : core) : bool :=
  isInt64 (coreDeposit p) && isRewardText (coreRewardAccount p) && (isCoreAction (governanceAction p) && isAnchor (coreAnchor p)).

Lemma isProcedure_spec p : isProcedure p = true -> isInt64 (coreDeposit p) = true /\ isRewardText (coreRewardAccount p) = true /\
  isCoreAction (governanceAction p) = true /\ isAnchor (coreAnchor p) = true.
Proof. by intros [[? ?]%andb_true_iff [? ?]%andb_true_iff]%andb_true_iff. Qed.

#[export] Instance procedure_serializable : Serializable core t := {
  toCbor_of := toCbor;
  fromCbor_of := fromCbor;
  toCore_of p := Ok (toCore p);
  fromCore_of := fromCore;
  bytesOf p := recordBytes (procedureFields p);
  validCore := isProcedure;
  typed p := isInt64 (deposit p)
}.

Lemma coreAction_field a : isCoreAction a = true -> field (coreActionBytes a).
Proof. intros Ha. apply field_record; [apply coreAction_count|by apply coreAction_fields]. Qed.

Lemma proposal_fields p : isProcedure p = true -> Forall field (procedureFields p).
Proof.
  intros (Hd & Hr & Ha & Hn)%isProcedure_spec. repeat first [apply Forall_nil_2 | apply Forall_cons_2];
    [by apply field_int|by apply account_field|by apply coreAction_field|exact (bytesOf_field (T := Anchor.t) _ Hn)].
Qed.

(** An object with the parts of a core value stands for it. *)
Lemma procedure_stands d account a an o ao : isProcedure (Core d account an a) = true -> actionStands a o -> standsFor an ao ->
  standsFor (Core d account an a) (new d account ao o).
Proof.
  intros (Hd & Hr & Ha & Hn)%isProcedure_spec [Hc Hb] Han. cbn [coreDeposit coreRewardAccount coreAnchor governanceAction] in *. split.
  - unfold toCore_of, procedure_serializable, toCore. destruct Han as [[= Han] _]. cbn. by rewrite Hc, Han.
  - unfold toCbor_of, procedure_serializable, toCbor. cbn [new cached remembered originalBytes inner deposit rewardAccount anchor]. rewrite Hb.
    cbn [mbind outcome_bind]. apply (encode_record 4 _ [_; _; _; _]); [done..|]. apply emits_fields; [by apply emits_int|].
    apply emits_fields; [by apply account_emits|]. apply emits_fields; [by apply emits_encoded; [apply coreAction_field|]|].
    apply emits_last. by apply (@nested_emits _ _ anchor_serializable anchor_laws).
Qed.

Lemma readEncoded_reads l : field l -> reads (call readEncodedValue) l l.
Proof. intros [Hi _] r rest Hr Hp _. exact (call_ok _ _ _ _ (readEncodedValue_item r l rest Hi Hr Hp)). Qed.

Lemma readProcedure_completes d account a an ao : isProcedure (Core d account an a) = true -> reads (readNested Anchor.fromCbor) (anchorBytes an) ao ->
  zlen (recordBytes (procedureFields (Core d account an a))) < 2 ^ 53 ->
  decode readProcedure (Buffer_to_hex (recordBytes (procedureFields (Core d account an a)))) = Ok (d, account, Buffer_to_hex (coreActionBytes a), ao).
Proof.
  intros Hv Hn Hz. pose proof (proposal_fields _ Hv) as Hf. apply isProcedure_spec in Hv as (Hd & Hr & Ha & _).
  cbn [coreDeposit coreRewardAccount coreAnchor governanceAction] in *. apply decode_completes; [done..|].
  eapply completes_bind; [by apply reads_int|]. eapply completes_bind; [by apply account_reads|].
  eapply completes_bind; [by apply readEncoded_reads, coreAction_field|]. eapply completes_bind; [exact Hn|]. by apply completes_end.
Qed.

Lemma sound_encoded : sound (call readEncodedValue) (fun l => bytes l /\ zlen l < 2 ^ 53).
Proof.
  intros r Hw. eapply runs_impl; [by apply runs_call, readEncodedValue_runs|]. cbv beta. intros l r' Hr' [-> Ho].
  destruct (wf_offset r Hw). destruct (wf_offset r' (rtc_step_wf _ _ Hr' Hw)) as [_ Hle]. pose proof (wf_size r Hw).
  rewrite (rtc_step_data _ _ Hr') in Hle. split; [apply bytes_slice, (wf_bytes r Hw)|]. rewrite zlen_slice; lia.
Qed.

Lemma sound_procedure : sound readProcedure (fun v => isInt64 v.1.1.1 = true /\ zlen (Buffer_from_hex v.1.2) < 2 ^ 53).
Proof.
  unfold readProcedure. eapply sound_bind; [apply sound_startArray|]. intros _ _. eapply sound_bind; [apply sound_int|]. intros d Hd.
  eapply sound_bind; [apply sound_account|]. intros account _. eapply sound_bind; [apply sound_encoded|]. cbv beta. intros l [Hl Hz].
  eapply sound_bind; [apply (@nested_sound _ _ anchor_serializable anchor_laws)|]. intros an _. eapply sound_bind; [apply sound_endArray|]. intros _ _.
  apply sound_ret. cbn. unfold HexBlob_fromBytes. by rewrite Buffer_hex_roundtrip.
Qed.

#[export] Instance procedure_laws : SerializableLaws core t.
Proof.
  split; cbn [bytesOf validCore fromCore_of fromCbor_of procedure_serializable].
  - intros p Hp. apply field_record; [done|by apply proposal_fields].
  - record_starts.
  - intros [d account an a] Hp. pose proof Hp as (_ & _ & Ha & Hn)%isProcedure_spec. cbn [coreAnchor governanceAction] in *.
    destruct (@fromCore_standsFor _ _ anchor_serializable anchor_laws an Hn) as (ao & Ean & Hao). destruct (action_fromCore a Ha) as (o & Eo & Ho).
    exists (new d account ao o). change (Anchor.fromCore an = Ok ao) in Ean. unfold fromCore. cbn [coreAnchor governanceAction coreDeposit coreRewardAccount].
    rewrite Ean. cbn [mbind outcome_bind]. rewrite Eo. split; [done|]. by apply procedure_stands.
  - intros [d account an a] Hp Hz. pose proof Hp as (_ & _ & Ha & Hn)%isProcedure_spec. cbn [coreAnchor governanceAction] in *.
    assert (Hs : forall l, In l (procedureFields (Core d account an a)) -> zlen l < 2 ^ 53) by by intros; eapply part_fits.
    destruct (@nested_reads _ _ anchor_serializable anchor_laws an Hn) as (ao & Ran & Hao); [apply Hs; cbn; tauto|].
    assert (Hza : zlen (coreActionBytes a) < 2 ^ 53) by (apply Hs; cbn; tauto).
    destruct (action_decodes a Ha Hza) as (o & Eo & Ho). eexists. split.
    + unfold fromCbor. rewrite (readProcedure_completes _ _ _ _ _ Hp Ran Hz). cbn [mbind outcome_bind].
      rewrite action_readKind by done. cbn [mbind outcome_bind]. by rewrite Eo.
    + destruct (procedure_stands d account a an o ao Hp Ho Hao) as [Hc _]. split; [exact Hc|].
      apply (cached_record (procedureFields _)); [done|by apply proposal_fields].
  - intros cbor Hz. unfold fromCbor.
    destruct (accepts_decode (fun _ => readProcedure) (fun v => isInt64 v.1.1.1 = true /\ zlen (Buffer_from_hex v.1.2) < 2 ^ 53)) with (cbor := cbor) as [Ho Hv]; [|done|].
    { intros _. apply sound_procedure. }
    destruct (decode readProcedure cbor) as [[[[d account] a] an]|e|]; [|done..]. destruct (Hv _ eq_refl) as [Hd Hza]. cbn [mbind outcome_bind fst snd] in *.
    destruct (accepts_decode (fun _ => readActionKind) (fun _ => True)) with (cbor := a) as [Hk _]; [|done|].
    { intros _. unfold readActionKind. eapply sound_bind; [apply sound_startArray|]. intros. apply sound_number. }
    destruct (decode readActionKind a) as [kind|e|]; [|done..]. cbn [mbind outcome_bind]. destruct (action_accepts kind a Hza) as [Hf _].
    destruct (actionFromCbor kind a) as [o|e|]; (split; [done|]); intros ? [= <-]. exact Hd.
Qed.
End procedure.

(** ** Properties *)

Import CborWriterFacts.

Section properties.
Context `{Era} `{Crc32} {CL : Crc32Laws} `{BaseEncoding} {BE : Bech32Ends} `{FractionJs}.

Lemma proposal_remembers cbor p : ProposalProcedure.fromCbor cbor = Ok p -> remembered (ProposalProcedure.originalBytes p) = Some cbor.
Proof.
  unfold ProposalProcedure.fromCbor. destruct (String.eqb_spec cbor "") as [->|Hne].
  - assert (exists e, decode ProposalProcedure.readProcedure "" = Throw e) as [e ->] by (eexists; vm_compute; reflexivity). done.
  - destruct (decode _ cbor) as [[[[d account] a] an]|e|]; [|done..]. cbn [mbind outcome_bind].
    destruct (decode _ a) as [kind|e|]; [|done..]. cbn [mbind outcome_bind].
    destruct (ProposalProcedure.actionFromCbor kind a) as [b|e|]; [|done..]. intros [= <-]. cbn. by destruct (String.eqb_spec cbor "").
Qed.

(** C16. Proposals of governance actions survive serialization: a proposal with
    a deposit of 64 bits, a reward account that is printed as it was parsed, an
    anchor within its limits and an action of any of the seven kinds whose
    parts are in range is converted to an object that is written as the
    ledger's CDDL specifies, the action as the array its kind heads; the bytes
    are read back to an object for the same proposal, which is written as the
    same bytes. *)
Theorem proposal_round_trip (p : ProposalProcedure.core) : isProcedure p = true -> zlen (recordBytes (procedureFields p)) < 2 ^ 53 ->
  (exists o, ProposalProcedure.fromCore p = Ok o /\ ProposalProcedure.toCore o = p /\
    ProposalProcedure.toCbor o = Ok (Buffer_to_hex (recordBytes (procedureFields p)))) /\
  (exists o, ProposalProcedure.fromCbor (Buffer_to_hex (recordBytes (procedureFields p))) = Ok o /\ ProposalProcedure.toCore o = p /\
    ProposalProcedure.toCbor o = Ok (Buffer_to_hex (recordBytes (procedureFields p)))).
Proof.
  intros Hp Hz. destruct (@fromCore_standsFor _ _ procedure_serializable procedure_laws p Hp) as (o & Eo & [= Ho] & Hc).
  destruct (@fromCbor_standsFor _ _ procedure_serializable procedure_laws p Hp Hz) as (o' & Eo' & [= Ho'] & Hc'). split; [by exists o|by exists o'].
Qed.

(** The decoder of proposals on any blob: it ends with a proposal or an error,
    whatever the kind of the action; the deposit it reads has 64 bits, the kind
    of the action is one of the seven, and encoding the result gives the blob
    back. *)
Theorem proposal_decode_total cbor : zlen (Buffer_from_hex cbor) < 2 ^ 53 ->
  (exists p, ProposalProcedure.fromCbor cbor = Ok p /\ isInt64 (ProposalProcedure.deposit p) = true /\ 0 <= ProposalProcedure.kind p <= 6 /\
    ProposalProcedure.toCbor p = Ok cbor) \/
  (exists e, ProposalProcedure.fromCbor cbor = Throw e).
Proof.
  intros Hz. destruct (@fromCbor_accepts _ _ procedure_serializable procedure_laws cbor Hz) as [Hf Hv].
  destruct (ProposalProcedure.fromCbor cbor) as [p|e|] eqn:E; [left|right; by exists e|by destruct Hf]. exists p. split_and!; [done|by apply Hv|unfold ProposalProcedure.kind; by destruct (ProposalProcedure.inner p)..|].
  unfold ProposalProcedure.toCbor, cached. by rewrite (proposal_remembers _ _ E).
Qed.
End properties.

(** *** What is not encoded *)

(** [Committee.addMember] is the one mutator of the committee and keeps the
    remembered blob: a credential that is not a member yet is in the core value
    of a decoded committee, with its epoch, but the committee is still written
    as the blob it was read from. A credential that is a member is refused. *)
Theorem committee_addition_is_not_encoded cbor c credential epoch : cbor <> ""%string -> Committee.originalBytes c = Some cbor ->
  match Committee.addMember c credential epoch with
  | Ok c' => (credential ∉ Committee.membersKeys c) /\ Committee.toCbor c' = Ok cbor /\
      Committee.toCore c' = Ok (Committee.Core (Committee.committeeColdCredentials c ++ [(credential, epoch)]) (UnitInterval.toCore (Committee.quorumThreshold c)))
  | Throw _ => credential ∈ Committee.membersKeys c
  | OutOfFuel => False
  end.
Proof.
  intros Hne Ho. change (Committee.membersKeys c) with (Committee.committeeColdCredentials c).*1. unfold Committee.addMember.
  destruct (find _ _) as [m|] eqn:E.
  - apply find_some in E as [Hin <-%isMember_spec]. by apply list_elem_of_fmap_2, list_elem_of_In.
  - split_and!.
    + intros (m & -> & Hm)%list_elem_of_fmap. pose proof (find_none _ _ E m (proj1 (list_elem_of_In _ _) Hm)) as Hf.
      apply not_true_iff_false in Hf. by apply Hf, isMember_spec.
    + unfold Committee.toCbor, cached, remembered. cbn [Committee.originalBytes]. rewrite Ho. by destruct (String.eqb_spec cbor "").
    + unfold Committee.toCore. cbn [Committee.committeeColdCredentials Committee.quorumThreshold]. rewrite zlen_app. pose proof (zlen_nonneg (Committee.committeeColdCredentials c)).
      change (zlen [(credential, epoch)]) with 1. by rewrite (proj2 (Z.eqb_neq _ _)) by lia.
Qed.

(** ** Witnesses *)

Module ProposalWitness.
#[local] Existing Instance sum32.
#[local] Existing Instance sum32_laws.
#[local] Existing Instance encoding_ref.
#[local] Existing Instance UpdateWitness.mediantFraction.
#[local] Existing Instance conway.

Definition account (network : Z) (hash : string) : string :=
  match toBech32 (RewardAddress.fromCredentials network (Build_Credential hash 0)) with Ok s => s | _ => "" end.

Definition hash1 : string := "966e394a544f242081e41d1965137b1bb412ac230d40ed5407821c37".
Definition hash2 : string := "00010203040506070809000102030405060708090001020304050607".
Definition theAnchor : Anchor.core :=
  Anchor.Core [104; 116; 116; 112; 115; 58; 47; 47; 97; 46; 98] "00000000000000000000000000000000000000000000000000000000000000ff".
Definition previous : GovernanceActionId.core := GovernanceActionId.Core "00000000000000000000000000000000000000000000000000000000000000aa" 3.

(** A proposal of an action. *)
Definition proposal (a : ProposalProcedure.coreAction) : ProposalProcedure.core := ProposalProcedure.Core 100000000000 (account 1 hash1) theAnchor a.

Definition member (hash : string) (epoch : Z) : Credential * Z := (Build_Credential hash 0, epoch).

(** One action of every kind. *)
Definition actions : list ProposalProcedure.coreAction := [
  ProposalProcedure.parameter_change_action (ParameterChangeAction.Core (Some previous) UpdateWitness.params (Some hash2));
  ProposalProcedure.hard_fork_initiation_action (HardForkInitiationAction.Core None (ProtocolVersion.Core 10 0));
  ProposalProcedure.treasury_withdrawals_action (TreasuryWithdrawalsAction.Core [(account 1 hash1, 5); (account 1 hash2, 7)] None);
  ProposalProcedure.no_confidence (NoConfidence.Core (Some previous));
  ProposalProcedure.update_committee (UpdateCommittee.Core None [Build_Credential hash1 0] [member hash2 500; member hash1 600] UpdateWitness.third);
  ProposalProcedure.new_constitution (NewConstitution.Core (Some previous) (Constitution.Core theAnchor (Some hash1)));
  ProposalProcedure.info_action].

Lemma proposals_are_procedures : forallb (fun a => isProcedure (proposal a)) actions = true.
Proof. vm_compute. reflexivity. Qed.

Definition update : ProposalProcedure.core := proposal (ProposalProcedure.update_committee
  (UpdateCommittee.Core None [Build_Credential hash1 0] [member hash2 500; member hash1 600] UpdateWitness.third)).

Lemma proposal_round_trip_witness : isProcedure update = true /\
  exists o, ProposalProcedure.fromCbor (Buffer_to_hex (recordBytes (procedureFields update))) = Ok o /\ ProposalProcedure.toCore o = update.
Proof.
  destruct (proposal_round_trip update) as (_ & o & E & E' & _); [vm_compute; reflexivity..|].
  split; [vm_compute; reflexivity|]. exists o. split; [exact E|exact E'].
Defined.

Definition infoBlob : string := Buffer_to_hex (recordBytes (procedureFields (proposal ProposalProcedure.info_action))).

Lemma proposal_decode_total_witness : exists p, ProposalProcedure.fromCbor infoBlob = Ok p /\ ProposalProcedure.toCbor p = Ok infoBlob.
Proof.
  destruct (proposal_decode_total infoBlob) as [(p & E & _ & _ & H)|[e E]]; [vm_compute; reflexivity| |vm_compute in E; discriminate E].
  exists p. split; [exact E|exact H].
Defined.

(** A committee of one member, read from a blob. *)
Definition committeeBlob : string := Buffer_to_hex (recordBytes (committeeFields (Committee.Core [member hash1 600] UpdateWitness.third))).
Definition decoded : Committee.t := match Committee.fromCbor committeeBlob with Ok c => c | _ => Committee.new (UnitInterval.fromCore UpdateWitness.third) end.

Lemma committee_addition_is_not_encoded_witness : exists c, Committee.addMember decoded (Build_Credential hash2 0) 700 = Ok c /\
  Committee.toCbor c = Ok committeeBlob.
Proof.
  pose proof (committee_addition_is_not_encoded committeeBlob decoded (Build_Credential hash2 0) 700) as H.
  destruct (Committee.addMember decoded (Build_Credential hash2 0) 700) as [c|e|] eqn:E; [|vm_compute in E; discriminate E..].
  destruct H as (_ & H & _); [vm_compute; discriminate|vm_compute; reflexivity|]. exists c. split; [reflexivity|exact H].
Defined.

(** Withdrawals are put in the order of their texts, which is not the order of
    the bytes that are written as keys. *)
Example withdrawals_are_not_in_byte_order : let a := account 1 hash1 in let b := account 1 hash2 in
  sort_by TreasuryWithdrawalsAction.entryGreater [(b, 1); (a, 1)] = [(a, 1); (b, 1)] /\
  string_gt (Buffer_to_hex (rewardBytes a)) (Buffer_to_hex (rewardBytes b)) = true.
Proof. vm_compute. split; reflexivity. Qed.
End ProposalWitness.
