(* ===== verification/BodyParts.v ===== *)
(** * Fields of transaction bodies
    Models [Guards.ts] and [AccountBalanceInterval.ts] of
    [packages/core/src/Serialization/TransactionBody], and the fields that
    [TransactionBody.ts] and [SubTransactionBody.ts] share.  The classes have up
    to 24 fields under the keys of a map; [Field.t] names them, so that what the
    code does field by field is one definition per kind of field. *)
From S2P Require Import Prelude JsRuntime CborCommon Half CborWriter CborReader Codec Credential Address Records Common SerializedValue PlutusData Identifiers Pools Certificates Outputs Voting ParamParts ProtocolParams Proposals.

(** ** Guards *)

Module Guards.
(** [GuardsKind] *)
Definition KeyHashes : Z := 0.
Definition Credentials : Z := 1.

(** [requiredExtraSignatures] or [guards] of a core body. *)
Inductive core : Set := coreKeyHashes (l : list string) | coreCredentials (l : list Credential).

(** The constructor is private and each of its callers passes one of the two
    sets. *)
Inductive t : Type := keyHashSet (s : CborSet.t string) | credentialSet (s : CborSet.t Credential).

Section impl.
Context `{Era}.

Definition toCbor (g : t) : Res HexBlob :=
  match g with
  | keyHashSet s => CborSet.toCbor Hash.toCbor s
  | credentialSet s => CborSet.toCbor Credential_toCbor s
  end.

(** Whether the first element is an array. *)
Definition readForm : Dec bool :=
  CborSet.skipSetTag ;;
  call CborReader.readStartArray ;;
  state ← call CborReader.peekState;
  mret (bool_decide (state = CborReaderState.StartArray)).

Definition keyHashesFromCbor (cbor : HexBlob) : Res (CborSet.t string) := CborSet.fromCbor Hash.fromCbor cbor.

Definition fromCbor (cbor : HexBlob) : Res t :=
  credentials ← decode readForm cbor;
  if credentials : bool then s ← CborSet.fromCbor Credential_fromCbor cbor; Ok (credentialSet s)
  else s ← keyHashesFromCbor cbor; Ok (keyHashSet s).

Definition fromKeyHashes (keyHashes : list string) : t := keyHashSet (CborSet.new keyHashes).

Definition fromCredentials (credentials : list Credential) : Res t :=
  match credentials with
  | [] => Throw (InvalidArgumentError "credentials" "Credential form guards must contain at least one element")
  | _ => Ok (credentialSet (CborSet.new credentials))
  end.

Definition kind (g : t) : Z := match g with keyHashSet _ => KeyHashes | credentialSet _ => Credentials end.
Definition keyHashes (g : t) : option (list string) := match g with keyHashSet s => Some (CborSet.values s) | credentialSet _ => None end.
Definition credentials (g : t) : option (list Credential) := match g with credentialSet s => Some (CborSet.values s) | keyHashSet _ => None end.
Definition size (g : t) : Z := match g with keyHashSet s => CborSet.size s | credentialSet s => CborSet.size s end.
End impl.
End Guards.

(** ** Intervals of account balances *)

Module AccountBalanceInterval.
Record core : Set := Core { coreInclusiveLowerBound : option Z; coreExclusiveUpperBound : option Z }.

Record t : Set := { inclusiveLowerBound : option Z; exclusiveUpperBound : option Z; originalBytes : option HexBlob }.

Definition INTERVAL_ARRAY_SIZE : Z := 2.
Definition BOTH_NIL_MESSAGE : string := "Both interval bounds cannot be nil.".

Definition new (inclusiveLowerBound exclusiveUpperBound : option Z) : t :=
  {| inclusiveLowerBound := inclusiveLowerBound; exclusiveUpperBound := exclusiveUpperBound; originalBytes := None |}.

Definition bothNil (lower upper : option Z) : bool := match lower, upper with None, None => true | _, _ => false end.

Definition writeBound : option Z -> Enc unit := writeNullable (fun z => call (CborWriter.writeInt z)).
Definition readBound : Dec (option Z) := readNullable (call CborReader.readInt).

Definition toCbor (i : t) : Res HexBlob := cached (originalBytes i) (
  if bothNil (inclusiveLowerBound i) (exclusiveUpperBound i) then Throw (InvalidStateError BOTH_NIL_MESSAGE)
  else encode (
    call (CborWriter.writeStartArray (Some INTERVAL_ARRAY_SIZE)) ;;
    writeBound (inclusiveLowerBound i) ;;
    writeBound (exclusiveUpperBound i))).

Definition fromCbor (cbor : HexBlob) : Res t := decode (
  length ← call CborReader.readStartArray;
  st_guard (negb (bool_decide (length = Some INTERVAL_ARRAY_SIZE)))
    (InvalidType ("account_balance_interval must be an array of " +:+ pretty INTERVAL_ARRAY_SIZE +:+ " elements, but got " +:+ lengthText length)) ;;
  lower ← readBound;
  upper ← readBound;
  call CborReader.readEndArray ;;
  st_guard (bothNil lower upper) (InvalidType BOTH_NIL_MESSAGE) ;;
  mret {| inclusiveLowerBound := lower; exclusiveUpperBound := upper; originalBytes := Some cbor |}) cbor.

Definition toCore (i : t) : core :=
  {| coreInclusiveLowerBound := inclusiveLowerBound i; coreExclusiveUpperBound := exclusiveUpperBound i |}.

Definition fromCore (i : core) : Res t :=
  if bothNil (coreInclusiveLowerBound i) (coreExclusiveUpperBound i) then Throw (InvalidArgumentError "interval" BOTH_NIL_MESSAGE)
  else Ok (new (coreInclusiveLowerBound i) (coreExclusiveUpperBound i)).

Definition setInclusiveLowerBound (i : t) (bound : option Z) : t := new bound (exclusiveUpperBound i).
Definition setExclusiveUpperBound (i : t) (bound : option Z) : t := new (inclusiveLowerBound i) bound.
End AccountBalanceInterval.

(** ** The fields *)

Module Field.
Inductive t : Set :=
  | inputs | outputs | fee | ttl | certs | withdrawals | update | auxiliaryDataHash | validityStartInterval | mint | scriptDataHash |
  collateral | guards | networkId | collateralReturn | totalCollateral | referenceInputs | votingProcedures | proposalProcedures |
  currentTreasuryValue | donation | requiredTopLevelGuards | directDeposits | accountBalanceIntervals.

#[global] Instance t_eq_dec : EqDecision t.
Proof. solve_decision. Defined.

(** The keys of the CDDL; 23 is the key of the sub transactions. *)
Definition key (f : t) : Z :=
  match f with
  | inputs => 0 | outputs => 1 | fee => 2 | ttl => 3 | certs => 4 | withdrawals => 5 | update => 6 | auxiliaryDataHash => 7 |
  validityStartInterval => 8 | mint => 9 | scriptDataHash => 11 | collateral => 13 | guards => 14 | networkId => 15 | collateralReturn => 16 |
  totalCollateral => 17 | referenceInputs => 18 | votingProcedures => 19 | proposalProcedures => 20 | currentTreasuryValue => 21 |
  donation => 22 | requiredTopLevelGuards => 24 | directDeposits => 25 | accountBalanceIntervals => 26
  end.
End Field.

(** The kinds of values: coins are bigints, numbers are read with [Number]. *)
Inductive fieldKind : Set :=
  | InputSet | OutputList | Coin | Number | CertificateSet | Withdrawals | UpdateProposal | HashText | MintMap | GuardSet | OneOutput | Votes |
  ProposalSet | GuardMap | Deposits | IntervalMap.

Definition fieldKindOf (f : Field.t) : fieldKind :=
  match f with
  | Field.inputs | Field.collateral | Field.referenceInputs => InputSet
  | Field.outputs => OutputList
  | Field.fee | Field.totalCollateral | Field.currentTreasuryValue | Field.donation => Coin
  | Field.ttl | Field.validityStartInterval | Field.networkId => Number
  | Field.certs => CertificateSet
  | Field.withdrawals => Withdrawals
  | Field.update => UpdateProposal
  | Field.auxiliaryDataHash | Field.scriptDataHash => HashText
  | Field.mint => MintMap
  | Field.guards => GuardSet
  | Field.collateralReturn => OneOutput
  | Field.votingProcedures => Votes
  | Field.proposalProcedures => ProposalSet
  | Field.requiredTopLevelGuards => GuardMap
  | Field.directDeposits => Deposits
  | Field.accountBalanceIntervals => IntervalMap
  end.

(** The maps from credentials have objects as keys, which are all distinct. *)
Definition fieldValue (k : fieldKind) : Type :=
  match k with
  | InputSet => CborSet.t TransactionInput.t
  | OutputList => list TransactionOutput.t
  | Coin | Number => Z
  | CertificateSet => CborSet.t Certificate.t
  | Withdrawals | Deposits | MintMap => list (string * Z)
  | UpdateProposal => Update.t
  | HashText => string
  | GuardSet => Guards.t
  | OneOutput => TransactionOutput.t
  | Votes => VotingProcedures.t
  | ProposalSet => CborSet.t ProposalProcedure.t
  | GuardMap => list (Credential * option PlutusData)
  | IntervalMap => list (Credential * AccountBalanceInterval.t)
  end.

Definition fieldCore (k : fieldKind) : Type :=
  match k with
  | InputSet => list TransactionInput.core
  | OutputList => list TransactionOutput.core
  | Coin | Number => Z
  | CertificateSet => list CoreCertificate
  | Withdrawals | Deposits | MintMap => list (string * Z)
  | UpdateProposal => Update.core
  | HashText => string
  | GuardSet => Guards.core
  | OneOutput => TransactionOutput.core
  | Votes => VotingProcedures.core
  | ProposalSet => list ProposalProcedure.core
  | GuardMap => list (Credential * option CorePlutusData)
  | IntervalMap => list (Credential * AccountBalanceInterval.core)
  end.

Abbreviation valueIn f := (fieldValue (fieldKindOf f)).
Abbreviation coreIn f := (fieldCore (fieldKindOf f)).

(** [x !== undefined && x.size() > 0]; a list of outputs, a number, a hash, an
    object is written whenever it is there. *)
Definition isPresent (k : fieldKind) : fieldValue k -> bool :=
  match k with
  | InputSet => fun s => 0 <? CborSet.size s
  | CertificateSet => fun s => 0 <? CborSet.size s
  | ProposalSet => fun s => 0 <? CborSet.size s
  | GuardSet => fun g => 0 <? Guards.size g
  | Withdrawals | Deposits | MintMap => fun m => 0 <? JsMap.size m
  | GuardMap => fun m => 0 <? JsMap.size m
  | IntervalMap => fun m => 0 <? JsMap.size m
  | _ => fun _ => true
  end.

Section fields.
Context `{Era} `{Crc32} `{BaseEncoding} `{Bech32} `{IpAddress} `{FractionJs}.

(** ** Writing *)

(** The bytes of a reward account, in hexadecimal digits. *)
Definition accountHex (what account : string) : Res HexBlob :=
  a ← fromBech32 account;
  match RewardAddress.fromAddress a with
  | Some r => toBytes r
  | None => Throw (InvalidAddress ("Invalid " +:+ what +:+ " address: " +:+ account))
  end.

(** The entries by the bytes of their accounts, in the order of the texts
    ["<bytes>,<amount>"]. *)
Definition sortedAccounts (what : string) (m : list (string * Z)) : Res (list (HexBlob * Z)) :=
  entries ← mapM (fun entry => hex ← accountHex what entry.1; Ok (hex, entry.2)) m;
  Ok (sort_by TreasuryWithdrawalsAction.entryGreater (JsMap.of_entries entries)).

Definition writeAccounts (what : string) (m : list (string * Z)) : Enc unit :=
  sortedCanonically ← st_lift (sortedAccounts what m);
  call (CborWriter.writeStartMap (Some (zlen sortedCanonically))) ;;
  forEach (fun entry => call (CborWriter.writeByteString (Buffer_from_hex entry.1)) ;; call (CborWriter.writeInt entry.2)) sortedCanonically.

Definition writeMint (mint : list (string * Z)) : Enc unit :=
  multiassets ← st_lift (tokenMapToMultiAsset mint);
  call (CborWriter.writeStartMap (Some (JsMap.size multiassets))) ;;
  forEach writeAssetGroup (sortedMap multiassets).

(** The entries by the encodings of their credentials, in the order of these. *)
Definition sortedCredentials {A} (m : list (Credential * A)) : Res (list (HexBlob * A)) :=
  entries ← mapM (fun entry : Credential * A => cbor ← Credential_toCbor entry.1; Ok (cbor, entry.2)) m;
  Ok (sort_by (fun a b => string_gt a.1 b.1) (JsMap.of_entries entries)).

Definition writeCredentials {A} (write : A -> Enc unit) (m : list (Credential * A)) : Enc unit :=
  sortedCanonically ← st_lift (sortedCredentials m);
  call (CborWriter.writeStartMap (Some (zlen sortedCanonically))) ;;
  forEach (fun entry : HexBlob * A => writeEncoded (Ok entry.1) ;; write entry.2) sortedCanonically.

Definition writeDatum : option PlutusData -> Enc unit := writeNullable (fun d => writeEncoded (PlutusData.toCbor d)).
Definition writeInterval (i : AccountBalanceInterval.t) : Enc unit := writeEncoded (AccountBalanceInterval.toCbor i).

Definition writeOutputs (outputs : list TransactionOutput.t) : Enc unit :=
  call (CborWriter.writeStartArray (Some (zlen outputs))) ;;
  forEach (fun output => writeEncoded (TransactionOutput.toCbor output)) outputs.

Definition writeFieldValue (k : fieldKind) : fieldValue k -> Enc unit :=
  match k with
  | InputSet => fun s => writeEncoded (CborSet.toCbor TransactionInput.toCbor s)
  | OutputList => writeOutputs
  | Coin | Number => fun z => call (CborWriter.writeInt z)
  | CertificateSet => fun s => writeEncoded (CborSet.toCbor Certificate.toCbor s)
  | Withdrawals => writeAccounts "withdrawal"
  | Deposits => writeAccounts "direct deposit"
  | UpdateProposal => fun u => writeEncoded (Update.toCbor u)
  | HashText => fun hash => call (CborWriter.writeByteString (Buffer_from_hex hash))
  | MintMap => writeMint
  | GuardSet => fun g => writeEncoded (Guards.toCbor g)
  | OneOutput => fun o => writeEncoded (TransactionOutput.toCbor o)
  | Votes => fun v => writeEncoded (VotingProcedures.toCbor v)
  | ProposalSet => fun s => writeEncoded (CborSet.toCbor ProposalProcedure.toCbor s)
  | GuardMap => writeCredentials writeDatum
  | IntervalMap => writeCredentials writeInterval
  end.

(** ** Reading *)

Definition readAmount : Dec (string * Z) := account ← readRewardAccount; amount ← call CborReader.readInt; mret (account, amount).

Definition readWithdrawals : Dec (list (string * Z)) := entries ← readMapOf readAmount; mret (JsMap.of_entries entries).

(** Maps that may not be empty; [body] is the name of the class in the message. *)
Definition nonEmptyMap {A} (name body : string) (key : Z) (m : list A) : Dec unit :=
  st_guard (zlen m =? 0) (InvalidType (name +:+ " (" +:+ body +:+ " key " +:+ pretty key +:+ ") must be a non-empty map")).

Definition readDeposits (body : string) : Dec (list (string * Z)) :=
  entries ← readMapOf readAmount;
  nonEmptyMap "direct_deposits" body 25 (JsMap.of_entries entries) ;;
  mret (JsMap.of_entries entries).

Definition readIntervals (body : string) : Dec (list (Credential * AccountBalanceInterval.t)) :=
  entries ← readMapOf (credential ← readNested Credential_fromCbor; interval ← readNested AccountBalanceInterval.fromCbor; mret (credential, interval));
  nonEmptyMap "account_balance_intervals" body 26 entries ;;
  mret entries.

Definition readGuardMap (body : string) : Dec (list (Credential * option PlutusData)) :=
  entries ← readMapOf (credential ← readNested Credential_fromCbor; datum ← readNullable (readNested PlutusData.fromCbor); mret (credential, datum));
  nonEmptyMap "required_top_level_guards" body 24 entries ;;
  mret entries.

Definition readMint : Dec (list (string * Z)) :=
  multiassets ← readMultiAsset (call CborReader.readInt); st_lift (multiAssetsToTokenMap multiassets).

Definition readOutputs (strict : bool) : Dec (list TransactionOutput.t) :=
  call CborReader.readStartArray ;;
  outputs ← readWhileNot CborReaderState.EndArray (readNested (TransactionOutput.fromCborWith strict));
  call CborReader.readEndArray ;;
  mret outputs.

Definition readFieldValue (strict : bool) (body : string) (k : fieldKind) : Dec (fieldValue k) :=
  match k with
  | InputSet => readNested (CborSet.fromCbor TransactionInput.fromCbor)
  | OutputList => readOutputs strict
  | Coin => call CborReader.readInt
  | Number => readNumber
  | CertificateSet => readNested (CborSet.fromCbor Certificate.fromCbor)
  | Withdrawals => readWithdrawals
  | Deposits => readDeposits body
  | UpdateProposal => readNested Update.fromCbor
  | HashText => readHex
  | MintMap => readMint
  | GuardSet => readNested Guards.fromCbor
  | OneOutput => readNested (TransactionOutput.fromCborWith strict)
  | Votes => readNested VotingProcedures.fromCbor
  | ProposalSet => readNested (CborSet.fromCbor ProposalProcedure.fromCbor)
  | GuardMap => readGuardMap body
  | IntervalMap => readIntervals body
  end.

(** ** Core values *)

Definition fieldToCore (k : fieldKind) : fieldValue k -> Res (fieldCore k) :=
  match k with
  | InputSet => CborSet.toCore (fun i => Ok (TransactionInput.toCore i))
  | OutputList => mapM TransactionOutput.toCore
  | Coin | Number => fun z => Ok z
  | CertificateSet => CborSet.toCore Certificate.toCore
  | Withdrawals | Deposits | MintMap => fun m => Ok m
  | UpdateProposal => fun u => Ok (Update.toCore u)
  | HashText => fun hash => Ok hash
  | GuardSet => fun g => Ok (match g with Guards.keyHashSet s => Guards.coreKeyHashes (CborSet.values s) | Guards.credentialSet s => Guards.coreCredentials (CborSet.values s) end)
  | OneOutput => TransactionOutput.toCore
  | Votes => VotingProcedures.toCore
  | ProposalSet => CborSet.toCore (fun p => Ok (ProposalProcedure.toCore p))
  | GuardMap => mapM (fun entry : Credential * option PlutusData =>
      match entry.2 with Some d => c ← PlutusData.toCore d; Ok (entry.1, Some c) | None => Ok (entry.1, None) end)
  | IntervalMap => fun m => Ok ((fun entry : Credential * AccountBalanceInterval.t => (entry.1, AccountBalanceInterval.toCore entry.2)) <$> m)
  end.

(** A hash that is the empty text makes no field. *)
Definition fieldFromCore (k : fieldKind) : fieldCore k -> Res (option (fieldValue k)) :=
  match k with
  | InputSet => fun l => s ← CborSet.fromCore (fun i => Ok (TransactionInput.fromCore i)) l; Ok (Some s)
  | OutputList => fun l => outputs ← mapM TransactionOutput.fromCore l; Ok (Some outputs)
  | Coin | Number => fun z => Ok (Some z)
  | CertificateSet => fun l => s ← CborSet.fromCore Certificate.fromCore l; Ok (Some s)
  | Withdrawals | Deposits => fun l => Ok (Some (JsMap.of_entries l))
  | UpdateProposal => fun u => x ← Update.fromCore u; Ok (Some x)
  | HashText => fun hash => Ok (truthyString (Some hash))
  | MintMap => fun m => Ok (Some m)
  | GuardSet => fun g => match g with
      | Guards.coreCredentials l => x ← Guards.fromCredentials l; Ok (Some x)
      | Guards.coreKeyHashes l => Ok (Some (Guards.fromKeyHashes l))
      end
  | OneOutput => fun o => x ← TransactionOutput.fromCore o; Ok (Some x)
  | Votes => fun v => x ← VotingProcedures.fromCore v; Ok (Some x)
  | ProposalSet => fun l => s ← CborSet.fromCore ProposalProcedure.fromCore l; Ok (Some s)
  | GuardMap => fun l => m ← mapM (fun entry : Credential * option CorePlutusData =>
      match entry.2 with Some c => d ← PlutusData.fromCore c; Ok (entry.1, Some d) | None => Ok (entry.1, None) end) l; Ok (Some m)
  | IntervalMap => fun l => m ← mapM (fun entry : Credential * AccountBalanceInterval.core =>
      i ← AccountBalanceInterval.fromCore entry.2; Ok (entry.1, i)) l; Ok (Some m)
  end.

(** What a setter makes of a value: [setMint] puts the assets in order and, in a
    body at the top level, [setGuards] decodes key hashes again. *)
Definition acceptGuards (topLevel : bool) (g : Guards.t) : Res Guards.t :=
  match topLevel, g with
  | true, Guards.keyHashSet _ => cbor ← Guards.toCbor g; s ← Guards.keyHashesFromCbor cbor; Ok (Guards.keyHashSet s)
  | _, _ => Ok g
  end.

Definition acceptValue (topLevel : bool) (k : fieldKind) : fieldValue k -> Res (fieldValue k) :=
  match k with
  | MintMap => normalizeTokenMap
  | GuardSet => acceptGuards topLevel
  | _ => fun v => Ok v
  end.

(** Outputs are pushed to those that are there. *)
Definition mergeField (k : fieldKind) : option (fieldValue k) -> fieldValue k -> fieldValue k :=
  match k with
  | OutputList => fun old outputs => default [] old ++ outputs
  | _ => fun _ v => v
  end.

(** ** Bodies *)

(** What the two classes promise to the steps they share: the value of a field,
    and the body with another value in it. *)
Class BodyStore (S : Type) := { getField : S -> forall f, option (valueIn f); putField : S -> forall f, valueIn f -> S }.

(** [this.#f = v] over the fields of a body. *)
Definition override (get : forall f, option (valueIn f)) (f : Field.t) (v : valueIn f) : forall f, option (valueIn f) :=
  fun g => match decide (f = g) with left e => Some (eq_rect f (fun g => valueIn g) v g e) | right _ => get g end.

Section store.
Context {S : Type} {BS : BodyStore S}.

Definition isWritten (b : S) (f : Field.t) : bool := match getField b f with Some v => isPresent (fieldKindOf f) v | None => false end.

Definition countWritten (b : S) (fs : list Field.t) : Z := zlen (List.filter (isWritten b) fs).

(** [if (this.#f !== undefined && ...) { writer.writeInt(key); ... }] *)
Definition writeField (b : S) (f : Field.t) : Enc unit :=
  match getField b f with
  | Some v =>
      if isPresent (fieldKindOf f) v then
        call (CborWriter.writeInt (Field.key f)) ;;
        writeFieldValue (fieldKindOf f) v
      else mret tt
  | None => mret tt
  end.

(** [case key: body.setF(...)] *)
Definition readFieldInto (strict topLevel : bool) (body : string) (f : Field.t) : Dec (S -> S) :=
  v ← readFieldValue strict body (fieldKindOf f);
  v ← st_lift (acceptValue topLevel (fieldKindOf f) v);
  mret (fun b => putField b f (mergeField (fieldKindOf f) (getField b f) v)).

(** [x?.toCore()] *)
Definition coreOfField (b : S) (f : Field.t) : Res (option (coreIn f)) :=
  match getField b f with Some v => c ← fieldToCore (fieldKindOf f) v; Ok (Some c) | None => Ok None end.

(** The fields are converted and set in turn; the first that throws ends it.  Key
    hashes are not decoded again: a body at the top level takes them with
    [setRequiredSigners]. *)
Fixpoint fromCoreFields (core : forall f, option (coreIn f)) (fs : list Field.t) (b : S) : Res S :=
  match fs with
  | [] => Ok b
  | f :: fs =>
      v ← match core f with Some c => fieldFromCore (fieldKindOf f) c | None => Ok None end;
      b ← match v with Some v => v ← acceptValue false (fieldKindOf f) v; Ok (putField b f v) | None => Ok b end;
      fromCoreFields core fs b
  end.
End store.

(** The key hashes among the credentials of guards. *)
Definition guardKeyHashes (l : list Credential) : Res (list string) :=
  mapM (fun c => Ed25519KeyHashHex (hash c)) (List.filter (fun c => Credential.type c =? 0) l).

(** [Cardano.ValidityInterval] *)
Record ValidityInterval : Set := { invalidBefore : option Z; invalidHereafter : option Z }.

Definition validityIntervalOf (start ttl : option Z) : option ValidityInterval :=
  match start, ttl with None, None => None | _, _ => Some {| invalidBefore := start; invalidHereafter := ttl |} end.
End fields.
