(* ===== verification/Bodies.v ===== *)
(** * Transactions and their bodies
    Models [SubTransactionBody.ts] and [TransactionBody.ts] of
    [packages/core/src/Serialization/TransactionBody], and [SubTransaction.ts]
    and [Transaction.ts] of [packages/core/src/Serialization], over the fields of
    [BodyParts.v]. *)
From S2P Require Import Prelude JsRuntime CborCommon Half CborWriter CborReader Codec Credential Address Records Common SerializedValue PlutusData Scripts Identifiers Pools Certificates Outputs Voting Witnesses Metadata AuxiliaryData ParamParts ProtocolParams Proposals BodyParts.

(** ** Bodies of sub transactions *)

Module SubTransactionBody.
(** [Cardano.SubTransactionBody] *)
Record core : Type := Core {
  coreAccountBalanceIntervals : option (list (Credential * AccountBalanceInterval.core));
  coreAuxiliaryDataHash : option string;
  coreCertificates : option (list CoreCertificate);
  coreDirectDeposits : option (list (string * Z));
  coreDonation : option Z;
  coreGuards : option (list Credential);
  coreInputs : list TransactionInput.core;
  coreMint : option (list (string * Z));
  coreNetworkId : option Z;
  coreOutputs : list TransactionOutput.core;
  coreProposalProcedures : option (list ProposalProcedure.core);
  coreReferenceInputs : option (list TransactionInput.core);
  coreRequiredExtraSignatures : option (list string);
  coreRequiredTopLevelGuards : option (list (Credential * option CorePlutusData));
  coreScriptIntegrityHash : option string;
  coreTreasuryValue : option Z;
  coreValidityInterval : option ValidityInterval;
  coreVotingProcedures : option VotingProcedures.core;
  coreWithdrawals : option (list (string * Z))
}.

Record t : Type := {
  inputs : CborSet.t TransactionInput.t;
  outputs : list TransactionOutput.t;
  ttl : option Z;
  certs : option (CborSet.t Certificate.t);
  withdrawals : option (list (string * Z));
  auxiliaryDataHash : option string;
  validityStartInterval : option Z;
  mint : option (list (string * Z));
  scriptDataHash : option string;
  guards : option Guards.t;
  networkId : option Z;
  referenceInputs : option (CborSet.t TransactionInput.t);
  votingProcedures : option VotingProcedures.t;
  proposalProcedures : option (CborSet.t ProposalProcedure.t);
  currentTreasuryValue : option Z;
  donation : option Z;
  requiredTopLevelGuards : option (list (Credential * option PlutusData));
  directDeposits : option (list (string * Z));
  accountBalanceIntervals : option (list (Credential * AccountBalanceInterval.t));
  originalBytes : option HexBlob
}.

(** The fields in the order of their keys, in which they are written. *)
Definition fields : list Field.t :=
  [Field.inputs; Field.outputs; Field.ttl; Field.certs; Field.withdrawals; Field.auxiliaryDataHash; Field.validityStartInterval; Field.mint; Field.scriptDataHash; Field.guards; Field.networkId; Field.referenceInputs; Field.votingProcedures; Field.proposalProcedures; Field.currentTreasuryValue; Field.donation; Field.requiredTopLevelGuards; Field.directDeposits; Field.accountBalanceIntervals].

(** The field a name stands for, and the body with given fields. *)
Definition get (b : t) (f : Field.t) : option (valueIn f) :=
  match f with
  | Field.inputs => Some (inputs b)
  | Field.outputs => Some (outputs b)
  | Field.ttl => ttl b
  | Field.certs => certs b
  | Field.withdrawals => withdrawals b
  | Field.auxiliaryDataHash => auxiliaryDataHash b
  | Field.validityStartInterval => validityStartInterval b
  | Field.mint => mint b
  | Field.scriptDataHash => scriptDataHash b
  | Field.guards => guards b
  | Field.networkId => networkId b
  | Field.referenceInputs => referenceInputs b
  | Field.votingProcedures => votingProcedures b
  | Field.proposalProcedures => proposalProcedures b
  | Field.currentTreasuryValue => currentTreasuryValue b
  | Field.donation => donation b
  | Field.requiredTopLevelGuards => requiredTopLevelGuards b
  | Field.directDeposits => directDeposits b
  | Field.accountBalanceIntervals => accountBalanceIntervals b
  | Field.collateral => None
  | Field.collateralReturn => None
  | Field.fee => None
  | Field.totalCollateral => None
  | Field.update => None
  end.

Definition make (f : forall f, option (valueIn f)) (originalBytes : option HexBlob) : t := {|
  inputs := default (CborSet.new []) (f Field.inputs);
  outputs := default [] (f Field.outputs);
  ttl := f Field.ttl;
  certs := f Field.certs;
  withdrawals := f Field.withdrawals;
  auxiliaryDataHash := f Field.auxiliaryDataHash;
  validityStartInterval := f Field.validityStartInterval;
  mint := f Field.mint;
  scriptDataHash := f Field.scriptDataHash;
  guards := f Field.guards;
  networkId := f Field.networkId;
  referenceInputs := f Field.referenceInputs;
  votingProcedures := f Field.votingProcedures;
  proposalProcedures := f Field.proposalProcedures;
  currentTreasuryValue := f Field.currentTreasuryValue;
  donation := f Field.donation;
  requiredTopLevelGuards := f Field.requiredTopLevelGuards;
  directDeposits := f Field.directDeposits;
  accountBalanceIntervals := f Field.accountBalanceIntervals;
  originalBytes := originalBytes |}.

Definition put (b : t) (f : Field.t) (v : valueIn f) : t := make (override (get b) f v) (originalBytes b).

#[export] Instance store : BodyStore t := { getField := get; putField := put }.

(** [this.#originalBytes = undefined], and the blob that was decoded. *)
Definition reset (b : t) : t := make (get b) None.
Definition remember (b : t) (cbor : HexBlob) : t := make (get b) (Some cbor).

Definition empty : t := make (fun _ => None) None.

(** A setter drops the remembered blob. *)
Definition set (f : Field.t) (b : t) (v : valueIn f) : t := reset (put b f v).

Definition setInputs : t -> CborSet.t TransactionInput.t -> t := set Field.inputs.
Definition setOutputs : t -> list TransactionOutput.t -> t := set Field.outputs.
Definition setTtl : t -> Z -> t := set Field.ttl.
Definition setCerts : t -> CborSet.t Certificate.t -> t := set Field.certs.
Definition setWithdrawals : t -> list (string * Z) -> t := set Field.withdrawals.
Definition setAuxiliaryDataHash : t -> string -> t := set Field.auxiliaryDataHash.
Definition setValidityStartInterval : t -> Z -> t := set Field.validityStartInterval.
Definition setScriptDataHash : t -> string -> t := set Field.scriptDataHash.
Definition setNetworkId : t -> Z -> t := set Field.networkId.
Definition setReferenceInputs : t -> CborSet.t TransactionInput.t -> t := set Field.referenceInputs.
Definition setVotingProcedures : t -> VotingProcedures.t -> t := set Field.votingProcedures.
Definition setProposalProcedures : t -> CborSet.t ProposalProcedure.t -> t := set Field.proposalProcedures.
Definition setCurrentTreasuryValue : t -> Z -> t := set Field.currentTreasuryValue.
Definition setDonation : t -> Z -> t := set Field.donation.
Definition setRequiredTopLevelGuards : t -> list (Credential * option PlutusData) -> t := set Field.requiredTopLevelGuards.
Definition setDirectDeposits : t -> list (string * Z) -> t := set Field.directDeposits.
Definition setAccountBalanceIntervals : t -> list (Credential * AccountBalanceInterval.t) -> t := set Field.accountBalanceIntervals.

Section impl.
Context `{Era} `{Crc32} `{BaseEncoding} `{Bech32} `{IpAddress} `{FractionJs} `{UniqWith} `{Blake2b}.

Definition setMint (b : t) (mint : list (string * Z)) : Res t := m ← normalizeTokenMap mint; Ok (set Field.mint b m).
Definition setGuards : t -> Guards.t -> t := set Field.guards.

(** The inputs and the outputs are always written. *)
Definition getMapSize (b : t) : Z := 2 + countWritten b (drop 2 fields).

Definition toCbor (b : t) : Res HexBlob := cached (originalBytes b) (encode (
  call (CborWriter.writeStartMap (Some (getMapSize b))) ;;
  call (CborWriter.writeInt 0) ;;
  writeFieldValue InputSet (inputs b) ;;
  call (CborWriter.writeInt 1) ;;
  writeFieldValue OutputList (outputs b) ;;
  forEach (writeField b) (drop 2 fields))).

(** The [switch] on the keys. *)
Definition fieldOfKey (key : Z) : option Field.t := find (fun f => Field.key f =? key) fields.

Definition TOP_LEVEL_ONLY_KEYS : list Z := [2; 13; 16; 17; 23].

(** The body with the flags [hasInputs] and [hasOutputs]. *)
Record reading : Type := { body : t; hasInputs : bool; hasOutputs : bool }.

#[export] Instance readingStore : BodyStore reading := {
  getField r := get (body r);
  putField r f v := {|
    body := put (body r) f v;
    hasInputs := hasInputs r || bool_decide (f = Field.inputs);
    hasOutputs := hasOutputs r || bool_decide (f = Field.outputs) |}
}.

Definition readField (strict : bool) (key : Z) : Dec (reading -> reading) :=
  match fieldOfKey key with
  | Some f => readFieldInto strict false "sub transaction body" f
  | None => st_throw (UnknownField (
      if existsb (fun k => k =? key) TOP_LEVEL_ONLY_KEYS then "Top-level-only transaction body map key not allowed in sub transaction body: " +:+ pretty key
      else "Unknown sub transaction body map key: " +:+ pretty key))
  end.

Definition fromCborWith (strict : bool) (cbor : HexBlob) : Res t := decode (
  r ← readKeyed (readField strict) {| body := empty; hasInputs := false; hasOutputs := false |};
  st_guard (negb (hasInputs r)) (InvalidType "Sub transaction body missing required key: 0") ;;
  st_guard (negb (hasOutputs r)) (InvalidType "Sub transaction body missing required key: 1") ;;
  mret (remember (body r) cbor)) cbor.
Definition fromCbor : HexBlob -> Res t := fromCborWith false.

(** [requiredExtraSignatures] *)
Definition signersToCore (guards : option Guards.t) : Res (option (list string)) :=
  l ← match guards with
      | Some (Guards.keyHashSet s) => Ok (CborSet.values s)
      | Some (Guards.credentialSet s) => guardKeyHashes (CborSet.values s)
      | None => Ok []
      end;
  Ok (if 0 <? zlen l then Some l else None).

Definition toCore (b : t) : Res core :=
  requiredExtraSignatures ← signersToCore (guards b);
  accountBalanceIntervals ← coreOfField b Field.accountBalanceIntervals;
  certificates ← coreOfField b Field.certs;
  inputs ← fieldToCore InputSet (inputs b);
  outputs ← fieldToCore OutputList (outputs b);
  proposalProcedures ← coreOfField b Field.proposalProcedures;
  referenceInputs ← TransactionWitnessSet.optionalCore (fieldToCore InputSet) (TransactionWitnessSet.sized (referenceInputs b));
  requiredTopLevelGuards ← coreOfField b Field.requiredTopLevelGuards;
  votingProcedures ← coreOfField b Field.votingProcedures;
  Ok {|
    coreAccountBalanceIntervals := accountBalanceIntervals;
    coreAuxiliaryDataHash := auxiliaryDataHash b;
    coreCertificates := certificates;
    coreDirectDeposits := directDeposits b;
    coreDonation := donation b;
    coreGuards := guards b ≫= Guards.credentials;
    coreInputs := inputs;
    coreMint := mint b;
    coreNetworkId := networkId b;
    coreOutputs := outputs;
    coreProposalProcedures := proposalProcedures;
    coreReferenceInputs := referenceInputs;
    coreRequiredExtraSignatures := requiredExtraSignatures;
    coreRequiredTopLevelGuards := requiredTopLevelGuards;
    coreScriptIntegrityHash := scriptDataHash b;
    coreTreasuryValue := currentTreasuryValue b;
    coreValidityInterval := validityIntervalOf (validityStartInterval b) (ttl b);
    coreVotingProcedures := votingProcedures;
    coreWithdrawals := withdrawals b |}.

Definition coreField (c : core) (f : Field.t) : option (coreIn f) :=
  match f with
  | Field.inputs => Some (coreInputs c)
  | Field.outputs => Some (coreOutputs c)
  | Field.ttl => coreValidityInterval c ≫= invalidHereafter
  | Field.certs => coreCertificates c
  | Field.withdrawals => coreWithdrawals c
  | Field.auxiliaryDataHash => coreAuxiliaryDataHash c
  | Field.validityStartInterval => coreValidityInterval c ≫= invalidBefore
  | Field.mint => coreMint c
  | Field.scriptDataHash => coreScriptIntegrityHash c
  | Field.guards => match coreGuards c with Some l => Some (Guards.coreCredentials l) | None => Guards.coreKeyHashes <$> coreRequiredExtraSignatures c end
  | Field.networkId => coreNetworkId c
  | Field.referenceInputs => coreReferenceInputs c
  | Field.votingProcedures => coreVotingProcedures c
  | Field.proposalProcedures => coreProposalProcedures c
  | Field.currentTreasuryValue => coreTreasuryValue c
  | Field.donation => coreDonation c
  | Field.requiredTopLevelGuards => coreRequiredTopLevelGuards c
  | Field.directDeposits => coreDirectDeposits c
  | Field.accountBalanceIntervals => coreAccountBalanceIntervals c
  | Field.collateral => None
  | Field.collateralReturn => None
  | Field.fee => None
  | Field.totalCollateral => None
  | Field.update => None
  end.

(** In the order of the assignments of the code. *)
Definition assignmentOrder : list Field.t :=
  [Field.inputs; Field.outputs; Field.auxiliaryDataHash; Field.certs; Field.mint; Field.networkId; Field.referenceInputs; Field.guards; Field.scriptDataHash; Field.ttl; Field.validityStartInterval; Field.withdrawals; Field.requiredTopLevelGuards; Field.directDeposits; Field.accountBalanceIntervals; Field.donation; Field.currentTreasuryValue; Field.votingProcedures; Field.proposalProcedures].

Definition fromCore (c : core) : Res t := fromCoreFields (coreField c) assignmentOrder empty.
End impl.
End SubTransactionBody.

(** ** Sub transactions *)

Module SubTransaction.
(** [Cardano.SubTransaction] *)
Record core : Type := Core { coreBody : SubTransactionBody.core; coreWitness : CoreWitness; coreAuxiliaryData : option CoreAuxiliaryData }.

Record t : Type := {
  body : SubTransactionBody.t; witnessSet : TransactionWitnessSet.t; auxiliaryData : option AuxiliaryData.t; originalBytes : option HexBlob }.

Definition SUB_TX_FRAME_SIZE : Z := 3.

Definition new (body : SubTransactionBody.t) (witnessSet : TransactionWitnessSet.t) (auxiliaryData : option AuxiliaryData.t) : t :=
  {| body := body; witnessSet := witnessSet; auxiliaryData := auxiliaryData; originalBytes := None |}.

Section impl.
Context `{Era} `{Crc32} `{BaseEncoding} `{Bech32} `{IpAddress} `{FractionJs} `{UniqWith} `{Blake2b}.

Definition toCbor (s : t) : Res HexBlob := cached (originalBytes s) (encode (
  call (CborWriter.writeStartArray (Some SUB_TX_FRAME_SIZE)) ;;
  writeEncoded (SubTransactionBody.toCbor (body s)) ;;
  writeEncoded (TransactionWitnessSet.toCbor (witnessSet s)) ;;
  writeNullable (fun a => writeEncoded (AuxiliaryData.toCbor a)) (auxiliaryData s))).

(** An array of indefinite length is accepted. *)
Definition fromCborWith (strict : bool) (cbor : HexBlob) : Res t := decode (
  length ← call CborReader.readStartArray;
  st_guard (match length with Some n => negb (n =? SUB_TX_FRAME_SIZE) | None => false end)
    (InvalidType ("Sub transaction frame must be exactly " +:+ pretty SUB_TX_FRAME_SIZE +:+ " elements (there is no is_valid flag), found " +:+ lengthText length)) ;;
  body ← readNested (SubTransactionBody.fromCborWith strict);
  witnessSet ← readNested (TransactionWitnessSet.fromCborWith strict);
  auxData ← readNullable (readNested AuxiliaryData.fromCbor);
  call CborReader.readEndArray ;;
  mret {| body := body; witnessSet := witnessSet; auxiliaryData := auxData; originalBytes := Some cbor |}) cbor.
Definition fromCbor : HexBlob -> Res t := fromCborWith false.

Definition toCore (s : t) : Res core :=
  b ← SubTransactionBody.toCore (body s);
  w ← TransactionWitnessSet.toCore (witnessSet s);
  a ← TransactionWitnessSet.optionalCore AuxiliaryData.toCore (auxiliaryData s);
  Ok {| coreBody := b; coreWitness := w; coreAuxiliaryData := a |}.

Definition fromCore (c : core) : Res t :=
  b ← SubTransactionBody.fromCore (coreBody c);
  w ← TransactionWitnessSet.fromCore (coreWitness c);
  a ← TransactionWitnessSet.optionalCore AuxiliaryData.fromCore (coreAuxiliaryData c);
  Ok (new b w a).

(** Accessors that decode what their part is encoded to. *)
Definition getBody (s : t) : Res SubTransactionBody.t := cbor ← SubTransactionBody.toCbor (body s); SubTransactionBody.fromCbor cbor.
Definition getWitnessSet (s : t) : Res TransactionWitnessSet.t := cbor ← TransactionWitnessSet.toCbor (witnessSet s); TransactionWitnessSet.fromCbor cbor.
Definition getAuxiliaryData (s : t) : Res (option AuxiliaryData.t) :=
  TransactionWitnessSet.optionalCore (fun a => cbor ← AuxiliaryData.toCbor a; AuxiliaryData.fromCbor cbor) (auxiliaryData s).

Definition setBody (s : t) (body : SubTransactionBody.t) : t := new body (witnessSet s) (auxiliaryData s).
Definition setWitnessSet (s : t) (witnessSet : TransactionWitnessSet.t) : t := new (body s) witnessSet (auxiliaryData s).
Definition setAuxiliaryData (s : t) (auxiliaryData : option AuxiliaryData.t) : t := new (body s) (witnessSet s) auxiliaryData.

Definition getId (s : t) : Res HexBlob := cbor ← SubTransactionBody.toCbor (body s); Ok (blake2b_hash cbor 32).
Definition clone (s : t) : Res t := cbor ← toCbor s; fromCbor cbor.
End impl.
End SubTransaction.

(** ** Bodies of transactions *)

Module TransactionBody.
(** [Cardano.TxBody] *)
Record core : Type := Core {
  coreAccountBalanceIntervals : option (list (Credential * AccountBalanceInterval.core));
  coreAuxiliaryDataHash : option string;
  coreCertificates : option (list CoreCertificate);
  coreCollateralReturn : option TransactionOutput.core;
  coreCollaterals : option (list TransactionInput.core);
  coreDirectDeposits : option (list (string * Z));
  coreDonation : option Z;
  coreFee : Z;
  coreGuards : option (list Credential);
  coreInputs : list TransactionInput.core;
  coreMint : option (list (string * Z));
  coreNetworkId : option Z;
  coreOutputs : list TransactionOutput.core;
  coreProposalProcedures : option (list ProposalProcedure.core);
  coreReferenceInputs : option (list TransactionInput.core);
  coreRequiredExtraSignatures : option (list string);
  coreScriptIntegrityHash : option string;
  coreSubTransactions : option (list SubTransaction.core);
  coreTotalCollateral : option Z;
  coreTreasuryValue : option Z;
  coreUpdate : option Update.core;
  coreValidityInterval : option ValidityInterval;
  coreVotingProcedures : option VotingProcedures.core;
  coreWithdrawals : option (list (string * Z))
}.

(** The fields [#requiredSigners] and [#guards] are one: the key hashes of guards
    are the signers, and the setter of either clears the other. *)
Record t : Type := {
  inputs : CborSet.t TransactionInput.t;
  outputs : list TransactionOutput.t;
  fee : Z;
  ttl : option Z;
  certs : option (CborSet.t Certificate.t);
  withdrawals : option (list (string * Z));
  update : option Update.t;
  auxiliaryDataHash : option string;
  validityStartInterval : option Z;
  mint : option (list (string * Z));
  scriptDataHash : option string;
  collateral : option (CborSet.t TransactionInput.t);
  guards : option Guards.t;
  networkId : option Z;
  collateralReturn : option TransactionOutput.t;
  totalCollateral : option Z;
  referenceInputs : option (CborSet.t TransactionInput.t);
  votingProcedures : option VotingProcedures.t;
  proposalProcedures : option (CborSet.t ProposalProcedure.t);
  currentTreasuryValue : option Z;
  donation : option Z;
  directDeposits : option (list (string * Z));
  accountBalanceIntervals : option (list (Credential * AccountBalanceInterval.t));
  subTransactions : option (CborSet.t SubTransaction.t);
  originalBytes : option HexBlob
}.

(** The fields in the order of their keys, in which they are written. *)
Definition fields : list Field.t :=
  [Field.inputs; Field.outputs; Field.fee; Field.ttl; Field.certs; Field.withdrawals; Field.update; Field.auxiliaryDataHash; Field.validityStartInterval; Field.mint; Field.scriptDataHash; Field.collateral; Field.guards; Field.networkId; Field.collateralReturn; Field.totalCollateral; Field.referenceInputs; Field.votingProcedures; Field.proposalProcedures; Field.currentTreasuryValue; Field.donation; Field.directDeposits; Field.accountBalanceIntervals].

(** The field a name stands for, and the body with given fields. *)
Definition get (b : t) (f : Field.t) : option (valueIn f) :=
  match f with
  | Field.inputs => Some (inputs b)
  | Field.outputs => Some (outputs b)
  | Field.fee => Some (fee b)
  | Field.ttl => ttl b
  | Field.certs => certs b
  | Field.withdrawals => withdrawals b
  | Field.update => update b
  | Field.auxiliaryDataHash => auxiliaryDataHash b
  | Field.validityStartInterval => validityStartInterval b
  | Field.mint => mint b
  | Field.scriptDataHash => scriptDataHash b
  | Field.collateral => collateral b
  | Field.guards => guards b
  | Field.networkId => networkId b
  | Field.collateralReturn => collateralReturn b
  | Field.totalCollateral => totalCollateral b
  | Field.referenceInputs => referenceInputs b
  | Field.votingProcedures => votingProcedures b
  | Field.proposalProcedures => proposalProcedures b
  | Field.currentTreasuryValue => currentTreasuryValue b
  | Field.donation => donation b
  | Field.directDeposits => directDeposits b
  | Field.accountBalanceIntervals => accountBalanceIntervals b
  | Field.requiredTopLevelGuards => None
  end.

Definition make (f : forall f, option (valueIn f)) (subTransactions : option (CborSet.t SubTransaction.t)) (originalBytes : option HexBlob) : t := {|
  inputs := default (CborSet.new []) (f Field.inputs);
  outputs := default [] (f Field.outputs);
  fee := default 0 (f Field.fee);
  ttl := f Field.ttl;
  certs := f Field.certs;
  withdrawals := f Field.withdrawals;
  update := f Field.update;
  auxiliaryDataHash := f Field.auxiliaryDataHash;
  validityStartInterval := f Field.validityStartInterval;
  mint := f Field.mint;
  scriptDataHash := f Field.scriptDataHash;
  collateral := f Field.collateral;
  guards := f Field.guards;
  networkId := f Field.networkId;
  collateralReturn := f Field.collateralReturn;
  totalCollateral := f Field.totalCollateral;
  referenceInputs := f Field.referenceInputs;
  votingProcedures := f Field.votingProcedures;
  proposalProcedures := f Field.proposalProcedures;
  currentTreasuryValue := f Field.currentTreasuryValue;
  donation := f Field.donation;
  directDeposits := f Field.directDeposits;
  accountBalanceIntervals := f Field.accountBalanceIntervals;
  subTransactions := subTransactions;
  originalBytes := originalBytes |}.

Definition put (b : t) (f : Field.t) (v : valueIn f) : t := make (override (get b) f v) (subTransactions b) (originalBytes b).

#[export] Instance store : BodyStore t := { getField := get; putField := put }.

(** [this.#originalBytes = undefined], and the blob that was decoded. *)
Definition reset (b : t) : t := make (get b) (subTransactions b) None.
Definition remember (b : t) (cbor : HexBlob) : t := make (get b) (subTransactions b) (Some cbor).

Definition empty : t := make (fun _ => None) None None.

(** A setter drops the remembered blob. *)
Definition set (f : Field.t) (b : t) (v : valueIn f) : t := reset (put b f v).

Definition setInputs : t -> CborSet.t TransactionInput.t -> t := set Field.inputs.
Definition setOutputs : t -> list TransactionOutput.t -> t := set Field.outputs.
Definition setFee : t -> Z -> t := set Field.fee.
Definition setTtl : t -> Z -> t := set Field.ttl.
Definition setCerts : t -> CborSet.t Certificate.t -> t := set Field.certs.
Definition setWithdrawals : t -> list (string * Z) -> t := set Field.withdrawals.
Definition setUpdate : t -> Update.t -> t := set Field.update.
Definition setAuxiliaryDataHash : t -> string -> t := set Field.auxiliaryDataHash.
Definition setValidityStartInterval : t -> Z -> t := set Field.validityStartInterval.
Definition setScriptDataHash : t -> string -> t := set Field.scriptDataHash.
Definition setCollateral : t -> CborSet.t TransactionInput.t -> t := set Field.collateral.
Definition setNetworkId : t -> Z -> t := set Field.networkId.
Definition setCollateralReturn : t -> TransactionOutput.t -> t := set Field.collateralReturn.
Definition setTotalCollateral : t -> Z -> t := set Field.totalCollateral.
Definition setReferenceInputs : t -> CborSet.t TransactionInput.t -> t := set Field.referenceInputs.
Definition setVotingProcedures : t -> VotingProcedures.t -> t := set Field.votingProcedures.
Definition setProposalProcedures : t -> CborSet.t ProposalProcedure.t -> t := set Field.proposalProcedures.
Definition setCurrentTreasuryValue : t -> Z -> t := set Field.currentTreasuryValue.
Definition setDonation : t -> Z -> t := set Field.donation.
Definition setDirectDeposits : t -> list (string * Z) -> t := set Field.directDeposits.
Definition setAccountBalanceIntervals : t -> list (Credential * AccountBalanceInterval.t) -> t := set Field.accountBalanceIntervals.
Definition setSubTransactions (b : t) (subTransactions : CborSet.t SubTransaction.t) : t := make (get b) (Some subTransactions) None.

Section impl.
Context `{Era} `{Crc32} `{BaseEncoding} `{Bech32} `{IpAddress} `{FractionJs} `{UniqWith} `{Blake2b}.

Definition setMint (b : t) (mint : list (string * Z)) : Res t := m ← normalizeTokenMap mint; Ok (set Field.mint b m).
Definition setRequiredSigners (b : t) (requiredSigners : CborSet.t string) : t := set Field.guards b (Guards.keyHashSet requiredSigners).
Definition setGuards (b : t) (guards : Guards.t) : Res t := g ← acceptGuards true guards; Ok (set Field.guards b g).
Definition requiredSigners (b : t) : option (CborSet.t string) := match guards b with Some (Guards.keyHashSet s) => Some s | _ => None end.
Definition getGuards (b : t) : option Guards.t := match guards b with Some (Guards.credentialSet s) => Some (Guards.credentialSet s) | _ => None end.

(** The fields before and after the sub transactions, whose key is 23. *)
Definition fieldsBefore : list Field.t := List.filter (fun f => Field.key f <? 23) fields.
Definition fieldsAfter : list Field.t := List.filter (fun f => 23 <? Field.key f) fields.

Definition sizedSubTransactions (b : t) : option (CborSet.t SubTransaction.t) := TransactionWitnessSet.sized (subTransactions b).

Definition getMapSize (b : t) : Z := countWritten b fields + TransactionWitnessSet.count (sizedSubTransactions b).

Definition toCbor (b : t) : Res HexBlob := cached (originalBytes b) (encode (
  call (CborWriter.writeStartMap (Some (getMapSize b))) ;;
  forEach (writeField b) fieldsBefore ;;
  writeOptional 23 (fun s => writeEncoded (CborSet.toCbor SubTransaction.toCbor s)) (sizedSubTransactions b) ;;
  forEach (writeField b) fieldsAfter)).

(** The sub transactions have different identifiers. *)
Definition readSubTransactions (strict : bool) : Dec (CborSet.t SubTransaction.t) :=
  subTransactions ← readNested (CborSet.fromCbor (SubTransaction.fromCborWith strict));
  st_guard (CborSet.size subTransactions =? 0) (InvalidType "sub_transactions (transaction body key 23) must be a non-empty set") ;;
  subTransactionIds ← st_lift (mapM SubTransaction.getId (CborSet.values subTransactions));
  st_guard (negb (zlen (remove_dups subTransactionIds) =? CborSet.size subTransactions))
    (InvalidType "sub_transactions (transaction body key 23) must not contain duplicate sub transaction ids") ;;
  mret subTransactions.

(** The [switch] on the keys. *)
Definition fieldOfKey (key : Z) : option Field.t := find (fun f => Field.key f =? key) fields.

Definition readField (strict : bool) (key : Z) : Dec (t -> t) :=
  match fieldOfKey key with
  | Some f => readFieldInto strict true "transaction body" f
  | None =>
      if key =? 23 then s ← readSubTransactions strict; mret (fun b => setSubTransactions b s)
      else if strict then st_throw (UnknownField ("Unknown transaction body map key: " +:+ pretty key))
      else call CborReader.skipValue ;; mret (fun b => b)
  end.

Definition fromCborWith (strict : bool) (cbor : HexBlob) : Res t := decode (
  b ← readKeyed (readField strict) empty; mret (remember b cbor)) cbor.
Definition fromCbor : HexBlob -> Res t := fromCborWith false.

(** [requiredExtraSignatures] *)
Definition signersToCore (guards : option Guards.t) : Res (option (list string)) :=
  match guards with
  | Some (Guards.keyHashSet s) => Ok (Some (CborSet.values s))
  | Some (Guards.credentialSet s) => l ← guardKeyHashes (CborSet.values s); Ok (if 0 <? zlen l then Some l else None)
  | None => Ok None
  end.

Definition toCore (b : t) : Res core :=
  requiredExtraSignatures ← signersToCore (guards b);
  accountBalanceIntervals ← coreOfField b Field.accountBalanceIntervals;
  certificates ← coreOfField b Field.certs;
  collateralReturn ← coreOfField b Field.collateralReturn;
  collaterals ← coreOfField b Field.collateral;
  inputs ← fieldToCore InputSet (inputs b);
  outputs ← fieldToCore OutputList (outputs b);
  proposalProcedures ← coreOfField b Field.proposalProcedures;
  referenceInputs ← TransactionWitnessSet.optionalCore (fieldToCore InputSet) (TransactionWitnessSet.sized (referenceInputs b));
  subTransactions ← TransactionWitnessSet.optionalCore (CborSet.toCore SubTransaction.toCore) (subTransactions b);
  update ← coreOfField b Field.update;
  votingProcedures ← coreOfField b Field.votingProcedures;
  Ok {|
    coreAccountBalanceIntervals := accountBalanceIntervals;
    coreAuxiliaryDataHash := auxiliaryDataHash b;
    coreCertificates := certificates;
    coreCollateralReturn := collateralReturn;
    coreCollaterals := collaterals;
    coreDirectDeposits := directDeposits b;
    coreDonation := donation b;
    coreFee := fee b;
    coreGuards := guards b ≫= Guards.credentials;
    coreInputs := inputs;
    coreMint := mint b;
    coreNetworkId := networkId b;
    coreOutputs := outputs;
    coreProposalProcedures := proposalProcedures;
    coreReferenceInputs := referenceInputs;
    coreRequiredExtraSignatures := requiredExtraSignatures;
    coreScriptIntegrityHash := scriptDataHash b;
    coreSubTransactions := subTransactions;
    coreTotalCollateral := totalCollateral b;
    coreTreasuryValue := currentTreasuryValue b;
    coreUpdate := update;
    coreValidityInterval := validityIntervalOf (validityStartInterval b) (ttl b);
    coreVotingProcedures := votingProcedures;
    coreWithdrawals := withdrawals b |}.

Definition coreField (c : core) (f : Field.t) : option (coreIn f) :=
  match f with
  | Field.inputs => Some (coreInputs c)
  | Field.outputs => Some (coreOutputs c)
  | Field.fee => Some (coreFee c)
  | Field.ttl => coreValidityInterval c ≫= invalidHereafter
  | Field.certs => coreCertificates c
  | Field.withdrawals => coreWithdrawals c
  | Field.update => coreUpdate c
  | Field.auxiliaryDataHash => coreAuxiliaryDataHash c
  | Field.validityStartInterval => coreValidityInterval c ≫= invalidBefore
  | Field.mint => coreMint c
  | Field.scriptDataHash => coreScriptIntegrityHash c
  | Field.collateral => coreCollaterals c
  | Field.guards => match coreGuards c with Some l => Some (Guards.coreCredentials l) | None => Guards.coreKeyHashes <$> coreRequiredExtraSignatures c end
  | Field.networkId => coreNetworkId c
  | Field.collateralReturn => coreCollateralReturn c
  | Field.totalCollateral => coreTotalCollateral c
  | Field.referenceInputs => coreReferenceInputs c
  | Field.votingProcedures => coreVotingProcedures c
  | Field.proposalProcedures => coreProposalProcedures c
  | Field.currentTreasuryValue => coreTreasuryValue c
  | Field.donation => coreDonation c
  | Field.directDeposits => coreDirectDeposits c
  | Field.accountBalanceIntervals => coreAccountBalanceIntervals c
  | Field.requiredTopLevelGuards => None
  end.

(** In the order of the assignments of the code. *)
Definition assignmentOrder : list Field.t :=
  [Field.inputs; Field.outputs; Field.fee; Field.auxiliaryDataHash; Field.certs; Field.collateralReturn; Field.collateral; Field.mint; Field.networkId; Field.referenceInputs; Field.guards; Field.scriptDataHash; Field.totalCollateral; Field.update; Field.ttl; Field.validityStartInterval; Field.withdrawals; Field.directDeposits; Field.accountBalanceIntervals; Field.donation; Field.currentTreasuryValue; Field.votingProcedures; Field.proposalProcedures].

Definition fromCore (c : core) : Res t :=
  b ← fromCoreFields (coreField c) assignmentOrder empty;
  subTransactions ← TransactionWitnessSet.optionalCore (CborSet.fromCore SubTransaction.fromCore) (coreSubTransactions c);
  Ok (match subTransactions with Some s => setSubTransactions b s | None => b end).

(** The identifier of the transaction. *)
Definition hash (b : t) : Res HexBlob := cbor ← toCbor b; Ok (blake2b_hash cbor 32).

Definition hasTaggedSets (b : t) : Res bool :=
  cbor ← CborSet.toCbor TransactionInput.toCbor (inputs b);
  decode (
    state ← call CborReader.peekState;
    if bool_decide (state = CborReaderState.Tag) then tag ← call CborReader.peekTag; mret (tag =? CborTag.Set_) else mret false) cbor.

Definition hasBabbageOutput (b : t) : Res bool :=
  match outputs b with
  | [] => Ok false
  | output :: _ =>
      cbor ← TransactionOutput.toCbor output;
      decode (state ← call CborReader.peekState; mret (bool_decide (state = CborReaderState.StartMap))) cbor
  end.
End impl.
End TransactionBody.

(** ** Transactions *)

Module Transaction.
(** [Cardano.Tx] *)
Record core : Type := Core {
  coreId : HexBlob; coreBody : TransactionBody.core; coreWitness : CoreWitness; coreAuxiliaryData : option CoreAuxiliaryData; coreIsValid : option bool }.

Record t : Type := {
  body : TransactionBody.t; witnessSet : TransactionWitnessSet.t; auxiliaryData : option AuxiliaryData.t; isValid : bool; originalBytes : option HexBlob }.

Definition ALONZO_ERA_TX_FRAME_SIZE : Z := 4.

Definition new (body : TransactionBody.t) (witnessSet : TransactionWitnessSet.t) (auxiliaryData : option AuxiliaryData.t) : t :=
  {| body := body; witnessSet := witnessSet; auxiliaryData := auxiliaryData; isValid := true; originalBytes := None |}.

Section impl.
Context `{Era} `{Crc32} `{BaseEncoding} `{Bech32} `{IpAddress} `{FractionJs} `{UniqWith} `{Blake2b}.

Definition toCbor (tx : t) : Res HexBlob := cached (originalBytes tx) (encode (
  call (CborWriter.writeStartArray (Some ALONZO_ERA_TX_FRAME_SIZE)) ;;
  writeEncoded (TransactionBody.toCbor (body tx)) ;;
  writeEncoded (TransactionWitnessSet.toCbor (witnessSet tx)) ;;
  call (CborWriter.writeBoolean (isValid tx)) ;;
  writeNullable (fun a => writeEncoded (AuxiliaryData.toCbor a)) (auxiliaryData tx))).

(** The flag is only read in an array of four elements of definite length; the
    end of the array is not read. *)
Definition fromCborWith (strict : bool) (cbor : HexBlob) : Res t := decode (
  length ← call CborReader.readStartArray;
  body ← readNested (TransactionBody.fromCborWith strict);
  witnessSet ← readNested (TransactionWitnessSet.fromCborWith strict);
  isValid ← (if bool_decide (length = Some ALONZO_ERA_TX_FRAME_SIZE) then call CborReader.readBoolean else mret true);
  state ← call CborReader.peekState;
  auxData ← (if bool_decide (state = CborReaderState.Null) then mret None
             else a ← readNested AuxiliaryData.fromCbor; mret (Some a));
  mret {| body := body; witnessSet := witnessSet; auxiliaryData := auxData; isValid := isValid; originalBytes := Some cbor |}) cbor.
Definition fromCbor : HexBlob -> Res t := fromCborWith false.

Definition getId (tx : t) : Res HexBlob := TransactionBody.hash (body tx).

Definition toCore (tx : t) : Res core :=
  b ← TransactionBody.toCore (body tx);
  id ← getId tx;
  w ← TransactionWitnessSet.toCore (witnessSet tx);
  a ← TransactionWitnessSet.optionalCore AuxiliaryData.toCore (auxiliaryData tx);
  Ok {| coreId := id; coreBody := b; coreWitness := w; coreAuxiliaryData := a; coreIsValid := Some (isValid tx) |}.

(** The identifier of the core value is not looked at. *)
Definition fromCore (c : core) : Res t :=
  b ← TransactionBody.fromCore (coreBody c);
  w ← TransactionWitnessSet.fromCore (coreWitness c);
  a ← TransactionWitnessSet.optionalCore AuxiliaryData.fromCore (coreAuxiliaryData c);
  Ok {| body := b; witnessSet := w; auxiliaryData := a; isValid := default true (coreIsValid c); originalBytes := None |}.

(** Accessors that decode what their part is encoded to. *)
Definition getBody (tx : t) : Res TransactionBody.t := cbor ← TransactionBody.toCbor (body tx); TransactionBody.fromCbor cbor.
Definition getWitnessSet (tx : t) : Res TransactionWitnessSet.t := cbor ← TransactionWitnessSet.toCbor (witnessSet tx); TransactionWitnessSet.fromCbor cbor.
Definition getAuxiliaryData (tx : t) : Res (option AuxiliaryData.t) :=
  TransactionWitnessSet.optionalCore (fun a => cbor ← AuxiliaryData.toCbor a; AuxiliaryData.fromCbor cbor) (auxiliaryData tx).

Definition setBody (tx : t) (body : TransactionBody.t) : t :=
  {| body := body; witnessSet := witnessSet tx; auxiliaryData := auxiliaryData tx; isValid := isValid tx; originalBytes := None |}.
Definition setWitnessSet (tx : t) (witnessSet : TransactionWitnessSet.t) : t :=
  {| body := body tx; witnessSet := witnessSet; auxiliaryData := auxiliaryData tx; isValid := isValid tx; originalBytes := None |}.
Definition setAuxiliaryData (tx : t) (auxiliaryData : option AuxiliaryData.t) : t :=
  {| body := body tx; witnessSet := witnessSet tx; auxiliaryData := auxiliaryData; isValid := isValid tx; originalBytes := None |}.

Definition clone (tx : t) : Res t := cbor ← toCbor tx; fromCbor cbor.

(** [TxCBOR.serialize], [TxBodyCBOR.fromTxCBOR] and [deserializeTx] of a text. *)
Definition serialize (tx : core) : Res HexBlob := x ← fromCore tx; toCbor x.
Definition fromTxCBOR (txCbor : HexBlob) : Res HexBlob := tx ← fromCbor txCbor; b ← getBody tx; TransactionBody.toCbor b.
Definition deserializeTx (hex : string) : Res core := cbor ← typedHex hex 0; tx ← fromCbor cbor; toCore tx.
End impl.
End Transaction.
