(* ===== verification/BodyFacts.v ===== *)
(** * Fields of transaction bodies keep their promises
    Guards and intervals of account balances implement the interface of
    [Serializable.v]; every kind of field is written as specified and read back;
    what the two classes of bodies share: reading and writing any of their
    fields, one after the other. *)
From S2P Require Import Prelude JsRuntime Utf8 CborCommon Half CborWriter CborReader CborMachine CborExact CborSkip CborDocuments Codec CodecFacts Credential Address BaseEncodingRef AddressFacts Records Common Serializable Keyed CommonFacts PlutusData Identifiers Pools Certificates CertificateFacts Voting VotingFacts SerializedValue ValueFacts Outputs OutputFacts WitnessFacts ParamParts ParamFacts ProtocolParams ProtocolParamFacts Proposals ProposalFacts BodyParts.

Import CborReader CborWriterFacts.

(** ** Intervals of account balances *)

Lemma int_not_null z : isInt64 z = true -> not_null (intBytes z).
Proof. intros Hz. destruct (starts_int z Hz) as [H|H]; by eapply starts_not_null, H. Qed.

Definition isBound (z : option Z) : bool := match z with Some z => isInt64 z | None => true end.

Lemma bound_field z : isBound z = true -> field (nullableBytes intBytes z).
Proof. intros Hz. apply nullable_field. intros a ->. by apply field_int. Qed.

Lemma bound_emits z : isBound z = true -> emits (AccountBalanceInterval.writeBound z) (nullableBytes intBytes z).
Proof. intros Hz. apply nullable_emits. intros a ->. by apply emits_int. Qed.

Lemma bound_reads z : isBound z = true -> reads AccountBalanceInterval.readBound (nullableBytes intBytes z) z.
Proof. destruct z as [z|]; intros Hz; [|apply readNullable_none]. apply readNullable_not_null; [by apply int_not_null|by apply reads_int]. Qed.

Lemma sound_bound : sound AccountBalanceInterval.readBound (fun z => isBound z = true).
Proof. eapply sound_weaken; [apply sound_nullable, sound_int|]. intros [z|] Hz; [by apply Hz|done]. Qed.

Module BalanceFacts.
Import AccountBalanceInterval.

Definition balanceFields (i : core) : list (list Z) := [nullableBytes intBytes (coreInclusiveLowerBound i); nullableBytes intBytes (coreExclusiveUpperBound i)].
Definition isBalance (i : core) : bool :=
  isBound (coreInclusiveLowerBound i) && isBound (coreExclusiveUpperBound i) && negb (bothNil (coreInclusiveLowerBound i) (coreExclusiveUpperBound i)).

#[export] Instance balance_serializable : Serializable core t := {
  toCbor_of := toCbor;
  fromCbor_of := fromCbor;
  toCore_of i := Ok (toCore i);
  fromCore_of := fromCore;
  bytesOf i := recordBytes (balanceFields i);
  validCore := isBalance;
  typed i := negb (bothNil (inclusiveLowerBound i) (exclusiveUpperBound i))
}.

Lemma isBalance_spec i : isBalance i = true -> isBound (coreInclusiveLowerBound i) = true /\ isBound (coreExclusiveUpperBound i) = true /\
  bothNil (coreInclusiveLowerBound i) (coreExclusiveUpperBound i) = false.
Proof. intros [[? ?]%andb_true_iff ?%negb_true_iff]%andb_true_iff. done. Qed.

Lemma balance_fields i : isBalance i = true -> Forall field (balanceFields i).
Proof. intros (Hl & Hu & _)%isBalance_spec. constructor; [by apply bound_field|]. constructor; [by apply bound_field|constructor]. Qed.

#[export] Instance balance_laws : SerializableLaws core t.
Proof.
  split; cbn [bytesOf validCore fromCore_of fromCbor_of balance_serializable].
  - intros i Hi. apply field_record; [done|by apply balance_fields].
  - record_starts.
  - intros [l u] (Hl & Hu & Hn)%isBalance_spec. cbn [coreInclusiveLowerBound coreExclusiveUpperBound] in *. exists (new l u).
    unfold fromCore. cbn [coreInclusiveLowerBound coreExclusiveUpperBound]. rewrite Hn. split; [done|]. split; [done|].
    unfold toCbor_of, balance_serializable, toCbor. cbn [cached remembered inclusiveLowerBound exclusiveUpperBound originalBytes new]. rewrite Hn.
    apply (encode_record 2 _ [_; _]); [done..|]. apply emits_fields; [by apply bound_emits|]. by apply emits_last, bound_emits.
  - intros i Hi Hz. pose proof (balance_fields i Hi) as Hf. destruct i as [l u]. destruct (isBalance_spec _ Hi) as (Hl & Hu & Hn). cbn [coreInclusiveLowerBound coreExclusiveUpperBound] in *.
    eexists. split.
    + apply decode_completes; [done..|]. cbv beta. apply completes_guard; [done|]. eapply completes_bind; [by apply bound_reads|]. eapply completes_bind; [by apply bound_reads|].
      apply completes_end. intros r. unfold st_guard. cbn [coreInclusiveLowerBound coreExclusiveUpperBound]. by rewrite Hn.
    + split; [done|by apply cached_record].
  - apply accepts_decode. intros cbor. eapply sound_bind; [apply sound_startArray|]. intros n _. apply sound_guard. intros _.
    eapply sound_bind; [apply sound_bound|]. intros l _. eapply sound_bind; [apply sound_bound|]. intros u _. eapply sound_bind; [apply sound_endArray|]. intros _ _.
    apply sound_guard. intros Hn. apply sound_ret. cbn. by rewrite Hn.
Qed.
End BalanceFacts.
Export BalanceFacts.

(** ** Guards *)

Section guards.
Context `{Era}.

Definition guardBytes (g : Guards.core) : list Z :=
  match g with Guards.coreKeyHashes l => setBytes (T := string) l | Guards.coreCredentials l => setBytes (T := Credential) l end.

Definition isGuards (g : Guards.core) : bool :=
  match g with
  | Guards.coreKeyHashes l => validList (T := string) l && (0 <? zlen l)
  | Guards.coreCredentials l => validList (T := Credential) l && (0 <? zlen l)
  end.

Definition guardsToCore (g : Guards.t) : Guards.core :=
  match g with Guards.keyHashSet s => Guards.coreKeyHashes (CborSet.values s) | Guards.credentialSet s => Guards.coreCredentials (CborSet.values s) end.

Definition guardsFromCore (g : Guards.core) : Res Guards.t :=
  match g with Guards.coreKeyHashes l => Ok (Guards.fromKeyHashes l) | Guards.coreCredentials l => Guards.fromCredentials l end.

(** Key hashes that were decoded remember their blob. *)
Definition guardsTyped (g : Guards.t) : bool :=
  match g with
  | Guards.keyHashSet s => match CborSet.originalBytes s with Some h => negb (String.eqb h "") && (zlen (Buffer_from_hex h) <? 2 ^ 53) | None => false end
  | Guards.credentialSet _ => true
  end.

#[export] Instance guards_serializable : Serializable Guards.core Guards.t := {
  toCbor_of := Guards.toCbor;
  fromCbor_of := Guards.fromCbor;
  toCore_of g := Ok (guardsToCore g);
  fromCore_of := guardsFromCore;
  bytesOf := guardBytes;
  validCore := isGuards;
  typed := guardsTyped
}.

(** The first element of a set tells which form it has. *)
Lemma set_form {C T} `{SerializableLaws C T} ty c l : ty <> Simple -> starts ty (bytesOf c) -> validList (c :: l) = true -> zlen (setBytes (c :: l)) < 2 ^ 53 ->
  decode Guards.readForm (Buffer_to_hex (setBytes (c :: l))) = Ok (bool_decide (headState ty = CborReaderState.StartArray)).
Proof.
  intros Ht Hs Hl Hz. destruct (validList_spec _ Hl) as [Hn _].
  assert (Hg : glances (listBytes (c :: l)) (call readStartArray ;; state ← call peekState; mret (bool_decide (state = CborReaderState.StartArray)))
    (bool_decide (headState ty = CborReaderState.StartArray))).
  { unfold listBytes. rewrite <- zlen_map_bytes in Hn |- *. apply glances_record.
    - unfold zlen in *. cbn [map length] in *. lia.
    - cbn [map]. by apply completes_glance, (glances_peek ty), glances_ret. }
  destruct (set_field _ Hl) as [_ Hb]. unfold decode, new. rewrite Buffer_hex_roundtrip by done. set (r := of_bytes _).
  assert (Hr : ready r (setBytes (c :: l))) by by apply fresh_ready. assert (Hp : plain (currentFrame r)) by done. clearbody r.
  enough (Hk : exists r', CborSet.skipSetTag r = (Ok tt, r') /\ ready r' (listBytes (c :: l) ++ [])).
  { destruct Hk as (r' & E & Hr'). unfold Guards.readForm. rewrite (st_bind_ok _ _ _ _ _ E). exact (Hg r' [] Hr'). }
  unfold setBytes in *. unfold CborSet.skipSetTag. destruct inConwayEra.
  - assert (Hh : is_head Tag 258 (CborWriter.head Tag 258)) by by apply writer_head. unfold tagBytes in *.
    assert (Es : peekStateCore r = Ok CborReaderState.Tag). { eapply (tag_state _ _ (listBytes (c :: l)) r [] Hh). by rewrite app_nil_r. }
    rewrite (st_bind_ok _ _ _ _ _ (call_ok _ _ _ _ (peekState_ok r _ (ready_wf _ _ Hr) Es))). rewrite bool_decide_eq_true_2 by done.
    pose proof (ready_cached _ _ _ Hr Es) as Hc. set (rc := set_cachedState r CborReaderState.Tag) in *. assert (Hpc : plain (currentFrame rc)) by exact Hp. clearbody rc.
    rewrite (st_bind_ok _ _ _ _ _ (call_ok _ _ _ _ (peekTag_exact rc 258 _ _ Hh ltac:(done) Hc))). cbn [Z.eqb Pos.eqb CborTag.Set_].
    rewrite (st_bind_ok _ _ _ _ _ (call_ok _ _ _ _ (readTag_exact rc 258 _ _ Hh Hc))). eexists. split; [reflexivity|]. rewrite app_nil_r. by eapply tagged_ready.
  - assert (Es : peekStateCore r = Ok CborReaderState.StartArray). { apply (starts_state Array (listBytes (c :: l)) r []); [done|by apply list_starts|by rewrite app_nil_r]. }
    rewrite (st_bind_ok _ _ _ _ _ (call_ok _ _ _ _ (peekState_ok r _ (ready_wf _ _ Hr) Es))). rewrite bool_decide_eq_false_2 by done.
    eexists. split; [reflexivity|]. rewrite app_nil_r. by apply ready_cached.
Qed.

Lemma hash_list_cons l : (0 <? zlen (A := string) l) = true -> exists h k, l = h :: k.
Proof. destruct l as [|h l]; [done|]. by exists h, l. Qed.

Lemma credential_list_cons l : (0 <? zlen (A := Credential) l) = true -> exists c k, l = c :: k.
Proof. destruct l as [|h l]; [done|]. by exists h, l. Qed.

Lemma hashes_read l : validList (T := string) l = true -> zlen (setBytes (T := string) l) < 2 ^ 53 ->
  exists s, CborSet.fromCbor Hash.fromCbor (Buffer_to_hex (setBytes (T := string) l)) = Ok s /\ CborSet.values s = l /\ CborSet.toCbor Hash.toCbor s = Ok (Buffer_to_hex (setBytes (T := string) l)).
Proof.
  intros Hl Hz. destruct (@fromCbor_standsFor _ _ (set_serializable (C := string) (T := string)) set_laws l Hl Hz) as (s & Es & [Hc Hw]). exists s. split; [exact Es|]. split; [|exact Hw].
  cbn in Hc. unfold CborSet.toCore in Hc. clear -Hc. revert l Hc. induction (CborSet.values s) as [|h k IH]; intros l; cbn; [by intros [= <-]|].
  destruct (mapM _ k) as [x|e|]; cbn; [|done..]. intros [= <-]. f_equal. by apply IH.
Qed.

Lemma credentials_read l : validList (T := Credential) l = true -> zlen (setBytes (T := Credential) l) < 2 ^ 53 ->
  exists s, CborSet.fromCbor Credential_fromCbor (Buffer_to_hex (setBytes (T := Credential) l)) = Ok s /\ CborSet.values s = l /\ CborSet.toCbor Credential_toCbor s = Ok (Buffer_to_hex (setBytes (T := Credential) l)).
Proof.
  intros Hl Hz. destruct (@fromCbor_standsFor _ _ (set_serializable (C := Credential) (T := Credential)) set_laws l Hl Hz) as (s & Es & [Hc Hw]). exists s. split; [exact Es|]. split; [|exact Hw].
  cbn in Hc. unfold CborSet.toCore in Hc. clear -Hc. revert l Hc. induction (CborSet.values s) as [|h k IH]; intros l; cbn; [by intros [= <-]|].
  destruct (mapM _ k) as [x|e|]; cbn; [|done..]. intros [= <-]. f_equal. by apply IH.
Qed.

Lemma new_toCbor {C T} `{SerializableLaws C T} l os : validList l = true -> Forall2 standsFor l os ->
  CborSet.toCbor toCbor_of (CborSet.new os) = Ok (Buffer_to_hex (setBytes l)).
Proof. apply set_emits. Qed.

Lemma self_stands (l : list string) : Forall (fun h => validCore h = true) l -> Forall2 (standsFor (C := string) (T := string)) l l.
Proof. induction 1 as [|h l Hh _ IH]; constructor; [|done]. destruct (@fromCore_standsFor _ _ hash_serializable hash_laws h Hh) as (o & [= <-] & Ho). done. Qed.

Lemma credentials_stand (l : list Credential) : Forall (fun c => validCore c = true) l -> Forall2 (standsFor (C := Credential) (T := Credential)) l l.
Proof. induction 1 as [|c l Hc _ IH]; constructor; [|done]. destruct (@fromCore_standsFor _ _ credential_serializable credential_laws c Hc) as (o & [= <-] & Ho). done. Qed.

Lemma set_ends {C T} `{SerializableLaws C T} : accepts (CborSet.fromCbor fromCbor_of) (fun _ => True).
Proof. eapply accepts_weaken; [exact (fromCbor_accepts (C := list C) (T := CborSet.t T))|done]. Qed.

Lemma credentials_end : accepts (CborSet.fromCbor Credential_fromCbor) (fun _ => True).
Proof. exact (@set_ends _ _ credential_serializable credential_laws). Qed.

Lemma hashes_end : accepts (CborSet.fromCbor Hash.fromCbor) (fun _ => True).
Proof. exact (@set_ends _ _ hash_serializable hash_laws). Qed.

Lemma form_ends : accepts (decode Guards.readForm) (fun _ => True).
Proof.
  apply (accepts_decode (fun _ => Guards.readForm)). intros _. eapply sound_bind.
  - instantiate (1 := fun _ => True). eapply sound_bind; [apply sound_peek|]. intros s _. case_bool_decide; [|by apply sound_ret].
    eapply sound_bind; [apply sound_peekTag|]. intros t _. case_bool; [|by apply sound_ret]. eapply sound_bind; [apply sound_tag|]. intros. by apply sound_ret.
  - intros _ _. eapply sound_bind; [apply sound_startArray|]. intros _ _. eapply sound_bind; [apply sound_peek|]. intros s _. by apply sound_ret.
Qed.

Lemma form_empty cbor b : decode Guards.readForm cbor = Ok b -> cbor <> "".
Proof. intros E ->. by vm_compute in E. Qed.

(** A decoded set remembers its blob. *)
Lemma set_remembers {T} (f : HexBlob -> Res T) cbor s : CborSet.fromCbor f cbor = Ok s -> CborSet.originalBytes s = Some cbor.
Proof.
  unfold CborSet.fromCbor, decode, mbind, ST_bind. destruct (CborSet.skipSetTag _) as [[[]|e|] r]; try done.
  destruct (call readStartArray r) as [[n|e|] r1]; try done. destruct (readWhileNot _ _ r1) as [[vs|e|] r2]; try done. by intros [= <-].
Qed.

#[export] Instance guards_laws : SerializableLaws Guards.core Guards.t.
Proof.
  split; cbn [bytesOf validCore fromCore_of fromCbor_of guards_serializable].
  - intros [l|l] [Hl _]%andb_true_iff; [exact (set_field (T := string) l Hl)|exact (set_field (T := Credential) l Hl)].
  - intros [l|l] [Hl _]%andb_true_iff; [exact (@bytesOf_not_null _ _ (set_serializable (C := string) (T := string)) set_laws l Hl)|exact (@bytesOf_not_null _ _ (set_serializable (C := Credential) (T := Credential)) set_laws l Hl)].
  - intros [l|l] [Hl Hn]%andb_true_iff; pose proof (proj2 (validList_spec _ Hl)) as Hf.
    + exists (Guards.fromKeyHashes l). split; [done|]. split; [done|]. exact (new_toCbor l l Hl (self_stands l Hf)).
    + destruct (credential_list_cons l Hn) as (c & k & ->). exists (Guards.credentialSet (CborSet.new (c :: k))). split; [done|]. split; [done|].
      exact (new_toCbor _ _ Hl (credentials_stand _ Hf)).
  - intros [l|l] [Hl Hn]%andb_true_iff Hz; cbn [guardBytes] in *; unfold Guards.fromCbor.
    + destruct (hashes_read l Hl Hz) as (s & Es & Hv & Hw). destruct (hash_list_cons l Hn) as (h & k & ->). pose proof (Forall_inv (proj2 (validList_spec _ Hl))) as Hh.
      exists (Guards.keyHashSet s). split; [|split; [cbn; by rewrite Hv|exact Hw]].
      rewrite (set_form ByteString h k ltac:(done) (starts_blob 56 _ Hh ltac:(done)) Hl Hz). cbn -[CborSet.fromCbor setBytes]. unfold Guards.keyHashesFromCbor. by rewrite Es.
    + destruct (credentials_read l Hl Hz) as (s & Es & Hv & Hw). destruct (credential_list_cons l Hn) as (c & k & ->).
      exists (Guards.credentialSet s). split; [|split; [cbn; by rewrite Hv|exact Hw]].
      rewrite (set_form Array c k ltac:(done) (starts_head Array 2 _ ltac:(lia)) Hl Hz). cbn -[CborSet.fromCbor setBytes]. by rewrite Es.
  - intros cbor Hz. unfold Guards.fromCbor. pose proof (form_ends cbor Hz) as [Hf _]. pose proof (form_empty cbor) as He.
    destruct (decode Guards.readForm cbor) as [b|e|]; [|by split|done]. specialize (He b eq_refl). cbn [mbind outcome_bind]. destruct b.
    + split; [apply bind_fuel; [by apply credentials_end|done]|]. intros o. destruct (CborSet.fromCbor Credential_fromCbor cbor) as [s|e|]; try done. by intros [= <-].
    + split; [apply bind_fuel; [by apply hashes_end|done]|]. intros o. unfold Guards.keyHashesFromCbor.
      destruct (CborSet.fromCbor Hash.fromCbor cbor) as [s|e|] eqn:E; try done. intros [= <-]. cbn [typed guards_serializable guardsTyped].
      rewrite (set_remembers _ _ _ E). apply andb_true_iff. split; [by apply negb_true_iff, String.eqb_neq|by apply Z.ltb_lt].
Qed.
End guards.

(** ** Maps from credentials *)

Lemma sorted_by_key {V} (l : list (string * V)) : NoDup l.*1 -> sort_by string_gt l.*1 = l.*1 -> sort_by (fun a b => string_gt a.1 b.1) l = l.
Proof. intros Hd Hs. apply keys_determine; [done|by rewrite sort_by_perm|]. by rewrite <- sort_by_fmap. Qed.

Definition credentialHex (c : Credential) : HexBlob := Buffer_to_hex (credentialBytes c).

Section credential_map.
Context {V O : Type} (enc : V -> list Z) (valid : V -> bool) (R : V -> O -> Prop) (write : O -> Enc unit) (read : Dec O).
Context (value_field : forall v, valid v = true -> field (enc v)).
Context (value_emits : forall v o, valid v = true -> R v o -> emits (write o) (enc v)).
Context (value_reads : forall v, valid v = true -> zlen (enc v) < 2 ^ 53 -> exists o, reads read (enc v) o /\ R v o).

Definition credentialEntry (e : Credential * V) : list Z * list Z := (credentialBytes e.1, enc e.2).
Definition credentialMapBytes (l : list (Credential * V)) : list Z := mapBytes false (map credentialEntry l).

(** Entries of different credentials, in the order of their encodings. *)
Definition isCredentialMap (l : list (Credential * V)) : bool :=
  (zlen l <? 2 ^ 53) && (0 <? zlen l) && forallb (fun e => isCredential e.1 && valid e.2) l &&
  (bool_decide (NoDup (credentialHex <$> l.*1)) && bool_decide (sort_by string_gt (credentialHex <$> l.*1) = credentialHex <$> l.*1)).

Lemma isCredentialMap_spec l : isCredentialMap l = true -> 0 < zlen l < 2 ^ 53 /\ Forall (fun e => isCredential e.1 = true /\ valid e.2 = true) l /\
  NoDup (credentialHex <$> l.*1) /\ sort_by string_gt (credentialHex <$> l.*1) = credentialHex <$> l.*1.
Proof.
  intros [[[Hz Hn]%andb_true_iff Hl]%andb_true_iff [Hd%bool_decide_eq_true Hs%bool_decide_eq_true]%andb_true_iff]%andb_true_iff. zb.
  split_and!; [done..| |done|done]. apply List.Forall_forall. intros e He. rewrite forallb_forall in Hl. by apply andb_true_iff, Hl.
Qed.

Definition credentialMapIs (l : list (Credential * V)) (m : list (Credential * O)) : Prop := Forall2 (fun e x => x.1 = e.1 /\ R e.2 x.2) l m.

Lemma credentialMap_entries l : Forall (fun e => isCredential e.1 = true /\ valid e.2 = true) l -> Forall (fun e => field (credentialEntry e).1 /\ field (credentialEntry e).2) l.
Proof. intros Hl. eapply Forall_impl; [exact Hl|]. intros e [Hc Hv]. split; [by apply field_credential|by apply value_field]. Qed.

Lemma credentialMap_field l : isCredentialMap l = true -> field (credentialMapBytes l).
Proof. intros (Hz & Hl & _)%isCredentialMap_spec. apply entries_field; [by apply credentialMap_entries|lia]. Qed.

Lemma credential_exact c : isCredential c = true -> Credential_toCbor c = Ok (credentialHex c).
Proof. intros [Ht Hh]%andb_true_iff. destruct (isHash_spec _ _ Hh) as (Hb & _ & Hz). apply Credential_toCbor_exact; [done|lia]. Qed.

Lemma credentialMap_sorted l m : isCredentialMap l = true -> credentialMapIs l m ->
  sortedCredentials m = Ok ((fun x : Credential * O => (credentialHex x.1, x.2)) <$> m) /\ zlen m = zlen l.
Proof.
  intros (Hz & Hl & Hd & Hs)%isCredentialMap_spec Hm. assert (Ek : ((fun x : Credential * O => (credentialHex x.1, x.2)) <$> m).*1 = credentialHex <$> l.*1).
  { clear -Hm. induction Hm as [|e x l m [E _] _ IH]; [done|]. cbn. by f_equal; [rewrite E|]. }
  split; [|unfold zlen; by rewrite (Forall2_length _ _ _ Hm)]. unfold sortedCredentials.
  assert (E : mapM (fun entry : Credential * O => cbor ← Credential_toCbor entry.1; Ok (cbor, entry.2)) m = Ok ((fun x : Credential * O => (credentialHex x.1, x.2)) <$> m)).
  { clear -Hm Hl. induction Hm as [|e x l m [E _] _ IH]; [done|]. inversion_clear Hl as [|? ? [Hc _] Hl']. cbn. rewrite E, (credential_exact _ Hc). cbn. by rewrite (IH Hl'). }
  rewrite E. cbn [mbind outcome_bind]. f_equal. rewrite JsMapFacts.of_entries_nodup; [|unfold JsMap.wf, JsMap.keys; by rewrite Ek]. apply sorted_by_key; by rewrite Ek.
Qed.

Lemma credentialMap_emits l m : isCredentialMap l = true -> credentialMapIs l m -> emits (writeCredentials write m) (credentialMapBytes l).
Proof.
  intros Hl Hm. destruct (credentialMap_sorted l m Hl Hm) as [Es Ez]. apply isCredentialMap_spec in Hl as (Hz & Hl & _).
  unfold writeCredentials. eapply emits_lift; [exact Es|]. cbv beta. replace (zlen (_ <$> m)) with (zlen l) by (rewrite <- Ez; unfold zlen; by rewrite length_fmap).
  unfold credentialMapBytes, mapBytes. rewrite zlen_map. apply emits_bind; [apply emits_call, writeTypeValue_head; lia|].
  apply emits_forEach. rewrite map_map. clear Es Ez Hz. induction Hm as [|e x l m [E Hx] _ IH]; [constructor|]. inversion_clear Hl as [|? ? [Hc Hv] Hl'].
  cbn [map fmap list_fmap]. constructor; [|by apply IH]. cbn [fst snd]. unfold entryBytes, credentialEntry. cbn [fst snd]. apply emits_bind; [|by apply value_emits].
  rewrite E. by apply emits_encoded; [apply field_credential|].
Qed.

Lemma credentialMap_reads l : isCredentialMap l = true -> zlen (credentialMapBytes l) < 2 ^ 53 -> exists m,
  reads (readMapOf (credential ← readNested Credential_fromCbor; v ← read; mret (credential, v))) (credentialMapBytes l) m /\ credentialMapIs l m /\ zlen m = zlen l.
Proof.
  intros (Hz & Hl & _)%isCredentialMap_spec Hn. assert (Hs : zlen (concat (map entryBytes (map credentialEntry l))) < 2 ^ 53).
  { unfold credentialMapBytes, mapBytes in Hn. rewrite zlen_app in Hn. pose proof (zlen_nonneg (CborWriter.head Map (zlen (map credentialEntry l)))). lia. }
  enough (He : exists m, elements 2 (credential ← readNested Credential_fromCbor; v ← read; mret (credential, v)) (map entryBytes (map credentialEntry l)) m /\ credentialMapIs l m).
  { destruct He as (m & He & Hm). exists m. split; [|split; [done|unfold zlen; by rewrite (Forall2_length _ _ _ Hm)]]. apply readMapOf_reads; [rewrite zlen_map; lia|done|].
    apply Forall_map. eapply Forall_impl; [by apply credentialMap_entries|]. by intros e [[? ?] [? ?]]. }
  clear Hn Hz. induction Hl as [|e l [Hc Hv] _ IH]; [exists []; split; constructor|]. cbn [map concat] in Hs. rewrite zlen_app in Hs.
  pose proof (zlen_nonneg (entryBytes (credentialEntry e))). pose proof (zlen_nonneg (concat (map entryBytes (map credentialEntry l)))). destruct IH as (m & He & Hm); [lia|].
  assert (Ez : zlen (entryBytes (credentialEntry e)) = zlen (credentialBytes e.1) + zlen (enc e.2)) by by rewrite <- zlen_app.
  pose proof (zlen_nonneg (credentialBytes e.1)). pose proof (zlen_nonneg (enc e.2)).
  destruct (value_reads e.2 Hv ltac:(lia)) as (o & Ro & Ho). exists ((e.1, o) :: m). split; [|by constructor]. constructor; [|done]. split.
  - exists (credentialBytes e.1), (enc e.2). split; [by apply field_credential|done].
  - apply (readsN_bind 1 1 _ _ _ _ e.1); [lia|lia| |].
    + assert (Hcz : zlen (credentialBytes e.1) < 2 ^ 53) by lia. destruct (@nested_reads _ _ credential_serializable credential_laws e.1 Hc Hcz) as (c & Rc & [[= <-] _]). exact Rc.
    + eapply reads_last; [exact Ro|done].
Qed.

Lemma sound_credentialMap : sound read (fun _ => True) ->
  sound (readMapOf (credential ← readNested Credential_fromCbor; v ← read; mret (credential, v))) (Forall (fun _ => True)).
Proof.
  intros Hr. apply sound_map. eapply (advances_bind _ _ (fun o => typed o = true)); [exact (advances_nested Credential_fromCbor _ (@fromCbor_accepts _ _ credential_serializable credential_laws))|].
  intros c _. eapply sound_bind; [exact Hr|]. intros v _. by apply sound_ret.
Qed.
End credential_map.

(** ** Amounts by account *)

Section accounts.
Context `{Crc32} {CL : Crc32Laws} `{BaseEncoding} {BE : Bech32Ends}.

Definition hexEntry (w : string * Z) : HexBlob * Z := (Buffer_to_hex (rewardBytes w.1), w.2).

(** Amounts by different accounts, in the order in which they are encoded. *)
Definition areAmounts (l : list (string * Z)) : bool :=
  (zlen l <? 2 ^ 53) && (0 <? zlen l) && forallb isWithdrawal l &&
  (bool_decide (NoDup (map hexEntry l).*1) && bool_decide (sort_by TreasuryWithdrawalsAction.entryGreater (map hexEntry l) = map hexEntry l)).

Lemma areAmounts_spec l : areAmounts l = true -> 0 < zlen l < 2 ^ 53 /\ Forall (fun w => isRewardText w.1 = true /\ isInt64 w.2 = true) l /\
  NoDup (map hexEntry l).*1 /\ sort_by TreasuryWithdrawalsAction.entryGreater (map hexEntry l) = map hexEntry l /\ JsMap.of_entries l = l.
Proof.
  intros [[[Hz Hn]%andb_true_iff Hl]%andb_true_iff [Hd%bool_decide_eq_true Hs%bool_decide_eq_true]%andb_true_iff]%andb_true_iff. zb. split_and!; [done..| |done|done|].
  - apply List.Forall_forall. intros w Hw. rewrite forallb_forall in Hl. by apply andb_true_iff, Hl.
  - apply JsMapFacts.of_entries_nodup. unfold JsMap.wf, JsMap.keys. change (map hexEntry l) with (hexEntry <$> l) in Hd.
    assert (E : (hexEntry <$> l).*1 = (fun a => Buffer_to_hex (rewardBytes a)) <$> l.*1) by (clear; induction l as [|w l IH]; [done|]; cbn; by f_equal).
    rewrite E in Hd. by eapply NoDup_fmap_1.
Qed.

Lemma amounts_fields l : areAmounts l = true -> Forall (fun w => field (withdrawalEntry w).1 /\ field (withdrawalEntry w).2) l.
Proof. intros (_ & Hl & _)%areAmounts_spec. eapply Forall_impl; [exact Hl|]. intros w [? ?]. split; [by apply account_field|by apply field_int]. Qed.

Lemma amounts_field l : areAmounts l = true -> field (withdrawalsBytes l).
Proof. intros Hl. apply entries_field; [by apply amounts_fields|]. apply areAmounts_spec in Hl as [Hz _]. lia. Qed.

Lemma accountHex_exact what account : isRewardText account = true -> accountHex what account = Ok (Buffer_to_hex (rewardBytes account)).
Proof.
  intros (a & n & Ha)%isRewardText_spec. unfold accountHex. rewrite (reward_parsed _ _ _ Ha). cbn [mbind outcome_bind]. by rewrite (reward_reward _ _ _ Ha), (reward_packed _ _ _ Ha).
Qed.

Lemma amounts_sorted what l : areAmounts l = true -> sortedAccounts what l = Ok (map hexEntry l).
Proof.
  intros (_ & Hl & Hd & Hs & _)%areAmounts_spec. unfold sortedAccounts.
  assert (E : mapM (fun entry => hex ← accountHex what entry.1; Ok (hex, entry.2)) l = Ok (map hexEntry l)).
  { clear Hd Hs. induction Hl as [|w l [Ha _] _ IH]; [done|]. cbn. rewrite (accountHex_exact what _ Ha). cbn. by rewrite IH. }
  rewrite E. cbn [mbind outcome_bind]. rewrite JsMapFacts.of_entries_nodup by done. by rewrite Hs.
Qed.

Lemma amounts_emit what l : areAmounts l = true -> emits (writeAccounts what l) (withdrawalsBytes l).
Proof.
  intros Hl. unfold writeAccounts. eapply emits_lift; [by apply amounts_sorted|]. cbv beta. apply areAmounts_spec in Hl as (Hz & Hl & _).
  rewrite zlen_map. unfold withdrawalsBytes, mapBytes. rewrite zlen_map. apply emits_bind; [apply emits_call, writeTypeValue_head; lia|].
  apply emits_forEach. rewrite map_map. clear Hz. induction Hl as [|w l [Ha Hq] _ IH]; [constructor|]. cbn [map]. constructor; [|exact IH].
  cbn [hexEntry fst snd]. apply emits_bind; [|by apply emits_int]. destruct (isRewardText_spec _ Ha) as (a & n & Hr). destruct (reward_bytes _ _ _ Hr).
  rewrite Buffer_hex_roundtrip by done. by apply account_string.
Qed.

Lemma amounts_read l : areAmounts l = true -> reads (readMapOf readAmount) (withdrawalsBytes l) l.
Proof.
  intros Hl. apply entries_reads; [by apply amounts_fields|apply areAmounts_spec in Hl as [Hz _]; lia|].
  apply areAmounts_spec in Hl as (_ & Hl & _). eapply Forall_impl; [exact Hl|]. intros [a q] [Ha Hq].
  apply (readsN_bind 1 1 _ _ _ _ a); [lia|lia|by apply account_reads|]. by apply (reads_fmap 1 _ (fun q => (a, q))), reads_int.
Qed.

Lemma sound_amounts : sound (readMapOf readAmount) (Forall (fun w => isInt64 w.2 = true)).
Proof.
  apply sound_map. eapply (advances_bind _ _ (fun _ => True)); [apply advances_account|]. intros a _.
  eapply sound_bind; [apply sound_int|]. intros q Hq. by apply sound_ret.
Qed.

Lemma withdrawals_reads l : areAmounts l = true -> reads readWithdrawals (withdrawalsBytes l) l.
Proof.
  intros Hl. pose proof (areAmounts_spec l Hl) as (_ & _ & _ & _ & Hm). unfold readWithdrawals. eapply reads_last; [by apply amounts_read|]. intros r. by rewrite Hm.
Qed.

Lemma deposits_reads body l : areAmounts l = true -> reads (readDeposits body) (withdrawalsBytes l) l.
Proof.
  intros Hl. pose proof (areAmounts_spec l Hl) as (Hz & _ & _ & _ & Hm). unfold readDeposits. eapply reads_last; [by apply amounts_read|]. intros r. rewrite Hm.
  unfold nonEmptyMap. rewrite (proj2 (Z.eqb_neq _ _)) by lia. done.
Qed.
End accounts.

(** ** One kind of field *)

(** Outputs are read with the option of the decoder. *)
Section strict.
Context `{Crc32} {CL : Crc32Laws} `{BaseEncoding} (strict : bool).

Definition output_strict : Serializable TransactionOutput.core TransactionOutput.t := {|
  toCbor_of := TransactionOutput.toCbor;
  fromCbor_of := TransactionOutput.fromCborWith strict;
  toCore_of := TransactionOutput.toCore;
  fromCore_of := TransactionOutput.fromCore;
  bytesOf := outputBytes;
  validCore := isOutput;
  typed o := isUInt (Value.coin (TransactionOutput.amount o))
|}.

Lemma output_strict_laws : @SerializableLaws _ _ output_strict.
Proof.
  split; cbn [bytesOf validCore fromCore_of fromCbor_of output_strict].
  - exact (@bytesOf_field _ _ output_serializable output_laws).
  - exact (@bytesOf_not_null _ _ output_serializable output_laws).
  - exact (@fromCore_standsFor _ _ output_serializable output_laws).
  - intros c (a & la & Hp)%output_parts Hz. destruct (output_fromCbor strict c a la Hp Hz) as (o & Eo & Ho & Hn). exists o. split; [done|].
    split; [by eapply stands_toCore|]. destruct (output_field c a la Hp). cbn. unfold TransactionOutput.toCbor. rewrite Hn. by apply cached_some.
  - apply accepts_output.
Qed.
End strict.

Section fields.
Context `{Era} `{Crc32} {CL : Crc32Laws} `{BaseEncoding} {BE : Bech32Ends} `{Bech32} `{IpAddress} {IL : IpAddressLaws} `{FractionJs}.

Definition datumBytes : option CorePlutusData -> list Z := nullableBytes (bytesOf (T := PlutusData)).
Definition balanceBytes : AccountBalanceInterval.core -> list Z := bytesOf (T := AccountBalanceInterval.t).

Definition fieldBytes (k : fieldKind) : fieldCore k -> list Z :=
  match k with
  | InputSet => setBytes (T := TransactionInput.t)
  | OutputList => listBytes (T := TransactionOutput.t)
  | Coin | Number => intBytes
  | CertificateSet => setBytes (T := Certificate.t)
  | Withdrawals | Deposits => withdrawalsBytes
  | UpdateProposal => bytesOf (T := Update.t)
  | HashText => blobBytes
  | MintMap => fun l => multiAssetBytes (multiAssetOf l)
  | GuardSet => guardBytes
  | OneOutput => outputBytes
  | Votes => bytesOf (T := VotingProcedures.t)
  | ProposalSet => setBytes (T := ProposalProcedure.t)
  | GuardMap => credentialMapBytes datumBytes
  | IntervalMap => credentialMapBytes balanceBytes
  end.

(** Assets in their order, with any quantities. *)
Definition isMint (l : list (string * Z)) : bool := isTokenMap isInt64 l && bool_decide (canonicalAssets l = l) && (0 <? zlen l).

(** Sets and maps that are there have elements. *)
Definition validField (k : fieldKind) : fieldCore k -> bool :=
  match k with
  | InputSet => fun l => validList (T := TransactionInput.t) l && (0 <? zlen l)
  | OutputList => validList (T := TransactionOutput.t)
  | Coin => isInt64
  | Number => isSafe
  | CertificateSet => fun l => validList (T := Certificate.t) l && (0 <? zlen l)
  | Withdrawals | Deposits => areAmounts
  | UpdateProposal => validCore (T := Update.t)
  | HashText => isHash 64
  | MintMap => isMint
  | GuardSet => isGuards
  | OneOutput => isOutput
  | Votes => validCore (T := VotingProcedures.t)
  | ProposalSet => fun l => validList (T := ProposalProcedure.t) l && (0 <? zlen l)
  | GuardMap => isCredentialMap (validOption (T := PlutusData))
  | IntervalMap => isCredentialMap (validCore (T := AccountBalanceInterval.t))
  end.

(** The field holds the value and is written as specified. *)
Record fieldHolds (k : fieldKind) (c : fieldCore k) (v : fieldValue k) : Prop := {
  field_core : fieldToCore k v = Ok c;
  field_writes : emits (writeFieldValue k v) (fieldBytes k c);
  field_there : isPresent k v = true
}.

Lemma isMint_spec l : isMint l = true -> isTokenMap isInt64 l = true /\ canonicalAssets l = l /\ 0 < zlen l.
Proof. intros [[Ht Hc%bool_decide_eq_true]%andb_true_iff Hz]%andb_true_iff. zb. done. Qed.

(** *** Sets *)

Lemma set_size {C T} `{Serializable C T} (l : list C) (os : list T) : Forall2 standsFor l os -> (0 <? zlen l) = true -> (0 <? zlen os) = true.
Proof. intros Ho. unfold zlen. by rewrite (Forall2_length _ _ _ Ho). Qed.

(** A set that stands for a list holds as many objects. *)
Lemma set_core_values {C T} `{Serializable C T} (l : list C) (s : CborSet.t T) : mapM toCore_of (CborSet.values s) = Ok l -> CborSet.size s = zlen l.
Proof.
  unfold CborSet.size. generalize (CborSet.values s). intros os. revert l. induction os as [|o os IH]; intros l; cbn; [by intros [= <-]|].
  destruct (toCore_of o); cbn; [|done..]. destruct (mapM toCore_of os) as [k|e|]; cbn; [|done..]. intros [= <-]. rewrite !zlen_cons. by rewrite (IH k).
Qed.

Lemma set_emitted {C T} `{Serializable C T} `{!SerializableLaws C T} (l : list C) (s : CborSet.t T) : validList l = true ->
  @standsFor _ _ set_serializable l s -> emits (writeEncoded (CborSet.toCbor toCbor_of s)) (setBytes l).
Proof. intros Hl Hs. exact (@nested_emits _ _ set_serializable set_laws l s Hl Hs). Qed.

Ltac set_holds I L := intros [Hl Hn]%andb_true_iff Hs; split;
  [exact (proj1 Hs) | exact (@set_emitted _ _ I L _ _ Hl Hs) | cbn [isPresent]; by rewrite (@set_core_values _ _ I _ _ (proj1 Hs))].

Lemma inputs_hold l s : validField InputSet l = true -> @standsFor _ _ (set_serializable (T := TransactionInput.t)) l s -> fieldHolds InputSet l s.
Proof. set_holds input_serializable input_laws. Qed.
Lemma certificates_hold l s : validField CertificateSet l = true -> @standsFor _ _ (set_serializable (T := Certificate.t)) l s -> fieldHolds CertificateSet l s.
Proof. set_holds certificate_serializable certificate_laws. Qed.
Lemma proposals_hold l s : validField ProposalSet l = true -> @standsFor _ _ (set_serializable (T := ProposalProcedure.t)) l s -> fieldHolds ProposalSet l s.
Proof. set_holds ProposalFacts.procedure_serializable ProposalFacts.procedure_laws. Qed.

(** *** Embedded objects, numbers and hashes *)

Ltac object_holds I L := intros Hc Ho; split; [exact (proj1 Ho)|exact (@nested_emits _ _ I L _ _ Hc Ho)|done].

Lemma output_holds c o : validField OneOutput c = true -> @standsFor _ _ output_serializable c o -> fieldHolds OneOutput c o.
Proof. object_holds output_serializable output_laws. Qed.
Lemma votes_hold c o : validField Votes c = true -> @standsFor _ _ voting_serializable c o -> fieldHolds Votes c o.
Proof. object_holds voting_serializable voting_laws. Qed.
Lemma update_holds c o : validField UpdateProposal c = true -> @standsFor _ _ update_serializable c o -> fieldHolds UpdateProposal c o.
Proof. object_holds update_serializable update_laws. Qed.

Lemma guards_size (g : Guards.core) (o : Guards.t) : guardsToCore o = g -> isGuards g = true -> (0 <? Guards.size o) = true.
Proof. intros <-. by destruct o; cbn; intros [_ ?]%andb_true_iff. Qed.

Lemma guards_hold c o : validField GuardSet c = true -> @standsFor _ _ guards_serializable c o -> fieldHolds GuardSet c o.
Proof.
  intros Hc Ho. split; [exact (proj1 Ho)|exact (@nested_emits _ _ guards_serializable guards_laws _ _ Hc Ho)|].
  destruct Ho as [[= Hv] _]. by eapply guards_size.
Qed.

Lemma outputs_hold l os : validField OutputList l = true -> Forall2 (@standsFor _ _ output_serializable) l os -> fieldHolds OutputList l os.
Proof. intros Hl Ho. split; [exact (@list_toCore _ _ output_serializable l os Ho)|exact (@list_emits _ _ output_serializable output_laws l os Hl Ho)|done]. Qed.

Lemma coin_holds z : isInt64 z = true -> fieldHolds Coin z z.
Proof. intros Hz. split; [done|by apply emits_int|done]. Qed.
Lemma number_field_holds z : isSafe z = true -> fieldHolds Number z z.
Proof. intros Hz. split; [done|by apply emits_int, safe_int64|done]. Qed.
Lemma hash_holds h : isHash 64 h = true -> fieldHolds HashText h h.
Proof. intros Hh. split; [done|by apply (emits_hash 64)|done]. Qed.

(** *** Maps *)

Lemma withdrawals_hold l : areAmounts l = true -> fieldHolds Withdrawals l l.
Proof. intros Hl. split; [done|by apply amounts_emit|]. apply areAmounts_spec in Hl as [[Hz _] _]. by apply Z.ltb_lt. Qed.
Lemma deposits_hold l : areAmounts l = true -> fieldHolds Deposits l l.
Proof. intros Hl. split; [done|by apply amounts_emit|]. apply areAmounts_spec in Hl as [[Hz _] _]. by apply Z.ltb_lt. Qed.

Lemma mint_emits l : isMint l = true -> emits (writeMint l) (multiAssetBytes (multiAssetOf l)).
Proof.
  intros (Ht & _ & _)%isMint_spec. destruct (tokenMap_size l (proj1 (tokenMap_valid _ _ Ht))) as (m & Em & Es & Ez).
  unfold writeMint. eapply emits_lift; [exact Em|]. cbv beta. unfold JsMap.size. rewrite Es. change (Z.of_nat (length m)) with (zlen m). rewrite Ez.
  pose proof (multiAsset_emits isInt64 (fun q Hq => Hq) l Ht m Es) as H'. unfold writeMultiAsset, JsMap.size in H'. cbv zeta in H'. by rewrite Es in H'.
Qed.

Lemma mint_holds l : isMint l = true -> fieldHolds MintMap l l.
Proof. intros Hl. split; [done|by apply mint_emits|]. apply isMint_spec in Hl as (_ & _ & Hz). by apply Z.ltb_lt. Qed.

Lemma mint_reads l : isMint l = true -> reads readMint (multiAssetBytes (multiAssetOf l)) l.
Proof.
  intros (Ht & Hc & _)%isMint_spec. unfold readMint. eapply reads_last; [apply (multiAsset_reads isInt64 _ (fun q Hq => Hq) (fun q Hq => reads_int q Hq) l Ht)|].
  intros r. unfold st_lift. rewrite (multiAssets_canonical l (proj1 (tokenMap_valid _ _ Ht))). by rewrite Hc.
Qed.

Lemma datumBytes_field d : validOption (T := PlutusData) d = true -> field (datumBytes d).
Proof. exact (option_field (T := PlutusData) d). Qed.

Definition datumIs (c : option CorePlutusData) (d : option PlutusData) : Prop := standsForOption c d.
Definition balanceIs (c : AccountBalanceInterval.core) (i : AccountBalanceInterval.t) : Prop := standsFor c i.

Lemma datum_emits c d : validOption (T := PlutusData) c = true -> datumIs c d -> emits (writeDatum d) (datumBytes c).
Proof. exact (option_emits (C := CorePlutusData) (T := PlutusData) c d). Qed.

Lemma balance_emits c i : validCore (T := AccountBalanceInterval.t) c = true -> balanceIs c i -> emits (writeInterval i) (balanceBytes c).
Proof. exact (@nested_emits _ _ balance_serializable balance_laws c i). Qed.

Lemma datum_core c d : datumIs c d -> match d with Some d => c ← PlutusData.toCore d; Ok (Some c) | None => Ok None end = Ok c.
Proof. destruct c as [c|], d as [d|]; try done. intros [Hc _]. change (PlutusData.toCore d = Ok c) in Hc. by rewrite Hc. Qed.

Lemma present_map {A B} (P : A -> B -> Prop) (l : list A) (m : list B) : Forall2 P l m -> 0 < zlen l -> (0 <? zlen m) = true.
Proof. intros Hm Hz. apply Z.ltb_lt. unfold zlen in *. by rewrite <- (Forall2_length _ _ _ Hm). Qed.

Lemma guardMap_holds l m : validField GuardMap l = true -> credentialMapIs datumIs l m -> fieldHolds GuardMap l m.
Proof.
  intros Hl Hm. split.
  - cbn. clear Hl. induction Hm as [|[c d] [c' o] l m [E Hd] _ IH]; [done|]. cbn [fst snd] in *. subst c'. cbn [mapM]. cbn [fst snd]. pose proof (datum_core _ _ Hd) as Ed.
    destruct o as [o|]; [destruct (PlutusData.toCore o) as [x|e|]; try done|]; injection Ed as <-; cbn [mbind outcome_bind]; by rewrite IH.
  - exact (credentialMap_emits datumBytes _ datumIs writeDatum datum_emits l m Hl Hm).
  - apply isCredentialMap_spec in Hl as [Hz _]. eapply present_map; [exact Hm|lia].
Qed.

Lemma intervalMap_holds l m : validField IntervalMap l = true -> credentialMapIs balanceIs l m -> fieldHolds IntervalMap l m.
Proof.
  intros Hl Hm. split.
  - cbn. f_equal. clear Hl. induction Hm as [|[c d] [c' o] l m [E [[= Hd] _]] _ IH]; [done|]. cbn [fst snd] in *. cbn [fmap list_fmap]. cbn [fst snd]. subst. by f_equal.
  - exact (credentialMap_emits balanceBytes _ balanceIs writeInterval balance_emits l m Hl Hm).
  - apply isCredentialMap_spec in Hl as [Hz _]. eapply present_map; [exact Hm|lia].
Qed.

(** *** All kinds *)

Lemma field_kind_field k (c : fieldCore k) : validField k c = true -> field (fieldBytes k c).
Proof.
  destruct k; cbn [fieldCore] in c; intros Hc.
  - apply andb_true_iff in Hc as [Hl _]. exact (@set_field _ _ _ _ input_laws c Hl).
  - exact (@list_field _ _ _ output_laws c Hc).
  - by apply field_int.
  - by apply field_int, safe_int64.
  - apply andb_true_iff in Hc as [Hl _]. exact (@set_field _ _ _ _ certificate_laws c Hl).
  - by apply amounts_field.
  - exact (@bytesOf_field _ _ update_serializable update_laws c Hc).
  - by apply (field_hash 64).
  - apply isMint_spec in Hc as (Ht & _). exact (multiAsset_field isInt64 (fun q Hq => Hq) c Ht).
  - exact (@bytesOf_field _ _ guards_serializable guards_laws c Hc).
  - exact (@bytesOf_field _ _ output_serializable output_laws c Hc).
  - exact (@bytesOf_field _ _ voting_serializable voting_laws c Hc).
  - apply andb_true_iff in Hc as [Hl _]. exact (@set_field _ _ _ _ ProposalFacts.procedure_laws c Hl).
  - exact (credentialMap_field datumBytes _ datumBytes_field c Hc).
  - by apply amounts_field.
  - exact (credentialMap_field balanceBytes _ (@bytesOf_field _ _ balance_serializable balance_laws) c Hc).
Qed.

Lemma guardMap_fromCore l : validField GuardMap l = true -> exists m, fieldFromCore GuardMap l = Ok (Some m) /\ credentialMapIs datumIs l m.
Proof.
  intros (_ & Hl & _)%isCredentialMap_spec. unfold fieldFromCore.
  enough (E : exists m, mapM (fun entry : Credential * option CorePlutusData =>
    match entry.2 with Some c => d ← PlutusData.fromCore c; Ok (entry.1, Some d) | None => Ok (entry.1, None) end) l = Ok m /\ credentialMapIs datumIs l m).
  { destruct E as (m & E & Hm). exists m. by rewrite E. }
  induction Hl as [|[c d] l [_ Hd] _ (m & E & Hm)]; [exists []; by split; [|constructor]|]. cbn [mapM fst snd]. destruct d as [d|].
  - destruct (@fromCore_standsFor _ _ data_serializable data_laws d Hd) as (o & Eo & Ho). exists ((c, Some o) :: m). split; [|by constructor].
    change (PlutusData.fromCore d = Ok o) in Eo. rewrite Eo. cbn [mbind outcome_bind]. by rewrite E.
  - exists ((c, None) :: m). split; [|by constructor]. cbn [mbind outcome_bind]. by rewrite E.
Qed.

Lemma intervalMap_fromCore l : validField IntervalMap l = true -> exists m, fieldFromCore IntervalMap l = Ok (Some m) /\ credentialMapIs balanceIs l m.
Proof.
  intros (_ & Hl & _)%isCredentialMap_spec. unfold fieldFromCore.
  enough (E : exists m, mapM (fun entry : Credential * AccountBalanceInterval.core => i ← AccountBalanceInterval.fromCore entry.2; Ok (entry.1, i)) l = Ok m /\ credentialMapIs balanceIs l m).
  { destruct E as (m & E & Hm). exists m. by rewrite E. }
  induction Hl as [|[c d] l [_ Hd] _ (m & E & Hm)]; [exists []; by split; [|constructor]|]. cbn [mapM fst snd].
  destruct (@fromCore_standsFor _ _ balance_serializable balance_laws d Hd) as (o & Eo & Ho). exists ((c, o) :: m). split; [|by constructor].
  change (AccountBalanceInterval.fromCore d = Ok o) in Eo. rewrite Eo. cbn [mbind outcome_bind]. by rewrite E.
Qed.

Ltac object_made I L c Hc :=
  let o := fresh "o" in let Eo := fresh "Eo" in let Ho := fresh "Ho" in destruct (@fromCore_standsFor _ _ I L c Hc) as (o & Eo & Ho); exists o; split.
Ltac set_made I L c Hc :=
  let o := fresh "o" in let Eo := fresh "Eo" in let Ho := fresh "Ho" in
  destruct (@fromCore_standsFor _ _ (@set_serializable _ _ _ I) (@set_laws _ _ _ I L) c (proj1 (proj1 (andb_true_iff _ _) Hc))) as (o & Eo & Ho); exists o; split.

Lemma field_kind_fromCore k (c : fieldCore k) : validField k c = true -> exists v, fieldFromCore k c = Ok (Some v) /\ fieldHolds k c v.
Proof.
  destruct k; cbn [fieldCore] in c; intros Hc.
  - set_made input_serializable input_laws c Hc; [cbn in Eo |- *; by rewrite Eo|by apply inputs_hold].
  - destruct (@list_fromCore _ _ _ output_laws c Hc) as (os & E & Hos). exists os. split; [|by apply outputs_hold].
    change (mapM TransactionOutput.fromCore c = Ok os) in E. cbn [fieldFromCore]. by rewrite E.
  - exists c. split; [done|by apply coin_holds].
  - exists c. split; [done|by apply number_field_holds].
  - set_made certificate_serializable certificate_laws c Hc; [change (CborSet.fromCore Certificate.fromCore c = Ok o) in Eo; cbn [fieldFromCore]; by rewrite Eo|by apply certificates_hold].
  - exists c. split; [|by apply withdrawals_hold]. cbn [fieldFromCore]. by destruct (areAmounts_spec c Hc) as (_ & _ & _ & _ & ->).
  - object_made update_serializable update_laws c Hc; [change (Update.fromCore c = Ok o) in Eo; cbn [fieldFromCore]; by rewrite Eo|by apply update_holds].
  - exists c. split; [|by apply hash_holds]. cbn [fieldFromCore]. by rewrite (truthy_hash 64).
  - exists c. split; [done|by apply mint_holds].
  - object_made guards_serializable guards_laws c Hc; [|by apply guards_hold]. change (guardsFromCore c = Ok o) in Eo. destruct c as [l|l]; cbn [fieldFromCore guardsFromCore] in *; [by injection Eo as <-|by rewrite Eo].
  - object_made output_serializable output_laws c Hc; [change (TransactionOutput.fromCore c = Ok o) in Eo; cbn [fieldFromCore]; by rewrite Eo|by apply output_holds].
  - object_made voting_serializable voting_laws c Hc; [change (VotingProcedures.fromCore c = Ok o) in Eo; cbn [fieldFromCore]; by rewrite Eo|by apply votes_hold].
  - set_made ProposalFacts.procedure_serializable ProposalFacts.procedure_laws c Hc; [change (CborSet.fromCore ProposalProcedure.fromCore c = Ok o) in Eo; cbn [fieldFromCore]; by rewrite Eo|by apply proposals_hold].
  - destruct (guardMap_fromCore c Hc) as (m & E & Hm). exists m. split; [exact E|by apply guardMap_holds].
  - exists c. split; [|by apply deposits_hold]. cbn [fieldFromCore]. by destruct (areAmounts_spec c Hc) as (_ & _ & _ & _ & ->).
  - destruct (intervalMap_fromCore c Hc) as (m & E & Hm). exists m. split; [exact E|by apply intervalMap_holds].
Qed.

(** What is read is accepted by the setter, and then holds the value. *)
Definition reads_field strict topLevel body k (c : fieldCore k) : Prop :=
  exists v v', reads (readFieldValue strict body k) (fieldBytes k c) v /\ acceptValue topLevel k v = Ok v' /\ fieldHolds k c v'.

Lemma reads_same strict topLevel body k (c : fieldCore k) v : reads (readFieldValue strict body k) (fieldBytes k c) v -> fieldHolds k c v ->
  acceptValue topLevel k v = Ok v -> reads_field strict topLevel body k c.
Proof. intros Hr Hh Ha. by exists v, v. Qed.

Ltac object_read I L c Hc Hz :=
  let o := fresh "o" in let Ro := fresh "Ro" in let Ho := fresh "Ho" in
  destruct (@nested_reads _ _ I L c Hc Hz) as (o & Ro & Ho); eapply reads_same; [exact Ro| |done].
Ltac set_read I L c Hc Hz :=
  let o := fresh "o" in let Ro := fresh "Ro" in let Ho := fresh "Ho" in
  destruct (@nested_reads _ _ (@set_serializable _ _ _ I) (@set_laws _ _ _ I L) c (proj1 (proj1 (andb_true_iff _ _) Hc)) Hz) as (o & Ro & Ho); eapply reads_same; [exact Ro| |done].

Lemma nonEmptyMap_ok {A} name body key (m : list A) r : 0 < zlen m -> nonEmptyMap name body key m r = (Ok tt, r).
Proof. intros Hm. unfold nonEmptyMap. by rewrite (proj2 (Z.eqb_neq _ _)) by lia. Qed.

Lemma datum_reads d : validOption (T := PlutusData) d = true -> zlen (datumBytes d) < 2 ^ 53 ->
  exists o, reads (readNullable (readNested PlutusData.fromCbor)) (datumBytes d) o /\ datumIs d o.
Proof. exact (option_reads (C := CorePlutusData) (T := PlutusData) d). Qed.

Lemma guardMap_reads body l : isCredentialMap (validOption (T := PlutusData)) l = true -> zlen (credentialMapBytes datumBytes l) < 2 ^ 53 ->
  exists m, reads (readGuardMap body) (credentialMapBytes datumBytes l) m /\ credentialMapIs datumIs l m.
Proof.
  intros Hl Hz. destruct (credentialMap_reads datumBytes _ datumIs _ datumBytes_field datum_reads l Hl Hz) as (m & Rm & Hm & En). exists m. split; [|exact Hm].
  apply isCredentialMap_spec in Hl as [Hn _]. eapply reads_last; [exact Rm|]. assert (Hp : 0 < zlen m) by lia. intros r. by rewrite (st_bind_ok _ _ _ _ _ (nonEmptyMap_ok _ _ _ _ r Hp)).
Qed.

Lemma intervalMap_reads body l : isCredentialMap (validCore (T := AccountBalanceInterval.t)) l = true -> zlen (credentialMapBytes balanceBytes l) < 2 ^ 53 ->
  exists m, reads (readIntervals body) (credentialMapBytes balanceBytes l) m /\ credentialMapIs balanceIs l m.
Proof.
  intros Hl Hz. destruct (credentialMap_reads balanceBytes _ balanceIs _ (@bytesOf_field _ _ balance_serializable balance_laws) (@nested_reads _ _ balance_serializable balance_laws) l Hl Hz) as (m & Rm & Hm & En).
  exists m. split; [|exact Hm]. apply isCredentialMap_spec in Hl as [Hn _]. eapply reads_last; [exact Rm|].
  assert (Hp : 0 < zlen m) by lia. intros r. by rewrite (st_bind_ok _ _ _ _ _ (nonEmptyMap_ok _ _ _ _ r Hp)).
Qed.

(** A setter of a body at the top level decodes key hashes again. *)
Lemma guards_accepted topLevel g o : isGuards g = true -> zlen (guardBytes g) < 2 ^ 53 -> @standsFor _ _ guards_serializable g o ->
  exists o', acceptGuards topLevel o = Ok o' /\ @standsFor _ _ guards_serializable g o'.
Proof.
  intros Hg Hz [Hc Hw]. unfold acceptGuards. destruct topLevel, o as [s|s]; try by eexists.
  injection Hc as <-. change (Guards.toCbor (Guards.keyHashSet s) = Ok (Buffer_to_hex (setBytes (T := string) (CborSet.values s)))) in Hw.
  rewrite Hw. cbn [mbind outcome_bind]. unfold Guards.keyHashesFromCbor. apply andb_true_iff in Hg as [Hl _].
  destruct (hashes_read (CborSet.values s) Hl Hz) as (s' & E & Hv & Hw'). rewrite E. exists (Guards.keyHashSet s'). split; [done|]. split; [cbn; by rewrite Hv|exact Hw'].
Qed.

Lemma mint_accepted topLevel l : isMint l = true -> acceptValue topLevel MintMap l = Ok l.
Proof. intros (Ht & Hs & _)%isMint_spec. cbn [acceptValue]. by rewrite (normalize_canonical isInt64 l Ht), Hs. Qed.

Lemma field_kind_reads strict topLevel body k (c : fieldCore k) : validField k c = true -> zlen (fieldBytes k c) < 2 ^ 53 -> reads_field strict topLevel body k c.
Proof.
  destruct k; cbn [fieldCore] in c; intros Hc Hz.
  - set_read input_serializable input_laws c Hc Hz. by apply inputs_hold.
  - destruct (@list_reads _ _ _ (output_strict_laws strict) c Hc Hz) as (os & Ro & Hos). by eapply reads_same; [exact Ro|apply outputs_hold|].
  - by apply (reads_same _ _ _ Coin c c); [apply reads_int|apply coin_holds|].
  - by apply (reads_same _ _ _ Number c c); [apply readNumber_reads|apply number_field_holds|].
  - set_read certificate_serializable certificate_laws c Hc Hz. by apply certificates_hold.
  - by apply (reads_same _ _ _ Withdrawals c c); [apply withdrawals_reads|apply withdrawals_hold|].
  - object_read update_serializable update_laws c Hc Hz. by apply update_holds.
  - by apply (reads_same _ _ _ HashText c c); [apply (readHex_reads 64)|apply hash_holds|].
  - by apply (reads_same _ _ _ MintMap c c); [apply mint_reads|apply mint_holds|apply mint_accepted].
  - destruct (@nested_reads _ _ guards_serializable guards_laws c Hc Hz) as (o & Ro & Ho). destruct (guards_accepted topLevel c o Hc Hz Ho) as (o' & Eo & Ho').
    exists o, o'. split; [exact Ro|]. split; [exact Eo|by apply guards_hold].
  - object_read (output_strict strict) (output_strict_laws strict) c Hc Hz. by apply output_holds.
  - object_read voting_serializable voting_laws c Hc Hz. by apply votes_hold.
  - set_read ProposalFacts.procedure_serializable ProposalFacts.procedure_laws c Hc Hz. by apply proposals_hold.
  - destruct (guardMap_reads body c Hc Hz) as (m & Rm & Hm). by eapply reads_same; [exact Rm|apply guardMap_holds|].
  - by apply (reads_same _ _ _ Deposits c c); [apply deposits_reads|apply deposits_hold|].
  - destruct (intervalMap_reads body c Hc Hz) as (m & Rm & Hm). by eapply reads_same; [exact Rm|apply intervalMap_holds|].
Qed.

Lemma kind_made k (c : fieldCore k) : validField k c = true -> exists v v', fieldFromCore k c = Ok (Some v) /\ acceptValue false k v = Ok v' /\ fieldHolds k c v'.
Proof.
  intros Hc. destruct (field_kind_fromCore k c Hc) as (v & E & Hv). exists v, v. split; [exact E|]. split; [|exact Hv].
  destruct k; try done. destruct Hv as [[= ->] _ _]. by apply mint_accepted.
Qed.

Lemma sound_nonEmpty {A} name body key (m : list A) : sound (nonEmptyMap name body key m) (fun _ => True).
Proof. unfold nonEmptyMap, st_guard. case_bool; [apply sound_throw|by apply sound_ret]. Qed.

Lemma sound_guardMap body : sound (readGuardMap body) (fun _ => True).
Proof.
  eapply sound_bind; [apply sound_credentialMap; eapply sound_weaken; [exact (option_sound (C := CorePlutusData) (T := PlutusData))|done]|].
  intros m _. eapply sound_bind; [apply sound_nonEmpty|]. intros _ _. by apply sound_ret.
Qed.

Lemma sound_intervalMap body : sound (readIntervals body) (fun _ => True).
Proof.
  eapply sound_bind; [apply sound_credentialMap; eapply sound_weaken; [exact (@nested_sound _ _ balance_serializable balance_laws)|done]|].
  intros m _. eapply sound_bind; [apply sound_nonEmpty|]. intros _ _. by apply sound_ret.
Qed.

Lemma sound_nestedAny {C A} (HS : Serializable C A) (HL : SerializableLaws C A) : sound (readNested fromCbor_of) (fun _ => True).
Proof. eapply sound_weaken; [apply nested_sound|done]. Qed.

Lemma field_kind_sound strict body k : sound (readFieldValue strict body k) (fun _ => True).
Proof.
  destruct k.
  - exact (sound_nestedAny _ (@set_laws _ _ _ _ input_laws)).
  - eapply sound_weaken; [exact (@list_sound _ _ _ (output_strict_laws strict))|done].
  - eapply sound_weaken; [apply sound_int|done].
  - apply sound_number.
  - exact (sound_nestedAny _ (@set_laws _ _ _ _ certificate_laws)).
  - eapply sound_bind; [apply sound_amounts|]. intros l _. by apply sound_ret.
  - exact (sound_nestedAny _ update_laws).
  - eapply sound_weaken; [apply sound_hex|done].
  - eapply sound_bind; [apply sound_multiAsset; eapply sound_weaken; [apply sound_int|done]|]. intros m _. apply sound_lift; [apply joinGroups_fuel|done].
  - exact (sound_nestedAny _ guards_laws).
  - exact (sound_nestedAny _ (output_strict_laws strict)).
  - exact (sound_nestedAny _ voting_laws).
  - exact (sound_nestedAny _ (@set_laws _ _ _ _ ProposalFacts.procedure_laws)).
  - apply sound_guardMap.
  - eapply sound_bind; [apply sound_amounts|]. intros l _. eapply sound_bind; [apply sound_nonEmpty|]. intros _ _. by apply sound_ret.
  - apply sound_intervalMap.
Qed.
End fields.

(** ** The fields of a body, one after the other *)

(** What a class of bodies promises: a field that is put is found, and the
    others stay. *)
Class BodyStoreLaws (S : Type) `{BodyStore S} (fields : list Field.t) : Prop := {
  get_put (s : S) f v : f ∈ fields -> getField (putField s f v) f = Some v;
  get_put_other (s : S) f g v : f <> g -> getField (putField s f v) g = getField s g
}.

Lemma override_same get f v : override get f v f = Some v.
Proof. unfold override. destruct (decide (f = f)) as [e|]; [|done]. by rewrite (Eqdep_dec.UIP_dec Field.t_eq_dec e eq_refl). Qed.

Lemma override_other get f g v : f <> g -> override get f v g = get g.
Proof. intros Hn. unfold override. by destruct (decide (f = g)). Qed.

Lemma field_key_int64 f : isInt64 (Field.key f) = true.
Proof. by destruct f. Qed.

(** No two fields have the same key. *)
Lemma key_determines f g : Field.key f = Field.key g -> f = g.
Proof. destruct f, g; cbn; intros E; done. Qed.

Lemma find_key fs f : f ∈ fs -> find (fun g => Field.key g =? Field.key f) fs = Some f.
Proof.
  induction fs as [|g fs IH]; [by intros ?%elem_of_nil|]. cbn. destruct (Z.eqb_spec (Field.key g) (Field.key f)) as [E|Hn].
  - intros _. f_equal. by apply key_determines.
  - intros [->|Hf]%elem_of_cons; [done|by apply IH].
Qed.

Section bodies.
Context `{Era} `{Crc32} {CL : Crc32Laws} `{BaseEncoding} {BE : Bech32Ends} `{Bech32} `{IpAddress} {IL : IpAddressLaws} `{FractionJs}.

Section core.
Context (c : forall f, option (coreIn f)).

Definition fieldEntry (f : Field.t) : list (Z * list Z) := optionalEntry (Field.key f) (fieldBytes (fieldKindOf f)) (c f).
Definition fieldEntries (fs : list Field.t) : list (Z * list Z) := concat (map fieldEntry fs).

Definition validAt (f : Field.t) : bool := match c f with Some x => validField (fieldKindOf f) x | None => true end.

Lemma fieldEntries_cons f fs : fieldEntries (f :: fs) = fieldEntry f ++ fieldEntries fs.
Proof. done. Qed.

Lemma fieldEntries_app fs gs : fieldEntries (fs ++ gs) = fieldEntries fs ++ fieldEntries gs.
Proof. unfold fieldEntries. by rewrite map_app, concat_app. Qed.

Lemma fieldEntries_length fs : zlen (fieldEntries fs) <= zlen fs.
Proof.
  induction fs as [|f fs IH]; [done|]. rewrite fieldEntries_cons, zlen_app, zlen_cons. unfold fieldEntry at 1. rewrite optional_length. case_match; lia.
Qed.

Lemma fieldEntries_field fs : Forall (fun f => validAt f = true) fs -> Forall (fun e => isInt64 e.1 = true /\ field e.2) (fieldEntries fs).
Proof.
  induction 1 as [|f fs Hf _ IH]; [constructor|]. rewrite fieldEntries_cons. apply Forall_app. split; [|exact IH].
  unfold fieldEntry, validAt in *. destruct (c f) as [x|]; [|constructor]. constructor; [|constructor]. split; [apply field_key_int64|by apply field_kind_field].
Qed.

Section objects.
Context {S : Type} {BS : BodyStore S} {fields : list Field.t} {BL : BodyStoreLaws S fields}.

(** A field of the object and of the core value. *)
Definition fieldIs (s : S) (f : Field.t) : Prop :=
  match c f, getField s f with Some x, Some v => fieldHolds (fieldKindOf f) x v | None, None => True | _, _ => False end.

(** What setting a field leaves behind. *)
Context (touched : S -> Field.t -> Prop).
Context (touched_put : forall s f v, touched (putField s f v) f) (touched_other : forall s f g v, touched s g -> touched (putField s f v) g).

(** A field that reading starts from. *)
Definition fieldFresh (s : S) (f : Field.t) : Prop :=
  (forall v, mergeField (fieldKindOf f) (getField s f) v = v) /\ (c f = None -> getField s f = None).

Lemma fieldFresh_put s f g v : f <> g -> fieldFresh s g -> fieldFresh (putField s f v) g.
Proof. intros Hn [Hm Hc]. unfold fieldFresh. by rewrite (get_put_other (fields := fields)). Qed.

Section reading.
Context (strict topLevel : bool) (body : string) (read : Z -> Dec (S -> S)).
Context (read_field : forall f, f ∈ fields -> read (Field.key f) = readFieldInto strict topLevel body f).
Context (P : S -> Prop) (put_P : forall s f v, P s -> P (putField s f v)).

Lemma field_changes f x : f ∈ fields -> c f = Some x -> validField (fieldKindOf f) x = true -> zlen (fieldBytes (fieldKindOf f) x) < 2 ^ 53 ->
  exists v, changes read (Field.key f, fieldBytes (fieldKindOf f) x) (fun b => putField b f (mergeField (fieldKindOf f) (getField b f) v)) /\ fieldHolds (fieldKindOf f) x v.
Proof.
  intros Hf Ex Hx Hz. destruct (field_kind_reads strict topLevel body _ x Hx Hz) as (v & v' & Rv & Ea & Hv). exists v'. split; [|exact Hv].
  split; [apply field_key_int64|]. split; [by apply field_kind_field|]. cbn [fst snd]. rewrite read_field by done. unfold readFieldInto.
  eapply reads_last; [exact Rv|]. intros r. unfold st_lift. rewrite Ea. reflexivity.
Qed.

Lemma field_leads f s : f ∈ fields -> validAt f = true -> (forall e, In e (fieldEntry f) -> zlen e.2 < 2 ^ 53) -> fieldFresh s f ->
  exists s', leads read (fieldEntry f) s s' /\ fieldIs s' f /\ (s' = s /\ c f = None \/ exists v, s' = putField s f v).
Proof.
  intros Hf Hv Hz [Hm Hn]. unfold fieldEntry, validAt, fieldIs in *. destruct (c f) as [x|] eqn:Ex.
  - destruct (field_changes f x Hf Ex Hv) as (v & Hc & Hh); [apply (Hz (Field.key f, _)); by left|].
    exists (putField s f v). rewrite (get_put (fields := fields)) by done. split_and!; [|done|right; by exists v].
    pose proof (leads_one read _ _ s Hc) as Hl. cbv beta in Hl. by rewrite Hm in Hl.
  - exists s. split_and!; [apply leads_nil|by rewrite Hn|by left].
Qed.

Lemma fields_lead fs s : NoDup fs -> fs ⊆ fields -> Forall (fun f => validAt f = true) fs -> (forall e, In e (fieldEntries fs) -> zlen e.2 < 2 ^ 53) -> Forall (fieldFresh s) fs -> P s ->
  exists s', P s' /\ leads read (fieldEntries fs) s s' /\ Forall (fieldIs s') fs /\ (forall g, g ∉ fs -> getField s' g = getField s g) /\
    Forall (fun f => c f <> None -> touched s' f) fs /\ forall g, touched s g -> touched s' g.
Proof.
  intros Hd. revert s. induction Hd as [|f fs Hf _ IH]; intros s Hi Hv Hz Hn HP; [exists s; by split_and!; [|apply leads_nil|constructor| |constructor|]|].
  inversion_clear Hv as [|? ? Hvf Hvs]. inversion_clear Hn as [|? ? Hnf Hns].
  destruct (field_leads f s) as (s1 & L1 & F1 & O1); [apply Hi; by left|done| |done|].
  { intros e He. apply Hz. rewrite fieldEntries_cons. apply in_app_iff. by left. }
  assert (Og : forall g, f <> g -> getField s1 g = getField s g) by (destruct O1 as [[-> _]|(v & ->)]; [done|intros g Hg; by apply (get_put_other (fields := fields))]).
  destruct (IH s1) as (s2 & P2 & L2 & F2 & O2 & T2 & K2); [intros g Hg; apply Hi; by right|done| | | |].
  { intros e He. apply Hz. rewrite fieldEntries_cons. apply in_app_iff. by right. }
  { apply Forall_forall. intros g Hg. rewrite Forall_forall in Hns. destruct O1 as [[-> _]|(v & ->)]; [by apply Hns|]. apply fieldFresh_put; [by intros ->|by apply Hns]. }
  { destruct O1 as [[-> _]|(v & ->)]; [done|by apply put_P]. }
  exists s2. split_and!; [done|rewrite fieldEntries_cons; by eapply leads_app| | | |].
  - constructor; [|done]. unfold fieldIs in *. by rewrite O2.
  - intros g [Hg Hgs]%not_elem_of_cons. rewrite O2 by done. apply Og. congruence.
  - constructor; [|done]. intros Hc. apply K2. destruct O1 as [[_ E]|(v & ->)]; [done|apply touched_put].
  - intros g Hg. apply K2. destruct O1 as [[-> _]|(v & ->)]; [done|by apply touched_other].
Qed.
End reading.

(** *** Writing *)

Lemma fields_written s fs : Forall (fieldIs s) fs -> countWritten s fs = zlen (fieldEntries fs).
Proof.
  unfold countWritten. induction 1 as [|f fs Hf _ IH]; [done|]. rewrite fieldEntries_cons, zlen_app, <- IH. cbn [List.filter].
  unfold fieldIs, isWritten, fieldEntry in *. rewrite optional_length. destruct (c f) as [x|], (getField s f) as [v|]; try done.
  rewrite (field_there _ _ _ Hf). rewrite zlen_cons. lia.
Qed.

Lemma fields_emit s fs : Forall (fieldIs s) fs -> emits (forEach (writeField s) fs) (entriesBytes (fieldEntries fs)).
Proof.
  induction 1 as [|f fs Hf _ IH]; [apply emits_ret|]. rewrite fieldEntries_cons. change (forEach (writeField s) (f :: fs)) with (writeField s f ;; forEach (writeField s) fs).
  apply fields_emits; [|exact IH]. unfold fieldIs, writeField, fieldEntry in *. destruct (c f) as [x|], (getField s f) as [v|]; try done; [|apply emits_ret].
  rewrite (field_there _ _ _ Hf). apply emits_key; [apply field_key_int64|exact (field_writes _ _ _ Hf)].
Qed.

(** *** Core values *)

Lemma field_toCore s f : fieldIs s f -> coreOfField s f = Ok (c f).
Proof. unfold fieldIs, coreOfField. destruct (c f) as [x|], (getField s f) as [v|]; try done. intros Hf. by rewrite (field_core _ _ _ Hf). Qed.

Section made.
Context (P : S -> Prop) (put_P : forall s f v, P s -> P (putField s f v)).

Lemma fields_made fs s : NoDup fs -> fs ⊆ fields -> Forall (fun f => validAt f = true) fs -> P s -> Forall (fun f => c f = None -> getField s f = None) fs ->
  exists s', fromCoreFields c fs s = Ok s' /\ P s' /\ Forall (fieldIs s') fs /\ forall g, g ∉ fs -> getField s' g = getField s g.
Proof.
  intros Hd. revert s. induction Hd as [|f fs Hf _ IH]; intros s Hi Hv HP Hn; [exists s; by split_and!; [| |constructor|]|].
  inversion_clear Hv as [|? ? Hvf Hvs]. inversion_clear Hn as [|? ? Hnf Hns]. cbn [fromCoreFields].
  unfold validAt in Hvf. destruct (c f) as [x|] eqn:Ex.
  - destruct (kind_made _ x Hvf) as (v & v' & E & Ea & Hh). rewrite E. cbn [mbind outcome_bind]. rewrite Ea. cbn [mbind outcome_bind].
    destruct (IH (putField s f v')) as (s2 & E2 & P2 & F2 & O2); [intros g Hg; apply Hi; by right|done|by apply put_P| |].
    { apply Forall_forall. intros g Hg. rewrite (get_put_other (fields := fields)) by (by intros ->). rewrite Forall_forall in Hns. by apply Hns. }
    exists s2. split_and!; [exact E2|done| |].
    + constructor; [|done]. unfold fieldIs. rewrite Ex, O2, (get_put (fields := fields)) by (done || (apply Hi; by left)). exact Hh.
    + intros g [Hg Hgs]%not_elem_of_cons. rewrite O2 by done. apply (get_put_other (fields := fields)). congruence.
  - cbn [mbind outcome_bind]. destruct (IH s) as (s2 & E2 & P2 & F2 & O2); [intros g Hg; apply Hi; by right|done|done|done|].
    exists s2. split_and!; [exact E2|done| |].
    + constructor; [|done]. unfold fieldIs. by rewrite Ex, O2, Hnf.
    + intros g [Hg Hgs]%not_elem_of_cons. by apply O2.
Qed.
End made.
End objects.
End core.

(** What is read is accepted without end, too. *)
Lemma accepted_ends topLevel g : guardsTyped g = true -> acceptGuards topLevel g <> OutOfFuel.
Proof.
  destruct topLevel, g as [s|s]; try done. cbn [guardsTyped acceptGuards]. destruct (CborSet.originalBytes s) as [h|] eqn:E; [|done].
  intros [Hn%negb_true_iff Hz]%andb_true_iff. zb. unfold Guards.toCbor, CborSet.toCbor, cached, remembered. rewrite E, Hn. cbn [mbind outcome_bind].
  apply bind_fuel; [by apply hashes_end|done].
Qed.

Definition keeps {S : Type} (P : S -> Prop) (g : S -> S) : Prop := forall s, P s -> P (g s).

Lemma sound_fieldInto {S : Type} {BS : BodyStore S} strict topLevel body f (P : S -> Prop) : (forall s v, P s -> P (putField s f v)) ->
  sound (readFieldInto strict topLevel body f) (keeps P).
Proof.
  intros HP. enough (Hs : forall k (v0 : fieldValue k -> S -> S), (forall v s, P s -> P (v0 v s)) ->
    sound (v ← readFieldValue strict body k; v ← st_lift (acceptValue topLevel k v); mret (v0 v)) (keeps P)).
  { apply (Hs _ (fun v b => putField b f (mergeField (fieldKindOf f) (getField b f) v))). intros v s. apply HP. }
  intros k v0 Hv. assert (Hk : forall v, sound (mret (v0 v)) (keeps P)) by (intros v; apply sound_ret; intros s; apply Hv).
  destruct k; try (eapply sound_bind; [apply field_kind_sound|]; intros v _; eapply (sound_bind _ _ (fun _ => True)); [|intros v' _; apply Hk];
    apply sound_lift; [first [discriminate | apply normalizeTokenMap_fuel]|done]).
  eapply sound_bind; [exact (@nested_sound _ _ guards_serializable guards_laws)|]. intros v Hg.
  eapply (sound_bind _ _ (fun _ => True)); [apply sound_lift; [by apply accepted_ends|done]|]. intros v' _. apply Hk.
Qed.
End bodies.
