(* ===== verification/TransactionTheorems.v ===== *)
(** * Transactions: facts and properties
    The bodies of transactions and of sub transactions, sub transactions and
    transactions implement the interface of [Serializable.v]: the round trip of
    whole transactions, their identifiers, their decoder on any blob, and the
    blob that setters leave behind. *)
From S2P Require Import Prelude JsRuntime Utf8 CborCommon Half CborWriter CborReader CborMachine CborExact CborSkip CborDocuments Codec CodecFacts Credential Address BaseEncodingRef AddressFacts AddressText Records Common Serializable Keyed CommonFacts PlutusData Scripts Identifiers IdentifierTheorems Pools Certificates CertificateFacts Voting VotingFacts SerializedValue ValueFacts Outputs OutputFacts Witnesses WitnessFacts Metadata AuxiliaryData AuxiliaryFacts ParamParts ProtocolParams ProtocolParamFacts Proposals ProposalFacts BodyParts Bodies BodyFacts.

Import CborReader CborWriterFacts.

(** ** What the bodies share *)

(** The key hashes of credentials, [undefined] when there are none. *)
Definition signersOf (l : list Credential) : option (list string) :=
  let hashes := hash <$> List.filter (fun c => Credential.type c =? 0) l in if 0 <? zlen hashes then Some hashes else None.

Lemma guardKeyHashes_exact l : validList (T := Credential) l = true ->
  guardKeyHashes l = Ok (hash <$> List.filter (fun c => Credential.type c =? 0) l).
Proof.
  intros [_ Hl]%validList_spec. unfold guardKeyHashes. induction Hl as [|c l Hc _ IH]; [done|]. cbn [List.filter]. destruct (Credential.type c =? 0); [|exact IH].
  cbn [mapM fmap list_fmap]. cbn [validCore credential_serializable] in Hc. apply andb_true_iff in Hc as [_ Hh]. assert (E : Ed25519KeyHashHex (hash c) = Ok (hash c)) by by apply typedHex_blob.
  rewrite E. cbn [mbind outcome_bind]. by rewrite IH.
Qed.

(** A field whose core value is the value itself. *)
Lemma plain_field {A} (R : A -> A -> Prop) (x y : option A) : (forall a b, R a b -> b = a) ->
  match x, y with Some a, Some b => R a b | None, None => True | _, _ => False end -> y = x.
Proof. intros HR. destruct x as [a|], y as [b|]; try done. by intros ->%HR. Qed.

(** A set that is there is not empty. *)
Lemma sized_some {T} (s : CborSet.t T) : (0 <? CborSet.size s) = true -> TransactionWitnessSet.sized (Some s) = Some s.
Proof. intros Hs. unfold TransactionWitnessSet.sized. by rewrite Hs. Qed.

(** An interval with a bound, or none. *)
Definition isValidity (v : option ValidityInterval) : bool :=
  match v with Some {| invalidBefore := None; invalidHereafter := None |} => false | _ => true end.

Lemma validity_exact v : isValidity v = true -> validityIntervalOf (v ≫= invalidBefore) (v ≫= invalidHereafter) = v.
Proof. destruct v as [[[b|] [h|]]|]; done. Qed.

(** The signers agree with the guards, when these are credentials. *)
Definition signersAgree (guards : option (list Credential)) (signers : option (list string)) : bool :=
  match guards with Some l => bool_decide (signers = signersOf l) | None => true end.

Definition guardField (guards : option (list Credential)) (signers : option (list string)) : option Guards.core :=
  match guards with Some l => Some (Guards.coreCredentials l) | None => Guards.coreKeyHashes <$> signers end.

Section bodies.
Context `{Era} `{Crc32} {CL : Crc32Laws} `{BaseEncoding} {BE : Bech32Ends} `{Bech32} `{IpAddress} {IL : IpAddressLaws} `{FractionJs}.

Lemma coin_plain a b : fieldHolds Coin a b -> b = a.
Proof. by intros [[= ->] _ _]. Qed.
Lemma number_plain a b : fieldHolds Number a b -> b = a.
Proof. by intros [[= ->] _ _]. Qed.
Lemma hash_plain a b : fieldHolds HashText a b -> b = a.
Proof. by intros [[= ->] _ _]. Qed.
Lemma mint_plain a b : fieldHolds MintMap a b -> b = a.
Proof. by intros [[= ->] _ _]. Qed.
Lemma withdrawals_plain a b : fieldHolds Withdrawals a b -> b = a.
Proof. by intros [[= ->] _ _]. Qed.
Lemma deposits_plain a b : fieldHolds Deposits a b -> b = a.
Proof. by intros [[= ->] _ _]. Qed.

Lemma guards_plain x y : match x, y with Some a, Some b => fieldHolds GuardSet a b | None, None => True | _, _ => False end -> guardsToCore <$> y = x.
Proof. destruct x as [a|], y as [b|]; try done. intros [[= <-] _ _]. done. Qed.

Lemma references_plain (x : option (list TransactionInput.core)) (y : option (CborSet.t TransactionInput.t)) : match x, y with Some a, Some b => fieldHolds InputSet a b | None, None => True | _, _ => False end ->
  TransactionWitnessSet.optionalCore (fieldToCore InputSet) (TransactionWitnessSet.sized y) = Ok x.
Proof.
  destruct x as [a|], y as [b|]; try done. intros [Hc _ Hp]. rewrite (sized_some b Hp). unfold TransactionWitnessSet.optionalCore. by rewrite Hc.
Qed.

(** ** Bodies of sub transactions *)

Definition ended {A} (o : Res A) : bool := match o with OutOfFuel => false | _ => true end.

Lemma ended_spec {A} (o : Res A) : ended o = true <-> o <> OutOfFuel.
Proof. by destruct o. Qed.

Section sub_body.
Import SubTransactionBody.

#[local] Instance sub_store_laws : BodyStoreLaws t fields.
Proof.
  split.
  - intros s f v Hf. cbn [getField putField store]. unfold put. destruct f; cbn -[override]; rewrite ?override_same; try done;
      exfalso; revert Hf; apply (bool_decide_unpack _); by vm_compute.
  - intros s f g v Hn. cbn [getField putField store]. unfold put. destruct g; cbn -[override]; rewrite ?override_other by done; done.
Qed.

#[local] Instance reading_store_laws : BodyStoreLaws reading fields.
Proof.
  split; intros s f; cbn [getField putField readingStore body]; [exact (get_put (S := t) (body s) f)|exact (get_put_other (S := t) (body s) f)].
Qed.

Definition isSubBody (c : core) : bool :=
  forallb (validAt (coreField c)) fields && (isValidity (coreValidityInterval c) && signersAgree (coreGuards c) (coreRequiredExtraSignatures c)).

Definition subBodyBytes (c : core) : list Z := keyedBytes (fieldEntries (coreField c) fields).

Definition subBodyIs (c : core) (b : t) : Prop := Forall (fieldIs (coreField c) b) fields.

Lemma isSubBody_spec c : isSubBody c = true -> Forall (fun f => validAt (coreField c) f = true) fields /\ isValidity (coreValidityInterval c) = true /\
  signersAgree (coreGuards c) (coreRequiredExtraSignatures c) = true.
Proof. intros [Hf [Hv Hs]%andb_true_iff]%andb_true_iff. split; [|done]. by apply List.Forall_forall, forallb_forall. Qed.

Lemma sub_valid_at c f : isSubBody c = true -> f ∈ fields -> validAt (coreField c) f = true.
Proof. intros (Hf & _)%isSubBody_spec Hin. by apply (proj1 (Forall_forall _ _) Hf). Qed.

Lemma subBody_is c b f : subBodyIs c b -> f ∈ fields -> fieldIs (coreField c) b f.
Proof. intros Hb. by apply (proj1 (Forall_forall _ _) Hb). Qed.

Ltac in_fields := apply (bool_decide_unpack _); by vm_compute.

Lemma subBody_entries c : zlen (fieldEntries (coreField c) fields) < 2 ^ 53.
Proof. pose proof (fieldEntries_length (coreField c) fields). assert (zlen fields = 19) by done. lia. Qed.

Lemma subBody_field c : isSubBody c = true -> field (subBodyBytes c).
Proof. intros (Hf & _)%isSubBody_spec. pose proof (subBody_entries c). apply keyed_field; [lia|by apply fieldEntries_field]. Qed.

(** *** Writing *)

Lemma subBody_toCbor c b : subBodyIs c b -> originalBytes b = None -> toCbor b = Ok (Buffer_to_hex (subBodyBytes c)).
Proof.
  intros Hb Ho. pose proof (subBody_entries c) as Hz. unfold toCbor, cached, remembered. rewrite Ho. apply encode_emits. unfold subBodyBytes.
  assert (Hr : Forall (fieldIs (coreField c) b) (drop 2 fields)) by (unfold subBodyIs, fields in Hb; by inversion_clear Hb as [|? ? _ Hb1]; inversion_clear Hb1).
  pose proof (subBody_is c b Field.inputs Hb ltac:(in_fields)) as Hi. pose proof (subBody_is c b Field.outputs Hb ltac:(in_fields)) as Hu.
  assert (En : zlen (fieldEntries (coreField c) fields) = getMapSize b).
  { unfold getMapSize. rewrite (fields_written (coreField c)) by done.
    change (fieldEntries (coreField c) fields) with ([(0, fieldBytes InputSet (coreInputs c)); (1, fieldBytes OutputList (coreOutputs c))] ++ fieldEntries (coreField c) (drop 2 fields)).
    by rewrite zlen_app. }
  apply keyed_emits; [exact En|lia|].
  change (fieldEntries (coreField c) fields) with ((0, fieldBytes InputSet (coreInputs c)) :: (1, fieldBytes OutputList (coreOutputs c)) :: fieldEntries (coreField c) (drop 2 fields)).
  apply entry_emits; [done|exact (field_writes _ _ _ Hi)|]. apply entry_emits; [done|exact (field_writes _ _ _ Hu)|]. by apply fields_emit.
Qed.

(** *** Core values *)

Lemma sub_signers c b : isSubBody c = true -> guardsToCore <$> guards b = guardField (coreGuards c) (coreRequiredExtraSignatures c) ->
  signersToCore (guards b) = Ok (coreRequiredExtraSignatures c) /\ guards b ≫= Guards.credentials = coreGuards c.
Proof.
  intros Hc Hg. pose proof (sub_valid_at c Field.guards Hc ltac:(in_fields)) as Hv. destruct (isSubBody_spec c Hc) as (_ & _ & Ha).
  unfold validAt in Hv. cbn [coreField fieldKindOf] in Hv. unfold signersAgree, guardField in *.
  destruct (coreGuards c) as [l|].
  - destruct (guards b) as [[s|s]|]; try done. injection Hg as <-. cbn [validField isGuards] in Hv. apply andb_true_iff in Hv as [Hl _].
    unfold signersToCore. rewrite (guardKeyHashes_exact _ Hl). apply bool_decide_eq_true in Ha. by rewrite Ha.
  - destruct (coreRequiredExtraSignatures c) as [l|], (guards b) as [[s|s]|]; try done. injection Hg as <-. cbn [validField isGuards] in Hv.
    apply andb_true_iff in Hv as [_ Hn]. unfold signersToCore. cbn [mbind outcome_bind]. by rewrite Hn.
Qed.

Lemma subBody_toCore c b : isSubBody c = true -> subBodyIs c b -> toCore b = Ok c.
Proof.
  intros Hc Hb. destruct (isSubBody_spec c Hc) as (_ & Hv & _).
  assert (Hf : forall f, f ∈ fields -> coreOfField b f = Ok (coreField c f)) by (intros f Hf; by apply field_toCore, subBody_is).
  assert (Hs : forall f, f ∈ fields -> fieldIs (coreField c) b f) by (intros f; by apply subBody_is).
  destruct (sub_signers c b Hc (guards_plain _ _ (Hs Field.guards ltac:(in_fields)))) as [E1 E2].
  unfold toCore. rewrite E1. cbn [mbind outcome_bind].
  rewrite (Hf Field.accountBalanceIntervals), (Hf Field.certs) by in_fields. cbn [mbind outcome_bind].
  assert (Ei : fieldToCore InputSet (inputs b) = Ok (coreInputs c)) by exact (field_core _ _ _ (Hs Field.inputs ltac:(in_fields))).
  assert (Eo : fieldToCore OutputList (outputs b) = Ok (coreOutputs c)) by exact (field_core _ _ _ (Hs Field.outputs ltac:(in_fields))).
  rewrite Ei. cbn [mbind outcome_bind]. rewrite Eo. cbn [mbind outcome_bind].
  rewrite (Hf Field.proposalProcedures) by in_fields. cbn [mbind outcome_bind].
  rewrite (references_plain (coreReferenceInputs c) (referenceInputs b) (Hs Field.referenceInputs ltac:(in_fields))). cbn [mbind outcome_bind].
  rewrite (Hf Field.requiredTopLevelGuards), (Hf Field.votingProcedures) by in_fields. cbn [mbind outcome_bind]. rewrite E2.
  assert (F0 : auxiliaryDataHash b = coreAuxiliaryDataHash c) by exact (plain_field _ _ _ hash_plain (Hs Field.auxiliaryDataHash ltac:(in_fields))).
  assert (F1 : directDeposits b = coreDirectDeposits c) by exact (plain_field _ _ _ deposits_plain (Hs Field.directDeposits ltac:(in_fields))).
  assert (F2 : donation b = coreDonation c) by exact (plain_field _ _ _ coin_plain (Hs Field.donation ltac:(in_fields))).
  assert (F3 : mint b = coreMint c) by exact (plain_field _ _ _ mint_plain (Hs Field.mint ltac:(in_fields))).
  assert (F4 : networkId b = coreNetworkId c) by exact (plain_field _ _ _ number_plain (Hs Field.networkId ltac:(in_fields))).
  assert (F5 : scriptDataHash b = coreScriptIntegrityHash c) by exact (plain_field _ _ _ hash_plain (Hs Field.scriptDataHash ltac:(in_fields))).
  assert (F6 : currentTreasuryValue b = coreTreasuryValue c) by exact (plain_field _ _ _ coin_plain (Hs Field.currentTreasuryValue ltac:(in_fields))).
  assert (F7 : withdrawals b = coreWithdrawals c) by exact (plain_field _ _ _ withdrawals_plain (Hs Field.withdrawals ltac:(in_fields))).
  assert (F8 : ttl b = (coreValidityInterval c ≫= invalidHereafter)) by exact (plain_field _ _ _ number_plain (Hs Field.ttl ltac:(in_fields))).
  assert (F9 : validityStartInterval b = (coreValidityInterval c ≫= invalidBefore)) by exact (plain_field _ _ _ number_plain (Hs Field.validityStartInterval ltac:(in_fields))).
  rewrite F0, F1, F2, F3, F4, F5, F6, F7, F8, F9.
  cbn [coreField]. rewrite (validity_exact _ Hv). by destruct c.
Qed.

(** *** Reading *)

Lemma sub_get_make b o f : get (make (get b) o) f = get b f.
Proof. by destruct f. Qed.

Lemma sub_read_field strict f : f ∈ fields -> readField strict (Field.key f) = readFieldInto strict false "sub transaction body" f.
Proof. intros Hf. unfold readField, fieldOfKey. by rewrite find_key. Qed.

(** The flags that reading a required field sets. *)
Definition flagged (r : reading) (f : Field.t) : Prop := (f = Field.inputs -> hasInputs r = true) /\ (f = Field.outputs -> hasOutputs r = true).

Lemma flagged_put (r : reading) f v : flagged (putField r f v) f.
Proof. split; intros ->; cbn; by rewrite orb_true_r. Qed.

Lemma flagged_other (r : reading) f g v : flagged r g -> flagged (putField r f v) g.
Proof. intros [Hi Ho]. split; intros E; cbn; [by rewrite Hi|by rewrite Ho]. Qed.

Definition startReading : reading := {| body := empty; hasInputs := false; hasOutputs := false |}.

Lemma sub_fresh c : Forall (fieldFresh (coreField c) startReading) fields.
Proof. apply Forall_forall. intros f _. split; [intros v; by destruct f|by destruct f]. Qed.

Lemma subBody_reads strict c : isSubBody c = true -> zlen (subBodyBytes c) < 2 ^ 53 ->
  exists r, reads (readKeyed (readField strict) startReading) (subBodyBytes c) r /\ subBodyIs c (body r) /\ hasInputs r = true /\ hasOutputs r = true.
Proof.
  intros Hc Hz. destruct (isSubBody_spec c Hc) as (Hf & _).
  destruct (fields_lead (coreField c) (BL := reading_store_laws) flagged flagged_put flagged_other strict false "sub transaction body" (readField strict) (sub_read_field strict) (fun _ => True) ltac:(done) fields startReading)
    as (r & _ & Lr & Hr & _ & Tr & _); [by apply (bool_decide_unpack _)|done|done| |apply sub_fresh|done|].
  { intros e He. pose proof (keyed_entry_size _ _ He). unfold subBodyBytes in Hz. lia. }
  rewrite Forall_forall in Tr. exists r. split_and!.
  - apply keyed_leads; [exact Lr|]. pose proof (subBody_entries c). lia.
  - exact Hr.
  - by apply (Tr Field.inputs ltac:(in_fields)).
  - by apply (Tr Field.outputs ltac:(in_fields)).
Qed.

Lemma subBody_fromCbor strict c : isSubBody c = true -> zlen (subBodyBytes c) < 2 ^ 53 -> exists b,
  fromCborWith strict (Buffer_to_hex (subBodyBytes c)) = Ok b /\ subBodyIs c b /\ originalBytes b = Some (Buffer_to_hex (subBodyBytes c)).
Proof.
  intros Hc Hz. destruct (subBody_field c Hc) as [_ Hb]. destruct (subBody_reads strict c Hc Hz) as (r & Rr & Hr & Ei & Eo).
  exists (remember (body r) (Buffer_to_hex (subBodyBytes c))). split; [|split; [|done]].
  - apply decode_reads; [|done..]. eapply reads_last; [exact Rr|]. intros x. by rewrite Ei, Eo.
  - unfold subBodyIs in *. eapply Forall_impl; [exact Hr|]. intros f Hf. unfold fieldIs in *. cbn [getField store] in *. unfold remember. by rewrite sub_get_make.
Qed.

Lemma sub_order : assignmentOrder ≡ₚ fields.
Proof. apply (bool_decide_unpack _). by vm_compute. Qed.

Lemma subBody_fromCore c : isSubBody c = true -> exists b, fromCore c = Ok b /\ subBodyIs c b /\ originalBytes b = None.
Proof.
  intros Hc. destruct (isSubBody_spec c Hc) as (Hf & _).
  destruct (fields_made (coreField c) (BL := sub_store_laws) (fun b => originalBytes b = None) ltac:(done) assignmentOrder empty) as (b & Eb & Ob & Hb & _).
  - rewrite sub_order. by apply (bool_decide_unpack _).
  - intros f. by rewrite sub_order.
  - by rewrite sub_order.
  - done.
  - apply Forall_forall. intros f _. by destruct f.
  - exists b. split_and!; [exact Eb| |exact Ob]. unfold subBodyIs. by rewrite <- sub_order.
Qed.

Lemma sound_subField strict key : sound (readField strict key) (fun _ => True).
Proof.
  unfold readField. destruct (fieldOfKey key) as [f|]; [|apply sound_throw]. eapply sound_weaken; [by apply (sound_fieldInto strict false _ f (fun _ => True))|done].
Qed.

(** A decoded body remembers its blob. *)
Lemma subBody_remembers strict cbor b : fromCborWith strict cbor = Ok b -> toCbor b = Ok cbor.
Proof.
  intros E. assert (Hn : cbor <> "").
  { intros ->. revert E. unfold fromCborWith, decode, readKeyed, mbind, ST_bind.
    assert (E : exists e r, call readStartMap (new "") = (Throw e, r)) by (eexists _, _; by vm_compute). destruct E as (e & r & ->). done. }
  assert (Ho : originalBytes b = Some cbor).
  { revert E. unfold fromCborWith, decode. set (m := readKeyed _ _). clearbody m. unfold mbind, ST_bind. destruct (m _) as [[r|e|] x]; try done.
    unfold st_guard. destruct (hasInputs r); [|done]. cbn. destruct (hasOutputs r); [|done]. by intros [= <-]. }
  unfold toCbor, cached, remembered. rewrite Ho. by destruct (String.eqb_spec cbor "").
Qed.

Lemma subBody_ends strict : accepts (fromCborWith strict) (fun b => toCbor b <> OutOfFuel).
Proof.
  assert (Ha : accepts (fromCborWith strict) (fun _ => True)).
  2: { intros cbor Hz. split; [by apply Ha|]. intros b Eb. by rewrite (subBody_remembers strict cbor b Eb). }
  apply (accepts_decode (fun cbor => _)). intros cbor. eapply (sound_bind _ _ (fun _ => True)).
  - apply sound_keyed; [|done]. intros k. eapply sound_weaken; [apply sound_subField|done].
  - intros r _. apply sound_guard. intros _. apply sound_guard. intros _. by apply sound_ret.
Qed.

Definition sub_strict (strict : bool) : Serializable core t := {|
  toCbor_of := toCbor;
  fromCbor_of := fromCborWith strict;
  toCore_of := toCore;
  fromCore_of := fromCore;
  bytesOf := subBodyBytes;
  validCore := isSubBody;
  typed b := ended (toCbor b)
|}.

Lemma sub_strict_laws strict : @SerializableLaws _ _ (sub_strict strict).
Proof.
  split; cbn [bytesOf validCore fromCore_of fromCbor_of sub_strict].
  - apply subBody_field.
  - intros c Hc. apply (starts_not_null Map); [done|]. apply keyed_starts. pose proof (subBody_entries c). lia.
  - intros c Hc. destruct (subBody_fromCore c Hc) as (b & Eb & Hb & Ho). exists b. split; [done|]. split; [by apply subBody_toCore|by apply subBody_toCbor].
  - intros c Hc Hz. destruct (subBody_fromCbor strict c Hc Hz) as (b & Eb & Hb & Ho). exists b. split; [done|]. split; [by apply subBody_toCore|].
    destruct (subBody_field c Hc). cbn. unfold toCbor. rewrite Ho. by apply cached_some.
  - eapply accepts_weaken; [apply subBody_ends|]. intros b Hb. by apply ended_spec.
Qed.
End sub_body.
End bodies.

(** ** Sub transactions *)

Section sub_transaction.
Context `{Era} `{Crc32} {CL : Crc32Laws} `{BaseEncoding} {BE : Bech32Ends} `{Bech32} `{IpAddress} {IL : IpAddressLaws} `{FractionJs} `{UniqWithLaws} `{Blake2b}.

Definition witness_strict (strict : bool) : Serializable CoreWitness TransactionWitnessSet.t := {|
  toCbor_of := TransactionWitnessSet.toCbor;
  fromCbor_of := TransactionWitnessSet.fromCborWith strict;
  toCore_of := TransactionWitnessSet.toCore;
  fromCore_of := TransactionWitnessSet.fromCore;
  bytesOf := witnessBytes;
  validCore := isWitness;
  typed _ := true
|}.

Lemma witness_strict_laws strict : @SerializableLaws _ _ (witness_strict strict).
Proof.
  split; cbn [bytesOf validCore fromCore_of fromCbor_of witness_strict].
  - exact (@bytesOf_field _ _ witness_serializable witness_laws).
  - exact (@bytesOf_not_null _ _ witness_serializable witness_laws).
  - exact (@fromCore_standsFor _ _ witness_serializable witness_laws).
  - intros c Hp%witness_parts Hz. destruct (witness_fromCbor strict c Hp Hz) as (w & E & Hw & Ho). exists w. split; [done|].
    split; [by apply witness_toCore|]. destruct (witness_field c Hp). cbn. unfold TransactionWitnessSet.toCbor. rewrite Ho. by apply cached_some.
  - eapply accepts_weaken; [apply witness_accepts|done].
Qed.

(** Auxiliary data that may be missing. *)
Definition auxOptionBytes : option CoreAuxiliaryData -> list Z := nullableBytes (bytesOf (T := AuxiliaryData.t)).
Definition isAuxOption : option CoreAuxiliaryData -> bool := validOption (T := AuxiliaryData.t).
Definition auxIsOption : option CoreAuxiliaryData -> option AuxiliaryData.t -> Prop := standsForOption.

Lemma auxOption_fromCore a : isAuxOption a = true -> exists o, TransactionWitnessSet.optionalCore AuxiliaryData.fromCore a = Ok o /\ auxIsOption a o.
Proof.
  destruct a as [a|]; intros Ha; [|by exists None]. destruct (@fromCore_standsFor _ _ auxiliary_serializable auxiliary_laws a Ha) as (o & E & Ho). exists (Some o).
  split; [|exact Ho]. change (AuxiliaryData.fromCore a = Ok o) in E. cbn. by rewrite E.
Qed.

Lemma auxOption_toCore a o : auxIsOption a o -> TransactionWitnessSet.optionalCore AuxiliaryData.toCore o = Ok a.
Proof. destruct a as [a|], o as [o|]; try done. intros [E _]. change (AuxiliaryData.toCore o = Ok a) in E. cbn. by rewrite E. Qed.

Section strict.
Context (strict : bool).
Import SubTransaction.

Definition subFields (c : core) : list (list Z) := [subBodyBytes (coreBody c); witnessBytes (coreWitness c); auxOptionBytes (coreAuxiliaryData c)].
Definition isSubTransaction (c : core) : bool := isSubBody (coreBody c) && isWitness (coreWitness c) && isAuxOption (coreAuxiliaryData c).

(** The identifier is the hash of the encoding of the body. *)
Definition subId (c : core) : HexBlob := blake2b_hash (Buffer_to_hex (subBodyBytes (coreBody c))) 32.

Record subIs (c : core) (s : t) : Prop := {
  subIs_body : @standsFor _ _ (sub_strict strict) (coreBody c) (body s);
  subIs_witness : @standsFor _ _ (witness_strict strict) (coreWitness c) (witnessSet s);
  subIs_aux : auxIsOption (coreAuxiliaryData c) (auxiliaryData s)
}.

Lemma isSub_spec c : isSubTransaction c = true -> isSubBody (coreBody c) = true /\ isWitness (coreWitness c) = true /\ isAuxOption (coreAuxiliaryData c) = true.
Proof. by intros [[? ?]%andb_true_iff ?]%andb_true_iff. Qed.

Lemma sub_fields c : isSubTransaction c = true -> Forall field (subFields c).
Proof.
  intros (Hb & Hw & Ha)%isSub_spec. repeat first [apply Forall_nil_2 | apply Forall_cons_2].
  - exact (@bytesOf_field _ _ _ (sub_strict_laws strict) _ Hb).
  - exact (@bytesOf_field _ _ _ (witness_strict_laws strict) _ Hw).
  - exact (option_field (T := AuxiliaryData.t) _ Ha).
Qed.

Lemma subIs_toCore c s : subIs c s -> toCore s = Ok c /\ getId s = Ok (subId c).
Proof.
  intros [[Eb Wb] [Ew _] Ha]. change (SubTransactionBody.toCore (body s) = Ok (coreBody c)) in Eb. change (TransactionWitnessSet.toCore (witnessSet s) = Ok (coreWitness c)) in Ew.
  change (SubTransactionBody.toCbor (body s) = Ok (Buffer_to_hex (subBodyBytes (coreBody c)))) in Wb. split.
  - unfold toCore. rewrite Eb, Ew, (auxOption_toCore _ _ Ha). by destruct c.
  - unfold getId. by rewrite Wb.
Qed.

Lemma sub_fromCore c : isSubTransaction c = true -> exists s, fromCore c = Ok s /\ subIs c s /\ toCbor s = Ok (Buffer_to_hex (recordBytes (subFields c))).
Proof.
  intros Hc. destruct (isSub_spec c Hc) as (Hb & Hw & Ha).
  destruct (@fromCore_standsFor _ _ _ (sub_strict_laws strict) _ Hb) as (b & Eb & Sb). destruct (@fromCore_standsFor _ _ _ (witness_strict_laws strict) _ Hw) as (w & Ew & Sw).
  destruct (auxOption_fromCore _ Ha) as (a & Ea & Sa). change (SubTransactionBody.fromCore (coreBody c) = Ok b) in Eb. change (TransactionWitnessSet.fromCore (coreWitness c) = Ok w) in Ew.
  exists (new b w a). unfold fromCore. rewrite Eb. cbn [mbind outcome_bind]. rewrite Ew. cbn [mbind outcome_bind]. rewrite Ea. split; [done|]. split; [by split|].
  apply (encode_record 3 _ [_; _; _]); [done..|]. apply emits_fields; [exact (@nested_emits _ _ _ (sub_strict_laws strict) _ _ Hb Sb)|].
  apply emits_fields; [exact (@nested_emits _ _ _ (witness_strict_laws strict) _ _ Hw Sw)|]. apply emits_last. exact (option_emits (C := CoreAuxiliaryData) (T := AuxiliaryData.t) _ _ Ha Sa).
Qed.

Lemma sub_fromCbor c : isSubTransaction c = true -> zlen (recordBytes (subFields c)) < 2 ^ 53 -> exists s,
  fromCborWith strict (Buffer_to_hex (recordBytes (subFields c))) = Ok s /\ subIs c s /\ originalBytes s = Some (Buffer_to_hex (recordBytes (subFields c))).
Proof.
  intros Hc Hz. destruct (isSub_spec c Hc) as (Hb & Hw & Ha). pose proof (sub_fields c Hc) as Hf.
  destruct (@nested_reads _ _ _ (sub_strict_laws strict) _ Hb (part_fits _ _ _ Hz ltac:(by left))) as (b & Rb & Sb).
  destruct (@nested_reads _ _ _ (witness_strict_laws strict) _ Hw (part_fits _ _ _ Hz ltac:(right; by left))) as (w & Rw & Sw).
  destruct (option_reads (C := CoreAuxiliaryData) (T := AuxiliaryData.t) _ Ha (part_fits _ _ _ Hz ltac:(do 2 right; by left))) as (a & Ra & Sa).
  exists {| body := b; witnessSet := w; auxiliaryData := a; originalBytes := Some (Buffer_to_hex (recordBytes (subFields c))) |}. split; [|by split].
  apply decode_completes; [done..|]. cbv beta. apply completes_guard; [done|]. eapply completes_bind; [exact Rb|]. eapply completes_bind; [exact Rw|].
  eapply completes_bind; [exact Ra|]. by apply completes_end.
Qed.

Lemma sub_ends : accepts (fromCborWith strict) (fun s => ended (getId s) = true).
Proof.
  apply (accepts_decode (fun cbor => _)). intros cbor. eapply sound_bind; [apply sound_startArray|]. intros n _. apply sound_guard. intros _.
  eapply sound_bind; [exact (@nested_sound _ _ _ (sub_strict_laws strict))|]. intros b Hb. eapply sound_bind; [exact (@nested_sound _ _ _ (witness_strict_laws strict))|]. intros w _.
  eapply sound_bind; [exact (option_sound (C := CoreAuxiliaryData) (T := AuxiliaryData.t))|]. intros a _. eapply sound_bind; [apply sound_endArray|]. intros _ _. apply sound_ret.
  pose proof (proj1 (ended_spec (SubTransactionBody.toCbor b)) Hb) as Hb'. apply ended_spec. unfold getId. cbn [body]. by apply bind_fuel.
Qed.

(** Core values are taken with the identifiers of their transactions. *)
Definition identified : Serializable (core * HexBlob) t := {|
  toCbor_of := toCbor;
  fromCbor_of := fromCborWith strict;
  toCore_of s := c ← toCore s; id ← getId s; Ok (c, id);
  fromCore_of p := fromCore p.1;
  bytesOf p := recordBytes (subFields p.1);
  validCore p := isSubTransaction p.1 && String.eqb p.2 (subId p.1);
  typed s := ended (getId s)
|}.

Lemma identified_laws : @SerializableLaws _ _ identified.
Proof.
  split; cbn [bytesOf validCore fromCore_of fromCbor_of identified].
  - intros p [Hc _]%andb_true_iff. apply field_record; [done|by apply sub_fields].
  - record_starts.
  - intros [c id] [Hc Eid%String.eqb_eq]%andb_true_iff. cbn [fst snd] in *. subst id. destruct (sub_fromCore c Hc) as (s & Es & Hs & Ws). exists s. split; [done|]. split; [|exact Ws].
    destruct (subIs_toCore c s Hs) as [E1 E2]. cbn. rewrite E1. cbn. by rewrite E2.
  - intros [c id] [Hc Eid%String.eqb_eq]%andb_true_iff Hz. cbn [fst snd] in *. subst id. destruct (sub_fromCbor c Hc Hz) as (s & Es & Hs & Os). exists s. split; [done|]. split.
    + destruct (subIs_toCore c s Hs) as [E1 E2]. cbn. rewrite E1. cbn. by rewrite E2.
    + cbn. unfold toCbor. rewrite Os. apply cached_record; [done|by apply sub_fields].
  - apply sub_ends.
Qed.
End strict.

(** *** Sets of sub transactions *)

Definition identifiedList (l : list SubTransaction.core) : list (SubTransaction.core * HexBlob) := map (fun c => (c, subId c)) l.
Definition subsBytes (l : list SubTransaction.core) : list Z :=
  let list := CborWriter.head Array (zlen l) ++ concat (map (fun c => recordBytes (subFields c)) l) in if inConwayEra then tagBytes 258 list else list.

(** Some sub transactions, with different identifiers. *)
Definition areSubs (l : list SubTransaction.core) : bool :=
  (zlen l <? 2 ^ 53) && (0 <? zlen l) && forallb isSubTransaction l && bool_decide (NoDup (map subId l)).

Lemma subsBytes_strict strict l : subsBytes l = @setBytes _ _ _ (identified strict) (identifiedList l).
Proof. unfold subsBytes, setBytes, listBytes, identifiedList. cbn [bytesOf identified]. by rewrite zlen_map, map_map. Qed.

Definition subsAre (strict : bool) (l : list SubTransaction.core) (s : CborSet.t SubTransaction.t) : Prop :=
  @standsFor _ _ (@set_serializable _ _ _ (identified strict)) (identifiedList l) s.

Lemma areSubs_valid strict l : areSubs l = true -> @validList _ _ (identified strict) (identifiedList l) = true.
Proof.
  intros [[[Hz _]%andb_true_iff Hl]%andb_true_iff _]%andb_true_iff. unfold validList, identifiedList. rewrite zlen_map, Hz. cbn [andb].
  rewrite forallb_forall in Hl |- *. intros p (c & <- & Hc)%in_map_iff. cbn. rewrite (Hl c Hc). by rewrite String.eqb_refl.
Qed.

Lemma areSubs_spec l : areSubs l = true -> 0 < zlen l < 2 ^ 53 /\ NoDup (map subId l).
Proof. intros [[[Hz Hn]%andb_true_iff Hl]%andb_true_iff Hd%bool_decide_eq_true]%andb_true_iff. zb. done. Qed.

Lemma remove_dups_id (l : list string) : NoDup l -> remove_dups l = l.
Proof.
  induction 1 as [|x l Hx _ IH]; [done|]. cbn. case_decide; [done|]. by rewrite IH.
Qed.

(** What the elements of such a set are. *)
Lemma subs_elements strict l s : subsAre strict l s ->
  mapM SubTransaction.toCore (CborSet.values s) = Ok l /\ mapM SubTransaction.getId (CborSet.values s) = Ok (map subId l) /\ CborSet.size s = zlen l.
Proof.
  intros [Hc _]. change (mapM (fun s => c ← SubTransaction.toCore s; id ← SubTransaction.getId s; Ok (c, id)) (CborSet.values s) = Ok (identifiedList l)) in Hc.
  unfold CborSet.size. revert l Hc. generalize (CborSet.values s). intros os. induction os as [|o os IH]; intros l; cbn [mapM].
  - intros [= E]. by destruct l.
  - destruct (SubTransaction.toCore o) as [c|e|]; [|done..]. cbn [mbind outcome_bind]. destruct (SubTransaction.getId o) as [id|e|]; [|done..]. cbn [mbind outcome_bind].
    destruct (mapM _ os) as [k|e|] eqn:Ek; [|done..]. cbn [mbind outcome_bind]. destruct l as [|c' l]; [done|]. cbn [identifiedList map]. intros [= -> -> ->].
    destruct (IH l eq_refl) as (-> & -> & Ez). split_and!; [done..|]. by rewrite !zlen_cons, Ez.
Qed.

Lemma subs_fromCore l : areSubs l = true -> exists s, CborSet.fromCore SubTransaction.fromCore l = Ok s /\ subsAre false l s.
Proof.
  intros Hl. destruct (@fromCore_standsFor _ _ _ (@set_laws _ _ _ _ (identified_laws false)) _ (areSubs_valid false l Hl)) as (s & Es & Hs). exists s. split; [|exact Hs].
  change (CborSet.fromCore (fun p : SubTransaction.core * HexBlob => SubTransaction.fromCore p.1) (identifiedList l) = Ok s) in Es. rewrite <- Es. unfold CborSet.fromCore. f_equal.
  clear. induction l as [|c l IH]; [done|]. cbn [identifiedList map mapM fst]. by rewrite IH.
Qed.

Lemma subs_emit strict l s : areSubs l = true -> subsAre strict l s -> emits (writeEncoded (CborSet.toCbor SubTransaction.toCbor s)) (subsBytes l).
Proof. intros Hl Hs. rewrite (subsBytes_strict strict). exact (@set_emitted _ _ _ (identified strict) (identified_laws strict) _ s (areSubs_valid strict l Hl) Hs). Qed.

Lemma subs_field l : areSubs l = true -> field (subsBytes l).
Proof. intros Hl. rewrite (subsBytes_strict false). exact (@set_field _ _ _ (identified false) (identified_laws false) _ (areSubs_valid false l Hl)). Qed.

Lemma subs_read strict l : areSubs l = true -> zlen (subsBytes l) < 2 ^ 53 -> exists s, reads (TransactionBody.readSubTransactions strict) (subsBytes l) s /\ subsAre strict l s.
Proof.
  intros Hl Hz. rewrite (subsBytes_strict strict) in Hz |- *. destruct (@nested_reads _ _ _ (@set_laws _ _ _ (identified strict) (identified_laws strict)) _ (areSubs_valid strict l Hl) Hz) as (s & Rs & Hs). exists s. split; [|exact Hs].
  destruct (subs_elements strict l s Hs) as (_ & Ei & En). destruct (areSubs_spec l Hl) as [Hn Hd]. unfold TransactionBody.readSubTransactions.
  eapply reads_last; [exact Rs|]. intros r. rewrite En, (proj2 (Z.eqb_neq _ _)) by lia. unfold st_guard at 1. cbn [mbind ST_bind]. unfold mbind at 1, ST_bind at 1, mret at 1, ST_ret at 1.
  unfold st_lift. rewrite Ei. unfold mbind at 1, ST_bind at 1. rewrite remove_dups_id by done. rewrite zlen_map, Z.eqb_refl. done.
Qed.

Lemma sound_subs strict : sound (TransactionBody.readSubTransactions strict) (fun _ => True).
Proof.
  unfold TransactionBody.readSubTransactions. eapply sound_bind; [exact (@nested_sound _ _ _ (@set_laws _ _ _ _ (identified_laws strict)))|].
  intros s Hs. apply sound_guard. intros _. eapply (sound_bind _ _ (fun _ => True)).
  - apply sound_lift; [|done]. cbn in Hs. rewrite forallb_forall in Hs. clear -Hs. induction (CborSet.values s) as [|o os IH]; [done|]. cbn [mapM].
    apply bind_fuel; [apply ended_spec, Hs; by left|]. intros id. apply bind_fuel; [apply IH; intros x Hx; apply Hs; by right|done].
  - intros ids _. apply sound_guard. intros _. by apply sound_ret.
Qed.

(** ** Bodies of transactions *)

Section body.
Import TransactionBody.

#[local] Instance body_store_laws : BodyStoreLaws t fields.
Proof.
  split.
  - intros s f v Hf. cbn [getField putField store]. unfold put. destruct f; cbn -[override]; rewrite ?override_same; try done;
      exfalso; revert Hf; apply (bool_decide_unpack _); by vm_compute.
  - intros s f g v Hn. cbn [getField putField store]. unfold put. destruct g; cbn -[override]; rewrite ?override_other by done; done.
Qed.

Definition subsEntry (c : core) : list (Z * list Z) := optionalEntry 23 subsBytes (coreSubTransactions c).
Definition bodyEntries (c : core) : list (Z * list Z) := fieldEntries (coreField c) fieldsBefore ++ subsEntry c ++ fieldEntries (coreField c) fieldsAfter.
Definition bodyBytes (c : core) : list Z := keyedBytes (bodyEntries c).

Definition isSubsOption (o : option (list SubTransaction.core)) : bool := match o with Some l => areSubs l | None => true end.

Definition isBody (c : core) : bool :=
  forallb (validAt (coreField c)) fields && (isValidity (coreValidityInterval c) && signersAgree (coreGuards c) (coreRequiredExtraSignatures c)) &&
  isSubsOption (coreSubTransactions c).

Definition subsAreOption (strict : bool) (c : option (list SubTransaction.core)) (o : option (CborSet.t SubTransaction.t)) : Prop :=
  match c, o with Some l, Some s => subsAre strict l s | None, None => True | _, _ => False end.

Record bodyIs (strict : bool) (c : core) (b : t) : Prop := {
  bodyIs_fields : Forall (fieldIs (coreField c) b) fields;
  bodyIs_subs : subsAreOption strict (coreSubTransactions c) (subTransactions b)
}.

Lemma fields_split : fields = fieldsBefore ++ fieldsAfter.
Proof. done. Qed.

Lemma isBody_spec c : isBody c = true -> Forall (fun f => validAt (coreField c) f = true) fields /\ isValidity (coreValidityInterval c) = true /\
  signersAgree (coreGuards c) (coreRequiredExtraSignatures c) = true /\ isSubsOption (coreSubTransactions c) = true.
Proof. intros [[Hf [Hv Hs]%andb_true_iff]%andb_true_iff Hl]%andb_true_iff. split; [|done]. by apply List.Forall_forall, forallb_forall. Qed.

Lemma body_valid_at c f : isBody c = true -> f ∈ fields -> validAt (coreField c) f = true.
Proof. intros (Hf & _)%isBody_spec Hin. by apply (proj1 (Forall_forall _ _) Hf). Qed.

Lemma body_is strict c b f : bodyIs strict c b -> f ∈ fields -> fieldIs (coreField c) b f.
Proof. intros [Hb _]. by apply (proj1 (Forall_forall _ _) Hb). Qed.

Ltac in_fields := apply (bool_decide_unpack _); by vm_compute.

Lemma body_entries c : zlen (bodyEntries c) < 2 ^ 53.
Proof.
  unfold bodyEntries, subsEntry. rewrite !zlen_app, optional_length. pose proof (fieldEntries_length (coreField c) fieldsBefore). pose proof (fieldEntries_length (coreField c) fieldsAfter).
  assert (zlen fieldsBefore = 21) by done. assert (zlen fieldsAfter = 2) by done. case_match; lia.
Qed.

Lemma body_field c : isBody c = true -> field (bodyBytes c).
Proof.
  intros (Hf & _ & _ & Hs)%isBody_spec. pose proof (body_entries c). apply keyed_field; [lia|]. rewrite fields_split in Hf. apply Forall_app in Hf as [Hb Ha].
  unfold bodyEntries. rewrite !Forall_app. split_and!; [by apply fieldEntries_field| |by apply fieldEntries_field].
  unfold subsEntry. destruct (coreSubTransactions c) as [l|]; [|constructor]. constructor; [|constructor]. split; [done|by apply subs_field].
Qed.

(** *** Writing *)

Lemma subs_sized strict l s : areSubs l = true -> subsAre strict l s -> TransactionWitnessSet.sized (Some s) = Some s.
Proof. intros Hl Hs. destruct (subs_elements strict l s Hs) as (_ & _ & En). destruct (areSubs_spec l Hl) as [[Hn _] _]. apply sized_some. rewrite En. by apply Z.ltb_lt. Qed.

Lemma body_toCbor strict c b : isBody c = true -> bodyIs strict c b -> originalBytes b = None -> toCbor b = Ok (Buffer_to_hex (bodyBytes c)).
Proof.
  intros Hc [Hb Hs] Ho. destruct (isBody_spec c Hc) as (_ & _ & _ & Hv). pose proof (body_entries c) as Hz. unfold toCbor, cached, remembered. rewrite Ho.
  apply encode_emits. unfold bodyBytes. assert (Hb' := Hb). rewrite fields_split in Hb'. apply Forall_app in Hb' as [Hbb Hba].
  assert (Es : sizedSubTransactions b = subTransactions b).
  { unfold sizedSubTransactions. destruct (coreSubTransactions c) as [l|], (subTransactions b) as [s|]; try done. exact (subs_sized strict l s Hv Hs). }
  assert (En : zlen (bodyEntries c) = getMapSize b).
  { unfold getMapSize. rewrite (fields_written (coreField c)) by exact Hb. rewrite Es, fields_split, fieldEntries_app. unfold bodyEntries, subsEntry. rewrite !zlen_app, optional_length.
    destruct (coreSubTransactions c) as [l|], (subTransactions b) as [s|]; try done; cbn [TransactionWitnessSet.count]; lia. }
  apply keyed_emits; [exact En|lia|]. rewrite Es. apply fields_emits; [by apply fields_emit|]. apply fields_emits; [|by apply fields_emit].
  unfold subsEntry. destruct (coreSubTransactions c) as [l|], (subTransactions b) as [s|]; try done; [|apply emits_ret].
  apply emits_key; [done|]. exact (subs_emit strict l s Hv Hs).
Qed.

(** *** Core values *)

Lemma body_signers c b : isBody c = true -> guardsToCore <$> guards b = guardField (coreGuards c) (coreRequiredExtraSignatures c) ->
  signersToCore (guards b) = Ok (coreRequiredExtraSignatures c) /\ guards b ≫= Guards.credentials = coreGuards c.
Proof.
  intros Hc Hg. pose proof (body_valid_at c Field.guards Hc ltac:(in_fields)) as Hv. destruct (isBody_spec c Hc) as (_ & _ & Ha & _).
  unfold validAt in Hv. cbn [coreField fieldKindOf] in Hv. unfold signersAgree, guardField in *.
  destruct (coreGuards c) as [l|].
  - destruct (guards b) as [[s|s]|]; try done. injection Hg as <-. cbn [validField isGuards] in Hv. apply andb_true_iff in Hv as [Hl _].
    unfold signersToCore. rewrite (guardKeyHashes_exact _ Hl). apply bool_decide_eq_true in Ha. by rewrite Ha.
  - destruct (coreRequiredExtraSignatures c) as [l|], (guards b) as [[s|s]|]; try done. by injection Hg as <-.
Qed.

Lemma body_toCore strict c b : isBody c = true -> bodyIs strict c b -> toCore b = Ok c.
Proof.
  intros Hc Hb. destruct (isBody_spec c Hc) as (_ & Hv & _).
  assert (Hf : forall f, f ∈ fields -> coreOfField b f = Ok (coreField c f)) by (intros f Hf; by eapply field_toCore, body_is).
  assert (Hs : forall f, f ∈ fields -> fieldIs (coreField c) b f) by (intros f; by eapply body_is).
  destruct (body_signers c b Hc (guards_plain _ _ (Hs Field.guards ltac:(in_fields)))) as [E1 E2].
  assert (Ei : fieldToCore InputSet (inputs b) = Ok (coreInputs c)) by exact (field_core _ _ _ (Hs Field.inputs ltac:(in_fields))).
  assert (Eo : fieldToCore OutputList (outputs b) = Ok (coreOutputs c)) by exact (field_core _ _ _ (Hs Field.outputs ltac:(in_fields))).
  assert (Et : TransactionWitnessSet.optionalCore (CborSet.toCore SubTransaction.toCore) (subTransactions b) = Ok (coreSubTransactions c)).
  { destruct Hb as [_ Hl]. destruct (coreSubTransactions c) as [l|], (subTransactions b) as [s|]; try done. destruct (subs_elements strict l s Hl) as (El & _ & _). cbn.
    unfold CborSet.toCore. by rewrite El. }
  assert (Ee : fee b = coreFee c) by exact (coin_plain _ _ (Hs Field.fee ltac:(in_fields))).
  unfold toCore. rewrite E1. cbn [mbind outcome_bind].
  rewrite (Hf Field.accountBalanceIntervals), (Hf Field.certs), (Hf Field.collateralReturn), (Hf Field.collateral) by in_fields. cbn [mbind outcome_bind].
  rewrite Ei. cbn [mbind outcome_bind]. rewrite Eo. cbn [mbind outcome_bind].
  rewrite (Hf Field.proposalProcedures) by in_fields. cbn [mbind outcome_bind].
  rewrite (references_plain (coreReferenceInputs c) (referenceInputs b) (Hs Field.referenceInputs ltac:(in_fields))). cbn [mbind outcome_bind].
  rewrite Et. cbn [mbind outcome_bind]. rewrite (Hf Field.update), (Hf Field.votingProcedures) by in_fields. cbn [mbind outcome_bind]. rewrite E2, Ee.
  assert (F0 : auxiliaryDataHash b = coreAuxiliaryDataHash c) by exact (plain_field _ _ _ hash_plain (Hs Field.auxiliaryDataHash ltac:(in_fields))).
  assert (F1 : directDeposits b = coreDirectDeposits c) by exact (plain_field _ _ _ deposits_plain (Hs Field.directDeposits ltac:(in_fields))).
  assert (F2 : donation b = coreDonation c) by exact (plain_field _ _ _ coin_plain (Hs Field.donation ltac:(in_fields))).
  assert (F3 : mint b = coreMint c) by exact (plain_field _ _ _ mint_plain (Hs Field.mint ltac:(in_fields))).
  assert (F4 : networkId b = coreNetworkId c) by exact (plain_field _ _ _ number_plain (Hs Field.networkId ltac:(in_fields))).
  assert (F5 : scriptDataHash b = coreScriptIntegrityHash c) by exact (plain_field _ _ _ hash_plain (Hs Field.scriptDataHash ltac:(in_fields))).
  assert (F6 : totalCollateral b = coreTotalCollateral c) by exact (plain_field _ _ _ coin_plain (Hs Field.totalCollateral ltac:(in_fields))).
  assert (F7 : currentTreasuryValue b = coreTreasuryValue c) by exact (plain_field _ _ _ coin_plain (Hs Field.currentTreasuryValue ltac:(in_fields))).
  assert (F8 : withdrawals b = coreWithdrawals c) by exact (plain_field _ _ _ withdrawals_plain (Hs Field.withdrawals ltac:(in_fields))).
  assert (F9 : ttl b = (coreValidityInterval c ≫= invalidHereafter)) by exact (plain_field _ _ _ number_plain (Hs Field.ttl ltac:(in_fields))).
  assert (F10 : validityStartInterval b = (coreValidityInterval c ≫= invalidBefore)) by exact (plain_field _ _ _ number_plain (Hs Field.validityStartInterval ltac:(in_fields))).
  rewrite F0, F1, F2, F3, F4, F5, F6, F7, F8, F9, F10.
  cbn [coreField]. rewrite (validity_exact _ Hv). by destruct c.
Qed.

(** *** Reading *)

Lemma body_get_make b x o f : get (make (get b) x o) f = get b f.
Proof. by destruct f. Qed.

Lemma body_read_field strict f : f ∈ fields -> readField strict (Field.key f) = readFieldInto strict true "transaction body" f.
Proof. intros Hf. unfold readField, fieldOfKey. by rewrite find_key. Qed.

Definition untouched (_ : t) (_ : Field.t) : Prop := True.

Lemma body_fresh c f : fieldFresh (coreField c) empty f.
Proof. split; [intros v; by destruct f|by destruct f]. Qed.

Lemma body_entry_fits c e : In e (bodyEntries c) -> zlen (bodyBytes c) < 2 ^ 53 -> zlen e.2 < 2 ^ 53.
Proof.
  unfold bodyBytes. generalize (bodyEntries c). intros es He Hz. pose proof (keyed_entry_size es e He). lia.
Qed.

Lemma body_still_fresh c b f : get b f = get empty f -> fieldFresh (coreField c) b f.
Proof. intros E. destruct (body_fresh c f) as [Hm Hn]. unfold fieldFresh. cbn [getField store] in Hm, Hn |- *. by rewrite E. Qed.

Lemma body_put_subs x b f v : subTransactions b = x -> subTransactions (putField b f v) = x.
Proof. done. Qed.

Lemma body_read_subs strict : readField strict 23 = (s ← readSubTransactions strict; mret (fun b => setSubTransactions b s)).
Proof. unfold readField. assert (E : fieldOfKey 23 = None) by done. by rewrite E. Qed.

(** Some of the fields, one after the other. *)
Lemma body_lead strict c fs b : isBody c = true -> zlen (bodyBytes c) < 2 ^ 53 -> NoDup fs -> fs ⊆ fields -> incl (fieldEntries (coreField c) fs) (bodyEntries c) ->
  (forall f, f ∈ fs -> get b f = get empty f) ->
  exists b', leads (readField strict) (fieldEntries (coreField c) fs) b b' /\ Forall (fieldIs (coreField c) b') fs /\ (forall g, g ∉ fs -> get b' g = get b g) /\ subTransactions b' = subTransactions b.
Proof.
  intros Hc Hz Hd Hi He Hb. destruct (isBody_spec c Hc) as (Hf & _).
  destruct (fields_lead (coreField c) (BL := body_store_laws) untouched ltac:(done) ltac:(done) strict true "transaction body" (readField strict) (body_read_field strict)
    (fun b' => subTransactions b' = subTransactions b) (body_put_subs _) fs b) as (b' & Sb & Lb & Hb' & Ob & _).
  - done.
  - done.
  - apply Forall_forall. intros f Hin. by apply (proj1 (Forall_forall _ _) Hf), Hi.
  - intros e Hin. exact (body_entry_fits c e (He e Hin) Hz).
  - apply Forall_forall. intros f Hin. by apply body_still_fresh, Hb.
  - done.
  - exists b'. by split_and!.
Qed.

Lemma body_subs_lead strict c b : isBody c = true -> zlen (bodyBytes c) < 2 ^ 53 -> subTransactions b = None ->
  exists b', leads (readField strict) (subsEntry c) b b' /\ (forall f, get b' f = get b f) /\ subsAreOption strict (coreSubTransactions c) (subTransactions b').
Proof.
  intros Hc Hz Hb. destruct (isBody_spec c Hc) as (_ & _ & _ & Hs). unfold subsEntry. destruct (coreSubTransactions c) as [l|] eqn:El.
  - assert (Hzl : zlen (subsBytes l) < 2 ^ 53).
    { apply (body_entry_fits c (23, subsBytes l)); [|exact Hz]. unfold bodyEntries, subsEntry. rewrite El. apply in_app_iff. right. by left. }
    destruct (subs_read strict l Hs Hzl) as (s & Rs & Hs'). exists (setSubTransactions b s). split_and!; [|intros f; apply body_get_make|exact Hs'].
    apply (leads_one (readField strict) (23, subsBytes l) (fun b => setSubTransactions b s)). split; [done|]. split; [by apply subs_field|].
    cbn [fst snd]. rewrite body_read_subs. by eapply reads_last.
  - exists b. split_and!; [apply leads_nil|done|by rewrite Hb].
Qed.

Lemma body_reads strict c : isBody c = true -> zlen (bodyBytes c) < 2 ^ 53 ->
  exists b, reads (readKeyed (readField strict) empty) (bodyBytes c) b /\ bodyIs strict c b.
Proof.
  intros Hc Hz.
  destruct (body_lead strict c fieldsBefore empty Hc Hz) as (b1 & L1 & F1 & O1 & S1).
  { by apply (bool_decide_unpack _). } { rewrite fields_split. apply list_subseteq_app_l. done. } { intros e He. unfold bodyEntries. apply in_app_iff. by left. } { done. }
  destruct (body_subs_lead strict c b1 Hc Hz S1) as (b2 & L2 & O2 & S2).
  destruct (body_lead strict c fieldsAfter b2 Hc Hz) as (b3 & L3 & F3 & O3 & S3).
  { by apply (bool_decide_unpack _). } { rewrite fields_split. by apply list_subseteq_app_r. } { intros e He. unfold bodyEntries. apply in_app_iff. right. apply in_app_iff. by right. }
  { intros f Hf. rewrite O2. apply O1. revert f Hf. apply Forall_forall. apply (bool_decide_unpack _). by vm_compute. }
  exists b3. split.
  - apply keyed_leads; [|pose proof (body_entries c); lia]. eapply leads_app; [exact L1|]. by eapply leads_app.
  - split; [|by rewrite S3]. rewrite fields_split. apply Forall_app. split; [|exact F3]. apply Forall_forall. intros f Hf.
    pose proof (proj1 (Forall_forall _ _) F1 f Hf) as H1f. unfold fieldIs in *. cbn [getField store] in *. rewrite O3, O2; [exact H1f|].
    revert f Hf H1f. intros f Hf _. revert f Hf. apply Forall_forall. apply (bool_decide_unpack _). by vm_compute.
Qed.

Lemma body_fromCbor strict c : isBody c = true -> zlen (bodyBytes c) < 2 ^ 53 -> exists b,
  fromCborWith strict (Buffer_to_hex (bodyBytes c)) = Ok b /\ bodyIs strict c b /\ originalBytes b = Some (Buffer_to_hex (bodyBytes c)).
Proof.
  intros Hc Hz. destruct (body_field c Hc) as [_ Hb]. destruct (body_reads strict c Hc Hz) as (b & Rb & [Fb Sb]).
  exists (remember b (Buffer_to_hex (bodyBytes c))). split; [|split; [|done]].
  - apply decode_reads; [|done..]. by eapply reads_last.
  - split; [|exact Sb]. eapply Forall_impl; [exact Fb|]. intros f Hf. unfold fieldIs in *. cbn [getField store] in *. unfold remember. by rewrite body_get_make.
Qed.

Lemma body_order : assignmentOrder ≡ₚ fields.
Proof. apply (bool_decide_unpack _). by vm_compute. Qed.

Lemma body_fromCore c : isBody c = true -> exists b, fromCore c = Ok b /\ bodyIs false c b /\ originalBytes b = None.
Proof.
  intros Hc. destruct (isBody_spec c Hc) as (Hf & _ & _ & Hs).
  destruct (fields_made (coreField c) (BL := body_store_laws) (fun b => originalBytes b = None /\ subTransactions b = None) ltac:(done) assignmentOrder empty) as (b & Eb & [Ob Sb] & Hb & _).
  - rewrite body_order. by apply (bool_decide_unpack _).
  - intros f. by rewrite body_order.
  - by rewrite body_order.
  - done.
  - apply Forall_forall. intros f _. by destruct f.
  - rewrite body_order in Hb. unfold fromCore. rewrite Eb. cbn [mbind outcome_bind]. destruct (coreSubTransactions c) as [l|] eqn:El; cbn [TransactionWitnessSet.optionalCore].
    + destruct (subs_fromCore l Hs) as (s & Es & Hs'). rewrite Es. exists (setSubTransactions b s). split; [done|]. split; [|done]. split; [|by rewrite El].
      eapply Forall_impl; [exact Hb|]. intros f Hff. unfold fieldIs in *. cbn [getField store] in *. unfold setSubTransactions. by rewrite body_get_make.
    + exists b. split; [done|]. split; [|done]. split; [done|]. by rewrite El, Sb.
Qed.

(** *** Any blob *)

Lemma sound_bodyField strict key : sound (readField strict key) (fun _ => True).
Proof.
  unfold readField. destruct (fieldOfKey key) as [f|].
  { eapply sound_weaken; [by apply (sound_fieldInto strict true _ f (fun _ => True))|done]. }
  destruct (key =? 23); [|destruct strict; [apply sound_throw|]].
  - eapply sound_bind; [apply sound_subs|]. intros s _. by apply sound_ret.
  - eapply sound_bind; [apply sound_skip|]. intros _ _. by apply sound_ret.
Qed.

(** A decoded body remembers its blob. *)
Lemma body_remembers strict cbor b : fromCborWith strict cbor = Ok b -> toCbor b = Ok cbor.
Proof.
  intros E. assert (Hn : cbor <> "").
  { intros ->. revert E. unfold fromCborWith, decode, readKeyed, mbind, ST_bind.
    assert (E : exists e r, call readStartMap (new "") = (Throw e, r)) by (eexists _, _; by vm_compute). destruct E as (e & r & ->). done. }
  assert (Ho : originalBytes b = Some cbor).
  { revert E. unfold fromCborWith, decode. set (m := readKeyed _ _). clearbody m. unfold mbind, ST_bind. destruct (m _) as [[r|e|] x]; try done. by intros [= <-]. }
  unfold toCbor, cached, remembered. rewrite Ho. by destruct (String.eqb_spec cbor "").
Qed.

Lemma body_ends strict : accepts (fromCborWith strict) (fun b => toCbor b <> OutOfFuel).
Proof.
  assert (Ha : accepts (fromCborWith strict) (fun _ => True)).
  2: { intros cbor Hz. split; [by apply Ha|]. intros b Eb. by rewrite (body_remembers strict cbor b Eb). }
  apply (accepts_decode (fun cbor => _)). intros cbor. eapply (sound_bind _ _ (fun _ => True)).
  - apply sound_keyed; [|done]. intros k. eapply sound_weaken; [apply sound_bodyField|done].
  - intros r _. by apply sound_ret.
Qed.

(** A body stands for its core value and for its encoding. *)
Definition bodyStands (c : core) (b : t) : Prop := toCore b = Ok c /\ toCbor b = Ok (Buffer_to_hex (bodyBytes c)).

Lemma body_made c : isBody c = true -> exists b, fromCore c = Ok b /\ bodyStands c b.
Proof. intros Hc. destruct (body_fromCore c Hc) as (b & Eb & Hb & Ho). exists b. split; [done|]. split; [by eapply body_toCore|by eapply body_toCbor]. Qed.

Lemma body_decoded strict c : isBody c = true -> zlen (bodyBytes c) < 2 ^ 53 -> exists b, fromCborWith strict (Buffer_to_hex (bodyBytes c)) = Ok b /\ bodyStands c b.
Proof.
  intros Hc Hz. destruct (body_fromCbor strict c Hc Hz) as (b & Eb & Hb & Ho). exists b. split; [done|]. split; [by eapply body_toCore|]. by eapply body_remembers.
Qed.

Lemma body_emits c b : isBody c = true -> bodyStands c b -> emits (writeEncoded (toCbor b)) (bodyBytes c).
Proof. intros [_ Hc]%body_field [_ Hb]. by apply emits_encoded. Qed.
End body.

(** ** Transactions *)

Lemma boolean_field (v : bool) : field [if v then 245 else 244].
Proof. split; [destruct v; [by apply (item_simple 21)|by apply (item_simple 20)]|destruct v; prove_bytes]. Qed.

Lemma boolean_emits (v : bool) : emits (call (CborWriter.writeBoolean v)) [if v then 245 else 244].
Proof. apply emits_call. destruct v; [by apply (appends_push 1 245)|by apply (appends_push 1 244)]. Qed.

Lemma boolean_reads (v : bool) : reads (call CborReader.readBoolean) [if v then 245 else 244] v.
Proof. apply reads_call. intros r rest Hr _. apply (readBoolean_exact r v rest). by destruct v. Qed.

Section transaction.
Import Transaction.

(** What its parts are, whether they were decoded or made from core values. *)
Definition witnessStands (c : CoreWitness) (w : TransactionWitnessSet.t) : Prop :=
  TransactionWitnessSet.toCore w = Ok c /\ TransactionWitnessSet.toCbor w = Ok (Buffer_to_hex (witnessBytes c)).

Lemma witness_made c : isWitness c = true -> exists w, TransactionWitnessSet.fromCore c = Ok w /\ witnessStands c w.
Proof. exact (@fromCore_standsFor _ _ _ (witness_strict_laws false) c). Qed.

Lemma witness_decoded strict c : isWitness c = true -> zlen (witnessBytes c) < 2 ^ 53 ->
  exists w, TransactionWitnessSet.fromCborWith strict (Buffer_to_hex (witnessBytes c)) = Ok w /\ witnessStands c w.
Proof. exact (@fromCbor_standsFor _ _ _ (witness_strict_laws strict) c). Qed.

Lemma witness_is_field c : isWitness c = true -> field (witnessBytes c).
Proof. exact (@bytesOf_field _ _ _ (witness_strict_laws false) c). Qed.

Lemma witness_emits c w : isWitness c = true -> witnessStands c w -> emits (writeEncoded (TransactionWitnessSet.toCbor w)) (witnessBytes c).
Proof. intros [_ Hc]%witness_is_field [_ Hw]. by apply emits_encoded. Qed.

Definition txFields (c : core) : list (list Z) :=
  [bodyBytes (coreBody c); witnessBytes (coreWitness c); [if default true (coreIsValid c) then 245 else 244]; auxOptionBytes (coreAuxiliaryData c)].

(** The identifier is the hash of the encoding of the body. *)
Definition txId (c : core) : HexBlob := blake2b_hash (Buffer_to_hex (bodyBytes (coreBody c))) 32.

(** Core values of transactions that have their identifier and their validity. *)
Definition isTransaction (c : core) : bool :=
  isBody (coreBody c) && isWitness (coreWitness c) && isAuxOption (coreAuxiliaryData c) && String.eqb (coreId c) (txId c) &&
  match coreIsValid c with Some _ => true | None => false end.

Record txIs (c : core) (tx : t) : Prop := {
  txIs_body : bodyStands (coreBody c) (body tx);
  txIs_witness : witnessStands (coreWitness c) (witnessSet tx);
  txIs_aux : auxIsOption (coreAuxiliaryData c) (auxiliaryData tx);
  txIs_valid : coreIsValid c = Some (isValid tx)
}.

Lemma isTransaction_spec c : isTransaction c = true -> isBody (coreBody c) = true /\ isWitness (coreWitness c) = true /\ isAuxOption (coreAuxiliaryData c) = true /\
  coreId c = txId c /\ exists v, coreIsValid c = Some v.
Proof.
  intros [[[[Hb Hw]%andb_true_iff Ha]%andb_true_iff Ei%String.eqb_eq]%andb_true_iff Hv]%andb_true_iff. split_and!; [done..|]. destruct (coreIsValid c) as [v|]; [by exists v|done].
Qed.

Lemma tx_fields c : isTransaction c = true -> Forall field (txFields c).
Proof.
  intros (Hb & Hw & Ha & _)%isTransaction_spec. repeat first [apply Forall_nil_2 | apply Forall_cons_2].
  - exact (body_field _ Hb).
  - exact (witness_is_field _ Hw).
  - apply boolean_field.
  - exact (option_field (T := AuxiliaryData.t) _ Ha).
Qed.

Lemma txIs_toCore c tx : isTransaction c = true -> txIs c tx -> toCore tx = Ok c /\ getId tx = Ok (txId c).
Proof.
  intros (_ & _ & _ & Ei & _)%isTransaction_spec [[Eb Wb] [Ew _] Ha Ev].
  assert (Eid : getId tx = Ok (txId c)) by (unfold getId, TransactionBody.hash; by rewrite Wb). split; [|done].
  unfold toCore. rewrite Eb, Eid, Ew, (auxOption_toCore _ _ Ha). cbn [mbind outcome_bind]. rewrite <- Ei, <- Ev. by destruct c.
Qed.

Lemma tx_toCbor c tx : isTransaction c = true -> txIs c tx -> originalBytes tx = None -> toCbor tx = Ok (Buffer_to_hex (recordBytes (txFields c))).
Proof.
  intros (Hb & Hw & Ha & _)%isTransaction_spec [Sb Sw Sa Ev] Ho. unfold toCbor, cached, remembered. rewrite Ho.
  unfold txFields. rewrite Ev. cbn [default]. apply (encode_record 4 _ [_; _; _; _]); [done..|]. apply emits_fields; [exact (body_emits _ _ Hb Sb)|].
  apply emits_fields; [exact (witness_emits _ _ Hw Sw)|]. apply emits_fields; [apply boolean_emits|].
  apply emits_last. exact (option_emits (C := CoreAuxiliaryData) (T := AuxiliaryData.t) _ _ Ha Sa).
Qed.

Lemma tx_fromCore c : isTransaction c = true -> exists tx, fromCore c = Ok tx /\ txIs c tx /\ originalBytes tx = None.
Proof.
  intros Hc. destruct (isTransaction_spec c Hc) as (Hb & Hw & Ha & _ & v & Ev).
  destruct (body_made _ Hb) as (b & Eb & Sb). destruct (witness_made _ Hw) as (w & Ew & Sw).
  destruct (auxOption_fromCore _ Ha) as (a & Ea & Sa).
  exists {| body := b; witnessSet := w; auxiliaryData := a; isValid := v; originalBytes := None |}.
  unfold fromCore. rewrite Eb. cbn [mbind outcome_bind]. rewrite Ew. cbn [mbind outcome_bind]. rewrite Ea, Ev. by split_and!.
Qed.

(** The auxiliary data at the end, which are not consumed when there are none. *)
Lemma tail_completes {A} (f : option AuxiliaryData.t -> A) a : isAuxOption a = true -> zlen (auxOptionBytes a) < 2 ^ 53 -> exists o, auxIsOption a o /\
  completes [auxOptionBytes a] (state ← call peekState;
    auxData ← (if bool_decide (state = CborReaderState.Null) then mret None else a ← readNested AuxiliaryData.fromCbor; mret (Some a)); mret (f auxData)) (f o).
Proof.
  destruct a as [a|]; intros Ha Hz.
  - destruct (@nested_reads _ _ _ auxiliary_laws a Ha Hz) as (o & Ro & So). exists (Some o). split; [exact So|]. apply completes_last.
    destruct (@bytesOf_not_null _ _ _ auxiliary_laws a Ha) as (s & Hs & Hl). eapply reads_peek; [exact Hl|]. rewrite bool_decide_eq_false_2 by done.
    eapply reads_last; [eapply reads_last; [exact Ro|done]|done].
  - exists None. split; [done|]. apply completes_glance. intros r rest Hr. cbn in Hr.
    rewrite (st_bind_ok _ _ _ _ _ (call_ok _ _ _ _ (peekState_ok r _ (ready_wf _ _ Hr) (peekStateCore_item r 246 rest Hr ltac:(done))))). done.
Qed.

Lemma tx_fromCbor strict c : isTransaction c = true -> zlen (recordBytes (txFields c)) < 2 ^ 53 -> exists tx,
  fromCborWith strict (Buffer_to_hex (recordBytes (txFields c))) = Ok tx /\ txIs c tx /\ originalBytes tx = Some (Buffer_to_hex (recordBytes (txFields c))).
Proof.
  intros Hc Hz. destruct (isTransaction_spec c Hc) as (Hb & Hw & Ha & _ & v & Ev). pose proof (tx_fields c Hc) as Hf.
  destruct (body_decoded strict _ Hb (part_fits _ _ _ Hz ltac:(by left))) as (b & Eb & Sb).
  destruct (witness_decoded strict _ Hw (part_fits _ _ _ Hz ltac:(right; by left))) as (w & Ew & Sw).
  set (blob := Buffer_to_hex (recordBytes (txFields c))).
  destruct (tail_completes (fun a => {| body := b; witnessSet := w; auxiliaryData := a; isValid := v; originalBytes := Some blob |}) _ Ha
    (part_fits _ _ _ Hz ltac:(do 3 right; by left))) as (a & Sa & Ra).
  exists {| body := b; witnessSet := w; auxiliaryData := a; isValid := v; originalBytes := Some blob |}. split; [|by split].
  apply decode_completes; [done..|]. cbv beta. eapply completes_bind; [by apply readNested_reads; [exact (proj1 (body_field _ Hb))|exact Eb]|]. eapply completes_bind; [by apply readNested_reads; [exact (proj1 (witness_is_field _ Hw))|exact Ew]|]. rewrite bool_decide_eq_true_2 by done.
  rewrite Ev. eapply completes_bind; [apply boolean_reads|]. exact Ra.
Qed.

(** *** Any blob *)

(** The body of a transaction is what some of the bytes of a blob decode to. *)
Definition hasBody (strict : bool) (data : list Z) (tx : t) : Prop := exists pre l post, data = pre ++ l ++ post /\
  TransactionBody.fromCborWith strict (Buffer_to_hex l) = Ok (body tx).

Lemma nested_piece {A} (f : HexBlob -> Res A) P r : wf r -> accepts f P ->
  runs r (readNested f) (fun v _ => exists pre l post, data r = pre ++ l ++ post /\ f (Buffer_to_hex l) = Ok v).
Proof.
  intros Hw Hf. destruct (nested_accepts f P r Hw Hf) as (o & r' & E & Ho & Hs & _). exists o, r'. split_and!; [done..|]. intros v ->.
  revert E. unfold readNested, mbind, ST_bind. destruct (call readEncodedValue r) as [[l|e|] r''] eqn:Er; [|done..].
  destruct (runs_call r _ _ (readEncodedValue_runs r Hw)) as (o & x & E & _ & _ & Hl). rewrite Er in E. injection E as <- <-. destruct (Hl l eq_refl) as [-> _].
  unfold st_lift. intros [= Ev <-]. unfold HexBlob_fromBytes in Ev. set (a := offset r) in *. set (b := offset r'') in *.
  unfold slice in *. set (i := Z.to_nat (Z.min a (zlen (data r)))) in *. set (n := (Z.to_nat (Z.min b (zlen (data r))) - i)%nat) in *.
  exists (take i (data r)), (take n (drop i (data r))), (drop n (drop i (data r))). split; [|exact Ev]. by rewrite !take_drop.
Qed.

Lemma sound_boolean : sound (call readBoolean) (fun _ => True).
Proof. apply sound_item, readBoolean_item. Qed.

Lemma tx_runs strict cbor r : wf r -> runs r (
  length ← call CborReader.readStartArray;
  body ← readNested (TransactionBody.fromCborWith strict);
  witnessSet ← readNested (TransactionWitnessSet.fromCborWith strict);
  isValid ← (if bool_decide (length = Some ALONZO_ERA_TX_FRAME_SIZE) then call CborReader.readBoolean else mret true);
  state ← call CborReader.peekState;
  auxData ← (if bool_decide (state = CborReaderState.Null) then mret None
             else a ← readNested AuxiliaryData.fromCbor; mret (Some a));
  mret {| body := body; witnessSet := witnessSet; auxiliaryData := auxData; isValid := isValid; originalBytes := Some cbor |})
  (fun tx _ => hasBody strict (data r) tx /\ originalBytes tx = Some cbor).
Proof.
  intros Hw. eapply runs_bind; [by apply sound_startArray|]. intros n r1 Hr1 _. rewrite <- (rtc_step_data _ _ Hr1). pose proof (rtc_step_wf _ _ Hr1 Hw) as Hw1.
  eapply runs_bind; [apply (nested_piece _ _ _ Hw1 (body_ends strict))|]. intros b r2 Hr2 (pre & l & post & Ed & Eb). rewrite Ed.
  pose proof (rtc_step_wf _ _ Hr2 Hw1) as Hw2.
  assert (Hs : sound (
    witnessSet ← readNested (TransactionWitnessSet.fromCborWith strict);
    isValid ← (if bool_decide (n = Some ALONZO_ERA_TX_FRAME_SIZE) then call CborReader.readBoolean else mret true);
    state ← call CborReader.peekState;
    auxData ← (if bool_decide (state = CborReaderState.Null) then mret None else a ← readNested AuxiliaryData.fromCbor; mret (Some a));
    mret {| body := b; witnessSet := witnessSet; auxiliaryData := auxData; isValid := isValid; originalBytes := Some cbor |})
    (fun tx => hasBody strict (pre ++ l ++ post) tx /\ originalBytes tx = Some cbor)); [|by apply Hs].
  eapply sound_bind; [exact (@nested_sound _ _ _ (witness_strict_laws strict))|]. intros w _.
  eapply (sound_bind _ _ (fun _ => True)); [case_bool_decide; [apply sound_boolean|by apply sound_ret]|]. intros v _.
  eapply sound_bind; [apply sound_peek|]. intros s _. eapply (sound_bind _ _ (fun _ => True)).
  - case_bool_decide; [by apply sound_ret|]. eapply sound_bind; [exact (@nested_sound _ _ _ auxiliary_laws)|]. intros a _. by apply sound_ret.
  - intros a _. apply sound_ret. split; [|done]. by exists pre, l, post.
Qed.

Lemma tx_accepted strict cbor : zlen (Buffer_from_hex cbor) < 2 ^ 53 -> fromCborWith strict cbor <> OutOfFuel /\
  forall tx, fromCborWith strict cbor = Ok tx -> hasBody strict (Buffer_from_hex cbor) tx /\ originalBytes tx = Some cbor.
Proof.
  intros Hz. split; [eapply decode_runs; [done|]; apply tx_runs|]. intros tx E. by apply (decode_post _ _ _ _ Hz (tx_runs strict cbor _)) in E as [_ ?].
Qed.

Lemma tx_empty strict tx : fromCborWith strict "" = Ok tx -> False.
Proof.
  unfold fromCborWith, decode, mbind, ST_bind. assert (E : exists e r, call readStartArray (CborReader.new "") = (Throw e, r)) by (eexists _, _; by vm_compute). destruct E as (e & r & ->). done.
Qed.

Lemma tx_remembers strict cbor tx : fromCborWith strict cbor = Ok tx -> originalBytes tx = Some cbor -> toCbor tx = Ok cbor.
Proof. intros E Ho. unfold toCbor, cached, remembered. rewrite Ho. destruct (String.eqb_spec cbor "") as [->|]; [by apply tx_empty in E|done]. Qed.

(** The compositions of the encoder and the decoder. *)
Lemma tx_serialize c : isTransaction c = true -> serialize c = Ok (Buffer_to_hex (recordBytes (txFields c))).
Proof. intros Hc. destruct (tx_fromCore c Hc) as (x & Ex & Hx & Ox). unfold serialize. rewrite Ex. by apply tx_toCbor. Qed.

Lemma tx_decoded strict c : isTransaction c = true -> zlen (recordBytes (txFields c)) < 2 ^ 53 -> exists tx,
  fromCborWith strict (Buffer_to_hex (recordBytes (txFields c))) = Ok tx /\ toCore tx = Ok c /\ getId tx = Ok (coreId c) /\
  toCbor tx = Ok (Buffer_to_hex (recordBytes (txFields c))) /\ TransactionBody.toCbor (body tx) = Ok (Buffer_to_hex (bodyBytes (coreBody c))).
Proof.
  intros Hc Hz. destruct (isTransaction_spec c Hc) as (_ & _ & _ & Ei & _). destruct (tx_fromCbor strict c Hc Hz) as (x & Ex & Hx & Ox).
  destruct (txIs_toCore _ _ Hc Hx) as [E1 E2]. exists x. rewrite Ei. split; [exact Ex|]. split; [exact E1|]. split; [exact E2|]. split; [by eapply tx_remembers|]. exact (proj2 (txIs_body _ _ Hx)).
Qed.

Lemma deserialize_ok blob tx c : isBlob blob = true -> fromCborWith false blob = Ok tx -> toCore tx = Ok c -> deserializeTx blob = Ok c.
Proof. intros Hb E Ec. unfold deserializeTx. rewrite (typedHex_blob_0 _ Hb). cbn [mbind outcome_bind]. unfold fromCbor. by rewrite E. Qed.

Lemma fromTxCBOR_ok blob tx cbor b : fromCborWith false blob = Ok tx -> TransactionBody.toCbor (body tx) = Ok cbor ->
  TransactionBody.fromCborWith false cbor = Ok b -> TransactionBody.toCbor b = Ok cbor -> fromTxCBOR blob = Ok cbor.
Proof.
  intros E Ec Eb Wb. unfold fromTxCBOR, fromCbor. rewrite E. cbn [mbind outcome_bind]. unfold getBody. rewrite Ec. cbn [mbind outcome_bind].
  unfold TransactionBody.fromCbor. by rewrite Eb.
Qed.

Lemma isBlob_hex l : bytes l -> isBlob (Buffer_to_hex l) = true.
Proof. intros Hl. apply String.eqb_eq. by rewrite Buffer_hex_roundtrip. Qed.

(** ** Properties *)

(** C3. Whole transactions survive serialization. A core value with a valid
    body (every field in the range of its kind, sub transactions included),
    witness set and auxiliary data, and with the identifier that the encoding
    of its body hashes to, is written by [TxCBOR.serialize] as one array of
    these encodings, one byte of validity and the auxiliary data or null, byte
    for byte. Both decoders, strict or not, read that array to an object with
    the same core value, the same identifier and the same encoding.
    [deserializeTx] is the inverse of [serialize], and [TxBodyCBOR.fromTxCBOR]
    finds the encoding of the body. *)
Theorem transaction_round_trip c strict : isTransaction c = true -> zlen (recordBytes (txFields c)) < 2 ^ 53 ->
  let blob := Buffer_to_hex (recordBytes (txFields c)) in
  serialize c = Ok blob /\
  (exists tx, fromCborWith strict blob = Ok tx /\ toCore tx = Ok c /\ getId tx = Ok (coreId c) /\ toCbor tx = Ok blob) /\
  deserializeTx blob = Ok c /\
  fromTxCBOR blob = Ok (Buffer_to_hex (bodyBytes (coreBody c))).
Proof.
  intros Hc Hz. destruct (isTransaction_spec c Hc) as (Hb & _). destruct (tx_decoded strict c Hc Hz) as (x & E & Ec & Ei & Ew & _).
  destruct (tx_decoded false c Hc Hz) as (y & Ey & Ecy & _ & _ & Eb). destruct (field_record (txFields c) ltac:(done) (tx_fields c Hc)) as [_ Hl].
  destruct (body_decoded false _ Hb (part_fits (txFields c) _ _ Hz ltac:(by left))) as (b & E1 & _ & E2). cbv zeta.
  split; [by apply tx_serialize|]. split; [by exists x|]. split; [exact (deserialize_ok _ y c (isBlob_hex _ Hl) Ey Ecy)|exact (fromTxCBOR_ok _ y _ b Ey Eb E1 E2)].
Qed.

(** C10. The decoder of transactions ends on every blob. It rejects the blob
    with an error, or it gives a transaction that is encoded to that very blob,
    whose body is what consecutive bytes of the blob decode to, and whose
    identifier is the hash of these bytes as they are in the blob, however they
    encode the body. *)
Theorem transaction_decode_total strict cbor : zlen (Buffer_from_hex cbor) < 2 ^ 53 ->
  (exists e, fromCborWith strict cbor = Throw e) \/
  (exists tx pre l post, fromCborWith strict cbor = Ok tx /\ toCbor tx = Ok cbor /\
    Buffer_from_hex cbor = pre ++ l ++ post /\ TransactionBody.fromCborWith strict (Buffer_to_hex l) = Ok (body tx) /\
    getId tx = Ok (blake2b_hash (Buffer_to_hex l) 32)).
Proof.
  intros Hz. destruct (tx_accepted strict cbor Hz) as [Hf Ha]. destruct (fromCborWith strict cbor) as [tx|e|] eqn:E; [right|left; by exists e|done].
  destruct (Ha tx eq_refl) as [(pre & l & post & Ed & Eb) Ho]. exists tx, pre, l, post. split_and!; [done|by eapply tx_remembers|done..|].
  unfold getId, TransactionBody.hash. by rewrite (body_remembers strict _ _ Eb).
Qed.

End transaction.
End sub_transaction.

(** ** Witnesses *)

Module TransactionExamples.
#[local] Existing Instance sum32.
#[local] Existing Instance sum32_laws.
#[local] Existing Instance encoding_ref.
#[local] Existing Instance npm_ref.
#[local] Existing Instance ip_ref.
#[local] Existing Instance ip_ref_laws.
#[local] Existing Instance UpdateWitness.mediantFraction.
#[local] Existing Instance uniqWith_ref.
#[local] Existing Instance uniqWith_ref_laws.
#[local] Existing Instance conway.

(** A digest to evaluate: the last bytes. *)
#[local] Instance lastBytes : Blake2b := {| blake2b_digest n l := Buffer_to_hex (take (Z.to_nat n) (rev l)) |}.

Definition input (n : Z) : TransactionInput.core := TransactionInput.Core (zeroHex 32) n.

Definition noWitness : CoreWitness := {| coreRedeemers := None; signatures := []; coreScripts := None; bootstrap := None; datums := None |}.

Definition subBody (donation : Z) : SubTransactionBody.core := {|
  SubTransactionBody.coreAccountBalanceIntervals := None; SubTransactionBody.coreAuxiliaryDataHash := None; SubTransactionBody.coreCertificates := None;
  SubTransactionBody.coreDirectDeposits := None; SubTransactionBody.coreDonation := Some donation; SubTransactionBody.coreGuards := None;
  SubTransactionBody.coreInputs := [input 1]; SubTransactionBody.coreMint := None; SubTransactionBody.coreNetworkId := None; SubTransactionBody.coreOutputs := [];
  SubTransactionBody.coreProposalProcedures := None; SubTransactionBody.coreReferenceInputs := None; SubTransactionBody.coreRequiredExtraSignatures := None;
  SubTransactionBody.coreRequiredTopLevelGuards := None; SubTransactionBody.coreScriptIntegrityHash := None; SubTransactionBody.coreTreasuryValue := None;
  SubTransactionBody.coreValidityInterval := None; SubTransactionBody.coreVotingProcedures := None; SubTransactionBody.coreWithdrawals := None |}.

Definition subTransaction (donation : Z) : SubTransaction.core := SubTransaction.Core (subBody donation) noWitness None.

(** A body with two inputs, an output with tokens, a mint, a certificate, a
    bound of validity, a signer, and maybe sub transactions. *)
Definition body (fee : Z) (subs : option (list SubTransaction.core)) : TransactionBody.core := {|
  TransactionBody.coreAccountBalanceIntervals := None; TransactionBody.coreAuxiliaryDataHash := Some (zeroHex 32);
  TransactionBody.coreCertificates := Some [CertificateFacts.demo_vote]; TransactionBody.coreCollateralReturn := None; TransactionBody.coreCollaterals := Some [input 7];
  TransactionBody.coreDirectDeposits := None; TransactionBody.coreDonation := None; TransactionBody.coreFee := fee; TransactionBody.coreGuards := None;
  TransactionBody.coreInputs := [input 0; input 300]; TransactionBody.coreMint := Some [(zeroHex 28, -3)]; TransactionBody.coreNetworkId := Some 0;
  TransactionBody.coreOutputs := [OutputFacts.demo_output]; TransactionBody.coreProposalProcedures := None; TransactionBody.coreReferenceInputs := None;
  TransactionBody.coreRequiredExtraSignatures := Some [zeroHex 28]; TransactionBody.coreScriptIntegrityHash := None; TransactionBody.coreSubTransactions := subs;
  TransactionBody.coreTotalCollateral := Some 5000000; TransactionBody.coreTreasuryValue := None; TransactionBody.coreUpdate := None;
  TransactionBody.coreValidityInterval := Some {| invalidBefore := None; invalidHereafter := Some 123456 |}; TransactionBody.coreVotingProcedures := None;
  TransactionBody.coreWithdrawals := None |}.

Definition transaction (b : TransactionBody.core) (a : option CoreAuxiliaryData) (valid : bool) : Transaction.core :=
  Transaction.Core (blake2b_hash (Buffer_to_hex (bodyBytes b)) 32) b WitnessFacts.demo_witness a (Some valid).

Definition plain : Transaction.core := transaction (body 170000 None) None false.
Definition nested : Transaction.core := transaction (body 190000 (Some [subTransaction 1; subTransaction 2])) (Some AuxiliaryFacts.demo_auxiliary) true.

Lemma examples_are_transactions : isTransaction plain = true /\ isTransaction nested = true.
Proof. split; vm_compute; reflexivity. Qed.

Definition blobOf (c : Transaction.core) : string := Buffer_to_hex (recordBytes (txFields c)).

Lemma transaction_round_trip_witness : Transaction.serialize nested = Ok (blobOf nested) /\ Transaction.deserializeTx (blobOf nested) = Ok nested.
Proof.
  destruct (transaction_round_trip nested true) as (E & _ & D & _); [vm_compute; reflexivity..|]. split; [exact E|exact D].
Defined.

Lemma transaction_decode_total_witness : exists tx, Transaction.fromCbor (blobOf plain) = Ok tx /\ Transaction.toCbor tx = Ok (blobOf plain).
Proof.
  destruct (transaction_decode_total false (blobOf plain)) as [[e E]|(tx & pre & l & post & E & W & _)]; [vm_compute; reflexivity|vm_compute in E; discriminate E|].
  exists tx. split; [exact E|exact W].
Defined.


(** An array of indefinite length: the flag of validity is not read, and then
    taken for the auxiliary data, which are rejected. Of a sub transaction, the
    length is not looked at when the array does not tell it. *)
Lemma indefinite_transaction_is_rejected : (exists tx, Transaction.fromCbor "84a400d90102800180020003186ea0f5f6" = Ok tx) /\
  (exists e, Transaction.fromCbor "9fa400d90102800180020003186ea0f5f6ff" = Throw e) /\
  (exists s, SubTransaction.fromCbor "83a200d90102800180a0f6" = Ok s) /\ (exists s, SubTransaction.fromCbor "9fa200d90102800180a0f6ff" = Ok s).
Proof. vm_compute. repeat split; by eexists. Qed.

(** The end of the array is not read, and what follows it is not looked at. *)
Lemma trailing_bytes_are_kept : (tx ← Transaction.fromCbor "84a400d90102800180020003186ea0f5f6ffff"; Transaction.toCbor tx) = Ok "84a400d90102800180020003186ea0f5f6ffff"%string.
Proof. vm_compute. reflexivity. Qed.
End TransactionExamples.
