(* ===== verification/Inspectors.v ===== *)
(** * Inspection of transactions
    Models [packages/core/src/util]: [txInspector.ts],
    [tokenTransferInspector.ts], [transactionSummaryInspector.ts],
    [tryGetAssetInfos.ts] and [promiseTimeout.ts], with
    [Cardano/util/computeImplicitCoin.ts] and [phase2Validation.ts]: what a
    transaction does to the balance of addresses and reward accounts, which are
    shown before it is signed.  Promises are immediate results; whether a timer
    runs out first is an argument. *)
From S2P Require Import Prelude JsRuntime Codec Credential Address Identifiers Records Common NativeScript Pools Certificates Values SerializedValue Scripts Outputs Witnesses Metadata AuxiliaryData Proposals BodyParts Bodies.

(** ** Callbacks *)

Class InputResolver := resolveInput : TransactionInput.core -> Res (option TransactionOutput.core).

(** The metadata of assets are carried along as they are. *)
Module AssetInfo.
Record t : Set := { assetId : string; fingerprint : string; name : string; policyId : string; quantity : Z; supply : Z;
  tokenMetadata : option string; nftMetadata : option string; staleAt : option Z }.
End AssetInfo.

Class AssetProvider := getAssets : list string -> Res (list AssetInfo.t).

(** [promiseTimeout]: the promise, unless the timer is first. *)
Definition promiseTimeout {A} (expired : bool) (promise : Res A) : Res A :=
  if expired then Throw (JsError "TimeoutError: Failed to resolve the promise in time") else promise.

(** [try { return a; } catch { b }] *)
Definition catching {A} (a b : Res A) : Res A := match a with Throw _ => b | _ => a end.

(** [l.some(p)], where [p] may throw *)
Fixpoint someM {A} (p : A -> Res bool) (l : list A) : Res bool :=
  match l with [] => Ok false | x :: l => b ← p x; if (b : bool) then Ok true else someM p l end.

Fixpoint filterRes {A} (p : A -> Res bool) (l : list A) : Res (list A) :=
  match l with [] => Ok [] | x :: l => b ← p x; k ← filterRes p l; Ok (if (b : bool) then x :: k else k) end.

Definition includesText (l : list string) (s : string) : bool := existsb (String.eqb s) l.

(** ** Implicit coins *)

Module ImplicitCoin.
Record t : Set := { withdrawals : Z; input : Z; deposit : Z; reclaimDeposit : Z }.

(** [stakeKeyDeposit] and [poolDeposit] of the protocol parameters *)
Record DepositProtocolParams : Set := { stakeKeyDeposit : Z; poolDeposit : Z }.

Section impl.
Context `{Crc32} `{BaseEncoding} `{Bech32}.

Definition stakeCredentialInRewardAccounts (stakeCredential : Credential) (rewardAccounts : list string) : Res bool :=
  match rewardAccounts with
  | [] => Ok true
  | account :: _ =>
      network ← RewardAccount.toNetworkId account;
      network ← required network;
      text ← RewardAccount.fromCredential stakeCredential network;
      Ok (includesText rewardAccounts text)
  end.

(** What a certificate adds to the deposits and to the returned deposits. *)
Definition counted (b : bool) (deposit : Z) : Z := if b then deposit else 0.

Definition shelleyDeposit (depositParams : DepositProtocolParams) (rewardAccounts poolIds : list string) (cert : CoreCertificate) : Res (Z * Z) :=
  match cert with
  | StakeRegistrationCertificate c =>
      b ← stakeCredentialInRewardAccounts c rewardAccounts; Ok (counted b (stakeKeyDeposit depositParams), 0)
  | StakeDeregistrationCertificate c =>
      b ← stakeCredentialInRewardAccounts c rewardAccounts; Ok (0, counted b (stakeKeyDeposit depositParams))
  | PoolRegistrationCertificate p =>
      Ok (counted (bool_decide (rewardAccounts = []) || existsb (includesText (PoolParameters.owners p)) rewardAccounts) (poolDeposit depositParams), 0)
  | PoolRetirementCertificate id _ =>
      Ok (0, counted (bool_decide (rewardAccounts = []) || includesText poolIds id) (poolDeposit depositParams))
  | _ => Ok (0, 0)
  end.

(** [!dRepKeyHash || ...] *)
Definition ownDRep (dRepKeyHash : option string) (c : Credential) : bool :=
  match dRepKeyHash with
  | Some h => String.eqb h "" || ((Credential.type c =? CredentialType.KeyHash) && String.eqb (hash c) h)
  | None => true
  end.

Definition conwayDeposit (rewardAccounts : list string) (dRepKeyHash : option string) (cert : CoreCertificate) : Res (Z * Z) :=
  match cert with
  | RegistrationCertificate c deposit | StakeRegistrationDelegateCertificate c _ deposit
  | VoteRegistrationDelegateCertificate c _ deposit | StakeVoteRegistrationDelegateCertificate c _ _ deposit =>
      b ← stakeCredentialInRewardAccounts c rewardAccounts; Ok (counted b deposit, 0)
  | UnRegistrationCertificate c deposit =>
      b ← stakeCredentialInRewardAccounts c rewardAccounts; Ok (0, counted b deposit)
  | RegisterDelegateRepresentativeCertificate c deposit _ => Ok (counted (ownDRep dRepKeyHash c) deposit, 0)
  | UnregisterDelegateRepresentativeCertificate c deposit => Ok (0, counted (ownDRep dRepKeyHash c) deposit)
  | _ => Ok (0, 0)
  end.

(** [for (const cert of certificates) { deposit += ...; reclaimDeposit += ...; }] *)
Fixpoint addDeposits (f : CoreCertificate -> Res (Z * Z)) (certificates : list CoreCertificate) (deposit reclaimDeposit : Z) : Res (Z * Z) :=
  match certificates with
  | [] => Ok (deposit, reclaimDeposit)
  | cert :: certificates => '(d, r) ← f cert; addDeposits f certificates (deposit + d) (reclaimDeposit + r)
  end.

Definition poolIdOf (account : string) : Res string :=
  h ← RewardAccount.toHash account; k ← Ed25519KeyHashHex h; PoolId.fromKeyHash k.

Definition computeShellyDeposits (depositParams : DepositProtocolParams) (certificates : list CoreCertificate) (rewardAccounts : list string) : Res (Z * Z) :=
  poolIds ← mapM poolIdOf rewardAccounts;
  addDeposits (shelleyDeposit depositParams rewardAccounts poolIds) certificates 0 0.

Definition computeConwayDeposits (certificates : list CoreCertificate) (rewardAccounts : list string) (dRepKeyHash : option string)
    (proposalProcedures : option (list ProposalProcedure.core)) : Res (Z * Z) :=
  '(deposit, reclaimDeposit) ← addDeposits (conwayDeposit rewardAccounts dRepKeyHash) certificates 0 0;
  Ok (fold_left (fun deposit proposal => deposit + ProposalProcedure.coreDeposit proposal) (default [] proposalProcedures) deposit, reclaimDeposit).

(** A pool deposit that is missing counts as none. *)
Definition getTxDeposits (stakeKeyDeposit : Z) (poolDeposit : option Z) (certificates : list CoreCertificate) (rewardAccounts : list string)
    (dRepKeyHash : option string) (proposalProcedures : option (list ProposalProcedure.core)) : Res (Z * Z) :=
  if bool_decide (certificates = []) && bool_decide (default [] proposalProcedures = []) then Ok (0, 0)
  else
    let depositParams := {| poolDeposit := default 0 poolDeposit; stakeKeyDeposit := stakeKeyDeposit |} in
    '(d1, r1) ← computeShellyDeposits depositParams certificates rewardAccounts;
    '(d2, r2) ← computeConwayDeposits certificates rewardAccounts dRepKeyHash proposalProcedures;
    Ok (d1 + d2, r1 + r2).

Definition getOwnWithdrawalsTotal (withdrawals : list (string * Z)) (rewardAccounts : list string) : Z :=
  BigIntMath.sum ((List.filter (fun w => includesText rewardAccounts w.1) withdrawals).*2).

Definition computeImplicitCoin (stakeKeyDeposit : Z) (poolDeposit : option Z) (certificates : option (list CoreCertificate))
    (proposalProcedures : option (list ProposalProcedure.core)) (withdrawals : option (list (string * Z)))
    (rewardAccounts : option (list string)) (dRepKeyHash : option string) : Res t :=
  '(deposit, reclaimDeposit) ← getTxDeposits stakeKeyDeposit poolDeposit (default [] certificates) (default [] rewardAccounts) dRepKeyHash proposalProcedures;
  let withdrawals := default [] withdrawals in
  let withdrawalsTotal :=
    match rewardAccounts with
    | Some (account :: accounts) => getOwnWithdrawalsTotal withdrawals (account :: accounts)
    | _ => BigIntMath.sum withdrawals.*2
    end in
  Ok {| deposit := deposit; input := withdrawalsTotal + reclaimDeposit; reclaimDeposit := reclaimDeposit; withdrawals := withdrawalsTotal |}.
End impl.
End ImplicitCoin.

(** ** [txInspector.ts] *)

Inductive CertificateType : Set :=
  | StakeRegistration | StakeDeregistration | PoolRegistration | PoolRetirement | StakeDelegation | MIR | GenesisKeyDelegation
  | Registration | Unregistration | VoteDelegation | StakeVoteDelegation | StakeRegistrationDelegation | VoteRegistrationDelegation
  | StakeVoteRegistrationDelegation | AuthorizeCommitteeHot | ResignCommitteeCold | RegisterDelegateRepresentative
  | UnregisterDelegateRepresentative | UpdateDelegateRepresentative.

#[export] Instance CertificateType_eq_dec : EqDecision CertificateType.
Proof. solve_decision. Defined.

Definition typename (certificate : CoreCertificate) : CertificateType :=
  match certificate with
  | StakeRegistrationCertificate _ => StakeRegistration
  | StakeDeregistrationCertificate _ => StakeDeregistration
  | StakeDelegationCertificate _ _ => StakeDelegation
  | PoolRegistrationCertificate _ => PoolRegistration
  | PoolRetirementCertificate _ _ => PoolRetirement
  | GenesisKeyDelegationCertificate _ _ _ => GenesisKeyDelegation
  | MirCertificate _ _ _ _ => MIR
  | RegistrationCertificate _ _ => Registration
  | UnRegistrationCertificate _ _ => Unregistration
  | VoteDelegationCertificate _ _ => VoteDelegation
  | StakeVoteDelegationCertificate _ _ _ => StakeVoteDelegation
  | StakeRegistrationDelegateCertificate _ _ _ => StakeRegistrationDelegation
  | VoteRegistrationDelegateCertificate _ _ _ => VoteRegistrationDelegation
  | StakeVoteRegistrationDelegateCertificate _ _ _ _ => StakeVoteRegistrationDelegation
  | AuthorizeCommitteeHotCertificate _ _ => AuthorizeCommitteeHot
  | ResignCommitteeColdCertificate _ _ => ResignCommitteeCold
  | RegisterDelegateRepresentativeCertificate _ _ _ => RegisterDelegateRepresentative
  | UnregisterDelegateRepresentativeCertificate _ _ => UnregisterDelegateRepresentative
  | UpdateDelegateRepresentativeCertificate _ _ => UpdateDelegateRepresentative
  end.

Definition PostConwayStakeRegistrationCertificateTypes : list CertificateType :=
  [Registration; VoteRegistrationDelegation; StakeRegistrationDelegation; StakeVoteRegistrationDelegation].
Definition StakeRegistrationCertificateTypes : list CertificateType := StakeRegistration :: PostConwayStakeRegistrationCertificateTypes.
Definition StakeDelegationCertificateTypes : list CertificateType :=
  [StakeDelegation; StakeVoteDelegation; StakeRegistrationDelegation; StakeVoteRegistrationDelegation].
Definition RegAndDeregCertificateTypes : list CertificateType := StakeRegistrationCertificateTypes ++ [Unregistration; StakeDeregistration].
Definition StakeCredentialCertificateTypes : list CertificateType := RegAndDeregCertificateTypes ++ StakeDelegationCertificateTypes ++ [VoteDelegation].

Definition isCertType (certificate : CoreCertificate) (certificateTypes : list CertificateType) : bool := bool_decide (typename certificate ∈ certificateTypes).

(** The [stakeCredential] of a certificate of one of the types above. *)
Definition stakeCredentialOf (certificate : CoreCertificate) : option Credential :=
  match certificate with
  | StakeRegistrationCertificate c | StakeDeregistrationCertificate c | StakeDelegationCertificate c _ | RegistrationCertificate c _
  | UnRegistrationCertificate c _ | VoteDelegationCertificate c _ | StakeVoteDelegationCertificate c _ _
  | StakeRegistrationDelegateCertificate c _ _ | VoteRegistrationDelegateCertificate c _ _ | StakeVoteRegistrationDelegateCertificate c _ _ _ => Some c
  | _ => None
  end.

Record ResolvedInput : Set := { inputAddress : string; inputIndex : Z; inputTxId : string; inputValue : Value }.
Record ResolutionResult : Set := { resolvedInputs : list ResolvedInput; unresolvedInputs : list TransactionInput.core }.

(** [HydratedTxIn] *)
Record SentInput : Set := { sentAddress : string; sentIndex : Z; sentTxId : string }.

Record MintedAsset : Set := { script : option CoreScript; mintedPolicy : string; mintedFingerprint : string; mintedName : string; mintedQuantity : Z }.

Definition isAddressWithin (addresses : list string) (address : string) : bool := includesText addresses address.

Section inspectors.
Context `{Crc32} `{BaseEncoding} `{Bech32} `{Blake2b} `{Lodash} `{InputResolver}.

(** [AssetFingerprint.fromParts] *)
Definition fingerprintOf (policyId assetName : string) : Res string :=
  let hexDigest := blake2b_hash (HexBlob_fromBytes (Buffer_from_hex policyId ++ Buffer_from_hex assetName)) 20 in
  text ← toTypedBech32 "asset" hexDigest; typedBech32 text ["asset"] (Some 32).

Fixpoint resolveInputs (txIns : list TransactionInput.core) : Res ResolutionResult :=
  match txIns with
  | [] => Ok {| resolvedInputs := []; unresolvedInputs := [] |}
  | input :: txIns =>
      resolvedInput ← resolveInput input;
      rest ← resolveInputs txIns;
      Ok (match resolvedInput with
          | Some o =>
              {| resolvedInputs := {| inputAddress := TransactionOutput.coreAddress o; inputIndex := TransactionInput.coreIndex input;
                   inputTxId := TransactionInput.txId input; inputValue := TransactionOutput.value o |} :: resolvedInputs rest;
                 unresolvedInputs := unresolvedInputs rest |}
          | None => {| resolvedInputs := resolvedInputs rest; unresolvedInputs := input :: unresolvedInputs rest |}
          end)
  end.

Definition ownInputValues (ownAddresses : list string) (inputs : list ResolvedInput) : list Value :=
  inputValue <$> List.filter (fun i => isAddressWithin ownAddresses (inputAddress i)) inputs.
Definition ownOutputValues (ownAddresses : list string) (outputs : list TransactionOutput.core) : list Value :=
  TransactionOutput.value <$> List.filter (fun o => isAddressWithin ownAddresses (TransactionOutput.coreAddress o)) outputs.

Definition totalAddressInputsValueInspector (ownAddresses : list string) (tx : Transaction.core) : Res Value :=
  resolution ← resolveInputs (TransactionBody.coreInputs (Transaction.coreBody tx));
  Ok (coalesceValueQuantities (ownInputValues ownAddresses (resolvedInputs resolution))).

Definition totalAddressOutputsValueInspector (ownAddresses : list string) (tx : Transaction.core) : Value :=
  coalesceValueQuantities (ownOutputValues ownAddresses (TransactionBody.coreOutputs (Transaction.coreBody tx))).

Definition getCertificatesByType (tx : Transaction.core) (rewardAccounts : list string) (certificateTypes : option (list CertificateType)) : Res (list CoreCertificate) :=
  let all := default [] (TransactionBody.coreCertificates (Transaction.coreBody tx)) in
  let certificates := match certificateTypes with Some types => List.filter (fun c => isCertType c types) all | None => all end in
  filterRes (fun certificate =>
    if isCertType certificate StakeCredentialCertificateTypes then
      someM (fun account => h ← RewardAccount.toHash account; c ← required (stakeCredentialOf certificate); Ok (String.eqb h (hash c))) rewardAccounts
    else
      match certificate with
      | PoolRegistrationCertificate p => Ok (includesText rewardAccounts (PoolParameters.rewardAccount p))
      | _ => Ok false
      end) certificates.

Definition signedCertificatesInspector (rewardAccounts : list string) (certificateTypes : option (list CertificateType)) (tx : Transaction.core) : Res (list CoreCertificate) :=
  getCertificatesByType tx rewardAccounts certificateTypes.

Definition sentInspector (addresses rewardAccounts : option (list string)) (tx : Transaction.core) : Res (list SentInput * list CoreCertificate) :=
  certificates ← (match rewardAccounts with Some (a :: l) => signedCertificatesInspector (a :: l) None tx | _ => Ok [] end);
  inputs ← (match addresses with
            | Some addresses =>
                resolution ← resolveInputs (TransactionBody.coreInputs (Transaction.coreBody tx));
                Ok ((fun i => {| sentAddress := inputAddress i; sentIndex := inputIndex i; sentTxId := inputTxId i |}) <$>
                    List.filter (fun i => isAddressWithin addresses (inputAddress i)) (resolvedInputs resolution))
            | None => Ok []
            end);
  Ok (inputs, certificates).

(** The positive part of a difference: [undefined] for no tokens. *)
Definition positivePart (diff : Value) : Value :=
  let assets := match assets diff with Some m => removeNegativesFromTokenMap m | None => [] end in
  {| assets := if 0 <? JsMap.size assets then Some assets else None; coins := if coins diff <? 0 then 0 else coins diff |}.

Definition valueSentInspector (ownAddresses : list string) (tx : Transaction.core) : Res Value :=
  '(inputs, _) ← sentInspector (Some ownAddresses) None tx;
  if bool_decide (zlen inputs = 0) then Ok {| coins := 0; assets := None |}
  else
    let totalOutputValue := totalAddressOutputsValueInspector ownAddresses tx in
    totalInputValue ← totalAddressInputsValueInspector ownAddresses tx;
    Ok (positivePart (subtractValueQuantities [totalInputValue; totalOutputValue])).

Definition valueReceivedInspector (ownAddresses : list string) (tx : Transaction.core) : Res Value :=
  let totalOutputValue := totalAddressOutputsValueInspector ownAddresses tx in
  totalInputValue ← totalAddressInputsValueInspector ownAddresses tx;
  Ok (positivePart (subtractValueQuantities [totalOutputValue; totalInputValue])).

Definition certificateInspector (type : CertificateType) (tx : Transaction.core) : list CoreCertificate :=
  List.filter (fun cert => bool_decide (typename cert = type)) (default [] (TransactionBody.coreCertificates (Transaction.coreBody tx))).

Definition delegationInspector : Transaction.core -> list CoreCertificate := certificateInspector StakeDelegation.
Definition stakeKeyDeregistrationInspector : Transaction.core -> list CoreCertificate := certificateInspector StakeDeregistration.
Definition stakeKeyRegistrationInspector : Transaction.core -> list CoreCertificate := certificateInspector StakeRegistration.
Definition poolRegistrationInspector : Transaction.core -> list CoreCertificate := certificateInspector PoolRegistration.
Definition poolRetirementInspector : Transaction.core -> list CoreCertificate := certificateInspector PoolRetirement.

Definition withdrawalInspector (tx : Transaction.core) : Z :=
  match TransactionBody.coreWithdrawals (Transaction.coreBody tx) with
  | Some (w :: l) => BigIntMath.sum (w :: l).*2
  | _ => 0
  end.

(** [nativeScriptPolicyId] of [util/nativeScript.ts] *)
Definition nativeScriptPolicyId (script : CoreScript) : Res string :=
  h ← nativeScriptHash (NativeScript.fromCore script); PolicyId h.

Fixpoint policyScripts (scripts : list CoreAnyScript) (scriptMap : list (string * CoreScript)) : Res (list (string * CoreScript)) :=
  match scripts with
  | [] => Ok scriptMap
  | CoreNative script :: scripts =>
      policyId ← nativeScriptPolicyId script;
      policyScripts scripts (if JsMap.has scriptMap policyId then scriptMap else JsMap.set scriptMap policyId script)
  | CorePlutus _ :: scripts => policyScripts scripts scriptMap
  end.

Definition mintedAsset (scriptMap : list (string * CoreScript)) (entry : string * Z) : Res MintedAsset :=
  policyId ← getPolicyId entry.1;
  assetName ← getAssetName entry.1;
  fingerprint ← fingerprintOf policyId assetName;
  Ok {| script := JsMap.get scriptMap policyId; mintedPolicy := policyId; mintedFingerprint := fingerprint; mintedName := assetName; mintedQuantity := entry.2 |}.

Definition mintInspector (matchQuantityCriteria : Z -> bool) (tx : Transaction.core) : Res (list MintedAsset) :=
  match TransactionBody.coreMint (Transaction.coreBody tx) with
  | None => Ok []
  | Some tokens =>
      let scripts := default [] (Transaction.coreAuxiliaryData tx ≫= auxiliaryScripts) ++ default [] (coreScripts (Transaction.coreWitness tx)) in
      scriptMap ← policyScripts scripts [];
      assets ← mapM (mintedAsset scriptMap) tokens;
      Ok (List.filter (fun a => matchQuantityCriteria (mintedQuantity a)) assets)
  end.

Definition assetsMintedInspector : Transaction.core -> Res (list MintedAsset) := mintInspector (fun quantity => 0 <? quantity).
Definition assetsBurnedInspector : Transaction.core -> Res (list MintedAsset) := mintInspector (fun quantity => quantity <? 0).

Definition metadataInspector (tx : Transaction.core) : list (Z * Metadatum) := default [] (Transaction.coreAuxiliaryData tx ≫= blob).

(** The inspections under the names of their inspectors; the first that rejects
    rejects them all. *)
Definition createTxInspector {A} (inspectors : list (string * (Transaction.core -> Res A))) (tx : Transaction.core) : Res (list (string * A)) :=
  results ← mapM (fun i => result ← i.2 tx; Ok (i.1, result)) inspectors; Ok (JsMap.of_entries results).
End inspectors.

(** ** [tokenTransferInspector.ts] *)

Record TokenTransferValue : Set := { transferAssets : list (string * (Z * AssetInfo.t)); transferCoins : Z }.
Record TokenTransferInspection : Set := { fromAddress : list (string * TokenTransferValue); toAddress : list (string * TokenTransferValue) }.

(** [new Map([[address, value], ...])] of values with assets *)
Abbreviation AddressMap := (list (string * Value)) (only parsing).

Section transfer.
Context `{Crc32} `{BaseEncoding} `{Bech32} `{Blake2b} `{Lodash} `{InputResolver}.

(** Elements are pairs of an address and a value. *)
Definition groupByAddress (elements : list (string * Value)) : list (string * list Value) :=
  fold_left (fun acc elem => JsMap.set acc elem.1 (default [] (JsMap.get acc elem.1) ++ [elem.2])) elements [].

Definition coalesceByAddress (elements : list (string * Value)) : AddressMap :=
  (fun group => (group.1, coalesceValueQuantities group.2)) <$> groupByAddress elements.

Definition initializeAddressMap (addresses : list string) : AddressMap :=
  JsMap.of_entries ((fun address => (address, {| assets := Some []; coins := 0 |})) <$> addresses).

(** [addressMap.get(key)!.coins = ...] and [....assets?.set(assetId, quantity)] *)
Definition setCoins (addressMap : AddressMap) (key : string) (coins : Z) : AddressMap :=
  match JsMap.get addressMap key with Some v => JsMap.set addressMap key {| assets := assets v; coins := coins |} | None => addressMap end.
Definition setAsset (addressMap : AddressMap) (key assetId : string) (quantity : Z) : AddressMap :=
  match JsMap.get addressMap key with
  | Some v => JsMap.set addressMap key {| assets := (fun m => JsMap.set m assetId quantity) <$> assets v; coins := coins v |}
  | None => addressMap
  end.

Definition updateAddressMap (keep : Z -> bool) (addressMap : AddressMap) (key : string) (value : Value) : AddressMap :=
  let addressMap := if keep (coins value) then setCoins addressMap key (coins value) else addressMap in
  fold_left (fun addressMap '(assetId, quantity) => if keep quantity then setAsset addressMap key assetId quantity else addressMap)
    (default [] (assets value)) addressMap.

Definition updateFromAddressMap : AddressMap -> string -> Value -> AddressMap := updateAddressMap (fun q => q <? 0).
Definition updateToAddressMap : AddressMap -> string -> Value -> AddressMap := updateAddressMap (fun q => 0 <? q).

(** The first loop. *)
Definition applyDifference (outputs : AddressMap) (maps : AddressMap * AddressMap) (input : string * Value) : AddressMap * AddressMap :=
  let outputValue := default {| assets := Some []; coins := 0 |} (JsMap.get outputs input.1) in
  let difference := subtractValueQuantities [outputValue; input.2] in
  (updateFromAddressMap maps.1 input.1 difference, updateToAddressMap maps.2 input.1 difference).

Definition computeNetDifferences (inputs outputs : AddressMap) (maps : AddressMap * AddressMap) : AddressMap * AddressMap :=
  let maps := fold_left (applyDifference outputs) inputs maps in
  (maps.1, fold_left (fun to output => if JsMap.has inputs output.1 then to else updateToAddressMap to output.1 output.2) outputs maps.2).

Definition hasZeroBalance (value : Value) : bool := (coins value =? 0) && match assets value with Some m => JsMap.size m =? 0 | None => false end.

(** Entries deleted while the map is iterated over are the visited ones. *)
Definition removeZeroBalanceEntries (addressMap : AddressMap) : AddressMap :=
  fold_left (fun m entry => if hasZeroBalance entry.2 then JsMap.delete m entry.1 else m) addressMap addressMap.

(** What stands in for the metadata of an asset that is not found. *)
Definition bareAssetInfo (assetId : string) : Res AssetInfo.t :=
  policyId ← getPolicyId assetId;
  name ← getAssetName assetId;
  fingerprint ← fingerprintOf policyId name;
  Ok {| AssetInfo.assetId := assetId; AssetInfo.fingerprint := fingerprint; AssetInfo.name := name; AssetInfo.policyId := policyId;
        AssetInfo.quantity := 0; AssetInfo.supply := 0; AssetInfo.tokenMetadata := None; AssetInfo.nftMetadata := None; AssetInfo.staleAt := None |}.

Definition tryGetAssetInfos (provider : AssetProvider) (expired : bool) (assetIds : list string) : Res (list AssetInfo.t) :=
  catching (promiseTimeout expired (provider assetIds)) (mapM bareAssetInfo assetIds).

(** The loop over the found assets. *)
Definition withAmounts (tokens : list (string * Z)) (infos : list AssetInfo.t) : list (string * (Z * AssetInfo.t)) :=
  fold_left (fun m info => JsMap.set m (AssetInfo.assetId info) (default 0 (JsMap.get tokens (AssetInfo.assetId info)), info)) infos [].

Definition intoTransferValue (provider : AssetProvider) (expired : bool) (value : Value) : Res TokenTransferValue :=
  let assetIds := uniq (JsMap.keys (default [] (assets value))) in
  infos ← (if bool_decide (assetIds = []) then Ok [] else tryGetAssetInfos provider expired assetIds);
  Ok {| transferAssets := withAmounts (default [] (assets value)) infos; transferCoins := coins value |}.

Definition intoTokenTransferValue (provider : AssetProvider) (expired : bool) (addressMap : AddressMap) : Res (list (string * TokenTransferValue)) :=
  entries ← mapM (fun entry => v ← intoTransferValue provider expired entry.2; Ok (entry.1, v)) addressMap; Ok (JsMap.of_entries entries).

(** The balances of the addresses, before the metadata are looked up. *)
Definition transfers (inputs outputs : list (string * Value)) : AddressMap * AddressMap :=
  let coalescedInputsByAddress := coalesceByAddress inputs in
  let coalescedOutputsByAddress := coalesceByAddress outputs in
  let addresses := uniq (JsMap.keys coalescedInputsByAddress ++ JsMap.keys coalescedOutputsByAddress) in
  let initial := initializeAddressMap addresses in
  let maps := computeNetDifferences coalescedInputsByAddress coalescedOutputsByAddress (initial, initial) in
  (removeZeroBalanceEntries maps.1, removeZeroBalanceEntries maps.2).

(** [expired] says of the resolution of the inputs and of the two look-ups
    whether they time out. *)
Definition tokenTransferInspector (fromProvider toProvider : AssetProvider) (expired : bool * bool * bool) (tx : Transaction.core) : Res TokenTransferInspection :=
  resolvedInputs ← catching (r ← promiseTimeout expired.1.1 (resolveInputs (TransactionBody.coreInputs (Transaction.coreBody tx))); Ok (resolvedInputs r)) (Ok []);
  let '(fromMap, toMap) := transfers ((fun i => (inputAddress i, inputValue i)) <$> resolvedInputs)
    ((fun o => (TransactionOutput.coreAddress o, TransactionOutput.value o)) <$> TransactionBody.coreOutputs (Transaction.coreBody tx)) in
  fromAddress ← intoTokenTransferValue fromProvider expired.1.2 fromMap;
  toAddress ← intoTokenTransferValue toProvider expired.2 toMap;
  Ok {| fromAddress := fromAddress; toAddress := toAddress |}.
End transfer.

(** ** [transactionSummaryInspector.ts] *)

Inductive InputSource : Set := fromInputs | fromCollaterals.

Definition isPhase2ValidationErrTx (inputSource : InputSource) : bool := match inputSource with fromCollaterals => true | fromInputs => false end.

Definition isPhase2Failure (inputSource : option InputSource) (tx : Transaction.core) : bool :=
  match inputSource with
  | None => bool_decide (Transaction.coreIsValid tx = Some false)
  | Some source => isPhase2ValidationErrTx source
  end.

Record TransactionSummaryInspection : Set := {
  summaryAssets : list (string * (Z * AssetInfo.t));
  summaryCoins : Z;
  collateral : Z;
  summaryDeposit : Z;
  returnedDeposit : Z;
  summaryFee : Z;
  summaryUnresolved : list TransactionInput.core * Value;
  summaryInputs : list ResolvedInput
}.

Section summary.
Context `{Crc32} `{BaseEncoding} `{Bech32} `{Blake2b} `{Lodash} `{InputResolver}.

Definition getCollateral (tx : Transaction.core) (addresses : list string) : Res Z :=
  match default [] (TransactionBody.coreCollaterals (Transaction.coreBody tx)) with
  | [] => Ok 0
  | collaterals =>
      resolution ← resolveInputs collaterals;
      let resolvedCollateralInputs := List.filter (fun i => includesText addresses (inputAddress i)) (resolvedInputs resolution) in
      let totalOwnedValueAtRisk := BigIntMath.sum ((fun i => coins (inputValue i)) <$> resolvedCollateralInputs) in
      Ok (match TransactionBody.coreCollateralReturn (Transaction.coreBody tx) with
          | Some return_ =>
              if negb (includesText addresses (TransactionOutput.coreAddress return_)) then totalOwnedValueAtRisk
              else default 0 (BigIntMath.max [totalOwnedValueAtRisk - coins (TransactionOutput.value return_); 0])
          | None => totalOwnedValueAtRisk
          end)
  end.

Definition totalInputsValue (inputs : list ResolvedInput) : Value := coalesceValueQuantities (inputValue <$> inputs).
Definition totalOutputsValue (outputs : list TransactionOutput.core) : Value := coalesceValueQuantities (TransactionOutput.value <$> outputs).

Definition mintInspectionToTokenMap (mintedAssets : list MintedAsset) : Res (list (string * Z)) :=
  entries ← mapM (fun asset => id ← fromParts (mintedPolicy asset) (mintedName asset); Ok (id, mintedQuantity asset)) mintedAssets; Ok (JsMap.of_entries entries).

Definition getImplicitAssets (tx : Transaction.core) : Res (option (list (string * Z))) :=
  minted ← assetsMintedInspector tx;
  mintedAssets ← mintInspectionToTokenMap minted;
  burned ← assetsBurnedInspector tx;
  burnedAssets ← mintInspectionToTokenMap burned;
  Ok (coalesceTokenMaps [Some mintedAssets; Some burnedAssets]).

Definition ownValueDiff (tx : Transaction.core) (addresses : list string) (withdrawals : Z) : Res Value :=
  let totalOutputValue := totalAddressOutputsValueInspector addresses tx in
  totalInputValue ← totalAddressInputsValueInspector addresses tx;
  Ok {| assets := subtractTokenMaps [assets totalOutputValue; assets totalInputValue]; coins := coins totalOutputValue - (coins totalInputValue + withdrawals) |}.

Definition getUnaccountedFunds (failed : bool) (outputs : list TransactionOutput.core) (inputs : list ResolvedInput) (implicitCoin fee : Z)
    (implicitAssets : list (string * Z)) : Value :=
  if failed then {| assets := Some []; coins := 0 |}
  else
    let totalInputs := totalInputsValue inputs in
    let totalOutputs := totalOutputsValue outputs in
    let totalInputs := {| assets := coalesceTokenMaps [assets totalInputs; Some implicitAssets]; coins := coins totalInputs + implicitCoin |} in
    let totalOutputs := {| assets := assets totalOutputs; coins := coins totalOutputs + fee |} in
    subtractValueQuantities [totalOutputs; totalInputs].

Definition intoAssetInfoWithAmount (provider : AssetProvider) (expired : bool) (tokenMap : option (list (string * Z))) : Res (list (string * (Z * AssetInfo.t))) :=
  match tokenMap with
  | None => Ok []
  | Some tokens =>
      match JsMap.keys tokens with
      | [] => Ok []
      | assetIds => infos ← tryGetAssetInfos provider expired assetIds; Ok (withAmounts tokens infos)
      end
  end.

(** [rewardAccounts || []]; the proposals of the transaction are not passed on.
    [expired] says of the resolution of the inputs and of the look-up of the
    assets whether they time out. *)
Definition transactionSummaryInspector (addresses : list string) (rewardAccounts : option (list string)) (stakeKeyDeposit : Z) (poolDeposit : option Z)
    (provider : AssetProvider) (dRepKeyHash : option string) (expired : bool * bool) (inputSource : option InputSource) (tx : Transaction.core) :
    Res TransactionSummaryInspection :=
  let body := Transaction.coreBody tx in
  resolution ← catching (promiseTimeout expired.1 (resolveInputs (TransactionBody.coreInputs body)))
    (Ok {| resolvedInputs := []; unresolvedInputs := TransactionBody.coreInputs body |});
  let fee := TransactionBody.coreFee body in
  implicit ← ImplicitCoin.computeImplicitCoin stakeKeyDeposit poolDeposit (TransactionBody.coreCertificates body) None (TransactionBody.coreWithdrawals body)
    (Some (default [] rewardAccounts)) dRepKeyHash;
  collateral ← getCollateral tx addresses;
  let withdrawals := ImplicitCoin.withdrawals implicit in
  let implicitCoin := withdrawals + ImplicitCoin.reclaimDeposit implicit - ImplicitCoin.deposit implicit in
  implicitAssets ← getImplicitAssets tx;
  diff ← (if isPhase2Failure inputSource tx then Ok {| assets := None; coins := - collateral |} else ownValueDiff tx addresses withdrawals);
  infos ← intoAssetInfoWithAmount provider expired.2 (assets diff);
  Ok {| summaryAssets := infos; summaryCoins := coins diff; collateral := collateral; summaryDeposit := ImplicitCoin.deposit implicit; summaryFee := fee;
        summaryInputs := resolvedInputs resolution; returnedDeposit := ImplicitCoin.reclaimDeposit implicit;
        summaryUnresolved := (unresolvedInputs resolution,
          getUnaccountedFunds (isPhase2Failure inputSource tx) (TransactionBody.coreOutputs body) (resolvedInputs resolution) implicitCoin fee (default [] implicitAssets)) |}.
End summary.
