(* ===== verification/InspectorTheorems.v ===== *)
(** * Inspection of transactions: the properties
    What the inspectors of [Inspectors.v] report agrees with the inputs and
    outputs of a transaction: the balances of addresses, the value that is
    missing, minted and burned tokens, deposits. *)
From S2P Require Import Prelude JsRuntime Codec Credential Address BaseEncodingRef AddressFacts AddressText Identifiers IdentifierTheorems Records Common NativeScript Pools Certificates Values SerializedValue ValueFacts Scripts Outputs Witnesses Metadata AuxiliaryData Proposals BodyParts Bodies Inspectors.

Import JsMapFacts ValuesFacts.

(** ** Maps *)

Section maps.
Context {V W : Type}.
Implicit Types (m : list (string * V)).

Lemma get_map (f : V -> W) m a : JsMap.get ((fun e => (e.1, f e.2)) <$> m) a = f <$> JsMap.get m a.
Proof. induction m as [|[k v] m IH]; [done|]. cbn. case_decide; [done|exact IH]. Qed.

Lemma wf_map (f : V -> W) m : JsMap.wf m -> JsMap.wf ((fun e => (e.1, f e.2)) <$> m).
Proof. unfold JsMap.wf. assert (E : JsMap.keys ((fun e => (e.1, f e.2)) <$> m) = JsMap.keys m) by (induction m as [|[k v] m IH]; [done|]; unfold JsMap.keys in *; cbn; by rewrite IH). by rewrite E. Qed.

Lemma keys_delete m k a : a ∈ JsMap.keys (JsMap.delete m k) -> a ∈ JsMap.keys m.
Proof.
  induction m as [|[k' v] m IH]; [done|]. change (JsMap.keys ((k', v) :: m)) with (k' :: JsMap.keys m). cbn [JsMap.delete]. case_decide; [by right|].
  change (JsMap.keys ((k', v) :: JsMap.delete m k)) with (k' :: JsMap.keys (JsMap.delete m k)). rewrite !elem_of_cons. intros [->|]; [by left|right; by apply IH].
Qed.

Lemma wf_delete m k : JsMap.wf m -> JsMap.wf (JsMap.delete m k).
Proof.
  unfold JsMap.wf. induction m as [|[k' v] m IH]; [done|]. cbn. change (JsMap.keys ((k', v) :: m)) with (k' :: JsMap.keys m). intros [Hn Hd]%NoDup_cons. case_decide; [done|].
  change (NoDup (k' :: JsMap.keys (JsMap.delete m k))). apply NoDup_cons. split; [|by apply IH]. intros Hin. apply Hn. by eapply keys_delete.
Qed.

Lemma get_delete m k a : JsMap.wf m -> JsMap.get (JsMap.delete m k) a = if decide (k = a) then None else JsMap.get m a.
Proof.
  unfold JsMap.wf. induction m as [|[k' v] m IH]; [by case_decide|]. change (JsMap.keys ((k', v) :: m)) with (k' :: JsMap.keys m). intros [Hn Hd]%NoDup_cons. cbn.
  destruct (decide (k' = k)) as [->|Hne].
  - case_decide; [subst; by apply get_None|done].
  - cbn. destruct (decide (k' = a)) as [->|]; [by rewrite decide_False|by apply IH].
Qed.

(** Deleting the entries of a list that satisfy a condition. *)
Lemma get_deletions (p : V -> bool) l m a : JsMap.wf m ->
  JsMap.get (fold_left (fun m e => if p e.2 then JsMap.delete m e.1 else m) l m) a =
  if existsb (fun e => String.eqb e.1 a && p e.2) l then None else JsMap.get m a.
Proof.
  revert m. induction l as [|[k v] l IH]; intros m Hm; [done|]. cbn [fold_left existsb fst snd]. destruct (p v).
  - rewrite IH, get_delete by (done || by apply wf_delete). rewrite andb_true_r. destruct (String.eqb_spec k a) as [->|]; [rewrite decide_True by done; by case_match|by rewrite decide_False].
  - rewrite IH by done. by rewrite andb_false_r.
Qed.

Lemma get_kept (p : V -> bool) m a : JsMap.wf m ->
  JsMap.get (fold_left (fun m e => if p e.2 then JsMap.delete m e.1 else m) m m) a =
  match JsMap.get m a with Some v => if p v then None else Some v | None => None end.
Proof.
  intros Hm. rewrite get_deletions by done. destruct (JsMap.get m a) as [v|] eqn:E; [|by case_match].
  destruct (p v) eqn:Ep.
  - assert (Hx : existsb (fun e => String.eqb e.1 a && p e.2) m = true); [|by rewrite Hx]. apply existsb_exists. exists (a, v). split; [by apply list_elem_of_In, get_Some_elem|].
    cbn. by rewrite String.eqb_refl.
  - destruct (existsb _ m) eqn:Ex; [|done]. apply existsb_exists in Ex as ([k w] & Hin%list_elem_of_In & [Ek%String.eqb_eq Hp]%andb_true_iff). cbn in *. subst k.
    apply (elem_get m a w Hm) in Hin. congruence.
Qed.
End maps.

Lemma fold_left_pair {A B C} (f : A -> C -> A) (g : B -> C -> B) l a b : fold_left (fun m x => (f m.1 x, g m.2 x)) l (a, b) = (fold_left f l a, fold_left g l b).
Proof. revert a b. induction l as [|x l IH]; intros a b; [done|]. cbn. apply IH. Qed.

(** ** Balances of addresses *)

Section transfers.
Context `{LodashLaws}.

(** The values at an address. *)
Definition valuesAt (elements : list (string * Value)) (a : string) : list Value := snd <$> filter (fun e => e.1 = a) elements.

Lemma valuesAt_cons a v l b : valuesAt ((a, v) :: l) b = if decide (a = b) then v :: valuesAt l b else valuesAt l b.
Proof. unfold valuesAt. rewrite filter_cons. cbn [fst]. by case_decide. Qed.

Definition someValues (l : list Value) : option (list Value) := match l with [] => None | _ => Some l end.

Lemma group_get elements acc a : (forall b, JsMap.get acc b <> Some []) ->
  JsMap.get (fold_left (fun acc elem => JsMap.set acc elem.1 (default [] (JsMap.get acc elem.1) ++ [elem.2])) elements acc) a =
  someValues (default [] (JsMap.get acc a) ++ valuesAt elements a).
Proof.
  revert acc. induction elements as [|[k v] elements IH]; intros acc Hacc.
  - cbn. rewrite app_nil_r. specialize (Hacc a). destruct (JsMap.get acc a) as [[|]|]; done.
  - cbn [fold_left fst snd]. rewrite IH.
    + rewrite get_set, valuesAt_cons. case_decide; [subst|done]. unfold default, from_option, id at 1. by rewrite <- app_assoc.
    + intros b. rewrite get_set. case_decide; [|apply Hacc]. intros [= E]. by apply app_eq_nil in E as [_ ?].
Qed.

Lemma group_wf (elements : list (string * Value)) acc : JsMap.wf acc ->
  JsMap.wf (fold_left (fun acc elem => JsMap.set acc elem.1 (default [] (JsMap.get acc elem.1) ++ [elem.2])) elements acc).
Proof. revert acc. induction elements as [|e l IH]; intros acc Hacc; [done|]. cbn. by apply IH, wf_set. Qed.

Lemma coalesce_get elements a : JsMap.get (coalesceByAddress elements) a = coalesceValueQuantities <$> someValues (valuesAt elements a).
Proof. unfold coalesceByAddress. rewrite (get_map coalesceValueQuantities). f_equal. by apply group_get. Qed.

Lemma coalesce_wf elements : JsMap.wf (coalesceByAddress elements).
Proof. apply (wf_map coalesceValueQuantities), group_wf. constructor. Qed.

Definition emptyValue : Value := {| assets := Some []; coins := 0 |}.

Lemma initial_get l a : NoDup l -> JsMap.get (initializeAddressMap l) a = if bool_decide (a ∈ l) then Some emptyValue else None.
Proof.
  intros Hl. unfold initializeAddressMap. rewrite of_entries_nodup.
  2: { unfold JsMap.wf. assert (E : JsMap.keys ((fun a => (a, {| assets := Some []; coins := 0 |})) <$> l) = l) by (clear; induction l as [|b l IH]; [done|]; unfold JsMap.keys in *; cbn; by rewrite IH). by rewrite E. }
  clear Hl. induction l as [|b l IH]; [done|]. cbn. rewrite IH. destruct (decide (b = a)) as [Eb|Eb].
  - by rewrite (bool_decide_true (a ∈ b :: l)) by (subst; left).
  - by rewrite (bool_decide_ext (a ∈ b :: l) (a ∈ l)) by (rewrite elem_of_cons; intuition congruence).
Qed.
(** *** Updates *)

(** What is kept of a value. *)
Definition clipped (keep : Z -> bool) (v : Value) : Value :=
  {| assets := Some (fold_left (fun m '(id, q) => if keep q then JsMap.set m id q else m) (default [] (assets v)) []);
     coins := if keep (coins v) then coins v else 0 |}.

Lemma setAsset_get m key id q a : JsMap.get (setAsset m key id q) a =
  if decide (key = a) then (fun v => {| assets := (fun m => JsMap.set m id q) <$> assets v; coins := coins v |}) <$> JsMap.get m a else JsMap.get m a.
Proof.
  unfold setAsset. destruct (JsMap.get m key) as [v|] eqn:E; [rewrite get_set|]; case_decide; subst; rewrite ?E; done.
Qed.

Lemma setCoins_get m key c a : JsMap.get (setCoins m key c) a =
  if decide (key = a) then (fun v => {| assets := assets v; coins := c |}) <$> JsMap.get m a else JsMap.get m a.
Proof.
  unfold setCoins. destruct (JsMap.get m key) as [v|] eqn:E; [rewrite get_set|]; case_decide; subst; rewrite ?E; done.
Qed.

Lemma setAssets_get keep key tokens m a :
  JsMap.get (fold_left (fun m '(id, q) => if (keep q : bool) then setAsset m key id q else m) tokens m) a =
  if decide (key = a) then
    (fun v => {| assets := (fun m0 : list (string * Z) => fold_left (fun m0 '(id, q) => if (keep q : bool) then JsMap.set m0 id q else m0) tokens m0) <$> assets v; coins := coins v |}) <$> JsMap.get m a
  else JsMap.get m a.
Proof.
  revert m. induction tokens as [|[id q] tokens IH]; intros m.
  - cbn. case_decide; [|done]. destruct (JsMap.get m a) as [[c [|]]|]; done.
  - cbn [fold_left]. rewrite IH. destruct (keep q); [rewrite setAsset_get|]; case_decide; [|done..]. destruct (JsMap.get m a) as [[c [|]]|]; done.
Qed.

Lemma update_get keep m key v a : JsMap.get m key = Some emptyValue ->
  JsMap.get (updateAddressMap keep m key v) a = if decide (key = a) then Some (clipped keep v) else JsMap.get m a.
Proof.
  intros E. unfold updateAddressMap. rewrite setAssets_get. destruct (keep (coins v)) eqn:Ek; [rewrite setCoins_get|]; (case_decide; [subst; rewrite E|done]);
    unfold clipped; cbn; by rewrite Ek.
Qed.

(** One update at most for every address. *)
Lemma updates_get keep (sel : string * Value -> bool) (f : string * Value -> Value) l m a : JsMap.wf l ->
  (forall k v, (k, v) ∈ l -> sel (k, v) = true -> JsMap.get m k = Some emptyValue) ->
  JsMap.get (fold_left (fun m e => if sel e then updateAddressMap keep m e.1 (f e) else m) l m) a =
  match JsMap.get l a with Some v => if sel (a, v) then Some (clipped keep (f (a, v))) else JsMap.get m a | None => JsMap.get m a end.
Proof.
  unfold JsMap.wf. revert m. induction l as [|[k v] l IH]; intros m Hl Hm; [done|]. change (JsMap.keys ((k, v) :: l)) with (k :: JsMap.keys l) in *.
  apply NoDup_cons in Hl as [Hk Hl]. cbn [fold_left fst snd JsMap.get]. assert (Hmk : sel (k, v) = true -> JsMap.get m k = Some emptyValue) by (apply Hm; left).
  rewrite IH; [|done|].
  - case_decide as Eka.
    + subst. rewrite (proj2 (get_None l a) Hk). destruct (sel (a, v)); [|done]. rewrite update_get by auto. by rewrite decide_True.
    + destruct (sel (k, v)); [|done]. rewrite update_get by auto. by rewrite decide_False by done.
  - intros b w Hb Hs. assert (Hne : k <> b) by (intros ->; apply Hk; by apply (list_elem_of_fmap_2 fst _ (b, w))).
    assert (Hmb : JsMap.get m b = Some emptyValue) by (apply (Hm b w); [by right|done]). destruct (sel (k, v)); [rewrite update_get, decide_False by auto|]; done.
Qed.

Lemma fold_left_same {A B} (f g : A -> B -> A) l a : (forall x y, f x y = g x y) -> fold_left f l a = fold_left g l a.
Proof. intros E. revert a. induction l as [|x l IH]; intros a; [done|]. cbn. by rewrite E. Qed.

Lemma clipped_qty keep v i : keep 0 = false -> value_ok v -> qty i (clipped keep v) = if keep (qty i v) then qty i v else 0.
Proof.
  intros Hk0 Hv. unfold qty, quantity. cbn [clipped assets]. unfold value_ok, assets_ok in Hv. destruct (assets v) as [m|]; [|cbn; by rewrite Hk0].
  unfold default, from_option, id. assert (Hg : forall acc, getOr0 (fold_left (fun m '(id, q) => if keep q then JsMap.set m id q else m) m acc) i =
    if keep (getOr0 m i) then getOr0 m i else getOr0 acc i); [|apply Hg].
  induction m as [|[k q] m IH]; intros acc; [unfold getOr0; cbn; by rewrite Hk0|]. apply map_ok_cons in Hv as [Hk Hv]. cbn [fold_left]. rewrite IH by done. rewrite getOr0_cons.
  case_decide; [subst|].
  - rewrite (getOr0_absent m i Hk), Hk0. destruct (keep q); [|done]. rewrite getOr0_set. by rewrite decide_True.
  - destruct (keep (getOr0 m i)); [done|]. destruct (keep q); [|done]. rewrite getOr0_set. by rewrite decide_False.
Qed.

Lemma clipped_ok keep v : value_ok (clipped keep v).
Proof.
  unfold value_ok. cbn [clipped assets assets_ok].
  assert (Hf : forall tokens acc, map_ok acc -> map_ok (fold_left (fun m '(id, q) => if keep q then JsMap.set m id q else m) tokens acc)); [|apply Hf; constructor].
  induction tokens as [|[k q] tokens IH]; intros acc Hacc; [done|]. cbn [fold_left]. apply IH. destruct (keep q); [by apply wf_set|done].
Qed.

Lemma set_forall {V} (P : string * V -> Prop) m k v : (forall k', P (k', v)) -> Forall P m -> Forall P (JsMap.set m k v).
Proof. intros Hv. induction 1 as [|[k' v'] m Hm Hl IH]; [by repeat constructor|]. cbn [JsMap.set]. destruct (decide (k' = k)); by constructor. Qed.

(** A value is kept when there is something to show. *)
Definition shownValue (v : Value) : Prop := coins v <> 0 \/ exists i, qty i v <> 0.

Lemma clipped_shown keep v : keep 0 = false -> hasZeroBalance (clipped keep v) = false -> shownValue (clipped keep v).
Proof.
  intros Hk0 Hz. destruct (decide (coins (clipped keep v) = 0)) as [Hc|]; [right|by left]. pose proof (clipped_ok keep v) as Hok.
  assert (Hall : match assets (clipped keep v) with Some m => Forall (fun e : string * Z => keep e.2 = true) m | None => False end).
  { cbn [clipped assets]. assert (Hf : forall tokens acc, Forall (fun e : string * Z => keep e.2 = true) acc ->
      Forall (fun e : string * Z => keep e.2 = true) (fold_left (fun m '(id, q) => if keep q then JsMap.set m id q else m) tokens acc)); [|apply Hf; constructor].
    induction tokens as [|[k q] tokens IH]; intros acc Hacc; [done|]. cbn [fold_left]. apply IH. destruct (keep q) eqn:Ek; [|done].
    by apply set_forall. }
  unfold hasZeroBalance in Hz. rewrite Hc in Hz. unfold qty, quantity. unfold value_ok in Hok. destruct (assets (clipped keep v)) as [[|[k q] m]|]; [done| |done].
  exists k. cbn [from_option]. rewrite getOr0_cons, decide_True by done. inversion Hall as [|? ? Hq]. cbn in Hq. intros ->. congruence.
Qed.

(** *** The net value of an address *)

Section net.
Context (inputs outputs : list (string * Value)).
Context (Hi : Forall (fun e => value_ok e.2) inputs) (Ho : Forall (fun e => value_ok e.2) outputs).

Lemma valuesAt_ok l a : Forall (fun e => value_ok e.2) l -> Forall value_ok (valuesAt l a).
Proof. induction 1 as [|[k v] l Hv _ IH]; [constructor|]. rewrite valuesAt_cons. case_decide; [by constructor|done]. Qed.

Definition netCoins (a : string) : Z := totalCoins (valuesAt outputs a) - totalCoins (valuesAt inputs a).
Definition netQty (i a : string) : Z := totalQty i (valuesAt outputs a) - totalQty i (valuesAt inputs a).

(** The difference the code computes for an address of the inputs. *)
Definition difference (a : string) (inputValue : Value) : Value :=
  subtractValueQuantities [default emptyValue (JsMap.get (coalesceByAddress outputs) a); inputValue].

Lemma coalesced_get l a : Forall (fun e => value_ok e.2) l ->
  let v := default emptyValue (JsMap.get (coalesceByAddress l) a) in value_ok v /\ coins v = totalCoins (valuesAt l a) /\ forall i, qty i v = totalQty i (valuesAt l a).
Proof.
  intros Hl. rewrite coalesce_get. pose proof (valuesAt_ok l a Hl) as Hv. destruct (valuesAt l a) as [|v vs]; cbn [someValues fmap option_fmap option_map default from_option id].
  - split_and!; [constructor|done|done].
  - split_and!; [apply coalesceValueQuantities_ok|apply coalesceValueQuantities_coins|intros i; by apply coalesceValueQuantities_qty].
Qed.

Lemma difference_spec a v : JsMap.get (coalesceByAddress inputs) a = Some v ->
  value_ok (difference a v) /\ coins (difference a v) = netCoins a /\ forall i, qty i (difference a v) = netQty i a.
Proof.
  intros E. destruct (coalesced_get inputs a Hi) as (Oi & Ci & Qi). rewrite E in Oi, Ci, Qi. cbn [default from_option id] in Oi, Ci, Qi.
  destruct (coalesced_get outputs a Ho) as (Oo & Co & Qo). unfold difference. set (o := default emptyValue _) in *. split_and!.
  - unfold value_ok. cbn. destruct (subtractMaps (assets o) (assets v)) as [m|] eqn:Em; [|done]. by apply subtractMaps_canonical in Em as [].
  - cbn. unfold netCoins. by rewrite Co, Ci.
  - intros i. unfold qty. cbn [subtractValueQuantities assets fmap list_fmap]. rewrite subtractTokenMaps_quantity by (done || by repeat constructor). cbn. unfold netQty.
    rewrite <- Qo, <- Qi. unfold qty, zsum. cbn. lia.
Qed.

(** What the two maps hold before entries without balance are removed. *)
Lemma net_maps : let ins := coalesceByAddress inputs in let outs := coalesceByAddress outputs in
  let initial := initializeAddressMap (uniq (JsMap.keys ins ++ JsMap.keys outs)) in
  let maps := computeNetDifferences ins outs (initial, initial) in
  forall a,
    JsMap.get maps.1 a = match JsMap.get ins a with Some v => Some (clipped (fun q => q <? 0) (difference a v)) | None => JsMap.get initial a end /\
    JsMap.get maps.2 a = match JsMap.get ins a, JsMap.get outs a with
                         | Some v, _ => Some (clipped (fun q => 0 <? q) (difference a v))
                         | None, Some v => Some (clipped (fun q => 0 <? q) v)
                         | None, None => JsMap.get initial a
                         end.
Proof.
  intros ins outs initial maps a. assert (Hin : forall k, k ∈ JsMap.keys ins \/ k ∈ JsMap.keys outs -> JsMap.get initial k = Some emptyValue).
  { intros k Hk. unfold initial. rewrite initial_get by apply uniq_NoDup. rewrite bool_decide_true; [done|]. by apply uniq_elem, elem_of_app. }
  unfold maps, computeNetDifferences.
  change (fold_left (applyDifference outs) ins (initial, initial)) with
    (fold_left (fun m x => (updateAddressMap (fun q => q <? 0) m.1 x.1 (difference x.1 x.2), updateAddressMap (fun q => 0 <? q) m.2 x.1 (difference x.1 x.2))) ins (initial, initial)).
  rewrite (fold_left_pair (fun m x => updateAddressMap (fun q => q <? 0) m x.1 (difference x.1 x.2)) (fun m x => updateAddressMap (fun q => 0 <? q) m x.1 (difference x.1 x.2))). cbn [fst snd].
  assert (Hg : forall keep b, JsMap.get (fold_left (fun m x => updateAddressMap keep m x.1 (difference x.1 x.2)) ins initial) b =
    match JsMap.get ins b with Some v => Some (clipped keep (difference b v)) | None => JsMap.get initial b end).
  { intros keep b. rewrite (updates_get keep (fun _ => true) (fun x => difference x.1 x.2)); [done|apply coalesce_wf|]. intros k v Hk _. apply Hin. left. by apply (list_elem_of_fmap_2 fst _ (k, v)). }
  split; [apply Hg|].
  rewrite (fold_left_same _ (fun m e => if negb (JsMap.has ins e.1) then updateAddressMap (fun q => 0 <? q) m e.1 e.2 else m)) by (intros x y; by destruct (JsMap.has ins y.1)).
  rewrite (updates_get _ (fun e => negb (JsMap.has ins e.1)) snd); [|apply coalesce_wf|].
  - cbn [fst snd]. rewrite Hg. unfold JsMap.has. destruct (JsMap.get ins a), (JsMap.get outs a); done.
  - cbn [fst]. intros k v Hk Hs%negb_true_iff. rewrite Hg. destruct (JsMap.get ins k) as [w|] eqn:E; [unfold JsMap.has in Hs; by rewrite E in Hs|].
    apply Hin. right. by apply (list_elem_of_fmap_2 fst _ (k, v)).
Qed.

Definition coinsAt (m : list (string * Value)) (a : string) : Z := coins (default emptyValue (JsMap.get m a)).
Definition qtyAt (m : list (string * Value)) (i a : string) : Z := qty i (default emptyValue (JsMap.get m a)).

Lemma kept_at m a : JsMap.wf m -> coinsAt (removeZeroBalanceEntries m) a = coinsAt m a /\ (forall i, qtyAt (removeZeroBalanceEntries m) i a = qtyAt m i a) /\
  (forall v, JsMap.get (removeZeroBalanceEntries m) a = Some v -> hasZeroBalance v = false /\ JsMap.get m a = Some v).
Proof.
  intros Hm. unfold coinsAt, qtyAt. unfold removeZeroBalanceEntries. rewrite (get_kept hasZeroBalance m a Hm).
  destruct (JsMap.get m a) as [[c as_]|]; [|done]. destruct (hasZeroBalance {| coins := c; assets := as_ |}) eqn:E; cbn [default from_option id].
  - unfold hasZeroBalance in E. cbn in E. apply andb_true_iff in E as [Ec%Z.eqb_eq Ea]. destruct as_ as [tokens|]; [|done]. apply Z.eqb_eq, zlen_0 in Ea. by subst.
  - split_and!; [done..|]. intros v [= <-]. done.
Qed.

Lemma update_wf keep m key v : JsMap.wf m -> JsMap.wf (updateAddressMap keep m key v).
Proof.
  intros Hm. unfold updateAddressMap. set (m1 := if keep (coins v) then _ else _).
  assert (H1 : JsMap.wf m1) by (unfold m1, setCoins; destruct (keep (coins v)); [|done]; case_match; [by apply wf_set|done]). clearbody m1. clear Hm. revert m1 H1.
  induction (default [] (assets v)) as [|[k q] tokens IH]; intros m1 H1; [done|]. cbn [fold_left]. apply IH. destruct (keep q); [|done]. unfold setAsset. case_match; [by apply wf_set|done].
Qed.

Lemma fold_wf {A} (f : list (string * Value) -> A -> list (string * Value)) l m : (forall m x, JsMap.wf m -> JsMap.wf (f m x)) -> JsMap.wf m -> JsMap.wf (fold_left f l m).
Proof. intros Hf. revert m. induction l as [|x l IH]; intros m Hm; [done|]. cbn. by apply IH, Hf. Qed.

Lemma net_wf ins outs initial : JsMap.wf initial -> let maps := computeNetDifferences ins outs (initial, initial) in JsMap.wf maps.1 /\ JsMap.wf maps.2.
Proof.
  intros Hn maps. assert (H1 : JsMap.wf (fold_left (applyDifference outs) ins (initial, initial)).1 /\ JsMap.wf (fold_left (applyDifference outs) ins (initial, initial)).2).
  { generalize (conj Hn Hn). change (JsMap.wf initial /\ JsMap.wf initial) with (JsMap.wf (initial, initial).1 /\ JsMap.wf (initial, initial).2). generalize (initial, initial).
    induction ins as [|x l IH]; intros m Hm; [done|]. cbn [fold_left]. apply IH. unfold applyDifference. cbn [fst snd]. destruct Hm. split; by apply update_wf. }
  destruct H1. split; [done|]. apply fold_wf; [|done]. intros m x Hm. destruct (JsMap.has ins x.1); [done|by apply update_wf].
Qed.

Lemma kept_wf m : JsMap.wf m -> JsMap.wf (removeZeroBalanceEntries m).
Proof. intros Hm. unfold removeZeroBalanceEntries. apply fold_wf; [|done]. intros m' x Hm'. destruct (hasZeroBalance x.2); [by apply wf_delete|done]. Qed.

Lemma no_values l a : JsMap.get (coalesceByAddress l) a = None -> valuesAt l a = [].
Proof. rewrite coalesce_get. by destruct (valuesAt l a). Qed.

Lemma some_at l a v : Forall (fun e => value_ok e.2) l -> JsMap.get (coalesceByAddress l) a = Some v ->
  value_ok v /\ coins v = totalCoins (valuesAt l a) /\ forall i, qty i v = totalQty i (valuesAt l a).
Proof. intros Hl E. pose proof (coalesced_get l a Hl) as Hc. by rewrite E in Hc. Qed.

Lemma totals_nonneg l a : Forall (fun e => 0 <= coins e.2 /\ forall i, 0 <= qty i e.2) l ->
  0 <= totalCoins (valuesAt l a) /\ forall i, 0 <= totalQty i (valuesAt l a).
Proof.
  induction 1 as [|[k v] l [Hc Hq] _ [IHc IHq]]; [done|]. rewrite valuesAt_cons. case_decide; [|done]. cbn [snd] in Hc, Hq. split; [rewrite totalCoins_cons; lia|].
  intros i. rewrite totalQty_cons. specialize (Hq i). specialize (IHq i). lia.
Qed.

(** The maps of the inspector are the negative and the positive part of what
    every address gains. *)
Lemma transfers_exact a : Forall (fun e => 0 <= coins e.2 /\ forall i, 0 <= qty i e.2) outputs ->
  let from := (transfers inputs outputs).1 in let to := (transfers inputs outputs).2 in
  JsMap.wf from /\ JsMap.wf to /\
  coinsAt from a = Z.min 0 (netCoins a) /\ coinsAt to a = Z.max 0 (netCoins a) /\
  (forall i, qtyAt from i a = Z.min 0 (netQty i a) /\ qtyAt to i a = Z.max 0 (netQty i a)) /\
  (forall v, JsMap.get from a = Some v \/ JsMap.get to a = Some v -> shownValue v).
Proof.
  intros Hn from to. unfold from, to, transfers. cbn [fst snd]. clear from to. set (initial := initializeAddressMap _).
  assert (Hw : JsMap.wf initial) by apply wf_of_entries. destruct (net_wf (coalesceByAddress inputs) (coalesceByAddress outputs) initial Hw) as [W1 W2].
  destruct (net_maps a) as [E1 E2]. fold initial in E1, E2.
  destruct (kept_at _ a W1) as (-> & Q1 & Z1). destruct (kept_at _ a W2) as (-> & Q2 & Z2).
  split; [by apply kept_wf|]. split; [by apply kept_wf|].
  assert (Einit : default emptyValue (JsMap.get initial a) = emptyValue) by (unfold initial; rewrite initial_get by apply uniq_NoDup; by destruct (bool_decide _)).
  assert (Hok : forall v, hasZeroBalance v = false -> JsMap.get initial a = Some v -> shownValue v) by (unfold initial; rewrite initial_get by apply uniq_NoDup; intros v; destruct (bool_decide _); [by intros Hz [= <-]|done]).
  destruct (totals_nonneg outputs a Hn) as [Pc Pq].
  enough (Hq : coinsAt (computeNetDifferences (coalesceByAddress inputs) (coalesceByAddress outputs) (initial, initial)).1 a = Z.min 0 (netCoins a) /\
    coinsAt (computeNetDifferences (coalesceByAddress inputs) (coalesceByAddress outputs) (initial, initial)).2 a = Z.max 0 (netCoins a) /\
    (forall i, qtyAt (computeNetDifferences (coalesceByAddress inputs) (coalesceByAddress outputs) (initial, initial)).1 i a = Z.min 0 (netQty i a) /\
      qtyAt (computeNetDifferences (coalesceByAddress inputs) (coalesceByAddress outputs) (initial, initial)).2 i a = Z.max 0 (netQty i a))).
  { destruct Hq as (-> & -> & Hq). split_and!; [done..|intros i; rewrite Q1, Q2; apply Hq|]. intros v [Hv|Hv]; [apply Z1 in Hv as [? Hv]; rewrite E1 in Hv|apply Z2 in Hv as [? Hv]; rewrite E2 in Hv];
      clear Q1 Z1 Q2 Z2 Pc Pq; repeat case_match; simplify_eq; solve [by apply clipped_shown | by apply Hok]. }
  unfold coinsAt, qtyAt. rewrite E1, E2. destruct (JsMap.get (coalesceByAddress inputs) a) as [v|] eqn:Ei.
  - destruct (difference_spec a v Ei) as (Dv & <- & Dq). cbn [default from_option id clipped coins]. split_and!; [destruct (Z.ltb_spec (coins (difference a v)) 0); lia|destruct (Z.ltb_spec 0 (coins (difference a v))); lia|].
    intros i. rewrite !clipped_qty by done. rewrite <- Dq. split; destruct (Z.ltb_spec (qty i (difference a v)) 0), (Z.ltb_spec 0 (qty i (difference a v))); lia.
  - unfold netCoins, netQty. rewrite (no_values inputs a Ei), Einit. change (totalCoins []) with 0. destruct (JsMap.get (coalesceByAddress outputs) a) as [v|] eqn:Eo.
    + destruct (some_at outputs a v Ho Eo) as (Ov & Oc & Oq). cbn [default from_option id clipped coins]. rewrite <- Oc in Pc |- *. split_and!; [cbn; lia|destruct (Z.ltb_spec 0 (coins v)); lia|].
      intros i. change (totalQty i []) with 0. specialize (Pq i). rewrite clipped_qty by done. rewrite <- Oq in Pq |- *. split; [change (qty i emptyValue) with 0; lia|destruct (Z.ltb_spec 0 (qty i v)); lia].
    + rewrite Einit, (no_values outputs a Eo). by split_and!.
Qed.
End net.
End transfers.

(** *** The result of the inspector *)

(** The look-up of assets finds all of them (or what stands in for them). *)
Definition answers `{Crc32} `{BaseEncoding} `{Bech32} `{Blake2b} (provider : AssetProvider) (expired : bool) : Prop :=
  forall ids, exists infos, tryGetAssetInfos provider expired ids = Ok infos /\ AssetInfo.assetId <$> infos = ids.

(** The quantity of an asset and the coins shown for an address. *)
Definition shownQty (m : list (string * TokenTransferValue)) (i a : string) : Z :=
  match JsMap.get m a with Some v => default 0 (fst <$> JsMap.get (transferAssets v) i) | None => 0 end.
Definition shownCoins (m : list (string * TokenTransferValue)) (a : string) : Z :=
  match JsMap.get m a with Some v => transferCoins v | None => 0 end.

Lemma withAmounts_get tokens infos acc i :
  default 0 (fst <$> JsMap.get (fold_left (fun m info => JsMap.set m (AssetInfo.assetId info) (default 0 (JsMap.get tokens (AssetInfo.assetId info)), info)) infos acc) i) =
  if bool_decide (i ∈ AssetInfo.assetId <$> infos) then getOr0 tokens i else default 0 (fst <$> JsMap.get acc i).
Proof.
  revert acc. induction infos as [|x infos IH]; intros acc; [done|]. cbn [fold_left fmap list_fmap]. rewrite IH. destruct (decide (i ∈ AssetInfo.assetId <$> infos)) as [E|E].
  - rewrite bool_decide_true by done. by rewrite bool_decide_true by (by right).
  - rewrite (bool_decide_false _ E), get_set. destruct (decide (AssetInfo.assetId x = i)) as [Ex|Ex].
    + rewrite bool_decide_true by (apply elem_of_cons; by left). cbn. by rewrite Ex.
    + by rewrite bool_decide_false by (rewrite elem_of_cons; intuition).
Qed.

Section shown.
Context `{Crc32} `{BaseEncoding} `{Bech32} `{Blake2b} `{LodashLaws}.

(** What is shown of a value. *)
Definition shows (v : Value) (t : TokenTransferValue) : Prop := transferCoins t = coins v /\ forall i, default 0 (fst <$> JsMap.get (transferAssets t) i) = qty i v.

Lemma intoTransferValue_shows provider expired v : answers provider expired -> exists t, intoTransferValue provider expired v = Ok t /\ shows v t.
Proof.
  intros Ha. unfold intoTransferValue. set (ids := uniq _).
  assert (Hids : forall i, i ∉ ids -> getOr0 (default [] (assets v)) i = 0) by (intros i Hi; apply getOr0_absent; contradict Hi; by apply uniq_elem).
  assert (Hinfos : exists infos, (if bool_decide (ids = []) then Ok [] else tryGetAssetInfos provider expired ids) = Ok infos /\ AssetInfo.assetId <$> infos = ids).
  { case_bool_decide as E; [by exists []|]. apply Ha. }
  destruct Hinfos as (infos & -> & Ei). eexists. split; [reflexivity|]. split; [done|]. cbn. intros i. unfold withAmounts. rewrite withAmounts_get, Ei. unfold qty, quantity.
  case_bool_decide as E; [|cbn; apply Hids in E; unfold default, from_option, id in E]; destruct (assets v); done.
Qed.

Lemma intoTokenTransferValue_shows provider expired m : answers provider expired -> JsMap.wf m ->
  exists r, intoTokenTransferValue provider expired m = Ok r /\
    forall a, match JsMap.get m a, JsMap.get r a with Some v, Some t => shows v t | None, None => True | _, _ => False end.
Proof.
  intros Ha Hm. unfold intoTokenTransferValue.
  assert (Hr : exists r, mapM (fun entry => v ← intoTransferValue provider expired entry.2; Ok (entry.1, v)) m = Ok r /\ JsMap.keys r = JsMap.keys m /\
    forall a, match JsMap.get m a, JsMap.get r a with Some v, Some t => shows v t | None, None => True | _, _ => False end).
  { clear Hm. induction m as [|[k v] m (r & Er & Ek & Eg)]; [by exists []|]. destruct (intoTransferValue_shows provider expired v Ha) as (t & Et & St).
    exists ((k, t) :: r). cbn [mapM fst snd]. rewrite Et.  unfold JsMap.keys in *. rewrite Er. split_and!; [done|cbn; by rewrite Ek|]. intros a. cbn. case_decide; [done|apply Eg]. }
  destruct Hr as (r & -> & Ek & Eg). exists r. split; [|done]. cbn. by rewrite of_entries_nodup by (unfold JsMap.wf; by rewrite Ek).
Qed.

Lemma shows_at m r : (forall a, match JsMap.get m a, JsMap.get r a with Some v, Some t => shows v t | None, None => True | _, _ => False end) ->
  forall a, shownCoins r a = coinsAt m a /\ (forall i, shownQty r i a = qtyAt m i a) /\ (a ∈ JsMap.keys r -> exists v, JsMap.get m a = Some v /\ a ∈ JsMap.keys m).
Proof.
  intros Hs a. specialize (Hs a). unfold shownCoins, shownQty, coinsAt, qtyAt. destruct (JsMap.get m a) as [v|] eqn:Em, (JsMap.get r a) as [t|] eqn:Er; try done.
  - destruct Hs as [Hc Hq]. split_and!; [done..|]. intros _. exists v. split; [done|]. apply get_Some_elem in Em. by apply (list_elem_of_fmap_2 fst _ (a, v)).
  - split_and!; [done..|]. intros Ha. by apply get_None in Er.
Qed.

(** An address is shown exactly when something is shown of it. *)
Lemma shown_iff m r (P : Z -> Prop) n (q : string -> Z) a : (forall z, P z -> z <> 0) ->
  (forall b, match JsMap.get m b, JsMap.get r b with Some v, Some t => shows v t | None, None => True | _, _ => False end) ->
  (forall v, JsMap.get m a = Some v -> shownValue v) ->
  (coinsAt m a = n) -> (forall i, qtyAt m i a = q i) -> (n <> 0 -> P n) -> (forall i, q i <> 0 -> P (q i)) ->
  a ∈ JsMap.keys r <-> P n \/ exists i, P (q i).
Proof.
  intros HP Hs Hv Hn Hq HPn HPq. split.
  - intros Ha. destruct (shows_at m r Hs a) as (_ & _ & Hk). destruct (Hk Ha) as (v & Ev & _). unfold coinsAt, qtyAt in *. rewrite Ev in Hn, Hq. cbn [default from_option id] in Hn, Hq.
    destruct (Hv v Ev) as [Hc|[i Hi]]; [left; apply HPn; congruence|right; exists i; apply HPq; by rewrite <- Hq].
  - intros HPz. destruct (JsMap.get r a) as [t|] eqn:E; [apply get_Some_elem in E; by apply (list_elem_of_fmap_2 fst _ (a, t))|]. exfalso. specialize (Hs a). rewrite E in Hs.
    destruct (JsMap.get m a) eqn:Em; [done|]. unfold coinsAt, qtyAt in *. rewrite Em in Hn, Hq. destruct HPz as [Hz|[i Hz]]; [apply HP in Hz; by subst n|apply HP in Hz; by rewrite <- Hq in Hz].
Qed.
End shown.

(** Addresses with the values of the inputs and of the outputs. *)
Definition spentValues (ins : list ResolvedInput) : list (string * Value) := (fun i => (inputAddress i, inputValue i)) <$> ins.
Definition producedValues (tx : Transaction.core) : list (string * Value) :=
  (fun o => (TransactionOutput.coreAddress o, TransactionOutput.value o)) <$> TransactionBody.coreOutputs (Transaction.coreBody tx).


(** ** Deposits and withdrawals of a wallet *)

Section implicit.
Context `{Crc32} {CL : Crc32Laws} `{BaseEncoding} {BL : BaseEncodingLaws} `{Bech32} {NL : Bech32Laws}.

(** The reward accounts of some stake credentials on a network. *)
Definition accountsOf (n : Z) (creds : list Credential) (accounts : list string) : Prop :=
  Forall2 (fun c s => isCredential c = true /\ RewardAccount.fromCredential c n = Ok s) creds accounts.

Lemma account_exists n c : isNetwork n = true -> isCredential c = true -> exists s, RewardAccount.fromCredential c n = Ok s.
Proof.
  intros Hn Hc. destruct (reward_text n c Hn (credentialOk_of c Hc)) as (s & w & Es & _ & Ew & Hw). exists s. unfold RewardAccount.fromCredential. rewrite Es.
  eapply typedBech32_ok; [exact Ew| |done]. case_bool; set_solver.
Qed.

Lemma account_decodes n c s : isNetwork n = true -> isCredential c = true -> RewardAccount.fromCredential c n = Ok s ->
  RewardAccount.asReward s = Ok (RewardAddress.fromCredentials n c).
Proof.
  intros Hn Hc E. destruct (reward_text n c Hn (credentialOk_of c Hc)) as (t & w & Et & Ed & _). unfold RewardAccount.fromCredential in E. rewrite Et in E.
  cbn [mbind outcome_bind] in E. unfold RewardAccount.new, typedBech32 in E. destruct (assertIsBech32WithPrefix _ _ _); [|done..]. injection E as <-.
  unfold RewardAccount.asReward. rewrite Ed. cbn [mbind outcome_bind]. unfold RewardAddress.fromCredentials. by case_bool.
Qed.

Lemma account_parts n c s : isNetwork n = true -> isCredential c = true -> RewardAccount.fromCredential c n = Ok s ->
  RewardAccount.toNetworkId s = Ok (Some n) /\ RewardAccount.toHash s = Ok (hash c).
Proof. intros Hn Hc E. unfold RewardAccount.toNetworkId, RewardAccount.toHash. rewrite (account_decodes n c s Hn Hc E). cbn [mbind outcome_bind]. unfold RewardAddress.fromCredentials. by case_bool. Qed.

Lemma account_inj n c c' s : isNetwork n = true -> isCredential c = true -> isCredential c' = true ->
  RewardAccount.fromCredential c n = Ok s -> RewardAccount.fromCredential c' n = Ok s -> c' = c.
Proof.
  intros Hn Hc Hc' E E'. apply account_decodes in E, E'; [|done..]. rewrite E in E'.
  apply (f_equal (fun r => match r with Ok a => paymentPart a | _ => None end)) in E'. cbn in E'. congruence.
Qed.

(** A text is among the accounts exactly when its credential is the wallet's. *)
Lemma account_owned n creds accounts c t : isNetwork n = true -> isCredential c = true -> accountsOf n creds accounts ->
  RewardAccount.fromCredential c n = Ok t -> includesText accounts t = bool_decide (c ∈ creds).
Proof.
  intros Hn Hc Ha Et. induction Ha as [|c1 s1 cs ss [Hc1 E1] _ IH]; [done|]. cbn [includesText existsb]. fold (includesText ss t). rewrite IH.
  destruct (String.eqb_spec t s1) as [->|Hd].
  - rewrite (account_inj n c1 c s1) by done. symmetry. apply bool_decide_true. left.
  - apply bool_decide_ext. rewrite elem_of_cons. split; [by right|]. intros [->|]; [|done]. congruence.
Qed.

Lemma stake_credential_owned n creds accounts c : isNetwork n = true -> isCredential c = true -> accountsOf n creds accounts -> accounts <> [] ->
  ImplicitCoin.stakeCredentialInRewardAccounts c accounts = Ok (bool_decide (c ∈ creds)).
Proof.
  intros Hn Hc Ha Hne. destruct (account_exists n c Hn Hc) as [t Et]. rewrite <- (account_owned n creds accounts c t) by done.
  destruct Ha as [|c0 s0 creds accounts [Hc0 E0] Ha]; [done|]. unfold ImplicitCoin.stakeCredentialInRewardAccounts.
  destruct (account_parts n c0 s0 Hn Hc0 E0) as (-> & _). cbn [mbind outcome_bind required]. by rewrite Et.
Qed.

(** *** What certificates deposit *)

(** The deposit of a certificate and the deposit it gives back, when the
    credential, the pool or the representative is the wallet's. *)
Definition ownDeposits (params : ImplicitCoin.DepositProtocolParams) (creds : list Credential) (ownPool : PoolParameters.t -> bool) (ownRetired : string -> bool)
    (ownDRep : Credential -> bool) (cert : CoreCertificate) : Z * Z :=
  let own c := bool_decide (c ∈ creds) in
  match cert with
  | StakeRegistrationCertificate c => (ImplicitCoin.counted (own c) (ImplicitCoin.stakeKeyDeposit params), 0)
  | StakeDeregistrationCertificate c => (0, ImplicitCoin.counted (own c) (ImplicitCoin.stakeKeyDeposit params))
  | PoolRegistrationCertificate p => (ImplicitCoin.counted (ownPool p) (ImplicitCoin.poolDeposit params), 0)
  | PoolRetirementCertificate id _ => (0, ImplicitCoin.counted (ownRetired id) (ImplicitCoin.poolDeposit params))
  | RegistrationCertificate c d | StakeRegistrationDelegateCertificate c _ d | VoteRegistrationDelegateCertificate c _ d
  | StakeVoteRegistrationDelegateCertificate c _ _ d => (ImplicitCoin.counted (own c) d, 0)
  | UnRegistrationCertificate c d => (0, ImplicitCoin.counted (own c) d)
  | RegisterDelegateRepresentativeCertificate c d _ => (ImplicitCoin.counted (ownDRep c) d, 0)
  | UnregisterDelegateRepresentativeCertificate c d => (0, ImplicitCoin.counted (ownDRep c) d)
  | _ => (0, 0)
  end.

Lemma addDeposits_ok f g certs d r : (forall c, c ∈ certs -> f c = Ok (g c)) ->
  ImplicitCoin.addDeposits f certs d r = Ok (d + zsum ((fun c => (g c).1) <$> certs), r + zsum ((fun c => (g c).2) <$> certs)).
Proof.
  revert d r. induction certs as [|c certs IH]; intros d r Hf; [unfold zsum; cbn; by rewrite !Z.add_0_r|]. cbn [ImplicitCoin.addDeposits]. rewrite Hf by left. destruct (g c) as [x y] eqn:E.
  cbn [mbind outcome_bind]. rewrite IH by (intros; apply Hf; by right). unfold zsum. cbn. rewrite E. cbn. f_equal. f_equal; lia.
Qed.

Lemma sum_proposals ps d : fold_left (fun deposit proposal => deposit + ProposalProcedure.coreDeposit proposal) ps d = d + zsum (ProposalProcedure.coreDeposit <$> ps).
Proof. revert d. induction ps as [|p ps IH]; intros d; unfold zsum; cbn; [lia|]. rewrite IH. unfold zsum. lia. Qed.

Lemma sum_withdrawals l : BigIntMath.sum l = zsum l.
Proof. unfold BigIntMath.sum. assert (E : forall a, fold_left (fun result num => result + num) l a = a + zsum l); [|by rewrite E]. induction l as [|x l IH]; intros a; unfold zsum in *; cbn; [lia|]. rewrite IH. lia. Qed.

(** The stake credentials of the certificates are well formed. *)
Definition stakeCredentials (cert : CoreCertificate) : bool := match stakeCredentialOf cert with Some c => isCredential c | None => true end.

Lemma key_hash_ok c : isCredential c = true -> Ed25519KeyHashHex (hash c) = Ok (hash c).
Proof. intros [_ Hh]%andb_true_iff. by apply typedHex_blob. Qed.

Lemma poolIds_exist n creds accounts : isNetwork n = true -> accountsOf n creds accounts ->
  exists ids, mapM ImplicitCoin.poolIdOf accounts = Ok ids /\ Forall2 (fun c id => PoolId.fromKeyHash (hash c) = Ok id) creds ids.
Proof.
  intros Hn. induction 1 as [|c s creds accounts [Hc E] _ (ids & Ei & Hi)]; [exists []; by split; constructor|].
  destruct (pool_text c Hc) as (id & Ep & _). assert (E1 : ImplicitCoin.poolIdOf s = Ok id).
  { unfold ImplicitCoin.poolIdOf. destruct (account_parts n c s Hn Hc E) as (_ & ->). cbn [mbind outcome_bind]. by rewrite (key_hash_ok c Hc). }
  exists (id :: ids). split; [|by constructor]. cbn [mapM]. rewrite E1. cbn [mbind outcome_bind]. by rewrite Ei.
Qed.

(** A pool is the wallet's when an account of it is an owner, and it is retired
    by the wallet when its identifier is that of a key of the wallet. *)
Definition ownPool (n : Z) (creds : list Credential) (p : PoolParameters.t) : bool :=
  existsb (fun c => match RewardAccount.fromCredential c n with Ok s => includesText (PoolParameters.owners p) s | _ => false end) creds.
Definition ownRetired (creds : list Credential) (id : string) : bool :=
  existsb (fun c => match PoolId.fromKeyHash (hash c) with Ok s => String.eqb id s | _ => false end) creds.

Definition isShelley (cert : CoreCertificate) : bool :=
  match cert with
  | StakeRegistrationCertificate _ | StakeDeregistrationCertificate _ | PoolRegistrationCertificate _ | PoolRetirementCertificate _ _ => true
  | _ => false
  end.

Lemma own_pools n creds accounts p : accountsOf n creds accounts -> existsb (includesText (PoolParameters.owners p)) accounts = ownPool n creds p.
Proof. unfold ownPool. induction 1 as [|c s cs ss [_ E] _ IH]; [done|]. cbn [existsb]. by rewrite E, IH. Qed.

Lemma own_retired creds ids id : Forall2 (fun c id => PoolId.fromKeyHash (hash c) = Ok id) creds ids -> includesText ids id = ownRetired creds id.
Proof. unfold ownRetired, includesText. induction 1 as [|c s cs ss E _ IH]; [done|]. cbn [existsb]. by rewrite E, IH. Qed.

Section wallet.
Context (n : Z) (creds : list Credential) (accounts : list string).
Context (Hn : isNetwork n = true) (Ha : accountsOf n creds accounts) (Hne : accounts <> []).

Lemma shelley_own params ids drep cert : Forall2 (fun c id => PoolId.fromKeyHash (hash c) = Ok id) creds ids -> stakeCredentials cert = true ->
  ImplicitCoin.shelleyDeposit params accounts ids cert =
  Ok (if isShelley cert then ownDeposits params creds (ownPool n creds) (ownRetired creds) drep cert else (0, 0)).
Proof.
  intros Hi Hc. destruct cert; try done; cbn [ImplicitCoin.shelleyDeposit isShelley ownDeposits]; rewrite ?(bool_decide_false _ Hne); cbn [orb];
    [by rewrite (stake_credential_owned n creds accounts) by done|by rewrite (stake_credential_owned n creds accounts) by done|by rewrite (own_pools n creds) by done|by rewrite (own_retired creds) by done].
Qed.

Lemma conway_own params pool retired dRepKeyHash cert : stakeCredentials cert = true ->
  ImplicitCoin.conwayDeposit accounts dRepKeyHash cert =
  Ok (if isShelley cert then (0, 0) else ownDeposits params creds pool retired (ImplicitCoin.ownDRep dRepKeyHash) cert).
Proof.
  intros Hc. destruct cert; try done; cbn [ImplicitCoin.conwayDeposit isShelley ownDeposits]; by rewrite (stake_credential_owned n creds accounts) by done.
Qed.
End wallet.

Lemma zsum_parts (p : CoreCertificate -> bool) (f g h : CoreCertificate -> Z * Z) (pr : Z * Z -> Z) certs : pr (0, 0) = 0 ->
  (forall c, f c = if p c then h c else (0, 0)) -> (forall c, g c = if p c then (0, 0) else h c) ->
  zsum ((fun c => pr (f c)) <$> certs) + zsum ((fun c => pr (g c)) <$> certs) = zsum ((fun c => pr (h c)) <$> certs).
Proof.
  intros Hz Hf Hg. induction certs as [|c certs IH]; [done|]. unfold zsum in *. cbn. rewrite Hf, Hg in *. destruct (p c); lia.
Qed.

Lemma own_withdrawals accounts (l : list (string * Z)) : List.filter (fun w => includesText accounts w.1) l = filter (fun w => w.1 ∈ accounts) l.
Proof.
  induction l as [|[s q] l IH]; [done|]. cbn [List.filter fst]. rewrite filter_cons. cbn [fst]. rewrite IH. destruct (includesText accounts s) eqn:E.
  - rewrite decide_True; [done|]. apply existsb_exists in E as (t & Ht%list_elem_of_In & ->%String.eqb_eq). done.
  - rewrite decide_False; [done|]. intros Hin. apply not_true_iff_false in E. apply E. apply existsb_exists. exists s. split; [by apply list_elem_of_In|apply String.eqb_refl].
Qed.

End implicit.

(** ** The summary of a transaction *)

Section summary.
Context `{Crc32} `{BaseEncoding} `{Bech32} `{Blake2b} `{LodashLaws} `{InputResolver}.

(** *** Minted and burned tokens *)

Definition mintOk (tx : Transaction.core) : Prop :=
  match TransactionBody.coreMint (Transaction.coreBody tx) with Some m => map_ok m /\ Forall (fun e => isAssetId e.1 = true) m | None => True end.

Definition mintedQty (tx : Transaction.core) (i : string) : Z := quantity (TransactionBody.coreMint (Transaction.coreBody tx)) i.

Lemma minted_parts sm (m : list (string * Z)) l : Forall (fun e => isAssetId e.1 = true) m -> mapM (mintedAsset sm) m = Ok l ->
  forall p, mintInspectionToTokenMap (List.filter (fun a => p (mintedQuantity a)) l) = Ok (JsMap.of_entries (filter (fun e => p e.2 = true) m)).
Proof.
  intros Hm E p. unfold mintInspectionToTokenMap.
  assert (E2 : mapM (fun asset => id ← fromParts (mintedPolicy asset) (mintedName asset); Ok (id, mintedQuantity asset)) (List.filter (fun a => p (mintedQuantity a)) l) =
    Ok (filter (fun e => p e.2 = true) m)); [|by rewrite E2].
  revert l E. induction Hm as [|[id q] m Hid _ IH]; intros l E; [injection E as <-; done|]. cbn [mapM] in E. destruct (mintedAsset sm (id, q)) as [a| |] eqn:Ea; [|done..].
  cbn [mbind outcome_bind] in E. destruct (mapM (mintedAsset sm) m) as [l'| |] eqn:El; [|done..]. injection E as <-. cbn [fst] in Hid.
  assert (Hp : mintedQuantity a = q /\ fromParts (mintedPolicy a) (mintedName a) = Ok id).
  { unfold mintedAsset in Ea. cbn [fst snd] in Ea. rewrite getPolicyId_ok, getAssetName_ok in Ea by done. cbn [mbind outcome_bind] in Ea.
    destruct (fingerprintOf _ _); [|done..]. injection Ea as <-. split; [done|]. cbn [mintedPolicy mintedName]. destruct (assetId_split id Hid) as (E & Hp & Hn). rewrite fromParts_ok by done. by rewrite <- E. }
  destruct Hp as [Hq Hf]. cbn [List.filter]. rewrite filter_cons. cbn [snd]. rewrite Hq. destruct (p q).
  - rewrite decide_True by done. cbn [mapM]. rewrite Hf, Hq. cbn [mbind outcome_bind]. by rewrite (IH l').
  - rewrite decide_False by done. by apply IH.
Qed.

Lemma map_ok_filter (P : string * Z -> Prop) {D : forall x, Decision (P x)} (m : list (string * Z)) : map_ok m -> map_ok (filter P m).
Proof.
  unfold map_ok, JsMap.wf, JsMap.keys. induction m as [|[k q] m IH]; [done|]. cbn [fmap list_fmap fst]. intros [Hk Hm]%NoDup_cons. rewrite filter_cons. case_decide; [|by apply IH].
  cbn [fmap list_fmap fst]. apply NoDup_cons. split; [|by apply IH]. intros ((k' & q') & Ek & Hin)%list_elem_of_fmap. apply list_elem_of_filter in Hin as [_ Hin]. apply Hk. cbn in Ek. subst.
  by apply (list_elem_of_fmap_2 fst _ (k', q')).
Qed.

(** What is minted and what is burned are together what the body mints. *)
Lemma implicit_assets tx minted i : mintOk tx -> getImplicitAssets tx = Ok minted -> assets_ok minted /\ quantity minted i = mintedQty tx i.
Proof.
  unfold mintOk, mintedQty, getImplicitAssets, assetsMintedInspector, assetsBurnedInspector, mintInspector. destruct (TransactionBody.coreMint _) as [m|]; [|intros _ [= <-]; by vm_compute].
  intros [Hok Hid] E. destruct (policyScripts _ _) as [sm| |]; [|done..]. cbn [mbind outcome_bind] in E. destruct (mapM (mintedAsset sm) m) as [l| |] eqn:El; [|done..]. cbn [mbind outcome_bind] in E.
  rewrite (minted_parts sm m l Hid El (fun q => 0 <? q)) in E. cbn [mbind outcome_bind] in E.
  rewrite (minted_parts sm m l Hid El (fun q => q <? 0)) in E. cbn [mbind outcome_bind] in E. rewrite !of_entries_nodup in E by by apply map_ok_filter. injection E as <-. split; [apply coalesceTokenMaps_ok|].
  rewrite coalesceTokenMaps_quantity by (repeat constructor; by apply map_ok_filter). unfold zsum. cbn [fmap list_fmap foldr quantity].
  rewrite (getOr0_filter (fun q => 0 <? q)), (getOr0_filter (fun q => q <? 0)) by done. destruct (Z.ltb_spec 0 (getOr0 m i)), (Z.ltb_spec (getOr0 m i) 0); lia.
Qed.

(** *** Values *)

Lemma difference_qty x y i : value_ok x -> value_ok y -> qty i (subtractValueQuantities [x; y]) = qty i x - qty i y.
Proof.
  intros Hx Hy. unfold qty. cbn [subtractValueQuantities assets fmap list_fmap]. rewrite subtractTokenMaps_quantity by (done || by repeat constructor). cbn. unfold zsum. cbn. lia.
Qed.

Lemma coins_difference x y : BigIntMath.subtract [x; y] = x - y.
Proof. done. Qed.

Lemma ownInputValues_ok addresses l : Forall (fun i => value_ok (inputValue i)) l -> Forall value_ok (ownInputValues addresses l).
Proof. unfold ownInputValues. induction 1; [constructor|]. cbn [List.filter]. case_match; [by constructor|done]. Qed.

Lemma ownOutputValues_ok addresses l : Forall (fun o => value_ok (TransactionOutput.value o)) l -> Forall value_ok (ownOutputValues addresses l).
Proof. unfold ownOutputValues. induction 1; [constructor|]. cbn [List.filter]. case_match; [by constructor|done]. Qed.

(** The amounts shown of the tokens of a difference. *)
Definition amountOf (m : list (string * (Z * AssetInfo.t))) (i : string) : Z := default 0 (fst <$> JsMap.get m i).

Lemma intoAssetInfo_amounts provider expired tokens : answers provider expired ->
  exists infos, intoAssetInfoWithAmount provider expired tokens = Ok infos /\ forall i, amountOf infos i = quantity tokens i.
Proof.
  intros Ha. unfold intoAssetInfoWithAmount. destruct tokens as [m|]; [|by exists []]. destruct (JsMap.keys m) as [|k ks] eqn:Ek.
  - exists []. split; [done|]. by destruct m.
  - rewrite <- Ek. destruct (Ha (JsMap.keys m)) as (infos & Ei & Eid). clear Ek k ks. rewrite Ei. eexists. split; [destruct (JsMap.keys m); reflexivity|]. intros i. unfold amountOf, withAmounts. rewrite withAmounts_get, Eid.
    case_bool_decide as E; [done|]. cbn. symmetry. by apply getOr0_absent.
Qed.

(** What an address list gains and the ledger rule the missing value is
    measured against. *)
Definition inputsCoins (l : list ResolvedInput) : Z := totalCoins (inputValue <$> l).
Definition inputsQty (l : list ResolvedInput) (i : string) : Z := totalQty i (inputValue <$> l).
Definition outputsCoins (tx : Transaction.core) : Z := totalCoins (TransactionOutput.value <$> TransactionBody.coreOutputs (Transaction.coreBody tx)).
Definition outputsQty (tx : Transaction.core) (i : string) : Z := totalQty i (TransactionOutput.value <$> TransactionBody.coreOutputs (Transaction.coreBody tx)).

(** The value is preserved when the inputs that are not resolved hold
    [missing]. *)
Definition preservesValue (tx : Transaction.core) (implicit : ImplicitCoin.t) (resolved : list ResolvedInput) (missing : list Value) : Prop :=
  inputsCoins resolved + totalCoins missing + ImplicitCoin.withdrawals implicit + ImplicitCoin.reclaimDeposit implicit =
    outputsCoins tx + TransactionBody.coreFee (Transaction.coreBody tx) + ImplicitCoin.deposit implicit /\
  forall i, inputsQty resolved i + totalQty i missing + mintedQty tx i = outputsQty tx i.

Lemma unaccounted tx implicit resolved minted missing :
  Forall (fun i => value_ok (inputValue i)) resolved -> Forall (fun o => value_ok (TransactionOutput.value o)) (TransactionBody.coreOutputs (Transaction.coreBody tx)) ->
  mintOk tx -> getImplicitAssets tx = Ok minted -> preservesValue tx implicit resolved missing ->
  let v := getUnaccountedFunds false (TransactionBody.coreOutputs (Transaction.coreBody tx)) resolved
    (ImplicitCoin.withdrawals implicit + ImplicitCoin.reclaimDeposit implicit - ImplicitCoin.deposit implicit) (TransactionBody.coreFee (Transaction.coreBody tx)) (default [] minted) in
  coins v = totalCoins missing /\ forall i, qty i v = totalQty i missing.
Proof.
  intros Hr Ho Hm Em [Pc Pq]. destruct (implicit_assets tx minted "" Hm Em) as [Hok _].
  assert (Hr' : Forall value_ok (inputValue <$> resolved)) by by apply Forall_fmap. assert (Ho' : Forall value_ok (TransactionOutput.value <$> TransactionBody.coreOutputs (Transaction.coreBody tx))) by by apply Forall_fmap.
  assert (Hmin : assets_ok (Some (default [] minted))) by (destruct minted; [done|constructor]).
  split.
  - unfold getUnaccountedFunds. cbv zeta. cbn [subtractValueQuantities coins fmap list_fmap]. rewrite (coins_difference (_ + _)). unfold totalInputsValue, totalOutputsValue. rewrite !coalesceValueQuantities_coins.
    unfold inputsCoins, outputsCoins in Pc. lia.
  - intros i. unfold getUnaccountedFunds. cbv zeta. rewrite difference_qty.
    + unfold qty at 1 2. cbn [assets]. rewrite coalesceTokenMaps_quantity by (repeat constructor; [apply coalesceValueQuantities_ok|done]). unfold zsum. cbn [fmap list_fmap foldr].
      change (quantity (assets (totalOutputsValue ?o)) i) with (qty i (totalOutputsValue o)). change (quantity (assets (totalInputsValue ?o)) i) with (qty i (totalInputsValue o)).
      unfold totalInputsValue, totalOutputsValue. rewrite !coalesceValueQuantities_qty by done. specialize (Pq i). unfold inputsQty, outputsQty in Pq.
      destruct (implicit_assets tx minted i Hm Em) as [_ Eq]. assert (E0 : quantity (Some (default [] minted)) i = quantity minted i) by by destruct minted. lia.
    + apply coalesceValueQuantities_ok.
    + unfold value_ok. cbn [assets]. apply coalesceTokenMaps_ok.
Qed.

End summary.

(** ** Examples *)

Module InspectorExamples.
#[local] Existing Instance sum32.
#[local] Existing Instance sum32_laws.
#[local] Existing Instance encoding_ref.
#[local] Existing Instance encoding_ref_laws.
#[local] Existing Instance npm_ref.
#[local] Existing Instance npm_ref_laws.
#[local] Existing Instance LodashRef.lodash_ref.
#[local] Existing Instance LodashRef.lodash_ref_laws.

(** A digest to evaluate: the last bytes. *)
#[local] Instance lastBytes : Blake2b := {| blake2b_digest n l := Buffer_to_hex (take (Z.to_nat n) (rev l)) |}.

Definition token : string := demo_hash +:+ "0102".
Definition value (c q : Z) : Value := {| coins := c; assets := Some [(token, q)] |}.
Definition output (a : string) (v : Value) : TransactionOutput.core := {|
  TransactionOutput.coreAddress := a; TransactionOutput.value := v; TransactionOutput.datumHash := None; TransactionOutput.coreDatum := None;
  TransactionOutput.scriptReference := None |}.

(** Input 0 is of alice, input 1 of bob, the others are not found. *)
#[local] Instance resolver : InputResolver := fun i =>
  Ok (if TransactionInput.coreIndex i =? 0 then Some (output "alice" (value 10000000 5))
      else if TransactionInput.coreIndex i =? 1 then Some (output "bob" {| coins := 3000000; assets := None |}) else None).

Definition infoOf (id : string) : AssetInfo.t := {|
  AssetInfo.assetId := id; AssetInfo.fingerprint := ""; AssetInfo.name := ""; AssetInfo.policyId := ""; AssetInfo.quantity := 0; AssetInfo.supply := 0;
  AssetInfo.tokenMetadata := None; AssetInfo.nftMetadata := None; AssetInfo.staleAt := None |}.
#[local] Instance provider : AssetProvider := fun ids => Ok (infoOf <$> ids).

(** The elements of a list one by one. *)
Ltac each tac := repeat (apply Forall_cons; split; [tac|]); apply Forall_nil_2.

Lemma provider_answers : answers provider false.
Proof. intros ids. exists (infoOf <$> ids). split; [done|]. induction ids as [|i ids IH]; [done|]. cbn. by rewrite IH. Qed.

(** Alice's 10 ada and 5 tokens, Bob's 3 ada, and an input of 2 ada that is not
    found: Alice keeps 4 ada, Bob has 11 ada less the fee, all tokens and
    another one that is minted. *)
Definition input (n : Z) : TransactionInput.core := TransactionInput.Core "00" n.
Definition body : TransactionBody.core := {|
  TransactionBody.coreAccountBalanceIntervals := None; TransactionBody.coreAuxiliaryDataHash := None; TransactionBody.coreCertificates := None;
  TransactionBody.coreCollateralReturn := None; TransactionBody.coreCollaterals := Some [input 0]; TransactionBody.coreDirectDeposits := None;
  TransactionBody.coreDonation := None; TransactionBody.coreFee := 170000; TransactionBody.coreGuards := None; TransactionBody.coreInputs := [input 0; input 1; input 2];
  TransactionBody.coreMint := Some [(token, 1)]; TransactionBody.coreNetworkId := None;
  TransactionBody.coreOutputs := [output "alice" {| coins := 4000000; assets := Some [] |}; output "bob" (value 10830000 6)];
  TransactionBody.coreProposalProcedures := None; TransactionBody.coreReferenceInputs := None; TransactionBody.coreRequiredExtraSignatures := None;
  TransactionBody.coreScriptIntegrityHash := None; TransactionBody.coreSubTransactions := None; TransactionBody.coreTotalCollateral := None;
  TransactionBody.coreTreasuryValue := None; TransactionBody.coreUpdate := None; TransactionBody.coreValidityInterval := None;
  TransactionBody.coreVotingProcedures := None; TransactionBody.coreWithdrawals := None |}.
Definition noWitness : CoreWitness := {| coreRedeemers := None; signatures := []; coreScripts := None; bootstrap := None; datums := None |}.
Definition tx : Transaction.core := Transaction.Core "00" body noWitness None (Some true).

Definition resolution : ResolutionResult := {|
  resolvedInputs := [ {| inputAddress := "alice"; inputIndex := 0; inputTxId := "00"; inputValue := value 10000000 5 |};
                      {| inputAddress := "bob"; inputIndex := 1; inputTxId := "00"; inputValue := {| coins := 3000000; assets := None |} |} ];
  unresolvedInputs := [input 2] |}.

Lemma single_ok (k : string) (q : Z) : map_ok [(k, q)].
Proof. unfold map_ok, JsMap.wf. apply NoDup_singleton. Qed.

Lemma value_ok_value c q : value_ok (value c q).
Proof. apply single_ok. Qed.

Lemma value_nonneg c q : 0 <= c -> 0 <= q -> 0 <= coins (value c q) /\ forall i, 0 <= qty i (value c q).
Proof. intros Hc Hq. split; [done|]. intros i. unfold qty, quantity. cbn [value assets from_option]. rewrite getOr0_cons. case_decide; [done|]. by vm_compute. Qed.



Definition stakeKey : Credential := Build_Credential demo_hash 0.

End InspectorExamples.
