(* ===== verification/CborTheorems.v ===== *)
(** * What the CBOR layer guarantees

    The properties of [CborWriter] and [CborReader] that the serialization
    classes rely on, each a short consequence of the component lemmas, with a
    concrete instance of every conditional one. *)

From Stdlib Require Import SpecFloat.
From S2P Require Import Prelude JsRuntime Utf8 CborCommon Half CborWriter CborReader CborMachine CborExact CborSkip CborDocuments Codec.

Import CborWriterFacts.

(** ** The reader is a well-behaved state machine *)





(** C35. Skipping a value always ends, on malformed input too: the fuel of the
    model is never exhausted, all states passed through are reached by legal
    moves, and a normal return yields exactly the bytes moved over, at least
    one. *)
Theorem readEncodedValue_terminates r : wf r ->
  exists o r', CborReader.readEncodedValue r = (o, r') /\ o <> OutOfFuel /\ rtc step r r' /\
    forall v, o = Ok v -> v = slice (CborReader.data r) (CborReader.offset r) (CborReader.offset r') /\
      CborReader.offset r < CborReader.offset r'.
Proof. apply readEncodedValue_runs. Qed.

Lemma readEncodedValue_terminates_witness :
  exists o r', CborReader.readEncodedValue (CborReader.of_bytes [159; 1; 130; 255]) = (o, r') /\ o <> OutOfFuel /\
    rtc step (CborReader.of_bytes [159; 1; 130; 255]) r' /\
    forall v, o = Ok v -> v = slice [159; 1; 130; 255] 0 (CborReader.offset r') /\ 0 < CborReader.offset r'.
Proof. apply (readEncodedValue_terminates (CborReader.of_bytes [159; 1; 130; 255])), of_bytes_wf; [prove_bytes|reflexivity]. Defined.

(** C4. On a well-formed item of the RFC grammar, at any place a value may
    stand and whatever follows, [readEncodedValue] returns exactly the bytes of
    that item and counts one item of the enclosing container. *)
Theorem readEncodedValue_exact r l rest : item l -> ready r (l ++ rest) -> plain (CborReader.currentFrame r) ->
  CborReader.readEncodedValue r = (Ok l, consume r (zlen l) 1).
Proof. apply readEncodedValue_item. Qed.

Lemma nested_item : item [159; 130; 1; 32; 255].
Proof.
  apply (item_array_break 1 [130; 1; 32]). apply (items_cons 0 [130; 1; 32] []); [|constructor].
  apply (item_array 2 [130] [1; 32]); [by apply (head_0 Array 2)|].
  apply (items_cons 1 [1] [32]); [|apply (items_cons 0 [32] []); [|constructor]].
  - apply (item_int UnsignedInteger 1); [by left|by apply (head_0 UnsignedInteger 1)].
  - apply (item_int NegativeInteger 0); [by right|by apply (head_0 NegativeInteger 0)].
Qed.

Lemma readEncodedValue_exact_witness :
  CborReader.readEncodedValue (CborReader.of_bytes ([159; 130; 1; 32; 255] ++ [7])) =
  (Ok [159; 130; 1; 32; 255], consume (CborReader.of_bytes ([159; 130; 1; 32; 255] ++ [7])) (zlen [159; 130; 1; 32; 255]) 1).
Proof.
  apply (readEncodedValue_exact _ _ [7]); [apply nested_item|apply fresh_ready; [prove_bytes|reflexivity]|exact I].
Defined.

(** ** Writing and reading back *)

(** C22. Every balanced sequence of writer calls (nested arrays, maps, tags,
    strings, integers, simple values) succeeds, produces one well-formed item,
    and a reader over those bytes followed by anything returns exactly them
    with [readEncodedValue]. *)
Theorem written_documents_are_items m rest : doc m -> bytes rest -> zlen (written m ++ rest) < 2 ^ 53 ->
  let r := CborReader.of_bytes (written m ++ rest) in
  fst (m CborWriter.new) = Ok tt /\ item (written m) /\
  CborReader.readEncodedValue r = (Ok (written m), consume r (zlen (written m)) 1).
Proof.
  intros Hd Hr Hz r. destruct (proj1 doc_produces m Hd) as (l & Hl & Hb & Hi).
  subst r. rewrite (written_appends m l Hl) in *. split_and!; [by rewrite Hl|done|].
  apply (readEncodedValue_item _ l rest); [done| |done]. apply fresh_ready; [by apply Forall_app|done].
Qed.

Definition sample_doc : CborWriter.M unit :=
  CborWriter.writeStartMap (Some 1) ;;
  (CborWriter.writeInt (-300) ;;
   ((CborWriter.writeStartArray None ;; (CborWriter.writeBoolean true ;; mret tt) ;; CborWriter.writeEndArray) ;;
    mret tt)).

Lemma written_documents_are_items_witness :
  let r := CborReader.of_bytes (written sample_doc ++ [0]) in
  fst (sample_doc CborWriter.new) = Ok tt /\ item (written sample_doc) /\
  CborReader.readEncodedValue r = (Ok (written sample_doc), consume r (zlen (written sample_doc)) 1).
Proof.
  apply written_documents_are_items; [|prove_bytes|reflexivity].
  apply (doc_map 1); [lia|]. apply (docs_cons 1); [by apply doc_int|].
  apply (docs_cons 0); [|constructor]. apply (doc_array_break 1), (docs_cons 0); [|constructor].
  apply doc_bool.
Defined.

(** Integers round trip over the whole range of major types 0 and 1, from -2^64
    to 2^64 - 1. *)
Theorem int_round_trip z rest : - 2 ^ 64 <= z < 2 ^ 64 -> bytes rest ->
  zlen (written (CborWriter.writeInt z) ++ rest) < 2 ^ 53 ->
  let r := CborReader.of_bytes (written (CborWriter.writeInt z) ++ rest) in
  fst (CborWriter.writeInt z CborWriter.new) = Ok tt /\
  CborReader.readInt r = (Ok z, consume r (zlen (written (CborWriter.writeInt z))) 1).
Proof.
  intros Hz. unfold CborWriter.writeInt. destruct (Z.ltb_spec z 0).
  - eapply round_trip; [apply writeTypeValue_head; lia|apply head_bytes; lia|].
    intros r k Hp Hr. rewrite (readInt_exact r NegativeInteger (- (z + 1)) (CborWriter.head NegativeInteger (- (z + 1))) k (or_intror eq_refl)
        (writer_head NegativeInteger (- (z + 1)) ltac:(lia)) Hr).
    cbn [int_value]. do 3 f_equal. lia.
  - eapply round_trip; [apply writeTypeValue_head; lia|apply head_bytes; lia|].
    intros r k Hp Hr. by eapply (readInt_exact r UnsignedInteger); [by left|apply writer_head; lia|].
Qed.

Lemma int_round_trip_witness :
  let r := CborReader.of_bytes (written (CborWriter.writeInt (-18446744073709551616)) ++ [1]) in
  fst (CborWriter.writeInt (-18446744073709551616) CborWriter.new) = Ok tt /\
  CborReader.readInt r =
    (Ok (-18446744073709551616), consume r (zlen (written (CborWriter.writeInt (-18446744073709551616)))) 1).
Proof. apply int_round_trip; [lia|prove_bytes|reflexivity]. Defined.

(** Byte strings round trip through [writeByteString]/[readByteString]. *)
Theorem byteString_round_trip s rest : bytes s -> zlen s < 2 ^ 64 -> bytes rest ->
  zlen (written (CborWriter.writeByteString s) ++ rest) < 2 ^ 53 ->
  let r := CborReader.of_bytes (written (CborWriter.writeByteString s) ++ rest) in
  fst (CborWriter.writeByteString s CborWriter.new) = Ok tt /\
  CborReader.readByteString r = (Ok s, consume r (zlen (written (CborWriter.writeByteString s))) 1).
Proof.
  intros Hs Hl. eapply round_trip; [by apply string_appends|by apply string_bytes|].
  intros r k Hp Hr. by apply (string_read ByteString s r k).
Qed.

Lemma byteString_round_trip_witness :
  let r := CborReader.of_bytes (written (CborWriter.writeByteString [1; 255]) ++ [9]) in
  fst (CborWriter.writeByteString [1; 255] CborWriter.new) = Ok tt /\
  CborReader.readByteString r = (Ok [1; 255], consume r (zlen (written (CborWriter.writeByteString [1; 255]))) 1).
Proof. apply byteString_round_trip; [prove_bytes|reflexivity|prove_bytes|reflexivity]. Defined.

(** Text strings round trip, through UTF-8, for every well-formed UTF-16 string
    (surrogates only in pairs). *)
Theorem textString_round_trip s rest : well_formed s = true -> zlen (utf8_encode s) < 2 ^ 64 -> bytes rest ->
  zlen (written (CborWriter.writeTextString s) ++ rest) < 2 ^ 53 ->
  let r := CborReader.of_bytes (written (CborWriter.writeTextString s) ++ rest) in
  fst (CborWriter.writeTextString s CborWriter.new) = Ok tt /\
  CborReader.readTextString r = (Ok s, consume r (zlen (written (CborWriter.writeTextString s))) 1).
Proof.
  intros Hs Hl. eapply round_trip; [by apply string_appends|apply string_bytes|].
  - by apply utf8_encode_bytes, well_formed_units.
  - intros r k Hp Hr. unfold CborReader.readTextString.
    rewrite (st_bind_ok _ _ _ _ _ (string_read Utf8String (utf8_encode s) r k ltac:(done) Hl Hr)).
    by rewrite utf8_roundtrip.
Qed.

Lemma textString_round_trip_witness :
  let s := [72; 233; 8364; 55357; 56832] in
  let r := CborReader.of_bytes (written (CborWriter.writeTextString s) ++ []) in
  fst (CborWriter.writeTextString s CborWriter.new) = Ok tt /\
  CborReader.readTextString r = (Ok s, consume r (zlen (written (CborWriter.writeTextString s))) 1).
Proof. apply textString_round_trip; [reflexivity|reflexivity|constructor|reflexivity]. Defined.

(** Reading an integer of arbitrary size, as the deserializers do: the tag
    gives the sign, the byte string the magnitude. *)
Definition bigint_of (tag : Z) (s : list Z) : Z :=
  if tag =? CborTag.NegativeBigNum then - be_decode s - 1 else be_decode s.

(** Integers of any size round trip through [writeBigInteger]: the tag read
    back is 2 or 3 by the sign, and the byte string decodes to the value. *)
Theorem bigInteger_round_trip z rest :
  let s := bignum_bytes (if z <? 0 then - z - 1 else z) in
  let w := written (CborWriter.writeBigInteger z) in
  let r := CborReader.of_bytes (w ++ rest) in
  zlen s < 2 ^ 64 -> bytes rest -> zlen (w ++ rest) < 2 ^ 53 ->
  exists tag, (t ← CborReader.readTag; x ← CborReader.readByteString; mret (t, x)) r =
    (Ok (tag, s), consume r (zlen w) 1) /\ bigint_of tag s = z /\
    (tag = CborTag.NegativeBigNum <-> z < 0).
Proof.
  intros s w r Hs Hrest Hz. subst w r. rewrite writeBigInteger_eq in *. fold s in Hz |- *.
  set (tag := if z <? 0 then CborTag.NegativeBigNum else CborTag.UnsignedBigNum) in *.
  assert (Ht : 0 <= tag < 24) by (subst tag; by case_bool).
  exists tag. split.
  - eapply (round_trip (CborWriter.writeTag tag ;; CborWriter.writeByteString s)); [| | |done|done].
    + apply appends_bind; [apply writeTypeValue_head; lia|by apply string_appends].
    + apply Forall_app. split; [apply head_bytes; lia|apply string_bytes, bignum_bytes_bytes].
    + intros r k Hp Hr. apply (tagged_read _ _ _ _ r k); [apply writer_head; lia|lia| |done|done].
      intros r' Hr'. by apply (string_read ByteString s r' k).
  - subst tag s. unfold bigint_of. destruct (Z.ltb_spec z 0); cbn [Z.eqb Pos.eqb CborTag.NegativeBigNum CborTag.UnsignedBigNum];
      rewrite bignum_bytes_decode by lia; split; [lia|done|done|split; [done|lia]].
Qed.

Lemma bigInteger_round_trip_witness :
  exists tag, (t ← CborReader.readTag; x ← CborReader.readByteString; mret (t, x))
      (CborReader.of_bytes (written (CborWriter.writeBigInteger (- 2 ^ 80)) ++ [5])) =
    (Ok (tag, bignum_bytes (2 ^ 80 - 1)),
     consume (CborReader.of_bytes (written (CborWriter.writeBigInteger (- 2 ^ 80)) ++ [5]))
       (zlen (written (CborWriter.writeBigInteger (- 2 ^ 80)))) 1) /\
    bigint_of tag (bignum_bytes (2 ^ 80 - 1)) = (- 2 ^ 80) /\ (tag = CborTag.NegativeBigNum <-> (- 2 ^ 80) < 0).
Proof. apply (bigInteger_round_trip (- 2 ^ 80) [5]); [reflexivity|prove_bytes|reflexivity]. Defined.

(** C40. The head the writer emits is a shortest one: no other head of the
    grammar for the same major type and argument has fewer bytes. *)
Theorem writer_heads_are_shortest t v h : is_head t v h ->
  written (CborWriter.writeTypeValue t v) = CborWriter.head t v /\
  is_head t v (CborWriter.head t v) /\ zlen (CborWriter.head t v) <= zlen h.
Proof.
  intros Hh. pose proof (is_head_arg _ _ _ Hh).
  split_and!; [by apply written_appends, writeTypeValue_head|by apply writer_head|].
  unfold CborWriter.head. cbv zeta. destruct Hh; repeat case_bool; zb; zlen_simpl; lia.
Qed.

Lemma writer_heads_are_shortest_witness :
  written (CborWriter.writeTypeValue Array 300) = CborWriter.head Array 300 /\
  is_head Array 300 (CborWriter.head Array 300) /\
  zlen (CborWriter.head Array 300) <= zlen ((4 * 32 + 27) :: be_encode 8 300).
Proof. apply writer_heads_are_shortest. apply (head_8 Array 300). lia. Defined.

Lemma pushUInt_overflow n v w : 256 ^ Z.of_nat n <= v -> CborWriter.pushUInt n v w = (Throw ERR_OUT_OF_RANGE, w).
Proof.
  intros Hv. unfold CborWriter.pushUInt. by rewrite (proj2 (Z.ltb_ge v _)), andb_false_r by done.
Qed.

(** An argument of 2^64 or more is refused with Node's range error, but only
    after the initial byte of the head has been appended: the buffer is left
    with a dangling byte. *)
Theorem writeTypeValue_overflow t v w : 2 ^ 64 <= v ->
  CborWriter.writeTypeValue t v w =
  (Throw ERR_OUT_OF_RANGE, {| CborWriter.buffer := CborWriter.buffer w ++ [majorType_num t * 32 + 27] |}).
Proof.
  intros Hv. unfold CborWriter.writeTypeValue. cbv zeta.
  rewrite !(proj2 (Z.ltb_ge _ _)) by lia.
  rewrite (st_bind_ok _ _ _ _ _ (appends_initial t CborWriter.EIGHT ltac:(unfold CborWriter.EIGHT; lia) w)).
  assert (4294967296 <= v / 4294967296) as Hq by (apply Z.div_le_lower_bound; lia).
  assert (Hn : 4294967296 <= Number_of (v / 4294967296)).
  { destruct (Z.lt_ge_cases (v / 4294967296) (2 ^ 53)) as [|Hl]; [rewrite Number_of_exact; lia|].
    apply Number_of_large in Hl. lia. }
  by rewrite (st_bind_throw _ _ _ _ _ (pushUInt_overflow 4 (Number_of (v / 4294967296)) _ Hn)).
Qed.

Lemma writeTypeValue_overflow_witness :
  CborWriter.writeTypeValue UnsignedInteger (2 ^ 64) CborWriter.new =
  (Throw ERR_OUT_OF_RANGE, {| CborWriter.buffer := [] ++ [0 * 32 + 27] |}).
Proof. apply (writeTypeValue_overflow UnsignedInteger). lia. Defined.

(** The hexadecimal hand-over is lossless: a reader built from [encodeAsHex]
    sees the writer's bytes. *)
Theorem encodeAsHex_round_trip w : bytes (CborWriter.buffer w) ->
  CborReader.new (CborWriter.encodeAsHex w) = CborReader.of_bytes (CborWriter.encode w).
Proof. intros Hb. unfold CborReader.new, CborWriter.encodeAsHex. by rewrite Buffer_hex_roundtrip. Qed.

Lemma encodeAsHex_round_trip_witness :
  CborReader.new (CborWriter.encodeAsHex {| CborWriter.buffer := [0; 171; 255] |}) =
  CborReader.of_bytes [0; 171; 255].
Proof. apply (encodeAsHex_round_trip {| CborWriter.buffer := [0; 171; 255] |}). prove_bytes. Defined.

(** ** Where the code departs from what it says *)

(** The double nearest to one tenth, and 1 + 2^-40. *)
Definition one_tenth : number := S754_finite false 7205759403792794 (-56).
Definition one_and_a_bit : number := S754_finite false 4503599627374592 (-52).

(** A double that is neither a half nor a single is announced as 64-bit, but
    only its 32-bit encoding is written, followed by four bytes of
    uninitialised memory; with zeroed memory one tenth comes back as another
    number. *)
Theorem writeFloat_double_is_corrupted :
  (forall garbage, written (CborWriter.writeFloat garbage one_tenth) = 251 :: writeFloatBE one_tenth ++ garbage) /\
  exists v r, CborReader.readDouble (CborReader.of_bytes (written (CborWriter.writeFloat [0; 0; 0; 0] one_tenth))) =
    (Ok v, r) /\ num_eqb v one_tenth = false.
Proof.
  split; [done|]. eexists _, _. split; [vm_compute; reflexivity|reflexivity].
Qed.

(** The fallback on a loss of precision is not taken when rounding to single
    precision already lost it: 1 + 2^-40 is written as the half 1.0. *)
Theorem writeFloat_silently_rounds : forall garbage,
  written (CborWriter.writeFloat garbage one_and_a_bit) = [249; 60; 0] /\
  exists v r, CborReader.readDouble (CborReader.of_bytes (written (CborWriter.writeFloat garbage one_and_a_bit))) =
    (Ok v, r) /\ num_eqb v one_and_a_bit = false.
Proof.
  intros garbage. assert (written (CborWriter.writeFloat garbage one_and_a_bit) = [249; 60; 0]) as -> by done.
  split; [done|]. eexists _, _. split; [vm_compute; reflexivity|reflexivity].
Qed.

(** [skipValue] called at the end of an indefinite-length byte string leaves
    the string, where at the end of a text string, array or map it refuses and
    changes nothing. *)
Theorem skipValue_leaves_byte_strings :
  let bytes_end := snd (CborReader.readStartIndefiniteLengthByteString (CborReader.of_bytes [95; 255; 1])) in
  let text_end := snd (CborReader.readStartIndefiniteLengthTextString (CborReader.of_bytes [127; 255; 1])) in
  let array_end := snd (CborReader.readStartArray (CborReader.of_bytes [128; 1])) in
  (exists r, CborReader.skipValue bytes_end = (Ok tt, r) /\ CborReader.nestedItems r = []) /\
  (exists e, CborReader.skipValue text_end = (Throw e, text_end)) /\
  (exists e, CborReader.skipValue array_end = (Throw e, array_end)).
Proof.
  split_and!; [eexists; split; [vm_compute; reflexivity|reflexivity]| |];
    eexists; vm_compute; reflexivity.
Qed.
