(* ===== verification/SlotCalc.v ===== *)
(** * Slots, epochs and dates
    Models [packages/core/src/util/slotCalc.ts]: the conversions between slots,
    epochs and dates that the summaries of the eras of a chain determine.
    Slots, epochs and milliseconds are [number]s that hold integers below 2^53,
    where [Math.floor] of a quotient of doubles is the integer division.  lodash
    is a parameter with its documented behaviour. *)
From S2P Require Import Prelude JsRuntime.

(** What these functions throw. *)
Inductive SlotError : Set := EraSummaryError (message : string) | TypeError (message : string) | ProviderError (message : string).
#[export] Instance SlotError_eq_dec : EqDecision SlotError.
Proof. solve_decision. Defined.
Abbreviation SlotRes := (outcome SlotError).

(** [EraSummary], its [parameters] and its [start]; the time of a [Date] in
    milliseconds. *)
Record EraSummary : Set := { epochLength : positive; slotLength : Z; startSlot : Z; startTime : Z }.
#[export] Instance EraSummary_eq_dec : EqDecision EraSummary.
Proof. solve_decision. Defined.

(** ** lodash *)

(** [Object.values(groupBy(eras, 'start.slot'))], [orderBy] by the slot in the
    two directions. *)
Class EraLodash := {
  groupBySlot : list EraSummary -> list (list EraSummary);
  orderBySlot : list EraSummary -> list EraSummary;
  orderBySlotDesc : list EraSummary -> list EraSummary
}.

Class EraLodashLaws `{EraLodash} : Prop := {
  groupBySlot_groups l : exists ks, NoDup ks /\ (forall k, k ∈ ks <-> k ∈ startSlot <$> l) /\
    groupBySlot l = (fun k => filter (fun e => startSlot e = k) l) <$> ks;
  orderBySlot_perm l : orderBySlot l ≡ₚ l;
  orderBySlot_sorted l : StronglySorted (fun x y => startSlot x <= startSlot y) (orderBySlot l);
  orderBySlotDesc_perm l : orderBySlotDesc l ≡ₚ l;
  orderBySlotDesc_sorted l : StronglySorted (fun x y => startSlot y <= startSlot x) (orderBySlotDesc l)
}.

(** The cache of a function made by [memoize]: a map from the first argument
    to the result. *)
Class MemoizeCache (K V : Type) := {
  cache : Type;
  emptyCache : cache;
  cached : cache -> K -> option V;
  store : cache -> K -> V -> cache
}.

Class MemoizeCacheLaws {K V : Type} `{EqDecision K} {MC : MemoizeCache K V} : Prop := {
  cached_empty k : cached emptyCache k = None;
  cached_store c k v k' : cached (store c k v) k' = if decide (k = k') then Some v else cached c k'
}.

(** A call: the cached result of the key, or a new one, which is kept unless
    the function throws. *)
Definition memoizedCall {K V : Type} `{MemoizeCache K V} (key : K) (compute : SlotRes V) (c : cache) : SlotRes V * cache :=
  match cached c key with
  | Some v => (Ok v, c)
  | None => match compute with Ok v => (Ok v, store c key v) | Throw e => (Throw e, c) | OutOfFuel => (OutOfFuel, c) end
  end.

(** ** Dates *)

(** [new Date(milliseconds)]: nothing stands for an invalid date. *)
Definition Date_of (milliseconds : Z) : option Z :=
  if Z.abs milliseconds <=? 8640000000000000 then Some milliseconds else None.

Record SlotDate : Set := { slot : Z; date : option Z }.
Record EpochInfo : Set := { epochNo : Z; firstSlot : SlotDate; lastSlot : SlotDate }.

Definition noEraSummary {A} (slotNo : Z) : SlotRes A :=
  Throw (EraSummaryError ("No EraSummary for slot " +:+ pretty slotNo +:+ " found")).

(** ** From slots to epochs *)

Section eras.
Context `{EraLodash}.

(** The last of the eras that start in the same slot. *)
Definition withoutSkippedEras (eraSummaries : list EraSummary) : list EraSummary :=
  omap last (groupBySlot eraSummaries).

(** The loop over the relevant eras: the epochs so far and the current era. *)
Fixpoint epochLoop (slotNo : Z) (relevant : list EraSummary) (epochs : Z) (current : option EraSummary) :
    Z * option EraSummary :=
  match relevant with
  | [] => (epochs, current)
  | currentEraSummary :: rest =>
      let upper :=
        match head rest with
        | Some next => if startSlot next =? 0 then slotNo else startSlot next
        | None => slotNo
        end in
      epochLoop slotNo rest
        (epochs + (upper - startSlot currentEraSummary) / Z.pos (epochLength currentEraSummary))
        (Some currentEraSummary)
  end.

Definition createSlotEpochCalcImpl (eraSummaries : list EraSummary) (slotNo : Z) : SlotRes (Z * EraSummary) :=
  let eraSummariesAsc := orderBySlot (withoutSkippedEras eraSummaries) in
  let relevant := orderBySlot (filter (fun e => startSlot e <= slotNo) eraSummariesAsc) in
  match epochLoop slotNo relevant 0 None with
  | (_, None) => noEraSummary slotNo
  | (epochs, Some epochEraSummary) => Ok (epochs, epochEraSummary)
  end.

(** The cache of [memoize] answers the same function for the same array. *)
Definition createSlotEpochCalc (eraSummaries : list EraSummary) (slotNo : Z) : SlotRes Z :=
  '(epochs, _) ← createSlotEpochCalcImpl eraSummaries slotNo; Ok epochs.

(** ** From slots to dates *)

Fixpoint find_era (slotNo : Z) (eras : list EraSummary) : option EraSummary :=
  match eras with
  | [] => None
  | e :: rest => if startSlot e <=? slotNo then Some e else find_era slotNo rest
  end.

Definition createSlotTimeCalc (eraSummaries : list EraSummary) (slotNo : Z) : SlotRes (option Z) :=
  let eraSummariesDesc := orderBySlotDesc (withoutSkippedEras eraSummaries) in
  match find_era slotNo eraSummariesDesc with
  | None => noEraSummary slotNo
  | Some activeEraSummary =>
      Ok (Date_of (startTime activeEraSummary + (slotNo - startSlot activeEraSummary) * slotLength activeEraSummary))
  end.

Definition createSlotEpochInfoCalc (eraSummaries : list EraSummary) (slotNo : Z) : SlotRes EpochInfo :=
  '(epochs, epochEraSummary) ← createSlotEpochCalcImpl eraSummaries slotNo;
  let length := Z.pos (epochLength epochEraSummary) in
  let first := startSlot epochEraSummary + (slotNo - startSlot epochEraSummary) / length * length in
  let last := first + length - 1 in
  firstDate ← createSlotTimeCalc eraSummaries first;
  lastDate ← createSlotTimeCalc eraSummaries last;
  Ok {| epochNo := epochs; firstSlot := {| slot := first; date := firstDate |}; lastSlot := {| slot := last; date := lastDate |} |}.
End eras.

(** ** From epochs to slots *)

Record EpochSlots : Set := { eraSummary : EraSummary; epochFirstSlot : Z; epochLastSlot : Z }.
#[export] Instance EpochSlots_eq_dec : EqDecision EpochSlots.
Proof. solve_decision. Defined.

(** Whether the next era has begun. *)
Definition checkNextEraSummary (eraSummaries : list EraSummary) (eraSummaryIdx : nat) (atSlot : Z) : bool :=
  match eraSummaries !! S eraSummaryIdx with Some next => startSlot next <=? atSlot | None => false end.

Fixpoint findNextEraSummary (fuel : nat) (eraSummaries : list EraSummary) (eraSummaryIdx : nat) (atSlot : Z) : SlotRes nat :=
  if checkNextEraSummary eraSummaries eraSummaryIdx atSlot then
    match fuel with O => OutOfFuel | S fuel' => findNextEraSummary fuel' eraSummaries (S eraSummaryIdx) atSlot end
  else Ok eraSummaryIdx.

(** [eraSummaries[i]], of which a property is read. *)
Definition eraAt (eraSummaries : list EraSummary) (i : nat) : SlotRes EraSummary :=
  match eraSummaries !! i with Some e => Ok e | None => Throw (TypeError "Cannot read properties of undefined") end.

(** [while (atEpoch !== epochNo)]: the era and the first slot of the epoch. *)
Fixpoint epochSlotsLoop (fuel : nat) (eraSummaries : list EraSummary) (epoch atEpoch : Z) (eraSummaryIdx : nat) (atSlot : Z) :
    SlotRes (nat * Z) :=
  if atEpoch =? epoch then Ok (eraSummaryIdx, atSlot)
  else
    match fuel with
    | O => OutOfFuel
    | S fuel' =>
        era ← eraAt eraSummaries eraSummaryIdx;
        let atSlot := atSlot + Z.pos (epochLength era) in
        eraSummaryIdx ← (if checkNextEraSummary eraSummaries eraSummaryIdx atSlot
                         then findNextEraSummary (length eraSummaries) eraSummaries eraSummaryIdx atSlot
                         else Ok eraSummaryIdx);
        epochSlotsLoop fuel' eraSummaries epoch (atEpoch + 1) eraSummaryIdx atSlot
    end.

(** One step per epoch. *)
Definition epochFuel (epoch : Z) : nat := Z.to_nat epoch.

Definition epochSlotsCalcImplementation (epoch : Z) (eraSummaries : list EraSummary) : SlotRes EpochSlots :=
  first ← eraAt eraSummaries 0;
  eraSummaryIdx ← findNextEraSummary (length eraSummaries) eraSummaries 0 (startSlot first);
  '(eraSummaryIdx, atSlot) ← epochSlotsLoop (epochFuel epoch) eraSummaries epoch 0 eraSummaryIdx (startSlot first);
  era ← eraAt eraSummaries eraSummaryIdx;
  Ok {| eraSummary := era; epochFirstSlot := atSlot; epochLastSlot := atSlot + Z.pos (epochLength era) - 1 |}.

(** The cache of [memoize] is keyed by the first argument, the epoch. *)
Definition epochSlotsCalc `{MemoizeCache Z EpochSlots} (epoch : Z) (eraSummaries : list EraSummary) (c : cache) :
    SlotRes EpochSlots * cache :=
  memoizedCall epoch (epochSlotsCalcImplementation epoch eraSummaries) c.

(** The function of a provider, which answers its [n]th request; what is kept
    in the cache are promises, rejected ones included. *)
Definition epochSlotsCalcFactory `{MemoizeCache Z (SlotRes EpochSlots)} (eraSummariesOf : nat -> SlotRes (list EraSummary))
    (epoch : Z) (s : nat * cache) : SlotRes EpochSlots * (nat * cache) :=
  let '(n, c) := s in
  let promise := (eraSummaries ← eraSummariesOf n; epochSlotsCalcImplementation epoch eraSummaries) in
  match memoizedCall epoch (Ok promise) c with
  | (Ok p, c') => (p, (match cached c epoch with Some _ => n | None => S n end, c'))
  | (Throw e, c') => (Throw e, (n, c'))
  | (OutOfFuel, c') => (OutOfFuel, (n, c'))
  end.
