(* ===== verification/SlotTheorems.v ===== *)
(** * Theorems on slots and epochs
    Every epoch is an interval of slots, and the two directions of
    [packages/core/src/util/slotCalc.ts] agree on it; dates grow with slots; and
    what the caches of [memoize] do to the answers. *)
From Stdlib Require Import Sorted.
From S2P Require Import Prelude JsRuntime SlotCalc.

(** ** Facts on slots and epochs
    The epoch of a slot in a chain of eras as one function, what the code
    computes in terms of it, and the walk over the epochs. *)

(** An era starts where an epoch of the era before it ends; an era that is
    skipped starts where the next one does. *)
Definition follows (e e' : EraSummary) : Prop :=
  startSlot e <= startSlot e' /\ (startSlot e' - startSlot e) mod Z.pos (epochLength e) = 0.

(** The eras of a chain, in order. *)
Definition eras_ok (eras : list EraSummary) : Prop :=
  Sorted follows eras /\ match head eras with Some e => 0 <= startSlot e | None => False end.

#[export] Instance follows_dec e e' : Decision (follows e e').
Proof. unfold follows. apply _. Defined.

(** The slot of the first era. *)
Definition chainStart (eras : list EraSummary) : Z := match head eras with Some e => startSlot e | None => 0 end.

(** The number of whole epochs before a slot. *)
Fixpoint epochOf (eras : list EraSummary) (s : Z) : Z :=
  match eras with
  | [] => 0
  | e :: rest =>
      match head rest with
      | Some next =>
          if startSlot next <=? s then (startSlot next - startSlot e) / Z.pos (epochLength e) + epochOf rest s
          else (s - startSlot e) / Z.pos (epochLength e)
      | None => (s - startSlot e) / Z.pos (epochLength e)
      end
  end.

(** The era of a slot: the last that has begun. *)
Definition eraOf (eras : list EraSummary) (s : Z) : option EraSummary := last (filter (fun e => startSlot e <= s) eras).

(** Without the eras that are skipped. *)
Fixpoint compact (eras : list EraSummary) : list EraSummary :=
  match eras with
  | [] => []
  | e :: rest =>
      match head rest with
      | Some next => if startSlot next =? startSlot e then compact rest else e :: compact rest
      | None => [e]
      end
  end.

(** ** Chains *)

Lemma Sorted_inv_cons {A} (R : A -> A -> Prop) x l : Sorted R (x :: l) -> Sorted R l.
Proof. by inversion 1. Qed.

Lemma chain_le x l : Sorted follows (x :: l) -> Forall (fun e => startSlot x <= startSlot e) l.
Proof.
  intros Hs. revert x Hs. induction l as [|y l IH]; intros x Hs; [constructor|].
  inversion Hs as [|? ? Hl Hh]; subst. inversion Hh as [|? ? [Hle _]]; subst. constructor; [done|].
  eapply Forall_impl; [by apply IH|]. intros; cbn in *; lia.
Qed.

Lemma head_compact l : (head l = None <-> head (compact l) = None) /\
  forall e e', head l = Some e -> head (compact l) = Some e' -> startSlot e = startSlot e'.
Proof.
  induction l as [|x l [IHn IH]]; [done|]. cbn. destruct l as [|y l]; cbn [head].
  { split; [done|]. by intros e e' [= <-] [= <-]. }
  destruct (Z.eqb_spec (startSlot y) (startSlot x)) as [E|E].
  - split. { split; [done|]. intros Hc. apply IHn in Hc. done. }
    intros e e' [= <-] He'. rewrite <- E. by apply IH.
  - split; [done|]. by intros e e' [= <-] [= <-].
Qed.

Lemma compact_incl x l : x ∈ compact l -> x ∈ l.
Proof.
  induction l as [|y l IH]; [done|]. cbn. destruct l as [|z l]; cbn [head]; [done|].
  case_bool; [intros; right; auto|]. intros [->|Hx]%elem_of_cons; [left|right; auto].
Qed.

Lemma compact_sorted l : Sorted follows l -> StronglySorted (fun x y => startSlot x < startSlot y) (compact l).
Proof.
  induction l as [|x l IH]; intros Hs; [constructor|]. cbn. destruct l as [|y l]; cbn [head]; [repeat constructor|].
  pose proof (Sorted_inv_cons _ _ _ Hs) as Hl. destruct (Z.eqb_spec (startSlot y) (startSlot x)) as [E|E]; [by apply IH|].
  constructor; [by apply IH|]. apply Forall_forall. intros z Hz%compact_incl.
  pose proof (chain_le _ _ Hs) as Hx. apply Forall_cons in Hx as [Hxy _].
  apply elem_of_cons in Hz as [->|Hz]; [lia|]. pose proof (chain_le _ _ Hl) as Hy. rewrite Forall_forall in Hy.
  specialize (Hy z Hz). cbn in *. lia.
Qed.

(** Every slot in which an era begins is kept with its last era. *)
Lemma compact_last l (P : Z -> Prop) `{!forall k, Decision (P k)} :
  last (filter (fun e => P (startSlot e)) (compact l)) = last (filter (fun e => P (startSlot e)) l).
Proof.
  induction l as [|x l IH]; [done|]. cbn [compact]. destruct l as [|y l]; cbn [head]; [done|].
  destruct (Z.eqb_spec (startSlot y) (startSlot x)) as [E|E].
  - rewrite IH, (filter_cons _ x). case_decide as Hx; [|done]. rewrite filter_cons, decide_True by by rewrite E. done.
  - rewrite !(filter_cons _ x). case_decide as Hx; [|done]. rewrite !last_cons, IH. done.
Qed.

Lemma eraOf_compact l s : eraOf (compact l) s = eraOf l s.
Proof. exact (compact_last l (fun k => k <= s)). Qed.

Lemma compact_elem l x : Sorted follows l -> x ∈ compact l <-> last (filter (fun e => startSlot e = startSlot x) l) = Some x.
Proof.
  intros Hs. pose proof (compact_last l (fun k => k = startSlot x)) as E. cbn beta in E. rewrite <- E.
  pose proof (compact_sorted l Hs) as Hc. clear E Hs. split.
  - revert Hc. generalize (compact l). intros c. induction 1 as [|y c Hc IH Hy]; [by intros ?%not_elem_of_nil|].
    intros [->|Hx]%elem_of_cons.
    + rewrite filter_cons, decide_True by done. enough (filter (fun e => startSlot e = startSlot y) c = []) as -> by done.
      apply elem_of_nil_inv. intros z [Hz Hl]%list_elem_of_filter. rewrite Forall_forall in Hy. specialize (Hy z Hl). cbn in Hy. lia.
    + rewrite filter_cons. case_decide; [|by apply IH]. rewrite last_cons, IH by done. done.
  - intros Hl%last_Some_elem_of. by apply list_elem_of_filter in Hl as [_ Hl].
Qed.

(** ** The epoch of a slot *)

Lemma epochOf_compact l s : Sorted follows l -> chainStart l <= s -> epochOf (compact l) s = epochOf l s.
Proof.
  induction l as [|x l IH]; intros Hs Hst; [done|]. specialize (IH (Sorted_inv_cons _ _ _ Hs)). cbn [compact epochOf].
  destruct l as [|y l]; [done|]. cbn [head]. cbn [chainStart head] in *.
  destruct (Z.eqb_spec (startSlot y) (startSlot x)) as [E|E].
  - rewrite E, Z.sub_diag, Z.div_0_l by lia. case_bool; zb; [|lia]. apply IH. cbn. lia.
  - cbn [epochOf]. destruct (head_compact (y :: l)) as [Hn Hh]. destruct (head (compact (y :: l))) as [z|] eqn:Ez.
    + rewrite <- (Hh y z) by done. case_bool; zb; [|done]. rewrite IH; [done|]. cbn. lia.
    + by pose proof (proj2 Hn eq_refl).
Qed.

Lemma epochOf_start l : Sorted follows l -> epochOf l (chainStart l) = 0.
Proof.
  induction l as [|x l IH]; intros Hs; [done|]. specialize (IH (Sorted_inv_cons _ _ _ Hs)). cbn. destruct l as [|y l]; cbn [head].
  { by rewrite Z.sub_diag. }
  cbn in IH |- *. case_bool; zb; [|by rewrite Z.sub_diag]. pose proof (chain_le _ _ Hs) as Hc. apply Forall_cons in Hc as [Hxy _].
  assert (startSlot x = startSlot y) as Hx by lia. rewrite Hx, IH, Z.sub_diag. done.
Qed.

(** Within an era, the end included, epochs are counted from its start. *)
Lemma epochOf_era l i e s : Sorted follows l -> l !! i = Some e -> startSlot e <= s ->
  (forall next, l !! S i = Some next -> s <= startSlot next) ->
  epochOf l s = epochOf l (startSlot e) + (s - startSlot e) / Z.pos (epochLength e).
Proof.
  revert i. induction l as [|x l IH]; intros i Hs Hi Hle Hnext; [done|]. pose proof (Sorted_inv_cons _ _ _ Hs) as Hl.
  destruct i as [|i].
  - injection Hi as ->. pose proof (epochOf_start _ Hs) as H0. cbn [chainStart head] in H0. rewrite H0. cbn [epochOf].
    destruct l as [|y l]; cbn [head]; [done|]. specialize (Hnext y eq_refl). case_bool; [|done]. zb.
    assert (s = startSlot y) as -> by lia. pose proof (epochOf_start _ Hl) as H1. cbn [chainStart head] in H1. rewrite H1. lia.
  - cbn in Hi, Hnext. cbn [epochOf]. destruct l as [|y l]; [done|]. cbn [head].
    assert (Hye : startSlot y <= startSlot e).
    { destruct i as [|i]; [by injection Hi as ->; lia|]. pose proof (chain_le _ _ Hl) as Hy. rewrite Forall_forall in Hy.
      apply Hy. cbn in Hi. by apply list_elem_of_lookup_2 in Hi. }
    rewrite !(proj2 (Z.leb_le _ _)) by lia. rewrite (IH i) by done. lia.
Qed.

Lemma epochOf_nonneg l s : Sorted follows l -> chainStart l <= s -> 0 <= epochOf l s.
Proof.
  induction l as [|x l IH]; intros Hs Hst; [done|]. specialize (IH (Sorted_inv_cons _ _ _ Hs)). cbn [chainStart head] in *.
  pose proof (chain_le _ _ Hs) as Hc. cbn [epochOf]. destruct l as [|y l]; cbn [head] in *; [apply Z.div_pos; lia|].
  apply Forall_cons in Hc as [Hxy _]. case_bool; zb; [|apply Z.div_pos; lia].
  pose proof (Z.div_pos (startSlot y - startSlot x) (Z.pos (epochLength x))). specialize (IH ltac:(assumption)). lia.
Qed.

Lemma epochOf_mono l s s' : Sorted follows l -> chainStart l <= s -> s <= s' -> epochOf l s <= epochOf l s'.
Proof.
  induction l as [|x l IH]; intros Hs Hst Hle; [done|]. pose proof (Sorted_inv_cons _ _ _ Hs) as Hl. cbn [chainStart head] in Hst.
  cbn [epochOf]. destruct l as [|y l]; cbn [head]; [apply Z.div_le_mono; lia|].
  destruct (Z.leb_spec (startSlot y) s) as [H1|H1]; destruct (Z.leb_spec (startSlot y) s') as [H2|H2]; [|lia| |apply Z.div_le_mono; lia].
  - specialize (IH Hl H1 Hle). lia.
  - pose proof (epochOf_nonneg (y :: l) s' Hl H2).
    pose proof (Z.div_le_mono (s - startSlot x) (startSlot y - startSlot x) (Z.pos (epochLength x))). lia.
Qed.

(** ** What the code computes *)

Section calc.
Context {EL : EraLodash} {ELaws : EraLodashLaws}.

(** Two lists in strict order with the same elements are the same. *)
Lemma sorted_same l l' : StronglySorted (fun x y => startSlot x <= startSlot y) l ->
  StronglySorted (fun x y => startSlot x < startSlot y) l' -> l ≡ₚ l' -> l = l'.
Proof.
  intros Hl Hl' Hp. apply (StronglySorted_unique_strong (fun x y => startSlot x <= startSlot y)); [|done| |done].
  - intros x y Hx Hy Hxy Hyx. rewrite Hp in Hx. clear Hl Hp. induction Hl' as [|z l' Hs IH Hz]; [by apply not_elem_of_nil in Hx|].
    rewrite Forall_forall in Hz. apply elem_of_cons in Hx as [->|Hx]; apply elem_of_cons in Hy as [->|Hy]; [done| | |by apply IH].
    + specialize (Hz _ Hy). cbn in Hz. lia.
    + specialize (Hz _ Hx). cbn in Hz. lia.
  - clear Hl Hp. induction Hl' as [|x l' Hs IH Hx]; constructor; [done|]. eapply Forall_impl; [exact Hx|]. intros y; cbn; lia.
Qed.

Lemma strictly_sorted_NoDup l : StronglySorted (fun x y => startSlot x < startSlot y) l -> NoDup l.
Proof.
  induction 1 as [|x l Hs IH Hx]; [constructor|]. apply NoDup_cons. split; [|done].
  intros Hin. rewrite Forall_forall in Hx. specialize (Hx x Hin). cbn in Hx. lia.
Qed.

Lemma withoutSkippedEras_compact eras : Sorted follows eras -> withoutSkippedEras eras ≡ₚ compact eras.
Proof.
  intros Hs. unfold withoutSkippedEras. destruct (groupBySlot_groups eras) as (ks & Hd & Hks & ->).
  apply NoDup_Permutation; [| by apply strictly_sorted_NoDup, compact_sorted|].
  - clear Hks. induction Hd as [|k ks Hk Hd IH]; [constructor|]. cbn. destruct (last _) as [x|] eqn:Ex; [|done].
    apply NoDup_cons. split; [|done]. intros (g & [k' [-> Hk']]%list_elem_of_fmap & Hg)%list_elem_of_omap.
    apply last_Some_elem_of, list_elem_of_filter in Ex as [Ex _]. apply last_Some_elem_of, list_elem_of_filter in Hg as [Hg _].
    congruence.
  - intros x. rewrite compact_elem, list_elem_of_omap by done. split.
    + intros (g & [k' [-> Hk']]%list_elem_of_fmap & Hg). pose proof Hg as Hx.
      apply last_Some_elem_of, list_elem_of_filter in Hx as [-> _]. done.
    + intros Hx. eexists. split; [|exact Hx]. apply list_elem_of_fmap. eexists. split; [done|]. apply Hks.
      apply last_Some_elem_of, list_elem_of_filter in Hx as [_ Hx]. by apply list_elem_of_fmap_2.
Qed.

Lemma ordered_eras eras : Sorted follows eras -> orderBySlot (withoutSkippedEras eras) = compact eras.
Proof.
  intros Hs. apply sorted_same; [apply orderBySlot_sorted|by apply compact_sorted|].
  by rewrite orderBySlot_perm, withoutSkippedEras_compact.
Qed.

Lemma StronglySorted_filter {A} (R : A -> A -> Prop) (P : A -> Prop) `{!forall x, Decision (P x)} l :
  StronglySorted R l -> StronglySorted R (filter P l).
Proof.
  induction 1 as [|x l Hs IH Hx]; [constructor|]. rewrite filter_cons. case_decide; [|done]. constructor; [done|].
  by apply Forall_filter.
Qed.

Lemma ordered_desc eras : Sorted follows eras -> orderBySlotDesc (withoutSkippedEras eras) = reverse (compact eras).
Proof.
  intros Hs. rewrite <- (reverse_involutive (orderBySlotDesc _)). f_equal. apply sorted_same; [|by apply compact_sorted|].
  - pose proof (orderBySlotDesc_sorted (withoutSkippedEras eras)) as Hd.
    induction Hd as [|x l Hd IH Hx]; [constructor|]. rewrite reverse_cons. apply StronglySorted_app_2; [|done|repeat constructor].
    intros y z Hy ->%list_elem_of_singleton. rewrite Forall_forall in Hx. by apply Hx, elem_of_reverse.
  - by rewrite reverse_Permutation, orderBySlotDesc_perm, withoutSkippedEras_compact.
Qed.

(** The loop over eras in strict order that have all begun. *)
Lemma epochLoop_epochOf l s n c : StronglySorted (fun x y => startSlot x < startSlot y) l ->
  Forall (fun e => 0 <= startSlot e <= s) l -> epochLoop s l n c = (n + epochOf l s, match last l with Some e => Some e | None => c end).
Proof.
  intros Hs. revert n c. induction Hs as [|x l Hs IH Hx]; intros n c Hl; [cbn; f_equal; lia|].
  apply Forall_cons in Hl as [Hxs Hl]. cbn [epochLoop]. rewrite IH by done. rewrite last_cons. cbn [epochOf].
  destruct l as [|y l]; cbn [head]; [cbn; f_equal; lia|]. apply Forall_cons in Hx as [Hxy _]. apply Forall_cons in Hl as [Hys _].
  rewrite (proj2 (Z.eqb_neq _ _)), (proj2 (Z.leb_le _ _)) by lia. f_equal; [lia|]. by destruct (last (y :: l)) eqn:E; [|apply last_None in E].
Qed.

Lemma epochOf_begun l s : StronglySorted (fun x y => startSlot x < startSlot y) l -> chainStart l <= s ->
  epochOf (filter (fun e => startSlot e <= s) l) s = epochOf l s.
Proof.
  induction 1 as [|x l Hs IH Hx]; intros Hst; [done|]. cbn [chainStart head] in *. rewrite filter_cons, decide_True by done.
  cbn [epochOf]. destruct l as [|y l]; [done|]. cbn [head chainStart] in *. rewrite filter_cons in *.
  destruct (Z.leb_spec (startSlot y) s) as [Hy|Hy].
  - rewrite decide_True in * by done. cbn [head]. rewrite (proj2 (Z.leb_le _ _)) by done. by rewrite IH.
  - rewrite decide_False by lia. enough (filter (fun e => startSlot e <= s) l = []) as -> by done.
    apply elem_of_nil_inv. intros z [Hz Hl]%list_elem_of_filter. inversion Hs as [|? ? _ Hys]; subst.
    rewrite Forall_forall in Hys. specialize (Hys z Hl). cbn in Hys. lia.
Qed.

Lemma eraOf_begun eras s : eras_ok eras -> chainStart eras <= s -> exists e, eraOf eras s = Some e.
Proof.
  intros [Hs Hh] Hst. unfold eraOf. destruct eras as [|x l]; [done|]. cbn [chainStart head] in *.
  rewrite filter_cons, decide_True by done. rewrite last_cons. destruct (last _); eauto.
Qed.

Lemma eraOf_early eras s : eras_ok eras -> s < chainStart eras -> filter (fun e => startSlot e <= s) eras = [].
Proof.
  intros [Hs Hh] Hst. apply elem_of_nil_inv. intros z [Hz Hl]%list_elem_of_filter. destruct eras as [|x l]; [done|].
  cbn [chainStart head] in *. pose proof (chain_le _ _ Hs) as Hc. rewrite Forall_forall in Hc.
  apply elem_of_cons in Hl as [->|Hl]; [lia|]. specialize (Hc z Hl). cbn in Hc. lia.
Qed.

Lemma chainStart_compact eras : Sorted follows eras -> chainStart (compact eras) = chainStart eras.
Proof.
  intros Hs. destruct (head_compact eras) as [Hn Hh]. unfold chainStart. destruct (head eras) as [x|] eqn:Ex.
  - destruct (head (compact eras)) as [y|] eqn:Ey; [symmetry; by apply Hh|]. by pose proof (proj2 Hn eq_refl).
  - by rewrite (proj1 Hn eq_refl).
Qed.

Lemma eras_nonneg eras : eras_ok eras -> Forall (fun e => 0 <= startSlot e) eras.
Proof.
  intros [Hs Hh]. destruct eras as [|x l]; [constructor|]. cbn in Hh. pose proof (chain_le _ _ Hs) as Hc.
  constructor; [done|]. eapply Forall_impl; [exact Hc|]. intros; cbn in *; lia.
Qed.

(** The epoch and the era of a slot, for a chain given in order. *)
Lemma calc_spec eras s : eras_ok eras -> createSlotEpochCalcImpl eras s =
  match eraOf eras s with Some e => Ok (epochOf eras s, e) | None => noEraSummary s end.
Proof.
  intros Hok. pose proof Hok as [Hs _]. unfold createSlotEpochCalcImpl. rewrite ordered_eras by done.
  pose proof (compact_sorted eras Hs) as Hc.
  assert (orderBySlot (filter (fun e => startSlot e <= s) (compact eras)) = filter (fun e => startSlot e <= s) (compact eras)) as ->.
  { apply sorted_same; [apply orderBySlot_sorted|by apply StronglySorted_filter|by rewrite orderBySlot_perm]. }
  rewrite epochLoop_epochOf; [|by apply StronglySorted_filter|].
  - fold (eraOf (compact eras) s). rewrite eraOf_compact. destruct (eraOf eras s) as [e|] eqn:El; [|done]. rewrite Z.add_0_l. do 2 f_equal.
    destruct (Z.lt_ge_cases s (chainStart eras)) as [Hlt|Hge].
    { unfold eraOf in El. by rewrite (eraOf_early _ _ Hok Hlt) in El. }
    rewrite epochOf_begun; [by apply epochOf_compact|done|by rewrite chainStart_compact].
  - apply Forall_forall. intros e [He Hl%compact_incl]%list_elem_of_filter. pose proof (eras_nonneg _ Hok) as Hn.
    rewrite Forall_forall in Hn. specialize (Hn e Hl). cbn in Hn. lia.
Qed.

Lemma find_era_head l s : find_era s l = head (filter (fun e => startSlot e <= s) l).
Proof.
  induction l as [|x l IH]; [done|]. cbn [find_era]. rewrite filter_cons. destruct (Z.leb_spec (startSlot x) s).
  - by rewrite decide_True.
  - by rewrite decide_False by lia.
Qed.

Lemma time_spec eras s : eras_ok eras -> createSlotTimeCalc eras s =
  match eraOf eras s with Some e => Ok (Date_of (startTime e + (s - startSlot e) * slotLength e)) | None => noEraSummary s end.
Proof.
  intros [Hs _]. unfold createSlotTimeCalc. rewrite ordered_desc by done. rewrite find_era_head, filter_reverse, head_reverse.
  fold (eraOf (compact eras) s). by rewrite eraOf_compact.
Qed.
End calc.

(** ** The walk over the epochs *)

Section walk.
Context (eras : list EraSummary) (Hs : Sorted follows eras).

Lemma eraAt_ok i e : eras !! i = Some e -> eraAt eras i = Ok e.
Proof. unfold eraAt. by intros ->. Qed.

Lemma lookup_le i j e e' : (i <= j)%nat -> eras !! i = Some e -> eras !! j = Some e' -> startSlot e <= startSlot e'.
Proof.
  revert i j. induction eras as [|x l IH]; intros i j Hij Hi Hj; [done|].
  destruct i as [|i].
  - injection Hi as ->. destruct j as [|j]; [injection Hj as ->; lia|].
    pose proof (chain_le _ _ Hs) as Hc. rewrite Forall_forall in Hc. cbn in Hj. by apply Hc, (list_elem_of_lookup_2 _ j).
  - destruct j as [|j]; [lia|]. apply (IH (Sorted_inv_cons _ _ _ Hs) i j); [lia|done..].
Qed.

Lemma lookup_follows i e e' : eras !! i = Some e -> eras !! S i = Some e' -> follows e e'.
Proof.
  revert i. induction eras as [|x l IH]; intros i Hi Hj; [done|]. destruct i as [|i].
  - injection Hi as ->. destruct l as [|y l]; [done|]. injection Hj as ->. inversion Hs as [|? ? _ Hh]; subst. by inversion Hh.
  - cbn in Hi, Hj. by apply (IH (Sorted_inv_cons _ _ _ Hs) i).
Qed.

(** The era with an index is the one of a slot that the next era is after. *)
Lemma eraOf_lookup i e s : eras !! i = Some e -> startSlot e <= s ->
  (forall next, eras !! S i = Some next -> s < startSlot next) -> eraOf eras s = Some e.
Proof.
  intros Hi Hle Hnext. unfold eraOf. rewrite <- (take_drop_middle eras i e Hi), filter_app, last_app.
  rewrite filter_cons, decide_True by done.
  enough (filter (fun e => startSlot e <= s) (drop (S i) eras) = []) as -> by done.
  apply elem_of_nil_inv. intros z [Hz [k Hk]%list_elem_of_lookup]%list_elem_of_filter. rewrite lookup_drop in Hk.
  destruct (eras !! S i) as [next|] eqn:En.
  - specialize (Hnext next eq_refl). pose proof (lookup_le (S i) (S i + k) next z ltac:(lia) En Hk). lia.
  - apply lookup_ge_None in En. apply lookup_lt_Some in Hk. lia.
Qed.

Lemma findNext_spec fuel i e a : (length eras <= fuel + i)%nat -> eras !! i = Some e -> startSlot e <= a ->
  exists j e', findNextEraSummary fuel eras i a = Ok j /\ (i <= j)%nat /\ eras !! j = Some e' /\ startSlot e' <= a /\
    forall next, eras !! S j = Some next -> a < startSlot next.
Proof.
  revert i e. induction fuel as [|fuel IH]; intros i e Hf Hi Hle; cbn [findNextEraSummary]; unfold checkNextEraSummary.
  all: destruct (eras !! S i) as [next|] eqn:En; [|exists i, e; split_and!; [done|lia|done|done|congruence]].
  - apply lookup_lt_Some in En. lia.
  - destruct (Z.leb_spec (startSlot next) a) as [Hn|Hn].
    + destruct (IH (S i) next ltac:(lia) En Hn) as (j & e' & -> & Hj & Hr). exists j, e'. split_and!; [done|lia|apply Hr..].
    + exists i, e. split_and!; [done|lia|done|done|]. rewrite En. by intros ? [= <-].
Qed.

(** The state of the walk: the era with the index is the one of the slot, which
    is the first of the epoch. *)
Definition atEpochStart (i : nat) (a n : Z) : Prop := exists e,
  eras !! i = Some e /\ startSlot e <= a /\ (a - startSlot e) mod Z.pos (epochLength e) = 0 /\
  (forall next, eras !! S i = Some next -> a < startSlot next) /\ epochOf eras a = n /\
  (forall s, chainStart eras <= s -> s < a -> epochOf eras s < n).

(** The epoch lies within its era. *)
Lemma epoch_within i a n e : atEpochStart i a n -> eras !! i = Some e ->
  (forall next, eras !! S i = Some next -> a + Z.pos (epochLength e) <= startSlot next) /\
  (forall s, a <= s < a + Z.pos (epochLength e) -> epochOf eras s = n) /\
  epochOf eras (a + Z.pos (epochLength e)) = n + 1.
Proof.
  intros (e' & Hi & Hle & Hm & Hnext & Hn & _) Hi'. rewrite Hi in Hi'. injection Hi' as <-.
  assert (Hend : forall next, eras !! S i = Some next -> a + Z.pos (epochLength e') <= startSlot next).
  { intros next En. specialize (Hnext next En). destruct (lookup_follows _ _ _ Hi En) as [_ Hf].
    apply Z.mod_divide in Hm as [p Hp]; [|lia]. apply Z.mod_divide in Hf as [q Hq]; [|lia].
    clear - Hp Hq Hnext. revert Hp Hq. generalize (Pos2Z.pos_is_pos (epochLength e')). generalize (Z.pos (epochLength e')). intros L HL Hp Hq.
    assert (p < q) by nia. nia. }
  assert (Ha : epochOf eras a = epochOf eras (startSlot e') + (a - startSlot e') / Z.pos (epochLength e')).
  { apply (epochOf_era _ i); [done..|]. intros next En. specialize (Hnext next En). lia. }
  apply Z.mod_divide in Hm as [p Hp]; [|lia]. rewrite Hp, Z.div_mul in Ha by lia.
  split_and!; [done| |].
  - intros s Hrange. rewrite (epochOf_era _ i e' s); [|done|done|lia|intros next En; specialize (Hend next En); lia].
    replace (s - startSlot e') with (s - a + p * Z.pos (epochLength e')) by lia. rewrite Z.div_add by lia.
    rewrite (Z.div_small (s - a)) by lia. lia.
  - rewrite (epochOf_era _ i e'); [|done|done|lia|exact Hend].
    replace (a + Z.pos (epochLength e') - startSlot e') with ((p + 1) * Z.pos (epochLength e')) by lia.
    rewrite Z.div_mul by lia. lia.
Qed.

(** After a step to the end of the epoch and the search for its era. *)
Lemma next_epoch i a n e j e' : atEpochStart i a n -> eras !! i = Some e -> (i <= j)%nat -> eras !! j = Some e' ->
  startSlot e' <= a + Z.pos (epochLength e) ->
  (forall next, eras !! S j = Some next -> a + Z.pos (epochLength e) < startSlot next) ->
  atEpochStart j (a + Z.pos (epochLength e)) (n + 1).
Proof.
  intros Hinv Hi Hij Hj Hle Hnext. destruct (epoch_within _ _ _ _ Hinv Hi) as (Hend & Hin & Hout).
  destruct Hinv as (e0 & Hi0 & Hle0 & Hm & _ & Hn & Hbefore). rewrite Hi in Hi0. injection Hi0 as <-.
  exists e'. split_and!; [done|done| |done|done|].
  - destruct (decide (i = j)) as [<-|Hne].
    { rewrite Hi in Hj. injection Hj as <-. replace (a + Z.pos (epochLength e) - startSlot e) with (a - startSlot e + 1 * Z.pos (epochLength e)) by lia.
      by rewrite Z.mod_add by lia. }
    destruct (eras !! S i) as [next|] eqn:En; [|apply lookup_ge_None in En; apply lookup_lt_Some in Hj; lia].
    specialize (Hend next eq_refl). pose proof (lookup_le (S i) j next e' ltac:(lia) En Hj).
    assert (a + Z.pos (epochLength e) - startSlot e' = 0) as -> by lia. done.
  - intros s Hst Hlt. destruct (Z.lt_ge_cases s a) as [H|H]; [specialize (Hbefore s Hst H); lia|]. rewrite Hin; lia.
Qed.

Lemma epochSlotsLoop_spec fuel epoch n i a : atEpochStart i a n -> n <= epoch -> epoch - n <= Z.of_nat fuel ->
  exists j a', epochSlotsLoop fuel eras epoch n i a = Ok (j, a') /\ atEpochStart j a' epoch.
Proof.
  revert n i a. induction fuel as [|fuel IH]; intros n i a Hinv Hn Hf; cbn [epochSlotsLoop].
  { rewrite (proj2 (Z.eqb_eq _ _)) by lia. exists i, a. assert (n = epoch) as -> by lia. done. }
  destruct (Z.eqb_spec n epoch) as [->|Hne]; [by exists i, a|].
  pose proof Hinv as (e & Hi & Hle & _). rewrite (eraAt_ok _ _ Hi). cbn [mbind outcome_bind].
  assert (exists j e', (if checkNextEraSummary eras i (a + Z.pos (epochLength e))
      then findNextEraSummary (length eras) eras i (a + Z.pos (epochLength e)) else Ok i) = Ok j /\
      (i <= j)%nat /\ eras !! j = Some e' /\ startSlot e' <= a + Z.pos (epochLength e) /\
      (forall next, eras !! S j = Some next -> a + Z.pos (epochLength e) < startSlot next)) as (j & e' & -> & Hr).
  { destruct (checkNextEraSummary _ _ _) eqn:Ec; [apply (findNext_spec _ _ e); [lia|done|lia]|].
    exists i, e. split_and!; [done|lia|done|lia|]. intros next En. unfold checkNextEraSummary in Ec. rewrite En in Ec. zb. lia. }
  cbn [mbind outcome_bind]. apply IH; [|lia|lia]. destruct Hr as (? & ? & ? & ?). by apply (next_epoch i _ _ _ j e').
Qed.

Lemma epochSlots_spec epoch : eras_ok eras -> 0 <= epoch -> exists sl i,
  epochSlotsCalcImplementation epoch eras = Ok sl /\ atEpochStart i (epochFirstSlot sl) epoch /\
  eras !! i = Some (eraSummary sl) /\ epochLastSlot sl = epochFirstSlot sl + Z.pos (epochLength (eraSummary sl)) - 1.
Proof.
  intros [_ Hh] He. unfold epochSlotsCalcImplementation. destruct (eras !! 0%nat) as [x|] eqn:Ex; [|by destruct eras].
  assert (Hst : chainStart eras = startSlot x) by (destruct eras; [done|by injection Ex as ->]).
  rewrite (eraAt_ok _ _ Ex). cbn [mbind outcome_bind].
  destruct (findNext_spec (length eras) 0 x (startSlot x)) as (j & e & -> & _ & Hj & Hle & Hnext); [lia|done|lia|].
  cbn [mbind outcome_bind].
  destruct (epochSlotsLoop_spec (epochFuel epoch) epoch 0 j (startSlot x)) as (i & a & -> & Hinv); [|done|unfold epochFuel; lia|].
  - exists e. pose proof (lookup_le 0 j x e ltac:(lia) Ex Hj). assert (startSlot x - startSlot e = 0) as Hx by lia.
    split_and!; [done|lia|by rewrite Hx|done|by rewrite <- Hst; apply epochOf_start|lia].
  - cbn [mbind outcome_bind]. pose proof Hinv as (e' & Hi & _). rewrite (eraAt_ok _ _ Hi). cbn [mbind outcome_bind].
    eexists _, i. split_and!; [reflexivity|done|done|done].
Qed.

Lemma first_slot_ge i a n : atEpochStart i a n -> chainStart eras <= a.
Proof.
  intros (e & Hi & Hle & _). unfold chainStart. destruct (eras !! 0%nat) as [x|] eqn:Ex; [|by destruct eras].
  pose proof (lookup_le 0 i x e ltac:(lia) Ex Hi). destruct eras as [|? ?]; [done|]. injection Ex as ->. cbn. lia.
Qed.

Lemma epoch_partition epoch i a e s : atEpochStart i a epoch -> eras !! i = Some e -> chainStart eras <= s ->
  (epochOf eras s = epoch <-> a <= s < a + Z.pos (epochLength e)).
Proof.
  intros Hinv Hi Hst. destruct (epoch_within _ _ _ _ Hinv Hi) as (_ & Hin & Hout).
  pose proof Hinv as (e0 & _ & _ & _ & _ & _ & Hbefore). split; [|apply Hin].
  intros Hs'. destruct (Z.lt_ge_cases s a) as [H|H]; [specialize (Hbefore s Hst H); lia|]. split; [done|].
  destruct (Z.lt_ge_cases s (a + Z.pos (epochLength e))) as [H2|H2]; [done|].
  pose proof (first_slot_ge _ _ _ Hinv). pose proof (epochOf_mono eras (a + Z.pos (epochLength e)) s Hs ltac:(lia) H2). lia.
Qed.
End walk.

(** ** Theorems *)

(** The eras of the preview network, with those that were skipped. *)
Definition previewEraSummaries : list EraSummary :=
  let era length slotLength := {| epochLength := length; slotLength := slotLength; startSlot := 0; startTime := 1666656000000 |} in
  [era 4320%positive 20000; era 86400%positive 1000; era 86400%positive 1000; era 86400%positive 1000; era 86400%positive 1000;
   {| epochLength := 86400; slotLength := 1000; startSlot := 259200; startTime := 1666915200000 |}].

Lemma previewEraSummaries_ok : eras_ok previewEraSummaries.
Proof. split; [|done]. repeat constructor; vm_compute; done. Qed.

(** lodash on lists, for the examples. *)
#[local] Instance slot_le_dec : RelDecision (fun x y => startSlot x <= startSlot y) := fun x y => Z.le_dec _ _.
#[local] Instance slot_ge_dec : RelDecision (fun x y => startSlot y <= startSlot x) := fun x y => Z.le_dec _ _.
#[local] Instance list_lodash : EraLodash := {|
  groupBySlot l := (fun k => filter (fun e => startSlot e = k) l) <$> remove_dups (startSlot <$> l);
  orderBySlot := merge_sort (fun x y => startSlot x <= startSlot y);
  orderBySlotDesc := merge_sort (fun x y => startSlot y <= startSlot x)
|}.

#[local] Instance list_lodash_laws : EraLodashLaws.
Proof.
  split; cbn.
  - intros l. exists (remove_dups (startSlot <$> l)). split_and!; [apply NoDup_remove_dups| |done]. intros k. apply elem_of_remove_dups.
  - intros l. apply merge_sort_Permutation.
  - intros l. apply StronglySorted_merge_sort; [intros x y z; lia|intros x y; lia].
  - intros l. apply merge_sort_Permutation.
  - intros l. apply StronglySorted_merge_sort; [intros x y z; lia|intros x y; lia].
Qed.

Section theorems.
Context {EL : EraLodash} {ELaws : EraLodashLaws}.



(** Before the first slot every function throws. *)
Theorem slots_before_the_chain eras s : eras_ok eras -> s < chainStart eras ->
  createSlotEpochCalc eras s = noEraSummary s /\ createSlotTimeCalc eras s = noEraSummary s /\
  createSlotEpochInfoCalc eras s = noEraSummary s.
Proof.
  intros Hok Hst. unfold createSlotEpochInfoCalc, createSlotEpochCalc. rewrite calc_spec, time_spec by done.
  unfold eraOf. by rewrite (eraOf_early eras s Hok Hst).
Qed.
End theorems.



Example preview_last_block : createSlotTimeCalc previewEraSummaries 36201583 = Ok (Some 1702857583000).
Proof. vm_compute. reflexivity. Qed.

(** ** Dates *)

(** Slots take time, and each era starts when the one before it ends. *)
Definition follows_in_time (e e' : EraSummary) : Prop :=
  0 < slotLength e' /\ startTime e' = startTime e + (startSlot e' - startSlot e) * slotLength e.

Lemma time_after x l e s : Sorted follows (x :: l) -> Sorted follows_in_time (x :: l) -> 0 < slotLength x ->
  eraOf (x :: l) s = Some e -> startSlot x <= s ->
  startTime x <= startTime e + (s - startSlot e) * slotLength e /\ 0 < slotLength e.
Proof.
  revert x. induction l as [|y l IH]; intros x Hs Ht Hx He Hle; unfold eraOf in He; rewrite filter_cons, decide_True in He by done.
  - injection He as <-. nia.
  - rewrite last_cons in He. inversion Ht as [|? ? Hlt Hh]; subst. inversion Hh as [|? ? [Hy Hyt]]; subst.
    inversion Hs as [|? ? Hls Hfh]; subst. inversion Hfh as [|? ? [Hxy _]]; subst.
    destruct (last _) as [e'|] eqn:El; [|injection He as <-; nia]. injection He as <-.
    destruct (Z.lt_ge_cases s (startSlot y)) as [Hsy|Hsy].
    + enough (filter (fun e => startSlot e <= s) (y :: l) = []) as E by by rewrite E in El.
      apply elem_of_nil_inv. intros z [Hz Hin]%list_elem_of_filter. pose proof (chain_le _ _ Hls) as Hc. rewrite Forall_forall in Hc.
      apply elem_of_cons in Hin as [->|Hin]; [lia|]. specialize (Hc z Hin). cbn in Hc. lia.
    + destruct (IH y Hls Hlt Hy El Hsy) as [H1 H2]. split; [nia|done].
Qed.

Lemma time_increases x l e e' s s' : Sorted follows (x :: l) -> Sorted follows_in_time (x :: l) -> 0 < slotLength x ->
  eraOf (x :: l) s = Some e -> eraOf (x :: l) s' = Some e' -> startSlot x <= s -> s < s' ->
  startTime e + (s - startSlot e) * slotLength e < startTime e' + (s' - startSlot e') * slotLength e'.
Proof.
  revert x. induction l as [|y l IH]; intros x Hs Ht Hx He He' Hle Hlt.
  - unfold eraOf in He, He'. rewrite filter_cons, decide_True in He by lia. rewrite filter_cons, decide_True in He' by lia. injection He as <-. injection He' as <-. nia.
  - inversion Ht as [|? ? Hlt' Hh]; subst. inversion Hh as [|? ? [Hy Hyt]]; subst.
    inversion Hs as [|? ? Hls Hfh]; subst. inversion Hfh as [|? ? [Hxy _]]; subst.
    assert (Hrest : forall s e, startSlot y <= s -> eraOf (x :: y :: l) s = Some e -> eraOf (y :: l) s = Some e).
    { intros s0 e0 H0. unfold eraOf. rewrite filter_cons, decide_True, last_cons by lia. rewrite filter_cons, decide_True by done.
      rewrite last_cons. by destruct (last _). }
    assert (Hhere : forall s e, startSlot x <= s < startSlot y -> eraOf (x :: y :: l) s = Some e -> e = x).
    { intros s0 e0 H0 He0. rewrite (eraOf_lookup _ Hs 0 x) in He0; [by injection He0|done|lia|]. intros ? [= <-]. lia. }
    destruct (Z.lt_ge_cases s (startSlot y)) as [H1|H1]; [|apply (IH y); try done; [by apply Hrest|apply Hrest; [lia|done]]].
    apply Hhere in He as ->; [|lia]. destruct (Z.lt_ge_cases s' (startSlot y)) as [H2|H2]; [apply Hhere in He' as ->; [nia|lia]|].
    destruct (time_after y l e' s' Hls Hlt' Hy (Hrest _ _ H2 He') H2) as [H3 _]. nia.
Qed.

(** C33. Where the eras follow each other in time and no slot is instantaneous,
    a later slot has a later date. *)
Theorem slot_times_increase `{EL : EraLodash} {ELaws : EraLodashLaws} eras s s' t t' :
  eras_ok eras -> Sorted follows_in_time eras -> match head eras with Some e => 0 < slotLength e | None => True end ->
  createSlotTimeCalc eras s = Ok (Some t) -> createSlotTimeCalc eras s' = Ok (Some t') -> s < s' -> t < t'.
Proof.
  intros Hok Ht Hx. rewrite !(time_spec eras _ Hok). pose proof Hok as [Hs _].
  destruct (eraOf eras s) as [e|] eqn:He; [|done]. destruct (eraOf eras s') as [e'|] eqn:He'; [|done].
  unfold Date_of. case_bool; [|done]. case_bool; [|done]. intros [= <-] [= <-] Hlt. destruct eras as [|x l]; [done|].
  apply (time_increases x l _ _ s s'); try done. destruct (Z.lt_ge_cases s (startSlot x)) as [H|H]; [|done].
  unfold eraOf in He. by rewrite (eraOf_early _ s Hok H) in He.
Qed.

Lemma slot_times_increase_witness : 1666915199000 < 1702857583000.
Proof.
  apply (slot_times_increase previewEraSummaries 259199 36201583).
  - apply previewEraSummaries_ok.
  - repeat constructor; vm_compute; done.
  - done.
  - vm_compute. reflexivity.
  - vm_compute. reflexivity.
  - lia.
Defined.

(** ** Caches *)

(** A map as the cache. *)
#[local] Instance map_cache K V `{EqDecision K} : MemoizeCache K V :=
  {| cache := list (K * V); emptyCache := []; cached := JsMap.get; store := JsMap.set |}.

#[local] Instance map_cache_laws K V `{EqDecision K} : MemoizeCacheLaws (K := K) (V := V).
Proof. split; [done|]. intros c k v k'. apply JsMapFacts.get_set. Qed.

(** [epochSlotsCalc] keeps its answers by the epoch alone: once it has answered
    for the eras of one network, it gives the same answer for those of any
    other. *)
Theorem epochSlotsCalc_ignores_eras `{MC : MemoizeCache Z EpochSlots} {ML : MemoizeCacheLaws} epoch eras eras' sl :
  epochSlotsCalcImplementation epoch eras = Ok sl ->
  let '(first, c) := epochSlotsCalc epoch eras emptyCache in first = Ok sl /\ epochSlotsCalc epoch eras' c = (Ok sl, c).
Proof.
  intros Hsl. unfold epochSlotsCalc, memoizedCall. rewrite cached_empty, Hsl. by rewrite cached_store, decide_True.
Qed.

Lemma epochSlotsCalc_ignores_eras_witness :
  epochSlotsCalcImplementation 1 [{| epochLength := 21600; slotLength := 20000; startSlot := 0; startTime := 1563999616000 |}] =
    Ok {| eraSummary := {| epochLength := 21600; slotLength := 20000; startSlot := 0; startTime := 1563999616000 |};
          epochFirstSlot := 21600; epochLastSlot := 43199 |} /\
  match epochSlotsCalcImplementation 1 previewEraSummaries with Ok sl => epochFirstSlot sl = 86400 | _ => False end /\
  let '(first, c) := epochSlotsCalc 1 previewEraSummaries emptyCache in
  epochSlotsCalc 1 [{| epochLength := 21600; slotLength := 20000; startSlot := 0; startTime := 1563999616000 |}] c = (first, c).
Proof.
  split; [reflexivity|]. split; [vm_compute; reflexivity|].
  refine (match epochSlotsCalc_ignores_eras 1 previewEraSummaries
    [{| epochLength := 21600; slotLength := 20000; startSlot := 0; startTime := 1563999616000 |}] _ eq_refl with conj _ H => _ end).
  exact H.
Defined.

(** A request that fails is kept as well: the epoch cannot be asked for again,
    whatever the provider would answer. *)
Theorem epochSlotsCalcFactory_keeps_failures `{MC : MemoizeCache Z (SlotRes EpochSlots)} {ML : MemoizeCacheLaws} provider epoch e n :
  provider n = Throw e ->
  let '(_, s) := epochSlotsCalcFactory provider epoch (n, emptyCache) in
  forall provider', epochSlotsCalcFactory provider' epoch s = (Throw e, s).
Proof.
  intros Hp. unfold epochSlotsCalcFactory, memoizedCall. rewrite cached_empty, Hp. intros provider'.
  by rewrite !cached_store, !decide_True.
Qed.
