(* ===== verification/Fees.v ===== *)
(** * Fees and minimum coins

    Models [packages/tx-construction/src/fees/fees.ts] up to the size of a
    serialized transaction, which is an argument here, and the constraints of
    [packages/tx-construction/src/input-selection/selectionConstraints.ts] that do
    not build a transaction.  Prices are [number]s, IEEE 754 doubles, with the
    arithmetic and [Math.ceil] of the runtime written out. *)

From Stdlib Require Import SpecFloat.
From S2P Require Import Prelude JsRuntime CborCommon Half NumberText CborWriter Codec Credential Address Common Values Scripts SerializedValue Outputs.

(** ** Numbers *)

Definition num_plus (x y : number) : number := SFadd 53 1024 x y.

(** [Math.ceil]: zero keeps the sign. *)
Definition Math_ceil (x : number) : number :=
  match x with
  | S754_finite s m e =>
      if 0 <=? e then x
      else
        let v := if s then Zneg m else Zpos m in
        let c := - (- v / 2 ^ (- e)) in
        if c =? 0 then S754_zero s else double_of_Z c
  | _ => x
  end.

(** [BigInt(x)] of a number. *)
Definition BigInt_of (x : number) : Res Z :=
  match x with
  | S754_zero _ => Ok 0
  | S754_finite s m e =>
      let v := if s then Zneg m else Zpos m in
      if 0 <=? e then Ok (v * 2 ^ e)
      else if v mod 2 ^ (- e) =? 0 then Ok (v / 2 ^ (- e))
      else Throw (JsError "RangeError: The number cannot be converted to a BigInt because it is not an integer")
  | _ => Throw (JsError "RangeError: The number cannot be converted to a BigInt because it is not an integer")
  end.

(** ** Minimum coins *)

Definition MIN_ADA_CONSTANT_OVERHEAD : Z := 160.

Definition serializeBigInt (bigInt : Z) : Res (list Z) := encodeBytes (call (CborWriter.writeInt bigInt)).

Section outputs.
Context `{Crc32} `{BaseEncoding}.

Definition serializeTxOutputSize (output : TransactionOutput.core) : Res Z :=
  o ← TransactionOutput.fromCore output;
  cbor ← TransactionOutput.toCbor o;
  Ok (Z.of_nat (String.length cbor) / 2).

(** The loop over the size of the coins; it starts again with [newCoinSize]. *)
Fixpoint minAdaLoop (fuel : nat) (output : TransactionOutput.core) (coinsPerUtxoByte oldCoinSize latestSize : Z) : Res Z :=
  let sizeDiff := latestSize - oldCoinSize in
  size ← serializeTxOutputSize output;
  let tentativeMinAda := (size + MIN_ADA_CONSTANT_OVERHEAD + sizeDiff) * coinsPerUtxoByte in
  newCoin ← serializeBigInt tentativeMinAda;
  let newCoinSize := zlen newCoin in
  if latestSize =? newCoinSize then Ok newCoinSize
  else match fuel with O => OutOfFuel | S fuel' => minAdaLoop fuel' output coinsPerUtxoByte oldCoinSize newCoinSize end.

(** The sizes of coins are between 1 and 9. *)
Definition minAdaFuel : nat := 9.

Definition minAdaRequired (output : TransactionOutput.core) (coinsPerUtxoByte : Z) : Res Z :=
  oldCoin ← serializeBigInt (coins (TransactionOutput.value output));
  let oldCoinSize := zlen oldCoin in
  latestSize ← minAdaLoop minAdaFuel output coinsPerUtxoByte oldCoinSize oldCoinSize;
  let sizeChange := latestSize - oldCoinSize in
  size ← serializeTxOutputSize output;
  Ok ((size + MIN_ADA_CONSTANT_OVERHEAD + sizeChange) * coinsPerUtxoByte).
End outputs.

(** ** Execution units *)

Definition getTotalExUnits (redeemers : list ExUnits.core) : ExUnits.core :=
  fold_left (fun total executionUnits => {|
      ExUnits.memory := JsRuntime.num_add (ExUnits.memory total) (ExUnits.memory executionUnits);
      ExUnits.coreSteps := JsRuntime.num_add (ExUnits.coreSteps total) (ExUnits.coreSteps executionUnits) |})
    redeemers {| ExUnits.memory := 0; ExUnits.coreSteps := 0 |}.

(** ** Reference scripts *)

Definition REF_SCRIPT_RANGE : Z := 25600.

(** 1.2 *)
Definition REF_SCRIPT_MULTIPLIER : number := SFdiv 53 1024 (double_of false 12 0) (double_of false 10 0).

(** [resolvedInputs.find(...)] *)
Fixpoint findInput (resolvedInputs : list (TransactionInput.core * TransactionOutput.core)) (input : TransactionInput.core) :
    option (TransactionInput.core * TransactionOutput.core) :=
  match resolvedInputs with
  | [] => None
  | u :: rest =>
      if String.eqb (TransactionInput.txId u.1) (TransactionInput.txId input) &&
         (TransactionInput.coreIndex u.1 =? TransactionInput.coreIndex input)
      then Some u else findInput rest input
  end.

Fixpoint totalRefScriptsSize (resolvedInputs : list (TransactionInput.core * TransactionOutput.core))
    (totalInputs : list TransactionInput.core) (total : Z) : Res Z :=
  match totalInputs with
  | [] => Ok total
  | input :: rest =>
      total ← match findInput resolvedInputs input with
              | Some (_, o) =>
                  match TransactionOutput.scriptReference o with
                  | Some s =>
                      script ← Script.fromCore s;
                      cbor ← Script.toCbor script;
                      Ok (total + Z.of_nat (String.length cbor) / 2)
                  | None => Ok total
                  end
              | None => Ok total
              end;
      totalRefScriptsSize resolvedInputs rest total
  end.

(** The loop over the tiers, each dearer than the one before. *)
Fixpoint tierLoop (fuel : nat) (size : Z) (base fee : number) : Res number :=
  if 0 <? size then
    match fuel with
    | O => OutOfFuel
    | S fuel' =>
        let fee := num_plus fee (Math_ceil (num_mul (double_of_Z (Z.min REF_SCRIPT_RANGE size)) base)) in
        tierLoop fuel' (Z.max (size - REF_SCRIPT_RANGE) 0) (num_mul base REF_SCRIPT_MULTIPLIER) fee
    end
  else Ok fee.

Definition tierFuel (size : Z) : nat := S (Z.to_nat (size / REF_SCRIPT_RANGE)).

Definition minRefScriptFee (inputs : list TransactionInput.core) (referenceInputs : option (list TransactionInput.core))
    (resolvedInputs : list (TransactionInput.core * TransactionOutput.core)) (coinsPerRefScriptByte : number) : Res Z :=
  if num_eqb coinsPerRefScriptByte (S754_zero false) then Ok 0
  else
    size ← totalRefScriptsSize resolvedInputs (inputs ++ default [] referenceInputs) 0;
    fee ← tierLoop (tierFuel size) size coinsPerRefScriptByte (S754_zero false);
    BigInt_of fee.

(** [exUnitsPrice] *)
Record Prices : Set := { memoryPrice : number; stepsPrice : number }.

Definition minScriptFee (inputs : list TransactionInput.core) (referenceInputs : option (list TransactionInput.core))
    (redeemers : option (list ExUnits.core)) (exUnitsPrice : Prices)
    (resolvedInputs : list (TransactionInput.core * TransactionOutput.core)) (coinsPerRefScriptByte : number) : Res Z :=
  scriptRefFee ← minRefScriptFee inputs referenceInputs resolvedInputs coinsPerRefScriptByte;
  match redeemers with
  | None => Ok scriptRefFee
  | Some redeemers =>
      let totalExUnits := getTotalExUnits redeemers in
      fee ← BigInt_of (Math_ceil (num_plus
        (num_mul (double_of_Z (ExUnits.coreSteps totalExUnits)) (stepsPrice exUnitsPrice))
        (num_mul (double_of_Z (ExUnits.memory totalExUnits)) (memoryPrice exUnitsPrice))));
      Ok (fee + scriptRefFee)
  end.

(** ** The size of a token bundle *)

Definition MAX_U64 : Z := 18446744073709551615.

Definition tokenBundleSizeExceedsLimit (maxValueSize : Z) (tokenBundle : option (list (string * Z))) : Res bool :=
  match tokenBundle with
  | None => Ok false
  | Some tokenBundle =>
      value ← Value.new MAX_U64 None;
      value ← Value.setMultiasset value tokenBundle;
      cbor ← Value.toCbor value;
      Ok (maxValueSize <? Z.of_nat (String.length cbor) / 2)
  end.
