(* ===== verification/FeeTheorems.v ===== *)
(** * What fees and minimum coins guarantee

    The properties of [Fees.v]: the loop of [minAdaRequired] is the iteration of a
    monotone function on the sizes of coins, which ends at a fixed point. *)
From Stdlib Require Import SpecFloat.
From S2P Require Import Prelude JsRuntime Utf8 CborCommon Half NumberText CborWriter CborReader CborMachine CborExact CborSkip CborDocuments Codec CodecFacts Credential Address BaseEncodingRef AddressFacts Records Common Serializable Values SerializedValue ValueFacts Scripts ScriptFacts Outputs OutputFacts Fees.

(** ** Integers as doubles

    Integers below 2^53 are doubles, and a product of two of them that is below
    2^53 is exact; [Math.ceil] and [BigInt] give such integers back. *)

(** ** Digits *)

Lemma digits2_bounds p : 2 ^ (Zpos (digits2_pos p) - 1) <= Zpos p < 2 ^ Zpos (digits2_pos p).
Proof.
  induction p as [p IH|p IH|]; cbn [digits2_pos]; [| |done];
    rewrite Pos2Z.inj_succ; unfold Z.succ; replace (Zpos (digits2_pos p) + 1 - 1) with (Zpos (digits2_pos p) - 1 + 1) by lia;
    rewrite !Z.pow_add_r by lia; lia.
Qed.

Lemma digits2_unique p d : 0 < d -> 2 ^ (d - 1) <= Zpos p < 2 ^ d -> Zpos (digits2_pos p) = d.
Proof.
  intros Hd [H1 H2]. destruct (digits2_bounds p) as [H3 H4].
  assert (H5 : 2 ^ (d - 1) < 2 ^ Zpos (digits2_pos p)) by lia. assert (H6 : 2 ^ (Zpos (digits2_pos p) - 1) < 2 ^ d) by lia.
  apply Z.pow_lt_mono_r_iff in H5; [|lia..]. apply Z.pow_lt_mono_r_iff in H6; lia.
Qed.

Lemma iter_xO p d : Zpos (Pos.iter xO p d) = Zpos p * 2 ^ Zpos d.
Proof.
  induction d as [|d IH] using Pos.peano_ind; [cbn; lia|]. rewrite Pos.iter_succ, Pos2Z.inj_succ, Z.pow_succ_r by lia.
  rewrite (Pos2Z.inj_xO (Pos.iter xO p d)), IH. lia.
Qed.

(** ** Shifting zeros out *)

Definition exactly (m : Z) : shr_record := {| shr_m := m; shr_r := false; shr_s := false |}.

Lemma iter_pos_iter {A} (f : A -> A) n x : SpecFloat.iter_pos f n x = Pos.iter f x n.
Proof.
  revert x. induction n as [n IH|n IH|]; intros x; cbn [SpecFloat.iter_pos Pos.iter]; rewrite ?IH; [|done|done].
  rewrite <- !Pos.iter_swap. done.
Qed.

Lemma shr_exactly k n : 0 < k -> SpecFloat.iter_pos shr_1 n (exactly (k * 2 ^ Zpos n)) = exactly k.
Proof.
  intros Hk. rewrite iter_pos_iter. revert k Hk. induction n as [|n IH] using Pos.peano_ind; intros k Hk.
  - change (Pos.iter shr_1 ?x 1) with (shr_1 x). change (2 ^ 1) with 2. destruct k as [|p|p]; [lia| |lia].
    replace (Zpos p * 2) with (Zpos (xO p)) by lia. done.
  - rewrite Pos.iter_succ, Pos2Z.inj_succ, Z.pow_succ_r by lia.
    replace (k * (2 * 2 ^ Zpos n)) with (k * 2 * 2 ^ Zpos n) by lia. rewrite IH by lia.
    destruct k as [|p|p]; [lia| |lia]. replace (Zpos p * 2) with (Zpos (xO p)) by lia. done.
Qed.

(** A number with 53 digits is rounded to itself, also when zeros follow them. *)
Lemma round_aux_exact m e n : 2 ^ 52 <= m < 2 ^ 53 -> 0 <= n -> -1074 <= e + n <= 971 ->
  exists p, m = Zpos p /\ binary_round_aux 53 1024 false (m * 2 ^ n) e loc_Exact = S754_finite false p (e + n).
Proof.
  intros Hm Hn He. destruct m as [|p|p]; [lia| |lia]. exists p. split; [done|].
  assert (Hd : forall k, 0 <= k -> Zdigits2 (Zpos p * 2 ^ k) = 53 + k).
  { intros k Hk. pose proof (Z.pow_pos_nonneg 2 k ltac:(lia) Hk). destruct (Zpos p * 2 ^ k) as [|q|q] eqn:E; [lia| |lia].
    unfold Zdigits2. apply digits2_unique; [lia|]. rewrite <- E. replace (53 + k - 1) with (52 + k) by lia. rewrite !Z.pow_add_r by lia. nia. }
  assert (Hs : forall k f, 0 <= k -> -1074 <= f + k -> shr_fexp 53 1024 (Zpos p * 2 ^ k) f loc_Exact = (exactly (Zpos p), f + k)).
  { intros k f Hk Hf. unfold shr_fexp, fexp, emin. rewrite Hd by done. replace (Z.max (53 + k + f - 53) (3 - 1024 - 53) - f) with k by lia.
    cbn [shr_record_of_loc]. change {| shr_m := ?x; shr_r := false; shr_s := false |} with (exactly x). unfold shr.
    destruct k as [|k|k]; [|by rewrite (shr_exactly (Zpos p) k)|lia]. change (2 ^ 0) with 1. by rewrite Z.mul_1_r, Z.add_0_r. }
  unfold binary_round_aux. rewrite (Hs n e) by lia. cbn [shr_m exactly loc_of_shr_record round_nearest_even].
  pose proof (Hs 0 (e + n) ltac:(lia) ltac:(lia)) as E0. change (2 ^ 0) with 1 in E0. rewrite Z.mul_1_r in E0. rewrite E0.
  cbn [shr_m exactly]. rewrite (proj2 (Z.leb_le _ _)) by lia. f_equal. lia.
Qed.

(** ** Integers *)

(** The double of a positive integer: 53 digits, of which the last are zeros. *)
Lemma double_of_small p : Zpos p < 2 ^ 53 -> exists d q, 1 <= d <= 53 /\ 2 ^ (d - 1) <= Zpos p < 2 ^ d /\
  Zpos q = Zpos p * 2 ^ (53 - d) /\ double_of_Z (Zpos p) = S754_finite false q (d - 53).
Proof.
  intros Hp. pose proof (digits2_bounds p) as Hb. set (d := Zpos (digits2_pos p)) in *.
  assert (Hd : 1 <= d <= 53).
  { split; [lia|]. assert (H : 2 ^ (d - 1) < 2 ^ 53) by lia. apply Z.pow_lt_mono_r_iff in H; lia. }
  assert (Hm : 2 ^ 52 <= Zpos p * 2 ^ (53 - d) < 2 ^ 53).
  { replace (2 ^ 52) with (2 ^ (d - 1) * 2 ^ (53 - d)) by (rewrite <- Z.pow_add_r by lia; f_equal; lia).
    replace (2 ^ 53) with (2 ^ d * 2 ^ (53 - d)) by (rewrite <- Z.pow_add_r by lia; f_equal; lia).
    pose proof (Z.pow_pos_nonneg 2 (53 - d) ltac:(lia) ltac:(lia)). nia. }
  destruct (round_aux_exact (Zpos p * 2 ^ (53 - d)) (d - 53) 0 Hm ltac:(lia) ltac:(lia)) as (q & Eq & E).
  exists d, q. split; [done|]. split; [done|]. split; [done|]. change (2 ^ 0) with 1 in E. rewrite Z.mul_1_r, Z.add_0_r in E.
  unfold double_of_Z. cbn [Z.ltb Z.compare]. unfold double_of, binary_round, shl_align.
  replace (fexp 53 1024 (Zpos (digits2_pos p) + 0) - 0) with (d - 53) by (unfold fexp, emin; fold d; lia).
  replace (fexp 53 1024 (Zpos (digits2_pos p) + 0)) with (d - 53) by (unfold fexp, emin; fold d; lia).
  destruct (d - 53) as [|k|k] eqn:Ek; [| lia |].
  - rewrite <- E. do 2 f_equal. replace (53 - d) with 0 by lia. lia.
  - rewrite <- E. do 2 f_equal. rewrite iter_xO. do 2 f_equal. lia.
Qed.

Lemma BigInt_of_double z : 0 <= z < 2 ^ 53 -> BigInt_of (double_of_Z z) = Ok z.
Proof.
  intros Hz. destruct z as [|p|p]; [done| |lia]. destruct (double_of_small p ltac:(lia)) as (d & q & Hd & _ & Eq & ->).
  unfold BigInt_of. rewrite Eq. destruct (Z.leb_spec 0 (d - 53)).
  - replace d with 53 by lia. change (2 ^ (53 - 53)) with 1. f_equal. lia.
  - replace (- (d - 53)) with (53 - d) by lia. pose proof (Z.pow_pos_nonneg 2 (53 - d) ltac:(lia) ltac:(lia)).
    rewrite Z.mod_mul by lia. cbn. by rewrite Z.div_mul by lia.
Qed.

Lemma ceil_double z : 0 <= z < 2 ^ 53 -> Math_ceil (double_of_Z z) = double_of_Z z.
Proof.
  intros Hz. destruct z as [|p|p]; [done| |lia]. destruct (double_of_small p ltac:(lia)) as (d & q & Hd & _ & Eq & E).
  rewrite E. unfold Math_ceil. rewrite Eq. destruct (Z.leb_spec 0 (d - 53)); [done|].
  replace (- (d - 53)) with (53 - d) by lia. pose proof (Z.pow_pos_nonneg 2 (53 - d) ltac:(lia) ltac:(lia)).
  rewrite <- Z.mul_opp_l, Z.div_mul by lia. rewrite Z.opp_involutive. cbn [Z.eqb]. exact E.
Qed.

Lemma mul_double a b : 0 <= a -> 0 <= b -> a * b < 2 ^ 53 -> a < 2 ^ 53 -> b < 2 ^ 53 ->
  num_mul (double_of_Z a) (double_of_Z b) = double_of_Z (a * b).
Proof.
  intros Ha Hb Hab Ha' Hb'. destruct a as [|p|p]; [| |lia].
  { destruct b as [|q|q]; [done| |lia]. destruct (double_of_small q Hb') as (d & q' & _ & _ & _ & ->). done. }
  destruct b as [|q|q]; [| |lia].
  { destruct (double_of_small p Ha') as (d & q' & _ & _ & _ & ->). done. }
  destruct (double_of_small p Ha') as (d1 & m1 & Hd1 & Hb1 & E1 & ->). destruct (double_of_small q Hb') as (d2 & m2 & Hd2 & Hb2 & E2 & ->).
  change (Zpos p * Zpos q) with (Zpos (p * q)) in *. destruct (double_of_small (p * q) Hab) as (d & m & Hd & Hdb & E & ->).
  assert (Hle : d1 + d2 - 2 < d).
  { apply (Z.pow_lt_mono_r_iff 2); [lia..|]. replace (d1 + d2 - 2) with (d1 - 1 + (d2 - 1)) by lia. rewrite Z.pow_add_r by lia.
    rewrite Pos2Z.inj_mul in Hdb. nia. }
  assert (Hm : 2 ^ 52 <= Zpos m < 2 ^ 53).
  { rewrite E. replace (2 ^ 52) with (2 ^ (d - 1) * 2 ^ (53 - d)) by (rewrite <- Z.pow_add_r by lia; f_equal; lia).
    replace (2 ^ 53) with (2 ^ d * 2 ^ (53 - d)) by (rewrite <- Z.pow_add_r by lia; f_equal; lia).
    pose proof (Z.pow_pos_nonneg 2 (53 - d) ltac:(lia) ltac:(lia)). nia. }
  destruct (round_aux_exact (Zpos m) (d1 - 53 + (d2 - 53)) (53 + d - d1 - d2) Hm ltac:(lia) ltac:(lia)) as (m' & [= <-] & Er).
  unfold num_mul, SFmul. cbn [xorb]. replace (d - 53) with (d1 - 53 + (d2 - 53) + (53 + d - d1 - d2)) by lia. rewrite <- Er. f_equal.
  rewrite Pos2Z.inj_mul, E1, E2, E, Pos2Z.inj_mul.
  replace (2 ^ (53 - d1)) with (2 ^ (53 - d1 + (53 - d2)) / 2 ^ (53 - d2)) by (rewrite Z.pow_add_r, Z.div_mul by (try apply Z.pow_nonzero; lia); done).
  rewrite <- (Z.mul_assoc (Zpos p * Zpos q)), <- Z.pow_add_r by lia. replace (53 - d + (53 + d - d1 - d2)) with (53 - d1 + (53 - d2)) by lia.
  rewrite Z.pow_add_r, Z.div_mul by (try apply Z.pow_nonzero; lia). lia.
Qed.

Import CborWriterFacts.

(** ** Sizes of coins *)

Definition coinSize (c : Z) : Z := zlen (intBytes c).

Lemma coinSize_range c : isUInt c = true -> 1 <= coinSize c <= 9.
Proof.
  intros Hc%uint_range. destruct (intBytes_head c ltac:(lia)) as (t & v & _ & Hv & _ & E & _). unfold coinSize. rewrite E.
  exact (is_head_length _ _ _ (writer_head t v Hv)).
Qed.

Lemma coinSize_value c : 0 <= c -> coinSize c = if c <? 24 then 1 else if c <? 256 then 2 else if c <? 65536 then 3 else if c <? 4294967296 then 5 else 9.
Proof.
  intros Hc. unfold coinSize, intBytes, CborWriter.head. rewrite (proj2 (Z.ltb_ge c 0)) by lia.
  by repeat case_match.
Qed.

Lemma coinSize_mono c d : 0 <= c <= d -> coinSize c <= coinSize d.
Proof. intros H. rewrite !coinSize_value by lia. repeat case_match; zb; lia. Qed.

Lemma serializeBigInt_ok c : isUInt c = true -> serializeBigInt c = Ok (intBytes c).
Proof.
  intros Hc%uint_range. destruct (intBytes_head c ltac:(lia)) as (t & v & _ & Hv & _ & E & Ew).
  unfold serializeBigInt, encodeBytes. pose proof (intBytes_emits c ltac:(lia)) as He. by rewrite He.
Qed.

(** ** Sizes of outputs *)

Definition withCoins (o : TransactionOutput.core) (c : Z) : TransactionOutput.core := {|
  TransactionOutput.coreAddress := TransactionOutput.coreAddress o;
  TransactionOutput.value := {| coins := c; assets := assets (TransactionOutput.value o) |};
  TransactionOutput.datumHash := TransactionOutput.datumHash o;
  TransactionOutput.coreDatum := TransactionOutput.coreDatum o;
  TransactionOutput.scriptReference := TransactionOutput.scriptReference o |}.

Lemma valueBytes_size c d m : zlen (valueBytes {| coins := c; assets := m |}) - coinSize c = zlen (valueBytes {| coins := d; assets := m |}) - coinSize d.
Proof.
  unfold valueBytes, valueFields, coinSize. cbn [coins assets]. destruct m; [|lia]. unfold recordBytes.
  change (zlen [intBytes c; ?x]) with 2. change (zlen [intBytes d; ?x]) with 2. cbn [concat]. rewrite !zlen_app. lia.
Qed.

Lemma outputBytes_size `{Crc32} `{BaseEncoding} o c :
  zlen (outputBytes (withCoins o c)) = zlen (outputBytes o) - coinSize (coins (TransactionOutput.value o)) + coinSize c.
Proof.
  pose proof (valueBytes_size c (coins (TransactionOutput.value o)) (assets (TransactionOutput.value o))) as E.
  assert (Ev : {| coins := coins (TransactionOutput.value o); assets := assets (TransactionOutput.value o) |} = TransactionOutput.value o) by (by destruct (TransactionOutput.value o)).
  rewrite Ev in E. unfold outputBytes, requiredEntries, outputEntries. cbn [withCoins TransactionOutput.coreAddress TransactionOutput.value
    TransactionOutput.datumHash TransactionOutput.coreDatum TransactionOutput.scriptReference].
  set (v := valueBytes {| coins := c; assets := _ |}) in *. set (w := valueBytes (TransactionOutput.value o)) in *.
  assert (Hr : forall a rest, zlen (recordBytes ([a; v] ++ rest)) = zlen (recordBytes ([a; w] ++ rest)) - zlen w + zlen v).
  { intros a rest. unfold recordBytes. cbn [app concat]. rewrite !zlen_app, !zlen_cons. lia. }
  assert (Hk : forall a rest, zlen (keyedBytes ([(0, a); (1, v)] ++ rest)) = zlen (keyedBytes ([(0, a); (1, w)] ++ rest)) - zlen w + zlen v).
  { intros a rest. unfold keyedBytes, mapBytes. cbn [app map concat]. rewrite !zlen_cons, !zlen_app.
    unfold entryBytes, keyEntry. cbn [fst snd]. rewrite !zlen_app. lia. }
  destruct (TransactionOutput.scriptReference o), (TransactionOutput.coreDatum o); rewrite ?Hk, ?Hr; lia.
Qed.

(** ** The fixed point *)

Section minimum.
Context `{Crc32} {CL : Crc32Laws} `{BaseEncoding}.
Context (o : TransactionOutput.core) (Ho : isOutput o = true) (price : Z) (Hprice : 0 <= price).

Let size := zlen (outputBytes o).
Let old := coinSize (coins (TransactionOutput.value o)).

Context (Hfits : (size + MIN_ADA_CONSTANT_OVERHEAD + 8) * price < 2 ^ 64).

(** The size of the coins that an output whose coins take [s] bytes needs. *)
Definition needed (s : Z) : Z := (size + MIN_ADA_CONSTANT_OVERHEAD + (s - old)) * price.
Definition nextSize (s : Z) : Z := coinSize (needed s).

Lemma size_ok : serializeTxOutputSize o = Ok size.
Proof.
  destruct (@fromCore_standsFor _ _ output_serializable output_laws o Ho) as (x & Ex & _ & Et). cbn in Ex, Et.
  unfold serializeTxOutputSize. rewrite Ex. cbn. rewrite Et. cbn. rewrite length_to_hex. f_equal. fold size.
  rewrite Z.mul_comm. by apply Z.div_mul.
Qed.

Lemma old_range : 1 <= old <= 9.
Proof. apply coinSize_range. unfold isOutput, isValue in Ho. rewrite !andb_true_iff in Ho. tauto. Qed.

Lemma needed_uint s : 1 <= s <= 9 -> isUInt (needed s) = true.
Proof.
  intros Hs. pose proof old_range. assert (0 <= size) by apply zlen_nonneg. unfold MIN_ADA_CONSTANT_OVERHEAD in *.
  unfold isUInt, needed, MIN_ADA_CONSTANT_OVERHEAD. apply andb_true_iff. split; [apply Z.leb_le; nia|apply Z.ltb_lt].
  eapply Z.le_lt_trans; [|exact Hfits]. apply Z.mul_le_mono_nonneg_r; lia.
Qed.

Lemma nextSize_range s : 1 <= s <= 9 -> 1 <= nextSize s <= 9.
Proof. intros Hs. by apply coinSize_range, needed_uint. Qed.

Lemma nextSize_mono s t : 1 <= s <= t -> t <= 9 -> nextSize s <= nextSize t.
Proof.
  intros Hs Ht. apply coinSize_mono. pose proof (needed_uint s ltac:(lia)) as Hu%uint_range. split; [lia|].
  unfold needed. apply Z.mul_le_mono_nonneg_r; lia.
Qed.

(** Going up or down, the sizes reach a fixed point. *)
Lemma minAdaLoop_ends fuel s : 1 <= s <= 9 ->
  (s <= nextSize s /\ 9 - s <= Z.of_nat fuel) \/ (nextSize s <= s /\ s - 1 <= Z.of_nat fuel) ->
  exists t, minAdaLoop fuel o price old s = Ok t /\ nextSize t = t /\ 1 <= t <= 9.
Proof.
  revert s. induction fuel as [|fuel IH]; intros s Hs Hd; cbn [minAdaLoop]; rewrite size_ok; cbn [mbind outcome_bind];
    change ((size + MIN_ADA_CONSTANT_OVERHEAD + (s - old)) * price) with (needed s);
    rewrite serializeBigInt_ok by (by apply needed_uint); cbn [mbind outcome_bind];
    change (zlen (intBytes (needed s))) with (nextSize s); pose proof (nextSize_range s Hs) as Hr;
    destruct (Z.eqb_spec s (nextSize s)) as [E|Hne]; try (exists (nextSize s); rewrite <- E; done); [exfalso; lia|].
  apply IH; [done|]. destruct Hd as [[H1 H2]|[H1 H2]]; [left|right]; (split; [|lia]).
  - apply nextSize_mono; lia.
  - apply nextSize_mono; lia.
Qed.

Lemma minAdaRequired_fixed : exists m, minAdaRequired o price = Ok m /\ isUInt m = true /\
  m = (MIN_ADA_CONSTANT_OVERHEAD + zlen (outputBytes (withCoins o m))) * price.
Proof.
  destruct (minAdaLoop_ends minAdaFuel old old_range) as (t & Et & Hfix & Ht).
  { pose proof old_range. pose proof (nextSize_range old old_range). unfold minAdaFuel. lia. }
  exists (needed t). unfold minAdaRequired. rewrite serializeBigInt_ok.
  - cbn [mbind outcome_bind]. change (zlen (intBytes (coins (TransactionOutput.value o)))) with old. rewrite Et. cbn [mbind outcome_bind].
    rewrite size_ok. cbn [mbind outcome_bind]. split; [done|]. split; [by apply needed_uint|].
    rewrite outputBytes_size. fold size. change (coinSize (needed t)) with (nextSize t). rewrite Hfix. fold old. unfold needed. lia.
  - unfold isOutput, isValue in Ho. rewrite !andb_true_iff in Ho. tauto.
Qed.
End minimum.

(** C17. The minimum of an output is the one the ledger asks of the output once
    it holds that minimum: [coinsPerUtxoByte] for each of its bytes and the 160
    of the entry. The loop ends. An output with more coins is above its minimum
    as long as its coins are not longer than the minimum. *)
Theorem minAdaRequired_is_minimum (CR : Crc32) (CL : Crc32Laws) (BE : BaseEncoding) (o : TransactionOutput.core) (coinsPerUtxoByte : Z) :
  isOutput o = true -> 0 <= coinsPerUtxoByte -> (zlen (outputBytes o) + MIN_ADA_CONSTANT_OVERHEAD + 8) * coinsPerUtxoByte < 2 ^ 64 ->
  exists m, minAdaRequired o coinsPerUtxoByte = Ok m /\
    m = (MIN_ADA_CONSTANT_OVERHEAD + zlen (outputBytes (withCoins o m))) * coinsPerUtxoByte /\
    forall c, m <= c -> coinSize c = coinSize m ->
      (MIN_ADA_CONSTANT_OVERHEAD + zlen (outputBytes (withCoins o c))) * coinsPerUtxoByte <= c.
Proof.
  intros Ho Hp Hf. destruct (minAdaRequired_fixed o Ho coinsPerUtxoByte Hp Hf) as (m & E & Hu & Em). exists m. split_and!; [done..|].
  intros c Hc Hs. rewrite outputBytes_size in Em |- *. rewrite Hs. lia.
Qed.

Lemma minAdaRequired_is_minimum_witness : exists m,
  @minAdaRequired sum32 encoding_ref demo_output 4310 = Ok m /\
  m = (MIN_ADA_CONSTANT_OVERHEAD + zlen (@outputBytes sum32 encoding_ref (withCoins demo_output m))) * 4310 /\
  forall c, m <= c -> coinSize c = coinSize m ->
    (MIN_ADA_CONSTANT_OVERHEAD + zlen (@outputBytes sum32 encoding_ref (withCoins demo_output c))) * 4310 <= c.
Proof. apply (minAdaRequired_is_minimum sum32 sum32_laws encoding_ref); [vm_compute; reflexivity|lia|vm_compute; reflexivity]. Defined.

(** ** Token bundles *)

(** A token bundle is rejected exactly when its value with the largest quantity
    of coins is longer than the limit; so every value with a bundle that is
    accepted, in canonical form, fits. *)
Theorem tokenBundleSizeExceedsLimit_exact (maxValueSize : Z) (bundle : list (string * Z)) :
  isTokenMap isUInt bundle = true -> 0 < zlen bundle ->
  exists b, tokenBundleSizeExceedsLimit maxValueSize (Some bundle) = Ok b /\
    (b = true <-> maxValueSize < zlen (valueBytes {| coins := MAX_U64; assets := Some (canonicalAssets bundle) |})) /\
    (b = false -> forall c, isUInt c = true -> zlen (valueBytes {| coins := c; assets := Some (canonicalAssets bundle) |}) <= maxValueSize).
Proof.
  intros Hm Hz. exists (maxValueSize <? zlen (valueBytes {| coins := MAX_U64; assets := Some (canonicalAssets bundle) |})). split; [|split].
  - unfold tokenBundleSizeExceedsLimit, Value.new, Value.setMultiasset. cbn [mbind outcome_bind Value.coin]. rewrite normalize_assets by done.
    cbn [mbind outcome_bind]. rewrite value_toCbor; [|done|].
    + cbn [mbind outcome_bind]. rewrite length_to_hex, Z.mul_comm, Z.div_mul by lia. done.
    + assert (Hp : canonicalAssets bundle ≡ₚ bundle) by (apply canonicalAssets_perm; by eapply tokenMap_valid).
      unfold isAssets. rewrite canonicalAssets_idemp, bool_decide_eq_true_2 by (try done; by eapply tokenMap_valid). rewrite andb_true_r. apply andb_true_iff. split.
      * by eapply isTokenMap_perm.
      * apply Z.ltb_lt. unfold zlen in *. by rewrite (Permutation_length Hp).
  - apply Z.ltb_lt.
  - intros Hb c Hc. zb. pose proof (valueBytes_size c MAX_U64 (Some (canonicalAssets bundle))). pose proof (coinSize_range c Hc).
    assert (coinSize MAX_U64 = 9) by reflexivity. lia.
Qed.

Lemma tokenBundleSizeExceedsLimit_exact_witness : exists b,
  tokenBundleSizeExceedsLimit 80 (Some demo_assets) = Ok b /\
  (b = true <-> 80 < zlen (valueBytes {| coins := MAX_U64; assets := Some (canonicalAssets demo_assets) |})) /\
  (b = false -> forall c, isUInt c = true -> zlen (valueBytes {| coins := c; assets := Some (canonicalAssets demo_assets) |}) <= 80).
Proof. apply tokenBundleSizeExceedsLimit_exact; [vm_compute; reflexivity|reflexivity]. Defined.

(** ** Reference scripts *)

Lemma tierLoop_ends fuel size base fee : size < REF_SCRIPT_RANGE * Z.of_nat fuel \/ size <= 0 -> exists f, tierLoop fuel size base fee = Ok f.
Proof.
  revert size base fee. induction fuel as [|fuel IH]; intros size base fee Hf; cbn [tierLoop]; unfold REF_SCRIPT_RANGE in *;
    (destruct (Z.ltb_spec 0 size); [|by eexists]); [lia|]. apply IH. lia.
Qed.

Lemma tierFuel_enough size : size < REF_SCRIPT_RANGE * Z.of_nat (tierFuel size) \/ size <= 0.
Proof.
  destruct (Z.le_gt_cases size 0); [by right|left]. unfold tierFuel, REF_SCRIPT_RANGE in *. rewrite Nat2Z.inj_succ, Z2Nat.id by (apply Z.div_pos; lia).
  pose proof (Z_div_mod_eq_full size 25600). pose proof (Z.mod_pos_bound size 25600 ltac:(lia)). lia.
Qed.

(** The fee for reference scripts is linear in the first tier: for scripts of
    [size] bytes in all, at most 25600, at a whole price per byte, it is
    exactly their product, though the code computes it in floating point. *)
Theorem minRefScriptFee_first_tier (inputs : list TransactionInput.core) (referenceInputs : option (list TransactionInput.core))
    (resolvedInputs : list (TransactionInput.core * TransactionOutput.core)) (size price : Z) :
  totalRefScriptsSize resolvedInputs (inputs ++ default [] referenceInputs) 0 = Ok size ->
  0 <= size <= REF_SCRIPT_RANGE -> 0 <= price -> REF_SCRIPT_RANGE * price < 2 ^ 53 ->
  minRefScriptFee inputs referenceInputs resolvedInputs (double_of_Z price) = Ok (size * price).
Proof.
  intros E Hs Hp Hb. unfold minRefScriptFee. unfold REF_SCRIPT_RANGE in *. destruct price as [|p|p]; [rewrite Z.mul_0_r; done| |lia].
  replace (num_eqb (double_of_Z (Zpos p)) (S754_zero false)) with false.
  2: { destruct (double_of_small p ltac:(lia)) as (d & q & _ & _ & _ & ->). done. }
  rewrite E. cbn [mbind outcome_bind]. destruct (tierLoop_ends (tierFuel size) size (double_of_Z (Zpos p)) (S754_zero false) (tierFuel_enough size)) as [f Ef].
  rewrite Ef. cbn [mbind outcome_bind]. revert Ef. unfold tierFuel. cbn [tierLoop]. destruct (Z.ltb_spec 0 size) as [Hz|Hz].
  - unfold REF_SCRIPT_RANGE at 2 3. rewrite (Z.max_r (size - 25600) 0), Z.min_r by lia.
    assert (Hsp : 0 <= size * Zpos p < 2 ^ 53) by nia. rewrite mul_double, ceil_double by lia. intros Ef.
    assert (Ef' : Ok (num_plus (S754_zero false) (double_of_Z (size * Zpos p))) = Ok f :> Res number) by (destruct (Z.to_nat _); exact Ef).
    injection Ef' as <-. destruct size as [|s|s]; [lia| |lia]. change (Zpos s * Zpos p) with (Zpos (s * p)) in *.
    destruct (double_of_small (s * p) ltac:(lia)) as (d & q & _ & _ & _ & Eq). unfold num_plus. rewrite Eq. cbn [SFadd]. rewrite <- Eq.
    apply BigInt_of_double. lia.
  - intros [= <-]. replace size with 0 by lia. done.
Qed.

(** An input whose output holds a script, 18 bytes as it is written. *)
Definition demo_resolved : list (TransactionInput.core * TransactionOutput.core) := [(demo_input, demo_output)].

Lemma minRefScriptFee_first_tier_witness :
  minRefScriptFee [demo_input] None demo_resolved (double_of_Z 15) = Ok (18 * 15).
Proof. apply minRefScriptFee_first_tier; [vm_compute; reflexivity|unfold REF_SCRIPT_RANGE; lia..]. Defined.
