(* ===== verification/Selection.v ===== *)
(** * Input selection: arguments, balance and constraints

    Models [types.ts], [util.ts], [InputSelectionError.ts] and the change
    address resolvers of [packages/input-selection/src].  Sets are lists in
    insertion order; asynchronous callbacks are functions that may throw. *)

From S2P Require Import Prelude JsRuntime Values.

(** ** Errors *)

Inductive InputSelectionFailure : Set :=
  | UtxoBalanceInsufficient
  | UtxoNotFragmentedEnough
  | UtxoFullyDepleted
  | MaximumInputCountExceeded.

(** What a selection can throw: its own errors, the runtime's, and whatever a
    callback throws. *)
Inductive SelectionError : Set :=
  | InputSelectionError (failure : InputSelectionFailure)
  | InvalidStateError (message : string)
  | RangeError (message : string)
  | TypeError (message : string)
  | SyntaxError (message : string)
  | CallbackError (message : string).

#[export] Instance InputSelectionFailure_eq_dec : EqDecision InputSelectionFailure.
Proof. solve_decision. Defined.
#[export] Instance SelectionError_eq_dec : EqDecision SelectionError.
Proof. solve_decision. Defined.

(** Computations that draw random numbers: the state counts the draws. *)
Abbreviation Sel := (ST nat SelectionError).
Abbreviation Res := (outcome SelectionError).

(** ** Implicit values *)

(** [Cardano.util.ImplicitCoin] and its [Required] form. *)
Record PartialImplicitCoin : Set := {
  partialWithdrawals : option Z;
  partialInput : option Z;
  partialDeposit : option Z;
  partialReclaimDeposit : option Z
}.

Record ImplicitCoin : Set := { withdrawals : Z; input : Z; deposit : Z; reclaimDeposit : Z }.

Record ImplicitValue : Set := { coin : option PartialImplicitCoin; mint : option TokenMap }.

Record ImplicitTokens : Set := { spendTokens : AssetId -> Z; inputTokens : AssetId -> Z }.

Record RequiredImplicitValue : Set := { implicitCoin : ImplicitCoin; implicitTokens : ImplicitTokens }.

Definition orZero (x : option Z) : Z := match x with Some x => x | None => 0 end.

(** [partialImplicitValue?.coin?.field || 0n]. *)
Definition requiredCoin (v : option ImplicitValue) : ImplicitCoin :=
  let coinOf (field : PartialImplicitCoin -> option Z) :=
    match v with Some {| coin := Some c |} => orZero (field c) | _ => 0 end in
  {| deposit := coinOf partialDeposit; input := coinOf partialInput;
     reclaimDeposit := coinOf partialReclaimDeposit; withdrawals := coinOf partialWithdrawals |}.

Definition mintToImplicitTokens (mintMap : TokenMap) : TokenMap * TokenMap :=
  let implicitTokensInput := JsMap.of_entries (filter (fun kv => 0 < kv.2) mintMap) in
  let implicitTokensSpend :=
    JsMap.of_entries ((fun kv => (kv.1, - kv.2)) <$> filter (fun kv => kv.2 < 0) mintMap) in
  (implicitTokensInput, implicitTokensSpend).

Definition implicitTokensOf (mintMap : TokenMap) : ImplicitTokens :=
  let '(implicitTokensInput, implicitTokensSpend) := mintToImplicitTokens mintMap in
  {| inputTokens := getOr0 implicitTokensInput; spendTokens := getOr0 implicitTokensSpend |}.

Definition mintOf (v : option ImplicitValue) : TokenMap :=
  match v with Some {| mint := Some m |} => m | _ => [] end.

(** ** Selections *)

Record UtxoSelection : Set := { utxoSelected : list Utxo; utxoRemaining : list Utxo }.

Record SelectionSkeleton : Set := {
  inputs : list Utxo;
  outputs : list TxOut;
  change : list TxOut;
  fee : Z
}.

(** The redeemers are passed on as they are. *)
Record TxCosts : Set := { costFee : Z; costRedeemers : option (list string) }.

Record SelectionResult : Set := {
  selection : SelectionSkeleton;
  remainingUTxO : list Utxo;
  redeemers : option (list string)
}.

Record SelectionConstraints : Set := {
  computeMinimumCost : SelectionSkeleton -> Res TxCosts;
  tokenBundleSizeExceedsLimit : TokenMap -> bool;
  computeMinimumCoinQuantity : TxOut -> Z;
  computeSelectionLimit : SelectionSkeleton -> Res Z
}.

Record InputSelectionParameters : Set := {
  preSelectedUtxo : list Utxo;
  utxo : list Utxo;
  paramOutputs : list TxOut;
  constraints : SelectionConstraints;
  implicitValue : option ImplicitValue
}.

Record PreProcessedArgs : Set := {
  argRequiredUtxo : list Utxo;
  argUtxo : list Utxo;
  argOutputs : list TxOut;
  argChangeAddress : string;
  argUniqueTxAssetIDs : list AssetId;
  argImplicitValue : RequiredImplicitValue
}.

Definition MAX_U64 : Z := 18446744073709551615.

Definition stubMaxSizeAddress : string :=
  "addr_test1qqydn46r6mhge0kfpqmt36m6q43knzsd9ga32n96m89px3nuzcjqw982pcftgx53fu5527z2cj2tkx2h8ux2vxsg475qypp3m9".

(** [{ address, value }]. *)
Definition mkTxOut (addr : string) (v : Value) : TxOut :=
  {| address := addr; value := v; datumHash := None; datum := None; scriptReference := None |}.

(** [new Set(array)]: the first of every run of references. *)
Fixpoint newSet (l : list Utxo) : list Utxo :=
  match l with
  | [] => []
  | x :: l' => x :: filter (fun y => ref y <> ref x) (newSet l')
  end.

(** ** [util.ts] *)

Section util.
Context `{Lodash}.

Definition assetIds (v : Value) : list AssetId :=
  match assets v with Some m => JsMap.keys m | None => [] end.

Definition preProcessArgs (preSelected availableUtxo : list Utxo) (outputSet : list TxOut)
    (changeAddress : string) (partialImplicitValue : option ImplicitValue) : PreProcessedArgs :=
  let mintMap := mintOf partialImplicitValue in
  let uniqueOutputAssetIDs := uniq (concat ((fun o => assetIds (value o)) <$> outputSet)) in
  {| argChangeAddress := changeAddress;
     argImplicitValue := {| implicitCoin := requiredCoin partialImplicitValue;
                            implicitTokens := implicitTokensOf mintMap |};
     argOutputs := outputSet;
     argRequiredUtxo := preSelected;
     argUniqueTxAssetIDs := uniq (uniqueOutputAssetIDs ++ JsMap.keys mintMap);
     argUtxo := availableUtxo |}.
End util.

(** The two overloads of [toValues]. *)
Definition utxoValues (l : list Utxo) : list Value := (fun u => value (txOut u)) <$> l.
Definition outValues (l : list TxOut) : list Value := value <$> l.

Definition assetQuantitySelector (id : AssetId) (quantities : list Value) : Z :=
  BigIntMath.sum ((fun v => quantity (assets v) id) <$> quantities).

Definition getCoinQuantity (quantities : list Value) : Z := BigIntMath.sum (coins <$> quantities).

Definition assertIsCoinBalanceSufficient (utxoVs outputVs : list Value) (ic : ImplicitCoin) : Res unit :=
  if getCoinQuantity utxoVs + input ic <? getCoinQuantity outputVs + deposit ic
  then Throw (InputSelectionError UtxoBalanceInsufficient) else Ok tt.

(** [for (const assetId of uniqueTxAssetIDs)]. *)
Fixpoint assertAssets (ids : list AssetId) (utxoVs outputVs : list Value) (it : ImplicitTokens) : Res unit :=
  match ids with
  | [] => Ok tt
  | assetId :: ids' =>
      let utxoTotal := assetQuantitySelector assetId utxoVs in
      let outputsTotal := assetQuantitySelector assetId outputVs in
      if utxoTotal + inputTokens it assetId <? outputsTotal + spendTokens it assetId
      then Throw (InputSelectionError UtxoBalanceInsufficient)
      else assertAssets ids' utxoVs outputVs it
  end.

Definition assertIsBalanceSufficient (uniqueTxAssetIDs : list AssetId) (preSelected available : list Utxo)
    (outs : list TxOut) (iv : RequiredImplicitValue) : Res unit :=
  if zlen preSelected + zlen available =? 0 then Throw (InputSelectionError UtxoBalanceInsufficient)
  else
    let utxoVs := utxoValues available ++ utxoValues preSelected in
    let outputVs := outValues outs in
    assertAssets uniqueTxAssetIDs utxoVs outputVs (implicitTokens iv) ;;
    assertIsCoinBalanceSufficient utxoVs outputVs (implicitCoin iv).

Definition isValidValue (v : Value) (computeMin : TxOut -> Z) (exceedsLimit : TokenMap -> bool)
    (feeToDiscount : Z) : bool :=
  let isValid := computeMin (mkTxOut stubMaxSizeAddress v) <=? coins v - feeToDiscount in
  match assets v with
  | Some m => isValid && negb (exceedsLimit m)
  | None => isValid
  end.

(** ** Change address resolvers *)

(** What a selector relies on: the resolved change carries the same value. *)
Class ChangeAddressResolver := resolve : SelectionSkeleton -> Res (list TxOut).

Class ChangeAddressResolverLaws `{ChangeAddressResolver} : Prop := {
  resolve_coins sk l : resolve sk = Ok l ->
    ValuesFacts.totalCoins (outValues l) = ValuesFacts.totalCoins (outValues (change sk));
  resolve_qty sk l i : resolve sk = Ok l ->
    ValuesFacts.totalQty i (outValues l) = ValuesFacts.totalQty i (outValues (change sk))
}.

(** [StaticChangeAddressResolver]: the payment addresses that [getAddresses]
    resolves to, or its failure. *)
Definition StaticChangeAddressResolver (getAddresses : Res (list string)) : ChangeAddressResolver := fun sk =>
  groupedAddresses ← getAddresses;
  match groupedAddresses with
  | [] => Throw (InvalidStateError "The wallet has no known addresses.")
  | addr :: _ =>
      Ok ((fun o => {| address := addr; value := value o; datumHash := datumHash o; datum := datum o;
                       scriptReference := scriptReference o |}) <$> change sk)
  end.

(** ** Facts *)

Module SelectionFacts.
Import JsMapFacts ValuesFacts.

(** Distinct references. *)
Abbreviation refs_ok l := (NoDup (ref <$> l)).

Lemma assetQuantitySelector_total i vs : assetQuantitySelector i vs = totalQty i vs.
Proof. apply BigIntMathFacts.sum_zsum. Qed.

Lemma getCoinQuantity_total vs : getCoinQuantity vs = totalCoins vs.
Proof. apply BigIntMathFacts.sum_zsum. Qed.

Lemma utxoValues_app l k : utxoValues (l ++ k) = utxoValues l ++ utxoValues k.
Proof. apply fmap_app. Qed.

Lemma utxoValues_cons u l : utxoValues (u :: l) = value (txOut u) :: utxoValues l.
Proof. done. Qed.

#[export] Instance utxoValues_proper : Proper ((≡ₚ) ==> (≡ₚ)) utxoValues.
Proof. intros l k E. unfold utxoValues. by rewrite E. Qed.

(** The quantity of [i] that must be covered, and what covers it besides inputs. *)
Definition covers_asset (i : AssetId) (vs outs : list Value) (iv : RequiredImplicitValue) : Prop :=
  totalQty i outs + spendTokens (implicitTokens iv) i <= totalQty i vs + inputTokens (implicitTokens iv) i.

Definition covers_coins (vs outs : list Value) (iv : RequiredImplicitValue) : Prop :=
  totalCoins outs + deposit (implicitCoin iv) <= totalCoins vs + input (implicitCoin iv).

Lemma assertAssets_ok ids vs outs it : assertAssets ids vs outs it = Ok tt <->
  Forall (fun i => totalQty i outs + spendTokens it i <= totalQty i vs + inputTokens it i) ids.
Proof.
  induction ids as [|i ids IH]; cbn [assertAssets]; [split; [constructor|done]|].
  rewrite !assetQuantitySelector_total, Forall_cons. destruct (Z.ltb_spec (totalQty i vs + inputTokens it i)
    (totalQty i outs + spendTokens it i)); [|rewrite IH]; split; [done|lia|intuition lia|intuition lia].
Qed.

Lemma assertAssets_throws ids vs outs it : assertAssets ids vs outs it = Ok tt \/
  assertAssets ids vs outs it = Throw (InputSelectionError UtxoBalanceInsufficient).
Proof. induction ids as [|i ids IH]; cbn [assertAssets]; [by left|]. case_bool; [by right|done]. Qed.

Lemma assertIsBalanceSufficient_ok ids pre avail outs iv :
  assertIsBalanceSufficient ids pre avail outs iv = Ok tt <->
  pre ++ avail <> [] /\ Forall (fun i => covers_asset i (utxoValues (avail ++ pre)) (outValues outs) iv) ids /\
  covers_coins (utxoValues (avail ++ pre)) (outValues outs) iv.
Proof.
  unfold assertIsBalanceSufficient. cbv zeta. rewrite <- utxoValues_app.
  destruct (Z.eqb_spec (zlen pre + zlen avail) 0) as [E|E].
  { split; [done|]. intros [Hne _]. destruct pre as [|]; destruct avail as [|]; try done; zlen_simpl;
      pose proof (zlen_nonneg avail); pose proof (zlen_nonneg pre); lia. }
  unfold covers_asset. rewrite <- assertAssets_ok.
  unfold assertIsCoinBalanceSufficient, covers_coins. rewrite !getCoinQuantity_total.
  assert (Hne : pre ++ avail <> []) by (destruct pre, avail; done).
  destruct (assertAssets_throws ids (utxoValues (avail ++ pre)) (outValues outs) (implicitTokens iv)) as [-> | ->].
  - cbn. destruct (Z.ltb_spec (totalCoins (utxoValues (avail ++ pre)) + input (implicitCoin iv))
      (totalCoins (outValues outs) + deposit (implicitCoin iv))); split; [done|lia|done|done].
  - cbn. split; [done|]. by intros (_ & ? & _).
Qed.

Lemma assertIsBalanceSufficient_throws ids pre avail outs iv :
  assertIsBalanceSufficient ids pre avail outs iv = Ok tt \/
  assertIsBalanceSufficient ids pre avail outs iv = Throw (InputSelectionError UtxoBalanceInsufficient).
Proof.
  unfold assertIsBalanceSufficient. cbv zeta. case_bool; [by right|].
  destruct (assertAssets_throws ids (utxoValues avail ++ utxoValues pre) (outValues outs) (implicitTokens iv))
    as [-> | ->]; cbn; [|by right]. unfold assertIsCoinBalanceSufficient. case_bool; [by right|by left].
Qed.

(** *** Minting and burning *)

Lemma filter_pos (m : TokenMap) :
  filter (fun kv => 0 < kv.2) m = filter (fun kv => (0 <? kv.2) = true) m.
Proof. apply list_filter_iff. intros x. by rewrite Z.ltb_lt. Qed.

Lemma filter_neg (m : TokenMap) :
  filter (fun kv => kv.2 < 0) m = filter (fun kv => (kv.2 <? 0) = true) m.
Proof. apply list_filter_iff. intros x. by rewrite Z.ltb_lt. Qed.

Lemma getOr0_opp m i : getOr0 ((fun kv => (kv.1, - kv.2)) <$> m) i = - getOr0 m i.
Proof.
  induction m as [|[k v] m IH]; [done|]. cbn [fmap list_fmap fst snd]. rewrite !getOr0_cons, IH. by case_decide.
Qed.

Lemma keys_opp (m : TokenMap) : JsMap.keys ((fun kv => (kv.1, - kv.2)) <$> m) = JsMap.keys m.
Proof. unfold JsMap.keys. by rewrite <- list_fmap_compose. Qed.

Lemma implicitTokensOf_input m i : map_ok m -> inputTokens (implicitTokensOf m) i = Z.max 0 (getOr0 m i).
Proof.
  intros Hm. cbn. rewrite filter_pos, of_entries_nodup by by apply wf_filter.
  rewrite (getOr0_filter (fun q => 0 <? q)) by done. destruct (Z.ltb_spec 0 (getOr0 m i)); lia.
Qed.

Lemma implicitTokensOf_spend m i : map_ok m -> spendTokens (implicitTokensOf m) i = Z.max 0 (- getOr0 m i).
Proof.
  intros Hm. cbn. rewrite filter_neg, of_entries_nodup.
  - rewrite getOr0_opp, (getOr0_filter (fun q => q <? 0)) by done. destruct (Z.ltb_spec (getOr0 m i) 0); lia.
  - unfold JsMap.wf. rewrite keys_opp. by apply (wf_filter _ m).
Qed.

(** *** Sets of references *)

Lemma newSet_subset l x : x ∈ newSet l -> x ∈ l.
Proof.
  induction l as [|y l IH]; cbn [newSet]; [done|]. rewrite !elem_of_cons, list_elem_of_filter. intuition auto.
Qed.

Lemma refs_filter (P : Utxo -> Prop) `{!forall x, Decision (P x)} l : refs_ok l -> refs_ok (filter P l).
Proof.
  induction l as [|x l IH]; [done|]. rewrite filter_cons. cbn [fmap list_fmap]. intros [Hx Hl]%NoDup_cons.
  case_decide; [|by apply IH]. cbn [fmap list_fmap]. apply NoDup_cons. split; [|by apply IH].
  intros (z & E & [_ Hz]%list_elem_of_filter)%list_elem_of_fmap. apply Hx. rewrite E. by apply list_elem_of_fmap_2.
Qed.

Lemma newSet_refs_ok l : refs_ok (newSet l).
Proof.
  induction l as [|y l IH]; cbn [newSet fmap list_fmap]; [constructor|]. apply NoDup_cons.
  split; [|by apply refs_filter]. intros (z & E & [Hz _]%list_elem_of_filter)%list_elem_of_fmap. by symmetry in E.
Qed.

Lemma newSet_id l : refs_ok l -> newSet l = l.
Proof.
  induction l as [|x l IH]; cbn [newSet fmap list_fmap]; [done|]. intros [Hx Hl]%NoDup_cons.
  rewrite (IH Hl). f_equal. apply filter_all. apply Forall_forall. intros y Hy E. apply Hx.
  rewrite <- E. by apply list_elem_of_fmap_2.
Qed.

(** *** The static resolver *)

Lemma static_values (addr : string) (l : list TxOut) :
  outValues ((fun o => {| address := addr; value := value o; datumHash := datumHash o; datum := datum o;
                          scriptReference := scriptReference o |}) <$> l) = outValues l.
Proof. unfold outValues. by rewrite <- list_fmap_compose. Qed.

Lemma static_laws getAddresses : @ChangeAddressResolverLaws (StaticChangeAddressResolver getAddresses).
Proof.
  split; intros sk l; [|intros i]; unfold resolve, StaticChangeAddressResolver;
    (destruct getAddresses as [[|addr ?]|?|]; cbn [mbind outcome_bind]; [done| |done..]);
    intros [= <-]; by rewrite static_values.
Qed.
End SelectionFacts.
