(* ===== verification/RoundRobin.v ===== *)
(** * Round-robin selection

    Models [RoundRobinRandomImprove/roundRobin.ts].  The loop over
    [tokensRemaining.entries()] is an iterator over an array that shrinks
    while it is iterated, so removing a token makes the iterator step over the
    next one.  [draw i n] is the value of [Math.floor(random() * n)] at the
    [i]-th call of the injected random source. *)

From S2P Require Import Prelude JsRuntime Values Selection.

(** ** Random draws *)

Class Random := draw : nat -> Z -> Z.

(** [random()] lies in the half-open unit interval. *)
Class RandomLaws `{Random} : Prop := draw_range i n : 0 < n -> 0 <= draw i n < n.

(** ** Arrays *)

(** [array.indexOf(x)], by reference. *)
Fixpoint indexOf (l : list Utxo) (x : Utxo) : Z :=
  match l with
  | [] => -1
  | y :: l' => if ref y =? ref x then 0 else let i := indexOf l' x in if i =? -1 then -1 else i + 1
  end.

(** [array.splice(start, 1)]: a negative start counts from the end. *)
Definition splice1 {A} (l : list A) (start : Z) : list A :=
  let i := Z.to_nat (if start <? 0 then Z.max 0 (zlen l + start) else start) in
  take i l ++ drop (S i) l.

(** ** The algorithm *)

Definition improvesSelection (utxoAlreadySelected : list Utxo) (inp : Utxo) (minimumTarget : Z)
    (getQuantity : list Utxo -> Z) : bool :=
  let oldQuantity := getQuantity utxoAlreadySelected in
  if oldQuantity <? minimumTarget then true
  else
    let newQuantity := oldQuantity + getQuantity [inp] in
    let idealTarget := 2 * minimumTarget in
    let newDistance := BigIntMath.abs (idealTarget - newQuantity) in
    let oldDistance := BigIntMath.abs (idealTarget - oldQuantity) in
    newDistance <? oldDistance.

Record Token : Set := {
  filterUtxo : list Utxo -> list Utxo;
  getTotalSelectedQuantity : list Utxo -> Z;
  minimumTarget : Z
}.

Definition assetToken (outs : list TxOut) (it : ImplicitTokens) (id : AssetId) : Token :=
  let implicitInput := inputTokens it id in
  let implicitSpend := spendTokens it id in
  {| filterUtxo := filter (fun u => quantity (assets (value (txOut u))) id <> 0);
     getTotalSelectedQuantity := fun l => assetQuantitySelector id (utxoValues l) + implicitInput;
     minimumTarget := assetQuantitySelector id (outValues outs) + implicitSpend |}.

Definition coinToken (outs : list TxOut) (ic : ImplicitCoin) : Token :=
  {| filterUtxo := fun l => l;
     getTotalSelectedQuantity := fun l => getCoinQuantity (utxoValues l) + input ic;
     minimumTarget := getCoinQuantity (outValues outs) + deposit ic |}.

Definition listTokensWithin (ids : list AssetId) (outs : list TxOut) (iv : RequiredImplicitValue) : list Token :=
  (assetToken outs (implicitTokens iv) <$> ids) ++ [coinToken outs (implicitCoin iv)].

Section roundRobin.
Context `{Random}.

(** [Math.floor(random() * n)]. *)
Definition floorRandom (n : Z) : Sel Z := fun i => (Ok (draw i n), S i).

Record State : Set := {
  stSelected : list Utxo;
  stRemaining : list Utxo;
  tokensRemaining : list Token
}.

(** One turn of the [for] loop.  Reading past the end of [utxo] would yield
    [undefined]; no draw in range does. *)
Definition visit (tokenIdx : nat) (tk : Token) (s : State) : Sel State :=
  let dropToken := {| stSelected := stSelected s; stRemaining := stRemaining s;
                      tokensRemaining := splice1 (tokensRemaining s) (Z.of_nat tokenIdx) |} in
  let utxo := filterUtxo tk (stRemaining s) in
  if 0 <? zlen utxo then
    inputIdx ← floorRandom (zlen utxo);
    match utxo !! Z.to_nat inputIdx with
    | None => st_throw (TypeError "undefined is not iterable")
    | Some inp =>
        mret (if improvesSelection (stSelected s) inp (minimumTarget tk) (getTotalSelectedQuantity tk)
              then {| stSelected := stSelected s ++ [inp];
                      stRemaining := splice1 (stRemaining s) (indexOf (stRemaining s) inp);
                      tokensRemaining := tokensRemaining s |}
              else dropToken)
    end
  else mret dropToken.

(** [for (const [tokenIdx, token] of tokensRemaining.entries())]. *)
Fixpoint pass (fuel : nat) (tokenIdx : nat) (s : State) : Sel State :=
  match tokensRemaining s !! tokenIdx, fuel with
  | None, _ => mret s
  | Some _, O => st_fuel
  | Some tk, S fuel' => s' ← visit tokenIdx tk s; pass fuel' (S tokenIdx) s'
  end.

(** Every turn moves an input or drops a token. *)
Definition loopFuel (s : State) : nat := S (length (stRemaining s) + length (tokensRemaining s)).

(** [while (tokensRemaining.length > 0)]. *)
Fixpoint rounds (fuel : nat) (s : State) : Sel State :=
  match tokensRemaining s, fuel with
  | [], _ => mret s
  | _, O => st_fuel
  | _, S fuel' => s' ← pass (loopFuel s) O s; rounds fuel' s'
  end.

(** With nothing selected and nothing to select, [utxoRemaining[0]] is
    [undefined], and reading its value throws. *)
Definition roundRobinSelection (requiredUtxo available : list Utxo) (outs : list TxOut)
    (uniqueTxAssetIDs : list AssetId) (iv : RequiredImplicitValue) : Sel UtxoSelection :=
  let s := {| stSelected := requiredUtxo; stRemaining := available;
              tokensRemaining := listTokensWithin uniqueTxAssetIDs outs iv |} in
  s' ← rounds (loopFuel s) s;
  match stSelected s', stRemaining s' with
  | [], u :: rest => mret {| utxoSelected := [u]; utxoRemaining := rest |}
  | [], [] => st_throw (TypeError "undefined is not iterable")
  | sel, rest => mret {| utxoSelected := sel; utxoRemaining := rest |}
  end.
End roundRobin.

(** ** Facts *)

Module RoundRobinFacts.
Import ValuesFacts SelectionFacts.

(** *** Removing elements *)

Lemma splice1_at {A} (l1 l2 : list A) x i : i = zlen l1 -> splice1 (l1 ++ x :: l2) i = l1 ++ l2.
Proof.
  intros ->. unfold splice1, zlen. cbv zeta. rewrite (proj2 (Z.ltb_ge _ _)) by lia. rewrite Nat2Z.id.
  rewrite take_app_length. f_equal. change (S (length l1)) with (1 + length l1)%nat.
  rewrite Nat.add_comm, <- drop_drop, drop_app_length. done.
Qed.

Lemma indexOf_split l x : x ∈ l -> refs_ok l -> exists l1 l2, l = l1 ++ x :: l2 /\ indexOf l x = zlen l1.
Proof.
  induction l as [|y l IH]; [by intros []%not_elem_of_nil|]. intros Hx [Hy Hl]%NoDup_cons.
  cbn [indexOf]. apply elem_of_cons in Hx as [->|Hx].
  - exists [], l. rewrite Z.eqb_refl. done.
  - destruct (Z.eqb_spec (ref y) (ref x)) as [E|E].
    { exfalso. apply Hy. rewrite E. by apply list_elem_of_fmap_2. }
    destruct (IH Hx Hl) as (l1 & l2 & -> & Ei). exists (y :: l1), l2. split; [done|].
    cbv zeta. rewrite Ei. pose proof (zlen_nonneg l1). rewrite (proj2 (Z.eqb_neq _ _)) by lia. by zlen_simpl.
Qed.

(** *** Tokens that can be covered *)

Record token_ok (all : list Utxo) (tk : Token) : Prop := {
  tk_filter l x : x ∈ filterUtxo tk l -> x ∈ l;
  tk_mono l x : x ∈ all -> getTotalSelectedQuantity tk l <= getTotalSelectedQuantity tk (l ++ [x]);
  tk_enough sel rem : sel ++ rem ≡ₚ all -> filterUtxo tk rem = [] ->
    minimumTarget tk <= getTotalSelectedQuantity tk sel
}.

Definition covered (tk : Token) (sel : list Utxo) : Prop := minimumTarget tk <= getTotalSelectedQuantity tk sel.

(** The values of the ledger: no negative quantity, no asset listed twice. *)
Definition value_nonneg (v : Value) : Prop :=
  0 <= coins v /\ value_ok v /\ forall i, 0 <= qty i v.

Definition utxo_ok (u : Utxo) : Prop := value_nonneg (value (txOut u)).

Lemma totalQty_zero i l : Forall (fun u => ~ (quantity (assets (value (txOut u))) i <> 0)) l ->
  totalQty i (utxoValues l) = 0.
Proof.
  induction 1 as [|u l Hu _ IH]; [done|].
  rewrite utxoValues_cons, totalQty_cons, IH. unfold qty.
  destruct (Z.eq_dec (quantity (assets (value (txOut u))) i) 0) as [->|]; done.
Qed.

Lemma assetToken_ok all outs iv id : Forall utxo_ok all ->
  covers_asset id (utxoValues all) (outValues outs) iv -> token_ok all (assetToken outs (implicitTokens iv) id).
Proof.
  intros Hall Hcov. rewrite Forall_forall in Hall. split.
  - intros l x. cbn. rewrite list_elem_of_filter. by intros [_ ?].
  - intros l x Hx. cbn. rewrite !assetQuantitySelector_total, utxoValues_app, totalQty_app, utxoValues_cons, totalQty_cons.
    destruct (Hall x Hx) as (_ & _ & Hq). specialize (Hq id). change (totalQty id (utxoValues [])) with 0. lia.
  - intros sel rem Hp Hf. cbn in *. rewrite !assetQuantitySelector_total.
    apply filter_none, totalQty_zero in Hf. unfold covers_asset in Hcov.
    rewrite <- Hp, utxoValues_app, totalQty_app, Hf in Hcov. lia.
Qed.

Lemma coinToken_ok all outs iv : Forall utxo_ok all ->
  covers_coins (utxoValues all) (outValues outs) iv -> token_ok all (coinToken outs (implicitCoin iv)).
Proof.
  intros Hall Hcov. rewrite Forall_forall in Hall. split.
  - done.
  - intros l x Hx. cbn. rewrite !getCoinQuantity_total, utxoValues_app, totalCoins_app, utxoValues_cons, totalCoins_cons.
    destruct (Hall x Hx) as (Hq & _). change (totalCoins (utxoValues [])) with 0. lia.
  - intros sel rem Hp Hf. cbn in *. subst rem. rewrite app_nil_r in Hp.
    rewrite !getCoinQuantity_total, Hp. done.
Qed.

(** *** The loop *)

Section loop.
Context {RD : Random} {RL : RandomLaws} (all required : list Utxo) (toks : list Token).
Context (Htoks : Forall (token_ok all) toks).

Record inv (s : State) : Prop := {
  inv_perm : stSelected s ++ stRemaining s ≡ₚ all;
  inv_refs : refs_ok (stRemaining s);
  inv_prefix : required `prefix_of` stSelected s;
  inv_tokens tk : tk ∈ tokensRemaining s -> tk ∈ toks;
  inv_covered tk : tk ∈ toks -> tk ∈ tokensRemaining s \/ covered tk (stSelected s)
}.

Definition size (s : State) : nat := length (stRemaining s) + length (tokensRemaining s).

(** Dropping a token that is covered. *)
Lemma drop_inv s idx tk : inv s -> tokensRemaining s !! idx = Some tk -> covered tk (stSelected s) ->
  let s' := {| stSelected := stSelected s; stRemaining := stRemaining s;
               tokensRemaining := splice1 (tokensRemaining s) (Z.of_nat idx) |} in
  inv s' /\ size s = S (size s').
Proof.
  intros [Hp Hr Hpre Ht Hc] Hidx Hcov. cbv zeta.
  assert (Hsplit := take_drop_middle _ _ _ Hidx).
  assert (Hlen : Z.of_nat idx = zlen (take idx (tokensRemaining s))).
  { unfold zlen. rewrite length_take. apply lookup_lt_Some in Hidx. lia. }
  assert (Hsp : splice1 (tokensRemaining s) (Z.of_nat idx) = take idx (tokensRemaining s) ++ drop (S idx) (tokensRemaining s)).
  { rewrite <- Hsplit at 1. by apply splice1_at. }
  split.
  - split; cbn; [done..| |]; rewrite Hsp.
    + intros tk' Hin. apply Ht. rewrite <- Hsplit. rewrite elem_of_app, elem_of_cons. apply elem_of_app in Hin. tauto.
    + intros tk' Hin. destruct (Hc tk' Hin) as [Hin'|]; [|by right]. rewrite <- Hsplit in Hin'.
      rewrite elem_of_app, elem_of_cons in Hin'. rewrite elem_of_app. destruct Hin' as [|[->|]]; auto.
  - unfold size. cbn [stRemaining tokensRemaining]. rewrite Hsp. rewrite <- Hsplit at 1. rewrite !length_app. cbn. lia.
Qed.

Lemma take_inv s inp : inv s -> inp ∈ stRemaining s ->
  let s' := {| stSelected := stSelected s ++ [inp];
               stRemaining := splice1 (stRemaining s) (indexOf (stRemaining s) inp);
               tokensRemaining := tokensRemaining s |} in
  inv s' /\ size s = S (size s').
Proof.
  intros [Hp Hr Hpre Ht Hc] Hin. cbv zeta. destruct (indexOf_split _ _ Hin Hr) as (l1 & l2 & El & Ei).
  rewrite El, (splice1_at l1 l2 inp) by (by rewrite <- El). split.
  - split; cbn; [| |by apply prefix_app_r|done|].
    + rewrite <- Hp, El, <- app_assoc. f_equiv. exact (Permutation_middle l1 l2 inp).
    + rewrite El in Hr. rewrite !fmap_app, fmap_cons in Hr. rewrite fmap_app.
      apply NoDup_app in Hr as (H1 & H2 & [_ H3]%NoDup_cons). apply NoDup_app. split_and!; [done| |done].
      intros x Hx Hx2. apply (H2 x Hx). by right.
    + intros tk Htk. destruct (Hc tk Htk) as [|Hcov]; [by left|right].
      unfold covered in *. rewrite Forall_forall in Htoks. assert (Hall : inp ∈ all) by (rewrite <- Hp; apply elem_of_app; by right).
      pose proof (tk_mono all tk (Htoks tk Htk) (stSelected s) inp Hall). cbn. lia.
  - unfold size. cbn [stRemaining tokensRemaining]. rewrite El, !length_app. cbn. lia.
Qed.

Lemma visit_inv s idx tk i : inv s -> tokensRemaining s !! idx = Some tk ->
  exists s' i', visit idx tk s i = (Ok s', i') /\ inv s' /\ size s = S (size s').
Proof.
  intros Hs Hidx. assert (Htk : token_ok all tk).
  { rewrite Forall_forall in Htoks. apply Htoks, (inv_tokens s Hs). by eapply list_elem_of_lookup_2. }
  unfold visit. cbv zeta. destruct (Z.ltb_spec 0 (zlen (filterUtxo tk (stRemaining s)))) as [Hlt|Hge].
  - unfold floorRandom, mbind, ST_bind. pose proof (draw_range i _ Hlt) as Hd.
    destruct (lookup_lt_is_Some_2 (filterUtxo tk (stRemaining s)) (Z.to_nat (draw i (zlen (filterUtxo tk (stRemaining s))))))
      as [inp Hinp]; [unfold zlen in *; lia|]. rewrite Hinp.
    assert (Hin : inp ∈ stRemaining s) by (eapply tk_filter; [done|by eapply list_elem_of_lookup_2]).
    eexists _, _. split; [reflexivity|]. destruct (improvesSelection _ _ _ _) eqn:Eimp.
    + by apply take_inv.
    + apply (drop_inv s idx tk); [done..|]. unfold improvesSelection in Eimp. unfold covered.
      destruct (Z.ltb_spec (getTotalSelectedQuantity tk (stSelected s)) (minimumTarget tk)); [done|lia].
  - eexists _, _. split; [reflexivity|]. apply (drop_inv s idx tk); [done..|].
    eapply tk_enough; [done|apply (inv_perm s Hs)|]. apply zlen_0. pose proof (zlen_nonneg (filterUtxo tk (stRemaining s))). lia.
Qed.

Lemma pass_inv fuel idx s i : inv s -> (size s < fuel)%nat ->
  exists s' i', pass fuel idx s i = (Ok s', i') /\ inv s' /\
    (size s' <= size s)%nat /\ (tokensRemaining s !! idx <> None -> (size s' < size s)%nat).
Proof.
  revert idx s i. induction fuel as [|fuel IH]; intros idx s i Hs Hf; [lia|]. cbn [pass].
  destruct (tokensRemaining s !! idx) as [tk|] eqn:Etk; [|by eexists _, _].
  destruct (visit_inv s idx tk i Hs Etk) as (s1 & i1 & E1 & Hs1 & Hsz).
  destruct (IH (S idx) s1 i1 Hs1 ltac:(lia)) as (s2 & i2 & E2 & Hs2 & Hle & _).
  rewrite (st_bind_ok _ _ _ _ _ E1). eexists _, _. split_and!; [done..|lia|intros _; lia].
Qed.

Lemma rounds_inv fuel s i : inv s -> (size s < fuel)%nat ->
  exists s' i', rounds fuel s i = (Ok s', i') /\ inv s' /\ tokensRemaining s' = [].
Proof.
  revert s i. induction fuel as [|fuel IH]; intros s i Hs Hf; [lia|]. cbn [rounds].
  destruct (tokensRemaining s) as [|tk tks] eqn:Etk; [by eexists _, _|].
  destruct (pass_inv (loopFuel s) 0 s i Hs ltac:(unfold loopFuel, size; lia)) as (s1 & i1 & E1 & Hs1 & _ & Hlt).
  rewrite Etk in Hlt. specialize (Hlt ltac:(done)).
  rewrite (st_bind_ok _ _ _ _ _ E1). apply IH; [done|lia].
Qed.
End loop.

Lemma listTokensWithin_ok all ids outs iv : Forall utxo_ok all ->
  Forall (fun i => covers_asset i (utxoValues all) (outValues outs) iv) ids ->
  covers_coins (utxoValues all) (outValues outs) iv -> Forall (token_ok all) (listTokensWithin ids outs iv).
Proof.
  intros Hall Hids Hcoins. unfold listTokensWithin. apply Forall_app. split.
  - apply Forall_fmap. eapply Forall_impl; [exact Hids|]. intros i Hi. by apply assetToken_ok.
  - constructor; [by apply coinToken_ok|constructor].
Qed.

Lemma covered_tokens ids outs iv sel : (forall tk, tk ∈ listTokensWithin ids outs iv -> covered tk sel) ->
  Forall (fun a => covers_asset a (utxoValues sel) (outValues outs) iv) ids /\
  covers_coins (utxoValues sel) (outValues outs) iv.
Proof.
  intros Hcov. unfold listTokensWithin in Hcov. setoid_rewrite elem_of_app in Hcov. split.
  - apply Forall_forall. intros a Ha. specialize (Hcov (assetToken outs (implicitTokens iv) a)).
    unfold covered in Hcov. cbn in Hcov. rewrite !assetQuantitySelector_total in Hcov.
    apply Hcov. left. by apply list_elem_of_fmap_2.
  - specialize (Hcov (coinToken outs (implicitCoin iv))). unfold covered in Hcov. cbn in Hcov.
    rewrite !getCoinQuantity_total in Hcov. apply Hcov. right. by apply list_elem_of_singleton.
Qed.

(** Termination, partition and coverage of the round-robin selection. *)
Theorem roundRobinSelection_spec {RD : Random} {RL : RandomLaws} req avail outs ids iv i :
  refs_ok avail -> Forall utxo_ok (req ++ avail) -> req ++ avail <> [] ->
  Forall (fun a => covers_asset a (utxoValues (req ++ avail)) (outValues outs) iv) ids ->
  covers_coins (utxoValues (req ++ avail)) (outValues outs) iv ->
  exists sel i', roundRobinSelection req avail outs ids iv i = (Ok sel, i') /\
    utxoSelected sel ++ utxoRemaining sel ≡ₚ req ++ avail /\ refs_ok (utxoRemaining sel) /\
    req `prefix_of` utxoSelected sel /\ utxoSelected sel <> [] /\
    Forall (fun a => covers_asset a (utxoValues (utxoSelected sel)) (outValues outs) iv) ids /\
    covers_coins (utxoValues (utxoSelected sel)) (outValues outs) iv.
Proof.
  intros Hrefs Hok Hne Hids Hcoins. set (all := req ++ avail) in *. set (toks := listTokensWithin ids outs iv).
  pose proof (listTokensWithin_ok all ids outs iv Hok Hids Hcoins) as Htoks. fold toks in Htoks.
  set (s0 := {| stSelected := req; stRemaining := avail; tokensRemaining := toks |}).
  assert (Hs0 : inv all req toks s0) by (split; cbn; [done..|auto]).
  destruct (rounds_inv all req toks Htoks (loopFuel s0) s0 i Hs0) as (s & i' & E & Hs & Htk); [unfold loopFuel, size; lia|].
  unfold roundRobinSelection. fold toks. fold s0. rewrite (st_bind_ok _ _ _ _ _ E).
  destruct Hs as [Hp Hr Hpre _ Hc]. rewrite Htk in Hc.
  assert (Hcov : forall tk, tk ∈ toks -> covered tk (stSelected s)).
  { intros tk Hin. destruct (Hc tk Hin) as [[]%not_elem_of_nil|]; done. }
  destruct (stSelected s) as [|x sel] eqn:Esel; [destruct (stRemaining s) as [|u rest] eqn:Erem|].
  - by apply Permutation_nil_l in Hp.
  - eexists _, _. split; [reflexivity|]. cbn [utxoSelected utxoRemaining].
    assert (req = []) as -> by (by apply prefix_nil_inv). split; [done|]. split; [by apply NoDup_cons in Hr as [_ ?]|].
    split; [apply prefix_nil|]. split; [done|].
    apply covered_tokens. intros tk Hin. unfold covered. etrans; [by apply Hcov|].
    rewrite Forall_forall in Htoks. apply (tk_mono all tk (Htoks tk Hin) []). rewrite <- Hp. left.
  - eexists _, _. split; [reflexivity|]. cbn [utxoSelected utxoRemaining].
    do 4 (split; [done|]). by apply covered_tokens.
Qed.
End RoundRobinFacts.
