(* ===== verification/Change.v ===== *)
(** * Change

    Models [packages/input-selection/src/change.ts]: dividing what the inputs
    hold beyond the outputs into change bundles, merging bundles that are
    below the minimum coin quantity, splitting those that are too large, and
    the loop that settles the fee.  Bundles are fresh objects which no caller
    shares, so updates in place are updates of the list of bundles. *)

From S2P Require Import Prelude JsRuntime Values Selection.

(** BigInt division truncates and throws on zero. *)
Definition bigint_div (a b : Z) : Res Z :=
  if b =? 0 then Throw (RangeError "Division by zero") else Ok (Z.quot a b).

(** Loops whose body may throw. *)
Fixpoint foldRes {A B} (f : B -> A -> Res B) (l : list A) (b : B) : Res B :=
  match l with
  | [] => Ok b
  | x :: l' => b' ← f b x; foldRes f l' b'
  end.

(** [array[i] = f(array[i])]. *)
Definition updateAt {A} (i : nat) (f : A -> A) (l : list A) : list A := alter f i l.

Section change.
Context `{Lodash}.

(** ** Leftover assets *)

Definition getOrEmpty (m : list (AssetId * list Z)) (id : AssetId) : list Z :=
  match JsMap.get m id with Some l => l | None => [] end.

Definition addLeftover (uniqueTxAssetIDs : list AssetId) (leftovers : list (AssetId * list Z)) (u : Utxo) :
    list (AssetId * list Z) :=
  match assets (value (txOut u)) with
  | None => leftovers
  | Some assets =>
      let leftoverAssetKeys := filter (fun id => id ∉ uniqueTxAssetIDs) (JsMap.keys assets) in
      fold_left (fun leftovers assetKey =>
          let quantity := getOr0 assets assetKey in
          if quantity =? 0 then leftovers
          else JsMap.set leftovers assetKey (getOrEmpty leftovers assetKey ++ [quantity]))
        leftoverAssetKeys leftovers
  end.

Definition getLeftoverAssets (selected : list Utxo) (uniqueTxAssetIDs : list AssetId) : list (AssetId * list Z) :=
  fold_left (addLeftover uniqueTxAssetIDs) selected [].

(** [while (quantities.length > n)]: the last quantity is added to the one
    before it.  The list is reversed, its head the smallest quantity. *)
Fixpoint coalesceRev (n : nat) (smallest : Z) (rest : list Z) : list Z :=
  match rest with
  | [] => [smallest]
  | q :: rest' => if (length rest <? n)%nat then smallest :: rest else coalesceRev n (q + smallest) rest'
  end.

Definition coalesceSmallest (n : nat) (quantities : list Z) : list Z :=
  match reverse quantities with
  | [] => []
  | smallest :: rest => reverse (coalesceRev n smallest rest)
  end.

Definition entriesOf (v : Value) : TokenMap := match assets v with Some m => m | None => [] end.

(** [for (const [idx, quantity] of quantities.entries())]. *)
Fixpoint distribute (assetId : AssetId) (quantities : list Z) (bundles : list Value) : list Value :=
  match quantities, bundles with
  | quantity :: quantities', originalBundle :: bundles' =>
      {| assets := Some (JsMap.of_entries (entriesOf originalBundle ++ [(assetId, quantity)]));
         coins := coins originalBundle |} :: distribute assetId quantities' bundles'
  | _, _ => bundles
  end.

Definition redistributeOne (leftovers : list (AssetId * list Z)) (resultBundles : list Value) (assetId : AssetId) :
    list Value :=
  let quantities := orderByDesc (fun q => q) (getOrEmpty leftovers assetId) in
  let resultBundles := if zlen resultBundles =? 0 then [{| coins := 0; assets := None |}] else resultBundles in
  distribute assetId (coalesceSmallest (length resultBundles) quantities) resultBundles.

Definition redistributeLeftoverAssets (selected : list Utxo) (requestedAssetChangeBundles : list Value)
    (uniqueTxAssetIDs : list AssetId) : list Value :=
  let leftovers := getLeftoverAssets selected uniqueTxAssetIDs in
  fold_left (redistributeOne leftovers) (JsMap.keys leftovers) requestedAssetChangeBundles.

(** ** Requested assets *)

Record Totals : Set := { totalSelected : Z; totalRequested : Z }.

Definition bundleAsset (assetTotals : list (AssetId * Totals)) (acc : TokenMap * TokenMap)
    (entry : AssetId * Z) : Res (TokenMap * TokenMap) :=
  let '(bundle, totalAssetsBundled) := acc in
  let '(assetId, outputAmount) := entry in
  match JsMap.get assetTotals assetId with
  | None => Throw (TypeError "Cannot destructure property 'selected' of undefined")
  | Some {| totalSelected := selected; totalRequested := requested |} =>
      let assetChangeTotal := selected - requested in
      assetChange ← bigint_div (assetChangeTotal * outputAmount) selected;
      Ok (JsMap.set bundle assetId assetChange,
          JsMap.set totalAssetsBundled assetId (getOr0 totalAssetsBundled assetId + assetChange))
  end.

Record Bundled : Set := { bundles : list Value; totalAssetsBundled : TokenMap; totalCoinBundled : Z }.

Definition bundleOutput (coinTotalRequested coinChangeTotal : Z) (assetTotals : list (AssetId * Totals))
    (acc : Bundled) (v : Value) : Res Bundled :=
  let cs := if 0 <? coinTotalRequested then Z.quot (coinChangeTotal * coins v) coinTotalRequested else 0 in
  match assets v with
  | None =>
      Ok {| bundles := bundles acc ++ [{| coins := cs; assets := None |}];
            totalAssetsBundled := totalAssetsBundled acc; totalCoinBundled := totalCoinBundled acc + cs |}
  | Some outputAssets =>
      '(bundle, total) ← foldRes (bundleAsset assetTotals) outputAssets ([], totalAssetsBundled acc);
      Ok {| bundles := bundles acc ++ [{| coins := cs; assets := Some bundle |}];
            totalAssetsBundled := total; totalCoinBundled := totalCoinBundled acc + cs |}
  end.

Definition createBundlePerOutput (outputValues : list Value) (coinTotalRequested coinChangeTotal : Z)
    (assetTotals : list (AssetId * Totals)) : Res Bundled :=
  foldRes (bundleOutput coinTotalRequested coinChangeTotal assetTotals) outputValues
    {| bundles := []; totalAssetsBundled := []; totalCoinBundled := 0 |}.

(** The bundles, with a token map at the position returned. *)
Definition smallestBundleTokenMap (bs : list Value) : list Value * nat :=
  if zlen bs =? 0 then ([{| assets := Some []; coins := 0 |}], O)
  else
    let i := minByIndex (fun b => JsMap.size (entriesOf b)) bs in
    (updateAt i (fun b => match assets b with
                          | Some _ => b
                          | None => {| assets := Some []; coins := coins b |}
                          end) bs, i).

(** [bundles.findIndex(({ assets }) => assets?.has(assetId))]. *)
Fixpoint findWith (assetId : AssetId) (bs : list Value) : option nat :=
  match bs with
  | [] => None
  | b :: bs' =>
      if JsMap.has (entriesOf b) assetId then Some O
      else match findWith assetId bs' with Some i => Some (S i) | None => None end
  end.

Definition addLost (assetTotals : list (AssetId * Totals)) (bundled : TokenMap) (bs : list Value)
    (assetId : AssetId) : list Value :=
  match JsMap.get assetTotals assetId with
  | None => bs
  | Some t =>
      let assetLost := totalSelected t - totalRequested t - getOr0 bundled assetId in
      if 0 <? assetLost then
        let '(bs', i) := match findWith assetId bs with Some i => (bs, i) | None => smallestBundleTokenMap bs end in
        updateAt i (fun b => {| assets := Some (JsMap.set (entriesOf b) assetId (getOr0 (entriesOf b) assetId + assetLost));
                                coins := coins b |}) bs'
      else bs
  end.

Definition assetTotalsOf (selectedValues outputValues : list Value) (uniqueTxAssetIDs : list AssetId)
    (it : ImplicitTokens) : list (AssetId * Totals) :=
  fold_left (fun m assetId =>
      JsMap.set m assetId
        {| totalRequested := assetQuantitySelector assetId outputValues + spendTokens it assetId;
           totalSelected := assetQuantitySelector assetId selectedValues + inputTokens it assetId |})
    uniqueTxAssetIDs [].

Definition addCoinLost (coinLost : Z) (bs : list Value) : list Value :=
  if 0 <? coinLost then
    match bs with
    | [] => [{| coins := coinLost; assets := None |}]
    | b :: bs' => {| coins := coins b + coinLost; assets := assets b |} :: bs'
    end
  else bs.

Definition computeRequestedAssetChangeBundles (selected : list Utxo) (outputValues : list Value)
    (uniqueTxAssetIDs : list AssetId) (iv : RequiredImplicitValue) (fee : Z) : Res (list Value) :=
  let selectedValues := utxoValues selected in
  let assetTotals := assetTotalsOf selectedValues outputValues uniqueTxAssetIDs (implicitTokens iv) in
  let coinTotalSelected := getCoinQuantity selectedValues + input (implicitCoin iv) in
  let coinTotalRequested := getCoinQuantity outputValues + fee + deposit (implicitCoin iv) in
  let coinChangeTotal := coinTotalSelected - coinTotalRequested in
  b ← createBundlePerOutput outputValues coinTotalRequested coinChangeTotal assetTotals;
  let bs := addCoinLost (coinChangeTotal - totalCoinBundled b) (bundles b) in
  Ok (fold_left (addLost assetTotals (totalAssetsBundled b)) uniqueTxAssetIDs bs).

(** ** Minimum coin quantity *)

Definition mergeWithSmallestBundle (values : list Value) (i : nat) : list Value :=
  match values !! i with
  | None => values
  | Some toBeMerged =>
      let result := take i values ++ drop (S i) values in
      match reverse result with
      | [] => [toBeMerged]
      | last :: front =>
          let merged := coalesceValueQuantities [toBeMerged; last] in
          orderByDesc coins (reverse front ++ [merged])
      end
  end.

(** The first [i] from the end whose bundle does not satisfy [p]. *)
Fixpoint lastFailing (p : Value -> bool) (l : list Value) : option nat :=
  match l with
  | [] => None
  | x :: l' =>
      match lastFailing p l' with
      | Some i => Some (S i)
      | None => if p x then None else Some O
      end
  end.

(** [while (sortedBundles.length > 1 && !allBundlesSatisfyMinCoin)]; every
    iteration that goes on has merged two bundles. *)
Fixpoint coalesceLoop (fuel : nat) (satisfies : Value -> bool) (sortedBundles : list Value) : list Value :=
  match fuel with
  | O => sortedBundles
  | S fuel' =>
      if 1 <? zlen sortedBundles then
        match lastFailing satisfies sortedBundles with
        | None => sortedBundles
        | Some i => coalesceLoop fuel' satisfies (mergeWithSmallestBundle sortedBundles i)
        end
      else sortedBundles
  end.

Definition satisfiesMinCoinRequirement (computeMin : TxOut -> Z) (v : Value) : bool :=
  computeMin (mkTxOut stubMaxSizeAddress v) <=? coins v.

Definition dropZeroQuantities (v : Value) : Value :=
  {| assets := match assets v with
               | Some m => Some (JsMap.of_entries (filter (fun kv => 0 < kv.2) m))
               | None => None
               end;
     coins := coins v |}.

Definition nonEmptyBundle (b : Value) : bool := (0 <? coins b) || (0 <? JsMap.size (entriesOf b)).

Definition coalesceChangeBundlesForMinCoinRequirement (changeBundles : list Value) (computeMin : TxOut -> Z) :
    option (list Value) :=
  if zlen changeBundles =? 0 then Some changeBundles
  else
    let noZeroQuantityAssetChangeBundles := dropZeroQuantities <$> changeBundles in
    let sortedBundles := orderByDesc coins noZeroQuantityAssetChangeBundles in
    let sortedBundles := coalesceLoop (length sortedBundles) (satisfiesMinCoinRequirement computeMin) sortedBundles in
    match sortedBundles with
    | [] => None
    | b :: _ =>
        if satisfiesMinCoinRequirement computeMin b
        then Some (filter (fun b => nonEmptyBundle b = true) sortedBundles) else None
    end.

(** ** Token bundle size *)

(** [newValues] and the bundle being filled. *)
Definition splitStep (exceeds : TokenMap -> bool) (acc : list TokenMap * TokenMap) (entry : AssetId * Z) :
    list TokenMap * TokenMap :=
  let '(newValues, newValue) := acc in
  let '(assetId, quantity) := entry in
  let extended := JsMap.set newValue assetId quantity in
  if exceeds extended && (1 <? JsMap.size extended)
  then (newValues ++ [JsMap.delete extended assetId], [(assetId, quantity)])
  else (newValues, extended).

Definition splitAssets (exceeds : TokenMap -> bool) (m : TokenMap) : list TokenMap :=
  let '(newValues, newValue) := fold_left (splitStep exceeds) m ([], []) in newValues ++ [newValue].

Definition withMinCoin (computeMin : TxOut -> Z) (m : TokenMap) : Value :=
  {| assets := Some m; coins := computeMin (mkTxOut stubMaxSizeAddress {| assets := Some m; coins := 0 |}) |}.

Definition addToFirst (c : Z) (l : list Value) : list Value :=
  match l with
  | [] => []
  | v :: l' => {| assets := assets v; coins := coins v + c |} :: l'
  end.

Definition splitBundle (computeMin : TxOut -> Z) (exceeds : TokenMap -> bool) (result : list Value) (b : Value) :
    Res (list Value) :=
  match assets b with
  | None => Ok (result ++ [b])
  | Some m =>
      if (JsMap.size m =? 0) || negb (exceeds m) then Ok (result ++ [b])
      else
        let newValues := withMinCoin computeMin <$> splitAssets exceeds m in
        let totalMinCoin := fold_left (fun total v => total + coins v) newValues 0 in
        if coins b <? totalMinCoin then Throw (InputSelectionError UtxoFullyDepleted)
        else Ok (result ++ addToFirst (coins b - totalMinCoin) newValues)
  end.

Definition splitChangeIfTokenBundlesSizeExceedsLimit (changeBundles : list Value) (computeMin : TxOut -> Z)
    (exceeds : TokenMap -> bool) : Res (list Value) :=
  foldRes (splitBundle computeMin exceeds) changeBundles [].

(** ** Change for a selection *)

Definition computeChangeBundles (sel : UtxoSelection) (outputValues : list Value) (uniqueTxAssetIDs : list AssetId)
    (iv : RequiredImplicitValue) (computeMin : TxOut -> Z) (exceeds : TokenMap -> bool) (fee : Z) :
    Res (option (list Value)) :=
  requested ← computeRequestedAssetChangeBundles (utxoSelected sel) outputValues uniqueTxAssetIDs iv fee;
  let withLeftovers := redistributeLeftoverAssets (utxoSelected sel) requested uniqueTxAssetIDs in
  match coalesceChangeBundlesForMinCoinRequirement withLeftovers computeMin with
  | None => Ok None
  | Some changeBundles =>
      adjustedChange ← splitChangeIfTokenBundlesSizeExceedsLimit changeBundles computeMin exceeds;
      Ok (Some adjustedChange)
  end.

Fixpoint validateChangeBundles (changeBundles : list Value) (exceeds : TokenMap -> bool) : Res unit :=
  match changeBundles with
  | [] => Ok tt
  | b :: rest =>
      match assets b with
      | None => validateChangeBundles rest exceeds
      | Some m =>
          if exceeds m then Throw (InputSelectionError UtxoFullyDepleted) else validateChangeBundles rest exceeds
      end
  end.

End change.

(** ** Settling the fee *)

(** The callback that moves one more UTxO into the selection, and what the
    loop relies on. *)
Class PickAdditionalUtxo := pickAdditionalUtxo : UtxoSelection -> Sel UtxoSelection.

Class PickLaws `{PickAdditionalUtxo} : Prop := pick_one sel i :
  utxoRemaining sel <> [] -> SelectionFacts.refs_ok (utxoRemaining sel) ->
  exists u sel' i', pickAdditionalUtxo sel i = (Ok sel', i') /\
    utxoSelected sel' = utxoSelected sel ++ [u] /\ u :: utxoRemaining sel' ≡ₚ utxoRemaining sel.

Record ChangeComputationArgs : Set := {
  outputValues : list Value;
  uniqueTxAssetIDs : list AssetId;
  changeImplicitValue : RequiredImplicitValue;
  estimateTxCosts : list Utxo -> list Value -> Res TxCosts;
  minCoin : TxOut -> Z;
  exceedsLimit : TokenMap -> bool
}.

Record ChangeComputationResult : Set := {
  resultRemainingUTxO : list Utxo;
  resultInputs : list Utxo;
  resultChange : list Value;
  resultFee : Z;
  resultRedeemers : option (list string)
}.

Section fee.
Context `{Lodash} `{PickAdditionalUtxo}.

Definition changeBundlesFor (args : ChangeComputationArgs) (sel : UtxoSelection) (fee : Z) : Res (option (list Value)) :=
  computeChangeBundles sel (outputValues args) (uniqueTxAssetIDs args) (changeImplicitValue args)
    (minCoin args) (exceedsLimit args) fee.

(** The body of the function; [recompute] is
    [recomputeChangeAndAdjustForFeeWithExtraUtxo] on the current selection. *)
Definition attempt (args : ChangeComputationArgs) (sel : UtxoSelection) (recompute : Sel ChangeComputationResult) :
    Sel ChangeComputationResult :=
  selectionWithChangeAndFee ← st_lift (changeBundlesFor args sel 0);
  match selectionWithChangeAndFee with
  | None => recompute
  | Some changeBundles =>
      st_lift (validateChangeBundles changeBundles (exceedsLimit args)) ;;
      estimatedCosts ← st_lift (estimateTxCosts args (utxoSelected sel) changeBundles);
      let totalOutputCoin :=
        getCoinQuantity (outputValues args) + costFee estimatedCosts + deposit (implicitCoin (changeImplicitValue args)) in
      let totalInputCoin :=
        getCoinQuantity (utxoValues (utxoSelected sel)) + input (implicitCoin (changeImplicitValue args)) in
      if totalInputCoin <? totalOutputCoin then
        if zlen (utxoRemaining sel) =? 0 then st_throw (InputSelectionError UtxoBalanceInsufficient)
        else recompute
      else
        finalSelection ← st_lift (changeBundlesFor args sel (costFee estimatedCosts));
        match finalSelection with
        | None => recompute
        | Some changeBundles =>
            st_lift (validateChangeBundles changeBundles (exceedsLimit args)) ;;
            mret {| resultChange := changeBundles; resultFee := costFee estimatedCosts;
                    resultInputs := utxoSelected sel; resultRedeemers := costRedeemers estimatedCosts;
                    resultRemainingUTxO := utxoRemaining sel |}
        end
  end.

(** The recursion picks one more UTxO each time: the remaining UTxOs bound it. *)
Fixpoint computeChangeAndAdjustForFee (fuel : nat) (args : ChangeComputationArgs) (sel : UtxoSelection) :
    Sel ChangeComputationResult :=
  attempt args sel
    (if 0 <? zlen (utxoRemaining sel) then
       match fuel with
       | O => st_fuel
       | S fuel' => sel' ← pickAdditionalUtxo sel; computeChangeAndAdjustForFee fuel' args sel'
       end
     else st_throw (InputSelectionError UtxoFullyDepleted)).
End fee.
