(* ===== verification/ChangeFacts.v ===== *)
(** * Change conserves value

    Every stage of the change computation keeps the total of coins and of
    every asset; the bundles that come out satisfy the minimum coin quantity
    and the size limit; the fee loop ends. *)
From S2P Require Import Prelude JsRuntime Values Selection RoundRobin Change.

Import JsMapFacts ValuesFacts SelectionFacts RoundRobinFacts.

(** ** Lists of values with the same totals *)

Record same_totals (vs ws : list Value) : Prop := {
  same_coins : totalCoins vs = totalCoins ws;
  same_qty i : totalQty i vs = totalQty i ws
}.

#[export] Instance same_totals_equiv : Equivalence same_totals.
Proof.
  split.
  - by intros vs.
  - intros vs ws [H1 H2]. by split.
  - intros us vs ws [H1 H2] [H3 H4]. split; [congruence|]. intros i. by rewrite H2.
Qed.

#[export] Instance same_totals_app : Proper (same_totals ==> same_totals ==> same_totals) app.
Proof.
  intros a b [H1 H2] c d [H3 H4]. split; [rewrite !totalCoins_app; lia|].
  intros i. rewrite !totalQty_app, H2, H4. done.
Qed.

#[export] Instance same_totals_perm : subrelation (≡ₚ) same_totals.
Proof. intros vs ws E. split; [by rewrite E|]. intros i. by rewrite E. Qed.

#[export] Instance totalCoins_same : Proper (same_totals ==> (=)) totalCoins.
Proof. by intros vs ws []. Qed.

#[export] Instance totalQty_same i : Proper (same_totals ==> (=)) (totalQty i).
Proof. intros vs ws []. done. Qed.

Lemma same_totals_fmap (f : Value -> Value) l :
  Forall (fun v => coins (f v) = coins v /\ forall i, qty i (f v) = qty i v) l -> same_totals (f <$> l) l.
Proof.
  induction 1 as [|v l [Hc Hq] _ [IHc IHq]]; [done|]. cbn [fmap list_fmap].
  split; [rewrite !totalCoins_cons, Hc; by f_equal|]. intros i. rewrite !totalQty_cons, Hq, <- IHq. done.
Qed.

(** ** Proportional shares *)

Lemma quot_zero a : Z.quot a 0 = 0.
Proof. by destruct a. Qed.

Lemma zsum_shares c d l : 0 <= c -> 0 <= d -> Forall (fun a => 0 <= a) l -> zsum l <= d ->
  0 <= zsum ((fun a => Z.quot (c * a) d) <$> l) <= c.
Proof.
  intros Hc Hd Hl Hs. destruct (Z.eq_dec d 0) as [->|Hd0].
  { assert (E : zsum ((fun a => Z.quot (c * a) 0) <$> l) = 0); [|lia].
    clear. induction l as [|a l IH]; [done|]. cbn. rewrite quot_zero. exact IH. }
  assert (H0 : 0 <= zsum ((fun a => Z.quot (c * a) d) <$> l) /\ d * zsum ((fun a => Z.quot (c * a) d) <$> l) <= c * zsum l).
  { clear Hs. induction Hl as [|a l Ha Hl [IH1 IH2]]; [cbn; lia|]. cbn. fold (zsum l).
    change (foldr Z.add 0 ((fun a => Z.quot (c * a) d) <$> l)) with (zsum ((fun a => Z.quot (c * a) d) <$> l)).
    assert (0 <= c * a) by nia. pose proof (Z.quot_pos (c * a) d ltac:(lia) ltac:(lia)).
    pose proof (Z.mul_quot_le (c * a) d ltac:(lia) ltac:(lia)). nia. }
  nia.
Qed.

(** ** Bundles per output *)

(** What the loop hands to an output that lists [a] of the asset [i]. *)
Definition share (T : list (AssetId * Totals)) (i : AssetId) (a : Z) : Z :=
  match JsMap.get T i with
  | Some t => Z.quot ((totalSelected t - totalRequested t) * a) (totalSelected t)
  | None => 0
  end.

Lemma share_0 T i : share T i 0 = 0.
Proof.
  unfold share. destruct (JsMap.get T i); [|done]. rewrite Z.mul_0_r.
  destruct (Z.eq_dec (totalSelected t) 0) as [->|]; [apply quot_zero|by apply Z.quot_0_l].
Qed.

Lemma bundleAsset_ok T b t i a b' t' : bundleAsset T (b, t) (i, a) = Ok (b', t') ->
  JsMap.has T i = true /\ b' = JsMap.set b i (share T i a) /\ t' = JsMap.set t i (getOr0 t i + share T i a).
Proof.
  unfold bundleAsset, share, JsMap.has. destruct (JsMap.get T i) as [[sel req]|]; [|done].
  unfold bigint_div. cbn. case_bool; [done|]. cbn. intros [= <- <-]. done.
Qed.

Lemma bundleAssets_ok T es b t b' t' : map_ok es -> foldRes (bundleAsset T) es (b, t) = Ok (b', t') ->
  (forall i, i ∈ JsMap.keys es -> getOr0 b i = 0) -> map_ok b ->
  map_ok b' /\ (forall i, getOr0 b' i = getOr0 b i + share T i (getOr0 es i)) /\
  (forall i, getOr0 t' i = getOr0 t i + share T i (getOr0 es i)) /\
  (forall i, i ∈ JsMap.keys b' -> i ∈ JsMap.keys b \/ i ∈ JsMap.keys es) /\
  (forall i, i ∈ JsMap.keys es -> JsMap.has T i = true).
Proof.
  revert b t. induction es as [|[k a] es IH]; intros b t Hes E Hdis Hb.
  { injection E as <- <-. split_and!; [done| | |by left|by intros i []%not_elem_of_nil];
      intros i; change (getOr0 [] i) with 0; rewrite share_0; lia. }
  apply map_ok_cons in Hes as [Hk Hes]. cbn [foldRes] in E.
  destruct (bundleAsset T (b, t) (k, a)) as [[b1 t1]|?|] eqn:E1; [|done..]. cbn [mbind outcome_bind] in E.
  apply bundleAsset_ok in E1 as (HT & -> & ->).
  change (JsMap.keys ((k, a) :: es)) with (k :: JsMap.keys es) in *. setoid_rewrite elem_of_cons in Hdis.
  destruct (IH _ _ Hes E) as (Hb' & Hq & Ht & Hkeys & Hhas); [|by auto with js|].
  { intros i Hi. rewrite getOr0_set, decide_False by (intros ->; done). auto. }
  split_and!; [done|..]; intros i; rewrite ?elem_of_cons.
  - rewrite Hq, getOr0_set, getOr0_cons. case_decide; [|done]. subst.
    rewrite (getOr0_absent es i Hk), share_0, Hdis by auto. lia.
  - rewrite Ht, getOr0_set, getOr0_cons. case_decide; [|done]. subst.
    rewrite (getOr0_absent es i Hk), share_0. lia.
  - intros [Hi|]%Hkeys; [|auto]. destruct (decide (k ∈ JsMap.keys b)) as [Hkb|Hkb].
    + rewrite keys_set_In in Hi by done. auto.
    + rewrite set_not_In in Hi by done. unfold JsMap.keys in Hi. rewrite fmap_app, elem_of_app in Hi.
      cbn [fmap list_fmap fst] in Hi. rewrite list_elem_of_singleton in Hi. destruct Hi; auto.
  - intros [->|]; auto.
Qed.

(** What the loop gives back to an output of [c] coins. *)
Definition coinShare (requested total c : Z) : Z :=
  if 0 <? requested then Z.quot (total * c) requested else 0.

(** A bundle whose assets are among [ids]. *)
Definition keys_in (ids : list AssetId) (b : Value) : Prop := forall i, i ∈ JsMap.keys (entriesOf b) -> i ∈ ids.

Lemma qty_entries i v : qty i v = getOr0 (entriesOf v) i.
Proof. unfold qty, quantity, entriesOf. by destruct (assets v). Qed.

Lemma keys_in_zero ids b i : keys_in ids b -> i ∉ ids -> qty i b = 0.
Proof. intros Hb Hi. rewrite qty_entries. apply getOr0_absent. intros Hin. auto. Qed.

(** The bundles made so far, [vs] being the outputs seen. *)
Record bundled_ok (req chg : Z) (T : list (AssetId * Totals)) (ids : list AssetId) (acc : Bundled) (vs : list Value) :
    Prop := {
  bd_coins : coins <$> bundles acc = coinShare req chg ∘ coins <$> vs;
  bd_qty i : qty i <$> bundles acc = share T i ∘ qty i <$> vs;
  bd_totalCoin : totalCoinBundled acc = totalCoins (bundles acc);
  bd_totalQty i : getOr0 (totalAssetsBundled acc) i = totalQty i (bundles acc);
  bd_ok : Forall value_ok (bundles acc);
  bd_keys : Forall (keys_in ids) (bundles acc)
}.

Lemma bundleOutput_ok req chg T ids acc vs v acc' : (forall i, JsMap.has T i = true -> i ∈ ids) ->
  value_ok v -> bundled_ok req chg T ids acc vs -> bundleOutput req chg T acc v = Ok acc' ->
  bundled_ok req chg T ids acc' (vs ++ [v]).
Proof.
  intros HT Hv [H1 H2 H3 H4 H5 H6] E. unfold bundleOutput in E. cbv zeta in E.
  fold (coinShare req chg (coins v)) in E.
  assert (exists b t, acc' = {| bundles := bundles acc ++ [b]; totalAssetsBundled := t;
                                totalCoinBundled := totalCoinBundled acc + coinShare req chg (coins v) |} /\
    coins b = coinShare req chg (coins v) /\ value_ok b /\ keys_in ids b /\
    (forall i, qty i b = share T i (qty i v)) /\
    forall i, getOr0 t i = getOr0 (totalAssetsBundled acc) i + share T i (qty i v)) as (b & t & -> & Hc & Hb & Hk & Hq & Ht).
  { destruct v as [cv [av|]]; cbn [assets coins] in *.
    - destruct (foldRes (bundleAsset T) av ([], totalAssetsBundled acc)) as [[b t]|?|] eqn:Ef; [|done..].
      injection E as <-. destruct (bundleAssets_ok T av [] _ b t Hv Ef) as (Hb & Hq & Ht & Hk & Hhas);
        [done|constructor|].
      eexists _, _. split; [reflexivity|]. split; [done|]. split; [done|]. split.
      + intros i Hi. apply HT, Hhas. destruct (Hk i Hi) as [[]%not_elem_of_nil|]; done.
      + split; [|done]. intros i. cbn. rewrite Hq. done.
    - injection E as <-. eexists _, _. split; [reflexivity|]. split; [done|]. split; [done|]. split.
      + by intros i []%not_elem_of_nil.
      + split; intros i; cbn; rewrite share_0; lia. }
  split; cbn [bundles totalAssetsBundled totalCoinBundled].
  - rewrite !fmap_app, H1. cbn. by rewrite Hc.
  - intros i. rewrite !fmap_app, H2. cbn. by rewrite Hq.
  - rewrite totalCoins_app, totalCoins_cons, H3, Hc. change (totalCoins []) with 0. lia.
  - intros i. rewrite totalQty_app, totalQty_cons, Ht, H4, Hq. change (totalQty i []) with 0. lia.
  - apply Forall_app. split; [done|by constructor].
  - apply Forall_app. split; [done|by constructor].
Qed.

Lemma bundleOutputs_ok req chg T ids vs seen acc r : (forall i, JsMap.has T i = true -> i ∈ ids) ->
  Forall value_ok vs -> bundled_ok req chg T ids acc seen ->
  foldRes (bundleOutput req chg T) vs acc = Ok r -> bundled_ok req chg T ids r (seen ++ vs).
Proof.
  intros HT Hvs. revert acc seen. induction Hvs as [|v vs Hv Hvs IH]; intros acc seen Hacc E.
  { injection E as <-. by rewrite app_nil_r. }
  cbn [foldRes] in E. destruct (bundleOutput req chg T acc v) as [acc'|?|] eqn:E1; [|done..].
  rewrite (cons_middle v seen vs), app_assoc. apply (IH acc'); [|done]. by eapply bundleOutput_ok.
Qed.

Lemma createBundlePerOutput_ok req chg T ids vs r : (forall i, JsMap.has T i = true -> i ∈ ids) ->
  Forall value_ok vs -> createBundlePerOutput vs req chg T = Ok r -> bundled_ok req chg T ids r vs.
Proof.
  intros HT Hvs E. eapply (bundleOutputs_ok req chg T ids vs []); [done..| |exact E].
  split; cbn; first [done | constructor].
Qed.

(** *** Totals per asset *)

Lemma assetTotalsOf_get svs ovs ids it i : JsMap.get (assetTotalsOf svs ovs ids it) i =
  if bool_decide (i ∈ ids)
  then Some {| totalRequested := totalQty i ovs + spendTokens it i; totalSelected := totalQty i svs + inputTokens it i |}
  else None.
Proof.
  unfold assetTotalsOf.
  assert (Hg : forall m (P : list AssetId), JsMap.get m i =
    (if bool_decide (i ∈ P) then Some {| totalRequested := totalQty i ovs + spendTokens it i;
                                        totalSelected := totalQty i svs + inputTokens it i |} else None) ->
    JsMap.get (fold_left (fun m assetId => JsMap.set m assetId
        {| totalRequested := assetQuantitySelector assetId ovs + spendTokens it assetId;
           totalSelected := assetQuantitySelector assetId svs + inputTokens it assetId |}) ids m) i =
    (if bool_decide (i ∈ ids ++ P) then Some {| totalRequested := totalQty i ovs + spendTokens it i;
                                        totalSelected := totalQty i svs + inputTokens it i |} else None)).
  { induction ids as [|k ids IH]; intros m P Hm; [done|]. cbn [fold_left]. rewrite (IH _ (k :: P)).
    - rewrite (bool_decide_ext (i ∈ ids ++ k :: P) (i ∈ (k :: ids) ++ P)); [done|].
      rewrite !elem_of_app, !elem_of_cons. tauto.
    - rewrite get_set, !assetQuantitySelector_total. destruct (decide (k = i)) as [->|Ek].
      + by rewrite bool_decide_true by left.
      + rewrite Hm. rewrite (bool_decide_ext (i ∈ k :: P) (i ∈ P)); [done|].
        rewrite elem_of_cons. intuition congruence. }
  rewrite (Hg [] [] eq_refl). by rewrite app_nil_r.
Qed.

(** ** Quantities lost by integer division *)

Lemma updateAt_totals i f bs b : bs !! i = Some b ->
  totalCoins (updateAt i f bs) = totalCoins bs - coins b + coins (f b) /\
  forall j, totalQty j (updateAt i f bs) = totalQty j bs - qty j b + qty j (f b).
Proof.
  revert i. induction bs as [|b' bs IH]; intros [|i] E; try done; cbn in E.
  - injection E as <-. change (updateAt 0 f (b' :: bs)) with (f b' :: bs).
    rewrite !totalCoins_cons. split; [lia|]. intros j. rewrite !totalQty_cons. lia.
  - destruct (IH i E) as [Hc Hq]. change (updateAt (S i) f (b' :: bs)) with (b' :: updateAt i f bs).
    rewrite !totalCoins_cons. split; [lia|]. intros j. rewrite !totalQty_cons, Hq. lia.
Qed.

Lemma updateAt_Forall (P : Value -> Prop) i f bs : Forall P bs -> (forall b, P b -> P (f b)) -> Forall P (updateAt i f bs).
Proof. intros Hbs Hf. apply Forall_alter; [done|]. auto. Qed.

(** A bundle of the change: nothing negative, assets among [ids]. *)
Definition bundle_ok (ids : list AssetId) (b : Value) : Prop := value_nonneg b /\ keys_in ids b.

Lemma empty_map_ok ids c : 0 <= c -> bundle_ok ids {| assets := Some []; coins := c |}.
Proof.
  intros Hc. split; [split_and!; [done|constructor|done]|]. by intros i []%not_elem_of_nil.
Qed.

Lemma plain_bundle_ok ids c : 0 <= c -> bundle_ok ids {| assets := None; coins := c |}.
Proof. intros Hc. split; [done|]. by intros i []%not_elem_of_nil. Qed.

Section lost.
Context {LD : Lodash} {LL : LodashLaws} (ids : list AssetId).

Lemma smallestBundleTokenMap_ok bs bs' i : smallestBundleTokenMap bs = (bs', i) -> Forall (bundle_ok ids) bs ->
  same_totals bs' bs /\ is_Some (bs' !! i) /\ Forall (bundle_ok ids) bs'.
Proof.
  unfold smallestBundleTokenMap. intros E Hbs. destruct (Z.eqb_spec (zlen bs) 0) as [Hz|Hz].
  { apply zlen_0 in Hz as ->. injection E as <- <-. split; [done|]. split; [done|].
    constructor; [by apply empty_map_ok|constructor]. }
  assert (Hne : bs <> []) by (by intros ->).
  destruct (minByIndex_spec (fun b => JsMap.size (entriesOf b)) bs Hne) as (b & Hb & _).
  injection E as <- <-. set (f := fun b => match assets b with
                          | Some _ => b | None => {| assets := Some []; coins := coins b |} end).
  destruct (updateAt_totals _ f bs b Hb) as [Hc Hq].
  assert (Hf : coins (f b) = coins b /\ forall j, qty j (f b) = qty j b).
  { unfold f. destruct b as [c [m|]]; done. }
  destruct Hf as [Hf1 Hf2]. split_and!.
  - split; [lia|]. intros j. rewrite Hq, Hf2. lia.
  - unfold updateAt. rewrite list_lookup_alter_eq, Hb. by eexists.
  - apply updateAt_Forall; [done|]. intros [c [m|]] Hbk; [done|]. apply empty_map_ok. by destruct Hbk as [[] _].
Qed.

Lemma findWith_lookup i bs k : findWith i bs = Some k -> is_Some (bs !! k).
Proof.
  revert k. induction bs as [|b bs IH]; intros k; cbn; [done|]. case_bool; [intros [= <-]; done|].
  destruct (findWith i bs); [|done]. intros [= <-]. by apply IH.
Qed.

(** The quantity of [i] still to be handed out. *)
Definition lost (T : list (AssetId * Totals)) (bundled : TokenMap) (i : AssetId) : Z :=
  match JsMap.get T i with
  | Some t => Z.max 0 (totalSelected t - totalRequested t - getOr0 bundled i)
  | None => 0
  end.

Lemma addLost_ok T bundled bs i : i ∈ ids -> Forall (bundle_ok ids) bs ->
  let bs' := addLost T bundled bs i in
  totalCoins bs' = totalCoins bs /\
  (forall j, totalQty j bs' = totalQty j bs + if decide (i = j) then lost T bundled i else 0) /\
  Forall (bundle_ok ids) bs'.
Proof.
  intros Hi Hbs. unfold addLost, lost. destruct (JsMap.get T i) as [t|].
  2:{ split_and!; [done| |done]. intros j. case_decide; lia. }
  cbv zeta. destruct (Z.ltb_spec 0 (totalSelected t - totalRequested t - getOr0 bundled i)) as [Hl|Hl].
  2:{ split_and!; [done| |done]. intros j. case_decide; lia. }
  rewrite Z.max_r by lia. set (l := totalSelected t - totalRequested t - getOr0 bundled i) in *.
  destruct (match findWith i bs with Some k => (bs, k) | None => smallestBundleTokenMap bs end) as [bs1 k] eqn:E.
  assert (Hs : same_totals bs1 bs /\ is_Some (bs1 !! k) /\ Forall (bundle_ok ids) bs1).
  { destruct (findWith i bs) as [k'|] eqn:Ef; [|by apply smallestBundleTokenMap_ok].
    injection E as <- <-. split; [done|]. split; [by eapply findWith_lookup|done]. }
  destruct Hs as (Hsame & [b Hb] & Hbs1).
  set (f := fun b => {| assets := Some (JsMap.set (entriesOf b) i (getOr0 (entriesOf b) i + l)); coins := coins b |}).
  destruct (updateAt_totals k f bs1 b Hb) as [Hc Hq].
  assert (Hfq : forall b j, qty j (f b) = qty j b + if decide (i = j) then l else 0).
  { intros b' j. rewrite (qty_entries j b'). unfold f, qty. cbn. rewrite getOr0_set. case_decide; subst; lia. }
  split_and!.
  - rewrite Hc, Hsame. cbn. lia.
  - intros j. rewrite Hq, Hfq, Hsame. lia.
  - apply updateAt_Forall; [done|]. intros b' [(Hc' & Hok & Hq') Hk]. split; [split_and!|].
    + done.
    + cbn. apply wf_set. unfold value_ok, entriesOf in *. destruct (assets b'); [done|constructor].
    + intros j. fold (f b'). rewrite Hfq. specialize (Hq' j). case_decide; lia.
    + intros j Hj. cbn in Hj. apply has_spec in Hj. unfold JsMap.has in Hj. rewrite get_set in Hj.
      destruct (decide (i = j)) as [->|]; [done|]. apply Hk, has_spec. done.
Qed.

Lemma addLosts_ok T bundled js bs : NoDup js -> (forall i, i ∈ js -> i ∈ ids) -> Forall (bundle_ok ids) bs ->
  let bs' := fold_left (addLost T bundled) js bs in
  totalCoins bs' = totalCoins bs /\
  (forall j, totalQty j bs' = totalQty j bs + if bool_decide (j ∈ js) then lost T bundled j else 0) /\
  Forall (bundle_ok ids) bs'.
Proof.
  intros Hnd. revert bs. induction Hnd as [|i js Hi Hnd IH]; intros bs Hsub Hbs; cbn [fold_left].
  { split_and!; [done| |done]. intros j. rewrite bool_decide_false by apply not_elem_of_nil. lia. }
  destruct (addLost_ok T bundled bs i (Hsub i ltac:(left)) Hbs) as (Hc & Hq & Hok).
  destruct (IH (addLost T bundled bs i)) as (Hc' & Hq' & Hok'); [|done|].
  { intros j Hj. apply Hsub. by right. }
  split_and!; [lia| |done]. intros j. rewrite Hq', Hq. destruct (decide (i = j)) as [->|Hne].
  - rewrite (bool_decide_false _ Hi), bool_decide_true by left. lia.
  - rewrite (bool_decide_ext (j ∈ i :: js) (j ∈ js)) by (rewrite elem_of_cons; intuition congruence). lia.
Qed.
End lost.

Lemma addCoinLost_ok ids c bs : 0 <= c -> Forall (bundle_ok ids) bs ->
  totalCoins (addCoinLost c bs) = totalCoins bs + c /\
  (forall i, totalQty i (addCoinLost c bs) = totalQty i bs) /\ Forall (bundle_ok ids) (addCoinLost c bs).
Proof.
  intros Hc Hbs. unfold addCoinLost. destruct (Z.ltb_spec 0 c) as [Hlt|]; [|split_and!; [lia|done|done]].
  destruct Hbs as [|b bs [(H1 & H2 & H3) Hk] Hbs].
  - split_and!; [unfold totalCoins; cbn; lia|done|]. constructor; [by apply plain_bundle_ok|constructor].
  - rewrite !totalCoins_cons. split_and!; [cbn [coins]; lia|done|]. constructor; [|done].
    split; [|done]. split_and!; [cbn; lia|done|done].
Qed.

(** ** The requested assets *)

(** What the change computation may assume of its arguments. *)
Record args_ok (outs : list Value) (ids : list AssetId) (iv : RequiredImplicitValue) : Prop := {
  args_outs : Forall value_nonneg outs;
  args_ids : NoDup ids;
  args_deposit : 0 <= deposit (implicitCoin iv);
  args_spend i : 0 <= spendTokens (implicitTokens iv) i;
  args_input i : 0 <= inputTokens (implicitTokens iv) i
}.

Section requested.
Context {LD : Lodash} {LL : LodashLaws}.
Context (sel : list Utxo) (outs : list Value) (ids : list AssetId) (iv : RequiredImplicitValue) (fee : Z).
Context (Hsel : Forall utxo_ok sel) (Hargs : args_ok outs ids iv) (Hfee : 0 <= fee).
Context (Hcov : Forall (fun i => covers_asset i (utxoValues sel) outs iv) ids).

Let T := assetTotalsOf (utxoValues sel) outs ids (implicitTokens iv).
Let requested := totalCoins outs + fee + deposit (implicitCoin iv).
Let excess := totalCoins (utxoValues sel) + input (implicitCoin iv) - requested.
Context (Hexcess : 0 <= excess).

(** The excess of the asset [i]. *)
Definition assetExcess (i : AssetId) : Z :=
  totalQty i (utxoValues sel) + inputTokens (implicitTokens iv) i
  - (totalQty i outs + spendTokens (implicitTokens iv) i).

Lemma outs_coins : Forall (fun c => 0 <= c) (coins <$> outs).
Proof. apply Forall_fmap. eapply Forall_impl; [apply (args_outs _ _ _ Hargs)|]. by intros v []. Qed.

Lemma outs_qty i : Forall (fun q => 0 <= q) (qty i <$> outs).
Proof. apply Forall_fmap. eapply Forall_impl; [apply (args_outs _ _ _ Hargs)|]. intros v (_ & _ & Hq). apply Hq. Qed.

Lemma sel_qty i : 0 <= totalQty i (utxoValues sel).
Proof.
  apply zsum_nonneg, Forall_fmap. unfold utxoValues. apply Forall_fmap.
  eapply Forall_impl; [exact Hsel|]. intros u (_ & _ & Hq). apply Hq.
Qed.

Lemma share_bounds i : i ∈ ids -> 0 <= zsum (share T i ∘ qty i <$> outs) <= assetExcess i.
Proof.
  intros Hi. rewrite Forall_forall in Hcov. specialize (Hcov i Hi). unfold covers_asset in Hcov.
  pose proof (args_spend _ _ _ Hargs i). pose proof (args_input _ _ _ Hargs i). pose proof (sel_qty i).
  rewrite list_fmap_compose.
  assert (E : forall l : list Z, share T i <$> l =
    (fun a => Z.quot (assetExcess i * a) (totalQty i (utxoValues sel) + inputTokens (implicitTokens iv) i)) <$> l).
  { intros l. apply list_fmap_ext. intros _ a _. unfold share, T. rewrite assetTotalsOf_get, bool_decide_true by done.
    done. }
  rewrite E. apply zsum_shares; [unfold assetExcess; lia|lia|apply outs_qty|]. unfold totalQty in *. lia.
Qed.

Lemma share_nonneg i a : i ∈ ids -> 0 <= a -> 0 <= share T i a.
Proof.
  intros Hi Ha. rewrite Forall_forall in Hcov. specialize (Hcov i Hi). unfold covers_asset in Hcov.
  pose proof (args_input _ _ _ Hargs i). pose proof (sel_qty i).
  unfold share, T. rewrite assetTotalsOf_get, bool_decide_true by done. cbn [totalSelected totalRequested].
  destruct (Z.eq_dec (totalQty i (utxoValues sel) + inputTokens (implicitTokens iv) i) 0) as [->|];
    [rewrite quot_zero; lia|]. apply Z.quot_pos; nia.
Qed.

Lemma coinShare_bounds : 0 <= zsum (coinShare requested excess ∘ coins <$> outs) <= excess.
Proof.
  rewrite list_fmap_compose. unfold coinShare. destruct (Z.ltb_spec 0 requested).
  - apply zsum_shares; [done|lia|apply outs_coins|]. pose proof (args_deposit _ _ _ Hargs).
    unfold requested, totalCoins. lia.
  - assert (E : forall l : list Z, zsum ((fun _ => 0) <$> l) = 0) by (induction l; done). rewrite E. lia.
Qed.

Lemma coinShare_nonneg c : 0 <= c -> 0 <= coinShare requested excess c.
Proof. intros Hc. unfold coinShare. destruct (Z.ltb_spec 0 requested); [|done]. apply Z.quot_pos; nia. Qed.

Lemma bundled_nonneg b : bundled_ok requested excess T ids b outs -> Forall (bundle_ok ids) (bundles b).
Proof.
  intros [H1 H2 _ _ H5 H6]. apply Forall_forall. intros v Hv. rewrite Forall_forall in H5, H6.
  split; [split_and!|by apply H6].
  - assert (Hc : coins v ∈ coins <$> bundles b) by by apply list_elem_of_fmap_2.
    rewrite H1 in Hc. apply list_elem_of_fmap in Hc as (w & -> & Hw). apply coinShare_nonneg.
    pose proof outs_coins as Ho. rewrite Forall_fmap, Forall_forall in Ho. by apply Ho.
  - by apply H5.
  - intros i. destruct (decide (i ∈ ids)) as [Hi|Hi]; [|by rewrite (keys_in_zero ids v i (H6 v Hv) Hi)].
    assert (Hq : qty i v ∈ qty i <$> bundles b) by by apply list_elem_of_fmap_2.
    rewrite H2 in Hq. apply list_elem_of_fmap in Hq as (w & -> & Hw). apply share_nonneg; [done|].
    pose proof (outs_qty i) as Ho. rewrite Forall_fmap, Forall_forall in Ho. by apply Ho.
Qed.

Lemma computeRequestedAssetChangeBundles_ok bs :
  computeRequestedAssetChangeBundles sel outs ids iv fee = Ok bs ->
  totalCoins bs = excess /\ (forall i, i ∈ ids -> totalQty i bs = assetExcess i) /\ Forall (bundle_ok ids) bs.
Proof.
  unfold computeRequestedAssetChangeBundles. rewrite !getCoinQuantity_total. cbv zeta.
  fold requested T. fold excess. intros E.
  destruct (createBundlePerOutput outs requested excess T) as [b|?|] eqn:Eb; [|done..]. injection E as <-.
  apply (createBundlePerOutput_ok _ _ _ ids) in Eb.
  2:{ intros i Hi. unfold JsMap.has, T in Hi. rewrite assetTotalsOf_get in Hi. by case_bool_decide. }
  2:{ eapply Forall_impl; [apply (args_outs _ _ _ Hargs)|]. by intros v (_ & ? & _). }
  pose proof (bundled_nonneg b Eb) as Hok. destruct Eb as [H1 H2 H3 H4 _ _].
  pose proof coinShare_bounds as Hcb. rewrite <- H1 in Hcb. fold (totalCoins (bundles b)) in Hcb.
  destruct (addCoinLost_ok ids (excess - totalCoinBundled b) (bundles b) ltac:(lia) Hok) as (C1 & C2 & C3).
  destruct (addLosts_ok ids T (totalAssetsBundled b) ids _ (args_ids _ _ _ Hargs) (fun _ Hi => Hi) C3) as (D1 & D2 & D3).
  split_and!; [lia| |done]. intros i Hi. rewrite D2, C2, bool_decide_true by done.
  unfold lost, T. rewrite assetTotalsOf_get, bool_decide_true by done. cbn [totalSelected totalRequested].
  rewrite H4. pose proof (share_bounds i Hi) as Hs. rewrite <- H2 in Hs. fold (totalQty i (bundles b)) in Hs.
  unfold assetExcess in *. lia.
Qed.
End requested.

(** ** Leftover assets *)

Definition leftoverTotal (L : list (AssetId * list Z)) (i : AssetId) : Z := zsum (getOrEmpty L i).

(** Leftovers of the assets outside [ids], all quantities at least zero. *)
Record leftovers_ok (ids : list AssetId) (L : list (AssetId * list Z)) : Prop := {
  lo_wf : JsMap.wf L;
  lo_keys i : i ∈ JsMap.keys L -> i ∉ ids;
  lo_nonneg i : Forall (fun q => 0 <= q) (getOrEmpty L i)
}.

Lemma getOrEmpty_set L k l i : getOrEmpty (JsMap.set L k l) i = if decide (k = i) then l else getOrEmpty L i.
Proof. unfold getOrEmpty. rewrite get_set. by case_decide. Qed.

Lemma keys_set {V} (m : list (string * V)) k v i : i ∈ JsMap.keys (JsMap.set m k v) -> i = k \/ i ∈ JsMap.keys m.
Proof.
  rewrite <- !has_spec. unfold JsMap.has. rewrite get_set. destruct (decide (k = i)) as [->|]; auto.
Qed.

Definition pushLeftover (m : TokenMap) (leftovers : list (AssetId * list Z)) (assetKey : AssetId) : list (AssetId * list Z) :=
  let quantity := getOr0 m assetKey in
  if quantity =? 0 then leftovers
  else JsMap.set leftovers assetKey (getOrEmpty leftovers assetKey ++ [quantity]).

Lemma pushLeftover_ok ids m L k : k ∉ ids -> 0 <= getOr0 m k -> leftovers_ok ids L ->
  leftovers_ok ids (pushLeftover m L k) /\
  forall i, leftoverTotal (pushLeftover m L k) i = leftoverTotal L i + if decide (k = i) then getOr0 m k else 0.
Proof.
  intros Hk Hq [H1 H2 H3]. unfold pushLeftover. cbv zeta. destruct (Z.eqb_spec (getOr0 m k) 0) as [E|E].
  { split; [done|]. intros i. rewrite E. case_decide; lia. }
  split; [split|].
  - by apply wf_set.
  - intros i [->|Hi]%keys_set; auto.
  - intros i. rewrite getOrEmpty_set. case_decide; [|done]. apply Forall_app. split; [done|by constructor].
  - intros i. unfold leftoverTotal. rewrite getOrEmpty_set. case_decide; [subst|lia].
    rewrite zsum_app. cbn. lia.
Qed.

Lemma pushLeftovers_ok ids m ks L : NoDup ks -> (forall k, k ∈ ks -> k ∉ ids) -> (forall i, 0 <= getOr0 m i) ->
  leftovers_ok ids L ->
  leftovers_ok ids (fold_left (pushLeftover m) ks L) /\
  forall i, leftoverTotal (fold_left (pushLeftover m) ks L) i =
    leftoverTotal L i + if bool_decide (i ∈ ks) then getOr0 m i else 0.
Proof.
  intros Hnd. revert L. induction Hnd as [|k ks Hk Hnd IH]; intros L Hks Hm HL; cbn [fold_left].
  { split; [done|]. intros i. rewrite bool_decide_false by apply not_elem_of_nil. lia. }
  destruct (pushLeftover_ok ids m L k (Hks k ltac:(left)) (Hm k) HL) as [H1 H2].
  destruct (IH (pushLeftover m L k)) as [H3 H4]; [|done..|].
  { intros j Hj. apply Hks. by right. }
  split; [done|]. intros i. rewrite H4, H2. destruct (decide (k = i)) as [->|Hne].
  - rewrite (bool_decide_false _ Hk), bool_decide_true by left. lia.
  - rewrite (bool_decide_ext (i ∈ k :: ks) (i ∈ ks)) by (rewrite elem_of_cons; intuition congruence). lia.
Qed.

Lemma addLeftover_ok ids L u : utxo_ok u -> leftovers_ok ids L ->
  leftovers_ok ids (addLeftover ids L u) /\
  forall i, i ∉ ids -> leftoverTotal (addLeftover ids L u) i = leftoverTotal L i + qty i (value (txOut u)).
Proof.
  intros (_ & Hok & Hq) HL. unfold addLeftover. unfold value_ok, qty, quantity in *.
  destruct (assets (value (txOut u))) as [m|]; [|split; [done|]; intros; lia]. cbv zeta.
  destruct (pushLeftovers_ok ids m (filter (fun id => id ∉ ids) (JsMap.keys m)) L) as [H1 H2]; [|..|done|].
  - by apply NoDup_filter.
  - intros k. rewrite list_elem_of_filter. by intros [? _].
  - exact Hq.
  - split; [exact H1|]. intros i Hi. etrans; [apply H2|]. f_equal.
    case_bool_decide as Hin; [done|]. symmetry. apply getOr0_absent. intros Hi'. apply Hin.
    by apply list_elem_of_filter.
Qed.

Lemma getLeftoverAssets_ok ids sel : Forall utxo_ok sel ->
  leftovers_ok ids (getLeftoverAssets sel ids) /\
  forall i, i ∉ ids -> leftoverTotal (getLeftoverAssets sel ids) i = totalQty i (utxoValues sel).
Proof.
  intros Hsel. unfold getLeftoverAssets.
  assert (Hg : forall L, leftovers_ok ids L -> leftovers_ok ids (fold_left (addLeftover ids) sel L) /\
    forall i, i ∉ ids -> leftoverTotal (fold_left (addLeftover ids) sel L) i = leftoverTotal L i + totalQty i (utxoValues sel)).
  { induction Hsel as [|u sel Hu Hsel IH]; intros L HL; cbn [fold_left].
    { split; [done|]. intros i _. change (totalQty i (utxoValues [])) with 0. lia. }
    destruct (addLeftover_ok ids L u Hu HL) as [H1 H2]. destruct (IH _ H1) as [H3 H4].
    split; [done|]. intros i Hi. rewrite H4, H2 by done. rewrite utxoValues_cons, totalQty_cons. lia. }
  destruct (Hg []) as [H1 H2].
  - split; [constructor|by intros i []%not_elem_of_nil|intros i; constructor].
  - split; [done|]. intros i Hi. rewrite H2 by done. done.
Qed.

(** *** Coalescing the smallest quantities *)

Lemma coalesceRev_ok n s rest : (1 <= n)%nat -> 0 <= s -> Forall (fun q => 0 <= q) rest ->
  zsum (coalesceRev n s rest) = s + zsum rest /\ (length (coalesceRev n s rest) <= n)%nat /\
  Forall (fun q => 0 <= q) (coalesceRev n s rest).
Proof.
  intros Hn. revert s. induction rest as [|q rest IH]; intros s Hs Hr; cbn [coalesceRev].
  { split_and!; [cbn; lia|cbn; lia|by constructor]. }
  destruct (Nat.ltb_spec (length (q :: rest)) n) as [Hl|Hl].
  { split_and!; [done|cbn in *; lia|by constructor]. }
  apply Forall_cons in Hr as [Hq Hr]. destruct (IH (q + s)) as (H1 & H2 & H3); [lia|done|].
  split_and!; [|done|done]. rewrite H1. cbn. unfold zsum. lia.
Qed.

Lemma coalesceSmallest_ok n l : (1 <= n)%nat -> Forall (fun q => 0 <= q) l ->
  zsum (coalesceSmallest n l) = zsum l /\ (length (coalesceSmallest n l) <= n)%nat /\
  Forall (fun q => 0 <= q) (coalesceSmallest n l).
Proof.
  intros Hn Hl. unfold coalesceSmallest. pose proof (reverse_Permutation l) as Hp. rewrite <- Hp in Hl.
  rewrite <- (zsum_permutation _ _ Hp). destruct (reverse l) as [|s rest]; [split_and!; [done|cbn; lia|constructor]|].
  apply Forall_cons in Hl as [Hs Hr]. destruct (coalesceRev_ok n s rest Hn Hs Hr) as (H1 & H2 & H3).
  rewrite (zsum_permutation _ _ (reverse_Permutation (coalesceRev n s rest))), length_reverse, reverse_Permutation.
  split_and!; [rewrite H1; done|done|done].
Qed.

(** *** Handing leftovers out *)

Lemma of_entries_snoc (m : TokenMap) k q : map_ok m -> JsMap.of_entries (m ++ [(k, q)]) = JsMap.set m k q.
Proof.
  intros Hm. unfold JsMap.of_entries. rewrite fold_left_app. cbn.
  fold (JsMap.of_entries m). by rewrite of_entries_nodup.
Qed.

Lemma entriesOf_ok v : value_ok v -> map_ok (entriesOf v).
Proof. unfold value_ok, entriesOf. destruct (assets v); [done|constructor]. Qed.

Lemma keys_in_mono A B b : (forall i, i ∈ A -> i ∈ B) -> keys_in A b -> keys_in B b.
Proof. intros Hsub Hb i Hi. auto. Qed.

Lemma bundle_ok_mono A B b : (forall i, i ∈ A -> i ∈ B) -> bundle_ok A b -> bundle_ok B b.
Proof. intros Hsub [? ?]. split; [done|]. by eapply keys_in_mono. Qed.

Lemma distribute_ok A k qs bs : k ∉ A -> (length qs <= length bs)%nat -> Forall (fun q => 0 <= q) qs ->
  Forall (bundle_ok A) bs ->
  let bs' := distribute k qs bs in
  totalCoins bs' = totalCoins bs /\
  (forall j, totalQty j bs' = totalQty j bs + if decide (k = j) then zsum qs else 0) /\
  Forall (bundle_ok (k :: A)) bs' /\ length bs' = length bs.
Proof.
  intros Hk. revert bs. induction qs as [|q qs IH]; intros bs Hl Hqs Hbs.
  { assert (distribute k [] bs = bs) as -> by by destruct bs. split_and!; [done| | |done].
    - intros j. cbn. case_decide; lia.
    - eapply Forall_impl; [exact Hbs|]. intros b. apply bundle_ok_mono. by right. }
  apply Forall_cons in Hqs as [Hq Hqs]. destruct Hbs as [|b bs [(Hc & Hok & Hnn) Hkeys] Hbs]; [cbn in Hl; lia|].
  destruct (IH bs) as (H1 & H2 & H3 & H4); [cbn in Hl; lia|done..|]. cbv zeta. cbn [distribute].
  rewrite of_entries_snoc by by apply entriesOf_ok.
  set (b' := {| assets := Some (JsMap.set (entriesOf b) k q); coins := coins b |}).
  assert (Hq' : forall j, qty j b' = qty j b + if decide (k = j) then q else 0).
  { intros j. rewrite (qty_entries j b). unfold b', qty. cbn. rewrite getOr0_set. case_decide; [subst|lia].
    rewrite <- qty_entries, (keys_in_zero A b j Hkeys Hk). lia. }
  rewrite !totalCoins_cons. split_and!; [cbn [coins b']; lia| | |cbn; by rewrite H4].
  - intros j. rewrite !totalQty_cons, Hq', H2. cbn. unfold zsum. case_decide; lia.
  - constructor; [|done]. split; [split_and!|].
    + done.
    + cbn. by apply wf_set, entriesOf_ok.
    + intros j. rewrite Hq'. specialize (Hnn j). case_decide; lia.
    + intros j [->|Hj]%keys_set; [left|right]. by apply Hkeys.
Qed.

Section leftovers.
Context {LD : Lodash} {LL : LodashLaws}.

Lemma redistributeOne_ok ids A L bs k : leftovers_ok ids L -> k ∉ A -> Forall (bundle_ok A) bs ->
  let bs' := redistributeOne L bs k in
  totalCoins bs' = totalCoins bs /\
  (forall j, totalQty j bs' = totalQty j bs + if decide (k = j) then leftoverTotal L k else 0) /\
  Forall (bundle_ok (k :: A)) bs'.
Proof.
  intros HL Hk Hbs. cbv zeta. unfold redistributeOne. cbv zeta.
  set (bs1 := if zlen bs =? 0 then [{| coins := 0; assets := None |}] else bs).
  assert (Hb1 : same_totals bs1 bs /\ (1 <= length bs1)%nat /\ Forall (bundle_ok A) bs1).
  { unfold bs1. destruct (Z.eqb_spec (zlen bs) 0) as [->%zlen_0|Hz].
    - split_and!; [done|done|]. constructor; [by apply plain_bundle_ok|constructor].
    - split_and!; [done| |done]. unfold zlen in Hz. lia. }
  destruct Hb1 as (Hs & Hl & Hok). pose proof (orderByDesc_perm (fun q : Z => q) (getOrEmpty L k)) as Hp.
  destruct (coalesceSmallest_ok (length bs1) (orderByDesc (fun q => q) (getOrEmpty L k)) Hl) as (C1 & C2 & C3).
  { rewrite Hp. apply (lo_nonneg _ _ HL). }
  destruct (distribute_ok A k _ bs1 Hk C2 C3 Hok) as (D1 & D2 & D3 & _).
  split_and!; [by rewrite D1, Hs| |done]. intros j. rewrite D2, Hs, C1, (zsum_permutation _ _ Hp). done.
Qed.

Lemma redistribute_ok ids L ks A bs : leftovers_ok ids L -> NoDup ks -> (forall k, k ∈ ks -> k ∉ A) ->
  Forall (bundle_ok A) bs ->
  let bs' := fold_left (redistributeOne L) ks bs in
  totalCoins bs' = totalCoins bs /\
  (forall j, totalQty j bs' = totalQty j bs + if bool_decide (j ∈ ks) then leftoverTotal L j else 0) /\
  Forall value_nonneg bs'.
Proof.
  intros HL Hnd. revert A bs. induction Hnd as [|k ks Hk Hnd IH]; intros A bs Hks Hbs; cbn [fold_left].
  { split_and!; [done| |].
    - intros j. rewrite bool_decide_false by apply not_elem_of_nil. lia.
    - eapply Forall_impl; [exact Hbs|]. by intros b []. }
  destruct (redistributeOne_ok ids A L bs k HL (Hks k ltac:(left)) Hbs) as (H1 & H2 & H3).
  destruct (IH (k :: A) (redistributeOne L bs k)) as (H4 & H5 & H6); [|done|].
  { intros j Hj [->|Hj']%elem_of_cons; [done|]. apply (Hks j); [by right|done]. }
  split_and!; [lia| |done]. intros j. rewrite H5, H2. destruct (decide (k = j)) as [->|Hne].
  - rewrite (bool_decide_false _ Hk), bool_decide_true by left. lia.
  - rewrite (bool_decide_ext (j ∈ k :: ks) (j ∈ ks)) by (rewrite elem_of_cons; intuition congruence). lia.
Qed.

Lemma redistributeLeftoverAssets_ok ids sel bs : Forall utxo_ok sel -> Forall (bundle_ok ids) bs ->
  let bs' := redistributeLeftoverAssets sel bs ids in
  totalCoins bs' = totalCoins bs /\
  (forall j, j ∈ ids -> totalQty j bs' = totalQty j bs) /\
  (forall j, j ∉ ids -> totalQty j bs' = totalQty j (utxoValues sel)) /\
  Forall value_nonneg bs'.
Proof.
  intros Hsel Hbs. destruct (getLeftoverAssets_ok ids sel Hsel) as [HL Ht].
  destruct (redistribute_ok ids _ (JsMap.keys (getLeftoverAssets sel ids)) ids bs HL (lo_wf _ _ HL) (lo_keys _ _ HL) Hbs)
    as (H1 & H2 & H3).
  cbv zeta. split_and!; [done| | |done].
  - intros j Hj. etrans; [apply H2|]. rewrite bool_decide_false; [lia|]. intros Hk. by apply (lo_keys _ _ HL j).
  - intros j Hj. etrans; [apply H2|].
    assert (H0 : totalQty j bs = 0).
    { clear -Hbs Hj. induction Hbs as [|b bs [_ Hk] _ IH]; [done|]. rewrite totalQty_cons, IH.
      rewrite (keys_in_zero ids b j Hk Hj). done. }
    rewrite H0, <- Ht by done. case_bool_decide as Hin; [done|].
    unfold leftoverTotal, getOrEmpty. by rewrite (proj2 (get_None _ _) Hin).
Qed.
End leftovers.

(** ** Minimum coin quantity *)

Lemma coalesce_nonneg vs : Forall value_nonneg vs -> value_nonneg (coalesceValueQuantities vs).
Proof.
  intros Hvs. assert (Hok : Forall value_ok vs) by (eapply Forall_impl; [exact Hvs|]; by intros v (_ & ? & _)).
  split_and!.
  - rewrite coalesceValueQuantities_coins. apply zsum_nonneg, Forall_fmap.
    eapply Forall_impl; [exact Hvs|]. by intros v [].
  - apply coalesceValueQuantities_ok.
  - intros i. rewrite coalesceValueQuantities_qty by done. apply zsum_nonneg, Forall_fmap.
    eapply Forall_impl; [exact Hvs|]. intros v (_ & _ & Hq). apply Hq.
Qed.

Lemma coalesce_same vs : Forall value_nonneg vs -> same_totals [coalesceValueQuantities vs] vs.
Proof.
  intros Hvs. assert (Hok : Forall value_ok vs) by (eapply Forall_impl; [exact Hvs|]; by intros v (_ & ? & _)).
  split.
  - rewrite totalCoins_cons, coalesceValueQuantities_coins. change (totalCoins []) with 0. lia.
  - intros i. rewrite totalQty_cons, coalesceValueQuantities_qty by done. change (totalQty i []) with 0. lia.
Qed.

Section mincoin.
Context {LD : Lodash} {LL : LodashLaws}.

Lemma mergeWithSmallestBundle_ok vs i v : vs !! i = Some v -> (2 <= length vs)%nat -> Forall value_nonneg vs ->
  same_totals (mergeWithSmallestBundle vs i) vs /\ length vs = S (length (mergeWithSmallestBundle vs i)) /\
  Forall value_nonneg (mergeWithSmallestBundle vs i).
Proof.
  intros Hi Hl Hvs. unfold mergeWithSmallestBundle. rewrite Hi. cbv zeta.
  pose proof (take_drop_middle vs i v Hi) as Hmid. set (rest := take i vs ++ drop (S i) vs).
  assert (Hp : vs ≡ₚ v :: rest) by (rewrite <- Hmid; unfold rest; by rewrite <- Permutation_middle).
  pose proof (reverse_Permutation rest) as Hrev.
  destruct (reverse rest) as [|last front].
  { rewrite <- Hrev in Hp. apply Permutation_length in Hp. cbn in Hp. lia. }
  assert (Hvl : Forall value_nonneg (v :: last :: front)) by (by rewrite Hrev, <- Hp).
  apply Forall_cons in Hvl as [Hv [Hlast Hfront]%Forall_cons].
  assert (Hm : Forall value_nonneg [v; last]) by (do 2 (apply Forall_cons_2; [done|]); apply Forall_nil_2).
  assert (Hq : orderByDesc coins (reverse front ++ [coalesceValueQuantities [v; last]]) ≡ₚ
               [coalesceValueQuantities [v; last]] ++ front).
  { rewrite orderByDesc_perm, reverse_Permutation. apply Permutation_app_comm. }
  split_and!.
  - transitivity ([coalesceValueQuantities [v; last]] ++ front); [by apply same_totals_perm|].
    rewrite (coalesce_same [v; last] Hm). apply same_totals_perm. rewrite Hp, <- Hrev. done.
  - rewrite (Permutation_length Hq), (Permutation_length Hp). apply Permutation_length in Hrev. cbn in *. lia.
  - rewrite Hq. constructor; [by apply coalesce_nonneg|done].
Qed.

Lemma lastFailing_None p l : lastFailing p l = None -> Forall (fun x => p x = true) l.
Proof.
  induction l as [|x l IH]; cbn; [constructor|]. destruct (lastFailing p l); [done|].
  destruct (p x) eqn:E; [|done]. intros _. constructor; auto.
Qed.

Lemma lastFailing_Some p l i : lastFailing p l = Some i -> exists v, l !! i = Some v /\ p v = false.
Proof.
  revert i. induction l as [|x l IH]; intros i; cbn; [done|]. destruct (lastFailing p l) as [j|].
  - intros [= <-]. by apply IH.
  - destruct (p x) eqn:E; [done|]. intros [= <-]. by exists x.
Qed.

Lemma coalesceLoop_ok p fuel vs : (length vs <= fuel)%nat -> vs <> [] -> Forall value_nonneg vs ->
  let ws := coalesceLoop fuel p vs in
  same_totals ws vs /\ Forall value_nonneg ws /\ ws <> [] /\
  ((length ws <= 1)%nat \/ Forall (fun x => p x = true) ws).
Proof.
  revert vs. induction fuel as [|fuel IH]; intros vs Hl Hne Hvs.
  { destruct vs; [done|]. cbn in Hl. lia. }
  cbn [coalesceLoop]. destruct (Z.ltb_spec 1 (zlen vs)) as [Hlt|Hge].
  2:{ cbv zeta. split_and!; [done..|]. left. unfold zlen in Hge. lia. }
  destruct (lastFailing p vs) as [i|] eqn:E.
  2:{ cbv zeta. split_and!; [done..|]. right. by apply lastFailing_None. }
  apply lastFailing_Some in E as (v & Hv & _).
  destruct (mergeWithSmallestBundle_ok vs i v Hv) as (H1 & H2 & H3); [unfold zlen in Hlt; lia|done|].
  destruct (IH (mergeWithSmallestBundle vs i)) as (H4 & H5 & H6 & H7).
  - lia.
  - intros E. rewrite E in H2. unfold zlen in Hlt. cbn in H2. lia.
  - done.
  - cbv zeta. split_and!; [by rewrite H4|done..].
Qed.

Lemma dropZero_same v : value_nonneg v -> value_nonneg (dropZeroQuantities v) /\
  coins (dropZeroQuantities v) = coins v /\ forall i, qty i (dropZeroQuantities v) = qty i v.
Proof.
  intros (Hc & Hok & Hq). assert (Hqs : forall i, qty i (dropZeroQuantities v) = qty i v).
  { intros i. specialize (Hq i). unfold value_ok, assets_ok, qty, quantity, dropZeroQuantities in *. cbn [assets].
    destruct (assets v) as [m|]; [|done]. rewrite filter_pos, of_entries_nodup by by apply wf_filter.
    rewrite (getOr0_filter (fun q => 0 <? q)) by done. destruct (Z.ltb_spec 0 (getOr0 m i)); lia. }
  split_and!; [|done|done]. split_and!; [done| |intros i; by rewrite Hqs].
  unfold value_ok, assets_ok, dropZeroQuantities. cbn. destruct (assets v); [apply wf_of_entries|done].
Qed.

Lemma nonEmpty_same vs : Forall value_nonneg vs -> same_totals (filter (fun b => nonEmptyBundle b = true) vs) vs.
Proof.
  induction 1 as [|v vs (Hc & _ & _) _ IH]; [done|]. rewrite filter_cons. case_decide as E.
  - by apply (same_totals_app [v] [v] (reflexivity _)).
  - apply not_true_is_false in E. unfold nonEmptyBundle in E. zb. unfold JsMap.size in *.
    pose proof (zlen_nonneg (entriesOf v)).
    assert (He : entriesOf v = []) by (apply zlen_0; lia). destruct IH as [IHc IHq]. split.
    + rewrite totalCoins_cons, IHc. lia.
    + intros i. rewrite totalQty_cons, IHq, qty_entries, He. done.
Qed.

Lemma coalesceChangeBundles_ok computeMin bs bs' : Forall value_nonneg bs ->
  coalesceChangeBundlesForMinCoinRequirement bs computeMin = Some bs' ->
  same_totals bs' bs /\ Forall value_nonneg bs' /\
  Forall (fun b => satisfiesMinCoinRequirement computeMin b = true) bs'.
Proof.
  intros Hbs. unfold coalesceChangeBundlesForMinCoinRequirement. cbv zeta.
  destruct (Z.eqb_spec (zlen bs) 0) as [Hz%zlen_0|Hz].
  { subst. intros [= <-]. split_and!; [done|done|constructor]. }
  pose proof (orderByDesc_perm coins (dropZeroQuantities <$> bs)) as Hp.
  assert (Hd : Forall value_nonneg (dropZeroQuantities <$> bs)).
  { apply Forall_fmap. eapply Forall_impl; [exact Hbs|]. intros v Hv. by apply dropZero_same. }
  destruct (coalesceLoop_ok (satisfiesMinCoinRequirement computeMin) (length (orderByDesc coins (dropZeroQuantities <$> bs)))
    (orderByDesc coins (dropZeroQuantities <$> bs))) as (H1 & H2 & H3 & H4).
  { done. }
  { intros E. rewrite E in Hp. apply Permutation_nil_l in Hp. by destruct bs. }
  { by rewrite Hp. }
  destruct (coalesceLoop _ _ _) as [|b ws]; [done|].
  destruct (satisfiesMinCoinRequirement computeMin b) eqn:Eb; [|done]. intros [= <-].
  assert (Hall : Forall (fun b => satisfiesMinCoinRequirement computeMin b = true) (b :: ws)).
  { destruct H4 as [Hl|]; [|done]. destruct ws; [by apply Forall_cons_2; [|apply Forall_nil_2]|cbn in Hl; lia]. }
  split_and!.
  - rewrite (nonEmpty_same _ H2), H1. transitivity (dropZeroQuantities <$> bs); [by apply same_totals_perm|].
    apply same_totals_fmap. eapply Forall_impl; [exact Hbs|]. intros v Hv. by apply dropZero_same.
  - by apply Forall_filter.
  - by apply Forall_filter.
Qed.
End mincoin.

(** ** Splitting large bundles *)

Lemma delete_snoc (m : TokenMap) k q : k ∉ JsMap.keys m -> JsMap.delete (m ++ [(k, q)]) k = m.
Proof.
  induction m as [|[k' v] m IH]; cbn; [by rewrite decide_True|].
  intros [Hne Hk]%not_elem_of_cons. rewrite decide_False by done. by rewrite IH.
Qed.

Lemma keys_app (m n : TokenMap) : JsMap.keys (m ++ n) = JsMap.keys m ++ JsMap.keys n.
Proof. apply fmap_app. Qed.

(** A map that fits: within the limit, or a single asset. *)
Definition fits (exceeds : TokenMap -> bool) (m : TokenMap) : Prop := exceeds m = false \/ JsMap.size m <= 1.

Lemma splitStep_ok exceeds es nvs nv : map_ok (nv ++ es) -> Forall (fits exceeds) nvs -> fits exceeds nv ->
  let r := fold_left (splitStep exceeds) es (nvs, nv) in
  concat r.1 ++ r.2 = concat nvs ++ nv ++ es /\ Forall (fits exceeds) r.1 /\ fits exceeds r.2.
Proof.
  revert nvs nv. induction es as [|[k q] es IH]; intros nvs nv Hok Hnvs Hnv; cbn [fold_left].
  { cbn. by rewrite app_nil_r. }
  assert (Hk : k ∉ JsMap.keys nv).
  { unfold JsMap.wf in Hok. rewrite keys_app in Hok. apply NoDup_app in Hok as (_ & Hd & _).
    intros Hin. apply (Hd k Hin). left. }
  cbn [splitStep]. rewrite set_not_In by done.
  destruct (exceeds (nv ++ [(k, q)]) && (1 <? JsMap.size (nv ++ [(k, q)]))) eqn:E; cbv beta.
  - rewrite delete_snoc by done. destruct (IH (nvs ++ [nv]) [(k, q)]) as (H1 & H2 & H3).
    + unfold JsMap.wf in *. rewrite keys_app in Hok. by apply NoDup_app in Hok as (_ & _ & ?).
    + apply Forall_app. split; [done|by apply Forall_cons_2; [|apply Forall_nil_2]].
    + right. done.
    + cbv zeta. split; [|done]. rewrite H1, concat_app. cbn. by rewrite app_nil_r, <- !app_assoc.
  - destruct (IH nvs (nv ++ [(k, q)])) as (H1 & H2 & H3).
    + by rewrite <- app_assoc.
    + done.
    + apply andb_false_iff in E as [E|E]; [by left|right]. zb. done.
    + cbv zeta. split; [|done]. rewrite H1, <- app_assoc. done.
Qed.

Lemma splitAssets_ok exceeds m : map_ok m ->
  concat (splitAssets exceeds m) = m /\ Forall (fits exceeds) (splitAssets exceeds m) /\ splitAssets exceeds m <> [].
Proof.
  intros Hm. unfold splitAssets. destruct (splitStep_ok exceeds m [] []) as (H1 & H2 & H3); [done|constructor|by right|].
  destruct (fold_left (splitStep exceeds) m ([], [])) as [nvs nv]. cbn in *. split_and!.
  - rewrite concat_app. cbn. by rewrite app_nil_r.
  - apply Forall_app. split; [done|by apply Forall_cons_2; [|apply Forall_nil_2]].
  - by destruct nvs.
Qed.

Lemma getOr0_app (m n : TokenMap) i : map_ok (m ++ n) -> getOr0 (m ++ n) i = getOr0 m i + getOr0 n i.
Proof.
  induction m as [|[k v] m IH]; intros Hok; cbn [app]; [done|]. cbn [app] in Hok.
  apply map_ok_cons in Hok as [Hk Hok]. rewrite !getOr0_cons. rewrite keys_app in Hk.
  apply not_elem_of_app in Hk as [_ Hk]. destruct (decide (k = i)) as [->|]; [|by apply IH].
  rewrite (getOr0_absent n i Hk). lia.
Qed.

Lemma map_ok_app (m n : TokenMap) : map_ok (m ++ n) -> map_ok m /\ map_ok n.
Proof. unfold JsMap.wf. rewrite keys_app. intros (? & _ & ?)%NoDup_app. done. Qed.

Lemma concat_totals computeMin ms i : map_ok (concat ms) ->
  totalQty i (withMinCoin computeMin <$> ms) = getOr0 (concat ms) i.
Proof.
  induction ms as [|m ms IH]; intros Hok; [done|]. cbn [concat] in *. cbn [fmap list_fmap].
  rewrite totalQty_cons, getOr0_app by done. apply map_ok_app in Hok as [_ Hok]. by rewrite IH.
Qed.

Lemma addToFirst_totals c vs : vs <> [] ->
  totalCoins (addToFirst c vs) = totalCoins vs + c /\ forall i, totalQty i (addToFirst c vs) = totalQty i vs.
Proof.
  destruct vs as [|v vs]; [done|]. intros _. cbn [addToFirst]. split; [|done].
  rewrite !totalCoins_cons. cbn [coins]. lia.
Qed.

Lemma minCoinTotal vs a : fold_left (fun total v => total + coins v) vs a = a + totalCoins vs.
Proof.
  revert a. induction vs as [|v vs IH]; intros a; cbn [fold_left]; [change (totalCoins []) with 0; lia|].
  rewrite IH, totalCoins_cons. lia.
Qed.

Lemma splitBundle_totals computeMin exceeds acc b acc' : value_ok b ->
  splitBundle computeMin exceeds acc b = Ok acc' -> same_totals acc' (acc ++ [b]).
Proof.
  unfold splitBundle. intros Hok E. destruct b as [c [m|]]; cbn [assets coins] in *; [|by injection E as <-].
  destruct ((JsMap.size m =? 0) || negb (exceeds m)); [by injection E as <-|].
  rewrite minCoinTotal, Z.add_0_l in E. destruct (c <? _); [done|]. injection E as <-.
  destruct (splitAssets_ok exceeds m Hok) as (Hcat & _ & Hne).
  assert (Hne' : withMinCoin computeMin <$> splitAssets exceeds m <> []) by by destruct (splitAssets exceeds m).
  destruct (addToFirst_totals (c - totalCoins (withMinCoin computeMin <$> splitAssets exceeds m)) _ Hne') as [H1 H2].
  apply (same_totals_app acc acc (reflexivity _)). split.
  - rewrite H1, totalCoins_cons. cbn [coins]. change (totalCoins []) with 0. lia.
  - intros i. rewrite H2, concat_totals by by rewrite Hcat. rewrite Hcat, totalQty_cons.
    change (totalQty i []) with 0. cbn. lia.
Qed.

Lemma split_totals computeMin exceeds bs acc bs' : Forall value_ok bs ->
  foldRes (splitBundle computeMin exceeds) bs acc = Ok bs' -> same_totals bs' (acc ++ bs).
Proof.
  intros Hbs. revert acc. induction Hbs as [|b bs Hb Hbs IH]; intros acc E.
  { injection E as <-. by rewrite app_nil_r. }
  cbn [foldRes] in E. destruct (splitBundle computeMin exceeds acc b) as [acc'|?|] eqn:E1; [|done..].
  apply IH in E. rewrite E. apply splitBundle_totals in E1; [|done]. rewrite E1, <- app_assoc. done.
Qed.

(** ** Change for a selection *)

Section bundles.
Context {LD : Lodash} {LL : LodashLaws}.
Context (sel : UtxoSelection) (outs : list Value) (ids : list AssetId) (iv : RequiredImplicitValue) (fee : Z).
Context (Hsel : Forall utxo_ok (utxoSelected sel)) (Hargs : args_ok outs ids iv) (Hfee : 0 <= fee).
Context (Hcov : Forall (fun i => covers_asset i (utxoValues (utxoSelected sel)) outs iv) ids).
Context (Hcoins : totalCoins outs + fee + deposit (implicitCoin iv) <=
                  totalCoins (utxoValues (utxoSelected sel)) + input (implicitCoin iv)).

Theorem computeChangeBundles_balanced computeMin exceeds bs :
  computeChangeBundles sel outs ids iv computeMin exceeds fee = Ok (Some bs) ->
  totalCoins (utxoValues (utxoSelected sel)) + input (implicitCoin iv) =
    totalCoins outs + totalCoins bs + fee + deposit (implicitCoin iv) /\
  (forall i, i ∈ ids -> totalQty i (utxoValues (utxoSelected sel)) + inputTokens (implicitTokens iv) i =
    totalQty i outs + totalQty i bs + spendTokens (implicitTokens iv) i) /\
  (forall i, i ∉ ids -> totalQty i (utxoValues (utxoSelected sel)) = totalQty i bs).
Proof.
  unfold computeChangeBundles. intros E.
  destruct (computeRequestedAssetChangeBundles (utxoSelected sel) outs ids iv fee) as [req|?|] eqn:Er; [|done..].
  apply computeRequestedAssetChangeBundles_ok in Er as (R1 & R2 & R3); [|done|done|done|done|lia].
  cbn [mbind outcome_bind] in E. destruct (redistributeLeftoverAssets_ok ids (utxoSelected sel) req Hsel R3) as (L1 & L2 & L3 & L4).
  destruct (coalesceChangeBundlesForMinCoinRequirement _ computeMin) as [cb|] eqn:Ec; [|done].
  apply coalesceChangeBundles_ok in Ec as (C1 & C2 & _); [|done].
  destruct (splitChangeIfTokenBundlesSizeExceedsLimit cb computeMin exceeds) as [bs'|?|] eqn:Es; [|done..].
  injection E as <-. apply split_totals in Es;
    [|eapply Forall_impl; [exact C2|]; by intros v (_ & ? & _)]. cbn [app] in Es.
  rewrite Es, C1, L1, R1. split; [lia|]. split; intros i Hi; rewrite Es, C1.
  - rewrite L2, R2 by done. unfold assetExcess. lia.
  - by rewrite L3.
Qed.
End bundles.

(** The bundles that come out satisfy the minimum, when the minimum does not
    depend on the coins already in the output. *)
Definition coin_blind (computeMin : TxOut -> Z) : Prop := forall addr m c c',
  computeMin (mkTxOut addr {| assets := m; coins := c |}) = computeMin (mkTxOut addr {| assets := m; coins := c' |}).

Lemma splitBundle_min computeMin exceeds acc b acc' : coin_blind computeMin ->
  Forall (fun v => satisfiesMinCoinRequirement computeMin v = true) (acc ++ [b]) ->
  splitBundle computeMin exceeds acc b = Ok acc' ->
  Forall (fun v => satisfiesMinCoinRequirement computeMin v = true) acc'.
Proof.
  intros Hblind Hall E. unfold splitBundle in E. destruct b as [c [m|]]; cbn [assets coins] in *; [|by injection E as <-].
  destruct ((JsMap.size m =? 0) || negb (exceeds m)); [by injection E as <-|].
  destruct (Z.ltb_spec c (fold_left (fun total v => total + coins v) (withMinCoin computeMin <$> splitAssets exceeds m) 0));
    [done|]. injection E as <-. apply Forall_app in Hall as [Hacc _]. apply Forall_app. split; [done|].
  set (k := c - _) in *. assert (Hk : 0 <= k) by lia. clearbody k.
  assert (Hnew : forall m k, 0 <= k -> satisfiesMinCoinRequirement computeMin
    {| assets := Some m; coins := coins (withMinCoin computeMin m) + k |} = true).
  { intros m' k' Hk'. apply Z.leb_le. cbn [coins]. rewrite (Hblind _ _ _ 0).
    change (coins (withMinCoin computeMin m')) with (computeMin (mkTxOut stubMaxSizeAddress {| assets := Some m'; coins := 0 |})).
    lia. }
  assert (Hmin : forall m, satisfiesMinCoinRequirement computeMin (withMinCoin computeMin m) = true).
  { intros m'. specialize (Hnew m' 0 ltac:(lia)). by rewrite Z.add_0_r in Hnew. }
  destruct (splitAssets exceeds m) as [|m1 ms]; [constructor|]. cbn [fmap list_fmap addToFirst].
  apply Forall_cons_2; [by apply Hnew|]. apply Forall_fmap, Forall_true. intros m'. apply Hmin.
Qed.

Lemma split_min computeMin exceeds bs acc bs' : coin_blind computeMin ->
  Forall (fun v => satisfiesMinCoinRequirement computeMin v = true) (acc ++ bs) ->
  foldRes (splitBundle computeMin exceeds) bs acc = Ok bs' ->
  Forall (fun v => satisfiesMinCoinRequirement computeMin v = true) bs'.
Proof.
  intros Hblind. revert acc. induction bs as [|b bs IH]; intros acc Hall E.
  { injection E as <-. by rewrite app_nil_r in Hall. }
  cbn [foldRes] in E. destruct (splitBundle computeMin exceeds acc b) as [acc'|?|] eqn:E1; [|done..].
  rewrite (cons_middle b acc bs), app_assoc in Hall. apply Forall_app in Hall as [H1 H2].
  eapply IH; [|exact E]. apply Forall_app. split; [|done]. by eapply splitBundle_min.
Qed.

Lemma validate_ok bs exceeds : validateChangeBundles bs exceeds = Ok tt ->
  Forall (fun v => match assets v with Some m => exceeds m = false | None => True end) bs.
Proof.
  induction bs as [|b bs IH]; cbn; [constructor|]. destruct (assets b) as [m|] eqn:Ea.
  - destruct (exceeds m) eqn:Em; [done|]. intros E. apply Forall_cons_2; [by rewrite Ea|by apply IH].
  - intros E. apply Forall_cons_2; [by rewrite Ea|by apply IH].
Qed.

(** ** Nothing runs out of fuel *)

Lemma foldRes_fuel {A B} (f : B -> A -> Res B) l b : (forall b x, f b x <> OutOfFuel) -> foldRes f l b <> OutOfFuel.
Proof.
  intros Hf. revert b. induction l as [|x l IH]; intros b; [done|]. cbn.
  specialize (Hf b x). destruct (f b x); [apply IH|done|done].
Qed.

Lemma computeChangeBundles_fuel `{Lodash} sel outs ids iv cm ex fee :
  computeChangeBundles sel outs ids iv cm ex fee <> OutOfFuel.
Proof.
  unfold computeChangeBundles, computeRequestedAssetChangeBundles, createBundlePerOutput. cbv zeta.
  assert (Ha : forall T b x, bundleAsset T b x <> OutOfFuel).
  { intros T [b t] [i a]. unfold bundleAsset, bigint_div. destruct (JsMap.get T i) as [[? ?]|]; [|done].
    destruct (_ =? 0); done. }
  match goal with |- context [foldRes ?f ?l ?b] => pose proof (foldRes_fuel f l b) as H1; destruct (foldRes f l b) end;
    [|done|].
  - cbn [mbind outcome_bind]. destruct (coalesceChangeBundlesForMinCoinRequirement _ cm) as [cb|]; [|done].
    unfold splitChangeIfTokenBundlesSizeExceedsLimit.
    pose proof (foldRes_fuel (splitBundle cm ex) cb []) as H2.
    destruct (foldRes (splitBundle cm ex) cb []); [done|done|]. exfalso. apply H2; [|done].
    intros b [c [m|]]; unfold splitBundle; cbn; repeat case_bool; done.
  - exfalso. apply H1; [|done]. intros b [c [m|]]; unfold bundleOutput; cbn [assets]; [|done]. cbv zeta.
    pose proof (foldRes_fuel (bundleAsset (assetTotalsOf (utxoValues (utxoSelected sel)) outs ids (implicitTokens iv)))
      m ([], totalAssetsBundled b) ltac:(apply Ha)) as H3.
    destruct (foldRes _ m _) as [[? ?]|?|]; done.
Qed.

(** ** The fee loop *)

(** What the loop assumes of the estimator: a fee is not negative. *)
Definition estimator_ok (est : list Utxo -> list Value -> Res TxCosts) : Prop := forall us vs,
  est us vs <> OutOfFuel /\ forall c, est us vs = Ok c -> 0 <= costFee c.

(** Inputs and implicit inputs equal outputs, change, fee and implicit spending. *)
Record balanced (ins : list Utxo) (outs chg : list Value) (ids : list AssetId) (iv : RequiredImplicitValue) (fee : Z) :
    Prop := {
  balanced_coins : totalCoins (utxoValues ins) + input (implicitCoin iv) =
    totalCoins outs + totalCoins chg + fee + deposit (implicitCoin iv);
  balanced_listed i : i ∈ ids -> totalQty i (utxoValues ins) + inputTokens (implicitTokens iv) i =
    totalQty i outs + totalQty i chg + spendTokens (implicitTokens iv) i;
  balanced_other i : i ∉ ids -> totalQty i (utxoValues ins) = totalQty i chg
}.

Record change_ok (args : ChangeComputationArgs) (sel : UtxoSelection) (r : ChangeComputationResult) : Prop := {
  ch_balanced : balanced (resultInputs r) (outputValues args) (resultChange r) (uniqueTxAssetIDs args)
                  (changeImplicitValue args) (resultFee r);
  ch_perm : resultInputs r ++ resultRemainingUTxO r ≡ₚ utxoSelected sel ++ utxoRemaining sel;
  ch_prefix : utxoSelected sel `prefix_of` resultInputs r;
  ch_limit : Forall (fun v => match assets v with Some m => exceedsLimit args m = false | None => True end) (resultChange r);
  ch_min : coin_blind (minCoin args) ->
    Forall (fun v => satisfiesMinCoinRequirement (minCoin args) v = true) (resultChange r);
  ch_fee : exists bs c, estimateTxCosts args (resultInputs r) bs = Ok c /\ resultFee r = costFee c
}.

Record loop_ok (args : ChangeComputationArgs) (sel : UtxoSelection) : Prop := {
  lp_utxo : Forall utxo_ok (utxoSelected sel ++ utxoRemaining sel);
  lp_refs : refs_ok (utxoRemaining sel);
  lp_assets : Forall (fun i => covers_asset i (utxoValues (utxoSelected sel)) (outputValues args) (changeImplicitValue args))
                (uniqueTxAssetIDs args);
  lp_coins : covers_coins (utxoValues (utxoSelected sel)) (outputValues args) (changeImplicitValue args)
}.

Section fee_loop.
Context {LD : Lodash} {LL : LodashLaws} {PA : PickAdditionalUtxo} {PL : PickLaws}.
Context (args : ChangeComputationArgs).
Context (Hargs : args_ok (outputValues args) (uniqueTxAssetIDs args) (changeImplicitValue args)).
Context (Hest : estimator_ok (estimateTxCosts args)).

Lemma pick_loop_ok sel sel' u : loop_ok args sel -> utxoSelected sel' = utxoSelected sel ++ [u] ->
  u :: utxoRemaining sel' ≡ₚ utxoRemaining sel -> loop_ok args sel'.
Proof.
  intros [Hu Hr Ha Hc] Es Er.
  assert (Hp : utxoSelected sel' ++ utxoRemaining sel' ≡ₚ utxoSelected sel ++ utxoRemaining sel).
  { rewrite Es, <- app_assoc. f_equiv. done. }
  assert (Huok : utxo_ok u).
  { rewrite Forall_forall in Hu. apply Hu. apply elem_of_app. right. rewrite <- Er. left. }
  destruct Huok as (Huc & _ & Huq). split.
  - by rewrite Hp.
  - rewrite <- Er in Hr. by apply NoDup_cons in Hr as [_ ?].
  - eapply Forall_impl; [exact Ha|]. intros i. unfold covers_asset. rewrite Es, utxoValues_app, totalQty_app.
    rewrite utxoValues_cons, totalQty_cons. change (totalQty i (utxoValues [])) with 0. specialize (Huq i). lia.
  - unfold covers_coins in *. rewrite Es, utxoValues_app, totalCoins_app, utxoValues_cons, totalCoins_cons.
    change (totalCoins (utxoValues [])) with 0. lia.
Qed.

Lemma pick_change_ok sel sel' u r : utxoSelected sel' = utxoSelected sel ++ [u] ->
  u :: utxoRemaining sel' ≡ₚ utxoRemaining sel -> change_ok args sel' r -> change_ok args sel r.
Proof.
  intros Es Er [H1 H2 H3 H4 H5 H6]. split; [done| | |done..].
  - rewrite H2, Es, <- app_assoc. f_equiv. done.
  - rewrite Es in H3. etrans; [|exact H3]. by apply prefix_app_r.
Qed.

(** The outcome of the loop from [sel]: it ends, and a result is right. *)
Definition settles (sel : UtxoSelection) (m : Sel ChangeComputationResult) : Prop := forall i,
  exists o i', m i = (o, i') /\ o <> OutOfFuel /\ forall r, o = Ok r -> change_ok args sel r.

Lemma settles_throw sel e : settles sel (st_throw e).
Proof. intros i. eexists _, _. by split_and!. Qed.

Lemma settles_lift {A} sel (o : Res A) k : o <> OutOfFuel -> (forall a, o = Ok a -> settles sel (k a)) ->
  settles sel (st_lift o ≫= k).
Proof.
  intros Ho Hk i. destruct o as [a|e|]; [|eexists _, _; by split_and!|done]. apply (Hk a eq_refl).
Qed.

Lemma validate_fuel bs exceeds : validateChangeBundles bs exceeds <> OutOfFuel.
Proof. induction bs as [|b bs IH]; cbn; [done|]. destruct (assets b); [|done]. by case_bool. Qed.

Lemma final_ok sel c bs : loop_ok args sel -> 0 <= costFee c ->
  totalCoins (outputValues args) + costFee c + deposit (implicitCoin (changeImplicitValue args)) <=
    totalCoins (utxoValues (utxoSelected sel)) + input (implicitCoin (changeImplicitValue args)) ->
  (exists ws, estimateTxCosts args (utxoSelected sel) ws = Ok c) ->
  changeBundlesFor args sel (costFee c) = Ok (Some bs) -> validateChangeBundles bs (exceedsLimit args) = Ok tt ->
  change_ok args sel {| resultChange := bs; resultFee := costFee c; resultInputs := utxoSelected sel;
    resultRedeemers := costRedeemers c; resultRemainingUTxO := utxoRemaining sel |}.
Proof.
  intros [Hu Hr Ha Hc] Hfee Hcoins [ws Hws] E Hv. apply Forall_app in Hu as [Hu _].
  unfold changeBundlesFor in E. split; cbn; [| done| done | by apply validate_ok | |by exists ws, c].
  - apply computeChangeBundles_balanced in E as (B1 & B2 & B3); [by split|done..].
  - intros Hblind. unfold computeChangeBundles in E.
    destruct (computeRequestedAssetChangeBundles _ _ _ _ _) as [req|?|] eqn:Er; [|done..].
    apply computeRequestedAssetChangeBundles_ok in Er as (R1 & R2 & R3); [|done|done|done|done|lia].
    cbn [mbind outcome_bind] in E.
    destruct (redistributeLeftoverAssets_ok _ _ req Hu R3) as (_ & _ & _ & L4).
    destruct (coalesceChangeBundlesForMinCoinRequirement _ (minCoin args)) as [cb|] eqn:Ec; [|done].
    apply coalesceChangeBundles_ok in Ec as (_ & _ & C3); [|done].
    destruct (splitChangeIfTokenBundlesSizeExceedsLimit _ _ _) as [bs'|?|] eqn:Es; [|done..].
    injection E as <-. eapply (split_min _ _ cb []); [done|exact C3|exact Es].
Qed.

Lemma changeBundlesFor_fuel sel fee : changeBundlesFor args sel fee <> OutOfFuel.
Proof. unfold changeBundlesFor. apply computeChangeBundles_fuel. Qed.

Lemma attempt_settles sel rec : loop_ok args sel -> settles sel rec -> settles sel (attempt args sel rec).
Proof.
  intros Hsel Hrec. unfold attempt. apply settles_lift; [apply changeBundlesFor_fuel|].
  intros [cb|] Ecb; [|exact Hrec]. apply settles_lift; [apply validate_fuel|]. intros _ _.
  apply settles_lift; [apply Hest|]. intros c Ec. cbv zeta. rewrite !getCoinQuantity_total.
  destruct (Z.ltb_spec (totalCoins (utxoValues (utxoSelected sel)) + input (implicitCoin (changeImplicitValue args)))
    (totalCoins (outputValues args) + costFee c + deposit (implicitCoin (changeImplicitValue args)))) as [Hlt|Hge].
  { destruct (_ =? 0); [apply settles_throw|exact Hrec]. }
  apply settles_lift; [apply changeBundlesFor_fuel|]. intros [fb|] Efb; [|exact Hrec].
  apply settles_lift; [apply validate_fuel|]. intros [] Ev i. eexists _, _. split_and!; [done..|].
  intros r [= <-]. apply final_ok; [done| |done|by exists cb|done|done]. by eapply Hest.
Qed.

Theorem computeChangeAndAdjustForFee_settles fuel sel : loop_ok args sel -> (length (utxoRemaining sel) <= fuel)%nat ->
  settles sel (computeChangeAndAdjustForFee fuel args sel).
Proof.
  revert sel. induction fuel as [|fuel IH]; intros sel Hsel Hfuel; cbn [computeChangeAndAdjustForFee];
    (apply attempt_settles; [done|]).
  { destruct (utxoRemaining sel) as [|? ?]; [apply settles_throw|cbn in Hfuel; lia]. }
  destruct (Z.ltb_spec 0 (zlen (utxoRemaining sel))) as [Hl|]; [|apply settles_throw]. intros i.
  destruct (pick_one sel i) as (u & sel' & i1 & E & Es & Er); [by intros Hn; rewrite Hn in Hl|apply Hsel|].
  rewrite (st_bind_ok _ _ _ _ _ E). apply Permutation_length in Er as Hlen. cbn in Hlen.
  destruct (IH sel' (pick_loop_ok sel sel' u Hsel Es Er) ltac:(lia) i1) as (o & i' & Eo & Ho & Hr).
  eexists _, _. split_and!; [exact Eo|done|]. intros r ->. apply (pick_change_ok sel sel' u); [done..|]. by apply Hr.
Qed.
End fee_loop.

(** ** The ledger's equation

    Value consumed equals value produced: coins with the implicit ones, and
    every asset with what is minted or burnt. *)

Record tx_balanced (iv : option ImplicitValue) (sk : SelectionSkeleton) : Prop := {
  tx_coins : totalCoins (utxoValues (inputs sk)) + input (requiredCoin iv) =
    totalCoins (outValues (outputs sk)) + totalCoins (outValues (change sk)) + fee sk + deposit (requiredCoin iv);
  tx_assets i : totalQty i (utxoValues (inputs sk)) + getOr0 (mintOf iv) i =
    totalQty i (outValues (outputs sk)) + totalQty i (outValues (change sk))
}.

(** What a selector may assume of its caller. *)
Record params_ok (p : InputSelectionParameters) : Prop := {
  po_utxo : Forall utxo_ok (preSelectedUtxo p ++ utxo p);
  po_refs : refs_ok (preSelectedUtxo p ++ utxo p);
  po_outs : Forall value_nonneg (outValues (paramOutputs p));
  po_mint : map_ok (mintOf (implicitValue p));
  po_deposit : 0 <= deposit (requiredCoin (implicitValue p));
  po_cost sk : computeMinimumCost (constraints p) sk <> OutOfFuel /\
    forall c, computeMinimumCost (constraints p) sk = Ok c -> 0 <= costFee c;
  po_limit sk : computeSelectionLimit (constraints p) sk <> OutOfFuel
}.

(** The implicit value both selectors compute from the caller's. *)
Definition requiredImplicit (iv : option ImplicitValue) : RequiredImplicitValue :=
  {| implicitCoin := requiredCoin iv; implicitTokens := implicitTokensOf (mintOf iv) |}.

Lemma implicit_args p outs ids : params_ok p -> Forall value_nonneg outs -> NoDup ids ->
  args_ok outs ids (requiredImplicit (implicitValue p)).
Proof.
  intros Hp Ho Hn. split; [done|done|apply (po_deposit p Hp)|..]; intros i.
  - change (0 <= spendTokens (implicitTokensOf (mintOf (implicitValue p))) i).
    rewrite implicitTokensOf_spend by apply (po_mint p Hp). lia.
  - change (0 <= inputTokens (implicitTokensOf (mintOf (implicitValue p))) i).
    rewrite implicitTokensOf_input by apply (po_mint p Hp). lia.
Qed.

Lemma unlisted_qty ids i (outs : list Value) : (forall v, v ∈ outs -> keys_in ids v) -> i ∉ ids -> totalQty i outs = 0.
Proof.
  intros Hk Hi. induction outs as [|v outs IH]; [done|]. rewrite totalQty_cons, IH.
  - rewrite (keys_in_zero ids v i); [done|apply Hk; left|done].
  - intros w Hw. apply Hk. by right.
Qed.

Lemma balanced_tx ids iv ins outs chg txfee : map_ok (mintOf iv) ->
  (forall i, i ∉ ids -> totalQty i (outValues outs) = 0) -> (forall i, i ∉ ids -> getOr0 (mintOf iv) i = 0) ->
  balanced ins (outValues outs) (outValues chg) ids (requiredImplicit iv) txfee ->
  tx_balanced iv {| inputs := ins; outputs := outs; change := chg; fee := txfee |}.
Proof.
  intros Hm Ho Hmint [H1 H2 H3]. split; cbn [inputs outputs change fee]; [exact H1|]. intros i.
  destruct (decide (i ∈ ids)) as [Hi|Hi].
  - specialize (H2 i Hi). cbn [requiredImplicit implicitTokens] in H2.
    rewrite implicitTokensOf_input, implicitTokensOf_spend in H2 by done. lia.
  - rewrite Ho, Hmint, H3 by done. lia.
Qed.

(** Replacing the inputs by a permutation, and the change by one of the same value. *)
Lemma tx_balanced_same iv ins ins' outs chg chg' txfee : ins ≡ₚ ins' -> same_totals (outValues chg) (outValues chg') ->
  tx_balanced iv {| inputs := ins; outputs := outs; change := chg; fee := txfee |} ->
  tx_balanced iv {| inputs := ins'; outputs := outs; change := chg'; fee := txfee |}.
Proof.
  intros Hp Hs [H1 H2]. split; cbn [inputs outputs change fee] in *.
  - rewrite <- Hp, <- Hs. exact H1.
  - intros i. rewrite <- Hp, <- Hs. apply H2.
Qed.

Lemma outValues_mk addr vs : outValues (mkTxOut addr <$> vs) = vs.
Proof. unfold outValues. rewrite <- list_fmap_compose. apply list_fmap_id. Qed.

Lemma refs_perm l k : l ≡ₚ k -> refs_ok l -> refs_ok k.
Proof. intros E. by rewrite E. Qed.

Lemma refs_app_l l k : refs_ok (l ++ k) -> refs_ok l.
Proof. rewrite fmap_app. by intros (? & _ & _)%NoDup_app. Qed.

Lemma refs_app_r l k : refs_ok (l ++ k) -> refs_ok k.
Proof. rewrite fmap_app. by intros (_ & _ & ?)%NoDup_app. Qed.

(** ** The change computation succeeds when there is enough

    Conditions under which the fee loop returns a result: every output lists
    positive quantities of known assets, the estimator answers with bounded
    fees, the minimum coin quantity is bounded, bundles fit, and all UTxOs
    together hold the outputs, the largest fee and one minimum. *)

Import JsMapFacts ValuesFacts SelectionFacts RoundRobinFacts.

(** Every asset an output lists is known and its quantity positive. *)
Definition listed (ids : list AssetId) (v : Value) : Prop := forall i a, (i, a) ∈ entriesOf v -> i ∈ ids /\ 0 < a.

Lemma bundleAssets_total T es acc : (forall i a, (i, a) ∈ es -> exists t, JsMap.get T i = Some t /\ totalSelected t <> 0) ->
  exists r, foldRes (bundleAsset T) es acc = Ok r.
Proof.
  revert acc. induction es as [|[i a] es IH]; intros [b t] HT; [by eexists|].
  destruct (HT i a ltac:(left)) as ([sel req] & Eg & Hne). cbn in Hne. cbn [foldRes bundleAsset]. rewrite Eg.
  unfold bigint_div. rewrite (proj2 (Z.eqb_neq _ _)) by done. cbn [mbind outcome_bind].
  apply IH. intros j c Hj. apply (HT j c). by right.
Qed.

Lemma bundleOutputs_total req chg T vs acc :
  (forall v i a, v ∈ vs -> (i, a) ∈ entriesOf v -> exists t, JsMap.get T i = Some t /\ totalSelected t <> 0) ->
  exists r, foldRes (bundleOutput req chg T) vs acc = Ok r.
Proof.
  revert acc. induction vs as [|v vs IH]; intros acc HT; [by eexists|]. cbn [foldRes].
  assert (exists acc', bundleOutput req chg T acc v = Ok acc') as [acc' ->].
  { unfold bundleOutput. cbv zeta. destruct (assets v) as [m|] eqn:Em; [|by eexists].
    destruct (bundleAssets_total T m ([], totalAssetsBundled acc)) as [[b t] ->]; [|by eexists].
    intros i a Hi. apply (HT v i a); [left|]. unfold entriesOf. by rewrite Em. }
  cbn [mbind outcome_bind]. apply IH. intros w i a Hw. apply (HT w i a). by right.
Qed.

Section progress.
Context {LD : Lodash} {LL : LodashLaws}.

Lemma requested_total sel outs ids iv fee : Forall utxo_ok sel -> args_ok outs ids iv ->
  Forall (fun i => covers_asset i (utxoValues sel) outs iv) ids -> Forall (listed ids) outs ->
  exists bs, computeRequestedAssetChangeBundles sel outs ids iv fee = Ok bs.
Proof.
  intros Hsel Hargs Hcov Hl. unfold computeRequestedAssetChangeBundles, createBundlePerOutput. cbv zeta.
  set (T := assetTotalsOf _ _ _ _). destruct (bundleOutputs_total
    (getCoinQuantity outs + fee + deposit (implicitCoin iv))
    (getCoinQuantity (utxoValues sel) + input (implicitCoin iv) - (getCoinQuantity outs + fee + deposit (implicitCoin iv)))
    T outs {| bundles := []; totalAssetsBundled := []; totalCoinBundled := 0 |}) as [r ->]; [|by eexists].
  intros v i a Hv Hin. rewrite Forall_forall in Hl. destruct (Hl v Hv i a Hin) as [Hi Ha].
  unfold T. rewrite assetTotalsOf_get, bool_decide_true by done. eexists. split; [reflexivity|]. cbn.
  rewrite Forall_forall in Hcov. specialize (Hcov i Hi). unfold covers_asset in Hcov.
  pose proof (args_spend _ _ _ Hargs i). pose proof (args_outs _ _ _ Hargs) as Ho.
  assert (a <= totalQty i outs); [|lia].
  apply list_elem_of_split in Hv as (l1 & l2 & ->). apply Forall_app in Ho as [Ho1 [(_ & Hok & _) Ho2]%Forall_cons].
  rewrite totalQty_app, totalQty_cons, qty_entries, (getOr0_elem _ i a (entriesOf_ok v Hok) Hin).
  assert (Hnn : forall l, Forall value_nonneg l -> 0 <= totalQty i l).
  { intros l Hl'. apply zsum_nonneg, Forall_fmap. eapply Forall_impl; [exact Hl'|]. intros w (_ & _ & Hq). apply Hq. }
  pose proof (Hnn l1 Ho1). pose proof (Hnn l2 Ho2). lia.
Qed.

Lemma coalesce_total computeMin M bs : Forall value_nonneg bs -> (forall o, computeMin o <= M) -> M <= totalCoins bs ->
  exists bs', coalesceChangeBundlesForMinCoinRequirement bs computeMin = Some bs'.
Proof.
  intros Hbs HM Htot. unfold coalesceChangeBundlesForMinCoinRequirement. cbv zeta.
  destruct (Z.eqb_spec (zlen bs) 0) as [Hz|Hz]; [by eexists|].
  pose proof (orderByDesc_perm coins (dropZeroQuantities <$> bs)) as Hp.
  assert (Hd : Forall value_nonneg (dropZeroQuantities <$> bs)).
  { apply Forall_fmap. eapply Forall_impl; [exact Hbs|]. intros v Hv. by apply dropZero_same. }
  destruct (coalesceLoop_ok (satisfiesMinCoinRequirement computeMin) (length (orderByDesc coins (dropZeroQuantities <$> bs)))
    (orderByDesc coins (dropZeroQuantities <$> bs))) as (H1 & H2 & H3 & H4).
  { done. }
  { intros E. rewrite E in Hp. apply Permutation_nil_l in Hp. by destruct bs. }
  { by rewrite Hp. }
  assert (Hsame : same_totals (orderByDesc coins (dropZeroQuantities <$> bs)) bs).
  { transitivity (dropZeroQuantities <$> bs); [by apply same_totals_perm|].
    apply same_totals_fmap. eapply Forall_impl; [exact Hbs|]. intros v Hv. by apply dropZero_same. }
  destruct (coalesceLoop _ _ _) as [|b ws]; [done|].
  assert (Hb : satisfiesMinCoinRequirement computeMin b = true); [|rewrite Hb; by eexists].
  destruct H4 as [Hl|Hall]; [|by apply Forall_cons in Hall as [? _]].
  destruct ws; [|cbn in Hl; lia]. apply Z.leb_le. specialize (HM (mkTxOut stubMaxSizeAddress b)).
  rewrite <- H1 in Hsame. pose proof (same_coins _ _ Hsame) as Hc. rewrite totalCoins_cons in Hc.
  change (totalCoins []) with 0 in Hc. lia.
Qed.

Lemma split_total computeMin exceeds bs acc : (forall m, exceeds m = false) ->
  foldRes (splitBundle computeMin exceeds) bs acc = Ok (acc ++ bs).
Proof.
  intros Hex. revert acc. induction bs as [|b bs IH]; intros acc; cbn [foldRes]; [by rewrite app_nil_r|].
  assert (splitBundle computeMin exceeds acc b = Ok (acc ++ [b])) as ->.
  { unfold splitBundle. destruct (assets b); [|done]. rewrite Hex, orb_true_r. done. }
  cbn [mbind outcome_bind]. rewrite IH, <- app_assoc. done.
Qed.

Lemma validate_total bs exceeds : (forall m, exceeds m = false) -> validateChangeBundles bs exceeds = Ok tt.
Proof. intros Hex. induction bs as [|b bs IH]; cbn; [done|]. destruct (assets b); [by rewrite Hex|done]. Qed.

(** *** The loop *)

Context {PA : PickAdditionalUtxo} {PL : PickLaws} (args : ChangeComputationArgs) (F M : Z).

Record lenient : Prop := {
  ln_args : args_ok (outputValues args) (uniqueTxAssetIDs args) (changeImplicitValue args);
  ln_listed : Forall (listed (uniqueTxAssetIDs args)) (outputValues args);
  ln_fee us vs : exists c, estimateTxCosts args us vs = Ok c /\ 0 <= costFee c <= F;
  ln_M : 0 <= M;
  ln_min o : minCoin args o <= M;
  ln_limit m : exceedsLimit args m = false
}.
Context (Hln : lenient).

(** All UTxOs together cover outputs, deposit, the largest fee and a minimum. *)
Definition enough (sel : UtxoSelection) : Prop :=
  totalCoins (outputValues args) + F + deposit (implicitCoin (changeImplicitValue args)) + M <=
  totalCoins (utxoValues (utxoSelected sel ++ utxoRemaining sel)) + input (implicitCoin (changeImplicitValue args)).

(** A selection that holds a fee and a minimum gets its change. *)
Lemma bundles_total sel fee : loop_ok args sel -> 0 <= fee ->
  totalCoins (outputValues args) + fee + deposit (implicitCoin (changeImplicitValue args)) <=
  totalCoins (utxoValues (utxoSelected sel)) + input (implicitCoin (changeImplicitValue args)) ->
  exists o, changeBundlesFor args sel fee = Ok o /\
  (totalCoins (outputValues args) + fee + deposit (implicitCoin (changeImplicitValue args)) + M <=
   totalCoins (utxoValues (utxoSelected sel)) + input (implicitCoin (changeImplicitValue args)) -> exists bs, o = Some bs).
Proof.
  intros [Hu _ Ha _] Hfee Hcov. apply Forall_app in Hu as [Hu _]. destruct Hln as [Hargs Hlist _ _ Hmin Hlim].
  unfold changeBundlesFor, computeChangeBundles.
  destruct (requested_total (utxoSelected sel) (outputValues args) (uniqueTxAssetIDs args) (changeImplicitValue args) fee)
    as [req Er]; [done..|]. rewrite Er. cbn [mbind outcome_bind].
  apply computeRequestedAssetChangeBundles_ok in Er as (R1 & _ & R3); [|done..|lia].
  destruct (redistributeLeftoverAssets_ok _ (utxoSelected sel) req Hu R3) as (L1 & _ & _ & L4).
  destruct (coalesceChangeBundlesForMinCoinRequirement _ (minCoin args)) as [cb|] eqn:Ec.
  - unfold splitChangeIfTokenBundlesSizeExceedsLimit. rewrite split_total by done. cbn. eexists. split; [done|]. by eexists.
  - eexists. split; [done|]. intros HM. exfalso.
    destruct (coalesce_total (minCoin args) M _ L4 Hmin) as [bs' E]; [rewrite L1, R1; lia|]. congruence.
Qed.

Lemma attempt_total sel rec i : loop_ok args sel ->
  (exists r i', attempt args sel rec i = (Ok r, i')) \/
  (attempt args sel rec i = rec i /\ ~ (totalCoins (outputValues args) + F + deposit (implicitCoin (changeImplicitValue args)) + M <=
    totalCoins (utxoValues (utxoSelected sel)) + input (implicitCoin (changeImplicitValue args)))) \/
  utxoRemaining sel = [] /\ ~ (totalCoins (outputValues args) + F + deposit (implicitCoin (changeImplicitValue args)) + M <=
    totalCoins (utxoValues (utxoSelected sel)) + input (implicitCoin (changeImplicitValue args))).
Proof.
  intros Hsel. pose proof (lp_coins _ _ Hsel) as Hcc. unfold covers_coins in Hcc. unfold attempt.
  assert (HM0 : 0 <= F) by (destruct (ln_fee Hln [] []) as (? & _ & ?); lia).
  destruct (bundles_total sel 0 Hsel ltac:(lia) ltac:(lia)) as (o & E & Hsome). rewrite (st_lift_ok _ _ _ _ E).
  destruct o as [cb|]; [|right; left; split; [done|]; intros HM; destruct (Hsome ltac:(lia)); done].
  rewrite (st_lift_ok _ _ _ _ (validate_total cb _ (ln_limit Hln))).
  destruct (ln_fee Hln (utxoSelected sel) cb) as (c & Ec & Hc). rewrite (st_lift_ok _ _ _ _ Ec). cbv zeta.
  rewrite !getCoinQuantity_total.
  destruct (Z.ltb_spec (totalCoins (utxoValues (utxoSelected sel)) + input (implicitCoin (changeImplicitValue args)))
    (totalCoins (outputValues args) + costFee c + deposit (implicitCoin (changeImplicitValue args)))) as [Hlt|Hge].
  - pose proof (ln_M Hln).
    destruct (Z.eqb_spec (zlen (utxoRemaining sel)) 0) as [Hz|Hz]; right; [right|left]; (split; [|lia]).
    + by apply zlen_0.
    + done.
  - destruct (bundles_total sel (costFee c) Hsel ltac:(lia) Hge) as (o & E2 & Hsome2). rewrite (st_lift_ok _ _ _ _ E2).
    destruct o as [fb|]; [|right; left; split; [done|]; intros HM; destruct (Hsome2 ltac:(lia)); done].
    rewrite (st_lift_ok _ _ _ _ (validate_total fb _ (ln_limit Hln))). left. by eexists _, _.
Qed.

Theorem computeChangeAndAdjustForFee_total fuel sel i : loop_ok args sel -> (length (utxoRemaining sel) <= fuel)%nat ->
  enough sel -> exists r i', computeChangeAndAdjustForFee fuel args sel i = (Ok r, i').
Proof.
  revert sel i. induction fuel as [|fuel IH]; intros sel i Hsel Hfuel Hen; cbn [computeChangeAndAdjustForFee];
    match goal with |- context [attempt args sel ?m i] =>
      destruct (attempt_total sel m i Hsel) as [Hok|[[E Hno]|[E Hno]]]; [done| |] end.
  1,2: destruct Hno; unfold enough in Hen; destruct (utxoRemaining sel); [by rewrite app_nil_r in Hen|cbn in Hfuel; lia].
  2: { destruct Hno. unfold enough in Hen. by rewrite E, app_nil_r in Hen. }
  destruct (utxoRemaining sel) as [|u0 rest] eqn:Erem.
  { destruct Hno. unfold enough in Hen. by rewrite Erem, app_nil_r in Hen. }
  rewrite E. rewrite (proj2 (Z.ltb_lt _ _)) by (zlen_simpl; pose proof (zlen_nonneg rest); lia).
  destruct (pick_one sel i) as (u & sel' & i1 & Ep & Es & Er); [by rewrite Erem|apply Hsel|].
  rewrite (st_bind_ok _ _ _ _ _ Ep). apply Permutation_length in Er as Hlen. rewrite Erem in Hlen. cbn in Hlen, Hfuel.
  apply IH; [by eapply pick_loop_ok|lia|]. unfold enough in *.
  replace (totalCoins (utxoValues (utxoSelected sel' ++ utxoRemaining sel'))) with
    (totalCoins (utxoValues (utxoSelected sel ++ utxoRemaining sel))); [done|].
  apply totalCoins_proper, utxoValues_proper. rewrite Es, <- app_assoc. f_equiv. by rewrite <- Er.
Qed.
End progress.
