(* ===== verification/RandomImprove.v ===== *)
(** * The round-robin random-improve selector

    Models [RoundRobinRandomImprove/index.ts]: balance check, round-robin
    selection, change and fee, change addresses, selection limit. *)

From S2P Require Import Prelude JsRuntime Values Selection RoundRobin Change ChangeFacts.

Import JsMapFacts ValuesFacts SelectionFacts RoundRobinFacts.

(** Picks at random, from the UTxOs without assets if there are any. *)
Definition createPickAdditionalRandomUtxo `{Random} : PickAdditionalUtxo := fun sel =>
  let remainingUtxoOfOnlyCoin := filter (fun u => assets (value (txOut u)) = None) (utxoRemaining sel) in
  let pickFrom := if 0 <? zlen remainingUtxoOfOnlyCoin then remainingUtxoOfOnlyCoin else utxoRemaining sel in
  pickIdx ← floorRandom (zlen pickFrom);
  match pickFrom !! Z.to_nat pickIdx with
  | None => st_throw (TypeError "undefined is not iterable")
  | Some picked =>
      let originalIdx := indexOf (utxoRemaining sel) picked in
      mret {| utxoRemaining := slice (utxoRemaining sel) 0 originalIdx ++ slice_from (utxoRemaining sel) (originalIdx + 1);
              utxoSelected := utxoSelected sel ++ [picked] |}
  end.

Section select.
Context `{Lodash} `{Random} `{ChangeAddressResolver}.

Definition changeAddress : string := stubMaxSizeAddress.

(** The skeleton handed to the cost estimate. *)
Definition estimateSkeleton (outs : list TxOut) (utxos : list Utxo) (changeValues : list Value) : SelectionSkeleton :=
  {| change := mkTxOut changeAddress <$> changeValues; fee := MAX_U64; inputs := newSet utxos; outputs := outs |}.

Definition changeArgs (params : InputSelectionParameters) (pre : PreProcessedArgs) : ChangeComputationArgs :=
  {| minCoin := computeMinimumCoinQuantity (constraints params);
     estimateTxCosts := fun utxos changeValues =>
       computeMinimumCost (constraints params) (estimateSkeleton (paramOutputs params) utxos changeValues);
     changeImplicitValue := argImplicitValue pre;
     outputValues := outValues (argOutputs pre);
     exceedsLimit := tokenBundleSizeExceedsLimit (constraints params);
     uniqueTxAssetIDs := argUniqueTxAssetIDs pre |}.

(** From the settled change to the result. *)
Definition finishSelection (params : InputSelectionParameters) (result : ChangeComputationResult) : Sel SelectionResult :=
  let ins := newSet (resultInputs result) in
  let skeleton := {| change := mkTxOut changeAddress <$> resultChange result; fee := resultFee result;
                     inputs := ins; outputs := paramOutputs params |} in
  resolved ← st_lift (resolve skeleton);
  limit ← st_lift (computeSelectionLimit (constraints params)
             {| change := resolved; fee := resultFee result; inputs := ins; outputs := paramOutputs params |});
  st_guard (limit <? zlen (resultInputs result)) (InputSelectionError MaximumInputCountExceeded) ;;
  mret {| redeemers := resultRedeemers result;
          remainingUTxO := newSet (resultRemainingUTxO result);
          selection := {| change := resolved; fee := resultFee result;
                          inputs := newSet (Array_sort sortUtxoByTxIn ins);
                          outputs := paramOutputs params |} |}.

Definition select (params : InputSelectionParameters) : Sel SelectionResult :=
  let pre := preProcessArgs (preSelectedUtxo params) (utxo params) (paramOutputs params) changeAddress
               (implicitValue params) in
  st_lift (assertIsBalanceSufficient (argUniqueTxAssetIDs pre) (argRequiredUtxo pre) (argUtxo pre)
             (argOutputs pre) (argImplicitValue pre)) ;;
  roundRobinSelectionResult ← roundRobinSelection (argRequiredUtxo pre) (argUtxo pre) (argOutputs pre)
             (argUniqueTxAssetIDs pre) (argImplicitValue pre);
  result ← @computeChangeAndAdjustForFee _ createPickAdditionalRandomUtxo
             (length (utxoRemaining roundRobinSelectionResult)) (changeArgs params pre) roundRobinSelectionResult;
  finishSelection params result.
End select.

(** ** Facts *)

Lemma pickRandom_laws {RD : Random} {RL : RandomLaws} : @PickLaws createPickAdditionalRandomUtxo.
Proof.
  intros sel i Hne Hrefs. unfold pickAdditionalUtxo, createPickAdditionalRandomUtxo. cbv zeta.
  set (pickFrom := if 0 <? zlen _ then _ else _).
  assert (Hp : (forall u, u ∈ pickFrom -> u ∈ utxoRemaining sel) /\ 0 < zlen pickFrom).
  { unfold pickFrom. case_bool; zb.
    - split; [|done]. intros u. rewrite list_elem_of_filter. by intros [_ ?].
    - split; [done|]. unfold zlen. destruct (utxoRemaining sel); [done|cbn; lia]. }
  destruct Hp as [Hin Hlen]. clearbody pickFrom. unfold floorRandom, mbind, ST_bind.
  pose proof (draw_range i _ Hlen) as Hd.
  destruct (lookup_lt_is_Some_2 pickFrom (Z.to_nat (draw i (zlen pickFrom)))) as [u Hu]; [unfold zlen in *; lia|].
  rewrite Hu. assert (Hu' : u ∈ utxoRemaining sel) by (apply Hin; by eapply list_elem_of_lookup_2).
  destruct (indexOf_split _ _ Hu' Hrefs) as (l1 & l2 & El & Ei).
  exists u. eexists _, _. split; [reflexivity|]. cbn [utxoSelected utxoRemaining]. split; [done|].
  rewrite Ei, El. rewrite (slice_app [] l1 (u :: l2) 0 (zlen l1) eq_refl eq_refl : slice (l1 ++ u :: l2) 0 (zlen l1) = l1).
  replace (slice_from (l1 ++ u :: l2) (zlen l1 + 1)) with l2; [apply Permutation_middle|].
  symmetry. unfold slice_from. zlen_simpl. pose proof (zlen_nonneg l2). rewrite Z.min_l by lia.
  replace (Z.to_nat (zlen l1 + 1)) with (length l1 + 1)%nat by (unfold zlen; lia).
  rewrite <- drop_drop, drop_app_length. done.
Qed.

(** ** The selector *)

(** A successful selection. *)
Record selected_ok (p : InputSelectionParameters) (r : SelectionResult) : Prop := {
  so_balanced : tx_balanced (implicitValue p) (selection r);
  so_outputs : outputs (selection r) = paramOutputs p;
  so_partition : inputs (selection r) ++ remainingUTxO r ≡ₚ preSelectedUtxo p ++ utxo p;
  so_required u : u ∈ preSelectedUtxo p -> u ∈ inputs (selection r);
  so_nonempty : inputs (selection r) <> [];
  so_sorted : StronglySorted txIn_le (inputs (selection r))
}.

Section theorems.
Context {LD : Lodash} {LL : LodashLaws} {RD : Random} {RL : RandomLaws}.
Context {CR : ChangeAddressResolver} {CL : ChangeAddressResolverLaws}.
Context (resolve_fuel : forall sk, resolve sk <> OutOfFuel).
Context (p : InputSelectionParameters) (Hp : params_ok p).

Let pre := preProcessArgs (preSelectedUtxo p) (utxo p) (paramOutputs p) changeAddress (implicitValue p).
Let ids := argUniqueTxAssetIDs pre.

Lemma ids_outputs v : v ∈ outValues (paramOutputs p) -> keys_in ids v.
Proof.
  intros (o & -> & Ho)%list_elem_of_fmap i Hi. unfold ids, pre. cbn. apply uniq_elem, elem_of_app. left.
  apply uniq_elem, list_elem_of_In, in_concat. exists (assetIds (value o)). split.
  - apply list_elem_of_In. by apply (list_elem_of_fmap_2 (fun o => assetIds (value o))).
  - apply list_elem_of_In. unfold assetIds, entriesOf in *. by destruct (assets (value o)).
Qed.

Lemma ids_mint i : i ∉ ids -> getOr0 (mintOf (implicitValue p)) i = 0.
Proof.
  intros Hi. apply getOr0_absent. intros Hin. apply Hi. unfold ids, pre. cbn. apply uniq_elem, elem_of_app. by right.
Qed.

Lemma enough_ok : assertIsBalanceSufficient ids (preSelectedUtxo p) (utxo p) (paramOutputs p) (argImplicitValue pre) = Ok tt ->
  exists req : list Utxo, req = preSelectedUtxo p /\ req ++ utxo p <> [] /\
  Forall (fun i => covers_asset i (utxoValues (req ++ utxo p)) (outValues (paramOutputs p)) (argImplicitValue pre)) ids /\
  covers_coins (utxoValues (req ++ utxo p)) (outValues (paramOutputs p)) (argImplicitValue pre).
Proof.
  intros (Hne & Ha & Hc)%assertIsBalanceSufficient_ok. exists (preSelectedUtxo p).
  pose proof (Permutation_app_comm (utxo p) (preSelectedUtxo p)) as Hperm. split_and!; [done|done| |].
  - eapply Forall_impl; [exact Ha|]. intros i. unfold covers_asset. by rewrite Hperm.
  - unfold covers_coins in *. by rewrite Hperm in Hc.
Qed.

(** What follows the change computation returns a selection, or throws. *)
Lemma finish_ok rr r i : utxoSelected rr ++ utxoRemaining rr ≡ₚ preSelectedUtxo p ++ utxo p ->
  preSelectedUtxo p `prefix_of` utxoSelected rr -> utxoSelected rr <> [] ->
  change_ok (changeArgs p pre) rr r ->
  exists o i', finishSelection p r i = (o, i') /\ o <> OutOfFuel /\
    forall res, o = Ok res -> selected_ok p res.
Proof.
  intros Hperm Hpre Hne [Hbal Hp2 Hpre2 Hlim Hmin Hfee].
  assert (Hall : resultInputs r ++ resultRemainingUTxO r ≡ₚ preSelectedUtxo p ++ utxo p) by (by rewrite Hp2).
  assert (Hrefs : refs_ok (resultInputs r ++ resultRemainingUTxO r)).
  { eapply refs_perm; [symmetry; exact Hall|apply (po_refs p Hp)]. }
  unfold finishSelection. cbv zeta. rewrite (newSet_id (resultInputs r)) by (by eapply refs_app_l).
  rewrite (newSet_id (resultRemainingUTxO r)) by (by eapply refs_app_r).
  pose proof (Array_sort_perm sortUtxoByTxIn (resultInputs r)) as Hsort.
  rewrite (newSet_id (Array_sort _ _)) by (eapply refs_perm; [symmetry; exact Hsort|by eapply refs_app_l]).
  set (sk := {| change := _; fee := _; inputs := _; outputs := _ |}). unfold mbind, ST_bind, st_lift.
  pose proof (resolve_fuel sk) as Hrf. destruct (resolve sk) as [resolved|e|] eqn:Er; [|eexists _, _; by split_and!|done].
  match goal with |- context [computeSelectionLimit ?c ?k] => pose proof (po_limit p Hp k) as Hlf;
    destruct (computeSelectionLimit c k) as [limit|e|]; [|eexists _, _; by split_and!|done] end.
  unfold st_guard. destruct (limit <? zlen (resultInputs r)); [eexists _, _; by split_and!|].
  eexists _, _. split; [reflexivity|]. split; [done|]. intros res [= <-].
  assert (Hsame : same_totals (resultChange r) (outValues resolved)).
  { pose proof (resolve_coins sk resolved Er) as Hc. pose proof (fun i => resolve_qty sk resolved i Er) as Hq.
    cbn [change sk] in Hc, Hq. rewrite outValues_mk in Hc. setoid_rewrite outValues_mk in Hq. by split. }
  assert (Hpref : preSelectedUtxo p `prefix_of` resultInputs r) by (by etrans).
  split; cbn [selection inputs outputs change fee remainingUTxO].
  - apply (tx_balanced_same _ (resultInputs r) _ _ (mkTxOut changeAddress <$> resultChange r)); [done| |].
    + by rewrite outValues_mk.
    + apply (balanced_tx ids); [apply (po_mint p Hp)|intros a; apply unlisted_qty, ids_outputs|apply ids_mint|].
      rewrite outValues_mk. exact Hbal.
  - done.
  - by rewrite Hsort.
  - intros u Hu. rewrite Hsort. destruct Hpref as [k ->]. apply elem_of_app. by left.
  - intros E. rewrite E in Hsort. apply Permutation_nil_l in Hsort. destruct Hpre2 as [k Ek]. rewrite Ek in Hsort.
    by destruct (utxoSelected rr).
  - apply sortUtxo_sorted.
Qed.

(** The selector ends, and a selection it returns is balanced. *)
Theorem select_spec i : exists o i', select p i = (o, i') /\ o <> OutOfFuel /\ forall r, o = Ok r -> selected_ok p r.
Proof.
  unfold select. fold pre. cbv zeta.
  change (argRequiredUtxo pre) with (preSelectedUtxo p). change (argUtxo pre) with (utxo p).
  change (argOutputs pre) with (paramOutputs p). fold ids.
  destruct (assertIsBalanceSufficient_throws ids (preSelectedUtxo p) (utxo p) (paramOutputs p) (argImplicitValue pre))
    as [E|E]; [|eexists _, _; unfold mbind at 1, ST_bind at 1, st_lift; rewrite E; by split_and!].
  rewrite (st_lift_ok _ _ _ _ E). destruct (enough_ok E) as (req & -> & Hne & Ha & Hc).
  destruct (roundRobinSelection_spec (preSelectedUtxo p) (utxo p) (paramOutputs p) ids (argImplicitValue pre) i)
    as (rr & i1 & Err & Rp & Rr & Rpre & Rne & Ra & Rc);
    [eapply refs_app_r, po_refs, Hp|apply (po_utxo p Hp)|done..|].
  rewrite (st_bind_ok _ _ _ _ _ Err).
  assert (Hloop : loop_ok (changeArgs p pre) rr) by (split; [by rewrite Rp; apply (po_utxo p Hp)|done..]).
  assert (Hargs : args_ok (outputValues (changeArgs p pre)) (uniqueTxAssetIDs (changeArgs p pre))
    (changeImplicitValue (changeArgs p pre))) by (apply (implicit_args p); [done|apply (po_outs p Hp)|apply uniq_NoDup]).
  assert (Hest : estimator_ok (estimateTxCosts (changeArgs p pre))) by (intros us vs; apply (po_cost p Hp)).
  destruct (computeChangeAndAdjustForFee_settles (PL := pickRandom_laws) (changeArgs p pre) Hargs Hest
    (length (utxoRemaining rr)) rr Hloop (le_n _) i1) as (o & i2 & Eo & Ho & Hr).
  unfold mbind at 1, ST_bind at 1. rewrite Eo. destruct o as [r|e|]; [|by eexists _, _|done].
  apply (finish_ok rr r i2); [done..|by apply Hr].
Qed.

(** *** When a selection exists *)

(** A request that leaves room: fees up to [F], minimum coin quantities up to
    [M], and UTxOs that hold the outputs, a fee and a minimum. *)
Record generous (F M : Z) : Prop := {
  gn_nonempty : preSelectedUtxo p ++ utxo p <> [];
  gn_assets i : totalQty i (outValues (paramOutputs p)) <=
    totalQty i (utxoValues (preSelectedUtxo p ++ utxo p)) + getOr0 (mintOf (implicitValue p)) i;
  gn_coins : totalCoins (outValues (paramOutputs p)) + deposit (requiredCoin (implicitValue p)) + F + M <=
    totalCoins (utxoValues (preSelectedUtxo p ++ utxo p)) + input (requiredCoin (implicitValue p));
  gn_outputs : Forall (fun v => Forall (fun kv => 0 < kv.2) (entriesOf v)) (outValues (paramOutputs p));
  gn_fee sk : exists c, computeMinimumCost (constraints p) sk = Ok c /\ 0 <= costFee c <= F;
  gn_M : 0 <= M;
  gn_min o : computeMinimumCoinQuantity (constraints p) o <= M;
  gn_limit m : tokenBundleSizeExceedsLimit (constraints p) m = false;
  gn_count sk : exists n, computeSelectionLimit (constraints p) sk = Ok n /\ zlen (preSelectedUtxo p ++ utxo p) <= n;
  gn_resolve sk : exists l, resolve sk = Ok l
}.

Lemma generous_sufficient F M : generous F M ->
  assertIsBalanceSufficient ids (preSelectedUtxo p) (utxo p) (paramOutputs p) (argImplicitValue pre) = Ok tt.
Proof.
  intros [Hne Ha Hc _ Hfee HM _ _ _ _]. apply assertIsBalanceSufficient_ok.
  pose proof (Permutation_app_comm (utxo p) (preSelectedUtxo p)) as Hperm.
  split_and!; [done| |].
  - apply Forall_forall. intros i _. specialize (Ha i). unfold covers_asset. rewrite Hperm.
    cbn [pre argImplicitValue preProcessArgs implicitTokens].
    rewrite implicitTokensOf_input, implicitTokensOf_spend by apply (po_mint p Hp). lia.
  - unfold covers_coins. rewrite Hperm. cbn [pre argImplicitValue preProcessArgs implicitCoin].
    destruct (Hfee {| inputs := []; outputs := []; change := []; fee := 0 |}) as (? & _ & ?). lia.
Qed.

Theorem select_total F M i : generous F M -> exists r i', select p i = (Ok r, i').
Proof.
  intros Hg. pose proof (generous_sufficient F M Hg) as E. unfold select. fold pre. cbv zeta.
  change (argRequiredUtxo pre) with (preSelectedUtxo p). change (argUtxo pre) with (utxo p).
  change (argOutputs pre) with (paramOutputs p). fold ids. rewrite (st_lift_ok _ _ _ _ E).
  destruct (enough_ok E) as (req & -> & Hne & Ha & Hc).
  destruct (roundRobinSelection_spec (preSelectedUtxo p) (utxo p) (paramOutputs p) ids (argImplicitValue pre) i)
    as (rr & i1 & Err & Rp & Rr & Rpre & Rne & Ra & Rc);
    [eapply refs_app_r, po_refs, Hp|apply (po_utxo p Hp)|done..|].
  rewrite (st_bind_ok _ _ _ _ _ Err).
  assert (Hloop : loop_ok (changeArgs p pre) rr) by (split; [by rewrite Rp; apply (po_utxo p Hp)|done..]).
  assert (Hargs : args_ok (outputValues (changeArgs p pre)) (uniqueTxAssetIDs (changeArgs p pre))
    (changeImplicitValue (changeArgs p pre))) by (apply (implicit_args p); [done|apply (po_outs p Hp)|apply uniq_NoDup]).
  assert (Hln : lenient (changeArgs p pre) F M).
  { destruct Hg as [_ _ _ Hpos Hfee HM Hmin Hlim _ _]. split; [done| |intros; apply Hfee|done..].
    apply Forall_forall. intros v Hv j a Hin. split.
    - apply (ids_outputs v Hv). by apply (list_elem_of_fmap_2 fst _ (j, a)).
    - rewrite Forall_forall in Hpos. specialize (Hpos v Hv). rewrite Forall_forall in Hpos. by apply (Hpos (j, a)). }
  assert (Hen : enough (changeArgs p pre) F M rr).
  { unfold enough. rewrite (totalCoins_proper _ _ (utxoValues_proper _ _ Rp)). pose proof (gn_coins F M Hg).
    cbn [changeArgs outputValues changeImplicitValue pre preProcessArgs argOutputs argImplicitValue implicitCoin]. lia. }
  destruct (computeChangeAndAdjustForFee_total (PL := pickRandom_laws) (changeArgs p pre) F M Hln
    (length (utxoRemaining rr)) rr i1 Hloop (le_n _) Hen) as (r & i2 & Ec).
  assert (Hest : estimator_ok (estimateTxCosts (changeArgs p pre))) by (intros us vs; apply (po_cost p Hp)).
  destruct (computeChangeAndAdjustForFee_settles (PL := pickRandom_laws) (changeArgs p pre) Hargs Hest
    (length (utxoRemaining rr)) rr Hloop (le_n _) i1) as (o & i3 & Eo & _ & Hr).
  rewrite Ec in Eo. injection Eo as <- <-. rewrite (st_bind_ok _ _ _ _ _ Ec). unfold finishSelection. cbv zeta.
  match goal with |- context [resolve ?sk] => destruct (gn_resolve F M Hg sk) as [l El] end.
  rewrite (st_lift_ok _ _ _ _ El).
  match goal with |- context [computeSelectionLimit ?c ?sk] => destruct (gn_count F M Hg sk) as (n & En & Hn) end.
  rewrite (st_lift_ok _ _ _ _ En). rewrite st_guard_ok; [by eexists _, _|]. apply Z.ltb_ge.
  destruct (Hr r eq_refl) as [_ Hperm _ _ _ _]. rewrite Rp in Hperm. apply Permutation_length in Hperm.
  unfold zlen in *. rewrite !length_app in *. lia.
Qed.
End theorems.
