(* ===== verification/LargeFirst.v ===== *)
(** * The large-first selector

    Models [LargeFirstSelection/LargeFirstInputSelector.ts].  [Set]s of UTxOs
    are lists without repeated references; a [Set] of [txIn] objects is the
    list of their references. *)

From S2P Require Import Prelude JsRuntime Values Selection RoundRobin Change ChangeFacts.

Import JsMapFacts ValuesFacts SelectionFacts RoundRobinFacts.

Definition pickAdditionalLargestUtxo : PickAdditionalUtxo := fun sel =>
  match Array_sort (fun a b => sortByCoins (txOut a) (txOut b)) (utxoRemaining sel) with
  | [] => mret {| utxoRemaining := utxoRemaining sel; utxoSelected := utxoSelected sel |}
  | picked :: newRemaining => mret {| utxoRemaining := newRemaining; utxoSelected := utxoSelected sel ++ [picked] |}
  end.

(** [set.has(u)] and [set.add(u)]. *)
Definition setHas (s : list Utxo) (u : Utxo) : bool := existsb (fun v => ref v =? ref u) s.
Definition setAdd (s : list Utxo) (u : Utxo) : list Utxo := if setHas s u then s else s ++ [u].

Definition sameTxIn (a b : HydratedTxIn) : bool := String.eqb (txId a) (txId b) && (index a =? index b).

Section largeFirst.
Context `{Lodash}.

Definition aggregateLovelace (ins outs : list Value) (implicit : option ImplicitValue) : Z * Z :=
  let utxoAda := getCoinQuantity ins in
  let outputAda := getCoinQuantity outs in
  let withdrawAda := input (requiredCoin implicit) in
  let depositAda := deposit (requiredCoin implicit) in
  (utxoAda + withdrawAda, outputAda + depositAda).

(** [for (const [id, q] of mint) (q > 0n ? posMint : negMint).set(id, q > 0n ? q : -q)]. *)
Definition splitMint (mint : TokenMap) : TokenMap * TokenMap :=
  fold_left (fun '(posMint, negMint) '(id, q) =>
      if 0 <? q then (JsMap.set posMint id q, negMint) else (posMint, JsMap.set negMint id (- q)))
    mint ([], []).

Definition orEmpty (m : option TokenMap) : TokenMap := match m with Some m => m | None => [] end.

(** [{ required, available }]. *)
Definition aggregateAssets (ins outs : list Value) (implicit : option ImplicitValue) : TokenMap * TokenMap :=
  let outputsMap := orEmpty (assets (coalesceValueQuantities outs)) in
  let utxoMap := assets (coalesceValueQuantities ins) in
  let '(posMint, negMint) := splitMint (mintOf implicit) in
  let required := addTokenMaps (Some outputsMap) (Some negMint) in
  let required := orEmpty (subtractMaps required (Some posMint)) in
  let available := orEmpty (addTokenMaps utxoMap (Some posMint)) in
  (required, available).

(** [{ totalLovelaceOutput, outputAssets }]. *)
Definition computeNetImplicitSelectionValues (ins : list Utxo) (outs : list TxOut) (iv : option ImplicitValue) :
    Res (Z * TokenMap) :=
  let inputVals := utxoValues ins in
  let outputVals := outValues outs in
  let '(totalIn, totalOut) := aggregateLovelace inputVals outputVals iv in
  let '(required, available) := aggregateAssets inputVals outputVals iv in
  let changeAda := totalIn - totalOut in
  let changeAssets := subtractMaps (Some available) (Some required) in
  if (zlen ins =? 0) || (changeAda <? 0) || hasNegativeAssetValue changeAssets
  then Throw (InputSelectionError UtxoBalanceInsufficient)
  else Ok (totalOut, required).

(** The inner loop of [#selectAssets]; the second component is [accumulated]. *)
Fixpoint accumulate (assetId : AssetId) (requiredQuantity : Z) (candidates selected : list Utxo) (accumulated : Z) :
    list Utxo * Z :=
  match candidates with
  | [] => (selected, accumulated)
  | candidate :: rest =>
      let selected := setAdd selected candidate in
      let accumulated := accumulated + quantity (assets (value (txOut candidate))) assetId in
      if requiredQuantity <=? accumulated then (selected, accumulated)
      else accumulate assetId requiredQuantity rest selected accumulated
  end.

Definition selectAsset (allAvailable : list Utxo) (selected : list Utxo) (entry : AssetId * Z) : Res (list Utxo) :=
  let '(assetId, requiredQuantity) := entry in
  let candidates :=
    Array_sort (fun a b => sortByAssetQuantity assetId (txOut a) (txOut b))
      (filter (fun u => 0 < quantity (assets (value (txOut u))) assetId) allAvailable) in
  let '(selected, accumulated) := accumulate assetId requiredQuantity candidates selected 0 in
  if accumulated <? requiredQuantity then Throw (InputSelectionError UtxoBalanceInsufficient) else Ok selected.

Definition selectAssets (requiredAssets : TokenMap) (allAvailable preSelected : list Utxo) : Res (list Utxo) :=
  foldRes (selectAsset allAvailable) requiredAssets (newSet preSelected).

(** The loop of [#selectLovelace]. *)
Fixpoint accumulateAda (target : Z) (candidates result : list Utxo) (adaAccumulated : Z) : list Utxo * Z :=
  match candidates with
  | [] => (result, adaAccumulated)
  | candidate :: rest =>
      if target <=? adaAccumulated then (result, adaAccumulated)
      else accumulateAda target rest (setAdd result candidate) (adaAccumulated + coins (value (txOut candidate)))
  end.

Definition selectLovelace (target : Z) (allAvailable selected : list Utxo) (implicitCoinInput : Z) : Res (list Utxo) :=
  let selectedTxIns := txInRef <$> selected in
  let adaCandidates :=
    Array_sort (fun a b => sortByCoins (txOut a) (txOut b))
      (filter (fun u => txInRef u ∉ selectedTxIns) allAvailable) in
  let '(result, adaAccumulated) :=
    accumulateAda target adaCandidates selected (getCoinQuantity (utxoValues selected) + implicitCoinInput) in
  result ← (if zlen result =? 0 then
              match adaCandidates with
              | [] => Throw (InputSelectionError UtxoBalanceInsufficient)
              | u :: _ => Ok (setAdd result u)
              end
            else Ok result);
  if adaAccumulated <? target then Throw (InputSelectionError UtxoBalanceInsufficient) else Ok result.

Definition computeRemainingUtxo (original used : list Utxo) : list Utxo :=
  let usedTxIns := txInRef <$> used in
  newSet (filter (fun u => txInRef u ∉ usedTxIns) original).

Section expand.
Context `{ChangeAddressResolver}.

Definition largeFirstArgs (params : InputSelectionParameters) (requiredAssets : TokenMap) : ChangeComputationArgs :=
  {| minCoin := computeMinimumCoinQuantity (constraints params);
     estimateTxCosts := fun utxos changeValues =>
       computeMinimumCost (constraints params)
         {| change := mkTxOut stubMaxSizeAddress <$> changeValues; fee := MAX_U64;
            inputs := newSet utxos; outputs := paramOutputs params |};
     changeImplicitValue := requiredImplicit (implicitValue params);
     outputValues := outValues (paramOutputs params);
     exceedsLimit := tokenBundleSizeExceedsLimit (constraints params);
     uniqueTxAssetIDs := uniq (JsMap.keys requiredAssets ++ JsMap.keys (mintOf (implicitValue params))) |}.

(** [{ finalSelection, fee, change }]. *)
Definition expandUtxosUntilFeeCovered (params : InputSelectionParameters) (initialInputs allAvailable : list Utxo)
    (requiredAssets : TokenMap) : Sel (list Utxo * Z * list TxOut) :=
  let utxoRemainingArr :=
    Array_sort (fun a b => sortByCoins (txOut a) (txOut b))
      (filter (fun u => setHas initialInputs u = false) allAvailable) in
  result ← @computeChangeAndAdjustForFee _ pickAdditionalLargestUtxo (length utxoRemainingArr)
             (largeFirstArgs params requiredAssets)
             {| utxoRemaining := utxoRemainingArr; utxoSelected := initialInputs |};
  if zlen (resultChange result) =? 0 then mret (newSet (resultInputs result), resultFee result, [])
  else
    resolvedChange ← st_lift (resolve {| change := mkTxOut stubMaxSizeAddress <$> resultChange result;
                                         fee := resultFee result; inputs := newSet (resultInputs result);
                                         outputs := paramOutputs params |});
    mret (newSet (resultInputs result), resultFee result, resolvedChange).

Definition allAvailableOf (params : InputSelectionParameters) : list Utxo :=
  let available :=
    filter (fun u => existsb (fun v => sameTxIn (txIn v) (txIn u)) (preSelectedUtxo params) = false) (utxo params) in
  preSelectedUtxo params ++ available.

Definition largeFirstSelect (params : InputSelectionParameters) : Sel SelectionResult :=
  let allAvailable := allAvailableOf params in
  '(totalLovelaceOutput, outputAssets) ←
    st_lift (computeNetImplicitSelectionValues (newSet allAvailable) (paramOutputs params) (implicitValue params));
  workingUtxo ← st_lift (selectAssets outputAssets allAvailable (preSelectedUtxo params));
  workingUtxo ← st_lift (selectLovelace totalLovelaceOutput allAvailable workingUtxo
                           (input (requiredCoin (implicitValue params))));
  '(finalSelection, txFee, chg) ← expandUtxosUntilFeeCovered params workingUtxo allAvailable outputAssets;
  limit ← st_lift (computeSelectionLimit (constraints params)
             {| change := chg; fee := txFee; inputs := finalSelection; outputs := paramOutputs params |});
  st_guard (limit <? zlen finalSelection) (InputSelectionError MaximumInputCountExceeded) ;;
  mret {| remainingUTxO := computeRemainingUtxo (utxo params) finalSelection;
          redeemers := None;
          selection := {| change := chg; fee := txFee;
                          inputs := newSet (Array_sort sortUtxoByTxIn finalSelection);
                          outputs := paramOutputs params |} |}.
End expand.
End largeFirst.

(** ** Facts *)

Lemma pickLargest_laws : @PickLaws pickAdditionalLargestUtxo.
Proof.
  intros sel i Hne _. unfold pickAdditionalUtxo, pickAdditionalLargestUtxo.
  pose proof (Array_sort_perm (fun a b => sortByCoins (txOut a) (txOut b)) (utxoRemaining sel)) as Hp.
  destruct (Array_sort _ _) as [|u rest]; [by apply Permutation_nil_l in Hp; symmetry in Hp|].
  eexists u, _, _. split; [reflexivity|]. by split.
Qed.

(** *** What is required of every asset *)

Lemma splitMint_ok m : map_ok m ->
  let '(pos, neg) := splitMint m in
  map_ok pos /\ map_ok neg /\ forall i, getOr0 pos i = Z.max 0 (getOr0 m i) /\ getOr0 neg i = Z.max 0 (- getOr0 m i).
Proof.
  intros Hm. unfold splitMint.
  assert (Hg : forall pos neg, map_ok pos -> map_ok neg ->
    (forall i, i ∈ JsMap.keys m -> getOr0 pos i = 0 /\ getOr0 neg i = 0) ->
    let '(pos', neg') := fold_left (fun '(posMint, negMint) '(id, q) =>
      if 0 <? q then (JsMap.set posMint id q, negMint) else (posMint, JsMap.set negMint id (- q))) m (pos, neg) in
    map_ok pos' /\ map_ok neg' /\ forall i,
      getOr0 pos' i = getOr0 pos i + Z.max 0 (getOr0 m i) /\ getOr0 neg' i = getOr0 neg i + Z.max 0 (- getOr0 m i)).
  { induction m as [|[k q] m IH]; intros pos neg Hpos Hneg Hz; cbn [fold_left].
    { split; [done|]. split; [done|]. intros i. unfold getOr0. cbn. lia. }
    apply map_ok_cons in Hm as [Hk Hm]. change (JsMap.keys ((k, q) :: m)) with (k :: JsMap.keys m) in Hz.
    setoid_rewrite elem_of_cons in Hz. destruct (Hz k ltac:(auto)) as [Hz1 Hz2].
    destruct (Z.ltb_spec 0 q).
    - specialize (IH Hm (JsMap.set pos k q) neg ltac:(auto with js) Hneg).
      destruct (fold_left _ m _) as [pos' neg']. destruct IH as (H1 & H2 & H3).
      { intros i Hi. rewrite getOr0_set, decide_False by (intros ->; done). auto. }
      split; [done|]. split; [done|]. intros i. destruct (H3 i) as [-> ->]. rewrite getOr0_set, getOr0_cons.
      case_decide; [subst; rewrite (getOr0_absent m i Hk)|]; lia.
    - specialize (IH Hm pos (JsMap.set neg k (- q)) Hpos ltac:(auto with js)).
      destruct (fold_left _ m _) as [pos' neg']. destruct IH as (H1 & H2 & H3).
      { intros i Hi. rewrite getOr0_set, decide_False by (intros ->; done). auto. }
      split; [done|]. split; [done|]. intros i. destruct (H3 i) as [-> ->]. rewrite getOr0_set, getOr0_cons.
      case_decide; [subst; rewrite (getOr0_absent m i Hk)|]; lia. }
  specialize (Hg [] [] ltac:(constructor) ltac:(constructor) ltac:(done)).
  destruct (fold_left _ m _) as [pos neg]. destruct Hg as (H1 & H2 & H3). split; [done|]. split; [done|].
  intros i. destruct (H3 i) as [-> ->]. done.
Qed.

Section required.
Context {LD : Lodash} {LL : LodashLaws}.

Lemma orEmpty_quantity m i : getOr0 (orEmpty m) i = quantity m i.
Proof. by destruct m. Qed.

Lemma orEmpty_ok m : assets_ok m -> map_ok (orEmpty m).
Proof. destruct m; [done|constructor]. Qed.

(** Outputs and burnt tokens, less the minted ones. *)
Lemma aggregateAssets_required ins outs iv : Forall value_ok outs -> map_ok (mintOf iv) ->
  let required := (aggregateAssets ins outs iv).1 in
  map_ok required /\ forall i, getOr0 required i = totalQty i outs - getOr0 (mintOf iv) i.
Proof.
  intros Ho Hm. unfold aggregateAssets. pose proof (splitMint_ok (mintOf iv) Hm) as Hs.
  destruct (splitMint (mintOf iv)) as [pos neg]. destruct Hs as (H1 & H2 & H3). cbv zeta. cbn [fst].
  set (om := orEmpty (assets (coalesceValueQuantities outs))).
  assert (Hom : map_ok om) by (apply orEmpty_ok, coalesceTokenMaps_ok).
  assert (Hadd : assets_ok (addTokenMaps (Some om) (Some neg))) by by apply addTokenMaps_ok.
  split.
  - apply orEmpty_ok. destruct (subtractMaps _ (Some pos)) eqn:E; [|done]. by apply subtractMaps_canonical in E as [].
  - intros i. rewrite orEmpty_quantity, subtractMaps_quantity by done. rewrite addTokenMaps_quantity by done.
    cbn [quantity]. unfold om. rewrite orEmpty_quantity. fold (qty i (coalesceValueQuantities outs)).
    rewrite coalesceValueQuantities_qty by done. destruct (H3 i) as [-> ->]. lia.
Qed.
End required.

(** *** Sets of UTxOs *)

Lemma setHas_spec s u : setHas s u = true <-> ref u ∈ ref <$> s.
Proof.
  unfold setHas. rewrite existsb_exists, list_elem_of_fmap. setoid_rewrite list_elem_of_In.
  setoid_rewrite Z.eqb_eq. split; intros (v & H1 & H2); exists v; auto.
Qed.

Section sets.
Context (all : list Utxo) (Hall : refs_ok all).

Lemma ref_inj u v : u ∈ all -> v ∈ all -> ref u = ref v -> u = v.
Proof.
  clear -Hall. induction all as [|w l IH]; [by intros []%not_elem_of_nil|].
  apply NoDup_cons in Hall as [Hw Hl]. intros [->|Hu]%elem_of_cons [->|Hv]%elem_of_cons E.
  - done.
  - destruct Hw. rewrite E. by apply list_elem_of_fmap_2.
  - destruct Hw. rewrite <- E. by apply list_elem_of_fmap_2.
  - by apply IH.
Qed.

(** A set of elements of [all]. *)
Record subset (s : list Utxo) : Prop := { ss_refs : refs_ok s; ss_in u : u ∈ s -> u ∈ all }.

Lemma setHas_in s u : subset s -> u ∈ all -> setHas s u = true <-> u ∈ s.
Proof.
  intros Hs Hu. rewrite setHas_spec. split; [|by apply list_elem_of_fmap_2].
  intros (v & E & Hv)%list_elem_of_fmap. by rewrite (ref_inj u v Hu (ss_in s Hs v Hv) E).
Qed.

Lemma setAdd_ok s u : subset s -> u ∈ all -> subset (setAdd s u) /\ (forall v, v ∈ setAdd s u <-> v ∈ s \/ v = u).
Proof.
  intros Hs Hu. unfold setAdd. destruct (setHas s u) eqn:E.
  - apply setHas_in in E; [|done..]. split; [done|]. intros v. split; [by left|]. intros [Hx | ->]; done.
  - split; [split|].
    + rewrite fmap_app. apply NoDup_app. split_and!; [apply (ss_refs s Hs)| |apply NoDup_singleton].
      intros r Hr ->%list_elem_of_singleton. apply setHas_spec in Hr. congruence.
    + intros v. rewrite elem_of_app, list_elem_of_singleton. intros [Hx | ->]; [by apply (ss_in s Hs)|done].
    + intros v. by rewrite elem_of_app, list_elem_of_singleton.
Qed.

Lemma refs_nodup s : refs_ok s -> NoDup s.
Proof. apply NoDup_fmap_1. Qed.

Lemma subset_totals s k : subset s -> (forall u, u ∈ s -> u ∈ k) -> Forall utxo_ok k ->
  totalCoins (utxoValues s) <= totalCoins (utxoValues k) /\
  forall i, totalQty i (utxoValues s) <= totalQty i (utxoValues k).
Proof.
  intros Hs Hsub Hk.
  assert (Hm : s ⊆+ k) by (apply NoDup_submseteq; [apply refs_nodup, Hs|done]).
  apply submseteq_Permutation in Hm as [rest Hp]. rewrite Hp in Hk. apply Forall_app in Hk as [_ Hrest].
  rewrite Hp, utxoValues_app, totalCoins_app. split.
  - assert (0 <= totalCoins (utxoValues rest)); [|lia]. apply zsum_nonneg, Forall_fmap, Forall_fmap.
    eapply Forall_impl; [exact Hrest|]. by intros u [].
  - intros i. rewrite Hp, utxoValues_app, totalQty_app.
    assert (0 <= totalQty i (utxoValues rest)); [|lia]. apply zsum_nonneg, Forall_fmap, Forall_fmap.
    eapply Forall_impl; [exact Hrest|]. intros u (_ & _ & Hq). apply Hq.
Qed.

Lemma partition s : subset s -> s ++ filter (fun u => setHas s u = false) all ≡ₚ all.
Proof.
  intros Hs. apply NoDup_Permutation.
  - apply NoDup_app. split_and!; [apply refs_nodup, Hs| |apply NoDup_filter, refs_nodup, Hall].
    intros u Hu [Hf _]%list_elem_of_filter. apply setHas_in in Hu; [congruence|done|by apply (ss_in s Hs)].
  - apply refs_nodup, Hall.
  - intros u. rewrite elem_of_app, list_elem_of_filter. split.
    + intros [|[_ ?]]; [by apply (ss_in s Hs)|done].
    + intros Hu. destruct (setHas s u) eqn:E; [left; by apply setHas_in in E|auto].
Qed.
End sets.

(** *** Accumulating *)

Section accumulate.
Context (all : list Utxo) (Hall : refs_ok all) (Hok : Forall utxo_ok all).

(** [s'] extends the set [s] within [all]. *)
Definition extends (s s' : list Utxo) : Prop := subset all s' /\ forall u, u ∈ s -> u ∈ s'.

Lemma extends_trans s1 s2 s3 : extends s1 s2 -> extends s2 s3 -> extends s1 s3.
Proof. intros [_ H1] [H2 H3]. split; [done|]. auto. Qed.

Lemma subset_ok s : subset all s -> Forall utxo_ok s.
Proof. intros Hs. apply Forall_forall. intros u Hu. rewrite Forall_forall in Hok. by apply Hok, (ss_in all s Hs). Qed.

Lemma extends_totals s s' : subset all s -> extends s s' ->
  totalCoins (utxoValues s) <= totalCoins (utxoValues s') /\
  forall i, totalQty i (utxoValues s) <= totalQty i (utxoValues s').
Proof. intros Hs [Hs' Hsub]. apply (subset_totals all); [done|done|by apply subset_ok]. Qed.

Lemma accumulate_ok i q cands seen s s' acc' : subset all (seen ++ cands) -> subset all s ->
  (forall u, u ∈ seen -> u ∈ s) ->
  accumulate i q cands s (totalQty i (utxoValues seen)) = (s', acc') ->
  extends s s' /\ acc' <= totalQty i (utxoValues s').
Proof.
  revert seen s. induction cands as [|c cands IH]; intros seen s Hc Hs Hseen E; cbn [accumulate] in E.
  { injection E as <- <-. split; [by split|]. rewrite app_nil_r in Hc.
    apply (subset_totals all seen s); [done..|by apply subset_ok]. }
  assert (Hca : c ∈ all) by (apply (ss_in all _ Hc), elem_of_app; right; left).
  destruct (setAdd_ok all Hall s c Hs Hca) as [Hs1 Hin1].
  assert (Hseen1 : forall u, u ∈ seen ++ [c] -> u ∈ setAdd s c).
  { intros u. rewrite elem_of_app, list_elem_of_singleton, Hin1. intros [Hx | ->]; auto. }
  assert (Ht : totalQty i (utxoValues seen) + quantity (assets (value (txOut c))) i = totalQty i (utxoValues (seen ++ [c]))).
  { rewrite utxoValues_app, totalQty_app, utxoValues_cons, totalQty_cons. unfold qty.
    change (totalQty i (utxoValues [])) with 0. lia. }
  rewrite Ht in E. rewrite (cons_middle c seen cands), app_assoc in Hc.
  assert (Hext : extends s (setAdd s c)) by (split; [done|intros u Hu; apply Hin1; by left]).
  destruct (q <=? totalQty i (utxoValues (seen ++ [c]))).
  - injection E as <- <-. split; [done|]. apply (subset_totals all (seen ++ [c]) (setAdd s c)); [|done|by apply subset_ok].
    split; [|intros u Hu; apply (ss_in all _ Hc), elem_of_app; by left]. pose proof (ss_refs all _ Hc) as Hr.
    by apply refs_app_l in Hr.
  - apply IH in E as [He Ha]; [|done..]. split; [|done]. by eapply extends_trans.
Qed.

(** A sorted selection of elements of [all]. *)
Lemma sorted_subset (P : Utxo -> Prop) `{!forall u, Decision (P u)} compare : subset all (Array_sort compare (filter P all)).
Proof.
  pose proof (Array_sort_perm compare (filter P all)) as Hp. split.
  - eapply refs_perm; [symmetry; exact Hp|]. by apply refs_filter.
  - intros u. rewrite Hp, list_elem_of_filter. by intros [_ ?].
Qed.

Lemma selectAsset_ok s i q s' : subset all s -> selectAsset all s (i, q) = Ok s' ->
  extends s s' /\ q <= totalQty i (utxoValues s').
Proof.
  intros Hs. unfold selectAsset. cbv zeta. destruct (accumulate i q _ s 0) as [s1 acc] eqn:E.
  destruct (Z.ltb_spec acc q) as [|Hle]; [done|]. intros [= <-].
  change 0 with (totalQty i (utxoValues [])) in E. apply accumulate_ok in E as [He Ha]; [|apply sorted_subset|done|].
  - split; [done|lia].
  - by intros u []%not_elem_of_nil.
Qed.

Lemma selectAssetsFrom_ok req s s' : subset all s -> foldRes (selectAsset all) req s = Ok s' ->
  extends s s' /\ Forall (fun iq => iq.2 <= totalQty iq.1 (utxoValues s')) req.
Proof.
  revert s. induction req as [|[i q] req IH]; intros s Hs E; cbn [foldRes] in E.
  { injection E as <-. split; [by split|constructor]. }
  destruct (selectAsset all s (i, q)) as [s1|?|] eqn:E1; [|done..]. apply selectAsset_ok in E1 as [He Hq]; [|done].
  apply IH in E as [He' Hreq]; [|apply He]. split; [by eapply extends_trans|].
  apply Forall_cons_2; [|done]. cbn. pose proof (extends_totals s1 s' (proj1 He) He') as [_ Ht]. specialize (Ht i). lia.
Qed.

Lemma accumulateAda_ok target cands s acc s' acc' k : subset all s -> (forall u, u ∈ cands -> u ∈ all) ->
  refs_ok cands -> (forall u, u ∈ cands -> u ∉ s) -> acc = totalCoins (utxoValues s) + k ->
  accumulateAda target cands s acc = (s', acc') -> extends s s' /\ acc' = totalCoins (utxoValues s') + k.
Proof.
  revert s acc. induction cands as [|c cands IH]; intros s acc Hs Hin Hnd Hdis Ha E; cbn [accumulateAda] in E.
  { injection E as <- <-. by split. }
  apply NoDup_cons in Hnd as [Hc Hnd]. destruct (target <=? acc); [injection E as <- <-; by split|].
  assert (Hca : c ∈ all) by (apply Hin; left). destruct (setAdd_ok all Hall s c Hs Hca) as [Hs1 Hin1].
  assert (Hnew : setAdd s c = s ++ [c]).
  { unfold setAdd. destruct (setHas s c) eqn:Eh; [|done]. apply (setHas_in all Hall) in Eh; [|done..].
    destruct (Hdis c ltac:(left) Eh). }
  apply IH in E as [He Hacc].
  - split; [|done]. eapply extends_trans; [|exact He]. split; [done|]. intros u Hu. apply Hin1. by left.
  - done.
  - intros u Hu. apply Hin. by right.
  - done.
  - intros u Hu [Hx | ->]%Hin1; [|by destruct Hc; apply list_elem_of_fmap_2]. apply (Hdis u); [by right|done].
  - rewrite Hnew, utxoValues_app, totalCoins_app, utxoValues_cons, totalCoins_cons.
    change (totalCoins (utxoValues [])) with 0. lia.
Qed.

Lemma selectLovelace_ok target s k s' : subset all s -> selectLovelace target all s k = Ok s' ->
  extends s s' /\ target <= totalCoins (utxoValues s') + k /\ s' <> [].
Proof.
  intros Hs. unfold selectLovelace. cbv zeta. rewrite getCoinQuantity_total.
  set (cands := Array_sort _ _). assert (Hc : subset all cands) by apply sorted_subset.
  assert (Hdis : forall u, u ∈ cands -> u ∉ s).
  { intros u. unfold cands. rewrite Array_sort_perm, list_elem_of_filter. intros [Hn _] Hu. apply Hn.
    by apply list_elem_of_fmap_2. }
  destruct (accumulateAda target cands s _) as [r acc] eqn:E.
  apply (accumulateAda_ok _ _ _ _ _ _ k) in E as [He Ha];
    [|done|apply (ss_in all _ Hc)|apply (ss_refs all _ Hc)|done|done].
  destruct (Z.eqb_spec (zlen r) 0) as [Hz|Hz].
  - apply zlen_0 in Hz as ->. clearbody cands; destruct cands as [|u cands]; [done|]. cbn [mbind outcome_bind].
    destruct (Z.ltb_spec acc target); [done|]. intros [= <-].
    assert (Hu : u ∈ all) by (apply (ss_in all _ Hc); left).
    destruct (setAdd_ok all Hall [] u (proj1 He) Hu) as [Hs1 Hin1]. split_and!.
    + eapply extends_trans; [exact He|]. split; [done|]. by intros v []%not_elem_of_nil.
    + rewrite Forall_forall in Hok. destruct (Hok u Hu) as [Hcu _]. cbn in Ha |- *. unfold totalCoins in *. cbn in *. lia.
    + done.
  - cbn [mbind outcome_bind]. destruct (Z.ltb_spec acc target); [done|]. intros [= <-].
    split_and!; [done|lia|by intros ->].
Qed.
End accumulate.

(** ** The selector *)

Record large_first_ok (p : InputSelectionParameters) (r : SelectionResult) : Prop := {
  lf_balanced : tx_balanced (implicitValue p) (selection r);
  lf_outputs : outputs (selection r) = paramOutputs p;
  lf_inputs : exists rest, inputs (selection r) ++ rest ≡ₚ allAvailableOf p;
  lf_required u : u ∈ preSelectedUtxo p -> u ∈ inputs (selection r);
  lf_nonempty : inputs (selection r) <> [];
  lf_sorted : StronglySorted txIn_le (inputs (selection r))
}.

Section theorems.
Context {LD : Lodash} {LL : LodashLaws} {CR : ChangeAddressResolver} {CL : ChangeAddressResolverLaws}.
Context (resolve_fuel : forall sk, resolve sk <> OutOfFuel).
Context (p : InputSelectionParameters) (Hp : params_ok p).

Let all := allAvailableOf p.
Let required := (aggregateAssets (utxoValues (newSet all)) (outValues (paramOutputs p)) (implicitValue p)).1.
Let ids := uniqueTxAssetIDs (largeFirstArgs p required).

Lemma all_refs : refs_ok all.
Proof.
  unfold all, allAvailableOf. pose proof (po_refs p Hp) as Hr. rewrite fmap_app in Hr |- *.
  apply NoDup_app in Hr as (H1 & H2 & H3). apply NoDup_app. split_and!; [done| |by apply refs_filter].
  intros r Hr' (u & -> & [_ Hu]%list_elem_of_filter)%list_elem_of_fmap. apply (H2 _ Hr'). by apply list_elem_of_fmap_2.
Qed.

Lemma all_ok : Forall utxo_ok all.
Proof.
  unfold all, allAvailableOf. pose proof (po_utxo p Hp) as [H1 H2]%Forall_app. apply Forall_app.
  split; [done|by apply Forall_filter].
Qed.

Lemma pre_subset : subset all (preSelectedUtxo p).
Proof.
  pose proof (po_refs p Hp) as Hr. split; [by eapply refs_app_l|].
  intros u Hu. apply elem_of_app. by left.
Qed.

Lemma required_ok : map_ok required /\
  forall i, getOr0 required i = totalQty i (outValues (paramOutputs p)) - getOr0 (mintOf (implicitValue p)) i.
Proof.
  apply aggregateAssets_required; [|apply (po_mint p Hp)].
  eapply Forall_impl; [apply (po_outs p Hp)|]. by intros v (_ & ? & _).
Qed.

Lemma unlisted i : i ∉ ids -> getOr0 (mintOf (implicitValue p)) i = 0 /\ totalQty i (outValues (paramOutputs p)) = 0.
Proof.
  intros Hi. destruct required_ok as [_ Hr]. specialize (Hr i).
  assert (Hi' : i ∉ JsMap.keys required ++ JsMap.keys (mintOf (implicitValue p))).
  { intros Hin. apply Hi. by apply uniq_elem. }
  apply not_elem_of_app in Hi' as [H1 H2]. rewrite (getOr0_absent _ _ H1), (getOr0_absent _ _ H2) in Hr.
  split; [by apply getOr0_absent|lia].
Qed.

(** The two selection phases cover every asset and the coins. *)
Lemma phases_ok total w1 w2 :
  computeNetImplicitSelectionValues (newSet all) (paramOutputs p) (implicitValue p) = Ok (total, required) ->
  selectAssets required all (preSelectedUtxo p) = Ok w1 ->
  selectLovelace total all w1 (input (requiredCoin (implicitValue p))) = Ok w2 ->
  subset all w2 /\ (forall u, u ∈ preSelectedUtxo p -> u ∈ w2) /\ w2 <> [] /\
  Forall (fun i => covers_asset i (utxoValues w2) (outValues (paramOutputs p)) (requiredImplicit (implicitValue p))) ids /\
  covers_coins (utxoValues w2) (outValues (paramOutputs p)) (requiredImplicit (implicitValue p)).
Proof.
  intros E1 E2 E3. unfold selectAssets in E2. rewrite newSet_id in E2 by apply pre_subset.
  apply (selectAssetsFrom_ok all all_refs all_ok) in E2 as [He1 Hq]; [|apply pre_subset].
  apply (selectLovelace_ok all all_refs all_ok) in E3 as (He2 & Hc & Hne); [|apply He1].
  split; [apply He2|]. split; [apply (extends_trans all _ w1 w2 He1 He2)|]. split; [done|].
  pose proof (extends_totals all all_ok w1 w2 (proj1 He1) He2) as [_ Ht].
  pose proof (implicit_args p [] [] Hp (Forall_nil_2 _) (NoDup_nil_2)) as Hargs. split.
  - apply Forall_forall. intros i _. unfold covers_asset. cbn [requiredImplicit implicitTokens].
    rewrite implicitTokensOf_input, implicitTokensOf_spend by apply (po_mint p Hp).
    destruct required_ok as [Hrok Hr]. specialize (Hr i). specialize (Ht i).
    assert (Hle : getOr0 required i <= totalQty i (utxoValues w1)).
    { destruct (JsMap.get required i) as [q|] eqn:Eg.
      - apply get_Some_elem in Eg as Hin. rewrite Forall_forall in Hq. specialize (Hq _ Hin). cbn in Hq.
        unfold getOr0. by rewrite Eg.
      - unfold getOr0. rewrite Eg. apply zsum_nonneg, Forall_fmap, Forall_fmap.
        eapply Forall_impl; [apply (subset_ok all all_ok w1 (proj1 He1))|]. intros u (_ & _ & Hqu). apply Hqu. }
    lia.
  - unfold computeNetImplicitSelectionValues in E1. cbv zeta in E1. cbn [aggregateLovelace] in E1.
    rewrite !getCoinQuantity_total in E1. destruct (aggregateAssets _ _ _) as [rq av].
    destruct (_ || _); [done|]. injection E1 as Et. unfold covers_coins. cbn [requiredImplicit implicitCoin].
    change (totalCoins (outValues (paramOutputs p)) + deposit (requiredCoin (implicitValue p)) = total) in Et. lia.
Qed.

(** From the settled change to the result. *)
Lemma expand_ok w i : subset all w -> (forall u, u ∈ preSelectedUtxo p -> u ∈ w) -> w <> [] ->
  Forall (fun i => covers_asset i (utxoValues w) (outValues (paramOutputs p)) (requiredImplicit (implicitValue p))) ids ->
  covers_coins (utxoValues w) (outValues (paramOutputs p)) (requiredImplicit (implicitValue p)) ->
  exists o i', expandUtxosUntilFeeCovered p w all required i = (o, i') /\ o <> OutOfFuel /\
    forall final txFee chg, o = Ok (final, txFee, chg) ->
      tx_balanced (implicitValue p) {| inputs := final; outputs := paramOutputs p; change := chg; fee := txFee |} /\
      (exists rest, final ++ rest ≡ₚ all) /\ (forall u, u ∈ preSelectedUtxo p -> u ∈ final) /\ final <> [].
Proof.
  intros Hw Hpre Hne Ha Hc. unfold expandUtxosUntilFeeCovered. cbv zeta.
  set (rem := Array_sort _ _). set (sel := {| utxoRemaining := rem; utxoSelected := w |}).
  assert (Hpart : w ++ rem ≡ₚ all) by (unfold rem; rewrite Array_sort_perm; apply partition; [apply all_refs|done]).
  assert (Hloop : loop_ok (largeFirstArgs p required) sel).
  { split; [by cbn; rewrite Hpart; apply all_ok| |done|done].
    eapply (refs_app_r w), refs_perm; [symmetry; exact Hpart|apply all_refs]. }
  assert (Hargs : args_ok (outputValues (largeFirstArgs p required)) ids (requiredImplicit (implicitValue p)))
    by (apply (implicit_args p); [done|apply (po_outs p Hp)|apply uniq_NoDup]).
  assert (Hest : estimator_ok (estimateTxCosts (largeFirstArgs p required))) by (intros us vs; apply (po_cost p Hp)).
  destruct (computeChangeAndAdjustForFee_settles (PL := pickLargest_laws) (largeFirstArgs p required) Hargs Hest
    (length rem) sel Hloop (le_n _) i) as (o & i2 & Eo & Ho & Hr).
  unfold mbind at 1, ST_bind at 1. rewrite Eo. destruct o as [r|e|]; [|eexists _, _; by split_and!|done].
  destruct (Hr r eq_refl) as [Hbal Hperm Hpref _ _ _].
  assert (Hall : resultInputs r ++ resultRemainingUTxO r ≡ₚ all) by (by rewrite Hperm).
  rewrite (newSet_id (resultInputs r)) by (eapply refs_app_l, refs_perm; [symmetry; exact Hall|apply all_refs]).
  assert (Hgood : forall chg, same_totals (resultChange r) (outValues chg) ->
    tx_balanced (implicitValue p) {| inputs := resultInputs r; outputs := paramOutputs p; change := chg; fee := resultFee r |} /\
      (exists rest, resultInputs r ++ rest ≡ₚ all) /\ (forall u, u ∈ preSelectedUtxo p -> u ∈ resultInputs r) /\ resultInputs r <> []).
  { intros chg Hs. destruct Hpref as [k Ek]. cbn in Ek. split_and!.
    - apply (tx_balanced_same _ (resultInputs r) _ _ (mkTxOut stubMaxSizeAddress <$> resultChange r)); [done|by rewrite outValues_mk|].
      apply (balanced_tx ids); [apply (po_mint p Hp)|intros a Hi; by apply unlisted|intros a Hi; by apply unlisted|].
      rewrite outValues_mk. exact Hbal.
    - by eexists.
    - intros u Hu. rewrite Ek. apply elem_of_app. left. auto.
    - rewrite Ek. by destruct w. }
  destruct (Z.eqb_spec (zlen (resultChange r)) 0) as [Hz|Hz].
  - eexists _, _. split; [reflexivity|]. split; [done|]. intros final txFee chg [= <- <- <-]. apply Hgood.
    apply zlen_0 in Hz. by rewrite Hz.
  - unfold mbind, ST_bind, st_lift. match goal with |- context [resolve ?sk] => pose proof (resolve_fuel sk) as Hrf;
      destruct (resolve sk) as [resolved|e|] eqn:Er; [|eexists _, _; by split_and!|done] end.
    eexists _, _. split; [reflexivity|]. split; [done|]. intros final txFee chg [= <- <- <-]. apply Hgood.
    pose proof (resolve_coins _ _ Er) as Hrc. pose proof (fun a => resolve_qty _ _ a Er) as Hrq.
    cbn [change] in Hrc, Hrq. rewrite outValues_mk in Hrc. setoid_rewrite outValues_mk in Hrq. by split.
Qed.

Lemma selectAssets_fuel req a s : selectAssets req a s <> OutOfFuel.
Proof.
  apply foldRes_fuel. intros b [i q]. unfold selectAsset. cbv zeta.
  destruct (accumulate _ _ _ _ _). by case_bool.
Qed.

Lemma selectLovelace_fuel t a s k : selectLovelace t a s k <> OutOfFuel.
Proof.
  unfold selectLovelace. cbv zeta. destruct (accumulateAda _ _ _ _) as [r acc].
  destruct (zlen r =? 0); [destruct (Array_sort _ _); [done|]|]; cbn; by case_bool.
Qed.

(** The selector ends, and a selection it returns is balanced. *)
Theorem largeFirst_spec i : exists o i', largeFirstSelect p i = (o, i') /\ o <> OutOfFuel /\
  forall r, o = Ok r -> large_first_ok p r.
Proof.
  unfold largeFirstSelect. cbv zeta. fold all.
  destruct (computeNetImplicitSelectionValues (newSet all) (paramOutputs p) (implicitValue p)) as [[total rq]|e|] eqn:E1;
    [|eexists _, _; by split_and!|].
  2:{ unfold computeNetImplicitSelectionValues in E1. cbv zeta in E1. destruct (aggregateLovelace _ _ _), (aggregateAssets _ _ _).
      by destruct (_ || _). }
  assert (rq = required) as ->.
  { unfold computeNetImplicitSelectionValues in E1. cbv zeta in E1. unfold required.
    destruct (aggregateLovelace _ _ _), (aggregateAssets _ _ _). destruct (_ || _); [done|]. by injection E1. }
  rewrite (st_lift_ok (Ok (total, required)) _ _ _ eq_refl).
  pose proof (selectAssets_fuel required all (preSelectedUtxo p)) as F2.
  destruct (selectAssets required all (preSelectedUtxo p)) as [w1|e|] eqn:E2; [|eexists _, _; by split_and!|done].
  rewrite (st_lift_ok (Ok w1) _ _ _ eq_refl).
  pose proof (selectLovelace_fuel total all w1 (input (requiredCoin (implicitValue p)))) as F3.
  destruct (selectLovelace total all w1 _) as [w2|e|] eqn:E3; [|eexists _, _; by split_and!|done].
  rewrite (st_lift_ok (Ok w2) _ _ _ eq_refl).
  destruct (phases_ok total w1 w2 E1 E2 E3) as (P1 & P2 & P3 & P4 & P5).
  destruct (expand_ok w2 i P1 P2 P3 P4 P5) as (o & i' & E & Ho & Hr).
  unfold mbind at 1, ST_bind at 1. rewrite E. destruct o as [[[final txFee] chg]|e|]; [|eexists _, _; by split_and!|done].
  destruct (Hr final txFee chg eq_refl) as (R1 & [rest R2] & R3 & R4).
  unfold mbind, ST_bind, st_lift, st_guard.
  match goal with |- context [computeSelectionLimit ?c ?k] => pose proof (po_limit p Hp k) as Hlf;
    destruct (computeSelectionLimit c k) as [limit|e|]; [|eexists _, _; by split_and!|done] end.
  destruct (limit <? zlen final); [eexists _, _; by split_and!|].
  eexists _, _. split; [reflexivity|]. split; [done|]. intros r [= <-].
  pose proof (Array_sort_perm sortUtxoByTxIn final) as Hsort.
  assert (Hfr : refs_ok final) by (eapply refs_app_l, refs_perm; [symmetry; exact R2|apply all_refs]).
  rewrite (newSet_id (Array_sort _ _)) by (eapply refs_perm; [symmetry; exact Hsort|done]).
  split; cbn [selection inputs outputs change fee].
  - by apply (tx_balanced_same _ final _ _ chg).
  - done.
  - exists rest. by rewrite Hsort.
  - intros u Hu. rewrite Hsort. auto.
  - intros En. rewrite En in Hsort. by apply Permutation_nil_l in Hsort.
  - apply sortUtxo_sorted.
Qed.
End theorems.
