(* ===== verification/GreedySelection.v ===== *)
(** * The greedy selector

    Models [GreedySelection/GreedyInputSelector.ts] and [GreedySelection/util.ts]:
    all UTxOs are spent, and what remains is distributed over the change
    addresses by weight.  Weights and shares are [number]s, IEEE 754 doubles.
    [bignumber.js] turns a double into the decimal the runtime prints for it; the
    arithmetic on decimals the code asks of it is exact and written out here.
    The state of [Sel] counts the calls of [getChangeAddresses]. *)

From Stdlib Require Import SpecFloat.
From S2P Require Import Prelude JsRuntime Half Values Selection RoundRobin Change.

(** ** bignumber.js *)

(** [new BigNumber(x)] for a [number]: [m * 10 ^ e], or nothing for a number
    that is not finite, whose text [BigInt] rejects. *)
Class BigNumber := BigNumber_of : number -> option (Z * Z).

Definition nonnegative (x : number) : bool :=
  match x with S754_nan => true | S754_zero s | S754_infinity s | S754_finite s _ _ => negb s end.

(** A number without a minus sign has a decimal that is not. *)
Class BigNumberLaws `{BigNumber} : Prop := BigNumber_sign x m e :
  nonnegative x = true -> BigNumber_of x = Some (m, e) -> 0 <= m.

(** [new BigNumber(n).dividedBy(d).toFixed(0, 0)]: rounded away from zero. *)
Definition divideRoundUp (n d : Z) : Z := Z.sgn n * ((Z.abs n + d - 1) / d).

(** [n * 10 ^ e], rounded away from zero. *)
Definition scaleRoundUp (n e : Z) : Z := if 0 <=? e then n * 10 ^ e else divideRoundUp n (10 ^ (- e)).

(** ** Numbers *)

Definition double_add (x y : number) : number := SFadd 53 1024 x y.
Definition double_sub (x y : number) : number := SFsub 53 1024 x y.
Definition double_div (x y : number) : number := SFdiv 53 1024 x y.

(** [x > y] *)
Definition double_gtb (x y : number) : bool := SFltb y x.

Definition PERCENTAGE_TOLERANCE : number := double_div (double_of false 5 0) (double_of false 100 0).

(** ** Distribution of assets *)

Definition withCoins (o : TxOut) (c : Z) : TxOut :=
  {| address := address o; value := {| coins := c; assets := assets (value o) |}; datumHash := datumHash o;
     datum := datum o; scriptReference := scriptReference o |}.

Definition withAssets (o : TxOut) (m : option TokenMap) : TxOut :=
  {| address := address o; value := {| coins := coins (value o); assets := m |}; datumHash := datumHash o;
     datum := datum o; scriptReference := scriptReference o |}.

Section greedy.
Context `{Lodash} `{BigNumber}.

Section distribution.
Context (computeMin : TxOut -> Z) (exceedsLimit : TokenMap -> bool) (fee : Z).

(** The loop of [distributeAssets]; [available] and [adjustedOutputs] are the
    same array. *)
Fixpoint distributeLoop (fuel : nat) (totalAssets : TokenMap) (i : Z) (available alreadyFull : list TxOut) :
    Res (list TxOut) :=
  match totalAssets with
  | [] => Ok (available ++ alreadyFull)
  | (assetId, q) :: _ =>
      match fuel with
      | O => OutOfFuel
      | S fuel' =>
          let currentUtxoIndex := Z.to_nat (i mod zlen available) in
          match available !! currentUtxoIndex with
          | None => Throw (TypeError "Cannot read properties of undefined")
          | Some o =>
              let current := withAssets o (addTokenMaps (assets (value o)) (Some [(assetId, q)])) in
              let '(available, alreadyFull, totalAssets) :=
                if negb (isValidValue (value current) computeMin exceedsLimit fee)
                then (take currentUtxoIndex available ++ drop (S currentUtxoIndex) available, alreadyFull ++ [o], totalAssets)
                else (<[currentUtxoIndex := current]> available, alreadyFull, JsMap.delete totalAssets assetId) in
              if zlen available =? 0 then Throw (InputSelectionError UtxoFullyDepleted)
              else distributeLoop fuel' totalAssets (i + 1) available alreadyFull
          end
      end
  end.

Definition distributeAssets (outs : list TxOut) : Res (list TxOut) :=
  if zlen outs =? 0 then Ok outs
  else
    match assets (coalesceValueQuantities (outValues outs)) with
    | None | Some [] => Ok outs
    | Some totalAssets =>
        distributeLoop (length totalAssets + length outs) totalAssets 0 ((fun o => withAssets o None) <$> outs) []
    end.

(** ** Splitting an output *)

(** Three hundredths of the power of ten with as many digits. *)
Definition getMinUtxoAmount (amount : Z) : Z :=
  let tens := Z.of_nat (String.length (pretty amount)) - 1 in
  divideRoundUp (10 ^ tens * 3) 100.

Section split.
Context (output : TxOut).

Fixpoint splitLoop (fuel : nat) (minUtxoAdaAmount remaining runningAmount : Z) : Res (list Z) :=
  if minUtxoAdaAmount <=? remaining then
    match fuel with
    | O => OutOfFuel
    | S fuel' =>
        let amount := coins (value output) in
        let val := divideRoundUp remaining 2 in
        let updatedRemaining := remaining - val in
        if (updatedRemaining <=? minUtxoAdaAmount) ||
           (updatedRemaining <=? computeMin (mkTxOut (address output) {| assets := assets (value output); coins := amount - runningAmount |}) + fee)
        then Ok [amount - runningAmount]
        else amounts ← splitLoop fuel' minUtxoAdaAmount (remaining - val) (runningAmount + val); Ok (val :: amounts)
    end
  else Ok [].

Definition splitFuel : nat := 9.

Definition splitChangeOutput : Res (list TxOut) :=
  let amount := coins (value output) in
  amounts ← (splitLoop splitFuel (getMinUtxoAmount amount) amount 0 : Res (list Z));
  Ok (map (fun c => mkTxOut (address output) {| assets := assets (value output); coins := c |}) amounts).
End split.

(** ** Splitting the change *)

Context (totalChangeLovelace : Z) (totalChangeAssets : option TokenMap).

(** The loop over the change outputs, with the total it allocates. *)
Fixpoint allocate (changeAsPercent : list (string * number)) (addresses : list string) (runningTotal : Z) :
    Res (list TxOut * Z) :=
  match addresses with
  | [] => Ok ([], runningTotal)
  | addr :: addresses' =>
      match (match JsMap.get changeAsPercent addr with Some x => BigNumber_of x | None => None end) with
      | None => Throw (SyntaxError "Cannot convert NaN to a BigInt")
      | Some (m, e) =>
          let coinAllocation := scaleRoundUp (totalChangeLovelace * m) e in
          let runningTotal := runningTotal + coinAllocation in
          let c := if totalChangeLovelace <? runningTotal then coinAllocation - (runningTotal - totalChangeLovelace)
                   else coinAllocation in
          '(outs, total) ← allocate changeAsPercent addresses' runningTotal;
          Ok (mkTxOut addr {| assets := None; coins := c |} :: outs, total)
      end
  end.

Definition addToLast (c : Z) (outs : list TxOut) : Res (list TxOut) :=
  match reverse outs with
  | [] => Throw (TypeError "Cannot read properties of undefined")
  | o :: front => Ok (reverse front ++ [withCoins o (coins (value o) + c)])
  end.

Definition setFirstAssets (outs : list TxOut) : list TxOut :=
  match outs with [] => [] | o :: rest => withAssets o totalChangeAssets :: rest end.

(** [changeAsPercent], after the check that the shares add up. *)
Definition shares (changeAddresses : list (string * number)) : Res (list (string * number)) :=
  let totalWeight := fold_left (fun sum current => double_add sum current) (JsMap.values changeAddresses) (S754_zero false) in
  let changeAsPercent := JsMap.of_entries ((fun kv => (kv.1, double_div kv.2 totalWeight)) <$> changeAddresses) in
  let totalPercentage := fold_left (fun sum current => double_add sum current) (JsMap.values changeAsPercent) (S754_zero false) in
  if double_gtb (SFabs (double_sub (double_of false 1 0) totalPercentage)) PERCENTAGE_TOLERANCE
  then Throw (InputSelectionError UtxoBalanceInsufficient) else Ok changeAsPercent.

Definition splitChangeFor (changeAddresses : list (string * number)) : Res (list TxOut) :=
  changeAsPercent ← shares changeAddresses;
  '(changeOutputs, runningTotal) ← allocate changeAsPercent (JsMap.keys changeAsPercent) 0;
  changeOutputs ← (if runningTotal <? totalChangeLovelace then addToLast (totalChangeLovelace - runningTotal) changeOutputs
                   else Ok changeOutputs);
  splitOutputs ← mapM splitChangeOutput changeOutputs;
  let sortedOutputs := filter (fun o => 0 < coins (value o)) (Array_sort sortByCoins (concat splitOutputs)) in
  let sortedOutputs := setFirstAssets sortedOutputs in
  match totalChangeAssets with
  | None | Some [] => Ok sortedOutputs
  | Some _ => distributeAssets sortedOutputs
  end.
End distribution.

(** ** The fee *)

Record Adjusted : Set := { adjustedFee : Z; adjustedChange : list TxOut; feeAccountedFor : bool }.

(** The first output that can pay the fee and stay above its minimum pays it. *)
Fixpoint payFee (computeMin : TxOut -> Z) (fee : Z) (outs : list TxOut) : list TxOut * bool :=
  match outs with
  | [] => ([], false)
  | o :: rest =>
      let adjustedCoins := coins (value o) - fee in
      if computeMin o <=? adjustedCoins then (withCoins o adjustedCoins :: rest, true)
      else let '(rest, paid) := payFee computeMin fee rest in (o :: rest, paid)
  end.

Definition adjustOutputsForFee (changeLovelace : Z) (cs : SelectionConstraints) (ins : list Utxo)
    (outs changeOutputs : list TxOut) (currentFee : Z) : Res Adjusted :=
  cost ← computeMinimumCost cs {| change := []; fee := currentFee; inputs := ins; outputs := outs ++ changeOutputs |};
  if costFee cost =? changeLovelace
  then Ok {| adjustedChange := []; adjustedFee := costFee cost; feeAccountedFor := true |}
  else if changeLovelace <? costFee cost then Throw (InputSelectionError UtxoBalanceInsufficient)
  else
    let '(updatedOutputs, paid) :=
      payFee (computeMinimumCoinQuantity cs) (costFee cost) (Array_sort sortByCoins changeOutputs) in
    Ok {| adjustedChange := updatedOutputs; adjustedFee := costFee cost; feeAccountedFor := paid |}.

Section select.
(** What the [n]th call of the callback answers. *)
Context (getChangeAddresses : nat -> Res (list (string * number))).

Definition splitChange (totalChangeLovelace : Z) (totalChangeAssets : option TokenMap) (cs : SelectionConstraints)
    (fee : Z) : Sel (list TxOut) :=
  n ← st_get;
  st_put (S n) ;;
  changeAddresses ← st_lift (getChangeAddresses n);
  st_lift (splitChangeFor (computeMinimumCoinQuantity cs) (tokenBundleSizeExceedsLimit cs) fee
             totalChangeLovelace totalChangeAssets changeAddresses).

Definition belowMinimum (cs : SelectionConstraints) (o : TxOut) : bool :=
  coins (value o) <? computeMinimumCoinQuantity cs o.

Section fee.
Context (ins : list Utxo) (outs : list TxOut) (changeLovelace : Z) (changeAssets : option TokenMap)
  (cs : SelectionConstraints).

Fixpoint splitChangeAndComputeFee (fuel : nat) (fee : Z) : Sel Adjusted :=
  match fuel with
  | O => st_fuel
  | S fuel' =>
      changeOutputs ← splitChange changeLovelace changeAssets cs fee;
      adjusted ← st_lift (adjustOutputsForFee changeLovelace cs ins outs changeOutputs fee);
      if changeLovelace <=? adjustedFee adjusted then
        let stub := mkTxOut stubMaxSizeAddress {| assets := changeAssets; coins := 0 |} in
        st_guard (belowMinimum cs stub) (InputSelectionError UtxoFullyDepleted) ;;
        mret {| adjustedChange := [stub]; adjustedFee := adjustedFee adjusted; feeAccountedFor := true |}
      else
        adjusted ←
          (if fee <? adjustedFee adjusted then
             recursive ← splitChangeAndComputeFee fuel' (adjustedFee adjusted);
             st_guard (zlen (adjustedChange recursive) =? 0) (InputSelectionError UtxoFullyDepleted) ;;
             mret recursive
           else mret adjusted);
        st_guard (existsb (belowMinimum cs) (adjustedChange adjusted)) (InputSelectionError UtxoFullyDepleted) ;;
        st_guard (negb (feeAccountedFor adjusted)) (InputSelectionError UtxoFullyDepleted) ;;
        mret adjusted
  end.
End fee.

(** Every recursive call has a larger fee, below the change. *)
Definition feeFuel (changeLovelace : Z) : nat := S (Z.to_nat changeLovelace).

(** The change of the whole balance: coins and assets. *)
Definition greedyChange (allInputs : list Utxo) (p : InputSelectionParameters) : Z * Z * option TokenMap :=
  let inputValues := utxoValues allInputs in
  let outputsValues := outValues (paramOutputs p) in
  let totalLovelaceInput := getCoinQuantity inputValues + input (requiredCoin (implicitValue p)) in
  let totalLovelaceOutput := getCoinQuantity outputsValues + deposit (requiredCoin (implicitValue p)) in
  let totalAssetsInput :=
    addTokenMaps (assets (coalesceValueQuantities inputValues)) (Some (mintOf (implicitValue p))) in
  (totalLovelaceInput, totalLovelaceOutput,
   subtractMaps totalAssetsInput (assets (coalesceValueQuantities outputsValues))).

Definition hasValue (o : TxOut) : bool :=
  (0 <? coins (value o)) || (0 <? match assets (value o) with Some m => JsMap.size m | None => 0 end).

Definition greedySelect (p : InputSelectionParameters) : Sel SelectionResult :=
  let allInputs := newSet (utxo p ++ preSelectedUtxo p) in
  let '(totalLovelaceInput, totalLovelaceOutput, changeAssets) := greedyChange allInputs p in
  let changeLovelace := totalLovelaceInput - totalLovelaceOutput in
  st_guard ((zlen allInputs =? 0) || (totalLovelaceInput <? totalLovelaceOutput) || hasNegativeAssetValue changeAssets)
    (InputSelectionError UtxoBalanceInsufficient) ;;
  adjusted ← splitChangeAndComputeFee allInputs (paramOutputs p) changeLovelace changeAssets (constraints p)
               (feeFuel changeLovelace) 0;
  let chg := filter (fun o => hasValue o = true) (adjustedChange adjusted) in
  st_guard (changeLovelace - adjustedFee adjusted <? 0) (InputSelectionError UtxoBalanceInsufficient) ;;
  limit ← st_lift (computeSelectionLimit (constraints p)
             {| change := chg; fee := adjustedFee adjusted; inputs := allInputs; outputs := paramOutputs p |});
  st_guard (limit <? zlen allInputs) (InputSelectionError MaximumInputCountExceeded) ;;
  mret {| remainingUTxO := [];
          redeemers := None;
          selection := {| change := chg; fee := adjustedFee adjusted;
                          inputs := newSet (Array_sort sortUtxoByTxIn allInputs); outputs := paramOutputs p |} |}.
End select.
End greedy.
