(* ===== verification/SelectionTheorems.v ===== *)
(** * What input selection guarantees

    The properties of the selectors and of the change computation, and the
    places where the code departs from its documentation. *)

From S2P Require Import Prelude JsRuntime Values Selection RoundRobin Change ChangeFacts RandomImprove LargeFirst.

Import JsMapFacts ValuesFacts SelectionFacts RoundRobinFacts.

(** ** A concrete wallet *)

Definition tokA : string := "aa".
Definition tokB : string := "bb".

Definition mkUtxo (r : Z) (id : string) (ix c : Z) (m : option TokenMap) : Utxo :=
  {| ref := r; txInRef := r; txIn := {| txId := id; index := ix; inAddress := "addr" |};
     txOut := mkTxOut "addr" {| coins := c; assets := m |} |}.

Definition demo_utxo : list Utxo :=
  [mkUtxo 1 "cc" 0 5000000 None; mkUtxo 2 "ab" 1 3000000 (Some [(tokA, 70); (tokB, 5)]);
   mkUtxo 3 "ab" 0 2000000 (Some [(tokA, 30)])].

Definition demo_constraints : SelectionConstraints := {|
  computeMinimumCost := fun _ => Ok {| costFee := 170000; costRedeemers := None |};
  tokenBundleSizeExceedsLimit := fun m => 2 <? JsMap.size m;
  computeMinimumCoinQuantity := fun _ => 1000000;
  computeSelectionLimit := fun _ => Ok 10
|}.

Definition demo_params : InputSelectionParameters := {|
  preSelectedUtxo := [];
  utxo := demo_utxo;
  paramOutputs := [mkTxOut "bob" {| coins := 4000000; assets := Some [(tokA, 80)] |}];
  constraints := demo_constraints;
  implicitValue := Some {| coin := None; mint := Some [(tokB, 2)] |}
|}.

Definition demo_random : Random := fun i n => Z.of_nat i mod n.
Definition demo_resolver : ChangeAddressResolver := StaticChangeAddressResolver (Ok ["me"]).

Lemma demo_random_laws : @RandomLaws demo_random.
Proof. intros i n Hn. unfold draw, demo_random. apply Z.mod_pos_bound. lia. Qed.

Lemma demo_resolver_fuel sk : @resolve demo_resolver sk <> OutOfFuel.
Proof. done. Qed.

Lemma nonneg_by_entries c (m : TokenMap) : 0 <= c -> map_ok m -> Forall (fun kv => 0 <= kv.2) m ->
  value_nonneg {| coins := c; assets := Some m |}.
Proof.
  intros Hc Hm Hq. split_and!; [done|done|]. intros i. unfold qty. cbn. unfold getOr0.
  destruct (JsMap.get m i) as [q|] eqn:E; [|done]. apply get_Some_elem in E. rewrite Forall_forall in Hq.
  by apply (Hq _ E).
Qed.

Ltac value_ok_tac :=
  first [ apply nonneg_by_entries; [lia|apply (bool_decide_unpack _); reflexivity|repeat constructor; cbn; lia]
        | split_and!; [cbn; lia|done|done] ].

Lemma demo_ok : params_ok demo_params.
Proof.
  split; cbn.
  - repeat apply Forall_cons_2; try apply Forall_nil_2; unfold utxo_ok; cbn; value_ok_tac.
  - apply (bool_decide_unpack _). reflexivity.
  - repeat apply Forall_cons_2; try apply Forall_nil_2; value_ok_tac.
  - apply (bool_decide_unpack _). reflexivity.
  - done.
  - intros sk. split; [done|]. intros c [= <-]. cbn. lia.
  - done.
Qed.

(** ** The selectors *)

(** C1. Round-robin random-improve: for any random source and any change
    resolver that keeps value, on any well-formed request, the selector ends,
    and a selection it returns satisfies the ledger's balance equation for
    coins (with withdrawals, deposits and the fee) and for every asset (with
    mint and burn), keeps the outputs, takes every pre-selected input,
    partitions the given UTxOs into inputs and remainder, and lists the inputs
    in the ledger's order. *)
Theorem select_balanced (LD : Lodash) (LL : LodashLaws) (RD : Random) (RL : RandomLaws)
    (CR : ChangeAddressResolver) (CL : ChangeAddressResolverLaws) (p : InputSelectionParameters) (i : nat) :
  (forall sk, resolve sk <> OutOfFuel) -> params_ok p ->
  exists o i', select p i = (o, i') /\ o <> OutOfFuel /\ forall r, o = Ok r -> selected_ok p r.
Proof. intros Hr Hp. by apply select_spec. Qed.

Lemma select_balanced_witness : exists o i',
  @select LodashRef.lodash_ref demo_random demo_resolver demo_params 0%nat = (o, i') /\ o <> OutOfFuel /\
  forall r, o = Ok r -> selected_ok demo_params r.
Proof.
  apply (select_balanced LodashRef.lodash_ref LodashRef.lodash_ref_laws demo_random demo_random_laws
           demo_resolver (static_laws (Ok ["me"]))); [apply demo_resolver_fuel|apply demo_ok].
Defined.



(** C6. Round-robin random-improve finds a selection whenever there is room: if
    the UTxOs (with mint and implicit coins) hold the outputs, the largest fee
    the estimator can answer and one minimum coin quantity, the outputs list
    positive quantities, bundles fit and the input limit allows all UTxOs, then
    it returns one, for every random source. *)
Theorem select_succeeds (LD : Lodash) (LL : LodashLaws) (RD : Random) (RL : RandomLaws)
    (CR : ChangeAddressResolver) (p : InputSelectionParameters) (F M : Z) (i : nat) :
  params_ok p -> generous p F M -> exists r i', select p i = (Ok r, i').
Proof. intros Hp Hg. by eapply select_total. Qed.

(** The same wallet without a limit on token bundles. *)
Definition roomy_params : InputSelectionParameters := {|
  preSelectedUtxo := preSelectedUtxo demo_params;
  utxo := utxo demo_params;
  paramOutputs := paramOutputs demo_params;
  constraints := {| computeMinimumCost := computeMinimumCost demo_constraints;
                    tokenBundleSizeExceedsLimit := fun _ => false;
                    computeMinimumCoinQuantity := computeMinimumCoinQuantity demo_constraints;
                    computeSelectionLimit := computeSelectionLimit demo_constraints |};
  implicitValue := implicitValue demo_params
|}.

Lemma roomy_ok : params_ok roomy_params.
Proof. destruct demo_ok. by split. Qed.

Lemma roomy_generous : @generous demo_resolver roomy_params 170000 1000000.
Proof.
  split; cbn; try done; try lia.
  - intros i. unfold totalQty, qty. cbn. unfold getOr0. cbn. repeat case_decide; subst; try done; lia.
  - repeat apply Forall_cons_2; try apply Forall_nil_2. cbn. lia.
  - intros sk. eexists. split; [reflexivity|]. cbn. lia.
  - intros sk. eexists. split; [reflexivity|]. done.
  - intros sk. by eexists.
Qed.

Lemma select_succeeds_witness : exists r i',
  @select LodashRef.lodash_ref demo_random demo_resolver roomy_params 0%nat = (Ok r, i').
Proof.
  apply (select_succeeds LodashRef.lodash_ref LodashRef.lodash_ref_laws demo_random demo_random_laws
           demo_resolver roomy_params 170000 1000000); [apply roomy_ok|apply roomy_generous].
Defined.

(** C34. The round-robin loop ends for every random source; it partitions the
    UTxOs, keeps the required ones first, and when the whole set covers every
    requested asset and the coins, so does what it selects. *)
Theorem roundRobinSelection_covers (RD : Random) (RL : RandomLaws) req avail outs ids iv i :
  refs_ok avail -> Forall utxo_ok (req ++ avail) ->
  assertIsBalanceSufficient ids req avail outs iv = Ok tt ->
  exists sel i', roundRobinSelection req avail outs ids iv i = (Ok sel, i') /\
    utxoSelected sel ++ utxoRemaining sel ≡ₚ req ++ avail /\ req `prefix_of` utxoSelected sel /\
    utxoSelected sel <> [] /\
    Forall (fun a => covers_asset a (utxoValues (utxoSelected sel)) (outValues outs) iv) ids /\
    covers_coins (utxoValues (utxoSelected sel)) (outValues outs) iv.
Proof.
  intros Hr Hu (Hne & Ha & Hc)%assertIsBalanceSufficient_ok.
  pose proof (Permutation_app_comm avail req) as Hperm.
  destruct (roundRobinSelection_spec req avail outs ids iv i) as (sel & i' & E & H1 & _ & H2 & H3 & H4 & H5);
    [done|done|done| | |by exists sel, i'].
  - eapply Forall_impl; [exact Ha|]. intros a. unfold covers_asset. by rewrite Hperm.
  - unfold covers_coins in *. by rewrite Hperm in Hc.
Qed.

Definition demo_implicit : RequiredImplicitValue := requiredImplicit (implicitValue demo_params).

Lemma roundRobinSelection_covers_witness : exists sel i',
    @roundRobinSelection demo_random [] demo_utxo (paramOutputs demo_params) [tokA; tokB] demo_implicit 0%nat = (Ok sel, i') /\
    utxoSelected sel ++ utxoRemaining sel ≡ₚ [] ++ demo_utxo /\ [] `prefix_of` utxoSelected sel /\
    utxoSelected sel <> [] /\
    Forall (fun a => covers_asset a (utxoValues (utxoSelected sel)) (outValues (paramOutputs demo_params)) demo_implicit) [tokA; tokB] /\
    covers_coins (utxoValues (utxoSelected sel)) (outValues (paramOutputs demo_params)) demo_implicit.
Proof.
  apply (roundRobinSelection_covers demo_random demo_random_laws).
  - apply (bool_decide_unpack _). reflexivity.
  - apply (po_utxo demo_params demo_ok).
  - reflexivity.
Defined.

(** C39. The balance check accepts exactly the requests the UTxOs can cover,
    asset by asset and for the coins, with mint, burn, withdrawals and
    deposits; otherwise it throws [UtxoBalanceInsufficient]. *)
Theorem assertIsBalanceSufficient_exact ids pre avail outs iv :
  (assertIsBalanceSufficient ids pre avail outs iv = Ok tt <->
   pre ++ avail <> [] /\ Forall (fun i => covers_asset i (utxoValues (avail ++ pre)) (outValues outs) iv) ids /\
   covers_coins (utxoValues (avail ++ pre)) (outValues outs) iv) /\
  (assertIsBalanceSufficient ids pre avail outs iv = Ok tt \/
   assertIsBalanceSufficient ids pre avail outs iv = Throw (InputSelectionError UtxoBalanceInsufficient)).
Proof. split; [apply assertIsBalanceSufficient_ok|apply assertIsBalanceSufficient_throws]. Qed.

(** ** Change *)

(** C27. The fee loop, for any callback that moves one UTxO into the selection
    at a time and any estimator of non-negative fees: it ends; a result is
    balanced, uses the initial selection and takes the rest from the remaining
    UTxOs, keeps every bundle within the size limit and, when the minimum does
    not depend on the coins of the output, above the minimum coin quantity; and
    the fee is one the estimator gave for these inputs. *)
Theorem computeChangeAndAdjustForFee_correct (LD : Lodash) (LL : LodashLaws) (PA : PickAdditionalUtxo) (PL : PickLaws)
    (args : ChangeComputationArgs) (fuel : nat) (sel : UtxoSelection) (i : nat) :
  args_ok (outputValues args) (uniqueTxAssetIDs args) (changeImplicitValue args) ->
  estimator_ok (estimateTxCosts args) -> loop_ok args sel -> (length (utxoRemaining sel) <= fuel)%nat ->
  exists o i', computeChangeAndAdjustForFee fuel args sel i = (o, i') /\ o <> OutOfFuel /\
    forall r, o = Ok r -> change_ok args sel r.
Proof. intros H1 H2 H3 H4. by apply computeChangeAndAdjustForFee_settles. Qed.

Definition demo_selection : UtxoSelection := {| utxoSelected := demo_utxo; utxoRemaining := [] |}.

Definition demo_args : ChangeComputationArgs :=
  @changeArgs demo_params (@preProcessArgs LodashRef.lodash_ref [] demo_utxo (paramOutputs demo_params) changeAddress
    (implicitValue demo_params)).

Lemma demo_loop_ok : loop_ok demo_args demo_selection.
Proof.
  split; cbn.
  - apply (po_utxo demo_params demo_ok).
  - constructor.
  - repeat apply Forall_cons_2; try apply Forall_nil_2; unfold covers_asset; apply Z.leb_le; reflexivity.
  - unfold covers_coins. apply Z.leb_le. reflexivity.
Qed.

Lemma computeChangeAndAdjustForFee_correct_witness : exists o i',
  @computeChangeAndAdjustForFee LodashRef.lodash_ref pickAdditionalLargestUtxo 0 demo_args demo_selection 0%nat = (o, i') /\
  o <> OutOfFuel /\ forall r, o = Ok r -> change_ok demo_args demo_selection r.
Proof.
  apply (computeChangeAndAdjustForFee_correct LodashRef.lodash_ref LodashRef.lodash_ref_laws
           pickAdditionalLargestUtxo pickLargest_laws).
  - apply (implicit_args demo_params); [apply demo_ok|apply (po_outs demo_params demo_ok)|].
    apply (bool_decide_unpack _). reflexivity.
  - intros us vs. apply (po_cost demo_params demo_ok).
  - apply demo_loop_ok.
  - apply le_n.
Defined.

(** Merging for the minimum coin quantity loses nothing: the bundles that come
    out hold the same coins and the same quantity of every asset as those that
    went in, none is negative, and each satisfies the minimum. *)
Theorem coalesceChangeBundles_correct (LD : Lodash) (LL : LodashLaws) computeMin bs bs' : Forall value_nonneg bs ->
  coalesceChangeBundlesForMinCoinRequirement bs computeMin = Some bs' ->
  same_totals bs' bs /\ Forall value_nonneg bs' /\
  Forall (fun b => satisfiesMinCoinRequirement computeMin b = true) bs'.
Proof. apply coalesceChangeBundles_ok. Qed.

Definition demo_bundles : list Value :=
  [{| coins := 400000; assets := Some [(tokA, 3)] |}; {| coins := 700000; assets := Some [(tokA, 1); (tokB, 0)] |};
   {| coins := 2000000; assets := None |}].

Lemma coalesceChangeBundles_correct_witness :
  let out := [{| coins := 2000000; assets := None |};
              {| coins := 1100000; assets := Some [(tokA, 4)] |}] in
  same_totals out demo_bundles /\ Forall value_nonneg out /\
  Forall (fun b => satisfiesMinCoinRequirement (fun _ => 1000000) b = true) out.
Proof.
  apply (coalesceChangeBundles_correct LodashRef.lodash_ref LodashRef.lodash_ref_laws (fun _ => 1000000) demo_bundles).
  - repeat apply Forall_cons_2; try apply Forall_nil_2; value_ok_tac.
  - vm_compute. reflexivity.
Defined.

(** Splitting a token bundle loses nothing and splits enough: the parts
    concatenate to the original map, and each part is within the limit unless
    it holds a single asset. *)
Theorem splitAssets_correct exceeds m : map_ok m ->
  concat (splitAssets exceeds m) = m /\ Forall (fits exceeds) (splitAssets exceeds m).
Proof. intros Hm. destruct (splitAssets_ok exceeds m Hm) as (? & ? & _). done. Qed.

Lemma splitAssets_correct_witness :
  concat (splitAssets (fun m => 1 <? JsMap.size m) [(tokA, 1); (tokB, 2)]) = [(tokA, 1); (tokB, 2)] /\
  Forall (fits (fun m => 1 <? JsMap.size m)) (splitAssets (fun m => 1 <? JsMap.size m) [(tokA, 1); (tokB, 2)]).
Proof. apply splitAssets_correct, (bool_decide_unpack _). reflexivity. Defined.

(** ** Token arithmetic *)

(** Subtracting token maps subtracts every quantity, an absent map counting as
    empty, and the result lists every asset once and none of quantity zero. *)
Theorem subtractMaps_correct (LD : Lodash) (LL : LodashLaws) l r : assets_ok l -> assets_ok r ->
  (forall i, quantity (subtractMaps l r) i = quantity l i - quantity r i) /\
  forall m, subtractMaps l r = Some m -> map_ok m /\ no_zero m.
Proof.
  intros Hl Hr. split; [intros i; by apply subtractMaps_quantity|]. intros m. apply subtractMaps_canonical.
Qed.

Lemma subtractMaps_correct_witness :
  (forall i, quantity (@subtractMaps LodashRef.lodash_ref (Some [(tokA, 5)]) (Some [(tokB, 1); (tokA, 5)])) i =
     quantity (Some [(tokA, 5)]) i - quantity (Some [(tokB, 1); (tokA, 5)]) i) /\
  forall m, @subtractMaps LodashRef.lodash_ref (Some [(tokA, 5)]) (Some [(tokB, 1); (tokA, 5)]) = Some m ->
    map_ok m /\ no_zero m.
Proof.
  apply (subtractMaps_correct LodashRef.lodash_ref LodashRef.lodash_ref_laws);
    apply (bool_decide_unpack _); reflexivity.
Defined.

(** Coalescing values sums the coins and every asset, and the sum lists every
    asset once. *)
Theorem coalesceValueQuantities_correct vs : Forall value_ok vs ->
  coins (coalesceValueQuantities vs) = totalCoins vs /\
  (forall i, qty i (coalesceValueQuantities vs) = totalQty i vs) /\ value_ok (coalesceValueQuantities vs).
Proof.
  intros Hvs. split_and!; [apply coalesceValueQuantities_coins| |apply coalesceValueQuantities_ok].
  intros i. by apply coalesceValueQuantities_qty.
Qed.

Lemma coalesceValueQuantities_correct_witness :
  coins (coalesceValueQuantities demo_bundles) = totalCoins demo_bundles /\
  (forall i, qty i (coalesceValueQuantities demo_bundles) = totalQty i demo_bundles) /\
  value_ok (coalesceValueQuantities demo_bundles).
Proof.
  apply coalesceValueQuantities_correct.
  repeat apply Forall_cons_2; try apply Forall_nil_2; try done; apply (bool_decide_unpack _); reflexivity.
Defined.

(** Minting and burning: the implicit input and spending of an asset are its
    positive and negative parts in the mint. *)
Theorem mintToImplicitTokens_correct m : map_ok m -> forall i,
  let it := implicitTokensOf m in
  inputTokens it i = Z.max 0 (getOr0 m i) /\ spendTokens it i = Z.max 0 (- getOr0 m i) /\
  inputTokens it i - spendTokens it i = getOr0 m i.
Proof.
  intros Hm i it. subst it. rewrite implicitTokensOf_input, implicitTokensOf_spend by done. lia.
Qed.

Lemma mintToImplicitTokens_correct_witness :
  let m := [(tokA, 3); (tokB, -2)] in
  inputTokens (implicitTokensOf m) tokB = 0 /\ spendTokens (implicitTokensOf m) tokB = 2 /\
  inputTokens (implicitTokensOf m) tokB - spendTokens (implicitTokensOf m) tokB = -2.
Proof. apply (mintToImplicitTokens_correct [(tokA, 3); (tokB, -2)]), (bool_decide_unpack _). reflexivity. Defined.

(** ** Where the code departs from what it says *)

(** One UTxO that is both pre-selected and available. *)
Definition overlap_params : InputSelectionParameters := {|
  preSelectedUtxo := [mkUtxo 1 "cc" 0 5000000 None];
  utxo := [mkUtxo 1 "cc" 0 5000000 None];
  paramOutputs := [mkTxOut "bob" {| coins := 7000000; assets := None |}];
  constraints := demo_constraints;
  implicitValue := None
|}.

(** When a pre-selected UTxO is also in the available set, round-robin
    random-improve counts it twice and returns a selection that spends two
    lovelace for every one the inputs hold: outputs, change and fee exceed the
    inputs by the value of the UTxO. *)
Theorem select_double_counts_overlap : exists r i',
  @select LodashRef.lodash_ref demo_random demo_resolver overlap_params 0%nat = (Ok r, i') /\
  inputs (selection r) = utxo overlap_params /\
  totalCoins (outValues (outputs (selection r))) + totalCoins (outValues (change (selection r))) + fee (selection r) =
  2 * totalCoins (utxoValues (inputs (selection r))).
Proof. eexists _, _. split; [vm_compute; reflexivity|]. split; reflexivity. Qed.

(** The large-first selector never reports redeemers, whatever the cost
    estimate returned. *)
Theorem largeFirst_drops_redeemers (LD : Lodash) (CR : ChangeAddressResolver) p i r i' :
  largeFirstSelect p i = (Ok r, i') -> redeemers r = None.
Proof.
  unfold largeFirstSelect. cbv zeta. unfold mbind, ST_bind, st_lift, st_guard.
  repeat match goal with
  | |- context [match ?x with _ => _ end] =>
      lazymatch x with
      | computeNetImplicitSelectionValues _ _ _ => destruct x as [[? ?]|?|]
      | selectAssets _ _ _ => destruct x
      | selectLovelace _ _ _ _ => destruct x
      | expandUtxosUntilFeeCovered _ _ _ _ _ => destruct x as [[[[? ?] ?]|?|] ?]
      | computeSelectionLimit _ _ => destruct x
      | _ <? _ => destruct x
      end
  end; try done. by intros [= <- _].
Qed.

(** A UTxO that is pre-selected, and present in the available set as another
    object with the same transaction id and index. *)
Definition twin_params : InputSelectionParameters := {|
  preSelectedUtxo := [mkUtxo 1 "cc" 0 5000000 None];
  utxo := [mkUtxo 2 "cc" 0 5000000 None; mkUtxo 3 "dd" 0 5000000 None];
  paramOutputs := [mkTxOut "bob" {| coins := 2000000; assets := None |}];
  constraints := {| computeMinimumCost := fun _ => Ok {| costFee := 170000; costRedeemers := Some ["redeemer"] |};
                    tokenBundleSizeExceedsLimit := fun _ => false;
                    computeMinimumCoinQuantity := fun _ => 1000000;
                    computeSelectionLimit := fun _ => Ok 10 |};
  implicitValue := None
|}.

Lemma largeFirst_drops_redeemers_witness : exists r i',
  @largeFirstSelect LodashRef.lodash_ref demo_resolver twin_params 0%nat = (Ok r, i') /\ redeemers r = None.
Proof.
  eexists _, _. split; [vm_compute; reflexivity|].
  eapply (largeFirst_drops_redeemers LodashRef.lodash_ref demo_resolver twin_params 0%nat). vm_compute. reflexivity.
Defined.

(** The large-first selector compares inputs by value when it builds the
    candidates, and by reference when it computes the remainder: an input it
    spends is reported as remaining when the caller gave it as two objects. *)
Theorem largeFirst_remaining_contains_spent : exists r i' u v,
  @largeFirstSelect LodashRef.lodash_ref demo_resolver twin_params 0%nat = (Ok r, i') /\
  u ∈ inputs (selection r) /\ v ∈ remainingUTxO r /\ txIn u = txIn v.
Proof.
  eexists _, _, _, _. split; [vm_compute; reflexivity|]. split; [left|]. split; [left|]. reflexivity.
Qed.

(** Token change is not proportional to the outputs: an excess of ninety over
    two outputs of five tokens each is divided 86 to 4, because the share is
    taken of the selected and not of the requested quantity; the coins of the
    same call are divided evenly. *)
Theorem token_change_is_not_proportional :
  let sel := [mkUtxo 1 "cc" 0 10000000 (Some [(tokA, 100)])] in
  let out := {| coins := 2000000; assets := Some [(tokA, 5)] |} in
  @computeRequestedAssetChangeBundles LodashRef.lodash_ref sel [out; out] [tokA] (requiredImplicit None) 0 =
  Ok [{| coins := 3000000; assets := Some [(tokA, 86)] |}; {| coins := 3000000; assets := Some [(tokA, 4)] |}].
Proof. vm_compute. reflexivity. Qed.

(** An output that lists an asset with quantity zero, of which no input holds
    any, makes both selectors fail with a runtime error rather than an
    [InputSelectionError]: the round-robin selector divides by zero, and the
    large-first selector reads a total it never computed. *)
Theorem zero_quantity_output_crashes :
  let p := {| preSelectedUtxo := []; utxo := demo_utxo;
              paramOutputs := [mkTxOut "bob" {| coins := 2000000; assets := Some [("none", 0)] |}];
              constraints := demo_constraints; implicitValue := None |} in
  (exists i', @select LodashRef.lodash_ref demo_random demo_resolver p 0%nat = (Throw (RangeError "Division by zero"), i')) /\
  exists m i', @largeFirstSelect LodashRef.lodash_ref demo_resolver p 0%nat = (Throw (TypeError m), i').
Proof. split; [eexists; vm_compute; reflexivity|eexists _, _; vm_compute; reflexivity]. Qed.
