(* ===== verification/GreedyFacts.v ===== *)
(** * The greedy selector keeps the balance

    Every step of [GreedySelection.v] keeps the total of coins and of every
    asset, and ends: the splitting of an output after nine halvings at most, the
    distribution of assets when assets or outputs run out, the fee loop because
    fees grow and stay below the change. *)
From Stdlib Require Import SpecFloat.
From S2P Require Import Prelude JsRuntime Half Values Selection RoundRobin Change ChangeFacts RandomImprove LargeFirst GreedySelection SelectionTheorems.

Import JsMapFacts ValuesFacts SelectionFacts RoundRobinFacts.

(** ** Computations that end with a result of a kind, or throw *)

Definition ends {A} (o : Res A) (P : A -> Prop) : Prop := o <> OutOfFuel /\ forall r, o = Ok r -> P r.

Lemma ends_ok {A} (a : A) P : P a -> ends (Ok a) P.
Proof. split; [done|]. by intros r [= <-]. Qed.

Lemma ends_throw {A} e (P : A -> Prop) : ends (Throw e) P.
Proof. by split. Qed.

Lemma ends_bind {A B} (o : Res A) (k : A -> Res B) P Q : ends o P -> (forall a, P a -> ends (k a) Q) -> ends (o ≫= k) Q.
Proof. intros [Hf Ho] Hk. destruct o as [a|e|]; [by apply Hk, Ho|apply ends_throw|done]. Qed.

Lemma ends_weaken {A} (o : Res A) (P Q : A -> Prop) : ends o P -> (forall a, P a -> Q a) -> ends o Q.
Proof. intros [Hf Ho] H. split; [done|]. intros r E. by apply H, Ho. Qed.

Lemma ends_mapM {A B} (f : A -> Res B) l P : (forall a, a ∈ l -> ends (f a) (P a)) -> ends (mapM f l) (Forall2 P l).
Proof.
  induction l as [|a l IH]; intros H; [apply ends_ok; constructor|]. cbn [mapM].
  eapply ends_bind; [apply H; left|]. intros b Hb. eapply ends_bind; [apply IH; intros x Hx; apply H; by right|].
  intros bs Hbs. apply ends_ok. by constructor.
Qed.

(** The same for computations with a state. *)
Definition ends_st {A} (m : Sel A) (P : A -> Prop) : Prop := forall i, ends (m i).1 P.

Lemma ends_st_ret {A} (a : A) P : P a -> ends_st (mret a) P.
Proof. intros H i. by apply ends_ok. Qed.

Lemma ends_st_lift {A} (o : Res A) P : ends o P -> ends_st (st_lift o) P.
Proof. by intros H i. Qed.

Lemma ends_st_bind {A B} (m : Sel A) (k : A -> Sel B) P Q : ends_st m P -> (forall a, P a -> ends_st (k a) Q) -> ends_st (m ≫= k) Q.
Proof.
  intros Hm Hk i. specialize (Hm i). unfold mbind, ST_bind. destruct (m i) as [o i']. cbn in Hm.
  destruct Hm as [Hf Ho]. destruct o as [a|e|]; [by apply Hk, Ho|apply ends_throw|done].
Qed.

Lemma ends_st_guard {A} b e (k : Sel A) P : (b = false -> ends_st k P) -> ends_st (st_guard b e ;; k) P.
Proof. intros Hk i. destruct b; [apply ends_throw|by apply Hk]. Qed.

(** ** Signs of doubles *)

Lemma round_aux_nonnegative m e l : nonnegative (binary_round_aux 53 1024 false m e l) = true.
Proof.
  unfold binary_round_aux. destruct (shr_fexp 53 1024 m e l) as [r e']. destruct (shr_fexp _ _ _ _ _) as [r' e''].
  destruct (shr_m r'); [done| |done]. by destruct (e'' <=? _).
Qed.

Lemma double_add_nonnegative x y : nonnegative x = true -> nonnegative y = true -> nonnegative (double_add x y) = true.
Proof.
  destruct x as [[]|[]| |[] mx ex], y as [[]|[]| |[] my ey]; try done. intros _ _. unfold double_add, SFadd. cbn [cond_Zopp].
  rewrite <- Pos2Z.inj_add. cbn [binary_normalize]. unfold binary_round. destruct (shl_align _ _ _). apply round_aux_nonnegative.
Qed.

Lemma double_div_nonnegative x y : nonnegative x = true -> nonnegative y = true -> nonnegative (double_div x y) = true.
Proof.
  destruct x as [[]|[]| |[] mx ex], y as [[]|[]| |[] my ey]; try done. intros _ _. unfold double_div, SFdiv.
  destruct (SFdiv_core_binary _ _ _ _ _ _) as [[mz ez] lz]. apply round_aux_nonnegative.
Qed.

Lemma double_sum_nonnegative l x : nonnegative x = true -> Forall (fun y => nonnegative y = true) l ->
  nonnegative (fold_left (fun sum current => double_add sum current) l x) = true.
Proof. intros Hx Hl. revert x Hx. induction Hl as [|y l Hy Hl IH]; intros x Hx; [done|]. by apply IH, double_add_nonnegative. Qed.

(** ** Rounding up *)

Lemma divideRoundUp_nonneg n d : 0 <= n -> 0 < d -> d * divideRoundUp n d = n + (- n) mod d.
Proof.
  intros Hn Hd. unfold divideRoundUp. destruct (Z.eq_dec n 0) as [->|Hz].
  { cbn [Z.sgn Z.opp]. rewrite Z.mod_0_l by lia. lia. }
  rewrite Z.sgn_pos, Z.abs_eq by lia. rewrite Z.mul_1_l. pose proof (Z.mod_pos_bound (- n) d Hd) as Hm.
  pose proof (Z_div_mod_eq_full (- n) d) as E. replace ((n + d - 1) / d) with (- (- n / d)); [lia|].
  apply (Z.div_unique _ _ _ (d - 1 - (- n) mod d)); lia.
Qed.

Lemma scaleRoundUp_nonneg n e : 0 <= n -> 0 <= scaleRoundUp n e.
Proof.
  intros Hn. unfold scaleRoundUp. destruct (Z.leb_spec 0 e).
  - apply Z.mul_nonneg_nonneg; [done|apply Z.pow_nonneg; lia].
  - pose proof (Z.pow_pos_nonneg 10 (- e) ltac:(lia) ltac:(lia)) as Hp.
    pose proof (divideRoundUp_nonneg n (10 ^ (- e)) Hn Hp). pose proof (Z.mod_pos_bound (- n) (10 ^ (- e)) Hp). nia.
Qed.

Lemma half_up n : 0 <= n -> n - divideRoundUp n 2 = n / 2 /\ 0 <= n / 2 <= divideRoundUp n 2.
Proof.
  intros Hn. pose proof (divideRoundUp_nonneg n 2 Hn ltac:(lia)) as H. generalize dependent (divideRoundUp n 2).
  intros d H. Z.to_euclidean_division_equations. lia.
Qed.

(** ** Digits of an amount *)

Lemma pretty_digits n s : exists k, String.length (pretty_N_go n s) = (k + String.length s)%nat /\
  (n <> 0%N -> (1 <= k)%nat /\ 10 ^ (Z.of_nat k - 1) <= Z.of_N n < 10 ^ Z.of_nat k) /\ (n = 0%N -> k = O).
Proof.
  revert s. induction n as [n IH] using (well_founded_induction N.lt_wf_0). intros s. destruct (decide (n = 0%N)) as [->|Hn].
  { exists O. by rewrite pretty_N_go_0. }
  rewrite pretty_N_go_step by lia. pose proof (N.Div0.div_mod n 10) as E. pose proof (N.mod_lt n 10 ltac:(lia)) as Hm.
  destruct (IH (n `div` 10)%N) with (s := String (pretty_N_char (n `mod` 10)) s) as (k & Ek & H1 & H2).
  { apply N.div_lt; lia. }
  exists (S k). split; [rewrite Ek; cbn [String.length]; lia|]. split; [|done]. intros _. split; [lia|].
  destruct (decide (n `div` 10 = 0)%N) as [Hq|Hq].
  - rewrite (H2 Hq). change (1 <= Z.of_N n < 10). lia.
  - destruct (H1 Hq) as (H3 & H4 & H5). rewrite Nat2Z.inj_succ.
    replace (Z.succ (Z.of_nat k) - 1) with (Z.of_nat k - 1 + 1) by lia. rewrite Z.pow_add_r by lia.
    rewrite Z.pow_succ_r by lia. change (10 ^ 1) with 10.
    generalize dependent (10 ^ (Z.of_nat k - 1)). generalize dependent (10 ^ Z.of_nat k). clear -E Hm.
    generalize dependent (n `div` 10)%N. generalize dependent (n `mod` 10)%N. intros. lia.
Qed.

Lemma amount_digits a : 0 < a -> exists k, Z.of_nat (String.length (pretty a)) - 1 = k /\ 0 <= k /\ 10 ^ k <= a < 10 * 10 ^ k.
Proof.
  destruct a as [|p|p]; [done| |done]. intros _. change (pretty (Zpos p)) with (pretty_N_go (Npos p) "").
  destruct (pretty_digits (Npos p) "") as (k & -> & H & _). destruct (H ltac:(done)) as (H1 & H2 & H3).
  exists (Z.of_nat k - 1). cbn [String.length]. split; [lia|]. split; [lia|]. split; [exact H2|].
  rewrite <- Z.pow_succ_r by lia. by replace (Z.succ (Z.of_nat k - 1)) with (Z.of_nat k) by lia.
Qed.

(** The smallest part: positive, at most the amount, and more than 1/334 of it. *)
Lemma getMinUtxoAmount_bounds a : 0 < a -> 0 < getMinUtxoAmount a <= a /\ a < getMinUtxoAmount a * 334.
Proof.
  intros Ha. destruct (amount_digits a Ha) as (k & E & Hk & H1 & H2). unfold getMinUtxoAmount. rewrite E.
  assert (Hp : k = 0 \/ exists q, 0 < q /\ 10 ^ k = 10 * q).
  { destruct (Z.eq_dec k 0); [by left|right]. exists (10 ^ (k - 1)). split; [apply Z.pow_pos_nonneg; lia|].
    rewrite <- Z.pow_succ_r by lia. f_equal. lia. }
  destruct Hp as [->|(q & Hq & Eq)]; [change (10 ^ 0) with 1 in *; change (divideRoundUp (1 * 3) 100) with 1; lia|].
  rewrite Eq in *. pose proof (divideRoundUp_nonneg (10 * q * 3) 100 ltac:(lia) ltac:(lia)).
  pose proof (Z.mod_pos_bound (- (10 * q * 3)) 100 ltac:(lia)). lia.
Qed.

Lemma getMinUtxoAmount_positive a : 0 < getMinUtxoAmount a.
Proof.
  unfold getMinUtxoAmount. assert (0 <= Z.of_nat (String.length (pretty a)) - 1) as Hk.
  { destruct a as [|p|p]; [done| |change (pretty (Zneg p)) with (String "-" (pretty (Npos p))); cbn [String.length]; lia].
    destruct (amount_digits (Zpos p) ltac:(done)) as (k & -> & ? & _). done. }
  generalize dependent (Z.of_nat (String.length (pretty a)) - 1). intros k Hk.
  pose proof (Z.pow_pos_nonneg 10 k ltac:(lia) Hk). pose proof (divideRoundUp_nonneg (10 ^ k * 3) 100 ltac:(lia) ltac:(lia)).
  pose proof (Z.mod_pos_bound (- (10 ^ k * 3)) 100 ltac:(lia)). lia.
Qed.

(** ** Splitting an output *)

Lemma outValues_cons o l : outValues (o :: l) = value o :: outValues l.
Proof. done. Qed.

Lemma outValues_app l k : outValues (l ++ k) = outValues l ++ outValues k.
Proof. apply fmap_app. Qed.

Section splitting.
Context (computeMin : TxOut -> Z) (fee : Z).

Lemma splitLoop_ends o fuel small remaining running : (1 <= fuel)%nat -> 0 < small -> 0 <= remaining ->
  remaining < small * 2 ^ Z.of_nat fuel -> remaining + running = coins (value o) ->
  ends (splitLoop computeMin fee o fuel small remaining running) (fun amounts =>
    zsum amounts = (if small <=? remaining then remaining else 0) /\ Forall (fun a => 0 < a) amounts /\ (length amounts <= fuel)%nat).
Proof.
  revert remaining running. induction fuel as [|fuel IH]; [lia|]. intros r k _ Hs Hr Hb E. cbn [splitLoop].
  destruct (Z.leb_spec small r); [|apply ends_ok; split_and!; [done|constructor|cbn; lia]].
  destruct (half_up r Hr) as [Eh Hh]. rewrite Eh. destruct (_ || _) eqn:Eo.
  { apply ends_ok. replace (coins (value o) - k) with r by lia. cbn. split_and!; [lia|repeat constructor; lia|lia]. }
  apply orb_false_iff in Eo as [Eo _]. zb. rewrite Nat2Z.inj_succ, Z.pow_succ_r in Hb by lia.
  assert (Hlt : r / 2 < small * 2 ^ Z.of_nat fuel) by (apply Z.div_lt_upper_bound; lia).
  destruct fuel as [|fuel]; [change (2 ^ Z.of_nat 0) with 1 in Hlt; lia|].
  eapply ends_bind; [apply IH; [lia|done|lia|done|lia]|]. intros amounts (Hz & Hp & Hl). apply ends_ok.
  rewrite (proj2 (Z.leb_le small (r / 2))) in Hz by lia. cbn [zsum foldr]. fold (zsum amounts). split_and!; [lia| |cbn; lia].
  constructor; [lia|done].
Qed.

(** What the parts of an output are. *)
Record parts_of (o : TxOut) (parts : list TxOut) : Prop := {
  parts_coins : totalCoins (outValues parts) = Z.max 0 (coins (value o));
  parts_positive : Forall (fun p => 0 < coins (value p)) parts;
  parts_same : Forall (fun p => address p = address o /\ assets (value p) = assets (value o)) parts;
  parts_few : (length parts <= 9)%nat
}.

Lemma splitChangeOutput_ends o : ends (splitChangeOutput computeMin fee o) (parts_of o).
Proof.
  unfold splitChangeOutput. set (a := coins (value o)).
  assert (Hm : forall amounts, totalCoins (outValues (map (fun c => mkTxOut (address o) {| assets := assets (value o); coins := c |}) amounts)) = zsum amounts).
  { intros l. induction l as [|x l IH]; [done|]. cbn [map]. rewrite outValues_cons, totalCoins_cons, IH. done. }
  destruct (Z.ltb_spec 0 a) as [Ha|Ha].
  - destruct (getMinUtxoAmount_bounds a Ha) as [Hb Hc]. eapply ends_bind.
    { apply (splitLoop_ends o splitFuel (getMinUtxoAmount a) a 0); unfold splitFuel; fold a; lia. }
    cbv beta. rewrite (proj2 (Z.leb_le _ a)) by lia. intros amounts (Hz & Hp & Hl). apply ends_ok. split.
    + rewrite Hm, Hz. fold a. lia.
    + apply Forall_map. by eapply Forall_impl.
    + apply Forall_map, Forall_true. done.
    + by rewrite length_map.
  - pose proof (getMinUtxoAmount_positive a) as Hpos. unfold splitFuel. cbn [splitLoop].
    rewrite (proj2 (Z.leb_gt _ a)) by lia. apply ends_ok. split; [cbn; fold a; lia|constructor|constructor|cbn; lia].
Qed.

Lemma splitOutputs_ends outs : ends (mapM (splitChangeOutput computeMin fee) outs) (fun ls =>
  totalCoins (outValues (concat ls)) = zsum ((fun o => Z.max 0 (coins (value o))) <$> outs) /\
  Forall (fun p => 0 < coins (value p) /\ exists o, o ∈ outs /\ address p = address o /\ assets (value p) = assets (value o)) (concat ls)).
Proof.
  eapply ends_weaken; [apply ends_mapM; intros o _; apply splitChangeOutput_ends|]. cbv beta.
  induction 1 as [|o parts outs ls [H1 H2 H3 _] _ [IH1 IH2]]; [by split|]. cbn [concat]. split.
  - rewrite outValues_app, totalCoins_app, IH1, H1. done.
  - apply Forall_app. split.
    + apply Forall_and. split; [done|]. eapply Forall_impl; [exact H3|]. intros p [? ?]. exists o. split; [left|done].
    + eapply Forall_impl; [exact IH2|]. intros p (? & o' & ? & ?). split; [done|]. exists o'. split; [by right|done].
Qed.
End splitting.

(** ** Distributing assets *)

Lemma Forall_same {A B} (f : A -> B) (P : B -> Prop) l k : f <$> l ≡ₚ f <$> k ->
  Forall (fun x => P (f x)) k -> Forall (fun x => P (f x)) l.
Proof.
  rewrite !Forall_forall. intros E H x Hx. destruct (proj1 (list_elem_of_fmap f k (f x))) as (y & -> & Hy); [|by apply H].
  rewrite <- E. by apply list_elem_of_fmap_2.
Qed.

Section distributing.
Context `{LodashLaws} (computeMin : TxOut -> Z) (exceedsLimit : TokenMap -> bool) (fee : Z).

Definition fitting (o : TxOut) : Prop := match assets (value o) with Some m => exceedsLimit m = false | None => True end.

Definition out_ok (o : TxOut) : Prop := value_ok (value o).

Abbreviation paid o := (address o, coins (value o)).

(** The outputs get the assets, and nothing else about them changes. *)
Record distributed (outs : list TxOut) (m : TokenMap) (r : list TxOut) : Prop := {
  dist_same : (fun o => paid o) <$> r ≡ₚ (fun o => paid o) <$> outs;
  dist_qty i : totalQty i (outValues r) = totalQty i (outValues outs) + getOr0 m i;
  dist_fits : Forall fitting r;
  dist_ok : Forall out_ok r
}.

Lemma withAssets_add o k q i : out_ok o ->
  qty i (value (withAssets o (addTokenMaps (assets (value o)) (Some [(k, q)])))) =
  qty i (value o) + (if decide (k = i) then q else 0).
Proof.
  intros Ho. unfold qty. cbn [withAssets value assets]. rewrite addTokenMaps_quantity; [|done|cbn; apply NoDup_singleton].
  cbn [quantity]. rewrite getOr0_cons. done.
Qed.

Lemma distributeLoop_ends fuel m i avail full : map_ok m -> (length m + length avail <= fuel)%nat -> avail <> [] ->
  Forall fitting (avail ++ full) -> Forall out_ok (avail ++ full) ->
  ends (distributeLoop computeMin exceedsLimit fee fuel m i avail full) (distributed (avail ++ full) m).
Proof.
  revert m i avail full. induction fuel as [|fuel IH]; intros m i avail full Hm Hf Hne Hfit Hok.
  { destruct m, avail; cbn in Hf; try lia. done. }
  destruct m as [|[k q] m]; cbn [distributeLoop]; [apply ends_ok; split; try done; intros j; cbn; lia|].
  apply map_ok_cons in Hm as [Hk Hm]. set (ix := Z.to_nat (i mod zlen avail)).
  assert (Hix : (ix < length avail)%nat).
  { unfold ix. assert (0 < zlen avail) by (unfold zlen; destruct avail; [done|cbn; lia]).
    pose proof (Z.mod_pos_bound i (zlen avail) ltac:(lia)). unfold zlen in *. lia. }
  destruct (lookup_lt_is_Some_2 avail ix Hix) as [o Eo]. rewrite Eo.
  rewrite <- (take_drop_middle avail ix o Eo) in Hfit, Hok. pose proof (take_drop_middle avail ix o Eo) as Esplit.
  assert (Ea : avail ++ full = (take ix avail ++ o :: drop (S ix) avail) ++ full) by (by rewrite Esplit).
  assert (Hoo : out_ok o) by (rewrite !Forall_app, Forall_cons in Hok; tauto).
  destruct (isValidValue _ _ _ _) eqn:Ev; cbn [negb].
  - rewrite (proj2 (Z.eqb_neq _ 0)) by (unfold zlen; rewrite length_insert; lia).
    set (o' := withAssets o _) in *. assert (Efold : JsMap.delete ((k, q) :: m) k = m).
    { cbn. rewrite decide_True by done. done. }
    rewrite Efold. assert (Ho' : fitting o' /\ out_ok o').
    { split.
      - unfold isValidValue in Ev. unfold fitting. destruct (assets (value o')); [|done].
        apply andb_true_iff in Ev as [_ Ev]. by destruct (exceedsLimit _).
      - apply addTokenMaps_ok; [done|]. cbn. apply NoDup_singleton. }
    rewrite insert_take_drop by done. eapply ends_weaken; [apply IH; [done| | | |]|].
    + cbn in Hf. rewrite length_app, length_take, length_cons, length_drop. lia.
    + by destruct (take ix avail).
    + rewrite !Forall_app, !Forall_cons in *. tauto.
    + rewrite !Forall_app, !Forall_cons in *. tauto.
    + intros r [H1 H2 H3 H4]. split; [|intros j|done|done].
      * rewrite H1, Ea, !fmap_app, !fmap_cons. done.
      * rewrite H2, Ea. rewrite !outValues_app, !outValues_cons, !totalQty_app, !totalQty_cons, getOr0_cons.
        unfold o'. rewrite withAssets_add by done. case_decide; [subst; rewrite getOr0_absent by done|]; lia.
  - destruct (zlen _ =? 0) eqn:Ez; [apply ends_throw|]. zb. eapply ends_weaken; [apply IH; [by apply map_ok_cons| | | |]|].
    + cbn in *. rewrite length_app, length_take, length_drop. lia.
    + intros E. by rewrite E in Ez.
    + rewrite !Forall_app, !Forall_cons, Forall_nil in *. tauto.
    + rewrite !Forall_app, !Forall_cons, Forall_nil in *. tauto.
    + assert (Hp : (take ix avail ++ drop (S ix) avail) ++ full ++ [o] ≡ₚ avail ++ full).
      { rewrite Ea, <- !app_assoc. apply Permutation_app_head. cbn. rewrite app_assoc.
        rewrite <- Permutation_cons_append. done. }
      intros r [H1 H2 H3 H4]. split; [by rewrite H1, Hp| |done|done].
      intros j. rewrite H2. unfold outValues. by rewrite Hp.
Qed.
End distributing.

(** ** Allocating the coins *)

Section allocation.
Context `{BigNumberLaws} (total : Z) (total_nonneg : 0 <= total).

(** What an output is worth: the splitting drops those that are not positive. *)
Definition worth (outs : list TxOut) : Z := zsum ((fun o => Z.max 0 (coins (value o))) <$> outs).

Lemma worth_app a b : worth (a ++ b) = worth a + worth b.
Proof. unfold worth. by rewrite fmap_app, zsum_app. Qed.

Definition fresh (addresses : list string) (o : TxOut) : Prop := address o ∈ addresses /\ assets (value o) = None.

Lemma allocate_ends pcts addrs running : Forall (fun kv => nonnegative kv.2 = true) pcts -> 0 <= running ->
  ends (allocate total pcts addrs running) (fun '(outs, final) =>
    running <= final /\ worth outs = Z.min final total - Z.min running total /\
    (final <= total -> Forall (fun o => 0 <= coins (value o)) outs) /\ Forall (fresh addrs) outs /\ length outs = length addrs).
Proof.
  intros Hp. revert running. induction addrs as [|a addrs IH]; intros running Hr; cbn [allocate].
  { apply ends_ok. split_and!; [lia|cbn; lia|done|constructor|done]. }
  destruct (JsMap.get pcts a) as [x|] eqn:Eg; [|apply ends_throw]. apply get_Some_elem in Eg.
  rewrite Forall_forall in Hp. specialize (Hp _ Eg). cbn in Hp.
  destruct (BigNumber_of x) as [[m e]|] eqn:Ex; [|apply ends_throw]. pose proof (BigNumber_sign x m e Hp Ex) as Hm.
  pose proof (scaleRoundUp_nonneg (total * m) e ltac:(lia)) as Ha. set (al := scaleRoundUp _ _) in *.
  eapply ends_bind; [apply (IH (running + al)); lia|]. intros [outs final] (H1 & H2 & H3 & H4 & H5). apply ends_ok.
  split_and!; [lia| | | |cbn; lia].
  - change (worth (?o :: outs)) with (Z.max 0 (coins (value o)) + worth outs). rewrite H2. cbn [mkTxOut value coins].
    destruct (Z.ltb_spec total (running + al)); lia.
  - intros Hf. constructor; [|by apply H3]. cbn. destruct (Z.ltb_spec total (running + al)); lia.
  - constructor; [split; [left|done]|]. eapply Forall_impl; [exact H4|]. intros o [? ?]. split; [by right|done].
Qed.

Lemma addToLast_ends c outs : 0 <= c -> Forall (fun o => 0 <= coins (value o)) outs -> ends (addToLast c outs) (fun r =>
  worth r = worth outs + c /\ (fun o => (address o, assets (value o))) <$> r = (fun o => (address o, assets (value o))) <$> outs).
Proof.
  intros Hc Ho. unfold addToLast. destruct (reverse outs) as [|o front] eqn:E; [apply ends_throw|].
  assert (Eo : outs = reverse front ++ [o]) by (rewrite <- reverse_cons, <- E, reverse_involutive; done).
  subst outs. apply Forall_app in Ho as [_ Ho]. apply Forall_cons in Ho as [Ho _]. apply ends_ok. split.
  - rewrite !worth_app. cbn. lia.
  - rewrite !fmap_app. done.
Qed.

Lemma shares_ends l : NoDup (JsMap.keys l) -> Forall (fun kv => nonnegative kv.2 = true) l -> ends (shares l) (fun pcts =>
  JsMap.keys pcts = JsMap.keys l /\ Forall (fun kv => nonnegative kv.2 = true) pcts).
Proof.
  intros Hn Hl. unfold shares. set (f := fun kv : string * number => _).
  assert (Hk : JsMap.keys (f <$> l) = JsMap.keys l) by (unfold JsMap.keys; by rewrite <- list_fmap_compose).
  rewrite of_entries_nodup by (unfold JsMap.wf; by rewrite Hk). case_bool; [apply ends_throw|]. apply ends_ok. split; [done|].
  apply Forall_fmap. eapply Forall_impl; [exact Hl|]. intros kv Hkv. cbn. apply double_div_nonnegative; [done|].
  apply double_sum_nonnegative; [done|]. unfold JsMap.values. by apply Forall_fmap.
Qed.
End allocation.

(** ** Splitting the change *)

Section change.
Context {LD : Lodash} {LL : LodashLaws} {BN : BigNumber} {BL : BigNumberLaws} (cs : SelectionConstraints).
Abbreviation computeMin := (computeMinimumCoinQuantity cs).
Abbreviation exceeds := (tokenBundleSizeExceedsLimit cs).

Definition fits (o : TxOut) : Prop := match assets (value o) with Some m => m = [] \/ exceeds m = false | None => True end.

(** What change outputs are, made from coins and assets for some addresses. *)
Record change_for (addresses : list string) (total : Z) (m : option TokenMap) (outs : list TxOut) : Prop := {
  cf_coins : totalCoins (outValues outs) = total;
  cf_positive : Forall (fun o => 0 < coins (value o)) outs;
  cf_assets : outs <> [] -> forall i, totalQty i (outValues outs) = quantity m i;
  cf_addresses : Forall (fun o => address o ∈ addresses) outs;
  cf_fits : Forall fits outs
}.

Lemma no_assets_totals outs i : Forall (fun o => assets (value o) = None) outs -> totalQty i (outValues outs) = 0.
Proof. induction 1 as [|o outs Ho _ IH]; [done|]. rewrite outValues_cons, totalQty_cons, IH. unfold qty. by rewrite Ho. Qed.

Lemma coalesce_nonempty k q m outs : Forall (fun o => assets (value o) = None) outs ->
  assets (coalesceValueQuantities (({| coins := k; assets := Some (q :: m) |} : Value) :: outValues outs)) <> None /\
  assets (coalesceValueQuantities (({| coins := k; assets := Some (q :: m) |} : Value) :: outValues outs)) <> Some [].
Proof.
  intros Ho. cbn [coalesceValueQuantities assets fmap list_fmap]. rewrite coalesceTokenMaps_eq.
  assert (E : omap id (assets <$> outValues outs) = []).
  { induction Ho as [|o outs Ho _ IH]; [done|]. cbn. by rewrite Ho. }
  change (omap _ (Some (q :: m) :: ?l)) with ((q :: m) :: omap id l). rewrite E.
  assert (Hk : q.1 ∈ JsMap.keys (fold_left addTo (q :: m) [])) by (apply addTo_keys; right; left).
  change (coalesced [q :: m]) with (fold_left addTo (q :: m) []). destruct (fold_left addTo (q :: m) []); [by apply elem_of_nil in Hk|]. done.
Qed.

Lemma distributeAssets_ends fee addresses total m outs : m <> [] -> map_ok m ->
  totalCoins (outValues outs) = total -> Forall (fun o => 0 < coins (value o) /\ fresh addresses o) outs ->
  ends (distributeAssets computeMin exceeds fee (setFirstAssets (Some m) outs)) (change_for addresses total (Some m)).
Proof.
  intros Hm Hok Ht Ho. unfold distributeAssets. destruct outs as [|o outs].
  { apply ends_ok. split; [done|constructor|done|constructor|constructor]. }
  cbn [setFirstAssets]. rewrite (proj2 (Z.eqb_neq _ 0)) by (rewrite zlen_cons; pose proof (zlen_nonneg outs); lia).
  apply Forall_and in Ho as [Hp Hf]. assert (Hn : Forall (fun o => assets (value o) = None) (o :: outs)).
  { eapply Forall_impl; [exact Hf|]. by intros ? []. }
  apply Forall_cons in Hn as [Hno Hn]. set (os := withAssets o (Some m) :: outs).
  assert (Hq : forall i, quantity (assets (coalesceValueQuantities (outValues os))) i = getOr0 m i).
  { intros i. change (qty i (coalesceValueQuantities (outValues os)) = getOr0 m i). rewrite coalesceValueQuantities_qty.
    - unfold os. rewrite outValues_cons, totalQty_cons, no_assets_totals by done. unfold qty. cbn. lia.
    - unfold os. rewrite outValues_cons. constructor; [done|]. unfold outValues. apply Forall_fmap.
      eapply Forall_impl; [exact Hn|]. intros o' E. unfold value_ok. cbn. by rewrite E. }
  assert (Hck : assets_ok (assets (coalesceValueQuantities (outValues os)))) by apply coalesceTokenMaps_ok.
  destruct m as [|kq m]; [done|]. destruct (coalesce_nonempty (coins (value o)) kq m outs Hn) as [Hc1 Hc2].
  change ({| coins := coins (value o); assets := Some (kq :: m) |} :: outValues outs) with (outValues os) in Hc1, Hc2.
  destruct (assets (coalesceValueQuantities (outValues os))) as [[|kq' m']|]; [done| |done].
  eapply ends_weaken; [apply distributeLoop_ends; [done|rewrite length_fmap; unfold os; cbn; lia|done|..]|].
  1,2: rewrite app_nil_r; apply Forall_fmap, Forall_true; done.
  rewrite app_nil_r. intros r [H1 H2 H3 H4]. rewrite <- list_fmap_compose in H1.
  assert (Hv : (fun o => coins (value o)) <$> r ≡ₚ (fun o => coins (value o)) <$> o :: outs).
  { apply (fmap_Permutation snd) in H1. rewrite <- !list_fmap_compose in H1. exact H1. }
  assert (Ha : (fun o => address o) <$> r ≡ₚ (fun o => address o) <$> o :: outs).
  { apply (fmap_Permutation fst) in H1. rewrite <- !list_fmap_compose in H1. exact H1. }
  split.
  - rewrite <- Ht. unfold totalCoins, outValues. rewrite <- !list_fmap_compose. by apply zsum_permutation.
  - by eapply (Forall_same (fun o => coins (value o)) (fun c => 0 < c)).
  - intros _ i. rewrite H2, no_assets_totals by (apply Forall_fmap, Forall_true; done). apply (Hq i).
  - apply (Forall_same (fun o => address o) (fun a => a ∈ addresses) _ _ Ha). eapply Forall_impl; [exact Hf|]. by intros ? [].
  - eapply Forall_impl; [exact H3|]. intros x. unfold fitting, fits. destruct (assets (value x)); [by right|done].
Qed.

Lemma filter_positive outs : Forall (fun o => 0 < coins (value o)) outs -> filter (fun o => 0 < coins (value o)) outs = outs.
Proof. apply filter_all. Qed.

Lemma splitChangeFor_ends fee total m l : 0 <= total -> assets_ok m -> NoDup (JsMap.keys l) ->
  Forall (fun kv => nonnegative kv.2 = true) l ->
  ends (splitChangeFor computeMin exceeds fee total m l) (change_for (JsMap.keys l) total m).
Proof.
  intros Ht Hm Hn Hl. unfold splitChangeFor. eapply ends_bind; [by apply shares_ends|]. cbv beta. intros pcts [Ek Hp].
  eapply ends_bind; [by apply allocate_ends|]. cbv beta. intros [outs final] (H1 & H2 & H3 & H4 & _). rewrite Ek in H4.
  assert (Hlast : ends (if final <? total then addToLast (total - final) outs else Ok outs) (fun r =>
    worth r = total /\ Forall (fresh (JsMap.keys l)) r)).
  { destruct (Z.ltb_spec final total); [|apply ends_ok; split; [lia|done]]. eapply ends_weaken.
    { apply addToLast_ends; [lia|apply H3; lia]. }
    intros r [Hw He]. split; [lia|]. revert He H4. clear. revert outs. induction r as [|o r IH]; intros [|o' outs]; try done.
    cbn. intros [= E1 E2 E3] Hf. apply Forall_cons in Hf as [[Hf1 Hf2] Hf]. constructor; [by split; rewrite ?E1, ?E2|].
    by eapply IH. }
  eapply ends_bind; [exact Hlast|]. cbv beta. intros outs' [Hw Hf].
  eapply ends_bind; [apply splitOutputs_ends|]. cbv beta. intros ls [Hc Hparts]. fold (worth outs') in Hc. rewrite Hw in Hc.
  pose proof (Array_sort_perm sortByCoins (concat ls)) as Hs.
  assert (Hpf : Forall (fun o => 0 < coins (value o) /\ fresh (JsMap.keys l) o) (Array_sort sortByCoins (concat ls))).
  { rewrite Hs. eapply Forall_impl; [exact Hparts|]. intros p (Hpos & o & Ho & Ea & Es). split; [done|].
    rewrite Forall_forall in Hf. destruct (Hf o Ho). split; congruence. }
  pose proof Hpf as [Hpos Hfr]%Forall_and. rewrite filter_positive by done.
  assert (Hcs : totalCoins (outValues (Array_sort sortByCoins (concat ls))) = total) by (unfold outValues in *; by rewrite Hs).
  set (sorted := Array_sort _ _) in *. destruct m as [[|kq m]|]; [|by apply distributeAssets_ends|]; apply ends_ok.
  all: assert (Hn' : Forall (fun o => assets (value o) = None) sorted) by (eapply Forall_impl; [exact Hfr|]; by intros ? []).
  all: assert (Ha' : Forall (fun o => address o ∈ JsMap.keys l) sorted) by (eapply Forall_impl; [exact Hfr|]; by intros ? []).
  all: destruct sorted as [|o rest]; [split; [done|constructor|done|constructor|constructor]|]; cbn [setFirstAssets].
  all: apply Forall_cons in Hpos as [Hpo Hpr], Ha' as [Hao Har], Hn' as [Hno Hnr].
  all: split; [done|by constructor| |by constructor|].
  1,3: intros _ i; rewrite outValues_cons, totalQty_cons, no_assets_totals by done; done.
  all: constructor; [by try left|]; eapply Forall_impl; [exact Hnr|]; intros x E; unfold fits; by rewrite E.
Qed.
(** ** The fee *)

Lemma payFee_ok fee outs r b : payFee computeMin fee outs = (r, b) ->
  (b = true -> totalCoins (outValues r) = totalCoins (outValues outs) - fee) /\
  (forall i, totalQty i (outValues r) = totalQty i (outValues outs)) /\
  (forall P : TxOut -> Prop, (forall o c, P o -> P (withCoins o c)) -> Forall P outs -> Forall P r).
Proof.
  revert r b. induction outs as [|o outs IH]; intros r b; cbn [payFee]; [by intros [= <- <-]|]. case_bool.
  - intros [= <- <-]. split_and!.
    + intros _. rewrite !outValues_cons, !totalCoins_cons. cbn. lia.
    + intros i. by rewrite !outValues_cons, !totalQty_cons.
    + intros P HP [Ho Hr]%Forall_cons. constructor; auto.
  - destruct (payFee computeMin fee outs) as [rest paid]. intros [= <- <-]. destruct (IH _ _ eq_refl) as (H1 & H2 & H3). split_and!.
    + intros E. rewrite !outValues_cons, !totalCoins_cons, H1 by done. lia.
    + intros i. by rewrite !outValues_cons, !totalQty_cons, H2.
    + intros P HP [Ho Hr]%Forall_cons. constructor; auto.
Qed.

(** What the fee loop settles on. *)
Record settled (addresses : list string) (total : Z) (m : option TokenMap) (a : Adjusted) : Prop := {
  st_coins : totalCoins (outValues (adjustedChange a)) + adjustedFee a = total;
  st_assets i : totalQty i (outValues (adjustedChange a)) = quantity m i;
  st_minimum : Forall (fun o => computeMin o <= coins (value o)) (adjustedChange a);
  st_fee : 0 <= adjustedFee a;
  st_addresses : Forall (fun o => address o ∈ stubMaxSizeAddress :: addresses) (adjustedChange a);
  st_fits : (forall o, 0 < computeMin o) -> Forall fits (adjustedChange a) /\ Forall (fun o => address o ∈ addresses) (adjustedChange a)
}.

Context (ins : list Utxo) (outs : list TxOut).
Context (cost_ok : forall sk, ends (computeMinimumCost cs sk) (fun c => 0 <= costFee c)).

Lemma adjust_ends addresses total m chg current : change_for addresses total m chg ->
  ends (adjustOutputsForFee total cs ins outs chg current) (fun a => 0 <= adjustedFee a /\
    (adjustedFee a < total -> (feeAccountedFor a = true -> totalCoins (outValues (adjustedChange a)) + adjustedFee a = total) /\
       (forall i, totalQty i (outValues (adjustedChange a)) = quantity m i) /\
       Forall fits (adjustedChange a) /\ Forall (fun o => address o ∈ addresses) (adjustedChange a)) /\ adjustedFee a <= total).
Proof.
  intros [H1 H2 H3 H4 H5]. unfold adjustOutputsForFee. eapply ends_bind; [apply cost_ok|]. cbv beta. intros c Hc.
  destruct (Z.eqb_spec (costFee c) total); [apply ends_ok; cbn; split_and!; [lia|lia|lia]|].
  destruct (Z.ltb_spec total (costFee c)); [apply ends_throw|].
  pose proof (Array_sort_perm sortByCoins chg) as Hs. destruct (payFee _ _ _) as [r b] eqn:E.
  destruct (payFee_ok _ _ _ _ E) as (P1 & P2 & P3). apply ends_ok. cbn [adjustedFee adjustedChange feeAccountedFor].
  assert (Hv : outValues (Array_sort sortByCoins chg) ≡ₚ outValues chg) by (unfold outValues; by rewrite Hs).
  split; [done|]. split; [|lia]. intros Hlt. split_and!.
  - intros Hb. rewrite P1, Hv by done. lia.
  - intros i. rewrite P2, Hv. apply H3. intros ->. cbn in H1. lia.
  - apply P3; [by intros o c' Ho|]. by rewrite Hs.
  - apply P3; [by intros o c' Ho|]. by rewrite Hs.
Qed.

Context (getChangeAddresses : nat -> Res (list (string * number))) (addresses : list string).
Context (addresses_ok : forall n, ends (getChangeAddresses n) (fun l =>
  NoDup (JsMap.keys l) /\ Forall (fun kv => nonnegative kv.2 = true) l /\ forall a, a ∈ JsMap.keys l -> a ∈ addresses)).

Lemma change_for_mono A B total m chg : (forall a, a ∈ A -> a ∈ B) -> change_for A total m chg -> change_for B total m chg.
Proof. intros H [H1 H2 H3 H4 H5]. split; try done. eapply Forall_impl; [exact H4|]. cbn. auto. Qed.

Lemma splitChange_ends total m fee : 0 <= total -> assets_ok m ->
  ends_st (splitChange getChangeAddresses total m cs fee) (change_for addresses total m).
Proof.
  intros Ht Hm i. unfold splitChange. unfold st_get, st_put, st_lift, mbind, ST_bind. cbn.
  destruct (addresses_ok i) as [Hf Ho].
  destruct (getChangeAddresses i) as [l|e|]; [|apply ends_throw|done]. destruct (Ho l eq_refl) as (Hn & Hl & Ha).
  eapply ends_weaken; [by apply splitChangeFor_ends|]. intros r. by apply change_for_mono.
Qed.

Lemma existsb_belowMinimum l : existsb (belowMinimum cs) l = false -> Forall (fun o => computeMin o <= coins (value o)) l.
Proof.
  induction l as [|o l IH]; cbn; [constructor|]. intros [H1 H2]%orb_false_iff. unfold belowMinimum in H1. zb.
  constructor; [done|auto].
Qed.

Theorem fee_loop_settles total m fuel fee : 0 <= total -> assets_ok m -> (Z.to_nat (total - fee) < fuel)%nat ->
  ends_st (splitChangeAndComputeFee getChangeAddresses ins outs total m cs fuel fee) (settled addresses total m).
Proof.
  intros Ht Hm. revert fee. induction fuel as [|fuel IH]; [lia|]. intros fee Hf. cbn [splitChangeAndComputeFee].
  eapply ends_st_bind; [by apply splitChange_ends|]. intros chg Hchg.
  eapply ends_st_bind; [apply ends_st_lift; by apply adjust_ends|]. cbv beta. intros a (Ha0 & Ha1 & Ha2).
  destruct (Z.leb_spec total (adjustedFee a)).
  { set (stub := mkTxOut stubMaxSizeAddress _). apply ends_st_guard. unfold belowMinimum. intros Hb. zb. apply ends_st_ret.
    split; cbn [adjustedChange adjustedFee].
    - rewrite outValues_cons, totalCoins_cons. cbn. lia.
    - intros i. rewrite outValues_cons, totalQty_cons. cbn. unfold qty. cbn. unfold totalQty. cbn. lia.
    - repeat constructor. exact Hb.
    - done.
    - repeat constructor.
    - intros Hpos. specialize (Hpos stub). cbn in Hb, Hpos. lia. }
  eapply (ends_st_bind _ _ (fun a' => settled addresses total m a' \/ a' = a)).
  { destruct (Z.ltb_spec fee (adjustedFee a)); [|apply ends_st_ret; by right].
    eapply ends_st_bind; [apply IH; lia|]. intros r Hr. apply ends_st_guard. intros _. apply ends_st_ret. by left. }
  intros a' Ha'. apply ends_st_guard. intros Hmin%existsb_belowMinimum. apply ends_st_guard. intros Hp. apply ends_st_ret.
  destruct Ha' as [?| ->]; [done|]. apply negb_false_iff in Hp. destruct (Ha1 ltac:(lia)) as (H1 & H2 & H3 & H4). split; auto.
  eapply Forall_impl; [exact H4|]. cbv beta. intros o Ho. by right.
Qed.
End change.

(** ** The selector *)

(** A successful selection. *)
Record greedy_ok (addresses : list string) (p : InputSelectionParameters) (r : SelectionResult) : Prop := {
  gr_balanced : tx_balanced (implicitValue p) (selection r);
  gr_outputs : outputs (selection r) = paramOutputs p;
  gr_inputs : inputs (selection r) ≡ₚ preSelectedUtxo p ++ utxo p;
  gr_remaining : remainingUTxO r = [];
  gr_sorted : StronglySorted txIn_le (inputs (selection r));
  gr_change : Forall (fun o => computeMinimumCoinQuantity (constraints p) o <= coins (value o) /\ hasValue o = true) (change (selection r));
  gr_places : (forall o, 0 < computeMinimumCoinQuantity (constraints p) o) ->
    Forall (fun o => address o ∈ addresses /\ fits (constraints p) o) (change (selection r))
}.

Lemma outs_ok outs : Forall value_nonneg (outValues outs) -> Forall value_ok (outValues outs).
Proof. intros H. eapply Forall_impl; [exact H|]. by intros v (_ & Hv & _). Qed.

Lemma utxos_ok us : Forall utxo_ok us -> Forall value_ok (utxoValues us).
Proof. intros H. unfold utxoValues. apply Forall_fmap. eapply Forall_impl; [exact H|]. by intros u (_ & Hv & _). Qed.

Lemma hasValue_totals outs : Forall (fun o => 0 <= coins (value o)) outs ->
  same_totals (outValues (filter (fun o => hasValue o = true) outs)) (outValues outs).
Proof.
  induction 1 as [|o outs Ho _ [IH1 IH2]]; [done|]. rewrite filter_cons. case_decide as Hv.
  - split; [|intros i]; rewrite !outValues_cons; [rewrite !totalCoins_cons|rewrite !totalQty_cons]; [lia|by rewrite IH2].
  - apply not_true_is_false in Hv. apply orb_false_iff in Hv as [Hc Ha]. zb.
    assert (Hq : forall i, qty i (value o) = 0).
    { intros i. unfold qty. destruct (assets (value o)) as [m|]; [|done]. unfold JsMap.size in Ha.
      pose proof (zlen_nonneg m). assert (m = []) as -> by (apply zlen_0; lia). done. }
    split; [|intros i]; rewrite outValues_cons; [rewrite totalCoins_cons|rewrite totalQty_cons, Hq]; [lia|by rewrite IH2].
Qed.

Section theorems.
Context {LD : Lodash} {LL : LodashLaws} {BN : BigNumber} {BL : BigNumberLaws}.
Context (getChangeAddresses : nat -> Res (list (string * number))) (addresses : list string).
Context (addresses_ok : forall n, ends (getChangeAddresses n) (fun l =>
  NoDup (JsMap.keys l) /\ Forall (fun kv => nonnegative kv.2 = true) l /\ forall a, a ∈ JsMap.keys l -> a ∈ addresses)).
Context (p : InputSelectionParameters) (Hp : params_ok p).
Context (minimum_ok : forall o, 0 <= computeMinimumCoinQuantity (constraints p) o).

Let all := utxo p ++ preSelectedUtxo p.

Lemma all_perm : all ≡ₚ preSelectedUtxo p ++ utxo p.
Proof. apply Permutation_app_comm. Qed.

Lemma greedyChange_ok : let '(i, o, m) := greedyChange all p in
  i = totalCoins (utxoValues all) + input (requiredCoin (implicitValue p)) /\
  o = totalCoins (outValues (paramOutputs p)) + deposit (requiredCoin (implicitValue p)) /\ assets_ok m /\
  forall k, quantity m k = totalQty k (utxoValues all) + getOr0 (mintOf (implicitValue p)) k - totalQty k (outValues (paramOutputs p)).
Proof.
  assert (Hu : Forall value_ok (utxoValues all)) by (apply utxos_ok; rewrite all_perm; apply (po_utxo p Hp)).
  pose proof (outs_ok _ (po_outs p Hp)) as Ho. unfold greedyChange. rewrite !getCoinQuantity_total.
  assert (Hau : assets_ok (assets (coalesceValueQuantities (utxoValues all)))) by apply coalesceTokenMaps_ok.
  assert (Hao : assets_ok (assets (coalesceValueQuantities (outValues (paramOutputs p))))) by apply coalesceTokenMaps_ok.
  assert (Hadd : assets_ok (addTokenMaps (assets (coalesceValueQuantities (utxoValues all))) (Some (mintOf (implicitValue p))))).
  { apply addTokenMaps_ok; [done|apply (po_mint p Hp)]. }
  split_and!; [done|done| |].
  - unfold assets_ok. destruct (subtractMaps _ _) as [m|] eqn:E; [|done]. by apply subtractMaps_canonical in E as [].
  - intros k. rewrite subtractMaps_quantity, addTokenMaps_quantity by first [done|apply (po_mint p Hp)].
    pose proof (coalesceValueQuantities_qty _ k Hu) as E1. pose proof (coalesceValueQuantities_qty _ k Ho) as E2.
    unfold qty in E1, E2. rewrite E1, E2. done.
Qed.

Theorem greedy_spec : ends_st (greedySelect getChangeAddresses p) (greedy_ok addresses p).
Proof.
  assert (Hrefs : refs_ok all) by (eapply refs_perm; [symmetry; apply all_perm|apply (po_refs p Hp)]).
  unfold greedySelect. fold all. rewrite newSet_id by done. pose proof greedyChange_ok as Hg.
  destruct (greedyChange all p) as [[i o] m]. destruct Hg as (-> & -> & Hm & Hq). apply ends_st_guard. intros Hb.
  apply orb_false_iff in Hb as [Hb _]. apply orb_false_iff in Hb as [_ Hb]. zb.
  eapply ends_st_bind; [eapply fee_loop_settles with (addresses := addresses); [|exact addresses_ok|lia|done|unfold feeFuel; lia]|].
  { intros sk. destruct (po_cost p Hp sk) as [H1 H2]. by split. }
  intros a [H1 H2 H3 H4 H5 H6]. apply ends_st_guard. intros _.
  eapply ends_st_bind; [apply ends_st_lift; split; [apply (po_limit p Hp)|exact (fun _ _ => I)]|]. intros limit _.
  apply ends_st_guard. intros _. apply ends_st_ret.
  pose proof (Array_sort_perm sortUtxoByTxIn all) as Hsort.
  rewrite (newSet_id (Array_sort _ _)) by (eapply refs_perm; [symmetry; exact Hsort|done]).
  assert (Hsame : same_totals (outValues (filter (fun o => hasValue o = true) (adjustedChange a))) (outValues (adjustedChange a))).
  { apply hasValue_totals. eapply Forall_impl; [exact H3|]. cbv beta. intros o Ho. pose proof (minimum_ok o). lia. }
  destruct Hsame as [Hsc Hsq]. split; cbn [selection inputs outputs change fee remainingUTxO]; try done.
  - split; cbn [selection inputs outputs change fee]; [rewrite Hsc, Hsort; lia|]. intros k. rewrite Hsq, Hsort, H2, Hq. lia.
  - by rewrite Hsort, all_perm.
  - apply sortUtxo_sorted.
  - apply Forall_forall. intros o [Ho Hin]%list_elem_of_filter. rewrite Forall_forall in H3. split; [by apply H3|done].
  - intros Hpos. destruct (H6 Hpos) as [Hf Ha]. apply Forall_forall. intros o [_ Hin]%list_elem_of_filter.
    rewrite Forall_forall in Hf, Ha. split; auto.
Qed.
End theorems.

(** ** What the greedy selector guarantees

    The properties of [GreedySelection.v] with instances, and how its splitting
    differs from the table its comment gives. *)

Import JsMapFacts ValuesFacts SelectionFacts RoundRobinFacts.

(** ** A reference for bignumber.js *)

(** A double is [m * 2 ^ e]; with [e] negative, that is [m * 5 ^ -e * 10 ^ e]. *)
Definition exact_decimal : BigNumber := fun x =>
  match x with
  | S754_zero _ => Some (0, 0)
  | S754_finite s m e =>
      let m := if s then Zneg m else Zpos m in
      Some (if 0 <=? e then (m * 2 ^ e, 0) else (m * 5 ^ (- e), e))
  | _ => None
  end.

Lemma exact_decimal_laws : @BigNumberLaws exact_decimal.
Proof.
  intros [s|s| |s m e] d k Hx Hd; cbn in Hx, Hd; try done; [by injection Hd as <- _|].
  destruct s; [done|]. injection Hd as Hd. destruct (Z.leb_spec 0 e); injection Hd as <- _.
  - pose proof (Z.pow_nonneg 2 e ltac:(lia)). lia.
  - pose proof (Z.pow_nonneg 5 (- e) ltac:(lia)). lia.
Qed.

(** ** The selector *)

(** C8. Greedy selection: for any callback that gives addresses with weights
    that are not negative, and any requirements on minimum coins that are not
    negative, on any well-formed request the selector ends, and a selection it
    returns spends every UTxO, satisfies the ledger's balance equation for
    coins and for every asset, keeps the outputs, orders the inputs, and every
    change output has something in it and at least the minimum coins; if
    minimums are positive, the change is at the given addresses only, in token
    bundles within the limit. *)
Theorem greedySelect_balanced (LD : Lodash) (LL : LodashLaws) (BN : BigNumber) (BL : BigNumberLaws)
    (getChangeAddresses : nat -> Res (list (string * number))) (addresses : list string) (p : InputSelectionParameters) :
  (forall n, ends (getChangeAddresses n) (fun l =>
     NoDup (JsMap.keys l) /\ Forall (fun kv => nonnegative kv.2 = true) l /\ forall a, a ∈ JsMap.keys l -> a ∈ addresses)) ->
  params_ok p -> (forall o, 0 <= computeMinimumCoinQuantity (constraints p) o) ->
  ends_st (greedySelect getChangeAddresses p) (greedy_ok addresses p).
Proof. intros Ha Hp Hm. by apply greedy_spec. Qed.

(** A wallet with two change addresses, the second with twice the weight. *)
Definition demo_weights : nat -> Res (list (string * number)) :=
  fun _ => Ok [("me"%string, double_of false 1 0); ("savings"%string, double_of false 2 0)].

Lemma greedySelect_balanced_witness :
  @ends_st _ (@greedySelect LodashRef.lodash_ref exact_decimal demo_weights demo_params) (greedy_ok ["me"; "savings"] demo_params).
Proof.
  apply (greedySelect_balanced LodashRef.lodash_ref LodashRef.lodash_ref_laws exact_decimal exact_decimal_laws).
  - intros n. apply ends_ok. split; [apply (bool_decide_unpack _); reflexivity|]. split; [repeat constructor|]. by intros a Ha.
  - apply demo_ok.
  - intros o. vm_compute. discriminate.
Defined.

(** ** Splitting *)

(** An output is split into at most nine parts at its address, with its assets;
    the parts are positive and add up to its coins (none, if it has no coins),
    whatever the minimum and the fee: the loop ends after nine halvings. *)
Theorem splitChangeOutput_exact (computeMin : TxOut -> Z) (fee : Z) (o : TxOut) :
  exists parts, splitChangeOutput computeMin fee o = Ok parts /\
    totalCoins (outValues parts) = Z.max 0 (coins (value o)) /\ (length parts <= 9)%nat /\
    Forall (fun q => 0 < coins (value q) /\ address q = address o /\ assets (value q) = assets (value o)) parts.
Proof.
  destruct (splitChangeOutput_ends computeMin fee o) as [Hf Ho].
  destruct (splitChangeOutput computeMin fee o) as [parts|e|] eqn:E; [|exfalso|done].
  - destruct (Ho parts eq_refl) as [H1 H2 H3 H4]. exists parts. split_and!; [done..|]. by apply Forall_and.
  - assert (Hl : forall n small r k, splitLoop computeMin fee o n small r k <> Throw e).
    { induction n as [|n IH]; intros small r k; cbn [splitLoop]; [by destruct (_ <=? _)|].
      destruct (_ <=? _); [|done]. destruct (_ || _); [done|]. specialize (IH small (r - divideRoundUp r 2) (k + divideRoundUp r 2)).
      destruct (splitLoop computeMin fee o n small _ _); [done| |done]. cbn. congruence. }
    unfold splitChangeOutput in E. specialize (Hl splitFuel (getMinUtxoAmount (coins (value o))) (coins (value o)) 0).
    destruct (splitLoop _ _ _ _ _ _ _); [done| |done]. cbn in E. congruence.
Qed.

(** The table in the comment of [splitChangeOutput] rounds halves down; the code
    rounds them up. *)
Example split_10 : splitChangeOutput (fun _ => 0) 0 (mkTxOut "me" {| assets := None; coins := 10 |}) =
  Ok [mkTxOut "me" {| assets := None; coins := 5 |}; mkTxOut "me" {| assets := None; coins := 3 |}; mkTxOut "me" {| assets := None; coins := 2 |}].
Proof. reflexivity. Qed.

Example split_1000 : (fun r => match r with Ok l => (fun o => coins (value o)) <$> l | _ => [] end)
  (splitChangeOutput (fun _ => 0) 0 (mkTxOut "me" {| assets := None; coins := 1000 |})) = [500; 250; 125; 63; 31; 31].
Proof. reflexivity. Qed.

(** The balance left for change can be exactly the fee; then no change is needed,
    but the selector builds an empty change output and finds it below the
    minimum. *)
Definition exact_params : InputSelectionParameters := {|
  preSelectedUtxo := [];
  utxo := [mkUtxo 1 "cc" 0 4170000 None];
  paramOutputs := [mkTxOut "bob" {| coins := 4000000; assets := None |}];
  constraints := demo_constraints;
  implicitValue := None
|}.

Example exact_balance_is_rejected :
  (@greedySelect LodashRef.lodash_ref exact_decimal demo_weights exact_params 0%nat).1 = Throw (InputSelectionError UtxoFullyDepleted).
Proof. vm_compute. reflexivity. Qed.
