(* ===== verification/ChangeAddress.v ===== *)
(** * Change addresses by delegation
    Models [ChangeAddress/DynamicChangeAddressResolver.ts] and
    [util/sortAddresses.ts] of [packages/wallet/src/services]: the outputs of the
    change are distributed over the stake pools a wallet delegates to, so that
    the stake stays close to a portfolio of weights.  Weights are doubles, and
    [bignumber.js] is used as in the greedy selector.  The observables of the
    wallet are the values they have when the resolver reads them. *)
From Stdlib Require Import SpecFloat.
From S2P Require Import Prelude JsRuntime Half Codec Credential Address Identifiers Values Selection GreedySelection.

(** ** Data *)

(** The fields the resolver reads of [GroupedAddress], of [DelegatedStake] and
    of [Cip17DelegationPortfolio]: the pools with their weights. *)
Record GroupedAddress : Set := {
  groupedAddress : string;
  addressIndex : Z;
  rewardAccount : string;
  stakeKeyIndex : option Z
}.

Record DelegatedStake : Set := { poolId : string; poolHexId : string; stake : Z; rewardAccounts : list string }.

Abbreviation Portfolio := (list (string * number)).

Record Bucket : Set := { bucketAddress : string; bucketChange : list TxOut; capacity : Z; filledAmount : Z }.

Definition withAddress (addr : string) (o : TxOut) : TxOut :=
  {| address := addr; value := value o; datumHash := datumHash o; datum := datum o; scriptReference := scriptReference o |}.

(** ** [sortAddresses] *)

Definition compareAddresses (a b : GroupedAddress) : Z :=
  if negb (addressIndex a =? addressIndex b) then addressIndex a - addressIndex b
  else
    match stakeKeyIndex a, stakeKeyIndex b with
    | Some i, Some j => i - j
    | Some _, None => -1
    | None, Some _ => 1
    | None, None => 0
    end.

Definition sortAddresses (addresses : list GroupedAddress) : list GroupedAddress := Array_sort compareAddresses addresses.

(** ** Balances *)

Definition getBalanceInTxOuts (txOuts : list TxOut) : Z := fold_left (fun a o => a + coins (value o)) txOuts 0.

Definition isKnown (knownAddresses : list GroupedAddress) (addr : string) : bool :=
  existsb (fun g => String.eqb (groupedAddress g) addr) knownAddresses.

Definition getSpentInInputs (knownAddresses : list GroupedAddress) (ins : list Utxo) : Z :=
  fold_left Z.add ((fun u => coins (value (txOut u))) <$> filter (fun u => isKnown knownAddresses (inAddress (txIn u)) = true) ins) 0.

Definition getBalanceFromOutputs (knownAddresses : list GroupedAddress) (outs : list TxOut) : Z :=
  fold_left Z.add ((fun o => coins (value o)) <$> filter (fun o => isKnown knownAddresses (address o) = true) outs) 0.

(** What an address of the core library throws reaches the caller. *)
Definition fromCore {A} (o : Codec.Res A) : Res A :=
  match o with Ok a => Ok a | Throw _ => Throw (CallbackError "Address") | OutOfFuel => OutOfFuel end.

Section addresses.
Context `{Lodash} `{BigNumber} `{Crc32} `{BaseEncoding}.

(** Whether an address has the stake credential of a reward account. *)
Definition ofRewardAccount (account addr : string) : Res bool :=
  match fromString addr with
  | None => Ok false
  | Some a =>
      match BaseAddress.fromAddress a with
      | None => Ok false
      | Some b =>
          h ← fromCore (RewardAccount.toHash account);
          stakeCredential ← fromCore (required (delegationPart b));
          Ok (String.eqb h (hash stakeCredential))
      end
  end.

Fixpoint sumOfRewardAccount (account : string) (l : list (string * Z)) : Res Z :=
  match l with
  | [] => Ok 0
  | (addr, c) :: l' =>
      mine ← ofRewardAccount account addr;
      total ← sumOfRewardAccount account l';
      Ok (if mine : bool then c + total else total)
  end.

Definition getSpentFromRewardAccount (account : string) (ins : list Utxo) : Res Z :=
  sumOfRewardAccount account ((fun u => (inAddress (txIn u), coins (value (txOut u)))) <$> ins).

Definition getDepositToRewardAccount (account : string) (outs : list TxOut) : Res Z :=
  sumOfRewardAccount account ((fun o => (address o, coins (value o))) <$> outs).

Fixpoint getAddressForRewardAccount (knownAddresses : list GroupedAddress) (account : string) : option GroupedAddress :=
  match knownAddresses with
  | [] => None
  | g :: rest => if String.eqb (rewardAccount g) account then Some g else getAddressForRewardAccount rest account
  end.

(** ** Buckets *)

Definition totalStake (sk : SelectionSkeleton) (delegateAmounts : list DelegatedStake) (knownAddresses : list GroupedAddress) : Z :=
  let totalStakeDelegatedBeforeTx := fold_left Z.add (stake <$> delegateAmounts) 0 in
  let balanceInChange := getBalanceInTxOuts (change sk) in
  let negativeBalance := getSpentInInputs knownAddresses (inputs sk) + fee sk in
  let positiveBalance := getBalanceFromOutputs knownAddresses (outputs sk) + balanceInChange in
  totalStakeDelegatedBeforeTx + positiveBalance - negativeBalance.

Definition weightsAsPercent (portfolio : Portfolio) : list (string * number) :=
  let totalWeight := fold_left (fun sum current => double_add sum current) (portfolio.*2) (S754_zero false) in
  JsMap.of_entries ((fun p => (p.1, double_div p.2 totalWeight)) <$> portfolio).

(** The first of the accounts that delegate to a pool, and its address. *)
Definition accountAddress (knownAddresses : list GroupedAddress) (d : DelegatedStake) : Res (string * GroupedAddress) :=
  match rewardAccounts d with
  | [] => Throw (InvalidStateError ("No reward accounts delegating to pool '" +:+ poolId d +:+ "'."))
  | account :: _ =>
      match getAddressForRewardAccount knownAddresses account with
      | None => Throw (InvalidStateError ("Reward account '" +:+ account +:+ "' unknown."))
      | Some g => Ok (account, g)
      end
  end.

Definition createBucket (sk : SelectionSkeleton) (total : Z) (percents : list (string * number))
    (knownAddresses : list GroupedAddress) (delegated : DelegatedStake) : Res Bucket :=
  '(account, g) ← accountAddress knownAddresses delegated;
  spent ← getSpentFromRewardAccount account (inputs sk);
  deposited ← getDepositToRewardAccount account (outputs sk);
  let adjustedStake := stake delegated - spent + deposited in
  match JsMap.get percents (poolHexId delegated) with
  | None => Throw (InvalidStateError ("Pool '" +:+ poolId delegated +:+ "' not found in the portfolio."))
  | Some percentageForPool =>
      match BigNumber_of percentageForPool with
      | None => Throw (SyntaxError "Cannot convert NaN to a BigInt")
      | Some (m, e) =>
          Ok {| bucketAddress := groupedAddress g; capacity := scaleRoundUp (total * m) e;
                bucketChange := []; filledAmount := adjustedStake |}
      end
  end.

Definition createBuckets (sk : SelectionSkeleton) (delegateAmounts : list DelegatedStake) (portfolio : Portfolio)
    (knownAddresses : list GroupedAddress) : Res (list Bucket) :=
  mapM (createBucket sk (totalStake sk delegateAmounts knownAddresses) (weightsAsPercent portfolio) knownAddresses) delegateAmounts.

(** [n.dividedBy(d)]: 20 decimal places, half rounded away from zero; the result
    in units of the last place. *)
Definition dividedBy (n d : Z) : Z :=
  Z.sgn n * Z.sgn d * ((2 * Z.abs n * 10 ^ 20 + Z.abs d) / (2 * Z.abs d)).

Definition getBucketGap (b : Bucket) : Z :=
  if capacity b =? 0 then 0 else dividedBy (capacity b - filledAmount b) (capacity b).

Definition compareBuckets (a b : Bucket) : Z :=
  let gapA := getBucketGap a in
  let gapB := getBucketGap b in
  if gapA <? gapB then 1 else if gapB <? gapA then -1 else 0.

(** [pickBucket] sorts the array it is given, and answers the first element. *)
Definition pickBucket (buckets : list Bucket) : list Bucket := Array_sort compareBuckets buckets.

Definition compareCoins (a b : TxOut) : Z :=
  if coins (value b) <? coins (value a) then 1 else if coins (value a) <? coins (value b) then -1 else 0.

Definition addChange (b : Bucket) (o : TxOut) : Bucket :=
  {| bucketAddress := bucketAddress b; bucketChange := bucketChange b ++ [o]; capacity := capacity b;
     filledAmount := filledAmount b + coins (value o) |}.

Fixpoint distributeLoop (sortedOutputs : list TxOut) (buckets : list Bucket) : Res (list Bucket) :=
  match sortedOutputs with
  | [] => Ok buckets
  | selected :: rest =>
      match pickBucket buckets with
      | [] => Throw (TypeError "Cannot read properties of undefined")
      | b :: others => distributeLoop rest (addChange b selected :: others)
      end
  end.

(** The change of a bucket goes to its address. *)
Definition assignAddress (b : Bucket) : Bucket :=
  {| bucketAddress := bucketAddress b; bucketChange := withAddress (bucketAddress b) <$> bucketChange b;
     capacity := capacity b; filledAmount := filledAmount b |}.

Definition distributeChange (changeOutputs : list TxOut) (prefilledBuckets : list Bucket) : Res (list Bucket) :=
  buckets ← (distributeLoop (Array_sort compareCoins changeOutputs) prefilledBuckets : Res (list Bucket));
  Ok (map assignAddress buckets).

(** ** The resolver *)

Definition delegationMatchesPortfolio (portfolio : Portfolio) (distribution : list DelegatedStake) : bool :=
  let portfolioPools := sort_by string_gt (uniq (portfolio.*1)) in
  let delegationPools := sort_by string_gt (uniq (poolHexId <$> distribution)) in
  bool_decide (portfolioPools = delegationPools).

(** The same weight for every pool. *)
Definition defaultPortfolio (distribution : list DelegatedStake) : Portfolio :=
  (fun d => (poolHexId d, double_div (double_of false 1 0) (double_of false (zlen distribution) 0))) <$> distribution.

Definition resolveDynamic (delegationDistribution : list DelegatedStake) (portfolio : option Portfolio)
    (knownAddresses : list GroupedAddress) (sk : SelectionSkeleton) : Res (list TxOut) :=
  let addresses := sortAddresses knownAddresses in
  match addresses with
  | [] => Throw (InvalidStateError "The wallet has no known addresses.")
  | first :: _ =>
      match delegationDistribution with
      | [] => Ok (withAddress (groupedAddress first) <$> change sk)
      | [delegated] =>
          '(_, g) ← accountAddress addresses delegated;
          Ok (withAddress (groupedAddress g) <$> change sk)
      | _ =>
          let portfolio :=
            match portfolio with
            | Some p => if delegationMatchesPortfolio p delegationDistribution then p else defaultPortfolio delegationDistribution
            | None => defaultPortfolio delegationDistribution
            end in
          buckets ← createBuckets sk delegationDistribution portfolio addresses;
          updatedBuckets ← distributeChange (change sk) buckets;
          Ok (concat (map bucketChange updatedBuckets))
      end
  end.

(** What the resolver reads: the distribution, the portfolio, the addresses. *)
Definition DynamicChangeAddressResolver (distribution : Res (list DelegatedStake))
    (getDelegationPortfolio : Res (option Portfolio)) (addresses : Res (list GroupedAddress)) : ChangeAddressResolver := fun sk =>
  delegationDistribution ← distribution;
  portfolio ← getDelegationPortfolio;
  knownAddresses ← addresses;
  resolveDynamic delegationDistribution portfolio knownAddresses sk.
End addresses.
