(* ===== verification/ChangeAddressTheorems.v ===== *)
(** * Theorems on change addresses by delegation
    The resolver meets the interface of the selectors: it keeps the values of
    the change and gives them to addresses of the wallet.  The distribution is
    the greedy one, of outputs in ascending order. *)
From S2P Require Import Prelude JsRuntime Half CborCommon Codec Credential Address Identifiers Values Selection GreedySelection ChangeAddress BaseEncodingRef GreedyFacts.
Import ValuesFacts.

(** ** The distribution *)

(** An output goes to a bucket with the largest gap. *)
Inductive fills (o : TxOut) (bs bs' : list Bucket) : Prop :=
  | Fills b others : bs ≡ₚ b :: others -> Forall (fun b' => getBucketGap b' <= getBucketGap b) others ->
      bs' ≡ₚ addChange b o :: others -> fills o bs bs'.

Inductive distributes : list TxOut -> list Bucket -> list Bucket -> Prop :=
  | DistributesNil bs : distributes [] bs bs
  | DistributesCons o outs bs bs' bs'' : fills o bs bs' -> distributes outs bs' bs'' -> distributes (o :: outs) bs bs''.

Definition gap_le (a b : Bucket) : Prop := getBucketGap b <= getBucketGap a.

Lemma pickBucket_sorted bs : StronglySorted gap_le (pickBucket bs).
Proof.
  apply Array_sort_sorted.
  - intros x y z; unfold gap_le; lia.
  - intros a b. unfold compareBuckets, gap_le. repeat case_bool; zb; lia.
  - intros a b. unfold compareBuckets, gap_le. repeat case_bool; zb; lia.
Qed.

Lemma pickBucket_fills o bs b others : pickBucket bs = b :: others -> fills o bs (addChange b o :: others).
Proof.
  intros Hp. pose proof (Array_sort_perm compareBuckets bs) as Hperm. fold (pickBucket bs) in Hperm.
  pose proof (pickBucket_sorted bs) as Hs. rewrite Hp in Hs, Hperm. inversion Hs; subst. by econstructor.
Qed.

Lemma distributeLoop_total outs bs : bs <> [] -> exists bs', distributeLoop outs bs = Ok bs' /\ distributes outs bs bs'.
Proof.
  revert bs. induction outs as [|o outs IH]; intros bs Hbs; cbn [distributeLoop]; [exists bs; split; [done|constructor]|].
  destruct (pickBucket bs) as [|b others] eqn:Ep.
  - pose proof (Array_sort_perm compareBuckets bs) as Hp. fold (pickBucket bs) in Hp. rewrite Ep in Hp. by apply Permutation_nil_l in Hp.
  - destruct (IH (addChange b o :: others)) as (bs' & -> & Hd); [done|]. exists bs'. split; [done|].
    econstructor; [by apply pickBucket_fills|done].
Qed.

Lemma distributeLoop_distributes outs bs bs' : distributeLoop outs bs = Ok bs' -> distributes outs bs bs'.
Proof.
  destruct bs as [|b bs].
  - destruct outs; [intros [= <-]; constructor|done].
  - destruct (distributeLoop_total outs (b :: bs)) as (bs1 & -> & Hd); [done|]. by intros [= <-].
Qed.

(** What the buckets hold, how full they are and whose they are. *)
Lemma distributes_keeps outs bs bs' : distributes outs bs bs' ->
  concat (bucketChange <$> bs') ≡ₚ concat (bucketChange <$> bs) ++ outs /\
  zsum (filledAmount <$> bs') = zsum (filledAmount <$> bs) + zsum ((fun o => coins (value o)) <$> outs) /\
  bucketAddress <$> bs' ≡ₚ bucketAddress <$> bs /\ capacity <$> bs' ≡ₚ capacity <$> bs.
Proof.
  induction 1 as [bs|o outs bs bs1 bs' Hf Hd (IH1 & IH2 & IH3 & IH4)]; [split_and!; [by rewrite app_nil_r|cbn; lia|done|done]|].
  destruct Hf as [b others Hb _ Hb1]. rewrite IH1, IH2, IH3, IH4. split_and!.
  - rewrite Hb1, Hb. cbn. rewrite <- !app_assoc. f_equiv. cbn. apply Permutation_middle.
  - rewrite Hb1, Hb. cbn. unfold zsum. cbn. lia.
  - by rewrite Hb1, Hb.
  - by rewrite Hb1, Hb.
Qed.

Lemma assignAddress_values bs : value <$> concat (bucketChange <$> (assignAddress <$> bs)) = value <$> concat (bucketChange <$> bs).
Proof.
  induction bs as [|b bs IH]; [done|]. cbn [fmap list_fmap concat]. rewrite !fmap_app, IH. f_equal.
  cbn. rewrite <- list_fmap_compose. done.
Qed.

Lemma assignAddress_addresses bs : Forall (fun o => address o ∈ bucketAddress <$> bs) (concat (bucketChange <$> (assignAddress <$> bs))).
Proof.
  apply Forall_concat, Forall_fmap, Forall_fmap, Forall_forall. intros b Hb. cbn. apply Forall_fmap, Forall_true.
  intros o. cbn. by apply list_elem_of_fmap_2.
Qed.


(** Two buckets with the same capacity: the small outputs come first, and the
    large one, which is put last, leaves them apart by more than half. *)
Definition demo_bucket (addr : string) : Bucket :=
  {| bucketAddress := addr; bucketChange := []; capacity := 10; filledAmount := 0 |}.


Example ascending_distribution : exists bs,
  distributeChange ((fun c => mkTxOut "_" {| coins := c; assets := None |}) <$> [10; 2; 3]) [demo_bucket "a"; demo_bucket "b"] = Ok bs /\
  filledAmount <$> bs = [12; 3].
Proof. eexists. split; [vm_compute; reflexivity|reflexivity]. Qed.

(** ** The resolver *)

Section resolver.
Context {LD : Lodash} {BN : BigNumber} {CRC : Crc32} {BE : BaseEncoding}.

Lemma getAddressForRewardAccount_elem l a g : getAddressForRewardAccount l a = Some g -> g ∈ l /\ rewardAccount g = a.
Proof.
  induction l as [|x l IH]; [done|]. cbn. destruct (String.eqb_spec (rewardAccount x) a).
  - intros [= <-]. by split; [left|].
  - intros H. destruct (IH H). by split; [right|].
Qed.

Lemma accountAddress_elem l d a g : accountAddress l d = Ok (a, g) -> g ∈ l /\ head (rewardAccounts d) = Some a /\ rewardAccount g = a.
Proof.
  unfold accountAddress. destruct (rewardAccounts d); [done|]. destruct (getAddressForRewardAccount _ _) eqn:E; [|done].
  intros [= <- <-]. by apply getAddressForRewardAccount_elem in E as [? ?].
Qed.

Lemma createBucket_address sk t w l d b : createBucket sk t w l d = Ok b ->
  bucketChange b = [] /\ bucketAddress b ∈ groupedAddress <$> l.
Proof.
  unfold createBucket. destruct (accountAddress l d) as [[a g]| |] eqn:Ea; [|done|done]. cbn [mbind outcome_bind].
  destruct (getSpentFromRewardAccount _ _) as [s| |]; [|done|done]. cbn [mbind outcome_bind].
  destruct (getDepositToRewardAccount _ _) as [p| |]; [|done|done]. cbn [mbind outcome_bind].
  destruct (JsMap.get _ _); [|done]. destruct (BigNumber_of _) as [[m e]|]; [|done]. intros [= <-]. cbn. split; [done|].
  apply accountAddress_elem in Ea as [Hg _]. by apply list_elem_of_fmap_2.
Qed.

Lemma createBuckets_addresses sk ds p l bs : createBuckets sk ds p l = Ok bs ->
  concat (bucketChange <$> bs) = [] /\ Forall (fun b => bucketAddress b ∈ groupedAddress <$> l) bs.
Proof.
  unfold createBuckets. generalize (totalStake sk ds l) (weightsAsPercent p). intros t w. revert bs.
  induction ds as [|d ds IH]; intros bs; cbn [mapM]; [intros [= <-]; by split|].
  destruct (createBucket sk t w l d) as [b| |] eqn:Eb; [|done|done]. cbn [mbind outcome_bind].
  destruct (mapM _ _) as [bs1| |]; [|done|done]. intros [= <-]. destruct (IH _ eq_refl) as [H1 H2].
  apply createBucket_address in Eb as [H3 H4]. split; [cbn; by rewrite H3, H1|by constructor].
Qed.

Lemma sortAddresses_elem l x : x ∈ groupedAddress <$> sortAddresses l <-> x ∈ groupedAddress <$> l.
Proof. unfold sortAddresses. by rewrite (Array_sort_perm compareAddresses l). Qed.

Lemma withAddress_values addr (l : list TxOut) : value <$> (withAddress addr <$> l) = value <$> l.
Proof. by rewrite <- list_fmap_compose. Qed.

Lemma resolveDynamic_keeps ds p known sk l : resolveDynamic ds p known sk = Ok l ->
  value <$> l ≡ₚ value <$> change sk /\ Forall (fun o => address o ∈ groupedAddress <$> known) l.
Proof.
  unfold resolveDynamic. destruct (sortAddresses known) as [|first rest] eqn:Ek; [done|].
  assert (Hone : forall g, g ∈ first :: rest -> Forall (fun o => address o ∈ groupedAddress <$> known) (withAddress (groupedAddress g) <$> change sk)).
  { intros g Hg. rewrite <- Ek in Hg. apply Forall_fmap, Forall_true. intros o. cbn. apply sortAddresses_elem. by apply list_elem_of_fmap_2. }
  destruct ds as [|d [|d' ds]].
  - intros [= <-]. rewrite withAddress_values. split; [done|]. apply Hone. left.
  - destruct (accountAddress _ _) as [[a g]| |] eqn:Ea; [|done|done]. intros [= <-]. rewrite withAddress_values. split; [done|].
    apply Hone. by apply accountAddress_elem in Ea as [? _].
  - destruct (createBuckets _ _ _ _) as [bs| |] eqn:Eb; [|done|done]. cbn [mbind outcome_bind]. unfold distributeChange.
    destruct (distributeLoop _ _) as [bs1| |] eqn:Ed; [|done|done]. intros [= <-].
    apply createBuckets_addresses in Eb as [Hc Ha]. apply distributeLoop_distributes, distributes_keeps in Ed as (H1 & _ & H3 & _).
    split.
    + change (map assignAddress bs1) with (assignAddress <$> bs1). change (map bucketChange) with (fmap (M := list) bucketChange).
      rewrite assignAddress_values, H1, Hc. cbn. by rewrite (Array_sort_perm compareCoins).
    + eapply Forall_impl; [apply assignAddress_addresses|]. intros o Ho. cbn in Ho. rewrite H3 in Ho.
      apply list_elem_of_fmap in Ho as (b & -> & Hb). rewrite Forall_forall in Ha. specialize (Ha b Hb). rewrite <- Ek in Ha.
      by apply sortAddresses_elem.
Qed.

Lemma dynamic_keeps distribution portfolio addresses sk l :
  @resolve (DynamicChangeAddressResolver distribution portfolio addresses) sk = Ok l ->
  exists known, addresses = Ok known /\ value <$> l ≡ₚ value <$> change sk /\
    Forall (fun o => address o ∈ groupedAddress <$> known) l.
Proof.
  unfold resolve, DynamicChangeAddressResolver. destruct distribution as [ds| |]; [|done|done]. destruct portfolio as [p| |]; [|done|done].
  destruct addresses as [known| |]; [|done|done]. cbn [mbind outcome_bind]. intros H%resolveDynamic_keeps. by exists known.
Qed.

(** What the resolver answers, whatever the delegation and the portfolio: the
    values are those of the change, in some order, and every output is at an
    address of the wallet. *)
Theorem dynamic_resolution distribution portfolio addresses sk l :
  @resolve (DynamicChangeAddressResolver distribution portfolio addresses) sk = Ok l ->
  exists known, addresses = Ok known /\ value <$> l ≡ₚ value <$> change sk /\
    Forall (fun o => address o ∈ groupedAddress <$> known) l.
Proof. apply dynamic_keeps. Qed.

(** The interface of the selectors. *)
#[export] Instance dynamic_laws distribution portfolio addresses :
  @ChangeAddressResolverLaws (DynamicChangeAddressResolver distribution portfolio addresses).
Proof.
  split.
  - intros sk l (known & _ & Hv & _)%dynamic_keeps. unfold outValues. by rewrite Hv.
  - intros sk l i (known & _ & Hv & _)%dynamic_keeps. unfold outValues. by rewrite Hv.
Qed.
End resolver.

(** ** The total stake *)

Lemma fold_zsum l : fold_left Z.add l 0 = zsum l.
Proof. apply (BigIntMathFacts.sum_zsum l). Qed.

Lemma getBalanceInTxOuts_total l : getBalanceInTxOuts l = totalCoins (outValues l).
Proof.
  unfold getBalanceInTxOuts, totalCoins, outValues. rewrite <- list_fmap_compose.
  rewrite <- fold_zsum. generalize 0. induction l as [|o l IH]; intros a; [done|]. apply IH.
Qed.

(** What the outputs at addresses of others are worth. *)
Definition paidToOthers (known : list GroupedAddress) (outs : list TxOut) : Z :=
  zsum ((fun o => coins (value o)) <$> filter (fun o => isKnown known (address o) = false) outs).

Lemma getBalanceFromOutputs_split known outs :
  getBalanceFromOutputs known outs + paidToOthers known outs = totalCoins (outValues outs).
Proof.
  unfold getBalanceFromOutputs, paidToOthers, totalCoins, outValues. rewrite fold_zsum, <- list_fmap_compose.
  induction outs as [|o outs IH]; [done|]. rewrite !filter_cons. cbn [fmap list_fmap zsum foldr].
  destruct (isKnown known (address o)); [rewrite decide_True, decide_False by done|rewrite decide_False, decide_True by done];
    cbn; unfold zsum in *; cbn; lia.
Qed.

Lemma getSpentInInputs_all known ins : Forall (fun u => isKnown known (inAddress (txIn u)) = true) ins ->
  getSpentInInputs known ins = totalCoins (utxoValues ins).
Proof.
  intros Hk. unfold getSpentInInputs, totalCoins, utxoValues. rewrite filter_all by done. by rewrite fold_zsum, <- list_fmap_compose.
Qed.

(** The inputs of a balanced selection pay its fee, but the total stake the
    capacities are computed from subtracts the fee once more: with inputs of
    the wallet only, it is the stake before the transaction less what others
    are paid and less twice the fee. *)
Theorem total_stake_counts_fee_twice sk delegated known :
  totalCoins (utxoValues (inputs sk)) = totalCoins (outValues (outputs sk)) + totalCoins (outValues (change sk)) + fee sk ->
  Forall (fun u => isKnown known (inAddress (txIn u)) = true) (inputs sk) ->
  totalStake sk delegated known = zsum (stake <$> delegated) - paidToOthers known (outputs sk) - 2 * fee sk.
Proof.
  intros Hb Hk. unfold totalStake. rewrite getSpentInInputs_all, getBalanceInTxOuts_total, fold_zsum by done.
  pose proof (getBalanceFromOutputs_split known (outputs sk)). lia.
Qed.

(** A wallet that delegates to two pools, 60 to each, and pays 30 and a fee of
    10: 80 are left, the capacities add up to 70. *)
Definition demo_known : list GroupedAddress :=
  [{| groupedAddress := "mine_1"; addressIndex := 1; rewardAccount := "stake_1"; stakeKeyIndex := None |};
   {| groupedAddress := "mine_0"; addressIndex := 0; rewardAccount := "stake_0"; stakeKeyIndex := None |}].

Definition demo_delegated : list DelegatedStake :=
  [{| poolId := "pool_0"; poolHexId := "p0"; stake := 60; rewardAccounts := ["stake_0"] |};
   {| poolId := "pool_1"; poolHexId := "p1"; stake := 60; rewardAccounts := ["stake_1"] |}].

Definition demo_selection : SelectionSkeleton := {|
  inputs := [{| ref := 0; txInRef := 0; txIn := {| txId := "t"; index := 0; inAddress := "mine_0" |};
                txOut := mkTxOut "mine_0" {| coins := 60; assets := None |} |}];
  outputs := [mkTxOut "other" {| coins := 30; assets := None |}];
  change := [mkTxOut "_" {| coins := 15; assets := None |}; mkTxOut "_" {| coins := 5; assets := None |}];
  fee := 10 |}.

Lemma total_stake_counts_fee_twice_witness : totalStake demo_selection demo_delegated demo_known = 70 /\
  totalStake demo_selection demo_delegated demo_known = 120 - 30 - 2 * 10.
Proof.
  split; [reflexivity|]. apply (total_stake_counts_fee_twice demo_selection demo_delegated demo_known); [reflexivity|repeat constructor].
Defined.

(** The resolver on this selection, without a portfolio. *)
Definition demo_dynamic : ChangeAddressResolver :=
  @DynamicChangeAddressResolver LodashRef.lodash_ref exact_decimal sum32 encoding_ref (Ok demo_delegated) (Ok None) (Ok demo_known).

Lemma dynamic_resolution_witness :
  let l := [mkTxOut "mine_1" {| coins := 15; assets := None |}; mkTxOut "mine_0" {| coins := 5; assets := None |}] in
  @resolve demo_dynamic demo_selection = Ok l /\
  exists known, Ok (E := SelectionError) demo_known = Ok known /\ value <$> l ≡ₚ value <$> change demo_selection /\
    Forall (fun o => address o ∈ groupedAddress <$> known) l.
Proof.
  intros l. assert (H : @resolve demo_dynamic demo_selection = Ok l) by (vm_compute; reflexivity). split; [exact H|].
  apply (dynamic_resolution (Ok demo_delegated) (Ok None) (Ok demo_known) demo_selection l H).
Defined.
