(* ===== verification/RedeemerIndices.v ===== *)
(** * The indices of redeemers
    Models lines 49 to 177 of
    [packages/tx-construction/src/input-selection/selectionConstraints.ts] and
    [tx-builder/GreedyTxEvaluator.ts]: every redeemer of a transaction under
    construction gets the index the ledger expects, the position of the item it
    unlocks in the ledger's order, and the units an evaluation finds for it. *)
From S2P Require Import Prelude JsRuntime Codec Credential Address Identifiers SerializedValue PlutusData Common Voting Scripts Witnesses.
From S2P Require Values.

(** ** The redeemers of a builder, by purpose *)

(** The [Map]s are lists of entries, in the order of insertion. *)
Record RedeemersByType : Set := {
  spendMap : option (list (string * Redeemer.core));
  mintMap : option (list (string * Redeemer.core));
  withdrawalMap : option (list (string * Redeemer.core));
  voteList : option (list (Voter.core * Redeemer.core));
  certificateList : option (list Redeemer.core);
  proposeList : option (list Redeemer.core)
}.

(** [Cardano.Withdrawal], and the fields of [Cardano.TxBody] that are read. *)
Record Withdrawal : Set := { stakeAddress : string; quantity : Z }.

Record TxBody : Set := {
  bodyMint : option (list (string * Z));
  bodyWithdrawals : option (list Withdrawal);
  bodyVotingProcedures : option VotingProcedures.core
}.

Section indices.
Context `{Crc32} `{BaseEncoding}.

(** [a === b ? 0 : a < b ? -1 : 1] *)
Definition compareHex (a b : string) : Z := if String.eqb a b then 0 else if string_gt b a then -1 else 1.

Definition rewardAccountCredential (rewardAccount : string) : Res Credential :=
  a ← RewardAccount.asReward rewardAccount; required (paymentPart a).

Definition voterGroup (voter : Voter.core) : Z :=
  match Voter.typename voter with
  | ccHotKeyHash | ccHotScriptHash => 0
  | dRepKeyHash | dRepScriptHash => 1
  | stakePoolKeyHash => 2
  end.

Definition credentialScriptFirstRank (type : Z) : Z := if type =? CredentialType.ScriptHash then 0 else 1.

(** [x || y] of numbers *)
Definition orElse (x y : Z) : Z := if x =? 0 then y else x.

Definition compareVoters (a b : Voter.core) : Z :=
  orElse (voterGroup a - voterGroup b)
    (orElse (credentialScriptFirstRank (Credential.type (Voter.coreCredential a)) - credentialScriptFirstRank (Credential.type (Voter.coreCredential b)))
      (compareHex (hash (Voter.coreCredential a)) (hash (Voter.coreCredential b)))).

Definition votersEqual (a b : Voter.core) : bool :=
  bool_decide (Voter.typename a = Voter.typename b) && String.eqb (hash (Voter.coreCredential a)) (hash (Voter.coreCredential b)).

Definition reindexed (redeemer : Redeemer.core) (purpose : RedeemerPurpose) (index : Z) (executionUnits : ExUnits.core) : Redeemer.core :=
  {| Redeemer.coreData := Redeemer.coreData redeemer; Redeemer.executionUnits := executionUnits; Redeemer.coreIndex := index; Redeemer.purpose := purpose |}.

(** [l.findIndex(p)], and [None] for -1 *)
Fixpoint findIndex {A} (p : A -> bool) (l : list A) : option Z :=
  match l with
  | [] => None
  | x :: l => if p x then Some 0 else i ← findIndex p l; Some (i + 1)
  end.

(** The callbacks of the four [map]s. *)
Definition place {A} (p : A -> bool) (l : list A) (message : string) (redeemer : Redeemer.core) (purpose : RedeemerPurpose)
    (executionUnits : ExUnits.core) : Res Redeemer.core :=
  match findIndex p l with
  | None => Throw (JsError message)
  | Some index => Ok (reindexed redeemer purpose index executionUnits)
  end.

(** [`${input.txId}#${input.index}`] *)
Definition inputKey (input : Values.HydratedTxIn) : string := Values.txId input +:+ "#" +:+ pretty (Values.index input).

Definition spendRedeemers (redeemersByType : RedeemersByType) (sortedInputs : list Values.HydratedTxIn) (executionUnits : ExUnits.core) :
    Res (list Redeemer.core) :=
  mapM (fun e => place (fun input => String.eqb e.1 (inputKey input)) sortedInputs
    ("Spend redeemer input not found in transaction: " +:+ e.1) e.2 spend executionUnits) (default [] (spendMap redeemersByType)).

(** [[...new Set(l)]] *)
Fixpoint distinct (l seen : list string) : list string :=
  match l with
  | [] => []
  | x :: l => if decide (x ∈ seen) then distinct l seen else x :: distinct l (x :: seen)
  end.

Definition mintRedeemers (redeemersByType : RedeemersByType) (body : TxBody) (executionUnits : ExUnits.core) : Res (list Redeemer.core) :=
  ids ← mapM SerializedValue.getPolicyId (default [] (bodyMint body)).*1;
  let policyIds := Values.Array_sort compareHex (distinct ids []) in
  mapM (fun e => place (String.eqb e.1) policyIds ("Mint redeemer policy not present in transaction mint: " +:+ e.1) e.2 mint executionUnits)
    (default [] (mintMap redeemersByType)).

(** The reward accounts with their credentials; those of keys are dropped. *)
Definition scriptAccounts (accounts : list string) : Res (list (string * Credential)) :=
  l ← mapM (fun a => c ← rewardAccountCredential a; Ok (a, c)) accounts;
  Ok (filter (fun e : string * Credential => Credential.type e.2 = CredentialType.ScriptHash) l).

Definition compareAccounts (a b : string * Credential) : Z := compareHex (hash a.2) (hash b.2).

Definition withdrawalRedeemers (redeemersByType : RedeemersByType) (body : TxBody) (executionUnits : ExUnits.core) : Res (list Redeemer.core) :=
  accounts ← scriptAccounts (stakeAddress <$> default [] (bodyWithdrawals body));
  let scriptRewardAccounts := fst <$> Values.Array_sort compareAccounts accounts in
  mapM (fun e => place (String.eqb e.1) scriptRewardAccounts
    ("Withdrawal redeemer is not a script withdrawal in transaction: " +:+ e.1) e.2 withdrawal executionUnits)
    (default [] (withdrawalMap redeemersByType)).

Definition voteRedeemers (redeemersByType : RedeemersByType) (body : TxBody) (executionUnits : ExUnits.core) : Res (list Redeemer.core) :=
  let sortedVoters := Values.Array_sort compareVoters (fst <$> default [] (bodyVotingProcedures body)) in
  mapM (fun e => place (fun candidate => votersEqual candidate e.1) sortedVoters
    "Vote redeemer voter not present in transaction voting procedures" e.2 vote executionUnits) (default [] (voteList redeemersByType)).

Definition assignCanonicalIndices (redeemersByType : RedeemersByType) (body : TxBody) (sortedInputs : list Values.HydratedTxIn)
    (executionUnits : ExUnits.core) : Res (list Redeemer.core) :=
  spends ← spendRedeemers redeemersByType sortedInputs executionUnits;
  mints ← mintRedeemers redeemersByType body executionUnits;
  withdrawals ← withdrawalRedeemers redeemersByType body executionUnits;
  votes ← voteRedeemers redeemersByType body executionUnits;
  Ok (spends ++ mints ++ withdrawals ++ votes ++
    ((fun redeemer => reindexed redeemer certificate (Redeemer.coreIndex redeemer) executionUnits) <$> default [] (certificateList redeemersByType)) ++
    ((fun redeemer => reindexed redeemer propose (Redeemer.coreIndex redeemer) executionUnits) <$> default [] (proposeList redeemersByType))).
End indices.

(** ** Evaluations *)

Record TxEvaluation : Set := { evalPurpose : RedeemerPurpose; evalIndex : Z; budget : ExUnits.core }.

Definition evaluates (redeemer : Redeemer.core) (txEval : TxEvaluation) : bool :=
  bool_decide (evalPurpose txEval = Redeemer.purpose redeemer) && (evalIndex txEval =? Redeemer.coreIndex redeemer).

Definition mergeExecutionUnits (redeemers : list Redeemer.core) (evaluation : list TxEvaluation) : list Redeemer.core :=
  (fun redeemer =>
    match List.find (evaluates redeemer) evaluation with
    | Some evaluated => {| Redeemer.coreIndex := Redeemer.coreIndex redeemer; Redeemer.purpose := Redeemer.purpose redeemer;
        Redeemer.coreData := Redeemer.coreData redeemer; Redeemer.executionUnits := budget evaluated |}
    | None => redeemer
    end) <$> redeemers.

Module GreedyTxEvaluator.
Definition evaluate (maxExecutionUnitsPerTransaction : ExUnits.core) (redeemers : option (list Redeemer.core)) : list TxEvaluation :=
  match redeemers with
  | None => []
  | Some redeemers => (fun redeemer => {| budget := maxExecutionUnitsPerTransaction; evalIndex := Redeemer.coreIndex redeemer;
      evalPurpose := Redeemer.purpose redeemer |}) <$> redeemers
  end.
End GreedyTxEvaluator.
