(* ===== verification/RedeemerTheorems.v ===== *)
(** * The indices of redeemers: the properties

    The index of a redeemer is the rank of the item it unlocks: how many items
    of its kind come before it in the order of the ledger. *)
From S2P Require Import Prelude JsRuntime Codec Credential Address BaseEncodingRef AddressText Identifiers SerializedValue PlutusData Common Voting VotingFacts Scripts Witnesses RedeemerIndices.
From S2P Require Values.

(** ** Comparators *)

Record comparator {A} (cmp : A -> A -> Z) : Prop := {
  cmp_flip x y : 0 < cmp x y <-> cmp y x < 0;
  cmp_trans x y z : cmp x y <= 0 -> cmp y z <= 0 -> cmp x z <= 0
}.

Lemma cmp_zero {A} (cmp : A -> A -> Z) x y : comparator cmp -> cmp x y = 0 -> cmp y x = 0.
Proof. intros Hc Hz. pose proof (cmp_flip _ Hc x y). pose proof (cmp_flip _ Hc y x). lia. Qed.

Lemma comparator_sub {A} (f : A -> Z) : comparator (fun x y => f x - f y).
Proof. split; intros; lia. Qed.

Lemma comparator_key {A B} (f : A -> B) cmp : comparator cmp -> comparator (fun x y => cmp (f x) (f y)).
Proof. intros [Hf Ht]. by split; intros; [apply Hf|eapply Ht]. Qed.

Lemma comparator_lex {A} (c1 c2 : A -> A -> Z) : comparator c1 -> comparator c2 -> comparator (fun x y => orElse (c1 x y) (c2 x y)).
Proof.
  intros H1 H2. unfold orElse. split.
  - intros x y. pose proof (cmp_flip _ H1 x y). pose proof (cmp_flip _ H1 y x). pose proof (cmp_flip _ H2 x y).
    destruct (Z.eqb_spec (c1 x y) 0), (Z.eqb_spec (c1 y x) 0); lia.
  - intros x y z. pose proof (cmp_trans _ H1 x y z). pose proof (cmp_trans _ H2 x y z). pose proof (cmp_trans _ H1 z y x).
    pose proof (cmp_trans _ H1 y z x). pose proof (cmp_trans _ H1 z x y).
    pose proof (cmp_flip _ H1 x y). pose proof (cmp_flip _ H1 y x). pose proof (cmp_flip _ H1 y z). pose proof (cmp_flip _ H1 z y).
    pose proof (cmp_flip _ H1 x z). pose proof (cmp_flip _ H1 z x).
    destruct (Z.eqb_spec (c1 x y) 0), (Z.eqb_spec (c1 y z) 0), (Z.eqb_spec (c1 x z) 0); lia.
Qed.

Lemma gt_asym a b : string_gt a b = true -> string_gt b a = false.
Proof. intros Hg. destruct (string_gt b a) eqn:E; [|done]. pose proof (string_gt_trans _ _ _ Hg E) as Hi. by rewrite string_gt_irrefl in Hi. Qed.

Lemma compareHex_neg a b : compareHex a b < 0 <-> string_gt b a = true.
Proof.
  unfold compareHex. destruct (String.eqb_spec a b) as [->|Hne]; [rewrite string_gt_irrefl; done|]. by destruct (string_gt b a).
Qed.

Lemma compareHex_pos a b : 0 < compareHex a b <-> string_gt a b = true.
Proof.
  unfold compareHex. destruct (String.eqb_spec a b) as [->|Hne]; [by rewrite string_gt_irrefl|].
  destruct (string_gt b a) eqn:E; [by rewrite (gt_asym _ _ E)|]. destruct (string_gt_total a b Hne) as [Hg|Hg]; [by rewrite Hg|congruence].
Qed.

Lemma compareHex_zero a b : compareHex a b = 0 <-> a = b.
Proof. unfold compareHex. destruct (String.eqb_spec a b) as [->|Hne]; [done|]. by destruct (string_gt b a). Qed.

Lemma compareHex_comparator : comparator compareHex.
Proof.
  split; [intros x y; by rewrite compareHex_pos, compareHex_neg|]. intros x y z Hxy Hyz. apply Z.nlt_ge. rewrite compareHex_pos. intros Hxz.
  assert (Hxy' : string_gt x y = false) by (destruct (string_gt x y) eqn:E; [apply compareHex_pos in E; lia|done]).
  assert (Hyz' : string_gt y z = false) by (destruct (string_gt y z) eqn:E; [apply compareHex_pos in E; lia|done]).
  destruct (decide (x = y)) as [->|Hne]; [congruence|]. destruct (string_gt_total x y Hne) as [|Hg]; [congruence|].
  rewrite (string_gt_trans _ _ _ Hg Hxz) in Hyz'. done.
Qed.

Lemma compareVoters_comparator : comparator compareVoters.
Proof.
  apply comparator_lex; [apply (comparator_sub voterGroup)|]. apply comparator_lex; [apply (comparator_sub (fun v => credentialScriptFirstRank (Credential.type (Voter.coreCredential v))))|].
  apply (comparator_key (fun v => hash (Voter.coreCredential v))), compareHex_comparator.
Qed.

Lemma compareAccounts_comparator : comparator compareAccounts.
Proof. apply (comparator_key (fun e => hash e.2)), compareHex_comparator. Qed.

Lemma sortTxIn_comparator : comparator Values.sortTxIn.
Proof.
  split; [|apply Values.ValuesFacts.sortTxIn_trans]. intros x y. unfold Values.sortTxIn, Values.localeCompare.
  rewrite (String.compare_antisym (Values.txId x) (Values.txId y)). destruct (String.compare (Values.txId y) (Values.txId x)); cbn; lia.
Qed.

(** ** Positions in a sorted list *)

(** How many of the items come before [x]. *)
Definition rank {A} (cmp : A -> A -> Z) (l : list A) (x : A) : Z := zlen (filter (fun y => cmp y x < 0) l).

Definition placeByRank {A} (p : A -> bool) (cmp : A -> A -> Z) (items : list A) (message : string) (redeemer : Redeemer.core)
    (purpose : RedeemerPurpose) (executionUnits : ExUnits.core) : Res Redeemer.core :=
  match List.find p items with
  | None => Throw (JsError message)
  | Some x => Ok (reindexed redeemer purpose (rank cmp items x) executionUnits)
  end.

Section rank.
Context {A : Type} (cmp : A -> A -> Z) (Hc : comparator cmp).

Definition R (x y : A) : Prop := cmp x y <= 0.

Lemma sorted_strongly l : StronglySorted R (Values.Array_sort cmp l).
Proof.
  assert (Transitive R) by (intros x y z; apply Hc). apply Values.ValuesFacts.Array_sort_sorted; try done. intros x y Hp. unfold R. apply (cmp_flip _ Hc) in Hp. lia.
Qed.

Lemma findIndex_app (p : A -> bool) l x k : (forall y, y ∈ l -> p y = false) -> p x = true -> findIndex p (l ++ x :: k) = Some (zlen l).
Proof.
  intros Hl Hx. induction l as [|y l IH]; cbn [app findIndex]; [by rewrite Hx|]. rewrite Hl by left. rewrite IH by (intros z Hz; apply Hl; by right).
  cbn. by rewrite zlen_cons.
Qed.

Lemma findIndex_none (p : A -> bool) l : (forall y, y ∈ l -> p y = false) -> findIndex p l = None.
Proof.
  induction l as [|y l IH]; intros Hl; [done|]. cbn. rewrite Hl by left. rewrite IH; [done|]. intros z Hz. apply Hl. by right.
Qed.

Lemma filter_out (P : A -> Prop) `{!forall x, Decision (P x)} l : Forall (fun x => ~ P x) l -> filter P l = [].
Proof. induction 1 as [|x l Hx _ IH]; [done|]. by rewrite filter_cons_False. Qed.

Lemma sorted_split l k x : StronglySorted R (l ++ x :: k) -> Forall (fun y => R y x) l /\ Forall (R x) k.
Proof.
  induction l as [|y l IH]; cbn.
  - intros Hs. inversion_clear Hs. by split.
  - intros Hs. inversion_clear Hs as [|? ? Hs' Hy]. destruct (IH Hs') as [Hl Hk]. split; [|done]. constructor; [|done].
    apply Forall_app in Hy as [_ Hy]. by inversion_clear Hy.
Qed.

(** Items that compare equal, or that are looked for with one key, are equal. *)
Lemma place_rank (p : A -> bool) l message r purpose units : NoDup l -> (forall x y, x ∈ l -> y ∈ l -> cmp x y = 0 -> x = y) ->
  (forall x y, x ∈ l -> y ∈ l -> p x = true -> p y = true -> x = y) ->
  place p (Values.Array_sort cmp l) message r purpose units = placeByRank p cmp l message r purpose units.
Proof.
  intros Hd Hz Hp. pose proof (Values.ValuesFacts.Array_sort_perm cmp l) as Hperm. pose proof (sorted_strongly l) as Hs.
  unfold place, placeByRank. destruct (List.find p l) as [x|] eqn:Ef.
  - apply List.find_some in Ef as [Hin%list_elem_of_In Hpx].
    assert (Hin' : x ∈ Values.Array_sort cmp l) by by rewrite Hperm. apply list_elem_of_split in Hin' as (l1 & l2 & E). rewrite E in *.
    assert (Hmem : forall y, y ∈ l1 ++ x :: l2 -> y ∈ l) by (intros y; by rewrite Hperm).
    assert (Hd' : NoDup (l1 ++ x :: l2)) by by rewrite Hperm. apply NoDup_app in Hd' as (_ & Hdis & Hd2). apply NoDup_cons in Hd2 as [Hx2 _].
    rewrite (findIndex_app p l1 x l2); [|intros y Hy; destruct (p y) eqn:Ey; [|done]; exfalso|done].
    2: { apply (Hdis y Hy). rewrite (Hp y x); [left|apply Hmem, elem_of_app; by left|done..]. }
    f_equal. f_equal. unfold rank, zlen. f_equal. rewrite <- Hperm, filter_app. destruct (sorted_split _ _ _ Hs) as [H1 H2].
    rewrite filter_all, filter_cons_False, filter_out, app_nil_r; [done| | |].
    + eapply Forall_impl; [exact H2|]. intros y Hy Hlt. apply (cmp_flip _ Hc) in Hlt. unfold R in Hy. lia.
    + intros Hlt. pose proof (cmp_flip _ Hc x x). lia.
    + rewrite List.Forall_forall in H1 |- *. intros y Hy. specialize (H1 y Hy). unfold R in H1. apply list_elem_of_In in Hy.
      destruct (decide (cmp y x = 0)) as [E0|]; [|lia]. exfalso. apply (Hdis y Hy). rewrite (Hz y x); [left|apply Hmem, elem_of_app; by left|done..].
  - rewrite findIndex_none; [done|]. intros y Hy. rewrite Hperm in Hy. apply (List.find_none p l Ef). by apply list_elem_of_In.
Qed.
End rank.

(** The policies are distinct. *)
Lemma distinct_elem l seen x : x ∈ distinct l seen -> x ∈ l /\ x ∉ seen.
Proof.
  revert seen. induction l as [|y l IH]; intros seen; cbn; [by intros Hx%elem_of_nil|]. case_decide as Hy.
  - intros [? ?]%IH. split; [by right|done].
  - intros [->|[? Hn]%IH]%elem_of_cons; [by split; [left|]|]. split; [by right|]. intros Hs. apply Hn. by right.
Qed.

Lemma distinct_nodup l seen : NoDup (distinct l seen).
Proof.
  revert seen. induction l as [|y l IH]; intros seen; cbn; [constructor|]. case_decide as Hy; [apply IH|]. apply NoDup_cons. split; [|apply IH].
  intros [_ Hn]%distinct_elem. apply Hn. left.
Qed.

(** Items with distinct keys are told apart by them. *)
Lemma keyed_inj {A B} (key : A -> B) l : NoDup (key <$> l) -> forall x y, x ∈ l -> y ∈ l -> key x = key y -> x = y.
Proof.
  rewrite NoDup_alt. intros Hd x y [i Hi]%list_elem_of_lookup [j Hj]%list_elem_of_lookup E.
  assert (i = j) as ->. { apply (Hd i j (key x)); rewrite list_lookup_fmap; [by rewrite Hi|rewrite Hj; cbn; by rewrite E]. }
  congruence.
Qed.

Lemma findIndex_fmap {A B} (f : A -> B) p l : findIndex p (f <$> l) = findIndex (fun x => p (f x)) l.
Proof. induction l as [|x l IH]; [done|]. cbn. by rewrite IH. Qed.

(** ** The indices of a transaction *)

Section ranks.
Context `{Crc32} `{BaseEncoding}.

(** The indices of the ledger: every redeemer gets the rank of its item. *)
Definition ledgerIndices (redeemersByType : RedeemersByType) (inputs : list Values.HydratedTxIn) (policyIds : list string)
    (accounts : list (string * Credential)) (voters : list Voter.core) (executionUnits : ExUnits.core) : Res (list Redeemer.core) :=
  spends ← mapM (fun e => placeByRank (fun input => String.eqb e.1 (inputKey input)) Values.sortTxIn inputs
    ("Spend redeemer input not found in transaction: " +:+ e.1) e.2 spend executionUnits) (default [] (spendMap redeemersByType));
  mints ← mapM (fun e => placeByRank (String.eqb e.1) compareHex policyIds
    ("Mint redeemer policy not present in transaction mint: " +:+ e.1) e.2 mint executionUnits) (default [] (mintMap redeemersByType));
  withdrawals ← mapM (fun e => placeByRank (fun a => String.eqb e.1 a.1) compareAccounts accounts
    ("Withdrawal redeemer is not a script withdrawal in transaction: " +:+ e.1) e.2 withdrawal executionUnits)
    (default [] (withdrawalMap redeemersByType));
  votes ← mapM (fun e => placeByRank (fun candidate => votersEqual candidate e.1) compareVoters voters
    "Vote redeemer voter not present in transaction voting procedures" e.2 vote executionUnits) (default [] (voteList redeemersByType));
  Ok (spends ++ mints ++ withdrawals ++ votes ++
    ((fun redeemer => reindexed redeemer certificate (Redeemer.coreIndex redeemer) executionUnits) <$> default [] (certificateList redeemersByType)) ++
    ((fun redeemer => reindexed redeemer propose (Redeemer.coreIndex redeemer) executionUnits) <$> default [] (proposeList redeemersByType))).

Lemma mapM_same {A B} (f g : A -> Res B) l : (forall x, f x = g x) -> mapM f l = mapM g l.
Proof. intros Hfg. induction l as [|x l IH]; [done|]. cbn. by rewrite Hfg, IH. Qed.

Lemma spends_ranked r inputs units : NoDup (inputKey <$> inputs) ->
  spendRedeemers r (Values.Array_sort Values.sortTxIn inputs) units =
  mapM (fun e => placeByRank (fun input => String.eqb e.1 (inputKey input)) Values.sortTxIn inputs
    ("Spend redeemer input not found in transaction: " +:+ e.1) e.2 spend units) (default [] (spendMap r)).
Proof.
  intros Hd. apply mapM_same. intros e.
  pose proof (keyed_inj _ _ Hd) as Hinj.
  apply (place_rank _ sortTxIn_comparator); [exact (NoDup_fmap_1 _ _ Hd)| |].
  - intros x y Hx Hy Hz. apply Hinj; [done..|]. assert (Hxy : Values.sortTxIn x y <= 0) by lia. apply Values.ValuesFacts.sortTxIn_le in Hxy.
    assert (Hyx : Values.sortTxIn y x <= 0) by (rewrite (cmp_zero _ _ _ sortTxIn_comparator Hz); lia). apply Values.ValuesFacts.sortTxIn_le in Hyx.
    destruct Hxy as [Hlt|[E Hi]].
    + rewrite String.compare_antisym, Hlt in Hyx. destruct Hyx as [|[E' _]]; [done|]. rewrite E', Values.ValuesFacts.string_compare_refl in Hlt. done.
    + destruct Hyx as [Hlt|[_ Hi']]; [rewrite E, Values.ValuesFacts.string_compare_refl in Hlt; done|].
      unfold inputKey. rewrite E. by replace (Values.index y) with (Values.index x) by lia.
  - intros x y Hx Hy E1 E2. apply String.eqb_eq in E1, E2. apply Hinj; [done..|congruence].
Qed.

Lemma mints_ranked r body ids units : mapM SerializedValue.getPolicyId (default [] (bodyMint body)).*1 = Ok ids ->
  mintRedeemers r body units = mapM (fun e => placeByRank (String.eqb e.1) compareHex (distinct ids [])
    ("Mint redeemer policy not present in transaction mint: " +:+ e.1) e.2 mint units) (default [] (mintMap r)).
Proof.
  intros E. unfold mintRedeemers. rewrite E. cbn [mbind outcome_bind]. apply mapM_same. intros e. apply (place_rank _ compareHex_comparator).
  - apply distinct_nodup.
  - intros x y _ _. by rewrite compareHex_zero.
  - intros x y _ _ E1 E2. apply String.eqb_eq in E1, E2. congruence.
Qed.

Lemma place_fmap {A B} (f : A -> B) p l message r purpose units :
  place p (f <$> l) message r purpose units = place (fun x => p (f x)) l message r purpose units.
Proof. unfold place. by rewrite findIndex_fmap. Qed.

Lemma scriptAccounts_keyed l accounts : scriptAccounts l = Ok accounts -> Forall (fun e => rewardAccountCredential e.1 = Ok e.2) accounts.
Proof.
  unfold scriptAccounts. destruct (mapM _ l) as [k|e|] eqn:E; [|done..]. cbn. intros [= <-]. apply Forall_filter. revert k E.
  induction l as [|a l IH]; intros k; cbn; [by intros [= <-]|].
  destruct (rewardAccountCredential a) as [c|e|] eqn:Ea; [|done..]. cbn. destruct (mapM _ l) as [k'|e|] eqn:E; [|done..]. cbn. intros [= <-].
  constructor; [done|by apply IH].
Qed.

Lemma withdrawals_ranked r body accounts units : scriptAccounts (stakeAddress <$> default [] (bodyWithdrawals body)) = Ok accounts ->
  NoDup ((fun e => hash e.2) <$> accounts) ->
  withdrawalRedeemers r body units = mapM (fun e => placeByRank (fun a => String.eqb e.1 a.1) compareAccounts accounts
    ("Withdrawal redeemer is not a script withdrawal in transaction: " +:+ e.1) e.2 withdrawal units) (default [] (withdrawalMap r)).
Proof.
  intros E Hd. pose proof (scriptAccounts_keyed _ _ E) as Hk. rewrite Forall_forall in Hk. unfold withdrawalRedeemers. rewrite E. cbn [mbind outcome_bind].
  pose proof (keyed_inj _ _ Hd) as Hinj. cbn beta in Hinj.
  apply mapM_same. intros e. rewrite place_fmap. apply (place_rank _ compareAccounts_comparator); [exact (NoDup_fmap_1 _ _ Hd)| |].
  - intros x y Hx Hy Hz%compareHex_zero. by apply Hinj.
  - intros x y Hx Hy E1 E2. apply String.eqb_eq in E1, E2. apply Hinj; [done..|]. pose proof (Hk x Hx) as Hx'. pose proof (Hk y Hy) as Hy'. congruence.
Qed.

Lemma votes_ranked r body units : let voters := fst <$> default [] (bodyVotingProcedures body) in NoDup voters ->
  Forall (fun v => isVoter v = true) voters ->
  voteRedeemers r body units = mapM (fun e => placeByRank (fun candidate => votersEqual candidate e.1) compareVoters voters
    "Vote redeemer voter not present in transaction voting procedures" e.2 vote units) (default [] (voteList r)).
Proof.
  intros voters Hd Hv. rewrite Forall_forall in Hv. apply mapM_same. intros e. apply (place_rank _ compareVoters_comparator); [done| |].
  - intros x y Hx%Hv Hy%Hv. destruct x as [tx [hx kx]], y as [ty [hy ky]]. unfold isVoter in Hx, Hy. cbn in Hx, Hy.
    apply andb_true_iff in Hx as [_ Hx], Hy as [_ Hy]. apply Z.eqb_eq in Hx, Hy. subst kx ky. unfold compareVoters, orElse. cbn.
    destruct tx, ty; cbn; (intros Hz; apply compareHex_zero in Hz as ->; reflexivity) || done.
  - intros x y Hx%Hv Hy%Hv E1 E2. unfold votersEqual in E1, E2. apply andb_true_iff in E1 as [E1 E1'], E2 as [E2 E2'].
    apply bool_decide_eq_true in E1, E2. apply String.eqb_eq in E1', E2'.
    destruct x as [tx [hx kx]], y as [ty [hy ky]]. unfold isVoter in Hx, Hy. cbn in *. apply andb_true_iff in Hx as [_ Hx], Hy as [_ Hy].
    apply Z.eqb_eq in Hx, Hy. congruence.
Qed.
End ranks.


(** *** A transaction with two inputs and three voters *)

Definition demo_txIn (id : string) : Values.HydratedTxIn := {| Values.txId := id; Values.index := 0; Values.inAddress := "" |}.

Definition demo_redeemer : Redeemer.core :=
  {| Redeemer.coreIndex := 9; Redeemer.purpose := spend; Redeemer.coreData := CoreBigInt 0;
     Redeemer.executionUnits := {| ExUnits.memory := 0; ExUnits.coreSteps := 0 |} |}.

Definition demo_voters : list Voter.core :=
  (fun ty => Voter.Core ty (Build_Credential demo_hash (voterCredentialType ty))) <$> [stakePoolKeyHash; dRepKeyHash; dRepScriptHash].

Definition demo_body : TxBody :=
  {| bodyMint := Some [(demo_hash +:+ "01", 1); (demo_hash +:+ "02", 1)]; bodyWithdrawals := None;
     bodyVotingProcedures := Some ((fun v => (v, [])) <$> demo_voters) |}.

Definition demo_redeemers : RedeemersByType :=
  {| spendMap := Some [("bb#0", demo_redeemer)]; mintMap := Some [(demo_hash, demo_redeemer)]; withdrawalMap := None;
     voteList := (fun v => [(v, demo_redeemer)]) <$> (demo_voters !! 1%nat); certificateList := Some [demo_redeemer]; proposeList := None |}.

